(* ===== verification/_CoqProject ===== *)
-Q . S2P
Prelude.v
PyData.v
Schema.v
NetTheorems.v
NetDefinition.v
NetDefinitionTheorems.v
NetDocument.v
NetDocumentTheorems.v
Marking.v
Enabledness.v
Firing.v
EnablednessTheorems.v
RoutingTheorems.v
Activity.v
Records.v
Replay.v
Lifecycle.v
Selection.v
Instance.v
Dispatch.v
LocalDispatch.v
LocalInvariant.v
Custody.v
LocalTheorems.v
Codec.v
CodecTheorems.v
HistoryStores.v
StoreTheorems.v
SqliteTheorems.v
Construction.v
Commit.v
Invariant.v
Operations.v
Coherence.v
LifecycleCoherence.v
Projections.v
Registrations.v
Soundness.v
Reachability.v
Scenario.v
ResumeTheorems.v
InstanceTheorems.v
FiringTheorems.v
DeliveryTheorems.v
BehaviourTheorems.v
Coordination.v
Driving.v
DriveInvariant.v
DriveSteps.v
DriveTheorems.v
Engine.v
EngineTheorems.v
Providers.v
AgentText.v
Effect.v
EffectTheorems.v
Descriptor.v
Catalog.v
CatalogTheorems.v
Fabric.v
FabricTheorems.v
FabricEngine.v
Processes.v
ProcessTheorems.v
AgentThread.v
AgentThreadInvariant.v
AgentThreadTheorems.v
AgentThreadWire.v
Programs.v
Hands.v
HandsGateway.v
EpisodeAttachment.v
HandsSafety.v
HandsTheorems.v
Settlement.v
ConnectionStorage.v
ConnectionCustody.v
ConnectionInvariant.v
ConnectionTheorems.v
Divergences.v
