(* ===== verification/Prelude.v ===== *)
(** * Petrus: the Petri-net runtime, modelled and verified

    Petrus runs processes described as coloured, timed Petri nets. A net is
    built and validated once; an Instance runs it by appending facts to a
    history, and everything an Instance knows is a projection of that history,
    so that a crashed Instance resumes from its records. An Engine hosts one
    Instance: it drives it turn by turn, hands its Activities to a Dispatch
    provider, and takes their outcomes back. This library models that stack
    (src/src/petrus/impetus, src/src/petrus/engine, the activity contracts and
    providers of src/src/petrus/motus, the delivery tables and processes of
    src/src/petrus/fabric and processes, and the agent threads, effects,
    catalog, workspace tools, attachments and connections of
    src/src/petrus/agenticus) and proves that the live state and
    the replayed one agree, that operations are atomic and do what they say,
    that durable stores give back what they were given, that a worker's lease is
    exclusive, that no Activity is lost between history, engine and provider,
    and that a delivery between two processes is one firing of its recipient.

    ** How the parts fit together

    A Net (schema.py) declares places, transitions and arcs. A Marking
    distributes coloured tokens over places (marking.py). Enabledness
    (enabledness.py) answers which bindings may fire: each input arc offers the
    selections its inscription and filter admit, guards and timers judge their
    combinations. The Petrinet transforms (petrinet/firing.py, routing.py) move
    tokens. The Instance (instance/__init__.py) begins a firing by consuming a
    binding, runs or dispatches its handler, and completes it by depositing the
    projection, appending one batch of records (history/__init__.py) for each
    boundary; external events enter through source transitions with armed
    registrations and an identity that makes redelivery idempotent; lifecycle
    scopes cancel the tokens and occurrences of one generation together. The
    folds of history/__init__.py and instance/firing.py rebuild each part of the
    live state from the records. Records are spelled by history/codec.py and
    kept by the stores of history_store/. Policies (selection/__init__.py)
    choose among candidates. The Coordinator (engine/_coordination.py) observes
    the Instance, its provider and its sensor, lets a driving policy choose one
    action and applies it; the Engine (engine/__init__.py) guards its doors and
    releases its resources. Providers (motus/dispatch) take custody of requested
    Activities: LocalDispatch keeps them in a database that workers claim from
    under leases, report to and are fenced out of. Processes, each hosted by its
    own Engine, send each other envelopes through shared tables (fabric/): a
    sender submits, the recipient's inbox drains what is pending into its
    Engine's delivery door and acknowledges it; calls and replies are pairs of
    envelopes, and a process spawns another through a registry of lineages
    (processes/).

    ** Files

    - Prelude: the error type [result] and its loops, Python dictionaries as
      association lists in insertion order, strings as UTF-8 bytes, sorting,
      combinations and products, the tactics [inv_ok] and the hint database.
    - PyData: payload values, Python equality, the JSON spelling of payloads
      (_canonical_payload, _canonical_payload_text).
    - Schema: petrinet/schema.py, and the spellings of node addresses and
      payloads; NetTheorems: what a constructed net guarantees, and that a net
      rebuilt from its declarations in another order is the same net.
    - NetDefinition: net_definition.py, the v3 models and their
      validators, projection, compilation, the wire form;
      NetDefinitionTheorems: its round trip. NetDocument: net_document.py;
      NetDocumentTheorems: what an admitted document is about.
    - Marking: petrinet/marking.py and scope.py; value removal and the
      identities it resolves.
    - Enabledness: petrinet/enabledness.py; EnablednessTheorems: the survey
      against the arcs and the clock.
    - Firing: petrinet/firing.py, petrinet/routing.py and the passthrough of
      binding/__init__.py; RoutingTheorems: what a completion deposits.
    - Activity: policies, invocations and failures of
      motus/activity/__init__.py, its retry delay and the provider's milliseconds.
    - Records: the record types of history/__init__.py and their validation;
      Replay: its folds, with their invariants.
    - Lifecycle: instance/firing.py, and what an accepted lifecycle fold says of
      a history.
    - Selection: selection/__init__.py, the policy protocol as a class with its
      laws, which the built-in policies and pipelines discharge.
    - Instance: the state, the monad and every operation of
      instance/__init__.py; Construction: symbol binding, __init__, resume and
      the validators resume adds.
    - Dispatch: motus/dispatch/__init__.py, the provider protocol as a class,
      the in-memory and the inline provider. LocalDispatch:
      motus/dispatch/local.py, each transaction a function on the database, with the
      round trips of stored invocations and outcomes. LocalInvariant: the
      invariant of the tables. Custody: the abstract specification, one
      occurrence's custody as a machine of labelled steps, of which a transaction
      takes at most one, its own;
      LocalTheorems: what follows for sessions and workers.
    - Codec: history/codec.py; CodecTheorems: its round trip. HistoryStores:
      history_store/jsonl.py and sqlite.py; StoreTheorems, SqliteTheorems: what
      they keep, also when a write is cut short or several handles commit.
    - Commit: the abstract specification of an Instance, a relation between live
      states and the batches that take one to the next. Invariant: the
      invariant its steps keep. Operations: every operation implements it.
    - Coherence, LifecycleCoherence, Projections, Registrations: each fold is
      simulated by the commit relation. Soundness: the invariant and the coherence
      of all folds together, and what commits do to the tokens of each place. Reachability: what resume rebuilds, and the states an
      Instance can reach, by construction, operations and resuming.
    - Scenario: a concrete Instance driven through the operations, at which the
      witnesses evaluate.
    - ResumeTheorems: a simulation of every operation between a resumed Instance
      and the one that wrote its history.
    - InstanceTheorems, FiringTheorems, DeliveryTheorems,
      BehaviourTheorems: the properties of the Instance.
    - Coordination: engine/_coordination.py, over any provider, clock and
      selection policy. Driving: the laws of a provider as a class, and what a
      step does to the Activities in flight. DriveInvariant: a program logic of
      triples for the Coordinator; DriveSteps: the triples of its phases;
      DriveTheorems: driving policies and drives.
    - Engine: engine/__init__.py; EngineTheorems: hosted engines. Providers: the
      local and the inline provider are lawful, and the engine over a database
      it shares with workers.
    - AgentText: the field checks and decoders the agent values share. Effect:
      agenticus/effect/model.py, and effect/gateway.py as a tree of calls, run
      against any host; EffectTheorems.
    - Descriptor:
      agenticus/catalog/descriptor.py and program/descriptor.py, with their wire
      forms. Catalog: catalog/resolution.py and result.py;
      CatalogTheorems: the registry and its resolutions.
    - Fabric: fabric/model.py, postgres.py and ingress.py, a client operation a
      transaction on the tables. FabricTheorems: the ledger, the delivery door
      as a class with its laws ([LawfulDoor]), and the interleavings of a
      process with its inboxes. FabricEngine: an Engine is a lawful door.
    - Processes: processes/call.py, model.py, spawn.py and postgres.py;
      ProcessTheorems: calls and spawns.
    - AgentThread: agenticus/thread/lifecycle.py, continuation.py and the
      identities they use; AgentThreadInvariant: the constructor checks as an
      invariant; AgentThreadTheorems: the lifecycle; AgentThreadWire: the wire
      forms and their round trip.
    - Programs: code that calls the outside or shares state, as trees of effects
      that may raise, and the safety of one against a monitor, whatever it is
      answered.
    - Hands: agenticus/hands/contract.py and grants.py, tool requests, results,
      grants and the grant ledger. HandsGateway: hands/gateway.py as programs
      over their effects. EpisodeAttachment: attachment/episode.py, the lifecycle
      operations as programs, the shared state and the schedules of its threads.
      HandsSafety: a monitor of one thread's actions and what every program
      keeps of it; HandsTheorems: the invariants of all threads together;
      Settlement: the table of claimed calls, draining and settlement.
    - ConnectionStorage: agenticus/connection/storage.py, the snapshot of hosts,
      connections, leases and audit, and its validation. ConnectionCustody:
      connection/custody.py, each operation a pure change of a snapshot and a
      program that commits it by compare-and-swap, and an installation of many
      custodians over one store. ConnectionInvariant: what the validation says
      ([wf]), which every change keeps, and how rows may evolve;
      ConnectionTheorems: a monitor of one custodian, and what all of them
      together keep.
    - Divergences: concrete states on which the code departs from its own
      documentation or interfaces.

    ** Conventions

    Pure functions are functions into [result]; a raising call is [Err] with the
    exception class and the fixed part of its message (the interpolated values
    of messages are not modelled). Operations of an Instance are computations
    [M A] over its configuration, store and live state, those of a Coordinator
    are computations [CM D K A] over its whole state; an exception keeps the
    state reached so far, as in Python, and [try_with] and [ctry] are
    try/except. A database transaction is a function into [result] with the new
    database, so an exception rolls it back. Instants and durations are integers
    (the source leaves them abstract and ordered); provider milliseconds are
    computed on 53-bit floats and 64-bit columns refuse what exceeds them.
    Values whose Python type the source checks at run time are typed here, so
    those checks have no counterpart. To the Instance a durable backend is its
    observable behaviour: each append is taken whole or refused, by a script of
    refusals any reachable state may carry; commit hooks, hosting hooks and
    sensors are scripts of answers in the same way. Handlers, guards, filters,
    the scheduler, the completion condition and the inline-expression compilers
    are arguments; a handler may raise, and a guard or filter that raises is
    [None]. The threads of an Episode Attachment interleave between the actions
    of their programs: an action is one critical section of a gateway's
    condition, of the grant ledger or of the attachment's barrier, which is a
    re-entrant lock, or one call to the outside, and the schedule carries the
    outside's answer, a value, another object, an exception or a
    BaseException; the wait for an identical call may be interrupted, other
    code raises no BaseException of its own. Deadlines are whole clock ticks. The
    custodians of an installation interleave in the same way, between loads, swaps, and calls to the clock, the keys and the
    files; a swap may be applied and raise all the same. Custody's theorems
    assume that digests are hexadecimal, that the materializations of an
    installation have different 128-bit digests of their identities (they name
    leases) and that sealing gives bytes. The logarithms and exponentials of a geometric backoff and the size
    of a JSON text are a parameter, [Platform].

    ** What the theorems show

    - Replay (C1, C2, C3): in every reachable Instance each fold over
      the history succeeds and gives the live queues, marking, entry instants,
      occurrences, frozen and terminal facts, quarantines, registrations,
      accepted identities, scopes, clock and counters; a resumed Instance cannot be
      told from the one that wrote its history.
    - The Instance as a state machine (C7, C8, C9): exactly-once
      boundaries in their order, the live invariant, atomicity under failed checks and refused
      appends.
    - Firing (C24, C25, C26): exact effects of begin, complete and scope
      closure.
    - Delivery and activity reports (C27): idempotent redelivery,
      identities never reused, first report wins, late reports quarantined.
    - Enabledness and time (C12, C37, C39): candidates are exactly
      the bindings that may fire, stated arc by arc without the survey; maturation
      is the first instant something changes; wake, quiescence and the inline loop.
    - Engine and Coordinator (C4, C5, C40, C34, C35): while
      no door has failed and once the engine has reconciled, custody of every
      Activity in flight through any sequence of calls, in-process and over a
      database shared with workers, which cancel nothing of its instance, and
      reloads whose session has been told only of its history; closing a scope
      fences its Activities after the close is durable; a resting drive is
      justified; a failed door poisons the engine.
    - Local custody (C10, C11, C36): every transaction leaves an
      occurrence alone or takes it one step of the custody machine, its own; leases are exclusive, attempts bounded, fences final,
      results delivered.
    - Durability (C29, C32, C33): a well-formed, admissible record
      round-trips; a JSONL file of recordable batches, never opened over a line
      without its newline, reopens to a whole-record prefix, the records
      themselves when their token data is JSON; a SQLite table keeps one history
      per instance.
    - Structure (C38) and its wire formats (C30, C31): well-formed nets; a
      net and its definition determine each other; an admitted document is
      about the net it carries.
    - Between processes (C15, C6, C28, C22): the delivery table is
      a ledger; a delivery is one firing of its recipient, whatever is
      interrupted, restarted or repeated; a drain empties the inbox; replies
      find their calls; a spawn happens once.
    - Agents (C13, C14, C23): the thread lifecycle keeps every
      constructor check, settlements are final, threads survive their wire form;
      the effect gateway executes at most once, whatever its host answers;
      resolving a catalog request reports exactly its defects, provided the
      versions it requires can be spelled within the text limit.
    - Workspace tools (C16, C18, C17): whatever the threads of an
      attachment and the outside do, the adapter only carries out requests that
      a current grant permits, a grant is not overspent, and after a settlement
      or a release nothing reaches the territory.
    - Agent connections (C21, C20, C19), under the
      assumptions on digests and sealing above: custody's own state always passes its store's checks; an operation's identity is
      used once by all custodians together; authority taken away from a host or
      a connection is never honoured again.
    - Divergences shows where the code departs from its own promises.

    ** Fuel

    [run] loops while a step fires something, which a net may do forever: it
    answers [None] when the fuel runs out, and C39 says that once it returns a
    result every larger fuel gives the same one. The choices of one drive take
    the number of offers as fuel, each round that applies nothing taking one
    offer away; drive_loop_fuel in DriveTheorems shows that more changes
    nothing. Every other definition is structural.

    ** Not modelled

    Log emission, telemetry and warnings, object identity and defensive copies,
    exact-type checks, the size limit on encoded failure details, floating-point
    overflow, typed handlers derived from signatures, the CEL adapter (a
    parameter), read-only views and diagrams,
    schema creation, validation and migration of the databases, the order in
    which SQLite answers an unordered SELECT (taken as the insertion order),
    file locks and forks of the SQLite writer fence, the PostgreSQL store and
    the engines opened over it, thread re-entry and waiting of an Engine, worker
    processes, transport, the creation of the Fabric's schema and its
    credentials and notifications, the agent runtimes, the keys, private files
    and stored text of agent connections, the
    bindings of an attachment and the custody its host retains: they are process,
    network and database I/O around the parts modelled here.

    ** Order of work

    Next: resume succeeds on every reachable history whose initial marking is on
    declared places; observation and bounded simulation; the records of a reachable Instance are ones the
    stores accept; the fold of committed selections against the policies; the
    worker loop over the local provider; the custody of released attachments. *)

From stdpp Require Import base gmap sets list strings sorting.
From Stdlib Require Import Sorted ZArith Lia.

(** ** Errors

    A raising Python call is a value: [Err] with the exception class and the
    fixed part of its message. [TokenNotPresent]
    (a [ValueError]) and [CommitRefused] (the wrapper of a refusing history
    backend) are the exceptions the sources define and catch by name. *)
Inductive exn :=
| ValueError (msg : string)
| TypeError (msg : string)
| RuntimeError (msg : string)
| KeyError (msg : string)
| IndexError (msg : string)
| TokenNotPresent
| StoreError (msg : string)
| CommitRefused (e : exn).

#[export] Instance exn_eq_dec : EqDecision exn.
Proof. solve_decision. Defined.

Inductive result (A : Type) :=
| Ok (a : A)
| Err (e : exn).
Arguments Ok {A} a.
Arguments Err {A} e.

#[export] Instance result_ret : MRet result := @Ok.
#[export] Instance result_bind : MBind result := λ A B f r,
  match r with Ok a => f a | Err e => Err e end.
#[export] Instance result_fmap : FMap result := λ A B f r,
  match r with Ok a => Ok (f a) | Err e => Err e end.

#[export] Instance result_eq_dec {A} `{EqDecision A} : EqDecision (result A).
Proof. solve_decision. Defined.

(** [if b: raise e] *)
Definition raise_if (b : bool) (e : exn) : result unit :=
  if b then Err e else Ok tt.

(** [d[k]] and friends: an absent value raises [e]. *)
Definition or_raise {A} (o : option A) (e : exn) : result A :=
  match o with Some a => Ok a | None => Err e end.

(** [try: m except TokenNotPresent: raise e] *)
Definition rewrap_not_present {A} (m : result A) (e : exn) : result A :=
  match m with Err TokenNotPresent => Err e | _ => m end.

Create HintDb petrus.

Definition is_ok {A} (r : result A) : bool :=
  match r with Ok _ => true | Err _ => false end.

(** The value of a computation known to return. *)
Definition ok_or {A} (d : A) (r : result A) : A := match r with Ok a => a | Err _ => d end.

Lemma ok_or_Ok {A} (d : A) (r : result A) : is_ok r = true → r = Ok (ok_or d r).
Proof. by destruct r. Qed.

(** A [for] loop whose body may raise: the accumulator is the mutable state. *)
Fixpoint foldM {A B} (f : B → A → result B) (b : B) (l : list A) : result B :=
  match l with
  | [] => Ok b
  | a :: l => b' ← f b a; foldM f b' l
  end.

(** A [for] loop that only validates. *)
Definition forM_ {A} (f : A → result unit) (l : list A) : result unit :=
  foldM (λ _ a, f a) tt l.

(** A list comprehension whose element expression may raise. *)
Fixpoint mapR {A B} (f : A → result B) (l : list A) : result (list B) :=
  match l with
  | [] => Ok []
  | a :: l => b ← f a; bs ← mapR f l; Ok (b :: bs)
  end.

Lemma bind_Ok {A B} (m : result A) (f : A → result B) b :
  (m ≫= f) = Ok b ↔ ∃ a, m = Ok a ∧ f a = Ok b.
Proof. destruct m; simpl; naive_solver. Qed.

Lemma bind_Ok_l {A B} (a : A) (f : A → result B) : (Ok a ≫= f) = f a.
Proof. done. Qed.

Lemma raise_if_Ok b e u : raise_if b e = Ok u ↔ b = false.
Proof. destruct b, u; simpl; naive_solver. Qed.

Lemma raise_if_false b e : b = false → raise_if b e = Ok tt.
Proof. by intros ->. Qed.

Lemma or_raise_Ok {A} (o : option A) e a : or_raise o e = Ok a ↔ o = Some a.
Proof. destruct o; simpl; naive_solver. Qed.

Lemma rewrap_Ok {A} (m : result A) e a : rewrap_not_present m e = Ok a ↔ m = Ok a.
Proof. destruct m as [|[]]; simpl; naive_solver. Qed.

Lemma foldM_app {A B} (f : B → A → result B) b l1 l2 :
  foldM f b (l1 ++ l2) = (b' ← foldM f b l1; foldM f b' l2).
Proof.
  revert b; induction l1 as [|a l1 IH]; intros b; simpl; [done|].
  destruct (f b a); simpl; [apply IH | done].
Qed.

Lemma foldM_snoc {A B} (f : B → A → result B) b l a b' :
  foldM f b l = Ok b' → foldM f b (l ++ [a]) = f b' a.
Proof.
  intros H. rewrite foldM_app, H. simpl. by destruct (f b' a).
Qed.

(** Loop invariants: a property of the accumulator kept by every iteration. *)
Lemma foldM_inv {A B} (P : B → Prop) (f : B → A → result B) l b b' :
  P b → (∀ c a c', a ∈ l → P c → f c a = Ok c' → P c') →
  foldM f b l = Ok b' → P b'.
Proof.
  revert b; induction l as [|a l IH]; simpl; intros b Hb Hstep Hf.
  - naive_solver.
  - apply bind_Ok in Hf as (c & Hc & Hf).
    eapply IH; [| |exact Hf]; [|set_solver]. eapply Hstep; [|done|done]; set_solver.
Qed.

Lemma forM_Ok {A} (f : A → result unit) l u :
  forM_ f l = Ok u ↔ Forall (λ a, f a = Ok tt) l.
Proof.
  unfold forM_. destruct u. induction l as [|a l IH]; simpl; [done|].
  rewrite Forall_cons, <-IH, bind_Ok. split.
  - intros ([] & ? & ?); auto.
  - intros [? ?]; eauto.
Qed.

Lemma mapR_Ok {A B} (f : A → result B) l k :
  mapR f l = Ok k ↔ Forall2 (λ a b, f a = Ok b) l k.
Proof.
  revert k; induction l as [|a l IH]; intros k; simpl.
  - split; [by intros [= <-] | by inversion 1].
  - rewrite bind_Ok; setoid_rewrite bind_Ok; setoid_rewrite IH. split.
    + intros (b & ? & bs & ? & [= <-]). by constructor.
    + inversion 1; subst; eauto 10.
Qed.

(** Break a successful monadic computation into its steps. *)
Ltac inv_ok :=
  repeat match goal with
  | H : Ok _ = Ok _ |- _ => injection H; clear H; intros; try subst
  | H : Err _ = Ok _ |- _ => discriminate H
  | H : (_ ≫= _) = Ok _ |- _ => apply bind_Ok in H; destruct H as (? & ? & H)
  | H : raise_if _ _ = Ok _ |- _ => apply raise_if_Ok in H
  | H : or_raise _ _ = Ok _ |- _ => apply or_raise_Ok in H
  | H : rewrap_not_present _ _ = Ok _ |- _ => apply rewrap_Ok in H
  | H : match ?x with pair _ _ => _ end = Ok _ |- _ => is_var x; destruct x
  | u : unit |- _ => destruct u
  end.

(** Filtering. *)
Lemma filter_ext_in {A} (P Q : A → Prop) `{∀ x, Decision (P x), ∀ x, Decision (Q x)} (l : list A) :
  (∀ x, x ∈ l → P x ↔ Q x) → filter P l = filter Q l.
Proof.
  induction l as [|x l IH]; intros HPQ; [done|].
  rewrite !filter_cons. rewrite IH by set_solver.
  assert (P x ↔ Q x) by set_solver. repeat case_decide; naive_solver.
Qed.

Lemma filter_all {A} (P : A → Prop) `{∀ x, Decision (P x)} (l : list A) :
  (∀ x, x ∈ l → P x) → filter P l = l.
Proof.
  induction l as [|x l IH]; intros HP; [done|].
  rewrite filter_cons, decide_True by set_solver. rewrite IH by set_solver. done.
Qed.

Lemma filter_none {A} (P : A → Prop) `{∀ x, Decision (P x)} (l : list A) :
  (∀ x, x ∈ l → ¬ P x) → filter P l = [].
Proof.
  induction l as [|x l IH]; intros HP; [done|].
  rewrite filter_cons, decide_False by set_solver. apply IH. set_solver.
Qed.

Lemma filter_sublist {A} (P : A → Prop) `{∀ x, Decision (P x)} (l : list A) : filter P l `sublist_of` l.
Proof. induction l as [|x l IH]; [done|]. rewrite filter_cons. case_decide; by constructor. Qed.

Lemma fmap_sublist {A B} (f : A → B) (l k : list A) : l `sublist_of` k → f <$> l `sublist_of` f <$> k.
Proof. induction 1; csimpl; by constructor. Qed.

(** ** Python dictionaries

    A [dict] is an association list in insertion order: assignment to a
    present key keeps its position, assignment to an absent one appends, and
    deletion drops the entry. Iteration order is observable in the sources
    (movement effects, cleanup sets, in-flight order), so the order is kept. *)
Notation dict K V := (list (K * V)) (only parsing).

Section dict.
  Context {K V : Type} `{EqDecision K}.
  Implicit Types (d : dict K V) (k : K) (v : V).

Fixpoint dget k d : option V :=
  match d with
  | [] => None
  | (k', v) :: d => if decide (k = k') then Some v else dget k d
  end.

Fixpoint dset k v d : dict K V :=
  match d with
  | [] => [(k, v)]
  | (k', v') :: d => if decide (k = k') then (k', v) :: d else (k', v') :: dset k v d
  end.

Fixpoint ddel k d : dict K V :=
  match d with
  | [] => []
  | (k', v') :: d => if decide (k = k') then d else (k', v') :: ddel k d
  end.

Definition dget_default (k : K) (dflt : V) d : V := default dflt (dget k d).
Definition dmem k d : bool := bool_decide (is_Some (dget k d)).
Definition dkeys d : list K := d.*1.
Definition dvals d : list V := d.*2.

(** [{f(x): g(x) for x in xs}] *)
Definition dict_of_list (l : list (K * V)) : dict K V :=
  foldl (λ d kv, dset kv.1 kv.2 d) [] l.

Lemma dget_dset_eq k v d : dget k (dset k v d) = Some v.
Proof. induction d as [|[k' v'] d IH]; simpl; repeat (case_decide; simpl); naive_solver. Qed.

Lemma dget_dset_ne k k' v d : k ≠ k' → dget k (dset k' v d) = dget k d.
Proof. intros. induction d as [|[k'' v'] d IH]; simpl; repeat (case_decide; simpl); naive_solver. Qed.

Lemma dget_dset k k' v d :
  dget k (dset k' v d) = if decide (k = k') then Some v else dget k d.
Proof. case_decide; subst; [apply dget_dset_eq | by apply dget_dset_ne]. Qed.

Lemma dget_ddel_ne k k' d : k ≠ k' → dget k (ddel k' d) = dget k d.
Proof. intros. induction d as [|[k'' v'] d IH]; simpl; repeat (case_decide; simpl); naive_solver. Qed.

Lemma dget_None k d : dget k d = None ↔ k ∉ dkeys d.
Proof.
  unfold dkeys. induction d as [|[k' v'] d IH]; csimpl.
  - split; [intros _; apply not_elem_of_nil|done].
  - rewrite not_elem_of_cons. case_decide; naive_solver.
Qed.

Lemma dget_is_Some k d : is_Some (dget k d) ↔ k ∈ dkeys d.
Proof.
  rewrite <-not_eq_None_Some, dget_None. split; [|naive_solver].
  intros. by destruct (decide (k ∈ dkeys d)).
Qed.

Lemma dget_elem_of k v d : dget k d = Some v → (k, v) ∈ d.
Proof.
  induction d as [|[k' v'] d IH]; simpl; [done|].
  case_decide; intros; simplify_eq; set_solver.
Qed.

Lemma elem_of_dget k v d : NoDup (dkeys d) → (k, v) ∈ d → dget k d = Some v.
Proof.
  induction d as [|[k' v'] d IH]; simpl; [set_solver|].
  intros [Hk Hd]%NoDup_cons [?|Hin]%elem_of_cons; simplify_eq.
  - by rewrite decide_True.
  - rewrite decide_False; [eauto|]. intros ->. apply Hk.
    change k' with (k', v).1. by apply list_elem_of_fmap_2.
Qed.

Lemma dset_fresh k v d : dget k d = None → dset k v d = d ++ [(k, v)].
Proof.
  induction d as [|[k' v'] d IH]; simpl; [done|].
  case_decide; [done|]. intros; f_equal; auto.
Qed.

Lemma dset_same k v d : dget k d = Some v → dset k v d = d.
Proof.
  induction d as [|[k' v'] d IH]; simpl; [done|].
  case_decide; intros; simplify_eq; [done|]. f_equal; auto.
Qed.

Lemma dset_dset k v w d : dset k w (dset k v d) = dset k w d.
Proof.
  induction d as [|[k' v'] d IH]; simpl; [by rewrite decide_True|].
  case_decide; simpl; [by rewrite decide_True|]. rewrite decide_False by done. by rewrite IH.
Qed.

Lemma dkeys_dset_in k v d : k ∈ dkeys d → dkeys (dset k v d) = dkeys d.
Proof.
  induction d as [|[k' v'] d IH]; intros Hin; [by apply elem_of_nil in Hin|].
  simpl. destruct (decide (k = k')) as [->|Hne]; [done|].
  apply elem_of_cons in Hin as [?|Hin]; [done|]. simpl. f_equal. by apply IH.
Qed.

Lemma dkeys_dset_fresh k v d : k ∉ dkeys d → dkeys (dset k v d) = dkeys d ++ [k].
Proof. intros H%dget_None. rewrite dset_fresh by done. unfold dkeys. by rewrite fmap_app. Qed.

Lemma NoDup_dkeys_dset k v d : NoDup (dkeys d) → NoDup (dkeys (dset k v d)).
Proof.
  intros Hd. destruct (decide (k ∈ dkeys d)); [by rewrite dkeys_dset_in|].
  rewrite dkeys_dset_fresh by done.
  apply NoDup_app; split_and!; [done| |apply NoDup_singleton]. set_solver.
Qed.

Lemma dkeys_ddel_subset k d : dkeys (ddel k d) ⊆ dkeys d.
Proof.
  unfold dkeys. induction d as [|[k' v'] d IH]; csimpl; [done|].
  case_decide; set_solver.
Qed.

Lemma NoDup_dkeys_ddel k d : NoDup (dkeys d) → NoDup (dkeys (ddel k d)).
Proof.
  induction d as [|[k' v'] d IH]; simpl; [done|]. intros [Hk Hd]%NoDup_cons.
  case_decide; [done|]. simpl. constructor; [|by apply IH].
  intros Hin. by apply Hk, (dkeys_ddel_subset k).
Qed.

Lemma dget_ddel_eq k d : NoDup (dkeys d) → dget k (ddel k d) = None.
Proof.
  induction d as [|[k' v'] d IH]; simpl; [done|]. intros [Hk Hd]%NoDup_cons.
  destruct (decide (k = k')) as [->|]; simpl; [by apply dget_None|].
  rewrite decide_False by done. by apply IH.
Qed.

Lemma dget_ddel k k' d :
  NoDup (dkeys d) → dget k (ddel k' d) = if decide (k = k') then None else dget k d.
Proof. intros. case_decide; subst; [by apply dget_ddel_eq | by apply dget_ddel_ne]. Qed.

Lemma ddel_absent k d : dget k d = None → ddel k d = d.
Proof.
  induction d as [|[k' v'] d IH]; simpl; [done|].
  case_decide; [done|]. intros; f_equal; auto.
Qed.

Lemma NoDup_dict_of_list l : NoDup (dkeys (dict_of_list l)).
Proof.
  unfold dict_of_list. assert (NoDup (dkeys ([] : dict K V))) as H by constructor.
  revert H. generalize ([] : dict K V). induction l as [|[k v] l IH]; intros d Hd; [done|].
  apply IH. by apply NoDup_dkeys_dset.
Qed.

Lemma dict_of_list_app l1 l2 :
  NoDup (dkeys (l1 ++ l2)) → foldl (λ d kv, dset kv.1 kv.2 d) l1 l2 = l1 ++ l2.
Proof.
  revert l1. induction l2 as [|[k v] l2 IH]; intros l1 Hnd; simpl; [by rewrite app_nil_r|].
  rewrite dset_fresh.
  - rewrite IH, <-(assoc_L (++)); [done|]. by rewrite <-(assoc_L (++)).
  - apply dget_None. unfold dkeys in *. rewrite fmap_app in Hnd. apply NoDup_app in Hnd as (_ & Hd & _).
    intros Hk. apply (Hd _ Hk). csimpl. left.
Qed.

Lemma dict_of_list_id l : NoDup (dkeys l) → dict_of_list l = l.
Proof. intros Hnd. unfold dict_of_list. by apply (dict_of_list_app []). Qed.

Lemma dmem_true k d : dmem k d = true ↔ k ∈ dkeys d.
Proof. unfold dmem. rewrite bool_decide_eq_true. apply dget_is_Some. Qed.

Lemma dmem_false k d : dmem k d = false ↔ dget k d = None.
Proof. unfold dmem. rewrite bool_decide_eq_false, eq_None_not_Some. done. Qed.

Lemma ddel_filter k d : NoDup (dkeys d) → ddel k d = filter (λ kv, kv.1 ≠ k) d.
Proof.
  unfold dkeys. induction d as [|[k' v] d IH]; csimpl; [done|]. intros [Hk Hd]%NoDup_cons.
  rewrite filter_cons; simpl. destruct (decide (k = k')) as [->|Hne].
  - rewrite decide_False by naive_solver. symmetry. apply filter_all. intros [k2 v'] Hin Heq.
    simpl in Heq. subst. apply Hk, list_elem_of_fmap. by exists (k', v').
  - rewrite decide_True by naive_solver. by rewrite IH.
Qed.

Lemma foldl_ddel_filter (ks : list K) d :
  NoDup (dkeys d) → foldl (λ d k, ddel k d) d ks = filter (λ kv, kv.1 ∉ ks) d.
Proof.
  revert d. induction ks as [|k ks IH]; intros d Hd; simpl.
  - symmetry. apply filter_all. intros kv _. apply not_elem_of_nil.
  - rewrite IH by (by apply NoDup_dkeys_ddel). rewrite ddel_filter by done. rewrite list_filter_filter.
    apply filter_ext_in. intros kv _. rewrite not_elem_of_cons. naive_solver.
Qed.

Lemma NoDup_dkeys_filter (P : K * V → Prop) `{∀ kv, Decision (P kv)} d :
  NoDup (dkeys d) → NoDup (dkeys (filter P d)).
Proof. intros Hd. eapply sublist_NoDup; [exact Hd|]. apply fmap_sublist, filter_sublist. Qed.

Lemma dget_filter (P : K * V → Prop) `{∀ kv, Decision (P kv)} k d :
  NoDup (dkeys d) →
  dget k (filter P d) = match dget k d with Some v => if decide (P (k, v)) then Some v else None | None => None end.
Proof.
  unfold dkeys. induction d as [|[k' v] d IH]; csimpl; [done|]. intros [Hk Hd]%NoDup_cons.
  rewrite filter_cons. destruct (decide (k = k')) as [->|Hne].
  - destruct (decide (P (k', v))); simpl; [by rewrite decide_True|].
    rewrite IH by done. by rewrite (proj2 (dget_None k' d)).
  - destruct (decide (P (k', v))); simpl; [rewrite decide_False by done|]; by apply IH.
Qed.

Lemma dget_app k d1 d2 : dget k (d1 ++ d2) = match dget k d1 with Some v => Some v | None => dget k d2 end.
Proof. induction d1 as [|[k' v] d1 IH]; simpl; [done|]. by case_decide. Qed.

Lemma NoDup_dkeys_cons k v d : NoDup (dkeys ((k, v) :: d)) ↔ dget k d = None ∧ NoDup (dkeys d).
Proof. unfold dkeys. rewrite fmap_cons, NoDup_cons. by rewrite dget_None. Qed.

Lemma dget_cons k k' v d : dget k ((k', v) :: d) = if decide (k = k') then Some v else dget k d.
Proof. done. Qed.

Lemma dkeys_app d1 d2 : dkeys (d1 ++ d2) = dkeys d1 ++ dkeys d2.
Proof. unfold dkeys. apply fmap_app. Qed.

End dict.

#[export] Hint Resolve NoDup_dkeys_dset NoDup_dkeys_ddel NoDup_dict_of_list : petrus.
#[export] Hint Rewrite @dget_dset_eq : petrus.

(** ** Sequences: [sorted], [itertools], [max]/[min] *)

Fixpoint insert_by {A} (leb : A → A → bool) (x : A) (l : list A) : list A :=
  match l with
  | [] => [x]
  | y :: l => if leb x y then x :: y :: l else y :: insert_by leb x l
  end.

(** Python's stable [sorted]. *)
Fixpoint sorted_by {A} (leb : A → A → bool) (l : list A) : list A :=
  match l with
  | [] => []
  | x :: l => insert_by leb x (sorted_by leb l)
  end.

(** [itertools.combinations(l, k)], in its lexicographic order. *)
Fixpoint combinations {A} (l : list A) (k : nat) : list (list A) :=
  match l with
  | [] => match k with O => [[]] | S _ => [] end
  | x :: l' =>
      match k with
      | O => [[]]
      | S k' => (cons x <$> combinations l' k') ++ combinations l' k
      end
  end.

(** [itertools.product( *ls )], rightmost factor varying fastest. *)
Fixpoint product {A} (ls : list (list A)) : list (list A) :=
  match ls with
  | [] => [[]]
  | l :: ls => x ← l; cons x <$> product ls
  end.

(** [max(l, default=None)] and [min(l, default=None)] over integers. *)
Fixpoint max_opt (l : list Z) : option Z :=
  match l with
  | [] => None
  | x :: l => Some (match max_opt l with Some m => Z.max x m | None => x end)
  end.

Fixpoint min_opt (l : list Z) : option Z :=
  match l with
  | [] => None
  | x :: l => Some (match min_opt l with Some m => Z.min x m | None => x end)
  end.

(** [tuple(range(a, a + n))] *)
Definition zrange (a : Z) (n : nat) : list Z := (λ i, (a + Z.of_nat i)%Z) <$> seq 0 n.

Lemma insert_by_perm {A} (leb : A → A → bool) x l : insert_by leb x l ≡ₚ x :: l.
Proof.
  induction l as [|y l IH]; simpl; [done|]. destruct (leb x y); [done|].
  rewrite IH. apply Permutation_swap.
Qed.

Lemma sorted_by_perm {A} (leb : A → A → bool) l : sorted_by leb l ≡ₚ l.
Proof. induction l as [|x l IH]; simpl; [done|]. by rewrite insert_by_perm, IH. Qed.

Section sorted_by.
  Context {A : Type} (leb : A → A → bool).
  Context (leb_total : ∀ x y, leb x y = true ∨ leb y x = true).
  Context (leb_trans : ∀ x y z, leb x y = true → leb y z = true → leb x z = true).
Let R x y := leb x y = true.

Lemma insert_by_sorted x l : StronglySorted R l → StronglySorted R (insert_by leb x l).
Proof.
  induction 1 as [|y l Hl IH Hy]; simpl; [repeat constructor|].
  destruct (leb x y) eqn:E.
  - constructor; [by constructor|]. constructor; [done|].
    eapply Forall_impl; [exact Hy|]. intros; by eapply leb_trans.
  - constructor; [done|]. rewrite insert_by_perm. constructor; [|done].
    destruct (leb_total x y); unfold R; congruence.
Qed.

Lemma sorted_by_sorted l : StronglySorted R (sorted_by leb l).
Proof. induction l; simpl; [constructor | by apply insert_by_sorted]. Qed.
End sorted_by.

Lemma sorted_by_id {A} (leb : A → A → bool) l :
  StronglySorted (λ x y, leb x y = true) l → sorted_by leb l = l.
Proof.
  induction 1 as [|x l Hl IH Hx]; simpl; [done|]. rewrite IH.
  destruct Hx as [|y l Hy _]; simpl; [done|]. by rewrite Hy.
Qed.

Lemma sorted_by_map {A B} (leb : A → A → bool) (leb' : B → B → bool) (f : A → B) l :
  (∀ x y, leb' (f x) (f y) = leb x y) →
  sorted_by leb' (map f l) = map f (sorted_by leb l).
Proof.
  intros Hf. induction l as [|x l IH]; simpl; [done|]. rewrite IH. clear IH.
  induction (sorted_by leb l) as [|y k IH]; simpl; [done|].
  rewrite Hf. destruct (leb x y); simpl; [done|]. by rewrite IH.
Qed.

Lemma elem_of_combinations {A} (l : list A) k c :
  c ∈ combinations l k ↔ c `sublist_of` l ∧ length c = k.
Proof.
  revert k c; induction l as [|x l IH]; intros k c; simpl.
  - destruct k; simpl.
    + rewrite list_elem_of_singleton. split.
      * intros ->. split; [constructor|done].
      * intros [H _]. by apply sublist_nil_r in H.
    + split; [set_solver|]. intros [->%sublist_nil_r ?]. done.
  - destruct k as [|k]; simpl.
    + rewrite list_elem_of_singleton. split.
      * intros ->. split; [apply sublist_nil_l|done].
      * intros [_ H]. by apply length_zero_iff_nil.
    + rewrite elem_of_app, list_elem_of_fmap. setoid_rewrite IH. split.
      * intros [(c' & -> & Hs & <-)|[Hs Hl]]; split; [by constructor|done|by constructor|done].
      * intros [Hs Hl]. inversion Hs; subst; simpl in *; simplify_eq; eauto.
Qed.

(** The first combination is the prefix: the head selection. *)
Lemma combinations_head {A} (l : list A) k :
  k ≤ length l → ∃ rest, combinations l k = take k l :: rest.
Proof.
  revert k; induction l as [|x l IH]; intros [|k] Hk; simpl in *; eauto; [lia|].
  destruct (IH k) as [rest ->]; [lia|]. simpl. eauto.
Qed.

Lemma elem_of_product {A} (ls : list (list A)) c :
  c ∈ product ls ↔ Forall2 (λ x l, x ∈ l) c ls.
Proof.
  revert c; induction ls as [|l ls IH]; intros c; simpl.
  - rewrite list_elem_of_singleton. split; [intros ->; constructor | by inversion 1].
  - rewrite list_elem_of_bind. setoid_rewrite list_elem_of_fmap. setoid_rewrite IH. split.
    + intros (x & (c' & -> & ?) & ?). by constructor.
    + inversion 1; subst; eauto.
Qed.

(** The first element of a product picks the first of every factor. *)
Lemma product_head {A} (ls : list (list A)) hs :
  Forall2 (λ l h, ∃ t, l = h :: t) ls hs → ∃ rest, product ls = hs :: rest.
Proof.
  induction 1 as [|l h ls hs [t ->] _ [rest IH]]; simpl; [eauto|].
  rewrite IH. simpl. eauto.
Qed.

Lemma max_opt_None l : max_opt l = None ↔ l = [].
Proof. by destruct l. Qed.

Lemma max_opt_Some l m : max_opt l = Some m → m ∈ l ∧ Forall (λ x, (x ≤ m)%Z) l.
Proof.
  revert m; induction l as [|x l IH]; simpl; intros m Hm; [done|].
  destruct (max_opt l) as [m'|] eqn:E; simplify_eq.
  - destruct (IH m' eq_refl) as [Hin Hall]. split.
    + destruct (Z.max_spec x m') as [[_ ->]|[_ ->]]; set_solver.
    + constructor; [lia|]. eapply Forall_impl; [exact Hall|]. simpl; lia.
  - apply max_opt_None in E as ->. split; [set_solver|]. repeat constructor; lia.
Qed.

Lemma min_opt_None l : min_opt l = None ↔ l = [].
Proof. by destruct l. Qed.

Lemma min_opt_Some l m : min_opt l = Some m → m ∈ l ∧ Forall (λ x, (m ≤ x)%Z) l.
Proof.
  revert m; induction l as [|x l IH]; simpl; intros m Hm; [done|].
  destruct (min_opt l) as [m'|] eqn:E; simplify_eq.
  - destruct (IH m' eq_refl) as [Hin Hall]. split.
    + destruct (Z.min_spec x m') as [[_ ->]|[_ ->]]; set_solver.
    + constructor; [lia|]. eapply Forall_impl; [exact Hall|]. simpl; lia.
  - apply min_opt_None in E as ->. split; [set_solver|]. repeat constructor; lia.
Qed.

Lemma length_zrange a n : length (zrange a n) = n.
Proof. unfold zrange. by rewrite length_fmap, length_seq. Qed.

Lemma elem_of_zrange a n z : z ∈ zrange a n ↔ (a ≤ z < a + Z.of_nat n)%Z.
Proof.
  unfold zrange. rewrite list_elem_of_fmap. setoid_rewrite elem_of_seq. split.
  - intros (i & -> & ?). lia.
  - intros. exists (Z.to_nat (z - a)). lia.
Qed.

Lemma NoDup_zrange a n : NoDup (zrange a n).
Proof. apply NoDup_fmap_2; [intros i j ?; lia | apply NoDup_seq]. Qed.

Lemma zrange_app a n m : zrange a (n + m) = zrange a n ++ zrange (a + Z.of_nat n) m.
Proof.
  unfold zrange. rewrite seq_app, fmap_app. f_equal. simpl.
  rewrite <-(Nat.add_0_r n) at 1. rewrite <-fmap_add_seq, <-list_fmap_compose.
  apply list_fmap_ext. intros i x _. simpl. lia.
Qed.

(** ** Strings

    A Python [str] is modelled by its UTF-8 bytes, so that byte order is code
    point order; [str_len] counts code points (bytes that do not continue
    one). *)

Fixpoint str_contains (c : Ascii.ascii) (s : string) : bool :=
  match s with
  | EmptyString => false
  | String a s => Ascii.eqb a c || str_contains c s
  end.

Fixpoint str_count (c : Ascii.ascii) (s : string) : nat :=
  match s with
  | EmptyString => 0
  | String a s => (if Ascii.eqb a c then 1 else 0) + str_count c s
  end.

Fixpoint str_forall (p : Ascii.ascii → bool) (s : string) : bool :=
  match s with
  | EmptyString => true
  | String a s => p a && str_forall p s
  end.

Definition str_empty (s : string) : bool :=
  match s with EmptyString => true | _ => false end.

Definition startswith (p s : string) : bool := String.prefix p s.

Fixpoint str_len (s : string) : nat :=
  match s with
  | EmptyString => 0
  | String a s =>
      let n := N.to_nat (Ascii.N_of_ascii a) in
      (if (128 <=? n)%nat && (n <? 192)%nat then 0 else 1) + str_len s
  end.

(** [s.split(c)] *)
Fixpoint str_split (c : Ascii.ascii) (s : string) : list string :=
  match s with
  | EmptyString => [EmptyString]
  | String a s =>
      if Ascii.eqb a c then EmptyString :: str_split c s
      else match str_split c s with
           | h :: t => String a h :: t
           | [] => [String a EmptyString]
           end
  end.

(** [sep.join(ss)] *)
Fixpoint str_join (sep : string) (ss : list string) : string :=
  match ss with
  | [] => EmptyString
  | [s] => s
  | s :: ss => (s +:+ sep +:+ str_join sep ss)%string
  end.

Definition str_leb (s t : string) : bool := String.leb s t.

Lemma str_leb_total s t : str_leb s t = true ∨ str_leb t s = true.
Proof. apply String.leb_total. Qed.

Lemma ascii_compare_N a b : Ascii.compare a b = N.compare (Ascii.N_of_ascii a) (Ascii.N_of_ascii b).
Proof. done. Qed.

Lemma N_of_ascii_inj a b : Ascii.N_of_ascii a = Ascii.N_of_ascii b → a = b.
Proof. intros H. by rewrite <-(Ascii.ascii_N_embedding a), <-(Ascii.ascii_N_embedding b), H. Qed.

Lemma str_leb_trans s t u : str_leb s t = true → str_leb t u = true → str_leb s u = true.
Proof.
  unfold str_leb, String.leb. revert t u.
  induction s as [|a s IH]; intros [|b t] [|c u]; simpl; try done.
  rewrite !ascii_compare_N.
  destruct (N.compare_spec (Ascii.N_of_ascii a) (Ascii.N_of_ascii b));
  destruct (N.compare_spec (Ascii.N_of_ascii b) (Ascii.N_of_ascii c));
  destruct (N.compare_spec (Ascii.N_of_ascii a) (Ascii.N_of_ascii c));
  try done; try lia. apply IH.
Qed.

Lemma str_split_nonnil c s : str_split c s ≠ [].
Proof. induction s as [|a s IH]; simpl; [done|]. destruct (Ascii.eqb a c); [done|]. by destruct (str_split c s). Qed.

Lemma str_join_split c s : str_join (String c EmptyString) (str_split c s) = s.
Proof.
  induction s as [|a s IH]; simpl; [done|].
  destruct (Ascii.eqb_spec a c) as [->|Hne].
  - destruct (str_split c s) eqn:E; [by apply str_split_nonnil in E|].
    simpl in *. by rewrite <-IH.
  - destruct (str_split c s) as [|h t] eqn:E; [by apply str_split_nonnil in E|].
    destruct t; simpl in *; by rewrite <-IH.
Qed.

Lemma str_split_plain c s : str_contains c s = false → str_split c s = [s].
Proof.
  induction s as [|a s IH]; simpl; [done|]. intros [-> H]%orb_false_iff. by rewrite IH.
Qed.

Lemma str_split_app c s t :
  str_contains c s = false → str_split c (s +:+ String c t) = s :: str_split c t.
Proof.
  induction s as [|a s IH]; simpl; [by rewrite Ascii.eqb_refl|].
  intros [-> H]%orb_false_iff. by rewrite IH.
Qed.

Lemma str_split_join c ss :
  ss ≠ [] → Forall (λ s, str_contains c s = false) ss →
  str_split c (str_join (String c EmptyString) ss) = ss.
Proof.
  intros Hne H. induction H as [|s ss Hs Hss IH]; [done|].
  destruct ss as [|s' ss]; [by apply str_split_plain|].
  change (str_split c (s +:+ String c (str_join (String c EmptyString) (s' :: ss))) = s :: s' :: ss).
  rewrite str_split_app by done. by rewrite IH.
Qed.

(** ** Python's order on keys

    [sorted] with a key compares tuples of strings, integers and tuples: an
    ordered type is a class with instances for these, so that the order of a
    sorted result does not depend on the order of what was sorted. *)

Class Ordered (A : Type) := cmp : A → A → comparison.

Class OrderedLaws (A : Type) `{Ordered A} := {
  cmp_eq (x y : A) : cmp x y = Eq ↔ x = y;
  cmp_sym (x y : A) : cmp y x = CompOpp (cmp x y);
  cmp_lt_trans (x y z : A) : cmp x y = Lt → cmp y z = Lt → cmp x z = Lt
}.

(** [x <= y] *)
Definition leb {A} `{Ordered A} (x y : A) : bool := match cmp x y with Gt => false | _ => true end.

(** [sorted(l, key=key)] *)
Definition sorted_key {A K} `{Ordered K} (key : A → K) (l : list A) : list A :=
  sorted_by (λ x y, leb (key x) (key y)) l.

#[export] Instance string_ordered : Ordered string := String.compare.
#[export] Instance Z_ordered : Ordered Z := Z.compare.

(** The comparison of the second components decides when the first are equal. *)
Definition lex (c d : comparison) : comparison := match c with Eq => d | _ => c end.

#[export] Instance pair_ordered {A B} `{Ordered A, Ordered B} : Ordered (A * B) :=
  λ x y, lex (cmp x.1 y.1) (cmp x.2 y.2).

#[export] Instance list_ordered {A} `{Ordered A} : Ordered (list A) :=
  fix go l k :=
    match l, k with
    | [], [] => Eq
    | [], _ :: _ => Lt
    | _ :: _, [] => Gt
    | x :: l, y :: k => lex (cmp x y) (go l k)
    end.

#[export] Instance string_ordered_laws : OrderedLaws string.
Proof.
  assert (∀ s t, String.compare t s = CompOpp (String.compare s t)) as Hs by (intros; apply String.compare_antisym).
  assert (∀ s t, str_leb s t = true ↔ String.compare s t ≠ Gt) as Hle.
  { intros s t. unfold str_leb, String.leb. by destruct (String.compare s t). }
  split; [|exact Hs|].
  { intros s t. split; [apply String.compare_eq_iff|intros ->]. pose proof (Hs t t) as H.
    unfold cmp, string_ordered. by destruct (String.compare t t). }
  unfold cmp, string_ordered. intros x y z Hxy Hyz.
  assert (String.compare x z ≠ Gt) as Hxz.
  { apply Hle. apply str_leb_trans with y; apply Hle; congruence. }
  destruct (String.compare x z) eqn:E; [|done|done].
  apply String.compare_eq_iff in E as ->. rewrite Hs, Hxy in Hyz. done.
Qed.

#[export] Instance Z_ordered_laws : OrderedLaws Z.
Proof.
  split; unfold cmp, Z_ordered.
  - apply Z.compare_eq_iff.
  - intros. apply Z.compare_antisym.
  - intros x y z. rewrite !Z.compare_lt_iff. lia.
Qed.

Section ordered.
Context {A : Type} `{OrderedLaws A}.

Lemma cmp_refl (x : A) : cmp x x = Eq.
Proof. by apply cmp_eq. Qed.

Lemma leb_total (x y : A) : leb x y = true ∨ leb y x = true.
Proof. unfold leb. rewrite (cmp_sym x y). destruct (cmp x y); simpl; auto. Qed.

Lemma leb_trans (x y z : A) : leb x y = true → leb y z = true → leb x z = true.
Proof.
  unfold leb. destruct (cmp x y) eqn:Exy; [apply cmp_eq in Exy as ->; done| |done].
  destruct (cmp y z) eqn:Eyz; [apply cmp_eq in Eyz as <-; by rewrite Exy| |done].
  by rewrite (cmp_lt_trans x y z).
Qed.

Lemma leb_antisym (x y : A) : leb x y = true → leb y x = true → x = y.
Proof.
  unfold leb. rewrite (cmp_sym x y). destruct (cmp x y) eqn:E; simpl; [intros; by apply cmp_eq|done|done].
Qed.
End ordered.

#[export] Instance pair_ordered_laws {A B} `{OrderedLaws A, OrderedLaws B} : OrderedLaws (A * B).
Proof.
  split; unfold cmp, pair_ordered.
  - intros [a b] [a' b']; simpl. destruct (cmp a a') eqn:E; simpl.
    + apply cmp_eq in E as ->. rewrite cmp_eq. split; congruence.
    + split; [done|]. intros [= -> ->]. by rewrite cmp_refl in E.
    + split; [done|]. intros [= -> ->]. by rewrite cmp_refl in E.
  - intros [a b] [a' b']; simpl. rewrite (cmp_sym a a'). destruct (cmp a a'); simpl; [apply cmp_sym|done|done].
  - intros [a b] [a' b'] [a'' b'']; simpl. destruct (cmp a a') eqn:E; simpl; [apply cmp_eq in E as ->| |done].
    + destruct (cmp a' a''); simpl; [apply cmp_lt_trans|done|done].
    + destruct (cmp a' a'') eqn:E'; simpl; [apply cmp_eq in E' as <-; by rewrite E| |done].
      by rewrite (cmp_lt_trans a a' a'').
Qed.

#[export] Instance list_ordered_laws {A} `{OrderedLaws A} : OrderedLaws (list A).
Proof.
  split; unfold cmp, list_ordered.
  - induction x as [|a x IH]; intros [|b y]; try done. destruct (cmp a b) eqn:E; simpl.
    + apply cmp_eq in E as ->. rewrite IH. split; congruence.
    + split; [done|]. intros [= -> ->]. by rewrite cmp_refl in E.
    + split; [done|]. intros [= -> ->]. by rewrite cmp_refl in E.
  - induction x as [|a x IH]; intros [|b y]; try done. rewrite (cmp_sym a b), IH. by destruct (cmp a b).
  - induction x as [|a x IH]; intros [|b y] [|c z]; try done. destruct (cmp a b) eqn:E; simpl; [apply cmp_eq in E as ->| |done].
    + destruct (cmp b c); simpl; [apply IH|done|done].
    + destruct (cmp b c) eqn:E'; simpl; [apply cmp_eq in E' as <-; by rewrite E| |done].
      by rewrite (cmp_lt_trans a b c).
Qed.

(** Two sorted arrangements of the same elements are equal. *)
Lemma sorted_unique {A} (R : A → A → Prop) l k : l ≡ₚ k → StronglySorted R l → StronglySorted R k →
  (∀ x y, x ∈ l → y ∈ l → R x y → R y x → x = y) → l = k.
Proof.
  revert k. induction l as [|x l IH]; intros k Hp Hl Hk Ha; [by apply Permutation_nil_l in Hp|].
  destruct k as [|y k]; [by apply Permutation_nil_r in Hp|].
  inversion_clear Hl as [|? ? Hl' Hx]. inversion_clear Hk as [|? ? Hk' Hy].
  assert (x = y) as ->.
  { assert (x ∈ y :: k) as [->|Hxk]%elem_of_cons by (rewrite <-Hp; left); [done|].
    assert (y ∈ x :: l) as [->|Hyl]%elem_of_cons by (rewrite Hp; left); [done|].
    apply Ha; [left|by right| |]; [by eapply Forall_forall in Hx|by eapply Forall_forall in Hy]. }
  f_equal. apply IH; [by apply Permutation.Permutation_cons_inv in Hp|done|done|].
  intros; apply Ha; [by right|by right|done|done].
Qed.

Section sorted_key.
Context {A K : Type} `{OrderedLaws K} (key : A → K).

Lemma sorted_key_perm l : sorted_key key l ≡ₚ l.
Proof. apply sorted_by_perm. Qed.

Lemma sorted_key_sorted l : StronglySorted (λ x y, leb (key x) (key y) = true) (sorted_key key l).
Proof. apply sorted_by_sorted; intros; [apply leb_total|by eapply leb_trans]. Qed.

(** Sorting by a key that tells the elements apart forgets their order. *)
Lemma sorted_key_forgets l k : l ≡ₚ k → (∀ x y, x ∈ l → y ∈ l → key x = key y → x = y) →
  sorted_key key l = sorted_key key k.
Proof.
  intros Hp Hi. apply (sorted_unique (λ x y, leb (key x) (key y) = true)).
  - by rewrite !sorted_key_perm.
  - apply sorted_key_sorted.
  - apply sorted_key_sorted.
  - intros x y Hx Hy H1 H2. rewrite sorted_key_perm in Hx, Hy. apply Hi; [done|done|by apply leb_antisym].
Qed.

Lemma sorted_key_idem l : sorted_key key (sorted_key key l) = sorted_key key l.
Proof. apply sorted_by_id, sorted_key_sorted. Qed.
End sorted_key.
