(* ===== verification/PyData.v ===== *)
(** * Token data: the Python values a token, activity input or result carries

    Token data is opaque to the kernel except for three operations, modelled
    here over the JSON-shaped values plus tuples (which JSON flattens to
    lists) and arbitrary objects (which have no JSON spelling):
    - Python equality [==] ([py_eq]): [True == 1 == 1.0], dictionaries compare
      without order, tuples never equal lists;
    - the JSON round trip ([_canonical_payload] of
      src/src/petrus/impetus/instance/__init__.py) and the shape check
      ([_canonical_json_shape] of src/src/petrus/impetus/history/__init__.py);
    - the deterministic spelling ([_canonical_payload_text]), which the writer
      compares instead of [==] because it is type-sensitive.
    A finite float is [m * 2^e]; the sign of zero is not represented. A
    dictionary is its items in insertion order, keys being strings. *)

From stdpp Require Import base gmap sets list strings.
From Stdlib Require Import ZArith Lia.
From S2P Require Import Prelude.

Inductive Data :=
| DNone
| DBool (b : bool)
| DInt (z : Z)
| DFloat (m e : Z)
| DStr (s : string)
| DList (l : list Data)
| DTuple (l : list Data)
| DDict (d : list (string * Data))
| DObject (id : Z).

(** Induction through the nested lists. *)
Definition Data_rect_nested (P : Data → Prop)
    (Hnone : P DNone) (Hbool : ∀ b, P (DBool b)) (Hint : ∀ z, P (DInt z))
    (Hfloat : ∀ m e, P (DFloat m e)) (Hstr : ∀ s, P (DStr s))
    (Hlist : ∀ l, Forall P l → P (DList l))
    (Htuple : ∀ l, Forall P l → P (DTuple l))
    (Hdict : ∀ d, Forall (λ kv, P kv.2) d → P (DDict d))
    (Hobj : ∀ i, P (DObject i)) : ∀ x, P x :=
  fix go x :=
    let fix gos (l : list Data) : Forall P l :=
      match l with [] => Forall_nil_2 P | a :: l => Forall_cons_2 P a l (go a) (gos l) end in
    let fix god (d : list (string * Data)) : Forall (λ kv, P kv.2) d :=
      match d with
      | [] => Forall_nil_2 _
      | kv :: d => Forall_cons_2 (λ kv, P kv.2) kv d (go kv.2) (god d)
      end in
    match x with
    | DNone => Hnone | DBool b => Hbool b | DInt z => Hint z | DFloat m e => Hfloat m e
    | DStr s => Hstr s | DList l => Hlist l (gos l) | DTuple l => Htuple l (gos l)
    | DDict d => Hdict d (god d) | DObject i => Hobj i
    end.

Fixpoint data_eqb (x y : Data) {struct x} : bool :=
  match x, y with
  | DNone, DNone => true
  | DBool b, DBool c => Bool.eqb b c
  | DInt z, DInt w => Z.eqb z w
  | DFloat m e, DFloat m' e' => Z.eqb m m' && Z.eqb e e'
  | DStr s, DStr t => String.eqb s t
  | DList l, DList k | DTuple l, DTuple k =>
      (fix go (l k : list Data) : bool :=
         match l, k with
         | [], [] => true
         | a :: l, b :: k => data_eqb a b && go l k
         | _, _ => false
         end) l k
  | DDict d, DDict c =>
      (fix go (d c : list (string * Data)) : bool :=
         match d, c with
         | [], [] => true
         | (k, v) :: d, (k', v') :: c => String.eqb k k' && data_eqb v v' && go d c
         | _, _ => false
         end) d c
  | DObject i, DObject j => Z.eqb i j
  | _, _ => false
  end.

Lemma data_eqb_eq x y : data_eqb x y = true ↔ x = y.
Proof.
  revert y. induction x as [| | | | |l IH|l IH|d IH|] using Data_rect_nested;
    intros y; destruct y; simpl; try naive_solver;
    rewrite ?andb_true_iff, ?Bool.eqb_true_iff, ?Z.eqb_eq, ?String.eqb_eq; try naive_solver.
  - rename l0 into k. trans (l = k); [|naive_solver].
    revert k; induction IH as [|a l Ha _ IHl]; intros [|b k]; try naive_solver.
    rewrite andb_true_iff, Ha, IHl. naive_solver.
  - rename l0 into k. trans (l = k); [|naive_solver].
    revert k; induction IH as [|a l Ha _ IHl]; intros [|b k]; try naive_solver.
    rewrite andb_true_iff, Ha, IHl. naive_solver.
  - rename d0 into c. trans (d = c); [|naive_solver].
    revert c; induction IH as [|[k v] d Hv _ IHd]; intros [|[k' v'] c]; try naive_solver.
    rewrite !andb_true_iff, String.eqb_eq, Hv, IHd. naive_solver.
Qed.

#[export] Instance Data_eq_dec : EqDecision Data.
Proof.
  intros x y. destruct (data_eqb x y) eqn:E.
  - left. by apply data_eqb_eq.
  - right. intros H%data_eqb_eq. congruence.
Defined.

(** ** Python equality *)

(** [m * 2^e] with [m] odd, or zero. *)
Fixpoint strip_twos (p : positive) (e : Z) : positive * Z :=
  match p with
  | xO p => strip_twos p (e + 1)
  | _ => (p, e)
  end.

Definition float_norm (m e : Z) : Z * Z :=
  match m with
  | Z0 => (0, 0)%Z
  | Zpos p => let '(p, e) := strip_twos p e in (Zpos p, e)
  | Zneg p => let '(p, e) := strip_twos p e in (Zneg p, e)
  end.

Definition key_leb (x y : string * Data) : bool := str_leb x.1 y.1.

(** The normal form whose structural equality is Python's [==]: booleans and
    integral floats are the integers they equal, dictionaries forget their
    order. *)
Fixpoint py_norm (x : Data) : Data :=
  match x with
  | DBool b => DInt (if b then 1 else 0)
  | DFloat m e =>
      let '(m, e) := float_norm m e in
      if (0 <=? e)%Z then DInt (m * 2 ^ e) else DFloat m e
  | DList l => DList (map py_norm l)
  | DTuple l => DTuple (map py_norm l)
  | DDict d => DDict (sorted_by key_leb (map (λ kv, (kv.1, py_norm kv.2)) d))
  | x => x
  end.

Definition py_eq (x y : Data) : bool := bool_decide (py_norm x = py_norm y).

(** ** JSON *)

(** [_canonical_payload]: [json.loads(json.dumps(value, allow_nan=False))]. *)
Fixpoint canonical_payload (x : Data) : result Data :=
  match x with
  | DList l | DTuple l =>
      l ← (fix go l := match l with
                       | [] => Ok []
                       | a :: l => b ← canonical_payload a; bs ← go l; Ok (b :: bs)
                       end) l; Ok (DList l)
  | DDict d =>
      d ← (fix go d := match d with
                       | [] => Ok []
                       | (k, v) :: d => w ← canonical_payload v; ws ← go d; Ok ((k, w) :: ws)
                       end) d; Ok (DDict d)
  | DObject _ => Err (ValueError "the payload must be JSON-faithful")
  | x => Ok x
  end.

(** [_canonical_json_shape] *)
Fixpoint canonical_json_shape (x : Data) : bool :=
  match x with
  | DList l => forallb canonical_json_shape l
  | DDict d => forallb (λ kv, canonical_json_shape kv.2) d
  | DTuple _ | DObject _ => false
  | _ => true
  end.

(** [_canonical_payload_text]: [json.dumps] with sorted keys and fixed
    separators. The text of an admitted payload is represented by the tree it
    spells, floats in lowest terms and keys sorted, so that two payloads have
    the same text exactly when these are equal. *)
Fixpoint canonical_payload_text (x : Data) : Data :=
  match x with
  | DFloat m e => let '(m, e) := float_norm m e in DFloat m e
  | DList l | DTuple l => DList (map canonical_payload_text l)
  | DDict d => DDict (sorted_by key_leb (map (λ kv, (kv.1, canonical_payload_text kv.2)) d))
  | x => x
  end.

(** ** Laws *)

#[export] Instance py_eq_equivalence : Equivalence (λ x y, py_eq x y = true).
Proof.
  unfold py_eq. split.
  - intros x. by apply bool_decide_eq_true.
  - intros x y. rewrite !bool_decide_eq_true. congruence.
  - intros x y z. rewrite !bool_decide_eq_true. congruence.
Qed.

Lemma strip_twos_norm p e q f : strip_twos p e = (q, f) → ∀ g, strip_twos q g = (q, g).
Proof. revert e; induction p; simpl; intros; simplify_eq; eauto. Qed.

Lemma float_norm_idem m e m' e' : float_norm m e = (m', e') → float_norm m' e' = (m', e').
Proof.
  unfold float_norm. destruct m as [|p|p]; intros H; simplify_eq; [done| |];
    destruct (strip_twos p e) as [q f] eqn:E; simplify_eq; by erewrite strip_twos_norm.
Qed.

Lemma key_leb_total x y : key_leb x y = true ∨ key_leb y x = true.
Proof. apply str_leb_total. Qed.

Lemma key_leb_trans x y z : key_leb x y = true → key_leb y z = true → key_leb x z = true.
Proof. apply str_leb_trans. Qed.

(** The JSON round trip lands in the canonical shapes, and fixes them. *)
Lemma canonical_payload_shape x y :
  canonical_payload x = Ok y → canonical_json_shape y = true.
Proof.
  revert y. induction x as [| | | | |l IH|l IH|d IH|] using Data_rect_nested;
    intros y Hy; simpl in Hy; inv_ok; try done; simpl;
    match goal with H : _ = Ok ?k |- forallb _ ?k = true => revert k H end.
  1,2: induction IH as [|a l Ha _ IHl]; intros k Hk; inv_ok; simpl; [done|];
       rewrite (Ha _ ltac:(eassumption)); eauto.
  induction IH as [|[k v] d Hv _ IHd]; intros c Hc; inv_ok; simpl; [done|].
  erewrite Hv by done. eauto.
Qed.

Lemma canonical_payload_id x : canonical_json_shape x = true → canonical_payload x = Ok x.
Proof.
  induction x as [| | | | |l IH|l IH|d IH|] using Data_rect_nested; simpl; try done.
  - intros Hl. cut (∀ g, g = Ok l → (l ← g; Ok (DList l)) = Ok (DList l)); [|by intros ? ->].
    intros Hcut; apply Hcut; clear Hcut.
    induction IH as [|a l Ha _ IHl]; simpl in *; [done|].
    apply andb_true_iff in Hl as [H1 H2]. by rewrite Ha, IHl.
  - intros Hl. cut (∀ g, g = Ok d → (d ← g; Ok (DDict d)) = Ok (DDict d)); [|by intros ? ->].
    intros Hcut; apply Hcut; clear Hcut.
    induction IH as [|[k v] d Hv _ IHd]; simpl in *; [done|].
    apply andb_true_iff in Hl as [H1 H2]. by rewrite Hv, IHd.
Qed.

(** Equal spellings are Python-equal; the converse fails ([True == 1]), which is
    why the writer compares spellings. *)
Lemma py_norm_text x : canonical_json_shape x = true → py_norm (canonical_payload_text x) = py_norm x.
Proof.
  induction x as [| |z|m e|s|l IH|l IH|d IH|] using Data_rect_nested; simpl; try done.
  - intros _. destruct (float_norm m e) as [m' e'] eqn:E. simpl.
    by rewrite (float_norm_idem _ _ _ _ E).
  - intros Hl. f_equal. induction IH as [|a l Ha _ IHl]; simpl in *; [done|].
    apply andb_true_iff in Hl as [H1 H2]. by rewrite Ha, IHl.
  - intros Hl. f_equal.
    rewrite <-(sorted_by_map key_leb key_leb) by done. rewrite map_map; simpl.
    rewrite (sorted_by_id key_leb (sorted_by _ _));
      [|apply sorted_by_sorted; [apply key_leb_total|apply key_leb_trans]].
    f_equal. induction IH as [|[k v] d Hv _ IHd]; simpl in *; [done|].
    apply andb_true_iff in Hl as [H1 H2]. by rewrite Hv, IHd.
Qed.

(** Spelling keeps the canonical shape and is idempotent. *)
Lemma canonical_text_shape x : canonical_json_shape x = true → canonical_json_shape (canonical_payload_text x) = true.
Proof.
  induction x as [| |z|m e|s|l IH|l IH|d IH|] using Data_rect_nested; simpl; try done.
  - intros _. by destruct (float_norm m e).
  - intros Hl. rewrite !forallb_forall in *. intros y (x & <- & Hx)%in_map_iff.
    rewrite Forall_forall in IH. apply IH; [by apply list_elem_of_In|]. by apply Hl.
  - intros Hd. rewrite !forallb_forall in *. intros y Hy. apply list_elem_of_In in Hy.
    rewrite sorted_by_perm, list_elem_of_In in Hy. apply in_map_iff in Hy as (x & <- & Hx). simpl.
    rewrite Forall_forall in IH. apply IH; [by apply list_elem_of_In|]. by apply (Hd x).
Qed.

Lemma canonical_text_idem x : canonical_payload_text (canonical_payload_text x) = canonical_payload_text x.
Proof.
  induction x as [| |z|m e|s|l IH|l IH|d IH|] using Data_rect_nested; simpl; try done.
  - destruct (float_norm m e) as [m' e'] eqn:E. simpl. by rewrite (float_norm_idem _ _ _ _ E).
  - f_equal. rewrite map_map. induction IH as [|a l Ha _ IHl]; simpl; [done|]. by rewrite Ha, IHl.
  - f_equal. rewrite map_map. induction IH as [|a l Ha _ IHl]; simpl; [done|]. by rewrite Ha, IHl.
  - f_equal. rewrite <-(sorted_by_map key_leb key_leb) by done. rewrite map_map; simpl.
    rewrite (sorted_by_id key_leb (sorted_by _ _));
      [|apply sorted_by_sorted; [apply key_leb_total|apply key_leb_trans]].
    f_equal. induction IH as [|[k v] d Hv _ IHd]; simpl in *; [done|]. by rewrite Hv, IHd.
Qed.

Lemma text_eq_py_eq x y :
  canonical_json_shape x = true → canonical_json_shape y = true →
  canonical_payload_text x = canonical_payload_text y → py_eq x y = true.
Proof.
  intros Hx Hy E. apply bool_decide_eq_true.
  by rewrite <-(py_norm_text x), <-(py_norm_text y), E.
Qed.

Example true_equals_one : py_eq (DBool true) (DInt 1) = true.
Proof. reflexivity. Qed.

Example true_spells_differently :
  canonical_payload_text (DBool true) ≠ canonical_payload_text (DInt 1).
Proof. discriminate. Qed.
