(* ===== verification/Schema.v ===== *)
(** * Net structure (src/src/petrus/impetus/petrinet/schema.py)

    Node addresses, canonical URIs, arcs, places, transitions and the
    flattened, validated [Net] with its derived indices; at the end, what
    reading back the spelling of an address or of a payload gives. *)

From stdpp Require Import base gmap sets list strings pretty.
From Stdlib Require Import Ascii ZArith Lia.
From S2P Require Import Prelude PyData.
Open Scope string_scope.
Open Scope list_scope.

(** ** Node addresses *)

Definition NetPath := list string.
Definition Instant := Z.
Definition Color := string.

#[export] Instance NetPath_eq_dec : EqDecision NetPath := _.
#[export] Instance NetPath_countable : Countable NetPath := _.

Definition SEP : Ascii.ascii := "."%char.

(** [NetPath.__new__] on a string. *)
Definition NetPath_new (value : string) : result NetPath :=
  raise_if (str_empty value) (ValueError "NetPath requires a non-empty dotted string or a NetPath");;
  let segments := str_split SEP value in
  raise_if (existsb str_empty segments) (ValueError "NetPath segments must be non-empty");;
  Ok segments.

(** [NetPath.__str__] *)
Definition path_str (p : NetPath) : string := str_join (String SEP EmptyString) p.

(** The values [NetPath.__new__] can produce. *)
Definition wf_path (p : NetPath) : Prop :=
  p ≠ [] ∧ Forall (λ s, str_empty s = false ∧ str_contains SEP s = false) p.

(** A protocol argument spelled as a path or as a string. *)
Inductive path_arg :=
| APath (p : NetPath)
| AStr (s : string).

#[export] Instance path_arg_eq_dec : EqDecision path_arg.
Proof. solve_decision. Defined.

Definition canonical_net_path (value : path_arg) : result NetPath :=
  match value with
  | APath p => Ok p
  | AStr s => NetPath_new s
  end.

Definition path_leb (p q : NetPath) : bool := str_leb (path_str p) (path_str q).

(** ** Canonical URIs *)

Definition NetUri := string.

Definition char_code (a : Ascii.ascii) : nat := N.to_nat (Ascii.N_of_ascii a).
Definition in_range (lo hi n : nat) : bool := (lo <=? n)%nat && (n <=? hi)%nat.

Definition is_ascii_char (a : Ascii.ascii) : bool := (char_code a <? 128)%nat.
Definition is_alpha (a : Ascii.ascii) : bool :=
  in_range 65 90 (char_code a) || in_range 97 122 (char_code a).
Definition is_digit (a : Ascii.ascii) : bool := in_range 48 57 (char_code a).
Definition is_alnum (a : Ascii.ascii) : bool := is_alpha a || is_digit a.
Definition is_space (a : Ascii.ascii) : bool :=
  in_range 9 13 (char_code a) || in_range 28 32 (char_code a).
Definition is_hex_upper (a : Ascii.ascii) : bool :=
  is_digit a || in_range 65 70 (char_code a).

(** [re.search(r"%(?![0-9A-F]{2})", s)] *)
Fixpoint bad_percent (s : string) : bool :=
  match s with
  | EmptyString => false
  | String a s' =>
      (Ascii.eqb a "%" &&
         match s' with
         | String b (String c _) => negb (is_hex_upper b && is_hex_upper c)
         | _ => true
         end) || bad_percent s'
  end.

(** [NetUri.__post_init__] *)
Definition NetUri_new (value : string) : result NetUri :=
  raise_if (str_empty value || negb (str_forall is_ascii_char value))
    (ValueError "NetUri requires a non-empty canonical ASCII value");;
  raise_if (negb (startswith "place:/" value || startswith "transition:/" value
                  || startswith "arc:/" value)
            || (1 <? str_count "#" value)%nat
            || negb (str_forall (λ a, negb (is_space a)) value)
            || str_contains "?" value
            || str_contains "\" value
            || bad_percent value)
    (ValueError "invalid canonical NetUri");;
  Ok value.

Definition hex_digit (n : nat) : Ascii.ascii :=
  Ascii.ascii_of_nat (if (n <? 10)%nat then 48 + n else 55 + n).

(** [urllib.parse.quote(s, safe="-._~")], the safe set of path segments. *)
Definition unreserved (a : Ascii.ascii) : bool :=
  is_alnum a || Ascii.eqb a "-" || Ascii.eqb a "." || Ascii.eqb a "_" || Ascii.eqb a "~".

Fixpoint quote (safe : Ascii.ascii → bool) (s : string) : string :=
  match s with
  | EmptyString => EmptyString
  | String a s =>
      if safe a then String a (quote safe s)
      else String "%" (String (hex_digit (char_code a / 16))
                         (String (hex_digit (char_code a mod 16)) (quote safe s)))
  end.

Definition quote_segment : string → string := quote unreserved.
Definition quote_name : string → string := quote (λ a, unreserved a || Ascii.eqb a "$").

Definition encoded (p : NetPath) : string := str_join "/" (quote_segment <$> p).

(** [s.replace("-", "").isalnum()] for an ASCII string. *)
Definition kind_alnum (s : string) : bool :=
  str_forall (λ a, is_alnum a || Ascii.eqb a "-") s
  && negb (str_forall (λ a, Ascii.eqb a "-") s).

(** [NetUri.declaration] *)
Definition NetUri_declaration (owner : string) (path : NetPath) (declaration : string)
    (name : option string) : result NetUri :=
  raise_if (negb (String.eqb owner "place" || String.eqb owner "transition"))
    (ValueError "declaration owner must be 'place' or 'transition'");;
  raise_if (str_empty declaration || negb (str_forall is_ascii_char declaration)
            || negb (kind_alnum declaration))
    (ValueError "declaration kind must be a non-empty ASCII name");;
  raise_if (match name with Some n => str_empty n | None => false end)
    (ValueError "declaration name must be a non-empty string or None");;
  let fragment := match name with
                  | None => declaration
                  | Some n => declaration +:+ ":" +:+ quote_name n
                  end in
  NetUri_new (owner +:+ ":/" +:+ encoded path +:+ "#" +:+ fragment).

(** [NetUri.arc] *)
Definition NetUri_arc (source target : NetPath) (occurrence : option Z) : result NetUri :=
  raise_if (match occurrence with Some o => (o <? 0)%Z | None => false end)
    (ValueError "arc occurrence must be a non-negative integer or None");;
  let fragment := match occurrence with None => "" | Some o => "#$" +:+ pretty o end in
  NetUri_new ("arc:/" +:+ encoded source +:+ "->/" +:+ encoded target +:+ fragment).

(** [value.partition(c)]: the text before the first [c] and, if there is one,
    the text after it. *)
Fixpoint str_partition (c : Ascii.ascii) (s : string) : string * option string :=
  match s with
  | EmptyString => (EmptyString, None)
  | String a s =>
      if Ascii.eqb a c then (EmptyString, Some s)
      else let '(h, t) := str_partition c s in (String a h, t)
  end.

(** [re.fullmatch(r"\$[0-9]+", s)] *)
Definition generated_fragment (s : string) : bool :=
  match s with
  | String a s => Ascii.eqb a "$" && negb (str_empty s) && str_forall is_digit s
  | EmptyString => false
  end.

(** [NetUri.arc_filter] *)
Definition NetUri_arc_filter (arc : NetUri) : result NetUri :=
  raise_if (negb (startswith "arc:/" arc)) (ValueError "arc filter owner must be an arc NetUri");;
  let '(base, occurrence) := str_partition "#" arc in
  match occurrence with
  | None => NetUri_new (base +:+ "#filter")
  | Some o =>
      raise_if (negb (generated_fragment o))
        (ValueError "arc filter owner must use a generated occurrence fragment");;
      NetUri_new (base +:+ "#filter:" +:+ o)
  end.

(** ** Declarations, arcs and nodes *)

Inductive ArcMode := CONSUME | READ | INHIBIT.

#[export] Instance ArcMode_eq_dec : EqDecision ArcMode.
Proof. solve_decision. Defined.

Definition Cel := string.

(** [Cel.__post_init__] *)
Definition Cel_new (expression : string) : result Cel :=
  raise_if (str_empty expression) (ValueError "Cel requires a non-empty expression string");;
  Ok expression.

(** A named symbol or an inline expression: filters and the completion. *)
Inductive FilterDeclaration :=
| FilterSymbol (s : string)
| FilterCel (c : Cel).

Definition CompletionDeclaration := FilterDeclaration.

Inductive HandlerDeclaration :=
| HandlerSymbol (s : string)
| HandlerAnonymous.

(** An [AnonymousDeclaration] compares equal to every other (its display name
    is excluded from comparison), so it carries nothing here. *)
Inductive GuardDeclaration :=
| GuardSymbol (s : string)
| GuardCel (c : Cel)
| GuardAnonymous.

#[export] Instance FilterDeclaration_eq_dec : EqDecision FilterDeclaration.
Proof. solve_decision. Defined.
#[export] Instance HandlerDeclaration_eq_dec : EqDecision HandlerDeclaration.
Proof. solve_decision. Defined.
#[export] Instance GuardDeclaration_eq_dec : EqDecision GuardDeclaration.
Proof. solve_decision. Defined.

Inductive Timer :=
| Delay (duration : Z)
| Until (instant : Instant).

#[export] Instance Timer_eq_dec : EqDecision Timer.
Proof. solve_decision. Defined.

Definition is_delay (t : Timer) : bool := match t with Delay _ => true | Until _ => false end.

Record Arc := MkArc {
  arc_source : NetPath;
  arc_target : NetPath;
  arc_mode : ArcMode;
  arc_weight : Z;
  arc_color : option Color;
  arc_filter : option FilterDeclaration
}.

#[export] Instance Arc_eq_dec : EqDecision Arc.
Proof. solve_decision. Defined.

(** The rule shared by every symbol slot: non-empty, not starting with [$]. *)
Definition bad_symbol (s : string) : bool := str_empty s || startswith "$" s.

Definition bad_color (c : option Color) : bool :=
  match c with Some c => str_empty c | None => false end.

(** [Arc.__post_init__] *)
Definition Arc_post_init (a : Arc) : result unit :=
  raise_if (arc_weight a <? 1)%Z (ValueError "arc weight must be an integer >= 1");;
  raise_if (bad_color (arc_color a)) (ValueError "arc color must be a non-empty nominal color name or None");;
  raise_if (match arc_filter a with Some (FilterSymbol s) => bad_symbol s | _ => false end)
    (ValueError "filter symbol must be non-empty and cannot start with '$'").

Definition is_consume (a : Arc) : bool := bool_decide (arc_mode a = CONSUME).
Definition is_read (a : Arc) : bool := bool_decide (arc_mode a = READ).
Definition is_inhibit (a : Arc) : bool := bool_decide (arc_mode a = INHIBIT).

Record Place := MkPlace { place_path : NetPath; place_color : option Color }.

(** [Place.__post_init__] *)
Definition Place_post_init (p : Place) : result unit :=
  raise_if (bad_color (place_color p)) (ValueError "place color must be a non-empty nominal color name or None").

Record Transition := MkTransition {
  transition_path : NetPath;
  handler : option HandlerDeclaration;
  guards : list GuardDeclaration;
  timers : list Timer
}.

#[export] Instance Place_eq_dec : EqDecision Place.
Proof. solve_decision. Defined.
#[export] Instance Transition_eq_dec : EqDecision Transition.
Proof. solve_decision. Defined.

(** [Transition.__post_init__] *)
Definition Transition_post_init (t : Transition) : result unit :=
  raise_if (match handler t with Some (HandlerSymbol s) => bad_symbol s | _ => false end)
    (ValueError "handler symbol must be non-empty and cannot start with '$'");;
  foldM (λ (named_guards : gset string) guard,
      match guard with
      | GuardSymbol s =>
          raise_if (bad_symbol s) (ValueError "guard symbol must be non-empty and cannot start with '$'");;
          raise_if (bool_decide (s ∈ named_guards)) (ValueError "duplicate named guard");;
          Ok ({[s]} ∪ named_guards)
      | _ => Ok named_guards
      end) ∅ (guards t);;
  Ok tt.

(** ** The net *)

Record Net := MkNet {
  places : dict NetPath Place;
  transitions : dict NetPath Transition;
  arcs : list Arc;
  completion : option CompletionDeclaration;
  net_name : option string;
  handler_uris : dict NetPath NetUri;
  handler_declarations : dict NetUri HandlerDeclaration;
  guard_uris_of : dict NetPath (list NetUri);
  guard_declarations : dict NetUri GuardDeclaration;
  arc_uris : list NetUri;
  filter_uris : list (option NetUri);
  filter_declarations : dict NetUri FilterDeclaration;
  inputs_of : dict NetPath (list Arc);
  input_positions_of : dict NetPath (list nat);
  outputs_of : dict NetPath (list Arc)
}.

Definition inputs (n : Net) (t : NetPath) : list Arc := dget_default t [] (inputs_of n).
Definition outputs (n : Net) (t : NetPath) : list Arc := dget_default t [] (outputs_of n).
Definition input_positions (n : Net) (t : NetPath) : list nat := dget_default t [] (input_positions_of n).
Definition handler_uri (n : Net) (t : NetPath) : option NetUri := dget t (handler_uris n).
Definition guard_uris (n : Net) (t : NetPath) : list NetUri := dget_default t [] (guard_uris_of n).
Definition is_source (n : Net) (t : NetPath) : bool := negb (dmem t (inputs_of n)).

(** One arc of [_resolve_place_colors]. *)
Definition resolve_arc (place_map : dict NetPath Place) (transition_map : dict NetPath Transition)
    (a : Arc) : result Arc :=
  place ← (if dmem (arc_source a) place_map && dmem (arc_target a) transition_map
           then or_raise (dget (arc_source a) place_map) (KeyError "place")
           else if dmem (arc_source a) transition_map && dmem (arc_target a) place_map
           then or_raise (dget (arc_target a) place_map) (KeyError "place")
           else Err (ValueError "arc must connect a place and a transition"));
  match place_color place, arc_color a with
  | Some pc, Some ac =>
      raise_if (negb (bool_decide (pc = ac))) (ValueError "arc declares color, incompatible with place color");;
      Ok a
  | Some pc, None =>
      Ok (MkArc (arc_source a) (arc_target a) (arc_mode a) (arc_weight a) (Some pc) (arc_filter a))
  | None, _ => Ok a
  end.

Definition resolve_place_colors (place_map : dict NetPath Place)
    (transition_map : dict NetPath Transition) (arcs : list Arc) : result (list Arc) :=
  mapR (resolve_arc place_map transition_map) arcs.

(** [d.setdefault(k, []).append(x)] *)
Definition dappend {K V} `{EqDecision K} (k : K) (x : V) (d : dict K (list V)) : dict K (list V) :=
  dset k (dget_default k [] d ++ [x]) d.

Definition guard_name (position : nat) (guard : GuardDeclaration) : string :=
  match guard with GuardSymbol s => s | _ => "$" +:+ pretty (Z.of_nat position) end.

(** The declaration identities of one transition. *)
Record declared := MkDeclared {
  decl_handler_uris : dict NetPath NetUri;
  decl_handlers : dict NetUri HandlerDeclaration;
  decl_guard_uris : dict NetPath (list NetUri);
  decl_guards : dict NetUri GuardDeclaration
}.

Definition declare_transition (s : declared) (pt : NetPath * Transition) : result declared :=
  let '(path, t) := pt in
  '(hu, hd) ← (match handler t with
               | None => Ok (decl_handler_uris s, decl_handlers s)
               | Some h =>
                   uri ← NetUri_declaration "transition" path "handler" None;
                   Ok (dset path uri (decl_handler_uris s), dset uri h (decl_handlers s))
               end);
  uris ← mapR (λ pg, NetUri_declaration "transition" path "guard" (Some (guard_name pg.1 pg.2)))
           (imap pair (guards t));
  let gd := foldl (λ d ug, dset ug.1 ug.2 d) (decl_guards s) (zip uris (guards t)) in
  Ok (MkDeclared hu hd (dset path uris (decl_guard_uris s)) gd).

(** Arc occurrence identities: parallel arcs are numbered per endpoint pair. *)
Definition arc_pair (a : Arc) : NetPath * NetPath := (arc_source a, arc_target a).

Definition pair_count (arcs : list Arc) (p : NetPath * NetPath) : nat :=
  length (filter (λ a, arc_pair a = p) arcs).

Record identified := MkIdentified {
  id_positions : dict (NetPath * NetPath) nat;
  id_arcs : list NetUri;
  id_filters : list (option NetUri);
  id_filter_declarations : dict NetUri FilterDeclaration
}.

Definition identify_arc (arcs : list Arc) (s : identified) (a : Arc) : result identified :=
  let pair := arc_pair a in
  let position := dget_default pair 0%nat (id_positions s) in
  uri ← NetUri_arc (arc_source a) (arc_target a)
          (if (1 <? pair_count arcs pair)%nat then Some (Z.of_nat position) else None);
  filter_uri ← (match arc_filter a with
                | None => Ok None
                | Some f => u ← NetUri_arc_filter uri; Ok (Some u)
                end);
  declarations ← (match filter_uri, arc_filter a with
                  | Some u, Some f =>
                      raise_if (dmem u (id_filter_declarations s)) (ValueError "arc filter URI collision");;
                      Ok (dset u f (id_filter_declarations s))
                  | _, _ => Ok (id_filter_declarations s)
                  end);
  Ok (MkIdentified (dset pair (S position) (id_positions s))
        (id_arcs s ++ [uri]) (id_filters s ++ [filter_uri]) declarations).

Record indexed := MkIndexed {
  ix_inputs : dict NetPath (list Arc);
  ix_input_positions : dict NetPath (list nat);
  ix_outputs : dict NetPath (list Arc)
}.

Definition index_arc (place_map : dict NetPath Place) (transition_map : dict NetPath Transition)
    (s : indexed) (pa : nat * Arc) : result indexed :=
  let '(position, a) := pa in
  if dmem (arc_source a) place_map && dmem (arc_target a) transition_map then
    Ok (MkIndexed (dappend (arc_target a) a (ix_inputs s))
          (dappend (arc_target a) position (ix_input_positions s)) (ix_outputs s))
  else if dmem (arc_source a) transition_map && dmem (arc_target a) place_map then
    raise_if (negb (is_consume a)) (ValueError "mode on output arc: modes are input inscriptions");;
    raise_if (bool_decide (is_Some (arc_filter a)))
      (ValueError "filter on output arc: a filter is an input inscription");;
    Ok (MkIndexed (ix_inputs s) (ix_input_positions s) (dappend (arc_source a) a (ix_outputs s)))
  else Err (ValueError "resolved arc lost its place/transition shape").

(** A passthrough transition must consume something. *)
Definition check_progress (transition_map : dict NetPath Transition)
    (entry : NetPath * list Arc) : result unit :=
  let '(path, ins) := entry in
  t ← or_raise (dget path transition_map) (KeyError "transition");
  raise_if (bool_decide (handler t = None) && negb (existsb is_consume ins))
    (ValueError "a non-source transition with no consume input arc and no handler would fire forever").

(** Guards and timers need enabledness; a duration timer needs an anchor. *)
Definition check_timing (inputs : dict NetPath (list Arc)) (entry : NetPath * Transition) : result unit :=
  let '(path, t) := entry in
  let source := negb (dmem path inputs) in
  raise_if (source && negb (bool_decide (guards t = [])))
    (ValueError "guards on a source transition cannot be honored");;
  raise_if (source && negb (bool_decide (timers t = [])))
    (ValueError "timers on a source transition cannot be honored");;
  raise_if (existsb is_delay (timers t)
            && negb (existsb (λ a, negb (is_inhibit a)) (dget_default path [] inputs)))
    (ValueError "a duration timer has no anchor").

(** [Net.__init__] *)
Definition Net_init (place_list : list Place) (transition_list : list Transition)
    (arc_list : list Arc) (completion : option CompletionDeclaration)
    (name : option string) : result Net :=
  raise_if (match completion with Some (FilterSymbol s) => bad_symbol s | _ => false end)
    (ValueError "completion symbol must be non-empty and cannot start with '$'");;
  raise_if (match name with Some n => str_empty n | None => false end)
    (ValueError "net name must be a non-empty string");;
  let place_map := dict_of_list ((λ p, (place_path p, p)) <$> place_list) in
  let transition_map := dict_of_list ((λ t, (transition_path t, t)) <$> transition_list) in
  raise_if (negb (length place_map =? length place_list)%nat) (ValueError "duplicate place path");;
  raise_if (negb (length transition_map =? length transition_list)%nat)
    (ValueError "duplicate transition path");;
  raise_if (existsb (λ p, dmem p transition_map) (dkeys place_map))
    (ValueError "place/transition name collision");;
  decls ← foldM declare_transition (MkDeclared [] [] [] []) transition_map;
  resolved ← resolve_place_colors place_map transition_map arc_list;
  ids ← foldM (identify_arc resolved) (MkIdentified [] [] [] []) resolved;
  raise_if (negb (bool_decide (NoDup (id_arcs ids)))) (ValueError "arc URI collision");;
  ix ← foldM (index_arc place_map transition_map) (MkIndexed [] [] []) (imap pair resolved);
  forM_ (check_progress transition_map) (ix_inputs ix);;
  forM_ (check_timing (ix_inputs ix)) transition_map;;
  Ok (MkNet place_map transition_map resolved completion name
        (decl_handler_uris decls) (decl_handlers decls) (decl_guard_uris decls) (decl_guards decls)
        (id_arcs ids) (id_filters ids) (id_filter_declarations ids)
        (ix_inputs ix) (ix_input_positions ix) (ix_outputs ix)).

(** ** Spellings *)

(** The segments of a split hold no separator. *)
Lemma str_split_segments c s : Forall (λ x, str_contains c x = false) (str_split c s).
Proof.
  induction s as [|a s IH]; simpl; [by repeat constructor|].
  destruct (Ascii.eqb a c) eqn:E; [by constructor|].
  destruct (str_split c s) as [|h t]; [simpl; constructor; [|done]; simpl; by rewrite E|].
  inversion IH; subst. constructor; [|done]. simpl. by rewrite E.
Qed.

Lemma existsb_empty ss : existsb str_empty ss = false ↔ Forall (λ s, str_empty s = false) ss.
Proof.
  induction ss as [|s ss IH]; simpl; [split; [by constructor|done]|].
  rewrite orb_false_iff, IH, Forall_cons. done.
Qed.

(** A dotted string denotes a path exactly when the path is well formed
    (at least one segment, none empty or holding the separator) and the string
    is its spelling, so parsing and printing are inverse to each other. *)
Theorem net_path_spelling s p : NetPath_new s = Ok p ↔ wf_path p ∧ path_str p = s.
Proof.
  unfold NetPath_new, wf_path, path_str. split.
  - intros H. inv_ok. split; [|apply str_join_split]. split; [apply str_split_nonnil|].
    match goal with H : existsb _ _ = false |- _ => apply existsb_empty in H; rename H into He end.
    pose proof (str_split_segments SEP s) as Hs. apply Forall_and. done.
  - intros [[Hne Hall] <-]. apply Forall_and in Hall as [He Hc].
    rewrite str_split_join by done. rewrite (proj2 (existsb_empty p) He).
    destruct p as [|x p]; [done|]. inversion He; subst.
    assert (str_empty (str_join (String SEP EmptyString) (x :: p)) = false) as ->; [|done].
    destruct x; [done|]. by destruct p.
Qed.

(** The durable spelling of a payload is canonical and is its own
    spelling, so freezing it twice changes nothing; a payload that is already
    canonical is kept as it is; and two frozen payloads with the same canonical
    text are equal as Python values. *)
Theorem payload_spelling_is_stable x y :
  canonical_payload x = Ok y →
  canonical_json_shape y = true ∧ canonical_payload y = Ok y ∧
  (canonical_json_shape x = true → y = x) ∧
  ∀ x' y', canonical_payload x' = Ok y' → canonical_payload_text y = canonical_payload_text y' → py_eq y y' = true.
Proof.
  intros H. pose proof (canonical_payload_shape _ _ H) as Hy. split; [done|]. split; [by apply canonical_payload_id|].
  split; [intros Hx; rewrite canonical_payload_id in H by done; by injection H|].
  intros x' y' H' E. apply text_eq_py_eq; [done| |done]. by eapply canonical_payload_shape.
Qed.

Lemma payload_spelling_is_stable_witness :
  canonical_payload (DTuple [DInt 1; DTuple []]) = Ok (DList [DInt 1; DList []]) ∧
  canonical_payload (DList [DInt 1; DList []]) = Ok (DList [DInt 1; DList []]).
Proof.
  assert (canonical_payload (DTuple [DInt 1; DTuple []]) = Ok (DList [DInt 1; DList []])) as E by (vm_compute; reflexivity).
  split; [exact E|]. exact (proj1 (proj2 (payload_spelling_is_stable _ _ E))).
Defined.
