(* ===== verification/NetTheorems.v ===== *)
(** * Constructed nets are well formed

    What the constructor of [Net] establishes and the rest of the kernel relies
    on: one declaration per path, arcs between places and transitions with the
    place's color, incidence indexes that agree with the arc list, unique arc
    identities, and no transition that could fire forever on nothing; and that
    its declarations, rebuilt in another order, give the same net. *)

From stdpp Require Import base gmap sets list strings pretty.
From Stdlib Require Import Ascii ZArith Lia.
From S2P Require Import Prelude PyData Schema.
Open Scope string_scope.
Open Scope list_scope.

Definition input_arc (n : Net) (a : Arc) : Prop :=
  is_Some (dget (arc_source a) (places n)) ∧ is_Some (dget (arc_target a) (transitions n)).

Definition output_arc (n : Net) (a : Arc) : Prop :=
  is_Some (dget (arc_source a) (transitions n)) ∧ is_Some (dget (arc_target a) (places n)).

(** An arc carries the color of its place when the place declares one. *)
Definition place_colored (n : Net) (a : Arc) : Prop :=
  ∀ p pl c, (p = arc_source a ∨ p = arc_target a) → dget p (places n) = Some pl → place_color pl = Some c →
            arc_color a = Some c.

Record net_ok (n : Net) : Prop := {
  net_places : NoDup (dkeys (places n)) ∧ ∀ p pl, dget p (places n) = Some pl → place_path pl = p;
  net_transitions : NoDup (dkeys (transitions n)) ∧ ∀ t tr, dget t (transitions n) = Some tr → transition_path tr = t;
  net_disjoint p : is_Some (dget p (places n)) → dget p (transitions n) = None;
  net_arcs : Forall (λ a, input_arc n a ∨
                          (output_arc n a ∧ arc_mode a = CONSUME ∧ arc_filter a = None)) (arcs n);
  net_colors : Forall (place_colored n) (arcs n);
  net_inputs t : is_Some (dget t (transitions n)) → inputs n t = filter (λ a, arc_target a = t) (arcs n);
  net_outputs t : is_Some (dget t (transitions n)) → outputs n t = filter (λ a, arc_source a = t) (arcs n);
  net_positions t k a : inputs n t !! k = Some a →
    ∃ position, input_positions n t !! k = Some position ∧ arcs n !! position = Some a;
  net_sources t : is_Some (dget t (transitions n)) → is_source n t = true ↔ inputs n t = [];
  net_uris : NoDup (arc_uris n) ∧ length (arc_uris n) = length (arcs n) ∧ length (filter_uris n) = length (arcs n);
  net_progress t tr : dget t (transitions n) = Some tr → is_source n t = false → handler tr = None →
    ∃ a, a ∈ inputs n t ∧ arc_mode a = CONSUME;
  net_timing t tr : dget t (transitions n) = Some tr → is_source n t = true → guards tr = [] ∧ timers tr = []
}.

(** ** The indexes *)

Section index.
  Context (pm : dict NetPath Place) (tm : dict NetPath Transition).
  Context (Hdisj : ∀ p, dmem p pm = true → dmem p tm = false).

Definition feeds (t : NetPath) (a : Arc) : Prop := dmem (arc_target a) tm = true ∧ arc_target a = t.
Definition leaves (t : NetPath) (a : Arc) : Prop := dmem (arc_source a) tm = true ∧ arc_source a = t.

#[local] Instance feeds_dec t a : Decision (feeds t a).
Proof. unfold feeds. apply _. Defined.
#[local] Instance leaves_dec t a : Decision (leaves t a).
Proof. unfold leaves. apply _. Defined.

Record index_rel (pre : list Arc) (ix : indexed) : Prop := {
  ix_in t : dget t (ix_inputs ix) = match filter (feeds t) pre with [] => None | k => Some k end;
  ix_pos t k a : dget_default t [] (ix_inputs ix) !! k = Some a →
    ∃ position, dget_default t [] (ix_input_positions ix) !! k = Some position ∧ pre !! position = Some a;
  ix_pos_len t : length (dget_default t [] (ix_input_positions ix)) = length (dget_default t [] (ix_inputs ix));
  ix_out t : dget_default t [] (ix_outputs ix) = filter (leaves t) pre;
  ix_arcs : Forall (λ a, (dmem (arc_source a) pm = true ∧ dmem (arc_target a) tm = true) ∨
                         (dmem (arc_source a) tm = true ∧ dmem (arc_target a) pm = true ∧
                          arc_mode a = CONSUME ∧ arc_filter a = None)) pre
}.

Lemma dget_dappend {V} (t k : NetPath) (x : V) d :
  dget_default t [] (dappend k x d) = if decide (t = k) then dget_default t [] d ++ [x] else dget_default t [] d.
Proof. unfold dappend, dget_default. rewrite dget_dset. by case_decide; subst. Qed.

Lemma index_in_step pre ix a :
  index_rel pre ix → dmem (arc_source a) pm = true → dmem (arc_target a) tm = true →
  index_rel (pre ++ [a])
    (MkIndexed (dappend (arc_target a) a (ix_inputs ix)) (dappend (arc_target a) (length pre) (ix_input_positions ix))
       (ix_outputs ix)).
Proof.
  intros [H1 H2 H3 H4 H5] Hs Ht. split; simpl.
  - intros t. rewrite filter_app, filter_cons, filter_nil. unfold dappend. rewrite dget_dset.
    unfold dget_default. rewrite (H1 (arc_target a)). destruct (decide (t = arc_target a)) as [->|Hne].
    + rewrite decide_True by done. destruct (filter (feeds (arc_target a)) pre) as [|x k]; done.
    + rewrite decide_False by (by intros [_ ?]). rewrite app_nil_r. apply H1.
  - intros t k a'. rewrite !dget_dappend. case_decide as Heq.
    + intros [Hk|[Hlen Hk]]%lookup_app_Some.
      * destruct (H2 t k a' Hk) as (pos & Hp1 & Hp2). exists pos. split; [by apply lookup_app_l_Some|by apply lookup_app_l_Some].
      * rewrite <-H3 in Hlen, Hk. destruct (k - length _)%nat as [|x] eqn:E; simpl in Hk; [|done]. injection Hk as <-.
        exists (length pre). split; [|by rewrite lookup_app_r, Nat.sub_diag by done].
        rewrite lookup_app_r by lia. by rewrite E.
    + intros Hk. destruct (H2 t k a' Hk) as (pos & Hp1 & Hp2). exists pos. split; [done|by apply lookup_app_l_Some].
  - intros t. rewrite !dget_dappend. case_decide; [|done]. rewrite !length_app, H3. done.
  - intros t. rewrite filter_app, filter_cons, filter_nil, decide_False, app_nil_r; [done|].
    intros [Hl _]. by rewrite Hdisj in Hl.
  - apply Forall_app. split; [done|]. constructor; [by left|done].
Qed.

Lemma index_out_step pre ix a :
  index_rel pre ix → dmem (arc_source a) tm = true → dmem (arc_target a) pm = true →
  arc_mode a = CONSUME → arc_filter a = None →
  index_rel (pre ++ [a]) (MkIndexed (ix_inputs ix) (ix_input_positions ix) (dappend (arc_source a) a (ix_outputs ix))).
Proof.
  intros [H1 H2 H3 H4 H5] Hs Ht Hm Hf. split; simpl.
  - intros t. rewrite filter_app, filter_cons, filter_nil, decide_False, app_nil_r; [apply H1|].
    intros [Hl _]. by rewrite Hdisj in Hl.
  - intros t k a' Hk. destruct (H2 t k a' Hk) as (pos & Hp1 & Hp2). exists pos. split; [done|by apply lookup_app_l_Some].
  - done.
  - intros t. rewrite dget_dappend, filter_app, filter_cons, filter_nil. case_decide as Heq.
    + rewrite decide_True by (subst; done). by rewrite H4.
    + rewrite decide_False by (by intros [_ ?]). by rewrite app_nil_r.
  - apply Forall_app. split; [done|]. constructor; [by right|done].
Qed.

Lemma index_fold pre ix rest ix' :
  index_rel pre ix →
  foldM (index_arc pm tm) ix (imap (λ i a, ((length pre + i)%nat, a)) rest) = Ok ix' →
  index_rel (pre ++ rest) ix'.
Proof.
  revert pre ix. induction rest as [|a rest IH]; intros pre ix Hrel H.
  { injection H as <-. by rewrite app_nil_r. }
  rewrite imap_cons in H. cbn [foldM] in H. apply bind_Ok in H as (ix1 & Hs & H).
  rewrite cons_middle, (assoc_L (++)).
  apply (IH (pre ++ [a]) ix1).
  - rewrite Nat.add_0_r in Hs. unfold index_arc in Hs.
    destruct (dmem (arc_source a) pm && dmem (arc_target a) tm) eqn:E1.
    { apply andb_true_iff in E1 as [? ?]. injection Hs as <-. by apply index_in_step. }
    destruct (dmem (arc_source a) tm && dmem (arc_target a) pm) eqn:E2; [|done].
    apply andb_true_iff in E2 as [? ?]. inv_ok. apply index_out_step; try done.
    + match goal with H : negb (is_consume a) = false |- _ => by apply negb_false_iff, bool_decide_eq_true in H end.
    + match goal with H : bool_decide (is_Some _) = false |- _ => by apply bool_decide_eq_false, eq_None_not_Some in H end.
  - rewrite length_app. simpl. rewrite <-H. f_equal. apply imap_ext. intros i x _. simpl. f_equal. lia.
Qed.
End index.

(** ** Identities and colors *)

Lemma identify_fold rs all st st' :
  foldM (identify_arc all) st rs = Ok st' →
  length (id_arcs st') = (length (id_arcs st) + length rs)%nat ∧
  length (id_filters st') = (length (id_filters st) + length rs)%nat.
Proof.
  revert st. induction rs as [|a rs IH]; intros st H; cbn [foldM] in H.
  { injection H as <-. simpl. lia. }
  apply bind_Ok in H as (st1 & Hs & H). apply IH in H as [H1 H2].
  unfold identify_arc in Hs. apply bind_Ok in Hs as (u & _ & Hs). apply bind_Ok in Hs as (fu & _ & Hs).
  apply bind_Ok in Hs as (d & _ & [= <-]). simpl in *. rewrite !length_app in *. simpl in *. lia.
Qed.

Lemma resolve_arc_spec pm tm a a' :
  (∀ p, dmem p pm = true → dmem p tm = false) →
  resolve_arc pm tm a = Ok a' →
  arc_source a' = arc_source a ∧ arc_target a' = arc_target a ∧
  ∀ p pl c, (p = arc_source a' ∨ p = arc_target a') → dget p pm = Some pl → place_color pl = Some c → arc_color a' = Some c.
Proof.
  intros Hdisj H. unfold resolve_arc in H. apply bind_Ok in H as (place & Hp & H).
  assert (∀ p pl, (p = arc_source a ∨ p = arc_target a) → dget p pm = Some pl → pl = place) as Hpl.
  { intros p pl Hor Hd.
    assert (dmem p pm = true) as Hm by (apply dmem_true, dget_is_Some; eauto).
    destruct (dmem (arc_source a) pm && dmem (arc_target a) tm) eqn:E1; simpl in Hp.
    - apply andb_true_iff in E1 as [E1 E2]. apply or_raise_Ok in Hp. destruct Hor as [->| ->]; [congruence|].
      apply Hdisj in Hm. congruence.
    - destruct (dmem (arc_source a) tm && dmem (arc_target a) pm) eqn:E2; [|done].
      apply andb_true_iff in E2 as [E2 E3]. apply or_raise_Ok in Hp. destruct Hor as [->| ->]; [|congruence].
      apply Hdisj in Hm. congruence. }
  destruct (place_color place) as [pc|] eqn:Ec.
  - destruct (arc_color a) as [ac|] eqn:Ea.
    + inv_ok. match goal with H : negb _ = false |- _ => apply negb_false_iff, bool_decide_eq_true in H; subst end.
      split; [done|]. split; [done|]. intros p pl c Hor Hd Hc. rewrite (Hpl _ _ Hor Hd) in Hc. congruence.
    + injection H as <-. split; [done|]. split; [done|]. simpl. intros p pl c Hor Hd Hc.
      rewrite (Hpl _ _ Hor Hd) in Hc. congruence.
  - injection H as <-. split; [done|]. split; [done|]. intros p pl c Hor Hd Hc. rewrite (Hpl _ _ Hor Hd) in Hc. congruence.
Qed.

Lemma dict_of_list_keyed {V} (key : V → NetPath) (l : list V) p v :
  dget p (dict_of_list ((λ x, (key x, x)) <$> l)) = Some v → key v = p.
Proof.
  unfold dict_of_list. assert (∀ p v, dget p ([] : dict NetPath V) = Some v → key v = p) as H0 by done.
  revert H0. generalize ([] : dict NetPath V). induction l as [|x l IH]; intros d Hd; csimpl; [apply Hd|].
  apply IH. intros p' v'. rewrite dget_dset. case_decide; [|apply Hd]. by intros [= <-].
Qed.

Lemma filter_transition (tm : dict NetPath Transition) t (f : Arc → NetPath) (l : list Arc) :
  is_Some (dget t tm) →
  (∀ (P : Arc → Prop) `{∀ a, Decision (P a)}, (∀ a, P a ↔ dmem (f a) tm = true ∧ f a = t) →
     filter P l = filter (λ a, f a = t) l).
Proof.
  intros Ht P HP HPs. apply filter_ext_in. intros a _. rewrite HPs. split; [by intros [_ ?]|].
  intros <-. split; [|done]. by apply dmem_true, dget_is_Some.
Qed.

Lemma index_init pm tm : index_rel pm tm [] (MkIndexed [] [] []).
Proof. split; simpl; try done. Qed.

(** ** The constructor *)

Lemma Net_init_ok ps ts ars comp name n : Net_init ps ts ars comp name = Ok n → net_ok n.
Proof.
  unfold Net_init. intros H.
  set (pm := dict_of_list ((λ p, (place_path p, p)) <$> ps)) in *.
  set (tm := dict_of_list ((λ t, (transition_path t, t)) <$> ts)) in *.
  inv_ok.
  match goal with H : existsb _ (dkeys pm) = false |- _ => rename H into Hex end.
  assert (∀ p, dmem p pm = true → dmem p tm = false) as Hdisj.
  { intros p Hp%dmem_true. apply not_true_is_false. intros Ht. apply not_true_iff_false in Hex. apply Hex.
    apply existsb_exists. exists p. split; [by apply list_elem_of_In|done]. }
  match goal with H : resolve_place_colors _ _ _ = Ok ?k |- _ => rename k into resolved; rename H into Hres end.
  match goal with H : foldM (identify_arc _) _ _ = Ok ?k |- _ => rename k into ids; rename H into Hids end.
  match goal with H : foldM (index_arc _ _) _ _ = Ok ?k |- _ => rename k into ix; rename H into Hix end.
  apply identify_fold in Hids as [Hid1 Hid2]. simpl in Hid1, Hid2.
  apply (index_fold pm tm Hdisj [] _ resolved ix (index_init pm tm)) in Hix as [I1 I2 I3 I4 I5]. simpl in *.
  match goal with H : forM_ (check_progress _) _ = Ok _ |- _ => rename H into Hprog end.
  match goal with H : forM_ (check_timing _) _ = Ok _ |- _ => rename H into Htime end.
  assert (NoDup (dkeys tm)) as Htm by apply NoDup_dict_of_list.
  apply (forM_Ok _ _ tt) in Hprog. apply (forM_Ok _ _ tt) in Htime. rewrite Forall_forall in Hprog.
  rewrite Forall_forall in Htime.
  assert (∀ t, is_Some (dget t tm) → dget_default t [] (ix_inputs ix) = filter (λ a, arc_target a = t) resolved) as Hins.
  { intros t Ht. unfold dget_default. rewrite I1.
    rewrite (filter_transition tm t arc_target resolved Ht (feeds tm t)) by done. by destruct (filter _ resolved). }
  split; simpl.
  - split; [apply NoDup_dict_of_list|]. intros p pl. apply dict_of_list_keyed.
  - split; [done|]. intros t tr. apply dict_of_list_keyed.
  - intros p Hp. apply dmem_false, Hdisj, dmem_true, dget_is_Some. done.
  - eapply Forall_impl; [exact I5|]. intros a [[Ha Hb]|(Ha & Hb & ? & ?)]; apply dmem_true, dget_is_Some in Ha, Hb.
    + by left.
    + by right.
  - apply Forall_forall. intros a Ha. unfold place_colored. simpl.
    apply mapR_Ok in Hres. apply list_elem_of_lookup in Ha as [k Hk].
    eapply Forall2_lookup_r in Hres as (a0 & _ & Hr); [|exact Hk]. by apply resolve_arc_spec in Hr as (_ & _ & ?).
  - intros t Ht. unfold inputs. simpl. by apply Hins.
  - intros t Ht. unfold outputs. simpl. rewrite I4. by apply (filter_transition tm t arc_source).
  - intros t k a. apply I2.
  - intros t Ht. unfold is_source, inputs. simpl. rewrite negb_true_iff, dmem_false. unfold dget_default.
    split; [by intros ->|]. rewrite I1. by destruct (filter _ resolved).
  - match goal with H : negb (bool_decide (NoDup _)) = false |- _ => apply negb_false_iff, bool_decide_eq_true in H end.
    split; [done|]. split; lia.
  - intros t tr Ht Hs Hh. unfold is_source in Hs. simpl in Hs. apply negb_false_iff, dmem_true, dget_is_Some in Hs as [ins Hins'].
    pose proof (dget_elem_of _ _ _ Hins') as Hel. apply Hprog in Hel. unfold check_progress in Hel. rewrite Ht in Hel.
    simpl in Hel. apply raise_if_Ok in Hel. rewrite bool_decide_true in Hel by done. simpl in Hel.
    apply negb_false_iff, existsb_exists in Hel as (a & Ha & Hc). exists a. split.
    + unfold inputs, dget_default. simpl. rewrite Hins'. by apply list_elem_of_In.
    + by apply bool_decide_eq_true in Hc.
  - intros t tr Ht Hs. apply dget_elem_of, Htime in Ht. unfold check_timing in Ht.
    unfold is_source in Hs. simpl in Hs. rewrite Hs in Ht. simpl in Ht. inv_ok.
    repeat match goal with H : negb (bool_decide _) = false |- _ => apply negb_false_iff, bool_decide_eq_true in H end.
    done.
Qed.

(** C38: a constructed net has one declaration per path, no path that is both
    a place and a transition, arcs only between places and transitions (outputs
    without modes or filters) that carry their place's color, incidence indexes
    equal to the filtered arc list, one unique identity per arc, no passthrough
    transition without a consume input, and no guards or timers on a source. *)
Theorem constructed_net_well_formed ps ts ars comp name n :
  Net_init ps ts ars comp name = Ok n → net_ok n.
Proof. apply Net_init_ok. Qed.

Lemma constructed_net_well_formed_witness :
  ∃ n, Net_init [MkPlace ["p"] (Some "red")] [MkTransition ["t"] None [] []]
         [MkArc ["p"] ["t"] CONSUME 1 None None] None None = Ok n ∧ net_ok n.
Proof.
  destruct (Net_init [MkPlace ["p"] (Some "red")] [MkTransition ["t"] None [] []]
         [MkArc ["p"] ["t"] CONSUME 1 None None] None None) as [n|e] eqn:E.
  - exists n. split; [reflexivity|]. exact (constructed_net_well_formed _ _ _ _ _ n E).
  - vm_compute in E. discriminate E.
Defined.

(** ** Rebuilding a net from its own declarations

    A net's sorted places and transitions and its resolved arcs are accepted by
    the constructor and give a net with the same contents. The identity of a
    declaration determines the transition that owns it. *)

(** *** Canonical identities determine their owner *)

Definition unhex (a : Ascii.ascii) : nat :=
  let n := char_code a in if (n <? 58)%nat then (n - 48)%nat else (n - 55)%nat.

Lemma unhex_char a :
  Ascii.ascii_of_nat (unhex (hex_digit (char_code a / 16)) * 16 + unhex (hex_digit (char_code a mod 16)))%nat = a.
Proof. destruct a as [[] [] [] [] [] [] [] []]; reflexivity. Qed.

Lemma quote_inj safe s t : safe "%"%char = false → quote safe s = quote safe t → s = t.
Proof.
  intros Hp. revert t. induction s as [|a s IH]; intros [|b t]; cbn [quote].
  - done.
  - by destruct (safe b).
  - by destruct (safe a).
  - destruct (safe a) eqn:Ea, (safe b) eqn:Eb; intros [= H]; subst; try congruence.
    + f_equal. by apply IH.
    + f_equal; [|by apply IH]. rewrite <-(unhex_char a), <-(unhex_char b).
      change (hex_digit (char_code a / 16) = hex_digit (char_code b / 16)) in H.
      change (hex_digit (char_code a mod 16) = hex_digit (char_code b mod 16)) in H1. by rewrite H, H1.
Qed.

#[export] Instance quote_segment_inj : Inj (=) (=) quote_segment.
Proof. intros s t. by apply quote_inj. Qed.

(** Characters a quoted segment cannot hold. *)
Lemma quote_free safe c s :
  safe c = false → c ≠ "%"%char → (∀ n, (n < 16)%nat → hex_digit n ≠ c) → str_contains c (quote safe s) = false.
Proof.
  intros Hc Hp Hx. induction s as [|a s IH]; cbn [quote str_contains]; [done|]. destruct (safe a) eqn:Ea; cbn [str_contains].
  - apply orb_false_iff. split; [|done]. apply Ascii.eqb_neq. congruence.
  - rewrite IH, !orb_false_r. repeat (apply orb_false_iff; split); apply Ascii.eqb_neq; try congruence; apply Hx.
    + apply Nat.Div0.div_lt_upper_bound. unfold char_code. pose proof (Ascii.N_ascii_bounded a). lia.
    + apply Nat.mod_upper_bound. lia.
Qed.

Lemma hex_digit_ne c : forallb (λ n, negb (Ascii.eqb (hex_digit n) c)) (seq 0 16) = true →
  ∀ n, (n < 16)%nat → hex_digit n ≠ c.
Proof.
  intros H n Hn E. rewrite forallb_forall in H. specialize (H n).
  rewrite E, Ascii.eqb_refl in H. discriminate H. apply in_seq. lia.
Qed.

Lemma str_contains_app c s t : str_contains c (s +:+ t) = str_contains c s || str_contains c t.
Proof. induction s as [|a s IH]; simpl; [done|]. by rewrite IH, orb_assoc. Qed.

Lemma encoded_free c p : c ≠ "/"%char → Forall (λ s, str_contains c (quote_segment s) = false) p →
  str_contains c (encoded p) = false.
Proof.
  intros Hc Hp. unfold encoded. induction Hp as [|s p Hs Hp IH]; [done|].
  destruct p as [|s' p]; [done|].
  change (str_contains c (quote_segment s +:+ "/" +:+ str_join "/" (quote_segment <$> s' :: p)) = false).
  rewrite !str_contains_app, Hs, IH, orb_false_r. cbn [str_contains]. rewrite !orb_false_r. by apply Ascii.eqb_neq.
Qed.

Lemma encoded_inj p q : p ≠ [] → q ≠ [] → encoded p = encoded q → p = q.
Proof.
  assert (∀ p, Forall (λ s, str_contains "/" s = false) (quote_segment <$> p)) as Hf.
  { intros r. apply Forall_fmap, Forall_true. intros s. apply quote_free; try done. by apply hex_digit_ne. }
  intros Hp Hq E. apply (f_equal (str_split "/")) in E. unfold encoded in E.
  rewrite !(str_split_join "/"%char) in E by (apply Hf || by destruct p, q).
  by apply (inj (fmap quote_segment)) in E.
Qed.

Lemma declaration_owner p q k k' nm nm' u : p ≠ [] → q ≠ [] →
  NetUri_declaration "transition" p k nm = Ok u → NetUri_declaration "transition" q k' nm' = Ok u → p = q.
Proof.
  assert (∀ p k nm, NetUri_declaration "transition" p k nm = Ok u →
            ∃ f, str_split "#" u = ("transition:/" +:+ encoded p) :: f) as Hs.
  { intros r kd nme H. unfold NetUri_declaration, NetUri_new in H. inv_ok.
    exists (str_split "#" (match nme with None => kd | Some n => kd +:+ ":" +:+ quote_name n end)).
    rewrite <-str_split_app; [done|]. rewrite str_contains_app. apply orb_false_iff. split; [done|].
    apply encoded_free; [done|]. apply Forall_true. intros s. apply quote_free; try done. by apply hex_digit_ne. }
  intros Hp Hq (f & H1)%Hs (f' & H2)%Hs. rewrite H1 in H2. injection H2 as H2 _. by apply encoded_inj.
Qed.

(** *** Dictionaries with the same contents *)

Lemma dget_perm {K V} `{EqDecision K} (d d' : dict K V) k :
  NoDup (dkeys d) → d' ≡ₚ d → dget k d' = dget k d.
Proof.
  intros Hd Hp. assert (NoDup (dkeys d')) as Hd' by (unfold dkeys in *; by rewrite Hp).
  destruct (dget k d) as [v|] eqn:E.
  - apply elem_of_dget; [done|]. rewrite Hp. by apply dget_elem_of.
  - apply dget_None in E. apply dget_None. unfold dkeys in *. by rewrite Hp.
Qed.

Lemma dmem_ext {K V} `{EqDecision K} (d d' : dict K V) k : dget k d' = dget k d → dmem k d' = dmem k d.
Proof. unfold dmem. by intros ->. Qed.

(** A dictionary keyed by its values' own paths is rebuilt from them. *)
Lemma dict_of_keyed {V} (key : V → NetPath) (d : dict NetPath V) :
  NoDup (dkeys d) → (∀ k v, (k, v) ∈ d → key v = k) → dict_of_list ((λ v, (key v, v)) <$> d.*2) = d.
Proof.
  intros Hd Hk. rewrite <-list_fmap_compose.
  assert ((λ v, (key v, v)) ∘ snd <$> d = d) as ->; [|by apply dict_of_list_id].
  rewrite <-(list_fmap_id d) at 2. apply list_fmap_ext. intros i [k v] Hi. simpl.
  f_equal. apply Hk. by eapply list_elem_of_lookup_2.
Qed.

Lemma keyed_listing {V} (key : V → NetPath) (d d' : dict NetPath V) :
  NoDup (dkeys d) → (∀ k v, dget k d = Some v → key v = k) → d' ≡ₚ d →
  dict_of_list ((λ v, (key v, v)) <$> d'.*2) = d'.
Proof.
  intros Hd Hk Hp. apply dict_of_keyed; [unfold dkeys in *; by rewrite Hp|].
  intros k v Hin. rewrite Hp in Hin. by apply Hk, elem_of_dget.
Qed.

(** *** Transition declarations, in any order *)

Definition declared_handler_uri (p : NetPath) (t : Transition) : result (option NetUri) :=
  match handler t with
  | None => Ok None
  | Some _ => u ← NetUri_declaration "transition" p "handler" None; Ok (Some u)
  end.

Definition declared_guard_uris (p : NetPath) (t : Transition) : result (list NetUri) :=
  mapR (λ pg, NetUri_declaration "transition" p "guard" (Some (guard_name pg.1 pg.2))) (imap pair (guards t)).

Definition set_handler (u : option NetUri) (t : Transition) (d : dict NetUri HandlerDeclaration) :=
  match u, handler t with Some u, Some h => dset u h d | _, _ => d end.
Definition set_guards (us : list NetUri) (t : Transition) (d : dict NetUri GuardDeclaration) :=
  foldl (λ d ug, dset ug.1 ug.2 d) d (zip us (guards t)).

Lemma declare_step s p t s' :
  declare_transition s (p, t) = Ok s' ↔
  ∃ hu us, declared_handler_uri p t = Ok hu ∧ declared_guard_uris p t = Ok us ∧
    s' = MkDeclared (match hu with Some u => dset p u (decl_handler_uris s) | None => decl_handler_uris s end)
           (set_handler hu t (decl_handlers s)) (dset p us (decl_guard_uris s)) (set_guards us t (decl_guards s)).
Proof.
  unfold declare_transition, declared_handler_uri, declared_guard_uris, set_handler, set_guards. split.
  - intros H. destruct (handler t) as [h|]; inv_ok.
    + match goal with H : NetUri_declaration _ _ _ None = Ok ?u |- _ => rewrite H; exists (Some u) end. by eexists.
    + exists None. by eexists.
  - intros (hu & us & Hh & Hu & ->). destruct (handler t) as [h|]; inv_ok.
    + match goal with H : NetUri_declaration _ _ _ None = _ |- _ => rewrite H end. csimpl. by rewrite Hu.
    + csimpl. by rewrite Hu.
Qed.

Lemma declare_fold_ok l s :
  (∃ s', foldM declare_transition s l = Ok s') ↔
  Forall (λ pt, (∃ hu, declared_handler_uri pt.1 pt.2 = Ok hu) ∧ ∃ us, declared_guard_uris pt.1 pt.2 = Ok us) l.
Proof.
  revert s. induction l as [|[p t] l IH]; intros s; cbn [foldM]; [split; [by constructor|by eexists]|].
  rewrite Forall_cons. split.
  - intros (s' & H). apply bind_Ok in H as (s1 & H1 & H2). split; [|apply (IH s1); by eexists].
    apply declare_step in H1 as (hu & us & ? & ? & _). eauto.
  - intros [[[hu Hh] [us Hu]] Hl]. simpl in *.
    destruct (proj2 (IH (MkDeclared (match hu with Some u => dset p u (decl_handler_uris s) | None => decl_handler_uris s end)
           (set_handler hu t (decl_handlers s)) (dset p us (decl_guard_uris s)) (set_guards us t (decl_guards s)))) Hl) as [s' H'].
    exists s'. rewrite <-H'. match goal with |- (_ ≫= ?f) = _ => rewrite <-(bind_Ok_l _ f) end. f_equal.
    apply declare_step. eauto.
Qed.

Definition handler_uri_of (pt : NetPath * Transition) : option NetUri :=
  match declared_handler_uri pt.1 pt.2 with Ok u => u | Err _ => None end.
Definition guard_uris_of' (pt : NetPath * Transition) : list NetUri :=
  match declared_guard_uris pt.1 pt.2 with Ok us => us | Err _ => [] end.

Definition add_handler_uri (d : dict NetPath NetUri) pt :=
  match handler_uri_of pt with Some u => dset pt.1 u d | None => d end.
Definition add_handler (d : dict NetUri HandlerDeclaration) pt := set_handler (handler_uri_of pt) pt.2 d.
Definition add_guard_uris (d : dict NetPath (list NetUri)) (pt : NetPath * Transition) :=
  dset pt.1 (guard_uris_of' pt) d.
Definition add_guards (d : dict NetUri GuardDeclaration) pt := set_guards (guard_uris_of' pt) pt.2 d.

Lemma declare_fold_eq l s s' : foldM declare_transition s l = Ok s' →
  s' = MkDeclared (foldl add_handler_uri (decl_handler_uris s) l) (foldl add_handler (decl_handlers s) l)
         (foldl add_guard_uris (decl_guard_uris s) l) (foldl add_guards (decl_guards s) l).
Proof.
  revert s. induction l as [|[p t] l IH]; intros s H; cbn [foldM] in H.
  { inv_ok. by destruct s'. }
  apply bind_Ok in H as (s1 & H1 & H2). apply declare_step in H1 as (hu & us & Hh & Hu & ->).
  rewrite (IH _ H2). cbn [foldl decl_handler_uris decl_handlers decl_guard_uris decl_guards].
  unfold add_handler_uri at 3, add_handler at 3, add_guard_uris at 3, add_guards at 3, handler_uri_of, guard_uris_of'.
  simpl. by rewrite Hh, Hu.
Qed.

(** Updates owned by the entry that makes them commute. *)
Section owned.
Context {U W : Type} `{EqDecision U} (f : dict U W → NetPath * Transition → dict U W)
  (owns : NetPath → U → Prop).
Hypothesis local : ∀ pt u, pt.1 ≠ [] → (∀ d, dget u (f d pt) = dget u d) ∨
  (owns pt.1 u ∧ ∀ d d', dget u (f d pt) = dget u (f d' pt)).
Hypothesis disjoint : ∀ p q u, p ≠ [] → q ≠ [] → owns p u → owns q u → p = q.

Lemma owned_fold l l' d d' u : Forall (λ pt, pt.1 ≠ []) l → NoDup (l.*1) → l ≡ₚ l' → dget u d = dget u d' →
  dget u (foldl f d l) = dget u (foldl f d' l').
Proof.
  intros Hne Hnd Hp. revert d d' Hne Hnd.
  assert (∀ d d' pt, pt.1 ≠ [] → dget u d = dget u d' → dget u (f d pt) = dget u (f d' pt)) as Hcong.
  { intros d d' pt H Hd. destruct (local pt u H) as [Hl|[_ Hl]]; [by rewrite !Hl|apply Hl]. }
  induction Hp as [|pt l l' Hp IH|pt pt' l|l l1 l2 Hp1 IH1 Hp2 IH2]; intros d d' Hne Hnd Hd; simpl.
  - done.
  - rewrite Forall_cons in Hne. rewrite fmap_cons, NoDup_cons in Hnd. apply IH; [apply Hne|apply Hnd|].
    apply Hcong; [apply Hne|done].
  - rewrite !Forall_cons in Hne. rewrite !fmap_cons, !NoDup_cons in Hnd. destruct Hne as (Hn1 & Hn2 & Hne).
    assert (dget u (f (f d pt') pt) = dget u (f (f d' pt) pt')) as E.
    { destruct (local pt u Hn2) as [H1|[O1 H1]], (local pt' u Hn1) as [H2|[O2 H2]].
      - by rewrite H1, H2, H2, H1.
      - rewrite H1. apply H2.
      - rewrite (H2 (f d' pt)). apply H1.
      - destruct Hnd as [Hn _]. destruct Hn. rewrite (disjoint pt'.1 pt.1 u) by done. left. }
    destruct Hnd as (_ & _ & Hnd). clear - Hcong E Hne. revert E. generalize (f (f d pt') pt) (f (f d' pt) pt').
    clear d d'. induction Hne as [|x l Hx Hl IH]; intros d d' E; simpl; [done|]. apply IH. by apply Hcong.
  - etrans; [apply (IH1 d d' Hne Hnd Hd)|]. apply IH2; [by rewrite <-Hp1|by rewrite <-Hp1|done].
Qed.
End owned.

Definition owned_uri (p : NetPath) (u : NetUri) : Prop :=
  ∃ k nm, NetUri_declaration "transition" p k nm = Ok u.

Lemma owned_uri_disjoint p q u : p ≠ [] → q ≠ [] → owned_uri p u → owned_uri q u → p = q.
Proof. intros Hp Hq (k & nm & H1) (k' & nm' & H2). by eapply declaration_owner. Qed.

Lemma dset_local {U W} `{EqDecision U} (k : U) (v : W) u :
  (∀ d, dget u (dset k v d) = dget u d) ∨ (k = u ∧ ∀ d d', dget u (dset k v d) = dget u (dset k v d')).
Proof.
  destruct (decide (u = k)) as [->|Hne].
  - right. split; [done|]. intros d d'. by rewrite !dget_dset_eq.
  - left. intros d. by apply dget_dset_ne.
Qed.

Lemma foldl_dset_local {U W} `{EqDecision U} (l : list (U * W)) u :
  (∀ d, dget u (foldl (λ d kv, dset kv.1 kv.2 d) d l) = dget u d) ∨
  (u ∈ l.*1 ∧ ∀ d d', dget u (foldl (λ d kv, dset kv.1 kv.2 d) d l) = dget u (foldl (λ d kv, dset kv.1 kv.2 d) d' l)).
Proof.
  induction l as [|[k v] l IH]; simpl; [by left|]. destruct IH as [IH|[Hin IH]].
  - destruct (dset_local k v u) as [H|[<- H]].
    + left. intros d. by rewrite IH, H.
    + right. split; [left|]. intros d d'. by rewrite !IH, !dget_dset_eq.
  - right. split; [by right|]. intros d d'. apply IH.
Qed.

Lemma add_handler_uri_local pt u :
  (∀ d, dget u (add_handler_uri d pt) = dget u d) ∨
  (pt.1 = u ∧ ∀ d d', dget u (add_handler_uri d pt) = dget u (add_handler_uri d' pt)).
Proof. unfold add_handler_uri. destruct (handler_uri_of pt); [apply dset_local|by left]. Qed.

Lemma add_handler_local pt u :
  (∀ d, dget u (add_handler d pt) = dget u d) ∨
  (owned_uri pt.1 u ∧ ∀ d d', dget u (add_handler d pt) = dget u (add_handler d' pt)).
Proof.
  unfold add_handler, set_handler. destruct (handler_uri_of pt) as [w|] eqn:E; [|by left].
  destruct (handler pt.2) as [h|] eqn:Eh; [|by left].
  destruct (dset_local w h u) as [H|[-> H]]; [by left|right]. split; [|done].
  unfold handler_uri_of, declared_handler_uri in E. rewrite Eh in E.
  destruct (NetUri_declaration _ _ _ None) eqn:Ed; [|done]. simplify_eq/=. by eexists _, _.
Qed.

Lemma guard_uris_owned pt u : u ∈ guard_uris_of' pt → owned_uri pt.1 u.
Proof.
  unfold guard_uris_of'. destruct (declared_guard_uris pt.1 pt.2) as [us|] eqn:E; [|by intros ?%not_elem_of_nil].
  unfold declared_guard_uris in E. apply mapR_Ok in E. intros [i Hi]%list_elem_of_lookup.
  eapply Forall2_lookup_r in E as (pg & _ & H); [|exact Hi]. by eexists _, _.
Qed.

Lemma add_guards_local pt u :
  (∀ d, dget u (add_guards d pt) = dget u d) ∨
  (owned_uri pt.1 u ∧ ∀ d d', dget u (add_guards d pt) = dget u (add_guards d' pt)).
Proof.
  unfold add_guards, set_guards. destruct (foldl_dset_local (zip (guard_uris_of' pt) (guards pt.2)) u) as [H|[Hin H]]; [by left|].
  right. split; [|done]. apply guard_uris_owned.
  apply list_elem_of_fmap in Hin as ([w g] & -> & Hin). by apply elem_of_zip_l in Hin.
Qed.

(** The declarations of a permuted transition table are the same. *)
Lemma declare_perm l l' s :
  Forall (λ pt, pt.1 ≠ []) l → NoDup (dkeys l) → l ≡ₚ l' →
  foldM declare_transition (MkDeclared [] [] [] []) l = Ok s →
  ∃ s', foldM declare_transition (MkDeclared [] [] [] []) l' = Ok s' ∧
    (∀ p, dget p (decl_handler_uris s') = dget p (decl_handler_uris s)) ∧
    (∀ u, dget u (decl_handlers s') = dget u (decl_handlers s)) ∧
    (∀ p, dget p (decl_guard_uris s') = dget p (decl_guard_uris s)) ∧
    (∀ u, dget u (decl_guards s') = dget u (decl_guards s)).
Proof.
  intros Hne Hnd Hp Hs.
  destruct (proj2 (declare_fold_ok l' (MkDeclared [] [] [] []))) as [s' Hs'].
  { rewrite <-Hp. apply (declare_fold_ok l (MkDeclared [] [] [] [])). by eexists. }
  exists s'. split; [done|]. rewrite (declare_fold_eq _ _ _ Hs), (declare_fold_eq _ _ _ Hs'). simpl.
  repeat split; intros u; symmetry.
  - apply (owned_fold _ (λ p u, p = u)); [by intros; apply add_handler_uri_local|congruence|done..].
  - apply (owned_fold _ owned_uri); [by intros; apply add_handler_local|apply owned_uri_disjoint|done..].
  - apply (owned_fold _ (λ p u, p = u)); [by intros; apply dset_local|congruence|done..].
  - apply (owned_fold _ owned_uri); [by intros; apply add_guards_local|apply owned_uri_disjoint|done..].
Qed.

(** *** The whole net *)

(** Two nets with the same contents: equal arcs, identities and indexes, and
    tables that look up the same (they may list their entries in another
    order). *)
Record same_net (n n' : Net) : Prop := {
  sn_places : ∀ p, dget p (places n') = dget p (places n);
  sn_transitions : ∀ p, dget p (transitions n') = dget p (transitions n);
  sn_arcs : arcs n' = arcs n;
  sn_completion : completion n' = completion n;
  sn_name : net_name n' = net_name n;
  sn_handler_uris : ∀ p, dget p (handler_uris n') = dget p (handler_uris n);
  sn_handlers : ∀ u, dget u (handler_declarations n') = dget u (handler_declarations n);
  sn_guard_uris : ∀ p, dget p (guard_uris_of n') = dget p (guard_uris_of n);
  sn_guards : ∀ u, dget u (guard_declarations n') = dget u (guard_declarations n);
  sn_arc_uris : arc_uris n' = arc_uris n;
  sn_filter_uris : filter_uris n' = filter_uris n;
  sn_filters : filter_declarations n' = filter_declarations n;
  sn_inputs : inputs_of n' = inputs_of n;
  sn_positions : input_positions_of n' = input_positions_of n;
  sn_outputs : outputs_of n' = outputs_of n
}.

Lemma resolve_arc_idem pm tm a a' : resolve_arc pm tm a = Ok a' → resolve_arc pm tm a' = Ok a'.
Proof.
  intros H. unfold resolve_arc in H. apply bind_Ok in H as (pl & Hp & H).
  assert (arc_source a' = arc_source a ∧ arc_target a' = arc_target a ∧
    ∀ pc, place_color pl = Some pc → arc_color a' = Some pc) as (Hs & Ht & Hc).
  { destruct (place_color pl) as [pc|], (arc_color a) as [ac|] eqn:Ea; inv_ok; try done.
    match goal with H : negb (bool_decide _) = false |- _ => apply negb_false_iff, bool_decide_eq_true in H; subst end.
    split; [done|]. split; [done|]. congruence. }
  unfold resolve_arc. rewrite Hs, Ht, Hp. csimpl. destruct (place_color pl) as [pc|]; [|done].
  rewrite (Hc pc eq_refl). by rewrite bool_decide_true.
Qed.

Section rebuild.
Context (pm pm' : dict NetPath Place) (tm tm' : dict NetPath Transition).
Hypothesis same_places : ∀ p, dget p pm' = dget p pm.
Hypothesis same_transitions : ∀ p, dget p tm' = dget p tm.

Lemma resolve_arc_same a : resolve_arc pm' tm' a = resolve_arc pm tm a.
Proof. unfold resolve_arc. by rewrite !(dmem_ext pm pm'), !(dmem_ext tm tm'), !same_places by done. Qed.

Lemma resolve_again ars resolved :
  resolve_place_colors pm tm ars = Ok resolved → resolve_place_colors pm' tm' resolved = Ok resolved.
Proof.
  unfold resolve_place_colors. rewrite !mapR_Ok. induction 1 as [|a a' l l' Ha _ IH]; constructor; [|done].
  rewrite resolve_arc_same. by eapply resolve_arc_idem.
Qed.

Lemma index_same s l : foldM (index_arc pm' tm') s l = foldM (index_arc pm tm) s l.
Proof.
  revert s. induction l as [|[k a] l IH]; intros s; cbn [foldM]; [done|].
  assert (index_arc pm' tm' s (k, a) = index_arc pm tm s (k, a)) as ->.
  { unfold index_arc. by rewrite !(dmem_ext pm pm'), !(dmem_ext tm tm') by done. }
  destruct (index_arc pm tm s (k, a)); csimpl; [apply IH|done].
Qed.

Lemma progress_same l : forM_ (check_progress tm') l = forM_ (check_progress tm) l.
Proof.
  assert (∀ e, check_progress tm' e = check_progress tm e) as He.
  { intros [p ins]. unfold check_progress. by rewrite same_transitions. }
  unfold forM_. generalize tt. induction l as [|e l IH]; intros u; cbn [foldM]; [done|].
  rewrite He. destruct (check_progress tm e); csimpl; [apply IH|done].
Qed.
End rebuild.

Lemma forM_perm {A} (f : A → result unit) l l' : l ≡ₚ l' → forM_ f l = Ok tt → forM_ f l' = Ok tt.
Proof. intros Hp. rewrite !forM_Ok. by rewrite Hp. Qed.

Lemma collision_false {V W} (pm : dict NetPath V) (tm : dict NetPath W) :
  existsb (λ p, dmem p tm) (dkeys pm) = false ↔ ∀ p, is_Some (dget p pm) → dget p tm = None.
Proof.
  rewrite <-not_true_iff_false, existsb_exists. split.
  - intros H p Hp. apply dmem_false, not_true_is_false. intros Ht. apply H. exists p. split; [|done].
    by apply list_elem_of_In, dget_is_Some.
  - intros H (p & Hp%list_elem_of_In & Ht). apply dget_is_Some, H, dmem_false in Hp. congruence.
Qed.

(** Any listing of a net's own places, transitions and arcs builds it again. *)
Lemma Net_rebuild ps ts ars comp name n pm' tm' :
  Net_init ps ts ars comp name = Ok n → Forall (λ pt, pt.1 ≠ []) (transitions n) →
  pm' ≡ₚ places n → tm' ≡ₚ transitions n →
  ∃ n', Net_init (pm'.*2) (tm'.*2) (arcs n) (completion n) (net_name n) = Ok n' ∧
    places n' = pm' ∧ transitions n' = tm' ∧ same_net n n'.
Proof.
  intros H Hts Hpm Htm. pose proof (Net_init_ok _ _ _ _ _ _ H) as Hok.
  pose proof (net_places n Hok) as [Hpn Hpk]. pose proof (net_transitions n Hok) as [Htn Htk].
  pose proof (net_disjoint n Hok) as Hdis. clear Hok.
  assert (dict_of_list ((λ p, (place_path p, p)) <$> pm'.*2) = pm') as Ep by (by apply keyed_listing with (places n)).
  assert (dict_of_list ((λ t, (transition_path t, t)) <$> tm'.*2) = tm') as Et
    by (by apply keyed_listing with (transitions n)).
  assert (∀ p, dget p pm' = dget p (places n)) as Gp by (intros; by apply dget_perm).
  assert (∀ p, dget p tm' = dget p (transitions n)) as Gt by (intros; by apply dget_perm).
  unfold Net_init in H. inv_ok. simpl in *.
  match goal with H : foldM declare_transition _ _ = Ok ?x |- _ => rename H into Hdecl; rename x into decls end.
  destruct (declare_perm _ tm' _ Hts Htn (symmetry Htm) Hdecl) as (decls' & Hdecl' & D1 & D2 & D3 & D4).
  match goal with H : resolve_place_colors _ _ _ = Ok _ |- _ => apply (resolve_again _ _ _ _ Gp Gt) in H; rename H into Hres end.
  match goal with H : foldM (index_arc _ _) _ _ = Ok _ |- _ => rewrite <-(index_same _ _ _ _ Gp Gt) in H; rename H into Hix end.
  match goal with H : forM_ (check_progress _) _ = Ok _ |- _ => rewrite <-(progress_same _ _ Gt) in H; rename H into Hprog end.
  match goal with H : forM_ (check_timing _) _ = Ok _ |- _ => apply (forM_perm _ _ _ (symmetry Htm)) in H; rename H into Htime end.
  eexists. split.
  - unfold Net_init. rewrite Ep, Et, !length_fmap, !Nat.eqb_refl.
    repeat match goal with H : (match _ with _ => _ end) = false |- _ => rewrite H; clear H end. csimpl.
    rewrite (proj2 (collision_false pm' tm')) by (intros p; rewrite Gp, Gt; apply Hdis). csimpl.
    rewrite Hdecl'. csimpl. rewrite Hres. csimpl.
    match goal with H : foldM (identify_arc _) _ _ = Ok _ |- _ => rewrite H end. csimpl.
    match goal with H : negb (bool_decide (NoDup _)) = false |- _ => rewrite H end. csimpl.
    rewrite Hix. csimpl. rewrite Hprog. csimpl. rewrite Htime. csimpl. done.
  - split; [done|]. split; [done|]. by split.
Qed.

(** The identities a transition of a net declares. *)
Lemma declared_uris ps ts ars comp name n p t :
  Net_init ps ts ars comp name = Ok n → Forall (λ pt, pt.1 ≠ []) (transitions n) →
  dget p (transitions n) = Some t →
  (∀ h, handler t = Some h → is_Some (handler_uri n p)) ∧
  length (guard_uris n p) = length (guards t).
Proof.
  intros H Hne Ht. pose proof (Net_init_ok _ _ _ _ _ _ H) as Hok.
  pose proof (net_transitions n Hok) as [Htn _]. clear Hok. unfold Net_init in H. inv_ok. simpl in *.
  match goal with H : foldM declare_transition _ _ = Ok _ |- _ => rename H into Hd end.
  pose proof (proj1 (declare_fold_ok _ _) (ex_intro _ _ Hd)) as Hall. rewrite Forall_forall in Hall.
  pose proof (dget_elem_of _ _ _ Ht) as Hin. destruct (Hall _ Hin) as [[hu Hhu] [us Hus]]. simpl in Hhu, Hus.
  apply declare_fold_eq in Hd as ->. simpl. unfold handler_uri, guard_uris, dget_default. simpl.
  apply list_elem_of_split in Hin as (l1 & l2 & Hl).
  assert (dict_of_list ((λ t, (transition_path t, t)) <$> ts) ≡ₚ (l1 ++ l2) ++ [(p, t)]) as Hp.
  { rewrite Hl. solve_Permutation. }
  split.
  - intros h Hh. erewrite (owned_fold _ (λ p u, p = u)); [|by intros; apply add_handler_uri_local|congruence|done|done|exact Hp|done].
    rewrite foldl_app. simpl. unfold add_handler_uri at 1, handler_uri_of. simpl. rewrite Hhu.
    unfold declared_handler_uri in Hhu. rewrite Hh in Hhu. inv_ok. rewrite dget_dset_eq. by eexists.
  - erewrite (owned_fold _ (λ p u, p = u)); [|by intros; apply dset_local|congruence|done|done|exact Hp|done].
    rewrite foldl_app. simpl. unfold add_guard_uris at 1, guard_uris_of'. simpl. rewrite Hus, dget_dset_eq. simpl.
    unfold declared_guard_uris in Hus. apply mapR_Ok, Forall2_length in Hus. by rewrite length_imap in Hus.
Qed.
