(* ===== verification/NetDefinition.v ===== *)
(** * Net definitions (src/src/petrus/impetus/net_definition.py)

    The version-3 definition of a net: the document models with their field
    validators, the projection of a net into a document, the compilation of a
    document back into a net, and the strict wire form of a document. A JSON
    text is represented by the tree [json.loads] reads from it, an object being
    its member pairs in order, repeated names included. Strings are UTF-8 texts,
    so they hold no surrogates and [_validate_unicode] accepts every one. The
    single-valued literals ([format], [version], [time_domain], [kind]) are the
    constructors here and appear in the wire form only. *)

From stdpp Require Import base gmap sets list strings.
From Stdlib Require Import ZArith Lia.
From S2P Require Import Prelude PyData Schema.
Open Scope string_scope.
Open Scope list_scope.
Open Scope Z_scope.

Definition JSON_SAFE_INTEGER_MAX : Z := 2 ^ 53 - 1.
Definition JSON_SAFE_INTEGER_MIN : Z := - (2 ^ 53 - 1).

(** [NetDefinitionError] and pydantic's [ValidationError] are [ValueError]s. *)
Definition NetDefinitionError (msg : string) : exn := ValueError ("NetDefinitionError: " +:+ msg).
Definition ValidationError (msg : string) : exn := ValueError ("ValidationError: " +:+ msg).

(** [except NetDefinitionError: raise], [except ValueError: raise NetDefinitionError(msg)] *)
Definition definition_error {A} (msg : string) (m : result A) : result A :=
  match m with
  | Err (ValueError e) =>
      if startswith "NetDefinitionError: " e then Err (ValueError e) else Err (NetDefinitionError msg)
  | m => m
  end.

Definition safe_integer (z : Z) : bool := (JSON_SAFE_INTEGER_MIN <=? z) && (z <=? JSON_SAFE_INTEGER_MAX).

(** ** The document models *)

Inductive PureExpression :=
| SymbolExpression (name : string)
| CelExpression (expression : string).

Inductive HandlerDefinition :=
| SymbolHandler (name uri : string)
| AnonymousHandler (uri : string).

Inductive GuardDefinition :=
| SymbolGuard (name uri : string)
| CelGuard (expression uri : string)
| AnonymousGuard (uri : string).

Inductive TimerDefinition :=
| DelayDefinition (duration : Z)
| UntilDefinition (instant : Z).

Record PlaceDefinition := MkPlaceDefinition { pd_path : string; pd_color : option string }.

Record TransitionDefinition := MkTransitionDefinition {
  td_path : string;
  td_handler : option HandlerDefinition;
  td_guards : list GuardDefinition;
  td_timers : list TimerDefinition
}.

Record ArcDefinition := MkArcDefinition {
  ad_position : Z;
  ad_source : string;
  ad_target : string;
  ad_mode : ArcMode;
  ad_weight : Z;
  ad_color : option string;
  ad_filter : option PureExpression
}.

Record NetDefinitionBody := MkNetDefinitionBody {
  nb_name : option string;
  nb_places : list PlaceDefinition;
  nb_transitions : list TransitionDefinition;
  nb_arcs : list ArcDefinition;
  nb_completion : option PureExpression
}.

Record NetDefinitionV3 := MkNetDefinitionV3 { nd_definition : NetDefinitionBody }.

#[export] Instance PureExpression_eq_dec : EqDecision PureExpression.
Proof. solve_decision. Defined.
#[export] Instance HandlerDefinition_eq_dec : EqDecision HandlerDefinition.
Proof. solve_decision. Defined.
#[export] Instance GuardDefinition_eq_dec : EqDecision GuardDefinition.
Proof. solve_decision. Defined.
#[export] Instance TimerDefinition_eq_dec : EqDecision TimerDefinition.
Proof. solve_decision. Defined.
#[export] Instance PlaceDefinition_eq_dec : EqDecision PlaceDefinition.
Proof. solve_decision. Defined.
#[export] Instance TransitionDefinition_eq_dec : EqDecision TransitionDefinition.
Proof. solve_decision. Defined.
#[export] Instance ArcDefinition_eq_dec : EqDecision ArcDefinition.
Proof. solve_decision. Defined.
#[export] Instance NetDefinitionBody_eq_dec : EqDecision NetDefinitionBody.
Proof. solve_decision. Defined.
#[export] Instance NetDefinitionV3_eq_dec : EqDecision NetDefinitionV3.
Proof. solve_decision. Defined.

(** ** Validating construction: a model's constructor runs its validators *)

Definition symbol_name (name : string) : result string :=
  raise_if (bad_symbol name) (ValidationError "symbol name must be non-empty and cannot start with '$'");;
  Ok name.

Definition cel_expression (expression : string) : result string :=
  raise_if (str_empty expression) (ValidationError "CEL expression must be non-empty");;
  Ok expression.

Definition SymbolExpression_new (name : string) : result PureExpression :=
  name ← symbol_name name; Ok (SymbolExpression name).
Definition CelExpression_new (expression : string) : result PureExpression :=
  expression ← cel_expression expression; Ok (CelExpression expression).

Definition SafeInteger_new (z : Z) : result Z :=
  raise_if (negb (safe_integer z)) (ValidationError "outside the interoperable range");;
  Ok z.

(** [_path] *)
Definition canonical_path (value : string) : result string :=
  path ← NetPath_new value;
  raise_if (negb (String.eqb (path_str path) value))
    (ValidationError "path must use canonical dotted NetPath spelling");;
  Ok value.

Definition PlaceDefinition_new (path : string) (color : option string) : result PlaceDefinition :=
  path ← canonical_path path;
  raise_if (bad_color color) (ValidationError "place color must be non-empty or null");;
  Ok (MkPlaceDefinition path color).

Definition TransitionDefinition_new (path : string) (handler : option HandlerDefinition)
    (guards : list GuardDefinition) (timers : list TimerDefinition) : result TransitionDefinition :=
  path ← canonical_path path;
  Ok (MkTransitionDefinition path handler guards timers).

Definition ArcDefinition_new (position : Z) (source target : string) (mode : ArcMode) (weight : Z)
    (color : option string) (filter : option PureExpression) : result ArcDefinition :=
  raise_if (negb ((0 <=? position) && (position <=? JSON_SAFE_INTEGER_MAX))) (ValidationError "arc position");;
  source ← canonical_path source;
  target ← canonical_path target;
  raise_if (negb ((1 <=? weight) && (weight <=? JSON_SAFE_INTEGER_MAX))) (ValidationError "arc weight");;
  raise_if (bad_color color) (ValidationError "arc color must be non-empty or null");;
  Ok (MkArcDefinition position source target mode weight color filter).

Definition unique_sorted (paths : list string) : bool :=
  bool_decide (paths = sorted_by str_leb paths) && bool_decide (NoDup paths).

(** [canonical_collections] *)
Definition canonical_collections (b : NetDefinitionBody) : result unit :=
  raise_if (negb (unique_sorted (pd_path <$> nb_places b)))
    (ValidationError "places must have unique paths sorted by Unicode scalar value");;
  raise_if (negb (unique_sorted (td_path <$> nb_transitions b)))
    (ValidationError "transitions must have unique paths sorted by Unicode scalar value");;
  raise_if (negb (bool_decide ((ad_position <$> nb_arcs b) = zrange 0 (length (nb_arcs b)))))
    (ValidationError "arc positions must be the dense ordered range [0, len(arcs))").

Definition NetDefinitionBody_new (name : option string) (places : list PlaceDefinition)
    (transitions : list TransitionDefinition) (arcs : list ArcDefinition)
    (completion : option PureExpression) : result NetDefinitionBody :=
  raise_if (match name with Some n => str_empty n | None => false end)
    (ValidationError "Net name must be non-empty or null");;
  let b := MkNetDefinitionBody name places transitions arcs completion in
  canonical_collections b;;
  Ok b.

(** ** From a net to its definition *)

(** [_project_pure] *)
Definition project_pure (value : option FilterDeclaration) : result (option PureExpression) :=
  match value with
  | None => Ok None
  | Some (FilterSymbol s) => e ← SymbolExpression_new s; Ok (Some e)
  | Some (FilterCel c) => e ← CelExpression_new c; Ok (Some e)
  end.

(** [_project_behavior] on a handler declaration. *)
Definition project_handler (value : HandlerDeclaration) (uri : NetUri) : result HandlerDefinition :=
  match value with
  | HandlerSymbol s => s ← symbol_name s; Ok (SymbolHandler s uri)
  | HandlerAnonymous => Ok (AnonymousHandler uri)
  end.

(** [_project_behavior] on a guard declaration. *)
Definition project_guard (value : GuardDeclaration) (uri : NetUri) : result GuardDefinition :=
  match value with
  | GuardSymbol s => s ← symbol_name s; Ok (SymbolGuard s uri)
  | GuardCel c => c ← cel_expression c; Ok (CelGuard c uri)
  | GuardAnonymous => Ok (AnonymousGuard uri)
  end.

(** [_integer] *)
Definition integer (value : Z) (subject : string) : result Z :=
  raise_if (negb (safe_integer value))
    (NetDefinitionError (subject +:+ " is outside the inclusive interoperable range"));;
  Ok value.

Definition project_timer (t : Timer) : result TimerDefinition :=
  match t with
  | Delay duration => d ← integer duration "Delay duration"; d ← SafeInteger_new d; Ok (DelayDefinition d)
  | Until instant => i ← integer instant "Until instant"; i ← SafeInteger_new i; Ok (UntilDefinition i)
  end.

Definition project_place (entry : NetPath * Place) : result PlaceDefinition :=
  PlaceDefinition_new (path_str entry.1) (place_color entry.2).

Definition project_transition (n : Net) (entry : NetPath * Transition) : result TransitionDefinition :=
  let '(path, t) := entry in
  handler ← (match handler t with
             | None => Ok None
             | Some h =>
                 uri ← or_raise (handler_uri n path) (RuntimeError "declared handler has no URI");
                 d ← project_handler h uri; Ok (Some d)
             end);
  raise_if (negb (length (guards t) =? length (guard_uris n path))%nat)
    (ValueError "zip() arguments differ in length");;
  guards ← mapR (λ gu, project_guard gu.1 gu.2) (zip (guards t) (guard_uris n path));
  timers ← mapR project_timer (timers t);
  TransitionDefinition_new (path_str path) handler guards timers.

Definition project_arc (entry : nat * Arc) : result ArcDefinition :=
  let '(position, a) := entry in
  position ← integer (Z.of_nat position) "arc position";
  weight ← integer (arc_weight a) "arc weight";
  filter ← project_pure (arc_filter a);
  ArcDefinition_new position (path_str (arc_source a)) (path_str (arc_target a)) (arc_mode a) weight
    (arc_color a) filter.

(** [net.places.items()] sorted by the spelling of the path. *)
Definition sorted_items {V} (d : dict NetPath V) : list (NetPath * V) :=
  sorted_by (λ x y, path_leb x.1 y.1) d.

(** [project_net_definition] *)
Definition project_net_definition (n : Net) : result NetDefinitionV3 :=
  places ← mapR project_place (sorted_items (places n));
  transitions ← mapR (project_transition n) (sorted_items (transitions n));
  arcs ← mapR project_arc (imap pair (arcs n));
  completion ← project_pure (completion n);
  body ← NetDefinitionBody_new (net_name n) places transitions arcs completion;
  Ok (MkNetDefinitionV3 body).

(** ** From a definition to its net *)

(** [_pure] *)
Definition pure (value : option PureExpression) : result (option FilterDeclaration) :=
  match value with
  | None => Ok None
  | Some (SymbolExpression name) => Ok (Some (FilterSymbol name))
  | Some (CelExpression expression) => c ← Cel_new expression; Ok (Some (FilterCel c))
  end.

(** [_behavior] on a handler definition. *)
Definition handler_behavior (value : option HandlerDefinition) : option HandlerDeclaration :=
  match value with
  | None => None
  | Some (SymbolHandler name _) => Some (HandlerSymbol name)
  | Some (AnonymousHandler _) => Some HandlerAnonymous
  end.

(** [_behavior] on a guard definition. *)
Definition guard_behavior (value : GuardDefinition) : result GuardDeclaration :=
  match value with
  | SymbolGuard name _ => Ok (GuardSymbol name)
  | CelGuard expression _ => c ← Cel_new expression; Ok (GuardCel c)
  | AnonymousGuard _ => Ok GuardAnonymous
  end.

Definition compile_timer (t : TimerDefinition) : Timer :=
  match t with DelayDefinition d => Delay d | UntilDefinition i => Until i end.

Definition compile_place (p : PlaceDefinition) : result Place :=
  path ← NetPath_new (pd_path p);
  let place := MkPlace path (pd_color p) in
  Place_post_init place;;
  Ok place.

Definition compile_transition (t : TransitionDefinition) : result Transition :=
  path ← NetPath_new (td_path t);
  guards ← mapR guard_behavior (td_guards t);
  let transition := MkTransition path (handler_behavior (td_handler t)) guards (compile_timer <$> td_timers t) in
  Transition_post_init transition;;
  Ok transition.

Definition compile_arc (a : ArcDefinition) : result Arc :=
  source ← NetPath_new (ad_source a);
  target ← NetPath_new (ad_target a);
  filter ← pure (ad_filter a);
  let arc := MkArc source target (ad_mode a) (ad_weight a) (ad_color a) filter in
  Arc_post_init arc;;
  Ok arc.

(** The [Net(...)] call of [compile_net_definition]. *)
Definition compile_net (b : NetDefinitionBody) : result Net :=
  places ← mapR compile_place (nb_places b);
  transitions ← mapR compile_transition (nb_transitions b);
  arcs ← mapR compile_arc (nb_arcs b);
  completion ← pure (nb_completion b);
  Net_init places transitions arcs completion (nb_name b).

Definition compile_net_definition (document : NetDefinitionV3) : result Net :=
  net ← definition_error "invalid Petrus Net-definition v3 semantics" (compile_net (nd_definition document));
  projected ← project_net_definition net;
  raise_if (negb (bool_decide (projected = document)))
    (NetDefinitionError "Petrus Net-definition v3 must already be canonical and exactly projectable");;
  Ok net.

(** ** The wire form *)

Definition dump_str_opt (s : option string) : Data := match s with Some s => DStr s | None => DNone end.

Definition dump_pure (e : PureExpression) : Data :=
  match e with
  | SymbolExpression name => DDict [("kind", DStr "symbol"); ("name", DStr name)]
  | CelExpression expression => DDict [("kind", DStr "cel"); ("expression", DStr expression)]
  end.

Definition dump_opt {A} (f : A → Data) (x : option A) : Data := match x with Some x => f x | None => DNone end.

Definition dump_handler (h : HandlerDefinition) : Data :=
  match h with
  | SymbolHandler name uri => DDict [("kind", DStr "symbol"); ("name", DStr name); ("uri", DStr uri)]
  | AnonymousHandler uri => DDict [("kind", DStr "anonymous"); ("uri", DStr uri)]
  end.

Definition dump_guard (g : GuardDefinition) : Data :=
  match g with
  | SymbolGuard name uri => DDict [("kind", DStr "symbol"); ("name", DStr name); ("uri", DStr uri)]
  | CelGuard expression uri =>
      DDict [("kind", DStr "cel"); ("expression", DStr expression); ("uri", DStr uri)]
  | AnonymousGuard uri => DDict [("kind", DStr "anonymous"); ("uri", DStr uri)]
  end.

Definition dump_timer (t : TimerDefinition) : Data :=
  match t with
  | DelayDefinition duration => DDict [("kind", DStr "delay"); ("duration", DInt duration)]
  | UntilDefinition instant => DDict [("kind", DStr "until"); ("instant", DInt instant)]
  end.

Definition mode_value (m : ArcMode) : string :=
  match m with CONSUME => "consume" | READ => "read" | INHIBIT => "inhibit" end.

Definition dump_place (p : PlaceDefinition) : Data :=
  DDict [("path", DStr (pd_path p)); ("color", dump_str_opt (pd_color p))].

Definition dump_transition (t : TransitionDefinition) : Data :=
  DDict [("path", DStr (td_path t)); ("handler", dump_opt dump_handler (td_handler t));
         ("guards", DList (dump_guard <$> td_guards t)); ("timers", DList (dump_timer <$> td_timers t))].

Definition dump_arc (a : ArcDefinition) : Data :=
  DDict [("position", DInt (ad_position a)); ("source", DStr (ad_source a)); ("target", DStr (ad_target a));
         ("mode", DStr (mode_value (ad_mode a))); ("weight", DInt (ad_weight a));
         ("color", dump_str_opt (ad_color a)); ("filter", dump_opt dump_pure (ad_filter a))].

Definition dump_body (b : NetDefinitionBody) : Data :=
  DDict [("name", dump_str_opt (nb_name b)); ("time_domain", DStr "integer");
         ("places", DList (dump_place <$> nb_places b));
         ("transitions", DList (dump_transition <$> nb_transitions b));
         ("arcs", DList (dump_arc <$> nb_arcs b)); ("completion", dump_opt dump_pure (nb_completion b))].

(** [document.model_dump(mode="json")] *)
Definition model_dump (d : NetDefinitionV3) : Data :=
  DDict [("format", DStr "petrus-net-definition"); ("version", DInt 3);
         ("definition", dump_body (nd_definition d))].

(** [serialize_net_definition] *)
Definition serialize_net_definition (document : NetDefinitionV3) : result Data :=
  definition_error "cannot serialize Petrus Net-definition v3"
    (compile_net_definition document;; Ok (model_dump document)).

(** *** Strict validation of a JSON tree ([extra="forbid"], [strict=True]) *)

(** The members of an object that declares exactly the fields [names], all
    required. *)
Definition members (names : list string) (x : Data) : result (dict string Data) :=
  match x with
  | DDict d =>
      raise_if (negb (forallb (λ k, bool_decide (k ∈ names)) (dkeys d))) (ValidationError "extra fields not permitted");;
      Ok d
  | _ => Err (ValidationError "an object is required")
  end.

Definition field (d : dict string Data) (k : string) : result Data :=
  or_raise (dget k d) (ValidationError "field required").

Definition v_str (x : Data) : result string :=
  match x with DStr s => Ok s | _ => Err (ValidationError "a string is required") end.
Definition v_int (x : Data) : result Z :=
  match x with DInt z => Ok z | _ => Err (ValidationError "an integer is required") end.
Definition v_opt {A} (v : Data → result A) (x : Data) : result (option A) :=
  match x with DNone => Ok None | _ => y ← v x; Ok (Some y) end.

(** [_tuple] before the tuple check. *)
Definition v_tuple {A} (v : Data → result A) (x : Data) : result (list A) :=
  match x with DList l | DTuple l => mapR v l | _ => Err (ValidationError "a tuple is required") end.

Definition v_literal (s : string) (x : Data) : result unit :=
  raise_if (negb (bool_decide (x = DStr s))) (ValidationError "unexpected literal").

(** The discriminator of a union. *)
Definition v_kind (x : Data) : result string :=
  match x with
  | DDict d => k ← field d "kind"; v_str k
  | _ => Err (ValidationError "an object is required")
  end.

Definition v_pure (x : Data) : result PureExpression :=
  kind ← v_kind x;
  if String.eqb kind "symbol" then
    d ← members ["kind"; "name"] x; s ← field d "name"; s ← v_str s; SymbolExpression_new s
  else if String.eqb kind "cel" then
    d ← members ["kind"; "expression"] x; s ← field d "expression"; s ← v_str s; CelExpression_new s
  else Err (ValidationError "unknown kind").

Definition v_handler (x : Data) : result HandlerDefinition :=
  kind ← v_kind x;
  if String.eqb kind "symbol" then
    d ← members ["kind"; "name"; "uri"] x;
    s ← field d "name"; s ← v_str s; s ← symbol_name s; u ← field d "uri"; u ← v_str u;
    Ok (SymbolHandler s u)
  else if String.eqb kind "anonymous" then
    d ← members ["kind"; "uri"] x; u ← field d "uri"; u ← v_str u; Ok (AnonymousHandler u)
  else Err (ValidationError "unknown kind").

Definition v_guard (x : Data) : result GuardDefinition :=
  kind ← v_kind x;
  if String.eqb kind "symbol" then
    d ← members ["kind"; "name"; "uri"] x;
    s ← field d "name"; s ← v_str s; s ← symbol_name s; u ← field d "uri"; u ← v_str u;
    Ok (SymbolGuard s u)
  else if String.eqb kind "cel" then
    d ← members ["kind"; "expression"; "uri"] x;
    s ← field d "expression"; s ← v_str s; s ← cel_expression s; u ← field d "uri"; u ← v_str u;
    Ok (CelGuard s u)
  else if String.eqb kind "anonymous" then
    d ← members ["kind"; "uri"] x; u ← field d "uri"; u ← v_str u; Ok (AnonymousGuard u)
  else Err (ValidationError "unknown kind").

Definition v_timer (x : Data) : result TimerDefinition :=
  kind ← v_kind x;
  if String.eqb kind "delay" then
    d ← members ["kind"; "duration"] x;
    z ← field d "duration"; z ← v_int z; z ← SafeInteger_new z; Ok (DelayDefinition z)
  else if String.eqb kind "until" then
    d ← members ["kind"; "instant"] x;
    z ← field d "instant"; z ← v_int z; z ← SafeInteger_new z; Ok (UntilDefinition z)
  else Err (ValidationError "unknown kind").

Definition v_mode (x : Data) : result ArcMode :=
  s ← v_str x;
  if String.eqb s "consume" then Ok CONSUME
  else if String.eqb s "read" then Ok READ
  else if String.eqb s "inhibit" then Ok INHIBIT
  else Err (ValidationError "unexpected literal").

Definition v_place (x : Data) : result PlaceDefinition :=
  d ← members ["path"; "color"] x;
  path ← field d "path"; path ← v_str path;
  color ← field d "color"; color ← v_opt v_str color;
  PlaceDefinition_new path color.

Definition v_transition (x : Data) : result TransitionDefinition :=
  d ← members ["path"; "handler"; "guards"; "timers"] x;
  path ← field d "path"; path ← v_str path;
  handler ← field d "handler"; handler ← v_opt v_handler handler;
  guards ← field d "guards"; guards ← v_tuple v_guard guards;
  timers ← field d "timers"; timers ← v_tuple v_timer timers;
  TransitionDefinition_new path handler guards timers.

Definition v_arc (x : Data) : result ArcDefinition :=
  d ← members ["position"; "source"; "target"; "mode"; "weight"; "color"; "filter"] x;
  position ← field d "position"; position ← v_int position;
  source ← field d "source"; source ← v_str source;
  target ← field d "target"; target ← v_str target;
  mode ← field d "mode"; mode ← v_mode mode;
  weight ← field d "weight"; weight ← v_int weight;
  color ← field d "color"; color ← v_opt v_str color;
  filter ← field d "filter"; filter ← v_opt v_pure filter;
  ArcDefinition_new position source target mode weight color filter.

Definition v_body (x : Data) : result NetDefinitionBody :=
  d ← members ["name"; "time_domain"; "places"; "transitions"; "arcs"; "completion"] x;
  name ← field d "name"; name ← v_opt v_str name;
  domain ← field d "time_domain"; v_literal "integer" domain;;
  places ← field d "places"; places ← v_tuple v_place places;
  transitions ← field d "transitions"; transitions ← v_tuple v_transition transitions;
  arcs ← field d "arcs"; arcs ← v_tuple v_arc arcs;
  completion ← field d "completion"; completion ← v_opt v_pure completion;
  NetDefinitionBody_new name places transitions arcs completion.

(** [NetDefinitionV3.model_validate(value, strict=True)] *)
Definition model_validate (x : Data) : result NetDefinitionV3 :=
  d ← members ["format"; "version"; "definition"] x;
  format ← field d "format"; v_literal "petrus-net-definition" format;;
  version ← field d "version"; version ← v_int version;
  raise_if (negb (version =? 3)) (ValidationError "unexpected literal");;
  body ← field d "definition"; body ← v_body body;
  Ok (MkNetDefinitionV3 body).

(** The hooks of [json.loads]: [_pairs] refuses a repeated member name,
    [_parse_integer] an integer outside the safe range, [_no_float] and
    [_no_constant] every other number. *)
Fixpoint json_hooks (x : Data) : bool :=
  match x with
  | DNone | DBool _ | DStr _ => true
  | DInt z => safe_integer z
  | DFloat _ _ | DTuple _ | DObject _ => false
  | DList l => forallb json_hooks l
  | DDict d => bool_decide (NoDup (dkeys d)) && forallb (λ kv, json_hooks kv.2) d
  end.

(** [parse_net_definition] *)
Definition parse_net_definition (payload : Data) : result NetDefinitionV3 :=
  definition_error "invalid Petrus Net-definition v3"
    (raise_if (negb (json_hooks payload)) (NetDefinitionError "duplicate member or inadmissible number");;
     document ← model_validate payload;
     compile_net_definition document;;
     Ok document).
