(* ===== verification/NetDefinitionTheorems.v ===== *)
(** * Net definitions: projection, compilation and the wire form

    The definition of a net compiles to the same net, a net has a definition
    exactly when its integers are interoperable, and a document that serializes
    is what its wire form parses to. *)

From stdpp Require Import base gmap sets list strings.
From Stdlib Require Import ZArith Lia.
From S2P Require Import Prelude PyData Schema NetTheorems NetDefinition.
Open Scope string_scope.
Open Scope list_scope.
Open Scope Z_scope.

(** ** What the validators leave *)

Definition wf_pure (e : PureExpression) : Prop :=
  match e with SymbolExpression s => bad_symbol s = false | CelExpression c => str_empty c = false end.
Definition wf_handler (h : HandlerDefinition) : Prop :=
  match h with SymbolHandler s _ => bad_symbol s = false | AnonymousHandler _ => True end.
Definition wf_guard (g : GuardDefinition) : Prop :=
  match g with
  | SymbolGuard s _ => bad_symbol s = false
  | CelGuard c _ => str_empty c = false
  | AnonymousGuard _ => True
  end.
Definition wf_timer (t : TimerDefinition) : Prop :=
  match t with DelayDefinition z | UntilDefinition z => safe_integer z = true end.

Record wf_transition (t : TransitionDefinition) : Prop := {
  wt_path : canonical_path (td_path t) = Ok (td_path t);
  wt_handler : ∀ h, td_handler t = Some h → wf_handler h;
  wt_guards : Forall wf_guard (td_guards t);
  wt_timers : Forall wf_timer (td_timers t)
}.

Definition wf_place (p : PlaceDefinition) : Prop := PlaceDefinition_new (pd_path p) (pd_color p) = Ok p.

Definition wf_arc (a : ArcDefinition) : Prop :=
  ArcDefinition_new (ad_position a) (ad_source a) (ad_target a) (ad_mode a) (ad_weight a) (ad_color a)
    (ad_filter a) = Ok a ∧
  ∀ f, ad_filter a = Some f → wf_pure f.

Record wf_body (b : NetDefinitionBody) : Prop := {
  wb_body : NetDefinitionBody_new (nb_name b) (nb_places b) (nb_transitions b) (nb_arcs b) (nb_completion b) = Ok b;
  wb_places : Forall wf_place (nb_places b);
  wb_transitions : Forall wf_transition (nb_transitions b);
  wb_arcs : Forall wf_arc (nb_arcs b);
  wb_completion : ∀ f, nb_completion b = Some f → wf_pure f
}.

Lemma mapR_dump {A} (v : Data → result A) (f : A → Data) (P : A → Prop) l :
  (∀ x, P x → v (f x) = Ok x) → Forall P l → mapR v (f <$> l) = Ok l.
Proof. intros H. induction 1 as [|x l Hx _ IH]; csimpl; [done|]. rewrite (H x Hx). csimpl. by rewrite IH. Qed.

Lemma v_opt_dump {A} (v : Data → result A) (f : A → Data) (x : option A) :
  (∀ y, f y ≠ DNone) → (∀ y, x = Some y → v (f y) = Ok y) → v_opt v (dump_opt f x) = Ok x.
Proof.
  intros Hn Hx. destruct x as [y|]; [|done]. cbn [dump_opt]. pose proof (Hn y) as Hy. pose proof (Hx y eq_refl) as Hv.
  revert Hy Hv. destruct (f y); intros Hy Hv; try done; unfold v_opt; by rewrite Hv.
Qed.

Lemma v_str_opt_dump s : v_opt v_str (dump_str_opt s) = Ok s.
Proof. by destruct s. Qed.

Lemma v_pure_dump e : wf_pure e → v_pure (dump_pure e) = Ok e.
Proof.
  destruct e; simpl; intros H; unfold v_pure, SymbolExpression_new, CelExpression_new, symbol_name, cel_expression;
    csimpl; by rewrite H.
Qed.

Lemma v_handler_dump h : wf_handler h → v_handler (dump_handler h) = Ok h.
Proof. destruct h; simpl; intros H; unfold v_handler, symbol_name; csimpl; rewrite ?H; done. Qed.

Lemma v_guard_dump g : wf_guard g → v_guard (dump_guard g) = Ok g.
Proof. destruct g; simpl; intros H; unfold v_guard, symbol_name, cel_expression; csimpl; rewrite ?H; done. Qed.

Lemma v_timer_dump t : wf_timer t → v_timer (dump_timer t) = Ok t.
Proof. destruct t; simpl; intros H; unfold v_timer, SafeInteger_new; csimpl; by rewrite H. Qed.

Lemma v_place_dump p : wf_place p → v_place (dump_place p) = Ok p.
Proof. intros H. unfold v_place, dump_place. csimpl. rewrite v_str_opt_dump. csimpl. exact H. Qed.

Lemma v_transition_dump t : wf_transition t → v_transition (dump_transition t) = Ok t.
Proof.
  intros [Hp Hh Hg Ht]. unfold v_transition, dump_transition. csimpl.
  rewrite v_opt_dump; [|by intros []|intros h Hs; apply v_handler_dump; by apply Hh]. csimpl.
  rewrite (mapR_dump _ _ wf_guard) by (done || apply v_guard_dump). csimpl.
  rewrite (mapR_dump _ _ wf_timer) by (done || apply v_timer_dump). csimpl.
  unfold TransitionDefinition_new. rewrite Hp. by destruct t.
Qed.

Lemma v_mode_dump m : v_mode (DStr (mode_value m)) = Ok m.
Proof. by destruct m. Qed.

Lemma v_arc_dump a : wf_arc a → v_arc (dump_arc a) = Ok a.
Proof.
  intros [H Hf]. unfold v_arc, dump_arc. csimpl. rewrite v_mode_dump. csimpl. rewrite v_str_opt_dump. csimpl.
  rewrite v_opt_dump; [exact H|by intros []|]. intros f Hs. apply v_pure_dump. by apply Hf.
Qed.

Lemma v_body_dump b : wf_body b → v_body (dump_body b) = Ok b.
Proof.
  intros [H Hp Ht Ha Hc]. unfold v_body, dump_body. csimpl. rewrite v_str_opt_dump. csimpl.
  rewrite (mapR_dump _ _ wf_place) by (done || apply v_place_dump). csimpl.
  rewrite (mapR_dump _ _ wf_transition) by (done || apply v_transition_dump). csimpl.
  rewrite (mapR_dump _ _ wf_arc) by (done || apply v_arc_dump). csimpl.
  rewrite v_opt_dump; [exact H|by intros []|]. intros f Hs. apply v_pure_dump. by apply Hc.
Qed.

Lemma validate_dump d : wf_body (nd_definition d) → model_validate (model_dump d) = Ok d.
Proof. intros H. unfold model_validate, model_dump. csimpl. rewrite v_body_dump by done. by destruct d. Qed.

(** The wire form holds no repeated member and only safe integers. *)
Lemma hooks_list {A} (f : A → Data) (P : A → Prop) l :
  (∀ x, P x → json_hooks (f x) = true) → Forall P l → forallb json_hooks (f <$> l) = true.
Proof. intros H. induction 1; csimpl; [done|]. apply andb_true_iff. auto. Qed.

Lemma hooks_opt {A} (f : A → Data) (x : option A) :
  (∀ y, json_hooks (f y) = true) → json_hooks (dump_opt f x) = true.
Proof. destruct x; simpl; auto. Qed.

Lemma hooks_str_opt s : json_hooks (dump_str_opt s) = true.
Proof. by destruct s. Qed.

Lemma hooks_pure e : json_hooks (dump_pure e) = true.
Proof. by destruct e. Qed.

Lemma hooks_handler h : json_hooks (dump_handler h) = true.
Proof. by destruct h. Qed.

Lemma hooks_guard g : json_hooks (dump_guard g) = true.
Proof. by destruct g. Qed.

Lemma hooks_timer t : wf_timer t → json_hooks (dump_timer t) = true.
Proof. destruct t; simpl; intros ->; done. Qed.

Lemma hooks_place p : json_hooks (dump_place p) = true.
Proof. simpl. by rewrite hooks_str_opt. Qed.

Lemma hooks_transition t : wf_transition t → json_hooks (dump_transition t) = true.
Proof.
  intros [_ _ _ Ht]. simpl. rewrite (hooks_opt _ _ hooks_handler).
  rewrite (hooks_list dump_guard (λ _, True)) by (auto using hooks_guard || by apply Forall_true).
  by rewrite (hooks_list dump_timer wf_timer) by (done || apply hooks_timer).
Qed.

Lemma safe_integer_between z : 0 <= z <= JSON_SAFE_INTEGER_MAX → safe_integer z = true.
Proof.
  intros H. unfold safe_integer, JSON_SAFE_INTEGER_MIN, JSON_SAFE_INTEGER_MAX in *.
  apply andb_true_iff. split; apply Z.leb_le; lia.
Qed.

Lemma wf_arc_range a : wf_arc a →
  0 <= ad_position a <= JSON_SAFE_INTEGER_MAX ∧ 1 <= ad_weight a <= JSON_SAFE_INTEGER_MAX.
Proof.
  intros [H _]. unfold ArcDefinition_new in H. inv_ok.
  repeat match goal with H : negb (_ && _) = false |- _ => apply negb_false_iff, andb_true_iff in H as [?%Z.leb_le ?%Z.leb_le] end.
  lia.
Qed.

Lemma hooks_arc a : wf_arc a → json_hooks (dump_arc a) = true.
Proof.
  intros H%wf_arc_range. simpl. rewrite !safe_integer_between by lia.
  by rewrite hooks_str_opt, (hooks_opt _ _ hooks_pure).
Qed.

Lemma hooks_dump d : wf_body (nd_definition d) → json_hooks (model_dump d) = true.
Proof.
  intros [_ _ Ht Ha _]. simpl. rewrite hooks_str_opt, (hooks_opt _ _ hooks_pure).
  rewrite (hooks_list dump_place (λ _, True)) by (auto using hooks_place || by apply Forall_true).
  rewrite (hooks_list dump_transition wf_transition) by (done || apply hooks_transition).
  by rewrite (hooks_list dump_arc wf_arc) by (done || apply hooks_arc).
Qed.

(** ** What the projection produces *)

Lemma mapR_Forall {A B} (f : A → result B) (P : B → Prop) l k :
  (∀ x y, f x = Ok y → P y) → mapR f l = Ok k → Forall P k.
Proof.
  intros H Hm. apply mapR_Ok in Hm. eapply Forall2_Forall_r; [exact Hm|]. apply Forall_true. intros x y. apply H.
Qed.

Lemma project_pure_wf f e : project_pure f = Ok (Some e) → wf_pure e.
Proof.
  unfold project_pure, SymbolExpression_new, CelExpression_new, symbol_name, cel_expression.
  destruct f as [[s|c]|]; intros H; inv_ok; done.
Qed.

Lemma project_handler_wf h u d : project_handler h u = Ok d → wf_handler d.
Proof. destruct h; unfold project_handler, symbol_name; intros H; inv_ok; done. Qed.

Lemma project_guard_wf g u d : project_guard g u = Ok d → wf_guard d.
Proof. destruct g; unfold project_guard, symbol_name, cel_expression; intros H; inv_ok; done. Qed.

Lemma project_timer_wf t d : project_timer t = Ok d → wf_timer d.
Proof.
  destruct t; unfold project_timer, integer, SafeInteger_new; intros H; inv_ok; simpl;
    match goal with H : negb _ = false |- _ => by apply negb_false_iff in H end.
Qed.

Lemma canonical_path_eq s p : canonical_path s = Ok p → p = s.
Proof. unfold canonical_path. intros H. by inv_ok. Qed.

Lemma PlaceDefinition_new_wf s c p : PlaceDefinition_new s c = Ok p → wf_place p.
Proof.
  intros H. unfold wf_place. rewrite <-H. unfold PlaceDefinition_new in H. inv_ok. simpl.
  match goal with H : canonical_path _ = Ok _ |- _ => by rewrite (canonical_path_eq _ _ H) end.
Qed.

Lemma project_transition_wf n e d : project_transition n e = Ok d → wf_transition d.
Proof.
  destruct e as [p t]. unfold project_transition, TransitionDefinition_new. intros H. inv_ok.
  match goal with H : canonical_path _ = Ok ?x |- _ => pose proof (canonical_path_eq _ _ H); subst x end.
  split; simpl; [done|intros h ->|eapply mapR_Forall; [|eassumption]; intros [] ?; apply project_guard_wf
    |eapply mapR_Forall; [|eassumption]; apply project_timer_wf].
  destruct (handler t); inv_ok; [by eapply project_handler_wf|done].
Qed.

Lemma project_arc_wf e d : project_arc e = Ok d → wf_arc d.
Proof.
  destruct e as [k a]. unfold project_arc, integer. intros H. inv_ok.
  match goal with H : ArcDefinition_new _ _ _ _ _ _ _ = Ok _ |- _ => rename H into Hn end.
  split.
  - rewrite <-Hn. unfold ArcDefinition_new in Hn. inv_ok. simpl.
    repeat match goal with H : canonical_path _ = Ok _ |- _ => rewrite <-(canonical_path_eq _ _ H) in *; clear H end. done.
  - intros e He. unfold ArcDefinition_new in Hn. inv_ok. simpl in He. subst. by eapply project_pure_wf.
Qed.

Lemma project_wf n d : project_net_definition n = Ok d → wf_body (nd_definition d).
Proof.
  unfold project_net_definition. intros H. inv_ok. simpl.
  match goal with H : NetDefinitionBody_new _ _ _ _ _ = Ok _ |- _ => rename H into Hn end.
  pose proof Hn as Hb. unfold NetDefinitionBody_new in Hb. inv_ok. split; simpl; [done|..].
  - eapply mapR_Forall; [|eassumption]. intros [] ?. apply PlaceDefinition_new_wf.
  - eapply mapR_Forall; [|eassumption]. apply project_transition_wf.
  - eapply mapR_Forall; [|eassumption]. apply project_arc_wf.
  - intros f ->. by eapply project_pure_wf.
Qed.

Lemma compile_projects d n : compile_net_definition d = Ok n → project_net_definition n = Ok d.
Proof.
  unfold compile_net_definition. intros H. inv_ok.
  match goal with H : negb _ = false |- _ => by apply negb_false_iff, bool_decide_eq_true in H as <- end.
Qed.

Lemma definition_error_Ok {A} msg (m : result A) a : definition_error msg m = Ok a ↔ m = Ok a.
Proof. destruct m as [|[]]; simpl; try done. by destruct (startswith _ _). Qed.

(** ** Declarations as their constructors leave them *)

Definition built_filter (f : option FilterDeclaration) : Prop :=
  match f with Some (FilterSymbol s) => bad_symbol s = false | Some (FilterCel c) => is_ok (Cel_new c) = true | None => True end.
Definition built_guard (g : GuardDeclaration) : Prop :=
  match g with GuardCel c => is_ok (Cel_new c) = true | _ => True end.

Definition built_place (p : Place) : Prop := wf_path (place_path p) ∧ Place_post_init p = Ok tt.
Definition built_transition (t : Transition) : Prop :=
  wf_path (transition_path t) ∧ Transition_post_init t = Ok tt ∧ Forall built_guard (guards t).
Definition built_arc (a : Arc) : Prop :=
  wf_path (arc_source a) ∧ wf_path (arc_target a) ∧ Arc_post_init a = Ok tt ∧ built_filter (arc_filter a).

Record built_net (n : Net) : Prop := {
  bn_places : ∀ p pl, dget p (places n) = Some pl → place_path pl = p ∧ built_place pl;
  bn_transitions : ∀ p t, dget p (transitions n) = Some t → transition_path t = p ∧ built_transition t;
  bn_arcs : Forall built_arc (arcs n);
  bn_completion : built_filter (completion n);
  bn_name : match net_name n with Some s => str_empty s | None => false end = false
}.

Lemma dict_of_list_values {V} (key : V → NetPath) (P : V → Prop) (l : list V) p v :
  Forall P l → dget p (dict_of_list ((λ x, (key x, x)) <$> l)) = Some v → P v.
Proof.
  intros Hl. unfold dict_of_list. assert (∀ p v, dget p ([] : dict NetPath V) = Some v → P v) as H0 by done.
  revert H0. generalize ([] : dict NetPath V).
  induction Hl as [|x l Hx _ IH]; intros d Hd; csimpl; [apply Hd|].
  apply IH. intros p' v'. rewrite dget_dset. case_decide; [|apply Hd]. by intros [= <-].
Qed.

Lemma resolve_arc_built pm tm a a' :
  (∀ p pl, dget p pm = Some pl → built_place pl) → built_arc a → resolve_arc pm tm a = Ok a' → built_arc a'.
Proof.
  intros Hp (Hs & Ht & Hi & Hf) H. unfold resolve_arc in H. apply bind_Ok in H as (pl & Hpl & H).
  assert (built_place pl) as [_ Hpl'].
  { destruct (_ && _); [apply or_raise_Ok in Hpl; by eapply Hp|].
    destruct (_ && _); [apply or_raise_Ok in Hpl; by eapply Hp|done]. }
  destruct (place_color pl) as [pc|] eqn:Ec, (arc_color a) as [ac|]; inv_ok; try exact (conj Hs (conj Ht (conj Hi Hf))).
  split; [done|]. split; [done|]. split; [|done].
  unfold Arc_post_init, Place_post_init in *. rewrite Ec in Hpl'. inv_ok. simpl in *.
  by rewrite H, Hpl', Hi.
Qed.

Lemma Net_init_built ps ts ars comp name n :
  Net_init ps ts ars comp name = Ok n → Forall built_place ps → Forall built_transition ts → Forall built_arc ars →
  built_filter comp → built_net n.
Proof.
  intros H Hps Hts Hars Hc. pose proof (Net_init_ok _ _ _ _ _ _ H) as Hok.
  pose proof (net_places n Hok) as [_ Hpk]. pose proof (net_transitions n Hok) as [_ Htk]. clear Hok.
  unfold Net_init in H. inv_ok. simpl in *.
  assert (∀ p pl, dget p (dict_of_list ((λ p, (place_path p, p)) <$> ps)) = Some pl → built_place pl) as Hpl
    by (intros p pl; by apply dict_of_list_values).
  split; simpl; try done.
  - intros p pl E. eauto.
  - intros p t E. split; [eauto|]. by eapply dict_of_list_values.
  - match goal with H : resolve_place_colors _ _ _ = Ok _ |- _ => apply mapR_Ok in H; rename H into Hr end.
    clear - Hr Hars Hpl. induction Hr as [|a a' l l' Ha _ IH]; [constructor|].
    apply Forall_cons in Hars as [Hb Hbs]. constructor; [by eapply resolve_arc_built|by apply IH].
Qed.

(** ** Compiling what was projected *)

Lemma mapR_then {A B C} (f : A → result B) (g : B → result C) (h : A → C) l k :
  mapR f l = Ok k → (∀ x y, x ∈ l → f x = Ok y → g y = Ok (h x)) → mapR g k = Ok (h <$> l).
Proof.
  intros H%mapR_Ok Hg. apply mapR_Ok. induction H as [|x y l k Hx _ IH]; csimpl; [constructor|].
  constructor; [apply Hg; [left|done]|]. apply IH. intros ????. apply Hg; [by right|done].
Qed.

Lemma NetPath_new_str p : wf_path p → NetPath_new (path_str p) = Ok p.
Proof. intros H. by apply net_path_spelling. Qed.

Lemma canonical_path_str p : wf_path p → canonical_path (path_str p) = Ok (path_str p).
Proof. intros H. unfold canonical_path. rewrite NetPath_new_str by done. csimpl. by rewrite String.eqb_refl. Qed.

Lemma Cel_new_ok c : is_ok (Cel_new c) = true → str_empty c = false ∧ Cel_new c = Ok c.
Proof. unfold Cel_new. by destruct (str_empty c). Qed.

Lemma project_pure_ok f : built_filter f → ∃ e, project_pure f = Ok e ∧ pure e = Ok f.
Proof.
  destruct f as [[s|c]|]; simpl; [intros H|intros [H Hc]%Cel_new_ok|by eexists];
    unfold SymbolExpression_new, CelExpression_new, symbol_name, cel_expression; rewrite H; csimpl;
    eexists; (split; [done|]); simpl; [done|by rewrite Hc].
Qed.

Lemma project_place_ok p pl : place_path pl = p → built_place pl →
  ∃ d, project_place (p, pl) = Ok d ∧ compile_place d = Ok pl ∧ pd_path d = path_str p.
Proof.
  intros <- [Hw Hi]. unfold project_place, PlaceDefinition_new. csimpl. rewrite canonical_path_str by done. csimpl.
  pose proof Hi as Hi'. unfold Place_post_init in Hi'. inv_ok. rewrite Hi'. csimpl. eexists. split; [done|].
  split; [|done]. unfold compile_place. simpl. rewrite NetPath_new_str by done. csimpl.
  destruct pl; simpl in *. by rewrite Hi.
Qed.

Definition safe_timer (t : Timer) : bool := match t with Delay z | Until z => safe_integer z end.

Lemma project_timer_ok t : safe_timer t = true → ∃ d, project_timer t = Ok d ∧ compile_timer d = t.
Proof.
  destruct t as [z|z]; unfold safe_timer, project_timer, integer, SafeInteger_new; intros H; rewrite H; csimpl; rewrite H; csimpl; by eexists.
Qed.

Lemma project_timer_safe t d : project_timer t = Ok d → safe_timer t = true ∧ compile_timer d = t.
Proof.
  destruct t; unfold project_timer, integer, SafeInteger_new; intros H; inv_ok; simpl;
    match goal with H : negb _ = false |- _ => by apply negb_false_iff in H end.
Qed.

(** The rules of [Transition.__post_init__] that concern one guard. *)
Lemma post_init_guards t : Transition_post_init t = Ok tt →
  (∀ s, handler t = Some (HandlerSymbol s) → bad_symbol s = false) ∧
  ∀ s, GuardSymbol s ∈ guards t → bad_symbol s = false.
Proof.
  unfold Transition_post_init. intros H. inv_ok. split; [intros s E; by rewrite E in *|]. clear - H1.
  revert H1. generalize (∅ : gset string). induction (guards t) as [|g gs IH]; intros named H s Hin; [by apply not_elem_of_nil in Hin|].
  cbn [foldM] in H. apply bind_Ok in H as (named' & Hg & H). apply elem_of_cons in Hin as [<-|Hin]; [|by eapply IH].
  by inv_ok.
Qed.

Lemma project_handler_ok h u : (∀ s, h = HandlerSymbol s → bad_symbol s = false) →
  ∃ d, project_handler h u = Ok d ∧ handler_behavior (Some d) = Some h.
Proof.
  destruct h as [s|]; intros H; unfold project_handler, symbol_name; [rewrite (H s eq_refl)|]; by eexists.
Qed.

Lemma project_guard_ok g u : (∀ s, g = GuardSymbol s → bad_symbol s = false) → built_guard g →
  ∃ d, project_guard g u = Ok d ∧ guard_behavior d = Ok g.
Proof.
  destruct g as [s|c|]; intros H Hg; unfold project_guard, symbol_name, cel_expression.
  - rewrite (H s eq_refl). by eexists.
  - apply Cel_new_ok in Hg as [-> Hc]. csimpl. eexists. split; [done|]. simpl. by rewrite Hc.
  - by eexists.
Qed.

Lemma mapR_exists {A B} (f : A → result B) (Q : A → B → Prop) l :
  (∀ x, x ∈ l → ∃ y, f x = Ok y ∧ Q x y) → ∃ k, mapR f l = Ok k ∧ Forall2 Q l k.
Proof.
  induction l as [|x l IH]; intros H; [exists []; split; [done|constructor]|].
  destruct (H x) as (y & Hy & Q1); [left|]. destruct IH as (k & Hk & Q2); [intros z Hz; apply H; by right|].
  exists (y :: k). split; [|by constructor]. csimpl. rewrite Hy. csimpl. by rewrite Hk.
Qed.

Lemma mapR_project_guards gs us :
  length us = length gs → Forall built_guard gs → (∀ s, GuardSymbol s ∈ gs → bad_symbol s = false) →
  ∃ ds, mapR (λ gu, project_guard gu.1 gu.2) (zip gs us) = Ok ds ∧ mapR guard_behavior ds = Ok gs.
Proof.
  intros Hl Hb Hs.
  destruct (mapR_exists (λ gu, project_guard gu.1 gu.2) (λ gu d, guard_behavior d = Ok gu.1) (zip gs us)) as (ds & Hm & Hq).
  { intros [g u] Hin. csimpl. apply elem_of_zip_l in Hin. rewrite Forall_forall in Hb.
    apply project_guard_ok; [intros s ->; by apply Hs|by apply Hb]. }
  exists ds. split; [done|]. apply mapR_Ok. assert ((zip gs us).*1 = gs) as E by (apply fst_zip; lia).
  clear Hm. revert Hq E. generalize (zip gs us). intros z Hq <-. by apply Forall2_fmap_r, Forall2_flip.
Qed.

Lemma mapR_project_timers ts ds : mapR project_timer ts = Ok ds → Forall (λ t, safe_timer t = true) ts ∧ compile_timer <$> ds = ts.
Proof.
  intros H%mapR_Ok. induction H as [|t d ts ds Ht _ [IH1 IH2]]; csimpl; [done|].
  apply project_timer_safe in Ht as [? ->]. split; [by constructor|by f_equal].
Qed.

Lemma mapR_timers_ok ts : Forall (λ t, safe_timer t = true) ts → ∃ ds, mapR project_timer ts = Ok ds.
Proof.
  intros H. rewrite Forall_forall in H. destruct (mapR_exists project_timer (λ _ _, True) ts) as (ds & Hd & _); [|eauto].
  intros t Ht. destruct (project_timer_ok t (H t Ht)) as (d & ? & _). eauto.
Qed.

Section transition.
Context (n : Net) (p : NetPath) (t : Transition).
Hypothesis path_eq : transition_path t = p.
Hypothesis built : built_transition t.
Hypothesis has_uri : ∀ h, handler t = Some h → is_Some (handler_uri n p).
Hypothesis has_guard_uris : length (guard_uris n p) = length (guards t).

(** A transition projects exactly when its timers are interoperable, and its
    definition compiles back to it. *)
Lemma project_transition_iff :
  Forall (λ tm, safe_timer tm = true) (timers t) ↔ ∃ d, project_transition n (p, t) = Ok d.
Proof.
  destruct built as (Hw & Hi & Hg). destruct (post_init_guards _ Hi) as [Hh Hs]. split.
  - intros [ds Hds]%mapR_timers_ok. unfold project_transition.
    destruct (mapR_project_guards _ _ has_guard_uris Hg Hs) as (gs & Hgs & _).
    assert (∃ hd, (match handler t with
             | None => Ok None
             | Some h =>
                 uri ← or_raise (handler_uri n p) (RuntimeError "declared handler has no URI");
                 d ← project_handler h uri; Ok (Some d)
             end) = Ok hd) as [hd ->].
    { destruct (handler t) as [h|] eqn:E; [|eauto]. destruct (has_uri h eq_refl) as [u ->]. csimpl.
      destruct (project_handler_ok h u) as (d & -> & _); [intros s ->; by apply Hh|]. csimpl. eauto. }
    csimpl. rewrite has_guard_uris, Nat.eqb_refl. csimpl. rewrite Hgs. csimpl. rewrite Hds. csimpl.
    unfold TransitionDefinition_new. rewrite <-path_eq, canonical_path_str by done. csimpl. eauto.
  - intros [d H]. unfold project_transition in H. inv_ok. by eapply mapR_project_timers.
Qed.

Lemma project_transition_compiles d : project_transition n (p, t) = Ok d → compile_transition d = Ok t ∧ td_path d = path_str p.
Proof.
  destruct built as (Hw & Hi & Hg). destruct (post_init_guards _ Hi) as [Hh Hs]. unfold project_transition, TransitionDefinition_new.
  intros H. inv_ok. match goal with H : canonical_path _ = Ok _ |- _ => apply canonical_path_eq in H as -> end.
  split; [|done]. unfold compile_transition. simpl. rewrite NetPath_new_str by done. csimpl.
  match goal with H : mapR project_timer _ = Ok _ |- _ => apply mapR_project_timers in H as [_ ->] end.
  match goal with H : mapR _ (zip _ _) = Ok _ |- _ => rename H into Hm end.
  destruct (mapR_project_guards _ _ has_guard_uris Hg Hs) as (gs & Hgs & Hc). rewrite Hgs in Hm. inv_ok. rewrite Hc. csimpl.
  match goal with H : match handler t with _ => _ end = Ok ?x |- _ => assert (handler_behavior x = handler t) as -> end.
  { destruct (handler t) as [h|] eqn:E; inv_ok; [|done].
    match goal with H : project_handler h ?u = Ok _ |- _ =>
      destruct (project_handler_ok h u) as (d & Hd & Hb); [intros s ->; by apply Hh|]; congruence end. }
  destruct t; simpl in *. by rewrite Hi.
Qed.
End transition.

Lemma project_arc_ok k a : built_arc a → Z.of_nat k <= JSON_SAFE_INTEGER_MAX → arc_weight a <= JSON_SAFE_INTEGER_MAX →
  ∃ d, project_arc (k, a) = Ok d ∧ ad_position d = Z.of_nat k.
Proof.
  intros (Hs & Ht & Hi & Hf) Hk Hw. unfold Arc_post_init in Hi. inv_ok.
  match goal with H : (arc_weight a <? 1) = false |- _ => apply Z.ltb_ge in H end.
  destruct (project_pure_ok _ Hf) as (e & He & _). unfold project_arc, integer, ArcDefinition_new.
  rewrite (safe_integer_between (Z.of_nat k)) by lia. csimpl. rewrite (safe_integer_between (arc_weight a)) by lia.
  csimpl. rewrite He. csimpl. rewrite !(proj2 (Z.leb_le _ _)) by lia. csimpl.
  rewrite canonical_path_str by done. csimpl. rewrite canonical_path_str by done. csimpl.
  rewrite H0. csimpl. by eexists.
Qed.

Lemma project_arc_compiles k a d : built_arc a → project_arc (k, a) = Ok d →
  compile_arc d = Ok a ∧ ad_position d = Z.of_nat k ∧ Z.of_nat k <= JSON_SAFE_INTEGER_MAX ∧ arc_weight a <= JSON_SAFE_INTEGER_MAX.
Proof.
  intros (Hs & Ht & Hi & Hf) H. destruct (project_pure_ok _ Hf) as (e & He & Hp).
  unfold project_arc, integer, ArcDefinition_new in H. rewrite He in H. inv_ok.
  repeat match goal with H : canonical_path _ = Ok _ |- _ => apply canonical_path_eq in H as -> end.
  repeat match goal with H : negb (_ && _) = false |- _ => apply negb_false_iff, andb_true_iff in H as [?%Z.leb_le ?%Z.leb_le] end.
  split; [|by simpl]. unfold compile_arc. simpl. rewrite !NetPath_new_str by done. csimpl.
  rewrite Hp. csimpl. destruct a; simpl in *. by rewrite Hi.
Qed.

(** The integers of a net that its definition can carry. *)
Definition interoperable (n : Net) : Prop :=
  (∀ p t, dget p (transitions n) = Some t → Forall (λ tm, safe_timer tm = true) (timers t)) ∧
  Forall (λ a, arc_weight a <= JSON_SAFE_INTEGER_MAX) (arcs n) ∧
  Z.of_nat (length (arcs n)) <= JSON_SAFE_INTEGER_MAX + 1.

Lemma mapR_project_arcs l : Forall built_arc l →
  (∃ ds, mapR project_arc (imap pair l) = Ok ds) ↔
  Forall (λ a, arc_weight a <= JSON_SAFE_INTEGER_MAX) l ∧ Z.of_nat (length l) <= JSON_SAFE_INTEGER_MAX + 1.
Proof.
  intros Hb. rewrite Forall_lookup in Hb. split.
  - intros [ds H]. apply mapR_Ok in H.
    assert (∀ k a, l !! k = Some a → Z.of_nat k <= JSON_SAFE_INTEGER_MAX ∧ arc_weight a <= JSON_SAFE_INTEGER_MAX) as Hk.
    { intros k a Ha. eapply Forall2_lookup_l in H as (d & _ & Hd); [|by rewrite list_lookup_imap, Ha].
      apply project_arc_compiles in Hd as (_ & _ & ?); eauto. }
    split; [apply Forall_lookup; intros k a Ha; by eapply Hk|].
    destruct l as [|a l] using rev_ind; [done|]. rewrite length_app in *. simpl in *.
    destruct (Hk (length l) a) as [? _]; [by rewrite lookup_app_r, Nat.sub_diag|]. lia.
  - intros [Hw Hl]. rewrite Forall_lookup in Hw.
    destruct (mapR_exists project_arc (λ _ _, True) (imap pair l)) as (ds & Hd & _); [|eauto].
    intros [k a] Hin. apply list_elem_of_lookup in Hin as [i Hi]. rewrite list_lookup_imap in Hi.
    destruct (l !! i) as [a'|] eqn:E; [|done]. simplify_eq/=. pose proof (lookup_lt_Some _ _ _ E).
    destruct (project_arc_ok k a) as (d & Hd & _); eauto. lia.
Qed.

(** ** The canonical listing *)

Lemma path_str_inj p q : wf_path p → wf_path q → path_str p = path_str q → p = q.
Proof. intros Hp Hq E. pose proof (NetPath_new_str p Hp) as H. rewrite E, NetPath_new_str in H by done. congruence. Qed.

Lemma sorted_items_again {V} (d : dict NetPath V) : sorted_items (sorted_items d) = sorted_items d.
Proof.
  apply sorted_by_id, sorted_by_sorted; intros; [apply str_leb_total|by eapply str_leb_trans].
Qed.

Lemma sorted_items_perm {V} (d : dict NetPath V) : sorted_items d ≡ₚ d.
Proof. apply sorted_by_perm. Qed.

Lemma sorted_items_unique {V} (d : dict NetPath V) :
  NoDup (dkeys d) → Forall (λ e, wf_path e.1) d → unique_sorted ((λ e, path_str e.1) <$> sorted_items d) = true.
Proof.
  intros Hd Hw. apply andb_true_iff. split; apply bool_decide_eq_true.
  - change (map (λ e : NetPath * V, path_str e.1) (sorted_items d) =
            sorted_by str_leb (map (λ e : NetPath * V, path_str e.1) (sorted_items d))).
    rewrite (sorted_by_map (λ x y : NetPath * V, path_leb x.1 y.1)) by done. f_equal. symmetry. apply sorted_items_again.
  - rewrite <-(sorted_items_perm d) in Hw. assert (NoDup (sorted_items d).*1) as Hs
      by (unfold dkeys in Hd; by rewrite sorted_items_perm).
    clear Hd. induction (sorted_items d) as [|[p v] l IH]; csimpl; [constructor|].
    apply Forall_cons in Hw as [Hp Hw]. rewrite fmap_cons, NoDup_cons in Hs. destruct Hs as [Hn Hs].
    constructor; [|by apply IH]. intros ([q w] & E & Hin)%list_elem_of_fmap. simpl in *. apply Hn.
    rewrite Forall_forall in Hw. apply path_str_inj in E as ->; [|done|by apply (Hw (q, w))].
    apply list_elem_of_fmap. by exists (q, w).
Qed.

Lemma imap_positions {A B} (g : B → Z) (l : list A) (ds : list B) :
  Forall2 (λ e d, g d = Z.of_nat e.1) (imap pair l) ds → g <$> ds = zrange 0 (length ds).
Proof.
  intros H. apply list_eq. intros i. rewrite list_lookup_fmap.
  destruct (ds !! i) as [d|] eqn:E.
  - eapply Forall2_lookup_r in H as ([k a] & Hk & Hg); [|exact E]. rewrite list_lookup_imap in Hk.
    destruct (l !! i); simplify_eq/=. rewrite Hg. symmetry. unfold zrange. rewrite list_lookup_fmap, lookup_seq_lt; [done|].
    by eapply lookup_lt_Some.
  - symmetry. simpl. apply lookup_ge_None. rewrite length_zrange. by apply lookup_ge_None.
Qed.

Lemma imap_pair_snd {A} (l : list A) : (imap pair l).*2 = l.
Proof. rewrite fmap_imap. apply list_eq. intros i. rewrite list_lookup_imap. by destruct (l !! i). Qed.

(** ** Whole nets *)

Section net.
Context (n : Net).
Hypothesis built : built_net n.
Hypothesis place_keys : NoDup (dkeys (places n)).
Hypothesis transition_keys : NoDup (dkeys (transitions n)).
Hypothesis has_uri : ∀ p t h, dget p (transitions n) = Some t → handler t = Some h → is_Some (handler_uri n p).
Hypothesis has_guard_uris : ∀ p t, dget p (transitions n) = Some t → length (guard_uris n p) = length (guards t).

Lemma sorted_place p pl : (p, pl) ∈ sorted_items (places n) → place_path pl = p ∧ built_place pl.
Proof. rewrite sorted_items_perm. intros H. by apply (bn_places n built), elem_of_dget. Qed.

Lemma sorted_transition p t : (p, t) ∈ sorted_items (transitions n) ↔ dget p (transitions n) = Some t.
Proof. rewrite sorted_items_perm. split; [by apply elem_of_dget|apply dget_elem_of]. Qed.

Lemma places_project : ∃ ds, mapR project_place (sorted_items (places n)) = Ok ds ∧
  mapR compile_place ds = Ok ((sorted_items (places n)).*2) ∧
  pd_path <$> ds = (λ e, path_str e.1) <$> sorted_items (places n).
Proof.
  destruct (mapR_exists project_place (λ e d, compile_place d = Ok e.2 ∧ pd_path d = path_str e.1)
              (sorted_items (places n))) as (ds & Hd & HQ).
  { intros [p pl] [Hp Hb]%sorted_place. by apply project_place_ok. }
  exists ds. split; [done|]. clear Hd. rewrite mapR_Ok.
  induction HQ as [|e d l ds [Hc Hp] _ [IH1 IH2]]; csimpl; [split; [constructor|done]|].
  split; [by constructor|by rewrite Hp, IH2].
Qed.

Lemma transitions_compile ds : mapR (project_transition n) (sorted_items (transitions n)) = Ok ds →
  mapR compile_transition ds = Ok ((sorted_items (transitions n)).*2) ∧
  td_path <$> ds = (λ e, path_str e.1) <$> sorted_items (transitions n).
Proof.
  assert (∀ p t d, (p, t) ∈ sorted_items (transitions n) → project_transition n (p, t) = Ok d →
            compile_transition d = Ok t ∧ td_path d = path_str p) as Hone.
  { intros p t d Ht%sorted_transition Hd. destruct (bn_transitions n built p t Ht) as [Hp Hb].
    eapply project_transition_compiles; eauto. }
  intros H. split.
  - eapply (mapR_then _ _ snd); [exact H|]. intros [p t] d Hin Hd. by apply (Hone p t d).
  - apply mapR_Ok in H. revert Hone H. generalize (sorted_items (transitions n)) as l. intros l Hone H.
    induction H as [|[p t] d l ds Hd _ IH]; csimpl; [done|]. f_equal; [by apply (Hone p t d); [left|]|].
    apply IH. intros ????. apply Hone. by right.
Qed.

Lemma transitions_project :
  (∃ ds, mapR (project_transition n) (sorted_items (transitions n)) = Ok ds) ↔
  ∀ p t, dget p (transitions n) = Some t → Forall (λ tm, safe_timer tm = true) (timers t).
Proof.
  assert (∀ p t, dget p (transitions n) = Some t →
            Forall (λ tm, safe_timer tm = true) (timers t) ↔ ∃ d, project_transition n (p, t) = Ok d) as Hone.
  { intros p t Ht. destruct (bn_transitions n built p t Ht). eapply project_transition_iff; eauto. }
  split.
  - intros [ds H] p t Ht. apply (Hone p t Ht). apply mapR_Ok in H. apply sorted_transition, list_elem_of_lookup in Ht as [i Hi].
    eapply Forall2_lookup_l in H as (d & _ & Hd); eauto.
  - intros H. destruct (mapR_exists (project_transition n) (λ _ _, True) (sorted_items (transitions n))) as (ds & Hd & _); [|eauto].
    intros [p t] Ht%sorted_transition. destruct (proj1 (Hone p t Ht) (H p t Ht)) as [d Hd]. eauto.
Qed.

Lemma keys_wf : Forall (λ e, wf_path e.1) (places n) ∧ Forall (λ e, wf_path e.1) (transitions n).
Proof.
  split; apply Forall_forall; intros [p x] Hin; simpl.
  - apply elem_of_dget in Hin as [<- [? _]]%(bn_places n built); done.
  - apply elem_of_dget in Hin as [<- [? _]]%(bn_transitions n built); done.
Qed.

Lemma arcs_compile ds : mapR project_arc (imap pair (arcs n)) = Ok ds →
  mapR compile_arc ds = Ok (arcs n) ∧ ad_position <$> ds = zrange 0 (length ds).
Proof.
  intros H. assert (∀ e d, e ∈ imap pair (arcs n) → project_arc e = Ok d → compile_arc d = Ok e.2 ∧ ad_position d = Z.of_nat e.1) as Hone.
  { intros [k a] d Hin Hd. apply list_elem_of_lookup in Hin as [i Hi]. rewrite list_lookup_imap in Hi.
    destruct (arcs n !! i) as [a'|] eqn:E; [|done]. simplify_eq/=.
    pose proof (proj1 (Forall_lookup _ _) (bn_arcs n built) _ _ E) as Hb.
    by destruct (project_arc_compiles _ _ _ Hb Hd) as (? & ? & _). }
  split.
  - rewrite (mapR_then _ compile_arc snd _ _ H) by (intros; by apply Hone). by rewrite imap_pair_snd.
  - apply (imap_positions _ (arcs n)). apply mapR_Ok in H. revert H Hone. generalize (imap pair (arcs n)) as l. intros l H Hone.
    induction H as [|e d l ds Hd _ IH]; constructor; [by apply Hone; [left|]|]. apply IH. intros ???. apply Hone. by right.
Qed.

Lemma project_iff : (∃ d, project_net_definition n = Ok d) ↔ interoperable n.
Proof.
  unfold interoperable. rewrite <-transitions_project, <-(mapR_project_arcs _ (bn_arcs n built)). split.
  - intros [d H]. unfold project_net_definition in H. inv_ok. eauto.
  - intros [[tds Ht] [ads Ha]]. destruct places_project as (pds & Hp & _ & Pp). destruct (transitions_compile _ Ht) as [_ Pt].
    destruct (arcs_compile _ Ha) as [_ Pa]. destruct (project_pure_ok _ (bn_completion n built)) as (e & He & _).
    unfold project_net_definition. rewrite Hp. csimpl. rewrite Ht. csimpl. rewrite Ha. csimpl. rewrite He. csimpl.
    unfold NetDefinitionBody_new, canonical_collections. csimpl. rewrite (bn_name n built). csimpl.
    destruct keys_wf. rewrite Pp, Pt, !sorted_items_unique by done. csimpl. rewrite Pa, bool_decide_true by done. csimpl. eauto.
Qed.

(** The net call of the compiler receives the net's own declarations. *)
Lemma compile_net_projected d : project_net_definition n = Ok d →
  compile_net (nd_definition d) =
  Net_init ((sorted_items (places n)).*2) ((sorted_items (transitions n)).*2) (arcs n) (completion n) (net_name n).
Proof.
  unfold project_net_definition. intros H. inv_ok. destruct places_project as (pds & Hp & Cp & _).
  destruct (project_pure_ok _ (bn_completion n built)) as (e & He & Hc).
  match goal with H : NetDefinitionBody_new _ _ _ _ _ = Ok _ |- _ => unfold NetDefinitionBody_new in H end. inv_ok. simpl.
  repeat match goal with H : mapR (project_transition n) _ = Ok _ |- _ => apply transitions_compile in H as [? _]
    | H : mapR project_arc _ = Ok _ |- _ => apply arcs_compile in H as [? _] end.
  rewrite Hp in *. rewrite He in *. inv_ok. unfold compile_net. simpl. rewrite Cp. csimpl.
  match goal with H : mapR compile_transition _ = Ok _ |- _ => rewrite H end. csimpl.
  match goal with H : mapR compile_arc _ = Ok _ |- _ => rewrite H end. csimpl. by rewrite Hc.
Qed.
End net.

(** A net with the same contents, listed canonically, has the same projection. *)
Lemma project_same n n' : same_net n n' → places n' = sorted_items (places n) →
  transitions n' = sorted_items (transitions n) → project_net_definition n' = project_net_definition n.
Proof.
  intros [_ _ Ha Hc Hn Hh _ Hg _ _ _ _ _ _ _] Ep Et. unfold project_net_definition.
  rewrite Ep, Et, !sorted_items_again, Ha, Hc, Hn.
  assert (∀ l, mapR (project_transition n') l = mapR (project_transition n) l) as ->; [|done].
  intros l. induction l as [|[p t] l IH]; cbn [mapR]; [done|]. rewrite IH.
  assert (project_transition n' (p, t) = project_transition n (p, t)) as ->; [|done].
  unfold project_transition, handler_uri, guard_uris, dget_default. by rewrite Hh, Hg.
Qed.

(** What the constructor guarantees of the tables the projection walks. *)
Lemma constructed_tables ps ts ars comp name n :
  Net_init ps ts ars comp name = Ok n → built_net n →
  NoDup (dkeys (places n)) ∧ NoDup (dkeys (transitions n)) ∧ Forall (λ pt, pt.1 ≠ []) (transitions n) ∧
  (∀ p t h, dget p (transitions n) = Some t → handler t = Some h → is_Some (handler_uri n p)) ∧
  ∀ p t, dget p (transitions n) = Some t → length (guard_uris n p) = length (guards t).
Proof.
  intros H Hb. pose proof (Net_init_ok _ _ _ _ _ _ H) as Hok.
  pose proof (net_places n Hok) as [Hpn _]. pose proof (net_transitions n Hok) as [Htn _].
  assert (Forall (λ pt, pt.1 ≠ []) (transitions n)) as Hne.
  { eapply Forall_impl; [apply (keys_wf n Hb Hpn Htn)|]. intros e [? _]. done. }
  split_and!; try done; [intros p t h Ht|intros p t Ht]; by apply (declared_uris _ _ _ _ _ _ p t H Hne Ht).
Qed.

Lemma projection_compiles ps ts ars comp name n d :
  Net_init ps ts ars comp name = Ok n → built_net n → project_net_definition n = Ok d →
  ∃ n', compile_net_definition d = Ok n' ∧ same_net n n'.
Proof.
  intros H Hb Hd. destruct (constructed_tables _ _ _ _ _ _ H Hb) as (Hpn & Htn & Hne & Hu & Hg).
  pose proof (compile_net_projected n Hb Hpn Htn Hu Hg d Hd) as Hc.
  destruct (Net_rebuild _ _ _ _ _ _ _ _ H Hne (sorted_items_perm (places n)) (sorted_items_perm (transitions n)))
    as (n' & Hn' & Ep & Et & Hs).
  exists n'. split; [|done]. unfold compile_net_definition. rewrite Hc, Hn'. csimpl.
  rewrite (project_same n n' Hs Ep Et), Hd. csimpl. by rewrite bool_decide_true.
Qed.

Lemma wire_round_trip d n : compile_net_definition d = Ok n →
  serialize_net_definition d = Ok (model_dump d) ∧ parse_net_definition (model_dump d) = Ok d.
Proof.
  intros Hc. pose proof (project_wf _ _ (compile_projects _ _ Hc)) as Hw.
  unfold serialize_net_definition, parse_net_definition. rewrite hooks_dump, validate_dump by done. csimpl.
  rewrite Hc. done.
Qed.

(** C30: a net built from valid declarations has a definition exactly
    when its timers, weights and arc positions are in the interoperable integer
    range; that definition compiles, to a net with the same places,
    transitions, arcs, identities and indexes, and it serializes to a text that
    parses to it. Whatever text parses, its document serializes, and the
    document is the projection of the net it compiles to. *)
Theorem net_definition_round_trip ps ts ars comp name n :
  Forall built_place ps → Forall built_transition ts → Forall built_arc ars → built_filter comp →
  Net_init ps ts ars comp name = Ok n →
  ((∃ d, project_net_definition n = Ok d) ↔ interoperable n) ∧
  (∀ d, project_net_definition n = Ok d →
     ∃ n' x, compile_net_definition d = Ok n' ∧ same_net n n' ∧
       serialize_net_definition d = Ok x ∧ parse_net_definition x = Ok d) ∧
  (∀ x d, parse_net_definition x = Ok d →
     ∃ n' x', compile_net_definition d = Ok n' ∧ project_net_definition n' = Ok d ∧
       serialize_net_definition d = Ok x' ∧ parse_net_definition x' = Ok d).
Proof.
  intros Hps Hts Hars Hcomp H. pose proof (Net_init_built _ _ _ _ _ _ H Hps Hts Hars Hcomp) as Hb. split; [|split].
  - destruct (constructed_tables _ _ _ _ _ _ H Hb) as (Hpn & Htn & _ & Hu & Hg). by apply project_iff.
  - intros d Hd. destruct (projection_compiles _ _ _ _ _ _ _ H Hb Hd) as (n' & Hc & Hs). exists n', (model_dump d).
    destruct (wire_round_trip d n' Hc). done.
  - intros x d Hx. unfold parse_net_definition in Hx. apply definition_error_Ok in Hx. inv_ok.
    match goal with H : compile_net_definition _ = Ok ?n |- _ => exists n, (model_dump d); rename H into Hc end.
    split; [done|]. split; [by apply compile_projects|]. by apply wire_round_trip with (1 := Hc).
Qed.

Lemma net_definition_round_trip_witness :
  ∃ n n' d, Net_init [MkPlace ["b"] None; MkPlace ["a"; "in"] (Some "red")]
      [MkTransition ["t"] (Some (HandlerSymbol "run")) [GuardCel "x > 0"] [Delay 5]]
      [MkArc ["a"; "in"] ["t"] CONSUME 1 None None; MkArc ["t"] ["b"] CONSUME 2 None None] None (Some "demo") = Ok n ∧
    project_net_definition n = Ok d ∧ compile_net_definition d = Ok n' ∧ same_net n n'.
Proof.
  pose (ps := [MkPlace ["b"] None; MkPlace ["a"; "in"] (Some "red")]).
  pose (ts := [MkTransition ["t"] (Some (HandlerSymbol "run")) [GuardCel "x > 0"] [Delay 5]]).
  pose (ars := [MkArc ["a"; "in"] ["t"] CONSUME 1 None None; MkArc ["t"] ["b"] CONSUME 2 None None]).
  destruct (Net_init ps ts ars None (Some "demo")) as [n|e] eqn:E; [|vm_compute in E; discriminate E].
  destruct (project_net_definition n) as [d|e] eqn:Ed.
  - destruct (proj1 (proj2 (net_definition_round_trip ps ts ars None (Some "demo") n
      ltac:(repeat constructor; discriminate) ltac:(repeat constructor; discriminate)
      ltac:(repeat constructor; discriminate) I E)) d Ed) as (n' & x & Hc & Hs & _).
    exists n, n', d. done.
  - exfalso. vm_compute in E. injection E as <-. vm_compute in Ed. discriminate Ed.
Defined.
