(* ===== verification/NetDocument.v ===== *)
(** * Net documents (src/src/petrus/impetus/net_document.py)

    A net definition with an optional view (node positions) and an optional
    execution lineage (a tree of complete sparse markings), their validators,
    the semantic admission of a document and its wire form. JSON texts are
    represented as in [NetDefinition]; a dictionary of a token's data or of an
    entry's metadata is its items, the keys of a Python dictionary being
    distinct. The [ValueError]s of this module other than [NetDocumentError] are
    pydantic's [ValidationError]s and the errors of the net definition. *)

From stdpp Require Import base gmap sets list strings.
From Stdlib Require Import ZArith Lia.
From S2P Require Import Prelude PyData Schema NetDefinition.
Open Scope string_scope.
Open Scope list_scope.
Open Scope Z_scope.

Definition NetDocumentError (msg : string) : exn := ValueError ("NetDocumentError: " +:+ msg).

(** [except NetDocumentError: raise], [except ValueError: raise NetDocumentError(msg)] *)
Definition document_error {A} (msg : string) (m : result A) : result A :=
  match m with
  | Err (ValueError e) =>
      if startswith "NetDocumentError: " e then Err (ValueError e) else Err (NetDocumentError msg)
  | m => m
  end.

(** ** Validators *)

(** [float(value)] overflows from here on. *)
Definition FLOAT_OVERFLOW : Z := 2 ^ 1024 - 2 ^ 970.

(** [_coordinate] *)
Definition coordinate (value : Data) : result Data :=
  match value with
  | DInt z => raise_if (negb (Z.abs z <? FLOAT_OVERFLOW))
                (ValidationError "coordinate must be a finite interoperable JSON number");; Ok value
  | DFloat _ _ => Ok value
  | _ => Err (ValidationError "coordinate must be a JSON number")
  end.

(** [_strict_json_number] on a float: an integral one is in the safe range. *)
Definition strict_float (m e : Z) : bool :=
  let '(m, e) := float_norm m e in
  if 0 <=? e then safe_integer (m * 2 ^ e) else true.

(** [_strict_json] *)
Fixpoint strict_json (value : Data) : bool :=
  match value with
  | DNone | DBool _ | DStr _ => true
  | DInt z => safe_integer z
  | DFloat m e => strict_float m e
  | DList l => forallb strict_json l
  | DDict d => forallb (λ kv, strict_json kv.2) d
  | DTuple _ | DObject _ => false
  end.

Definition strict_json_value (value : Data) : result Data :=
  raise_if (negb (strict_json value)) (ValidationError "value is not strict JSON");; Ok value.

(** [_metadata] *)
Definition metadata (value : Data) : result (dict string Data) :=
  match value with
  | DDict d => raise_if (negb (strict_json value)) (ValidationError "value is not strict JSON");; Ok d
  | _ => Err (ValidationError "metadata must be an object")
  end.

(** ** The document models *)

Record NodePosition := MkNodePosition { np_node : string; np_x : Data; np_y : Data }.
Record PortableViewV1 := MkPortableViewV1 { pv_nodes : list NodePosition }.
Record MarkingToken := MkMarkingToken { mt_color : option string; mt_data : Data }.
Record PlaceMarking := MkPlaceMarking { pm_place : string; pm_tokens : list MarkingToken }.

Inductive Provenance := observed | simulated | manual.

Record LineageEntry := MkLineageEntry {
  le_id : Z;
  le_parent : option Z;
  le_provenance : Provenance;
  le_marking : list PlaceMarking;
  le_metadata : dict string Data
}.

Record ExecutionLineage := MkExecutionLineage { el_head : Z; el_entries : list LineageEntry }.

Record NetDocumentV1 := MkNetDocumentV1 {
  doc_definition : NetDefinitionV3;
  doc_view : option PortableViewV1;
  doc_lineage : option ExecutionLineage
}.

Definition NodePosition_new (node : string) (x y : Data) : result NodePosition :=
  node ← canonical_path node; x ← coordinate x; y ← coordinate y; Ok (MkNodePosition node x y).

(** [canonical_nodes] *)
Definition PortableViewV1_new (nodes : list NodePosition) : result PortableViewV1 :=
  let paths := np_node <$> nodes in
  raise_if (negb (bool_decide (NoDup paths))) (ValidationError "view node paths must be unique");;
  raise_if (negb (bool_decide (paths = sorted_by str_leb paths)))
    (ValidationError "view nodes must be sorted by Unicode scalar value");;
  Ok (MkPortableViewV1 nodes).

Definition MarkingToken_new (color : option string) (data : Data) : result MarkingToken :=
  data ← strict_json_value data; Ok (MkMarkingToken color data).

Definition PlaceMarking_new (place : string) (tokens : list MarkingToken) : result PlaceMarking :=
  place ← canonical_path place; Ok (MkPlaceMarking place tokens).

(** [Field(ge=0, le=JSON_SAFE_INTEGER_MAX)] *)
Definition entry_id (z : Z) : result Z :=
  raise_if (negb ((0 <=? z) && (z <=? JSON_SAFE_INTEGER_MAX))) (ValidationError "entry id");; Ok z.

Definition entry_id_opt (z : option Z) : result (option Z) :=
  match z with Some z => z ← entry_id z; Ok (Some z) | None => Ok None end.

Definition LineageEntry_new (id : Z) (parent : option Z) (provenance : Provenance)
    (marking : list PlaceMarking) (meta : Data) : result LineageEntry :=
  id ← entry_id id; parent ← entry_id_opt parent; meta ← metadata meta;
  Ok (MkLineageEntry id parent provenance marking meta).

Definition ExecutionLineage_new (head : Z) (entries : list LineageEntry) : result ExecutionLineage :=
  head ← entry_id head; Ok (MkExecutionLineage head entries).

(** ** Admission *)

(** The colors of one place's tokens. *)
Definition check_token (place : PlaceDefinition) (t : MarkingToken) : result unit :=
  raise_if (bad_color (mt_color t)) (NetDocumentError "color must be a nonempty string or null");;
  raise_if (match pd_color place with Some _ => negb (bool_decide (mt_color t = pd_color place)) | None => false end)
    (NetDocumentError "color does not match the place's color").

Definition check_place (places : dict string PlaceDefinition) (entry : PlaceMarking) : result unit :=
  place ← or_raise (dget (pm_place entry) places) (NetDocumentError "names foreign place");
  raise_if (bool_decide (pm_tokens entry = [])) (NetDocumentError "tokens must be nonempty in sparse marking form");;
  forM_ (check_token place) (pm_tokens entry).

(** [_marking] *)
Definition check_marking (value : list PlaceMarking) (definition : NetDefinitionV3) : result unit :=
  let places := dict_of_list ((λ p, (pd_path p, p)) <$> nb_places (nd_definition definition)) in
  let names := pm_place <$> value in
  raise_if (negb (bool_decide (names = sorted_by str_leb names)))
    (NetDocumentError "places must be sorted by Unicode scalar value");;
  raise_if (negb (bool_decide (NoDup names))) (NetDocumentError "places must be unique");;
  forM_ (check_place places) value.

Definition check_entry (definition : NetDefinitionV3) (ie : nat * LineageEntry) : result unit :=
  let '(index, entry) := ie in
  raise_if (negb (le_id entry =? Z.of_nat index)) (NetDocumentError "id must equal its array index");;
  (if (index =? 0)%nat then
     raise_if (bool_decide (is_Some (le_parent entry)))
       (NetDocumentError "lineage.entries[0] must be the sole root with parent null")
   else
     raise_if (match le_parent entry with None => true | Some p => Z.of_nat index <=? p end)
       (NetDocumentError "parent must be a smaller entry id"));;
  check_marking (le_marking entry) definition.

(** [_lineage] *)
Definition check_lineage (lineage : ExecutionLineage) (definition : NetDefinitionV3) : result unit :=
  raise_if (bool_decide (el_entries lineage = [])) (NetDocumentError "lineage.entries must be nonempty");;
  raise_if (Z.of_nat (length (el_entries lineage)) <=? el_head lineage)
    (NetDocumentError "lineage.head must name an existing entry");;
  forM_ (check_entry definition) (imap pair (el_entries lineage)).

Definition check_view (view : PortableViewV1) (definition : NetDefinitionV3) : result unit :=
  let body := nd_definition definition in
  let definition_nodes := (pd_path <$> nb_places body) ++ (td_path <$> nb_transitions body) in
  raise_if (existsb (λ node, negb (bool_decide (np_node node ∈ definition_nodes))) (pv_nodes view))
    (NetDocumentError "view contains foreign definition node").

(** [_validate_document] *)
Definition validate_document (d : NetDocumentV1) : result unit :=
  compile_net_definition (doc_definition d);;
  (match doc_view d with Some v => check_view v (doc_definition d) | None => Ok tt end);;
  (match doc_lineage d with Some l => check_lineage l (doc_definition d) | None => Ok tt end).

(** ** The wire form *)

Definition provenance_value (p : Provenance) : string :=
  match p with observed => "observed" | simulated => "simulated" | manual => "manual" end.

Definition dump_node (n : NodePosition) : Data := DDict [("node", DStr (np_node n)); ("x", np_x n); ("y", np_y n)].
Definition dump_view (v : PortableViewV1) : Data :=
  DDict [("version", DInt 1); ("nodes", DList (dump_node <$> pv_nodes v))].
Definition dump_token (t : MarkingToken) : Data :=
  DDict [("color", dump_str_opt (mt_color t)); ("data", mt_data t)].
Definition dump_marking (m : PlaceMarking) : Data :=
  DDict [("place", DStr (pm_place m)); ("tokens", DList (dump_token <$> pm_tokens m))].
Definition dump_entry (e : LineageEntry) : Data :=
  DDict [("id", DInt (le_id e)); ("parent", dump_opt DInt (le_parent e));
         ("provenance", DStr (provenance_value (le_provenance e)));
         ("marking", DList (dump_marking <$> le_marking e)); ("metadata", DDict (le_metadata e))].
Definition dump_lineage (l : ExecutionLineage) : Data :=
  DDict [("head", DInt (el_head l)); ("entries", DList (dump_entry <$> el_entries l))].

(** [document.model_dump(...)]: absent components are null. *)
Definition dump_document (d : NetDocumentV1) : dict string Data :=
  [("format", DStr "petrus-net-document"); ("version", DInt 1); ("definition", model_dump (doc_definition d));
   ("view", dump_opt dump_view (doc_view d)); ("lineage", dump_opt dump_lineage (doc_lineage d))].

(** *** Strict validation *)

(** [_version_one] *)
Definition v_version_one (x : Data) : result unit :=
  raise_if (negb (bool_decide (x = DInt 1))) (ValidationError "version must be the integer 1").

Definition v_node (x : Data) : result NodePosition :=
  d ← members ["node"; "x"; "y"] x;
  node ← field d "node"; node ← v_str node; px ← field d "x"; py ← field d "y";
  NodePosition_new node px py.

Definition v_view (x : Data) : result PortableViewV1 :=
  d ← members ["version"; "nodes"] x;
  version ← field d "version"; v_version_one version;;
  nodes ← field d "nodes"; nodes ← v_tuple v_node nodes;
  PortableViewV1_new nodes.

Definition v_token (x : Data) : result MarkingToken :=
  d ← members ["color"; "data"] x;
  color ← field d "color"; color ← v_opt v_str color; data ← field d "data";
  MarkingToken_new color data.

Definition v_marking (x : Data) : result PlaceMarking :=
  d ← members ["place"; "tokens"] x;
  place ← field d "place"; place ← v_str place;
  tokens ← field d "tokens"; tokens ← v_tuple v_token tokens;
  PlaceMarking_new place tokens.

Definition v_provenance (x : Data) : result Provenance :=
  s ← v_str x;
  if String.eqb s "observed" then Ok observed
  else if String.eqb s "simulated" then Ok simulated
  else if String.eqb s "manual" then Ok manual
  else Err (ValidationError "unexpected literal").

Definition v_entry (x : Data) : result LineageEntry :=
  d ← members ["id"; "parent"; "provenance"; "marking"; "metadata"] x;
  id ← field d "id"; id ← v_int id;
  parent ← field d "parent"; parent ← v_opt v_int parent;
  provenance ← field d "provenance"; provenance ← v_provenance provenance;
  marking ← field d "marking"; marking ← v_tuple v_marking marking;
  meta ← field d "metadata";
  LineageEntry_new id parent provenance marking meta.

Definition v_lineage (x : Data) : result ExecutionLineage :=
  d ← members ["head"; "entries"] x;
  head ← field d "head"; head ← v_int head;
  entries ← field d "entries"; entries ← v_tuple v_entry entries;
  ExecutionLineage_new head entries.

(** [NetDocumentV1.model_validate(value, strict=True)]: an absent view or
    lineage is [None]. A list and a tuple validate alike, so this also stands
    for the validation of a [mode="python"] dump. *)
Definition validate_model (x : Data) : result NetDocumentV1 :=
  d ← members ["format"; "version"; "definition"; "view"; "lineage"] x;
  format ← field d "format"; v_literal "petrus-net-document" format;;
  version ← field d "version"; v_version_one version;;
  definition ← field d "definition"; definition ← model_validate definition;
  view ← v_opt v_view (default DNone (dget "view" d));
  lineage ← v_opt v_lineage (default DNone (dget "lineage" d));
  Ok (MkNetDocumentV1 definition view lineage).

(** [_pairs] refuses a repeated member name. *)
Fixpoint json_pairs (x : Data) : bool :=
  match x with
  | DList l | DTuple l => forallb json_pairs l
  | DDict d => bool_decide (NoDup (dkeys d)) && forallb (λ kv, json_pairs kv.2) d
  | _ => true
  end.

Definition null_component (x : Data) : bool :=
  match x with
  | DDict d => existsb (λ k, bool_decide (dget k d = Some DNone)) ["view"; "lineage"]
  | _ => false
  end.

Definition parse_net_document (payload : Data) : result NetDocumentV1 :=
  document_error "invalid Petrus Net document v1"
    (raise_if (negb (json_pairs payload)) (NetDocumentError "duplicate JSON member");;
     strict_json_value payload;;
     raise_if (null_component payload) (NetDocumentError "component must be absent or an object, not null");;
     document ← validate_model payload;
     validate_document document;;
     Ok document).

Definition serialize_net_document (document : NetDocumentV1) : result Data :=
  document_error "cannot serialize Petrus Net document v1"
    (document ← validate_model (DDict (dump_document document));
     validate_document document;;
     let value := dump_document document in
     let value := if bool_decide (doc_view document = None) then ddel "view" value else value in
     let value := if bool_decide (doc_lineage document = None) then ddel "lineage" value else value in
     strict_json_value (DDict value)).

(** [str(node)] of a position's key. *)
Definition node_str (node : path_arg) : string :=
  match node with APath p => path_str p | AStr s => s end.

Definition project_net_document (net : Net) (positions : option (dict path_arg (Data * Data)))
    (lineage : option ExecutionLineage) : result NetDocumentV1 :=
  document_error "cannot project Petrus Net document v1"
    (view ← (match positions with
             | None => Ok None
             | Some ps =>
                 nodes ← mapR (λ e, NodePosition_new (node_str e.1) e.2.1 e.2.2)
                           (sorted_by (λ x y, str_leb (node_str x.1) (node_str y.1)) ps);
                 v ← PortableViewV1_new nodes; Ok (Some v)
             end);
     definition ← project_net_definition net;
     let document := MkNetDocumentV1 definition view lineage in
     validate_document document;;
     Ok document).

(** [definition_identity], the digest being [hashlib]'s. *)
Definition definition_identity (sha256_hex : Data → string) (document : NetDocumentV1) : result string :=
  text ← serialize_net_definition (doc_definition document);
  Ok (sha256_hex text).
