(* ===== verification/NetDocumentTheorems.v ===== *)
(** * Net documents: what an admitted document says of its net

    A document that serializes is what its text parses to, and an admitted
    document is about its net: positions and markings name the net's nodes,
    tokens have their place's color, and every lineage entry descends to the
    root. *)

From stdpp Require Import base gmap sets list strings.
From Stdlib Require Import ZArith Lia.
From S2P Require Import Prelude PyData Schema NetTheorems NetDefinition NetDefinitionTheorems NetDocument.
Open Scope string_scope.
Open Scope list_scope.
Open Scope Z_scope.

(** ** Validating a dump gives the value dumped *)

Lemma mapR_dump_eq {A} (v : Data → result A) (f : A → Data) l k :
  (∀ x y, v (f x) = Ok y → y = x) → mapR v (f <$> l) = Ok k → k = l.
Proof.
  intros H. revert k. induction l as [|x l IH]; intros k Hk; cbn in Hk; [by inv_ok|].
  apply bind_Ok in Hk as (y & Hy & Hk). apply bind_Ok in Hk as (ys & Hys & Hk). inv_ok.
  f_equal; [by apply H|by apply IH].
Qed.

Lemma v_opt_dump_eq {A} (v : Data → result A) (f : A → Data) x y :
  (∀ x y, v (f x) = Ok y → y = x) → (∀ x, f x ≠ DNone) → v_opt v (dump_opt f x) = Ok y → y = x.
Proof.
  intros H Hn Hv. destruct x as [a|]; simpl in Hv; [|by inv_ok]. unfold v_opt in Hv.
  destruct (f a) eqn:E; [by destruct (Hn a)|..]; inv_ok; rewrite <-E in *; f_equal; by apply H.
Qed.

Lemma v_str_opt_eq s y : v_opt v_str (dump_str_opt s) = Ok y → y = s.
Proof. rewrite v_str_opt_dump. by intros [= ->]. Qed.

(** Each validator on its own dump. *)
Ltac solve_dump :=
  repeat match goal with
  | H : v_opt v_str (dump_str_opt _) = Ok _ |- _ => apply v_str_opt_eq in H as ->
  | H : canonical_path _ = Ok _ |- _ => apply canonical_path_eq in H as ->
  end; try done.

Lemma v_pure_eq e y : v_pure (dump_pure e) = Ok y → y = e.
Proof.
  destruct e; unfold v_pure, SymbolExpression_new, CelExpression_new, symbol_name, cel_expression; csimpl; intros H; by inv_ok.
Qed.

Lemma v_handler_eq h y : v_handler (dump_handler h) = Ok y → y = h.
Proof. destruct h; unfold v_handler, symbol_name; csimpl; intros H; by inv_ok. Qed.

Lemma v_guard_eq g y : v_guard (dump_guard g) = Ok y → y = g.
Proof. destruct g; unfold v_guard, symbol_name, cel_expression; csimpl; intros H; by inv_ok. Qed.

Lemma v_timer_eq t y : v_timer (dump_timer t) = Ok y → y = t.
Proof. destruct t; unfold v_timer, SafeInteger_new; csimpl; intros H; by inv_ok. Qed.

Lemma v_place_eq p y : v_place (dump_place p) = Ok y → y = p.
Proof. unfold v_place, PlaceDefinition_new; csimpl; intros H. inv_ok. solve_dump. by destruct p. Qed.

Lemma v_transition_eq t y : v_transition (dump_transition t) = Ok y → y = t.
Proof.
  unfold v_transition, TransitionDefinition_new; csimpl; intros H. inv_ok. solve_dump.
  match goal with H : v_opt _ _ = Ok _ |- _ => apply v_opt_dump_eq in H as ->; [|apply v_handler_eq|by intros []] end.
  match goal with H : mapR v_guard _ = Ok _ |- _ => apply mapR_dump_eq in H as ->; [|apply v_guard_eq] end.
  match goal with H : mapR v_timer _ = Ok _ |- _ => apply mapR_dump_eq in H as ->; [|apply v_timer_eq] end.
  by destruct t.
Qed.

Lemma v_arc_eq a y : v_arc (dump_arc a) = Ok y → y = a.
Proof.
  unfold v_arc, ArcDefinition_new; csimpl; intros H. rewrite v_mode_dump in H. inv_ok. solve_dump.
  match goal with H : v_opt _ _ = Ok _ |- _ => apply v_opt_dump_eq in H as ->; [|apply v_pure_eq|by intros []] end.
  by destruct a.
Qed.

Lemma v_body_eq b y : v_body (dump_body b) = Ok y → y = b.
Proof.
  unfold v_body, NetDefinitionBody_new; csimpl; intros H. inv_ok. solve_dump.
  match goal with H : mapR v_place _ = Ok _ |- _ => apply mapR_dump_eq in H as ->; [|apply v_place_eq] end.
  match goal with H : mapR v_transition _ = Ok _ |- _ => apply mapR_dump_eq in H as ->; [|apply v_transition_eq] end.
  match goal with H : mapR v_arc _ = Ok _ |- _ => apply mapR_dump_eq in H as ->; [|apply v_arc_eq] end.
  match goal with H : v_opt _ _ = Ok _ |- _ => apply v_opt_dump_eq in H as ->; [|apply v_pure_eq|by intros []] end.
  by destruct b.
Qed.

Lemma model_validate_eq d y : model_validate (model_dump d) = Ok y → y = d.
Proof.
  unfold model_validate; csimpl; intros H. inv_ok.
  match goal with H : v_body _ = Ok _ |- _ => apply v_body_eq in H as -> end. by destruct d.
Qed.

Lemma coordinate_eq x y : coordinate x = Ok y → y = x.
Proof. unfold coordinate. destruct x; intros H; by inv_ok. Qed.

Lemma v_node_eq n y : v_node (dump_node n) = Ok y → y = n.
Proof.
  unfold v_node, NodePosition_new; csimpl; intros H. inv_ok. solve_dump.
  repeat match goal with H : coordinate _ = Ok _ |- _ => apply coordinate_eq in H as -> end. by destruct n.
Qed.

Lemma v_view_eq v y : v_view (dump_view v) = Ok y → y = v.
Proof.
  unfold v_view, PortableViewV1_new; csimpl; intros H. inv_ok.
  match goal with H : mapR v_node _ = Ok _ |- _ => apply mapR_dump_eq in H as ->; [|apply v_node_eq] end. by destruct v.
Qed.

Lemma v_token_eq t y : v_token (dump_token t) = Ok y → y = t.
Proof. unfold v_token, MarkingToken_new, strict_json_value; csimpl; intros H. inv_ok. solve_dump. by destruct t. Qed.

Lemma v_marking_eq m y : v_marking (dump_marking m) = Ok y → y = m.
Proof.
  unfold v_marking, PlaceMarking_new; csimpl; intros H. inv_ok. solve_dump.
  match goal with H : mapR v_token _ = Ok _ |- _ => apply mapR_dump_eq in H as ->; [|apply v_token_eq] end. by destruct m.
Qed.

Lemma v_int_eq z y : v_int (DInt z) = Ok y → y = z.
Proof. by intros [= ->]. Qed.

Lemma entry_id_opt_eq z y : entry_id_opt z = Ok y → y = z.
Proof. unfold entry_id_opt, entry_id. destruct z; intros H; by inv_ok. Qed.

Lemma v_provenance_dump p : v_provenance (DStr (provenance_value p)) = Ok p.
Proof. by destruct p. Qed.

Lemma v_entry_eq e y : v_entry (dump_entry e) = Ok y → y = e.
Proof.
  unfold v_entry, LineageEntry_new, entry_id, metadata; csimpl; intros H. rewrite v_provenance_dump in H. inv_ok.
  match goal with H : v_opt _ _ = Ok _ |- _ => apply v_opt_dump_eq in H as ->; [|apply v_int_eq|done] end.
  match goal with H : entry_id_opt _ = Ok _ |- _ => apply entry_id_opt_eq in H as -> end.
  match goal with H : mapR v_marking _ = Ok _ |- _ => apply mapR_dump_eq in H as ->; [|apply v_marking_eq] end. by destruct e.
Qed.

Lemma v_lineage_eq l y : v_lineage (dump_lineage l) = Ok y → y = l.
Proof.
  unfold v_lineage, ExecutionLineage_new, entry_id; csimpl; intros H. inv_ok.
  match goal with H : mapR v_entry _ = Ok _ |- _ => apply mapR_dump_eq in H as ->; [|apply v_entry_eq] end. by destruct l.
Qed.

Lemma validate_model_eq d y : validate_model (DDict (dump_document d)) = Ok y → y = d.
Proof.
  unfold validate_model, dump_document; csimpl; intros H. inv_ok.
  match goal with H : model_validate _ = Ok _ |- _ => apply model_validate_eq in H as -> end.
  match goal with H : v_opt v_view _ = Ok _ |- _ => apply v_opt_dump_eq in H as ->; [|apply v_view_eq|done] end.
  match goal with H : v_opt v_lineage _ = Ok _ |- _ => apply v_opt_dump_eq in H as ->; [|apply v_lineage_eq|done] end.
  by destruct d.
Qed.

Lemma document_error_Ok {A} msg (m : result A) a : document_error msg m = Ok a ↔ m = Ok a.
Proof. destruct m as [|[]]; simpl; try done. by destruct (startswith _ _). Qed.

(** The text omits the components the document does not have. *)
Definition document_text (d : NetDocumentV1) : dict string Data :=
  let value := if bool_decide (doc_view d = None) then ddel "view" (dump_document d) else dump_document d in
  if bool_decide (doc_lineage d = None) then ddel "lineage" value else value.

Lemma validate_text d : validate_model (DDict (document_text d)) = validate_model (DDict (dump_document d)).
Proof. unfold document_text. destruct d as [def [v|] [l|]]; done. Qed.

Lemma text_not_null d : null_component (DDict (document_text d)) = false.
Proof. unfold document_text. destruct d as [def [v|] [l|]]; done. Qed.

Lemma serialize_iff d x : serialize_net_document d = Ok x ↔
  validate_model (DDict (dump_document d)) = Ok d ∧ validate_document d = Ok tt ∧
  strict_json (DDict (document_text d)) = true ∧ x = DDict (document_text d).
Proof.
  unfold serialize_net_document. rewrite document_error_Ok. split.
  - intros H. apply bind_Ok in H as (d' & Hv & H). pose proof (validate_model_eq _ _ Hv) as ->.
    apply bind_Ok in H as ([] & Hd & H). unfold strict_json_value in H. inv_ok.
    by match goal with H : negb _ = false |- _ => apply negb_false_iff in H end.
  - intros (Hv & Hd & Hs & ->). rewrite Hv, bind_Ok_l, Hd, bind_Ok_l. cbv zeta. fold (document_text d).
    unfold strict_json_value. by rewrite Hs.
Qed.

Lemma text_parses d : json_pairs (DDict (document_text d)) = true → strict_json (DDict (document_text d)) = true →
  validate_model (DDict (dump_document d)) = Ok d → validate_document d = Ok tt →
  parse_net_document (DDict (document_text d)) = Ok d.
Proof.
  intros Hp Hs Hv Hd. unfold parse_net_document, strict_json_value. rewrite document_error_Ok.
  rewrite Hp, Hs, text_not_null, validate_text, Hv. csimpl. by rewrite Hd.
Qed.

(** ** What admission guarantees *)

(** The chain of parents from an entry down to the root, ids decreasing. *)
Inductive descends (entries : list LineageEntry) : Z → list Z → Prop :=
| descends_root e : entries !! 0%nat = Some e → le_parent e = None → descends entries 0 [0]
| descends_step i e p trail :
    0 <= p < Z.of_nat i → entries !! i = Some e → le_parent e = Some p → descends entries p trail →
    descends entries (Z.of_nat i) (Z.of_nat i :: trail).

(** A node, and a place with a color, of the net under its dotted spelling. *)
Definition net_node (n : Net) (s : string) : Prop :=
  ∃ p, path_str p = s ∧ (is_Some (dget p (places n)) ∨ is_Some (dget p (transitions n))).

Definition net_marking (n : Net) (m : PlaceMarking) : Prop :=
  ∃ p pl, path_str p = pm_place m ∧ dget p (places n) = Some pl ∧ pm_tokens m ≠ [] ∧
    Forall (λ t, bad_color (mt_color t) = false ∧ ∀ c, place_color pl = Some c → mt_color t = Some c) (pm_tokens m).

Lemma lineage_descends def l :
  check_lineage l def = Ok tt → Forall (λ e, ∀ p, le_parent e = Some p → 0 <= p) (el_entries l) →
  ∀ i e, el_entries l !! i = Some e → le_id e = Z.of_nat i ∧ ∃ trail, descends (el_entries l) (Z.of_nat i) trail.
Proof.
  intros H Hp. unfold check_lineage in H. inv_ok.
  match goal with H : forM_ _ _ = Ok _ |- _ => rewrite forM_Ok, Forall_lookup in H; rename H into Hall end.
  rewrite Forall_lookup in Hp. induction i as [i IH] using lt_wf_ind. intros e He.
  pose proof (Hall i (i, e)) as Hi. rewrite list_lookup_imap, He in Hi. specialize (Hi eq_refl).
  unfold check_entry in Hi. inv_ok.
  match goal with H : negb (_ =? _) = false |- _ => apply negb_false_iff, Z.eqb_eq in H; rename H into Hid end.
  split; [done|]. destruct i as [|i]; simpl in *; inv_ok.
  - exists [0]. eapply descends_root; [exact He|]. apply eq_None_not_Some.
    by match goal with H : bool_decide _ = false |- _ => apply bool_decide_eq_false in H end.
  - destruct (le_parent e) as [p|] eqn:Ep; [|done].
    match goal with H : (_ <=? p) = false |- _ => apply Z.leb_gt in H; rename H into Hlt end.
    pose proof (Hp _ _ He p Ep) as Hge.
    assert (Z.to_nat p < S i)%nat as Hp' by lia.
    destruct (lookup_lt_is_Some_2 (el_entries l) (Z.to_nat p)) as [e' He'].
    { apply lookup_lt_Some in He. lia. }
    destruct (IH _ Hp' e' He') as (_ & trail & Ht). rewrite Z2Nat.id in Ht by lia.
    exists (Z.of_nat (S i) :: trail). by eapply descends_step.
Qed.

Lemma v_lineage_parents x l : v_lineage x = Ok l → Forall (λ e, ∀ p, le_parent e = Some p → 0 <= p) (el_entries l) ∧ 0 <= el_head l.
Proof.
  unfold v_lineage, ExecutionLineage_new. intros H. inv_ok.
  match goal with H : entry_id _ = Ok _ |- _ => unfold entry_id in H end. inv_ok. simpl.
  match goal with H : negb (_ && _) = false |- _ => apply negb_false_iff, andb_true_iff in H as [?%Z.leb_le _] end.
  split; [|done]. match goal with H : v_tuple v_entry ?y = Ok _ |- _ => unfold v_tuple in H; destruct y; try done end.
  all: eapply mapR_Forall; [|eassumption]; intros y e He p Hpar; unfold v_entry, LineageEntry_new in He; inv_ok; simpl in Hpar; subst.
  all: match goal with H : entry_id_opt ?z = Ok _ |- _ => unfold entry_id_opt, entry_id in H; destruct z end; inv_ok;
    match goal with H : negb (_ && _) = false |- _ => by apply negb_false_iff, andb_true_iff in H as [?%Z.leb_le _] | _ => done end.
Qed.

Lemma compiled_ok d n : compile_net_definition d = Ok n → net_ok n.
Proof.
  unfold compile_net_definition. intros H. inv_ok.
  match goal with H : definition_error _ _ = Ok _ |- _ => apply definition_error_Ok in H; unfold compile_net in H end.
  inv_ok. by eapply Net_init_ok.
Qed.

(** The definition's places are those of the net it compiles to. *)
Lemma definition_place d n pd : compile_net_definition d = Ok n → pd ∈ nb_places (nd_definition d) →
  ∃ p pl, path_str p = pd_path pd ∧ dget p (places n) = Some pl ∧ pd_color pd = place_color pl.
Proof.
  intros Hc Hin. pose proof (compile_projects _ _ Hc) as Hp. unfold project_net_definition in Hp. inv_ok.
  match goal with H : NetDefinitionBody_new _ _ _ _ _ = Ok _ |- _ => unfold NetDefinitionBody_new in H end. inv_ok. simpl in *.
  match goal with H : mapR project_place _ = Ok _ |- _ => apply mapR_Ok in H; rename H into Hm end.
  apply list_elem_of_lookup in Hin as [i Hi]. eapply Forall2_lookup_r in Hm as ([p pl] & Hs & Hd); [|exact Hi].
  apply list_elem_of_lookup_2 in Hs. rewrite sorted_items_perm in Hs.
  exists p, pl. unfold project_place, PlaceDefinition_new in Hd. inv_ok. simpl in *.
  match goal with H : canonical_path _ = Ok _ |- _ => apply canonical_path_eq in H as -> end.
  split; [done|]. split; [|done]. apply elem_of_dget; [|done]. apply (net_places n (compiled_ok _ _ Hc)).
Qed.

Lemma definition_transition d n td : compile_net_definition d = Ok n → td ∈ nb_transitions (nd_definition d) →
  ∃ p, path_str p = td_path td ∧ is_Some (dget p (transitions n)).
Proof.
  intros Hc Hin. pose proof (compile_projects _ _ Hc) as Hp. unfold project_net_definition in Hp. inv_ok.
  match goal with H : NetDefinitionBody_new _ _ _ _ _ = Ok _ |- _ => unfold NetDefinitionBody_new in H end. inv_ok. simpl in *.
  match goal with H : mapR (project_transition n) _ = Ok _ |- _ => apply mapR_Ok in H; rename H into Hm end.
  apply list_elem_of_lookup in Hin as [i Hi]. eapply Forall2_lookup_r in Hm as ([p t] & Hs & Hd); [|exact Hi].
  apply list_elem_of_lookup_2 in Hs. rewrite sorted_items_perm in Hs.
  exists p. unfold project_transition, TransitionDefinition_new in Hd. inv_ok. simpl in *.
  match goal with H : canonical_path _ = Ok _ |- _ => apply canonical_path_eq in H as -> end.
  split; [done|]. exists t. apply elem_of_dget; [|done]. apply (net_transitions n (compiled_ok _ _ Hc)).
Qed.

Lemma view_nodes d n v : compile_net_definition d = Ok n → check_view v d = Ok tt →
  Forall (λ node, net_node n (np_node node)) (pv_nodes v).
Proof.
  intros Hc H. unfold check_view in H. inv_ok. apply Forall_forall. intros node Hin.
  apply not_true_iff_false in H. assert (np_node node ∈ (pd_path <$> nb_places (nd_definition d)) ++ (td_path <$> nb_transitions (nd_definition d))) as Hn.
  { apply dec_stable. intros Hn. apply H, existsb_exists. exists node. split; [by apply list_elem_of_In|].
    by rewrite bool_decide_false. }
  apply elem_of_app in Hn as [Hn|Hn]; apply list_elem_of_fmap in Hn as (y & Hy & Hin').
  - destruct (definition_place _ _ _ Hc Hin') as (p & pl & Hp & Hd & _). exists p. rewrite Hy. eauto.
  - destruct (definition_transition _ _ _ Hc Hin') as (p & Hp & Hd). exists p. rewrite Hy. eauto.
Qed.

Lemma dict_of_list_keyed_str {V} (key : V → string) (l : list V) k v :
  dget k (dict_of_list ((λ x, (key x, x)) <$> l)) = Some v → key v = k ∧ v ∈ l.
Proof.
  unfold dict_of_list. assert (∀ k v, dget k ([] : dict string V) = Some v → key v = k ∧ v ∈ l) as H0 by done.
  revert H0. generalize ([] : dict string V). assert (l ⊆ l) as Hl by done. revert Hl. generalize l at 1 4 as l'.
  intros l'. induction l' as [|x l' IH]; intros Hl d Hd; csimpl; [apply Hd|].
  apply IH; [set_solver|]. intros k' v'. rewrite dget_dset. case_decide; [|apply Hd]. intros [= <-]. set_solver.
Qed.

Lemma marking_of_net d n value : compile_net_definition d = Ok n → check_marking value d = Ok tt →
  NoDup (pm_place <$> value) ∧ Forall (net_marking n) value.
Proof.
  intros Hc H. unfold check_marking in H. inv_ok.
  match goal with H : negb (bool_decide (NoDup _)) = false |- _ => apply negb_false_iff, bool_decide_eq_true in H end.
  split; [done|]. match goal with H : forM_ _ _ = Ok _ |- _ => apply forM_Ok in H; rename H into Hall end.
  eapply Forall_impl; [exact Hall|]. intros m Hm. unfold check_place in Hm. inv_ok.
  match goal with H : dget _ _ = Some ?pd |- _ => pose proof (dict_of_list_keyed_str _ _ _ _ H) as [Hk Hin] end.
  destruct (definition_place _ _ _ Hc Hin) as (p & pl & Hp & Hd & Hcol). exists p, pl.
  split; [congruence|]. split; [done|]. split; [by match goal with H : bool_decide _ = false |- _ => apply bool_decide_eq_false in H end|].
  match goal with H : forM_ _ _ = Ok _ |- _ => apply forM_Ok in H; eapply Forall_impl; [exact H|] end.
  intros t Ht. unfold check_token in Ht. inv_ok. split; [done|]. intros c Hplc. rewrite Hcol, Hplc in *.
  match goal with H : negb (bool_decide _) = false |- _ => by apply negb_false_iff, bool_decide_eq_true in H end.
Qed.

(** C31: a document that serializes is what its text parses to. An
    admitted document compiles to a net; its view positions only nodes of that
    net; its lineage is a tree whose entry [i] has id [i] and a chain of
    strictly smaller parents ending at the sole root, with the head among the
    entries; and every marking of it lists distinct places of the net, each
    with tokens, all of them of the place's color when it declares one. *)
Theorem admitted_document_is_about_its_net :
  (∀ d x, serialize_net_document d = Ok x → json_pairs x = true → parse_net_document x = Ok d) ∧
  ∀ x d, parse_net_document x = Ok d →
    ∃ n, compile_net_definition (doc_definition d) = Ok n ∧
      (∀ v, doc_view d = Some v → Forall (λ node, net_node n (np_node node)) (pv_nodes v)) ∧
      ∀ l, doc_lineage d = Some l →
        0 <= el_head l < Z.of_nat (length (el_entries l)) ∧
        ∀ i e, el_entries l !! i = Some e →
          le_id e = Z.of_nat i ∧ (∃ trail, descends (el_entries l) (Z.of_nat i) trail) ∧
          NoDup (pm_place <$> le_marking e) ∧ Forall (net_marking n) (le_marking e).
Proof.
  split.
  { intros d x (Hv & Hd & Hs & ->)%serialize_iff Hp. by apply text_parses. }
  intros x d H. unfold parse_net_document in H. apply document_error_Ok in H. inv_ok.
  match goal with H : validate_model _ = Ok _ |- _ => rename H into Hv end.
  match goal with H : validate_document _ = Ok _ |- _ => rename H into Hd; unfold validate_document in Hd end. inv_ok.
  match goal with H : compile_net_definition _ = Ok ?n |- _ => exists n; rename H into Hc end.
  split; [done|]. split; [intros v Ev; rewrite Ev in *; by eapply view_nodes|].
  intros l El. rewrite El in *. unfold validate_model in Hv. inv_ok. simpl in El, Hc. subst.
  match goal with H : v_opt v_lineage ?y = Ok (Some l) |- _ => assert (v_lineage y = Ok l) as Hl by (unfold v_opt in H; destruct y; by inv_ok) end.
  apply v_lineage_parents in Hl as [Hpar Hhead]. pose proof (lineage_descends _ _ Hd Hpar) as Hdesc.
  unfold check_lineage in Hd. inv_ok. split; [split; [done|]; by match goal with H : (_ <=? _) = false |- _ => apply Z.leb_gt in H end|].
  intros i e He. destruct (Hdesc i e He) as [Hid Htrail]. split; [done|]. split; [done|].
  match goal with H : forM_ _ _ = Ok _ |- _ => rewrite forM_Ok, Forall_lookup in H; specialize (H i (i, e)); rename H into Hi end.
  rewrite list_lookup_imap, He in Hi. specialize (Hi eq_refl). unfold check_entry in Hi. inv_ok.
  by eapply marking_of_net.
Qed.

Definition sample_definition : NetDefinitionV3 :=
  MkNetDefinitionV3 (MkNetDefinitionBody (Some "demo") [MkPlaceDefinition "a" (Some "red"); MkPlaceDefinition "b" None]
    [MkTransitionDefinition "t" None [] [UntilDefinition 7]]
    [MkArcDefinition 0 "a" "t" CONSUME 1 (Some "red") None; MkArcDefinition 1 "t" "b" CONSUME 1 None None] None).

Definition sample_document : NetDocumentV1 :=
  MkNetDocumentV1 sample_definition (Some (MkPortableViewV1 [MkNodePosition "t" (DInt 10) (DFloat 5 (-1))]))
    (Some (MkExecutionLineage 1
       [MkLineageEntry 0 None observed [MkPlaceMarking "a" [MkMarkingToken (Some "red") (DInt 1)]] [];
        MkLineageEntry 1 (Some 0) simulated [MkPlaceMarking "b" [MkMarkingToken None DNone]] [("step", DStr "fire t")]])).

Lemma admitted_document_is_about_its_net_witness :
  ∃ x, serialize_net_document sample_document = Ok x ∧ parse_net_document x = Ok sample_document ∧
    ∃ n, compile_net_definition sample_definition = Ok n ∧ net_marking n (MkPlaceMarking "b" [MkMarkingToken None DNone]).
Proof.
  exists (DDict (document_text sample_document)).
  assert (serialize_net_document sample_document = Ok (DDict (document_text sample_document))) as Hs by (vm_compute; reflexivity).
  split; [exact Hs|].
  pose proof (proj1 admitted_document_is_about_its_net sample_document _ Hs ltac:(vm_compute; reflexivity)) as Hp.
  split; [exact Hp|].
  destruct (proj2 admitted_document_is_about_its_net _ _ Hp) as (n & Hc & _ & Hl). exists n. split; [exact Hc|].
  destruct (Hl _ eq_refl) as [_ He]. destruct (He 1%nat _ eq_refl) as (_ & _ & _ & Hm).
  apply Forall_cons in Hm. apply Hm.
Defined.
