(* ===== verification/Marking.v ===== *)
(** * Tokens, token queues and markings
      (src/src/petrus/impetus/petrinet/marking.py, src/src/petrus/impetus/scope.py)

    A queue is the list of its entries front to back, so token, entry instant,
    occurrence identity and scope are aligned by construction. The instant type
    is a parameter: [Z] in the runtime's pair-queues, [unit] in time-blind ones. *)

From stdpp Require Import base gmap sets list strings.
From Stdlib Require Import Ascii ZArith Lia.
From S2P Require Import Prelude PyData Schema.
Open Scope string_scope.
Open Scope list_scope.

(** ** Lifecycle scopes *)

Record LifecycleScope := MkScope { scope_name : string; scope_generation : Z }.

#[export] Instance LifecycleScope_eq_dec : EqDecision LifecycleScope.
Proof. solve_decision. Defined.

(** A name with a NUL byte or no byte at all. *)
Definition bad_scope_name (name : string) : bool := str_empty name || str_contains "000" name.

(** [LifecycleScope.__post_init__] *)
Definition LifecycleScope_new (name : string) (generation : Z) : result LifecycleScope :=
  raise_if (bad_scope_name name) (ValueError "LifecycleScope name must be a non-empty string without NUL");;
  raise_if (generation <? 1)%Z (ValueError "LifecycleScope generation must be a positive integer");;
  Ok (MkScope name generation).

(** ** Tokens *)

Record Token := MkToken { color : option Color; data : Data }.

#[export] Instance Token_eq_dec : EqDecision Token.
Proof. solve_decision. Defined.

Definition black : Token := MkToken None DNone.
Definition is_black (t : Token) : bool := bool_decide (color t = None).

(** The dataclass equality of tokens: colors and data by Python [==]. *)
Definition token_eq (t u : Token) : bool :=
  bool_decide (color t = color u) && py_eq (data t) (data u).

(** The normal form of a token under that equality. *)
Definition token_norm (t : Token) : Token := MkToken (color t) (py_norm (data t)).

(** [Arc.admits]: the nominal color match. *)
Definition admits (a : Arc) (t : Token) : bool :=
  match arc_color a with None => true | Some c => bool_decide (color t = Some c) end.

(** ** Token queues *)

Record entry (I : Type) := MkEntry {
  e_token : Token;
  e_instant : I;
  e_identity : option Z;
  e_scope : option LifecycleScope
}.
Arguments MkEntry {I}.
Arguments e_token {I}.
Arguments e_instant {I}.
Arguments e_identity {I}.
Arguments e_scope {I}.

Notation TokenQueue I := (list (entry I)) (only parsing).

#[export] Instance entry_eq_dec {I} `{EqDecision I} : EqDecision (entry I).
Proof. solve_decision. Defined.

Section TokenQueue.
  Context {I : Type}.
  Implicit Types q : TokenQueue I.

Definition tokens_of q : list Token := e_token <$> q.
Definition instants q : list I := e_instant <$> q.
Definition identities q : list (option Z) := e_identity <$> q.
Definition scopes q : list (option LifecycleScope) := e_scope <$> q.

(** [TokenQueue.deposit] *)
Definition deposit q (token : Token) (instant : I) (identity : option Z)
    (scope : option LifecycleScope) : TokenQueue I :=
  q ++ [MkEntry token instant identity scope].

(** [next(position ... if p(entry))] followed by [del remaining[position]]. *)
Fixpoint take_first (p : entry I → bool) q : option (entry I * TokenQueue I) :=
  match q with
  | [] => None
  | e :: q =>
      if p e then Some (e, q)
      else match take_first p q with
           | Some (e', q') => Some (e', e :: q')
           | None => None
           end
  end.

(** [TokenQueue.selected] *)
Fixpoint selected q (tokens : list Token) : result (list (option Z * option LifecycleScope)) :=
  match tokens with
  | [] => Ok []
  | t :: tokens =>
      '(e, q') ← or_raise (take_first (λ e, token_eq (e_token e) t) q) TokenNotPresent;
      rest ← selected q' tokens;
      Ok ((e_identity e, e_scope e) :: rest)
  end.

(** The loop of [TokenQueue.remove]: each request names a token and, for exact
    removal, an identity. *)
Fixpoint remove_loop q (requests : list (Token * option Z)) : result (TokenQueue I) :=
  match requests with
  | [] => Ok q
  | (t, i) :: requests =>
      '(_, q') ← or_raise
        (take_first (λ e, token_eq (e_token e) t &&
                          match i with None => true | Some _ => bool_decide (e_identity e = i) end) q)
        TokenNotPresent;
      remove_loop q' requests
  end.

(** [TokenQueue.remove] *)
Definition remove q (tokens : list Token) (ids : list Z) : result (TokenQueue I) :=
  raise_if (negb (bool_decide (ids = [])) && negb (length ids =? length tokens)%nat)
    (ValueError "TokenQueue exact removal requires one identity per token");;
  remove_loop q (match ids with
                 | [] => (λ t, (t, None)) <$> tokens
                 | _ => zip tokens (Some <$> ids)
                 end).

(** [TokenQueue.discard] *)
Definition discard q (ids : list Z) : result (TokenQueue I) :=
  foldM (λ q identity,
      '(_, q') ← or_raise (take_first (λ e, bool_decide (e_identity e = Some identity)) q)
                   (ValueError "cannot discard queue entry: identity not present");
      Ok q') q ids.

(** [TokenQueue.admitted_by]: the positions whose token the (fallible) judgment
    accepts, stopping once [limit] are found. *)
Fixpoint scan (accepts : Token → result bool) (limit : option Z) (position : nat)
    (positions : list nat) q : result (list nat) :=
  match q with
  | [] => Ok positions
  | e :: q =>
      ok ← accepts (e_token e);
      if (ok : bool) then
        let positions := positions ++ [position] in
        if bool_decide (Some (Z.of_nat (length positions)) = limit) then Ok positions
        else scan accepts limit (S position) positions q
      else scan accepts limit (S position) positions q
  end.

Definition admitted_by q (accepts : Token → result bool) (limit : option Z) : result (list nat) :=
  raise_if (match limit with Some l => (l <? 1)%Z | None => false end)
    (ValueError "admitted_by requires a positive limit (or None for all)");;
  scan accepts limit 0 [] q.
End TokenQueue.

(** [TokenQueue.time_blind] *)
Definition time_blind (tokens : list Token) : TokenQueue unit :=
  (λ t, MkEntry t tt None None) <$> tokens.

(** ** Markings *)

(** [Marking.__init__]: sparse, insertion-ordered. *)
Definition Marking := dict NetPath (list Token).

Definition Marking_new (queues : dict NetPath (list Token)) : Marking :=
  filter (λ pq, pq.2 ≠ []) queues.

Definition from_counts (counts : dict NetPath nat) : Marking :=
  Marking_new ((λ pc, (pc.1, replicate pc.2 black)) <$> counts).

(** [Marking.place] *)
Definition marking_place (m : Marking) (path : NetPath) : list Token := dget_default path [] m.

(** [Marking.consume] *)
Definition consume (m : Marking) (path : NetPath) (tokens : list Token) : result Marking :=
  remaining ← rewrap_not_present (remove (time_blind (marking_place m path)) tokens [])
                (ValueError "cannot consume: token not present");
  Ok (Marking_new (match remaining with
                   | [] => ddel path m
                   | _ => dset path (tokens_of remaining) m
                   end)).

(** [Marking.deposit] *)
Definition marking_deposit (m : Marking) (path : NetPath) (token : Token) : Marking :=
  Marking_new (dset path (marking_place m path ++ [token]) m).

Definition counts (m : Marking) : dict NetPath nat := (λ pq, (pq.1, length pq.2)) <$> m.

(** [Marking.__eq__]: dictionary equality over token queues. *)
Definition marking_eq (m m' : Marking) : bool :=
  (length m =? length m')%nat &&
  forallb (λ pq, match dget pq.1 m' with
                 | Some q => bool_decide (Forall2 (λ t u, token_eq t u = true) pq.2 q)
                 | None => false
                 end) m.

(** ** Laws of the queue operations *)

Lemma token_eq_norm t u : token_eq t u = true ↔ token_norm t = token_norm u.
Proof.
  unfold token_eq, token_norm, py_eq.
  rewrite andb_true_iff, !bool_decide_eq_true. split; [by intros [-> ->]|].
  intros H. by injection H.
Qed.

Section queue_laws.
  Context {I : Type}.
  Implicit Types (q : TokenQueue I) (p : entry I → bool).

Lemma take_first_Some p q e q' :
  take_first p q = Some (e, q') ↔
  ∃ l r, q = l ++ e :: r ∧ q' = l ++ r ∧ p e = true ∧ Forall (λ x, p x = false) l.
Proof.
  revert q'. induction q as [|x q IH]; intros q'; simpl.
  - split; [done|]. intros (l & r & H & _). by destruct l.
  - destruct (p x) eqn:Hx.
    + split.
      * intros [= <- <-]. exists [], q. eauto.
      * intros (l & r & H & -> & He & Hl). destruct Hl as [|y l Hy Hl]; simplify_eq/=; [done|congruence].
    + split.
      * destruct (take_first p q) as [[e' q'']|] eqn:E; [|done]. intros [= <- <-].
        destruct (proj1 (IH q'')) as (l & r & -> & -> & He & Hl); [done|].
        exists (x :: l), r. split_and!; auto.
      * intros (l & r & H & -> & He & Hl). destruct Hl as [|y l Hy Hl]; simplify_eq/=; [congruence|].
        rewrite (proj2 (IH (l ++ r))); [done|]. eauto 10.
Qed.

Lemma take_first_None p q : take_first p q = None ↔ Forall (λ x, p x = false) q.
Proof.
  induction q as [|x q IH]; simpl; [done|]. rewrite Forall_cons, <-IH.
  destruct (p x); [naive_solver|]. destruct (take_first p q) as [[]|]; naive_solver.
Qed.

Lemma take_first_perm p q e q' : take_first p q = Some (e, q') → q ≡ₚ e :: q'.
Proof. intros (l & r & -> & -> & _)%take_first_Some. by rewrite Permutation_middle. Qed.

Lemma take_first_sublist p q e q' : take_first p q = Some (e, q') → q' `sublist_of` q.
Proof.
  intros (l & r & -> & -> & _)%take_first_Some. apply sublist_app; [done|]. by constructor.
Qed.

(** A request of [remove_loop]: a token and possibly an exact identity. *)
Definition answers (e : entry I) (ti : Token * option Z) : bool :=
  token_eq (e_token e) ti.1 && match ti.2 with None => true | Some _ => bool_decide (e_identity e = ti.2) end.

Lemma remove_loop_cons q ti rs :
  remove_loop q (ti :: rs) =
  match take_first (λ e, answers e ti) q with
  | Some (_, q') => remove_loop q' rs
  | None => Err TokenNotPresent
  end.
Proof. destruct ti as [t i]. unfold answers; simpl. by destruct (take_first _ q) as [[]|]. Qed.

Lemma remove_loop_spec q rs q' :
  remove_loop q rs = Ok q' →
  ∃ removed, Forall2 (λ e ti, answers e ti = true) removed rs ∧ q ≡ₚ removed ++ q' ∧ q' `sublist_of` q.
Proof.
  revert q. induction rs as [|ti rs IH]; intros q H.
  - injection H as <-. exists []. eauto.
  - rewrite remove_loop_cons in H.
    destruct (take_first _ q) as [[e q1]|] eqn:E; [|done].
    destruct (IH _ H) as (removed & Hf & Hp & Hs). exists (e :: removed). split_and!.
    + constructor; [|done]. by apply take_first_Some in E as (?&?&_&_&?&_).
    + rewrite (take_first_perm _ _ _ _ E). simpl. by rewrite Hp.
    + etrans; [exact Hs|]. by eapply take_first_sublist.
Qed.

Definition any_identity (ts : list Token) : list (Token * option Z) := (λ t, (t, None)) <$> ts.

Lemma remove_value q ts : remove q ts [] = remove_loop q (any_identity ts).
Proof. done. Qed.

Lemma answers_any e t : answers e (t, None) = true ↔ token_norm (e_token e) = token_norm t.
Proof. unfold answers; simpl. by rewrite andb_true_r, token_eq_norm. Qed.

(** Value removal succeeds exactly when the queue holds the tokens with their
    multiplicities. *)
Lemma remove_value_ok q ts :
  is_ok (remove q ts []) = true ↔ (token_norm <$> ts) ⊆+ (token_norm <$> tokens_of q).
Proof.
  rewrite remove_value. revert q. induction ts as [|t ts IH]; intros q.
  { split; [intros _; apply submseteq_nil_l|done]. }
  unfold any_identity; rewrite fmap_cons, remove_loop_cons; fold (any_identity ts). simpl.
  destruct (take_first _ q) as [[e q']|] eqn:E.
  - rewrite IH. pose proof (take_first_perm _ _ _ _ E) as Hp.
    apply take_first_Some in E as (_ & _ & _ & _ & He & _). apply answers_any in He.
    unfold tokens_of. rewrite (fmap_Permutation e_token _ _ Hp), fmap_cons. csimpl. rewrite He.
    symmetry. split; [apply (submseteq_app_inv_l _ _ [_])|apply submseteq_skip].
  - simpl. split; [done|]. intros Hs. apply take_first_None in E.
    assert (token_norm t ∈ token_norm <$> tokens_of q) as Hin.
    { eapply elem_of_submseteq; [|exact Hs]. set_solver. }
    unfold tokens_of in Hin. rewrite <-list_fmap_compose in Hin.
    apply list_elem_of_fmap in Hin as (e & Heq & Hin).
    rewrite Forall_forall in E. specialize (E _ Hin). exfalso.
    assert (answers e (t, None) = true) by by apply answers_any. congruence.
Qed.

(** Value selection and value removal draw the same entries, front-most first. *)
Fixpoint draw q (ts : list Token) : option (list (entry I) * TokenQueue I) :=
  match ts with
  | [] => Some ([], q)
  | t :: ts =>
      match take_first (λ e, token_eq (e_token e) t) q with
      | None => None
      | Some (e, q') =>
          match draw q' ts with
          | None => None
          | Some (es, q'') => Some (e :: es, q'')
          end
      end
  end.

Definition provenance_of (e : entry I) : option Z * option LifecycleScope := (e_identity e, e_scope e).

Lemma answers_value e t : answers e (t, None) = token_eq (e_token e) t.
Proof. unfold answers; simpl. by rewrite andb_true_r. Qed.

Lemma take_first_ext p p' q : (∀ e, p e = p' e) → take_first p q = take_first p' q.
Proof. intros H. induction q as [|e q IH]; simpl; [done|]. by rewrite H, IH. Qed.

Lemma remove_draw q ts :
  remove q ts [] = match draw q ts with Some (_, q') => Ok q' | None => Err TokenNotPresent end.
Proof.
  rewrite remove_value. revert q. induction ts as [|t ts IH]; intros q; [done|].
  unfold any_identity; rewrite fmap_cons, remove_loop_cons; fold (any_identity ts); simpl.
  rewrite (take_first_ext _ (λ e, token_eq (e_token e) t)) by (intros; apply answers_value).
  destruct (take_first _ q) as [[e q']|]; [|done]. rewrite IH. by destruct (draw q' ts) as [[]|].
Qed.

Lemma selected_draw q ts :
  selected q ts =
  match draw q ts with Some (es, _) => Ok (provenance_of <$> es) | None => Err TokenNotPresent end.
Proof.
  revert q. induction ts as [|t ts IH]; intros q; simpl; [done|].
  destruct (take_first _ q) as [[e q']|]; simpl; [|done]. rewrite IH.
  by destruct (draw q' ts) as [[]|].
Qed.

Lemma draw_spec q ts es q' :
  draw q ts = Some (es, q') →
  Forall2 (λ e t, token_norm (e_token e) = token_norm t) es ts ∧ q ≡ₚ es ++ q' ∧ q' `sublist_of` q.
Proof.
  revert q es. induction ts as [|t ts IH]; intros q es H; simpl in H; simplify_eq; [eauto|].
  destruct (take_first _ q) as [[e q1]|] eqn:E; [|done].
  destruct (draw q1 ts) as [[es' q2]|] eqn:D; simplify_eq.
  destruct (IH _ _ D) as (Hf & Hp & Hs). split_and!.
  - constructor; [|done]. apply take_first_Some in E as (?&?&_&_&He&_). by apply token_eq_norm.
  - rewrite (take_first_perm _ _ _ _ E). simpl. by rewrite Hp.
  - etrans; [exact Hs|]. by eapply take_first_sublist.
Qed.

(** Exact removal by the identities a selection reports is the value removal. *)
Lemma remove_loop_exact q ts es q' ids :
  draw q ts = Some (es, q') → e_identity <$> es = Some <$> ids →
  remove_loop q (zip ts (Some <$> ids)) = Ok q'.
Proof.
  revert q es ids. induction ts as [|t ts IH]; intros q es ids H Hids; simpl in H; simplify_eq; [done|].
  destruct (take_first _ q) as [[e q1]|] eqn:E; [|done].
  destruct (draw q1 ts) as [[es' q2]|] eqn:D; simplify_eq.
  destruct ids as [|i ids]; simpl in Hids; simplify_eq.
  simpl zip. rewrite remove_loop_cons.
  rewrite (proj2 (take_first_Some (λ e, answers e (t, Some i)) q e q1)); [eauto|].
  apply take_first_Some in E as (l & r & -> & -> & He & Hl). exists l, r. split_and!; try done.
  - unfold answers; simpl. rewrite He. by apply bool_decide_eq_true.
  - eapply Forall_impl; [exact Hl|]. intros x Hx. unfold answers; simpl. by rewrite Hx.
Qed.

Lemma draw_length q ts es q' : draw q ts = Some (es, q') → length es = length ts.
Proof. intros (Hf & _)%draw_spec. by eapply Forall2_length. Qed.

Lemma remove_exact q ts es q' ids :
  draw q ts = Some (es, q') → e_identity <$> es = Some <$> ids → remove q ts ids = Ok q'.
Proof.
  intros Hd Hids. destruct ids as [|i ids].
  - rewrite remove_draw, Hd. done.
  - unfold remove. rewrite raise_if_false; [by eapply remove_loop_exact|].
    apply (f_equal length) in Hids. rewrite !length_fmap in Hids.
    rewrite <-Hids, (draw_length _ _ _ _ Hd), Nat.eqb_refl. by rewrite andb_false_r.
Qed.

Lemma selected_exact q ts sel ids :
  selected q ts = Ok sel → sel.*1 = Some <$> ids → remove q ts ids = remove q ts [].
Proof.
  rewrite selected_draw, remove_draw. destruct (draw q ts) as [[es q']|] eqn:D; [|done].
  intros [= <-] Hids. eapply remove_exact; [done|]. rewrite <-Hids, <-list_fmap_compose. done.
Qed.

(** Discarding by identity keeps exactly the other entries, in order. *)
Definition survives (ids : list Z) (e : entry I) : Prop :=
  match e_identity e with Some i => i ∉ ids | None => True end.
#[global] Instance survives_dec ids e : Decision (survives ids e).
Proof. unfold survives. destruct (e_identity e); apply _. Defined.

Lemma discard_filter (q : list (entry I)) ids :
  NoDup (omap e_identity q) → NoDup ids → Forall (λ i, i ∈ omap e_identity q) ids →
  discard q ids = Ok (filter (survives ids) q).
Proof.
  revert q. induction ids as [|i ids IH]; intros q Hq Hids Hin.
  - change (Ok q = Ok (filter (survives []) q)). f_equal. symmetry. apply filter_all. intros e _.
    unfold survives. destruct (e_identity e); set_solver.
  - apply NoDup_cons in Hids as [Hi Hids]. apply Forall_cons in Hin as [Hin1 Hin].
    unfold discard in *. simpl.
    destruct (take_first _ q) as [[e q']|] eqn:E; simpl.
    2:{ apply take_first_None in E. apply list_elem_of_omap in Hin1 as (e & He & Hid).
        rewrite Forall_forall in E. specialize (E _ He). by rewrite Hid, bool_decide_true in E. }
    apply take_first_Some in E as (l & r & -> & -> & He & Hl).
    apply bool_decide_eq_true in He.
    rewrite omap_app in Hq. csimpl in *. rewrite He in Hq.
    apply NoDup_app in Hq as (Hql & Hd & Hqr). apply NoDup_cons in Hqr as [Hir Hqr].
    assert (i ∉ omap e_identity l) as Hil by (intros H; apply (Hd _ H); set_solver).
    rewrite IH; [| |done|].
    + apply (f_equal Ok). rewrite !filter_app, filter_cons_False by (unfold survives; rewrite He; set_solver).
      f_equal; apply filter_ext_in; intros x Hx; unfold survives;
        destruct (e_identity x) as [j|] eqn:Hj; [|done| |done];
        (assert (j ≠ i); [|set_solver]); intros ->.
      * apply Hil, list_elem_of_omap. eauto.
      * apply Hir, list_elem_of_omap. eauto.
    + rewrite omap_app. apply NoDup_app. split_and!; [done| |done]. set_solver.
    + rewrite Forall_forall in *. intros j Hj. specialize (Hin _ Hj).
      rewrite omap_app in *. csimpl in *. rewrite He in Hin. set_solver.
Qed.
End queue_laws.

(** Time-blind removal is the projection of queue removal. *)
Lemma take_first_map {I J} (f : entry I → entry J) p p' (q : TokenQueue I) :
  (∀ e, p' (f e) = p e) →
  take_first p' (f <$> q) = match take_first p q with Some (e, q') => Some (f e, f <$> q') | None => None end.
Proof.
  intros Hf. induction q as [|e q IH]; csimpl; [done|]. rewrite Hf, IH.
  destruct (p e); [done|]. by destruct (take_first p q) as [[]|].
Qed.

Definition blind {I} (e : entry I) : entry unit := MkEntry (e_token e) tt None None.

Lemma time_blind_tokens {I} (q : TokenQueue I) : time_blind (tokens_of q) = blind <$> q.
Proof. unfold time_blind, tokens_of. by rewrite <-list_fmap_compose. Qed.

Lemma draw_map {I J} (f : entry I → entry J) (q : TokenQueue I) ts :
  (∀ e, e_token (f e) = e_token e) →
  draw (f <$> q) ts = match draw q ts with Some (es, q') => Some (f <$> es, f <$> q') | None => None end.
Proof.
  intros Hf. revert q. induction ts as [|t ts IH]; intros q; csimpl; [done|].
  rewrite (take_first_map f (λ e, token_eq (e_token e) t)) by (intros; by rewrite Hf).
  destruct (take_first _ q) as [[e q']|]; [|done]. rewrite IH. by destruct (draw q' ts) as [[]|].
Qed.

Lemma remove_time_blind {I} (q : TokenQueue I) ts :
  remove (time_blind (tokens_of q)) ts [] = (λ q', time_blind (tokens_of q')) <$> remove q ts [].
Proof.
  rewrite !remove_draw, time_blind_tokens, draw_map by done.
  destruct (draw q ts) as [[es q']|]; simpl; [|done]. by rewrite time_blind_tokens.
Qed.

(** ** What removal does *)

(** Token lists up to Python equality of tokens. *)
Definition norms (ts : list Token) : list Token := token_norm <$> ts.

Lemma norms_app ts us : norms (ts ++ us) = norms ts ++ norms us.
Proof. apply fmap_app. Qed.

Lemma remove_tokens {I} (q : TokenQueue I) ts ids q' :
  remove q ts ids = Ok q' → norms (tokens_of q) ≡ₚ norms ts ++ norms (tokens_of q').
Proof.
  unfold remove. intros H. inv_ok. apply remove_loop_spec in H as (removed & Hf & Hp & _).
  unfold tokens_of, norms. rewrite Hp, !fmap_app. f_equiv.
  assert (length ids = length ts ∨ ids = []) as Hlen.
  { destruct ids; [by right|]. left. apply andb_false_iff in H0 as [H0|H0]; [done|].
    by apply negb_false_iff, Nat.eqb_eq in H0. }
  assert (Forall2 (λ e t, token_norm (e_token e) = token_norm t) removed ts) as Hf2.
  { destruct ids as [|i ids].
    - apply Forall2_fmap_r in Hf. eapply Forall2_impl; [exact Hf|]. intros e t. simpl. apply answers_any.
    - destruct Hlen as [Hlen|]; [|done]. revert Hf Hlen. generalize (i :: ids). clear. intros ids.
      revert ts ids. induction removed as [|e removed IH]; intros [|t ts] [|i ids] Hf Hlen; simplify_eq/=; try inversion Hf; [done|].
      subst. constructor; [|by eapply IH]. unfold answers in *. simpl in *.
      match goal with H : _ && _ = true |- _ => apply andb_true_iff in H as [H _]; by apply token_eq_norm end. }
  clear -Hf2. induction Hf2 as [|e t es ts Ht _ IH]; [done|]. csimpl. by rewrite Ht, IH.
Qed.

(** Value removal succeeds exactly when the queue holds the requested
    tokens with their multiplicities (Python equality); what is left is the rest
    of the queue in its order, and the removed and kept tokens are the original
    ones. *)
Theorem remove_by_value_exact {I} (q : TokenQueue I) ts :
  (is_ok (remove q ts []) = true ↔ norms ts ⊆+ norms (tokens_of q)) ∧
  (∀ q', remove q ts [] = Ok q' →
     q' `sublist_of` q ∧ norms (tokens_of q) ≡ₚ norms ts ++ norms (tokens_of q')).
Proof.
  split; [apply remove_value_ok|]. intros q' H. split; [|by eapply remove_tokens].
  rewrite remove_draw in H. destruct (draw q ts) as [[es q'']|] eqn:D; [|done]. injection H as <-.
  by apply draw_spec in D as (_ & _ & ?).
Qed.

(** The entries [selected] resolves for a value request are the ones
    value removal takes, and removing them by their identities leaves the same
    queue: scoped records that name identities and unscoped ones that do not
    replay alike. *)
Theorem selected_identities_remove_alike {I} (q : TokenQueue I) ts sel ids :
  selected q ts = Ok sel → sel.*1 = Some <$> ids →
  remove q ts ids = remove q ts [] ∧ is_ok (remove q ts ids) = true ∧ length sel = length ts.
Proof.
  intros Hs Hi. rewrite (selected_exact _ _ _ _ Hs Hi). split; [done|].
  rewrite selected_draw in Hs. rewrite remove_draw. destruct (draw q ts) as [[es q']|] eqn:D; [|done].
  injection Hs as <-. split; [done|]. rewrite length_fmap. by eapply draw_length.
Qed.

Lemma selected_identities_remove_alike_witness :
  let q := [MkEntry black 3%Z (Some 1%Z) None; MkEntry (MkToken None (DInt 2)) 4%Z (Some 2%Z) None] in
  remove q [MkToken None (DInt 2)] [2%Z] = remove q [MkToken None (DInt 2)] [].
Proof.
  intros q. apply (selected_identities_remove_alike q [MkToken None (DInt 2)] [(Some 2%Z, None)] [2%Z]);
    vm_compute; reflexivity.
Defined.

(** ** Markings *)

Lemma marking_new_place m p :
  NoDup (dkeys m) → marking_place (Marking_new m) p = marking_place m p.
Proof.
  intros Hm. unfold marking_place, Marking_new, dget_default. rewrite dget_filter by done.
  destruct (dget p m) as [q|]; [|done]. simpl. case_decide as Hq; [done|]. by rewrite Hq.
Qed.

Lemma consume_spec m p ts :
  NoDup (dkeys m) → norms ts ⊆+ norms (marking_place m p) →
  ∃ m', consume m p ts = Ok m' ∧ NoDup (dkeys m') ∧
        norms (marking_place m p) ≡ₚ norms ts ++ norms (marking_place m' p) ∧
        ∀ p', p' ≠ p → marking_place m' p' = marking_place m p'.
Proof.
  intros Hm Hs. unfold consume. set (q := time_blind (marking_place m p)).
  assert (tokens_of q = marking_place m p) as Hq.
  { unfold q, tokens_of, time_blind. rewrite <-list_fmap_compose. apply list_fmap_id. }
  assert (is_ok (remove q ts []) = true) as Hok by (apply remove_value_ok; by rewrite Hq).
  destruct (remove q ts []) as [r|e] eqn:Hr; [|done]. simpl. apply remove_tokens in Hr. rewrite Hq in Hr.
  set (m1 := match r with [] => ddel p m | _ => dset p (tokens_of r) m end).
  assert (NoDup (dkeys m1)) as Hm1 by (unfold m1; destruct r; auto with petrus).
  exists (Marking_new m1). split; [done|]. split; [by apply NoDup_dkeys_filter|]. split.
  - rewrite marking_new_place by done. rewrite Hr. unfold m1, marking_place, dget_default. destruct r.
    + rewrite dget_ddel, decide_True by done. done.
    + by rewrite dget_dset_eq.
  - intros p' Hne. rewrite marking_new_place by done. unfold m1, marking_place, dget_default. destruct r.
    + by rewrite dget_ddel_ne.
    + by rewrite dget_dset_ne.
Qed.
