(* ===== verification/Enabledness.v ===== *)
(** * Enabledness (src/src/petrus/impetus/petrinet/enabledness.py)

    Candidate computation: each input arc answers the marking with an offer,
    a transition's alternatives are the cross product of its selecting offers,
    guards and timers judge the assembled bindings. Filter and guard
    implementations are the caller's; an implementation that raises is [None].
    The diagnostics emitted for a raising implementation are not modelled. *)

From stdpp Require Import base gmap sets list strings.
From Stdlib Require Import ZArith Lia.
From S2P Require Import Prelude PyData Schema Marking.
Open Scope string_scope.
Open Scope list_scope.

(** ** Bindings *)

Definition Selection : Type := NetPath * list Token.

Record Binding := MkBinding {
  b_transition : NetPath;
  b_consumed : list Selection;
  b_read : list Selection;
  b_delivered : list Token
}.

#[export] Instance Binding_eq_dec : EqDecision Binding.
Proof. solve_decision. Defined.

(** [Binding.__post_init__] *)
Definition Binding_new (transition : NetPath) (consumed read : list Selection)
    (delivered : list Token) : result Binding :=
  raise_if (negb (bool_decide (delivered = []))
            && (negb (bool_decide (consumed = [])) || negb (bool_decide (read = []))))
    (ValueError "a delivered binding is a source firing and selects nothing");;
  Ok (MkBinding transition consumed read delivered).

Definition flatten_selections (s : list Selection) : list Token := mjoin s.*2.

(** [Binding.tokens] and [Binding.peeked] *)
Definition b_tokens (b : Binding) : list Token := flatten_selections (b_consumed b) ++ b_delivered b.
Definition b_peeked (b : Binding) : list Token := b_tokens b ++ flatten_selections (b_read b).

(** ** Implementations, keyed by occurrence identity or by declaration *)

Inductive FilterKey :=
| FilterByUri (u : NetUri)
| FilterByDeclaration (d : FilterDeclaration).

Inductive GuardKey :=
| GuardByUri (u : NetUri)
| GuardByDeclaration (d : GuardDeclaration).

#[export] Instance FilterKey_eq_dec : EqDecision FilterKey.
Proof. solve_decision. Defined.
#[export] Instance GuardKey_eq_dec : EqDecision GuardKey.
Proof. solve_decision. Defined.

Definition Filters := dict FilterKey (Token → option bool).
Definition Guards := dict GuardKey (Binding → option bool).

(** [mapping[identity] if identity in mapping else mapping[declaration]] *)
Definition implementation {K V} `{EqDecision K} (m : dict K V) (identity declaration : K) : result V :=
  match dget identity m with
  | Some v => Ok v
  | None => or_raise (dget declaration m) (KeyError "implementation")
  end.

(** [admitted] *)
Definition admitted (a : Arc) (t : Token) (filters : Filters) (filter_identity : option NetUri)
    : result bool :=
  if negb (admits a t) then Ok false
  else match arc_filter a with
       | None => Ok true
       | Some f =>
           let declaration := FilterByDeclaration f in
           let identity := match filter_identity with Some u => FilterByUri u | None => declaration end in
           impl ← implementation filters identity declaration;
           Ok (match impl t with Some b => b | None => false end)
       end.

(** [guards_hold] *)
Fixpoint guards_hold_from (position : nat) (declarations : list GuardDeclaration) (b : Binding)
    (guards : Guards) (ids : list NetUri) : result bool :=
  match declarations with
  | [] => Ok true
  | declaration :: declarations =>
      identity ← (match ids with
                  | [] => Ok (GuardByDeclaration declaration)
                  | _ => u ← or_raise (ids !! position) (IndexError "identities"); Ok (GuardByUri u)
                  end);
      guard ← implementation guards identity (GuardByDeclaration declaration);
      match guard b with
      | Some true => guards_hold_from (S position) declarations b guards ids
      | _ => Ok false
      end
  end.

Definition guards_hold (t : Transition) (b : Binding) (gs : Guards) (ids : list NetUri) : result bool :=
  guards_hold_from 0 (guards t) b gs ids.

(** ** Offers *)

Record Alternative := MkAlternative { alt_selection : Selection; alt_anchors : list Instant }.

Inductive Offer :=
| Veto
| Satisfied
| Alternatives (a : Arc) (alternatives : list Alternative).

Definition pick {A} (l : list A) (positions : list nat) : list A := omap (λ p, l !! p) positions.

(** [offer] *)
Definition offer (a : Arc) (m : Marking) (filters : Filters)
    (anchors : option (dict NetPath (list Instant))) (filter_identity : option NetUri) : result Offer :=
  let queue := marking_place m (arc_source a) in
  let accepts := λ t, admitted a t filters filter_identity in
  if is_inhibit a then
    positions ← admitted_by (time_blind queue) accepts (Some (arc_weight a));
    Ok (if (arc_weight a <=? Z.of_nat (length positions))%Z then Veto else Satisfied)
  else
    positions ← admitted_by (time_blind queue) accepts None;
    if (Z.of_nat (length positions) <? arc_weight a)%Z then Ok Veto
    else
      let instants := (λ d, dget_default (arc_source a) [] d) <$> anchors in
      (match instants with
       | None => Ok tt
       | Some is_ =>
           last_position ← or_raise (last positions) (IndexError "positions[-1]");
           raise_if (length is_ <=? last_position)%nat
             (ValueError "entry instants are missing or misaligned")
       end);;
      Ok (Alternatives a
            ((λ combination,
                MkAlternative (arc_source a, pick queue combination)
                  (match instants with None => [] | Some is_ => pick is_ combination end))
               <$> combinations positions (Z.to_nat (arc_weight a)))).

(** ** Timers *)

(** [maturation] *)
Definition timer_instant (anchor : option Instant) (t : Timer) : result Instant :=
  match t with
  | Delay d => a ← or_raise anchor (TypeError "anchor + duration"); Ok (a + d)%Z
  | Until i => Ok i
  end.

Definition maturation (ts : list Timer) (anchor : option Instant) : result (option Instant) :=
  is_ ← mapR (timer_instant anchor) ts; Ok (max_opt is_).

(** ** Candidates *)

(** The offers of one transition's input arcs; [None] once an arc vetoes. *)
Fixpoint collect_offers (n : Net) (m : Marking) (filters : Filters)
    (anchors : option (dict NetPath (list Instant))) (ins : list (Arc * nat))
    : result (option (list (Arc * list Alternative))) :=
  match ins with
  | [] => Ok (Some [])
  | (a, position) :: ins =>
      filter_identity ← or_raise (filter_uris n !! position) (IndexError "filter_uris");
      answer ← offer a m filters anchors filter_identity;
      match answer with
      | Veto => Ok None
      | Satisfied => collect_offers n m filters anchors ins
      | Alternatives a alts =>
          rest ← collect_offers n m filters anchors ins;
          Ok (option_map (cons (a, alts)) rest)
      end
  end.

(** The binding assembled from one choice of alternatives, and its anchors. *)
Definition assemble (path : NetPath) (offers : list (Arc * list Alternative))
    (choice : list Alternative) : Binding * list Instant :=
  let pairs := zip offers choice in
  (MkBinding path
     (alt_selection ∘ snd <$> filter (λ oa, is_consume oa.1.1) pairs)
     (alt_selection ∘ snd <$> filter (λ oa, ¬ is_consume oa.1.1) pairs) [],
   mjoin (alt_anchors <$> choice)).

Definition Survey : Type := list Binding * list Instant.

(** Guards then timers judge one assembled binding. *)
Definition judge (n : Net) (t : Transition) (path : NetPath) (gs : Guards)
    (watermark : option Instant) (s : Survey) (ba : Binding * list Instant) : result Survey :=
  let '(b, anchors) := ba in
  ok ← guards_hold t b gs (guard_uris n path);
  if negb ok then Ok s
  else
    mature ← maturation (timers t) (max_opt anchors);
    match mature with
    | None => Ok (s.1 ++ [b], s.2)
    | Some i =>
        w ← or_raise watermark (TypeError "mature <= watermark");
        Ok (if (i <=? w)%Z then (s.1 ++ [b], s.2) else (s.1, s.2 ++ [i]))
    end.

Definition survey_transition (n : Net) (m : Marking) (gs : Guards) (filters : Filters)
    (watermark : option Instant) (entry_instants : dict NetPath (list Instant))
    (s : Survey) (path : NetPath) : result Survey :=
  if is_source n path then Ok s
  else
    t ← or_raise (dget path (transitions n)) (KeyError "transition");
    let anchored := existsb is_delay (timers t) in
    offers ← collect_offers n m filters (if anchored then Some entry_instants else None)
               (zip (inputs n path) (input_positions n path));
    match offers with
    | None => Ok s
    | Some offers =>
        foldM (judge n t path gs watermark) s (assemble path offers <$> product offers.*2)
    end.

(** [_survey] *)
Definition survey (n : Net) (m : Marking) (gs : Guards) (filters : Filters)
    (watermark : option Instant) (entry_instants : dict NetPath (list Instant)) : result Survey :=
  raise_if (bool_decide (watermark = None)
            && existsb (λ pt, negb (bool_decide (timers pt.2 = [])) && negb (is_source n pt.1)) (transitions n))
    (ValueError "candidate computation over a timed net requires the clock");;
  foldM (survey_transition n m gs filters watermark entry_instants) ([], [])
    (sorted_by path_leb (dkeys (transitions n))).

(** [candidates] *)
Definition candidates n m gs filters watermark entry_instants : result (list Binding) :=
  s ← survey n m gs filters watermark entry_instants; Ok s.1.

(** [next_maturation] *)
Definition next_maturation n m gs filters watermark entry_instants : result (option Instant) :=
  s ← survey n m gs filters watermark entry_instants; Ok (min_opt s.2).

(** [selection]: the head selection of one arc. *)
Definition selection (a : Arc) (queue : list Token) (filters : Filters) : result (list Token) :=
  positions ← admitted_by (time_blind queue) (λ t, admitted a t filters None) (Some (arc_weight a));
  Ok (pick queue positions).
