(* ===== verification/Firing.v ===== *)
(** * Firing movements and routing
      (src/src/petrus/impetus/petrinet/firing.py, .../petrinet/routing.py,
       passthrough of src/src/petrus/impetus/binding/__init__.py)

    The history-independent halves of a firing: the begin transform consumes
    the binding's selections and validates its reads, the completion transform
    deposits the projected tokens its output arcs admit. *)

From stdpp Require Import base gmap sets list strings.
From Stdlib Require Import ZArith Lia.
From S2P Require Import Prelude PyData Schema Marking Enabledness.
Open Scope string_scope.
Open Scope list_scope.

Inductive BeginEffect :=
| ConsumedTokens (place : NetPath) (tokens : list Token)
| ReadTokens (place : NetPath) (tokens : list Token).

Record ProducedTokens := MkProduced { produced_place : NetPath; produced_tokens : list Token }.

(** The two loops of [begin_firing]. *)
Definition begin_consume (m : Marking) (s : Selection) : result Marking := consume m s.1 s.2.

Definition begin_read (m : Marking) (s : Selection) : result unit :=
  rewrap_not_present (remove (time_blind (marking_place m s.1)) s.2 [])
    (ValueError "cannot read: token not present");;
  Ok tt.

(** [begin_firing] *)
Definition begin_firing (m : Marking) (b : Binding) : result (list BeginEffect * Marking) :=
  m' ← foldM begin_consume m (b_consumed b);
  forM_ (begin_read m') (b_read b);;
  Ok (((λ s, ConsumedTokens s.1 s.2) <$> b_consumed b)
      ++ ((λ s, ReadTokens s.1 s.2) <$> b_read b), m').

(** Output tokens as a handler keys them: by path or by its spelling. *)
Definition Projected := list (path_arg * list Token).

(** Aliases of one destination are concatenated at its first position. *)
Definition coalesce (emitted : dict NetPath (list Token)) (d : path_arg * list Token)
    : result (dict NetPath (list Token)) :=
  place ← canonical_net_path d.1;
  Ok (dset place (dget_default place [] emitted ++ d.2) emitted).

(** The tokens some output arc routes to this place. *)
Definition routed_to (outs : list Arc) (place : NetPath) (t : Token) : bool :=
  existsb (λ a, bool_decide (arc_target a = place) && admits a t) outs.

Definition complete_place (outs : list Arc) (s : list ProducedTokens * Marking)
    (pt : NetPath * list Token) : list ProducedTokens * Marking :=
  let '(place, tokens) := pt in
  match filter (λ t, routed_to outs place t) tokens with
  | [] => s
  | deposited =>
      (s.1 ++ [MkProduced place deposited],
       foldl (λ m t, marking_deposit m place t) s.2 deposited)
  end.

(** [complete_firing] *)
Definition complete_firing (n : Net) (m : Marking) (transition : NetPath) (projected : Projected)
    : result (list ProducedTokens * Marking) :=
  emitted ← foldM coalesce [] projected;
  Ok (foldl (complete_place (outputs n transition)) ([], m) emitted).

(** [route] *)
Definition route_arc (tokens : list Token) (routed : dict NetPath (list Token)) (a : Arc)
    : dict NetPath (list Token) :=
  match filter (λ t, admits a t) tokens with
  | [] => routed
  | adm => dset (arc_target a) (dget_default (arc_target a) [] routed ++ adm) routed
  end.

Definition route (tokens : list Token) (outs : list Arc) : dict NetPath (list Token) :=
  foldl (route_arc tokens) [] outs.

(** [passthrough] *)
Definition passthrough (b : Binding) (outs : list Arc) : dict NetPath (list Token) :=
  route (b_tokens b) outs.

Definition projected_of (d : dict NetPath (list Token)) : Projected :=
  (λ pt, (APath pt.1, pt.2)) <$> d.
