(* ===== verification/EnablednessTheorems.v ===== *)
(** * Enabledness

    The candidate survey against the arcs it reads, the firing it enables and
    the clock it waits for. *)

From stdpp Require Import base gmap sets list strings pretty sorting.
From Stdlib Require Import Ascii ZArith Lia.
From S2P Require Import Prelude PyData Schema NetTheorems Marking Enabledness Firing.
Open Scope string_scope.
Open Scope list_scope.

(** ** The survey as a function of the clock *)

(** What the survey finds, before the clock judges it: a binding and the
    instant it matures at. *)
Definition Finding : Type := Binding * option Instant.

Definition ready (w : Instant) (f : Finding) : Prop :=
  match f.2 with None => True | Some i => (i ≤ w)%Z end.
#[export] Instance ready_dec w f : Decision (ready w f).
Proof. unfold ready. destruct (f.2); apply _. Defined.

Definition reported_at (w : Instant) (s : Survey) (fs : list Finding) : Survey :=
  (s.1 ++ (fst <$> filter (ready w) fs), s.2 ++ omap snd (filter (λ f, ¬ ready w f) fs)).

Lemma reported_nil w s : reported_at w s [] = s.
Proof. unfold reported_at. rewrite !filter_nil. simpl. rewrite !app_nil_r. by destruct s. Qed.

Lemma reported_app w s fs gs : reported_at w s (fs ++ gs) = reported_at w (reported_at w s fs) gs.
Proof. unfold reported_at. simpl. rewrite !filter_app, fmap_app, omap_app, !(assoc_L (++)). done. Qed.

Lemma reported_single w s b mature :
  reported_at w s [(b, mature)] =
  match mature with
  | None => (s.1 ++ [b], s.2)
  | Some i => if (i <=? w)%Z then (s.1 ++ [b], s.2) else (s.1, s.2 ++ [i])
  end.
Proof.
  unfold reported_at. rewrite !filter_cons, !filter_nil. destruct mature as [i|].
  - destruct (Z.leb_spec i w).
    + rewrite (decide_True (P := ready w (b, Some i))) by done.
      rewrite (decide_False (P := ¬ ready w (b, Some i))) by (unfold ready; simpl; tauto). simpl. by rewrite app_nil_r.
    + rewrite (decide_False (P := ready w (b, Some i))) by (unfold ready; simpl; lia).
      rewrite (decide_True (P := ¬ ready w (b, Some i))) by (unfold ready; simpl; lia). simpl. by rewrite app_nil_r.
  - rewrite (decide_True (P := ready w (b, None))) by done.
    rewrite (decide_False (P := ¬ ready w (b, None))) by (unfold ready; simpl; tauto). simpl. by rewrite app_nil_r.
Qed.

Section survey.
  Context (n : Net) (m : Marking) (gs : Guards) (filters : Filters) (ei : dict NetPath (list Instant)).

(** The findings of one transition. *)
Definition found (t : Transition) (path : NetPath) (ba : Binding * list Instant) (f : Finding) : Prop :=
  f.1 = ba.1 ∧ guards_hold t ba.1 gs (guard_uris n path) = Ok true ∧
  maturation (timers t) (max_opt ba.2) = Ok f.2.

Lemma judge_findings t path w s ba s' :
  judge n t path gs (Some w) s ba = Ok s' →
  ∃ fs, (∀ w' s0, judge n t path gs (Some w') s0 ba = Ok (reported_at w' s0 fs)) ∧
        (∀ f, f ∈ fs ↔ found t path ba f).
Proof.
  destruct ba as [b anchors]. unfold judge, found. simpl. intros H. apply bind_Ok in H as ([] & -> & H); simpl in *.
  - apply bind_Ok in H as (mature & -> & H). exists [(b, mature)]. split.
    + intros w' s0. simpl. rewrite reported_single. by destruct mature.
    + intros [b' i']. rewrite list_elem_of_singleton. simpl. split; [by intros [= -> ->]|]. by intros (-> & _ & [= ->]).
  - exists []. split; [intros; by rewrite reported_nil|]. intros f. split; [by intros ?%elem_of_nil|]. by intros (_ & ? & _).
Qed.

Lemma judges_findings t path w s bas s' :
  foldM (judge n t path gs (Some w)) s bas = Ok s' →
  ∃ fs, (∀ w' s0, foldM (judge n t path gs (Some w')) s0 bas = Ok (reported_at w' s0 fs)) ∧
        (∀ f, f ∈ fs ↔ ∃ ba, ba ∈ bas ∧ found t path ba f).
Proof.
  revert s. induction bas as [|ba bas IH]; intros s H; cbn [foldM] in *.
  { exists []. split; [intros; by rewrite reported_nil|]. intros f. split; [by intros ?%elem_of_nil|].
    by intros (ba & ?%elem_of_nil & _). }
  apply bind_Ok in H as (s1 & H1 & H). apply judge_findings in H1 as (fs1 & J1 & M1).
  destruct (IH _ H) as (fs2 & J2 & M2). exists (fs1 ++ fs2). split.
  - intros w' s0. rewrite J1. cbn [mbind result_bind]. by rewrite J2, reported_app.
  - intros f. rewrite elem_of_app, M1, M2. split.
    + intros [Hf|(ba' & Hin & Hf)]; [exists ba|exists ba']; (split; [set_solver|done]).
    + intros (ba' & [->|Hin]%elem_of_cons & Hf); [by left|]. right. eauto.
Qed.

(** The alternatives of one transition, or none. *)
Definition transition_choices (path : NetPath) (t : Transition) (bas : list (Binding * list Instant)) : Prop :=
  ∃ offers, collect_offers n m filters (if existsb is_delay (timers t) then Some ei else None)
              (zip (inputs n path) (input_positions n path)) = Ok offers ∧
            bas = match offers with None => [] | Some os => assemble path os <$> product os.*2 end.

(** A finding of the survey at one transition. *)
Definition found_at (path : NetPath) (f : Finding) : Prop :=
  is_source n path = false ∧
  ∃ t bas ba, dget path (transitions n) = Some t ∧ transition_choices path t bas ∧ ba ∈ bas ∧ found t path ba f.

Lemma transition_findings w s path s' :
  survey_transition n m gs filters (Some w) ei s path = Ok s' →
  ∃ fs, (∀ w' s0, survey_transition n m gs filters (Some w') ei s0 path = Ok (reported_at w' s0 fs)) ∧
        (∀ f, f ∈ fs ↔ found_at path f).
Proof.
  unfold survey_transition, found_at. intros H. destruct (is_source n path) eqn:Hs.
  { exists []. split; [intros; by rewrite reported_nil|]. intros f. split; [by intros ?%elem_of_nil|by intros [? _]]. }
  apply bind_Ok in H as (t & Ht & H). rewrite Ht. apply or_raise_Ok in Ht. apply bind_Ok in H as (offers & Ho & H).
  cbv zeta. destruct offers as [os|].
  - apply judges_findings in H as (fs & J & M). exists fs. split.
    + intros w' s0. cbn [mbind result_bind]. rewrite Ho. cbn [mbind result_bind]. apply J.
    + intros f. rewrite M. split.
      * intros (ba & Hin & Hf). split; [done|]. exists t, (assemble path os <$> product os.*2), ba.
        split; [done|]. split; [|done]. by exists (Some os).
      * intros (_ & t' & bas & ba & Ht' & (offers & Ho' & ->) & Hin & Hf). rewrite Ht in Ht'. injection Ht' as <-.
        rewrite Ho in Ho'. injection Ho' as <-. eauto.
  - exists []. split.
    + intros w' s0. cbn [mbind result_bind]. rewrite Ho. cbn [mbind result_bind]. by rewrite reported_nil.
    + intros f. split; [by intros ?%elem_of_nil|]. intros (_ & t' & bas & ba & Ht' & (offers & Ho' & ->) & Hin & _).
      rewrite Ht in Ht'. injection Ht' as <-. rewrite Ho in Ho'. injection Ho' as <-. by apply elem_of_nil in Hin.
Qed.

Lemma transitions_findings w s paths s' :
  foldM (survey_transition n m gs filters (Some w) ei) s paths = Ok s' →
  ∃ fs, (∀ w' s0, foldM (survey_transition n m gs filters (Some w') ei) s0 paths = Ok (reported_at w' s0 fs)) ∧
        (∀ f, f ∈ fs ↔ ∃ path, path ∈ paths ∧ found_at path f).
Proof.
  revert s. induction paths as [|path paths IH]; intros s H; cbn [foldM] in *.
  { exists []. split; [intros; by rewrite reported_nil|]. intros f. split; [by intros ?%elem_of_nil|].
    by intros (p & ?%elem_of_nil & _). }
  apply bind_Ok in H as (s1 & H1 & H). apply transition_findings in H1 as (fs1 & J1 & M1).
  destruct (IH _ H) as (fs2 & J2 & M2). exists (fs1 ++ fs2). split.
  - intros w' s0. rewrite J1. cbn [mbind result_bind]. by rewrite J2, reported_app.
  - intros f. rewrite elem_of_app, M1, M2. split.
    + intros [Hf|(p & Hin & Hf)]; [exists path|exists p]; (split; [set_solver|done]).
    + intros (p & [->|Hin]%elem_of_cons & Hf); [by left|]. right. eauto.
Qed.

(** The survey at any clock reports the same findings. *)
Lemma survey_findings w s :
  survey n m gs filters (Some w) ei = Ok s →
  ∃ fs, (∀ w', survey n m gs filters (Some w') ei = Ok (reported_at w' ([], []) fs)) ∧
        (∀ f, f ∈ fs ↔ ∃ path, path ∈ dkeys (transitions n) ∧ found_at path f).
Proof.
  unfold survey. simpl. intros H. apply transitions_findings in H as (fs & J & M). exists fs. split; [intros; apply J|].
  intros f. rewrite M. by setoid_rewrite sorted_by_perm.
Qed.
End survey.

(** ** The clock *)

Lemma filter_ready_mono w w' (fs : list Finding) :
  (w ≤ w')%Z → filter (ready w) fs `sublist_of` filter (ready w') fs.
Proof.
  intros Hw. induction fs as [|f fs IH]; [done|]. rewrite !filter_cons.
  assert (ready w f → ready w' f) as Hr by (unfold ready; destruct (f.2); [lia|done]).
  destruct (decide (ready w f)).
  - rewrite decide_True by auto. by constructor.
  - case_decide; [by constructor|done].
Qed.

Lemma pending_nil w (fs : list Finding) :
  omap snd (filter (λ f, ¬ ready w f) fs) = [] → ∀ w', (w ≤ w')%Z → filter (ready w') fs = filter (ready w) fs.
Proof.
  intros Hp w' Hw. apply filter_ext_in. intros [b [i|]] Hin; [|done]. unfold ready. simpl. split; [|lia].
  intros _. apply dec_stable. intros Hn.
  assert (i ∈ omap snd (filter (λ f, ¬ ready w f) fs)) as Hi; [|rewrite Hp in Hi; by apply elem_of_nil in Hi].
  apply list_elem_of_omap. exists (b, Some i). split; [|done]. by apply list_elem_of_filter.
Qed.

Lemma elem_of_pending w (fs : list Finding) i :
  i ∈ omap snd (filter (λ f : Finding, ¬ ready w f) fs) ↔ (∃ b, (b, Some i) ∈ fs) ∧ (w < i)%Z.
Proof.
  rewrite list_elem_of_omap. split.
  - intros ([b [j|]] & [Hr Hin]%list_elem_of_filter & Heq); simplify_eq/=. unfold ready in Hr. simpl in Hr.
    split; [eauto|lia].
  - intros [[b Hin] Hlt]. exists (b, Some i). split; [|done]. apply list_elem_of_filter. split; [|done].
    unfold ready. simpl. lia.
Qed.

Lemma filter_length_lt {A} (P Q : A → Prop) `{∀ x, Decision (P x), ∀ x, Decision (Q x)} (k : list A) x :
  (∀ y, P y → Q y) → x ∈ k → ¬ P x → Q x → (length (filter P k) < length (filter Q k))%nat.
Proof.
  intros HPQ. induction k as [|y k IH]; intros Hin Hp Hq; [by apply elem_of_nil in Hin|].
  assert (length (filter P k) ≤ length (filter Q k))%nat as Hle.
  { clear -HPQ. induction k as [|z k IH]; [done|]. rewrite !filter_cons. specialize (HPQ z).
    destruct (decide (P z)); [rewrite decide_True by auto; simpl; lia|]. case_decide; simpl; lia. }
  rewrite !filter_cons. apply elem_of_cons in Hin as [<-|Hin].
  - rewrite decide_False, decide_True by done. simpl. lia.
  - specialize (IH Hin Hp Hq). specialize (HPQ y).
    destruct (decide (P y)); [rewrite decide_True by auto; simpl; lia|]. case_decide; simpl; lia.
Qed.

(** Without a pending maturation the clock changes nothing. *)
Lemma no_maturation n m gs fs ei w bs :
  candidates n m gs fs (Some w) ei = Ok bs → next_maturation n m gs fs (Some w) ei = Ok None →
  ∀ w', (w ≤ w')%Z → candidates n m gs fs (Some w') ei = Ok bs.
Proof.
  unfold candidates, next_maturation. intros H. apply bind_Ok in H as (s & Hs & [= <-]).
  apply survey_findings in Hs as Hf. destruct Hf as (found & J & _). rewrite J in Hs. injection Hs as <-.
  setoid_rewrite J. simpl. intros [= Hp] w' Hw. apply min_opt_None in Hp. by rewrite (pending_nil w).
Qed.

(** The pending maturation is the first instant at which a candidate appears. *)
Lemma first_maturation n m gs fs ei w bs i :
  candidates n m gs fs (Some w) ei = Ok bs → next_maturation n m gs fs (Some w) ei = Ok (Some i) →
  (w < i)%Z ∧ (∀ w', (w ≤ w' < i)%Z → candidates n m gs fs (Some w') ei = Ok bs) ∧
  ∀ w', (i ≤ w')%Z → ∃ bs', candidates n m gs fs (Some w') ei = Ok bs' ∧ (length bs < length bs')%nat.
Proof.
  unfold candidates, next_maturation. intros H. apply bind_Ok in H as (s & Hs & [= <-]).
  apply survey_findings in Hs as Hf. destruct Hf as (found & J & _). rewrite J in Hs. injection Hs as <-.
  setoid_rewrite J. simpl. intros [= Hp]. apply min_opt_Some in Hp as [Hin Hall]. rewrite Forall_forall in Hall.
  apply elem_of_pending in Hin as [[b Hin] Hlt]. split; [done|]. split.
  - intros w' [Hw Hw']. do 2 f_equal. apply filter_ext_in. intros [b' [j|]] Hj; [|done]. unfold ready. simpl.
    split; [|lia]. intros Hle. apply dec_stable. intros Hn. assert (i ≤ j)%Z; [|lia]. apply Hall.
    apply elem_of_pending. split; [eauto|lia].
  - intros w' Hw'. eexists. split; [done|]. rewrite !length_fmap. apply (filter_length_lt _ _ _ (b, Some i)).
    + intros [b' [j|]]; unfold ready; simpl; [lia|done].
    + done.
    + unfold ready. simpl. lia.
    + unfold ready. simpl. lia.
Qed.

(** C37: advancing the clock only adds candidates; with no pending
    maturation it adds none ever; a pending maturation lies in the future, no
    candidate appears before it and at least one appears at it. *)
Theorem next_maturation_is_exact n m gs fs ei w bs :
  candidates n m gs fs (Some w) ei = Ok bs →
  (∀ w', (w ≤ w')%Z → ∃ bs', candidates n m gs fs (Some w') ei = Ok bs' ∧ bs `sublist_of` bs') ∧
  (next_maturation n m gs fs (Some w) ei = Ok None →
     ∀ w', (w ≤ w')%Z → candidates n m gs fs (Some w') ei = Ok bs) ∧
  (∀ i, next_maturation n m gs fs (Some w) ei = Ok (Some i) →
     (w < i)%Z ∧ (∀ w', (w ≤ w' < i)%Z → candidates n m gs fs (Some w') ei = Ok bs) ∧
     ∀ w', (i ≤ w')%Z → ∃ bs', candidates n m gs fs (Some w') ei = Ok bs' ∧ (length bs < length bs')%nat).
Proof.
  intros Hc. split; [|split; [by apply no_maturation|intros i; by apply first_maturation]].
  unfold candidates in *. apply bind_Ok in Hc as (s & Hs & [= <-]).
  apply survey_findings in Hs as Hf. destruct Hf as (found & J & _). rewrite J in Hs. injection Hs as <-.
  setoid_rewrite J. intros w' Hw. eexists. split; [done|]. apply fmap_sublist. by apply filter_ready_mono.
Qed.

Definition timed_net : Net :=
  match Net_init [MkPlace ["p"] None; MkPlace ["q"] None] [MkTransition ["t"] None [] [Delay 10]]
          [MkArc ["p"] ["t"] CONSUME 1 None None; MkArc ["t"] ["q"] CONSUME 1 None None] None None with
  | Ok n => n
  | Err _ => MkNet [] [] [] None None [] [] [] [] [] [] [] [] [] []
  end.

Lemma next_maturation_is_exact_witness :
  candidates timed_net [(["p"], [black])] [] [] (Some 5%Z) [(["p"], [0%Z])] = Ok [] ∧
  next_maturation timed_net [(["p"], [black])] [] [] (Some 5%Z) [(["p"], [0%Z])] = Ok (Some 10%Z) ∧
  ∃ bs', candidates timed_net [(["p"], [black])] [] [] (Some 10%Z) [(["p"], [0%Z])] = Ok bs' ∧ (0 < length bs')%nat.
Proof.
  assert (candidates timed_net [(["p"], [black])] [] [] (Some 5%Z) [(["p"], [0%Z])] = Ok []) as Hc
    by (vm_compute; reflexivity).
  assert (next_maturation timed_net [(["p"], [black])] [] [] (Some 5%Z) [(["p"], [0%Z])] = Ok (Some 10%Z)) as Hm
    by (vm_compute; reflexivity).
  split; [exact Hc|]. split; [exact Hm|].
  destruct (next_maturation_is_exact timed_net [(["p"], [black])] [] [] [(["p"], [0%Z])] 5%Z [] Hc) as (_ & _ & H).
  destruct (H 10%Z Hm) as (_ & _ & H'). exact (H' 10%Z (Z.le_refl 10)).
Defined.

(** ** What an arc offers *)

Section scan.
  Context {I : Type}.

Lemma scan_spec accepts limit k acc (q : TokenQueue I) ps :
  scan accepts limit k acc q = Ok ps →
  ∃ new, ps = acc ++ new ∧ new `sublist_of` seq k (length q) ∧
         ∀ p, p ∈ new → ∃ e, q !! (p - k)%nat = Some e ∧ accepts (e_token e) = Ok true.
Proof.
  revert k acc. induction q as [|e q IH]; intros k acc H; simpl in H.
  { injection H as <-. exists []. rewrite app_nil_r. split; [done|]. split; [done|]. intros p Hp. by apply elem_of_nil in Hp. }
  assert (∀ acc', scan accepts limit (S k) acc' q = Ok ps → ∃ new, ps = acc' ++ new ∧ new `sublist_of` seq (S k) (length q) ∧
      ∀ p, p ∈ new → ∃ e', (e :: q) !! (p - k)%nat = Some e' ∧ accepts (e_token e') = Ok true) as Hrest.
  { intros acc' H'. destruct (IH _ _ H') as (new & -> & Hsub & Hin). exists new. split; [done|]. split; [done|].
    intros p Hp. destruct (Hin p Hp) as (e' & He' & Ha). exists e'. split; [|done].
    assert (S k ≤ p)%nat as Hle. { eapply sublist_submseteq, (elem_of_submseteq _ _ p) in Hsub; [|done]. apply elem_of_seq in Hsub. lia. }
    replace (p - k)%nat with (S (p - S k)) by lia. done. }
  apply bind_Ok in H as ([] & Ha & H).
  - assert (∀ new, new `sublist_of` seq (S k) (length q) →
      (∀ p, p ∈ new → ∃ e', (e :: q) !! (p - k)%nat = Some e' ∧ accepts (e_token e') = Ok true) →
      ∃ new0, acc ++ [k] ++ new = acc ++ new0 ∧ new0 `sublist_of` seq k (length (e :: q)) ∧
         ∀ p, p ∈ new0 → ∃ e', (e :: q) !! (p - k)%nat = Some e' ∧ accepts (e_token e') = Ok true) as Hcons.
    { intros new Hs Hin. exists (k :: new). split; [done|]. split; [simpl; by constructor|].
      intros p [->|Hp]%elem_of_cons; [|by apply Hin]. exists e. by rewrite Nat.sub_diag. }
    case_bool_decide.
    + injection H as <-. destruct (Hcons []) as (new0 & H1 & H2 & H3); [apply sublist_nil_l|by intros p ?%elem_of_nil|].
      exists new0. rewrite app_nil_r in H1. done.
    + apply Hrest in H as (new & -> & Hs & Hin). rewrite <-(assoc_L (++)). by apply Hcons.
  - apply Hrest in H as (new & -> & Hs & Hin). exists new. split; [done|]. split; [by constructor|done].
Qed.

Lemma scan_unlimited accepts w k acc (q : TokenQueue I) ps :
  scan accepts (Some w) k acc q = Ok ps → (Z.of_nat (length ps) < w)%Z → scan accepts None k acc q = Ok ps.
Proof.
  revert k acc. induction q as [|e q IH]; intros k acc H Hlen; simpl in *; [done|].
  apply bind_Ok in H as ([] & -> & H); simpl; [|by apply IH]. case_bool_decide as Hb.
  - injection H as <-. injection Hb as Hb. lia.
  - by apply IH.
Qed.

Lemma pick_sublist {A} (q : list A) k c :
  c `sublist_of` seq k (length q) →
  omap (λ p, q !! (p - k)%nat) c `sublist_of` q ∧ length (omap (λ p, q !! (p - k)%nat) c) = length c.
Proof.
  revert k c. induction q as [|x q IH]; intros k c Hs; simpl in Hs.
  { apply sublist_nil_r in Hs as ->. done. }
  assert (∀ c', c' `sublist_of` seq (S k) (length q) →
     omap (λ p, (x :: q) !! (p - k)%nat) c' = omap (λ p, q !! (p - S k)%nat) c') as Hshift.
  { intros c' Hc'. assert (∀ p, p ∈ c' → (S k ≤ p)%nat) as Hle.
    { intros p Hp. eapply sublist_submseteq, (elem_of_submseteq _ _ p) in Hc'; [|done]. apply elem_of_seq in Hc'. lia. }
    clear Hc'. induction c' as [|p c' IHc]; [done|]. csimpl.
    replace (p - k)%nat with (S (p - S k)) by (specialize (Hle p ltac:(set_solver)); lia). simpl.
    rewrite IHc by set_solver. done. }
  apply sublist_cons_r in Hs as [Hs|(c' & -> & Hs)].
  - rewrite Hshift by done. destruct (IH _ _ Hs) as [H1 H2]. split; [by constructor|done].
  - csimpl. rewrite Nat.sub_diag. simpl. rewrite Hshift by done. destruct (IH _ _ Hs) as [H1 H2].
    split; [by constructor|by rewrite H2].
Qed.
End scan.

(** A selection an arc may make: tokens of its place in queue order, as many as
    its weight, each admitted by color and filter. *)
Definition selection_ok (m : Marking) (fs : Filters) (a : Arc) (s : Selection) : Prop :=
  s.1 = arc_source a ∧ s.2 `sublist_of` marking_place m (arc_source a) ∧ length s.2 = Z.to_nat (arc_weight a) ∧
  ∃ fid, Forall (λ t, admitted a t fs fid = Ok true) s.2.

(** An inhibitor that does not veto: fewer admitted tokens than its weight. *)
Definition inhibitor_ok (m : Marking) (fs : Filters) (a : Arc) : Prop :=
  ∃ fid ps, admitted_by (time_blind (marking_place m (arc_source a))) (λ t, admitted a t fs fid) None = Ok ps ∧
            (Z.of_nat (length ps) < arc_weight a)%Z.

Lemma offer_satisfied a m fs anchors fid :
  offer a m fs anchors fid = Ok Satisfied → is_inhibit a = true ∧ inhibitor_ok m fs a.
Proof.
  unfold offer. intros H. destruct (is_inhibit a).
  - split; [done|]. apply bind_Ok in H as (ps & Hp & H). destruct (Z.leb_spec (arc_weight a) (Z.of_nat (length ps))); [done|].
    exists fid, ps. split; [|done]. unfold admitted_by in *. apply bind_Ok in Hp as ([] & _ & Hp). simpl.
    by eapply scan_unlimited.
  - apply bind_Ok in H as (ps & Hp & H). destruct (_ <? _)%Z; [done|]. by apply bind_Ok in H as ([] & _ & H).
Qed.

Lemma offer_alternatives a m fs anchors fid a' alts :
  offer a m fs anchors fid = Ok (Alternatives a' alts) →
  a' = a ∧ is_inhibit a = false ∧ Forall (λ alt, selection_ok m fs a (alt_selection alt)) alts.
Proof.
  unfold offer. intros H. destruct (is_inhibit a).
  { apply bind_Ok in H as (ps & Hp & H). by destruct (_ <=? _)%Z. }
  apply bind_Ok in H as (ps & Hp & H). destruct (_ <? _)%Z eqn:Hw; [done|].
  apply bind_Ok in H as ([] & _ & H). injection H as <- <-. split; [done|]. split; [done|].
  unfold admitted_by in Hp. apply bind_Ok in Hp as ([] & _ & Hp). apply scan_spec in Hp as (new & -> & Hsub & Hin). simpl in *.
  apply Forall_fmap, Forall_forall. intros c Hc. simpl. apply elem_of_combinations in Hc as [Hc Hlen].
  set (q := marking_place m (arc_source a)) in *. unfold time_blind in Hsub. rewrite length_fmap in Hsub.
  assert (c `sublist_of` seq 0 (length q)) as Hcs by (by etrans).
  destruct (pick_sublist q 0 c Hcs) as [H1 H2].
  assert (pick q c = omap (λ p, q !! (p - 0)%nat) c) as Hpick.
  { unfold pick. clear. induction c as [|p c IH]; [done|]. csimpl. by rewrite Nat.sub_0_r, IH. }
  unfold selection_ok. simpl. rewrite Hpick. split; [done|]. split; [exact H1|]. split; [by rewrite H2|].
  exists fid. apply Forall_forall. intros t Ht. apply list_elem_of_omap in Ht as (p & Hp & Ht).
  assert (p ∈ new) as Hpn by (eapply elem_of_submseteq; [exact Hp|by apply sublist_submseteq]).
  destruct (Hin p Hpn) as (e & He & Ha). unfold time_blind in He. rewrite list_lookup_fmap in He.
  rewrite Ht in He. simpl in He. by injection He as <-.
Qed.

Lemma collect_offers_spec n m fs anchors ins os :
  collect_offers n m fs anchors ins = Ok (Some os) →
  os.*1 = filter (λ a, ¬ is_inhibit a) ins.*1 ∧
  Forall (λ o : Arc * list Alternative, Forall (λ alt, selection_ok m fs o.1 (alt_selection alt)) o.2) os ∧
  Forall (λ a, is_inhibit a = true → inhibitor_ok m fs a) ins.*1.
Proof.
  revert os. induction ins as [|[a pos] ins IH]; intros os H; simpl in H.
  { injection H as <-. split; [done|]. split; constructor. }
  apply bind_Ok in H as (fid & _ & H). apply bind_Ok in H as (answer & Ho & H). csimpl.
  destruct answer as [| |a' alts].
  - done.
  - apply offer_satisfied in Ho as [Hi Hok]. apply IH in H as (H1 & H2 & H3).
    rewrite filter_cons, decide_False by (intros Hn; apply Hn; by apply Is_true_true_2). auto.
  - apply offer_alternatives in Ho as (-> & Hi & Halts). apply bind_Ok in H as (rest & Hr & H).
    destruct rest as [rest|]; [|done]. injection H as <-. destruct (IH _ Hr) as (H1 & H2 & H3).
    rewrite filter_cons, decide_True by (rewrite Hi; by intros []). csimpl. rewrite H1. split; [done|].
    split; [by constructor|]. constructor; [intros; congruence|done].
Qed.

(** ** Candidates *)

Lemma choice_selections m fs os choice :
  Forall (λ o : Arc * list Alternative, Forall (λ alt, selection_ok m fs o.1 (alt_selection alt)) o.2) os →
  Forall2 (λ x l, x ∈ l) choice os.*2 →
  Forall2 (selection_ok m fs) (filter (λ a, is_consume a) os.*1)
    (alt_selection ∘ snd <$> filter (λ oa : (Arc * list Alternative) * Alternative, is_consume oa.1.1) (zip os choice)) ∧
  Forall2 (selection_ok m fs) (filter (λ a, ¬ is_consume a) os.*1)
    (alt_selection ∘ snd <$> filter (λ oa : (Arc * list Alternative) * Alternative, ¬ is_consume oa.1.1) (zip os choice)).
Proof.
  revert choice. induction os as [|[a alts] os IH]; intros choice Hos Hch; csimpl in *.
  { apply Forall2_nil_inv_r in Hch as ->. done. }
  apply Forall2_cons_inv_r in Hch as (alt & choice' & Halt & Hch & ->).
  apply Forall_cons in Hos as [Ho Hos]. simpl in Ho. rewrite Forall_forall in Ho. specialize (Ho _ Halt).
  destruct (IH _ Hos Hch) as [IH1 IH2]. csimpl. rewrite !filter_cons. simpl.
  destruct (is_consume a); simpl.
  - split; [by constructor|exact IH2].
  - split; [exact IH1|by constructor].
Qed.

Lemma input_zip n t : net_ok n → (zip (inputs n t) (input_positions n t)).*1 = inputs n t.
Proof.
  intros Hn. apply fst_zip. destruct (decide (length (inputs n t) ≤ length (input_positions n t))%nat) as [|Hgt]; [done|].
  exfalso. destruct (lookup_lt_is_Some_2 (inputs n t) (length (input_positions n t))) as [a Ha]; [lia|].
  apply (net_positions _ Hn) in Ha as (pos & Hp & _). apply lookup_lt_Some in Hp. lia.
Qed.

Lemma filter_consume_selecting (ins : list Arc) :
  filter (λ a, is_consume a) (filter (λ a, ¬ is_inhibit a) ins) = filter (λ a, is_consume a) ins.
Proof.
  rewrite list_filter_filter. apply filter_ext_in. intros a _.
  unfold is_consume, is_inhibit. destruct (arc_mode a); simpl; split; tauto.
Qed.

Lemma filter_read_selecting (ins : list Arc) :
  filter (λ a, ¬ is_consume a) (filter (λ a, ¬ is_inhibit a) ins) = filter (λ a, is_read a) ins.
Proof.
  rewrite list_filter_filter. apply filter_ext_in. intros a _.
  unfold is_consume, is_inhibit, is_read. destruct (arc_mode a); simpl; split; tauto.
Qed.

(** An enabled binding of a net: its selections against the arcs. *)
Record enabled_binding (n : Net) (m : Marking) (gs : Guards) (fs : Filters) (b : Binding) : Prop := {
  eb_transition : ∃ tr, dget (b_transition b) (transitions n) = Some tr ∧
                        guards_hold tr b gs (guard_uris n (b_transition b)) = Ok true;
  eb_source : is_source n (b_transition b) = false;
  eb_delivered : b_delivered b = [];
  eb_consumed : Forall2 (selection_ok m fs) (filter (λ a, is_consume a) (inputs n (b_transition b))) (b_consumed b);
  eb_read : Forall2 (selection_ok m fs) (filter (λ a, is_read a) (inputs n (b_transition b))) (b_read b);
  eb_inhibitors : Forall (λ a, is_inhibit a = true → inhibitor_ok m fs a) (inputs n (b_transition b))
}.

Lemma found_enabled n m gs fs ei path f : net_ok n → found_at n m gs fs ei path f → enabled_binding n m gs fs f.1.
Proof.
  intros Hn (Hs & t & bas & ba & Ht & (offers & Ho & ->) & Hin & Hf & Hg & _).
  destruct offers as [os|]; [|by apply elem_of_nil in Hin].
  apply list_elem_of_fmap in Hin as (choice & -> & Hch). rewrite Hf in *. simpl in *.
  apply collect_offers_spec in Ho as (H1 & H2 & H3). rewrite input_zip in H1, H3 by done.
  apply elem_of_product in Hch. destruct (choice_selections _ _ _ _ H2 Hch) as [C1 C2].
  rewrite H1 in C1, C2. rewrite filter_consume_selecting in C1. rewrite filter_read_selecting in C2.
  split; simpl; try done. eauto.
Qed.

Lemma candidates_findings n m gs fs ei w bs b :
  candidates n m gs fs (Some w) ei = Ok bs →
  b ∈ bs ↔ ∃ path f, path ∈ dkeys (transitions n) ∧ found_at n m gs fs ei path f ∧ f.1 = b ∧ ready w f.
Proof.
  unfold candidates. intros H. apply bind_Ok in H as (s & Hs & [= <-]).
  apply survey_findings in Hs as Hf. destruct Hf as (found & J & M). rewrite J in Hs. injection Hs as <-. simpl.
  rewrite list_elem_of_fmap. split.
  - intros (f & -> & [Hr Hin]%list_elem_of_filter). apply M in Hin as (path & ? & ?). eauto 10.
  - intros (path & f & Hp & Hf & <- & Hr). exists f. split; [done|]. apply list_elem_of_filter. split; [done|].
    apply M. eauto.
Qed.

(** ** Candidates, without computing them *)

(** The implementation registered under the occurrence's identity, or else
    under its declaration. *)
Definition runs {K V} `{EqDecision K} (table : dict K V) (identity declaration : K) (impl : V) : Prop :=
  dget identity table = Some impl ∨ dget identity table = None ∧ dget declaration table = Some impl.

(** A token an arc lets through: of its color, and its filter answers true. *)
Definition passes (fs : Filters) (fid : option NetUri) (a : Arc) (t : Token) : Prop :=
  admits a t = true ∧
  ∀ f, arc_filter a = Some f → ∃ impl,
    runs fs (match fid with Some u => FilterByUri u | None => FilterByDeclaration f end) (FilterByDeclaration f) impl ∧
    impl t = Some true.

(** [c] are positions of the queue, ascending, as many as the weight, of tokens
    satisfying [Q]. *)
Definition selects (queue : list Token) (Q : Token → Prop) (weight : Z) (c : list nat) : Prop :=
  c `sublist_of` seq 0 (length queue) ∧ length c = Z.to_nat weight ∧ ∀ p, p ∈ c → ∃ t, queue !! p = Some t ∧ Q t.

(** What one arc draws: a selection; nothing when it inhibits, and then no
    selection can be made. *)
Definition draws (m : Marking) (fs : Filters) (fid : option NetUri) (a : Arc) (c : list nat) : Prop :=
  if is_inhibit a
  then c = [] ∧ ¬ ∃ c', selects (marking_place m (arc_source a)) (passes fs fid a) (arc_weight a) c'
  else selects (marking_place m (arc_source a)) (passes fs fid a) (arc_weight a) c.

(** One draw per input arc, in arc order, under the filter identity of its
    position among the net's arcs. *)
Definition all_draw (n : Net) (m : Marking) (fs : Filters) (path : NetPath) (chosen : list (list nat)) : Prop :=
  length chosen = length (inputs n path) ∧
  ∀ k a c, inputs n path !! k = Some a → chosen !! k = Some c →
    ∃ position fid, input_positions n path !! k = Some position ∧ filter_uris n !! position = Some fid ∧ draws m fs fid a c.

(** The selections of the arcs in [mode], in arc order. *)
Definition drawn (m : Marking) (ins : list Arc) (mode : Arc → bool) (chosen : list (list nat)) : list Selection :=
  (λ ac : Arc * list nat, (arc_source ac.1, pick (marking_place m (arc_source ac.1)) ac.2))
    <$> filter (λ ac, mode ac.1) (zip ins chosen).

(** Every guard of the transition answers true. *)
Definition guards_answer (n : Net) (gs : Guards) (t : Transition) (b : Binding) : Prop :=
  ∀ j g, guards t !! j = Some g → ∃ key impl,
    (guard_uris n (b_transition b) = [] ∧ key = GuardByDeclaration g ∨
     ∃ u, guard_uris n (b_transition b) !! j = Some u ∧ key = GuardByUri u) ∧
    runs gs key (GuardByDeclaration g) impl ∧ impl b = Some true.

(** [x] is the entry instant of a token drawn. *)
Definition anchor_of (ei : dict NetPath (list Instant)) (ins : list Arc) (chosen : list (list nat)) (x : Instant) : Prop :=
  ∃ k a c p, ins !! k = Some a ∧ chosen !! k = Some c ∧ p ∈ c ∧ dget_default (arc_source a) [] ei !! p = Some x.

(** Every timer has matured: an instant is past, a delay has run since every
    token drawn entered its place. *)
Definition timers_matured (ei : dict NetPath (list Instant)) (ins : list Arc) (chosen : list (list nat)) (t : Transition)
    (w : Instant) : Prop :=
  ∀ timer, timer ∈ timers t →
    match timer with
    | Until i => (i ≤ w)%Z
    | Delay d => ∀ x, anchor_of ei ins chosen x → (x + d ≤ w)%Z
    end.

(** The binding [b] may fire at [w]. *)
Definition may_fire (n : Net) (m : Marking) (gs : Guards) (fs : Filters) (ei : dict NetPath (list Instant)) (w : Instant)
    (b : Binding) : Prop :=
  let path := b_transition b in
  ∃ t chosen, dget path (transitions n) = Some t ∧ inputs n path ≠ [] ∧
    all_draw n m fs path chosen ∧
    b_consumed b = drawn m (inputs n path) is_consume chosen ∧
    b_read b = drawn m (inputs n path) is_read chosen ∧
    b_delivered b = [] ∧
    guards_answer n gs t b ∧ timers_matured ei (inputs n path) chosen t w.

(** *** Filters and guards *)

Lemma implementation_runs {K V} `{EqDecision K} (table : dict K V) identity declaration impl :
  implementation table identity declaration = Ok impl ↔ runs table identity declaration impl.
Proof.
  unfold implementation, runs. destruct (dget identity table); [naive_solver|].
  destruct (dget declaration table); simpl; naive_solver.
Qed.

Lemma admitted_passes a t fs fid : admitted a t fs fid = Ok true ↔ passes fs fid a t.
Proof.
  unfold admitted, passes. destruct (admits a t); simpl; [|naive_solver].
  destruct (arc_filter a) as [f|]; [|naive_solver]. split.
  - intros H. apply bind_Ok in H as (impl & Hi%implementation_runs & H). split; [done|]. intros f' [= <-]. exists impl.
    split; [done|]. by destruct (impl t) as [[]|].
  - intros [_ H]. destruct (H f eq_refl) as (impl & Hi%implementation_runs & Ht). rewrite Hi. simpl. by rewrite Ht.
Qed.

Lemma guards_hold_answer gs b ids ds : ∀ pos,
  guards_hold_from pos ds b gs ids = Ok true ↔
  ∀ j g, ds !! j = Some g → ∃ key impl,
    (ids = [] ∧ key = GuardByDeclaration g ∨ ∃ u, ids !! (pos + j)%nat = Some u ∧ key = GuardByUri u) ∧
    runs gs key (GuardByDeclaration g) impl ∧ impl b = Some true.
Proof.
  induction ds as [|d ds IH]; intros pos; cbn [guards_hold_from]; [by split; [intros _ j g|]|].
  assert (Hkey : ∀ key, match ids with [] => Ok (GuardByDeclaration d)
                        | _ => u ← or_raise (ids !! pos) (IndexError "identities"); Ok (GuardByUri u) end = Ok key ↔
            (ids = [] ∧ key = GuardByDeclaration d ∨ ∃ u, ids !! pos = Some u ∧ key = GuardByUri u)).
  { intros key. destruct ids as [|u0 ids]; [naive_solver|]. destruct ((u0 :: ids) !! pos); simpl; naive_solver. }
  split.
  - intros H. apply bind_Ok in H as (key & Hk%Hkey & H). apply bind_Ok in H as (impl & Hi%implementation_runs & H).
    destruct (impl b) as [[]|] eqn:Eb; [|done..]. pose proof (proj1 (IH (S pos)) H) as Hrest.
    intros [|j] g Hg; simpl in Hg; [injection Hg as <-; exists key, impl; by rewrite Nat.add_0_r|].
    rewrite Nat.add_succ_r. by apply Hrest.
  - intros H. destruct (H 0%nat d eq_refl) as (key & impl & Hk & Hi & Hb). rewrite Nat.add_0_r in Hk.
    apply Hkey in Hk as ->. simpl. apply implementation_runs in Hi as ->. simpl. rewrite Hb. apply IH.
    intros j g Hg. specialize (H (S j) g Hg). by rewrite Nat.add_succ_r in H.
Qed.

(** *** Scans *)

Section scans.
  Context {I : Type} (accepts : Token → result bool) (Q : Token → Prop).
  Context (HQ : ∀ t, accepts t = Ok true ↔ Q t).

(** An unlimited scan finds every position that passes. *)
Lemma scan_complete k acc (q : TokenQueue I) ps : scan accepts None k acc q = Ok ps →
  ∃ new, ps = acc ++ new ∧ ∀ c, c `sublist_of` new ↔
    c `sublist_of` seq k (length q) ∧ ∀ p, p ∈ c → ∃ e, q !! (p - k)%nat = Some e ∧ Q (e_token e).
Proof.
  revert k acc. induction q as [|e q IH]; intros k acc H; simpl in H.
  { injection H as <-. exists []. rewrite app_nil_r. split; [done|]. intros c. simpl. split.
    - intros Hc%sublist_nil_r. subst. split; [done|]. intros p Hp. by apply elem_of_nil in Hp.
    - by intros [? _]. }
  assert (Hshift : ∀ c, c `sublist_of` seq (S k) (length q) →
    ((∀ p, p ∈ c → ∃ e', (e :: q) !! (p - k)%nat = Some e' ∧ Q (e_token e')) ↔
     (∀ p, p ∈ c → ∃ e', q !! (p - S k)%nat = Some e' ∧ Q (e_token e')))).
  { intros c Hc. assert (Hle : ∀ p, p ∈ c → (S k ≤ p)%nat).
    { intros p Hp. eapply sublist_submseteq, (elem_of_submseteq _ _ p) in Hc; [|done]. apply elem_of_seq in Hc. lia. }
    split; intros Hall p Hp; destruct (Hall p Hp) as (e' & He & HQ'); exists e'; (split; [|done]); specialize (Hle p Hp);
      [replace (p - k)%nat with (S (p - S k)) in He by lia|replace (p - k)%nat with (S (p - S k)) by lia]; done. }
  apply bind_Ok in H as (ok & Ha & H).
  assert (∃ new, ps = acc ++ (if ok then [k] else []) ++ new ∧ ∀ c, c `sublist_of` new ↔
    c `sublist_of` seq (S k) (length q) ∧ ∀ p, p ∈ c → ∃ e, q !! (p - S k)%nat = Some e ∧ Q (e_token e)) as (new & -> & Hnew).
  { destruct ok; apply IH in H as (new & -> & Hnew); exists new;
      (split; [|exact Hnew]); [by rewrite <-(assoc_L (++))|done]. }
  eexists. split; [reflexivity|]. intros c. simpl. destruct ok; simpl.
  - assert (Hk : Q (e_token e)) by by apply HQ. split.
    + intros [Hc|(c' & -> & Hc)]%sublist_cons_r.
      * apply Hnew in Hc as [Hc Hp]. split; [by constructor|by apply Hshift].
      * apply Hnew in Hc as [Hc Hp]. split; [by constructor|]. intros p [->|Hin]%elem_of_cons;
          [exists e; by rewrite Nat.sub_diag|exact (proj2 (Hshift c' Hc) Hp p Hin)].
    + intros [[Hc|(c' & -> & Hc)]%sublist_cons_r Hp].
      * constructor. apply Hnew. split; [done|]. by apply Hshift.
      * constructor. apply Hnew. split; [done|]. apply Hshift; [done|]. intros p Hin. apply Hp. by right.
  - assert (Hk : ¬ Q (e_token e)) by (rewrite <-HQ; congruence). rewrite Hnew. split.
    + intros [Hc Hp]. split; [by constructor|by apply Hshift].
    + intros [[Hc|(c' & -> & Hc)]%sublist_cons_r Hp]; [split; [done|]; by apply Hshift|].
      destruct (Hp k ltac:(by left)) as (e' & He & ?). rewrite Nat.sub_diag in He. by injection He as <-.
Qed.
End scans.

(** *** Offers *)

Lemma blind_lookup (queue : list Token) p (Q : Token → Prop) :
  (∃ e, time_blind queue !! p = Some e ∧ Q (e_token e)) ↔ ∃ t, queue !! p = Some t ∧ Q t.
Proof.
  unfold time_blind. rewrite list_lookup_fmap. destruct (queue !! p) as [t|]; simpl; [|naive_solver]. split.
  - intros (e & [= <-] & H). eauto.
  - intros (t' & [= <-] & H). eauto.
Qed.

Lemma all_selections queue accepts (Q : Token → Prop) ps w c : (∀ t, accepts t = Ok true ↔ Q t) →
  admitted_by (time_blind queue) accepts None = Ok ps →
  c ∈ combinations ps (Z.to_nat w) ↔ selects queue Q w c.
Proof.
  intros HQ H. unfold admitted_by in H. simpl in H. apply (scan_complete _ _ HQ) in H as (new & -> & Hnew). simpl.
  rewrite elem_of_combinations, Hnew. unfold selects. setoid_rewrite Nat.sub_0_r. setoid_rewrite blind_lookup.
  unfold time_blind. rewrite length_fmap. tauto.
Qed.

Lemma no_selection queue accepts (Q : Token → Prop) ps w : (∀ t, accepts t = Ok true ↔ Q t) →
  admitted_by (time_blind queue) accepts None = Ok ps → (∃ c, selects queue Q w c) ↔ (w ≤ Z.of_nat (length ps))%Z.
Proof.
  intros HQ H. setoid_rewrite <-(λ c, all_selections queue accepts Q ps w c HQ H). setoid_rewrite elem_of_combinations. split.
  - intros (c & Hc%sublist_length & Hlen). lia.
  - intros Hw. exists (take (Z.to_nat w) ps). split; [apply sublist_take|]. rewrite length_take. lia.
Qed.

(** A limited scan decides whether there is a selection at all. *)
Lemma limited_selection queue accepts (Q : Token → Prop) ps w : (∀ t, accepts t = Ok true ↔ Q t) →
  admitted_by (time_blind queue) accepts (Some w) = Ok ps → (∃ c, selects queue Q w c) ↔ (w ≤ Z.of_nat (length ps))%Z.
Proof.
  intros HQ H. unfold admitted_by in H. apply bind_Ok in H as ([] & _ & H).
  destruct (Z.le_gt_cases w (Z.of_nat (length ps))) as [Hw|Hw].
  - split; [done|]. intros _. pose proof H as Hs. apply scan_spec in Hs as (new & -> & Hsub & Hin). simpl in *.
    exists (take (Z.to_nat w) new). split; [|split; [rewrite length_take; lia|]].
    + etrans; [apply sublist_take|]. unfold time_blind in Hsub. by rewrite length_fmap in Hsub.
    + intros p Hp. apply blind_lookup. destruct (Hin p) as (e & He & Ha); [by eapply elem_of_take in Hp as (i & ? & _); eapply list_elem_of_lookup_2|].
      rewrite Nat.sub_0_r in He. exists e. split; [done|]. by apply HQ.
  - apply scan_unlimited in H; [|lia]. apply (no_selection queue accepts Q ps w HQ). exact H.
Qed.

(** The alternative of a draw. *)
Definition alternative_of (m : Marking) (anchors : option (dict NetPath (list Instant))) (a : Arc) (c : list nat) : Alternative :=
  MkAlternative (arc_source a, pick (marking_place m (arc_source a)) c)
    (match anchors with None => [] | Some d => pick (dget_default (arc_source a) [] d) c end).

Lemma offer_draws a m fs anchors fid ans : offer a m fs anchors fid = Ok ans →
  match ans with
  | Veto => ∀ c, ¬ draws m fs fid a c
  | Satisfied => is_inhibit a = true ∧ draws m fs fid a []
  | Alternatives a' alts => a' = a ∧ is_inhibit a = false ∧
      ∀ alt, alt ∈ alts ↔ ∃ c, draws m fs fid a c ∧ alt = alternative_of m anchors a c
  end.
Proof.
  pose proof (λ t, admitted_passes a t fs fid) as HQ. unfold offer, draws. destruct (is_inhibit a).
  - intros H. apply bind_Ok in H as (ps & Hp & H). apply (limited_selection _ _ _ _ _ HQ) in Hp.
    destruct (Z.leb_spec (arc_weight a) (Z.of_nat (length ps))); injection H as <-.
    + intros c [_ Hno]. by apply Hno, Hp.
    + split; [done|]. split; [done|]. intros Hc%Hp. lia.
  - intros H. apply bind_Ok in H as (ps & Hp & H). pose proof (λ c, all_selections _ _ _ _ (arc_weight a) c HQ Hp) as Hall.
    apply (no_selection _ _ _ _ (arc_weight a) HQ) in Hp.
    destruct (Z.ltb_spec (Z.of_nat (length ps)) (arc_weight a)).
    + injection H as <-. intros c Hc. assert (∃ c, selects (marking_place m (arc_source a)) (passes fs fid a) (arc_weight a) c) as Hx by eauto.
      apply Hp in Hx. lia.
    + apply bind_Ok in H as ([] & _ & H). injection H as <-. split; [done|]. split; [done|]. intros alt.
      rewrite list_elem_of_fmap. unfold alternative_of. setoid_rewrite <-Hall. destruct anchors; naive_solver.
Qed.

(** The pairs of a choice, as the assembly reads them. *)
Definition choice_pairs (m : Marking) (anchors : option (dict NetPath (list Instant))) (ins : list Arc) (chosen : list (list nat))
    : list (Arc * Alternative) :=
  (λ ac : Arc * list nat, (ac.1, alternative_of m anchors ac.1 ac.2)) <$> filter (λ ac, ¬ is_inhibit ac.1) (zip ins chosen).

Definition draws_at (n : Net) (m : Marking) (fs : Filters) (ap : Arc * nat) (c : list nat) : Prop :=
  ∃ fid, filter_uris n !! ap.2 = Some fid ∧ draws m fs fid ap.1 c.

(** The offers of the arcs are the alternatives of their draws. *)
Lemma collected n m fs anchors ins : ∀ r, collect_offers n m fs anchors ins = Ok r →
  (∀ chosen, Forall2 (draws_at n m fs) ins chosen → ∃ os choice, r = Some os ∧ choice ∈ product os.*2 ∧
     zip os.*1 choice = choice_pairs m anchors ins.*1 chosen) ∧
  (∀ os choice, r = Some os → choice ∈ product os.*2 → ∃ chosen, Forall2 (draws_at n m fs) ins chosen ∧
     zip os.*1 choice = choice_pairs m anchors ins.*1 chosen).
Proof.
  induction ins as [|[a pos] ins IH]; intros r H; cbn [collect_offers] in H.
  { injection H as <-. split.
    - intros chosen ->%Forall2_nil_inv_l. exists [], []. split; [done|]. by split; [left|].
    - intros os choice [= <-] Hc. exists []. by split; [constructor|]. }
  apply bind_Ok in H as (fid & Hfid%or_raise_Ok & H). apply bind_Ok in H as (ans & Ho%offer_draws & H).
  destruct ans as [| |a' alts].
  - injection H as <-. split; [|done]. intros chosen (c & rest & (fid' & Hfid' & Hd) & _ & ->)%Forall2_cons_inv_l.
    simpl in *. simplify_eq. by destruct (Ho c).
  - destruct Ho as [Hi Hd]. destruct (IH r H) as [IH1 IH2]. unfold choice_pairs in *. csimpl. split.
    + intros chosen (c & rest & (fid' & Hfid' & Hd') & Hrest & ->)%Forall2_cons_inv_l.
      destruct (IH1 rest Hrest) as (os & choice & Hos & Hch & Heq). exists os, choice. split; [done|]. split; [done|].
      simpl. rewrite filter_cons_False by (simpl; rewrite Hi; intros Hn; by apply Hn). done.
    + intros os choice Hos Hch. destruct (IH2 os choice Hos Hch) as (chosen & Hall & Heq). exists ([] :: chosen).
      split; [constructor; [by exists fid|done]|]. simpl. rewrite filter_cons_False by (simpl; rewrite Hi; intros Hn; by apply Hn). done.
  - destruct Ho as (-> & Hi & Halts). apply bind_Ok in H as (rest & Hr & H). injection H as <-.
    destruct (IH rest Hr) as [IH1 IH2]. unfold choice_pairs in *. csimpl. split.
    + intros chosen (c & cs & (fid' & Hfid' & Hd') & Hrest & ->)%Forall2_cons_inv_l. simpl in *. simplify_eq.
      destruct (IH1 cs Hrest) as (os & choice & -> & Hch & Heq).
      exists ((a, alts) :: os), (alternative_of m anchors a c :: choice). split; [done|]. split.
      * apply elem_of_product. constructor; [apply Halts; eauto|by apply elem_of_product].
      * csimpl. rewrite filter_cons_True by (simpl; rewrite Hi; by intros []). csimpl. by rewrite Heq.
    + intros os choice Hos Hch. destruct rest as [rest|]; [|done]. injection Hos as <-.
      apply elem_of_product, Forall2_cons_inv_r in Hch as (alt & choice' & Halt & Hch & ->).
      apply Halts in Halt as (c & Hd & ->). apply elem_of_product in Hch.
      destruct (IH2 rest choice' eq_refl Hch) as (chosen & Hall & Heq). exists (c :: chosen).
      split; [constructor; [by exists fid|done]|]. csimpl. rewrite filter_cons_True by (simpl; rewrite Hi; by intros []). csimpl. by rewrite Heq.
Qed.

(** *** Assembly *)

Lemma zip_firsts (P : Arc → bool) (os : list (Arc * list Alternative)) (choice : list Alternative) :
  alt_selection ∘ snd <$> filter (λ oa : (Arc * list Alternative) * Alternative, P oa.1.1) (zip os choice) =
  alt_selection ∘ snd <$> filter (λ oa : Arc * Alternative, P oa.1) (zip os.*1 choice).
Proof.
  revert choice. induction os as [|[a alts] os IH]; intros [|alt choice]; csimpl; [done..|].
  rewrite !filter_cons. simpl. destruct (P a); simpl; [csimpl; by rewrite IH|apply IH].
Qed.

Lemma drawn_pairs m anchors ins (mode P : Arc → bool) chosen : (∀ a, mode a = P a && negb (is_inhibit a)) →
  alt_selection ∘ snd <$> filter (λ oa : Arc * Alternative, P oa.1) (choice_pairs m anchors ins chosen) = drawn m ins mode chosen.
Proof.
  intros Hm. unfold choice_pairs, drawn. induction (zip ins chosen) as [|[a c] l IH]; [done|].
  assert (Hma : Is_true (mode a) ↔ Is_true (P a) ∧ ¬ Is_true (is_inhibit a)) by (rewrite Hm, andb_True, negb_True; done).
  destruct (decide (Is_true (is_inhibit a))) as [Hi|Hi].
  - rewrite (filter_cons_False (λ ac : Arc * list nat, ¬ Is_true (is_inhibit ac.1))) by (simpl; tauto).
    rewrite (filter_cons_False (λ ac : Arc * list nat, Is_true (mode ac.1))) by (simpl; tauto). exact IH.
  - rewrite (filter_cons_True (λ ac : Arc * list nat, ¬ Is_true (is_inhibit ac.1))) by done. csimpl.
    rewrite !filter_cons. simpl. destruct (decide (Is_true (P a))).
    + rewrite decide_True by tauto. csimpl. by rewrite IH.
    + rewrite decide_False by tauto. exact IH.
Qed.

Lemma assembled m anchors path ins chosen os choice : zip os.*1 choice = choice_pairs m anchors ins chosen →
  (assemble path os choice).1 = MkBinding path (drawn m ins is_consume chosen) (drawn m ins is_read chosen) [].
Proof.
  intros Hz. unfold assemble. simpl. f_equal.
  - rewrite (zip_firsts is_consume), Hz. apply (drawn_pairs m anchors). intros a. unfold is_consume, is_inhibit. by destruct (arc_mode a).
  - transitivity (alt_selection ∘ snd <$> filter (λ oa : (Arc * list Alternative) * Alternative, negb (is_consume oa.1.1)) (zip os choice)).
    + f_equal. apply filter_ext_in. intros oa _. destruct (is_consume oa.1.1); simpl; naive_solver.
    + rewrite (zip_firsts (λ a, negb (is_consume a))), Hz. apply (drawn_pairs m anchors _ is_read (λ a, negb (is_consume a))).
      intros a. unfold is_consume, is_inhibit, is_read. by destruct (arc_mode a).
Qed.

(** The anchors are the entry instants of what was drawn. *)
Lemma assembled_anchors n m fs ei path inp chosen os choice x : zip os.*1 choice = choice_pairs m (Some ei) inp.*1 chosen →
  choice ∈ product os.*2 → Forall2 (draws_at n m fs) inp chosen →
  x ∈ (assemble path os choice).2 ↔ anchor_of ei inp.*1 chosen x.
Proof.
  intros Hz Hch%elem_of_product%Forall2_length Hall. rewrite length_fmap in Hch. unfold assemble. simpl.
  assert (choice = (choice_pairs m (Some ei) inp.*1 chosen).*2) as ->
    by (rewrite <-Hz; symmetry; apply snd_zip; rewrite length_fmap; lia).
  clear -Hall. unfold choice_pairs, anchor_of. split.
  - intros (l & Hx & Hl)%list_elem_of_join. apply list_elem_of_fmap in Hl as (alt & -> & Hl).
    apply list_elem_of_fmap in Hl as ([a0 alt0] & -> & Hl). apply list_elem_of_fmap in Hl as ([a c] & [= -> ->] & Hl).
    apply list_elem_of_filter in Hl as [_ (k & Hk)%list_elem_of_lookup_1]. simpl in *.
    apply lookup_zip_Some in Hk as [Hk1 Hk2]. apply list_elem_of_omap in Hx as (p & Hp & Hx). by exists k, a, c, p.
  - intros (k & a & c & p & Ha & Hc & Hp & Hx). rewrite list_lookup_fmap in Ha.
    destruct (inp !! k) as [[a' pos]|] eqn:Hk; [|done]. injection Ha as ->.
    destruct (Forall2_lookup_lr _ _ _ _ _ _ Hall Hk Hc) as (fid & _ & Hd). simpl in Hd.
    assert (Hi : is_inhibit a = false).
    { unfold draws in Hd. destruct (is_inhibit a); [|done]. destruct Hd as [-> _]. by apply elem_of_nil in Hp. }
    apply list_elem_of_join. exists (alt_anchors (alternative_of m (Some ei) a c)). split.
    + apply list_elem_of_omap. by exists p.
    + apply list_elem_of_fmap. eexists. split; [reflexivity|]. apply list_elem_of_fmap. exists (a, alternative_of m (Some ei) a c).
      split; [done|]. apply list_elem_of_fmap. exists (a, c). split; [done|]. apply list_elem_of_filter. split; [simpl; rewrite Hi; by intros []|].
      apply list_elem_of_lookup_2 with k. apply lookup_zip_Some. by rewrite list_lookup_fmap, Hk.
Qed.

(** *** Timers *)

Lemma matured_by ts anchors mature w (b : Binding) : maturation ts (max_opt anchors) = Ok mature →
  ready w (b, mature) ↔ ∀ timer, timer ∈ ts →
    match timer with Until i => (i ≤ w)%Z | Delay d => ∀ x, x ∈ anchors → (x + d ≤ w)%Z end.
Proof.
  unfold maturation. intros H. apply bind_Ok in H as (is_ & Hi%mapR_Ok & [= <-]).
  assert (ready w (b, max_opt is_) ↔ Forall (λ i, (i ≤ w)%Z) is_) as ->.
  { unfold ready. simpl. destruct (max_opt is_) as [mx|] eqn:E; [|by apply max_opt_None in E as ->].
    apply max_opt_Some in E as [Hin Hall]. split; [|rewrite Forall_forall; auto].
    intros Hle. eapply Forall_impl; [exact Hall|]. simpl. lia. }
  induction Hi as [|timer i ts is_ Ht _ IH].
  { split; [|done]. intros _ timer Hin. by apply elem_of_nil in Hin. }
  rewrite Forall_cons, IH. clear IH.
  assert ((i ≤ w)%Z ↔ match timer with Until i => (i ≤ w)%Z | Delay d => ∀ x, x ∈ anchors → (x + d ≤ w)%Z end) as ->.
  { destruct timer as [d|j]; simpl in Ht; [|by injection Ht as ->]. apply bind_Ok in Ht as (mx & Hm%or_raise_Ok & [= <-]).
    apply max_opt_Some in Hm as [Hin Hall]. rewrite Forall_forall in Hall. split; [|by auto].
    intros Hle x Hx%Hall. lia. }
  set_solver.
Qed.

(** *** A survey that returned judged everything *)

Lemma foldM_each {A B} (f : B → A → result B) l : ∀ s s' x, foldM f s l = Ok s' → x ∈ l → ∃ s1 s2, f s1 x = Ok s2.
Proof.
  induction l as [|y l IH]; intros s s' x H Hx; [by apply elem_of_nil in Hx|]. simpl in H.
  apply bind_Ok in H as (s1 & H1 & H). apply elem_of_cons in Hx as [->|Hx]; [eauto|by eapply IH].
Qed.

Lemma surveyed n m gs fs ei w bs path t : candidates n m gs fs (Some w) ei = Ok bs →
  dget path (transitions n) = Some t → is_source n path = false →
  ∃ r, collect_offers n m fs (if existsb is_delay (timers t) then Some ei else None) (zip (inputs n path) (input_positions n path)) = Ok r ∧
    ∀ os choice, r = Some os → choice ∈ product os.*2 → guards_hold t (assemble path os choice).1 gs (guard_uris n path) = Ok true →
      ∃ mature, maturation (timers t) (max_opt (assemble path os choice).2) = Ok mature.
Proof.
  intros H Ht Hs. unfold candidates, survey in H. simpl in H. apply bind_Ok in H as (s & H & _).
  apply (foldM_each _ _ _ _ path) in H as (s1 & s2 & H); [|rewrite sorted_by_perm; apply dget_is_Some; eauto].
  unfold survey_transition in H. rewrite Hs, Ht in H. cbn [or_raise mbind result_bind] in H. cbv zeta in H. apply bind_Ok in H as (r & Hr & H). exists r. split; [exact Hr|].
  intros os choice -> Hch Hg.
  apply (foldM_each _ _ _ _ (assemble path os choice)) in H as (s3 & s4 & H); [|by apply list_elem_of_fmap_2].
  destruct (assemble path os choice) as [b0 anchors]. cbn [judge fst snd] in *. rewrite Hg in H. simpl in H.
  apply bind_Ok in H as (mature & Hm & _). by exists mature.
Qed.

Lemma all_draw_zip n m fs path chosen : net_ok n →
  all_draw n m fs path chosen ↔ Forall2 (draws_at n m fs) (zip (inputs n path) (input_positions n path)) chosen.
Proof.
  intros Hn. pose proof (input_zip n path Hn) as Hz. set (inp := zip (inputs n path) (input_positions n path)) in *.
  assert (Hlen : length inp = length (inputs n path)) by (by rewrite <-Hz, length_fmap).
  unfold all_draw. rewrite Forall2_same_length_lookup, Hlen. split.
  - intros [Hl Hall]. split; [done|]. intros k [a pos] c [Ha Hp]%lookup_zip_Some Hc.
    destruct (Hall k a c Ha Hc) as (pos' & fid & Hp' & Hf & Hd). simplify_eq. by exists fid.
  - intros [Hl Hall]. split; [done|]. intros k a c Ha Hc.
    destruct (net_positions _ Hn _ _ _ Ha) as (pos & Hp & _).
    destruct (Hall k (a, pos) c) as (fid & Hf & Hd); [by apply lookup_zip_Some|done|]. by exists pos, fid.
Qed.

(** C12: on a net its constructor built, the candidates at a clock are exactly
    the bindings that may fire then: of a transition with input arcs, each
    consume and read arc drawing as many tokens of its place as its weight, in
    queue order, all of its color and passed by its filter; no inhibitor arc
    having as many such tokens as its weight; every guard answering true on the
    binding; every timer's instant past and every delay run since the last of
    the tokens drawn entered. *)
Theorem candidates_are_exactly_the_findings n m gs fs ei w bs b :
  net_ok n → candidates n m gs fs (Some w) ei = Ok bs →
  (b ∈ bs ↔ may_fire n m gs fs ei w b).
Proof.
  intros Hn H. rewrite (candidates_findings _ _ _ _ _ _ _ _ H). unfold may_fire. split.
  - intros (path & [b' mature] & _ & (Hs & t & bas & ba & Ht & (r & Hr & ->) & Hin & Heq & Hg & Hm) & <- & Hw). simpl in *.
    destruct r as [os|]; [|by apply elem_of_nil in Hin]. apply list_elem_of_fmap in Hin as (choice & -> & Hch).
    destruct (proj2 (collected _ _ _ _ _ _ Hr) os choice eq_refl Hch) as (chosen & Hall & Hz).
    pose proof Hz as Hb. rewrite input_zip in Hb by done. apply (assembled _ _ path) in Hb. rewrite <-Heq in Hb, Hg. rewrite Hb in *. simpl.
    exists t, chosen. split; [done|]. split; [by intros Hi%(net_sources _ Hn); [congruence|eauto]|].
    split; [by apply all_draw_zip|]. do 3 (split; [done|]). split; [exact (proj1 (guards_hold_answer gs _ _ _ 0%nat) Hg)|].
    intros timer Htm. rewrite (matured_by _ _ _ _ _ Hm) in Hw. specialize (Hw timer Htm). destruct timer as [d|i]; [|done].
    intros x Hx. apply Hw. assert (existsb is_delay (timers t) = true) as Hd.
    { apply existsb_exists. exists (Delay d). split; [by apply list_elem_of_In|done]. }
    rewrite Hd in Hz. eapply assembled_anchors; [exact Hz|done|done|]. by rewrite input_zip.
  - intros (t & chosen & Ht & Hi & Hall & Hc & Hrd & Hde & Hg & Htm). set (path := b_transition b) in *.
    assert (Hs : is_source n path = false).
    { destruct (is_source n path) eqn:E; [|done]. apply (net_sources _ Hn) in E; [done|eauto]. }
    apply all_draw_zip in Hall; [|done]. destruct (surveyed _ _ _ _ _ _ _ _ _ H Ht Hs) as (r & Hr & Hmat).
    destruct (proj1 (collected _ _ _ _ _ _ Hr) chosen Hall) as (os & choice & -> & Hch & Hz).
    pose proof Hz as Hb. rewrite input_zip in Hb by done. apply (assembled _ _ path) in Hb.
    assert ((assemble path os choice).1 = b) as Heq by (rewrite Hb, <-Hc, <-Hrd; unfold path; destruct b; simpl in *; by subst).
    assert (Hg' : guards_hold t b gs (guard_uris n path) = Ok true) by exact (proj2 (guards_hold_answer gs _ _ _ 0%nat) Hg).
    destruct (Hmat os choice eq_refl Hch) as (mature & Hm); [by rewrite Heq|].
    exists path, (b, mature). split; [apply dget_is_Some; eauto|]. split.
    { split; [done|]. exists t, (assemble path os <$> product os.*2), (assemble path os choice). split; [done|].
      split; [by exists (Some os)|]. split; [by apply list_elem_of_fmap_2|]. by split_and!; rewrite ?Heq. }
    split; [done|]. apply (matured_by _ _ _ _ _ Hm). intros timer Hin. specialize (Htm timer Hin). destruct timer as [d|i]; [|done].
    intros x Hx. apply Htm. assert (existsb is_delay (timers t) = true) as Hd.
    { apply existsb_exists. exists (Delay d). split; [by apply list_elem_of_In|done]. }
    rewrite Hd in Hz. rewrite <-(input_zip n path Hn). eapply (assembled_anchors n m fs); [exact Hz|done|done|exact Hx].
Qed.

Lemma timed_net_ok : net_ok timed_net.
Proof.
  eapply (Net_init_ok [MkPlace ["p"] None; MkPlace ["q"] None] [MkTransition ["t"] None [] [Delay 10]]
          [MkArc ["p"] ["t"] CONSUME 1 None None; MkArc ["t"] ["q"] CONSUME 1 None None] None None).
  vm_compute. reflexivity.
Qed.

Lemma candidates_are_exactly_the_findings_witness :
  candidates timed_net [(["p"], [black])] [] [] (Some 10%Z) [(["p"], [0%Z])]
  = Ok [MkBinding ["t"] [(["p"], [black])] [] []] ∧
  may_fire timed_net [(["p"], [black])] [] [] [(["p"], [0%Z])] 10%Z (MkBinding ["t"] [(["p"], [black])] [] []) ∧
  ¬ may_fire timed_net [(["p"], [black])] [] [] [(["p"], [0%Z])] 9%Z (MkBinding ["t"] [(["p"], [black])] [] []).
Proof.
  assert (candidates timed_net [(["p"], [black])] [] [] (Some 10%Z) [(["p"], [0%Z])]
    = Ok [MkBinding ["t"] [(["p"], [black])] [] []]) as Hc by (vm_compute; reflexivity).
  assert (candidates timed_net [(["p"], [black])] [] [] (Some 9%Z) [(["p"], [0%Z])] = Ok []) as Hc' by (vm_compute; reflexivity).
  split; [exact Hc|]. split.
  - apply (candidates_are_exactly_the_findings timed_net [(["p"], [black])] [] [] [(["p"], [0%Z])] 10%Z _ _ timed_net_ok Hc).
    apply list_elem_of_here.
  - intros H. apply (candidates_are_exactly_the_findings timed_net [(["p"], [black])] [] [] [(["p"], [0%Z])] 9%Z _ _ timed_net_ok Hc') in H.
    by apply elem_of_nil in H.
Defined.

(** Every candidate draws, for each consume and read arc in order, as
    many tokens as its weight, in queue order, from its place, each admitted by
    color and filter; no inhibitor arc sees its weight of admitted tokens. *)
Theorem candidates_respect_every_arc n m gs fs ei w bs b :
  net_ok n → candidates n m gs fs (Some w) ei = Ok bs → b ∈ bs → enabled_binding n m gs fs b.
Proof.
  intros Hn Hc Hb. apply (candidates_findings _ _ _ _ _ _ _ _ Hc) in Hb as (path & f & _ & Hf & <- & _).
  by eapply found_enabled.
Qed.

Lemma candidates_respect_every_arc_witness :
  enabled_binding timed_net [(["p"], [black])] [] [] (MkBinding ["t"] [(["p"], [black])] [] []).
Proof.
  apply (candidates_respect_every_arc timed_net [(["p"], [black])] [] [] [(["p"], [0%Z])] 10%Z
           [MkBinding ["t"] [(["p"], [black])] [] []]).
  - exact timed_net_ok.
  - vm_compute. reflexivity.
  - apply list_elem_of_here.
Defined.

(** ** Enabled bindings can begin *)

Lemma sublist_norms (ts us : list Token) : ts `sublist_of` us → norms ts ⊆+ norms us.
Proof. intros H. apply sublist_submseteq. by apply fmap_sublist. Qed.

Lemma consume_all m (sels : list Selection) :
  NoDup (dkeys m) → NoDup sels.*1 → Forall (λ s : Selection, norms s.2 ⊆+ norms (marking_place m s.1)) sels →
  ∃ m', foldM begin_consume m sels = Ok m' ∧ NoDup (dkeys m') ∧
        (∀ p, p ∉ sels.*1 → marking_place m' p = marking_place m p) ∧
        Forall (λ s : Selection, norms (marking_place m s.1) ≡ₚ norms s.2 ++ norms (marking_place m' s.1)) sels.
Proof.
  revert m. induction sels as [|[p ts] sels IH]; intros m Hm Hnd Hall; csimpl in *.
  { exists m. repeat split; [done|constructor]. }
  apply NoDup_cons in Hnd as [Hp Hnd]. apply Forall_cons in Hall as [H1 Hall]. simpl in H1.
  destruct (consume_spec m p ts Hm H1) as (m1 & Hc & Hm1 & Hp1 & Hother).
  destruct (IH m1 Hm1 Hnd) as (m' & Hf & Hm' & Hrest & Hall').
  { rewrite Forall_forall in *. intros s Hs. rewrite Hother; [by apply Hall|]. intros Heq. apply Hp. rewrite <-Heq.
    by apply list_elem_of_fmap_2. }
  exists m'. unfold begin_consume at 2. simpl. rewrite Hc. simpl. split; [exact Hf|]. split; [done|]. split.
  - intros q Hq. apply not_elem_of_cons in Hq as [Hq1 Hq2]. by rewrite Hrest, Hother.
  - constructor; simpl; [by rewrite Hrest|]. rewrite Forall_forall in *. intros s Hs.
    rewrite <-Hall' by done. rewrite Hother; [done|]. intros Heq. apply Hp. rewrite <-Heq. by apply list_elem_of_fmap_2.
Qed.

Lemma selections_places m fs (ars : list Arc) (sels : list Selection) :
  Forall2 (selection_ok m fs) ars sels → sels.*1 = arc_source <$> ars.
Proof. induction 1 as [|a s ars sels (Hp & _) _ IH]; csimpl; [done|]. by rewrite IH, Hp. Qed.

Lemma selections_present m fs (ars : list Arc) (sels : list Selection) :
  Forall2 (selection_ok m fs) ars sels → Forall (λ s : Selection, s.2 `sublist_of` marking_place m s.1) sels.
Proof. induction 1 as [|a s ars sels (Hp & Hs & _) _ IH]; constructor; [simpl; by rewrite Hp|done]. Qed.

Lemma selecting_perm (ins : list Arc) :
  filter (λ a, ¬ is_inhibit a) ins ≡ₚ filter (λ a, is_consume a) ins ++ filter (λ a, is_read a) ins.
Proof.
  induction ins as [|a ins IH]; [done|]. rewrite !filter_cons. unfold is_consume, is_inhibit, is_read in *.
  destruct (arc_mode a); simpl.
  - by rewrite IH.
  - rewrite IH. by rewrite Permutation_middle.
  - exact IH.
Qed.

(** A candidate whose selecting arcs come from distinct places can
    begin: its begin transform succeeds on the marking it was surveyed on, takes
    exactly the selected tokens out of each consumed place and leaves every
    other place alone. *)
Theorem candidate_can_begin n m gs fs ei w bs b :
  net_ok n → NoDup (dkeys m) → candidates n m gs fs (Some w) ei = Ok bs → b ∈ bs →
  NoDup (arc_source <$> filter (λ a, ¬ is_inhibit a) (inputs n (b_transition b))) →
  ∃ effects m', begin_firing m b = Ok (effects, m') ∧
    (∀ p, p ∉ (b_consumed b).*1 → marking_place m' p = marking_place m p) ∧
    Forall (λ s : Selection, norms (marking_place m s.1) ≡ₚ norms s.2 ++ norms (marking_place m' s.1)) (b_consumed b).
Proof.
  intros Hn Hm Hc Hb Hd. apply (candidates_findings _ _ _ _ _ _ _ _ Hc) in Hb as (path & f & _ & Hf & <- & _).
  apply found_enabled in Hf as [_ _ _ Hcons Hread _]; [|done].
  pose proof (selections_places _ _ _ _ Hcons) as Pc. pose proof (selections_places _ _ _ _ Hread) as Pr.
  pose proof (selections_present _ _ _ _ Hcons) as Sc. pose proof (selections_present _ _ _ _ Hread) as Sr.
  rewrite selecting_perm, fmap_app, <-Pc, <-Pr in Hd. apply NoDup_app in Hd as (Nc & Ncr & _).
  destruct (consume_all m (b_consumed f.1) Hm Nc) as (m' & Hfold & Hm' & Hother & Hall).
  { eapply Forall_impl; [exact Sc|]. intros s. apply sublist_norms. }
  eexists _, m'.
  split; [|done]. unfold begin_firing. rewrite Hfold. cbn [mbind result_bind].
  assert (forM_ (begin_read m') (b_read f.1) = Ok tt) as ->; [|done].
  apply forM_Ok. rewrite Forall_forall in *. intros s Hs. unfold begin_read.
  assert (marking_place m' s.1 = marking_place m s.1) as ->.
  { apply Hother. intros Hin. apply (Ncr _ Hin). by apply list_elem_of_fmap_2. }
  assert (is_ok (remove (time_blind (marking_place m s.1)) s.2 []) = true) as Hr.
  { apply remove_value_ok. assert (tokens_of (time_blind (marking_place m s.1)) = marking_place m s.1) as ->
      by (unfold tokens_of, time_blind; rewrite <-list_fmap_compose; apply list_fmap_id).
    apply sublist_norms. by apply Sr. }
  by destruct (remove _ _ _).
Qed.

Lemma candidate_can_begin_witness :
  ∃ effects m', begin_firing [(["p"], [black])] (MkBinding ["t"] [(["p"], [black])] [] []) = Ok (effects, m').
Proof.
  destruct (candidate_can_begin timed_net [(["p"], [black])] [] [] [(["p"], [0%Z])] 10%Z
           [MkBinding ["t"] [(["p"], [black])] [] []] (MkBinding ["t"] [(["p"], [black])] [] [])) as (e & m' & H & _).
  - exact timed_net_ok.
  - apply NoDup_singleton.
  - vm_compute. reflexivity.
  - apply list_elem_of_here.
  - vm_compute. apply NoDup_singleton.
  - exists e, m'. exact H.
Defined.
