(* ===== verification/RoutingTheorems.v ===== *)
(** * Routing

    What the completion transform deposits: at each place exactly the projected
    tokens some output arc admits there, in the order they were projected; and
    the default passthrough, of which the transform drops nothing. *)

From stdpp Require Import base gmap sets list strings.
From Stdlib Require Import ZArith Lia.
From S2P Require Import Prelude PyData Schema Marking Enabledness Firing.
Open Scope string_scope.
Open Scope list_scope.

(** The deposits of a completion at one place. *)
Definition produced_at (p : NetPath) (effects : list ProducedTokens) : list Token :=
  mjoin (produced_tokens <$> filter (λ e, produced_place e = p) effects).

(** The tokens a projection emits to one place, under any spelling of it. *)
Definition emitted_at (p : NetPath) (projected : Projected) : list Token :=
  mjoin ((λ d, match canonical_net_path d.1 with
               | Ok q => if decide (q = p) then d.2 else []
               | Err _ => []
               end) <$> projected).

Lemma produced_at_snoc p es e :
  produced_at p (es ++ [e]) = produced_at p es ++ (if decide (produced_place e = p) then produced_tokens e else []).
Proof.
  unfold produced_at. rewrite filter_app, fmap_app, join_app. f_equal. rewrite filter_cons, filter_nil.
  case_decide; simpl; [by rewrite app_nil_r|done].
Qed.

(** ** Coalescing *)

Lemma coalesce_keys emitted d emitted' :
  coalesce emitted d = Ok emitted' → NoDup (dkeys emitted) → NoDup (dkeys emitted').
Proof. unfold coalesce. intros H Hn. inv_ok. by apply NoDup_dkeys_dset. Qed.

Lemma coalesce_all projected emitted emitted' :
  foldM coalesce emitted projected = Ok emitted' → NoDup (dkeys emitted) →
  NoDup (dkeys emitted') ∧
  ∀ p, dget_default p [] emitted' = dget_default p [] emitted ++ emitted_at p projected.
Proof.
  revert emitted. induction projected as [|d projected IH]; intros emitted H Hn; cbn [foldM] in H.
  { injection H as <-. split; [done|]. intros p. unfold emitted_at. simpl. by rewrite app_nil_r. }
  apply bind_Ok in H as (e1 & H1 & H). pose proof (coalesce_keys _ _ _ H1 Hn) as Hn1.
  destruct (IH _ H Hn1) as [Hk Hat]. split; [done|]. intros p. rewrite Hat. unfold emitted_at. csimpl.
  unfold coalesce in H1. apply bind_Ok in H1 as (q & Hq & [= <-]). rewrite Hq, (assoc_L (++)). f_equal.
  unfold dget_default. rewrite dget_dset. destruct (decide (p = q)) as [->|Hne].
  - by rewrite decide_True.
  - rewrite decide_False by congruence. by rewrite app_nil_r.
Qed.

(** ** Depositing *)

Lemma deposits_spec m p ts :
  NoDup (dkeys m) →
  NoDup (dkeys (foldl (λ m t, marking_deposit m p t) m ts)) ∧
  ∀ p', marking_place (foldl (λ m t, marking_deposit m p t) m ts) p'
        = marking_place m p' ++ (if decide (p = p') then ts else []).
Proof.
  revert m. induction ts as [|t ts IH]; intros m Hm; simpl.
  { split; [done|]. intros p'. case_decide; by rewrite app_nil_r. }
  assert (NoDup (dkeys (marking_deposit m p t))) as Hd
    by (apply NoDup_dkeys_filter, NoDup_dkeys_dset; done).
  destruct (IH _ Hd) as [Hk Hp]. split; [done|]. intros p'. rewrite Hp. unfold marking_deposit.
  rewrite marking_new_place by (by apply NoDup_dkeys_dset).
  unfold marking_place, dget_default. destruct (decide (p = p')) as [->|Hne].
  - rewrite dget_dset_eq. simpl. by rewrite <-(assoc_L (++)).
  - by rewrite dget_dset_ne.
Qed.

Lemma complete_place_spec outs s pt :
  NoDup (dkeys s.2) →
  let deposited := filter (λ t, routed_to outs pt.1 t) pt.2 in
  let s' := complete_place outs s pt in
  NoDup (dkeys s'.2) ∧
  (∀ p, produced_at p s'.1 = produced_at p s.1 ++ (if decide (pt.1 = p) then deposited else [])) ∧
  (∀ p, marking_place s'.2 p = marking_place s.2 p ++ (if decide (pt.1 = p) then deposited else [])).
Proof.
  intros Hm. destruct pt as [q ts]. simpl. destruct (filter _ ts) as [|t dep] eqn:E; simpl.
  { split; [done|]. split; intros p; case_decide; by rewrite app_nil_r. }
  destruct (deposits_spec s.2 q (t :: dep) Hm) as [Hk Hp]. split; [exact Hk|]. split; [|exact Hp].
  intros p. by rewrite produced_at_snoc.
Qed.

Lemma complete_places_spec outs emitted s :
  NoDup (dkeys s.2) → NoDup (dkeys emitted) →
  let s' := foldl (complete_place outs) s emitted in
  NoDup (dkeys s'.2) ∧
  ∀ p, let deposited := filter (λ t, routed_to outs p t) (dget_default p [] emitted) in
    produced_at p s'.1 = produced_at p s.1 ++ deposited ∧ marking_place s'.2 p = marking_place s.2 p ++ deposited.
Proof.
  revert s. induction emitted as [|[q ts] emitted IH]; intros s Hm Hn.
  { simpl. split; [done|]. intros p. unfold dget_default. simpl. by rewrite !app_nil_r. }
  apply NoDup_cons in Hn as [Hq Hn]. destruct (complete_place_spec outs s (q, ts) Hm) as (Hk & H1 & H2).
  destruct (IH _ Hk Hn) as [Hk' Hp]. cbn [foldl]. cbv zeta in *.
  split; [done|]. intros p. destruct (Hp p) as [-> ->].
  rewrite H1, H2, <-!(assoc_L (++)). unfold dget_default. cbn [dget fst snd].
  destruct (decide (q = p)) as [->|Hne].
  - rewrite decide_True by done. rewrite (proj2 (dget_None p emitted)) by done. simpl. by rewrite !app_nil_r.
  - by rewrite decide_False by congruence.
Qed.

(** The completion transform, place by place. *)
Lemma complete_firing_spec n m t projected effects m' :
  NoDup (dkeys m) → complete_firing n m t projected = Ok (effects, m') →
  NoDup (dkeys m') ∧
  ∀ p, produced_at p effects = filter (λ tok, routed_to (outputs n t) p tok) (emitted_at p projected) ∧
       marking_place m' p = marking_place m p ++ produced_at p effects.
Proof.
  unfold complete_firing. intros Hm H. apply bind_Ok in H as (emitted & He & H).
  destruct (coalesce_all _ _ _ He (NoDup_nil_2)) as [Hk Hat].
  destruct (complete_places_spec (outputs n t) emitted ([], m) Hm Hk) as [Hk' Hp].
  injection H as H. cbv zeta in *. unfold Marking in *. rewrite H in Hk', Hp. simpl in *. split; [done|]. intros p.
  destruct (Hp p) as [-> ->]. rewrite Hat. done.
Qed.

(** ** The default passthrough *)

(** What the output arcs to one place forward, arc by arc. *)
Definition forwarded_at (p : NetPath) (tokens : list Token) (outs : list Arc) : list Token :=
  mjoin ((λ a, filter (λ t, admits a t) tokens) <$> filter (λ a, arc_target a = p) outs).

Lemma route_loop tokens outs routed :
  NoDup (dkeys routed) →
  NoDup (dkeys (foldl (route_arc tokens) routed outs)) ∧
  ∀ p, dget_default p [] (foldl (route_arc tokens) routed outs)
       = dget_default p [] routed ++ forwarded_at p tokens outs.
Proof.
  revert routed. induction outs as [|a outs IH]; intros routed Hn.
  { simpl. split; [done|]. intros p. unfold forwarded_at. simpl. by rewrite app_nil_r. }
  cbn [foldl].
  assert (NoDup (dkeys (route_arc tokens routed a)) ∧
          ∀ p, dget_default p [] (route_arc tokens routed a) = dget_default p [] routed ++
               (if decide (arc_target a = p) then filter (λ t, admits a t) tokens else [])) as [Hn1 Hat].
  { unfold route_arc. destruct (filter _ tokens) as [|t adm] eqn:E.
    - split; [done|]. intros p. case_decide; by rewrite app_nil_r.
    - split; [by apply NoDup_dkeys_dset|]. intros p. unfold dget_default. rewrite dget_dset.
      destruct (decide (p = arc_target a)) as [->|Hne]; [by rewrite decide_True|].
      rewrite decide_False by congruence. by rewrite app_nil_r. }
  destruct (IH _ Hn1) as [Hk Hp]. split; [done|]. intros p. rewrite Hp, Hat, <-(assoc_L (++)). f_equal.
  unfold forwarded_at. rewrite filter_cons. case_decide; done.
Qed.

Lemma forwarded_routed p tokens outs : Forall (λ t, Is_true (routed_to outs p t)) (forwarded_at p tokens outs).
Proof.
  apply Forall_forall. intros t Ht. unfold forwarded_at in Ht. apply list_elem_of_join in Ht as (l & Ht & Hl).
  apply list_elem_of_fmap in Hl as (a & -> & Ha). apply list_elem_of_filter in Ha as [Htgt Ha].
  apply list_elem_of_filter in Ht as [Hadm _]. apply Is_true_true, existsb_exists. exists a.
  split; [by apply list_elem_of_In|]. rewrite bool_decide_true by done. by apply Is_true_true.
Qed.

Lemma emitted_paths (d : dict NetPath (list Token)) p :
  NoDup (dkeys d) → emitted_at p (projected_of d) = dget_default p [] d.
Proof.
  unfold emitted_at, projected_of. induction d as [|[q ts] d IH]; intros Hn; [done|].
  apply NoDup_cons in Hn as [Hq Hn]. csimpl. rewrite (IH Hn). unfold dget_default. cbn [dget fst snd].
  destruct (decide (q = p)) as [->|Hne].
  - rewrite (decide_True (P := p = p)) by done. rewrite (proj2 (dget_None p d)) by done. simpl. by rewrite app_nil_r.
  - by rewrite decide_False by congruence.
Qed.

Lemma coalesce_paths (d acc : dict NetPath (list Token)) : ∃ emitted, foldM coalesce acc (projected_of d) = Ok emitted.
Proof. revert acc. induction d as [|[q ts] d IH]; intros acc; [by exists acc|]. apply IH. Qed.

(** The default passthrough loses and invents nothing. Completing with
    it succeeds and puts at the tail of every place, for each output arc to it
    in order, the forwarded tokens that arc admits, in their order. *)
Theorem passthrough_deposits_what_arcs_admit n m t b :
  NoDup (dkeys m) →
  ∃ effects m', complete_firing n m t (projected_of (passthrough b (outputs n t))) = Ok (effects, m') ∧
    ∀ p, produced_at p effects = forwarded_at p (b_tokens b) (outputs n t) ∧
         marking_place m' p = marking_place m p ++ forwarded_at p (b_tokens b) (outputs n t).
Proof.
  intros Hm. destruct (route_loop (b_tokens b) (outputs n t) [] (NoDup_nil_2)) as [Hk Hat].
  fold (route (b_tokens b) (outputs n t)) in Hk, Hat. fold (passthrough b (outputs n t)) in Hk, Hat.
  destruct (coalesce_paths (passthrough b (outputs n t)) []) as [emitted He].
  assert (∃ effects m', complete_firing n m t (projected_of (passthrough b (outputs n t))) = Ok (effects, m'))
    as (effects & m' & Hc).
  { unfold complete_firing. rewrite He. simpl. destruct (foldl _ _ _) as [effects m']. eauto. }
  exists effects, m'. split; [done|]. intros p. destruct (complete_firing_spec _ _ _ _ _ _ Hm Hc) as [_ Hp].
  destruct (Hp p) as [Hprod ->]. rewrite emitted_paths, Hat in Hprod by done. simpl in Hprod.
  rewrite Hprod. by rewrite filter_all by (apply Forall_forall, forwarded_routed).
Qed.

Definition fork_net : Net :=
  match Net_init [MkPlace ["p"] None; MkPlace ["q"] None] [MkTransition ["t"] None [] []]
          [MkArc ["p"] ["t"] CONSUME 1 None None; MkArc ["t"] ["q"] CONSUME 1 (Some "Red") None;
           MkArc ["t"] ["q"] CONSUME 1 None None] None None with
  | Ok n => n
  | Err _ => MkNet [] [] [] None None [] [] [] [] [] [] [] [] [] []
  end.

Lemma passthrough_deposits_what_arcs_admit_witness :
  let red := MkToken (Some "Red") DNone in
  let b := MkBinding ["t"] [(["p"], [black; red])] [] [] in
  ∃ effects m', complete_firing fork_net [] ["t"] (projected_of (passthrough b (outputs fork_net ["t"]))) = Ok (effects, m') ∧
    marking_place m' ["q"] = [red; black; red].
Proof.
  intros red b. assert (NoDup (dkeys ([] : Marking))) as Hm by (apply NoDup_nil_2).
  destruct (passthrough_deposits_what_arcs_admit fork_net [] ["t"] b Hm) as (effects & m' & Hc & Hp).
  exists effects, m'. split; [exact Hc|]. destruct (Hp ["q"]) as [_ Hq]. rewrite Hq. vm_compute. reflexivity.
Defined.
