(* ===== verification/Activity.v ===== *)
(** * Activity values (src/src/petrus/motus/activity/__init__.py)

    The Petri-agnostic execution values the kernel records: retry and execution
    policies, invocations and classified failures. Durations are the Python
    numbers they are, exact integers or finite binary floats. Then
    [RetryPolicy.delay] and the conversion of durations to provider milliseconds
    of src/src/petrus/motus/dispatch/local.py, once in Python ([_milliseconds])
    and once in the SQL of the deadline sweep. A float product is rounded to the
    53-bit significand of a double. The logarithms and exponentials of the
    geometric backoff and the length of a JSON text are what the Python runtime
    computes on floats: a [Platform]. *)

From stdpp Require Import base gmap sets list strings.
From Stdlib Require Import ZArith Lia.
From S2P Require Import Prelude PyData.
Open Scope string_scope.
Open Scope list_scope.

(** A finite Python number: [int], or [m * 2^e]. *)
Inductive Number :=
| NInt (z : Z)
| NFloat (m e : Z).

#[export] Instance Number_eq_dec : EqDecision Number.
Proof. solve_decision. Defined.

(** Comparison of a number with an integer constant. *)
Definition num_compare (x : Number) (c : Z) : comparison :=
  match x with
  | NInt z => Z.compare z c
  | NFloat m e =>
      if (0 <=? e)%Z then Z.compare (m * 2 ^ e) c else Z.compare m (c * 2 ^ (- e))
  end.

Definition num_lt (x : Number) (c : Z) : bool := match num_compare x c with Lt => true | _ => false end.
Definition num_gt (x : Number) (c : Z) : bool := match num_compare x c with Gt => true | _ => false end.
Definition num_eq (x : Number) (c : Z) : bool := match num_compare x c with Eq => true | _ => false end.

Definition MAX_DURATION_SECONDS : Z := 1000000000.

Record RetryPolicy := MkRetryPolicy {
  rp_initial_interval : Number;
  rp_coefficient : Number;
  rp_max_interval : Number;
  rp_max_attempts : Z;
  rp_jitter : Number
}.

(** [RetryPolicy.__post_init__] *)
Definition RetryPolicy_post_init (p : RetryPolicy) : result unit :=
  forM_ (λ v, raise_if (num_lt v 0) (ValueError "RetryPolicy field must be a non-negative number"))
    [rp_initial_interval p; rp_coefficient p; rp_max_interval p; rp_jitter p];;
  forM_ (λ v, raise_if (num_gt v MAX_DURATION_SECONDS) (ValueError "RetryPolicy interval must be at most 1000000000 seconds"))
    [rp_initial_interval p; rp_max_interval p];;
  raise_if (num_lt (rp_coefficient p) 1) (ValueError "RetryPolicy coefficient must be >= 1");;
  raise_if (rp_max_attempts p <? 1)%Z (ValueError "RetryPolicy max_attempts must be an integer >= 1");;
  raise_if (negb (num_eq (rp_jitter p) 0)) (ValueError "RetryPolicy jitter is unsupported").

Record ExecutionPolicy := MkPolicy {
  attempts : Z;
  heartbeat_timeout : Z;
  initial_interval : Number;
  coefficient : Number;
  max_interval : Number;
  jitter : Number;
  start_to_close : option Number;
  schedule_to_close : option Number
}.

#[export] Instance ExecutionPolicy_eq_dec : EqDecision ExecutionPolicy.
Proof. solve_decision. Defined.

Definition default_policy : ExecutionPolicy :=
  MkPolicy 1 30 (NInt 0) (NInt 2) (NInt 60) (NInt 0) None None.

(** [ExecutionPolicy.retry_policy] *)
Definition retry_policy (p : ExecutionPolicy) : RetryPolicy :=
  MkRetryPolicy (initial_interval p) (coefficient p) (max_interval p) (attempts p) (jitter p).

(** [ExecutionPolicy.__post_init__] *)
Definition ExecutionPolicy_post_init (p : ExecutionPolicy) : result unit :=
  raise_if (attempts p <? 1)%Z (ValueError "ExecutionPolicy requires attempts >= 1");;
  raise_if (heartbeat_timeout p <=? 0)%Z (ValueError "ExecutionPolicy heartbeat_timeout must be a positive integer");;
  raise_if (MAX_DURATION_SECONDS <? heartbeat_timeout p)%Z
    (ValueError "ExecutionPolicy heartbeat_timeout must be at most 1000000000 seconds");;
  RetryPolicy_post_init (retry_policy p);;
  forM_ (λ v, match v with
              | None => Ok tt
              | Some v =>
                  raise_if (negb (num_gt v 0)) (ValueError "ExecutionPolicy deadline must be a positive number or None");;
                  raise_if (num_gt v MAX_DURATION_SECONDS) (ValueError "ExecutionPolicy deadline must be at most 1000000000 seconds")
              end)
    [start_to_close p; schedule_to_close p].

Record ActivityInvocation := MkInvocation {
  inv_activity : string;
  inv_input : Data;
  inv_policy : ExecutionPolicy;
  inv_correlation : option string;
  inv_idempotency : option string
}.

#[export] Instance ActivityInvocation_eq_dec : EqDecision ActivityInvocation.
Proof. solve_decision. Defined.

Definition empty_opt (s : option string) : bool :=
  match s with Some s => str_empty s | None => false end.

(** [ActivityInvocation.__post_init__] *)
Definition ActivityInvocation_post_init (i : ActivityInvocation) : result unit :=
  raise_if (str_empty (inv_activity i)) (ValueError "ActivityInvocation requires a non-empty string activity name");;
  forM_ (λ v, raise_if (empty_opt v) (ValueError "ActivityInvocation identity must be a non-empty string, or None"))
    [inv_correlation i; inv_idempotency i].

Record ActivityFailure := MkFailure {
  f_error : string;
  f_kind : string;
  f_details : Data;
  f_retryable : bool;
  f_retry_after : option Number
}.

#[export] Instance ActivityFailure_eq_dec : EqDecision ActivityFailure.
Proof. solve_decision. Defined.

(** [ActivityFailure(...)]: the value checks of [__post_init__], then the JSON
    snapshot [_failure_details] takes of the details. Its limit on the size of
    the encoded details depends on the spelling of floats and is not modelled. *)
Definition ActivityFailure_new (error kind : string) (details : Data) (retryable : bool)
    (retry_after : option Number) : result ActivityFailure :=
  raise_if (str_empty error || (4096 <? str_len error)%nat)
    (ValueError "ActivityFailure error must be a non-empty string of at most 4096 characters");;
  raise_if (str_empty kind || (128 <? str_len kind)%nat)
    (ValueError "ActivityFailure kind must be a non-empty string of at most 128 characters");;
  (match retry_after with
   | None => Ok tt
   | Some r =>
       raise_if (num_lt r 0) (ValueError "ActivityFailure retry_after must be a non-negative number or None");;
       raise_if (num_gt r MAX_DURATION_SECONDS) (ValueError "ActivityFailure retry_after must be at most 1000000000 seconds")
   end);;
  snapshot ← canonical_payload details;
  Ok (MkFailure error kind snapshot retryable retry_after).

(** [ActivityFailure(error)] with its defaults. *)
Definition failure_of_text (error : string) : result ActivityFailure :=
  ActivityFailure_new error "ActivityError" DNone false None.

(** The values the constructor can produce: rebuilding one is the identity. *)
Definition valid_failure (f : ActivityFailure) : Prop :=
  ActivityFailure_new (f_error f) (f_kind f) (f_details f) (f_retryable f) (f_retry_after f) = Ok f.

Lemma ActivityFailure_new_valid e k d b r f : ActivityFailure_new e k d b r = Ok f → valid_failure f.
Proof.
  unfold valid_failure, ActivityFailure_new. intros H. inv_ok. simpl in *.
  repeat match goal with H : ?b = false |- _ => rewrite H; clear H end. simpl.
  match goal with H : match _ with _ => _ end = _ |- _ => rewrite H end. simpl.
  match goal with H : canonical_payload _ = _ |- _ => apply canonical_payload_shape in H end.
  by rewrite canonical_payload_id.
Qed.

(** Python equality of numbers, invocations and failures, by normal form. *)
Definition num_norm (x : Number) : Number :=
  match x with
  | NInt z => NInt z
  | NFloat m e => let '(m, e) := float_norm m e in
                  if (0 <=? e)%Z then NInt (m * 2 ^ e) else NFloat m e
  end.

Definition policy_norm (p : ExecutionPolicy) : ExecutionPolicy :=
  MkPolicy (attempts p) (heartbeat_timeout p) (num_norm (initial_interval p))
    (num_norm (coefficient p)) (num_norm (max_interval p)) (num_norm (jitter p))
    (num_norm <$> start_to_close p) (num_norm <$> schedule_to_close p).

Definition invocation_norm (i : ActivityInvocation) : ActivityInvocation :=
  MkInvocation (inv_activity i) (py_norm (inv_input i)) (policy_norm (inv_policy i))
    (inv_correlation i) (inv_idempotency i).

Definition num_data (x : Number) : Data :=
  match x with NInt z => DInt z | NFloat m e => DFloat m e end.

(** ** Retry delays and provider milliseconds *)

Local Open Scope Z_scope.

(** [saturation i c m] is the ceiling of (log m - log i) / log c, [growth i c n]
    is exp (log i + n log c), [json_bytes] the size of a JSON text in UTF-8. *)
Record Platform := MkPlatform {
  saturation : Number → Number → Number → Z;
  growth : Number → Number → Z → Number;
  json_bytes : Data → Z
}.

(** ** Comparing numbers *)

Definition num_parts (x : Number) : Z * Z :=
  match x with NInt z => (z, 0) | NFloat m e => (m, e) end.

(** The numerators of two numbers over their common power of two. *)
Definition num_align (x y : Number) : Z * Z :=
  let '(m, e) := num_parts x in
  let '(m', e') := num_parts y in
  let low := Z.min e e' in (m * 2 ^ (e - low), m' * 2 ^ (e' - low)).

Definition num_leb (x y : Number) : bool := let '(a, b) := num_align x y in a <=? b.
Definition num_ltb (x y : Number) : bool := let '(a, b) := num_align x y in a <? b.

(** [min(x, y)] and [max(x, y)] keep the first of equal arguments. *)
Definition num_min (x y : Number) : Number := if num_ltb y x then y else x.
Definition num_max (x y : Number) : Number := if num_ltb x y then y else x.

(** ** [RetryPolicy.delay] *)

Definition delay (P : Platform) (p : RetryPolicy) (failed_attempt : Z) : result Number :=
  raise_if (failed_attempt <? 1) (ValueError "RetryPolicy delay requires a failed attempt number >= 1");;
  Ok (if num_eq (rp_initial_interval p) 0 || num_eq (rp_max_interval p) 0 then NInt 0
      else if num_leb (rp_max_interval p) (rp_initial_interval p) then rp_max_interval p
      else if num_eq (rp_coefficient p) 1 then rp_initial_interval p
      else
        let exponent := failed_attempt - 1 in
        if saturation P (rp_initial_interval p) (rp_coefficient p) (rp_max_interval p) <=? exponent
        then rp_max_interval p
        else num_min (rp_max_interval p) (growth P (rp_initial_interval p) (rp_coefficient p) exponent)).

(** ** Milliseconds *)

(** [m / 2^d] to the nearest integer, ties to even. *)
Definition round_shift (m d : Z) : Z :=
  let q := m / 2 ^ d in
  let r := m mod 2 ^ d in
  if (2 * r <? 2 ^ d) || ((2 * r =? 2 ^ d) && Z.even q) then q else q + 1.

(** The double nearest to [m * 2^e]: 53 significant bits, exponents from -1074. *)
Definition float_round (m e : Z) : Z * Z :=
  let d := Z.max (Z.log2 (Z.abs m) + 1 - 53) (-1074 - e) in
  if d <=? 0 then (m, e) else (round_shift m d, e + d).

Definition float_ceil (m e : Z) : Z := if 0 <=? e then m * 2 ^ e else - ((- m) / 2 ^ (- e)).
Definition float_trunc (m e : Z) : Z := if 0 <=? e then m * 2 ^ e else m ÷ 2 ^ (- e).

(** [x * 1000] *)
Definition thousand (x : Number) : Number :=
  match x with
  | NInt z => NInt (z * 1000)
  | NFloat m e => let '(m, e) := float_round (m * 1000) e in NFloat m e
  end.

(** [_milliseconds] *)
Definition milliseconds (seconds : Number) : Z :=
  if num_gt seconds 0 then
    match thousand seconds with NInt z => z | NFloat m e => float_ceil m e end
  else 0.

(** [CAST(x*1000 AS INTEGER) + (x*1000 > CAST(x*1000 AS INTEGER))] *)
Definition sql_milliseconds (x : Number) : Z :=
  let y := thousand x in
  let cast := match y with NInt z => z | NFloat m e => float_trunc m e end in
  cast + (if num_gt y cast then 1 else 0).

(** ** Laws *)

Lemma round_shift_nonneg m d : 0 <= m → 0 < d → 0 <= round_shift m d.
Proof.
  intros Hm Hd. unfold round_shift. pose proof (Z.div_pos m (2 ^ d) Hm (Z.pow_pos_nonneg 2 d ltac:(lia) ltac:(lia))).
  case_match; lia.
Qed.

Lemma float_round_nonneg m e : 0 <= m → 0 <= (float_round m e).1.
Proof.
  intros Hm. unfold float_round. case_match eqn:E; simpl; [done|]. apply round_shift_nonneg; [done|].
  apply Z.leb_gt in E. lia.
Qed.

Lemma num_gt_float m e : num_gt (NFloat m e) 0 = true → 0 < m.
Proof.
  unfold num_gt, num_compare. destruct (0 <=? e) eqn:E.
  - apply Z.leb_le in E. destruct (Z.compare_spec (m * 2 ^ e) 0); try done. intros _.
    pose proof (Z.pow_pos_nonneg 2 e ltac:(lia) E). nia.
  - rewrite Z.mul_0_l. destruct (Z.compare_spec m 0); done || lia.
Qed.

Lemma num_gt_int z c : num_gt (NInt z) c = true ↔ c < z.
Proof. unfold num_gt, num_compare. destruct (Z.compare_spec z c); split; intros; done || lia. Qed.

(** Truncating and adding one where something was cut is the ceiling. *)
Lemma float_ceil_trunc m e : 0 <= m →
  float_trunc m e + (if num_gt (NFloat m e) (float_trunc m e) then 1 else 0) = float_ceil m e.
Proof.
  intros Hm. unfold float_trunc, float_ceil, num_gt, num_compare. destruct (0 <=? e) eqn:E.
  - rewrite Z.compare_refl. lia.
  - apply Z.leb_gt in E. pose proof (Z.pow_pos_nonneg 2 (- e) ltac:(lia) ltac:(lia)) as Hp.
    set (p := 2 ^ (- e)) in *. rewrite Z.quot_div_nonneg by lia.
    pose proof (Z.div_mod m p ltac:(lia)). pose proof (Z.mod_pos_bound m p ltac:(lia)).
    destruct (Z.compare_spec m (m / p * p)) as [Heq|Hlt|Hgt].
    + rewrite Z_div_zero_opp_full by nia. lia.
    + nia.
    + rewrite Z_div_nz_opp_full by nia. lia.
Qed.

(** The deadline the sweep computes in SQL is the one [claim] and [fail]
    compute in Python. *)
Lemma sql_milliseconds_eq x : num_gt x 0 = true → sql_milliseconds x = milliseconds x.
Proof.
  intros Hx. unfold sql_milliseconds, milliseconds. rewrite Hx. destruct x as [z|m e]; simpl.
  - destruct (num_gt (NInt (z * 1000)) (z * 1000)) eqn:E; [|lia]. apply num_gt_int in E. lia.
  - apply num_gt_float in Hx. pose proof (float_round_nonneg (m * 1000) e ltac:(lia)) as Hr.
    destruct (float_round (m * 1000) e) as [m' e']. simpl in *. by apply float_ceil_trunc.
Qed.

Lemma milliseconds_nonneg x : 0 <= milliseconds x.
Proof.
  unfold milliseconds. destruct (num_gt x 0) eqn:Hx; [|done]. destruct x as [z|m e]; simpl.
  - apply num_gt_int in Hx. lia.
  - apply num_gt_float in Hx. pose proof (float_round_nonneg (m * 1000) e ltac:(lia)) as Hr.
    destruct (float_round (m * 1000) e) as [m' e']. simpl in *. unfold float_ceil. case_match eqn:E.
    + apply Z.leb_le in E. pose proof (Z.pow_pos_nonneg 2 e' ltac:(lia) E). nia.
    + apply Z.leb_gt in E. pose proof (Z.pow_pos_nonneg 2 (- e') ltac:(lia) ltac:(lia)).
      pose proof (Z.div_le_mono (- m') 0 (2 ^ (- e'))). rewrite Z.div_0_l in *; lia.
Qed.

Lemma num_min_le_l x y : num_leb (num_min x y) x = true.
Proof.
  unfold num_min, num_leb. destruct (num_ltb y x) eqn:E.
  - unfold num_ltb in E. destruct (num_align y x). apply Z.ltb_lt in E. apply Z.leb_le. lia.
  - unfold num_align. destruct (num_parts x). by apply Z.leb_refl.
Qed.

Lemma num_leb_refl x : num_leb x x = true.
Proof. unfold num_leb, num_align. destruct (num_parts x). apply Z.leb_refl. Qed.
