(* ===== verification/Records.v ===== *)
(** * History records (src/src/petrus/impetus/history/__init__.py, lines 55-871)

    The record union of the event history, the construction checks of each
    dataclass and the field validators applied by the live writer before an
    append and by replay before any record is read. Static typing replaces the
    sources' exact-type checks; every value check is kept. *)

From stdpp Require Import base gmap sets list strings.
From Stdlib Require Import ZArith Lia.
From S2P Require Import Prelude PyData Schema Marking Enabledness Firing Activity.
Open Scope string_scope.
Open Scope list_scope.

Inductive HRecord :=
| InstanceCreated (instance : string) (name : option string) (instant : Instant)
| TokensInitialized (place : NetPath) (tokens : list Token) (instant : Instant)
    (entries : list Z) (scope : option LifecycleScope)
| ScopeOpened (scope : LifecycleScope) (instant : Instant)
| ScopeClosed (scope : LifecycleScope) (discarded cancelled : list Z) (instant : Instant)
| ScopeReset (closed opened : LifecycleScope) (discarded cancelled : list Z) (instant : Instant)
| CandidateSelected (transition : NetPath) (occurrence : Z) (instant : Instant)
| ExternalEventDelivered (source : NetPath) (tokens : list Token) (identity : string)
    (occurrence : Z) (scope : option LifecycleScope) (instant : Instant)
| ScopedDeliveryDropped (source : NetPath) (tokens : list Token) (identity : string)
    (scope : LifecycleScope) (instant : Instant)
| ScopedDeliveryQuarantined (source : NetPath) (tokens : list Token) (identity : string)
    (scope : LifecycleScope + string) (instant : Instant)
| DeliveryRegistrationOpened (source : NetPath) (key : string) (occurrence : option Z) (instant : Instant)
| DeliveryRegistrationClosed (source : NetPath) (key : string) (occurrence : option Z) (instant : Instant)
| TimerMatured (maturation_instant instant : Instant)
| FiringBegun (transition : NetPath) (occurrence : Z) (scope : option LifecycleScope) (instant : Instant)
| TokensConsumed (place : NetPath) (tokens : list Token) (occurrence : Z) (entries : list Z)
    (scope : option LifecycleScope) (instant : Instant)
| TokensRead (place : NetPath) (tokens : list Token) (occurrence : Z) (entries : list Z)
    (scope : option LifecycleScope) (instant : Instant)
| ActivityRequested (transition : NetPath) (activity : string) (input : Data) (policy : ExecutionPolicy)
    (correlation idempotency : string) (occurrence : Z) (scope : option LifecycleScope) (instant : Instant)
| ActivityCompleted (transition : NetPath) (result : Data) (occurrence : Z) (instant : Instant)
| ActivityFailed (transition : NetPath) (error kind : string) (details : Data) (retryable : bool)
    (retry_after : option Number) (occurrence : Z) (instant : Instant)
| ActivityTerminalQuarantined (transition : NetPath) (outcome : Data) (scope : LifecycleScope)
    (occurrence : Z) (instant : Instant)
| TokensProduced (place : NetPath) (tokens : list Token) (occurrence : Z) (entries : list Z)
    (scope : option LifecycleScope) (instant : Instant)
| FiringCompleted (transition : NetPath) (occurrence : Z) (instant : Instant)
| FiringFailed (transition : NetPath) (error : string) (occurrence : Z) (instant : Instant).

#[export] Instance HRecord_eq_dec : EqDecision HRecord.
Proof. solve_decision. Defined.

(** [record.instant] *)
Definition rec_instant (r : HRecord) : Instant :=
  match r with
  | InstanceCreated _ _ i | TokensInitialized _ _ i _ _ | ScopeOpened _ i | ScopeClosed _ _ _ i
  | ScopeReset _ _ _ _ i | CandidateSelected _ _ i | ExternalEventDelivered _ _ _ _ _ i
  | ScopedDeliveryDropped _ _ _ _ i | ScopedDeliveryQuarantined _ _ _ _ i
  | DeliveryRegistrationOpened _ _ _ i | DeliveryRegistrationClosed _ _ _ i | TimerMatured _ i
  | FiringBegun _ _ _ i | TokensConsumed _ _ _ _ _ i | TokensRead _ _ _ _ _ i
  | ActivityRequested _ _ _ _ _ _ _ _ i | ActivityCompleted _ _ _ i | ActivityFailed _ _ _ _ _ _ _ i
  | ActivityTerminalQuarantined _ _ _ _ i | TokensProduced _ _ _ _ _ i | FiringCompleted _ _ i
  | FiringFailed _ _ _ i => i
  end.

(** [getattr(record, "occurrence", None)] *)
Definition rec_occurrence (r : HRecord) : option Z :=
  match r with
  | CandidateSelected _ o _ | ExternalEventDelivered _ _ _ o _ _ | FiringBegun _ o _ _
  | TokensConsumed _ _ o _ _ _ | TokensRead _ _ o _ _ _ | ActivityRequested _ _ _ _ _ _ o _ _
  | ActivityCompleted _ _ o _ | ActivityFailed _ _ _ _ _ _ o _ | ActivityTerminalQuarantined _ _ _ o _
  | TokensProduced _ _ o _ _ _ | FiringCompleted _ o _ | FiringFailed _ _ o _ => Some o
  | DeliveryRegistrationOpened _ _ o _ | DeliveryRegistrationClosed _ _ o _ => o
  | _ => None
  end.

(** [DeliveryRegistration] and its construction check. *)
Record DeliveryRegistration := MkRegistration { reg_source : NetPath; reg_key : string }.

#[export] Instance DeliveryRegistration_eq_dec : EqDecision DeliveryRegistration.
Proof. solve_decision. Defined.

Definition DeliveryRegistration_new (source : path_arg) (key : string) : result DeliveryRegistration :=
  path ← canonical_net_path source;
  raise_if (str_empty key) (ValueError "DeliveryRegistration requires a non-empty string key");;
  Ok (MkRegistration path key).

(** ** Construction checks *)

(** [_validate_positive_ids] (also [_validate_occurrence_ids]) *)
Definition validate_positive_ids (values : list Z) : result unit :=
  raise_if (existsb (λ v, (v <? 1)%Z) values) (ValueError "must use exact positive integers");;
  raise_if (negb (bool_decide (NoDup values))) (ValueError "must be unique").

(** [_validate_entries] *)
Definition validate_entries (tokens : list Token) (entries : list Z)
    (scope : option LifecycleScope) : result unit :=
  let aligned := (length entries =? length tokens)%nat in
  raise_if (negb (bool_decide (entries = [])) && negb aligned)
    (ValueError "requires one queue-entry identity per token");;
  raise_if (existsb (λ v, (v <? 1)%Z) entries)
    (ValueError "queue-entry identities must be positive integers");;
  raise_if (negb (bool_decide (NoDup entries))) (ValueError "queue-entry identities must be unique");;
  raise_if (bool_decide (is_Some scope) && negb aligned)
    (ValueError "scoped movements require one queue-entry identity per token");;
  raise_if (negb (bool_decide (entries = [])) && bool_decide (scope = None))
    (ValueError "queue-entry identities require lifecycle scope provenance").

(** [_validate_occurrence_id] *)
Definition validate_occurrence_id (o : Z) : result unit :=
  raise_if (o <? 1)%Z (ValueError "must be a positive integer").

(** [_validate_delivery_identity] *)
Definition validate_delivery_identity (identity : string) : result unit :=
  raise_if (str_empty identity) (ValueError "requires an exact non-empty string identity").

(** [_validate_delivery_tokens]: non-empty, every payload strict JSON of
    canonical shape ([json.dumps] refuses exactly what has no JSON spelling). *)
Definition validate_delivery_tokens (tokens : list Token) : result unit :=
  raise_if (bool_decide (tokens = [])) (ValueError "tokens must be a non-empty tuple of canonical Tokens");;
  forM_ (λ t,
      raise_if (negb (is_ok (canonical_payload (data t)))) (ValueError "token data must be strict JSON");;
      raise_if (negb (canonical_json_shape (data t))) (ValueError "token data must have canonical JSON types"))
    tokens.

(** [_validated_registration_source], for a path already canonical. *)
Definition validate_registration (key : string) (occurrence : option Z) : result unit :=
  raise_if (str_empty key) (ValueError "requires a non-empty string key");;
  match occurrence with Some o => validate_occurrence_id o | None => Ok tt end.

Definition bad_error_text (error : string) : bool := str_empty error || (4096 <? str_len error)%nat.

(** The [__post_init__] of each record dataclass. *)
Definition Record_post_init (r : HRecord) : result unit :=
  match r with
  | TokensInitialized _ ts _ es sc => validate_entries ts es sc
  | ScopeClosed _ d c _ => validate_positive_ids d;; validate_positive_ids c
  | ScopeReset closed opened d c _ =>
      raise_if (negb (bool_decide (scope_name opened = scope_name closed))
                || negb (bool_decide (scope_generation opened = scope_generation closed + 1)%Z))
        (ValueError "ScopeReset must open the immediate next generation of the same name");;
      validate_positive_ids d;; validate_positive_ids c
  | CandidateSelected _ o _ => validate_occurrence_id o
  | ExternalEventDelivered _ ts identity o _ _ =>
      validate_occurrence_id o;; validate_delivery_identity identity;; validate_delivery_tokens ts
  | ScopedDeliveryDropped _ ts identity _ _ =>
      validate_delivery_identity identity;; validate_delivery_tokens ts
  | ScopedDeliveryQuarantined _ ts identity sc _ =>
      validate_delivery_identity identity;; validate_delivery_tokens ts;;
      match sc with
      | inl _ => Ok tt
      | inr n => raise_if (bad_scope_name n) (ValueError "requires a non-empty scope name without NUL")
      end
  | DeliveryRegistrationOpened _ key o _ | DeliveryRegistrationClosed _ key o _ => validate_registration key o
  | TimerMatured m i => raise_if (i <? m)%Z (ValueError "timer maturation observed before its maturation instant")
  | FiringBegun _ o _ _ => validate_occurrence_id o
  | TokensConsumed _ ts _ es sc _ | TokensRead _ ts _ es sc _ => validate_entries ts es sc
  | ActivityRequested _ a _ _ c i _ _ _ =>
      forM_ (λ s, raise_if (str_empty s) (ValueError "ActivityRequested requires a non-empty string")) [a; c; i]
  | TokensProduced _ ts o es sc _ => validate_occurrence_id o;; validate_entries ts es sc
  | FiringCompleted _ o _ => validate_occurrence_id o
  | FiringFailed _ error o _ =>
      validate_occurrence_id o;;
      raise_if (bad_error_text error) (ValueError "FiringFailed error must be a non-empty string of at most 4096 characters")
  | InstanceCreated _ _ _ | ScopeOpened _ _ | ActivityCompleted _ _ _ _
  | ActivityFailed _ _ _ _ _ _ _ _ | ActivityTerminalQuarantined _ _ _ _ _ => Ok tt
  end.

(** ** Field validators *)

Definition validate_scope (s : LifecycleScope) : result unit :=
  LifecycleScope_new (scope_name s) (scope_generation s);; Ok tt.

(** [_canonical_record_scope] *)
Definition validate_scope_opt (s : option LifecycleScope) : result unit :=
  match s with Some s => validate_scope s | None => Ok tt end.

(** [_canonical_record_string] for the non-empty string fields. *)
Definition validate_string (s : string) : result unit :=
  raise_if (str_empty s) (ValueError "must be a non-empty string").

(** [_validate_record_activity_payload] *)
Definition validate_payload (d : Data) : result unit :=
  raise_if (negb (canonical_json_shape d)) (ValueError "must have canonical JSON types");;
  raise_if (negb (is_ok (canonical_payload d))) (ValueError "must be strict JSON").

(** The validators [_validate_record_field] runs over the fields of a record.
    Node paths, instants, flags and numbers have no value check left once their
    static type is fixed. *)
Definition validate_record_fields (r : HRecord) : result unit :=
  match r with
  | InstanceCreated instance _ _ => raise_if (str_empty instance) (ValueError "Instance identity must be a non-empty string")
  | TokensInitialized _ _ _ es sc => validate_positive_ids es;; validate_scope_opt sc
  | ScopeOpened sc _ => validate_scope sc
  | ScopeClosed sc d c _ => validate_scope sc;; validate_positive_ids d;; validate_positive_ids c
  | ScopeReset closed opened d c _ =>
      validate_scope closed;; validate_scope opened;; validate_positive_ids d;; validate_positive_ids c
  | CandidateSelected _ o _ => validate_occurrence_id o
  | ExternalEventDelivered _ ts identity o sc _ =>
      validate_delivery_tokens ts;; validate_delivery_identity identity;; validate_occurrence_id o;;
      validate_scope_opt sc
  | ScopedDeliveryDropped _ ts identity sc _ =>
      validate_delivery_tokens ts;; validate_delivery_identity identity;; validate_scope sc
  | ScopedDeliveryQuarantined _ ts identity sc _ =>
      validate_delivery_tokens ts;; validate_delivery_identity identity;;
      match sc with inl s => validate_scope s | inr _ => Ok tt end
  | DeliveryRegistrationOpened _ key o _ | DeliveryRegistrationClosed _ key o _ =>
      validate_string key;; match o with Some o => validate_occurrence_id o | None => Ok tt end
  | TimerMatured _ _ => Ok tt
  | FiringBegun _ o sc _ => validate_occurrence_id o;; validate_scope_opt sc
  | TokensConsumed _ _ o es sc _ | TokensRead _ _ o es sc _ | TokensProduced _ _ o es sc _ =>
      validate_occurrence_id o;; validate_positive_ids es;; validate_scope_opt sc
  | ActivityRequested _ a input _ c i o sc _ =>
      validate_string a;; validate_payload input;; validate_string c;; validate_string i;;
      validate_occurrence_id o;; validate_scope_opt sc
  | ActivityCompleted _ d o _ => validate_payload d;; validate_occurrence_id o
  | ActivityFailed _ error kind d _ _ o _ =>
      validate_string error;; validate_string kind;; validate_payload d;; validate_occurrence_id o
  | ActivityTerminalQuarantined _ d sc o _ =>
      validate_payload d;; validate_scope sc;; validate_occurrence_id o
  | FiringCompleted _ o _ => validate_occurrence_id o
  | FiringFailed _ error o _ =>
      raise_if (bad_error_text error) (ValueError "FiringFailed error must be a non-empty string of at most 4096 characters");;
      validate_occurrence_id o
  end.

(** [validate_history_record_values] *)
Definition validate_history_record_values (history : list HRecord) : result (list HRecord) :=
  forM_ validate_record_fields history;; Ok history.

(** [_canonical_record_policy]: the frozen policy passes its constructor. *)
Definition rebuild_policy (r : HRecord) : result unit :=
  match r with
  | ActivityRequested _ _ _ policy _ _ _ _ _ => ExecutionPolicy_post_init policy
  | _ => Ok tt
  end.

(** [_canonical_record]: every field, then the record, through its constructor. *)
Definition rebuild_record (r : HRecord) : result unit := rebuild_policy r;; Record_post_init r.

(** [validate_history_records]: the values, then the canonical reconstruction
    of every record. *)
Definition validate_history_records (history : list HRecord) : result (list HRecord) :=
  records ← validate_history_record_values history;
  forM_ rebuild_record records;; Ok records.

(** What the writer checks of one record: constructible and field-valid. *)
Definition canonical_record (r : HRecord) : Prop :=
  Record_post_init r = Ok tt ∧ validate_record_fields r = Ok tt.

(** What a reader checks of one record. *)
Definition admissible (r : HRecord) : Prop := canonical_record r ∧ rebuild_policy r = Ok tt.

Lemma rebuild_record_Ok r : rebuild_record r = Ok tt ↔ rebuild_policy r = Ok tt ∧ Record_post_init r = Ok tt.
Proof.
  unfold rebuild_record. destruct (rebuild_policy r) as [[]|]; simpl; naive_solver.
Qed.

Lemma validate_history_records_Ok l k :
  validate_history_records l = Ok k ↔ k = l ∧ Forall admissible l.
Proof.
  unfold validate_history_records, validate_history_record_values, admissible, canonical_record.
  rewrite !Forall_and. split.
  - intros H. inv_ok. repeat match goal with H : forM_ _ _ = Ok _ |- _ => apply forM_Ok in H end.
    match goal with H : Forall (λ a, rebuild_record a = _) _ |- _ =>
      eapply Forall_impl in H; [|intros r; apply rebuild_record_Ok]; apply Forall_and in H as [? ?] end. done.
  - intros (-> & (H1 & H2) & H3).
    rewrite (proj2 (forM_Ok validate_record_fields l tt)) by done. simpl.
    rewrite (proj2 (forM_Ok rebuild_record l tt)); [done|].
    rewrite Forall_forall in H1, H3. apply Forall_forall. intros r Hr. apply rebuild_record_Ok. auto.
Qed.

(** ** Python equality of records and the values built from them *)

Definition record_norm (r : HRecord) : HRecord :=
  match r with
  | TokensInitialized p ts i es sc => TokensInitialized p (token_norm <$> ts) i es sc
  | ExternalEventDelivered p ts d o sc i => ExternalEventDelivered p (token_norm <$> ts) d o sc i
  | ScopedDeliveryDropped p ts d sc i => ScopedDeliveryDropped p (token_norm <$> ts) d sc i
  | ScopedDeliveryQuarantined p ts d sc i => ScopedDeliveryQuarantined p (token_norm <$> ts) d sc i
  | TokensConsumed p ts o es sc i => TokensConsumed p (token_norm <$> ts) o es sc i
  | TokensRead p ts o es sc i => TokensRead p (token_norm <$> ts) o es sc i
  | TokensProduced p ts o es sc i => TokensProduced p (token_norm <$> ts) o es sc i
  | ActivityRequested t a input pol c d o sc i =>
      ActivityRequested t a (py_norm input) (policy_norm pol) c d o sc i
  | ActivityCompleted t d o i => ActivityCompleted t (py_norm d) o i
  | ActivityFailed t e k d b ra o i => ActivityFailed t e k (py_norm d) b (num_norm <$> ra) o i
  | ActivityTerminalQuarantined t d sc o i => ActivityTerminalQuarantined t (py_norm d) sc o i
  | r => r
  end.

Definition selection_norm (s : Selection) : Selection := (s.1, map token_norm s.2).

Definition binding_norm (b : Binding) : Binding :=
  MkBinding (b_transition b) (map selection_norm (b_consumed b))
    (map selection_norm (b_read b)) (map token_norm (b_delivered b)).
