(* ===== verification/Replay.v ===== *)
(** * Replay projections (src/src/petrus/impetus/history/__init__.py, lines 874-1409)

    Every projection is a fold over the records in append order; a record the
    single writer could not have appended makes the fold raise. *)

From stdpp Require Import base gmap sets list strings.
From Stdlib Require Import ZArith Lia.
From S2P Require Import Prelude PyData Schema Marking Enabledness Firing Activity Records.
Open Scope string_scope.
Open Scope list_scope.

(** ** The movement fold *)

Definition Queues := dict NetPath (TokenQueue Z).

(** The identities of every queue, in dictionary then queue order. *)
Definition all_identities (qs : Queues) : list (option Z) := mjoin (identities <$> dvals qs).

(** The identities of [q] that belong to [scope] and satisfy [p]. *)
Definition scoped_identities (q : TokenQueue Z) (scope : LifecycleScope) : list Z :=
  omap e_identity (filter (λ e, e_scope e = Some scope) q).

(** One queue of [_apply_scope_cleanup]'s first loop. *)
Definition cleanup_queue (closed : LifecycleScope) (s : Queues * gset Z)
    (pq : NetPath * TokenQueue Z) : result (Queues * gset Z) :=
  let '(place, queue) := pq in
  let '(queues, remaining) := s in
  let present := filter (λ i, i ∈ remaining) (scoped_identities queue closed) in
  match present with
  | [] => Ok (queues, remaining)
  | _ =>
      queue' ← discard queue present;
      Ok (dset place queue' queues, remaining ∖ list_to_set present)
  end.

(** [_apply_scope_cleanup] *)
Definition apply_scope_cleanup (queues : Queues) (closed : LifecycleScope) (discarded : list Z)
    : result Queues :=
  '(queues', remaining) ← foldM (cleanup_queue closed) (queues, list_to_set discarded) queues;
  raise_if (negb (bool_decide (remaining = ∅)))
    (ValueError "replay divergence: cannot discard queue entries from lifecycle scope");;
  raise_if (existsb (λ pq : NetPath * TokenQueue Z,
              existsb (λ e, bool_decide (e_scope e = Some closed)) pq.2) queues')
    (ValueError "replay divergence: lifecycle close left queue entries in scope");;
  Ok queues'.

(** [_next_queue_identity] *)
Definition next_queue_identity (qs : Queues) : Z :=
  (default 0 (max_opt (omap id (all_identities qs))) + 1)%Z.

(** [a or b or c] over tuples *)
Definition or_list {A} (a b : list A) : list A := match a with [] => b | _ => a end.

(** The deposit branch of [apply_movement]. *)
Definition apply_deposit (queues : Queues) (place : NetPath) (tokens : list Token)
    (instant : Instant) (record_entries : list Z) (scope : option LifecycleScope)
    (inferred : option (list Z)) : result Queues :=
  let queue := dget_default place [] queues in
  let next_identity := next_queue_identity queues in
  let entries := or_list record_entries
                   (or_list (default [] inferred) (zrange next_identity (length tokens))) in
  raise_if (negb (length entries =? length tokens)%nat)
    (ValueError "movement fold requires one inferred queue-entry identity per token");;
  raise_if (existsb (λ e, bool_decide (Some e ∈ all_identities queues)) entries)
    (ValueError "replay divergence: queue-entry identities already present");;
  Ok (dset place
        (foldl (λ q te, deposit q te.1 instant (Some te.2) scope) queue (zip tokens entries)) queues).

(** [apply_movement] *)
Definition apply_movement (queues : Queues) (r : HRecord) (inferred : option (list Z)) : result Queues :=
  match r with
  | TokensInitialized place ts i es sc => apply_deposit queues place ts i es sc inferred
  | TokensProduced place ts _ es sc i => apply_deposit queues place ts i es sc inferred
  | TokensConsumed place ts _ es _ _ =>
      q ← rewrap_not_present (remove (dget_default place [] queues) ts es)
            (ValueError "replay divergence: cannot consume: token not present");
      Ok (dset place q queues)
  | ScopeClosed sc d _ _ => apply_scope_cleanup queues sc d
  | ScopeReset sc _ d _ _ => apply_scope_cleanup queues sc d
  | _ => Ok queues
  end.

(** The cumulative state of [_replay_queue_states]. *)
Record QueueState := MkQueueState { qs_queues : Queues; qs_next : Z; qs_spent : gset Z }.

Definition deposited_entries (r : HRecord) : option (list Token * list Z) :=
  match r with
  | TokensInitialized _ ts _ es _ | TokensProduced _ ts _ es _ _ => Some (ts, es)
  | _ => None
  end.

Definition replay_queue_step (s : QueueState) (r : HRecord) : result QueueState :=
  '(inferred, next, spent) ←
    (match deposited_entries r with
     | None => Ok (None, qs_next s, qs_spent s)
     | Some (ts, es) =>
         let inferred := or_list es (zrange (qs_next s) (length ts)) in
         raise_if (existsb (λ i, bool_decide (i ∈ qs_spent s)) inferred)
           (ValueError "replay divergence: queue-entry identities were already spent");;
         Ok (Some inferred,
             match max_opt inferred with Some m => Z.max (qs_next s) (m + 1) | None => qs_next s end,
             qs_spent s ∪ list_to_set inferred)
     end);
  queues ← apply_movement (qs_queues s) r inferred;
  Ok (MkQueueState queues next spent).

Definition replay_queue_state (history : list HRecord) : result QueueState :=
  foldM replay_queue_step (MkQueueState [] 1 ∅) history.

(** [replay_queues], [replay_marking], [entry_instants],
    [replay_next_queue_identity] *)
Definition replay_queues (history : list HRecord) : result Queues :=
  s ← replay_queue_state history; Ok (qs_queues s).

Definition marking_of (qs : Queues) : Marking :=
  Marking_new ((λ pq, (pq.1, tokens_of pq.2)) <$> qs).

Definition entry_instants_of (qs : Queues) : dict NetPath (list Instant) :=
  (λ pq, (pq.1, instants pq.2)) <$> filter (λ pq : NetPath * TokenQueue Z, pq.2 ≠ []) qs.

Definition replay_marking (history : list HRecord) : result Marking :=
  qs ← replay_queues history; Ok (marking_of qs).

Definition entry_instants (history : list HRecord) : result (dict NetPath (list Instant)) :=
  qs ← replay_queues history; Ok (entry_instants_of qs).

Definition replay_next_queue_identity (history : list HRecord) : result Z :=
  s ← replay_queue_state history; Ok (qs_next s).

(** [replay_markings]: the marking after every record. *)
Fixpoint replay_markings_from (s : QueueState) (history : list HRecord) : result (list Marking) :=
  match history with
  | [] => Ok []
  | r :: history =>
      s' ← replay_queue_step s r;
      rest ← replay_markings_from s' history;
      Ok (marking_of (qs_queues s') :: rest)
  end.

Definition replay_markings (history : list HRecord) : result (list Marking) :=
  replay_markings_from (MkQueueState [] 1 ∅) history.

(** ** Clock and identities *)

(** [replay_watermark] *)
Definition watermark_step (w : option Instant) (r : HRecord) : result (option Instant) :=
  raise_if (match w with Some w => (rec_instant r <? w)%Z | None => false end)
    (ValueError "replay divergence: instant steps backwards");;
  Ok (Some (rec_instant r)).

Definition replay_watermark (history : list HRecord) : result Instant :=
  w ← foldM watermark_step None history;
  or_raise w (ValueError "an empty history proves no watermark").

(** [replay_next_occurrence]: one past the greatest recorded occurrence. *)
Definition replay_next_occurrence (history : list HRecord) : Z :=
  (default 0 (max_opt (omap rec_occurrence history)) + 1)%Z.

(** [replay_instance_identity] *)
Definition identity_step (s : nat * option HRecord) (r : HRecord) : result (nat * option HRecord) :=
  match r with
  | InstanceCreated _ _ _ =>
      raise_if (negb (s.1 =? 0)%nat) (ValueError "replay divergence: InstanceCreated past position 0");;
      Ok (S s.1, Some r)
  | _ => Ok (S s.1, s.2)
  end.

Definition replay_instance_identity (history : list HRecord) : result (option HRecord) :=
  s ← foldM identity_step (0%nat, None) history;
  raise_if (negb (bool_decide (history = [])) && bool_decide (s.2 = None))
    (ValueError "replay divergence: the construction batch requires InstanceCreated as its first record");;
  Ok s.2.

(** ** Delivery registrations *)

Definition Armed := dict NetPath (gset string).

(** The firing a registration effect is correlated to. *)
Definition effect_occurrence (r : HRecord) : option Z :=
  match r with
  | DeliveryRegistrationOpened _ _ o _ | DeliveryRegistrationClosed _ _ o _ => o
  | _ => None
  end.

Definition batch_error {A} : result A :=
  Err (ValueError "replay divergence: correlated delivery registration effect does not belong to a contiguous writer-valid completion batch").

(** The order of a completion batch: productions, closes, opens. *)
Definition batch_rank (r : HRecord) : option Z :=
  match r with
  | TokensProduced _ _ _ _ _ _ => Some 0%Z
  | DeliveryRegistrationClosed _ _ _ _ => Some 1%Z
  | DeliveryRegistrationOpened _ _ _ _ => Some 2%Z
  | _ => None
  end.

Record BatchState := MkBatchState {
  bs_begun : dict Z NetPath;
  bs_active : option (Z * Instant * Z)
}.

(** One record of [_validate_correlated_delivery_registration_batches]. *)
Definition correlated_step (effects : gset Z) (s : BatchState) (r : HRecord) : result BatchState :=
  match bs_active s with
  | Some (occurrence, instant, prior_rank) =>
      let ends := match r with
                  | FiringCompleted t o i =>
                      bool_decide (o = occurrence) && bool_decide (i = instant)
                      && bool_decide (Some t = dget occurrence (bs_begun s))
                  | _ => false
                  end in
      if (ends : bool) then Ok (MkBatchState (bs_begun s) None)
      else match batch_rank r with
           | None => batch_error
           | Some rank =>
               if negb (bool_decide (rec_occurrence r = Some occurrence))
                  || negb (bool_decide (rec_instant r = instant)) || (rank <? prior_rank)%Z
               then batch_error
               else Ok (MkBatchState (bs_begun s) (Some (occurrence, instant, rank)))
           end
  | None =>
      let begun := match r with
                   | FiringBegun t o _ _ => dset o t (bs_begun s)
                   | _ => bs_begun s
                   end in
      match r with
      | TokensProduced _ _ o _ _ i =>
          if bool_decide (o ∈ effects) then
            if dmem o begun then Ok (MkBatchState begun (Some (o, i, 0%Z))) else batch_error
          else Ok (MkBatchState begun None)
      | DeliveryRegistrationOpened _ _ (Some o) i =>
          if dmem o begun then Ok (MkBatchState begun (Some (o, i, 2%Z))) else batch_error
      | DeliveryRegistrationClosed _ _ (Some o) i =>
          if dmem o begun then Ok (MkBatchState begun (Some (o, i, 1%Z))) else batch_error
      | _ => Ok (MkBatchState begun None)
      end
  end.

(** [_validate_correlated_delivery_registration_batches] *)
Definition validate_correlated_batches (records : list HRecord) : result unit :=
  s ← foldM (correlated_step (list_to_set (omap effect_occurrence records))) (MkBatchState [] None) records;
  match bs_active s with Some _ => batch_error | None => Ok tt end.

(** [_apply_delivery_registration] *)
Definition apply_delivery_registration (initial_batch : bool) (initial_instant : Instant)
    (armed : Armed) (r : HRecord) : result Armed :=
  match r with
  | DeliveryRegistrationOpened source key occurrence instant =>
      let keys := dget_default source ∅ armed in
      raise_if (bool_decide (key ∈ keys)) (ValueError "replay divergence: delivery registration opened while armed");;
      (match occurrence with
       | Some _ => Ok tt
       | None =>
           raise_if (negb initial_batch)
             (ValueError "replay divergence: uncorrelated delivery registration opened outside the initial construction batch");;
           raise_if (negb (bool_decide (key = "default")))
             (ValueError "replay divergence: initial delivery registration uses a key other than 'default'");;
           raise_if (negb (bool_decide (instant = initial_instant)))
             (ValueError "replay divergence: initial delivery registration is not at the construction instant")
       end);;
      Ok (dset source ({[key]} ∪ keys) armed)
  | DeliveryRegistrationClosed source key _ _ =>
      raise_if (negb (bool_decide (key ∈ dget_default source ∅ armed)))
        (ValueError "replay divergence: delivery registration closed while not armed");;
      Ok (dset source (dget_default source ∅ armed ∖ {[key]}) armed)
  | _ => Ok armed
  end.

(** [_advance_initial_registration_batch]: (batch still open, registrations started). *)
Definition advance_initial_batch (s : bool * bool) (r : HRecord) : result (bool * bool) :=
  match r with
  | DeliveryRegistrationOpened _ _ None _ => Ok (s.1, true)
  | TokensInitialized _ _ _ _ _ =>
      raise_if (negb s.1 || s.2)
        (ValueError "replay divergence: TokensInitialized appears outside the contiguous initial construction prefix");;
      Ok s
  | InstanceCreated _ _ _ => Ok s
  | _ => Ok (false, s.2)
  end.

Definition initial_instant (records : list HRecord) : Instant :=
  match records with [] => 0%Z | r :: _ => rec_instant r end.

(** One record of the loop of [replay_armed]. *)
Definition armed_step (instant0 : Instant) (s : (bool * bool) * Armed) (r : HRecord)
    : result ((bool * bool) * Armed) :=
  batch ← advance_initial_batch s.1 r;
  armed ← apply_delivery_registration batch.1 instant0 s.2 r;
  Ok (batch, armed).

(** [replay_armed] *)
Definition replay_armed (records : list HRecord) : result Armed :=
  validate_correlated_batches records;;
  s ← foldM (armed_step (initial_instant records)) ((true, false), []) records;
  Ok s.2.

(** The token tuple and identity of a delivery fact. *)
Definition delivery_fact (r : HRecord) : option (list Token * string) :=
  match r with
  | ExternalEventDelivered _ ts identity _ _ _ | ScopedDeliveryDropped _ ts identity _ _
  | ScopedDeliveryQuarantined _ ts identity _ _ => Some (ts, identity)
  | _ => None
  end.

(** The acceptance part of one iteration of [replay_accepted_identities]. *)
Definition accept_record (armed : Armed) (accepted : dict string HRecord) (r : HRecord)
    (following : option HRecord) : result (dict string HRecord) :=
  match delivery_fact r with
  | None => Ok accepted
  | Some (ts, identity) =>
      validate_delivery_tokens ts;;
      (match r with
       | ExternalEventDelivered source _ _ occurrence scope instant =>
           raise_if (bool_decide (dget_default source ∅ armed = ∅))
             (ValueError "replay divergence: accepted delivery source had no armed delivery registration");;
           raise_if (negb (bool_decide (following = Some (FiringBegun source occurrence scope instant))))
             (ValueError "replay divergence: accepted delivery requires an immediately following matching FiringBegun")
       | _ => Ok tt
       end);;
      raise_if (dmem identity accepted) (ValueError "replay divergence: delivery identity accepted twice");;
      Ok (dset identity r accepted)
  end.

Fixpoint accepted_loop (instant0 : Instant) (s : (bool * bool) * Armed) (accepted : dict string HRecord)
    (records : list HRecord) : result (dict string HRecord) :=
  match records with
  | [] => Ok accepted
  | r :: rest =>
      s' ← armed_step instant0 s r;
      accepted' ← accept_record s'.2 accepted r (head rest);
      accepted_loop instant0 s' accepted' rest
  end.

(** [replay_accepted_identities] *)
Definition replay_accepted_identities (records : list HRecord) : result (dict string HRecord) :=
  validate_correlated_batches records;;
  accepted_loop (initial_instant records) ((true, false), []) [] records.

(** ** Lifecycle scopes *)

Record ScopeState := MkScopeState {
  active_scopes : dict string LifecycleScope;
  scope_generations : dict string Z
}.

(** The scope provenance of the records that carry one. *)
Definition rec_scope (r : HRecord) : option LifecycleScope :=
  match r with
  | TokensInitialized _ _ _ _ sc | ExternalEventDelivered _ _ _ _ sc _ | FiringBegun _ _ sc _
  | TokensConsumed _ _ _ _ sc _ | TokensRead _ _ _ _ sc _ | ActivityRequested _ _ _ _ _ _ _ sc _
  | TokensProduced _ _ _ _ sc _ => sc
  | _ => None
  end.

Definition scope_active (s : ScopeState) (sc : LifecycleScope) : bool :=
  bool_decide (dget (scope_name sc) (active_scopes s) = Some sc).

Definition spent_generation (s : ScopeState) (name : string) : Z :=
  dget_default name 0%Z (scope_generations s).

(** One record of [replay_scopes]. *)
Definition scope_step (s : ScopeState) (r : HRecord) : result ScopeState :=
  match r with
  | ScopeOpened sc _ =>
      raise_if (dmem (scope_name sc) (active_scopes s)
                || negb (bool_decide (scope_generation sc = spent_generation s (scope_name sc) + 1)%Z))
        (ValueError "replay divergence: invalid scope open");;
      Ok (MkScopeState (dset (scope_name sc) sc (active_scopes s))
            (dset (scope_name sc) (scope_generation sc) (scope_generations s)))
  | ScopeClosed sc _ _ _ =>
      raise_if (negb (scope_active s sc)) (ValueError "replay divergence: scope closed while not active");;
      Ok (MkScopeState (ddel (scope_name sc) (active_scopes s)) (scope_generations s))
  | ScopeReset closed opened _ _ _ =>
      raise_if (negb (scope_active s closed)) (ValueError "replay divergence: scope reset while not active");;
      Ok (MkScopeState (dset (scope_name opened) opened (active_scopes s))
            (dset (scope_name opened) (scope_generation opened) (scope_generations s)))
  | ScopedDeliveryDropped _ _ _ sc _ =>
      raise_if (scope_active s sc || (spent_generation s (scope_name sc) <? scope_generation sc)%Z)
        (ValueError "replay divergence: delivery dropped without proof its scope was closed");;
      Ok s
  | ScopedDeliveryQuarantined _ _ _ (inl sc) _ =>
      raise_if (scope_active s sc || (scope_generation sc <=? spent_generation s (scope_name sc))%Z)
        (ValueError "replay divergence: exact delivery target was quarantined despite a known disposition");;
      Ok s
  | _ =>
      match rec_scope r with
      | Some sc =>
          raise_if (negb (scope_active s sc)) (ValueError "replay divergence: record uses inactive lifecycle scope");;
          Ok s
      | None => Ok s
      end
  end.

(** [replay_scopes] *)
Definition replay_scopes (history : list HRecord) : result ScopeState :=
  foldM scope_step (MkScopeState [] []) history.

(** The occurrences and scope a close or reset terminates. *)
Definition cancellation (r : HRecord) : option (LifecycleScope * list Z) :=
  match r with
  | ScopeClosed sc _ c _ | ScopeReset sc _ _ c _ => Some (sc, c)
  | _ => None
  end.

(** [replay_cancellation_positions] *)
Definition cancellation_step (s : Z * dict Z Z) (r : HRecord) : result (Z * dict Z Z) :=
  positions ← foldM (λ positions o,
      raise_if (dmem o positions) (ValueError "replay divergence: firing occurrence cancelled twice");;
      Ok (dset o s.1 positions)) s.2 (match cancellation r with Some (_, c) => c | None => [] end);
  Ok (s.1 + 1, positions)%Z.

Definition replay_cancellation_positions (history : list HRecord) : result (dict Z Z) :=
  s ← foldM cancellation_step (1%Z, []) history; Ok s.2.

(** ** Laws of the movement fold *)

(** Every entry held, in dictionary then queue order. *)
Definition queue_entries (qs : Queues) : list (entry Z) := mjoin (M:=list) (A:=entry Z) (dvals qs).

Lemma all_identities_entries qs : all_identities qs = e_identity <$> queue_entries qs.
Proof.
  unfold all_identities, queue_entries, identities. induction (dvals qs) as [|q l IH]; csimpl; [done|].
  by rewrite fmap_app, <-IH.
Qed.

Lemma queue_entries_cons p q qs : queue_entries ((p, q) :: qs) = q ++ queue_entries qs.
Proof. done. Qed.

Lemma queue_entries_split p qs :
  queue_entries qs ≡ₚ dget_default p [] qs ++ queue_entries (ddel p qs).
Proof.
  induction qs as [|[p' q] qs IH]; [done|]. unfold dget_default in *. simpl.
  case_decide; subst; simpl; [done|]. rewrite !queue_entries_cons, IH.
  rewrite !(assoc_L (++)). f_equiv. apply Permutation_app_comm.
Qed.

Lemma queue_entries_dset p q qs :
  queue_entries (dset p q qs) ≡ₚ q ++ queue_entries (ddel p qs).
Proof.
  induction qs as [|[p' q'] qs IH]; simpl.
  - unfold queue_entries. csimpl. done.
  - case_decide; subst; simpl; rewrite !queue_entries_cons; [done|]. rewrite IH.
    rewrite !(assoc_L (++)). f_equiv. apply Permutation_app_comm.
Qed.

(** The queue invariant: one queue per place, every entry with an identity
    below the next one to mint, no identity twice. *)
Record queues_ok (qs : Queues) (next : Z) : Prop := {
  qok_keys : NoDup (dkeys qs);
  qok_entries : Forall (λ e, ∃ i, e_identity e = Some i ∧ (1 ≤ i < next)%Z) (queue_entries qs);
  qok_unique : NoDup (e_identity <$> queue_entries qs)
}.

Lemma queues_ok_nil : queues_ok [] 1.
Proof. split; constructor. Qed.

Lemma queues_ok_mono qs n m : (n ≤ m)%Z → queues_ok qs n → queues_ok qs m.
Proof.
  intros Hm [Hk He Hu]. split; [done| |done]. eapply Forall_impl; [exact He|].
  intros e (i & ? & ?). exists i. split; [done|lia].
Qed.

(** A movement that only takes entries away keeps the invariant. *)
Lemma queues_ok_remove qs n p q' removed :
  dget_default p [] qs ≡ₚ removed ++ q' → queues_ok qs n → queues_ok (dset p q' qs) n.
Proof.
  intros Hp [Hk He Hu].
  assert (queue_entries qs ≡ₚ removed ++ queue_entries (dset p q' qs)) as Hs.
  { rewrite (queue_entries_split p), Hp, queue_entries_dset. by rewrite (assoc_L (++)). }
  split.
  - by apply NoDup_dkeys_dset.
  - rewrite Hs in He. by apply Forall_app in He as [_ He].
  - rewrite Hs, fmap_app in Hu. by apply NoDup_app in Hu as (_ & _ & Hu).
Qed.

(** The entries a deposit appends. *)
Definition deposited (ts : list Token) (es : list Z) (i : Instant) (sc : option LifecycleScope)
    : list (entry Z) := (λ te, MkEntry te.1 i (Some te.2) sc) <$> zip ts es.

Lemma foldl_deposit q ts es i sc :
  foldl (λ q te, deposit q te.1 i (Some te.2) sc) q (zip ts es) = q ++ deposited ts es i sc.
Proof.
  unfold deposited. revert q. induction (zip ts es) as [|te l IH]; intros q; csimpl; [by rewrite app_nil_r|].
  rewrite IH. unfold deposit. by rewrite <-(assoc_L (++)).
Qed.

Lemma queues_ok_deposit qs n p ts es i sc :
  queues_ok qs n → length es = length ts → Forall (λ e, (n ≤ e)%Z) es → NoDup es → (1 ≤ n)%Z →
  ∀ n', (n ≤ n')%Z → Forall (λ e, (e < n')%Z) es →
  queues_ok (dset p (dget_default p [] qs ++ deposited ts es i sc) qs) n'.
Proof.
  intros [Hk He Hu] Hlen Hge Hnd Hn n' Hn' Hlt.
  assert (queue_entries (dset p (dget_default p [] qs ++ deposited ts es i sc) qs)
          ≡ₚ deposited ts es i sc ++ queue_entries qs) as Hs.
  { rewrite queue_entries_dset, (queue_entries_split p qs). solve_Permutation. }
  assert (e_identity <$> deposited ts es i sc = Some <$> es) as Hids.
  { unfold deposited. rewrite <-list_fmap_compose.
    transitivity (Some <$> (zip ts es).*2); [by rewrite <-list_fmap_compose|].
    by rewrite snd_zip by lia. }
  split.
  - by apply NoDup_dkeys_dset.
  - rewrite Hs, Forall_app. split.
    + rewrite Forall_forall. intros e Hin. unfold deposited in Hin.
      apply list_elem_of_fmap in Hin as ([t z] & -> & Hin). exists z. split; [done|].
      apply elem_of_zip_r in Hin. rewrite Forall_forall in Hge, Hlt.
      specialize (Hge _ Hin). specialize (Hlt _ Hin). simpl in *. lia.
    + eapply Forall_impl; [exact He|]. intros e (j & ? & ?). exists j. split; [done|lia].
  - rewrite Hs, fmap_app, Hids. apply NoDup_app. split_and!.
    + by apply NoDup_fmap_2; [apply _|].
    + intros x (z & -> & Hz)%list_elem_of_fmap Hx.
      apply list_elem_of_fmap in Hx as (e & Heq & Hine).
      rewrite Forall_forall in He. rewrite Forall_forall in Hge. destruct (He _ Hine) as (j & Hj & Hlo).
      specialize (Hge _ Hz). simpl in *. rewrite Hj in Heq. simplify_eq. lia.
    + done.
Qed.

(** The queues without the entries of one scope. *)
Definition out_of_scope (sc : LifecycleScope) (e : entry Z) : Prop := e_scope e ≠ Some sc.
#[export] Instance out_of_scope_dec sc e : Decision (out_of_scope sc e).
Proof. unfold out_of_scope. apply _. Defined.

Definition purge_queue (sc : LifecycleScope) (pq : NetPath * TokenQueue Z) : NetPath * TokenQueue Z :=
  (pq.1, filter (out_of_scope sc) (pq.2 : list (entry Z))).

Definition purge (sc : LifecycleScope) (qs : Queues) : Queues := purge_queue sc <$> qs.

(** Every identity of one scope, as a close lists them. *)
Definition scope_entries (qs : Queues) (sc : LifecycleScope) : list Z :=
  mjoin ((λ q, scoped_identities q sc) <$> dvals qs).

Definition identified (q : list (entry Z)) : Prop := Forall (λ e, is_Some (e_identity e)) q.

Lemma elem_of_scoped_identities q sc i :
  i ∈ scoped_identities q sc ↔ ∃ e, e ∈ q ∧ e_scope e = Some sc ∧ e_identity e = Some i.
Proof.
  unfold scoped_identities. rewrite list_elem_of_omap.
  setoid_rewrite list_elem_of_filter. naive_solver.
Qed.

Lemma scoped_identities_sublist q sc : scoped_identities q sc `sublist_of` omap e_identity q.
Proof.
  unfold scoped_identities. induction q as [|e q IH]; [done|]. rewrite filter_cons.
  case_decide; csimpl; destruct (e_identity e); [by apply sublist_skip|done|by apply sublist_cons|done].
Qed.

(** Entries with the same identity are the same entry. *)
Lemma identity_inj (q : list (entry Z)) e e' i :
  NoDup (omap e_identity q) → e ∈ q → e' ∈ q →
  e_identity e = Some i → e_identity e' = Some i → e' = e.
Proof.
  intros Hnd He He' Hi Hi'. induction q as [|x q IH]; [set_solver|]. csimpl in *.
  apply elem_of_cons in He as [->|He], He' as [->|He']; try done.
  - rewrite Hi in Hnd. apply NoDup_cons in Hnd as [Hx _]. exfalso. apply Hx, list_elem_of_omap. eauto.
  - rewrite Hi' in Hnd. apply NoDup_cons in Hnd as [Hx _]. exfalso. apply Hx, list_elem_of_omap. eauto.
  - destruct (e_identity x); [apply NoDup_cons in Hnd as [_ Hnd]|]; by apply IH.
Qed.

Lemma discard_scope (q : list (entry Z)) sc :
  identified q → NoDup (omap e_identity q) →
  discard q (scoped_identities q sc) = Ok (filter (out_of_scope sc) q).
Proof.
  unfold identified. intros Hid Hnd. rewrite discard_filter; [|done| |].
  - apply (f_equal Ok). apply filter_ext_in. intros e He. unfold survives, out_of_scope.
    rewrite Forall_forall in Hid. destruct (Hid _ He) as [i Hi]. rewrite Hi.
    rewrite elem_of_scoped_identities. split.
    + intros Hn Hs. apply Hn. eauto.
    + intros Hn (e' & He' & Hs & Hi'). apply Hn.
      by rewrite <-(identity_inj q e e' i).
  - eapply sublist_NoDup; [done|apply scoped_identities_sublist].
  - rewrite Forall_forall. intros i (e & He & _ & Hi)%elem_of_scoped_identities.
    apply list_elem_of_omap. eauto.
Qed.

Lemma dset_middle (pre suf : Queues) p q q' :
  p ∉ dkeys pre → dset p q' (pre ++ (p, q) :: suf) = pre ++ (p, q') :: suf.
Proof.
  unfold dkeys. induction pre as [|[k v] pre IH]; csimpl; intros Hp.
  - by rewrite decide_True.
  - apply not_elem_of_cons in Hp as [? Hp]. rewrite decide_False by done. by rewrite IH.
Qed.

Lemma purge_queue_noop sc p q :
  identified q → scoped_identities q sc = [] → purge_queue sc (p, q) = (p, q).
Proof.
  intros Hid Hs. unfold purge_queue; simpl. f_equal. apply filter_all. intros e He Hsc.
  unfold identified in Hid. rewrite Forall_forall in Hid. destruct (Hid _ He) as [i Hi].
  assert (i ∈ scoped_identities q sc) by (apply elem_of_scoped_identities; eauto).
  rewrite Hs in *. by eapply elem_of_nil.
Qed.

Lemma elem_of_scope_entries qs sc i :
  i ∈ scope_entries qs sc ↔ ∃ e, e ∈ queue_entries qs ∧ e_scope e = Some sc ∧ e_identity e = Some i.
Proof.
  induction qs as [|[p q] qs IH].
  - split; [by intros ?%elem_of_nil|]. by intros (e & ?%elem_of_nil & _).
  - unfold scope_entries. csimpl. rewrite elem_of_app, elem_of_scoped_identities.
    fold (scope_entries qs sc). rewrite IH, queue_entries_cons.
    setoid_rewrite elem_of_app. naive_solver.
Qed.

(** The loop of the cleanup, over a suffix of the queues. *)
Lemma cleanup_loop sc (pre suf : Queues) :
  NoDup (dkeys (pre ++ suf)) →
  identified (queue_entries suf) → NoDup (omap e_identity (queue_entries suf)) →
  foldM (cleanup_queue sc) (purge sc pre ++ suf, list_to_set (scope_entries suf sc)) suf
  = Ok (purge sc (pre ++ suf), ∅).
Proof.
  revert pre. induction suf as [|[p q] suf IH]; intros pre Hk Hid Hnd.
  { simpl. by rewrite !app_nil_r. }
  rewrite queue_entries_cons in Hid, Hnd. unfold identified in Hid. apply Forall_app in Hid as [Hidq Hid].
  rewrite omap_app in Hnd. apply NoDup_app in Hnd as (Hndq & Hdis & Hnd).
  assert (list_to_set (scope_entries ((p, q) :: suf) sc) ∖ list_to_set (scoped_identities q sc)
          =@{gset Z} list_to_set (scope_entries suf sc)) as Hrest.
  { apply set_eq. intros i. rewrite elem_of_difference, !elem_of_list_to_set.
    unfold scope_entries at 1. csimpl. rewrite elem_of_app. fold (scope_entries suf sc).
    split; [tauto|]. intros Hi. split; [by right|]. intros (e & He & _ & Hie)%elem_of_scoped_identities.
    apply elem_of_scope_entries in Hi as (e' & He' & _ & Hie').
    apply (Hdis i); apply list_elem_of_omap; eauto. }
  assert (purge sc (pre ++ [(p, q)]) ++ suf = purge sc pre ++ purge_queue sc (p, q) :: suf) as Hpre.
  { unfold purge. rewrite fmap_app. by rewrite <-(assoc_L (++)). }
  assert (filter (λ i, i ∈@{gset Z} list_to_set (scope_entries ((p, q) :: suf) sc)) (scoped_identities q sc)
          = scoped_identities q sc) as Hpresent.
  { apply filter_all. intros i Hi. rewrite elem_of_list_to_set. unfold scope_entries. csimpl.
    apply elem_of_app. by left. }
  specialize (IH (pre ++ [(p, q)])). rewrite <-(assoc_L (++)) in IH. cbn [app] in IH. specialize (IH Hk Hid Hnd).
  rewrite Hpre in IH. simpl foldM. rewrite Hpresent.
  destruct (scoped_identities q sc) as [|i0 ids] eqn:Hs.
  - simpl. rewrite purge_queue_noop in IH by done. simpl in Hrest. rewrite <-IH. f_equal. f_equal.
    by rewrite <-Hrest, difference_empty_L.
  - rewrite <-Hs, discard_scope by done. simpl.
    rewrite dset_middle; [rewrite <-Hs in Hrest; by rewrite Hrest|].
    unfold dkeys in *. rewrite fmap_app in Hk. apply NoDup_app in Hk as (_ & Hk & _).
    unfold purge. rewrite <-list_fmap_compose. intros Hin. apply (Hk p); [|csimpl; set_solver].
    by apply list_elem_of_fmap in Hin as ([p' q'] & -> & Hin); apply list_elem_of_fmap; exists (p', q').
Qed.

(** Closing a scope with exactly its entries keeps exactly the others. *)
Lemma apply_scope_cleanup_purge qs n sc :
  queues_ok qs n → apply_scope_cleanup qs sc (scope_entries qs sc) = Ok (purge sc qs).
Proof.
  intros [Hk He Hu]. unfold apply_scope_cleanup.
  assert (identified (queue_entries qs)) as Hid.
  { eapply Forall_impl; [exact He|]. intros e (i & -> & _). eauto. }
  assert (NoDup (omap e_identity (queue_entries qs))) as Hnd.
  { apply (NoDup_fmap_1 Some). clear -Hu Hid. unfold identified in Hid.
    induction (queue_entries qs) as [|e l IH]; csimpl in *; [constructor|].
    apply Forall_cons in Hid as [[i Hi] Hid]. rewrite Hi in *. csimpl.
    apply NoDup_cons in Hu as [H1 H2]. apply NoDup_cons. split; [|by apply IH].
    intros Hin. apply H1. apply list_elem_of_fmap in Hin as (j & -> & Hj).
    apply list_elem_of_omap in Hj as (e' & He' & Hj). rewrite <-Hj. by apply list_elem_of_fmap_2. }
  match goal with |- (foldM ?f ?b ?l ≫= _) = _ =>
    replace (foldM f b l) with (Ok (purge sc qs, ∅ : gset Z)) by (symmetry; exact (cleanup_loop sc [] qs Hk Hid Hnd)) end.
  simpl.
  rewrite raise_if_false; [done|]. apply not_true_iff_false. rewrite existsb_exists.
  intros ([p q] & Hin & Hex). apply existsb_exists in Hex as (e & Hine & Hsc).
  apply bool_decide_eq_true in Hsc. simpl in *.
  apply list_elem_of_In, list_elem_of_fmap in Hin as ([p' q'] & Heq & _).
  unfold purge_queue in Heq. simplify_eq/=.
  apply list_elem_of_In, list_elem_of_filter in Hine as [Ho _]. by apply Ho.
Qed.

Lemma queue_entries_purge sc qs :
  queue_entries (purge sc qs) = filter (out_of_scope sc) (queue_entries qs).
Proof.
  unfold purge. induction qs as [|[p q] qs IH]; [done|].
  rewrite fmap_cons. unfold purge_queue at 1. simpl. rewrite !queue_entries_cons, filter_app.
  f_equal. exact IH.
Qed.

Lemma dkeys_purge sc qs : dkeys (purge sc qs) = dkeys qs.
Proof. unfold dkeys, purge. rewrite <-list_fmap_compose. done. Qed.

Lemma queues_ok_purge sc qs n : queues_ok qs n → queues_ok (purge sc qs) n.
Proof.
  intros [Hk He Hu]. split.
  - by rewrite dkeys_purge.
  - rewrite queue_entries_purge. rewrite Forall_forall in *. intros e [_ Hin]%list_elem_of_filter. eauto.
  - rewrite queue_entries_purge. eapply sublist_NoDup; [exact Hu|].
    apply fmap_sublist, filter_sublist.
Qed.

Lemma max_opt_zrange a n :
  max_opt (zrange a n) = match n with O => None | S m => Some (a + Z.of_nat m)%Z end.
Proof.
  destruct n as [|n]; [done|].
  destruct (max_opt (zrange a (S n))) as [m|] eqn:E.
  - apply max_opt_Some in E as [Hin Hall]. apply elem_of_zrange in Hin. f_equal.
    rewrite Forall_forall in Hall. specialize (Hall (a + Z.of_nat n)%Z). rewrite elem_of_zrange in Hall. lia.
  - apply max_opt_None in E. apply (f_equal length) in E. by rewrite length_zrange in E.
Qed.

Lemma or_list_zrange {es : list Z} a n :
  es = [] ∨ es = zrange a n → or_list es (zrange a n) = zrange a n.
Proof. intros [->| ->]; [done|]. by destruct (zrange a n). Qed.

(** A deposit under fresh identities succeeds. *)
Lemma apply_deposit_fresh qs n p ts i rec_es sc inferred es :
  queues_ok qs n → or_list rec_es (or_list (default [] inferred) (zrange (next_queue_identity qs) (length ts))) = es →
  length es = length ts → Forall (λ e, (n ≤ e)%Z) es →
  apply_deposit qs p ts i rec_es sc inferred
  = Ok (dset p (dget_default p [] qs ++ deposited ts es i sc) qs).
Proof.
  intros [_ He _] Hes Hlen Hge. unfold apply_deposit. rewrite Hes, Hlen, Nat.eqb_refl. simpl.
  rewrite raise_if_false; simpl; [by rewrite foldl_deposit|].
  apply not_true_iff_false. rewrite existsb_exists. intros (z & Hz & Hin).
  apply bool_decide_eq_true in Hin. rewrite all_identities_entries in Hin.
  apply list_elem_of_In in Hz. apply list_elem_of_fmap in Hin as (e & Heq & Hine).
  rewrite Forall_forall in He. destruct (He _ Hine) as (j & Hj & ?).
  rewrite Forall_forall in Hge. specialize (Hge _ Hz). rewrite Hj in Heq. simplify_eq. lia.
Qed.

Lemma or_list_length (es : list Z) (ts : list Token) a b :
  length es = length ts → or_list es (zrange a (length ts)) = es ∧ or_list [] (or_list es (zrange b (length ts))) = es.
Proof. destruct es; simpl; intros H; [rewrite <-H|]; done. Qed.

(** The state of the queue fold between batches. *)
Record replay_ok (s : QueueState) : Prop := {
  rok_queues : queues_ok (qs_queues s) (qs_next s);
  rok_next : (1 ≤ qs_next s)%Z;
  rok_spent : ∀ i, i ∈ qs_spent s → (i < qs_next s)%Z
}.

Definition deposit_fields (r : HRecord) : option (NetPath * list Token * Instant * list Z * option LifecycleScope) :=
  match r with
  | TokensInitialized p ts i es sc | TokensProduced p ts _ es sc i => Some (p, ts, i, es, sc)
  | _ => None
  end.

Definition deposit_state (s : QueueState) (p : NetPath) (ts : list Token) (i : Instant)
    (sc : option LifecycleScope) : QueueState :=
  let es := zrange (qs_next s) (length ts) in
  MkQueueState (dset p (dget_default p [] (qs_queues s) ++ deposited ts es i sc) (qs_queues s))
    (qs_next s + Z.of_nat (length ts)) (qs_spent s ∪ list_to_set es).

Lemma replay_deposit_step s r p ts i es sc :
  replay_ok s → deposit_fields r = Some (p, ts, i, es, sc) →
  es = [] ∨ es = zrange (qs_next s) (length ts) →
  replay_queue_step s r = Ok (deposit_state s p ts i sc).
Proof.
  intros [Hq Hn Hs] Hr Hes. set (fresh := zrange (qs_next s) (length ts)).
  assert (deposited_entries r = Some (ts, es)) as Hd by (destruct r; simplify_eq/=; done).
  assert (apply_movement (qs_queues s) r (Some fresh) = apply_deposit (qs_queues s) p ts i es sc (Some fresh)) as Ha
    by (destruct r; simplify_eq/=; done).
  unfold replay_queue_step. rewrite Hd, or_list_zrange by done. fold fresh.
  rewrite raise_if_false; simpl.
  2:{ apply not_true_iff_false. rewrite existsb_exists. intros (z & Hz & Hin).
      apply bool_decide_eq_true in Hin. apply list_elem_of_In, elem_of_zrange in Hz.
      specialize (Hs _ Hin). lia. }
  rewrite Ha, (apply_deposit_fresh _ (qs_next s) _ _ _ _ _ _ fresh); [|done| | |]; simpl.
  - unfold deposit_state. fold fresh. f_equal. f_equal. unfold fresh. rewrite max_opt_zrange.
    destruct (length ts); lia.
  - assert (length fresh = length ts) as Hlen by apply length_zrange.
    destruct Hes as [->| ->]; simpl; [by apply or_list_length|]. fold fresh.
    destruct fresh as [|z l]; [|done]. simpl. by rewrite <-Hlen.
  - apply length_zrange.
  - rewrite Forall_forall. intros z Hz%elem_of_zrange. lia.
Qed.

Lemma deposit_state_ok s p ts i sc : replay_ok s → replay_ok (deposit_state s p ts i sc).
Proof.
  intros [Hq Hn Hs]. split; simpl; [|lia|].
  - eapply queues_ok_deposit; [done|apply length_zrange| |apply NoDup_zrange|done|lia|];
      rewrite Forall_forall; intros z Hz%elem_of_zrange; lia.
  - intros z [Hz|Hz]%elem_of_union; [specialize (Hs _ Hz); lia|].
    apply elem_of_list_to_set, elem_of_zrange in Hz. lia.
Qed.
