(* ===== verification/Lifecycle.v ===== *)
(** * Firing occurrences and their replay folds
      (src/src/petrus/impetus/instance/firing.py)

    Every projection of the lifecycle fold; at the end, what a history the fold
    accepts looks like: each occurrence is initiated, begun and ended at most
    once, in that order, with at most one terminal activity fact. *)

From stdpp Require Import base gmap sets list strings.
From Stdlib Require Import ZArith Lia.
From S2P Require Import Prelude PyData Schema Marking Enabledness Firing Activity Records Replay.
Open Scope string_scope.
Open Scope list_scope.

Record FiringOccurrence := MkOccurrence {
  occ_id : Z;
  occ_binding : Binding;
  occ_records : list HRecord;
  occ_invocation : option ActivityInvocation;
  occ_scope : option LifecycleScope
}.

#[export] Instance FiringOccurrence_eq_dec : EqDecision FiringOccurrence.
Proof. solve_decision. Defined.

Record FiringOutcome := MkOutcome {
  out_transition : NetPath;
  out_occurrence : Z;
  out_consumed : list Token;
  out_produced : list (NetPath * Token);
  out_records : list HRecord
}.

(** A frozen terminal activity fact: a result or a classified failure. *)
Inductive Terminal :=
| TResult (d : Data)
| TFailure (f : ActivityFailure).

#[export] Instance Terminal_eq_dec : EqDecision Terminal.
Proof. solve_decision. Defined.

(** Python equality of occurrences, by normal form. *)
Definition occurrence_norm (o : FiringOccurrence) : FiringOccurrence :=
  MkOccurrence (occ_id o) (binding_norm (occ_binding o)) (record_norm <$> occ_records o)
    (invocation_norm <$> occ_invocation o) (occ_scope o).

Definition occurrence_eq (a b : FiringOccurrence) : bool :=
  bool_decide (occurrence_norm a = occurrence_norm b).

(** [select_conservative] *)
Definition select_conservative (bindings : list Binding) : option Binding := head bindings.

(** [begin_firing] and [complete_firing] of the Instance layer: the Petrinet
    transforms narrated as records. *)
Definition narrate_begin (occurrence : Z) (instant : Instant) (e : BeginEffect) : HRecord :=
  match e with
  | ConsumedTokens place ts => TokensConsumed place ts occurrence [] None instant
  | ReadTokens place ts => TokensRead place ts occurrence [] None instant
  end.

Definition instance_begin_firing (m : Marking) (b : Binding) (occurrence : Z) (instant : Instant)
    : result (Marking * list HRecord) :=
  '(effects, m') ← begin_firing m b;
  let records := FiringBegun (b_transition b) occurrence None instant
                   :: (narrate_begin occurrence instant <$> effects) in
  forM_ Record_post_init records;;
  Ok (m', records).

(** ** The lifecycle fold *)

Record LifecycleState := MkLifecycle {
  lc_initiated : dict Z (NetPath * list Token);
  lc_begun : dict Z (list HRecord);
  lc_ended : gset Z;
  lc_ending : gset Z;
  lc_frozen : dict Z Terminal;
  lc_scoped_open : dict Z LifecycleScope;
  lc_cancelled : gset Z;
  lc_active_begin : option (Z * Instant);
  lc_previous : option HRecord
}.

Definition lifecycle_init : LifecycleState := MkLifecycle [] [] ∅ ∅ [] [] ∅ None None.

Definition is_requested (r : HRecord) : bool :=
  match r with ActivityRequested _ _ _ _ _ _ _ _ _ => true | _ => false end.

(** The transition of the begun boundary of an occurrence. *)
Definition boundary_transition (records : list HRecord) : option NetPath :=
  match records with FiringBegun t _ _ _ :: _ => Some t | _ => None end.

(** [_refuse_late_begin_record] *)
Definition refuse_late_begin_record (s : LifecycleState) (o : Z) : result unit :=
  raise_if (bool_decide (o ∈ lc_ended s)) (ValueError "replay divergence: begin record appears after its terminal boundary");;
  raise_if (bool_decide (o ∈ lc_ending s)) (ValueError "replay divergence: begin record appears after completion began").

(** [_validate_begin_record_position] *)
Definition validate_begin_record_position (active : option (Z * Instant)) (o : Z) (i : Instant) : result unit :=
  match active with
  | Some (o', i') =>
      raise_if (negb (bool_decide (o' = o))) (ValueError "replay divergence: record does not belong to its contiguous begin batch");;
      raise_if (negb (bool_decide (i = i'))) (ValueError "replay divergence: record is not at its begin batch instant")
  | None => Err (ValueError "replay divergence: record does not belong to its contiguous begin batch")
  end.

(** [_validate_activity_record_transition] *)
Definition validate_activity_transition (begun : list HRecord) (t : NetPath) : result unit :=
  raise_if (negb (bool_decide (boundary_transition begun = Some t)))
    (ValueError "replay divergence: activity record transition does not match begun transition").

(** Freezing a terminal activity fact: requested, on its transition, first,
    and not after lifecycle cancellation. *)
Definition freeze (s : LifecycleState) (t : NetPath) (o : Z) (value : result Terminal)
    : result (dict Z Terminal) :=
  let begun := dget_default o [] (lc_begun s) in
  raise_if (negb (existsb is_requested begun))
    (ValueError "replay divergence: terminal activity fact but no activity was requested in its begin batch");;
  validate_activity_transition begun t;;
  raise_if (dmem o (lc_frozen s)) (ValueError "replay divergence: a second terminal activity fact");;
  raise_if (bool_decide (o ∈ lc_cancelled s))
    (ValueError "replay divergence: terminal activity fact for a lifecycle-cancelled occurrence");;
  v ← value;
  Ok (dset o v (lc_frozen s)).

(** An initiation record mints its occurrence once. *)
Definition initiate (s : LifecycleState) (o : Z) (t : NetPath) (delivered : list Token)
    : result (dict Z (NetPath * list Token)) :=
  raise_if (dmem o (lc_initiated s)) (ValueError "replay divergence: firing occurrence initiated more than once");;
  Ok (dset o (t, delivered) (lc_initiated s)).

(** The initiation a begun boundary must immediately follow. *)
Definition initiation_of (r : HRecord) : option (Z * Instant) :=
  match r with
  | CandidateSelected _ o i | ExternalEventDelivered _ _ _ o _ i => Some (o, i)
  | _ => None
  end.

Definition with_initiated (s : LifecycleState) (d : dict Z (NetPath * list Token)) : LifecycleState :=
  MkLifecycle d (lc_begun s) (lc_ended s) (lc_ending s) (lc_frozen s) (lc_scoped_open s)
    (lc_cancelled s) (lc_active_begin s) (lc_previous s).
Definition with_begun (s : LifecycleState) (d : dict Z (list HRecord)) : LifecycleState :=
  MkLifecycle (lc_initiated s) d (lc_ended s) (lc_ending s) (lc_frozen s) (lc_scoped_open s)
    (lc_cancelled s) (lc_active_begin s) (lc_previous s).
Definition with_ending (s : LifecycleState) (e : gset Z) : LifecycleState :=
  MkLifecycle (lc_initiated s) (lc_begun s) (lc_ended s) e (lc_frozen s) (lc_scoped_open s)
    (lc_cancelled s) (lc_active_begin s) (lc_previous s).
Definition with_frozen (s : LifecycleState) (d : dict Z Terminal) : LifecycleState :=
  MkLifecycle (lc_initiated s) (lc_begun s) (lc_ended s) (lc_ending s) d (lc_scoped_open s)
    (lc_cancelled s) (lc_active_begin s) (lc_previous s).
Definition with_active_begin (s : LifecycleState) (a : option (Z * Instant)) : LifecycleState :=
  MkLifecycle (lc_initiated s) (lc_begun s) (lc_ended s) (lc_ending s) (lc_frozen s) (lc_scoped_open s)
    (lc_cancelled s) a (lc_previous s).
Definition with_previous (s : LifecycleState) (r : HRecord) : LifecycleState :=
  MkLifecycle (lc_initiated s) (lc_begun s) (lc_ended s) (lc_ending s) (lc_frozen s) (lc_scoped_open s)
    (lc_cancelled s) (lc_active_begin s) (Some r).

(** A begin-tail fact joins the contiguous begin batch of its occurrence. *)
Definition begin_tail (s : LifecycleState) (o : Z) (i : Instant) (r : HRecord) : result LifecycleState :=
  refuse_late_begin_record s o;;
  validate_begin_record_position (lc_active_begin s) o i;;
  Ok (with_begun s (dset o (dget_default o [] (lc_begun s) ++ [r]) (lc_begun s))).

(** The [FiringBegun] branch. *)
Definition begin_boundary (s : LifecycleState) (t : NetPath) (o : Z) (scope : option LifecycleScope)
    (i : Instant) : result LifecycleState :=
  raise_if (negb (dmem o (lc_initiated s))) (ValueError "replay divergence: firing occurrence begun with no initiation record");;
  raise_if (dmem o (lc_begun s)) (ValueError "replay divergence: firing occurrence has more than one FiringBegun record");;
  (match lc_previous s ≫= initiation_of with
   | Some (o', i') =>
       raise_if (negb (bool_decide (o' = o))) (ValueError "replay divergence: FiringBegun does not immediately follow its initiation");;
       raise_if (negb (bool_decide (i' = i))) (ValueError "replay divergence: FiringBegun is not at its initiation instant")
   | None => Err (ValueError "replay divergence: FiringBegun does not immediately follow its initiation")
   end);;
  Ok (MkLifecycle (lc_initiated s) (dset o [FiringBegun t o scope i] (lc_begun s)) (lc_ended s) (lc_ending s)
        (lc_frozen s)
        (match scope with Some sc => dset o sc (lc_scoped_open s) | None => lc_scoped_open s end)
        (lc_cancelled s) (Some (o, i)) (lc_previous s)).

(** The open occurrences of one generation, in begin order. *)
Definition open_in_scope (open : dict Z LifecycleScope) (scope : LifecycleScope) : list Z :=
  (filter (λ os : Z * LifecycleScope, os.2 = scope) open).*1.

(** The [ScopeClosed]/[ScopeReset] branch. *)
Definition cancel_scope (s : LifecycleState) (scope : LifecycleScope) (cancelled : list Z)
    : result LifecycleState :=
  let expected := open_in_scope (lc_scoped_open s) scope in
  raise_if (negb (bool_decide (cancelled = expected)))
    (ValueError "replay divergence: lifecycle close differs from the exact open occurrence set");;
  raise_if (existsb (λ o, dmem o (lc_frozen s)) expected)
    (ValueError "replay divergence: lifecycle close cancels accepted Activity terminals awaiting projection");;
  Ok (MkLifecycle (lc_initiated s) (lc_begun s) (lc_ended s ∪ list_to_set expected) (lc_ending s) (lc_frozen s)
        (foldl (λ d o, ddel o d) (lc_scoped_open s) expected)
        (lc_cancelled s ∪ list_to_set expected) (lc_active_begin s) (lc_previous s)).

(** The [FiringCompleted]/[FiringFailed] branch. *)
Definition terminal_boundary (s : LifecycleState) (t : NetPath) (o : Z) : result LifecycleState :=
  raise_if (negb (dmem o (lc_begun s))) (ValueError "replay divergence: firing terminal with no begun boundary");;
  raise_if (negb (bool_decide (boundary_transition (dget_default o [] (lc_begun s)) = Some t)))
    (ValueError "replay divergence: terminal transition does not match begun transition");;
  raise_if (bool_decide (o ∈ lc_cancelled s)) (ValueError "replay divergence: firing terminal after lifecycle cancellation");;
  raise_if (bool_decide (o ∈ lc_ended s)) (ValueError "replay divergence: more than one firing terminal");;
  Ok (MkLifecycle (lc_initiated s) (lc_begun s) (lc_ended s ∪ {[o]}) (lc_ending s) (lc_frozen s)
        (ddel o (lc_scoped_open s)) (lc_cancelled s) (lc_active_begin s) (lc_previous s)).

(** The record types that keep a begin batch open. *)
Definition is_begin_tail (r : HRecord) : bool :=
  match r with
  | TokensConsumed _ _ _ _ _ _ | TokensRead _ _ _ _ _ _ | ActivityRequested _ _ _ _ _ _ _ _ _ => true
  | _ => false
  end.

(** The branch of one record. *)
Definition lifecycle_branch (s : LifecycleState) (r : HRecord) : result LifecycleState :=
  match r with
  | CandidateSelected t o _ => d ← initiate s o t []; Ok (with_initiated s d)
  | ExternalEventDelivered source ts _ o _ _ => d ← initiate s o source ts; Ok (with_initiated s d)
  | FiringBegun t o scope i => begin_boundary s t o scope i
  | TokensConsumed _ _ o _ _ i | TokensRead _ _ o _ _ i =>
      raise_if (negb (dmem o (lc_begun s))) (ValueError "replay divergence: tokens moved with no begun boundary");;
      begin_tail s o i r
  | ActivityRequested t _ _ _ _ _ o _ i =>
      raise_if (negb (dmem o (lc_begun s))) (ValueError "replay divergence: activity requested with no begun boundary");;
      validate_activity_transition (dget_default o [] (lc_begun s)) t;;
      raise_if (existsb is_requested (dget_default o [] (lc_begun s)))
        (ValueError "replay divergence: firing occurrence requested a second activity");;
      begin_tail s o i r
  | ActivityCompleted t d o _ => frozen ← freeze s t o (Ok (TResult d)); Ok (with_frozen s frozen)
  | ActivityFailed t e k d b ra o _ =>
      frozen ← freeze s t o (f ← ActivityFailure_new e k d b ra; Ok (TFailure f)); Ok (with_frozen s frozen)
  | ActivityTerminalQuarantined t _ _ o _ =>
      raise_if (negb (dmem o (lc_begun s))) (ValueError "replay divergence: terminal quarantined with no begun boundary");;
      validate_activity_transition (dget_default o [] (lc_begun s)) t;; Ok s
  | ScopeClosed scope _ cancelled _ | ScopeReset scope _ _ cancelled _ => cancel_scope s scope cancelled
  | TokensProduced _ _ o _ _ _
  | DeliveryRegistrationOpened _ _ (Some o) _ | DeliveryRegistrationClosed _ _ (Some o) _ =>
      Ok (with_ending s (lc_ending s ∪ {[o]}))
  | FiringCompleted t o _ | FiringFailed t _ o _ => terminal_boundary s t o
  | _ => Ok s
  end.

Definition lifecycle_step (s : LifecycleState) (r : HRecord) : result LifecycleState :=
  let s := if is_begin_tail r then s else with_active_begin s None in
  s' ← lifecycle_branch s r;
  Ok (with_previous s' r).

(** [_sorted_lifecycle] *)
Definition sorted_lifecycle (history : list HRecord) : result LifecycleState :=
  foldM lifecycle_step lifecycle_init history.

(** [_refuse_torn_batch] *)
Definition refuse_torn_batch (o : Z) (ending : gset Z) : result unit :=
  raise_if (bool_decide (o ∈ ending)) (ValueError "replay divergence: a torn commit batch").

Definition begin_rank (r : HRecord) : Z :=
  match r with
  | FiringBegun _ _ _ _ => 0
  | TokensConsumed _ _ _ _ _ _ => 1
  | TokensRead _ _ _ _ _ _ => 2
  | _ => 3
  end.

(** [_refuse_disordered_begin_batch] *)
Definition refuse_disordered_begin_batch (records : list HRecord) : result unit :=
  raise_if (negb (bool_decide ((begin_rank <$> records) = sorted_by Z.leb (begin_rank <$> records))))
    (ValueError "replay divergence: disordered begin batch").

Definition consumed_of (r : HRecord) : option Selection :=
  match r with TokensConsumed p ts _ _ _ _ => Some (p, ts) | _ => None end.
Definition read_of (r : HRecord) : option Selection :=
  match r with TokensRead p ts _ _ _ _ => Some (p, ts) | _ => None end.
Definition invocation_of (r : HRecord) : option ActivityInvocation :=
  match r with
  | ActivityRequested _ a input policy c i _ _ _ => Some (MkInvocation a input policy (Some c) (Some i))
  | _ => None
  end.
Definition begun_of (r : HRecord) : option (NetPath * option LifecycleScope) :=
  match r with FiringBegun t _ scope _ => Some (t, scope) | _ => None end.

(** [_rebuilt_occurrence] *)
Definition rebuilt_occurrence (o : Z) (t : NetPath) (delivered : list Token) (records : list HRecord)
    : result FiringOccurrence :=
  invocation ← (match head (omap invocation_of records) with
                | Some i => ActivityInvocation_post_init i;; Ok (Some i)
                | None => Ok None
                end);
  '(t', scope) ← or_raise (head (omap begun_of records)) (RuntimeError "StopIteration");
  raise_if (negb (bool_decide (t' = t))) (ValueError "replay divergence: initiation transition does not match begun transition");;
  raise_if (existsb (λ r, negb (bool_decide (rec_scope r = scope))) records)
    (ValueError "replay divergence: scope provenance inconsistent with FiringBegun");;
  b ← Binding_new t (omap consumed_of records) (omap read_of records) delivered;
  Ok (MkOccurrence o b records invocation scope).

(** The loop body of the projections that rebuild begun occurrences: an open
    one is refused when torn, any one when disordered. *)
Definition rebuild (s : LifecycleState) (orec : Z * list HRecord) : result FiringOccurrence :=
  '(t, delivered) ← or_raise (dget orec.1 (lc_initiated s)) (KeyError "initiated");
  (if bool_decide (orec.1 ∈ lc_ended s) then Ok tt else refuse_torn_batch orec.1 (lc_ending s));;
  refuse_disordered_begin_batch orec.2;;
  rebuilt_occurrence orec.1 t delivered orec.2.

(** [replay_in_flight] *)
Definition in_flight_of (s : LifecycleState) : result (list FiringOccurrence) :=
  mapR (rebuild s) (filter (λ orec : Z * list HRecord, orec.1 ∉ lc_ended s) (lc_begun s)).

Definition replay_in_flight (history : list HRecord) : result (list FiringOccurrence) :=
  s ← sorted_lifecycle history; in_flight_of s.

(** [replay_firing_occurrences] *)
Definition replay_firing_occurrences (history : list HRecord) (ids : gset Z)
    : result (list FiringOccurrence) :=
  s ← sorted_lifecycle history;
  mapR (rebuild s) (filter (λ orec : Z * list HRecord, orec.1 ∈ ids) (lc_begun s)).

(** [replay_projection_pending] *)
Definition pending_of (s : LifecycleState) : dict Z Terminal :=
  filter (λ ov : Z * Terminal, dmem ov.1 (lc_begun s) ∧ ov.1 ∉ lc_ended s) (lc_frozen s).

Definition replay_projection_pending (history : list HRecord) : result (dict Z Terminal) :=
  s ← sorted_lifecycle history; Ok (pending_of s).

(** [replay_terminal_activity]: (ended, terminal facts). *)
Definition terminal_step (s : gset Z * dict Z Terminal) (r : HRecord)
    : result (gset Z * dict Z Terminal) :=
  let record_fact o (value : result Terminal) :=
    raise_if (dmem o s.2) (ValueError "replay divergence: a second terminal activity fact");;
    raise_if (bool_decide (o ∈ s.1)) (ValueError "replay divergence: a terminal activity fact after its firing ended");;
    v ← value; Ok (s.1, dset o v s.2) in
  match r with
  | FiringCompleted _ o _ | FiringFailed _ _ o _ => Ok (s.1 ∪ {[o]}, s.2)
  | ActivityCompleted _ d o _ => record_fact o (Ok (TResult d))
  | ActivityFailed _ e k d b ra o _ => record_fact o (f ← ActivityFailure_new e k d b ra; Ok (TFailure f))
  | _ => Ok s
  end.

Definition terminal_of (s : gset Z * dict Z Terminal) : dict Z Terminal :=
  filter (λ ov : Z * Terminal, ov.1 ∈ s.1) s.2.

Definition replay_terminal_activity (history : list HRecord) : result (dict Z Terminal) :=
  s ← foldM terminal_step (∅, []) history; Ok (terminal_of s).

(** The scopes of cancelled occurrences, refusing a second cancellation. *)
Definition cancel_all (scope : LifecycleScope) (cancelled : dict Z LifecycleScope) (ids : list Z)
    : result (dict Z LifecycleScope) :=
  foldM (λ d o, raise_if (dmem o d) (ValueError "replay divergence: firing occurrence cancelled twice");;
                Ok (dset o scope d)) cancelled ids.

(** [replay_quarantined_activity]: (quarantined, cancelled). *)
Definition quarantine_step (s : dict Z Data * dict Z LifecycleScope) (r : HRecord)
    : result (dict Z Data * dict Z LifecycleScope) :=
  match r with
  | ScopeClosed scope _ ids _ | ScopeReset scope _ _ ids _ =>
      cancelled ← cancel_all scope s.2 ids; Ok (s.1, cancelled)
  | ActivityTerminalQuarantined _ outcome scope o _ =>
      raise_if (negb (bool_decide (dget o s.2 = Some scope)))
        (ValueError "replay divergence: terminal quarantined outside its lifecycle cancellation");;
      raise_if (dmem o s.1) (ValueError "replay divergence: a second quarantined terminal");;
      Ok (dset o outcome s.1, s.2)
  | _ => Ok s
  end.

Definition replay_quarantined_activity (history : list HRecord) : result (dict Z Data) :=
  s ← foldM quarantine_step ([], []) history; Ok s.1.

(** [replay_cancelled] *)
Definition cancelled_step (s : dict Z LifecycleScope) (r : HRecord) : result (dict Z LifecycleScope) :=
  match cancellation r with
  | Some (scope, ids) => cancel_all scope s ids
  | None => Ok s
  end.

Definition rebuild_cancelled (s : LifecycleState) (os : Z * LifecycleScope) : result FiringOccurrence :=
  match dget os.1 (lc_begun s), dget os.1 (lc_initiated s) with
  | Some records, Some (t, delivered) =>
      occurrence ← rebuilt_occurrence os.1 t delivered records;
      raise_if (negb (bool_decide (occ_scope occurrence = Some os.2)))
        (ValueError "replay divergence: firing occurrence does not belong to the closing lifecycle scope");;
      Ok occurrence
  | _, _ => Err (ValueError "replay divergence: cancelled firing occurrence was not begun")
  end.

Definition replay_cancelled (history : list HRecord) : result (list FiringOccurrence) :=
  s ← sorted_lifecycle history;
  cancelled ← foldM cancelled_step [] history;
  mapR (rebuild_cancelled s) cancelled.

(** [replay_activity_occurrences] *)
Definition rebuild_activity (s : LifecycleState) (orec : Z * list HRecord) : result FiringOccurrence :=
  '(t, delivered) ← or_raise (dget orec.1 (lc_initiated s))
                      (ValueError "replay divergence: Activity occurrence was not initiated");
  refuse_disordered_begin_batch orec.2;;
  rebuilt_occurrence orec.1 t delivered orec.2.

Definition replay_activity_occurrences (history : list HRecord) : result (list FiringOccurrence) :=
  s ← sorted_lifecycle history;
  mapR (rebuild_activity s)
    (filter (λ orec : Z * list HRecord, existsb is_requested orec.2) (lc_begun s)).

(** ** Completion at the Instance layer *)

(** A handler's effect is well formed when it is a [DeliveryRegistration]. *)
Record HandlerResult := MkHandlerResult {
  hr_tokens : Projected;
  hr_closes : list DeliveryRegistration;
  hr_opens : list DeliveryRegistration
}.

Definition closed_record (o : Z) (i : Instant) (r : DeliveryRegistration) : HRecord :=
  DeliveryRegistrationClosed (reg_source r) (reg_key r) (Some o) i.
Definition opened_record (o : Z) (i : Instant) (r : DeliveryRegistration) : HRecord :=
  DeliveryRegistrationOpened (reg_source r) (reg_key r) (Some o) i.

(** [complete_firing] *)
Definition instance_complete_firing (n : Net) (m : Marking) (occurrence : FiringOccurrence)
    (hr : HandlerResult) (instant : Instant) : result (Marking * FiringOutcome * list HRecord) :=
  let t := b_transition (occ_binding occurrence) in
  let o := occ_id occurrence in
  '(effects, m') ← complete_firing n m t (hr_tokens hr);
  let appended :=
    ((λ e, TokensProduced (produced_place e) (produced_tokens e) o [] None instant) <$> effects)
    ++ (closed_record o instant <$> hr_closes hr)
    ++ (opened_record o instant <$> hr_opens hr)
    ++ [FiringCompleted t o instant] in
  forM_ Record_post_init appended;;
  let produced := e ← effects; (λ tok, (produced_place e, tok)) <$> produced_tokens e in
  Ok (m', MkOutcome t o (flatten_selections (b_consumed (occ_binding occurrence))) produced
            (occ_records occurrence ++ appended), appended).

(** ** Exactly-once boundaries *)

Definition initiated_id (r : HRecord) : option Z := fst <$> initiation_of r.
Definition begun_id (r : HRecord) : option Z :=
  match r with FiringBegun _ o _ _ => Some o | _ => None end.
Definition terminal_id (r : HRecord) : option Z :=
  match r with FiringCompleted _ o _ | FiringFailed _ _ o _ => Some o | _ => None end.
Definition fact_id (r : HRecord) : option Z :=
  match r with ActivityCompleted _ _ o _ | ActivityFailed _ _ _ _ _ _ o _ => Some o | _ => None end.

(** The fold state against the prefix it has read. *)
Record once_rel (h : list HRecord) (L : LifecycleState) : Prop := {
  on_initiated : dkeys (lc_initiated L) = omap initiated_id h;
  on_begun : dkeys (lc_begun L) = omap begun_id h;
  on_frozen : dkeys (lc_frozen L) = omap fact_id h;
  on_terminal o : o ∈ omap terminal_id h → o ∈ lc_ended L ∧ o ∈ omap begun_id h;
  on_nodup_initiated : NoDup (omap initiated_id h);
  on_nodup_begun : NoDup (omap begun_id h);
  on_nodup_fact : NoDup (omap fact_id h);
  on_nodup_terminal : NoDup (omap terminal_id h);
  on_begun_initiated o : o ∈ omap begun_id h → o ∈ omap initiated_id h
}.

Lemma once_init : once_rel [] lifecycle_init.
Proof. split; simpl; try done; try apply NoDup_nil_2; intros o Ho; by apply elem_of_nil in Ho. Qed.

Lemma NoDup_snoc {A} (k : list A) x : NoDup k → x ∉ k → NoDup (k ++ [x]).
Proof. intros Hk Hx. apply NoDup_app. split; [done|]. split; [set_solver|apply NoDup_singleton]. Qed.

(** A step that leaves the tables as they are, on a record without identities. *)
Lemma once_quiet h L L' r :
  once_rel h L → lc_initiated L' = lc_initiated L → dkeys (lc_begun L') = dkeys (lc_begun L) →
  lc_frozen L' = lc_frozen L → lc_ended L ⊆ lc_ended L' →
  initiated_id r = None → begun_id r = None → fact_id r = None → terminal_id r = None →
  once_rel (h ++ [r]) L'.
Proof.
  intros [] E1 E2 E3 E4 N1 N2 N3 N4.
  split; rewrite ?omap_app; csimpl; rewrite ?N1, ?N2, ?N3, ?N4, ?app_nil_r, ?E1, ?E2, ?E3; auto.
  intros o Ho. destruct (on_terminal0 o Ho). split; [set_solver|done].
Qed.

Lemma dkeys_mint {V} (o : Z) (v : V) d : dget o d = None → dkeys (dset o v d) = dkeys d ++ [o].
Proof. intros H. by apply dkeys_dset_fresh, dget_None. Qed.

Lemma once_initiated h L r o t d :
  once_rel h L → dget o (lc_initiated L) = None → initiated_id r = Some o →
  begun_id r = None → fact_id r = None → terminal_id r = None →
  once_rel (h ++ [r]) (with_previous (with_initiated L (dset o (t, d) (lc_initiated L))) r).
Proof.
  intros [] Hd N1 N2 N3 N4. assert (o ∉ omap initiated_id h) as Hn.
  { rewrite <-on_initiated0. by apply dget_None. }
  split; rewrite ?omap_app; csimpl; rewrite ?N1, ?N2, ?N3, ?N4, ?app_nil_r; auto.
  - by rewrite dkeys_mint, on_initiated0.
  - by apply NoDup_snoc.
  - intros o' Ho'. apply elem_of_app. left. auto.
Qed.

Lemma once_freeze h L r o v :
  once_rel h L → dget o (lc_frozen L) = None → fact_id r = Some o →
  initiated_id r = None → begun_id r = None → terminal_id r = None →
  once_rel (h ++ [r]) (with_previous (with_frozen L (dset o v (lc_frozen L))) r).
Proof.
  intros [] Hd N3 N1 N2 N4. assert (o ∉ omap fact_id h) as Hn.
  { rewrite <-on_frozen0. by apply dget_None. }
  split; rewrite ?omap_app; csimpl; rewrite ?N1, ?N2, ?N3, ?N4, ?app_nil_r; auto.
  - by rewrite dkeys_mint, on_frozen0.
  - by apply NoDup_snoc.
Qed.

Lemma once_ended h L L' r o :
  once_rel h L → lc_initiated L' = lc_initiated L → lc_begun L' = lc_begun L → lc_frozen L' = lc_frozen L →
  lc_ended L' = lc_ended L ∪ {[o]} → o ∉ lc_ended L → o ∈ dkeys (lc_begun L) →
  terminal_id r = Some o → initiated_id r = None → begun_id r = None → fact_id r = None →
  once_rel (h ++ [r]) L'.
Proof.
  intros [] E1 E2 E3 E4 Hn Hb N4 N1 N2 N3.
  split; rewrite ?omap_app; csimpl; rewrite ?N1, ?N2, ?N3, ?N4, ?app_nil_r, ?E1, ?E2, ?E3, ?E4; auto.
  - intros o' [Ho'| ->%list_elem_of_singleton]%elem_of_app.
    + destruct (on_terminal0 o' Ho'). split; [set_solver|done].
    + split; [set_solver|]. by rewrite <-on_begun0.
  - apply NoDup_snoc; [done|]. intros Ho%on_terminal0. by destruct Ho.
Qed.

Lemma once_begun h L L' r o recs :
  once_rel h L → lc_initiated L' = lc_initiated L → lc_begun L' = dset o recs (lc_begun L) →
  lc_frozen L' = lc_frozen L → lc_ended L' = lc_ended L →
  dget o (lc_begun L) = None → o ∈ dkeys (lc_initiated L) →
  begun_id r = Some o → initiated_id r = None → fact_id r = None → terminal_id r = None →
  once_rel (h ++ [r]) L'.
Proof.
  intros [] E1 E2 E3 E4 Hd Hi N2 N1 N3 N4.
  assert (o ∉ omap begun_id h) as Hn by (rewrite <-on_begun0; by apply dget_None).
  split; rewrite ?omap_app; csimpl; rewrite ?N1, ?N2, ?N3, ?N4, ?app_nil_r, ?E1, ?E2, ?E3, ?E4; auto.
  - by rewrite dkeys_mint, on_begun0.
  - intros o' Ho'. destruct (on_terminal0 o' Ho'). split; [done|]. apply elem_of_app. by left.
  - by apply NoDup_snoc.
  - intros o' [Ho'| ->%list_elem_of_singleton]%elem_of_app; [auto|]. by rewrite <-on_initiated0.
Qed.

Lemma freeze_inv s t o value d :
  freeze s t o value = Ok d → dget o (lc_frozen s) = None ∧ ∃ v, d = dset o v (lc_frozen s).
Proof. unfold freeze. intros H. inv_ok. split; [by apply dmem_false|]. eauto. Qed.

Lemma begin_tail_inv s o i r s' :
  dmem o (lc_begun s) = true → begin_tail s o i r = Ok s' → 
  lc_initiated s' = lc_initiated s ∧ dkeys (lc_begun s') = dkeys (lc_begun s) ∧
  lc_frozen s' = lc_frozen s ∧ lc_ended s' = lc_ended s.
Proof.
  unfold begin_tail. intros Hm H. inv_ok. simpl. split; [done|]. split; [|done].
  apply dkeys_dset_in. by apply dmem_true.
Qed.

Lemma once_active h L a : once_rel h L → once_rel h (with_active_begin L a).
Proof. intros []. by split. Qed.

Lemma once_step h L r L' : once_rel h L → lifecycle_step L r = Ok L' → once_rel (h ++ [r]) L'.
Proof.
  intros Hrel Hstep. unfold lifecycle_step in Hstep.
  set (L0 := if is_begin_tail r then L else with_active_begin L None) in *.
  assert (once_rel h L0) as H0 by (unfold L0; destruct (is_begin_tail r); [done|by apply once_active]).
  clearbody L0. clear Hrel L. apply bind_Ok in Hstep as (L1 & Hb & [= <-]).
  destruct r; simpl in Hb;
    try (by injection Hb as <-; apply (once_quiet h L0)).
  all: try (unfold initiate in Hb; inv_ok; apply once_initiated; [done|by apply dmem_false|done..]; fail).
  all: try (unfold cancel_scope in Hb; inv_ok; apply (once_quiet h L0); try done; set_solver).
  all: try (unfold terminal_boundary in Hb; inv_ok;
            repeat match goal with H : negb _ = false |- _ => apply negb_false_iff in H end;
            repeat match goal with H : bool_decide _ = false |- _ => apply bool_decide_eq_false in H end;
            eapply (once_ended h L0); try done; by apply dmem_true).
  - apply (once_quiet h L0); try done; by destruct occurrence; injection Hb as <-.
  - apply (once_quiet h L0); try done; by destruct occurrence; injection Hb as <-.
  - unfold begin_boundary in Hb. inv_ok. apply negb_false_iff, dmem_true in H.
    eapply (once_begun h L0); try done. by apply dmem_false.
  - inv_ok. apply negb_false_iff in H. apply begin_tail_inv in Hb as (? & ? & ? & He); [|done].
    apply (once_quiet h L0); try done. simpl. by rewrite He.
  - inv_ok. apply negb_false_iff in H. apply begin_tail_inv in Hb as (? & ? & ? & He); [|done].
    apply (once_quiet h L0); try done. simpl. by rewrite He.
  - inv_ok. apply negb_false_iff in H. apply begin_tail_inv in Hb as (? & ? & ? & He); [|done].
    apply (once_quiet h L0); try done. simpl. by rewrite He.
  - apply bind_Ok in Hb as (fz & Hf & [= <-]). apply freeze_inv in Hf as (Hn & v & ->). by eapply once_freeze.
  - apply bind_Ok in Hb as (fz & Hf & [= <-]). apply freeze_inv in Hf as (Hn & v & ->). by eapply once_freeze.
  - inv_ok. by eapply once_quiet.
Qed.

Lemma once_fold h L rs L' : once_rel h L → foldM lifecycle_step L rs = Ok L' → once_rel (h ++ rs) L'.
Proof.
  revert h L. induction rs as [|r rs IH]; intros h L Hrel H; cbn [foldM] in H.
  { injection H as <-. by rewrite app_nil_r. }
  apply bind_Ok in H as (L1 & Hs & H). apply once_step with (h := h) in Hs; [|done].
  apply (IH _ _ Hs) in H. by rewrite <-(assoc_L (++)) in H.
Qed.

Lemma sorted_lifecycle_once h L : sorted_lifecycle h = Ok L → once_rel h L.
Proof. apply (once_fold []), once_init. Qed.
