(* ===== verification/Selection.v ===== *)
(** * Selection policies (src/src/petrus/impetus/selection/__init__.py)

    A policy proposes one of the offered bindings together with the state its
    commit earns; the state is rebuilt from the committed selections. The
    built-in policies and pipelines keep the protocol's laws. *)

From stdpp Require Import base gmap sets list strings.
From Stdlib Require Import ZArith Lia.
From S2P Require Import Prelude PyData Schema Marking Enabledness Firing Activity Records.
Open Scope string_scope.
Open Scope list_scope.

(** Policy state is an arbitrary value; the policies below use [None] and
    integers. *)
Definition SelectionState := Data.

Record SelectionProposal := MkProposal {
  sp_binding : Binding;
  sp_prior_state : SelectionState;
  sp_next_state : SelectionState
}.

(** The [SelectionPolicy] protocol. *)
Class SelectionPolicy (P : Type) := {
  propose : P → list Binding → SelectionState → result (option SelectionProposal);
  fold_committed : P → SelectionState → NetPath → result SelectionState
}.

(** What the runtime relies on: a proposal is one of the offered bindings,
    carries the state it was asked with, and its next state is the one replay
    folds for the committed transition. *)
Class LawfulPolicy (P : Type) `{SelectionPolicy P} := {
  propose_offered (p : P) cs st sp : propose p cs st = Ok (Some sp) → sp_binding sp ∈ cs;
  propose_prior (p : P) cs st sp : propose p cs st = Ok (Some sp) → sp_prior_state sp = st;
  propose_committed (p : P) cs st sp :
    propose p cs st = Ok (Some sp) →
    fold_committed p st (b_transition (sp_binding sp)) = Ok (sp_next_state sp)
}.

(** ** First *)

Inductive First := MkFirst.

Definition First_propose (p : First) (cs : list Binding) (st : SelectionState)
    : result (option SelectionProposal) :=
  Ok (match cs with [] => None | c :: _ => Some (MkProposal c st st) end).

#[export] Instance First_policy : SelectionPolicy First := {|
  propose := First_propose;
  fold_committed _ st _ := Ok st
|}.

(** ** Priority *)

Record Priority := MkPriority { priorities : dict NetPath Z }.

(** [Priority.__init__] *)
Definition Priority_new (supplied : list (path_arg * Z)) : result Priority :=
  snapshot ← mapR (λ pz, p ← canonical_net_path pz.1; Ok (p, pz.2)) supplied;
  Ok (MkPriority (dict_of_list snapshot)).

Definition priority_of (p : Priority) (b : Binding) : Z :=
  dget_default (b_transition b) 0%Z (priorities p).

(** [max(candidates, key=...)]: the first of the greatest. *)
Fixpoint max_by {A} (key : A → Z) (best : A) (l : list A) : A :=
  match l with
  | [] => best
  | x :: l => max_by key (if (key best <? key x)%Z then x else best) l
  end.

Definition Priority_propose (p : Priority) (cs : list Binding) (st : SelectionState)
    : result (option SelectionProposal) :=
  Ok (match cs with
      | [] => None
      | c :: cs => Some (MkProposal (max_by (priority_of p) c cs) st st)
      end).

#[export] Instance Priority_policy : SelectionPolicy Priority := {|
  propose := Priority_propose;
  fold_committed _ st _ := Ok st
|}.

(** ** Round robin *)

Record RoundRobin := MkRoundRobin { rr_transitions : list NetPath }.

(** [RoundRobin.__init__] *)
Definition RoundRobin_new (supplied : list path_arg) : result RoundRobin :=
  ring ← mapR canonical_net_path supplied;
  raise_if (bool_decide (ring = []) || negb (bool_decide (NoDup ring)))
    (ValueError "round-robin transitions must be a non-empty unique sequence");;
  Ok (MkRoundRobin ring).

(** [_cursor] *)
Definition cursor_of (st : SelectionState) (size : nat) : result Z :=
  match st with
  | DInt z =>
      raise_if (negb ((0 <=? z)%Z && (z <? Z.of_nat size)%Z)) (ValueError "invalid round-robin state");; Ok z
  | _ => Err (ValueError "invalid round-robin state")
  end.

(** [tuple.index], [None] where it raises. *)
Fixpoint index_of (t : NetPath) (ring : list NetPath) : option nat :=
  match ring with
  | [] => None
  | u :: ring => if decide (t = u) then Some 0%nat else option_map S (index_of t ring)
  end.

Definition after (ring : list NetPath) (i : nat) : SelectionState :=
  DInt ((Z.of_nat i + 1) mod Z.of_nat (length ring)).

(** The first binding each transition offers. *)
Definition first_by_transition (cs : list Binding) : dict NetPath Binding :=
  foldl (λ d c, if dmem (b_transition c) d then d else dset (b_transition c) c d) [] cs.

(** The scan of the ring from the cursor. *)
Fixpoint rotate (ring : list NetPath) (cursor : Z) (firsts : dict NetPath Binding) (st : SelectionState)
    (offsets : list nat) : result (option SelectionProposal) :=
  match offsets with
  | [] => Err (ValueError "offered candidates are outside the round-robin transition ring")
  | offset :: offsets =>
      t ← or_raise (ring !! Z.to_nat ((cursor + Z.of_nat offset) mod Z.of_nat (length ring)))
            (IndexError "tuple index out of range");
      match dget t firsts with
      | Some b =>
          i ← or_raise (index_of t ring) (ValueError "tuple.index(x): x not in tuple");
          Ok (Some (MkProposal b st (after ring i)))
      | None => rotate ring cursor firsts st offsets
      end
  end.

Definition RoundRobin_propose (p : RoundRobin) (cs : list Binding) (st : SelectionState)
    : result (option SelectionProposal) :=
  match cs with
  | [] => Ok None
  | _ =>
      let ring := rr_transitions p in
      cursor ← (match st with DNone => Ok 0%Z | _ => cursor_of st (length ring) end);
      rotate ring cursor (first_by_transition cs) st (seq 0 (length ring))
  end.

Definition RoundRobin_fold_committed (p : RoundRobin) (_ : SelectionState) (t : NetPath)
    : result SelectionState :=
  i ← or_raise (index_of t (rr_transitions p))
        (ValueError "committed transition is outside the round-robin transition ring");
  Ok (after (rr_transitions p) i).

#[export] Instance RoundRobin_policy : SelectionPolicy RoundRobin := {|
  propose := RoundRobin_propose;
  fold_committed := RoundRobin_fold_committed
|}.

(** ** Pipelines *)

(** A stable ranker, as the order of the keys it computes: [a] may stay before
    [b] unless the key of [b] is smaller. *)
Definition StableRanker := Binding → Binding → bool.

Record SelectionPipeline (P : Type) := MkPipeline {
  pl_filters : list (Binding → result bool);
  pl_rankers : list StableRanker;
  pl_strategy : P
}.
Arguments MkPipeline {P}.
Arguments pl_filters {P}.
Arguments pl_rankers {P}.
Arguments pl_strategy {P}.

(** [all(rule(candidate) for rule in rules)] *)
Fixpoint all_rules (rules : list (Binding → result bool)) (b : Binding) : result bool :=
  match rules with
  | [] => Ok true
  | rule :: rules => ok ← rule b; if (ok : bool) then all_rules rules b else Ok false
  end.

Fixpoint filterR {A} (p : A → result bool) (l : list A) : result (list A) :=
  match l with
  | [] => Ok []
  | x :: l => ok ← p x; rest ← filterR p l; Ok (if (ok : bool) then x :: rest else rest)
  end.

Definition binding_eq (b c : Binding) : bool := bool_decide (binding_norm b = binding_norm c).

Section Pipeline.
  Context {P : Type} `{SelectionPolicy P}.

Definition rank_all (rankers : list StableRanker) (cs : list Binding) : list Binding :=
  foldl (λ cs ranker, sorted_by ranker cs) cs (rev rankers).

Definition Pipeline_propose (p : SelectionPipeline P) (cs : list Binding) (st : SelectionState)
    : result (option SelectionProposal) :=
  adm ← filterR (all_rules (pl_filters p)) cs;
  match adm with
  | [] => Ok None
  | _ =>
      let ranked := rank_all (pl_rankers p) adm in
      proposal ← propose (pl_strategy p) ranked st;
      match proposal with
      | None => Ok None
      | Some sp =>
          raise_if (negb (existsb (binding_eq (sp_binding sp)) ranked))
            (ValueError "selection strategy proposed a binding outside the admitted candidates");;
          raise_if (negb (py_eq (sp_prior_state sp) st))
            (ValueError "selection strategy proposal does not carry the pipeline's prior state");;
          Ok (Some sp)
      end
  end.

#[export] Instance Pipeline_policy : SelectionPolicy (SelectionPipeline P) := {|
  propose := Pipeline_propose;
  fold_committed p st t := fold_committed (pl_strategy p) st t
|}.

(** ** Reconstruction from history *)

(** [fold_history]: (selected, begun) in record order. *)
Definition selected_step (s : dict Z NetPath * dict Z (list NetPath)) (r : HRecord)
    : result (dict Z NetPath * dict Z (list NetPath)) :=
  match r with
  | CandidateSelected t o _ =>
      raise_if (dmem o s.1) (ValueError "selection replay divergence: duplicate CandidateSelected");;
      Ok (dset o t s.1, s.2)
  | FiringBegun t o _ _ => Ok (s.1, dappend o t s.2)
  | _ => Ok s
  end.

Definition fold_selection (p : P) (begun : dict Z (list NetPath)) (st : SelectionState)
    (os : Z * NetPath) : result SelectionState :=
  match dget_default os.1 [] begun with
  | [] => Ok st
  | [t] =>
      raise_if (negb (bool_decide (t = os.2)))
        (ValueError "selection replay divergence: selected and began different transitions");;
      fold_committed p st os.2
  | _ => Err (ValueError "selection replay divergence: duplicate FiringBegun")
  end.

Definition fold_history (p : P) (st : SelectionState) (history : list HRecord) : result SelectionState :=
  '(selected, begun) ← foldM selected_step ([], []) history;
  foldM (fold_selection p begun) st selected.
End Pipeline.

(** ** Selection policies keep their contract

    The lawfulness of the built-in policies and of a pipeline over any lawful
    strategy, the maximality of priorities and the bounded waiting of the
    round-robin ring. *)

#[export] Instance First_lawful : LawfulPolicy First.
Proof.
  split; intros p cs st sp H; destruct cs as [|c cs]; cbn in H; unfold First_propose in H; simplify_eq; simpl; try done. left.
Qed.

(** *** Priority *)

Lemma max_by_spec {A} (key : A → Z) best (k : list A) :
  max_by key best k ∈ best :: k ∧ (key best ≤ key (max_by key best k))%Z ∧
  Forall (λ x, (key x ≤ key (max_by key best k))%Z) k.
Proof.
  revert best. induction k as [|x k IH]; intros best; simpl; [split; [left|split; [lia|constructor]]|].
  destruct (IH (if (key best <? key x)%Z then x else best)) as (H1 & H2 & H3).
  destruct (Z.ltb_spec (key best) (key x)).
  - split; [by right|]. split; [lia|]. constructor; [lia|done].
  - split; [apply elem_of_cons in H1 as [->|H1]; [left|right; by right]|]. split; [lia|]. constructor; [lia|done].
Qed.

#[export] Instance Priority_lawful : LawfulPolicy Priority.
Proof.
  split; intros p cs st sp H; destruct cs as [|c cs]; cbn in H; unfold Priority_propose in H; simplify_eq; simpl; try done.
  apply max_by_spec.
Qed.

(** Among equals the first offered wins. *)
Lemma max_by_first {A} (key : A → Z) best (k : list A) :
  ∃ l r, best :: k = l ++ max_by key best k :: r ∧ Forall (λ x, (key x < key (max_by key best k))%Z) l.
Proof.
  revert best. induction k as [|x k IH]; intros best; simpl; [exists [], []; done|].
  destruct (Z.ltb_spec (key best) (key x)).
  - destruct (IH x) as (l & r & Heq & Hall). exists (best :: l), r. split; [simpl; by rewrite Heq|].
    constructor; [|done]. destruct (max_by_spec key x k) as (_ & ? & _). lia.
  - destruct (IH best) as (l & r & Heq & Hall). destruct l as [|y l]; simpl in *; injection Heq as Hy Hk.
    + exists [], (x :: k). rewrite <-Hy. done.
    + subst y. exists (best :: x :: l), r. split; [simpl; do 2 f_equal; exact Hk|].
      apply Forall_cons in Hall as [Hb Hall]. constructor; [done|]. constructor; [lia|done].
Qed.

(** The priority policy proposes the first of the offered bindings
    of greatest priority, and proposes one whenever something is offered. *)
Theorem priority_proposes_the_first_greatest (p : Priority) cs st :
  cs ≠ [] →
  ∃ b l r, propose p cs st = Ok (Some (MkProposal b st st)) ∧ cs = l ++ b :: r ∧
    Forall (λ c, (priority_of p c < priority_of p b)%Z) l ∧
    Forall (λ c, (priority_of p c ≤ priority_of p b)%Z) cs.
Proof.
  intros Hne. destruct cs as [|c cs]; [done|].
  destruct (max_by_first (priority_of p) c cs) as (l & r & Heq & Hall).
  destruct (max_by_spec (priority_of p) c cs) as (_ & H2 & H3).
  exists (max_by (priority_of p) c cs), l, r. split; [done|]. split; [done|]. split; [done|]. by constructor.
Qed.

Lemma priority_proposes_the_first_greatest_witness :
  ∃ b l r, propose (MkPriority [(["b"], 5%Z)]) [MkBinding ["a"] [] [] []; MkBinding ["b"] [] [] []] DNone
           = Ok (Some (MkProposal b DNone DNone)) ∧
           [MkBinding ["a"] [] [] []; MkBinding ["b"] [] [] []] = l ++ b :: r.
Proof.
  destruct (priority_proposes_the_first_greatest (MkPriority [(["b"], 5%Z)])
              [MkBinding ["a"] [] [] []; MkBinding ["b"] [] [] []] DNone) as (b & l & r & H1 & H2 & _).
  - discriminate.
  - exists b, l, r. split; [exact H1|exact H2].
Defined.

(** *** Round robin *)

Lemma first_by_step d cs t :
  dget t (foldl (λ d c, if dmem (b_transition c) d then d else dset (b_transition c) c d) d cs)
  = match dget t d with Some b => Some b | None => find (λ b, bool_decide (b_transition b = t)) cs end.
Proof.
  revert d. induction cs as [|c cs IH]; intros d; simpl; [by destruct (dget t d)|]. rewrite IH.
  destruct (dmem (b_transition c) d) eqn:E.
  - destruct (dget t d) eqn:Ed; [done|]. rewrite bool_decide_false; [done|]. intros <-.
    apply dmem_true, dget_is_Some in E as [? ?]. congruence.
  - apply dmem_false in E. rewrite dget_dset. destruct (decide (t = b_transition c)) as [->|Hne].
    + rewrite E. by rewrite bool_decide_true.
    + destruct (dget t d); [done|]. by rewrite bool_decide_false.
Qed.

Lemma first_by_transition_find cs t : dget t (first_by_transition cs) = find (λ b, bool_decide (b_transition b = t)) cs.
Proof. apply (first_by_step []). Qed.

Lemma find_Some_spec cs t b :
  find (λ b, bool_decide (b_transition b = t)) cs = Some b → b ∈ cs ∧ b_transition b = t.
Proof.
  induction cs as [|c cs IH]; simpl; [done|]. case_bool_decide as Hc.
  - intros [= ->]. split; [left|done].
  - intros Hf. destruct (IH Hf). split; [by right|done].
Qed.

Lemma find_offered cs t : (∃ b, b ∈ cs ∧ b_transition b = t) → is_Some (find (λ b, bool_decide (b_transition b = t)) cs).
Proof.
  intros (b & Hin & <-). induction cs as [|c cs IH]; [by apply elem_of_nil in Hin|]. simpl. case_bool_decide; [eauto|].
  apply elem_of_cons in Hin as [->|Hin]; [done|auto].
Qed.

Lemma index_of_Some t ring i : index_of t ring = Some i → ring !! i = Some t.
Proof.
  revert i. induction ring as [|u ring IH]; intros i; simpl; [done|]. case_decide; [by intros [= <-]; subst|].
  destruct (index_of t ring); simpl; [|done]. intros [= <-]. by apply IH.
Qed.

Lemma index_of_lookup ring i t : NoDup ring → ring !! i = Some t → index_of t ring = Some i.
Proof.
  revert i. induction ring as [|u ring IH]; intros i Hnd Hi; [done|]. apply NoDup_cons in Hnd as [Hu Hnd].
  destruct i as [|i]; simpl in *; [injection Hi as ->; by rewrite decide_True|].
  rewrite decide_False by (intros ->; by apply Hu, list_elem_of_lookup_2 with i). by rewrite (IH i).
Qed.

(** The scan of the ring picks the first position, from the cursor on, with an
    offered binding. *)
Lemma rotate_spec ring c firsts st k n sp :
  rotate ring c firsts st (seq k n) = Ok (Some sp) →
  ∃ j t i, (k ≤ j < k + n)%nat ∧ ring !! Z.to_nat ((c + Z.of_nat j) mod Z.of_nat (length ring)) = Some t ∧
    dget t firsts = Some (sp_binding sp) ∧ index_of t ring = Some i ∧
    sp_prior_state sp = st ∧ sp_next_state sp = after ring i ∧
    (∀ j', (k ≤ j' < j)%nat →
       ∃ t', ring !! Z.to_nat ((c + Z.of_nat j') mod Z.of_nat (length ring)) = Some t' ∧ dget t' firsts = None).
Proof.
  revert k. induction n as [|n IH]; intros k H; simpl in H; [done|].
  apply bind_Ok in H as (t & Ht & H). apply or_raise_Ok in Ht.
  destruct (dget t firsts) as [b|] eqn:Hb.
  - apply bind_Ok in H as (i & Hi & [= <-]). apply or_raise_Ok in Hi. simpl.
    exists k, t, i. split; [lia|]. do 5 (split; [done|]). intros j' Hj'. lia.
  - destruct (IH _ H) as (j & t' & i & Hj & H1 & H2 & H3 & H4 & H5 & H6). exists j, t', i. split; [lia|].
    do 5 (split; [done|]). intros j' Hj'. destruct (decide (j' = k)) as [->|Hne]; [eauto|]. apply H6. lia.
Qed.

Lemma rotate_finds ring c firsts st k n j t :
  NoDup ring → ring ≠ [] → (k ≤ j < k + n)%nat →
  ring !! Z.to_nat ((c + Z.of_nat j) mod Z.of_nat (length ring)) = Some t → is_Some (dget t firsts) →
  ∃ sp, rotate ring c firsts st (seq k n) = Ok (Some sp).
Proof.
  intros Hnd Hne. revert k. induction n as [|n IH]; intros k Hj Ht Hs; [lia|]. simpl.
  assert (Z.to_nat ((c + Z.of_nat k) mod Z.of_nat (length ring)) < length ring)%nat as Hlt.
  { assert (0 < length ring)%nat by (destruct ring; [done|simpl; lia]).
    pose proof (Z.mod_pos_bound (c + Z.of_nat k) (Z.of_nat (length ring))) as Hb. lia. }
  destruct (lookup_lt_is_Some_2 _ _ Hlt) as [u Hu]. rewrite Hu. simpl.
  destruct (dget u firsts) as [b|] eqn:Hb.
  - rewrite (index_of_lookup _ _ _ Hnd Hu). simpl. eauto.
  - destruct (decide (j = k)) as [->|Hjk]; [|apply IH; [lia|done|done]].
    rewrite Hu in Ht. injection Ht as <-. rewrite Hb in Hs. by destruct Hs.
Qed.

Lemma cursor_of_valid z size : (0 ≤ z < Z.of_nat size)%Z → cursor_of (DInt z) size = Ok z.
Proof.
  intros Hz. unfold cursor_of. rewrite (proj2 (Z.leb_le 0 z)), (proj2 (Z.ltb_lt z (Z.of_nat size))) by lia. done.
Qed.

#[export] Instance RoundRobin_lawful : LawfulPolicy RoundRobin.
Proof.
  assert (∀ (p : RoundRobin) cs st sp, propose p cs st = Ok (Some sp) →
    ∃ t i, dget t (first_by_transition cs) = Some (sp_binding sp) ∧ index_of t (rr_transitions p) = Some i ∧
      sp_prior_state sp = st ∧ sp_next_state sp = after (rr_transitions p) i) as Hinv.
  { intros p cs st sp H. cbn in H. unfold RoundRobin_propose in H. destruct cs as [|c cs]; [done|].
    apply bind_Ok in H as (cursor & _ & H). apply rotate_spec in H as (j & t & i & _ & _ & ? & ? & ? & ? & _). eauto 10. }
  split; intros p cs st sp H; apply Hinv in H as (t & i & H1 & H2 & H3 & H4).
  - rewrite first_by_transition_find in H1. by apply find_Some_spec in H1 as [? _].
  - done.
  - rewrite first_by_transition_find in H1. apply find_Some_spec in H1 as [_ ->]. cbn.
    unfold RoundRobin_fold_committed. by rewrite H2, H4.
Qed.

(** How far ahead of the cursor a ring position is. *)
Definition ahead (n : nat) (c : Z) (i : nat) : Z := ((Z.of_nat i - c) mod Z.of_nat n)%Z.

Lemma ahead_position n c i :
  (i < n)%nat → (0 ≤ c < Z.of_nat n)%Z →
  Z.to_nat ((c + ahead n c i) mod Z.of_nat n) = i ∧ (0 ≤ ahead n c i < Z.of_nat n)%Z.
Proof.
  intros Hi Hc. unfold ahead. pose proof (Z.mod_pos_bound (Z.of_nat i - c) (Z.of_nat n) ltac:(lia)) as Hb.
  split; [|done]. rewrite Zplus_mod_idemp_r. replace (c + (Z.of_nat i - c))%Z with (Z.of_nat i) by lia.
  rewrite Z.mod_small by lia. lia.
Qed.

(** A position strictly before another one, from the cursor: moving the cursor
    past it brings the other one closer. *)
Lemma ahead_closer n c i j :
  (i < n)%nat → (0 ≤ c < Z.of_nat n)%Z → (0 ≤ j < ahead n c i)%Z →
  let k := ((c + j) mod Z.of_nat n)%Z in
  ahead n ((k + 1) mod Z.of_nat n) i = (ahead n c i - j - 1)%Z.
Proof.
  intros Hi Hc Hj k. pose proof (Z.mod_pos_bound (Z.of_nat i - c) (Z.of_nat n) ltac:(lia)) as Hb.
  unfold ahead at 1. unfold k. rewrite Zplus_mod_idemp_l, Zminus_mod_idemp_r.
  replace (Z.of_nat i - (c + j + 1))%Z with ((Z.of_nat i - c) - (j + 1))%Z by lia.
  rewrite <-Zminus_mod_idemp_l. change ((Z.of_nat i - c) mod Z.of_nat n)%Z with (ahead n c i) in *.
  rewrite Z.mod_small; lia.
Qed.

Lemma round_robin_step (p : RoundRobin) cs c t i :
  NoDup (rr_transitions p) → index_of t (rr_transitions p) = Some i → (∃ b, b ∈ cs ∧ b_transition b = t) →
  (0 ≤ c < Z.of_nat (length (rr_transitions p)))%Z →
  ∃ sp c', propose p cs (DInt c) = Ok (Some sp) ∧ sp_next_state sp = DInt c' ∧
    (0 ≤ c' < Z.of_nat (length (rr_transitions p)))%Z ∧
    (b_transition (sp_binding sp) = t ∨
     (ahead (length (rr_transitions p)) c' i < ahead (length (rr_transitions p)) c i)%Z).
Proof.
  set (ring := rr_transitions p). set (n := length ring). intros Hnd Hi Hoff Hc.
  pose proof (index_of_Some _ _ _ Hi) as Hti. pose proof (lookup_lt_Some _ _ _ Hti) as Hin. fold n in Hin.
  destruct (ahead_position n c i Hin Hc) as [Hpos Hb].
  assert (is_Some (dget t (first_by_transition cs))) as Hs by (rewrite first_by_transition_find; by apply find_offered).
  destruct (rotate_finds ring c (first_by_transition cs) (DInt c) 0 n (Z.to_nat (ahead n c i)) t) as [sp Hsp];
    [done|by destruct ring|lia| |done|].
  { rewrite Z2Nat.id by lia. fold n. by rewrite Hpos. }
  assert (propose p cs (DInt c) = Ok (Some sp)) as Hprop.
  { cbn. unfold RoundRobin_propose. destruct cs as [|b0 cs]; [by destruct Hoff as (b & ?%elem_of_nil & _)|].
    fold ring. fold n. rewrite cursor_of_valid by done. exact Hsp. }
  apply rotate_spec in Hsp as (j & u & k & Hj & Hu & Hfu & Hk & _ & Hnext & Hskip). fold n in Hu, Hskip.
  exists sp, ((Z.of_nat k + 1) mod Z.of_nat n)%Z. split; [done|]. split; [done|].
  split; [apply Z.mod_pos_bound; lia|].
  rewrite first_by_transition_find in Hfu. apply find_Some_spec in Hfu as [_ Hbt].
  destruct (decide (u = t)) as [->|Hne]; [by left|]. right.
  assert (Z.of_nat j < ahead n c i)%Z as Hlt.
  { destruct (Z.lt_ge_cases (Z.of_nat j) (ahead n c i)) as [|Hge]; [done|].
    destruct (decide (Z.of_nat j = ahead n c i)) as [He|He].
    - exfalso. rewrite He, Hpos, Hti in Hu. injection Hu as ->. done.
    - destruct (Hskip (Z.to_nat (ahead n c i))) as (t' & Ht' & Hnone); [lia|].
      rewrite Z2Nat.id, Hpos, Hti in Ht' by lia. injection Ht' as <-. rewrite Hnone in Hs. by destruct Hs. }
  pose proof (Z.mod_pos_bound (c + Z.of_nat j) (Z.of_nat n) ltac:(lia)) as Hm.
  assert (Z.of_nat k = (c + Z.of_nat j) mod Z.of_nat n)%Z as ->.
  { rewrite (index_of_lookup _ _ _ Hnd Hu) in Hk. injection Hk as <-. lia. }
  rewrite ahead_closer by lia. lia.
Qed.

(** The transitions a round-robin strategy grants over a sequence of offers. *)
Fixpoint serve (p : RoundRobin) (st : SelectionState) (offers : list (list Binding)) : result (list NetPath) :=
  match offers with
  | [] => Ok []
  | cs :: offers =>
      proposal ← propose p cs st;
      sp ← or_raise proposal (ValueError "nothing offered");
      rest ← serve p (sp_next_state sp) offers;
      Ok (b_transition (sp_binding sp) :: rest)
  end.

Lemma serve_reaches (p : RoundRobin) t i c offers :
  NoDup (rr_transitions p) → index_of t (rr_transitions p) = Some i →
  Forall (λ cs, ∃ b, b ∈ cs ∧ b_transition b = t) offers →
  (0 ≤ c < Z.of_nat (length (rr_transitions p)))%Z →
  ∃ served, serve p (DInt c) offers = Ok served ∧
    ((ahead (length (rr_transitions p)) c i < Z.of_nat (length offers))%Z → t ∈ served).
Proof.
  intros Hnd Hi Hall. revert c. induction Hall as [|cs offers Hcs _ IH]; intros c Hc.
  { exists []. split; [done|]. intros Hlt. simpl in Hlt.
    pose proof (lookup_lt_Some _ _ _ (index_of_Some _ _ _ Hi)).
    pose proof (ahead_position (length (rr_transitions p)) c i ltac:(lia) Hc) as [_ ?]. lia. }
  destruct (round_robin_step p cs c t i Hnd Hi Hcs Hc) as (sp & c' & Hp & Hn & Hc' & Hor).
  destruct (IH c' Hc') as (served & Hserve & Hin). exists (b_transition (sp_binding sp) :: served).
  cbn [serve]. rewrite Hp. simpl. rewrite Hn, Hserve. simpl. split; [done|]. intros Hlt.
  destruct Hor as [Heq|Hcl]; [rewrite Heq; left|]. right. apply Hin. lia.
Qed.

(** Under round robin a transition of the ring that stays offered is
    granted within one turn of the ring, whatever else is offered and wherever
    the cursor stands. *)
Theorem round_robin_bounded_waiting supplied (p : RoundRobin) t c offers :
  RoundRobin_new supplied = Ok p → t ∈ rr_transitions p →
  (0 ≤ c < Z.of_nat (length (rr_transitions p)))%Z →
  Forall (λ cs, ∃ b, b ∈ cs ∧ b_transition b = t) offers →
  (length (rr_transitions p) ≤ length offers)%nat →
  ∃ served, serve p (DInt c) offers = Ok served ∧ t ∈ served.
Proof.
  intros Hnew Ht Hc Hall Hlen. unfold RoundRobin_new in Hnew. inv_ok.
  match goal with H : _ || _ = false |- _ => apply orb_false_iff in H as [_ H]; apply negb_false_iff, bool_decide_eq_true in H; rename H into Hnd end.
  simpl in *. apply list_elem_of_lookup in Ht as [i Hi].
  match goal with |- ∃ _, serve ?q _ _ = _ ∧ _ =>
    destruct (serve_reaches q t i c offers Hnd (index_of_lookup _ _ _ Hnd Hi) Hall Hc) as (served & Hs & Hin) end.
  exists served. split; [done|]. apply Hin. simpl.
  pose proof (lookup_lt_Some _ _ _ Hi) as Hlt. pose proof (ahead_position _ c i Hlt Hc) as [_ ?]. lia.
Qed.

Lemma round_robin_bounded_waiting_witness :
  ∃ p served, RoundRobin_new [AStr "a"; AStr "b"] = Ok p ∧
    serve p (DInt 1) [[MkBinding ["a"] [] [] []; MkBinding ["b"] [] [] []]; [MkBinding ["a"] [] [] []]] = Ok served ∧
    ["a"] ∈ served.
Proof.
  assert (RoundRobin_new [AStr "a"; AStr "b"] = Ok (MkRoundRobin [["a"]; ["b"]])) as E by (vm_compute; reflexivity).
  destruct (round_robin_bounded_waiting [AStr "a"; AStr "b"] (MkRoundRobin [["a"]; ["b"]]) ["a"] 1
    [[MkBinding ["a"] [] [] []; MkBinding ["b"] [] [] []]; [MkBinding ["a"] [] [] []]] E) as (served & H1 & H2).
  - left.
  - simpl. lia.
  - constructor; [exists (MkBinding ["a"] [] [] []); split; [left|reflexivity]|].
    constructor; [exists (MkBinding ["a"] [] [] []); split; [left|reflexivity]|constructor].
  - simpl. lia.
  - exists (MkRoundRobin [["a"]; ["b"]]), served. split; [exact E|]. split; [exact H1|exact H2].
Defined.

(** *** Pipelines *)

Lemma filterR_Ok {A} (p : A → result bool) l adm :
  filterR p l = Ok adm → adm `sublist_of` l ∧ (∀ x, x ∈ adm → p x = Ok true).
Proof.
  revert adm. induction l as [|x l IH]; intros adm H; simpl in H.
  { injection H as <-. split; [done|]. by intros x ?%elem_of_nil. }
  apply bind_Ok in H as (ok & Hok & H). apply bind_Ok in H as (rest & Hrest & [= <-]).
  destruct (IH _ Hrest) as [Hs Hp]. destruct ok.
  - split; [by constructor|]. intros y [->|Hy]%elem_of_cons; auto.
  - split; [by constructor|done].
Qed.

Lemma all_rules_Ok rules b : all_rules rules b = Ok true ↔ Forall (λ rule, rule b = Ok true) rules.
Proof.
  induction rules as [|rule rules IH]; simpl; [by split|]. rewrite Forall_cons. destruct (rule b) as [[]|]; simpl.
  - naive_solver.
  - naive_solver.
  - naive_solver.
Qed.

Lemma rank_all_perm rankers cs : rank_all rankers cs ≡ₚ cs.
Proof.
  unfold rank_all. generalize (rev rankers). intros l. revert cs. induction l as [|r l IH]; intros cs; simpl; [done|].
  by rewrite IH, sorted_by_perm.
Qed.

Section LawfulPipeline.
  Context {P : Type} `{Hlaw : LawfulPolicy P}.

Lemma Pipeline_propose_lawful (p : SelectionPipeline P) cs st adm :
  filterR (all_rules (pl_filters p)) cs = Ok adm → adm ≠ [] →
  propose p cs st = propose (pl_strategy p) (rank_all (pl_rankers p) adm) st.
Proof.
  intros Hadm Hne. cbn. unfold Pipeline_propose. rewrite Hadm. simpl. destruct adm as [|b adm]; [done|].
  destruct (propose (pl_strategy p) _ st) as [[sp|]|e] eqn:Hp; simpl; [|done|done].
  pose proof (propose_offered _ _ _ _ Hp) as Hin. rewrite (propose_prior _ _ _ _ Hp).
  replace (existsb _ _) with true; [simpl; unfold py_eq; by rewrite (bool_decide_true (_ = _))|]. symmetry. apply existsb_exists.
  exists (sp_binding sp). split; [by apply list_elem_of_In|]. by apply bool_decide_eq_true.
Qed.

Lemma Pipeline_propose_inv (p : SelectionPipeline P) cs st sp :
  propose p cs st = Ok (Some sp) →
  ∃ adm, filterR (all_rules (pl_filters p)) cs = Ok adm ∧ adm ≠ [] ∧
    propose (pl_strategy p) (rank_all (pl_rankers p) adm) st = Ok (Some sp).
Proof.
  intros Hp. pose proof Hp as Hq. cbn in Hq. unfold Pipeline_propose in Hq. apply bind_Ok in Hq as (adm & Hadm & Hq).
  assert (adm ≠ []) as Hne by (by destruct adm). exists adm. split; [done|]. split; [done|].
  by rewrite <-(Pipeline_propose_lawful p cs st adm).
Qed.

#[export] Instance Pipeline_lawful : LawfulPolicy (SelectionPipeline P).
Proof.
  split; intros p cs st sp Hp; apply Pipeline_propose_inv in Hp as (adm & Hadm & _ & Hp).
  - apply propose_offered in Hp. rewrite rank_all_perm in Hp. apply filterR_Ok in Hadm as [Hs _].
    by eapply elem_of_sublist.
  - by apply propose_prior in Hp.
  - by apply propose_committed in Hp.
Qed.

(** A pipeline over a lawful strategy keeps the policy contract.
    When nothing passes its filters it proposes nothing; otherwise it answers
    as its strategy does on a rearrangement of the admitted bindings, so
    neither of its own guards raises, and what it proposes was offered, passes
    every filter, carries the prior state and the state that replay folds. *)
Theorem pipeline_keeps_the_contract (p : SelectionPipeline P) cs st adm :
  filterR (all_rules (pl_filters p)) cs = Ok adm →
  (adm = [] → propose p cs st = Ok None) ∧
  (adm ≠ [] → ∃ ranked, ranked ≡ₚ adm ∧ propose p cs st = propose (pl_strategy p) ranked st) ∧
  (∀ sp, propose p cs st = Ok (Some sp) →
    sp_binding sp ∈ cs ∧ Forall (λ rule, rule (sp_binding sp) = Ok true) (pl_filters p) ∧
    sp_prior_state sp = st ∧ fold_committed p st (b_transition (sp_binding sp)) = Ok (sp_next_state sp)).
Proof.
  intros Hadm. split; [intros ->; cbn; unfold Pipeline_propose; by rewrite Hadm|].
  split; [intros Hne; exists (rank_all (pl_rankers p) adm); split; [apply rank_all_perm|by apply Pipeline_propose_lawful]|].
  intros sp Hp. split; [exact (propose_offered _ _ _ _ Hp)|].
  split; [|split; [exact (propose_prior _ _ _ _ Hp)|exact (propose_committed _ _ _ _ Hp)]].
  apply Pipeline_propose_inv in Hp as (adm' & Hadm' & _ & Hp). rewrite Hadm in Hadm'. injection Hadm' as <-.
  apply propose_offered in Hp. rewrite rank_all_perm in Hp. apply all_rules_Ok. by apply (filterR_Ok _ _ _ Hadm).
Qed.
End LawfulPipeline.

Lemma pipeline_keeps_the_contract_witness :
  let a := MkBinding ["a"] [] [] [] in let b := MkBinding ["b"] [] [] [] in
  let p := MkPipeline [λ c, Ok (bool_decide (b_transition c ≠ ["a"]))] [] MkFirst in
  propose p [a; b] DNone = Ok (Some (MkProposal b DNone DNone)) ∧ b ∈ [a; b].
Proof.
  intros a b p. assert (propose p [a; b] DNone = Ok (Some (MkProposal b DNone DNone))) as E by (vm_compute; reflexivity).
  split; [exact E|].
  exact (proj1 (proj2 (proj2 (pipeline_keeps_the_contract p [a; b] DNone [b] eq_refl)) _ E)).
Defined.
