(* ===== verification/Instance.v ===== *)
(** * The Instance (src/src/petrus/impetus/instance/__init__.py)

    One running net: its bound implementations, the history it is the single
    writer of, and the live state it keeps beside that history. An operation is
    a computation [M A] that returns or raises and keeps every mutation made
    before the raise, so that the place of an append among the mutations is
    part of the model. *)

From stdpp Require Import base gmap sets list strings pretty.
From Stdlib Require Import Ascii ZArith Lia.
From S2P Require Import Prelude PyData Schema Marking Enabledness Firing Activity Records Replay Lifecycle.
Open Scope string_scope.
Open Scope list_scope.

(** ** State *)

(** The prepare/project bridge of an impure transition; the failure projection
    is optional. *)
Record ActivityHandler := MkActivityHandler {
  prepare : Binding → result ActivityInvocation;
  project : Binding → Data → result HandlerResult;
  project_failure : option (Binding → ActivityFailure → result HandlerResult)
}.

(** A bound handler: a plain callable is pure. *)
Inductive Handler :=
| PureHandler (f : Binding → list Arc → result HandlerResult)
| ImpureHandler (h : ActivityHandler).

Definition Completion := Marking → option bool.

(** What the constructors bind once. *)
Record Config := MkConfig {
  net : Net;
  instance_id : string;
  scheduler : list Binding → result (option Binding);
  bound_handlers : dict NetUri Handler;
  bound_guards : Guards;
  bound_filters : Filters;
  bound_completion : option Completion
}.

(** The history store: its records, and the answers it will give to the coming
    appends ([Some e] refuses the whole batch with [e]; a schedule that has run
    out accepts). *)
Record Store := MkStore { st_records : list HRecord; st_refusals : list (option exn) }.

Record Live := MkLive {
  watermark : Instant;
  queues : Queues;
  armed : Armed;
  next_occurrence : Z;
  next_entry : Z;
  in_flight : dict Z FiringOccurrence;
  activity_occurrences : dict Z FiringOccurrence;
  cancelled : dict Z FiringOccurrence;
  frozen_results : dict Z Terminal;
  terminal_activity : dict Z Terminal;
  quarantined_activity : dict Z Data;
  accepted_identities : dict string HRecord;
  scope_state : ScopeState
}.

Record Instance := MkInstance { config : Config; store : Store; live : Live }.

Definition history (s : Instance) : list HRecord := st_records (store s).

Definition set_watermark (v : Instant) (l : Live) : Live :=
  MkLive v (queues l) (armed l) (next_occurrence l) (next_entry l) (in_flight l) (activity_occurrences l) (cancelled l) (frozen_results l) (terminal_activity l) (quarantined_activity l) (accepted_identities l) (scope_state l).
Definition set_queues (v : Queues) (l : Live) : Live :=
  MkLive (watermark l) v (armed l) (next_occurrence l) (next_entry l) (in_flight l) (activity_occurrences l) (cancelled l) (frozen_results l) (terminal_activity l) (quarantined_activity l) (accepted_identities l) (scope_state l).
Definition set_armed (v : Armed) (l : Live) : Live :=
  MkLive (watermark l) (queues l) v (next_occurrence l) (next_entry l) (in_flight l) (activity_occurrences l) (cancelled l) (frozen_results l) (terminal_activity l) (quarantined_activity l) (accepted_identities l) (scope_state l).
Definition set_next_occurrence (v : Z) (l : Live) : Live :=
  MkLive (watermark l) (queues l) (armed l) v (next_entry l) (in_flight l) (activity_occurrences l) (cancelled l) (frozen_results l) (terminal_activity l) (quarantined_activity l) (accepted_identities l) (scope_state l).
Definition set_next_entry (v : Z) (l : Live) : Live :=
  MkLive (watermark l) (queues l) (armed l) (next_occurrence l) v (in_flight l) (activity_occurrences l) (cancelled l) (frozen_results l) (terminal_activity l) (quarantined_activity l) (accepted_identities l) (scope_state l).
Definition set_in_flight (v : dict Z FiringOccurrence) (l : Live) : Live :=
  MkLive (watermark l) (queues l) (armed l) (next_occurrence l) (next_entry l) v (activity_occurrences l) (cancelled l) (frozen_results l) (terminal_activity l) (quarantined_activity l) (accepted_identities l) (scope_state l).
Definition set_activity_occurrences (v : dict Z FiringOccurrence) (l : Live) : Live :=
  MkLive (watermark l) (queues l) (armed l) (next_occurrence l) (next_entry l) (in_flight l) v (cancelled l) (frozen_results l) (terminal_activity l) (quarantined_activity l) (accepted_identities l) (scope_state l).
Definition set_cancelled (v : dict Z FiringOccurrence) (l : Live) : Live :=
  MkLive (watermark l) (queues l) (armed l) (next_occurrence l) (next_entry l) (in_flight l) (activity_occurrences l) v (frozen_results l) (terminal_activity l) (quarantined_activity l) (accepted_identities l) (scope_state l).
Definition set_frozen_results (v : dict Z Terminal) (l : Live) : Live :=
  MkLive (watermark l) (queues l) (armed l) (next_occurrence l) (next_entry l) (in_flight l) (activity_occurrences l) (cancelled l) v (terminal_activity l) (quarantined_activity l) (accepted_identities l) (scope_state l).
Definition set_terminal_activity (v : dict Z Terminal) (l : Live) : Live :=
  MkLive (watermark l) (queues l) (armed l) (next_occurrence l) (next_entry l) (in_flight l) (activity_occurrences l) (cancelled l) (frozen_results l) v (quarantined_activity l) (accepted_identities l) (scope_state l).
Definition set_quarantined_activity (v : dict Z Data) (l : Live) : Live :=
  MkLive (watermark l) (queues l) (armed l) (next_occurrence l) (next_entry l) (in_flight l) (activity_occurrences l) (cancelled l) (frozen_results l) (terminal_activity l) v (accepted_identities l) (scope_state l).
Definition set_accepted_identities (v : dict string HRecord) (l : Live) : Live :=
  MkLive (watermark l) (queues l) (armed l) (next_occurrence l) (next_entry l) (in_flight l) (activity_occurrences l) (cancelled l) (frozen_results l) (terminal_activity l) (quarantined_activity l) v (scope_state l).
Definition set_scope_state (v : ScopeState) (l : Live) : Live :=
  MkLive (watermark l) (queues l) (armed l) (next_occurrence l) (next_entry l) (in_flight l) (activity_occurrences l) (cancelled l) (frozen_results l) (terminal_activity l) (quarantined_activity l) (accepted_identities l) v.

(** ** Computations *)

Definition M (A : Type) := Instance → result A * Instance.

#[export] Instance M_ret : MRet M := λ A a s, (Ok a, s).
#[export] Instance M_bind : MBind M := λ A B f m s,
  match m s with
  | (Ok a, s') => f a s'
  | (Err e, s') => (Err e, s')
  end.

Definition raise {A} (e : exn) : M A := λ s, (Err e, s).
Definition lift {A} (r : result A) : M A := λ s, (r, s).
Definition gets {A} (f : Instance → A) : M A := λ s, (Ok (f s), s).
Definition update (f : Live → Live) : M unit := λ s,
  (Ok tt, MkInstance (config s) (store s) (f (live s))).

(** [try: m except e: handler(e)] *)
Definition try_with {A} (m : M A) (handler : exn → M A) : M A := λ s,
  match m s with
  | (Ok a, s') => (Ok a, s')
  | (Err e, s') => handler e s'
  end.

Definition cfg {A} (f : Config → A) : M A := gets (f ∘ config).
Definition self {A} (f : Live → A) : M A := gets (f ∘ live).

(** [history.append] and [history.extend]: the whole batch or nothing. *)
Definition extend (batch : list HRecord) : M unit := λ s,
  match st_refusals (store s) with
  | Some e :: rest => (Err e, MkInstance (config s) (MkStore (history s) rest) (live s))
  | None :: rest => (Ok tt, MkInstance (config s) (MkStore (history s ++ batch) rest) (live s))
  | [] => (Ok tt, MkInstance (config s) (MkStore (history s ++ batch) []) (live s))
  end.

(** Constructing the records of a batch, then [_writer_records]. *)
Definition writer_records (batch : list HRecord) : result (list HRecord) :=
  forM_ Record_post_init batch;;
  match validate_history_record_values batch with
  | Ok batch => Ok batch
  | Err _ => Err (ValueError "cannot write non-canonical History")
  end.

(** A [for] loop over a sequence of mutations. *)
Fixpoint for_each {A} (l : list A) (f : A → M unit) : M unit :=
  match l with
  | [] => mret tt
  | a :: l => f a;; for_each l f
  end.

(** ** Views of the live state *)

(** [Instance.marking] *)
Definition live_marking (l : Live) : Marking := marking_of (queues l).

(** [Instance._instant] *)
Definition effective (l : Live) (at_ : option Instant) : Instant :=
  match at_ with None => watermark l | Some i => Z.max i (watermark l) end.

(** [Instance._advance] *)
Definition advance (i : Instant) : M unit := update (set_watermark i).

(** [Instance._entry_instants] *)
Definition live_entry_instants (l : Live) : dict NetPath (list Instant) := entry_instants_of (queues l).

(** [Instance.candidates] at an instant. *)
Definition candidates_at (c : Config) (l : Live) (i : Instant) : result (list Binding) :=
  candidates (net c) (live_marking l) (bound_guards c) (bound_filters c) (Some i) (live_entry_instants l).

Definition instance_candidates (s : Instance) : result (list Binding) :=
  candidates_at (config s) (live s) (watermark (live s)).

(** [Instance.enabled_transitions] *)
Definition enabled_transitions (s : Instance) : result (list NetPath) :=
  bs ← instance_candidates s;
  Ok (foldl (λ seen b, if bool_decide (b_transition b ∈ seen) then seen else seen ++ [b_transition b]) [] bs).

(** [Instance.next_maturation] *)
Definition instance_next_maturation (s : Instance) : result (option Instant) :=
  let c := config s in let l := live s in
  next_maturation (net c) (live_marking l) (bound_guards c) (bound_filters c) (Some (watermark l))
    (live_entry_instants l).

(** [Instance.armed] *)
Definition armed_view (l : Live) : Armed := filter (λ sk : NetPath * gset string, sk.2 ≠ ∅) (armed l).

(** [Instance.projection_pending] *)
Definition projection_pending (l : Live) : list FiringOccurrence :=
  filter (λ o, dmem (occ_id o) (frozen_results l)) (dvals (in_flight l)).

(** [Instance.bound_handler] *)
Definition passthrough_handler : Handler :=
  PureHandler (λ b outs, Ok (MkHandlerResult (projected_of (passthrough b outs)) [] [])).

Definition bound_handler (c : Config) (t : NetPath) : result Handler :=
  match handler_uri (net c) t with
  | Some uri => or_raise (dget uri (bound_handlers c)) (KeyError "handler")
  | None => Ok passthrough_handler
  end.

Definition is_impure (h : Handler) : bool :=
  match h with ImpureHandler _ => true | PureHandler _ => false end.

(** ** Lifecycle scopes *)

Record ScopeClosure := MkClosure {
  cl_scope : LifecycleScope;
  cl_discarded : list Z;
  cl_cancelled : list Z
}.

Definition in_scope (scope : LifecycleScope) (o : FiringOccurrence) : bool :=
  bool_decide (occ_scope o = Some scope).

(** [Instance._scope_closure] *)
Definition scope_closure (l : Live) (scope : LifecycleScope) : result ScopeClosure :=
  raise_if (negb (scope_active (scope_state l) scope))
    (ValueError "cannot close lifecycle scope: it is not the active generation");;
  raise_if (existsb (in_scope scope) (projection_pending l))
    (ValueError "cannot close lifecycle scope: accepted Activity terminals still require deterministic projection");;
  Ok (MkClosure scope
        (mjoin ((λ q, scoped_identities q scope) <$> dvals (queues l)))
        (occ_id <$> filter (λ o, in_scope scope o) (dvals (in_flight l)))).

(** [Instance.open_scope] *)
Definition open_scope (name : string) (at_ : option Instant) : M LifecycleScope :=
  lift (raise_if (bad_scope_name name) (ValueError "LifecycleScope name must be a non-empty string without NUL"));;
  l ← self id;
  lift (raise_if (dmem name (active_scopes (scope_state l)))
          (ValueError "cannot open lifecycle scope: a generation is already active"));;
  scope ← lift (LifecycleScope_new name (spent_generation (scope_state l) name + 1));
  let instant := effective l at_ in
  batch ← lift (writer_records [ScopeOpened scope instant]);
  extend batch;;
  advance instant;;
  update (λ l, set_scope_state
    (MkScopeState (dset name scope (active_scopes (scope_state l)))
                  (dset name (scope_generation scope) (scope_generations (scope_state l)))) l);;
  mret scope.

(** One iteration of the cancellation loop of [Instance._apply_scope_terminal]. *)
Definition cancel_occurrence (o : Z) : M unit :=
  l ← self id;
  occurrence ← lift (or_raise (dget o (in_flight l)) (KeyError "in_flight"));
  update (λ l, set_cancelled (dset o occurrence (cancelled l))
              (set_frozen_results (ddel o (frozen_results l))
                (set_in_flight (ddel o (in_flight l)) l))).

(** [Instance._apply_scope_terminal] *)
Definition apply_scope_terminal (r : HRecord) (closure : ScopeClosure)
    (opened : option LifecycleScope) : M unit :=
  l ← self id;
  qs ← lift (apply_movement (queues l) r None);
  update (set_queues qs);;
  let name := scope_name (cl_scope closure) in
  lift (raise_if (negb (dmem name (active_scopes (scope_state l)))) (KeyError "active_scopes"));;
  update (λ l, set_scope_state
    (MkScopeState (ddel name (active_scopes (scope_state l))) (scope_generations (scope_state l))) l);;
  (match opened with
   | None => mret tt
   | Some sc =>
       update (λ l, set_scope_state
         (MkScopeState (dset (scope_name sc) sc (active_scopes (scope_state l)))
                       (dset (scope_name sc) (scope_generation sc) (scope_generations (scope_state l)))) l)
   end);;
  for_each (cl_cancelled closure) cancel_occurrence.

(** [Instance.close_scope] *)
Definition close_scope (scope : LifecycleScope) (at_ : option Instant) : M ScopeClosure :=
  l ← self id;
  closure ← lift (scope_closure l scope);
  let instant := effective l at_ in
  let record := ScopeClosed scope (cl_discarded closure) (cl_cancelled closure) instant in
  batch ← lift (writer_records [record]);
  extend batch;;
  apply_scope_terminal record closure None;;
  advance instant;;
  mret closure.

(** [Instance.reset_scope] *)
Definition reset_scope (scope : LifecycleScope) (at_ : option Instant) : M LifecycleScope :=
  l ← self id;
  closure ← lift (scope_closure l scope);
  opened ← lift (LifecycleScope_new (scope_name scope) (scope_generation scope + 1));
  let instant := effective l at_ in
  let record := ScopeReset scope opened (cl_discarded closure) (cl_cancelled closure) instant in
  batch ← lift (writer_records [record]);
  extend batch;;
  apply_scope_terminal record closure (Some opened);;
  advance instant;;
  mret opened.

(** ** Beginning an occurrence *)

(** [_validate_binding_shape] for one arc mode. *)
Definition shape_matches (arcs : list Arc) (selections : list Selection) : bool :=
  bool_decide (selections.*1 = (arc_source <$> arcs))
  && forallb (λ as_ : Arc * Selection, bool_decide (Z.of_nat (length as_.2.2) = arc_weight as_.1)) (zip arcs selections).

Definition validate_binding_shape (n : Net) (b : Binding) : result unit :=
  let ins := inputs n (b_transition b) in
  raise_if (negb (shape_matches (filter (λ a, is_consume a) ins) (b_consumed b)))
    (ValueError "its consume selections do not match the transition's consume arcs");;
  raise_if (negb (shape_matches (filter (λ a, is_read a) ins) (b_read b)))
    (ValueError "its read selections do not match the transition's read arcs").

Definition entries_of (sel : list (option Z * option LifecycleScope)) : list Z := omap id sel.*1.
Definition scopes_of (sel : list (option Z * option LifecycleScope)) : list LifecycleScope := omap id sel.*2.

Record EntryState := MkEntryState {
  es_queues : Queues;
  es_selections : list (list (option Z * option LifecycleScope));
  es_scopes : list LifecycleScope
}.

(** The two loops of [Instance._binding_entries]. *)
Definition consumed_entries (s : EntryState) (sel : Selection) : result EntryState :=
  let queue := dget_default sel.1 [] (es_queues s) in
  chosen ← selected queue sel.2;
  queue' ← remove queue sel.2 (entries_of chosen);
  Ok (MkEntryState (dset sel.1 queue' (es_queues s)) (es_selections s ++ [chosen])
        (es_scopes s ++ scopes_of chosen)).

Definition read_entries (s : EntryState) (sel : Selection) : result EntryState :=
  chosen ← selected (dget_default sel.1 [] (es_queues s)) sel.2;
  Ok (MkEntryState (es_queues s) (es_selections s ++ [chosen]) (es_scopes s ++ scopes_of chosen)).

(** [Instance._binding_entries] *)
Definition binding_entries (qs : Queues) (b : Binding)
    : result (list (list (option Z * option LifecycleScope)) * list LifecycleScope) :=
  s ← foldM consumed_entries (MkEntryState qs [] []) (b_consumed b);
  s ← foldM read_entries s (b_read b);
  Ok (es_selections s, es_scopes s).

(** [Instance._prepared_invocation]. The invocation a handler returns passed its
    constructors; one they refuse raises out of [prepare]. *)
Definition prepared_invocation (c : Config) (b : Binding) : result (option ActivityInvocation) :=
  h ← bound_handler c (b_transition b);
  match h with
  | PureHandler _ => Ok None
  | ImpureHandler h =>
      invocation ← prepare h b;
      ExecutionPolicy_post_init (inv_policy invocation);;
      ActivityInvocation_post_init invocation;;
      forM_ (λ v, raise_if (match v with Some v => startswith "occurrence-" v | None => false end)
                    (ValueError "identity uses the writer-reserved 'occurrence-' prefix"))
        [inv_correlation invocation; inv_idempotency invocation];;
      input ← canonical_payload (inv_input invocation);
      let snapshot := MkInvocation (inv_activity invocation) input (inv_policy invocation)
                        (inv_correlation invocation) (inv_idempotency invocation) in
      ActivityInvocation_post_init snapshot;;
      Ok (Some snapshot)
  end.

(** One narrated movement of [Instance._begin_occurrence]. *)
Definition narrate (o : Z) (scope : option LifecycleScope) (instant : Instant)
    (es : BeginEffect * list (option Z * option LifecycleScope)) : result HRecord :=
  raise_if (existsb (λ ids, bool_decide (ids = None)) es.2.*1)
    (RuntimeError "live queue entry has no durable occurrence identity");;
  let entries := match scope with Some _ => entries_of es.2 | None => [] end in
  Ok (match es.1 with
      | ConsumedTokens place ts => TokensConsumed place ts o entries scope instant
      | ReadTokens place ts => TokensRead place ts o entries scope instant
      end).

(** The derived self-identity of an occurrence. *)
Definition self_identity (o : Z) : string := "occurrence-" +:+ pretty o.

Definition resolve_invocation (o : Z) (i : ActivityInvocation) : ActivityInvocation :=
  MkInvocation (inv_activity i) (inv_input i) (inv_policy i)
    (Some (default (self_identity o) (inv_correlation i)))
    (Some (default (self_identity o) (inv_idempotency i))).

Definition requested_record (t : NetPath) (o : Z) (scope : option LifecycleScope) (instant : Instant)
    (i : ActivityInvocation) : HRecord :=
  ActivityRequested t (inv_activity i) (inv_input i) (inv_policy i)
    (default (self_identity o) (inv_correlation i)) (default (self_identity o) (inv_idempotency i))
    o scope instant.

(** The part of [Instance._begin_occurrence] before its append: the batch and
    the occurrence, or the rejection. *)
Definition begin_batch (l : Live) (b : Binding) (instant : Instant)
    (initiation : Z → Instant → HRecord) (invocation : option ActivityInvocation)
    (scope : option LifecycleScope) : result (list HRecord * FiringOccurrence) :=
  let o := next_occurrence l in
  '(effects, _) ← begin_firing (live_marking l) b;
  '(selections, inferred) ← binding_entries (queues l) b;
  let provenance := remove_dups (inferred ++ match scope with Some sc => [sc] | None => [] end) in
  raise_if (1 <? length provenance)%nat (ValueError "firing combines different lifecycle scopes");;
  let scope := head provenance in
  movements ← mapR (narrate o scope instant) (zip effects selections);
  let t := b_transition b in
  let resolved := resolve_invocation o <$> invocation in
  (match resolved with Some i => ActivityInvocation_post_init i | None => Ok tt end);;
  let requested := match invocation with Some i => [requested_record t o scope instant i] | None => [] end in
  let records := FiringBegun t o scope instant :: movements ++ requested in
  batch ← writer_records (initiation o instant :: records);
  Ok (batch, MkOccurrence o b records resolved scope).

(** [Instance._begin_occurrence] *)
Definition begin_occurrence (b : Binding) (at_ : option Instant) (initiation : Z → Instant → HRecord)
    (invocation : option ActivityInvocation) (scope : option LifecycleScope) : M FiringOccurrence :=
  l ← self id;
  let instant := effective l at_ in
  '(batch, occurrence) ← lift (begin_batch l b instant initiation invocation scope);
  extend batch;;
  advance instant;;
  update (λ l, set_next_occurrence (next_occurrence l + 1)%Z l);;
  for_each (occ_records occurrence) (λ r,
    l ← self id;
    qs ← lift (apply_movement (queues l) r None);
    update (set_queues qs));;
  update (λ l, set_in_flight (dset (occ_id occurrence) occurrence (in_flight l)) l);;
  (match occ_invocation occurrence with
   | None => mret tt
   | Some _ => update (λ l, set_activity_occurrences
                         (dset (occ_id occurrence) occurrence (activity_occurrences l)) l)
   end);;
  mret occurrence.

(** [Instance.begin] *)
Definition begin (b : Binding) (at_ : option Instant) : M FiringOccurrence :=
  c ← cfg id;
  let t := b_transition b in
  lift (raise_if (negb (dmem t (transitions (net c)))) (ValueError "cannot begin firing: not a transition of this net"));;
  lift (raise_if (is_source (net c) t) (ValueError "cannot begin firing: a source transition is never scheduled"));;
  lift (raise_if (negb (bool_decide (b_delivered b = []))) (ValueError "cannot begin a delivered binding"));;
  lift (validate_binding_shape (net c) b);;
  invocation ← lift (prepared_invocation c b);
  try_with (begin_occurrence b at_ (λ o i, CandidateSelected t o i) invocation None)
    (λ e, match e with
          | ValueError _ | TokenNotPresent => raise (ValueError "cannot begin firing: stale selection")
          | e => raise e
          end).

(** ** Terminal activity reports *)

Inductive TerminalDisposition := ACCEPTED | ACKNOWLEDGED | T_QUARANTINED.

(** [_failure_text]'s envelope, shared with [_terminal_outcome]. *)
Definition failure_wire (f : ActivityFailure) : Data :=
  DDict [("error", DStr (f_error f)); ("kind", DStr (f_kind f)); ("details", f_details f);
         ("retryable", DBool (f_retryable f));
         ("retry_after", match f_retry_after f with Some r => num_data r | None => DNone end)].

Definition same_text (a b : Data) : bool :=
  bool_decide (canonical_payload_text a = canonical_payload_text b).

Definition same_failure (f g : ActivityFailure) : bool := same_text (failure_wire f) (failure_wire g).

(** [_terminal_outcome] *)
Definition terminal_outcome (t : Terminal) : Data :=
  match t with
  | TFailure f => DDict [("kind", DStr "failed"); ("failure", failure_wire f)]
  | TResult d => DDict [("kind", DStr "completed"); ("value", d)]
  end.

(** [Instance._ensure_in_flight] *)
Definition ensure_in_flight (l : Live) (occurrence : FiringOccurrence) : result unit :=
  let o := occ_id occurrence in
  if match dget o (in_flight l) with Some live => occurrence_eq live occurrence | None => false end
  then Ok tt
  else if (o <? next_occurrence l)%Z && negb (dmem o (in_flight l))
  then Err (ValueError "not in flight: this instance's occurrence already ended")
  else Err (ValueError "this instance never began it").

(** [Instance._quarantine_terminal] *)
Definition quarantine_terminal (occurrence : FiringOccurrence) (outcome : Data) (at_ : option Instant)
    : M TerminalDisposition :=
  l ← self id;
  let o := occ_id occurrence in
  match dget o (cancelled l), occ_invocation occurrence, occ_scope occurrence with
  | Some recorded, Some _, Some scope =>
      lift (raise_if (negb (occurrence_eq recorded occurrence)) (ValueError "conflicting terminal activity report"));;
      match dget o (quarantined_activity l) with
      | Some prior =>
          if same_text prior outcome then mret ACKNOWLEDGED
          else raise (ValueError "conflicting terminal activity report")
      | None =>
          let instant := effective l at_ in
          batch ← lift (writer_records
                    [ActivityTerminalQuarantined (b_transition (occ_binding occurrence)) outcome scope o instant]);
          extend batch;;
          advance instant;;
          update (λ l, set_quarantined_activity (dset o outcome (quarantined_activity l)) l);;
          mret T_QUARANTINED
      end
  | _, _, _ => raise (ValueError "conflicting terminal activity report")
  end.

(** The judgment of a redelivered result against the recorded terminal fact. *)
Definition acknowledge_result (recorded : Terminal) (result : Data) : M TerminalDisposition :=
  match recorded with
  | TFailure _ => raise (ValueError "a failed occurrence cannot retroactively succeed")
  | TResult d =>
      if same_text d result then mret ACKNOWLEDGED
      else raise (ValueError "a different result: an operational conflict, not a redelivery")
  end.

(** [Instance.record_activity_completion] *)
Definition record_activity_completion (occurrence : FiringOccurrence) (value : Data) (at_ : option Instant)
    : M TerminalDisposition :=
  l ← self id;
  let o := occ_id occurrence in
  if dmem o (cancelled l) then
    value ← lift (canonical_payload value);
    quarantine_terminal occurrence (terminal_outcome (TResult value)) at_
  else match dget o (terminal_activity l) with
  | Some terminal =>
      value ← lift (canonical_payload value);
      acknowledge_result terminal value
  | None =>
      lift (ensure_in_flight l occurrence);;
      lift (raise_if (bool_decide (occ_invocation occurrence = None))
              (ValueError "a pure firing runs no activity"));;
      value ← lift (canonical_payload value);
      match dget o (frozen_results l) with
      | Some frozen => acknowledge_result frozen value
      | None =>
          let instant := effective l at_ in
          batch ← lift (writer_records
                    [ActivityCompleted (b_transition (occ_binding occurrence)) value o instant]);
          extend batch;;
          advance instant;;
          update (λ l, set_frozen_results (dset o (TResult value) (frozen_results l)) l);;
          mret ACCEPTED
      end
  end.

Definition acknowledge_failure (recorded : Terminal) (failure : ActivityFailure) : M TerminalDisposition :=
  match recorded with
  | TFailure f =>
      if same_failure f failure then mret ACKNOWLEDGED
      else raise (ValueError "conflicting terminal activity report")
  | TResult _ => raise (ValueError "conflicting terminal activity report")
  end.

(** [Instance.record_activity_failure] *)
Definition record_activity_failure (occurrence : FiringOccurrence) (failure : ActivityFailure)
    (at_ : option Instant) : M TerminalDisposition :=
  l ← self id;
  let o := occ_id occurrence in
  if dmem o (cancelled l) then
    quarantine_terminal occurrence (terminal_outcome (TFailure failure)) at_
  else match dget o (terminal_activity l) with
  | Some terminal => acknowledge_failure terminal failure
  | None =>
      lift (ensure_in_flight l occurrence);;
      lift (raise_if (bool_decide (occ_invocation occurrence = None))
              (ValueError "cannot record an activity failure for a pure firing"));;
      match dget o (frozen_results l) with
      | Some frozen => acknowledge_failure frozen failure
      | None =>
          let instant := effective l at_ in
          batch ← lift (writer_records
                    [ActivityFailed (b_transition (occ_binding occurrence)) (f_error failure) (f_kind failure)
                       (f_details failure) (f_retryable failure) (f_retry_after failure) o instant]);
          extend batch;;
          advance instant;;
          recorded ← lift (ActivityFailure_new (f_error failure) (f_kind failure) (f_details failure)
                             (f_retryable failure) (f_retry_after failure));
          update (λ l, set_frozen_results (dset o (TFailure recorded) (frozen_results l)) l);;
          mret ACCEPTED
      end
  end.

(** ** Completion *)

Definition check_effect (n : Net) (r : DeliveryRegistration) : result unit :=
  raise_if (negb (dmem (reg_source r) (transitions n)))
    (ValueError "delivery-registration effect: not a transition of this net");;
  raise_if (negb (is_source n (reg_source r)))
    (ValueError "delivery-registration effect: only a source transition has delivery registrations").

Definition armed_close (a : Armed) (r : DeliveryRegistration) : result Armed :=
  keys ← or_raise (dget (reg_source r) a) (KeyError "armed");
  raise_if (negb (bool_decide (reg_key r ∈ keys))) (ValueError "close of delivery registration: not armed");;
  Ok (dset (reg_source r) (keys ∖ {[reg_key r]}) a).

Definition armed_open (a : Armed) (r : DeliveryRegistration) : result Armed :=
  keys ← or_raise (dget (reg_source r) a) (KeyError "armed");
  raise_if (bool_decide (reg_key r ∈ keys)) (ValueError "open of delivery registration: already armed");;
  Ok (dset (reg_source r) ({[reg_key r]} ∪ keys) a).

(** [Instance._armed_after] *)
Definition armed_after (n : Net) (a : Armed) (hr : HandlerResult) : result Armed :=
  forM_ (check_effect n) (hr_closes hr ++ hr_opens hr);;
  a ← foldM armed_close a (hr_closes hr);
  foldM armed_open a (hr_opens hr).

(** The handler's terminal result: supplied for a pure occurrence, projected
    from the frozen fact for an impure one. *)
Definition projected_result (c : Config) (l : Live) (occurrence : FiringOccurrence)
    (supplied : option HandlerResult) : result HandlerResult :=
  match occ_invocation occurrence with
  | None => or_raise supplied (ValueError "a pure firing completes with its handler's result")
  | Some _ =>
      raise_if (bool_decide (is_Some (supplied)))
        (ValueError "an impure firing projects its frozen activity result");;
      frozen ← or_raise (dget (occ_id occurrence) (frozen_results l))
                 (ValueError "no terminal activity fact is recorded");
      h ← bound_handler c (b_transition (occ_binding occurrence));
      match h with
      | PureHandler _ => Err (TypeError "its impure occurrence is not bound to an ActivityHandler")
      | ImpureHandler h =>
          match frozen with
          | TFailure f =>
              projector ← or_raise (project_failure h) (ValueError "frozen failure has no opt-in failure projection");
              projector (occ_binding occurrence) f
          | TResult d => project h (occ_binding occurrence) d
          end
      end
  end.

(** The produced movements, each with the queue identities minted for it. *)
Fixpoint mint_entries (cursor : Z) (effects : list ProducedTokens) : list (ProducedTokens * list Z) :=
  match effects with
  | [] => []
  | e :: effects =>
      (e, zrange cursor (length (produced_tokens e)))
        :: mint_entries (cursor + Z.of_nat (length (produced_tokens e))) effects
  end.

Definition minted_cursor (cursor : Z) (effects : list ProducedTokens) : Z :=
  foldl (λ z e, z + Z.of_nat (length (produced_tokens e)))%Z cursor effects.

Definition produced_record (o : Z) (scope : option LifecycleScope) (instant : Instant)
    (ee : ProducedTokens * list Z) : HRecord :=
  TokensProduced (produced_place ee.1) (produced_tokens ee.1) o
    (match scope with Some _ => ee.2 | None => [] end) scope instant.

(** The part of [Instance._commit_completion] before its append. *)
Definition completion_batch (c : Config) (l : Live) (occurrence : FiringOccurrence)
    (supplied : option HandlerResult) (instant : Instant)
    : result (Armed * list (ProducedTokens * list Z) * Z * list HRecord) :=
  ensure_in_flight l occurrence;;
  envelope ← projected_result c l occurrence supplied;
  armed' ← armed_after (net c) (armed l) envelope;
  let t := b_transition (occ_binding occurrence) in
  let o := occ_id occurrence in
  '(effects, _) ← complete_firing (net c) (live_marking l) t (hr_tokens envelope);
  let minted := mint_entries (next_entry l) effects in
  batch ← writer_records
    ((produced_record o (occ_scope occurrence) instant <$> minted)
     ++ (closed_record o instant <$> hr_closes envelope)
     ++ (opened_record o instant <$> hr_opens envelope)
     ++ [FiringCompleted t o instant]);
  Ok (armed', minted, minted_cursor (next_entry l) effects, batch).

(** Moving a frozen fact to the index of ended occurrences. *)
Definition retire_frozen (o : Z) : M unit :=
  l ← self id;
  frozen ← lift (or_raise (dget o (frozen_results l)) (KeyError "frozen_results"));
  update (λ l, set_terminal_activity (dset o frozen (terminal_activity l))
              (set_frozen_results (ddel o (frozen_results l)) l)).

Definition leave_in_flight (o : Z) : M unit :=
  l ← self id;
  lift (raise_if (negb (dmem o (in_flight l))) (KeyError "in_flight"));;
  update (λ l, set_in_flight (ddel o (in_flight l)) l).

(** [Instance._commit_completion] *)
Definition commit_completion (occurrence : FiringOccurrence) (supplied : option HandlerResult)
    (at_ : option Instant) : M FiringOutcome :=
  c ← cfg id;
  l ← self id;
  let instant := effective l at_ in
  let o := occ_id occurrence in
  '(armed', minted, cursor, batch) ← lift (completion_batch c l occurrence supplied instant);
  try_with (extend batch) (λ e, raise (CommitRefused e));;
  advance instant;;
  update (set_next_entry cursor);;
  for_each minted (λ ee,
    l ← self id;
    qs ← lift (apply_movement (queues l) (produced_record o (occ_scope occurrence) instant ee) (Some ee.2));
    update (set_queues qs));;
  update (set_armed armed');;
  (match occ_invocation occurrence with Some _ => retire_frozen o | None => mret tt end);;
  leave_in_flight o;;
  mret (MkOutcome (b_transition (occ_binding occurrence)) o
          (flatten_selections (b_consumed (occ_binding occurrence)))
          (ee ← minted; (λ tok, (produced_place ee.1, tok)) <$> produced_tokens ee.1)
          (occ_records occurrence ++ batch)).

Definition unwrap_refusal {A} (e : exn) : M A :=
  match e with CommitRefused e => raise e | e => raise e end.

(** [Instance.complete] *)
Definition complete (occurrence : FiringOccurrence) (supplied : option HandlerResult) (at_ : option Instant)
    : M FiringOutcome :=
  try_with (commit_completion occurrence supplied at_) unwrap_refusal.

Definition projects_failure (h : Handler) : bool :=
  match h with
  | ImpureHandler h => bool_decide (is_Some (project_failure h))
  | PureHandler _ => false
  end.

(** [Instance.fail] *)
Definition fail (occurrence : FiringOccurrence) (error : string + ActivityFailure) (at_ : option Instant)
    : M unit :=
  c ← cfg id;
  l ← self id;
  let o := occ_id occurrence in
  let impure := bool_decide (is_Some (occ_invocation occurrence)) in
  lift (ensure_in_flight l occurrence);;
  failure ← lift (match error with inr f => Ok f | inl text => failure_of_text text end);
  lift (match dget o (frozen_results l) with
        | None => Ok tt
        | Some (TFailure f) => raise_if (negb (same_failure f failure)) (ValueError "its activity already completed")
        | Some (TResult _) => Err (ValueError "its activity already completed")
        end);;
  (if impure && negb (dmem o (frozen_results l))
   then record_activity_failure occurrence failure at_;; mret tt
   else mret tt);;
  h ← lift (bound_handler c (b_transition (occ_binding occurrence)));
  if impure && projects_failure h then complete occurrence None at_;; mret tt
  else
    l ← self id;
    let instant := effective l at_ in
    batch ← lift (writer_records [FiringFailed (b_transition (occ_binding occurrence)) (f_error failure) o instant]);
    extend batch;;
    advance instant;;
    (if impure then retire_frozen o else mret tt);;
    leave_in_flight o.

(** ** Inline execution *)

(** [repr] of a string: quoted, backslashes, the quote and control characters
    escaped. Bytes above 127 belong to characters that print as themselves. *)
Definition lower_hex (n : nat) : Ascii.ascii :=
  Ascii.ascii_of_nat (if (n <? 10)%nat then 48 + n else 87 + n).

Definition repr_char (quote : Ascii.ascii) (a : Ascii.ascii) : string :=
  let n := char_code a in
  if Ascii.eqb a quote || Ascii.eqb a "\" then String "\" (String a EmptyString)
  else if (n =? 10)%nat then "\n" else if (n =? 13)%nat then "\r" else if (n =? 9)%nat then "\t"
  else if (n <? 32)%nat || (n =? 127)%nat
       then "\x" +:+ String (lower_hex (n / 16)) (String (lower_hex (n mod 16)) EmptyString)
  else String a EmptyString.

Fixpoint repr_body (quote : Ascii.ascii) (s : string) : string :=
  match s with
  | EmptyString => EmptyString
  | String a s => repr_char quote a +:+ repr_body quote s
  end.

Definition double_quote : Ascii.ascii := Ascii.ascii_of_nat 34.

Definition py_repr (s : string) : string :=
  let quote := if str_contains "'" s && negb (str_contains double_quote s) then double_quote else "'"%char in
  String quote (repr_body quote s +:+ String quote EmptyString).

(** [s[:n]]: the first [n] code points. *)
Fixpoint str_take (n : nat) (s : string) : string :=
  match s with
  | EmptyString => EmptyString
  | String a rest =>
      let c := N.to_nat (Ascii.N_of_ascii a) in
      if (128 <=? c)%nat && (c <? 192)%nat then String a (str_take n rest)
      else match n with
           | O => EmptyString
           | S n => String a (str_take n rest)
           end
  end.

(** The class name and the arguments of an exception. *)
Definition exn_class (e : exn) : string * list string :=
  match e with
  | ValueError m => ("ValueError", [m])
  | TypeError m => ("TypeError", [m])
  | RuntimeError m => ("RuntimeError", [m])
  | KeyError m => ("KeyError", [m])
  | IndexError m => ("IndexError", [m])
  | TokenNotPresent => ("TokenNotPresent", ["token not present"])
  | StoreError m => ("StoreError", [m])
  | CommitRefused _ => ("_CompletionCommitRefused", ["History refused a prepared firing-completion batch"])
  end.

(** [firing_failure_text] *)
Definition firing_failure_text (e : exn) : string :=
  let '(name, args) := exn_class e in
  str_take 4096 (name +:+ "(" +:+ str_join ", " (py_repr <$> args) +:+ ")").

(** [Instance._execute] *)
Definition execute (occurrence : FiringOccurrence) (at_ : option Instant) : M FiringOutcome :=
  c ← cfg id;
  let t := b_transition (occ_binding occurrence) in
  h ← lift (bound_handler c t);
  match h with
  | ImpureHandler _ => raise (TypeError "pure firing is bound to an ActivityHandler")
  | PureHandler f =>
      try_with
        (value ← lift (f (occ_binding occurrence) (outputs (net c) t));
         commit_completion occurrence (Some value) at_)
        (λ e, match e with
              | CommitRefused e => raise e
              | e =>
                  l ← self id;
                  (if dmem (occ_id occurrence) (in_flight l)
                   then fail occurrence (inl (firing_failure_text e)) at_
                   else mret tt);;
                  raise e
              end)
  end.

(** [Instance.step] *)
Definition step (at_ : option Instant) : M (option FiringOutcome) :=
  c ← cfg id;
  l ← self id;
  enabled ← lift (candidates_at c l (effective l at_));
  choice ← lift (scheduler c enabled);
  match choice with
  | None => mret None
  | Some b =>
      h ← lift (bound_handler c (b_transition b));
      lift (raise_if (is_impure h) (ValueError "cannot step firing: it binds an ActivityHandler"));;
      occurrence ← begin b at_;
      outcome ← execute occurrence None;
      mret (Some outcome)
  end.

(** [Instance.run]: [None] when the fuel ran out before a step found nothing
    to fire. *)
Fixpoint run (fuel : nat) : M (option (list FiringOutcome)) :=
  match fuel with
  | O => mret None
  | S fuel =>
      outcome ← step None;
      match outcome with
      | None => mret (Some [])
      | Some outcome => rest ← run fuel; mret (cons outcome <$> rest)
      end
  end.

(** ** Delivery *)

Inductive DeliveryDisposition := DROPPED | D_QUARANTINED.

(** [AcceptedDelivery] and its canonical construction. *)
Record AcceptedDelivery := MkAccepted {
  ad_instance : string;
  ad_source : NetPath;
  ad_identity : string;
  ad_occurrence : Z
}.

Definition AcceptedDelivery_new (instance : string) (source : path_arg) (identity : string) (occurrence : Z)
    : result AcceptedDelivery :=
  raise_if (str_empty instance) (ValueError "Instance identity must be a non-empty string");;
  path ← canonical_net_path source;
  raise_if (str_empty identity) (ValueError "delivery identity must be a non-empty string");;
  raise_if (occurrence <? 1)%Z (ValueError "firing occurrence must be a positive integer");;
  Ok (MkAccepted instance path identity occurrence).

Inductive DeliveryAnswer :=
| DAccepted (a : AcceptedDelivery)
| DPrior (identity : string) (occurrence : Z)
| DScoped (identity : string) (d : DeliveryDisposition) (scope : LifecycleScope + string).

(** [_canonical_delivery_tokens] *)
Definition canonical_delivery_tokens (ts : list Token) : result (list Token) :=
  mapR (λ t, d ← canonical_payload (data t); Ok (MkToken (color t) d)) ts.

(** [_delivery_content_text] *)
Definition delivery_content_text (ts : list Token) : Data :=
  canonical_payload_text
    (DList ((λ t, DDict [("color", match color t with Some c => DStr c | None => DNone end);
                         ("data", data t)]) <$> ts)).

Definition DeliveryTarget := option (LifecycleScope + string).

(** The source, tokens and scope of a recorded delivery disposition. *)
Definition prior_source (r : HRecord) : option NetPath :=
  match r with
  | ExternalEventDelivered p _ _ _ _ _ | ScopedDeliveryDropped p _ _ _ _
  | ScopedDeliveryQuarantined p _ _ _ _ => Some p
  | _ => None
  end.

Definition prior_scope (r : HRecord) : DeliveryTarget :=
  match r with
  | ExternalEventDelivered _ _ _ _ sc _ => inl <$> sc
  | ScopedDeliveryDropped _ _ _ sc _ => Some (inl sc)
  | ScopedDeliveryQuarantined _ _ _ sc _ => Some sc
  | _ => None
  end.

Definition prior_tokens (r : HRecord) : list Token :=
  match delivery_fact r with Some (ts, _) => ts | None => [] end.

(** The answer to an identity already dispositioned. *)
Definition redelivery_answer (c : Config) (l : Live) (prior : HRecord) (path : NetPath)
    (delivered : list Token) (identity : string) (target : DeliveryTarget) : result DeliveryAnswer :=
  raise_if (negb (bool_decide (prior_source prior = Some path))
            || negb (bool_decide (delivery_content_text (prior_tokens prior) = delivery_content_text delivered))
            || negb (bool_decide (prior_scope prior = target)))
    (ValueError "delivery identity conflict");;
  match prior with
  | ScopedDeliveryDropped _ _ _ sc _ => Ok (DScoped identity DROPPED (inl sc))
  | ScopedDeliveryQuarantined _ _ _ sc _ => Ok (DScoped identity D_QUARANTINED sc)
  | ExternalEventDelivered source _ recorded o _ _ =>
      if dmem o (in_flight l) then
        a ← AcceptedDelivery_new (instance_id c) (APath source) recorded o; Ok (DAccepted a)
      else Ok (DPrior identity o)
  | _ => Err (TypeError "accepted identity")
  end.

(** The disposition of a target that is not an active generation. *)
Definition scoped_disposition (l : Live) (path : NetPath) (delivered : list Token) (identity : string)
    (target : LifecycleScope + string) (instant : Instant) : HRecord * DeliveryDisposition :=
  match target with
  | inl sc =>
      if (scope_generation sc <=? spent_generation (scope_state l) (scope_name sc))%Z
      then (ScopedDeliveryDropped path delivered identity sc instant, DROPPED)
      else (ScopedDeliveryQuarantined path delivered identity target instant, D_QUARANTINED)
  | inr _ => (ScopedDeliveryQuarantined path delivered identity target instant, D_QUARANTINED)
  end.

Definition target_inactive (l : Live) (target : LifecycleScope + string) : bool :=
  match target with inl sc => negb (scope_active (scope_state l) sc) | inr _ => true end.

(** The acceptance of a delivery to an armed source: its occurrence begins. *)
Definition accept_begin (c : Config) (l : Live) (path : NetPath) (delivered : list Token)
    (at_ : option Instant) (identity : string) (scope : option LifecycleScope) : M DeliveryAnswer :=
  keys ← lift (or_raise (dget path (armed l)) (KeyError "armed"));
  lift (raise_if (bool_decide (keys = ∅)) (ValueError "cannot deliver: no armed delivery registration"));;
  lift (raise_if (str_empty (instance_id c)) (ValueError "Instance identity must be a non-empty string"));;
  b ← lift (Binding_new path [] [] delivered);
  occurrence ← begin_occurrence b at_
    (λ o i, ExternalEventDelivered path delivered identity o scope i) None scope;
  update (λ l, set_accepted_identities
    (dset identity (ExternalEventDelivered path delivered identity (occ_id occurrence) scope (watermark l))
       (accepted_identities l)) l);;
  accepted ← lift (AcceptedDelivery_new (instance_id c) (APath path) identity (occ_id occurrence));
  mret (DAccepted accepted).

(** The acceptance of a new identity: a disposition for a target that is not
    active, else the source occurrence begins. *)
Definition accept_new (path : NetPath) (delivered : list Token) (at_ : option Instant)
    (identity : string) (target : DeliveryTarget) : M DeliveryAnswer :=
  c ← cfg id;
  l ← self id;
  lift (raise_if (negb (dmem path (transitions (net c)))) (ValueError "cannot deliver: not a transition of this net"));;
  lift (raise_if (negb (is_source (net c) path)) (ValueError "cannot deliver: only a source transition takes delivery"));;
  match target with
  | None => accept_begin c l path delivered at_ identity None
  | Some tgt =>
      if target_inactive l tgt then
        let instant := effective l at_ in
        let '(record, disposition) := scoped_disposition l path delivered identity tgt instant in
        batch ← lift (writer_records [record]);
        extend batch;;
        advance instant;;
        update (λ l, set_accepted_identities (dset identity record (accepted_identities l)) l);;
        mret (DScoped identity disposition tgt)
      else accept_begin c l path delivered at_ identity (match tgt with inl sc => Some sc | inr _ => None end)
  end.

(** [Instance.accept_delivery] *)
Definition accept_delivery (source : path_arg) (tokens : list Token) (at_ : option Instant)
    (identity : string) (target : DeliveryTarget) : M DeliveryAnswer :=
  path ← lift (canonical_net_path source);
  lift (raise_if (match target with Some (inr name) => bad_scope_name name | _ => false end)
          (ValueError "uncertain delivery scope must be a non-empty name without NUL"));;
  lift (raise_if (bool_decide (tokens = [])) (ValueError "delivery requires at least one token"));;
  delivered ← lift (canonical_delivery_tokens tokens);
  lift (raise_if (str_empty identity) (ValueError "identity must be a non-empty string"));;
  c ← cfg id;
  l ← self id;
  match dget identity (accepted_identities l) with
  | Some prior => lift (redelivery_answer c l prior path delivered identity target)
  | None => accept_new path delivered at_ identity target
  end.

(** The acceptance a completion names, when the recorded one is the same. *)
Definition recorded_delivery (l : Live) (a : AcceptedDelivery) : option HRecord :=
  match dget (ad_identity a) (accepted_identities l) with
  | Some (ExternalEventDelivered source _ identity o _ _ as prior) =>
      if bool_decide (source = ad_source a) && bool_decide (identity = ad_identity a)
         && bool_decide (o = ad_occurrence a) then Some prior else None
  | _ => None
  end.

(** [Instance.complete_delivery] *)
Definition complete_delivery (accepted : AcceptedDelivery) (at_ : option Instant) : M FiringOutcome :=
  a ← lift (AcceptedDelivery_new (ad_instance accepted) (APath (ad_source accepted))
              (ad_identity accepted) (ad_occurrence accepted));
  c ← cfg id;
  l ← self id;
  lift (raise_if (negb (bool_decide (ad_instance a = instance_id c)))
          (ValueError "cannot complete delivery: foreign Instance"));;
  match dget (ad_occurrence a) (in_flight l) with
  | None =>
      raise (match recorded_delivery l a with
             | Some _ => ValueError "cannot complete accepted delivery: firing occurrence already ended"
             | None => ValueError "cannot complete delivery: no matching accepted unfinished occurrence"
             end)
  | Some occurrence =>
      let t := b_transition (occ_binding occurrence) in
      h ← lift (bound_handler c t);
      let impure := bool_decide (is_Some (occ_invocation occurrence)) || is_impure h in
      lift (raise_if (negb (is_source (net c) t)) (ValueError "cannot complete delivery: a non-source transition"));;
      lift (raise_if impure (ValueError "cannot complete delivery: firing occurrence is impure"));;
      lift (raise_if (match recorded_delivery l a with
                      | Some r =>
                          negb (bool_decide (t = ad_source a))
                          || negb (bool_decide ((token_norm <$> b_delivered (occ_binding occurrence))
                                                = (token_norm <$> prior_tokens r)))
                          || negb (bool_decide (inl <$> occ_scope occurrence = prior_scope r))
                      | None => true
                      end)
              (ValueError "cannot complete delivery: acceptance does not match firing occurrence"));;
      execute occurrence at_
  end.

(** ** Registrations, time and status *)

(** [Instance.seal] *)
Definition seal (source : path_arg) (at_ : option Instant) : M unit :=
  path ← lift (canonical_net_path source);
  c ← cfg id;
  l ← self id;
  lift (raise_if (negb (dmem path (transitions (net c)))) (ValueError "cannot seal: not a transition of this net"));;
  lift (raise_if (negb (is_source (net c) path)) (ValueError "cannot seal: only a source transition has delivery registrations"));;
  keys ← lift (or_raise (dget path (armed l)) (KeyError "armed"));
  lift (raise_if (bool_decide (keys = ∅)) (ValueError "cannot seal: no armed delivery registration"));;
  let instant := effective l at_ in
  batch ← lift (writer_records
            ((λ key, DeliveryRegistrationClosed path key None instant) <$> sorted_by str_leb (elements keys)));
  extend batch;;
  advance instant;;
  update (λ l, set_armed (dset path ∅ (armed l)) l).

(** [Instance.wake] *)
Definition wake (at_ : Instant) : M (option HRecord) :=
  pending ← (λ s, (instance_next_maturation s, s));
  l ← self id;
  let instant := effective l (Some at_) in
  match pending with
  | None => mret None
  | Some m =>
      if (instant <? m)%Z then mret None
      else
        batch ← lift (writer_records [TimerMatured m instant]);
        extend batch;;
        advance instant;;
        mret (Some (TimerMatured m instant))
  end.

(** [Instance.is_quiescent] *)
Definition is_quiescent (s : Instance) : result bool :=
  bs ← instance_candidates s;
  if negb (bool_decide (bs = [])) then Ok false
  else
    pending ← instance_next_maturation s;
    Ok (bool_decide (pending = None) && bool_decide (in_flight (live s) = [])).

(** [Instance._completion_holds]: a raising condition does not hold. *)
Definition completion_holds (c : Completion) (m : Marking) : bool := default false (c m).

Inductive Status := RUNNING | TERMINATED | COMPLETED | STUCK | AWAITING.

(** [Instance.status] *)
Definition status (s : Instance) : result Status :=
  quiescent ← is_quiescent s;
  if negb quiescent then Ok RUNNING
  else
    let condition := bound_completion (config s) in
    if match condition with Some c => completion_holds c (live_marking (live s)) | None => false end
    then Ok COMPLETED
    else if existsb (λ sk : NetPath * gset string, negb (bool_decide (sk.2 = ∅))) (armed (live s))
    then Ok AWAITING
    else Ok (if bool_decide (is_Some condition) then STUCK else TERMINATED).
