(* ===== verification/Dispatch.v ===== *)
(** * Activity custody (src/src/petrus/motus/dispatch/__init__.py)

    The provider-neutral values of custody, the Dispatch protocol as a class,
    and the two in-process providers: [InMemoryDispatch], whose pending work is
    pumped explicitly, and [InlineDispatch], which runs an Activity at once
    under its retry policy. A provider operation keeps the state reached when it
    raises. The implementation of an Activity and the monotonic clock are
    arguments: what the n-th execution answers, and the time elapsed after it. *)

From stdpp Require Import base gmap sets list strings pretty.
From Stdlib Require Import ZArith Lia.
From S2P Require Import Prelude PyData Activity Lifecycle.
Open Scope string_scope.
Open Scope list_scope.
Open Scope Z_scope.

(** ** Values *)

Record ActivityAttempt := MkAttempt {
  at_instance_key : string;
  at_occurrence : Z;
  at_epoch : Z;
  at_claimant : string;
  at_queue : string;
  at_invocation : ActivityInvocation;
  at_details : Data;
  at_instance : option string
}.

Record CancellationInstruction := MkInstruction {
  ci_occurrence : Z;
  ci_invocation : ActivityInvocation;
  ci_position : Z
}.

(** [CancellationInstruction.__post_init__] *)
Definition CancellationInstruction_new (occurrence : Z) (i : ActivityInvocation) (position : Z)
    : result CancellationInstruction :=
  raise_if (occurrence <? 1) (ValueError "Cancellation Instruction occurrence must be a positive integer");;
  raise_if (position <? 1) (ValueError "Cancellation Instruction history_position must be a positive integer");;
  Ok (MkInstruction occurrence i position).

Inductive CancellationDisposition := TOMBSTONED | RETIRED | FENCED | TERMINAL | C_ACKNOWLEDGED.

#[export] Instance CancellationDisposition_eq_dec : EqDecision CancellationDisposition.
Proof. solve_decision. Defined.

(** Python [==] of invocations and instructions. *)
Definition invocation_eqb (a b : ActivityInvocation) : bool :=
  bool_decide (invocation_norm a = invocation_norm b).
Definition instruction_eqb (a b : CancellationInstruction) : bool :=
  bool_decide (ci_occurrence a = ci_occurrence b) && invocation_eqb (ci_invocation a) (ci_invocation b)
  && bool_decide (ci_position a = ci_position b).

(** An arrived outcome for an occurrence. *)
Notation Arrival := (Z * Terminal)%type (only parsing).

(** [Dispatch], with the optional [CancellableDispatch] extension. *)
Class Dispatch (D : Type) := {
  dispatch : Z → ActivityInvocation → D → result unit * D;
  collect : D → result (list Arrival) * D;
  cancel : option (CancellationInstruction → D → result CancellationDisposition * D)
}.

(** ** [InMemoryDispatch] *)

Record InMemoryDispatch := MkInMemory {
  im_pending : dict Z ActivityInvocation;
  im_completed : list Arrival;
  im_cancelled : dict Z CancellationInstruction
}.

Definition InMemory_init : InMemoryDispatch := MkInMemory [] [] [].

Definition InMemory_dispatch (o : Z) (i : ActivityInvocation) (d : InMemoryDispatch)
    : result unit * InMemoryDispatch :=
  match dget o (im_cancelled d) with
  | Some fence =>
      if negb (invocation_eqb (ci_invocation fence) i)
      then (Err (ValueError "cancellation conflict for occurrence"), d)
      else (Ok tt, d)
  | None =>
      if dmem o (im_pending d)
      then (Err (ValueError "occurrence is already pending in this pool: one dispatch per occurrence"), d)
      else (Ok tt, MkInMemory (dset o i (im_pending d)) (im_completed d) (im_cancelled d))
  end.

Definition InMemory_collect (d : InMemoryDispatch) : result (list Arrival) * InMemoryDispatch :=
  (Ok (im_completed d), MkInMemory (im_pending d) [] (im_cancelled d)).

(** [InMemoryDispatch._take] *)
Definition InMemory_take (o : Z) (d : InMemoryDispatch) : result InMemoryDispatch :=
  raise_if (negb (dmem o (im_pending d))) (ValueError "occurrence is not pending in this pool");;
  Ok (MkInMemory (ddel o (im_pending d)) (im_completed d) (im_cancelled d)).

Definition InMemory_arrive (o : Z) (v : Terminal) (d : InMemoryDispatch) : result unit * InMemoryDispatch :=
  match (if dmem o (im_cancelled d) then Ok d else InMemory_take o d) with
  | Err e => (Err e, d)
  | Ok d => (Ok tt, MkInMemory (im_pending d) (im_completed d ++ [(o, v)]) (im_cancelled d))
  end.

(** [InMemoryDispatch.complete] *)
Definition InMemory_complete (o : Z) (value : Data) (d : InMemoryDispatch) : result unit * InMemoryDispatch :=
  InMemory_arrive o (TResult value) d.

(** [InMemoryDispatch.fail]: the failure value is built after the take. *)
Definition InMemory_fail (o : Z) (error : string) (d : InMemoryDispatch) : result unit * InMemoryDispatch :=
  match (if dmem o (im_cancelled d) then Ok d else InMemory_take o d) with
  | Err e => (Err e, d)
  | Ok d =>
      match failure_of_text error with
      | Err e => (Err e, d)
      | Ok f => (Ok tt, MkInMemory (im_pending d) (im_completed d ++ [(o, TFailure f)]) (im_cancelled d))
      end
  end.

Definition arrived_in (o : Z) (l : list Arrival) : bool := existsb (λ ov : Arrival, bool_decide (ov.1 = o)) l.

(** [InMemoryDispatch.cancel] *)
Definition InMemory_cancel (c : CancellationInstruction) (d : InMemoryDispatch)
    : result CancellationDisposition * InMemoryDispatch :=
  let o := ci_occurrence c in
  let conflict := Err (ValueError "cancellation conflict for occurrence") in
  match dget o (im_cancelled d) with
  | Some prior => (if negb (instruction_eqb prior c) then conflict else Ok C_ACKNOWLEDGED, d)
  | None =>
      match dget o (im_pending d) with
      | Some i =>
          if negb (invocation_eqb i (ci_invocation c)) then (conflict, d)
          else (Ok RETIRED, MkInMemory (ddel o (im_pending d)) (im_completed d) (dset o c (im_cancelled d)))
      | None =>
          (Ok (if arrived_in o (im_completed d) then TERMINAL else TOMBSTONED),
           MkInMemory (im_pending d) (im_completed d) (dset o c (im_cancelled d)))
      end
  end.

#[export] Instance InMemory_provider : Dispatch InMemoryDispatch := {
  dispatch := InMemory_dispatch;
  collect := InMemory_collect;
  cancel := Some InMemory_cancel
}.

(** ** [InlineDispatch] *)

(** What an execution raised: an [ActivityError] carries its failure, any other
    exception its text and class name. *)
Inductive Raised :=
| RaisedActivityError (f : ActivityFailure)
| RaisedOther (text kind : string).

(** The answer of the n-th execution of an Activity on an invocation. *)
Definition ActivityRun := ActivityInvocation → Z → Data + Raised.

Record InlineDispatch := MkInline {
  in_activities : dict string ActivityRun;
  in_completed : list Arrival;
  in_cancelled : dict Z CancellationInstruction
}.

(** The exception a failing [ActivityFailure] construction raises. *)
Definition raised_exn (e : exn) : Raised :=
  match e with
  | ValueError m => RaisedOther m "ValueError"
  | TypeError m => RaisedOther m "TypeError"
  | RuntimeError m => RaisedOther m "RuntimeError"
  | KeyError m => RaisedOther m "KeyError"
  | IndexError m => RaisedOther m "IndexError"
  | TokenNotPresent => RaisedOther "token not present" "TokenNotPresent"
  | StoreError m => RaisedOther m "StoreError"
  | CommitRefused _ => RaisedOther "History refused a prepared firing-completion batch" "_CompletionCommitRefused"
  end.

(** [_classify_inline_failure] *)
Definition classify_inline_failure (r : Raised) : result ActivityFailure :=
  match r with
  | RaisedActivityError f => Ok f
  | RaisedOther text kind => ActivityFailure_new (if str_empty text then kind else text) kind DNone true None
  end.

(** The retry loop of [InlineDispatch.__call__] from attempt [attempt], with
    [budget] attempts to go: [elapsed n] is the time since the start read after
    attempt [n]. *)
Fixpoint inline_attempts (run : ActivityRun) (elapsed : Z → Number) (i : ActivityInvocation)
    (budget : nat) (attempt : Z) : Data + Raised :=
  match budget with
  | O => inl DNone
  | S budget =>
      match run i attempt with
      | inl value => inl value
      | inr raised =>
          match classify_inline_failure raised with
          | Err e => inr (raised_exn e)
          | Ok failure =>
              let expired := match schedule_to_close (inv_policy i) with
                             | Some limit => num_leb limit (elapsed attempt)
                             | None => false
                             end in
              if negb (f_retryable failure) || expired || (attempt =? attempts (inv_policy i))
              then inr raised
              else inline_attempts run elapsed i budget (attempt + 1)
          end
      end
  end.

(** [InlineDispatch.__call__] *)
Definition inline_call (d : InlineDispatch) (elapsed : Z → Number) (i : ActivityInvocation) : Data + Raised :=
  match dget (inv_activity i) (in_activities d) with
  | None => inr (RaisedOther "no activity implementation: this InlineDispatch implements others" "ValueError")
  | Some run => inline_attempts run elapsed i (Z.to_nat (attempts (inv_policy i))) 1
  end.

Definition inline_buffer (o : Z) (v : Terminal) (d : InlineDispatch) : InlineDispatch :=
  MkInline (in_activities d) (in_completed d ++ [(o, v)]) (in_cancelled d).

(** [InlineDispatch.dispatch] *)
Definition Inline_dispatch (elapsed : Z → Number) (o : Z) (i : ActivityInvocation) (d : InlineDispatch)
    : result unit * InlineDispatch :=
  match dget o (in_cancelled d) with
  | Some fence =>
      if negb (invocation_eqb (ci_invocation fence) i)
      then (Err (ValueError "cancellation conflict for occurrence"), d)
      else (Ok tt, d)
  | None =>
      match inline_call d elapsed i with
      | inl value => (Ok tt, inline_buffer o (TResult value) d)
      | inr raised =>
          match classify_inline_failure raised with
          | Ok f => (Ok tt, inline_buffer o (TFailure f) d)
          | Err e => (Err e, d)
          end
      end
  end.

Definition Inline_collect (d : InlineDispatch) : result (list Arrival) * InlineDispatch :=
  (Ok (in_completed d), MkInline (in_activities d) [] (in_cancelled d)).

(** [InlineDispatch.cancel] *)
Definition Inline_cancel (c : CancellationInstruction) (d : InlineDispatch)
    : result CancellationDisposition * InlineDispatch :=
  let o := ci_occurrence c in
  match dget o (in_cancelled d) with
  | Some prior =>
      (if negb (instruction_eqb prior c) then Err (ValueError "cancellation conflict for occurrence")
       else Ok C_ACKNOWLEDGED, d)
  | None =>
      (Ok (if arrived_in o (in_completed d) then TERMINAL else TOMBSTONED),
       MkInline (in_activities d) (in_completed d) (dset o c (in_cancelled d)))
  end.
