(* ===== verification/LocalDispatch.v ===== *)
(** * Durable single-host custody (src/src/petrus/motus/dispatch/local.py)

    The SQLite tables of published tasks, terminal outcomes and cancellation
    fences, and every operation of the engine-facing session and of the worker
    side. Each table is a dictionary from its UNIQUE (instance, occurrence) to
    the row, in the order of the AUTOINCREMENT sequence. BEGIN IMMEDIATE
    serialises transactions and an exception rolls back, so an operation is a
    function from a database to a result with the committed database. JSON
    columns hold the tree their text spells. The clock reading of a transaction
    is a result, since a provider clock may refuse; a row whose integer leaves
    the 64-bit range is refused by the driver. *)

From stdpp Require Import base gmap sets list strings pretty.
From Stdlib Require Import Ascii ZArith Lia.
From S2P Require Import Prelude PyData Activity Lifecycle Instance Dispatch.
Open Scope string_scope.
Open Scope list_scope.
Open Scope Z_scope.

(** ** The clock *)

(** [_ClockReader]: the last instant handed out. *)
Definition clock_sample (instant : Z) (last : option Z) : result (Z * option Z) :=
  raise_if (negb ((0 <=? instant) && (instant <=? 2 ^ 63 - 1)))
    (ValueError "Local Dispatch clock must return a nonnegative signed-64-bit millisecond integer");;
  raise_if (match last with Some l => instant <? l | None => false end)
    (ValueError "Local Dispatch clock must not rewind");;
  Ok (instant, Some instant).

(** ** JSON columns *)

(** [_encode_json] *)
Definition encode_json (x : Data) : result Data :=
  y ← canonical_payload x; Ok (canonical_payload_text y).

(** [_encode_invocation] *)
Definition opt_num_data (x : option Number) : Data := match x with Some x => num_data x | None => DNone end.
Definition opt_str_data (x : option string) : Data := match x with Some s => DStr s | None => DNone end.

Definition policy_wire (p : ExecutionPolicy) : Data :=
  DDict [("attempts", DInt (attempts p)); ("heartbeat_timeout", DInt (heartbeat_timeout p));
         ("initial_interval", num_data (initial_interval p)); ("coefficient", num_data (coefficient p));
         ("max_interval", num_data (max_interval p)); ("jitter", num_data (jitter p));
         ("start_to_close", opt_num_data (start_to_close p));
         ("schedule_to_close", opt_num_data (schedule_to_close p))].

Definition invocation_wire (i : ActivityInvocation) : Data :=
  DDict [("activity", DStr (inv_activity i)); ("input", inv_input i); ("policy", policy_wire (inv_policy i));
         ("correlation", opt_str_data (inv_correlation i)); ("idempotency", opt_str_data (inv_idempotency i))].

Definition encode_invocation (i : ActivityInvocation) : result Data := encode_json (invocation_wire i).

(** [set(d) == names] *)
Definition exact_fields (d : dict string Data) (names : list string) : bool :=
  forallb (λ k, bool_decide (k ∈ names)) (dkeys d) && forallb (λ k, dmem k d) names.

Definition data_num (x : Data) : option Number :=
  match x with DInt z => Some (NInt z) | DFloat m e => Some (NFloat m e) | _ => None end.
Definition data_int (x : Data) : option Z := match x with DInt z => Some z | _ => None end.
Definition data_opt_num (x : Data) : option (option Number) :=
  match x with DNone => Some None | x => Some <$> data_num x end.
Definition data_str (x : Data) : option string := match x with DStr s => Some s | _ => None end.
Definition data_opt_str (x : Data) : option (option string) :=
  match x with DNone => Some None | x => Some <$> data_str x end.

Definition legacy_fields : list string := ["attempts"; "heartbeat_timeout"].
Definition policy_fields : list string :=
  legacy_fields ++ ["initial_interval"; "coefficient"; "max_interval"; "jitter"; "start_to_close"; "schedule_to_close"].

(** [ExecutionPolicy] from a mapping with exactly the legacy or the current fields. *)
Definition decode_policy (d : dict string Data) : option ExecutionPolicy :=
  a ← dget "attempts" d ≫= data_int;
  h ← dget "heartbeat_timeout" d ≫= data_int;
  let dflt := default_policy in
  if exact_fields d legacy_fields
  then Some (MkPolicy a h (initial_interval dflt) (coefficient dflt) (max_interval dflt) (jitter dflt) None None)
  else
    i ← dget "initial_interval" d ≫= data_num;
    c ← dget "coefficient" d ≫= data_num;
    m ← dget "max_interval" d ≫= data_num;
    j ← dget "jitter" d ≫= data_num;
    s ← dget "start_to_close" d ≫= data_opt_num;
    t ← dget "schedule_to_close" d ≫= data_opt_num;
    if exact_fields d policy_fields then Some (MkPolicy a h i c m j s t) else None.

Definition invocation_fields : list string := ["activity"; "input"; "policy"; "correlation"; "idempotency"].

Definition corrupt_invocation : exn := ValueError "corrupt durable Activity invocation".

(** [_decode_invocation]: any failure inside is rewrapped. *)
Definition decode_fields (x : Data) : option ActivityInvocation :=
  match x with
  | DDict d =>
      if exact_fields d invocation_fields then
        a ← dget "activity" d ≫= data_str;
        input ← dget "input" d;
        p ← (match dget "policy" d with Some (DDict p) => decode_policy p | _ => None end);
        c ← dget "correlation" d ≫= data_opt_str;
        k ← dget "idempotency" d ≫= data_opt_str;
        Some (MkInvocation a input p c k)
      else None
  | _ => None
  end.

Definition decode_invocation (x : Data) : result ActivityInvocation :=
  i ← or_raise (decode_fields x) corrupt_invocation;
  match (ExecutionPolicy_post_init (inv_policy i);; ActivityInvocation_post_init i) with
  | Ok _ => Ok i
  | Err _ => Err corrupt_invocation
  end.

(** [json_extract(invocation,'$.policy.attempts')] and [...schedule_to_close]. *)
Definition json_policy (x : Data) (field : string) : option Data :=
  match x with
  | DDict d => match dget "policy" d with Some (DDict p) => dget field p | _ => None end
  | _ => None
  end.
Definition json_attempts (x : Data) : option Z := json_policy x "attempts" ≫= data_int.
Definition json_schedule (x : Data) : option Number := json_policy x "schedule_to_close" ≫= data_num.

(** [snapshot_heartbeat_details] *)
Definition snapshot_heartbeat_details (P : Platform) (x : Data) : result Data :=
  raise_if (negb (canonical_json_shape x)) (ValueError "heartbeat details are not JSON-faithful");;
  raise_if (65536 <? json_bytes P x) (ValueError "heartbeat details exceed the limit");;
  Ok x.

(** ** Rows *)

Notation Key := (string * Z)%type (only parsing).

Record Task := MkTask {
  tk_queue : string;
  tk_invocation : Data;
  tk_epoch : Z;
  tk_claimant : option string;
  tk_deadline : option Z;
  tk_schedule_start : Z;
  tk_attempt_start : option Z;
  tk_attempt_deadline : option Z;
  tk_available_at : Z;
  tk_details : option Data
}.

Record TerminalRow := MkTerminalRow { tr_epoch : Z; tr_claimant : option string; tr_outcome : Data }.
Record CancelRow := MkCancelRow { cr_position : Z; cr_invocation : Data }.

Record DB := MkDB {
  db_tasks : dict Key Task;
  db_terminals : dict Key TerminalRow;
  db_cancellations : dict Key CancelRow
}.

Definition db_empty : DB := MkDB [] [] [].

Definition set_tasks (v : dict Key Task) (db : DB) : DB := MkDB v (db_terminals db) (db_cancellations db).
Definition set_terminals (v : dict Key TerminalRow) (db : DB) : DB := MkDB (db_tasks db) v (db_cancellations db).
Definition set_cancellations (v : dict Key CancelRow) (db : DB) : DB := MkDB (db_tasks db) (db_terminals db) v.

(** [UPDATE ... WHERE instance=? AND occurrence=?] *)
Definition update_task (k : Key) (f : Task → Task) (db : DB) : DB :=
  match dget k (db_tasks db) with
  | Some t => set_tasks (dset k (f t) (db_tasks db)) db
  | None => db
  end.

Definition with_queue (q : string) (t : Task) : Task :=
  MkTask q (tk_invocation t) (tk_epoch t) (tk_claimant t) (tk_deadline t) (tk_schedule_start t)
    (tk_attempt_start t) (tk_attempt_deadline t) (tk_available_at t) (tk_details t).
Definition with_available (a : Z) (t : Task) : Task :=
  MkTask (tk_queue t) (tk_invocation t) (tk_epoch t) (tk_claimant t) (tk_deadline t) (tk_schedule_start t)
    (tk_attempt_start t) (tk_attempt_deadline t) a (tk_details t).
Definition with_deadline (d : Z) (t : Task) : Task :=
  MkTask (tk_queue t) (tk_invocation t) (tk_epoch t) (tk_claimant t) (Some d) (tk_schedule_start t)
    (tk_attempt_start t) (tk_attempt_deadline t) (tk_available_at t) (tk_details t).
Definition with_details (x : Data) (t : Task) : Task :=
  MkTask (tk_queue t) (tk_invocation t) (tk_epoch t) (tk_claimant t) (tk_deadline t) (tk_schedule_start t)
    (tk_attempt_start t) (tk_attempt_deadline t) (tk_available_at t) (Some x).
Definition with_claim (epoch : Z) (claimant : string) (deadline now : Z) (limit : option Z) (t : Task) : Task :=
  MkTask (tk_queue t) (tk_invocation t) epoch (Some claimant) (Some deadline) (tk_schedule_start t)
    (Some now) limit (tk_available_at t) (tk_details t).

(** Python integers bound to 64-bit columns. *)
Definition sql_ints (l : list Z) : result unit :=
  raise_if (existsb (λ z, negb ((- 2 ^ 63 <=? z) && (z <=? 2 ^ 63 - 1))) l)
    (StoreError "OverflowError: Python int too large to convert to SQLite INTEGER").

(** [INSERT INTO ..._terminals] under its UNIQUE, FOREIGN KEY and CHECK
    constraints. *)
Definition insert_terminal (k : Key) (r : TerminalRow) (db : DB) : result DB :=
  sql_ints [k.2; tr_epoch r];;
  raise_if (dmem k (db_terminals db)) (StoreError "IntegrityError: UNIQUE constraint failed");;
  raise_if (negb (dmem k (db_tasks db))) (StoreError "IntegrityError: FOREIGN KEY constraint failed");;
  raise_if (negb (((tr_epoch r =? 0) && bool_decide (tr_claimant r = None))
                  || ((0 <? tr_epoch r) && bool_decide (is_Some (tr_claimant r)))))
    (StoreError "IntegrityError: CHECK constraint failed");;
  Ok (set_terminals (dset k r (db_terminals db)) db).

(** ** Names *)

(** [_name] *)
Definition bad_name (s : string) : bool := str_empty s || str_contains "000"%char s.
Definition local_name (s : string) : result string :=
  raise_if (bad_name s) (ValueError "Local Dispatch name must be a non-empty string without NUL");; Ok s.

(** [_occurrence] *)
Definition local_occurrence (o : Z) : result unit :=
  raise_if (o <? 1) (ValueError "Local Dispatch occurrence must be a positive integer").

(** ** The engine-facing session *)

Record LocalDispatch := MkLocal {
  ld_instance : string;
  ld_default_queue : string;
  ld_activity_queues : dict string string;
  ld_published : gset Z;
  ld_collected : gset Z
}.

(** [LocalDispatch.__init__], apart from opening the database. *)
Definition LocalDispatch_init (instance default_queue : string) (routes : dict string string)
    : result LocalDispatch :=
  instance ← local_name instance;
  default_queue ← local_name default_queue;
  forM_ (λ aq : string * string, local_name aq.1;; local_name aq.2;; Ok tt) routes;;
  Ok (MkLocal instance default_queue routes ∅ ∅).

Definition publish (o : Z) (s : LocalDispatch) : LocalDispatch :=
  MkLocal (ld_instance s) (ld_default_queue s) (ld_activity_queues s) ({[o]} ∪ ld_published s) (ld_collected s).

Definition publication_conflict : exn := ValueError "Local Dispatch publication conflict".
Definition cancellation_conflict : exn := ValueError "Local Dispatch cancellation conflict".

Definition new_task (queue : string) (encoded : Data) (now : Z) : Task :=
  MkTask queue encoded 0 None None now None None now None.

(** Pending and expired work moves to the current route. *)
Definition movable (t : Task) (now : Z) : bool :=
  (tk_epoch t =? 0) || match tk_deadline t with Some d => d <=? now | None => false end.

(** [LocalDispatch.dispatch] *)
Definition local_dispatch (clock : result Z) (o : Z) (i : ActivityInvocation) (s : LocalDispatch) (db : DB)
    : result (LocalDispatch * DB) :=
  local_occurrence o;;
  let queue := dget_default (inv_activity i) (ld_default_queue s) (ld_activity_queues s) in
  encoded ← encode_invocation i;
  let k := (ld_instance s, o) in
  sql_ints [o];;
  match dget k (db_cancellations db) with
  | Some c =>
      raise_if (negb (bool_decide (cr_invocation c = encoded))) publication_conflict;;
      Ok (publish o s, db)
  | None =>
      now ← clock;
      let db := if dmem k (db_tasks db) then db
                else set_tasks (dset k (new_task queue encoded now) (db_tasks db)) db in
      row ← or_raise (dget k (db_tasks db)) publication_conflict;
      raise_if (negb (bool_decide (tk_invocation row = encoded))) publication_conflict;;
      let db := if negb (dmem k (db_terminals db)) && negb (bool_decide (tk_queue row = queue)) && movable row now
                then update_task k (with_queue queue) db else db in
      Ok (publish o s, db)
  end.

(** [LocalDispatch.cancel] *)
Definition local_cancel (c : CancellationInstruction) (s : LocalDispatch) (db : DB)
    : result (CancellationDisposition * LocalDispatch * DB) :=
  encoded ← encode_invocation (ci_invocation c);
  let k := (ld_instance s, ci_occurrence c) in
  sql_ints [ci_occurrence c; ci_position c];;
  let inserted := negb (dmem k (db_cancellations db)) in
  let db := if inserted
            then set_cancellations (dset k (MkCancelRow (ci_position c) encoded) (db_cancellations db)) db
            else db in
  row ← or_raise (dget k (db_cancellations db)) cancellation_conflict;
  raise_if (negb (bool_decide (cr_position row = ci_position c)) || negb (bool_decide (cr_invocation row = encoded)))
    cancellation_conflict;;
  let task := dget k (db_tasks db) in
  raise_if (match task with Some t => negb (bool_decide (tk_invocation t = encoded)) | None => false end)
    cancellation_conflict;;
  let disposition :=
    if negb inserted then C_ACKNOWLEDGED
    else if dmem k (db_terminals db) then TERMINAL
    else match task with
         | None => TOMBSTONED
         | Some t => if tk_epoch t =? 0 then RETIRED else FENCED
         end in
  Ok (disposition, publish (ci_occurrence c) s, db).

(** [_decode_outcome] *)
Definition decode_failure (d : dict string Data) : result ActivityFailure :=
  let bad := TypeError "ActivityFailure fields" in
  if exact_fields d ["error"; "kind"; "details"; "retryable"; "retry_after"] then
    error ← or_raise (dget "error" d ≫= data_str) bad;
    kind ← or_raise (dget "kind" d ≫= data_str) bad;
    details ← or_raise (dget "details" d) bad;
    retryable ← or_raise (match dget "retryable" d with Some (DBool b) => Some b | _ => None end) bad;
    retry_after ← or_raise (dget "retry_after" d ≫= data_opt_num) bad;
    ActivityFailure_new error kind details retryable retry_after
  else Err bad.

Definition decode_outcome (x : Data) : result Terminal :=
  match x with
  | DDict d =>
      kind ← or_raise (dget "kind" d) (KeyError "kind");
      if bool_decide (kind = DStr "completed")
      then TResult <$> or_raise (dget "value" d) (KeyError "value")
      else TFailure <$>
           match dget "failure" d with
           | Some (DDict f) => decode_failure f
           | Some _ => Err (TypeError "failure")
           | None =>
               error ← or_raise (dget "error" d) (KeyError "error");
               error ← or_raise (data_str error) (ValueError "ActivityFailure error must be a non-empty string");
               failure_of_text error
           end
  | _ => Err (TypeError "outcome")
  end.

(** Terminals of this session's published, uncollected occurrences, in sequence. *)
Definition eligible (s : LocalDispatch) : gset Z := ld_published s ∖ ld_collected s.

Definition ready_rows (s : LocalDispatch) (db : DB) : list (Key * TerminalRow) :=
  filter (λ kr : Key * TerminalRow, kr.1.1 = ld_instance s ∧ kr.1.2 ∈ eligible s) (db_terminals db).

(** [LocalDispatch.collect]: the rows are marked before they are decoded. *)
Definition local_collect (s : LocalDispatch) (db : DB) : result (list Arrival) * LocalDispatch :=
  if bool_decide (eligible s = ∅) then (Ok [], s)
  else
    let rows := ready_rows s db in
    let s' := MkLocal (ld_instance s) (ld_default_queue s) (ld_activity_queues s) (ld_published s)
                (list_to_set (snd ∘ fst <$> rows) ∪ ld_collected s) in
    (mapR (λ kr : Key * TerminalRow, v ← decode_outcome (tr_outcome kr.2); Ok (kr.1.2, v)) rows, s').

(** [LocalDispatch._terminal_ready] *)
Definition terminal_ready (s : LocalDispatch) (db : DB) : bool := negb (bool_decide (ready_rows s db = [])).

(** [LocalDispatch.wait_for_results]: one look per state the polling loop sees
    before its deadline. *)
Definition wait_for_results (s : LocalDispatch) (seen : list DB) : bool := existsb (terminal_ready s) seen.

(** ** The worker side *)

Record LocalWorkerDispatch := MkWorker { lw_queues : list string; lw_claimant : string }.

(** [LocalWorkerDispatch.__init__]; [fresh] is the random claimant it derives. *)
Definition LocalWorkerDispatch_init (queues : list string) (label claimant : option string) (fresh : string)
    : result LocalWorkerDispatch :=
  queues ← mapR local_name queues;
  let queues := dkeys (dict_of_list ((λ q, (q, tt)) <$> queues)) in
  raise_if (bool_decide (queues = [])) (ValueError "Local Worker Dispatch requires at least one queue");;
  label ← (match label with Some l => local_name l | None => Ok "worker" end);
  let chosen := match claimant with Some c => if str_empty c then None else Some c | None => None end in
  Ok (MkWorker queues (default (label +:+ ":" +:+ fresh) chosen)).

Definition open_task (db : DB) (k : Key) : bool :=
  negb (dmem k (db_terminals db)) && negb (dmem k (db_cancellations db)).

Definition expired_lease (t : Task) (now : Z) : bool :=
  match tk_deadline t with Some d => d <=? now | None => false end.

(** [epoch < attempts], false for a NULL extraction. *)
Definition attempts_left (t : Task) : bool :=
  match json_attempts (tk_invocation t) with Some a => tk_epoch t <? a | None => false end.
Definition attempts_spent (t : Task) : bool :=
  match json_attempts (tk_invocation t) with Some a => a <=? tk_epoch t | None => false end.

Definition schedule_over (t : Task) (now : Z) : bool :=
  match json_schedule (tk_invocation t) with
  | Some limit => tk_schedule_start t + sql_milliseconds limit <=? now
  | None => false
  end.

Definition in_queues (queues : list string) (t : Task) : bool := bool_decide (tk_queue t ∈ queues).

Definition retryable_row (now : Z) (queues : list string) (db : DB) (kt : Key * Task) : bool :=
  open_task db kt.1 && in_queues queues kt.2 && (0 <? tk_epoch kt.2) && expired_lease kt.2 now && attempts_left kt.2.

Definition exhausted_row (now : Z) (queues : list string) (db : DB) (kt : Key * Task) : bool :=
  open_task db kt.1 && in_queues queues kt.2
  && (((0 <? tk_epoch kt.2) && expired_lease kt.2 now && attempts_spent kt.2) || schedule_over kt.2 now).

Definition claimable_row (now : Z) (queues : list string) (db : DB) (kt : Key * Task) : bool :=
  open_task db kt.1 && in_queues queues kt.2 && attempts_left kt.2
  && (tk_available_at kt.2 <=? now) && ((tk_epoch kt.2 =? 0) || expired_lease kt.2 now).

(** The backoff of one expired retryable lease, anchored at its expiry. *)
Definition delay_row (P : Platform) (db : DB) (kt : Key * Task) : result DB :=
  i ← decode_invocation (tk_invocation kt.2);
  expiry ← or_raise (tk_deadline kt.2) (TypeError "deadline");
  w ← delay P (retry_policy (inv_policy i)) (tk_epoch kt.2);
  let available := expiry + milliseconds w in
  sql_ints [available];;
  Ok (update_task kt.1 (with_available available) db).

Definition failed_outcome (f : ActivityFailure) : Data := DDict [("kind", DStr "failed"); ("failure", failure_wire f)].

Definition exhausted_text (epoch : Z) : string :=
  "Local Dispatch deadline exhausted after " +:+ pretty epoch +:+ (if epoch =? 1 then " attempt" else " attempts").

(** The terminal of one exhausted task; [INSERT OR IGNORE]. *)
Definition exhaust_row (db : DB) (kt : Key * Task) : result DB :=
  f ← ActivityFailure_new (exhausted_text (tk_epoch kt.2)) "DeadlineExceeded" DNone false None;
  encoded ← encode_json (failed_outcome f);
  if dmem kt.1 (db_terminals db) then Ok db
  else insert_terminal kt.1 (MkTerminalRow (tk_epoch kt.2) (tk_claimant kt.2) encoded) db.

(** [_terminalize_exhausted] *)
Definition terminalize_exhausted (P : Platform) (now : Z) (queues : list string) (db : DB) : result DB :=
  db ← foldM (delay_row P) db (filter (λ kt, retryable_row now queues db kt) (db_tasks db));
  foldM exhaust_row db (filter (λ kt, exhausted_row now queues db kt) (db_tasks db)).

(** The hard limits of an attempt that starts now. *)
Definition hard_limits (p : ExecutionPolicy) (now schedule_start : Z) : list Z :=
  match start_to_close p with Some s => [now + milliseconds s] | None => [] end
  ++ match schedule_to_close p with Some s => [schedule_start + milliseconds s] | None => [] end.

Definition claim_deadline (p : ExecutionPolicy) (now schedule_start : Z) : Z :=
  foldl Z.min (now + heartbeat_timeout p * 1000) (hard_limits p now schedule_start).

(** [LocalWorkerDispatch.claim] *)
Definition local_claim (P : Platform) (clock : result Z) (w : LocalWorkerDispatch) (db : DB)
    : result (option ActivityAttempt * DB) :=
  now ← clock;
  db ← terminalize_exhausted P now (lw_queues w) db;
  match head (filter (λ kt, claimable_row now (lw_queues w) db kt) (db_tasks db)) with
  | None => Ok (None, db)
  | Some (k, t) =>
      i ← decode_invocation (tk_invocation t);
      let p := inv_policy i in
      let epoch := tk_epoch t + 1 in
      let limit := min_opt (hard_limits p now (tk_schedule_start t)) in
      let deadline := claim_deadline p now (tk_schedule_start t) in
      sql_ints ([epoch; deadline; now] ++ match limit with Some l => [l] | None => [] end);;
      details ← snapshot_heartbeat_details P (default DNone (tk_details t));
      Ok (Some (MkAttempt k.1 k.2 epoch (lw_claimant w) (tk_queue t) i details (Some k.1)),
          update_task k (with_claim epoch (lw_claimant w) deadline now limit) db)
  end.

(** ** Reports *)

Definition invalid_identity : exn := ValueError "invalid Local Activity attempt identity".
Definition stale_attempt : exn := ValueError "stale Activity attempt".
Definition terminal_conflict : exn := ValueError "conflicting terminal report for Activity attempt".

(** [_attempt_key] *)
Definition attempt_key (a : ActivityAttempt) : result Key :=
  raise_if (bad_name (at_instance_key a) || (at_occurrence a <? 1)
            || negb (bool_decide (at_instance a = Some (at_instance_key a)))) invalid_identity;;
  sql_ints [at_occurrence a];;
  Ok (at_instance_key a, at_occurrence a).

(** [_active] *)
Definition active (a : ActivityAttempt) (now : Z) (db : DB) : result Task :=
  k ← attempt_key a;
  t ← or_raise (dget k (db_tasks db)) stale_attempt;
  raise_if (dmem k (db_terminals db) || dmem k (db_cancellations db)
            || negb (bool_decide (tk_queue t = at_queue a))) stale_attempt;;
  encoded ← encode_invocation (at_invocation a);
  raise_if (negb (bool_decide (tk_invocation t = encoded))
            || negb (bool_decide (tk_epoch t = at_epoch a))
            || negb (bool_decide (tk_claimant t = Some (at_claimant a)))
            || match tk_deadline t with Some d => d <=? now | None => true end) stale_attempt;;
  Ok t.

(** [_cancelled_attempt] *)
Definition cancelled_attempt (a : ActivityAttempt) (db : DB) : result bool :=
  k ← attempt_key a;
  if negb (dmem k (db_cancellations db)) then Ok false
  else
    encoded ← encode_invocation (at_invocation a);
    raise_if (match dget k (db_tasks db) with
              | Some t => negb (bool_decide (tk_queue t = at_queue a ∧ tk_invocation t = encoded
                                             ∧ tk_epoch t = at_epoch a ∧ tk_claimant t = Some (at_claimant a)))
              | None => true
              end) stale_attempt;;
    Ok true.

(** [_acknowledge_terminal_retry] *)
Definition acknowledge_terminal_retry (a : ActivityAttempt) (outcome : Data) (db : DB) : result bool :=
  k ← attempt_key a;
  match dget k (db_terminals db) with
  | None => Ok false
  | Some r =>
      encoded ← encode_json outcome;
      raise_if (negb (bool_decide (tr_epoch r = at_epoch a ∧ tr_claimant r = Some (at_claimant a)
                                   ∧ tr_outcome r = encoded))) terminal_conflict;;
      Ok true
  end.

(** [LocalWorkerDispatch._insert_terminal] *)
Definition report_terminal (a : ActivityAttempt) (outcome : Data) (db : DB) : result DB :=
  k ← attempt_key a;
  encoded ← encode_json outcome;
  insert_terminal k (MkTerminalRow (at_epoch a) (Some (at_claimant a)) encoded) db.

(** [LocalWorkerDispatch.heartbeat]; [None] omits the details. *)
Definition local_heartbeat (P : Platform) (clock : result Z) (a : ActivityAttempt) (details : option Data) (db : DB)
    : result (Data * DB) :=
  encoded ← (match details with
             | None => Ok None
             | Some x => x ← snapshot_heartbeat_details P x; y ← encode_json x; Ok (Some y)
             end);
  now ← clock;
  t ← active a now db;
  i ← decode_invocation (tk_invocation t);
  k ← attempt_key a;
  let renewed := now + heartbeat_timeout (inv_policy i) * 1000 in
  let deadline := match tk_attempt_deadline t with Some l => Z.min renewed l | None => renewed end in
  sql_ints [deadline];;
  match encoded with
  | None => Ok (default DNone (tk_details t), update_task k (with_deadline deadline) db)
  | Some y => Ok (y, update_task k (with_details y ∘ with_deadline deadline) db)
  end.

(** [LocalWorkerDispatch._terminal] *)
Definition local_terminal (clock : result Z) (a : ActivityAttempt) (outcome : Data) (db : DB) : result DB :=
  acknowledged ← acknowledge_terminal_retry a outcome db;
  if (acknowledged : bool) then Ok db
  else
    fenced ← cancelled_attempt a db;
    if (fenced : bool) then report_terminal a outcome db
    else
      now ← clock;
      active a now db;;
      report_terminal a outcome db.

(** [LocalWorkerDispatch.complete] *)
Definition local_complete (clock : result Z) (a : ActivityAttempt) (value : Data) (db : DB) : result DB :=
  faithful ← encode_json value;
  local_terminal clock a (DDict [("kind", DStr "completed"); ("value", faithful)]) db.

(** What a worker reports as the error. *)
Inductive ReportedError :=
| ErrText (s : string)
| ErrException (repr kind : string)
| ErrFailure (f : ActivityFailure).

Definition reported_failure (e : ReportedError) : result ActivityFailure :=
  match e with
  | ErrText s => ActivityFailure_new s "ActivityError" DNone false None
  | ErrException r k => ActivityFailure_new r k DNone true None
  | ErrFailure f => Ok f
  end.

Definition legacy_retryable (e : ReportedError) : bool := match e with ErrText _ => true | _ => false end.

(** The delay before the next attempt: the policy's backoff, floored by what
    the failure asks for. *)
Definition retry_wait (P : Platform) (a : ActivityAttempt) (f : ActivityFailure) : result Number :=
  d ← delay P (retry_policy (inv_policy (at_invocation a))) (at_epoch a);
  Ok (num_max d (default (NInt 0) (f_retry_after f))).

(** [LocalWorkerDispatch.fail] *)
Definition local_fail (P : Platform) (clock : result Z) (a : ActivityAttempt) (e : ReportedError) (db : DB)
    : result DB :=
  f ← reported_failure e;
  let outcome := failed_outcome f in
  acknowledged ← acknowledge_terminal_retry a outcome db;
  if (acknowledged : bool) then Ok db
  else
    fenced ← cancelled_attempt a db;
    if (fenced : bool) then report_terminal a outcome db
    else
      now ← clock;
      t ← active a now db;
      k ← attempt_key a;
      budget ← or_raise (json_attempts (tk_invocation t)) (TypeError "attempts");
      w ← retry_wait P a f;
      let available := now + milliseconds w in
      let in_schedule := match schedule_to_close (inv_policy (at_invocation a)) with
                         | None => true
                         | Some s => available <? tk_schedule_start t + milliseconds s
                         end in
      if (f_retryable f || legacy_retryable e) && (at_epoch a <? budget) && in_schedule
      then sql_ints [now; available];; Ok (update_task k (with_available available ∘ with_deadline now) db)
      else report_terminal a outcome db.

(** [LocalWorkerDispatch.wait]: a sweep and a look at each clock reading of the
    polling loop, until something is claimable. *)
Fixpoint local_wait (P : Platform) (readings : list (result Z)) (w : LocalWorkerDispatch) (db : DB)
    : result (bool * DB) :=
  match readings with
  | [] => Ok (false, db)
  | clock :: readings =>
      now ← clock;
      db ← terminalize_exhausted P now (lw_queues w) db;
      if existsb (λ kt, claimable_row now (lw_queues w) db kt) (db_tasks db) then Ok (true, db)
      else local_wait P readings w db
  end.

(** ** The durable spelling of an invocation

    [_encode_invocation] and [_decode_invocation] of
    src/src/petrus/motus/dispatch/local.py are inverse on stored text: an
    accepted invocation decodes to an equal one, which encodes to the very same
    text, so a worker's report is recognised by comparing texts. Outcomes
    likewise decode to what was reported. *)

(** *** Floats in lowest terms *)

Lemma strip_twos_value p e q f : strip_twos p e = (q, f) → e ≤ f ∧ Z.pos p = Z.pos q * 2 ^ (f - e).
Proof.
  revert e. induction p as [p IH|p IH|]; intros e; simpl.
  - intros [= <- <-]. by rewrite Z.sub_diag, Z.mul_1_r.
  - intros H%IH. destruct H as [Hle Hv]. split; [lia|].
    replace (f - e) with (1 + (f - (e + 1))) by lia. rewrite Z.pow_add_r by lia. lia.
  - intros [= <- <-]. by rewrite Z.sub_diag.
Qed.

Lemma float_norm_value m e m' e' : float_norm m e = (m', e') → m ≠ 0 → e ≤ e' ∧ m = m' * 2 ^ (e' - e).
Proof.
  unfold float_norm. destruct m as [|p|p]; [done| |]; destruct (strip_twos p e) as [q f] eqn:E;
    apply strip_twos_value in E as [Hle Hv]; intros [= <- <-] _; split; lia.
Qed.

Definition num_text (x : Number) : Number :=
  match x with NInt z => NInt z | NFloat m e => let '(m, e) := float_norm m e in NFloat m e end.

Lemma compare_scale a b p : 0 < p → (a * p ?= b * p) = (a ?= b).
Proof. intros Hp. destruct (Z.compare_spec a b), (Z.compare_spec (a * p) (b * p)); done || nia. Qed.

Lemma num_text_compare x c : num_compare (num_text x) c = num_compare x c.
Proof.
  destruct x as [z|m e]; [done|]. simpl. destruct (float_norm m e) as [m' e'] eqn:E.
  destruct (Z.eq_dec m 0) as [->|Hm].
  { injection E as <- <-. unfold num_compare. simpl. destruct (0 <=? e) eqn:He; [done|].
    apply Z.leb_gt in He. symmetry. apply (compare_scale 0 c (2 ^ (- e))), Z.pow_pos_nonneg; lia. }
  apply float_norm_value in E as [Hle Hv]; [|done]. unfold num_compare.
  assert (0 < 2 ^ (e' - e)) by (apply Z.pow_pos_nonneg; lia).
  destruct (0 <=? e) eqn:H1, (0 <=? e') eqn:H2; rewrite ?Z.leb_le, ?Z.leb_gt in H1, H2; try lia.
  - rewrite Hv, <-Z.mul_assoc, <-Z.pow_add_r by lia. by replace (e' - e + e) with e' by lia.
  - rewrite Hv. replace (e' - e) with (e' + - e) by lia. rewrite Z.pow_add_r by lia.
    rewrite Z.mul_assoc, compare_scale; [done|]. apply Z.pow_pos_nonneg; lia.
  - rewrite Hv. replace (- e) with (- e' + (e' - e)) by lia. rewrite Z.pow_add_r by lia.
    by rewrite Z.mul_assoc, compare_scale.
Qed.

Lemma num_text_lt x c : num_lt (num_text x) c = num_lt x c.
Proof. unfold num_lt. by rewrite num_text_compare. Qed.
Lemma num_text_gt x c : num_gt (num_text x) c = num_gt x c.
Proof. unfold num_gt. by rewrite num_text_compare. Qed.
Lemma num_text_eq x c : num_eq (num_text x) c = num_eq x c.
Proof. unfold num_eq. by rewrite num_text_compare. Qed.

Lemma num_text_norm x : num_norm (num_text x) = num_norm x.
Proof.
  destruct x as [z|m e]; [done|]. simpl. destruct (float_norm m e) as [m' e'] eqn:E. simpl.
  by rewrite (float_norm_idem _ _ _ _ E).
Qed.

Lemma num_data_text x : canonical_payload_text (num_data x) = num_data (num_text x).
Proof. destruct x as [z|m e]; [done|]. simpl. by destruct (float_norm m e). Qed.

Lemma num_data_shape x : canonical_json_shape (num_data x) = true.
Proof. by destruct x. Qed.

Lemma data_num_data x : data_num (num_data x) = Some x.
Proof. by destruct x. Qed.

(** *** Texts *)

(** A value a JSON column can hold: what [_encode_json] produces. *)
Definition is_text (x : Data) : Prop := canonical_json_shape x = true ∧ canonical_payload_text x = x.

Lemma encode_json_text x y : encode_json x = Ok y → is_text y.
Proof.
  unfold encode_json. intros H. inv_ok. match goal with H : canonical_payload _ = _ |- _ => rename H into Hc end.
  split; [|apply canonical_text_idem]. by eapply canonical_text_shape, canonical_payload_shape.
Qed.

Lemma encode_json_is_text x : is_text x → encode_json x = Ok x.
Proof. intros [H1 H2]. unfold encode_json. rewrite canonical_payload_id by done. simpl. by rewrite H2. Qed.

Lemma encode_json_shape x : canonical_json_shape x = true → encode_json x = Ok (canonical_payload_text x).
Proof. intros H. unfold encode_json. by rewrite canonical_payload_id. Qed.

(** *** Invocations *)

Definition policy_text (p : ExecutionPolicy) : ExecutionPolicy :=
  MkPolicy (attempts p) (heartbeat_timeout p) (num_text (initial_interval p)) (num_text (coefficient p))
    (num_text (max_interval p)) (num_text (jitter p)) (num_text <$> start_to_close p)
    (num_text <$> schedule_to_close p).

Definition invocation_text (i : ActivityInvocation) (input : Data) : ActivityInvocation :=
  MkInvocation (inv_activity i) (canonical_payload_text input) (policy_text (inv_policy i))
    (inv_correlation i) (inv_idempotency i).

(** The stored tree of an invocation whose JSON input is [input]. *)
Definition sorted_policy (p : ExecutionPolicy) : Data :=
  DDict [("attempts", DInt (attempts p)); ("coefficient", num_data (coefficient p));
         ("heartbeat_timeout", DInt (heartbeat_timeout p)); ("initial_interval", num_data (initial_interval p));
         ("jitter", num_data (jitter p)); ("max_interval", num_data (max_interval p));
         ("schedule_to_close", opt_num_data (schedule_to_close p));
         ("start_to_close", opt_num_data (start_to_close p))].

Definition sorted_wire (i : ActivityInvocation) : Data :=
  DDict [("activity", DStr (inv_activity i)); ("correlation", opt_str_data (inv_correlation i));
         ("idempotency", opt_str_data (inv_idempotency i)); ("input", inv_input i);
         ("policy", sorted_policy (inv_policy i))].

Lemma opt_num_text x : canonical_payload_text (opt_num_data x) = opt_num_data (num_text <$> x).
Proof. destruct x; [apply num_data_text|done]. Qed.
Lemma opt_str_text x : canonical_payload_text (opt_str_data x) = opt_str_data x.
Proof. by destruct x. Qed.

Lemma policy_wire_text p : canonical_payload_text (policy_wire p) = sorted_policy (policy_text p).
Proof.
  cbn -[num_data opt_num_data canonical_payload_text].
  change (DDict (sorted_by key_leb
    [("attempts", DInt (attempts p)); ("heartbeat_timeout", DInt (heartbeat_timeout p));
     ("initial_interval", canonical_payload_text (num_data (initial_interval p)));
     ("coefficient", canonical_payload_text (num_data (coefficient p)));
     ("max_interval", canonical_payload_text (num_data (max_interval p)));
     ("jitter", canonical_payload_text (num_data (jitter p)));
     ("start_to_close", canonical_payload_text (opt_num_data (start_to_close p)));
     ("schedule_to_close", canonical_payload_text (opt_num_data (schedule_to_close p)))])
    = sorted_policy (policy_text p)).
  rewrite !num_data_text, !opt_num_text. reflexivity.
Qed.

Lemma policy_wire_shape p : canonical_json_shape (policy_wire p) = true.
Proof.
  cbn -[num_data opt_num_data]. rewrite !num_data_shape. destruct (start_to_close p), (schedule_to_close p);
    simpl; by rewrite ?num_data_shape.
Qed.

Lemma wire_payload i w :
  canonical_payload (invocation_wire i) = Ok w ↔
  ∃ input, canonical_payload (inv_input i) = Ok input ∧
    w = invocation_wire (MkInvocation (inv_activity i) input (inv_policy i) (inv_correlation i) (inv_idempotency i)).
Proof.
  unfold invocation_wire. cbn -[policy_wire opt_str_data].
  assert (Hs : ∀ x, canonical_payload (opt_str_data x) = Ok (opt_str_data x)) by by intros [].
  rewrite !Hs, (canonical_payload_id (policy_wire _)) by apply policy_wire_shape.
  destruct (canonical_payload (inv_input i)); simpl; naive_solver.
Qed.

Lemma wire_text i : canonical_payload_text (invocation_wire i) = sorted_wire (invocation_text i (inv_input i)).
Proof.
  change (DDict (sorted_by key_leb
    [("activity", DStr (inv_activity i)); ("input", canonical_payload_text (inv_input i));
     ("policy", canonical_payload_text (policy_wire (inv_policy i)));
     ("correlation", canonical_payload_text (opt_str_data (inv_correlation i)));
     ("idempotency", canonical_payload_text (opt_str_data (inv_idempotency i)))])
    = sorted_wire (invocation_text i (inv_input i))).
  rewrite policy_wire_text, !opt_str_text. reflexivity.
Qed.

Lemma encode_invocation_Ok i t :
  encode_invocation i = Ok t ↔
  ∃ input, canonical_payload (inv_input i) = Ok input ∧ t = sorted_wire (invocation_text i input).
Proof.
  unfold encode_invocation, encode_json. rewrite bind_Ok. setoid_rewrite wire_payload. split.
  - intros (w & (input & Hin & ->) & H). rewrite wire_text in H. simplify_eq. by exists input.
  - intros (input & Hin & ->). eexists. split; [by exists input|]. by rewrite wire_text.
Qed.

Lemma data_opt_num_data x : data_opt_num (opt_num_data x) = Some x.
Proof. destruct x as [[]|]; done. Qed.
Lemma data_opt_str_data x : data_opt_str (opt_str_data x) = Some x.
Proof. by destruct x. Qed.

Lemma decode_sorted_policy p :
  (match sorted_policy p with DDict d => decode_policy d | _ => None end) = Some p.
Proof.
  unfold sorted_policy, decode_policy.
  lazy -[data_num data_opt_num num_data opt_num_data].
  do 4 (rewrite data_num_data; lazy -[data_num data_opt_num num_data opt_num_data]).
  do 2 (rewrite data_opt_num_data; lazy -[data_num data_opt_num num_data opt_num_data]).
  by destruct p.
Qed.

Lemma decode_sorted_wire i : decode_fields (sorted_wire i) = Some i.
Proof.
  unfold sorted_wire, decode_fields.
  pose proof (decode_sorted_policy (inv_policy i)) as Hp. destruct (sorted_policy (inv_policy i)) as [| | | | | | |d|]; try done.
  lazy -[decode_policy opt_str_data data_opt_str]. rewrite Hp.
  do 2 (rewrite data_opt_str_data; lazy -[decode_policy opt_str_data data_opt_str]). by destruct i.
Qed.

Lemma policy_text_valid p : ExecutionPolicy_post_init (policy_text p) = ExecutionPolicy_post_init p.
Proof.
  unfold ExecutionPolicy_post_init, RetryPolicy_post_init, policy_text, retry_policy, forM_. cbn -[MAX_DURATION_SECONDS].
  rewrite ?num_text_lt, ?num_text_gt, ?num_text_eq.
  destruct (start_to_close p), (schedule_to_close p); cbn -[MAX_DURATION_SECONDS]; by rewrite ?num_text_gt.
Qed.

(** An invocation a constructor accepts. *)
Definition valid_invocation (i : ActivityInvocation) : Prop :=
  ExecutionPolicy_post_init (inv_policy i) = Ok tt ∧ ActivityInvocation_post_init i = Ok tt.

Lemma decode_invocation_Ok x i : decode_invocation x = Ok i ↔ decode_fields x = Some i ∧ valid_invocation i.
Proof.
  unfold decode_invocation, valid_invocation. destruct (decode_fields x) as [j|]; simpl; [|naive_solver].
  destruct (ExecutionPolicy_post_init (inv_policy j)) as [[]|] eqn:E1; simpl;
  destruct (ActivityInvocation_post_init j) as [[]|] eqn:E2; simpl;
    (split; [intros H; simplify_eq; by rewrite ?E1, ?E2|intros (H & H1 & H2); simplify_eq; congruence]).
Qed.

(** A stored invocation: the text of a valid invocation. *)
Definition stored_invocation (x : Data) (i : ActivityInvocation) : Prop :=
  decode_invocation x = Ok i ∧ encode_invocation i = Ok x.

Lemma policy_text_idem p : policy_text (policy_text p) = policy_text p.
Proof.
  assert (H : ∀ x, num_text (num_text x) = num_text x).
  { intros [z|m e]; [done|]. simpl. destruct (float_norm m e) eqn:E. simpl. by rewrite (float_norm_idem _ _ _ _ E). }
  unfold policy_text. simpl. rewrite !H. destruct (start_to_close p), (schedule_to_close p); simpl; by rewrite ?H.
Qed.


Lemma encode_stored i t : valid_invocation i → encode_invocation i = Ok t →
  ∃ j, stored_invocation t j ∧ policy_norm (inv_policy j) = policy_norm (inv_policy i) ∧
       attempts (inv_policy j) = attempts (inv_policy i).
Proof.
  intros [Hp Hi] (input & Hin & ->)%encode_invocation_Ok. exists (invocation_text i input).
  apply canonical_payload_shape in Hin as Hs. split; [split|split].
  - apply decode_invocation_Ok. split; [apply decode_sorted_wire|]. split; [simpl; by rewrite policy_text_valid|done].
  - apply encode_invocation_Ok. exists (canonical_payload_text input). split.
    + by apply canonical_payload_id, canonical_text_shape.
    + unfold invocation_text. simpl. by rewrite policy_text_idem, canonical_text_idem.
  - unfold policy_norm. simpl. rewrite !num_text_norm.
    destruct (start_to_close (inv_policy i)), (schedule_to_close (inv_policy i)); simpl; by rewrite ?num_text_norm.
  - done.
Qed.

(** What SQL reads from a stored invocation is the policy's. *)
Lemma stored_sorted x i : stored_invocation x i → ∃ input, x = sorted_wire (invocation_text i input).
Proof. intros [_ (input & _ & ->)%encode_invocation_Ok]. eauto. Qed.

Lemma stored_attempts x i : stored_invocation x i → json_attempts x = Some (attempts (inv_policy i)).
Proof. intros (input & ->)%stored_sorted. reflexivity. Qed.

Lemma stored_text_policy x i : stored_invocation x i → policy_text (inv_policy i) = inv_policy i.
Proof.
  intros [Hd He]. apply encode_invocation_Ok in He as (input & _ & ->).
  apply decode_invocation_Ok in Hd as [Hd _]. rewrite decode_sorted_wire in Hd. injection Hd as Hd.
  by rewrite <-Hd at 2.
Qed.

Lemma stored_schedule x i : stored_invocation x i → json_schedule x = schedule_to_close (inv_policy i).
Proof.
  intros H. pose proof (stored_text_policy _ _ H) as Hp. apply stored_sorted in H as (input & ->).
  change (data_num (opt_num_data (schedule_to_close (policy_text (inv_policy i))))
          = schedule_to_close (inv_policy i)).
  rewrite Hp. by destruct (schedule_to_close (inv_policy i)) as [[]|].
Qed.

Lemma stored_valid x i : stored_invocation x i → valid_invocation i.
Proof. intros [[_ H]%decode_invocation_Ok _]. done. Qed.

Lemma stored_fun x i j : stored_invocation x i → stored_invocation x j → i = j.
Proof. intros [Hi _] [Hj _]. congruence. Qed.

(** *** Outcomes *)

Definition failure_text (f : ActivityFailure) : ActivityFailure :=
  MkFailure (f_error f) (f_kind f) (canonical_payload_text (f_details f)) (f_retryable f)
    (num_text <$> f_retry_after f).

Lemma valid_failure_shape f : valid_failure f → canonical_json_shape (f_details f) = true.
Proof.
  unfold valid_failure, ActivityFailure_new. intros H. inv_ok.
  match goal with H : canonical_payload _ = _ |- _ => apply canonical_payload_shape in H end. by destruct f; simplify_eq/=.
Qed.

Lemma failure_text_valid f : valid_failure f →
  ActivityFailure_new (f_error f) (f_kind f) (canonical_payload_text (f_details f)) (f_retryable f)
    (num_text <$> f_retry_after f) = Ok (failure_text f).
Proof.
  intros Hv. pose proof (valid_failure_shape f Hv) as Hs. unfold valid_failure, ActivityFailure_new in *.
  apply bind_Ok in Hv as ([] & H1 & Hv). apply bind_Ok in Hv as ([] & H2 & Hv). apply bind_Ok in Hv as ([] & H3 & _).
  rewrite H1. simpl. rewrite H2. simpl.
  assert (H : match num_text <$> f_retry_after f with
          | Some r => raise_if (num_lt r 0) (ValueError "ActivityFailure retry_after must be a non-negative number or None");;
                      raise_if (num_gt r MAX_DURATION_SECONDS) (ValueError "ActivityFailure retry_after must be at most 1000000000 seconds")
          | None => Ok tt end = Ok tt).
  { destruct (f_retry_after f); simpl; [|done]. by rewrite num_text_lt, num_text_gt. }
  rewrite H. simpl. by rewrite canonical_payload_id by by apply canonical_text_shape.
Qed.

(** The stored tree of a failure. *)
Definition sorted_failure (f : ActivityFailure) : Data :=
  DDict [("failure", DDict [("details", f_details f); ("error", DStr (f_error f)); ("kind", DStr (f_kind f));
                            ("retry_after", opt_num_data (f_retry_after f)); ("retryable", DBool (f_retryable f))]);
         ("kind", DStr "failed")].

Lemma failed_outcome_shape f : valid_failure f → canonical_json_shape (failed_outcome f) = true.
Proof.
  intros Hv%valid_failure_shape. cbn -[num_data]. rewrite Hv. by destruct (f_retry_after f) as [[]|].
Qed.

Lemma failed_outcome_text f : canonical_payload_text (failed_outcome f) = sorted_failure (failure_text f).
Proof.
  change (failed_outcome f) with (DDict [("kind", DStr "failed"); ("failure", DDict [("error", DStr (f_error f));
    ("kind", DStr (f_kind f)); ("details", f_details f); ("retryable", DBool (f_retryable f));
    ("retry_after", opt_num_data (f_retry_after f))])]).
  change (DDict [("failure", DDict [("details", canonical_payload_text (f_details f)); ("error", DStr (f_error f));
     ("kind", DStr (f_kind f)); ("retry_after", canonical_payload_text (opt_num_data (f_retry_after f)));
     ("retryable", DBool (f_retryable f))]); ("kind", DStr "failed")] = sorted_failure (failure_text f)).
  by rewrite opt_num_text.
Qed.

Lemma encode_failed f : valid_failure f → encode_json (failed_outcome f) = Ok (sorted_failure (failure_text f)).
Proof. intros H. rewrite encode_json_shape by by apply failed_outcome_shape. by rewrite failed_outcome_text. Qed.

Lemma decode_failed f : valid_failure f →
  decode_outcome (sorted_failure (failure_text f)) = Ok (TFailure (failure_text f)).
Proof.
  intros Hv. unfold decode_outcome, sorted_failure. lazy -[decode_failure opt_num_data f_details f_error f_kind f_retry_after f_retryable failure_text].
  assert (decode_failure [("details", f_details (failure_text f)); ("error", DStr (f_error (failure_text f)));
            ("kind", DStr (f_kind (failure_text f))); ("retry_after", opt_num_data (f_retry_after (failure_text f)));
            ("retryable", DBool (f_retryable (failure_text f)))] = Ok (failure_text f)) as ->; [|done].
  etrans; [|exact (failure_text_valid f Hv)]. unfold decode_failure. change (exact_fields _ _) with true. cbv iota.
  change (dget "retry_after" _) with (Some (opt_num_data (num_text <$> f_retry_after f))). cbn -[opt_num_data data_opt_num ActivityFailure_new].
  rewrite data_opt_num_data. done.
Qed.

Definition completed_outcome (x : Data) : Data := DDict [("kind", DStr "completed"); ("value", x)].

Lemma encode_completed x : is_text x → encode_json (completed_outcome x) = Ok (completed_outcome x).
Proof.
  intros [Hs Ht]. rewrite encode_json_shape by (simpl; by rewrite Hs).
  change (Ok (DDict [("kind", DStr "completed"); ("value", canonical_payload_text x)]) = Ok (completed_outcome x)).
  by rewrite Ht.
Qed.

Lemma decode_completed x : decode_outcome (completed_outcome x) = Ok (TResult x).
Proof. reflexivity. Qed.
