(* ===== verification/LocalInvariant.v ===== *)
(** * The invariant of the custody database

    What SQLite's constraints and the operations of LocalDispatch keep between
    transactions, and what a deadline sweep does to each row. *)

From stdpp Require Import base gmap sets list strings.
From Stdlib Require Import ZArith Lia.
From S2P Require Import Prelude PyData Activity Lifecycle Instance Dispatch LocalDispatch.
Open Scope string_scope.
Open Scope list_scope.
Open Scope Z_scope.

(** ** Row invariants *)

Definition int64 (z : Z) : Prop := - 2 ^ 63 ≤ z ≤ 2 ^ 63 - 1.

Lemma sql_ints_Ok l u : sql_ints l = Ok u ↔ Forall int64 l.
Proof.
  unfold sql_ints. rewrite raise_if_Ok. unfold int64. induction l as [|z l IH]; [done|]. simpl. rewrite Forall_cons, orb_false_iff, IH.
  rewrite negb_false_iff, andb_true_iff, !Z.leb_le. done.
Qed.

Definition good_key (k : Key) : Prop := bad_name k.1 = false ∧ 1 ≤ k.2 ∧ int64 k.2.

(** A task that nobody holds, or the lease of a claimant. *)
Definition unclaimed (t : Task) : Prop := tk_epoch t = 0 ∧ tk_claimant t = None ∧ tk_deadline t = None.
Definition leased (t : Task) (c : string) (d : Z) : Prop :=
  0 < tk_epoch t ∧ tk_claimant t = Some c ∧ tk_deadline t = Some d.

Record task_ok (t : Task) : Prop := {
  to_stored : ∃ i, stored_invocation (tk_invocation t) i ∧ tk_epoch t ≤ attempts (inv_policy i) ∧
    (∀ s, schedule_to_close (inv_policy i) = Some s → 0 < tk_epoch t →
       ∃ l, tk_attempt_deadline t = Some l ∧ l ≤ tk_schedule_start t + milliseconds s);
  to_lease : unclaimed t ∨ ∃ c d, leased t c d;
  to_limit l d : tk_attempt_deadline t = Some l → tk_deadline t = Some d → d ≤ l
}.

Definition row_ok (db : DB) (k : Key) (r : TerminalRow) : Prop :=
  (∃ t, dget k (db_tasks db) = Some t ∧ tr_epoch r ≤ tk_epoch t) ∧
  ∃ v, decode_outcome (tr_outcome r) = Ok v.

Record db_ok (db : DB) : Prop := {
  ok_tasks : NoDup (dkeys (db_tasks db));
  ok_terminals : NoDup (dkeys (db_terminals db));
  ok_cancellations : NoDup (dkeys (db_cancellations db));
  ok_task k t : dget k (db_tasks db) = Some t → good_key k ∧ task_ok t;
  ok_row k r : dget k (db_terminals db) = Some r → row_ok db k r;
  ok_fence k c t : dget k (db_cancellations db) = Some c → dget k (db_tasks db) = Some t →
    cr_invocation c = tk_invocation t
}.

Lemma db_empty_ok : db_ok db_empty.
Proof. split; try apply NoDup_nil_2; done. Qed.

(** ** Updating one task *)

Lemma update_task_tasks k f db k' :
  dget k' (db_tasks (update_task k f db)) =
  if decide (k' = k) then f <$> dget k (db_tasks db) else dget k' (db_tasks db).
Proof.
  unfold update_task. destruct (dget k (db_tasks db)) as [t|] eqn:E; simpl.
  - rewrite dget_dset. case_decide; by subst.
  - case_decide; by subst.
Qed.

Lemma update_task_terminals k f db : db_terminals (update_task k f db) = db_terminals db.
Proof. unfold update_task. by case_match. Qed.
Lemma update_task_cancellations k f db : db_cancellations (update_task k f db) = db_cancellations db.
Proof. unfold update_task. by case_match. Qed.
Lemma update_task_keys k f db : dkeys (db_tasks (update_task k f db)) = dkeys (db_tasks db).
Proof.
  unfold update_task. case_match; simpl; [|done]. apply dkeys_dset_in. apply dget_is_Some. eauto.
Qed.

(** An update that keeps the row invariant, the epoch from going back and the
    invocation keeps the database invariant. *)
Lemma update_task_ok k f db :
  db_ok db →
  (∀ t, dget k (db_tasks db) = Some t → task_ok (f t) ∧ tk_epoch t ≤ tk_epoch (f t) ∧ tk_invocation (f t) = tk_invocation t) →
  db_ok (update_task k f db).
Proof.
  intros Hok Hf. split; rewrite ?update_task_keys, ?update_task_terminals, ?update_task_cancellations; try apply Hok.
  - intros k' t. rewrite update_task_tasks. case_decide as E; [subst|by apply Hok].
    intros (t0 & Ht & ->)%fmap_Some. split; [by eapply Hok|]. by apply Hf.
  - intros k' r Hr. destruct (ok_row _ Hok _ _ Hr) as [(t & Ht & He) Hd]. split; [|done].
    rewrite update_task_tasks. case_decide as E; [subst k'|by exists t].
    rewrite Ht. exists (f t). split; [done|]. destruct (Hf _ Ht) as (_ & ? & _). lia.
  - intros k' c t Hc. rewrite update_task_tasks. case_decide as E; [subst k'|by apply Hok].
    intros (t0 & Ht & ->)%fmap_Some. destruct (Hf _ Ht) as (_ & _ & ->). by eapply Hok.
Qed.

(** ** Inserting a terminal *)

Lemma insert_terminal_Ok k r db db' : insert_terminal k r db = Ok db' →
  dget k (db_terminals db) = None ∧ is_Some (dget k (db_tasks db)) ∧
  db' = set_terminals (dset k r (db_terminals db)) db.
Proof.
  unfold insert_terminal. intros H. inv_ok. rewrite negb_false_iff, dmem_true in *.
  match goal with H : dmem k (db_terminals _) = false |- _ => apply dmem_false in H end.
  split; [done|]. split; [by apply dget_is_Some|done].
Qed.

Lemma insert_terminal_ok k r db db' t :
  db_ok db → insert_terminal k r db = Ok db' → dget k (db_tasks db) = Some t → tr_epoch r ≤ tk_epoch t →
  (∃ v, decode_outcome (tr_outcome r) = Ok v) → db_ok db'.
Proof.
  intros Hok (Hnone & _ & ->)%insert_terminal_Ok Ht He Hd. split; simpl; try apply Hok.
  - apply NoDup_dkeys_dset, Hok.
  - intros k' r'. rewrite dget_dset. case_decide as E; [subst k'|].
    + intros [= <-]. split; [by exists t|done].
    + apply Hok.
Qed.

(** ** The sweep *)

(** The instant from which an expired lease may be claimed again. *)
Definition backoff (P : Platform) (t : Task) : result Z :=
  i ← decode_invocation (tk_invocation t);
  expiry ← or_raise (tk_deadline t) (TypeError "deadline");
  w ← delay P (retry_policy (inv_policy i)) (tk_epoch t);
  Ok (expiry + milliseconds w).

Lemma delay_row_Ok P db k t db' : delay_row P db (k, t) = Ok db' →
  ∃ a, backoff P t = Ok a ∧ db' = update_task k (with_available a) db.
Proof.
  unfold delay_row, backoff. simpl. intros H. inv_ok.
  repeat match goal with H : ?x = _ |- context [?x] => rewrite H; simpl end. eauto.
Qed.

Lemma foldM_delay P (l : dict Key Task) db db' :
  NoDup (dkeys l) → (∀ k t, dget k l = Some t → dget k (db_tasks db) = Some t) →
  foldM (delay_row P) db l = Ok db' →
  db_terminals db' = db_terminals db ∧ db_cancellations db' = db_cancellations db ∧
  dkeys (db_tasks db') = dkeys (db_tasks db) ∧
  ∀ k, match dget k l with
       | Some t => ∃ a, backoff P t = Ok a ∧ dget k (db_tasks db') = Some (with_available a t)
       | None => dget k (db_tasks db') = dget k (db_tasks db)
       end.
Proof.
  revert db. induction l as [|[k t] l IH]; intros db Hnd Hl H; simpl in H; [inv_ok; done|].
  apply bind_Ok in H as (db1 & H1 & H). apply delay_row_Ok in H1 as (a & Ha & ->).
  apply NoDup_dkeys_cons in Hnd as [Hk Hnd].
  apply IH in H as (E1 & E2 & E3 & E4); [|done|].
  - rewrite update_task_terminals in E1. rewrite update_task_cancellations in E2. rewrite update_task_keys in E3.
    do 3 (split; [done|]). intros k'. specialize (E4 k'). rewrite dget_cons. rewrite update_task_tasks in E4.
    case_decide as E; [subst k'|done]. rewrite Hk in E4. exists a. split; [done|]. rewrite E4.
    rewrite (Hl k t); [done|]. rewrite dget_cons. by rewrite decide_True.
  - intros k' t' Hk'. rewrite update_task_tasks. rewrite decide_False by congruence.
    apply Hl. rewrite dget_cons, decide_False by congruence. done.
Qed.

(** The terminal a sweep records for a task. *)
Definition exhausted_terminal (t : Task) (r : TerminalRow) : Prop :=
  ∃ f, ActivityFailure_new (exhausted_text (tk_epoch t)) "DeadlineExceeded" DNone false None = Ok f ∧
       valid_failure f ∧ r = MkTerminalRow (tk_epoch t) (tk_claimant t) (sorted_failure (failure_text f)).

Lemma exhaust_row_Ok db k t db' : exhaust_row db (k, t) = Ok db' →
  (is_Some (dget k (db_terminals db)) ∧ db' = db) ∨
  (dget k (db_terminals db) = None ∧ is_Some (dget k (db_tasks db)) ∧
   ∃ r, exhausted_terminal t r ∧ db' = set_terminals (dset k r (db_terminals db)) db).
Proof.
  unfold exhaust_row. intros H. apply bind_Ok in H as (f & Hf & H). simpl in *.
  pose proof (ActivityFailure_new_valid _ _ _ _ _ _ Hf) as Hv. rewrite encode_failed in H by done. simpl in H.
  destruct (dmem k (db_terminals db)) eqn:Ek.
  - left. inv_ok. by apply dmem_true, dget_is_Some in Ek.
  - right. apply dmem_false in Ek. apply insert_terminal_Ok in H as (_ & Ht & ->). split; [done|]. split; [done|].
    eexists. split; [|done]. by exists f.
Qed.

Lemma foldM_exhaust (l : dict Key Task) db db' :
  NoDup (dkeys l) → (∀ k t, dget k l = Some t → dget k (db_terminals db) = None) →
  NoDup (dkeys (db_terminals db)) →
  foldM exhaust_row db l = Ok db' →
  db_tasks db' = db_tasks db ∧ db_cancellations db' = db_cancellations db ∧ NoDup (dkeys (db_terminals db')) ∧
  ∀ k, match dget k l with
       | Some t => ∃ r, exhausted_terminal t r ∧ dget k (db_terminals db') = Some r
       | None => dget k (db_terminals db') = dget k (db_terminals db)
       end.
Proof.
  revert db. induction l as [|[k t] l IH]; intros db Hnd Hl Hn H; simpl in H; [inv_ok; done|].
  apply bind_Ok in H as (db1 & H1 & H). apply NoDup_dkeys_cons in Hnd as [Hk Hnd].
  pose proof (Hl k t) as Hkn. rewrite dget_cons, decide_True in Hkn by done. specialize (Hkn eq_refl).
  apply exhaust_row_Ok in H1 as [[[? ?] _]|(_ & _ & r & Hr & ->)]; [congruence|].
  apply IH in H as (E1 & E2 & E3 & E4); simpl in *; [|done| |by apply NoDup_dkeys_dset].
  - do 3 (split; [done|]). intros k'. specialize (E4 k'). rewrite dget_dset in E4.
    case_decide as E; [subst k'|done]. rewrite Hk in E4. by exists r.
  - intros k' t' Hk'. rewrite dget_dset_ne by congruence. apply (Hl k' t').
    rewrite decide_False by congruence. done.
Qed.

Lemma with_available_ok a t : task_ok t → task_ok (with_available a t).
Proof. intros [H1 H2 H3]. by split. Qed.

Lemma exhausted_available now qs db db' k t a :
  db_terminals db' = db_terminals db → db_cancellations db' = db_cancellations db →
  exhausted_row now qs db' (k, with_available a t) = exhausted_row now qs db (k, t).
Proof. intros E1 E2. unfold exhausted_row, open_task. simpl. by rewrite E1, E2. Qed.

Lemma exhausted_same now qs db db' kt :
  db_terminals db' = db_terminals db → db_cancellations db' = db_cancellations db →
  exhausted_row now qs db' kt = exhausted_row now qs db kt.
Proof. intros E1 E2. unfold exhausted_row, open_task. by rewrite E1, E2. Qed.

Lemma exhausted_open now qs db k t : exhausted_row now qs db (k, t) = true → dget k (db_terminals db) = None.
Proof.
  unfold exhausted_row, open_task. simpl. rewrite !andb_true_iff, !negb_true_iff. intros [[[H _] _] _]. by apply dmem_false.
Qed.

Record swept (P : Platform) (now : Z) (qs : list string) (db db' : DB) : Prop := {
  sw_cancellations : db_cancellations db' = db_cancellations db;
  sw_keys : dkeys (db_tasks db') = dkeys (db_tasks db);
  sw_task k t : dget k (db_tasks db) = Some t →
    if retryable_row now qs db (k, t)
    then ∃ a, backoff P t = Ok a ∧ dget k (db_tasks db') = Some (with_available a t)
    else dget k (db_tasks db') = Some t;
  sw_none k : dget k (db_tasks db) = None → dget k (db_tasks db') = None;
  sw_exhausted k t : dget k (db_tasks db) = Some t → exhausted_row now qs db (k, t) = true →
    ∃ r, exhausted_terminal t r ∧ dget k (db_terminals db') = Some r;
  sw_kept k : (∀ t, dget k (db_tasks db) = Some t → exhausted_row now qs db (k, t) = false) →
    dget k (db_terminals db') = dget k (db_terminals db);
  sw_nodup : NoDup (dkeys (db_terminals db'))
}.

Lemma sweep_spec P now qs db db' : db_ok db → terminalize_exhausted P now qs db = Ok db' → swept P now qs db db'.
Proof.
  intros Hok H. unfold terminalize_exhausted in H. apply bind_Ok in H as (db1 & H1 & H2).
  pose proof (ok_tasks _ Hok) as Hnd.
  apply foldM_delay in H1 as (T1 & C1 & K1 & E1); [|by apply NoDup_dkeys_filter|].
  2:{ intros k t. rewrite dget_filter by done. destruct (dget k (db_tasks db)); [|done]. by case_decide. }
  assert (Hnd1 : NoDup (dkeys (db_tasks db1))) by by rewrite K1.
  apply foldM_exhaust in H2 as (T2 & C2 & N2 & E2); [|by apply NoDup_dkeys_filter| |by rewrite T1; apply Hok].
  2:{ intros k t. rewrite dget_filter by done. destruct (dget k (db_tasks db1)); [|done]. case_decide as E; [|done].
      intros [= <-]. apply Is_true_true in E. by eapply exhausted_open. }
  assert (Htask : ∀ k t, dget k (db_tasks db) = Some t →
    if retryable_row now qs db (k, t)
    then ∃ a, backoff P t = Ok a ∧ dget k (db_tasks db1) = Some (with_available a t)
    else dget k (db_tasks db1) = Some t).
  { intros k t Ht. specialize (E1 k). rewrite dget_filter, Ht in E1 by done. case_decide as E.
    - apply Is_true_true in E. by rewrite E.
    - destruct (retryable_row now qs db (k, t)); [by destruct E|]. congruence. }
  assert (Hnone : ∀ k, dget k (db_tasks db) = None → dget k (db_tasks db1) = None).
  { intros k Ht. specialize (E1 k). rewrite dget_filter, Ht in E1 by done. congruence. }
  assert (Hrow : ∀ k t, dget k (db_tasks db) = Some t → ∃ t1, dget k (db_tasks db1) = Some t1 ∧
    exhausted_row now qs db1 (k, t1) = exhausted_row now qs db (k, t) ∧ (∀ r, exhausted_terminal t1 r ↔ exhausted_terminal t r)).
  { intros k t Ht. specialize (Htask k t Ht). destruct (retryable_row now qs db (k, t)).
    - destruct Htask as (a & _ & ->). eexists. split; [done|]. split; [by apply exhausted_available|done].
    - exists t. split; [done|]. split; [by apply exhausted_same|done]. }
  split.
  - congruence.
  - congruence.
  - intros k t Ht. rewrite T2. by apply Htask.
  - intros k Ht. rewrite T2. by apply Hnone.
  - intros k t Ht Hx. destruct (Hrow k t Ht) as (t1 & Ht1 & Hx1 & Hr). specialize (E2 k).
    rewrite dget_filter, Ht1 in E2 by done. rewrite decide_True in E2 by (rewrite Hx1, Hx; done).
    destruct E2 as (r & Hr' & ->). exists r. by rewrite <-Hr.
  - intros k Hx. specialize (E2 k). rewrite dget_filter in E2 by done. rewrite <-T1.
    destruct (dget k (db_tasks db)) as [t|] eqn:Ht.
    + destruct (Hrow k t Ht) as (t1 & Ht1 & Hx1 & Hr). rewrite Ht1 in E2. rewrite decide_False in E2; [done|].
      apply Is_true_false. rewrite Hx1. by apply Hx.
    + rewrite Hnone in E2 by done. done.
  - done.
Qed.

Lemma swept_task_mono P now qs db db' k t : swept P now qs db db' → dget k (db_tasks db) = Some t →
  ∃ t', dget k (db_tasks db') = Some t' ∧ (t' = t ∨ ∃ a, backoff P t = Ok a ∧ t' = with_available a t).
Proof.
  intros Hs Ht. pose proof (sw_task _ _ _ _ _ Hs k t Ht) as H. case_match; [|by eauto].
  destruct H as (a & Ha & ->). eauto 10.
Qed.

Lemma swept_ok P now qs db db' : db_ok db → swept P now qs db db' → db_ok db'.
Proof.
  intros Hok Hs. split.
  - rewrite (sw_keys _ _ _ _ _ Hs). apply Hok.
  - apply Hs.
  - rewrite (sw_cancellations _ _ _ _ _ Hs). apply Hok.
  - intros k t' Ht'. destruct (dget k (db_tasks db)) as [t|] eqn:Ht; [|apply (sw_none _ _ _ _ _ Hs) in Ht; congruence].
    destruct (ok_task _ Hok _ _ Ht) as [Hk Hto]. split; [done|].
    destruct (swept_task_mono _ _ _ _ _ _ _ Hs Ht) as (t1 & Ht1 & [->|(a & _ & ->)]); simplify_eq; [done|].
    by apply with_available_ok.
  - intros k r Hr. destruct (dget k (db_tasks db)) as [t|] eqn:Ht.
    + destruct (swept_task_mono _ _ _ _ _ _ _ Hs Ht) as (t1 & Ht1 & Hc).
      assert (He : tk_epoch t1 = tk_epoch t) by (destruct Hc as [->|(a & _ & ->)]; done).
      destruct (exhausted_row now qs db (k, t)) eqn:Hx.
      * destruct (sw_exhausted _ _ _ _ _ Hs _ _ Ht Hx) as (r' & (f & Hf & Hv & ->) & Hr'). simplify_eq.
        split; [exists t1; split; [done|simpl; lia]|]. exists (TFailure (failure_text f)). by apply decode_failed.
      * rewrite (sw_kept _ _ _ _ _ Hs) in Hr by naive_solver.
        destruct (ok_row _ Hok _ _ Hr) as [(t0 & Ht0 & Hle) Hd]. simplify_eq. split; [|done]. exists t1. split; [done|lia].
    + rewrite (sw_kept _ _ _ _ _ Hs) in Hr by naive_solver.
      destruct (ok_row _ Hok _ _ Hr) as [(t0 & Ht0 & _) _]. congruence.
  - intros k c t'. rewrite (sw_cancellations _ _ _ _ _ Hs). intros Hc Ht'.
    destruct (dget k (db_tasks db)) as [t|] eqn:Ht; [|apply (sw_none _ _ _ _ _ Hs) in Ht; congruence].
    destruct (swept_task_mono _ _ _ _ _ _ _ Hs Ht) as (t1 & Ht1 & [->|(a & _ & ->)]); simplify_eq;
      exact (ok_fence _ Hok _ _ _ Hc Ht).
Qed.
