(* ===== verification/Custody.v ===== *)
(** * What custody promises, and that the local provider keeps it

    An occurrence is unpublished, waiting, held by one claimant until a
    deadline, or ended with an outcome; a cancellation fences it for good. The
    abstract steps say who may move it and when. Every transaction of the local
    provider (src/src/petrus/motus/dispatch/local.py), by any session or worker
    and with any report, takes each occurrence along these steps only. *)

From stdpp Require Import base gmap sets list strings relations.
From Stdlib Require Import ZArith Lia.
From S2P Require Import Prelude PyData Activity Lifecycle Instance Dispatch LocalDispatch LocalInvariant.
Open Scope string_scope.
Open Scope list_scope.
Open Scope Z_scope.

(** ** The abstract machine *)

Inductive Holding :=
| Unpublished
| Waiting
| Held (epoch : Z) (claimant : string) (until : Z)
| Ended (epoch : Z) (claimant : option string) (outcome : Data).

Record Custody := MkCustody { holding : Holding; fenced : bool }.

(** An outcome the deadline sweep records. *)
Definition timed_out (x : Data) : Prop :=
  ∃ f, decode_outcome x = Ok (TFailure f) ∧ f_kind f = "DeadlineExceeded".

(** What an actor may do to one occurrence. *)
Inductive CustodyLabel :=
| LPublish
| LFence
| LClaim (claimant : string)
| LRenew (epoch : Z) (claimant : string)
| LRelease (epoch : Z) (claimant : string)
| LReport (epoch : Z) (claimant : string) (outcome : Data)
| LSweep.

(** A step at instant [now]: a lease is taken over only once it has expired, by
    the claimant of the step; it is renewed, released or ended before that only
    by a report naming its epoch and claimant, with the outcome the report
    carries; a fence keeps everything but that one report out; and the sweep
    ends only expired leases and overdue waits, with a deadline failure. *)
Inductive custody_step (now : Z) : CustodyLabel → Custody → Custody → Prop :=
| cu_publish : custody_step now LPublish (MkCustody Unpublished false) (MkCustody Waiting false)
| cu_claim c u : now ≤ u →
    custody_step now (LClaim c) (MkCustody Waiting false) (MkCustody (Held 1 c u) false)
| cu_takeover e c u c' u' : u ≤ now → now ≤ u' →
    custody_step now (LClaim c') (MkCustody (Held e c u) false) (MkCustody (Held (e + 1) c' u') false)
| cu_renew e c u u' : now < u → now < u' →
    custody_step now (LRenew e c) (MkCustody (Held e c u) false) (MkCustody (Held e c u') false)
| cu_release e c u : now < u →
    custody_step now (LRelease e c) (MkCustody (Held e c u) false) (MkCustody (Held e c now) false)
| cu_end e c u x : now < u →
    custody_step now (LReport e c x) (MkCustody (Held e c u) false) (MkCustody (Ended e (Some c) x) false)
| cu_report e c u x :
    custody_step now (LReport e c x) (MkCustody (Held e c u) true) (MkCustody (Ended e (Some c) x) true)
| cu_expire e c u x : u ≤ now → timed_out x →
    custody_step now LSweep (MkCustody (Held e c u) false) (MkCustody (Ended e (Some c) x) false)
| cu_lapse x : timed_out x →
    custody_step now LSweep (MkCustody Waiting false) (MkCustody (Ended 0 None x) false)
| cu_fence h : custody_step now LFence (MkCustody h false) (MkCustody h true).

(** Nothing happened, or exactly one step under a label the actor has. *)
Definition moves (now : Z) (mine : CustodyLabel → Prop) (c c' : Custody) : Prop :=
  c' = c ∨ ∃ l, mine l ∧ custody_step now l c c'.

(** ** The operations, as one interface *)

Inductive LocalOp :=
| ODispatch (s : LocalDispatch) (o : Z) (i : ActivityInvocation)
| OCancel (s : LocalDispatch) (c : CancellationInstruction)
| OClaim (w : LocalWorkerDispatch)
| OHeartbeat (a : ActivityAttempt) (details : option Data)
| OComplete (a : ActivityAttempt) (value : Data)
| OFail (a : ActivityAttempt) (e : ReportedError)
| OWait (w : LocalWorkerDispatch).

(** The committed database of one transaction at instant [now]. *)
Definition local_perform (P : Platform) (now : Z) (op : LocalOp) (db : DB) : result DB :=
  match op with
  | ODispatch s o i => sdb ← local_dispatch (Ok now) o i s db; Ok sdb.2
  | OCancel s c => r ← local_cancel c s db; Ok r.2
  | OClaim w => r ← local_claim P (Ok now) w db; Ok r.2
  | OHeartbeat a d => r ← local_heartbeat P (Ok now) a d db; Ok r.2
  | OComplete a v => local_complete (Ok now) a v db
  | OFail a e => local_fail P (Ok now) a e db
  | OWait w => r ← local_wait P [Ok now] w db; Ok r.2
  end.

Definition akey (a : ActivityAttempt) : Key := (at_instance_key a, at_occurrence a).

(** The steps an operation may take on an occurrence: only its own key's, only
    under the claimant and epoch it names, only with the outcome it reports. *)
Definition performs (op : LocalOp) (k : Key) (l : CustodyLabel) : Prop :=
  match op with
  | ODispatch s o _ => k = (ld_instance s, o) ∧ l = LPublish
  | OCancel s c => k = (ld_instance s, ci_occurrence c) ∧ l = LFence
  | OClaim w => l = LSweep ∨ l = LClaim (lw_claimant w)
  | OHeartbeat a _ => k = akey a ∧ l = LRenew (at_epoch a) (at_claimant a)
  | OComplete a v => k = akey a ∧ ∃ x, encode_json v = Ok x ∧ l = LReport (at_epoch a) (at_claimant a) (completed_outcome x)
  | OFail a e => k = akey a ∧ ∃ f, reported_failure e = Ok f ∧
      (l = LReport (at_epoch a) (at_claimant a) (sorted_failure (failure_text f)) ∨
       l = LRelease (at_epoch a) (at_claimant a))
  | OWait _ => l = LSweep
  end.

(** Values their constructors accepted; attempts may be forged. *)
Definition valid_local_op (op : LocalOp) : Prop :=
  match op with
  | ODispatch s _ i => bad_name (ld_instance s) = false ∧ valid_invocation i
  | OFail _ (ErrFailure f) => valid_failure f
  | _ => True
  end.

(** The custody of one occurrence. *)
Definition holding_of (db : DB) (k : Key) : Holding :=
  match dget k (db_terminals db) with
  | Some r => Ended (tr_epoch r) (tr_claimant r) (tr_outcome r)
  | None =>
      match dget k (db_tasks db) with
      | None => Unpublished
      | Some t => match tk_claimant t, tk_deadline t with
                  | Some c, Some d => Held (tk_epoch t) c d
                  | _, _ => Waiting
                  end
      end
  end.

Definition custody_of (db : DB) (k : Key) : Custody := MkCustody (holding_of db k) (dmem k (db_cancellations db)).

(** Any interleaving of transactions, each at its instant; one that raises is
    rolled back. *)
Definition local_attempt (P : Platform) (db : DB) (top : Z * LocalOp) : DB :=
  match local_perform P top.1 top.2 db with Ok db' => db' | Err _ => db end.

Definition local_run (P : Platform) (db : DB) (ops : list (Z * LocalOp)) : DB := foldl (local_attempt P) db ops.

(** ** Claims *)

Lemma decode_stored t i : task_ok t → decode_invocation (tk_invocation t) = Ok i →
  stored_invocation (tk_invocation t) i ∧ tk_epoch t ≤ attempts (inv_policy i).
Proof.
  intros [(j & Hj & He & _) _ _] Hd. assert (i = j) as -> by (destruct Hj; congruence). done.
Qed.

Lemma policy_positive p : ExecutionPolicy_post_init p = Ok tt →
  1 ≤ attempts p ∧ 0 < heartbeat_timeout p ∧
  (∀ s, start_to_close p = Some s → num_gt s 0 = true) ∧ (∀ s, schedule_to_close p = Some s → num_gt s 0 = true).
Proof.
  unfold ExecutionPolicy_post_init. intros H. inv_ok. unfold forM_ in *. simpl in *. inv_ok.
  rewrite Z.ltb_ge, Z.leb_gt in *. split; [lia|]. split; [lia|].
  split; intros s Hs; rewrite Hs in *; inv_ok; by apply negb_false_iff.
Qed.

Lemma claimable_spec now qs db k t : claimable_row now qs db (k, t) = true →
  dget k (db_terminals db) = None ∧ dget k (db_cancellations db) = None ∧ tk_queue t ∈ qs ∧
  attempts_left t = true ∧ tk_available_at t ≤ now ∧ (tk_epoch t = 0 ∨ expired_lease t now = true).
Proof.
  unfold claimable_row, open_task, in_queues. simpl.
  rewrite !andb_true_iff, orb_true_iff, !negb_true_iff, !dmem_false, bool_decide_eq_true, Z.leb_le, Z.eqb_eq.
  naive_solver.
Qed.

(** What a claim that hands out an attempt did. *)
Record claimed (P : Platform) (now : Z) (w : LocalWorkerDispatch) (db1 : DB) (a : ActivityAttempt) (db' : DB) : Prop := {
  cl_task : ∃ t, dget (at_instance_key a, at_occurrence a) (db_tasks db1) = Some t ∧
    claimable_row now (lw_queues w) db1 (at_instance_key a, at_occurrence a, t) = true ∧
    decode_invocation (tk_invocation t) = Ok (at_invocation a) ∧
    at_epoch a = tk_epoch t + 1 ∧ at_queue a = tk_queue t ∧ at_details a = default DNone (tk_details t) ∧
    db' = update_task (at_instance_key a, at_occurrence a)
            (with_claim (at_epoch a) (lw_claimant w)
               (claim_deadline (inv_policy (at_invocation a)) now (tk_schedule_start t)) now
               (min_opt (hard_limits (inv_policy (at_invocation a)) now (tk_schedule_start t)))) db1 ∧
    head (filter (λ kt, claimable_row now (lw_queues w) db1 kt) (db_tasks db1))
      = Some (at_instance_key a, at_occurrence a, t);
  cl_claimant : at_claimant a = lw_claimant w;
  cl_instance : at_instance a = Some (at_instance_key a)
}.

Lemma head_filter_Some {A} (Q : A → Prop) `{∀ x, Decision (Q x)} (l : list A) x :
  head (filter Q l) = Some x → x ∈ l ∧ Q x.
Proof.
  intros Hh. assert (x ∈ filter Q l) as Hx by (destruct (filter Q l); simplify_eq/=; left).
  apply list_elem_of_filter in Hx. naive_solver.
Qed.

Lemma claim_spec P now w db r db' : db_ok db → local_claim P (Ok now) w db = Ok (r, db') →
  ∃ db1, swept P now (lw_queues w) db db1 ∧
    match r with
    | None => db' = db1 ∧ ∀ kt, kt ∈ db_tasks db1 → claimable_row now (lw_queues w) db1 kt = false
    | Some a => claimed P now w db1 a db'
    end.
Proof.
  intros Hok H. unfold local_claim in H. rewrite bind_Ok_l in H. apply bind_Ok in H as (db1 & Hs & H).
  apply (sweep_spec _ _ _ _ _ Hok) in Hs. exists db1. split; [done|].
  destruct (head _) as [[[ki ko] t]|] eqn:Hh.
  - pose proof (head_filter_Some _ _ _ Hh) as [Hin Hc]. apply Is_true_true in Hc.
    apply elem_of_dget in Hin; [|by rewrite (sw_keys _ _ _ _ _ Hs); apply Hok].
    inv_ok. unfold snapshot_heartbeat_details in *. inv_ok. split; [|done|done]. exists t. by rewrite Hh.
  - inv_ok. split; [done|]. intros kt Hkt. destruct (claimable_row now (lw_queues w) db' kt) eqn:E; [|done].
    assert (Hin : kt ∈ filter (λ kt, claimable_row now (lw_queues w) db' kt) (db_tasks db')).
    { apply list_elem_of_filter. split; [by rewrite E|done]. }
    destruct (filter _ _); [by apply elem_of_nil in Hin|done].
Qed.

Lemma claim_deadline_le p now start l : l ∈ hard_limits p now start → claim_deadline p now start ≤ l.
Proof.
  unfold claim_deadline. generalize (hard_limits p now start) (now + heartbeat_timeout p * 1000).
  assert (Hmin : ∀ ls (b : Z), foldl Z.min b ls ≤ b).
  { induction ls as [|x ls IH]; intros b; simpl; [lia|]. specialize (IH (Z.min b x)). lia. }
  induction l0 as [|x ls IH]; intros b Hl; [by apply elem_of_nil in Hl|].
  apply elem_of_cons in Hl as [->|Hl]; simpl; [|by apply IH]. specialize (Hmin ls (Z.min b x)). lia.
Qed.

Lemma claimed_task_ok P now w db1 a db' t : db_ok db1 → claimed P now w db1 a db' →
  dget (at_instance_key a, at_occurrence a) (db_tasks db1) = Some t →
  task_ok (with_claim (at_epoch a) (lw_claimant w)
               (claim_deadline (inv_policy (at_invocation a)) now (tk_schedule_start t)) now
               (min_opt (hard_limits (inv_policy (at_invocation a)) now (tk_schedule_start t))) t).
Proof.
  intros Hok [(t0 & Ht0 & Hc & Hd & He & _) _ _] Ht. simplify_eq.
  destruct (ok_task _ Hok _ _ Ht0) as [_ Hto]. destruct (decode_stored _ _ Hto Hd) as [Hs Hle].
  apply claimable_spec in Hc as (_ & _ & _ & Hl & _). unfold attempts_left in Hl.
  rewrite (stored_attempts _ _ Hs) in Hl. apply Z.ltb_lt in Hl.
  assert (0 ≤ tk_epoch t0) by (destruct (to_lease _ Hto) as [[? _]|(? & ? & ? & _)]; lia).
  split; simpl.
  - exists (at_invocation a). split; [done|]. split; [lia|]. intros s Hsch _.
    destruct (min_opt _) as [l|] eqn:Hm.
    + exists l. split; [done|]. apply min_opt_Some in Hm as [_ Hm]. rewrite Forall_forall in Hm. apply Hm.
      unfold hard_limits. rewrite Hsch. apply elem_of_app. right. by left.
    + apply min_opt_None in Hm. unfold hard_limits in Hm. rewrite Hsch in Hm. by destruct (start_to_close _).
  - right. exists (lw_claimant w), (claim_deadline (inv_policy (at_invocation a)) now (tk_schedule_start t0)).
    split; [simpl; lia|done].
  - intros l d Hm [= <-]. apply min_opt_Some in Hm as [Hm _]. by apply claim_deadline_le.
Qed.

(** ** Reports *)

Lemma attempt_key_Ok a k : attempt_key a = Ok k → k = akey a.
Proof. unfold attempt_key. intros H. by inv_ok. Qed.

(** The attempt names the current holder of its occurrence. *)
Definition holds (db : DB) (a : ActivityAttempt) (t : Task) : Prop :=
  dget (akey a) (db_tasks db) = Some t ∧ dget (akey a) (db_terminals db) = None ∧
  tk_queue t = at_queue a ∧ encode_invocation (at_invocation a) = Ok (tk_invocation t) ∧
  tk_epoch t = at_epoch a ∧ tk_claimant t = Some (at_claimant a).

Lemma active_spec a now db t : active a now db = Ok t →
  attempt_key a = Ok (akey a) ∧ holds db a t ∧ dget (akey a) (db_cancellations db) = None ∧
  ∃ d, tk_deadline t = Some d ∧ now < d.
Proof.
  unfold active. intros H. apply bind_Ok in H as (k & Hk & H). pose proof (attempt_key_Ok _ _ Hk) as ->. inv_ok.
  repeat match goal with H : (_ || _) = false |- _ => apply orb_false_iff in H as [? ?] end.
  rewrite ?negb_false_iff, ?bool_decide_eq_true, ?dmem_false in *. subst.
  destruct (tk_deadline t) as [d|]; [|done]. rewrite Z.leb_gt in *. unfold holds. naive_solver.
Qed.

Lemma cancelled_attempt_spec a db b : cancelled_attempt a db = Ok b →
  dget (akey a) (db_terminals db) = None →
  if b then is_Some (dget (akey a) (db_cancellations db)) ∧ ∃ t, holds db a t
  else dget (akey a) (db_cancellations db) = None.
Proof.
  unfold cancelled_attempt. intros H Hn. apply bind_Ok in H as (k & Hk & H). pose proof (attempt_key_Ok _ _ Hk) as ->.
  destruct (dmem (akey a) (db_cancellations db)) eqn:Ec; simpl in H.
  - apply dmem_true, dget_is_Some in Ec. inv_ok. split; [done|].
    match goal with H : match ?x with _ => _ end = false |- _ => destruct x as [t|] eqn:Et; [|done];
      apply negb_false_iff, bool_decide_eq_true in H as (? & ? & ? & ?) end.
    exists t. unfold holds. subst. naive_solver.
  - inv_ok. by apply dmem_false.
Qed.

Lemma acknowledge_spec a outcome x db b : encode_json outcome = Ok x → acknowledge_terminal_retry a outcome db = Ok b →
  if b then ∃ r, dget (akey a) (db_terminals db) = Some r ∧ r = MkTerminalRow (at_epoch a) (Some (at_claimant a)) x
  else dget (akey a) (db_terminals db) = None.
Proof.
  unfold acknowledge_terminal_retry. intros Hx H. apply bind_Ok in H as (k & Hk & H).
  pose proof (attempt_key_Ok _ _ Hk) as ->. destruct (dget (akey a) (db_terminals db)) as [r|]; [|by inv_ok].
  rewrite Hx in H. simpl in H. inv_ok. rewrite negb_false_iff, bool_decide_eq_true in *. exists r.
  split; [done|]. destruct r; simpl in *. naive_solver.
Qed.

(** The terminal row of a report. *)
Definition reported (now : Z) (a : ActivityAttempt) (x : Data) (db db' : DB) : Prop :=
  (∃ t, holds db a t ∧
     (is_Some (dget (akey a) (db_cancellations db)) ∨
      dget (akey a) (db_cancellations db) = None ∧ ∃ d, tk_deadline t = Some d ∧ now < d)) ∧
  insert_terminal (akey a) (MkTerminalRow (at_epoch a) (Some (at_claimant a)) x) db = Ok db'.

Definition acknowledged (a : ActivityAttempt) (x : Data) (db : DB) : Prop :=
  dget (akey a) (db_terminals db) = Some (MkTerminalRow (at_epoch a) (Some (at_claimant a)) x).

Lemma report_terminal_Ok a outcome x db db' : encode_json outcome = Ok x → report_terminal a outcome db = Ok db' →
  insert_terminal (akey a) (MkTerminalRow (at_epoch a) (Some (at_claimant a)) x) db = Ok db'.
Proof.
  intros Hx H. unfold report_terminal in H. apply bind_Ok in H as (k & Hk & H).
  pose proof (attempt_key_Ok _ _ Hk) as ->. rewrite Hx in H. done.
Qed.

Lemma terminal_spec now a outcome x db db' : encode_json outcome = Ok x →
  local_terminal (Ok now) a outcome db = Ok db' →
  acknowledged a x db ∧ db' = db ∨ reported now a x db db'.
Proof.
  intros Hx H. unfold local_terminal in H. apply bind_Ok in H as (b & Hb & H).
  apply (acknowledge_spec _ _ _ _ _ Hx) in Hb. destruct b.
  - left. inv_ok. destruct Hb as (r & Hr & ->). done.
  - right. apply bind_Ok in H as (b & Hc & H). apply cancelled_attempt_spec in Hc; [|done]. destruct b.
    + destruct Hc as [Hc (t & Ht)]. split; [|by eapply report_terminal_Ok]. exists t. auto.
    + rewrite bind_Ok_l in H. apply bind_Ok in H as (t & Ht & H). apply active_spec in Ht as (_ & Ht & _ & Hd).
      split; [|by eapply report_terminal_Ok]. exists t. auto.
Qed.

Lemma complete_spec now a v db db' : local_complete (Ok now) a v db = Ok db' →
  ∃ x, encode_json v = Ok x ∧
    (acknowledged a (completed_outcome x) db ∧ db' = db ∨ reported now a (completed_outcome x) db db').
Proof.
  unfold local_complete. intros H. apply bind_Ok in H as (x & Hx & H). exists x. split; [done|].
  apply encode_json_text in Hx. eapply terminal_spec; [|done]. by apply encode_completed.
Qed.

(** A failure that leaves the occurrence to another attempt. *)
Definition released (P : Platform) (now : Z) (a : ActivityAttempt) (f : ActivityFailure) (db db' : DB) : Prop :=
  ∃ t d w, holds db a t ∧ dget (akey a) (db_cancellations db) = None ∧ tk_deadline t = Some d ∧ now < d ∧
    attempts_left t = true ∧ retry_wait P a f = Ok w ∧
    db' = update_task (akey a) (with_available (now + milliseconds w) ∘ with_deadline now) db.

Lemma reported_failure_valid e f : (∀ g, e = ErrFailure g → valid_failure g) → reported_failure e = Ok f → valid_failure f.
Proof.
  destruct e; simpl; intros He H; [| |inv_ok; by apply He]; by eapply ActivityFailure_new_valid.
Qed.

Lemma fail_spec P now a e db db' : (∀ g, e = ErrFailure g → valid_failure g) →
  local_fail P (Ok now) a e db = Ok db' →
  ∃ f, reported_failure e = Ok f ∧ valid_failure f ∧
    let x := sorted_failure (failure_text f) in
    (acknowledged a x db ∧ db' = db ∨ reported now a x db db' ∨ released P now a f db db').
Proof.
  intros He H. unfold local_fail in H. apply bind_Ok in H as (f & Hf & H).
  pose proof (reported_failure_valid _ _ He Hf) as Hv. exists f. split; [done|]. split; [done|].
  pose proof (encode_failed f Hv) as Hx. apply bind_Ok in H as (b & Hb & H).
  apply (acknowledge_spec _ _ _ _ _ Hx) in Hb. destruct b; [left; inv_ok; by destruct Hb as (r & Hr & ->)|].
  right. apply bind_Ok in H as (b & Hc & H). apply cancelled_attempt_spec in Hc; [|done]. destruct b.
  { destruct Hc as [Hc (t & Ht)]. left. split; [|by eapply report_terminal_Ok]. exists t. auto. }
  rewrite bind_Ok_l in H. apply bind_Ok in H as (t & Ht & H). apply active_spec in Ht as (Hk & Ht & _ & d & Hd & Hlt).
  rewrite Hk in H. rewrite bind_Ok_l in H. apply bind_Ok in H as (budget & Hbu & H). apply or_raise_Ok in Hbu.
  apply bind_Ok in H as (w & Hw & H).
  destruct ((f_retryable f || legacy_retryable e) && (at_epoch a <? budget) && _) eqn:Eg.
  - right. inv_ok. apply andb_true_iff in Eg as [Eg _]. apply andb_true_iff in Eg as [_ Eg].
    exists t, d, w. do 4 (split; [done|]). split; [|done].
    unfold attempts_left. rewrite Hbu. destruct Ht as (_ & _ & _ & _ & -> & _). done.
  - left. split; [|by eapply report_terminal_Ok]. exists t. eauto 10.
Qed.

(** ** Every operation keeps the invariant *)

Lemma reported_ok now a x db db' : db_ok db → reported now a x db db' → (∃ v, decode_outcome x = Ok v) → db_ok db'.
Proof.
  intros Hok ((t & (Ht & _ & _ & _ & He & _) & _) & Hi) Hd. eapply insert_terminal_ok; [done|done|done| |done]. simpl. lia.
Qed.

Lemma with_deadline_ok d t : task_ok t → (∃ c d0, leased t c d0) → (∀ l, tk_attempt_deadline t = Some l → d ≤ l) →
  task_ok (with_deadline d t).
Proof.
  intros [H1 H2 H3] (c & d0 & He & Hc & _) Hl. split; simpl.
  - done.
  - right. exists c, d. done.
  - intros l d' Hl' [= <-]. by apply Hl.
Qed.

Lemma holds_leased db a t d : db_ok db → holds db a t → tk_deadline t = Some d → task_ok t ∧ leased t (at_claimant a) d.
Proof.
  intros Hok (Ht & _ & _ & _ & _ & Hc) Hd. destruct (ok_task _ Hok _ _ Ht) as [_ Hto]. split; [done|].
  destruct (to_lease _ Hto) as [(_ & ? & _)|(c & d' & ? & ? & ?)]; [congruence|]. split; [done|]. done.
Qed.

Lemma new_task_ok i t queue now : valid_invocation i → encode_invocation i = Ok t → task_ok (new_task queue t now).
Proof.
  intros Hv He. destruct (encode_stored _ _ Hv He) as (j & Hj & _ & _). pose proof (stored_valid _ _ Hj) as [Hp _].
  apply policy_positive in Hp as (Hp & _). split; simpl; [|by left|done].
  exists j. split; [done|]. split; [lia|]. intros s _ ?. lia.
Qed.

Lemma insert_task_ok k t db : db_ok db → dget k (db_tasks db) = None → dget k (db_cancellations db) = None →
  good_key k → task_ok t → db_ok (set_tasks (dset k t (db_tasks db)) db).
Proof.
  intros Hok Hn Hc Hk Ht. split; simpl; try apply Hok.
  - apply NoDup_dkeys_dset, Hok.
  - intros k' t'. rewrite dget_dset. case_decide; [|by apply Hok]. intros [= <-]. by subst.
  - intros k' r Hr. destruct (ok_row _ Hok _ _ Hr) as [(t' & Ht' & He) Hd]. split; [|done].
    exists t'. split; [|done]. simpl. rewrite dget_dset_ne; congruence.
  - intros k' c t' Hc'. rewrite dget_dset. case_decide; [congruence|]. by apply Hok.
Qed.

(** A publication adds a waiting task, or moves the route of one. *)
Lemma dispatch_spec now o i s db s' db' :
  local_dispatch (Ok now) o i s db = Ok (s', db') →
  s' = publish o s ∧ (1 ≤ o ∧ int64 o) ∧ ∃ x, encode_invocation i = Ok x ∧ let k := (ld_instance s, o) in
  (∃ c, dget k (db_cancellations db) = Some c ∧ cr_invocation c = x ∧ db' = db) ∨
  (dget k (db_cancellations db) = None ∧
   ((∃ q, dget k (db_tasks db) = None ∧ db' = set_tasks (dset k (new_task q x now) (db_tasks db)) db) ∨
    (∃ t, dget k (db_tasks db) = Some t ∧ tk_invocation t = x ∧
          (db' = db ∨ ∃ q, dget k (db_terminals db) = None ∧ movable t now = true ∧ db' = update_task k (with_queue q) db)))).
Proof.
  unfold local_dispatch. intros H. apply bind_Ok in H as ([] & Ho & H). unfold local_occurrence in Ho.
  apply raise_if_Ok, Z.ltb_ge in Ho. apply bind_Ok in H as (x & Hx & H). apply bind_Ok in H as ([] & Hz & H).
  apply sql_ints_Ok, Forall_cons_1 in Hz as [Hz _].
  set (k := (ld_instance s, o)) in *. destruct (dget k (db_cancellations db)) as [c|] eqn:Hc.
  - apply bind_Ok in H as ([] & Hr & H). apply raise_if_Ok, negb_false_iff, bool_decide_eq_true in Hr.
    inv_ok. split; [done|]. split; [done|]. exists (cr_invocation c). split; [done|]. left. by exists c.
  - rewrite bind_Ok_l in H. cbv zeta in H. set (queue := dget_default _ _ _) in H.
    destruct (dmem k (db_tasks db)) eqn:Hk.
    + apply bind_Ok in H as (t & Ht & H). apply or_raise_Ok in Ht. apply bind_Ok in H as ([] & Hr & H).
      apply raise_if_Ok, negb_false_iff, bool_decide_eq_true in Hr. injection H as <- <-.
      split; [done|]. split; [done|]. exists x. split; [done|]. right. split; [done|]. right. exists t.
      split; [done|]. split; [done|]. destruct (negb (dmem k (db_terminals db))) eqn:E1; simpl; [|by left].
      apply negb_true_iff, dmem_false in E1. destruct (negb (bool_decide (tk_queue t = queue))); simpl; [|by left].
      destruct (movable t now) eqn:E2; [|by left]. right. by exists queue.
    + apply dmem_false in Hk. simpl in H. rewrite dget_dset_eq in H. simpl in H.
      rewrite bool_decide_true in H by done. simpl in H. rewrite bool_decide_true in H by done.
      rewrite andb_false_r in H. simpl in H. injection H as <- <-. split; [done|]. split; [done|].
      exists x. split; [done|]. right. split; [done|]. left. by exists queue.
Qed.

Lemma with_queue_ok q t : task_ok t → task_ok (with_queue q t).
Proof. intros [H1 H2 H3]. by split. Qed.

Lemma dispatch_ok now o i s db s' db' : db_ok db → bad_name (ld_instance s) = false → valid_invocation i →
  local_dispatch (Ok now) o i s db = Ok (s', db') → db_ok db'.
Proof.
  intros Hok Hb Hi H. apply dispatch_spec in H as (_ & Ho & x & Hx & [(c & _ & _ & ->)|(Hc & [(q & Hn & ->)|(t & Ht & _ & [->|(q & _ & _ & ->)])])]);
    [done| |done|].
  - apply insert_task_ok; [done..| |by eapply new_task_ok]. by split.
  - apply update_task_ok; [done|]. intros t' Ht'. simplify_eq. split; [by apply with_queue_ok; eapply Hok|]. split; [simpl; lia|done].
Qed.

(** A cancellation adds its fence, once. *)
Lemma cancel_spec c s db d s' db' : local_cancel c s db = Ok (d, s', db') →
  let k := (ld_instance s, ci_occurrence c) in
  s' = publish (ci_occurrence c) s ∧ ∃ x, encode_invocation (ci_invocation c) = Ok x ∧
  (∀ t, dget k (db_tasks db) = Some t → tk_invocation t = x) ∧
  ((d = C_ACKNOWLEDGED ∧ db' = db ∧ dget k (db_cancellations db) = Some (MkCancelRow (ci_position c) x)) ∨
   (dget k (db_cancellations db) = None ∧
    db' = set_cancellations (dset k (MkCancelRow (ci_position c) x) (db_cancellations db)) db ∧
    d = if dmem k (db_terminals db) then TERMINAL
        else match dget k (db_tasks db) with
             | None => TOMBSTONED
             | Some t => if tk_epoch t =? 0 then RETIRED else FENCED
             end)).
Proof.
  unfold local_cancel. intros H. apply bind_Ok in H as (x & Hx & H). apply bind_Ok in H as ([] & _ & H).
  set (k := (ld_instance s, ci_occurrence c)) in *. cbv zeta in *. destruct (dmem k (db_cancellations db)) eqn:Hk; simpl in H.
  - apply bind_Ok in H as (row & Hrow & H). apply or_raise_Ok in Hrow. apply bind_Ok in H as ([] & Hr & H).
    apply bind_Ok in H as ([] & Ht & H). injection H as <- <- <-.
    apply raise_if_Ok, orb_false_iff in Hr as [H1 H2].
    apply negb_false_iff, bool_decide_eq_true in H1, H2. split; [done|]. exists x. split; [done|]. split.
    + intros t Et. rewrite Et in Ht. by apply raise_if_Ok, negb_false_iff, bool_decide_eq_true in Ht.
    + left. split; [done|]. split; [done|]. rewrite Hrow. by destruct row; simplify_eq/=.
  - apply dmem_false in Hk. rewrite dget_dset_eq in H. simpl in H.
    rewrite !bool_decide_true in H by done. simpl in H. apply bind_Ok in H as ([] & Ht & H).
    injection H as <- <- <-. split; [done|]. exists x. split; [done|]. split; [|by right].
    intros t Et. rewrite Et in Ht. by apply raise_if_Ok, negb_false_iff, bool_decide_eq_true in Ht.
Qed.

Lemma cancel_ok c s db d s' db' : db_ok db → local_cancel c s db = Ok (d, s', db') → db_ok db'.
Proof.
  intros Hok H. apply cancel_spec in H as (_ & x & _ & Hx & [(_ & -> & _)|(Hn & -> & _)]); [done|].
  split; simpl; try apply Hok.
  - apply NoDup_dkeys_dset, Hok.
  - intros k' c' t. rewrite dget_dset. case_decide as E; [|by apply Hok]. subst. intros [= <-] Ht. simpl. symmetry. by apply Hx.
Qed.

Lemma heartbeat_spec P now a d db v db' : local_heartbeat P (Ok now) a d db = Ok (v, db') →
  ∃ t i dl f, holds db a t ∧ dget (akey a) (db_cancellations db) = None ∧ tk_deadline t = Some dl ∧ now < dl ∧
    decode_invocation (tk_invocation t) = Ok i ∧
    let renewed := now + heartbeat_timeout (inv_policy i) * 1000 in
    let until := match tk_attempt_deadline t with Some l => Z.min renewed l | None => renewed end in
    db' = update_task (akey a) (f ∘ with_deadline until) db ∧
    (f = id ∧ d = None ∧ v = default DNone (tk_details t) ∨
     ∃ x y, d = Some x ∧ canonical_json_shape x = true ∧ encode_json x = Ok y ∧ v = y ∧ f = with_details y).
Proof.
  unfold local_heartbeat. intros H. apply bind_Ok in H as (enc & Hd & H). rewrite bind_Ok_l in H.
  apply bind_Ok in H as (t & Ht & H). apply active_spec in Ht as (Hk & Ht & Hc & dl & Hdl & Hlt).
  apply bind_Ok in H as (i & Hi & H). rewrite Hk, bind_Ok_l in H. cbv zeta in H. apply bind_Ok in H as ([] & _ & H).
  destruct d as [x|]; [apply bind_Ok in Hd as (x' & Hx & Hd); apply bind_Ok in Hd as (y & Hy & Hd)|];
    injection Hd as <-; injection H as <- <-.
  - unfold snapshot_heartbeat_details in Hx. inv_ok. rewrite negb_false_iff in *.
    exists t, i, dl, (with_details y). do 5 (split; [done|]). split; [done|]. right. by exists x', y.
  - exists t, i, dl, id. do 5 (split; [done|]). split; [done|]. by left.
Qed.

Lemma heartbeat_until_ok P now a d db v db' : db_ok db → local_heartbeat P (Ok now) a d db = Ok (v, db') →
  db_ok db' ∧ ∃ t c e until, dget (akey a) (db_tasks db) = Some t ∧ leased t c e ∧ now < e ∧ now < until ∧
    dget (akey a) (db_cancellations db) = None ∧ dget (akey a) (db_terminals db) = None ∧
    ∃ f, db' = update_task (akey a) (f ∘ with_deadline until) db ∧ (f = id ∨ ∃ y, f = with_details y).
Proof.
  intros Hok H. apply heartbeat_spec in H as (t & i & dl & f & Hh & Hc & Hdl & Hlt & Hi & Hdb & Hf).
  set (until := match tk_attempt_deadline t with Some l => _ | None => _ end) in *. simpl in Hdb.
  destruct (holds_leased _ _ _ _ Hok Hh Hdl) as [Hto Hle]. destruct Hh as (Ht & Hn & _).
  destruct (decode_stored _ _ Hto Hi) as [Hs _]. pose proof (stored_valid _ _ Hs) as [Hp _].
  apply policy_positive in Hp as (_ & Hhb & _).
  assert (now < until).
  { unfold until. destruct (tk_attempt_deadline t) as [l|] eqn:El; [|lia]. pose proof (to_limit _ Hto _ _ El Hdl). lia. }
  assert (Hto' : task_ok (with_deadline until t)).
  { apply with_deadline_ok; [done|eauto|]. intros l El. unfold until. rewrite El. lia. }
  split.
  - subst db'. apply update_task_ok; [done|]. intros t' Ht'. simplify_eq.
    destruct Hf as [(-> & _)|(x & y & _ & _ & _ & _ & ->)]; simpl; (split; [|split; [lia|done]]); [done|].
    destruct Hto'. by split.
  - exists t, (at_claimant a), dl, until. do 6 (split; [done|]). exists f. split; [done|]. naive_solver.
Qed.

Lemma released_ok P now a f db db' : db_ok db → released P now a f db db' → db_ok db'.
Proof.
  intros Hok (t & d & w & Hh & _ & Hd & Hlt & _ & _ & ->). destruct (holds_leased _ _ _ _ Hok Hh Hd) as [Hto Hl].
  apply update_task_ok; [done|]. intros t' Ht'. destruct Hh as (Ht & _). simplify_eq. simpl.
  split; [|split; [lia|done]]. apply with_available_ok, with_deadline_ok; [done|eauto|].
  intros l El. pose proof (to_limit _ Hto _ _ El Hd). lia.
Qed.

Lemma claim_ok P now w db r db' : db_ok db → local_claim P (Ok now) w db = Ok (r, db') → db_ok db'.
Proof.
  intros Hok H. apply claim_spec in H as (db1 & Hs & H); [|done]. pose proof (swept_ok _ _ _ _ _ Hok Hs) as Hok1.
  destruct r as [a|]; [|by destruct H as [-> _]].
  pose proof H as [(t & Ht & _ & _ & He & _ & _ & Hdb & _) _ _]. rewrite Hdb. apply update_task_ok; [done|]. intros t' Ht'. simplify_eq.
  split; [by eapply claimed_task_ok|]. simpl. split; [lia|done].
Qed.

Lemma wait_spec P now w db b db' : local_wait P [Ok now] w db = Ok (b, db') →
  terminalize_exhausted P now (lw_queues w) db = Ok db'.
Proof.
  simpl. intros H. apply bind_Ok in H as (db1 & H1 & H). rewrite H1. by destruct (existsb _ _); inv_ok.
Qed.

Lemma perform_ok P now op db db' : db_ok db → valid_local_op op → local_perform P now op db = Ok db' → db_ok db'.
Proof.
  intros Hok Hv H. destruct op as [s o i|s c|w|a d|a v|a e|w]; simpl in H.
  - apply bind_Ok in H as ([s' db1] & H & [= <-]). destruct Hv. by eapply dispatch_ok.
  - apply bind_Ok in H as ([[d s'] db1] & H & [= <-]). by eapply cancel_ok.
  - apply bind_Ok in H as ([r db1] & H & [= <-]). exact (claim_ok _ _ _ _ _ _ Hok H).
  - apply bind_Ok in H as ([r db1] & H & [= <-]). exact (proj1 (heartbeat_until_ok _ _ _ _ _ _ _ Hok H)).
  - apply complete_spec in H as (x & _ & [[_ ->]|H]); [done|]. eapply reported_ok; [done|done|]. eauto using decode_completed.
  - apply fail_spec in H as (f & _ & Hf & [[_ ->]|[H|H]]); [done| |by eapply released_ok|].
    + eapply reported_ok; [done|done|]. eauto using decode_failed.
    + intros g ->. done.
  - apply bind_Ok in H as ([r db1] & H & [= <-]). apply wait_spec in H. eapply swept_ok; [done|]. by apply sweep_spec.
Qed.

Lemma attempt_ok P db top : db_ok db → valid_local_op top.2 → db_ok (local_attempt P db top).
Proof. intros Hok Hv. unfold local_attempt. destruct (local_perform _ _ _ _) eqn:E; [by eapply perform_ok|done]. Qed.

Lemma run_ok P ops db : db_ok db → Forall (λ top, valid_local_op top.2) ops → db_ok (local_run P db ops).
Proof. intros Hok H. revert db Hok. induction H as [|top ops Hv _ IH]; intros db Hok; [done|]. by apply IH, attempt_ok. Qed.

(** ** Every operation refines custody *)

Lemma holding_update k f db k' :
  holding_of (update_task k f db) k' =
  if decide (k' = k) then
    match dget k (db_terminals db), dget k (db_tasks db) with
    | Some r, _ => Ended (tr_epoch r) (tr_claimant r) (tr_outcome r)
    | None, Some t => match tk_claimant (f t), tk_deadline (f t) with
                      | Some c, Some d => Held (tk_epoch (f t)) c d
                      | _, _ => Waiting
                      end
    | None, None => Unpublished
    end
  else holding_of db k'.
Proof.
  unfold holding_of. rewrite update_task_terminals, update_task_tasks. case_decide as E; [subst|done].
  destruct (dget k (db_terminals db)); [done|]. by destruct (dget k (db_tasks db)).
Qed.

Lemma custody_update k f db k' :
  custody_of (update_task k f db) k' = MkCustody (holding_of (update_task k f db) k') (dmem k' (db_cancellations db)).
Proof. unfold custody_of. by rewrite update_task_cancellations. Qed.

Lemma holding_leased db k t c d : dget k (db_terminals db) = None → dget k (db_tasks db) = Some t → leased t c d →
  holding_of db k = Held (tk_epoch t) c d.
Proof. intros Hn Ht (_ & Hc & Hd). unfold holding_of. by rewrite Hn, Ht, Hc, Hd. Qed.

Lemma holding_waiting db k t : dget k (db_terminals db) = None → dget k (db_tasks db) = Some t → unclaimed t →
  holding_of db k = Waiting.
Proof. intros Hn Ht (_ & Hc & _). unfold holding_of. by rewrite Hn, Ht, Hc. Qed.

(** A live lease is never swept: its deadline is within the schedule. *)
Lemma schedule_after_deadline t c d now : task_ok t → leased t c d → now < d → schedule_over t now = false.
Proof.
  intros [(i & Hs & _ & Hsch) _ Hlim] (He & _ & Hd) Hlt. unfold schedule_over. rewrite (stored_schedule _ _ Hs).
  destruct (schedule_to_close (inv_policy i)) as [s|] eqn:Es; [|done]. apply Z.leb_gt.
  destruct (Hsch s eq_refl He) as (l & Hl & Hle). pose proof (Hlim _ _ Hl Hd).
  pose proof (stored_valid _ _ Hs) as [Hp _]. apply policy_positive in Hp as (_ & _ & _ & Hpos).
  rewrite sql_milliseconds_eq by by apply Hpos. lia.
Qed.

Lemma moves_none now mine c : moves now mine c c.
Proof. by left. Qed.

Lemma moves_by now (mine : CustodyLabel → Prop) l c c' : mine l → custody_step now l c c' → moves now mine c c'.
Proof. right. by exists l. Qed.

Lemma moves_mono now (mine mine' : CustodyLabel → Prop) c c' : (∀ l, mine l → mine' l) → moves now mine c c' → moves now mine' c c'.
Proof. intros Hm [->|(l & Hl & Hs)]; [by left|right; eauto]. Qed.

Lemma swept_custody P now qs db db' k : db_ok db → swept P now qs db db' →
  moves now (λ l, l = LSweep) (custody_of db k) (custody_of db' k).
Proof.
  intros Hok Hs. unfold custody_of. rewrite (sw_cancellations _ _ _ _ _ Hs).
  destruct (dget k (db_tasks db)) as [t|] eqn:Ht.
  2:{ assert (holding_of db' k = holding_of db k) as ->; [|by left]. unfold holding_of.
      rewrite (sw_kept _ _ _ _ _ Hs) by congruence. by rewrite Ht, (sw_none _ _ _ _ _ Hs). }
  destruct (swept_task_mono _ _ _ _ _ _ _ Hs Ht) as (t' & Ht' & Hc).
  destruct (exhausted_row now qs db (k, t)) eqn:Hx.
  - destruct (sw_exhausted _ _ _ _ _ Hs _ _ Ht Hx) as (r & (f & Hf & Hv & ->) & Hr).
    pose proof (exhausted_open _ _ _ _ _ Hx) as Hn. eapply moves_by; [done|].
    assert (timed_out (sorted_failure (failure_text f))).
    { exists (failure_text f). split; [by apply decode_failed|]. unfold ActivityFailure_new in Hf. by inv_ok. }
    assert (dmem k (db_cancellations db) = false) as ->.
    { unfold exhausted_row, open_task in Hx. simpl in Hx. rewrite !andb_true_iff, !negb_true_iff in Hx. naive_solver. }
    assert (Hh : holding_of db' k = Ended (tk_epoch t) (tk_claimant t) (sorted_failure (failure_text f))) by (unfold holding_of; by rewrite Hr).
    rewrite Hh. destruct (ok_task _ Hok _ _ Ht) as [_ Hto]. destruct (to_lease _ Hto) as [Hu|(c & d & Hl)].
    + rewrite (holding_waiting _ _ _ Hn Ht Hu). destruct Hu as (-> & -> & _). by constructor.
    + rewrite (holding_leased _ _ _ _ _ Hn Ht Hl). pose proof Hl as (_ & -> & Hd). apply cu_expire; [|done].
      destruct (Z.le_gt_cases d now) as [|Hlt]; [done|]. unfold exhausted_row, expired_lease in Hx. simpl in Hx.
      rewrite Hd, (schedule_after_deadline _ _ _ _ Hto Hl Hlt) in Hx.
      rewrite (proj2 (Z.leb_gt d now)) in Hx by done. by rewrite !andb_false_r in Hx.
  - assert (holding_of db' k = holding_of db k) as ->; [|by left]. unfold holding_of.
    rewrite (sw_kept _ _ _ _ _ Hs) by naive_solver. rewrite Ht, Ht'. by destruct Hc as [->|(a & _ & ->)].
Qed.

Lemma claim_holding P now w db a db' : db_ok db → local_claim P (Ok now) w db = Ok (Some a, db') →
  ∃ t, dget (akey a) (db_tasks db) = Some t ∧ dget (akey a) (db_terminals db) = None ∧
    dget (akey a) (db_cancellations db) = None ∧ tk_queue t ∈ lw_queues w ∧
    (tk_epoch t = 0 ∨ expired_lease t now = true) ∧ attempts_left t = true ∧ schedule_over t now = false ∧
    decode_invocation (tk_invocation t) = Ok (at_invocation a) ∧ at_epoch a = tk_epoch t + 1 ∧
    (0 < tk_epoch t → ∃ b, backoff P t = Ok b ∧ b ≤ now) ∧
    holding_of db' (akey a)
      = Held (at_epoch a) (lw_claimant w) (claim_deadline (inv_policy (at_invocation a)) now (tk_schedule_start t)).
Proof.
  intros Hok H. apply (claim_spec _ _ _ _ _ _ Hok) in H as (db1 & Hs & [(t & Ht & Hc & Hd & He & _ & _ & -> & _) _ _]).
  fold (akey a) in *. apply claimable_spec in Hc as (Hn & Hf & Hq & Hl & Ha & Hx).
  destruct (dget (akey a) (db_tasks db)) as [t0|] eqn:Ht0; [|apply (sw_none _ _ _ _ _ Hs) in Ht0; congruence].
  pose proof (sw_task _ _ _ _ _ Hs _ _ Ht0) as Hr.
  assert (Hn0 : dget (akey a) (db_terminals db) = None).
  { destruct (exhausted_row now (lw_queues w) db (akey a, t0)) eqn:E.
    - by destruct (sw_exhausted _ _ _ _ _ Hs _ _ Ht0 E) as (r & _ & ?); congruence.
    - rewrite <-(sw_kept _ _ _ _ _ Hs); [done|naive_solver]. }
  assert (Hf0 : dget (akey a) (db_cancellations db) = None) by (by rewrite <-(sw_cancellations _ _ _ _ _ Hs)).
  assert (Hxo : exhausted_row now (lw_queues w) db (akey a, t0) = false).
  { destruct (exhausted_row _ _ _ _) eqn:E; [|done]. destruct (sw_exhausted _ _ _ _ _ Hs _ _ Ht0 E) as (r & _ & ?). congruence. }
  assert (Hopen : open_task db (akey a) = true) by (unfold open_task; by rewrite !(proj2 (dmem_false _ _))).
  assert (Hmine : ∃ b, t = t0 ∨ t = with_available b t0).
  { case_match; [destruct Hr as (b & _ & Hr); exists b|exists 0]; simplify_eq; auto. }
  exists t0. destruct Hmine as (b & Hb).
  assert (Hq0 : tk_queue t0 ∈ lw_queues w) by (by destruct Hb; subst).
  assert (Hl0 : attempts_left t0 = true) by (by destruct Hb; subst).
  assert (Hx0 : tk_epoch t0 = 0 ∨ expired_lease t0 now = true) by (by destruct Hb; subst).
  do 6 (split; [done|]). split.
  { unfold exhausted_row, in_queues in Hxo. simpl in Hxo. rewrite Hopen, bool_decide_true in Hxo by done. simpl in Hxo.
    by apply orb_false_iff in Hxo as [_ ?]. }
  split; [by destruct Hb; subst|]. split; [by destruct Hb; subst|]. split.
  - intros Hp. assert (retryable_row now (lw_queues w) db (akey a, t0) = true) as Hre.
    { unfold retryable_row, in_queues. simpl. rewrite Hopen, bool_decide_true by done. rewrite Hl0, (proj2 (Z.ltb_lt _ _)) by done.
      destruct Hx0 as [?| ->]; [lia|done]. }
    rewrite Hre in Hr. destruct Hr as (b' & Hb' & Hr). exists b'. split; [done|]. simplify_eq. done.
  - rewrite holding_update, decide_True by done. rewrite Hn, Ht. simpl. by destruct Hb; subst.
Qed.

Lemma claim_cancellations P now w db r db' : db_ok db → local_claim P (Ok now) w db = Ok (r, db') →
  db_cancellations db' = db_cancellations db.
Proof.
  intros Hok H. apply (claim_spec _ _ _ _ _ _ Hok) in H as (db1 & Hs & H). rewrite <-(sw_cancellations _ _ _ _ _ Hs).
  destruct r; [|by destruct H as [-> _]]. destruct H as [(t & _ & _ & _ & _ & _ & _ & -> & _) _ _]. apply update_task_cancellations.
Qed.

Lemma claim_deadline_future p t i now : stored_invocation (tk_invocation t) i → p = inv_policy i →
  schedule_over t now = false → now ≤ claim_deadline p now (tk_schedule_start t).
Proof.
  intros Hs -> Hover. pose proof (stored_valid _ _ Hs) as [Hp _]. apply policy_positive in Hp as (_ & Hhb & Hstc & Hsc).
  assert (Hl : Forall (λ l, now ≤ l) (hard_limits (inv_policy i) now (tk_schedule_start t))).
  { unfold hard_limits. unfold schedule_over in Hover. rewrite (stored_schedule _ _ Hs) in Hover. apply Forall_app. split.
    - destruct (start_to_close _) as [s|]; [|done]. constructor; [|done]. pose proof (milliseconds_nonneg s). lia.
    - destruct (schedule_to_close _) as [s|] eqn:Es; [|done]. constructor; [|done]. apply Z.leb_gt in Hover.
      rewrite sql_milliseconds_eq in Hover by by apply Hsc. lia. }
  unfold claim_deadline. assert (Hb : now ≤ now + heartbeat_timeout (inv_policy i) * 1000) by lia.
  revert Hb. generalize (now + heartbeat_timeout (inv_policy i) * 1000).
  induction Hl as [|l ls Hl _ IH]; intros b Hb; [done|]. apply IH. lia.
Qed.

Lemma claim_custody P now w db r db' k : db_ok db → local_claim P (Ok now) w db = Ok (r, db') →
  moves now (performs (OClaim w) k) (custody_of db k) (custody_of db' k).
Proof.
  intros Hok H. destruct (decide (akey <$> r = Some k)) as [E|Hno]; [apply fmap_Some in E as (a & -> & ->)|].
  - destruct (claim_holding _ _ _ _ _ _ Hok H) as (t & Ht & Hn & Hf & _ & Hx & _ & Hover & Hd & He & _ & Hh).
    destruct (ok_task _ Hok _ _ Ht) as [_ Hto]. destruct (decode_stored _ _ Hto Hd) as [Hs _].
    pose proof (claim_deadline_future _ _ _ _ Hs eq_refl Hover) as Hu.
    apply moves_by with (LClaim (lw_claimant w)); [by right|].
    unfold custody_of. rewrite Hh, (claim_cancellations _ _ _ _ _ _ Hok H), (proj2 (dmem_false _ _) Hf).
    destruct (to_lease _ Hto) as [Hw|(c & d & Hl)].
    + rewrite (holding_waiting _ _ _ Hn Ht Hw). destruct Hw as (Hz & _). rewrite He, Hz. by constructor.
    + rewrite (holding_leased _ _ _ _ _ Hn Ht Hl), He. destruct Hl as (Hp & _ & Hdl). constructor; [|done].
      destruct Hx as [|Hx]; [lia|]. unfold expired_lease in Hx. rewrite Hdl in Hx. by apply Z.leb_le.
  - apply (claim_spec _ _ _ _ _ _ Hok) in H as (db1 & Hs & H).
    assert (custody_of db' k = custody_of db1 k) as ->.
    { destruct r as [a|]; [|by destruct H as [-> _]]. destruct H as [(t & _ & _ & _ & _ & _ & _ & -> & _) _ _].
      rewrite custody_update, holding_update, decide_False; [done|]. intros ->. by apply Hno. }
    eapply moves_mono; [|by eapply swept_custody]. intros l ->. by left.
Qed.

Lemma reported_custody now a x db db' k : db_ok db → reported now a x db db' →
  moves now (λ l, k = akey a ∧ l = LReport (at_epoch a) (at_claimant a) x) (custody_of db k) (custody_of db' k).
Proof.
  intros Hok ((t & Hh & Hw) & (Hn & _ & ->)%insert_terminal_Ok). unfold custody_of, holding_of. simpl.
  rewrite dget_dset. destruct (decide (k = akey a)) as [->|]; [|by left]. eapply moves_by; [done|]. simpl.
  change (custody_step now (LReport (at_epoch a) (at_claimant a) x) (custody_of db (akey a))
    (MkCustody (Ended (at_epoch a) (Some (at_claimant a)) x) (dmem (akey a) (db_cancellations db)))).
  unfold custody_of. pose proof Hh as (Ht & _ & _ & _ & He & Hc).
  destruct (ok_task _ Hok _ _ Ht) as [_ Hto]. destruct (to_lease _ Hto) as [(_ & ? & _)|(c & d & Hl)]; [congruence|].
  rewrite (holding_leased _ _ _ _ _ Hn Ht Hl), <-He. destruct Hl as (_ & Hc' & Hd). simplify_eq.
  destruct Hw as [Hf|(Hf & d' & Hd' & Hlt)].
  - rewrite (proj2 (dmem_true _ _)) by by apply dget_is_Some. constructor.
  - rewrite (proj2 (dmem_false _ _)) by done. simplify_eq. by constructor.
Qed.

Lemma released_custody P now a f db db' k : db_ok db → released P now a f db db' →
  moves now (λ l, k = akey a ∧ l = LRelease (at_epoch a) (at_claimant a)) (custody_of db k) (custody_of db' k).
Proof.
  intros Hok (t & d & w & Hh & Hf & Hd & Hlt & _ & _ & ->). rewrite custody_update, holding_update.
  unfold custody_of. case_decide as E; [|by left]. subst k. destruct (holds_leased _ _ _ _ Hok Hh Hd) as [Hto Hl].
  pose proof Hh as (Ht & Hn & _ & _ & He & Hc). rewrite Hn, Ht, (proj2 (dmem_false _ _) Hf). simpl. rewrite Hc.
  rewrite (holding_leased _ _ _ _ _ Hn Ht Hl), He. eapply moves_by; [done|]. by constructor.
Qed.

Lemma heartbeat_custody P now a d db v db' k : db_ok db → local_heartbeat P (Ok now) a d db = Ok (v, db') →
  moves now (performs (OHeartbeat a d) k) (custody_of db k) (custody_of db' k).
Proof.
  intros Hok H. pose proof H as H'. apply heartbeat_spec in H' as (t0 & _ & _ & _ & (Ht0 & _ & _ & _ & He0 & Hc0) & _).
  apply (heartbeat_until_ok _ _ _ _ _ _ _ Hok) in H as (_ & t & c & e & u & Ht & Hl & Hlt & Hu & Hf & Hn & f & -> & Hx).
  rewrite custody_update, holding_update. unfold custody_of. case_decide as E; [|by left]. subst k. simplify_eq.
  rewrite Hn, Ht, (proj2 (dmem_false _ _) Hf), (holding_leased _ _ _ _ _ Hn Ht Hl). destruct Hl as (_ & Hc & _).
  eapply moves_by; [split; reflexivity|]. simplify_eq. destruct Hx as [->|[y ->]]; simpl; rewrite Hc, <-He0; by constructor.
Qed.

Lemma dispatch_custody now o i s db s' db' k : db_ok db → local_dispatch (Ok now) o i s db = Ok (s', db') →
  moves now (performs (ODispatch s o i) k) (custody_of db k) (custody_of db' k).
Proof.
  intros Hok H. apply dispatch_spec in H as (_ & _ & x & _ & [(c & _ & _ & ->)|(Hc & [(q & Hn & ->)|(t & Ht & _ & [->|(q & Hn & _ & ->)])])]);
    [by left| |by left|].
  - unfold custody_of, holding_of. simpl. rewrite dget_dset. case_decide as E; [|by left]. subst k. rewrite Hn.
    destruct (dget _ (db_terminals db)) as [r|] eqn:Hr.
    + destruct (ok_row _ Hok _ _ Hr) as [(t & Ht & _) _]. congruence.
    + rewrite (proj2 (dmem_false _ _) Hc). eapply moves_by; [split; reflexivity|]. constructor.
  - rewrite custody_update, holding_update. case_decide as E; [|by left]. subst k. unfold custody_of, holding_of.
    rewrite Hn, Ht. by left.
Qed.

Lemma cancel_custody c s db d s' db' k now : local_cancel c s db = Ok (d, s', db') →
  moves now (performs (OCancel s c) k) (custody_of db k) (custody_of db' k).
Proof.
  intros H. apply cancel_spec in H as (_ & x & _ & _ & [(_ & -> & _)|(Hn & -> & _)]); [by left|].
  unfold custody_of. change (holding_of (set_cancellations _ db) k) with (holding_of db k). simpl.
  destruct (decide (k = (ld_instance s, ci_occurrence c))) as [->|Hne].
  - rewrite (proj2 (dmem_false _ _) Hn), (proj2 (dmem_true _ (dset _ _ _))) by (apply dget_is_Some; rewrite dget_dset_eq; eauto).
    eapply moves_by; [split; reflexivity|]. constructor.
  - unfold dmem. rewrite dget_dset_ne by done. by left.
Qed.

Lemma perform_custody P now op db db' k : db_ok db → valid_local_op op → local_perform P now op db = Ok db' →
  moves now (performs op k) (custody_of db k) (custody_of db' k).
Proof.
  intros Hok Hv H. destruct op as [s o i|s c|w|a d|a v|a e|w]; simpl in H.
  - apply bind_Ok in H as ([s' db1] & H & [= <-]). by eapply dispatch_custody.
  - apply bind_Ok in H as ([[d s'] db1] & H & [= <-]). by eapply cancel_custody.
  - apply bind_Ok in H as ([r db1] & H & [= <-]). by eapply claim_custody.
  - apply bind_Ok in H as ([r db1] & H & [= <-]). exact (heartbeat_custody _ _ _ _ _ _ _ k Hok H).
  - apply complete_spec in H as (x & Hx & [[_ ->]|H]); [by left|]. eapply moves_mono; [|by eapply reported_custody].
    intros l [-> ->]. simpl. eauto.
  - apply fail_spec in H as (f & Hf & _ & [[_ ->]|[H|H]]); [by left| | |by intros g ->].
    + eapply moves_mono; [|by eapply reported_custody]. intros l [-> ->]. simpl. eauto 10.
    + eapply moves_mono; [|by eapply released_custody]. intros l [-> ->]. simpl. eauto 10.
  - apply bind_Ok in H as ([r db1] & H & [= <-]). simpl. apply wait_spec in H. eapply swept_custody; [done|]. by apply sweep_spec.
Qed.

(** ** Consequences in the abstract machine *)

Definition epoch_of (h : Holding) : Z :=
  match h with Unpublished | Waiting => 0 | Held e _ _ | Ended e _ _ => e end.

(** [h'] may follow [h]: an ending is final, epochs never decrease. *)
Definition follows (h h' : Holding) : Prop :=
  epoch_of h ≤ epoch_of h' ∧ ∀ e c x, h = Ended e c x → h' = h.

Lemma follows_refl h : follows h h.
Proof. split; [lia|done]. Qed.

Lemma follows_trans h1 h2 h3 : follows h1 h2 → follows h2 h3 → follows h1 h3.
Proof. intros [H1 H2] [H3 H4]. split; [lia|]. intros e c x E. rewrite (H4 e c x); rewrite (H2 _ _ _ E); done. Qed.

Lemma step_follows now l c c' : custody_step now l c c' →
  follows (holding c) (holding c') ∧ (fenced c = true → fenced c' = true).
Proof. destruct 1; simpl in *; (split; [split; [simpl; lia|done]|done]). Qed.

Lemma moves_follow now mine c c' : moves now mine c c' →
  follows (holding c) (holding c') ∧ (fenced c = true → fenced c' = true).
Proof. intros [->|(l & _ & H)]; [split; [apply follows_refl|done]|by eapply step_follows]. Qed.

(** ** Exclusive leases *)

(** A report by the attempt that holds the occurrence. *)
Definition by_holder (op : LocalOp) (k : Key) (e : Z) (c : string) : Prop :=
  match op with
  | OHeartbeat a _ | OComplete a _ | OFail a _ => akey a = k ∧ at_epoch a = e ∧ at_claimant a = c
  | _ => False
  end.

Lemma holding_Held db k e c u : holding_of db k = Held e c u ↔
  dget k (db_terminals db) = None ∧
  ∃ t, dget k (db_tasks db) = Some t ∧ tk_epoch t = e ∧ tk_claimant t = Some c ∧ tk_deadline t = Some u.
Proof.
  unfold holding_of. destruct (dget k (db_terminals db)); [naive_solver|].
  destruct (dget k (db_tasks db)) as [t|]; [|naive_solver].
  destruct (tk_claimant t) eqn:Hc, (tk_deadline t) eqn:Hd; naive_solver.
Qed.

Lemma swept_held P now qs db db' k e c u : db_ok db → swept P now qs db db' → holding_of db k = Held e c u → now < u →
  holding_of db' k = Held e c u.
Proof.
  intros Hok Hs (Hn & t & Ht & He & Hc & Hd)%holding_Held Hlt. apply holding_Held.
  destruct (ok_task _ Hok _ _ Ht) as [_ Hto].
  assert (Hl : leased t c u) by (destruct (to_lease _ Hto) as [(_ & ? & _)|(? & ? & ? & _)]; [congruence|done]).
  split.
  - rewrite (sw_kept _ _ _ _ _ Hs); [done|]. intros t' Ht'. simplify_eq. unfold exhausted_row, expired_lease. simpl.
    rewrite Hd, (schedule_after_deadline _ _ _ _ Hto Hl Hlt), (proj2 (Z.leb_gt u now)) by done.
    by rewrite !andb_false_r.
  - destruct (swept_task_mono _ _ _ _ _ _ _ Hs Ht) as (t' & Ht' & [->|(a & _ & ->)]); [by exists t|].
    by exists (with_available a t).
Qed.

Lemma claimed_held P now w db1 a db' k e c u : claimed P now w db1 a db' → holding_of db1 k = Held e c u → now < u →
  0 < e → holding_of db' k = Held e c u.
Proof.
  intros [(t & Ht & Hc & _ & _ & _ & _ & -> & _) _ _] Hh Hlt He. rewrite holding_update.
  case_decide as E; [|done]. subst k. apply holding_Held in Hh as (_ & t' & Ht' & He' & _ & Hd). simplify_eq.
  apply claimable_spec in Hc as (_ & _ & _ & _ & _ & [Hc|Hc]); [lia|]. unfold expired_lease in Hc.
  rewrite Hd in Hc. apply Z.leb_le in Hc. lia.
Qed.

Lemma holds_by_holder db a t k e c u : holds db a t → akey a = k → holding_of db k = Held e c u →
  at_epoch a = e ∧ at_claimant a = c.
Proof. intros (Ht & _ & _ & _ & He & Hc) <- (_ & t' & Ht' & He' & Hc' & _)%holding_Held. simplify_eq. done. Qed.

Lemma reported_held now a x db db' k e c u : reported now a x db db' → holding_of db k = Held e c u →
  ¬ (akey a = k ∧ at_epoch a = e ∧ at_claimant a = c) → holding_of db' k = Held e c u.
Proof.
  intros ((t & Hh & _) & (_ & _ & ->)%insert_terminal_Ok) Hk Hno. unfold holding_of in *. simpl.
  rewrite dget_dset_ne; [done|]. intros ->. apply Hno. split; [done|]. by eapply holds_by_holder.
Qed.

Lemma update_held f db a t k e c u : holds db a t → holding_of db k = Held e c u →
  ¬ (akey a = k ∧ at_epoch a = e ∧ at_claimant a = c) → holding_of (update_task (akey a) f db) k = Held e c u.
Proof.
  intros Hh Hk Hno. rewrite holding_update. case_decide as E; [|done]. destruct Hno.
  split; [done|]. by eapply holds_by_holder.
Qed.

Lemma perform_exclusive P now op db db' k e c u : db_ok db → valid_local_op op → local_perform P now op db = Ok db' →
  holding_of db k = Held e c u → now < u → ¬ by_holder op k e c → holding_of db' k = Held e c u.
Proof.
  intros Hok Hv H Hk Hlt Hno. destruct op as [s o i|s c'|w|a d|a v|a er|w]; simpl in H.
  - apply bind_Ok in H as ([s' db1] & H & [= <-]). simpl.
    apply dispatch_spec in H as (_ & _ & x & _ & [(c' & _ & _ & ->)|(Hc & [(q & Hn & ->)|(t & Ht & _ & [->|(q & Hn & _ & ->)])])]); try done.
    + apply holding_Held in Hk as (Hn' & t & Ht & Hk). apply holding_Held. split; [done|]. exists t. split; [|done]. simpl.
      rewrite dget_dset_ne by congruence. done.
    + rewrite holding_update. case_decide; [subst k|done]. unfold holding_of in Hk. by rewrite Hn, Ht in *.
  - apply bind_Ok in H as ([[d s'] db1] & H & [= <-]). simpl.
    apply cancel_spec in H as (_ & x & _ & _ & [(_ & -> & _)|(Hn & -> & _)]); done.
  - apply bind_Ok in H as ([r db1] & H & [= <-]). simpl. apply claim_spec in H as (db2 & Hs & H); [|done].
    assert (0 < e).
    { apply holding_Held in Hk as (_ & t & Ht & He & Hc & _). destruct (ok_task _ Hok _ _ Ht) as [_ Hto].
      destruct (to_lease _ Hto) as [(_ & ? & _)|(? & ? & ? & _)]; [congruence|lia]. }
    apply (swept_held _ _ _ _ _ _ _ _ _ Hok Hs) in Hk; [|done]. destruct r; [by eapply claimed_held|by destruct H as [-> _]].
  - apply bind_Ok in H as ([r db1] & H & [= <-]). simpl.
    apply heartbeat_spec in H as (t & i & dl & f & Hh & _ & _ & _ & _ & -> & _). by eapply update_held.
  - apply complete_spec in H as (x & _ & [[_ ->]|H]); [done|]. by eapply reported_held.
  - apply fail_spec in H as (f & _ & Hf & [[_ ->]|[H|(t & d & w & Hh & _ & _ & _ & _ & _ & ->)]]);
      [done|by eapply reported_held|by eapply update_held|]. intros g ->. done.
  - apply bind_Ok in H as ([r db1] & H & [= <-]). simpl. apply wait_spec in H.
    eapply swept_held; [done|by apply sweep_spec|done|done].
Qed.
