(* ===== verification/LocalTheorems.v ===== *)
(** * What the local custody provider guarantees

    Properties of every database that any interleaving of transactions builds
    from an empty one, with a small scenario at which they evaluate. *)

From stdpp Require Import base gmap sets list strings relations.
From Stdlib Require Import ZArith Lia.
From S2P Require Import Prelude PyData Activity Lifecycle Instance Dispatch LocalDispatch LocalInvariant Custody.
Open Scope string_scope.
Open Scope list_scope.
Open Scope Z_scope.

(** ** A scenario *)

Definition demo_platform : Platform := MkPlatform (λ _ _ _, 10) (λ i _ _, i) (λ _, 100).

Definition demo_policy : ExecutionPolicy :=
  MkPolicy 3 30 (NInt 1) (NInt 2) (NInt 60) (NInt 0) None (Some (NInt 600)).

Definition demo_call : ActivityInvocation :=
  MkInvocation "charge" (DDict [("amount", DInt 5)]) demo_policy (Some "c") (Some "k").

Definition demo_session : LocalDispatch := MkLocal "one" "default" [] ∅ ∅.
Definition demo_worker : LocalWorkerDispatch := MkWorker ["default"] "w".
Definition demo_rival : LocalWorkerDispatch := MkWorker ["default"] "v".

Definition demo_attempt (now : Z) (w : LocalWorkerDispatch) (db : DB) : option ActivityAttempt :=
  match local_claim demo_platform (Ok now) w db with Ok (a, _) => a | Err _ => None end.

Definition demo_published : DB := local_run demo_platform db_empty [(1000, ODispatch demo_session 1 demo_call)].
Definition demo_claimed : DB := local_run demo_platform demo_published [(1000, OClaim demo_worker)].

Definition demo_held : ActivityAttempt :=
  MkAttempt "one" 1 1 "w" "default" demo_call DNone (Some "one").

Lemma demo_call_valid : valid_invocation demo_call.
Proof. split; reflexivity. Qed.

Lemma demo_publish_valid : Forall (λ top : Z * LocalOp, valid_local_op top.2) [(1000, ODispatch demo_session 1 demo_call)].
Proof. repeat constructor; apply demo_call_valid. Qed.

Definition demo_ops : list (Z * LocalOp) :=
  [(1000, ODispatch demo_session 1 demo_call); (1000, OClaim demo_worker)].

Lemma demo_ops_valid : Forall (λ top, valid_local_op top.2) demo_ops.
Proof. repeat constructor; apply demo_call_valid. Qed.

(** ** Reachable databases *)

Lemma reachable_db_ok P ops : Forall (λ top, valid_local_op top.2) ops → db_ok (local_run P db_empty ops).
Proof. intros H. apply run_ok; [apply db_empty_ok|done]. Qed.




(** C11: until its deadline a lease is exclusive: whatever the other
    sessions and workers try before that instant, the occurrence stays held by
    the same claimant under the same epoch and deadline. *)
Theorem lease_is_exclusive P ops later k e c u :
  Forall (λ top, valid_local_op top.2) ops →
  holding_of (local_run P db_empty ops) k = Held e c u →
  Forall (λ top, valid_local_op top.2 ∧ top.1 < u ∧ ¬ by_holder top.2 k e c) later →
  holding_of (local_run P (local_run P db_empty ops) later) k = Held e c u.
Proof.
  intros Hops Hk Hl. apply reachable_db_ok with (P := P) in Hops. revert Hops Hk. generalize (local_run P db_empty ops).
  induction Hl as [|top later (Hv & Hlt & Hno) _ IH]; intros db Hok Hk; [done|].
  apply IH; [by apply attempt_ok|]. unfold local_attempt. destruct (local_perform _ _ _ _) eqn:E; [|done].
  by eapply perform_exclusive.
Qed.

Lemma lease_is_exclusive_witness :
  holding_of demo_claimed ("one", 1) = Held 1 "w" 31000 ∧
  holding_of (local_run demo_platform demo_claimed
    [(30999, OClaim demo_rival); (30999, OComplete (MkAttempt "one" 1 1 "v" "default" demo_call DNone (Some "one")) DNone)])
    ("one", 1) = Held 1 "w" 31000.
Proof.
  split; [vm_compute; reflexivity|].
  apply (lease_is_exclusive demo_platform demo_ops); [exact demo_ops_valid|vm_compute; reflexivity|].
  repeat constructor; simpl; try lia; naive_solver.
Defined.

Lemma run_custody P later db k : db_ok db → Forall (λ top, valid_local_op top.2) later →
  follows (holding_of db k) (holding_of (local_run P db later) k) ∧
  (dmem k (db_cancellations db) = true → dmem k (db_cancellations (local_run P db later)) = true).
Proof.
  intros Hok Hl. revert db Hok. induction Hl as [|top later Hv _ IH]; intros db Hok; [split; [apply follows_refl|done]|].
  destruct (IH (local_attempt P db top) (attempt_ok _ _ _ Hok Hv)) as [H1 H2].
  assert (H : follows (holding_of db k) (holding_of (local_attempt P db top) k) ∧
              (dmem k (db_cancellations db) = true → dmem k (db_cancellations (local_attempt P db top)) = true)).
  { unfold local_attempt. destruct (local_perform _ _ _ _) eqn:E; [|split; [apply follows_refl|done]].
    apply (perform_custody _ _ _ _ _ k Hok Hv), moves_follow in E. done. }
  destruct H as [H3 H4]. split; [by eapply follows_trans|auto].
Qed.

(** A recorded outcome never changes, a fence never opens and epochs
    never go back, whatever transactions follow. *)
Theorem outcome_is_final P ops later k :
  Forall (λ top, valid_local_op top.2) ops → Forall (λ top, valid_local_op top.2) later →
  let db := local_run P db_empty ops in let db' := local_run P db later in
  (∀ e c x, holding_of db k = Ended e c x → holding_of db' k = Ended e c x) ∧
  (dmem k (db_cancellations db) = true → dmem k (db_cancellations db') = true) ∧
  epoch_of (holding_of db k) ≤ epoch_of (holding_of db' k).
Proof.
  intros Hops Hl db db'. destruct (run_custody P later db k) as [[He Hf] Hc]; [by apply reachable_db_ok|done|].
  split; [|done]. intros e c x Hx. unfold db'. rewrite (Hf _ _ _ Hx). done.
Qed.

Definition demo_done : list (Z * LocalOp) := demo_ops ++ [(2000, OComplete demo_held (DInt 7))].

Lemma demo_done_valid : Forall (λ top, valid_local_op top.2) demo_done.
Proof. unfold demo_done. apply Forall_app. split; [apply demo_ops_valid|by repeat constructor]. Qed.

Lemma outcome_is_final_witness :
  holding_of (local_run demo_platform db_empty demo_done) ("one", 1) = Ended 1 (Some "w") (completed_outcome (DInt 7)) ∧
  holding_of (local_run demo_platform (local_run demo_platform db_empty demo_done) [(9000, OComplete demo_held (DInt 8))])
    ("one", 1) = Ended 1 (Some "w") (completed_outcome (DInt 7)).
Proof.
  assert (H : holding_of (local_run demo_platform db_empty demo_done) ("one", 1) = Ended 1 (Some "w") (completed_outcome (DInt 7)))
    by (vm_compute; reflexivity).
  split; [exact H|].
  exact (proj1 (outcome_is_final demo_platform demo_done [(9000, OComplete demo_held (DInt 8))] ("one", 1)
    demo_done_valid ltac:(repeat constructor)) _ _ _ H).
Defined.

(** ** Claims *)

(** A claim starts the next epoch of an open occurrence, never more
    than the policy's attempts, never while a lease runs or the schedule is
    over, and not before an expired lease's backoff has passed. *)
Theorem claim_starts_the_next_attempt P ops now w a db' :
  Forall (λ top, valid_local_op top.2) ops →
  let db := local_run P db_empty ops in
  local_claim P (Ok now) w db = Ok (Some a, db') →
  dmem (akey a) (db_cancellations db) = false ∧
  at_epoch a = epoch_of (holding_of db (akey a)) + 1 ∧ 1 ≤ at_epoch a ≤ attempts (inv_policy (at_invocation a)) ∧
  (holding_of db (akey a) = Waiting ∨
   ∃ e c u w, holding_of db (akey a) = Held e c u ∧
      delay P (retry_policy (inv_policy (at_invocation a))) e = Ok w ∧ u + milliseconds w ≤ now) ∧
  ∃ u, holding_of db' (akey a) = Held (at_epoch a) (lw_claimant w) u.
Proof.
  intros Hops db H. pose proof (reachable_db_ok P ops Hops) as Hok. fold db in Hok.
  destruct (claim_holding _ _ _ _ _ _ Hok H) as (t & Ht & Hn & Hf & _ & Hx & Hl & _ & Hd & He & Hb & Hh).
  destruct (ok_task _ Hok _ _ Ht) as [_ Hto]. destruct (decode_stored _ _ Hto Hd) as [Hs _].
  unfold attempts_left in Hl. rewrite (stored_attempts _ _ Hs) in Hl. apply Z.ltb_lt in Hl.
  split; [by apply dmem_false|]. destruct (to_lease _ Hto) as [Hu|(c & d & Hle)].
  - rewrite (holding_waiting _ _ _ Hn Ht Hu). destruct Hu as (Hz & _). simpl. split; [lia|]. split; [lia|]. split; [by left|]. eauto.
  - rewrite (holding_leased _ _ _ _ _ Hn Ht Hle). destruct Hle as (Hp & _ & Hdl). simpl. split; [lia|]. split; [lia|].
    split; [|by eauto]. right. destruct (Hb Hp) as (b & Hb' & Hle). unfold backoff in Hb'. rewrite Hd, Hdl in Hb'. simpl in Hb'.
    inv_ok. eexists _, _, _, _. done.
Qed.

Lemma claim_starts_the_next_attempt_witness :
  local_claim demo_platform (Ok 1000) demo_worker demo_published = Ok (Some demo_held, demo_claimed) ∧ 1 ≤ at_epoch demo_held ≤ 3.
Proof.
  assert (H : local_claim demo_platform (Ok 1000) demo_worker demo_published = Ok (Some demo_held, demo_claimed)) by (vm_compute; reflexivity).
  split; [exact H|].
  exact (proj1 (proj2 (proj2 (claim_starts_the_next_attempt demo_platform [(1000, ODispatch demo_session 1 demo_call)] 1000 demo_worker
    demo_held demo_claimed demo_publish_valid H)))).
Defined.

Lemma open_terminal P now qs db db' k t : db_ok db → swept P now qs db db' → dget k (db_tasks db') = Some t →
  open_task db' k = true → tk_queue t ∈ qs →
  (0 < tk_epoch t → expired_lease t now = true → attempts_left t = true) ∧ schedule_over t now = false.
Proof.
  intros Hok Hs Ht Ho Hq. unfold open_task in Ho. rewrite (sw_cancellations _ _ _ _ _ Hs) in Ho.
  apply andb_true_iff in Ho as [Hn Hf]. apply negb_true_iff in Hn, Hf. apply dmem_false in Hn.
  destruct (dget k (db_tasks db)) as [t0|] eqn:Ht0; [|apply (sw_none _ _ _ _ _ Hs) in Ht0; congruence].
  destruct (exhausted_row now qs db (k, t0)) eqn:Hx.
  { destruct (sw_exhausted _ _ _ _ _ Hs _ _ Ht0 Hx) as (r & _ & ?). congruence. }
  assert (Hn0 : dget k (db_terminals db) = None) by (rewrite <-(sw_kept _ _ _ _ _ Hs); [done|naive_solver]).
  destruct (swept_task_mono _ _ _ _ _ _ _ Hs Ht0) as (t' & Ht' & Hc). simplify_eq.
  assert (exhausted_row now qs db (k, t) = false) as Hx'.
  { destruct Hc as [->|(a & _ & ->)]; [done|]. rewrite <-Hx. by apply exhausted_available. }
  destruct (ok_task _ (swept_ok _ _ _ _ _ Hok Hs) _ _ Ht) as [_ Hto]. destruct (to_stored _ Hto) as (i & Hi & _).
  unfold exhausted_row, open_task, in_queues, attempts_spent, attempts_left in *. simpl in *.
  rewrite (stored_attempts _ _ Hi) in *. rewrite (proj2 (dmem_false _ _) Hn0), Hf, bool_decide_true in Hx' by done. simpl in Hx'.
  apply orb_false_iff in Hx' as [Hx1 Hx2]. split; [|done]. intros Hp He.
  rewrite He, (proj2 (Z.ltb_lt _ _) Hp) in Hx1. simpl in Hx1. apply Z.leb_gt in Hx1. by apply Z.ltb_lt.
Qed.

(** When a claim hands out nothing, nothing is lost: every published,
    uncancelled occurrence of its queues has ended, is held under a running
    lease, or is waiting out a delay that ends later. *)
Theorem idle_claim_leaves_nothing_ready P ops now w db' k t :
  Forall (λ top, valid_local_op top.2) ops →
  local_claim P (Ok now) w (local_run P db_empty ops) = Ok (None, db') →
  dget k (db_tasks db') = Some t → tk_queue t ∈ lw_queues w → dmem k (db_cancellations db') = false →
  (∃ e c x, holding_of db' k = Ended e c x) ∨
  (∃ e c u, holding_of db' k = Held e c u ∧ now < u) ∨ now < tk_available_at t.
Proof.
  intros Hops H Ht Hq Hf. pose proof (reachable_db_ok P ops Hops) as Hok.
  apply (claim_spec _ _ _ _ _ _ Hok) in H as (db1 & Hs & -> & Hno). pose proof (swept_ok _ _ _ _ _ Hok Hs) as Hok1.
  destruct (dget k (db_terminals db1)) as [r|] eqn:Hn; [left; unfold holding_of; rewrite Hn; eauto|right].
  assert (Ho : open_task db1 k = true) by (unfold open_task; by rewrite Hf, (proj2 (dmem_false _ _) Hn)).
  destruct (open_terminal _ _ _ _ _ _ _ Hok Hs Ht Ho Hq) as [Hl _]. specialize (Hno (k, t) (dget_elem_of _ _ _ Ht)).
  destruct (ok_task _ Hok1 _ _ Ht) as [_ Hto]. destruct (to_stored _ Hto) as (i & Hi & _).
  pose proof (stored_valid _ _ Hi) as [Hp _]. apply policy_positive in Hp as (Hp & _).
  unfold claimable_row, in_queues in Hno. simpl in Hno. rewrite Ho, bool_decide_true in Hno by done. simpl in Hno.
  destruct (Z.lt_ge_cases now (tk_available_at t)) as [|Ha]; [by right|left].
  rewrite (proj2 (Z.leb_le _ _) Ha), andb_true_r in Hno. destruct (to_lease _ Hto) as [(Hz & _)|(c & d & Hld)].
  - unfold attempts_left in Hno. rewrite (stored_attempts _ _ Hi), Hz in Hno. simpl in Hno.
    rewrite andb_true_r in Hno. apply Z.ltb_ge in Hno. lia.
  - exists (tk_epoch t), c, d. split; [by apply holding_leased|]. destruct (Z.le_gt_cases d now) as [Hle|]; [|done].
    destruct Hld as (Hp' & _ & Hd). assert (He : expired_lease t now = true) by (unfold expired_lease; rewrite Hd; by apply Z.leb_le).
    rewrite (Hl Hp' He), He, orb_true_r in Hno. done.
Qed.

Lemma idle_claim_leaves_nothing_ready_witness :
  ∃ db', local_claim demo_platform (Ok 2000) demo_rival demo_claimed = Ok (None, db') ∧
    ((∃ e c x, holding_of db' ("one", 1) = Ended e c x) ∨
     (∃ e c u, holding_of db' ("one", 1) = Held e c u ∧ 2000 < u) ∨
     2000 < tk_available_at (with_claim 1 "w" 31000 1000 (Some 601000) (new_task "default" (sorted_wire demo_call) 1000))).
Proof.
  destruct (local_claim demo_platform (Ok 2000) demo_rival demo_claimed) as [[r db']|] eqn:E; [|vm_compute in E; discriminate].
  exists db'. assert (r = None) as -> by (vm_compute in E; congruence). split; [reflexivity|].
  apply (idle_claim_leaves_nothing_ready demo_platform demo_ops 2000 demo_rival db' ("one", 1) _ demo_ops_valid E);
    vm_compute in E; injection E as <-; vm_compute; [reflexivity|left|reflexivity].
Defined.

(** ** Reports *)

(** A completion that changes anything comes from the holder of
    the current epoch, before its deadline or once the occurrence is fenced; it
    ends exactly that occurrence, with exactly that value. *)
Theorem completion_needs_the_lease P ops now a v db' :
  Forall (λ top, valid_local_op top.2) ops →
  let db := local_run P db_empty ops in
  local_complete (Ok now) a v db = Ok db' →
  ∃ x, encode_json v = Ok x ∧
    holding_of db' (akey a) = Ended (at_epoch a) (Some (at_claimant a)) (completed_outcome x) ∧
    (∀ k, k ≠ akey a → custody_of db' k = custody_of db k) ∧
    (db' = db ∨ ∃ u, holding_of db (akey a) = Held (at_epoch a) (at_claimant a) u ∧
                     (now < u ∨ dmem (akey a) (db_cancellations db) = true)).
Proof.
  intros Hops db H. pose proof (reachable_db_ok P ops Hops) as Hok. fold db in Hok.
  apply complete_spec in H as (x & Hx & [[Ha ->]|Hr]); exists x; (split; [done|]).
  - split; [unfold holding_of; by rewrite Ha|]. auto.
  - pose proof Hr as ((t & Hh & Hw) & (Hn & _ & ->)%insert_terminal_Ok).
    split; [unfold holding_of; simpl; by rewrite dget_dset_eq|]. split.
    + intros k Hk. unfold custody_of, holding_of. simpl. by rewrite dget_dset_ne.
    + right. pose proof Hh as (Ht & _ & _ & _ & He & Hc). destruct (ok_task _ Hok _ _ Ht) as [_ Hto].
      destruct (to_lease _ Hto) as [(_ & ? & _)|(c & d & Hl)]; [congruence|]. exists d.
      rewrite (holding_leased _ _ _ _ _ Hn Ht Hl). destruct Hl as (_ & Hc' & Hd). simplify_eq. rewrite He. split; [done|].
      destruct Hw as [Hf|(_ & d' & Hd' & Hlt)]; [right; by apply dmem_true, dget_is_Some|left; congruence].
Qed.

Lemma completion_needs_the_lease_witness :
  ∃ db', local_complete (Ok 2000) demo_held (DInt 7) demo_claimed = Ok db' ∧
         holding_of db' ("one", 1) = Ended 1 (Some "w") (completed_outcome (DInt 7)).
Proof.
  destruct (local_complete (Ok 2000) demo_held (DInt 7) demo_claimed) as [db'|] eqn:E; [|vm_compute in E; discriminate].
  exists db'. split; [reflexivity|].
  destruct (completion_needs_the_lease demo_platform demo_ops 2000 demo_held (DInt 7) db' demo_ops_valid E) as (x & Hx & H & _).
  vm_compute in Hx. injection Hx as <-. exact H.
Defined.

(** A report repeated after it was recorded is acknowledged at any
    later instant without a change, and a different one is refused. *)
Theorem report_is_idempotent now now' a v v' x x' db db' :
  encode_json v = Ok x → encode_json v' = Ok x' →
  local_complete (Ok now) a v db = Ok db' →
  local_complete (Ok now') a v' db' = if decide (x' = x) then Ok db' else Err terminal_conflict.
Proof.
  intros Hx Hx' H.
  assert (Hk : attempt_key a = Ok (akey a)).
  { unfold local_complete, local_terminal, acknowledge_terminal_retry in H. rewrite Hx in H. simpl in H.
    apply bind_Ok in H as (b & Hb & _). apply bind_Ok in Hb as (k & Hk & _). by rewrite (attempt_key_Ok _ _ Hk) in Hk. }
  assert (Ha : acknowledged a (completed_outcome x) db').
  { apply complete_spec in H as (y & Hy & [[Ha ->]|(_ & (_ & _ & ->)%insert_terminal_Ok)]); assert (y = x) as -> by congruence; [done|].
    unfold acknowledged. simpl. by rewrite dget_dset_eq. }
  unfold local_complete. rewrite Hx'. simpl. unfold local_terminal, acknowledge_terminal_retry. rewrite Hk. simpl. rewrite Ha.
  fold (completed_outcome x'). rewrite encode_completed by by eapply encode_json_text. simpl.
  case_decide as E; [subst x'; by rewrite bool_decide_true|]. rewrite bool_decide_false; [done|].
  intros (_ & _ & E'). unfold completed_outcome in E'. congruence.
Qed.

Lemma report_is_idempotent_witness :
  ∃ db', local_complete (Ok 2000) demo_held (DInt 7) demo_claimed = Ok db' ∧
         local_complete (Ok 99999) demo_held (DInt 7) db' = Ok db'.
Proof.
  destruct (local_complete (Ok 2000) demo_held (DInt 7) demo_claimed) as [db'|] eqn:E; [|vm_compute in E; discriminate].
  exists db'. split; [reflexivity|].
  exact (report_is_idempotent 2000 99999 demo_held (DInt 7) (DInt 7) (DInt 7) (DInt 7) _ _ eq_refl eq_refl E).
Defined.

(** ** Collecting *)

Lemma decoded_rows P ops s : Forall (λ top, valid_local_op top.2) ops →
  let db := local_run P db_empty ops in
  ∃ l, mapR (λ kr : Key * TerminalRow, v ← decode_outcome (tr_outcome kr.2); Ok (kr.1.2, v)) (ready_rows s db) = Ok l.
Proof.
  intros Hops db. pose proof (reachable_db_ok P ops Hops) as Hok. fold db in Hok.
  assert (H : ∀ rows, Forall (λ kr : Key * TerminalRow, ∃ v, decode_outcome (tr_outcome kr.2) = Ok v) rows →
    ∃ l, mapR (λ kr : Key * TerminalRow, v ← decode_outcome (tr_outcome kr.2); Ok (kr.1.2, v)) rows = Ok l).
  { induction 1 as [|kr rows (v & Hv) _ (l & Hl)]; [by exists []|]. simpl. rewrite Hv. simpl. rewrite Hl. eauto. }
  apply H, Forall_forall. intros [k r] Hin. apply list_elem_of_filter in Hin as [_ Hin].
  apply elem_of_dget in Hin; [|apply Hok]. by destruct (ok_row _ Hok _ _ Hin).
Qed.

Lemma elem_of_mapR {A B} (f : A → result B) l k b : mapR f l = Ok k → b ∈ k ↔ ∃ a, a ∈ l ∧ f a = Ok b.
Proof.
  intros H%mapR_Ok. induction H as [|a b' l k Hab _ IH].
  - split; [by intros ?%elem_of_nil|]. by intros (? & ?%elem_of_nil & _).
  - rewrite elem_of_cons, IH. setoid_rewrite elem_of_cons. split.
    + intros [->|(a' & ? & ?)]; eauto.
    + intros (a' & [->|?] & Ha'); [left; congruence|eauto].
Qed.

Lemma elem_of_ready s db k r : db_ok db → (k, r) ∈ ready_rows s db ↔
  k.1 = ld_instance s ∧ k.2 ∈ eligible s ∧ dget k (db_terminals db) = Some r.
Proof.
  intros Hok. unfold ready_rows. rewrite list_elem_of_filter. simpl. split.
  - intros [[H1 H2] Hin]. apply elem_of_dget in Hin; [done|apply Hok].
  - intros (H1 & H2 & H3). split; [done|]. by apply dget_elem_of.
Qed.

Lemma collect_all P ops s : Forall (λ top, valid_local_op top.2) ops →
  let db := local_run P db_empty ops in
  ∃ l s', local_collect s db = (Ok l, s') ∧
    (∀ o v, (o, v) ∈ l ↔ o ∈ eligible s ∧
       ∃ e c x, holding_of db (ld_instance s, o) = Ended e c x ∧ decode_outcome x = Ok v) ∧
    local_collect s' db = (Ok [], s').
Proof.
  intros Hops db. pose proof (reachable_db_ok P ops Hops) as Hok. fold db in Hok.
  destruct (decoded_rows P ops s Hops) as (l & Hl). fold db in Hl.
  assert (Hspec : ∀ o v, (o, v) ∈ l ↔ o ∈ eligible s ∧
       ∃ e c x, holding_of db (ld_instance s, o) = Ended e c x ∧ decode_outcome x = Ok v).
  { intros o v. rewrite (elem_of_mapR _ _ _ _ Hl). split.
    - intros ([k r] & Hin & Hd). apply (elem_of_ready _ _ _ _ Hok) in Hin as (H1 & H2 & H3). inv_ok. simpl in *.
      destruct k as [ki ko]. simpl in *. subst. split; [done|]. unfold holding_of. rewrite H3. eauto 10.
    - intros (Ho & e & c & x & Hh & Hd). unfold holding_of in Hh.
      destruct (dget (ld_instance s, o) (db_terminals db)) as [r|] eqn:Hr; [|repeat case_match; done].
      simplify_eq. exists ((ld_instance s, o), r). split; [by apply elem_of_ready|]. simpl. by rewrite Hd. }
  unfold local_collect. case_bool_decide as He.
  - exists [], s. split; [done|]. split; [|by rewrite bool_decide_true].
    intros o v. split; [by intros ?%elem_of_nil|]. rewrite He. intros [?%elem_of_empty _]. done.
  - rewrite Hl. eexists l, _. split; [done|]. split; [done|]. case_bool_decide; [done|].
    set (s' := MkLocal _ _ _ _ _) in *.
    assert (Hz : ready_rows s' db = []).
    { apply filter_none. intros [k r] Hin (H1 & H2). simpl in *. unfold eligible in H2. simpl in H2.
      apply elem_of_difference in H2 as [H2 H3]. apply H3. apply elem_of_union. destruct (decide (k.2 ∈ ld_collected s)); [by right|left].
      apply elem_of_list_to_set, list_elem_of_fmap. exists (k, r). split; [done|]. apply elem_of_ready; [done|].
      split; [done|]. split; [unfold eligible; set_solver|]. apply elem_of_dget; [apply Hok|done]. }
    rewrite Hz. simpl. f_equal. unfold s'. f_equal. set_solver.
Qed.

(** A collection never raises, answers exactly the published,
    uncollected occurrences that have ended, each with the outcome recorded for
    it, and a second one over the same database answers nothing. *)
Theorem collect_is_exact P ops s :
  Forall (λ top, valid_local_op top.2) ops →
  let db := local_run P db_empty ops in
  ∃ l s', local_collect s db = (Ok l, s') ∧
    (∀ o v, (o, v) ∈ l ↔ o ∈ eligible s ∧
       ∃ e c x, holding_of db (ld_instance s, o) = Ended e c x ∧ decode_outcome x = Ok v) ∧
    local_collect s' db = (Ok [], s').
Proof. apply collect_all. Qed.

Definition demo_listening : LocalDispatch := publish 1 demo_session.

Lemma collect_is_exact_witness :
  ∃ l s', local_collect demo_listening (local_run demo_platform db_empty demo_done) = (Ok l, s') ∧ (1, TResult (DInt 7)) ∈ l.
Proof.
  destruct (collect_is_exact demo_platform demo_done demo_listening demo_done_valid) as (l & s' & H1 & H2 & _).
  exists l, s'. split; [exact H1|]. apply H2. split.
  - apply elem_of_difference. split; [apply elem_of_union_l, elem_of_singleton; reflexivity|apply not_elem_of_empty].
  - exists 1, (Some "w"), (completed_outcome (DInt 7)). split; vm_compute; reflexivity.
Defined.

(** ** From claim to session *)

Lemma claimed_key P now w db a db' : db_ok db → local_claim P (Ok now) w db = Ok (Some a, db') →
  attempt_key a = Ok (akey a) ∧ int64 (at_occurrence a) ∧ int64 (at_epoch a).
Proof.
  intros Hok H. destruct (claim_holding _ _ _ _ _ _ Hok H) as (t & Ht & _).
  destruct (ok_task _ Hok _ _ Ht) as [(Hb & Ho & Hz) _].
  unfold local_claim in H. rewrite bind_Ok_l in H. apply bind_Ok in H as (db1 & _ & H).
  destruct (head _) as [[k t']|]; [|done]. inv_ok. simpl in *.
  match goal with H : sql_ints _ = Ok _ |- _ => apply sql_ints_Ok, Forall_cons_1 in H as [He _] end.
  split; [|done]. unfold attempt_key. simpl. rewrite Hb, (proj2 (Z.ltb_ge _ _) Ho), bool_decide_true by done. simpl.
  by rewrite (proj2 (sql_ints_Ok [k.2] tt)) by by constructor.
Qed.

(** The row a claim leaves is the one its attempt reports against. *)
Lemma claim_active P now w db a db1 now' : db_ok db → local_claim P (Ok now) w db = Ok (Some a, db1) →
  (∀ e c u, holding_of db1 (akey a) = Held e c u → now' < u) →
  (∃ t, active a now' db1 = Ok t) ∧ dget (akey a) (db_terminals db1) = None ∧
  dget (akey a) (db_cancellations db1) = None ∧ 0 < at_epoch a.
Proof.
  intros Hok H Hlt. destruct (claimed_key _ _ _ _ _ _ Hok H) as (Hk & _ & _).
  destruct (claim_spec _ _ _ _ _ _ Hok H) as (db0 & Hs & Hcl). pose proof (swept_ok _ _ _ _ _ Hok Hs) as Hok0.
  pose proof Hcl as [(t & Ht & Hc & Hd & He & Hq & _ & Hdb & _) Hcw Hci]. fold (akey a) in *.
  apply claimable_spec in Hc as (Hn & Hf & _).
  destruct (ok_task _ Hok0 _ _ Ht) as [_ Hto]. destruct (decode_stored _ _ Hto Hd) as [[_ Hst] _].
  set (t' := with_claim (at_epoch a) (lw_claimant w)
               (claim_deadline (inv_policy (at_invocation a)) now (tk_schedule_start t)) now
               (min_opt (hard_limits (inv_policy (at_invocation a)) now (tk_schedule_start t))) t).
  assert (Ht' : dget (akey a) (db_tasks db1) = Some t') by (rewrite Hdb, update_task_tasks, decide_True, Ht; done).
  assert (Hn1 : dget (akey a) (db_terminals db1) = None) by (by rewrite Hdb, update_task_terminals).
  assert (Hf1 : dget (akey a) (db_cancellations db1) = None) by (by rewrite Hdb, update_task_cancellations).
  assert (Hu : now' < claim_deadline (inv_policy (at_invocation a)) now (tk_schedule_start t)).
  { eapply Hlt. apply holding_Held. split; [done|]. exists t'. done. }
  assert (0 ≤ tk_epoch t) by (destruct (to_lease _ Hto) as [[? _]|(? & ? & ? & _)]; lia).
  split; [|split; [done|split; [done|lia]]]. exists t'. unfold active. rewrite Hk. simpl. rewrite Ht'. simpl.
  rewrite !(proj2 (dmem_false _ _)) by done. rewrite bool_decide_true by done. simpl. rewrite Hst. simpl.
  rewrite !bool_decide_true by congruence. simpl. by rewrite (proj2 (Z.leb_gt _ _) Hu).
Qed.

(** C36: the worker a claim gave an attempt to can report any JSON value
    until the deadline, and the session that published the occurrence then
    collects that value. *)
Theorem claimed_result_reaches_its_session P ops now w a db1 now' v x s :
  Forall (λ top, valid_local_op top.2) ops →
  local_claim P (Ok now) w (local_run P db_empty ops) = Ok (Some a, db1) →
  (∀ e c u, holding_of db1 (akey a) = Held e c u → now' < u) →
  encode_json v = Ok x →
  ld_instance s = at_instance_key a → at_occurrence a ∈ eligible s →
  ∃ db2 l s', local_complete (Ok now') a v db1 = Ok db2 ∧ local_collect s db2 = (Ok l, s') ∧
    (at_occurrence a, TResult x) ∈ l.
Proof.
  intros Hops H Hlt Hx Hi Ho. pose proof (reachable_db_ok P ops Hops) as Hok.
  destruct (claimed_key _ _ _ _ _ _ Hok H) as (Hk & Hz1 & Hz2).
  destruct (claim_active _ _ _ _ _ _ now' Hok H Hlt) as ((t & Ht) & Hn & Hf & Hpos).
  apply active_spec in Ht as Ht'. destruct Ht' as (_ & (Htk & _) & _).
  assert (Hc : ∃ db2, local_complete (Ok now') a v db1 = Ok db2).
  { unfold local_complete, local_terminal, acknowledge_terminal_retry, cancelled_attempt. rewrite Hx. simpl. rewrite Hk. simpl.
    rewrite Hn. simpl. rewrite (proj2 (dmem_false _ _) Hf). simpl. rewrite Ht. simpl. unfold report_terminal. rewrite Hk.
    rewrite bind_Ok_l. fold (completed_outcome x). rewrite encode_completed by by eapply encode_json_text. rewrite bind_Ok_l.
    unfold insert_terminal. simpl.
    assert (sql_ints [at_occurrence a; at_epoch a] = Ok tt) as -> by (apply sql_ints_Ok; by rewrite !Forall_cons). simpl.
    rewrite (proj2 (dmem_false _ _) Hn), (proj2 (dmem_true _ _)) by (apply dget_is_Some; eauto). simpl.
    rewrite (proj2 (Z.ltb_lt 0 (at_epoch a))) by done. rewrite orb_true_r. eauto. }
  destruct Hc as (db2 & Hc). exists db2.
  assert (Hrun : db2 = local_run P db_empty (ops ++ [(now, OClaim w); (now', OComplete a v)])).
  { unfold local_run in *. rewrite foldl_app. cbn [foldl].
    assert (local_attempt P (foldl (local_attempt P) db_empty ops) (now, OClaim w) = db1) as ->.
    { unfold local_attempt at 1. cbn [fst snd local_perform]. by rewrite H. }
    unfold local_attempt. cbn [fst snd local_perform]. by rewrite Hc. }
  assert (Hops' : Forall (λ top, valid_local_op top.2) (ops ++ [(now, OClaim w); (now', OComplete a v)])).
  { apply Forall_app. split; [done|by repeat constructor]. }
  destruct (collect_all P _ s Hops') as (l & s' & Hl & Hin & _). exists l, s'. split; [done|]. rewrite Hrun. split; [done|].
  apply Hin. split; [done|]. rewrite <-Hrun, Hi. exists (at_epoch a), (Some (at_claimant a)), (completed_outcome x).
  split; [|apply decode_completed]. pose proof (complete_spec _ _ _ _ _ Hc) as (y & Hy & [[Ha ->]|(_ & Hins)]).
  - unfold acknowledged in Ha. congruence.
  - assert (y = x) as -> by congruence. apply insert_terminal_Ok in Hins as (_ & _ & ->). unfold holding_of. simpl.
    by rewrite dget_dset_eq.
Qed.

Lemma claimed_result_reaches_its_session_witness :
  ∃ db2 l s', local_complete (Ok 30999) demo_held (DTuple [DInt 7]) demo_claimed = Ok db2 ∧
    local_collect demo_listening db2 = (Ok l, s') ∧ (1, TResult (DList [DInt 7])) ∈ l.
Proof.
  apply (claimed_result_reaches_its_session demo_platform [(1000, ODispatch demo_session 1 demo_call)] 1000 demo_worker
           demo_held demo_claimed 30999 _ _ demo_listening demo_publish_valid);
    [vm_compute; reflexivity| |reflexivity|reflexivity|].
  - intros e c u H. vm_compute in H. injection H as <- <- <-. reflexivity.
  - apply elem_of_difference. split; [apply elem_of_union_l, elem_of_singleton; reflexivity|apply not_elem_of_empty].
Defined.

(** ** Cancellation *)

(** What a cancellation answers about the custody it found. *)
Definition disposition_of (c : Custody) : CancellationDisposition :=
  if fenced c then C_ACKNOWLEDGED
  else match holding c with
       | Unpublished => TOMBSTONED
       | Waiting => RETIRED
       | Held _ _ _ => FENCED
       | Ended _ _ _ => TERMINAL
       end.

Lemma cancel_disposition c s db d s' db' : db_ok db → local_cancel c s db = Ok (d, s', db') →
  d = disposition_of (custody_of db (ld_instance s, ci_occurrence c)) ∧
  dmem (ld_instance s, ci_occurrence c) (db_cancellations db') = true.
Proof.
  intros Hok H. apply cancel_spec in H as (_ & x & _ & _ & H). unfold disposition_of, custody_of. simpl.
  set (k := (ld_instance s, ci_occurrence c)) in *.
  destruct H as [(-> & -> & Hc)|(Hn & -> & ->)].
  - rewrite (proj2 (dmem_true k (db_cancellations db))) by (apply dget_is_Some; eauto). done.
  - rewrite (proj2 (dmem_false k (db_cancellations db))) by done. split.
    + unfold holding_of. destruct (dget k (db_terminals db)) as [r|] eqn:Hr.
      { by rewrite (proj2 (dmem_true k (db_terminals db))) by (apply dget_is_Some; eauto). }
      rewrite (proj2 (dmem_false k (db_terminals db))) by done.
      destruct (dget k (db_tasks db)) as [t|] eqn:Ht; [|done].
      destruct (ok_task _ Hok _ _ Ht) as [_ Hto]. destruct (to_lease _ Hto) as [(-> & -> & _)|(cl & u & Hp & -> & ->)]; [done|].
      by rewrite (proj2 (Z.eqb_neq _ _)) by lia.
    + apply dmem_true, dget_is_Some. simpl. rewrite dget_dset_eq. eauto.
Qed.

(** A cancellation answers exactly the custody it found and installs a
    fence for good: after it no worker is ever handed the occurrence, whatever
    happens in between, even if it is published only later. *)
Theorem cancelled_work_is_never_claimed P ops c s d s' db1 later :
  Forall (λ top, valid_local_op top.2) ops → Forall (λ top, valid_local_op top.2) later →
  local_cancel c s (local_run P db_empty ops) = Ok (d, s', db1) →
  let k := (ld_instance s, ci_occurrence c) in
  d = disposition_of (custody_of (local_run P db_empty ops) k) ∧
  dmem k (db_cancellations (local_run P db1 later)) = true ∧
  ∀ now w a db', local_claim P (Ok now) w (local_run P db1 later) = Ok (Some a, db') → akey a ≠ k.
Proof.
  intros Hops Hl H k. pose proof (reachable_db_ok P ops Hops) as Hok. pose proof (cancel_ok _ _ _ _ _ _ Hok H) as Hok1.
  destruct (cancel_disposition _ _ _ _ _ _ Hok H) as [Hd Hf]. split; [done|].
  destruct (run_custody P later db1 k Hok1 Hl) as [_ Hk]. specialize (Hk Hf). split; [done|].
  intros now w a db' Hc E. pose proof (run_ok P later db1 Hok1 Hl) as Hok2.
  destruct (claim_holding _ _ _ _ _ _ Hok2 Hc) as (_ & _ & _ & Hn & _). rewrite E in Hn. apply dmem_false in Hn. congruence.
Qed.

Definition demo_fence : CancellationInstruction := MkInstruction 1 demo_call 4.

Lemma cancelled_work_is_never_claimed_witness :
  ∃ s' db1, local_cancel demo_fence demo_session db_empty = Ok (TOMBSTONED, s', db1) ∧
    dmem ("one", 1) (db_cancellations (local_run demo_platform db1 [(1000, ODispatch demo_session 1 demo_call)])) = true.
Proof.
  destruct (local_cancel demo_fence demo_session db_empty) as [[[d s'] db1]|] eqn:E; [|vm_compute in E; discriminate].
  assert (d = TOMBSTONED) as -> by (vm_compute in E; congruence). exists s', db1. split; [reflexivity|].
  exact (proj1 (proj2 (cancelled_work_is_never_claimed demo_platform [] demo_fence demo_session _ s' db1 _
    (Forall_nil_2 _) demo_publish_valid E))).
Defined.
