(* ===== verification/Codec.v ===== *)
(** * The record codec (src/src/petrus/impetus/history/codec.py)

    The schema-5 spelling of every record as a JSON object and back. A record
    type's constructor is called with the decoded fields, so absent fields take
    the dataclass defaults, unknown ones are refused, and the result must spell
    the very payload it came from. A field value of another type than its
    annotation is refused here; the source lets some of these through to the
    exact-type checks of [validate_history_records]. *)

From stdpp Require Import base gmap sets list strings.
From Stdlib Require Import ZArith Lia.
From S2P Require Import Prelude PyData Schema Marking Activity Records Lifecycle Instance Dispatch LocalDispatch.
Open Scope string_scope.
Open Scope list_scope.
Open Scope Z_scope.

Definition SCHEMA_VERSION : Z := 5.

(** ** [_encoded] *)

Definition enc_path (p : NetPath) : Data := DStr (path_str p).
Definition enc_token (t : Token) : Data := DDict [("color", opt_str_data (color t)); ("data", data t)].
Definition enc_tokens (ts : list Token) : Data := DList (map enc_token ts).
Definition enc_scope (s : LifecycleScope) : Data :=
  DDict [("name", DStr (scope_name s)); ("generation", DInt (scope_generation s))].
Definition enc_scope_opt (s : option LifecycleScope) : Data := match s with Some s => enc_scope s | None => DNone end.
Definition enc_target (s : LifecycleScope + string) : Data := match s with inl s => enc_scope s | inr n => DStr n end.
Definition enc_ids (l : list Z) : Data := DList (map DInt l).
Definition enc_opt_int (o : option Z) : Data := match o with Some o => DInt o | None => DNone end.

(** [type(record).__name__] *)
Definition record_name (r : HRecord) : string :=
  match r with
  | InstanceCreated _ _ _ => "InstanceCreated"
  | TokensInitialized _ _ _ _ _ => "TokensInitialized"
  | ScopeOpened _ _ => "ScopeOpened"
  | ScopeClosed _ _ _ _ => "ScopeClosed"
  | ScopeReset _ _ _ _ _ => "ScopeReset"
  | CandidateSelected _ _ _ => "CandidateSelected"
  | ExternalEventDelivered _ _ _ _ _ _ => "ExternalEventDelivered"
  | ScopedDeliveryDropped _ _ _ _ _ => "ScopedDeliveryDropped"
  | ScopedDeliveryQuarantined _ _ _ _ _ => "ScopedDeliveryQuarantined"
  | DeliveryRegistrationOpened _ _ _ _ => "DeliveryRegistrationOpened"
  | DeliveryRegistrationClosed _ _ _ _ => "DeliveryRegistrationClosed"
  | TimerMatured _ _ => "TimerMatured"
  | FiringBegun _ _ _ _ => "FiringBegun"
  | TokensConsumed _ _ _ _ _ _ => "TokensConsumed"
  | TokensRead _ _ _ _ _ _ => "TokensRead"
  | ActivityRequested _ _ _ _ _ _ _ _ _ => "ActivityRequested"
  | ActivityCompleted _ _ _ _ => "ActivityCompleted"
  | ActivityFailed _ _ _ _ _ _ _ _ => "ActivityFailed"
  | ActivityTerminalQuarantined _ _ _ _ _ => "ActivityTerminalQuarantined"
  | TokensProduced _ _ _ _ _ _ => "TokensProduced"
  | FiringCompleted _ _ _ => "FiringCompleted"
  | FiringFailed _ _ _ _ => "FiringFailed"
  end.

(** The encoded fields in declaration order. *)
Definition record_fields (r : HRecord) : dict string Data :=
  match r with
  | InstanceCreated instance name i => [("instance", DStr instance); ("name", opt_str_data name); ("instant", DInt i)]
  | TokensInitialized p ts i es sc =>
      [("place", enc_path p); ("tokens", enc_tokens ts); ("instant", DInt i); ("entries", enc_ids es); ("scope", enc_scope_opt sc)]
  | ScopeOpened sc i => [("scope", enc_scope sc); ("instant", DInt i)]
  | ScopeClosed sc d c i =>
      [("scope", enc_scope sc); ("discarded", enc_ids d); ("cancelled", enc_ids c); ("instant", DInt i)]
  | ScopeReset cl op d c i =>
      [("closed", enc_scope cl); ("opened", enc_scope op); ("discarded", enc_ids d); ("cancelled", enc_ids c); ("instant", DInt i)]
  | CandidateSelected t o i => [("transition", enc_path t); ("occurrence", DInt o); ("instant", DInt i)]
  | ExternalEventDelivered s ts k o sc i =>
      [("source", enc_path s); ("tokens", enc_tokens ts); ("identity", DStr k); ("occurrence", DInt o);
       ("scope", enc_scope_opt sc); ("instant", DInt i)]
  | ScopedDeliveryDropped s ts k sc i =>
      [("source", enc_path s); ("tokens", enc_tokens ts); ("identity", DStr k); ("scope", enc_scope sc); ("instant", DInt i)]
  | ScopedDeliveryQuarantined s ts k sc i =>
      [("source", enc_path s); ("tokens", enc_tokens ts); ("identity", DStr k); ("scope", enc_target sc); ("instant", DInt i)]
  | DeliveryRegistrationOpened s k o i | DeliveryRegistrationClosed s k o i =>
      [("source", enc_path s); ("key", DStr k); ("occurrence", enc_opt_int o); ("instant", DInt i)]
  | TimerMatured m i => [("maturation_instant", DInt m); ("instant", DInt i)]
  | FiringBegun t o sc i =>
      [("transition", enc_path t); ("occurrence", DInt o); ("scope", enc_scope_opt sc); ("instant", DInt i)]
  | TokensConsumed p ts o es sc i | TokensRead p ts o es sc i | TokensProduced p ts o es sc i =>
      [("place", enc_path p); ("tokens", enc_tokens ts); ("occurrence", DInt o); ("entries", enc_ids es);
       ("scope", enc_scope_opt sc); ("instant", DInt i)]
  | ActivityRequested t a input pol c k o sc i =>
      [("transition", enc_path t); ("activity", DStr a); ("input", input); ("policy", policy_wire pol);
       ("correlation", DStr c); ("idempotency", DStr k); ("occurrence", DInt o); ("scope", enc_scope_opt sc); ("instant", DInt i)]
  | ActivityCompleted t d o i => [("transition", enc_path t); ("result", d); ("occurrence", DInt o); ("instant", DInt i)]
  | ActivityFailed t e k d b ra o i =>
      [("transition", enc_path t); ("error", DStr e); ("kind", DStr k); ("details", d); ("retryable", DBool b);
       ("retry_after", opt_num_data ra); ("occurrence", DInt o); ("instant", DInt i)]
  | ActivityTerminalQuarantined t d sc o i =>
      [("transition", enc_path t); ("outcome", d); ("scope", enc_scope sc); ("occurrence", DInt o); ("instant", DInt i)]
  | FiringCompleted t o i => [("transition", enc_path t); ("occurrence", DInt o); ("instant", DInt i)]
  | FiringFailed t e o i =>
      [("transition", enc_path t); ("error", DStr e); ("occurrence", DInt o); ("instant", DInt i)]
  end.

(** [encode_record] *)
Definition encode_record (r : HRecord) : Data :=
  DDict (("record", DStr (record_name r)) :: ("schema", DInt SCHEMA_VERSION) :: record_fields r).

(** ** [_decoded] *)

Definition ill_typed : exn := TypeError "field value of another type".

Definition dec_with {A} (f : Data → option A) (x : Data) : result A := or_raise (f x) ill_typed.
Definition dec_path (x : Data) : result NetPath :=
  s ← or_raise (data_str x) (TypeError "NetPath requires a string"); NetPath_new s.

(** [Token( **token)]: an absent field is [None]. *)
Definition dec_token (x : Data) : result Token :=
  match x with
  | DDict d =>
      raise_if (negb (forallb (λ k, bool_decide (k ∈ ["color"; "data"])) (dkeys d))) (TypeError "unexpected keyword argument");;
      c ← dec_with data_opt_str (dget_default "color" DNone d);
      Ok (MkToken c (dget_default "data" DNone d))
  | _ => Err (TypeError "argument after ** must be a mapping")
  end.
Definition dec_list {A} (f : Data → result A) (x : Data) : result (list A) :=
  match x with DList l => mapR f l | _ => Err ill_typed end.
Definition dec_tokens : Data → result (list Token) := dec_list dec_token.
Definition dec_ids : Data → result (list Z) := dec_list (dec_with data_int).

(** [LifecycleScope( **value)] *)
Definition dec_scope (x : Data) : result LifecycleScope :=
  match x with
  | DDict d =>
      raise_if (negb (exact_fields d ["name"; "generation"])) (TypeError "LifecycleScope arguments");;
      n ← dec_with data_str (dget_default "name" DNone d);
      g ← dec_with data_int (dget_default "generation" DNone d);
      LifecycleScope_new n g
  | _ => Err (TypeError "argument after ** must be a mapping")
  end.
Definition dec_scope_opt (x : Data) : result (option LifecycleScope) :=
  match x with DNone => Ok None | x => Some <$> dec_scope x end.
Definition dec_target (x : Data) : result (LifecycleScope + string) :=
  match x with DStr n => Ok (inr n) | x => inl <$> dec_scope x end.
Definition data_opt_int (x : Data) : option (option Z) :=
  match x with DNone => Some None | x => Some <$> data_int x end.
Definition data_bool (x : Data) : option bool := match x with DBool b => Some b | _ => None end.

Definition dec_policy (x : Data) : result ExecutionPolicy :=
  let refused := ValueError "cannot decode ExecutionPolicy: policy must be exactly the current exact policy fields" in
  match x with
  | DDict d =>
      raise_if (negb (exact_fields d policy_fields)) refused;;
      p ← or_raise (decode_policy d) refused;
      ExecutionPolicy_post_init p;; Ok p
  | _ => Err refused
  end.

(** Keyword arguments of a constructor: required, or with a default. *)
Definition need {A} (d : dict string Data) (k : string) (f : Data → result A) : result A :=
  x ← or_raise (dget k d) (TypeError "missing required argument"); f x.
Definition opt {A} (d : dict string Data) (k : string) (f : Data → result A) (dflt : A) : result A :=
  match dget k d with Some x => f x | None => Ok dflt end.

Notation dint := (dec_with data_int) (only parsing).
Notation dstr := (dec_with data_str) (only parsing).

(** The constructor call of each record type. *)
Definition construct (name : string) (d : dict string Data) : result HRecord :=
  i ← (if bool_decide (name = "TimerMatured") then need d "instant" dint else opt d "instant" dint 0);
  let scoped := opt d "scope" dec_scope_opt None in
  let movement (mk : NetPath → list Token → Z → list Z → option LifecycleScope → Instant → HRecord) :=
    p ← need d "place" dec_path; ts ← need d "tokens" dec_tokens; o ← need d "occurrence" dint;
    es ← opt d "entries" dec_ids []; sc ← scoped; Ok (mk p ts o es sc i) in
  let registration (mk : NetPath → string → option Z → Instant → HRecord) :=
    s ← need d "source" dec_path; k ← need d "key" dstr; o ← need d "occurrence" (dec_with data_opt_int);
    Ok (mk s k o i) in
  if bool_decide (name = "InstanceCreated") then
    n ← need d "instance" dstr; nm ← opt d "name" (dec_with data_opt_str) None; Ok (InstanceCreated n nm i)
  else if bool_decide (name = "TokensInitialized") then
    p ← need d "place" dec_path; ts ← need d "tokens" dec_tokens; es ← opt d "entries" dec_ids []; sc ← scoped;
    Ok (TokensInitialized p ts i es sc)
  else if bool_decide (name = "ScopeOpened") then sc ← need d "scope" dec_scope; Ok (ScopeOpened sc i)
  else if bool_decide (name = "ScopeClosed") then
    sc ← need d "scope" dec_scope; dd ← opt d "discarded" dec_ids []; c ← opt d "cancelled" dec_ids []; Ok (ScopeClosed sc dd c i)
  else if bool_decide (name = "ScopeReset") then
    cl ← need d "closed" dec_scope; op ← need d "opened" dec_scope; dd ← opt d "discarded" dec_ids [];
    c ← opt d "cancelled" dec_ids []; Ok (ScopeReset cl op dd c i)
  else if bool_decide (name = "CandidateSelected") then
    t ← need d "transition" dec_path; o ← need d "occurrence" dint; Ok (CandidateSelected t o i)
  else if bool_decide (name = "ExternalEventDelivered") then
    s ← need d "source" dec_path; ts ← need d "tokens" dec_tokens; k ← need d "identity" dstr;
    o ← need d "occurrence" dint; sc ← scoped; Ok (ExternalEventDelivered s ts k o sc i)
  else if bool_decide (name = "ScopedDeliveryDropped") then
    s ← need d "source" dec_path; ts ← need d "tokens" dec_tokens; k ← need d "identity" dstr;
    sc ← need d "scope" dec_scope; Ok (ScopedDeliveryDropped s ts k sc i)
  else if bool_decide (name = "ScopedDeliveryQuarantined") then
    s ← need d "source" dec_path; ts ← need d "tokens" dec_tokens; k ← need d "identity" dstr;
    sc ← need d "scope" dec_target; Ok (ScopedDeliveryQuarantined s ts k sc i)
  else if bool_decide (name = "DeliveryRegistrationOpened") then registration DeliveryRegistrationOpened
  else if bool_decide (name = "DeliveryRegistrationClosed") then registration DeliveryRegistrationClosed
  else if bool_decide (name = "TimerMatured") then m ← need d "maturation_instant" dint; Ok (TimerMatured m i)
  else if bool_decide (name = "FiringBegun") then
    t ← need d "transition" dec_path; o ← need d "occurrence" dint; sc ← scoped; Ok (FiringBegun t o sc i)
  else if bool_decide (name = "TokensConsumed") then movement TokensConsumed
  else if bool_decide (name = "TokensRead") then movement TokensRead
  else if bool_decide (name = "ActivityRequested") then
    t ← need d "transition" dec_path; a ← need d "activity" dstr; input ← need d "input" Ok; pol ← need d "policy" dec_policy;
    c ← need d "correlation" dstr; k ← need d "idempotency" dstr; o ← need d "occurrence" dint; sc ← scoped;
    Ok (ActivityRequested t a input pol c k o sc i)
  else if bool_decide (name = "ActivityCompleted") then
    t ← need d "transition" dec_path; v ← need d "result" Ok; o ← need d "occurrence" dint; Ok (ActivityCompleted t v o i)
  else if bool_decide (name = "ActivityFailed") then
    t ← need d "transition" dec_path; e ← need d "error" dstr; k ← opt d "kind" dstr "ActivityError";
    v ← opt d "details" Ok DNone; b ← opt d "retryable" (dec_with data_bool) false;
    ra ← opt d "retry_after" (dec_with data_opt_num) None; o ← need d "occurrence" dint; Ok (ActivityFailed t e k v b ra o i)
  else if bool_decide (name = "ActivityTerminalQuarantined") then
    t ← need d "transition" dec_path; v ← need d "outcome" Ok; sc ← need d "scope" dec_scope; o ← need d "occurrence" dint;
    Ok (ActivityTerminalQuarantined t v sc o i)
  else if bool_decide (name = "TokensProduced") then movement TokensProduced
  else if bool_decide (name = "FiringCompleted") then
    t ← need d "transition" dec_path; o ← need d "occurrence" dint; Ok (FiringCompleted t o i)
  else if bool_decide (name = "FiringFailed") then
    t ← need d "transition" dec_path; e ← need d "error" dstr; o ← need d "occurrence" dint; Ok (FiringFailed t e o i)
  else Err (ValueError "cannot decode event history record: unknown 'record' discriminator").

(** [decode_record]: an argument the constructor does not declare would be
    refused by it, and is here by the comparison with the exact spelling. *)
Definition decode_record (payload : Data) : result HRecord :=
  match payload with
  | DDict d =>
      name ← or_raise (dget "record" d) (ValueError "payload has no 'record' discriminator");
      schema ← or_raise (dget "schema" d) (ValueError "payload has no 'schema' version");
      raise_if (negb (bool_decide (schema = DInt SCHEMA_VERSION))) (ValueError "this kernel reads schema 5 only");;
      name ← or_raise (data_str name) (ValueError "unknown 'record' discriminator");
      r ← construct name (ddel "schema" (ddel "record" d));
      Record_post_init r;;
      raise_if (negb (py_eq (encode_record r) payload))
        (ValueError "payload is not its exact canonical schema-5 spelling");;
      Ok r
  | _ => Err (TypeError "payload must be a mapping")
  end.
