(* ===== verification/CodecTheorems.v ===== *)
(** * The record codec is a bijection on canonical spellings

    Every admissible record decodes from its own spelling to itself, also after
    the JSON round trip of a durable line; a payload that decodes is the
    spelling of the decoded record. *)

From stdpp Require Import base gmap sets list strings.
From Stdlib Require Import ZArith Lia.
From S2P Require Import Prelude PyData Schema Marking Activity Records Lifecycle Instance Dispatch LocalDispatch Codec.
Open Scope string_scope.
Open Scope list_scope.
Open Scope Z_scope.

(** ** Fields *)

Lemma dec_enc_path p : wf_path p → dec_path (enc_path p) = Ok p.
Proof. intros H. by apply net_path_spelling. Qed.

Lemma dec_enc_token t : dec_token (enc_token t) = Ok t.
Proof. destruct t as [[]]; reflexivity. Qed.

Lemma mapR_map_Ok {A B} (f : B → result A) (g : A → B) l : (∀ a, f (g a) = Ok a) → mapR f (map g l) = Ok l.
Proof. intros H. induction l as [|a l IH]; simpl; [done|]. by rewrite H, IH. Qed.

Lemma dec_enc_tokens ts : dec_tokens (enc_tokens ts) = Ok ts.
Proof. by apply mapR_map_Ok, dec_enc_token. Qed.

Lemma dec_enc_ids l : dec_ids (enc_ids l) = Ok l.
Proof. by apply mapR_map_Ok. Qed.

Lemma dec_enc_scope s : validate_scope s = Ok tt → dec_scope (enc_scope s) = Ok s.
Proof.
  unfold validate_scope. intros H. apply bind_Ok in H as (s' & H & _).
  change (dec_scope (enc_scope s)) with (LifecycleScope_new (scope_name s) (scope_generation s)).
  rewrite H. unfold LifecycleScope_new in H. inv_ok. by destruct s.
Qed.

Lemma dec_enc_scope_opt s : validate_scope_opt s = Ok tt → dec_scope_opt (enc_scope_opt s) = Ok s.
Proof. destruct s as [s|]; [|done]. intros H%dec_enc_scope. simpl in *. unfold enc_scope in *. by rewrite H. Qed.

Lemma dec_enc_target s :
  match s with inl s => validate_scope s | inr _ => Ok tt end = Ok tt → dec_target (enc_target s) = Ok s.
Proof. destruct s as [s|n]; [|done]. intros H%dec_enc_scope. simpl in *. unfold enc_scope in *. by rewrite H. Qed.

Lemma data_opt_int_data o : data_opt_int (enc_opt_int o) = Some o.
Proof. by destruct o. Qed.

Lemma decode_policy_wire p : (match policy_wire p with DDict d => decode_policy d | _ => None end) = Some p.
Proof.
  unfold policy_wire, decode_policy.
  lazy -[data_num data_opt_num num_data opt_num_data].
  do 4 (rewrite data_num_data; lazy -[data_num data_opt_num num_data opt_num_data]).
  do 2 (rewrite data_opt_num_data; lazy -[data_num data_opt_num num_data opt_num_data]).
  by destruct p.
Qed.

Lemma dec_policy_wire p : ExecutionPolicy_post_init p = Ok tt → dec_policy (policy_wire p) = Ok p.
Proof.
  intros H. pose proof (decode_policy_wire p) as Hp. unfold dec_policy.
  unfold policy_wire in *. rewrite Hp. change (exact_fields _ policy_fields) with true. cbn -[ExecutionPolicy_post_init].
  by rewrite H.
Qed.

(** ** Records *)

(** The node a record names. *)
Definition rec_path (r : HRecord) : option NetPath :=
  match r with
  | TokensInitialized p _ _ _ _ | TokensConsumed p _ _ _ _ _ | TokensRead p _ _ _ _ _ | TokensProduced p _ _ _ _ _
  | CandidateSelected p _ _ | ExternalEventDelivered p _ _ _ _ _ | ScopedDeliveryDropped p _ _ _ _
  | ScopedDeliveryQuarantined p _ _ _ _ | DeliveryRegistrationOpened p _ _ _ | DeliveryRegistrationClosed p _ _ _
  | FiringBegun p _ _ _ | ActivityRequested p _ _ _ _ _ _ _ _ | ActivityCompleted p _ _ _
  | ActivityFailed p _ _ _ _ _ _ _ | ActivityTerminalQuarantined p _ _ _ _ | FiringCompleted p _ _
  | FiringFailed p _ _ _ => Some p
  | InstanceCreated _ _ _ | ScopeOpened _ _ | ScopeClosed _ _ _ _ | ScopeReset _ _ _ _ _ | TimerMatured _ _ => None
  end.

Definition wf_record (r : HRecord) : Prop := ∀ p, rec_path r = Some p → wf_path p.

(** The constructor call on a record's own fields rebuilds the record. *)
Lemma construct_fields r : wf_record r → admissible r → construct (record_name r) (record_fields r) = Ok r.
Proof.
  intros Hp [[_ Hv] Hpol].
  assert (Hpath : ∀ p, rec_path r = Some p → dec_path (enc_path p) = Ok p) by (intros; by apply dec_enc_path, Hp).
  clear Hp. destruct r; simpl in Hpath; try specialize (Hpath _ eq_refl); simpl in Hv, Hpol;
    repeat match goal with H : mbind _ _ = Ok _ |- _ => apply bind_Ok in H as ([] & ? & H) end;
    repeat match goal with
    | H : validate_scope _ = Ok _ |- _ => apply dec_enc_scope in H
    | H : validate_scope_opt _ = Ok _ |- _ => apply dec_enc_scope_opt in H
    | H : match ?s with inl _ => _ | inr _ => _ end = Ok _ |- _ => apply dec_enc_target in H
    | H : ExecutionPolicy_post_init _ = Ok _ |- _ => apply dec_policy_wire in H
    end;
    cbn [record_name record_fields];
    repeat (lazy -[dec_path dec_tokens dec_ids dec_scope dec_scope_opt dec_target dec_policy enc_path enc_tokens enc_ids
                   enc_scope enc_scope_opt enc_target enc_opt_int opt_str_data opt_num_data policy_wire
                   data_opt_int data_opt_str data_opt_num];
            first [done | rewrite Hpath | rewrite dec_enc_tokens | rewrite dec_enc_ids
                  | rewrite data_opt_int_data | rewrite data_opt_str_data | rewrite data_opt_num_data
                  | match goal with H : _ = Ok _ |- _ => rewrite H end]).
Qed.

Lemma decode_encode r : wf_record r → admissible r → decode_record (encode_record r) = Ok r.
Proof.
  intros Hp Ha. pose proof (construct_fields r Hp Ha) as Hc. destruct Ha as [[Hi _] _].
  assert (Hd : ddel "schema" (ddel "record"
    (("record", DStr (record_name r)) :: ("schema", DInt SCHEMA_VERSION) :: record_fields r)) = record_fields r)
    by by destruct r.
  unfold decode_record at 1. unfold encode_record at 1. rewrite Hd.
  change (dget "record" _) with (Some (DStr (record_name r))). change (dget "schema" _) with (Some (DInt SCHEMA_VERSION)).
  cbn -[construct py_eq Record_post_init encode_record].
  rewrite bool_decide_true by done. cbn -[construct py_eq Record_post_init encode_record]. rewrite Hc.
  cbn -[py_eq Record_post_init encode_record]. rewrite Hi. cbn -[py_eq encode_record].
  change (DDict _) with (encode_record r). by rewrite (reflexivity (R := λ x y, py_eq x y = true)).
Qed.

Lemma decode_spelling x r : decode_record x = Ok r → py_eq (encode_record r) x = true ∧ Record_post_init r = Ok tt.
Proof.
  unfold decode_record. destruct x; try done. intros H. inv_ok.
  split; [by apply negb_false_iff|]. by match goal with H : Record_post_init _ = Ok ?u |- _ => destruct u end.
Qed.

(** ** The JSON round trip of a durable line *)

(** What a line spells: token data with every tuple a list. Every other payload
    of an admissible record is canonical already. *)
Definition json_token (t : Token) : result Token := d ← canonical_payload (data t); Ok (MkToken (color t) d).
Definition json_record (r : HRecord) : result HRecord :=
  match r with
  | TokensInitialized p ts i es sc => ts ← mapR json_token ts; Ok (TokensInitialized p ts i es sc)
  | TokensConsumed p ts o es sc i => ts ← mapR json_token ts; Ok (TokensConsumed p ts o es sc i)
  | TokensRead p ts o es sc i => ts ← mapR json_token ts; Ok (TokensRead p ts o es sc i)
  | TokensProduced p ts o es sc i => ts ← mapR json_token ts; Ok (TokensProduced p ts o es sc i)
  | r => Ok r
  end.

Definition json_list := fix go (l : list Data) : result (list Data) :=
  match l with [] => Ok [] | a :: l => b ← canonical_payload a; bs ← go l; Ok (b :: bs) end.

Lemma json_tokens ts : canonical_payload (enc_tokens ts) = enc_tokens <$> mapR json_token ts.
Proof.
  change (canonical_payload (enc_tokens ts)) with (l ← json_list (map enc_token ts); Ok (DList l)).
  assert (json_list (map enc_token ts) = map enc_token <$> mapR json_token ts) as ->.
  { induction ts as [|t ts IH]; [done|]. simpl json_list. rewrite IH. simpl mapR.
    set (M := mapR json_token ts). unfold json_token. generalize M. clear. intros M.
    destruct t as [[c|] d]; simpl; destruct (canonical_payload d); simpl; try done; by destruct M. }
  by destruct (mapR json_token ts).
Qed.

(** ** Canonical shapes *)

Lemma enc_scope_opt_shape sc : canonical_json_shape (enc_scope_opt sc) = true.
Proof. by destruct sc. Qed.
Lemma enc_ids_shape l : canonical_json_shape (enc_ids l) = true.
Proof. simpl. apply forallb_forall. intros x (z & <- & _)%in_map_iff. done. Qed.
Lemma enc_tokens_shape ts :
  canonical_json_shape (enc_tokens ts) = true ↔ Forall (λ t, canonical_json_shape (data t) = true) ts.
Proof.
  simpl. induction ts as [|[[c|] d] ts IH]; simpl; [by split|..]; rewrite Forall_cons, <-IH, andb_true_r, andb_true_iff; done.
Qed.
Lemma delivery_tokens_shape ts : validate_delivery_tokens ts = Ok tt → canonical_json_shape (enc_tokens ts) = true.
Proof.
  unfold validate_delivery_tokens. intros H. apply bind_Ok in H as ([] & _ & H). apply forM_Ok in H.
  apply enc_tokens_shape. eapply Forall_impl; [exact H|]. intros t Ht. cbv beta in Ht. inv_ok. by apply negb_false_iff.
Qed.
Lemma payload_shape d : validate_payload d = Ok tt → canonical_json_shape d = true.
Proof. unfold validate_payload. intros H. inv_ok. by apply negb_false_iff. Qed.
Lemma opt_num_shape o : canonical_json_shape (opt_num_data o) = true.
Proof. destruct o; [apply num_data_shape|done]. Qed.

(** The records whose token data the constructors leave open. *)
Definition open_tokens (r : HRecord) : option (list Token) :=
  match r with
  | TokensInitialized _ ts _ _ _ | TokensConsumed _ ts _ _ _ _ | TokensRead _ ts _ _ _ _ | TokensProduced _ ts _ _ _ _ => Some ts
  | _ => None
  end.

(** A record is JSON-faithful when its token data is. *)
Definition json_faithful (r : HRecord) : Prop :=
  match open_tokens r with Some ts => Forall (λ t, canonical_json_shape (data t) = true) ts | None => True end.

Lemma admissible_shape r : admissible r → json_faithful r → canonical_json_shape (encode_record r) = true.
Proof.
  intros [[_ Hv] _] Hf. unfold json_faithful in Hf.
  destruct r; simpl in Hv, Hf;
    repeat match goal with H : mbind _ _ = Ok _ |- _ => apply bind_Ok in H as ([] & ? & H) end;
    cbn -[enc_path enc_tokens enc_ids enc_scope_opt enc_opt_int opt_str_data opt_num_data policy_wire canonical_json_shape];
    cbn -[enc_path enc_tokens enc_ids enc_scope_opt enc_opt_int opt_str_data opt_num_data policy_wire];
    rewrite ?enc_ids_shape, ?enc_scope_opt_shape, ?opt_num_shape, ?policy_wire_shape, ?(proj2 (enc_tokens_shape _)),
      ?delivery_tokens_shape, ?payload_shape by done;
    try reflexivity.
  - by destruct name.
  - by destruct scope as [[]|].
  - by destruct occurrence.
  - by destruct occurrence.
Qed.

Lemma json_record_faithful r : json_faithful r → json_record r = Ok r.
Proof.
  unfold json_faithful.
  assert (H : ∀ ts, Forall (λ t, canonical_json_shape (data t) = true) ts → mapR json_token ts = Ok ts).
  { induction 1 as [|t ts Hd _ IH]; [done|].
    assert (Ht : json_token t = Ok t) by (unfold json_token; rewrite canonical_payload_id by done; by destruct t).
    cbn [mapR]. by rewrite Ht, IH. }
  destruct r; simpl; try done; intros Ht%H; by rewrite Ht.
Qed.

Definition json_dict := fix go (d : list (string * Data)) : result (list (string * Data)) :=
  match d with [] => Ok [] | (k, v) :: d => w ← canonical_payload v; ws ← go d; Ok ((k, w) :: ws) end.

Lemma json_dict_cons k v d : canonical_json_shape v = true → json_dict ((k, v) :: d) = (ws ← json_dict d; Ok ((k, v) :: ws)).
Proof. intros Hv. simpl. by rewrite canonical_payload_id. Qed.

Lemma json_dict_tokens k ts d :
  json_dict ((k, enc_tokens ts) :: d) = (ts ← mapR json_token ts; ws ← json_dict d; Ok ((k, enc_tokens ts) :: ws)).
Proof. cbn -[canonical_payload enc_tokens]. rewrite json_tokens. by destruct (mapR json_token ts). Qed.

(** The line written for an admissible record spells its JSON image. *)
Lemma json_encode r : admissible r → canonical_payload (encode_record r) = encode_record <$> json_record r.
Proof.
  intros Ha. destruct (open_tokens r) as [ts|] eqn:Ho.
  - change (canonical_payload (encode_record r)) with
      (d ← json_dict (("record", DStr (record_name r)) :: ("schema", DInt SCHEMA_VERSION) :: record_fields r); Ok (DDict d)).
    destruct r; try discriminate Ho; injection Ho as <-; unfold encode_record; cbn [record_name record_fields];
      repeat (rewrite json_dict_tokens || rewrite json_dict_cons
        by (done || apply enc_ids_shape || apply enc_scope_opt_shape));
      cbn [json_record]; destruct (mapR json_token _); reflexivity.
  - assert (Hf : json_faithful r) by (unfold json_faithful; by rewrite Ho).
    by rewrite canonical_payload_id, json_record_faithful by by (done || apply admissible_shape).
Qed.

(** Admission looks at the number of tokens only. *)
Lemma json_admissible r r' : json_record r = Ok r' → wf_record r → admissible r →
  wf_record r' ∧ admissible r' ∧ json_faithful r' ∧ record_name r' = record_name r ∧ rec_occurrence r' = rec_occurrence r.
Proof.
  assert (Hlen : ∀ ts ts', mapR json_token ts = Ok ts' →
            length ts' = length ts ∧ Forall (λ t, canonical_json_shape (data t) = true) ts').
  { intros ts ts' H%mapR_Ok. split; [symmetry; by eapply Forall2_length|].
    induction H as [|t t' ts ts' Ht _ IH]; [by constructor|]. constructor; [|done].
    unfold json_token in Ht. inv_ok. simpl. by eapply canonical_payload_shape. }
  destruct r; simpl; intros Hj Hw [[H1 H2] H3];
    first [ (injection Hj as <-; done) | apply bind_Ok in Hj as (ts' & Hts & [= <-]) ];
    apply Hlen in Hts as [Hl Hs];
    (split; [exact Hw|]); unfold admissible, canonical_record, json_faithful; simpl in *;
    unfold validate_entries in *; rewrite Hl; done.
Qed.

(** A line written for an admissible record loads, and loads the record itself
    when its token data is JSON-faithful. *)
Lemma line_loads r x : wf_record r → admissible r → canonical_payload (encode_record r) = Ok x →
  ∃ r', json_record r = Ok r' ∧ x = encode_record r' ∧ decode_record x = Ok r' ∧ (json_faithful r → r' = r).
Proof.
  intros Hw Ha. rewrite json_encode by done. destruct (json_record r) as [r'|] eqn:Hj; [|done]. intros [= <-].
  destruct (json_admissible r r' Hj Hw Ha) as (Hw' & Ha' & _). exists r'. split_and!; try done.
  - by apply decode_encode.
  - intros Hf%json_record_faithful. congruence.
Qed.

(** C29: a record with well-formed paths that validation admits decodes from its
    own spelling to itself, and so does the line a durable store writes for it,
    up to the JSON image of token data that holds tuples; and a payload that
    decodes at all is, as a Python value, the exact spelling of the decoded
    record, which passes its own constructor's checks: whether a store admits
    it is checked separately. *)
Theorem record_codec_round_trips r :
  wf_record r → admissible r →
  decode_record (encode_record r) = Ok r ∧
  (∀ x, canonical_payload (encode_record r) = Ok x →
     ∃ r', decode_record x = Ok r' ∧ encode_record r' = x ∧ (json_faithful r → r' = r)) ∧
  ∀ x s, decode_record x = Ok s → py_eq (encode_record s) x = true ∧ Record_post_init s = Ok tt.
Proof.
  intros Hw Ha. split; [by apply decode_encode|]. split; [|apply decode_spelling].
  intros x (r' & _ & Hx & Hd & Hf)%line_loads; [|done..]. by exists r'.
Qed.

(** A produced pair whose data holds a tuple: its line reads back as a list. *)
Definition tuple_record : HRecord :=
  TokensProduced ["main"; "done"] [MkToken (Some "pair") (DTuple [DInt 1; DBool true])] 3 [] None 7.

Lemma record_codec_round_trips_witness :
  (∃ x, canonical_payload (encode_record tuple_record) = Ok x ∧
    decode_record x = Ok (TokensProduced ["main"; "done"] [MkToken (Some "pair") (DList [DInt 1; DBool true])] 3 [] None 7)) ∧
  decode_record (encode_record tuple_record) = Ok tuple_record.
Proof.
  split.
  - eexists. split; [vm_compute; reflexivity|]. vm_compute. reflexivity.
  - refine (proj1 (record_codec_round_trips tuple_record _ _)).
    + intros p [= <-]. split; [done|]. by repeat constructor.
    + by repeat split.
Defined.
