(* ===== verification/HistoryStores.v ===== *)
(** * Durable history stores

    The JSONL store (src/src/petrus/impetus/history_store/jsonl.py) and the
    SQLite store (src/src/petrus/impetus/history_store/sqlite.py). A JSON text
    is represented by the value [json.loads] reads from it. *)

From stdpp Require Import base gmap sets list strings pretty.
From Stdlib Require Import ZArith Lia.
From S2P Require Import Prelude PyData Schema Marking Activity Records Codec.
Open Scope string_scope.
Open Scope list_scope.
Open Scope Z_scope.

(** ** JSONL *)
Module Jsonl.

(** A line of the file: the text of one value, or text that is no JSON
    document. *)
Inductive Line := Spelled (d : Data) | Garbled.

(** The terminated lines, and what follows the last newline. *)
Record File := MkFile { f_lines : list Line; f_tail : option Line }.

Definition empty_file : File := MkFile [] None.

(** The lines a reader iterates over. *)
Definition file_lines (f : File) : list Line := f_lines f ++ option_list (f_tail f).

(** Writing [line + "\n"]: text put behind an unterminated line joins it, and
    two values, or a fragment and a value, on one line are no document. *)
Definition put_line (f : File) (d : Data) : File :=
  MkFile (f_lines f ++ [match f_tail f with None => Spelled d | Some _ => Garbled end]) None.

(** [DurableAppend.append] *)
Definition DurableAppend_append (f : File) (lines : list Data) : File := foldl put_line f lines.

(** What an operating-system failure leaves of a batch: some whole lines, then
    nothing, part of the next line, or all of it but its newline. *)
Inductive Cut := CutClean | CutTorn | CutUnterminated.

Definition cut_append (f : File) (lines : list Data) (k : nat) (c : Cut) : File :=
  let f := DurableAppend_append f (take k lines) in
  match drop k lines with
  | [] => f
  | d :: _ =>
      let joined := match f_tail f with None => Spelled d | Some _ => Garbled end in
      match c with
      | CutClean => f
      | CutTorn => MkFile (f_lines f) (Some Garbled)
      | CutUnterminated => MkFile (f_lines f) (Some joined)
      end
  end.

(** [JsonlHistoryStore]: the file and the records in memory. *)
Record JsonlHistoryStore := MkJsonl { j_file : File; j_records : list HRecord }.

Definition read_line (l : Line) : result HRecord :=
  match l with
  | Spelled d => match decode_record d with
                 | Ok r => Ok r
                 | Err _ => Err (ValueError "line does not decode as an event history record")
                 end
  | Garbled => Err (ValueError "line does not decode as an event history record")
  end.

(** [__init__] over the file's content *)
Definition Jsonl_open (f : File) : result JsonlHistoryStore :=
  records ← mapR read_line (file_lines f); Ok (MkJsonl f records).

(** [_encoded_line] *)
Definition encoded_line (r : HRecord) : result Data :=
  match canonical_payload (encode_record r) with
  | Ok d => Ok d
  | Err _ => Err (ValueError "cannot durably encode: durable instants and token data must be JSON-faithful values")
  end.

(** [_write]: the whole batch is encoded before the file is touched. *)
Definition Jsonl_write (s : JsonlHistoryStore) (records : list HRecord) : result File :=
  lines ← mapR encoded_line records; Ok (DurableAppend_append (j_file s) lines).

Definition Jsonl_extend (s : JsonlHistoryStore) (records : list HRecord) : result JsonlHistoryStore :=
  f ← Jsonl_write s records; Ok (MkJsonl f (j_records s ++ records)).

Definition Jsonl_append (s : JsonlHistoryStore) (r : HRecord) : result JsonlHistoryStore := Jsonl_extend s [r].

(** The file after a write that the operating system cut short. *)
Definition Jsonl_crash (s : JsonlHistoryStore) (records : list HRecord) (k : nat) (c : Cut) : result File :=
  lines ← mapR encoded_line records; Ok (cut_append (j_file s) lines k c).

End Jsonl.

(** ** SQLite *)
Module Sqlite.

(** A row of [impetus_history_events]. *)
Record Row := MkRow {
  r_instance : string; r_position : Z; r_event_id : string;
  r_record_type : string; r_occurrence : option Z; r_payload : Data }.

(** [SqliteHistoryStore] over the shared table. *)
Record SqliteHistoryStore := MkSqlite { s_instance : string; s_records : list HRecord }.

Definition event_id (instance : string) (position : Z) : string := instance +:+ ":" +:+ pretty position.

Definition FIRING_TERMINALS : list string := ["FiringCompleted"; "FiringFailed"].
Definition ACTIVITY_TERMINALS : list string := ["ActivityCompleted"; "ActivityFailed"].

(** [next(family for family in ... if record_type in family)] *)
Definition terminal_family (record_type : string) : option (list string) :=
  if bool_decide (record_type ∈ FIRING_TERMINALS) then Some FIRING_TERMINALS
  else if bool_decide (record_type ∈ ACTIVITY_TERMINALS) then Some ACTIVITY_TERMINALS else None.

(** The rows of one terminal index at [(instance, occurrence)]; a NULL
    occurrence is distinct from every other. *)
Definition in_index (family : list string) (instance : string) (occurrence : option Z) (r : Row) : bool :=
  bool_decide (r_record_type r ∈ family) && bool_decide (r_instance r = instance) &&
  match occurrence, r_occurrence r with Some o, Some o' => o =? o' | _, _ => false end.

(** The primary key, the unique event identity and the two partial unique
    indexes of the schema. *)
Definition conflicts (new r : Row) : bool :=
  (bool_decide (r_instance r = r_instance new) && (r_position r =? r_position new))
  || bool_decide (r_event_id r = r_event_id new)
  || match terminal_family (r_record_type new) with
     | Some family => in_index family (r_instance new) (r_occurrence new) r
     | None => false
     end.

(** [INSERT ... ON CONFLICT DO NOTHING]: the row count and the table. *)
Definition sql_insert (rows : list Row) (new : Row) : bool * list Row :=
  if existsb (conflicts new) rows then (false, rows) else (true, rows ++ [new]).

(** [_encode] *)
Definition encode (r : HRecord) : result (HRecord * string * option Z * Data) :=
  match canonical_payload (encode_record r) with
  | Ok payload => Ok (r, record_name r, rec_occurrence r, payload)
  | Err _ => Err (ValueError "cannot durably encode: durable instants, token data, and activity input/result must be JSON-faithful values")
  end.

(** [_verify_conflict] *)
Definition verify_conflict (rows : list Row) (new : Row) : result bool :=
  match find (λ r, bool_decide (r_event_id r = r_event_id new)) rows with
  | Some stored =>
      if py_eq (r_payload stored) (r_payload new) then Ok true
      else Err (ValueError "event is already recorded as a different fact")
  | None =>
      let terminal := match terminal_family (r_record_type new) with
                      | Some family => find (in_index family (r_instance new) (r_occurrence new)) rows
                      | None => None
                      end in
      match terminal with
      | None => Err (RuntimeError "insert conflicted but no stored row explains it")
      | Some stored =>
          if py_eq (r_payload stored) (r_payload new) then Ok false
          else Err (ValueError "occurrence already holds its terminal fact")
      end
  end.

(** One iteration of the loop of [_commit]: table, next position, entered records. *)
Definition commit_one (instance : string) (st : list Row * Z * list HRecord)
    (item : HRecord * string * option Z * Data) : result (list Row * Z * list HRecord) :=
  let '(rows, position, entered) := st in
  let '(record, record_type, occurrence, payload) := item in
  let new := MkRow instance position (event_id instance position) record_type occurrence payload in
  let '(inserted, rows) := sql_insert rows new in
  enter ← (if inserted then Ok true else verify_conflict rows new);
  if enter : bool then Ok (rows, position + 1, entered ++ [record]) else Ok (rows, position, entered).

(** [_commit]: one transaction; an exception rolls the table back. *)
Definition commit (rows : list Row) (s : SqliteHistoryStore) (records : list HRecord)
    : result (list Row * SqliteHistoryStore) :=
  batch ← mapR encode records;
  '(rows, _, entered) ← foldM (commit_one (s_instance s)) (rows, Z.of_nat (length (s_records s)), []) batch;
  Ok (rows, MkSqlite (s_instance s) (s_records s ++ entered)).

Definition position_leb (x y : Row) : bool := r_position x <=? r_position y.

(** One row of [_load], with its expected position. *)
Definition load_row (instance : string) (expected : Z) (r : Row) : result HRecord :=
  raise_if (negb (r_position r =? expected) || negb (bool_decide (r_event_id r = event_id instance expected)))
    (ValueError "history is non-dense or has corrupt event identity");;
  record ← (match decode_record (r_payload r) with
            | Ok record => Ok record
            | Err _ => Err (ValueError "event does not decode as an event history record")
            end);
  let occurrence := match r_payload r with DDict d => dget_default "occurrence" DNone d | _ => DNone end in
  raise_if (negb (bool_decide (record_name record = r_record_type r))
            || negb (py_eq occurrence (enc_opt_int (r_occurrence r))))
    (ValueError "event has corrupt indexing metadata");;
  Ok record.

Fixpoint load_rows (instance : string) (expected : Z) (rows : list Row) : result (list HRecord) :=
  match rows with
  | [] => Ok []
  | r :: rows => record ← load_row instance expected r; records ← load_rows instance (expected + 1) rows; Ok (record :: records)
  end.

(** [__init__] on a table of the current shape: [_load]. *)
Definition open (rows : list Row) (instance : string) : result SqliteHistoryStore :=
  raise_if (str_empty instance) (ValueError "SqliteHistoryStore requires a non-empty string instance id");;
  records ← load_rows instance 0 (sorted_by position_leb (filter (λ r, r_instance r = instance) rows));
  Ok (MkSqlite instance records).

End Sqlite.
