(* ===== verification/StoreTheorems.v ===== *)
(** * What the durable stores keep

    A JSONL file reads back as the records appended to it, and a write the
    operating system cut short reads back as a whole-record prefix or not at
    all. The SQLite table holds one history per instance, whatever handles
    write to it. *)

From stdpp Require Import base gmap sets list strings pretty.
From Stdlib Require Import ZArith Lia.
From S2P Require Import Prelude PyData Schema Marking Activity Records Codec CodecTheorems HistoryStores.
Open Scope string_scope.
Open Scope list_scope.
Open Scope Z_scope.

(** What an instance appends. *)
Definition recordable (r : HRecord) : Prop := wf_record r ∧ admissible r.

Lemma mapR_app_Ok {A B} (f : A → result B) l k l' k' :
  mapR f l = Ok l' → mapR f k = Ok k' → mapR f (l ++ k) = Ok (l' ++ k').
Proof. rewrite !mapR_Ok. apply Forall2_app. Qed.

Lemma mapR_faithful l : Forall json_faithful l → mapR json_record l = Ok l.
Proof. induction 1 as [|r l Hr _ IH]; [done|]. cbn [mapR]. by rewrite (json_record_faithful r Hr), IH. Qed.

(** ** JSONL *)
Section jsonl.
  Import Jsonl.

Lemma append_lines f ds : f_tail f = None →
  DurableAppend_append f ds = MkFile (f_lines f ++ map Spelled ds) None.
Proof.
  revert f. induction ds as [|d ds IH]; intros f Hf; simpl.
  - rewrite app_nil_r. destruct f; simpl in *; by subst.
  - unfold DurableAppend_append in *. rewrite IH by done. simpl. rewrite Hf, <-app_assoc. done.
Qed.

(** A recordable batch that encodes has a JSON image, which its lines spell. *)
Lemma encoded_batch rs ds : Forall recordable rs → mapR encoded_line rs = Ok ds →
  ∃ images, mapR json_record rs = Ok images ∧ mapR read_line (map Spelled ds) = Ok images.
Proof.
  intros Hrs H%mapR_Ok. revert Hrs. induction H as [|r d rs ds Hd _ IH]; intros Hrs; [by exists []|].
  apply Forall_cons in Hrs as [[Hw Ha] Hrs]. destruct (IH Hrs) as (images & Hj & Hr).
  unfold encoded_line in Hd. destruct (canonical_payload (encode_record r)) as [x|] eqn:Hx; [|done]. injection Hd as ->.
  destruct (line_loads r d Hw Ha Hx) as (r' & Hr' & _ & Hdec & _). exists (r' :: images).
  assert (Hl : read_line (Spelled d) = Ok r') by (simpl; by rewrite Hdec).
  cbn [mapR map]. by rewrite Hr', Hl, Hj, Hr.
Qed.

(** Every store: new, extended, reopened, or reopened over the file of a write
    cut short at the end of a line. A file whose last line lost only its newline
    also opens, and is left out: the next append joins two records on one line. *)
Inductive jsonl_reaches : JsonlHistoryStore → Prop :=
| jr_new s : Jsonl_open empty_file = Ok s → jsonl_reaches s
| jr_extend s batch s' : jsonl_reaches s → Forall recordable batch → Jsonl_extend s batch = Ok s' → jsonl_reaches s'
| jr_reopen s s' : jsonl_reaches s → Jsonl_open (j_file s) = Ok s' → jsonl_reaches s'
| jr_cut s batch k c f s' : jsonl_reaches s → Forall recordable batch → Jsonl_crash s batch k c = Ok f → f_tail f = None →
    Jsonl_open f = Ok s' → jsonl_reaches s'.

Lemma json_images l k : Forall recordable l → mapR json_record l = Ok k → Forall (λ r, recordable r ∧ json_faithful r) k.
Proof.
  intros Hl Hk%mapR_Ok. induction Hk as [|r r' l k Hr _ IH]; [done|]. apply Forall_cons in Hl as [[Hw Ha] Hl].
  constructor; [|by apply IH]. destruct (json_admissible r r' Hr Hw Ha) as (? & ? & ? & _). done.
Qed.

Lemma mapR_take {A B} (f : A → result B) l k n : mapR f l = Ok k → mapR f (take n l) = Ok (take n k).
Proof. rewrite !mapR_Ok. intros H. by apply Forall2_take. Qed.

Lemma images_recordable l k : Forall recordable l → mapR json_record l = Ok k → Forall recordable k.
Proof. intros Hl Hk. eapply Forall_impl; [by eapply json_images|naive_solver]. Qed.

(** The JSON image is its own image. *)
Lemma images_settled l k : Forall recordable l → mapR json_record l = Ok k → mapR json_record k = Ok k.
Proof. intros Hl Hk. apply mapR_faithful. eapply Forall_impl; [by eapply json_images|naive_solver]. Qed.

(** The file spells the JSON image of the records in memory. *)
Lemma jsonl_invariant s : jsonl_reaches s →
  f_tail (j_file s) = None ∧ Forall recordable (j_records s) ∧
  ∃ images, mapR json_record (j_records s) = Ok images ∧ mapR read_line (f_lines (j_file s)) = Ok images.
Proof.
  induction 1 as [s Hs|s batch s' _ IH Hb Hs'|s s' _ IH Hs'|s batch k c f s' _ IH Hb Hc Htail Hs'].
  - injection Hs as <-. simpl. eauto.
  - destruct IH as (Ht & Hrec & images & Hj & Hr). unfold Jsonl_extend, Jsonl_write in Hs'. inv_ok.
    match goal with H : mapR encoded_line _ = Ok _ |- _ => destruct (encoded_batch _ _ Hb H) as (images' & Hj' & Hr') end.
    simpl. rewrite append_lines by done. simpl. split; [done|]. split; [by apply Forall_app|].
    exists (images ++ images'). split; by apply mapR_app_Ok.
  - destruct IH as (Ht & Hrec & images & Hj & Hr). unfold Jsonl_open, file_lines in Hs'. rewrite Ht in Hs'.
    simpl in Hs'. rewrite app_nil_r, Hr in Hs'. injection Hs' as <-. simpl. split; [done|].
    split; [by eapply images_recordable|]. exists images. split; [|done]. by eapply images_settled.
  - destruct IH as (Ht & Hrec & images & Hj & Hr). unfold Jsonl_crash in Hc. apply bind_Ok in Hc as (ds & He & [= <-]).
    destruct (encoded_batch _ _ Hb He) as (images' & Hj' & Hr').
    assert (Hlines : f_lines (cut_append (j_file s) ds k c) = f_lines (j_file s) ++ map Spelled (take k ds)).
    { unfold cut_append in *. rewrite append_lines in * by done. destruct (drop k ds); [done|]. by destruct c. }
    assert (Hread : mapR read_line (f_lines (cut_append (j_file s) ds k c)) = Ok (images ++ take k images')).
    { rewrite Hlines. apply mapR_app_Ok; [done|]. rewrite <-firstn_map. by apply mapR_take. }
    assert (Hall : mapR json_record (j_records s ++ take k batch) = Ok (images ++ take k images')).
    { apply mapR_app_Ok; [done|]. by apply mapR_take. }
    assert (Hall' : Forall recordable (j_records s ++ take k batch)) by (apply Forall_app; split; [done|by apply Forall_take]).
    unfold Jsonl_open, file_lines in Hs'. rewrite Htail in Hs'. simpl in Hs'. rewrite app_nil_r, Hread in Hs'.
    injection Hs' as <-. simpl. split; [done|]. split; [by eapply images_recordable|].
    exists (images ++ take k images'). split; [|done]. by eapply images_settled.
Qed.

Lemma jsonl_loads s : jsonl_reaches s →
  ∃ images, mapR json_record (j_records s) = Ok images ∧ Jsonl_open (j_file s) = Ok (MkJsonl (j_file s) images).
Proof.
  intros (Ht & _ & images & Hj & Hr)%jsonl_invariant. exists images. split; [done|].
  unfold Jsonl_open, file_lines. rewrite Ht. simpl. by rewrite app_nil_r, Hr.
Qed.

(** What a cut write leaves behind. *)
Lemma cut_lines f ds k c : f_tail f = None →
  file_lines (cut_append f ds k c) = f_lines f ++ map Spelled (take k ds) ++
    match drop k ds, c with
    | [], _ | _, CutClean => []
    | _ :: _, CutTorn => [Garbled]
    | d :: _, CutUnterminated => [Spelled d]
    end.
Proof.
  intros Hf. unfold cut_append, file_lines. rewrite append_lines by done. simpl.
  destruct (drop k ds), c; simpl; by rewrite ?app_nil_r, <-?app_assoc.
Qed.

Lemma mapR_lookup_Ok {A B} (f : A → result B) l k n a : mapR f l = Ok k → l !! n = Some a → ∃ b, k !! n = Some b ∧ f a = Ok b.
Proof. rewrite mapR_Ok. intros H Ha. destruct (Forall2_lookup_l _ _ _ _ _ H Ha) as (b & ? & ?). eauto. Qed.

Lemma mapR_garbled (l : list Line) : Garbled ∈ l → ∃ e, mapR read_line l = Err e.
Proof.
  induction l as [|x l IH]; [set_solver|]. intros [<-|H]%elem_of_cons; [by eexists|].
  destruct (IH H) as [e He]. cbn [mapR]. rewrite He. by destruct (read_line x); eexists.
Qed.

(** A batch cut after [k] lines reads back as a whole-record extension, except
    for a torn line, which is refused. *)
Lemma cut_loads s batch k c f images : jsonl_reaches s → Forall recordable batch →
  mapR json_record (j_records s ++ batch) = Ok images →
  Jsonl_crash s batch k c = Ok f →
  match Jsonl_open f with
  | Ok s' => ∃ n, (length (j_records s) ≤ n)%nat ∧ j_records s' = take n images
  | Err _ => c = CutTorn ∧ (k < length batch)%nat
  end.
Proof.
  intros (Ht & Hrec & images1 & Hj1 & Hr1)%jsonl_invariant Hb Hall Hc.
  unfold Jsonl_crash in Hc. apply bind_Ok in Hc as (ds & He & [= <-]).
  destruct (encoded_batch _ _ Hb He) as (images2 & Hj2 & Hr2).
  pose proof (mapR_app_Ok _ _ _ _ _ Hj1 Hj2) as Happ. rewrite Hall in Happ. injection Happ as ->.
  assert (Hl1 : length images1 = length (j_records s)) by (apply mapR_Ok in Hj1; symmetry; by eapply Forall2_length).
  assert (Hld : length ds = length batch) by (apply mapR_Ok in He; symmetry; by eapply Forall2_length).
  assert (Hread : ∀ n, mapR read_line (f_lines (j_file s) ++ map Spelled (take n ds)) = Ok (take (length (j_records s) + n) (images1 ++ images2))).
  { intros n. rewrite <-Hl1, take_app_add. apply mapR_app_Ok; [done|]. rewrite <-firstn_map. by apply mapR_take. }
  unfold Jsonl_open. rewrite cut_lines by done. destruct (drop k ds) as [|d rest] eqn:Hd.
  - rewrite app_nil_r, Hread. simpl. eexists. split; [|done]. lia.
  - destruct c.
    + rewrite app_nil_r, Hread. simpl. eexists. split; [|done]. lia.
    + destruct (mapR_garbled (f_lines (j_file s) ++ map Spelled (take k ds) ++ [Garbled])) as [e ->]; [set_solver|].
      simpl. split; [done|]. rewrite <-Hld. assert (Hn : drop k ds ≠ []) by by rewrite Hd.
      destruct (decide (k < length ds)%nat); [done|]. exfalso. apply Hn, drop_ge. lia.
    + assert (map Spelled (take k ds) ++ [Spelled d] = map Spelled (take (S k) ds)) as ->.
      { assert (Hk : ds !! k = Some d) by (rewrite <-(Nat.add_0_r k), <-lookup_drop, Hd; done).
        rewrite (take_S_r _ _ _ Hk), map_app. done. }
      rewrite Hread. simpl. eexists. split; [|done]. lia.
Qed.

(** C32: a JSONL store that wrote only recordable batches, and was never opened
    over a line that lost its newline, reopens to the JSON image of the records
    it holds, which is those records when their token data is JSON; and when the
    operating system cuts a recordable batch short anywhere, the file reopens to
    the image of the old records and of a whole-record prefix of the batch,
    unless it ends inside a torn line, which is refused. *)
Theorem jsonl_store_is_durable s : jsonl_reaches s →
  (∃ images, mapR json_record (j_records s) = Ok images ∧ Jsonl_open (j_file s) = Ok (MkJsonl (j_file s) images)) ∧
  (Forall json_faithful (j_records s) → Jsonl_open (j_file s) = Ok s) ∧
  ∀ batch k c f, Forall recordable batch → Jsonl_crash s batch k c = Ok f →
    ∃ images, mapR json_record (j_records s ++ batch) = Ok images ∧
      (Forall json_faithful (j_records s ++ batch) → images = j_records s ++ batch) ∧
      match Jsonl_open f with
      | Ok s' => ∃ n, (length (j_records s) ≤ n)%nat ∧ j_records s' = take n images
      | Err _ => c = CutTorn ∧ (k < length batch)%nat
      end.
Proof.
  intros Hs. destruct (jsonl_loads s Hs) as (images & Hj & Ho). split; [by exists images|]. split.
  - intros Hf%mapR_faithful. rewrite Hj in Hf. injection Hf as ->. rewrite Ho. by destruct s.
  - intros batch k c f Hb Hc. pose proof Hc as (ds & He & _)%bind_Ok. destruct (encoded_batch _ _ Hb He) as (images' & Hj' & _).
    pose proof (mapR_app_Ok _ _ _ _ _ Hj Hj') as Hall. exists (images ++ images'). split; [done|]. split; [|by eapply cut_loads].
    intros Hf%mapR_faithful. congruence.
Qed.

Definition sample_batch : list HRecord :=
  [FiringBegun ["main"; "go"] 1 None 2; TokensProduced ["main"; "done"] [MkToken None (DInt 4)] 1 [] None 2;
   FiringCompleted ["main"; "go"] 1 2].

Lemma sample_recordable : Forall recordable sample_batch ∧ Forall json_faithful sample_batch.
Proof.
  split; [|by repeat constructor].
  assert (wf_path ["main"; "go"] ∧ wf_path ["main"; "done"]) as [H1 H2] by (split; (split; [done|by repeat constructor])).
  repeat (apply Forall_cons; split; [split; [by intros p [= <-]|by repeat split]|]). done.
Qed.

Lemma jsonl_store_is_durable_witness :
  ∃ s f, Jsonl_extend (MkJsonl empty_file []) sample_batch = Ok s ∧ Jsonl_open (j_file s) = Ok s ∧
    Jsonl_crash (MkJsonl empty_file []) sample_batch 1 CutUnterminated = Ok f ∧
    match Jsonl_open f with
    | Ok s' => ∃ n, (0 ≤ n)%nat ∧ j_records s' = take n sample_batch
    | Err _ => CutUnterminated = CutTorn ∧ (1 < 3)%nat
    end.
Proof.
  pose proof (jr_new _ (eq_refl : Jsonl_open empty_file = Ok (MkJsonl empty_file []))) as Hnew.
  destruct sample_recordable as [Hb Hf].
  set (s := MkJsonl (DurableAppend_append empty_file (map encode_record sample_batch)) sample_batch).
  assert (Hx : Jsonl_extend (MkJsonl empty_file []) sample_batch = Ok s) by (vm_compute; reflexivity).
  exists s, (cut_append empty_file (map encode_record sample_batch) 1 CutUnterminated). split; [done|]. split.
  - exact (proj1 (proj2 (jsonl_store_is_durable s (jr_extend _ sample_batch s Hnew Hb Hx))) Hf).
  - split; [vm_compute; reflexivity|].
    destruct (proj2 (proj2 (jsonl_store_is_durable _ Hnew)) sample_batch 1%nat CutUnterminated
      (cut_append empty_file (map encode_record sample_batch) 1 CutUnterminated) Hb ltac:(vm_compute; reflexivity))
      as (images & _ & Hi & Hc).
    rewrite (Hi Hf) in Hc. exact Hc.
Defined.
End jsonl.
