(* ===== verification/SqliteTheorems.v ===== *)
(** * One stored history per instance

    The SQLite store holds no writer fence of its own: any number of handles on
    the same instance may commit. Here every handle's records stay a prefix of
    the one stored history, no row is ever rewritten, an acknowledged batch is
    stored, and a lone writer's batches commit whole. *)

From stdpp Require Import base gmap sets list strings pretty sorting.
From Stdlib Require Import ZArith Lia Ascii.
From S2P Require Import Prelude PyData Schema Marking Activity Records Codec CodecTheorems HistoryStores StoreTheorems.
Import Sqlite.
Open Scope string_scope.
Open Scope list_scope.
Open Scope Z_scope.

(** ** Event identities are unique *)

Lemma split_last c s t : str_contains c t = false → str_split c (s +:+ String c t) = str_split c s ++ [t].
Proof.
  intros Ht. induction s as [|a s IH]; simpl.
  - rewrite Ascii.eqb_refl. by rewrite str_split_plain.
  - rewrite IH. destruct (Ascii.eqb a c); [done|]. destruct (str_split c s) eqn:E; [by apply str_split_nonnil in E|done].
Qed.

Lemma pretty_go_plain x s : str_contains ":"%char s = false → str_contains ":"%char (pretty_N_go x s) = false.
Proof.
  revert s. induction (N.lt_wf_0 x) as [x _ IH]; intros s Hs.
  destruct (decide (x = 0%N)) as [->|Hx]; [by rewrite pretty_N_go_0|].
  rewrite pretty_N_go_step by lia. apply IH; [apply N.div_lt; lia|]. simpl. rewrite Hs, orb_false_r.
  unfold pretty_N_char. by repeat case_match.
Qed.

Lemma pretty_plain z : 0 ≤ z → str_contains ":"%char (pretty z) = false.
Proof. intros Hz. destruct z as [|p|p]; [done| |lia]. by apply pretty_go_plain. Qed.

Lemma event_id_inj i j p q : 0 ≤ p → 0 ≤ q → event_id i p = event_id j q → i = j ∧ p = q.
Proof.
  unfold event_id. intros Hp Hq H.
  change (i +:+ String ":"%char (pretty p) = j +:+ String ":"%char (pretty q)) in H. apply (f_equal (str_split ":"%char)) in H.
  rewrite !split_last in H by by apply pretty_plain. apply app_inj_tail in H as [H1 H2]. split; [|by apply (inj pretty)].
  by rewrite <-(str_join_split ":"%char i), H1, str_join_split.
Qed.

(** ** The table *)

(** The rows of one instance in insertion order. *)
Definition stored (rows : list Row) (i : string) : list Row := filter (λ r, r_instance r = i) rows.

(** The [n]-th row of an instance spells a recordable fact. *)
Definition row_ok (i : string) (n : nat) (r : Row) : Prop :=
  r_position r = Z.of_nat n ∧ r_event_id r = event_id i (Z.of_nat n) ∧
  ∃ fact, recordable fact ∧ json_faithful fact ∧ r_payload r = encode_record fact ∧
    r_record_type r = record_name fact ∧ r_occurrence r = rec_occurrence fact.

Definition table_ok (rows : list Row) : Prop := ∀ i n r, stored rows i !! n = Some r → row_ok i n r.

(** A stored payload and a live record state the same fact. *)
Definition same_fact (x : Data) (r : HRecord) : Prop :=
  ∃ y, canonical_payload (encode_record r) = Ok y ∧ py_eq x y = true.

(** The records of a handle are the first ones of the stored history. *)
Definition agrees (rows : list Row) (i : string) (records : list HRecord) : Prop :=
  Forall2 (λ r rec, same_fact (r_payload r) rec) (take (length records) (stored rows i)) records.

Lemma stored_app rows rows' i : stored (rows ++ rows') i = stored rows i ++ stored rows' i.
Proof. apply filter_app. Qed.

Lemma stored_instance rows i r : r ∈ stored rows i → r_instance r = i ∧ r ∈ rows.
Proof. unfold stored. rewrite list_elem_of_filter. done. Qed.

Lemma agrees_length rows i records : agrees rows i records → (length records ≤ length (stored rows i))%nat.
Proof. intros H%Forall2_length. rewrite length_take in H. lia. Qed.

Lemma agrees_prefix rows rows' i records : rows `prefix_of` rows' → agrees rows i records → agrees rows' i records.
Proof.
  intros [k ->] H. pose proof (agrees_length _ _ _ H) as Hl. unfold agrees in *.
  rewrite stored_app, take_app_le by done. done.
Qed.

Lemma agrees_snoc rows i records rec r :
  agrees rows i records → stored rows i !! length records = Some r → same_fact (r_payload r) rec →
  agrees rows i (records ++ [rec]).
Proof.
  unfold agrees. intros H Hr Hs. rewrite length_app. simpl. rewrite Nat.add_1_r, (take_S_r _ _ _ Hr).
  apply Forall2_app; [done|]. by constructor.
Qed.

Lemma table_row rows r : table_ok rows → r ∈ rows → ∃ n, stored rows (r_instance r) !! n = Some r ∧ row_ok (r_instance r) n r.
Proof.
  intros Ht Hr. assert (r ∈ stored rows (r_instance r)) as [n Hn]%list_elem_of_lookup
    by (unfold stored; by apply list_elem_of_filter). eauto.
Qed.

(** The row at an event identity is the instance's row at that position. *)
Lemma find_event rows i n r : table_ok rows →
  find (λ r, bool_decide (r_event_id r = event_id i (Z.of_nat n))) rows = Some r → stored rows i !! n = Some r.
Proof.
  intros Ht [Hr He%bool_decide_eq_true]%find_some. apply list_elem_of_In in Hr.
  destruct (table_row _ _ Ht Hr) as (m & Hm & Hp & Hid & _). rewrite Hid in He.
  apply event_id_inj in He as [<- Hn]; [|lia..]. by replace n with m by lia.
Qed.

(** ** One record *)

Lemma encode_row rec x : recordable rec → canonical_payload (encode_record rec) = Ok x →
  ∃ fact, recordable fact ∧ json_faithful fact ∧ x = encode_record fact ∧
    record_name rec = record_name fact ∧ rec_occurrence rec = rec_occurrence fact.
Proof.
  intros [Hw Ha] Hx. destruct (line_loads rec x Hw Ha Hx) as (fact & Hj & -> & _ & _).
  destruct (json_admissible rec fact Hj Hw Ha) as (? & ? & ? & ? & ?). exists fact. done.
Qed.

Lemma insert_ok rows i n rec x : table_ok rows → recordable rec → canonical_payload (encode_record rec) = Ok x →
  n = length (stored rows i) →
  table_ok (rows ++ [MkRow i (Z.of_nat n) (event_id i (Z.of_nat n)) (record_name rec) (rec_occurrence rec) x]).
Proof.
  intros Ht Hrec Hx -> j m r Hm. rewrite stored_app in Hm. apply lookup_app_Some in Hm as [Hm|[Hge Hm]]; [by apply Ht|].
  unfold stored in Hm. rewrite filter_cons in Hm. case_decide as Hj; [|done]. simpl in Hj. subst j.
  destruct (m - _)%nat eqn:E in Hm; [|done]. injection Hm as <-.
  replace m with (length (stored rows i)) in * by (unfold stored in *; lia).
  split; [done|]. split; [done|]. by apply encode_row.
Qed.

(** Every record offered is stored, in the handle's position or, a terminal
    fact repeated, in an earlier one. *)
Definition step_ok (i : string) (rows : list Row) (records : list HRecord) (rec : HRecord)
    (rows' : list Row) (records' : list HRecord) : Prop :=
  table_ok rows' ∧ rows `prefix_of` rows' ∧ agrees rows' i records' ∧
  (records' = records ++ [rec] ∨ records' = records ∧ rows' = rows) ∧
  ∃ r, r ∈ stored rows' i ∧ same_fact (r_payload r) rec.

Lemma insert_step rows i records rec x : table_ok rows → agrees rows i records → recordable rec →
  canonical_payload (encode_record rec) = Ok x →
  let n := Z.of_nat (length records) in
  let new := MkRow i n (event_id i n) (record_name rec) (rec_occurrence rec) x in
  existsb (conflicts new) rows = false →
  step_ok i rows records rec (rows ++ [new]) (records ++ [rec]).
Proof.
  intros Ht Ha Hrec Hx n new Hc. pose proof (agrees_length _ _ _ Ha) as Hl.
  assert (Hn : length records = length (stored rows i)).
  { destruct (stored rows i !! length records) as [r|] eqn:Hr; [|apply lookup_ge_None in Hr; lia]. exfalso.
    destruct (Ht _ _ _ Hr) as (Hp & _). apply list_elem_of_lookup_2, stored_instance in Hr as [Hi Hr].
    rewrite <-not_true_iff_false, existsb_exists in Hc. apply Hc. exists r. split; [by apply list_elem_of_In|].
    unfold conflicts. simpl. by rewrite Hi, Hp, bool_decide_true, Z.eqb_refl. }
  assert (Hs : stored (rows ++ [new]) i = stored rows i ++ [new])
    by (rewrite stored_app; unfold stored at 2; rewrite filter_cons_True by done; done).
  assert (Hsf : same_fact x rec) by (exists x; split; [done|]; by apply (reflexivity (R := λ x y, py_eq x y = true))).
  split; [by apply insert_ok|]. split; [by apply prefix_app_r|]. split; [|split; [by left|]].
  - apply (agrees_snoc _ _ _ _ new); [eapply agrees_prefix; [by apply prefix_app_r|done]| |exact Hsf].
    rewrite Hs, Hn. by apply list_lookup_middle.
  - exists new. split; [|done]. rewrite Hs. set_solver.
Qed.

Lemma commit_one_ok rows i records entered rec item st :
  table_ok rows → agrees rows i records → recordable rec → encode rec = Ok item →
  commit_one i (rows, Z.of_nat (length records), entered) item = Ok st →
  ∃ rows' new, st = (rows', Z.of_nat (length (records ++ new)), entered ++ new) ∧
    (new = [rec] ∨ new = []) ∧ step_ok i rows records rec rows' (records ++ new).
Proof.
  intros Ht Ha Hrec He H. unfold encode in He.
  destruct (canonical_payload (encode_record rec)) as [x|] eqn:Hx; [|done]. injection He as <-.
  unfold commit_one, sql_insert in H. destruct (existsb _ rows) eqn:Hc.
  - apply bind_Ok in H as (enter & Hv & H). unfold verify_conflict in Hv. simpl in Hv.
    destruct (find _ rows) as [r|] eqn:Hf.
    + apply find_event in Hf; [|done]. destruct (py_eq (r_payload r) x) eqn:Hp; simplify_eq.
      exists rows, [rec]. rewrite length_app. simpl. split; [by rewrite Nat2Z.inj_add|]. split; [by left|].
      split; [done|]. split; [done|]. assert (same_fact (r_payload r) rec) by by exists x.
      split; [by eapply agrees_snoc|]. split; [by left|]. exists r. split; [|done]. by eapply list_elem_of_lookup_2.
    + destruct (terminal_family (record_name rec)) as [family|]; [|done].
      destruct (find (in_index _ _ _) rows) as [r|] eqn:Hg; [|done].
      destruct (py_eq (r_payload r) x) eqn:Hp; simplify_eq.
      exists rows, []. rewrite !app_nil_r. split; [done|]. split; [by right|].
      split; [done|]. split; [done|]. split; [done|]. split; [by right|].
      apply find_some in Hg as [Hr Hi]. unfold in_index in Hi. rewrite !andb_true_iff, !bool_decide_eq_true in Hi.
      exists r. split; [|by exists x]. unfold stored. apply list_elem_of_filter. split; [naive_solver|]. by apply list_elem_of_In.
  - injection H as <-. eexists _, [rec]. rewrite length_app. simpl. split; [by rewrite Nat2Z.inj_add|]. split; [by left|].
    by apply insert_step.
Qed.

(** ** A batch *)

Lemma commit_fold_ok i batch items : ∀ rows records entered st,
  table_ok rows → agrees rows i records → Forall recordable batch → mapR encode batch = Ok items →
  foldM (commit_one i) (rows, Z.of_nat (length records), entered) items = Ok st →
  ∃ rows' new, st = (rows', Z.of_nat (length (records ++ new)), entered ++ new) ∧ new `sublist_of` batch ∧
    table_ok rows' ∧ rows `prefix_of` rows' ∧ agrees rows' i (records ++ new) ∧
    ∀ rec, rec ∈ batch → ∃ r, r ∈ stored rows' i ∧ same_fact (r_payload r) rec.
Proof.
  intros rows records entered st Ht Ha Hb Hm%mapR_Ok. revert rows records entered st Ht Ha Hb.
  induction Hm as [|rec item batch items He _ IH]; intros rows records entered st Ht Ha Hb H.
  - injection H as <-. exists rows, []. rewrite !app_nil_r. by split_and!; try set_solver.
  - apply Forall_cons in Hb as [Hrec Hb]. simpl in H. apply bind_Ok in H as (st1 & H1 & H).
    destruct (commit_one_ok _ _ _ _ _ _ _ Ht Ha Hrec He H1) as (rows1 & new1 & -> & Hn1 & Ht1 & Hp1 & Ha1 & _ & r1 & Hr1 & Hs1).
    destruct (IH _ _ _ _ Ht1 Ha1 Hb H) as (rows2 & new2 & -> & Hsub & Ht2 & Hp2 & Ha2 & Hst).
    exists rows2, (new1 ++ new2). rewrite <-!app_assoc in *. split; [done|]. split.
    { destruct Hn1 as [-> | ->]; simpl; by constructor. }
    split; [done|]. split; [by etrans|]. split; [done|]. intros rec' [->|Hin]%elem_of_cons; [|by apply Hst].
    exists r1. split; [|done]. destruct Hp2 as [k ->]. rewrite stored_app. set_solver.
Qed.

Lemma table_commit_ok rows h batch rows' h' :
  table_ok rows → agrees rows (s_instance h) (s_records h) → Forall recordable batch →
  commit rows h batch = Ok (rows', h') →
  s_instance h' = s_instance h ∧ table_ok rows' ∧ rows `prefix_of` rows' ∧
  agrees rows' (s_instance h) (s_records h') ∧
  (∃ new, s_records h' = s_records h ++ new ∧ new `sublist_of` batch) ∧
  ∀ rec, rec ∈ batch → ∃ r, r ∈ stored rows' (s_instance h) ∧ same_fact (r_payload r) rec.
Proof.
  intros Ht Ha Hb H. unfold commit in H. apply bind_Ok in H as (items & Hm & H). apply bind_Ok in H as ([[rows1 pos1] new1] & Hf & H).
  injection H as <- <-. destruct (commit_fold_ok _ _ _ _ _ _ _ Ht Ha Hb Hm Hf) as (rows2 & new & [= <- _ ->] & ? & ? & ? & ? & ?).
  simpl. split_and!; try done. by exists new.
Qed.

(** ** Opening *)

Lemma stored_rows_sorted rows i : table_ok rows → sorted_by position_leb (stored rows i) = stored rows i.
Proof.
  intros Ht. apply sorted_by_id. assert (H : ∀ n r, stored rows i !! n = Some r → r_position r = Z.of_nat n)
    by (intros n r Hr; by apply (Ht i n r)).
  revert H. generalize (stored rows i). intros l.
  assert (Hgen : ∀ k, (∀ n r, l !! n = Some r → r_position r = Z.of_nat (k + n)) →
            StronglySorted (λ x y, position_leb x y = true) l).
  { induction l as [|a l IH]; intros k Hk; [constructor|]. constructor.
    - apply (IH (S k)). intros n r Hr. rewrite (Hk (S n) r) by done. f_equal. lia.
    - apply Forall_forall. intros r [n Hr]%list_elem_of_lookup. unfold position_leb.
      rewrite (Hk 0%nat a), (Hk (S n) r) by done. apply Z.leb_le. lia. }
  intros H. by apply (Hgen 0%nat).
Qed.

Lemma encode_occurrence fact d : encode_record fact = DDict d →
  dget_default "occurrence" DNone d = enc_opt_int (rec_occurrence fact).
Proof. intros [= <-]. by destruct fact. Qed.

Lemma load_row_ok i n r : row_ok i n r → ∃ fact, load_row i (Z.of_nat n) r = Ok fact ∧ r_payload r = encode_record fact ∧
  recordable fact ∧ json_faithful fact.
Proof.
  intros (Hp & Hid & fact & [Hw Ha] & Hf & Hx & Hty & Ho). exists fact. split; [|done].
  unfold load_row. rewrite Hp, Hid, Z.eqb_refl, bool_decide_true by done. rewrite Hx, decode_encode by done.
  rewrite Hty, Ho. destruct (encode_record fact) as [| | | | | | |d|] eqn:E; try (unfold encode_record in E; congruence).
  rewrite (encode_occurrence fact d E). simpl. rewrite (bool_decide_true (record_name fact = _)) by done.
  by rewrite (reflexivity (R := λ x y, py_eq x y = true)).
Qed.

Lemma load_rows_ok i l : ∀ k, (∀ n r, l !! n = Some r → row_ok i (k + n) r) →
  ∃ facts, load_rows i (Z.of_nat k) l = Ok facts ∧
    Forall2 (λ r fact, r_payload r = encode_record fact ∧ recordable fact ∧ json_faithful fact) l facts.
Proof.
  induction l as [|r l IH]; intros k Hk; [by exists []|].
  destruct (load_row_ok i k r) as (fact & Hl & Hfact); [rewrite <-(Nat.add_0_r k); by apply Hk|].
  destruct (IH (S k)) as (facts & Hls & Hfacts).
  { intros n r' Hr'. rewrite Nat.add_succ_comm. by apply Hk. }
  exists (fact :: facts). cbn [load_rows]. rewrite Hl. cbn -[load_rows]. replace (Z.of_nat k + 1) with (Z.of_nat (S k)) by lia.
  rewrite Hls. split; [done|]. by constructor.
Qed.

Lemma fact_same x fact : x = encode_record fact → recordable fact → json_faithful fact → same_fact x fact.
Proof.
  intros -> [_ Ha] Hf. exists (encode_record fact). split; [by apply canonical_payload_id, admissible_shape|].
  by apply (reflexivity (R := λ x y, py_eq x y = true)).
Qed.

(** A table in order opens at every instance, to its whole stored history. *)
Lemma open_ok rows i : table_ok rows → str_empty i = false →
  ∃ facts, open rows i = Ok (MkSqlite i facts) ∧ length facts = length (stored rows i) ∧ agrees rows i facts.
Proof.
  intros Ht Hi. destruct (load_rows_ok i (stored rows i) 0 (Ht i)) as (facts & Hl & Hf).
  pose proof (Forall2_length _ _ _ Hf) as Hlen. exists facts. split; [|split; [done|]].
  - unfold open. rewrite Hi. simpl. fold (stored rows i). rewrite stored_rows_sorted by done. change 0 with (Z.of_nat 0). by rewrite Hl.
  - unfold agrees. rewrite take_ge by lia. eapply Forall2_impl; [exact Hf|]. intros r fact (H1 & H2 & H3). by apply fact_same.
Qed.

(** ** Any number of handles *)

Inductive sqlite_reaches : list Row → list SqliteHistoryStore → Prop :=
| sr_new : sqlite_reaches [] []
| sr_open rows hs i h : sqlite_reaches rows hs → open rows i = Ok h → sqlite_reaches rows (hs ++ [h])
| sr_commit rows hs k h batch rows' h' :
    sqlite_reaches rows hs → hs !! k = Some h → Forall recordable batch → commit rows h batch = Ok (rows', h') →
    sqlite_reaches rows' (<[k := h']> hs).

Lemma reaches_ok rows hs : sqlite_reaches rows hs →
  table_ok rows ∧ Forall (λ h, agrees rows (s_instance h) (s_records h)) hs.
Proof.
  induction 1 as [|rows hs i h _ [Ht Hh] Ho|rows hs k h batch rows' h' _ [Ht Hh] Hk Hb Hc].
  - by split.
  - split; [done|]. apply Forall_app. split; [done|]. apply Forall_singleton.
    assert (Hi : str_empty i = false) by (unfold open in Ho; by inv_ok).
    destruct (open_ok rows i Ht Hi) as (facts & Ho' & _ & Ha). rewrite Ho in Ho'. by injection Ho' as ->.
  - assert (Ha := Hh). rewrite Forall_lookup in Ha. specialize (Ha _ _ Hk).
    destruct (table_commit_ok _ _ _ _ _ Ht Ha Hb Hc) as (Hi & Ht' & Hp & Ha' & _). split; [done|].
    apply Forall_insert; [|by rewrite Hi]. eapply Forall_impl; [exact Hh|]. intros h1 H1. by eapply agrees_prefix.
Qed.

(** C33: however many handles write to a SQLite history file, in whatever
    order, every handle's records are the first ones of the one history stored
    for its instance, and any instance can be opened, to its whole stored
    history; a commit never changes a stored row, only extends its handle, and
    leaves every record of its batch stored. *)
Theorem sqlite_keeps_one_history rows hs : sqlite_reaches rows hs →
  (∀ h, h ∈ hs → agrees rows (s_instance h) (s_records h)) ∧
  (∀ i, str_empty i = false →
     ∃ facts, open rows i = Ok (MkSqlite i facts) ∧ length facts = length (stored rows i) ∧ agrees rows i facts) ∧
  ∀ h batch rows' h', h ∈ hs → Forall recordable batch → commit rows h batch = Ok (rows', h') →
    rows `prefix_of` rows' ∧ s_records h `prefix_of` s_records h' ∧
    ∀ rec, rec ∈ batch → ∃ r, r ∈ stored rows' (s_instance h) ∧ same_fact (r_payload r) rec.
Proof.
  intros [Ht Hh]%reaches_ok. rewrite Forall_forall in Hh. split; [done|]. split; [intros i; by apply open_ok|].
  intros h batch rows' h' Hin Hb Hc. destruct (table_commit_ok _ _ _ _ _ Ht (Hh _ Hin) Hb Hc) as (_ & _ & Hp & _ & (new & -> & _) & Hs).
  split; [done|]. split; [by apply prefix_app_r|done].
Qed.

(** Two handles on one instance: the second repeats the first one's batch,
    which it has not seen, and adopts the stored rows. *)
Lemma sqlite_keeps_one_history_witness :
  let a := MkSqlite "a" [] in
  ∃ rows h, commit [] a sample_batch = Ok (rows, h) ∧ length rows = 3%nat ∧ commit rows a sample_batch = Ok (rows, h) ∧
    agrees rows "a" (s_records h).
Proof.
  destruct sample_recordable as [Hb _]. intros a.
  assert (H0 : sqlite_reaches [] [a; a])
    by (apply (sr_open [] [a] "a" a); [apply (sr_open [] [] "a" a); [constructor|]|]; vm_compute; reflexivity).
  set (res := commit [] a sample_batch). assert (Hres : is_ok res = true) by (vm_compute; reflexivity).
  destruct res as [[rows h]|] eqn:Hc; [|done].
  pose proof (sr_commit [] _ 0 a sample_batch rows h H0 eq_refl Hb Hc) as H1.
  exists rows, h. split; [done|]. pose proof Hc as Hd. vm_compute in Hd. injection Hd as <- <-.
  split; [done|]. split; [vm_compute; reflexivity|].
  refine (proj1 (sqlite_keeps_one_history _ _ H1) (MkSqlite "a" sample_batch) _). simpl. set_solver.
Defined.

(** ** A lone writer *)

(** The key of a terminal fact in its index. *)
Definition index_key (record_type : string) (occurrence : option Z) : option (list string * Z) :=
  match terminal_family record_type, occurrence with Some family, Some o => Some (family, o) | _, _ => None end.
Definition row_key (r : Row) : option (list string * Z) := index_key (r_record_type r) (r_occurrence r).
Definition rec_key (r : HRecord) : option (list string * Z) := index_key (record_name r) (rec_occurrence r).

Lemma family_member ty family : ty ∈ family → (family = FIRING_TERMINALS ∨ family = ACTIVITY_TERMINALS) → terminal_family ty = Some family.
Proof.
  intros Hty [-> | ->]; unfold FIRING_TERMINALS, ACTIVITY_TERMINALS in *;
    repeat (apply elem_of_cons in Hty as [->|Hty]; [reflexivity|]); by apply elem_of_nil in Hty.
Qed.

Lemma terminal_families ty family : terminal_family ty = Some family → family = FIRING_TERMINALS ∨ family = ACTIVITY_TERMINALS.
Proof. unfold terminal_family. repeat case_bool_decide; naive_solver. Qed.

Lemma in_index_key ty o i family r : terminal_family ty = Some family → in_index family i o r = true →
  r_instance r = i ∧ ∃ key, index_key ty o = Some key ∧ row_key r = Some key.
Proof.
  intros Hf H. unfold in_index in H. rewrite !andb_true_iff, !bool_decide_eq_true in H. destruct H as [[Hty Hi] Ho].
  destruct o as [o|], (r_occurrence r) as [o'|] eqn:E; try done. apply Z.eqb_eq in Ho as <-. split; [done|].
  exists (family, o). unfold row_key, index_key. rewrite Hf, E. split; [done|].
  by rewrite (family_member _ _ Hty (terminal_families _ _ Hf)).
Qed.

(** A new fact at the end of the stored history meets no constraint. *)
Lemma no_conflict rows i rec x : table_ok rows →
  (∀ key, rec_key rec = Some key → key ∉ omap row_key (stored rows i)) →
  let n := Z.of_nat (length (stored rows i)) in
  existsb (conflicts (MkRow i n (event_id i n) (record_name rec) (rec_occurrence rec) x)) rows = false.
Proof.
  intros Ht Hk n. apply not_true_iff_false. intros (r & Hr & Hc)%existsb_exists. apply list_elem_of_In in Hr.
  destruct (table_row _ _ Ht Hr) as (m & Hm & Hp & Hid & _). unfold conflicts in Hc. simpl in Hc.
  rewrite !orb_true_iff, andb_true_iff, !bool_decide_eq_true, Z.eqb_eq in Hc.
  assert (Hlt : r_instance r = i → (m < length (stored rows i))%nat) by (intros <-; by eapply lookup_lt_Some).
  destruct Hc as [[[Hi Hpos]|He]|Hx].
  - specialize (Hlt Hi). lia.
  - rewrite Hid in He. apply event_id_inj in He as [Hi Hpos]; [|lia..]. specialize (Hlt Hi). lia.
  - destruct (terminal_family (record_name rec)) as [family|] eqn:Hf; [|done].
    apply (in_index_key _ _ _ _ _ Hf) in Hx as (<- & key & Hkey & Hrow). apply (Hk key Hkey).
    apply list_elem_of_omap. exists r. split; [by eapply list_elem_of_lookup_2|done].
Qed.

Lemma lone_fold i batch items : ∀ rows records entered,
  table_ok rows → agrees rows i records → length records = length (stored rows i) →
  Forall recordable batch → mapR encode batch = Ok items → NoDup (omap row_key (stored rows i) ++ omap rec_key batch) →
  ∃ rows', foldM (commit_one i) (rows, Z.of_nat (length records), entered) items
           = Ok (rows', Z.of_nat (length (records ++ batch)), entered ++ batch) ∧
    length (stored rows' i) = length (records ++ batch).
Proof.
  intros rows records entered Ht Ha Hl Hb Hm%mapR_Ok. revert rows records entered Ht Ha Hl Hb.
  induction Hm as [|rec item batch items He _ IH]; intros rows records entered Ht Ha Hl Hb Hk.
  - exists rows. by rewrite !app_nil_r.
  - apply Forall_cons in Hb as [Hrec Hb]. unfold encode in He.
    destruct (canonical_payload (encode_record rec)) as [x|] eqn:Hx; [|done]. injection He as <-.
    set (new := MkRow i (Z.of_nat (length records)) (event_id i (Z.of_nat (length records))) (record_name rec) (rec_occurrence rec) x).
    assert (Hc : existsb (conflicts new) rows = false).
    { unfold new. rewrite Hl. apply no_conflict; [done|]. intros key Hkey. apply NoDup_app in Hk as (_ & Hd & _).
      intros Hin. apply (Hd key Hin). simpl. rewrite Hkey. by left. }
    destruct (insert_step rows i records rec x Ht Ha Hrec Hx Hc) as (Ht1 & _ & Ha1 & _). fold new in Ht1, Ha1.
    assert (Hs : stored (rows ++ [new]) i = stored rows i ++ [new])
      by (rewrite stored_app; unfold stored at 2; rewrite filter_cons_True by done; done).
    destruct (IH (rows ++ [new]) (records ++ [rec]) (entered ++ [rec]) Ht1 Ha1) as (rows' & Hf & Hlen); [|done| |].
    + rewrite Hs, !length_app. simpl. lia.
    + rewrite Hs, omap_app. simpl. change (row_key new) with (rec_key rec). simpl in Hk.
      destruct (rec_key rec); simpl; [by rewrite <-app_assoc|by rewrite app_nil_r].
    + exists rows'. simpl foldM. fold new. unfold sql_insert. rewrite Hc. simpl.
      rewrite <-!app_assoc in *. rewrite length_app in Hf. simpl in *. rewrite Nat2Z.inj_add in Hf. change (Z.of_nat 1) with 1 in Hf. by rewrite Hf.
Qed.

(** The handle that holds the whole stored history of its instance
    commits any encodable batch whole, provided no occurrence gets a second
    terminal fact of one kind; the handle is then in step with the table
    again. *)
Theorem lone_writer_commits_whole rows hs h batch images :
  sqlite_reaches rows hs → h ∈ hs → length (s_records h) = length (stored rows (s_instance h)) →
  Forall recordable batch → mapR json_record batch = Ok images →
  NoDup (omap row_key (stored rows (s_instance h)) ++ omap rec_key batch) →
  ∃ rows', commit rows h batch = Ok (rows', MkSqlite (s_instance h) (s_records h ++ batch)) ∧
    length (stored rows' (s_instance h)) = length (s_records h ++ batch) ∧ agrees rows' (s_instance h) (s_records h ++ batch).
Proof.
  intros Hr Hin Hl Hb Hj Hk. destruct (reaches_ok _ _ Hr) as [Ht Hh]. rewrite Forall_forall in Hh. specialize (Hh _ Hin).
  assert (∃ items, mapR encode batch = Ok items) as [items Hm].
  { apply mapR_Ok in Hj. clear -Hb Hj. induction Hj as [|r r' batch images Hr _ IH]; [by exists []|].
    apply Forall_cons in Hb as [[_ Ha] Hb]. destruct (IH Hb) as [items Hi].
    assert (He : encode r = Ok (r, record_name r, rec_occurrence r, encode_record r'))
      by (unfold encode; by rewrite json_encode, Hr).
    cbn [mapR]. rewrite He, Hi. by eexists. }
  destruct (lone_fold _ _ _ _ _ [] Ht Hh Hl Hb Hm Hk) as (rows' & Hf & Hlen).
  assert (Hc : commit rows h batch = Ok (rows', MkSqlite (s_instance h) (s_records h ++ batch)))
    by (unfold commit; rewrite Hm; simpl; by rewrite Hf).
  exists rows'. split; [done|]. split; [done|]. by apply (table_commit_ok _ _ _ _ _ Ht Hh Hb) in Hc as (_ & _ & _ & Ha' & _).
Qed.

Lemma lone_writer_commits_whole_witness :
  ∃ rows', commit [] (MkSqlite "a" []) sample_batch = Ok (rows', MkSqlite "a" sample_batch) ∧
    length (stored rows' "a") = 3%nat ∧ agrees rows' "a" sample_batch.
Proof.
  destruct sample_recordable as [Hb Hf].
  apply (lone_writer_commits_whole [] [MkSqlite "a" []] (MkSqlite "a" []) sample_batch sample_batch).
  - apply (sr_open [] [] "a"); [constructor|]. vm_compute. reflexivity.
  - by left.
  - done.
  - done.
  - by apply mapR_faithful.
  - vm_compute. repeat constructor; set_solver.
Defined.
