(* ===== verification/Construction.v ===== *)
(** * Constructing and resuming an Instance
      (src/src/petrus/impetus/instance/__init__.py, lines 153-180, 313-413,
       570-801 and 821-1185)

    Symbol binding, the live constructor, the validators replay adds to the
    folds, and crash-resume. The inline-expression compilers wrap a third-party
    expression language and are a parameter. *)

From stdpp Require Import base gmap sets list strings pretty.
From Stdlib Require Import Ascii ZArith Lia.
From S2P Require Import Prelude PyData Schema Marking Enabledness Firing Activity Records Replay Lifecycle Instance.
Open Scope string_scope.
Open Scope list_scope.

(** [compile_guard], [compile_filter] and [compile_completion]. *)
Record CelCompilers := MkCel {
  compile_guard : Cel → NetPath → list NetPath → result (Binding → option bool);
  compile_filter : Cel → result (Token → option bool);
  compile_completion : Cel → list NetPath → result Completion
}.

(** ** Symbol binding *)

(** The keys of a supplied implementation mapping. *)
Inductive ImplKey :=
| ISymbol (s : string)
| IUri (u : NetUri).

#[export] Instance ImplKey_eq_dec : EqDecision ImplKey.
Proof. solve_decision. Defined.

Definition Supplied (V : Type) := dict ImplKey V.

(** [_implementation_for]: [None] is the missing marker. *)
Definition implementation_for {V} (symbol : option string) (uri : NetUri) (supplied : Supplied V)
    : result (option V) :=
  let exact := dget (IUri uri) supplied in
  let named := symbol ≫= λ s, dget (ISymbol s) supplied in
  raise_if (bool_decide (is_Some (option_map (λ _, tt) exact)) && bool_decide (is_Some (option_map (λ _, tt) named)))
    (ValueError "declaration has both an exact implementation and local symbol");;
  Ok (match exact with Some v => Some v | None => named end).

Definition handler_symbol (h : HandlerDeclaration) : option string :=
  match h with HandlerSymbol s => Some s | HandlerAnonymous => None end.

(** One declaration resolved into (resolved, something missing). *)
Definition bind_handler (n : Net) (supplied : Supplied Handler) (s : dict NetUri Handler * bool)
    (pt : NetPath * Transition) : result (dict NetUri Handler * bool) :=
  match handler pt.2 with
  | None => Ok s
  | Some declaration =>
      uri ← or_raise (handler_uri n (transition_path pt.2)) (RuntimeError "AssertionError");
      impl ← implementation_for (handler_symbol declaration) uri supplied;
      Ok (match impl with Some h => (dset uri h s.1, s.2) | None => (s.1, true) end)
  end.

(** A source transition binds no activity handler. *)
Definition check_source_handler (n : Net) (handlers : dict NetUri Handler) (pt : NetPath * Transition)
    : result unit :=
  let path := transition_path pt.2 in
  match handler_uri n path with
  | None => Ok tt
  | Some uri =>
      if is_source n path then
        h ← or_raise (dget uri handlers) (KeyError "handler");
        raise_if (is_impure h) (ValueError "handler declaration binds an ActivityHandler to a source transition")
      else Ok tt
  end.

Definition bind_guard (cel : CelCompilers) (path : NetPath) (scope : list NetPath)
    (supplied : Supplied (Binding → option bool)) (s : Guards * bool) (du : GuardDeclaration * NetUri)
    : result (Guards * bool) :=
  let '(declaration, uri) := du in
  match declaration with
  | GuardCel e =>
      raise_if (dmem (IUri uri) supplied) (ValueError "inline guard declaration already supplies its Cel implementation");;
      g ← compile_guard cel e path scope;
      Ok (dset (GuardByUri uri) g s.1, s.2)
  | _ =>
      impl ← implementation_for (match declaration with GuardSymbol x => Some x | _ => None end) uri supplied;
      Ok (match impl with Some g => (dset (GuardByUri uri) g s.1, s.2) | None => (s.1, true) end)
  end.

Definition bind_guards (cel : CelCompilers) (n : Net) (supplied : Supplied (Binding → option bool))
    (s : Guards * bool) (pt : NetPath * Transition) : result (Guards * bool) :=
  let path := transition_path pt.2 in
  let scope := remove_dups (arc_source <$> filter (λ a, ¬ is_inhibit a) (inputs n path)) in
  foldM (bind_guard cel path scope supplied) s (zip (guards pt.2) (guard_uris n path)).

Definition bind_filter (cel : CelCompilers) (supplied : Supplied (Token → option bool))
    (s : Filters * bool) (ud : NetUri * FilterDeclaration) : result (Filters * bool) :=
  let '(uri, declaration) := ud in
  match declaration with
  | FilterCel e =>
      raise_if (dmem (IUri uri) supplied) (ValueError "inline filter declaration already supplies its Cel implementation");;
      f ← compile_filter cel e;
      Ok (dset (FilterByUri uri) f s.1, s.2)
  | FilterSymbol x =>
      impl ← implementation_for (Some x) uri supplied;
      Ok (match impl with Some f => (dset (FilterByUri uri) f s.1, s.2) | None => (s.1, true) end)
  end.

(** What a caller supplies to either constructor. *)
Record Implementations := MkImpl {
  im_scheduler : list Binding → result (option Binding);
  im_guards : Supplied (Binding → option bool);
  im_handlers : Supplied Handler;
  im_filters : Supplied (Token → option bool);
  im_completions : dict string Completion
}.

(** [Instance._bind_symbols] *)
Definition bind_symbols (cel : CelCompilers) (n : Net) (im : Implementations) (identity : string)
    : result Config :=
  '(handlers, missing) ← foldM (bind_handler n (im_handlers im)) ([], false) (transitions n);
  raise_if missing (ValueError "handler declaration(s) with no implementation");;
  forM_ (check_source_handler n handlers) (transitions n);;
  '(gs, missing) ← foldM (bind_guards cel n (im_guards im)) ([], false) (transitions n);
  raise_if missing (ValueError "guard declaration(s) with no implementation");;
  '(fs, missing) ← foldM (bind_filter cel (im_filters im)) ([], false) (filter_declarations n);
  raise_if missing (ValueError "filter declaration(s) with no implementation");;
  completion ← (match completion n with
                | None => Ok None
                | Some (FilterSymbol x) =>
                    c ← or_raise (dget x (im_completions im)) (ValueError "completion symbol with no implementation");
                    Ok (Some c)
                | Some (FilterCel e) => c ← compile_completion cel e (dkeys (places n)); Ok (Some c)
                end);
  Ok (MkConfig n identity (im_scheduler im) handlers gs fs completion).

(** ** Construction *)

(** [_source_transitions] *)
Definition source_transitions (n : Net) : list NetPath :=
  sorted_by path_leb (filter (λ p, is_source n p) (dkeys (transitions n))).

(** [_validate_initial_tokens] *)
Definition validate_initial_tokens (n : Net) (pt : NetPath * list Token) : result unit :=
  match dget pt.1 (places n) ≫= place_color with
  | None => Ok tt
  | Some c =>
      raise_if (existsb (λ t, negb (bool_decide (color t = Some c))) pt.2)
        (ValueError "initial marking for place requires another color")
  end.

Definition registration_opened (i : Instant) (source : NetPath) : HRecord :=
  DeliveryRegistrationOpened source "default" None i.

Definition initialized (i : Instant) (pt : NetPath * list Token) : HRecord :=
  TokensInitialized pt.1 pt.2 i [] None.

(** The construction batch. *)
Definition initial_records (n : Net) (identity : string) (m : Marking) (i : Instant) : list HRecord :=
  InstanceCreated identity (net_name n) i
    :: (initialized i <$> m)
    ++ (registration_opened i <$> source_transitions n).

(** [history.extend] outside an operation. *)
Definition store_extend (st : Store) (batch : list HRecord) : result Store :=
  match st_refusals st with
  | Some e :: _ => Err e
  | None :: rest => Ok (MkStore (st_records st ++ batch) rest)
  | [] => Ok (MkStore (st_records st ++ batch) [])
  end.

(** [Instance.__init__]; [minted] is the identity a fresh UUID would supply. *)
Definition Instance_init (cel : CelCompilers) (n : Net) (m : Marking) (im : Implementations)
    (at_ : Instant) (st : Store) (supplied : option string) (minted : string) : result Instance :=
  let identity := default minted supplied in
  raise_if (str_empty identity) (ValueError "Instance identity must be a non-empty string");;
  forM_ (validate_initial_tokens n) m;;
  c ← bind_symbols cel n im identity;
  raise_if (negb (bool_decide (st_records st = [])))
    (ValueError "cannot construct an Instance over a recorded history");;
  let sources := source_transitions n in
  batch ← writer_records (initial_records n identity m at_);
  st' ← store_extend st batch;
  qs ← foldM (λ qs r, apply_movement qs r None) [] batch;
  Ok (MkInstance c st'
        (MkLive at_ qs (dict_of_list ((λ s, (s, {["default"]})) <$> sources)) 1
           (1 + Z.of_nat (length (mjoin m.*2))) [] [] [] [] [] [] [] (MkScopeState [] []))).

(** ** The validators of resume *)

(** [_validate_replayed_initialization] *)
Definition validate_replayed_initialization (n : Net) (instant0 : Instant) (initialized : gset NetPath)
    (place : NetPath) (ts : list Token) (i : Instant) (es : list Z) (sc : option LifecycleScope)
    : result (gset NetPath) :=
  raise_if (negb (dmem place (places n))) (ValueError "replay divergence: unknown place in the initial marking");;
  raise_if (bool_decide (place ∈ initialized)) (ValueError "replay divergence: place must be initialized exactly once");;
  raise_if (bool_decide (ts = [])) (ValueError "replay divergence: initial marking place has no tokens");;
  raise_if (negb (bool_decide (i = instant0))) (ValueError "replay divergence: initial tokens not at the construction instant");;
  raise_if (negb (bool_decide (es = [])) || bool_decide (is_Some sc))
    (ValueError "replay divergence: initial marking carries queue entries or scope");;
  validate_initial_tokens n (place, ts);;
  Ok ({[place]} ∪ initialized).

Record PrefixState := MkPrefix {
  px_registrations : list HRecord;
  px_started : bool;
  px_initialized : gset NetPath;
  px_ended : bool
}.

Definition construction_step (n : Net) (instant0 : Instant) (s : PrefixState) (r : HRecord)
    : result PrefixState :=
  if px_ended s then
    match r with
    | TokensInitialized _ _ _ _ _ => Err (ValueError "replay divergence: TokensInitialized outside the construction prefix")
    | _ => Ok s
    end
  else match r with
  | TokensInitialized place ts i es sc =>
      raise_if (px_started s) (ValueError "replay divergence: TokensInitialized after the source registrations");;
      initialized ← validate_replayed_initialization n instant0 (px_initialized s) place ts i es sc;
      Ok (MkPrefix (px_registrations s) (px_started s) initialized false)
  | DeliveryRegistrationOpened _ _ None _ =>
      Ok (MkPrefix (px_registrations s ++ [r]) true (px_initialized s) false)
  | _ => Ok (MkPrefix (px_registrations s) (px_started s) (px_initialized s) true)
  end.

(** [_validate_construction_batch] *)
Definition validate_construction_batch (n : Net) (records : list HRecord) (instant0 : Instant) : result unit :=
  s ← foldM (construction_step n instant0) (MkPrefix [] false ∅ false) (tail records);
  raise_if (negb (bool_decide (px_registrations s = (registration_opened instant0 <$> source_transitions n))))
    (ValueError "replay divergence: source registrations require exactly one ordered default open for every source").

(** [_validate_replayed_occurrence] *)
Definition validate_replayed_occurrence (c : Config) (occurrence : FiringOccurrence) : result unit :=
  let b := occ_binding occurrence in
  let t := b_transition b in
  raise_if (negb (dmem t (transitions (net c)))) (ValueError "cannot resume: not a transition of this net");;
  raise_if (is_source (net c) t && bool_decide (b_delivered b = []))
    (ValueError "cannot resume: a scheduled selection on a source transition");;
  raise_if (negb (is_source (net c) t) && negb (bool_decide (b_delivered b = [])))
    (ValueError "cannot resume: an external event on a transition with input arcs");;
  validate_binding_shape (net c) b;;
  h ← bound_handler c t;
  raise_if (bool_decide (is_Some (occ_invocation occurrence)) && negb (is_impure h))
    (ValueError "cannot resume: an activity request on a transition not bound to an ActivityHandler");;
  raise_if (bool_decide (occ_invocation occurrence = None) && is_impure h)
    (ValueError "cannot resume: an ActivityHandler whose begin batch froze no request").

(** An accepted source delivery: its identity and fields. *)
Record SourceDelivery := MkSourceDelivery {
  sd_source : NetPath;
  sd_tokens : list Token;
  sd_occurrence : Z;
  sd_scope : option LifecycleScope
}.

Definition source_delivery (r : HRecord) : option SourceDelivery :=
  match r with
  | ExternalEventDelivered p ts _ o sc _ => Some (MkSourceDelivery p ts o sc)
  | _ => None
  end.

(** [_validate_accepted_source_production] *)
Definition validate_source_production (n : Net) (d : SourceDelivery) (place : NetPath) (ts : list Token)
    (es : list Z) (sc : option LifecycleScope) (produced : gset NetPath) (expected : list Z) : result unit :=
  raise_if (bool_decide (ts = [])) (ValueError "cannot resume: an empty TokensProduced record");;
  raise_if (bool_decide (place ∈ produced)) (ValueError "cannot resume: a second TokensProduced record for a place");;
  raise_if (negb (bool_decide (sc = sd_scope d))) (ValueError "cannot resume: production outside the accepted scope");;
  raise_if (bool_decide (is_Some sc) && negb (bool_decide (es = expected)))
    (ValueError "cannot resume: not the writer's exact next identities");;
  raise_if (existsb (λ t, negb (routed_to (outputs n (sd_source d)) place t)) ts)
    (ValueError "cannot resume: production carries tokens not admitted by any output arc").

(** [_validate_default_source_productions] *)
Definition spelled (pt : NetPath * list Token) : NetPath * Data := (pt.1, delivery_content_text pt.2).

Definition validate_default_productions (n : Net) (d : SourceDelivery)
    (productions : list (NetPath * list Token)) : result unit :=
  match handler_uri n (sd_source d) with
  | Some _ => Ok tt
  | None =>
      b ← Binding_new (sd_source d) [] [] (sd_tokens d);
      raise_if (negb (bool_decide ((spelled <$> productions)
                                   = (spelled <$> passthrough b (outputs n (sd_source d))))))
        (ValueError "cannot resume: default passthrough requires exact productions")
  end.

Record SourceState := MkSourceState {
  ss_phases : dict Z Z;
  ss_end_instants : dict Z Instant;
  ss_terminals : gset Z;
  ss_produced_places : dict Z (gset NetPath);
  ss_productions : dict Z (list (NetPath * list Token));
  ss_cancelled : gset Z;
  ss_observed : gset Z;
  ss_next_entry : Z;
  ss_active : option Z
}.

Definition source_rank (r : HRecord) : option Z :=
  match r with
  | TokensProduced _ _ _ _ _ _ => Some 0%Z
  | DeliveryRegistrationClosed _ _ _ _ => Some 1%Z
  | DeliveryRegistrationOpened _ _ _ _ => Some 2%Z
  | FiringCompleted _ _ _ => Some 3%Z
  | _ => None
  end.

Definition ss_with_cancelled (s : SourceState) (c : gset Z) : SourceState :=
  MkSourceState (ss_phases s) (ss_end_instants s) (ss_terminals s) (ss_produced_places s)
    (ss_productions s) c (ss_observed s) (ss_next_entry s) (ss_active s).
Definition ss_with_observed (s : SourceState) (o : gset Z) : SourceState :=
  MkSourceState (ss_phases s) (ss_end_instants s) (ss_terminals s) (ss_produced_places s)
    (ss_productions s) (ss_cancelled s) o (ss_next_entry s) (ss_active s).
Definition ss_with_terminals (s : SourceState) (t : gset Z) (a : option Z) : SourceState :=
  MkSourceState (ss_phases s) (ss_end_instants s) t (ss_produced_places s)
    (ss_productions s) (ss_cancelled s) (ss_observed s) (ss_next_entry s) a.
Definition ss_with_next_entry (s : SourceState) (z : Z) : SourceState :=
  MkSourceState (ss_phases s) (ss_end_instants s) (ss_terminals s) (ss_produced_places s)
    (ss_productions s) (ss_cancelled s) (ss_observed s) z (ss_active s).

(** The occurrences a close or reset cancels. *)
Definition source_cancel (sources : dict Z SourceDelivery) (s : SourceState) (o : Z) : result SourceState :=
  if negb (dmem o sources) then Ok s
  else
    raise_if (negb (bool_decide (o ∈ ss_observed s))) (ValueError "cannot resume: cancellation before its acceptance pair");;
    raise_if (dmem o (ss_phases s) || bool_decide (o ∈ ss_terminals s))
      (ValueError "cannot resume: lifecycle-cancelled after its completion began");;
    Ok (ss_with_cancelled s (ss_cancelled s ∪ {[o]})).

(** A record of the completion batch of a source occurrence. *)
Definition source_completion (n : Net) (s : SourceState) (d : SourceDelivery) (o : Z) (r : HRecord)
    (expected : list Z) : result SourceState :=
  raise_if (match r with
            | DeliveryRegistrationClosed _ _ _ _ | DeliveryRegistrationOpened _ _ _ _ =>
                bool_decide (handler_uri n (sd_source d) = None)
            | _ => false
            end) (ValueError "cannot resume: default passthrough does not permit delivery-registration effects");;
  rank ← or_raise (source_rank r) (ValueError "cannot resume: writer-invalid record");
  let active := match ss_active s with None => Some o | a => a end in
  raise_if (rank <? dget_default o (-1)%Z (ss_phases s))%Z (ValueError "cannot resume: disordered record");;
  raise_if (match dget o (ss_end_instants s) with
            | Some i => negb (bool_decide (rec_instant r = i))
            | None => false
            end) (ValueError "cannot resume: completion batch changes instant");;
  let ends := if dmem o (ss_end_instants s) then ss_end_instants s else dset o (rec_instant r) (ss_end_instants s) in
  let s1 := MkSourceState (dset o rank (ss_phases s)) ends (ss_terminals s) (ss_produced_places s)
              (ss_productions s) (ss_cancelled s) (ss_observed s) (ss_next_entry s) active in
  match r with
  | TokensProduced place ts _ es sc _ =>
      let produced := dget_default o ∅ (ss_produced_places s1) in
      validate_source_production n d place ts es sc produced expected;;
      Ok (MkSourceState (ss_phases s1) (ss_end_instants s1) (ss_terminals s1)
            (dset o ({[place]} ∪ produced) (ss_produced_places s1))
            (dappend o (place, ts) (ss_productions s1)) (ss_cancelled s1) (ss_observed s1)
            (ss_next_entry s1) (ss_active s1))
  | FiringCompleted _ _ _ =>
      validate_default_productions n d (dget_default o [] (ss_productions s1));;
      Ok (ss_with_terminals s1 (ss_terminals s1 ∪ {[o]}) None)
  | _ => Ok s1
  end.

(** A record of an accepted source occurrence. *)
Definition source_record (n : Net) (s : SourceState) (d : SourceDelivery) (o : Z) (r : HRecord)
    (expected : list Z) : result SourceState :=
  match r with
  | ExternalEventDelivered _ _ _ _ _ _ => Ok s
  | FiringBegun _ _ _ _ => Ok (ss_with_observed s (ss_observed s ∪ {[o]}))
  | _ =>
      raise_if (negb (bool_decide (o ∈ ss_observed s))) (ValueError "cannot resume: record before its acceptance pair");;
      raise_if (bool_decide (o ∈ ss_cancelled s)) (ValueError "cannot resume: record after lifecycle cancellation");;
      raise_if (bool_decide (o ∈ ss_terminals s)) (ValueError "cannot resume: record after its terminal");;
      match r with
      | TokensConsumed _ _ _ _ _ _ | TokensRead _ _ _ _ _ _ | ActivityRequested _ _ _ _ _ _ _ _ _
      | ActivityCompleted _ _ _ _ | ActivityFailed _ _ _ _ _ _ _ _ | ActivityTerminalQuarantined _ _ _ _ _ =>
          Err (ValueError "cannot resume: a source delivery is a pure occurrence")
      | FiringFailed _ _ _ _ =>
          raise_if (dmem o (ss_phases s)) (ValueError "cannot resume: FiringFailed after completion began");;
          Ok (ss_with_terminals s (ss_terminals s ∪ {[o]}) (ss_active s))
      | _ => source_completion n s d o r expected
      end
  end.

(** One record of [_validate_accepted_source_occurrences]. *)
Definition source_step (n : Net) (sources : dict Z SourceDelivery) (s : SourceState) (r : HRecord)
    : result SourceState :=
  let '(expected, next) :=
    match deposited_entries r with
    | None => ([], ss_next_entry s)
    | Some (ts, es) =>
        let expected := zrange (ss_next_entry s) (length ts) in
        (expected, match max_opt (or_list es expected) with
                   | Some m => Z.max (ss_next_entry s) (m + 1)
                   | None => ss_next_entry s
                   end)
    end in
  let s := ss_with_next_entry s next in
  raise_if (match ss_active s with
            | Some a => negb (bool_decide (rec_occurrence r = Some a))
            | None => false
            end) (ValueError "cannot resume: completion batch was interrupted");;
  match cancellation r with
  | Some (_, ids) => foldM (source_cancel sources) s ids
  | None =>
      match rec_occurrence r with
      | None => Ok s
      | Some o =>
          match dget o sources with
          | None => Ok s
          | Some d => source_record n s d o r expected
          end
      end
  end.

Definition source_state_init : SourceState := MkSourceState [] [] ∅ [] [] ∅ ∅ 1 None.

(** [_validate_accepted_source_occurrences] *)
Definition source_occurrences (accepted : dict string HRecord) : dict Z SourceDelivery :=
  dict_of_list ((λ d, (sd_occurrence d, d)) <$> omap source_delivery (dvals accepted)).

Definition validate_accepted_source_occurrences (n : Net) (records : list HRecord)
    (accepted : dict string HRecord) : result unit :=
  foldM (source_step n (source_occurrences accepted)) source_state_init records;; Ok tt.

(** ** Resume *)

Definition check_selected (n : Net) (r : HRecord) : result unit :=
  match r with
  | CandidateSelected t _ _ =>
      raise_if (negb (dmem t (transitions n))) (ValueError "cannot resume: not a transition of this net");;
      raise_if (is_source n t) (ValueError "cannot resume: a scheduled selection on a source transition")
  | _ => Ok tt
  end.

Definition check_armed (n : Net) (source : NetPath) : result unit :=
  raise_if (negb (dmem source (transitions n))) (ValueError "cannot resume: registration records on a foreign transition");;
  raise_if (negb (is_source n source)) (ValueError "cannot resume: registration records on a transition with input arcs").

Definition check_accepted (n : Net) (r : HRecord) : result unit :=
  match prior_source r with
  | None => Ok tt
  | Some source =>
      raise_if (negb (dmem source (transitions n))) (ValueError "cannot resume: accepted delivery on a foreign transition");;
      raise_if (negb (is_source n source)) (ValueError "cannot resume: accepted delivery on a transition with input arcs")
  end.

Definition by_id (os : list FiringOccurrence) : dict Z FiringOccurrence :=
  dict_of_list ((λ o, (occ_id o, o)) <$> os).

Definition inactive_scope (sc : ScopeState) (o : FiringOccurrence) : bool :=
  match occ_scope o with Some scope => negb (scope_active sc scope) | None => false end.

(** The identity record of a non-empty history. *)
Definition created_fields (r : option HRecord) : result (string * option string * Instant) :=
  match r with
  | Some (InstanceCreated i name at_) => Ok (i, name, at_)
  | _ => Err (ValueError "replay divergence: the construction batch requires InstanceCreated as its first record")
  end.

(** The projections of a validated history, and the checks against the net. *)
Definition resume_live (c : Config) (records : list HRecord) : result Live :=
  let n := net c in
  qs ← replay_queues records;
  raise_if (existsb (λ p, negb (dmem p (places n))) (dkeys (marking_of qs)))
    (ValueError "cannot resume: token records on a foreign place");;
  w ← replay_watermark records;
  armed ← replay_armed records;
  forM_ (check_armed n) (dkeys armed);;
  inflight ← replay_in_flight records;
  effects ← replay_firing_occurrences records (list_to_set (omap effect_occurrence records));
  forM_ (validate_replayed_occurrence c) (dvals (by_id (inflight ++ effects)));;
  activity ← replay_activity_occurrences records;
  cancelled ← replay_cancelled records;
  frozen ← replay_projection_pending records;
  terminal ← replay_terminal_activity records;
  quarantined ← replay_quarantined_activity records;
  forM_ (check_accepted n) records;;
  accepted ← replay_accepted_identities records;
  validate_accepted_source_occurrences n records accepted;;
  next ← replay_next_queue_identity records;
  scopes ← replay_scopes records;
  raise_if (existsb (inactive_scope scopes) (dvals (by_id inflight)))
    (ValueError "replay divergence: lifecycle close left scoped firing occurrences in flight");;
  Ok (MkLive w qs
        (dict_of_list ((λ s, (s, dget_default s ∅ armed)) <$> source_transitions n))
        (replay_next_occurrence records) next (by_id inflight) (by_id activity) (by_id cancelled)
        frozen terminal quarantined accepted scopes).

(** [Instance.resume] *)
Definition resume (cel : CelCompilers) (n : Net) (im : Implementations) (st : Store) : result Instance :=
  raise_if (bool_decide (st_records st = [])) (ValueError "cannot resume from an empty history");;
  records ← validate_history_records (st_records st);
  created ← replay_instance_identity records;
  '(identity, name, instant0) ← created_fields created;
  validate_construction_batch n records instant0;;
  raise_if (match name, net_name n with Some a, Some b => negb (bool_decide (a = b)) | _, _ => false end)
    (ValueError "cannot resume: a foreign trace");;
  raise_if (str_empty identity) (ValueError "Instance identity must be a non-empty string");;
  c ← bind_symbols cel n im identity;
  forM_ (check_selected n) records;;
  l ← resume_live c records;
  Ok (MkInstance c st l).
