(* ===== verification/Commit.v ===== *)
(** * The commit relation of an Instance

    Every operation of [Instance] is a sequence of commits: a batch appended
    whole to the history together with the live state it leaves, or a refusal
    that changes nothing. The relation is stated over the guards the operations
    establish; [Operations] shows that every operation follows it. *)

From stdpp Require Import base gmap sets list strings pretty.
From Stdlib Require Import Ascii ZArith Lia.
From S2P Require Import Prelude PyData Schema Marking Enabledness Firing Activity Records Replay Lifecycle Instance Construction.
Open Scope string_scope.
Open Scope list_scope.

(** ** Live states after a commit *)

Definition move (qs : Queues) (r : HRecord) : result Queues := apply_movement qs r None.

Definition opened_live (sc : LifecycleScope) (i : Instant) (l : Live) : Live :=
  set_scope_state
    (MkScopeState (dset (scope_name sc) sc (active_scopes (scope_state l)))
                  (dset (scope_name sc) (scope_generation sc) (scope_generations (scope_state l))))
    (set_watermark i l).

Definition cancel_live (l : Live) (o : Z) : Live :=
  match dget o (in_flight l) with
  | Some occurrence =>
      set_cancelled (dset o occurrence (cancelled l))
        (set_frozen_results (ddel o (frozen_results l)) (set_in_flight (ddel o (in_flight l)) l))
  | None => l
  end.

(** The scope table after a close, and after the successor of a reset opens. *)
Definition closed_scopes (name : string) (opened : option LifecycleScope) (s : ScopeState) : ScopeState :=
  let s := MkScopeState (ddel name (active_scopes s)) (scope_generations s) in
  match opened with
  | None => s
  | Some sc => MkScopeState (dset (scope_name sc) sc (active_scopes s))
                            (dset (scope_name sc) (scope_generation sc) (scope_generations s))
  end.

Definition closed_live (sc : LifecycleScope) (opened : option LifecycleScope) (ids : list Z)
    (i : Instant) (l : Live) : Live :=
  set_watermark i
    (foldl cancel_live
       (set_scope_state (closed_scopes (scope_name sc) opened (scope_state l))
          (set_queues (purge sc (queues l)) l)) ids).

Definition begun_live (occ : FiringOccurrence) (qs : Queues) (i : Instant) (l : Live) : Live :=
  let l := set_in_flight (dset (occ_id occ) occ (in_flight l))
             (set_queues qs (set_next_occurrence (next_occurrence l + 1) (set_watermark i l))) in
  match occ_invocation occ with
  | None => l
  | Some _ => set_activity_occurrences (dset (occ_id occ) occ (activity_occurrences l)) l
  end.

(** Leaving the in-flight set; an impure occurrence retires its frozen fact. *)
Definition ended_live (o : Z) (retired : option Terminal) (l : Live) : Live :=
  let l := match retired with
           | None => l
           | Some f => set_terminal_activity (dset o f (terminal_activity l))
                         (set_frozen_results (ddel o (frozen_results l)) l)
           end in
  set_in_flight (ddel o (in_flight l)) l.

(** The deposits of a completion. *)
Definition deposit_minted (i : Instant) (sc : option LifecycleScope) (qs : Queues)
    (ee : ProducedTokens * list Z) : Queues :=
  dset (produced_place ee.1)
    (dget_default (produced_place ee.1) [] qs ++ deposited (produced_tokens ee.1) ee.2 i sc) qs.

Definition completed_live (o : Z) (retired : option Terminal) (sc : option LifecycleScope)
    (minted : list (ProducedTokens * list Z)) (cursor : Z) (armed' : Armed) (i : Instant) (l : Live) : Live :=
  ended_live o retired
    (set_armed armed' (set_queues (foldl (deposit_minted i sc) (queues l) minted)
       (set_next_entry cursor (set_watermark i l)))).

(** ** Commits *)

Definition written (batch : list HRecord) : Prop := writer_records batch = Ok batch.

Definition is_retired (l : Live) (occ : FiringOccurrence) (retired : option Terminal) : Prop :=
  match occ_invocation occ with
  | None => retired = None
  | Some _ => retired = dget (occ_id occ) (frozen_results l) ∧ is_Some retired
  end.

Inductive commit (c : Config) (l : Live) : list HRecord → Live → Prop :=
| commit_open name i :
    (watermark l ≤ i)%Z →
    dget name (active_scopes (scope_state l)) = None →
    let sc := MkScope name (spent_generation (scope_state l) name + 1) in
    written [ScopeOpened sc i] →
    commit c l [ScopeOpened sc i] (opened_live sc i l)
| commit_close sc closure i :
    (watermark l ≤ i)%Z →
    scope_closure l sc = Ok closure →
    let r := ScopeClosed sc (cl_discarded closure) (cl_cancelled closure) i in
    written [r] →
    commit c l [r] (closed_live sc None (cl_cancelled closure) i l)
| commit_reset sc opened closure i :
    (watermark l ≤ i)%Z →
    scope_closure l sc = Ok closure →
    LifecycleScope_new (scope_name sc) (scope_generation sc + 1) = Ok opened →
    let r := ScopeReset sc opened (cl_discarded closure) (cl_cancelled closure) i in
    written [r] →
    commit c l [r] (closed_live sc (Some opened) (cl_cancelled closure) i l)
| commit_selected b invocation batch occ qs i :
    (watermark l ≤ i)%Z →
    dmem (b_transition b) (transitions (net c)) = true →
    is_source (net c) (b_transition b) = false →
    b_delivered b = [] →
    validate_binding_shape (net c) b = Ok tt →
    prepared_invocation c b = Ok invocation →
    begin_batch l b i (λ o i, CandidateSelected (b_transition b) o i) invocation None = Ok (batch, occ) →
    foldM move (queues l) (occ_records occ) = Ok qs →
    commit c l batch (begun_live occ qs i l)
| commit_delivered path delivered identity scope keys batch occ qs i :
    (watermark l ≤ i)%Z →
    dmem path (transitions (net c)) = true →
    is_source (net c) path = true →
    dget path (armed l) = Some keys → keys ≠ ∅ →
    dget identity (accepted_identities l) = None →
    (∀ sc, scope = Some sc → scope_active (scope_state l) sc = true) →
    begin_batch l (MkBinding path [] [] delivered) i
      (λ o i, ExternalEventDelivered path delivered identity o scope i) None scope = Ok (batch, occ) →
    foldM move (queues l) (occ_records occ) = Ok qs →
    commit c l batch
      (set_accepted_identities
         (dset identity (ExternalEventDelivered path delivered identity (occ_id occ) scope i)
            (accepted_identities l)) (begun_live occ qs i l))
| commit_activity_completed occ value i :
    (watermark l ≤ i)%Z →
    dget (occ_id occ) (in_flight l) = Some occ →
    is_Some (occ_invocation occ) →
    dget (occ_id occ) (frozen_results l) = None →
    let r := ActivityCompleted (b_transition (occ_binding occ)) value (occ_id occ) i in
    written [r] →
    commit c l [r] (set_frozen_results (dset (occ_id occ) (TResult value) (frozen_results l)) (set_watermark i l))
| commit_activity_failed occ f i :
    (watermark l ≤ i)%Z →
    dget (occ_id occ) (in_flight l) = Some occ →
    is_Some (occ_invocation occ) →
    dget (occ_id occ) (frozen_results l) = None →
    valid_failure f →
    let r := ActivityFailed (b_transition (occ_binding occ)) (f_error f) (f_kind f) (f_details f)
               (f_retryable f) (f_retry_after f) (occ_id occ) i in
    written [r] →
    commit c l [r] (set_frozen_results (dset (occ_id occ) (TFailure f) (frozen_results l)) (set_watermark i l))
| commit_quarantined occ scope outcome i :
    (watermark l ≤ i)%Z →
    dget (occ_id occ) (cancelled l) = Some occ →
    occ_scope occ = Some scope →
    dget (occ_id occ) (quarantined_activity l) = None →
    let r := ActivityTerminalQuarantined (b_transition (occ_binding occ)) outcome scope (occ_id occ) i in
    written [r] →
    commit c l [r] (set_quarantined_activity (dset (occ_id occ) outcome (quarantined_activity l)) (set_watermark i l))
| commit_completed occ supplied armed' minted cursor batch retired i :
    (watermark l ≤ i)%Z →
    completion_batch c l occ supplied i = Ok (armed', minted, cursor, batch) →
    is_retired l occ retired →
    commit c l batch (completed_live (occ_id occ) retired (occ_scope occ) minted cursor armed' i l)
| commit_failed occ error retired i :
    (watermark l ≤ i)%Z →
    ensure_in_flight l occ = Ok tt →
    is_retired l occ retired →
    let r := FiringFailed (b_transition (occ_binding occ)) error (occ_id occ) i in
    written [r] →
    commit c l [r] (ended_live (occ_id occ) retired (set_watermark i l))
| commit_disposed path delivered identity target i :
    (watermark l ≤ i)%Z →
    dmem path (transitions (net c)) = true →
    is_source (net c) path = true →
    dget identity (accepted_identities l) = None →
    target_inactive l target = true →
    let r := (scoped_disposition l path delivered identity target i).1 in
    written [r] →
    commit c l [r] (set_accepted_identities (dset identity r (accepted_identities l)) (set_watermark i l))
| commit_sealed path keys i :
    (watermark l ≤ i)%Z →
    dmem path (transitions (net c)) = true →
    is_source (net c) path = true →
    dget path (armed l) = Some keys → keys ≠ ∅ →
    let batch := (λ key, DeliveryRegistrationClosed path key None i) <$> sorted_by str_leb (elements keys) in
    written batch →
    commit c l batch (set_armed (dset path ∅ (armed l)) (set_watermark i l))
| commit_matured m i :
    (watermark l ≤ i)%Z →
    written [TimerMatured m i] →
    commit c l [TimerMatured m i] (set_watermark i l).

(** One step of an Instance: a commit, or a refused append. *)
Inductive istep : Instance → Instance → Prop :=
| istep_refused c st st' l :
    st_records st' = st_records st → istep (MkInstance c st l) (MkInstance c st' l)
| istep_commit c st st' l l' batch :
    commit c l batch l' → st_records st' = st_records st ++ batch →
    istep (MkInstance c st l) (MkInstance c st' l').

Definition isteps : Instance → Instance → Prop := rtc istep.

(** ** The movements of a begin batch *)

Lemma mapR_app {A B} (f : A → result B) l1 l2 :
  mapR f (l1 ++ l2) = (k1 ← mapR f l1; k2 ← mapR f l2; Ok (k1 ++ k2)).
Proof.
  induction l1 as [|a l1 IH]; simpl.
  - by destruct (mapR f l2).
  - destruct (f a); simpl; [|done]. rewrite IH. destruct (mapR f l1); simpl; [|done].
    by destruct (mapR f l2).
Qed.

Definition consume_effect (s : Selection) : BeginEffect := ConsumedTokens s.1 s.2.
Definition read_effect (s : Selection) : BeginEffect := ReadTokens s.1 s.2.

(** A selection whose entries all have identities. *)
Lemma identified_selection (sel : list (option Z * option LifecycleScope)) :
  existsb (λ ids : option Z, bool_decide (ids = None)) sel.*1 = false →
  sel.*1 = Some <$> entries_of sel.
Proof.
  unfold entries_of. induction sel as [|[[i|] sc] sel IH]; csimpl; [done| |].
  - intros H. f_equal. by apply IH.
  - done.
Qed.

Lemma narrate_Ok o sc i es r :
  narrate o sc i es = Ok r →
  es.2.*1 = Some <$> entries_of es.2 ∧
  r = match es.1 with
      | ConsumedTokens p ts => TokensConsumed p ts o (match sc with Some _ => entries_of es.2 | None => [] end) sc i
      | ReadTokens p ts => TokensRead p ts o (match sc with Some _ => entries_of es.2 | None => [] end) sc i
      end.
Proof. unfold narrate. intros H. inv_ok. split; [by apply identified_selection|done]. Qed.

(** The consume loop of [_binding_entries] is the fold of the records it
    narrates. *)
Lemma consumed_entries_moves o sc i sels st st' :
  foldM consumed_entries st sels = Ok st' →
  ∃ chosen, es_selections st' = es_selections st ++ chosen ∧ length chosen = length sels ∧
    (∀ recs, mapR (narrate o sc i) (zip (consume_effect <$> sels) chosen) = Ok recs →
             foldM move (es_queues st) recs = Ok (es_queues st')).
Proof.
  revert st. induction sels as [|s sels IH]; intros st H; simpl in H; inv_ok.
  { exists []. rewrite app_nil_r. split_and!; [done|done|]. intros recs [= <-]. done. }
  destruct (IH _ H) as (chosen & Hsel & Hlen & Hmove). clear IH.
  unfold consumed_entries in H0. inv_ok. simpl in *.
  rename x0 into c0, x1 into q'. exists (c0 :: chosen). rewrite Hsel, <-(assoc_L (++)). split_and!.
  - done.
  - simpl. by rewrite Hlen.
  - intros recs Hrecs. csimpl in *. inv_ok.
    match goal with H : narrate _ _ _ _ = Ok _ |- _ => apply narrate_Ok in H as [Hids ->] end. simpl in *.
    assert (remove (dget_default s.1 [] (es_queues st)) s.2 (match sc with Some _ => entries_of c0 | None => [] end)
            = Ok q') as Hrem.
    { destruct sc; [done|]. by erewrite <-selected_exact. }
    unfold move at 1. simpl. rewrite Hrem. simpl. by apply Hmove.
Qed.

Lemma read_entries_moves o sc i sels st st' qs :
  foldM read_entries st sels = Ok st' →
  es_queues st' = es_queues st ∧
  ∃ chosen, es_selections st' = es_selections st ++ chosen ∧ length chosen = length sels ∧
    (∀ recs, mapR (narrate o sc i) (zip (read_effect <$> sels) chosen) = Ok recs →
             foldM move qs recs = Ok qs).
Proof.
  revert st. induction sels as [|s sels IH]; intros st H; simpl in H; inv_ok.
  { split; [done|]. exists []. rewrite app_nil_r. split_and!; [done|done|]. intros recs [= <-]. done. }
  destruct (IH _ H) as (Hqs & chosen & Hsel & Hlen & Hmove). clear IH.
  unfold read_entries in H0. inv_ok. simpl in *.
  split; [done|]. rename x0 into c0. exists (c0 :: chosen). rewrite Hsel, <-(assoc_L (++)). split_and!.
  - done.
  - simpl. by rewrite Hlen.
  - intros recs Hrecs. csimpl in *. inv_ok.
    match goal with H : narrate _ _ _ _ = Ok _ |- _ => apply narrate_Ok in H as [Hids ->] end. simpl in *.
    by apply Hmove.
Qed.

Lemma begin_firing_effects m b effects m' :
  begin_firing m b = Ok (effects, m') →
  effects = (consume_effect <$> b_consumed b) ++ (read_effect <$> b_read b).
Proof. unfold begin_firing. intros H. by inv_ok. Qed.

(** The movements narrated for a binding replay its entry resolution. *)
Lemma narrated_moves qs b selections inferred o sc i recs :
  binding_entries qs b = Ok (selections, inferred) →
  mapR (narrate o sc i) (zip ((consume_effect <$> b_consumed b) ++ (read_effect <$> b_read b)) selections) = Ok recs →
  ∃ st, foldM consumed_entries (MkEntryState qs [] []) (b_consumed b) = Ok st ∧
        foldM move qs recs = Ok (es_queues st).
Proof.
  unfold binding_entries. intros H Hrecs. inv_ok. rename x into st, x0 into st'.
  exists st. split; [done|].
  destruct (consumed_entries_moves o sc i _ _ _ H0) as (ch1 & Hs1 & Hl1 & Hm1).
  destruct (read_entries_moves o sc i _ _ _ (es_queues st) H1) as (Hq & ch2 & Hs2 & Hl2 & Hm2).
  simpl in *. rewrite Hs2, Hs1 in Hrecs. rewrite zip_with_app in Hrecs by (by rewrite length_fmap).
  rewrite mapR_app in Hrecs. inv_ok. rewrite foldM_app. erewrite Hm1 by eassumption. simpl. by apply Hm2.
Qed.

(** What the entry resolution leaves: fewer entries, and scopes of entries it
    met. *)
Record resolves (qs : Queues) (st : EntryState) : Prop := {
  rs_ok n : queues_ok qs n → queues_ok (es_queues st) n;
  rs_subset e : e ∈ queue_entries (es_queues st) → e ∈ queue_entries qs;
  rs_scopes sc : sc ∈ es_scopes st → ∃ e, e ∈ queue_entries qs ∧ e_scope e = Some sc
}.

Lemma elem_of_queue qs p e : e ∈ dget_default p [] qs → e ∈ queue_entries qs.
Proof. intros H. rewrite (queue_entries_split p). set_solver. Qed.

Lemma elem_of_scopes_of (es : list (entry Z)) sc :
  sc ∈ scopes_of (provenance_of <$> es) → ∃ e, e ∈ es ∧ e_scope e = Some sc.
Proof.
  unfold scopes_of. intros H. apply list_elem_of_omap in H as (o & Ho & Heq). simpl in Heq. subst.
  rewrite <-list_fmap_compose in Ho. apply list_elem_of_fmap in Ho as (e & He & Hin). eauto.
Qed.

Lemma consumed_entries_resolves qs st s st' :
  resolves qs st → consumed_entries st s = Ok st' → resolves qs st'.
Proof.
  intros [Hok Hsub Hsc] H. unfold consumed_entries in H. inv_ok. rename x into chosen, x0 into q'.
  rewrite selected_draw in H0. destruct (draw _ _) as [[es q'']|] eqn:D; [|done]. injection H0 as <-.
  assert (dget_default s.1 [] (es_queues st) ≡ₚ es ++ q'') as Hperm by (by apply draw_spec in D as (_ & ? & _)).
  assert (q' = q'' ∨ ∃ removed, dget_default s.1 [] (es_queues st) ≡ₚ removed ++ q') as Hq.
  { right. unfold remove in H1. inv_ok. apply remove_loop_spec in H1 as (removed & _ & ? & _). eauto. }
  assert (∃ removed, dget_default s.1 [] (es_queues st) ≡ₚ removed ++ q') as [removed Hrem]
    by (destruct Hq as [->|?]; eauto).
  split; simpl.
  - intros n Hn. eapply queues_ok_remove; [exact Hrem|]. by apply Hok.
  - intros e He. apply Hsub. rewrite queue_entries_dset in He. rewrite (queue_entries_split s.1), Hrem.
    set_solver.
  - intros sc [Hin|Hin]%elem_of_app; [by apply Hsc|].
    apply elem_of_scopes_of in Hin as (e & He & Heq). exists e. split; [|done].
    apply Hsub. apply (elem_of_queue _ s.1). rewrite Hperm. set_solver.
Qed.

Lemma read_entries_resolves qs st s st' :
  resolves qs st → read_entries st s = Ok st' → resolves qs st'.
Proof.
  intros [Hok Hsub Hsc] H. unfold read_entries in H. inv_ok. rename x into chosen.
  rewrite selected_draw in H0. destruct (draw _ _) as [[es q'']|] eqn:D; [|done]. injection H0 as <-.
  apply draw_spec in D as (_ & Hperm & _).
  split; simpl; [done|done|].
  intros sc [Hin|Hin]%elem_of_app; [by apply Hsc|].
  apply elem_of_scopes_of in Hin as (e & He & Heq). exists e. split; [|done].
  apply Hsub. apply (elem_of_queue _ s.1). rewrite Hperm. set_solver.
Qed.

Lemma consumed_loop_resolves qs sels st :
  foldM consumed_entries (MkEntryState qs [] []) sels = Ok st → resolves qs st.
Proof.
  apply foldM_inv; [|by eauto using consumed_entries_resolves].
  split; [done|done|]. intros sc Hin. by apply elem_of_nil in Hin.
Qed.

(** The parts of a begin batch. *)
Record begun_by (l : Live) (b : Binding) (i : Instant) (initiation : Z → Instant → HRecord)
    (invocation : option ActivityInvocation) (scope : option LifecycleScope)
    (batch : list HRecord) (occ : FiringOccurrence) (movements : list HRecord) (qs : Queues) : Prop := {
  bb_id : occ_id occ = next_occurrence l;
  bb_binding : occ_binding occ = b;
  bb_batch : batch = initiation (occ_id occ) i :: occ_records occ;
  bb_written : written batch;
  bb_invocation : occ_invocation occ = resolve_invocation (occ_id occ) <$> invocation;
  bb_records : occ_records occ =
    FiringBegun (b_transition b) (occ_id occ) (occ_scope occ) i :: movements
      ++ match invocation with
         | Some inv => [requested_record (b_transition b) (occ_id occ) (occ_scope occ) i inv]
         | None => []
         end;
  bb_narrated : ∃ selections inferred,
    binding_entries (queues l) b = Ok (selections, inferred) ∧
    mapR (narrate (occ_id occ) (occ_scope occ) i)
      (zip ((consume_effect <$> b_consumed b) ++ (read_effect <$> b_read b)) selections) = Ok movements;
  bb_moved : foldM move (queues l) (occ_records occ) = Ok qs;
  bb_queues n : queues_ok (queues l) n → queues_ok qs n;
  bb_subset e : e ∈ queue_entries qs → e ∈ queue_entries (queues l);
  bb_scope sc : occ_scope occ = Some sc →
    scope = Some sc ∨ ∃ e, e ∈ queue_entries (queues l) ∧ e_scope e = Some sc;
  bb_given sc : scope = Some sc → occ_scope occ = Some sc
}.

Lemma single_provenance (inferred : list LifecycleScope) scope :
  (1 <? length (remove_dups (inferred ++ match scope with Some sc => [sc] | None => [] end)))%nat = false →
  (∀ sc, head (remove_dups (inferred ++ match scope with Some sc => [sc] | None => [] end)) = Some sc →
         scope = Some sc ∨ sc ∈ inferred) ∧
  (∀ sc, scope = Some sc → head (remove_dups (inferred ++ match scope with Some sc => [sc] | None => [] end)) = Some sc).
Proof.
  intros Hlen. apply Nat.ltb_ge in Hlen. split.
  - intros sc Hsc. assert (sc ∈ inferred ++ match scope with Some sc => [sc] | None => [] end) as Hin.
    { apply elem_of_remove_dups. destruct (remove_dups _); simplify_eq/=. set_solver. }
    apply elem_of_app in Hin as [?|Hin]; [by right|]. destruct scope; set_solver.
  - intros sc ->. assert (sc ∈ remove_dups (inferred ++ [sc])) as Hin.
    { apply elem_of_remove_dups. set_solver. }
    destruct (remove_dups _) as [|x [|y k]]; simpl in *; [set_solver|set_solver|lia].
Qed.

Lemma writer_records_Ok batch k :
  writer_records batch = Ok k ↔ k = batch ∧ Forall canonical_record batch.
Proof.
  unfold writer_records, canonical_record. rewrite Forall_and. split.
  - intros H. inv_ok. destruct (validate_history_record_values batch) eqn:E; [|done].
    unfold validate_history_record_values in E. inv_ok.
    repeat match goal with H : forM_ _ _ = Ok _ |- _ => apply forM_Ok in H end. done.
  - intros (-> & H1 & H2). rewrite (proj2 (forM_Ok _ _ tt) H1). simpl.
    unfold validate_history_record_values. by rewrite (proj2 (forM_Ok _ _ tt) H2).
Qed.

Lemma begin_batch_spec l b i initiation invocation scope batch occ :
  begin_batch l b i initiation invocation scope = Ok (batch, occ) →
  ∃ movements qs, begun_by l b i initiation invocation scope batch occ movements qs.
Proof.
  unfold begin_batch. intros H. inv_ok.
  match goal with H : mapR _ _ = Ok ?k |- _ => rename k into movements end.
  match goal with H : begin_firing _ _ = Ok _ |- _ => apply begin_firing_effects in H as -> end.
  match goal with H : (1 <? _)%nat = false |- _ => destruct (single_provenance _ _ H) as [Hs1 Hs2] end.
  match goal with H : writer_records _ = Ok _ |- _ => pose proof H as Hw; apply writer_records_Ok in H as [-> Hcan] end.
  match goal with H : binding_entries _ _ = Ok _ |- _ => pose proof H as Hb end.
  match goal with H : mapR _ _ = Ok _ |- _ => destruct (narrated_moves _ _ _ _ _ _ _ _ Hb H) as (st & Hst & Hmv) end.
  pose proof (consumed_loop_resolves _ _ _ Hst) as Hres.
  exists movements, (es_queues st). split; simpl; try done.
  - eauto.
  - rewrite foldM_app, Hmv. simpl. by destruct invocation.
  - intros n. apply Hres.
  - intros e. apply Hres.
  - intros sc Hsc. destruct (Hs1 _ Hsc) as [?|Hin]; [by left|]. right.
    unfold binding_entries in Hb. inv_ok.
    match goal with H : foldM consumed_entries _ _ = Ok ?a |- _ => rewrite Hst in H; injection H as <- end.
    assert (resolves (queues l) x0) as [_ _ Hr]; [|by apply Hr].
    eapply foldM_inv; [exact Hres| |eassumption]. eauto using read_entries_resolves.
Qed.
