(* ===== verification/Invariant.v ===== *)
(** * The invariant of the live state

    What every commit keeps: queue entries carry unique identities below the
    next one, in-flight occurrences sit under their own minted identity in
    active scopes, frozen facts belong to in-flight impure occurrences, ended
    occurrences are not in flight, and the registration table has exactly the
    net's sources. *)

From stdpp Require Import base gmap sets list strings pretty.
From Stdlib Require Import Ascii ZArith Lia.
From S2P Require Import Prelude PyData Schema Marking Enabledness Firing Activity Records Replay Lifecycle Instance Construction Commit.
Open Scope string_scope.
Open Scope list_scope.

Definition in_active_scope (s : ScopeState) (sc : option LifecycleScope) : Prop :=
  ∀ scope, sc = Some scope → scope_active s scope = true.

Record live_ok (c : Config) (l : Live) : Prop := {
  ok_queues : queues_ok (queues l) (next_entry l);
  ok_next_entry : (1 ≤ next_entry l)%Z;
  ok_next_occurrence : (1 ≤ next_occurrence l)%Z;
  ok_in_flight_keys : NoDup (dkeys (in_flight l));
  ok_in_flight o occ : dget o (in_flight l) = Some occ →
    occ_id occ = o ∧ (1 ≤ o < next_occurrence l)%Z ∧ in_active_scope (scope_state l) (occ_scope occ);
  ok_frozen_keys : NoDup (dkeys (frozen_results l));
  ok_frozen o f : dget o (frozen_results l) = Some f →
    ∃ occ, dget o (in_flight l) = Some occ ∧ is_Some (occ_invocation occ);
  ok_cancelled_keys : NoDup (dkeys (cancelled l));
  ok_cancelled o occ : dget o (cancelled l) = Some occ →
    occ_id occ = o ∧ (1 ≤ o < next_occurrence l)%Z ∧ dget o (in_flight l) = None;
  ok_terminal o f : dget o (terminal_activity l) = Some f →
    (o < next_occurrence l)%Z ∧ dget o (in_flight l) = None;
  ok_active_keys : NoDup (dkeys (active_scopes (scope_state l)));
  ok_active name sc : dget name (active_scopes (scope_state l)) = Some sc →
    scope_name sc = name ∧ scope_generation sc = spent_generation (scope_state l) name;
  ok_entry_scopes e : e ∈ queue_entries (queues l) → in_active_scope (scope_state l) (e_scope e);
  ok_armed : dkeys (armed l) = source_transitions (net c);
  ok_sources : NoDup (source_transitions (net c))
}.

(** ** The cancellation loop *)

Lemma cancel_live_Some l o occ :
  dget o (in_flight l) = Some occ →
  cancel_live l o = set_cancelled (dset o occ (cancelled l))
    (set_frozen_results (ddel o (frozen_results l)) (set_in_flight (ddel o (in_flight l)) l)).
Proof. unfold cancel_live. by intros ->. Qed.

Definition take_in_flight (l : Live) (ids : list Z) : list (Z * FiringOccurrence) :=
  omap (λ o, pair o <$> dget o (in_flight l)) ids.

Lemma cancel_fold l ids :
  NoDup ids → Forall (λ o, is_Some (dget o (in_flight l)) ∧ dget o (cancelled l) = None) ids →
  NoDup (dkeys (in_flight l)) → NoDup (dkeys (frozen_results l)) →
  foldl cancel_live l ids =
  set_cancelled (cancelled l ++ take_in_flight l ids)
    (set_frozen_results (filter (λ kv, kv.1 ∉ ids) (frozen_results l))
       (set_in_flight (filter (λ kv, kv.1 ∉ ids) (in_flight l)) l)).
Proof.
  revert l. induction ids as [|o ids IH]; intros l Hids Hin Hk Hf.
  { simpl. rewrite app_nil_r. rewrite !filter_all by (intros; apply not_elem_of_nil). by destruct l. }
  apply NoDup_cons in Hids as [Ho Hids]. apply Forall_cons in Hin as [[[occ Hocc] Hc] Hin].
  simpl. rewrite (cancel_live_Some _ _ _ Hocc). rewrite IH; simpl; [|done| |by auto with petrus|by auto with petrus].
  - unfold take_in_flight. simpl. rewrite Hocc. simpl. rewrite dset_fresh by done.
    rewrite <-(assoc_L (++)). simpl.
    assert (omap (λ o0, pair o0 <$> dget o0 (ddel o (in_flight l))) ids
            = omap (λ o0, pair o0 <$> dget o0 (in_flight l)) ids) as ->.
    { clear -Ho. induction ids as [|o' ids IH]; csimpl; [done|].
      apply not_elem_of_cons in Ho as [Hne Ho]. by rewrite dget_ddel_ne, IH. }
    rewrite <-!foldl_ddel_filter by auto with petrus.
    done.
  - rewrite Forall_forall in *. intros o' Ho'. destruct (Hin _ Ho') as [? ?].
    assert (o' ≠ o) by (by intros ->). rewrite dget_ddel_ne, dget_dset_ne by done. done.
Qed.

(** The in-flight occurrences of one scope, and the others. *)
Definition scoped (l : Live) (sc : LifecycleScope) : list (Z * FiringOccurrence) :=
  filter (λ kv : Z * FiringOccurrence, in_scope sc kv.2) (in_flight l).
Definition unscoped (l : Live) (sc : LifecycleScope) : list (Z * FiringOccurrence) :=
  filter (λ kv : Z * FiringOccurrence, ¬ in_scope sc kv.2) (in_flight l).

Lemma scope_closure_spec l sc cl :
  scope_closure l sc = Ok cl →
  scope_active (scope_state l) sc = true ∧
  existsb (in_scope sc) (projection_pending l) = false ∧
  cl = MkClosure sc (scope_entries (queues l) sc) (occ_id <$> filter (λ o, in_scope sc o) (dvals (in_flight l))).
Proof.
  unfold scope_closure. intros H. inv_ok. rename H0 into Ha, H1 into Hp.
  apply negb_false_iff in Ha. done.
Qed.

Section closure.
  Context (c : Config) (l : Live) (Hok : live_ok c l).

Lemma in_flight_elem o occ : (o, occ) ∈ in_flight l → dget o (in_flight l) = Some occ.
Proof. apply elem_of_dget, Hok. Qed.

Lemma in_flight_id o occ : (o, occ) ∈ in_flight l → occ_id occ = o.
Proof. intros H%in_flight_elem. by apply (ok_in_flight _ _ Hok). Qed.

Lemma cancelled_ids sc :
  occ_id <$> filter (λ o, in_scope sc o) (dvals (in_flight l)) = dkeys (scoped l sc).
Proof.
  unfold scoped, dvals, dkeys. pose proof in_flight_id as Hid. revert Hid.
  induction (in_flight l) as [|[o occ] d IH]; intros Hid; [done|]. csimpl.
  rewrite !filter_cons. simpl. case_decide; csimpl.
  - rewrite IH by set_solver. by rewrite (Hid o occ) by set_solver.
  - apply IH. set_solver.
Qed.

Lemma elem_of_scoped sc o :
  o ∈ dkeys (scoped l sc) ↔ ∃ occ, dget o (in_flight l) = Some occ ∧ in_scope sc occ = true.
Proof.
  unfold scoped. rewrite <-dget_is_Some, dget_filter by apply Hok.
  destruct (dget o (in_flight l)) as [occ|]; simpl.
  - case_decide as Hs; split.
    + intros _. exists occ. split; [done|]. by apply Is_true_true_1.
    + eauto.
    + by intros [? ?].
    + intros (occ' & [= <-] & H). by apply Is_true_true_2 in H.
  - split; [by intros [? ?]|]. by intros (? & ? & _).
Qed.

Lemma scoped_ids_ok sc :
  NoDup (dkeys (scoped l sc)) ∧
  Forall (λ o, is_Some (dget o (in_flight l)) ∧ dget o (cancelled l) = None) (dkeys (scoped l sc)).
Proof.
  split; [apply NoDup_dkeys_filter, Hok|]. rewrite Forall_forall.
  intros o (occ & Hocc & _)%elem_of_scoped. split; [eauto|].
  destruct (dget o (cancelled l)) eqn:E; [|done].
  apply (ok_cancelled _ _ Hok) in E as (_ & _ & E). congruence.
Qed.

Lemma take_scoped sc : take_in_flight l (dkeys (scoped l sc)) = scoped l sc.
Proof.
  unfold take_in_flight, dkeys.
  assert (∀ o occ, (o, occ) ∈ scoped l sc → dget o (in_flight l) = Some occ) as H.
  { intros o occ [_ Hin]%list_elem_of_filter. by apply in_flight_elem. }
  induction (scoped l sc) as [|[o occ] k IH]; csimpl; [done|].
  rewrite (H o occ) by set_solver. simpl. f_equal. apply IH. set_solver.
Qed.

Lemma keep_unscoped sc : filter (λ kv, kv.1 ∉ dkeys (scoped l sc)) (in_flight l) = unscoped l sc.
Proof.
  apply filter_ext_in. intros [o occ] Hin. simpl. rewrite elem_of_scoped. apply in_flight_elem in Hin.
  split.
  - intros Hn Hs. apply Hn. exists occ. split; [done|]. by apply Is_true_true_1.
  - intros Hn (occ' & Ho & Hs). simplify_eq. by apply Hn, Is_true_true_2.
Qed.

Lemma keep_frozen sc :
  existsb (in_scope sc) (projection_pending l) = false →
  filter (λ kv, kv.1 ∉ dkeys (scoped l sc)) (frozen_results l) = frozen_results l.
Proof.
  intros Hp. apply filter_all. intros [o f] Hin. simpl.
  intros (occ & Hocc & Hs)%elem_of_scoped. apply not_true_iff_false in Hp. apply Hp.
  apply existsb_exists. exists occ. split; [|done]. apply list_elem_of_In.
  unfold projection_pending. apply list_elem_of_filter. split.
  - apply Is_true_true_2, dmem_true. apply dget_elem_of, in_flight_id in Hocc as ->.
    unfold dkeys. apply list_elem_of_fmap. by exists (o, f).
  - unfold dvals. apply list_elem_of_fmap. exists (o, occ). split; [done|]. by apply dget_elem_of.
Qed.

Lemma closed_live_eq sc opened cl i :
  scope_closure l sc = Ok cl →
  closed_live sc opened (cl_cancelled cl) i l =
  set_watermark i (set_cancelled (cancelled l ++ scoped l sc)
    (set_in_flight (unscoped l sc)
      (set_scope_state (closed_scopes (scope_name sc) opened (scope_state l))
        (set_queues (purge sc (queues l)) l)))).
Proof.
  intros (Ha & Hp & ->)%scope_closure_spec. simpl. rewrite cancelled_ids.
  destruct (scoped_ids_ok sc) as [Hnd Hin].
  unfold closed_live. rewrite cancel_fold; simpl; [|done|done|apply Hok|apply Hok].
  rewrite keep_unscoped, keep_frozen by done.
  unfold take_in_flight; simpl. fold (take_in_flight l (dkeys (scoped l sc))). rewrite take_scoped. done.
Qed.
End closure.

(** ** The occurrence a caller names *)

Lemma ensure_in_flight_spec l occ :
  ensure_in_flight l occ = Ok tt →
  ∃ live, dget (occ_id occ) (in_flight l) = Some live ∧ occurrence_eq live occ = true.
Proof.
  unfold ensure_in_flight. destruct (dget (occ_id occ) (in_flight l)) as [live|]; simpl.
  - destruct (occurrence_eq live occ) eqn:E; [eauto|]. by destruct (_ && _).
  - by destruct (_ && _).
Qed.

Lemma occurrence_eq_spec a b :
  occurrence_eq a b = true →
  occ_id a = occ_id b ∧ occ_scope a = occ_scope b ∧
  b_transition (occ_binding a) = b_transition (occ_binding b) ∧
  (is_Some (occ_invocation a) ↔ is_Some (occ_invocation b)).
Proof.
  unfold occurrence_eq. rewrite bool_decide_eq_true. intros H.
  split; [exact (f_equal occ_id H)|]. split; [exact (f_equal occ_scope H)|].
  split; [exact (f_equal (b_transition ∘ occ_binding) H)|].
  apply (f_equal occ_invocation) in H. simpl in H.
  destruct (occ_invocation a), (occ_invocation b); simpl in H; try discriminate H;
    split; intros [? ?]; eauto; discriminate.
Qed.

(** ** Scopes *)

Lemma scope_active_inj s a b :
  scope_active s a = true → scope_active s b = true → scope_name a = scope_name b → a = b.
Proof. unfold scope_active. rewrite !bool_decide_eq_true. congruence. Qed.

Lemma active_after_open s sc sc' :
  dget (scope_name sc) (active_scopes s) = None → scope_active s sc' = true →
  scope_active (MkScopeState (dset (scope_name sc) sc (active_scopes s))
                  (dset (scope_name sc) (scope_generation sc) (scope_generations s))) sc' = true.
Proof.
  unfold scope_active. simpl. rewrite !bool_decide_eq_true. intros Hn Ha.
  rewrite dget_dset_ne; [done|]. intros Heq. rewrite Heq in Ha. congruence.
Qed.

Lemma active_after_close s sc opened sc' :
  (∀ sc2, opened = Some sc2 → scope_name sc2 = scope_name sc) →
  scope_active s sc = true → scope_active s sc' = true → sc' ≠ sc →
  scope_active (closed_scopes (scope_name sc) opened s) sc' = true.
Proof.
  intros Hop Ha Ha' Hne.
  assert (scope_name sc' ≠ scope_name sc) as Hname by (intros H; by apply Hne, (scope_active_inj s)).
  unfold scope_active in *. apply bool_decide_eq_true in Ha'. apply bool_decide_eq_true.
  unfold closed_scopes. destruct opened as [sc2|]; simpl.
  - rewrite (Hop sc2 eq_refl). by rewrite dget_dset_ne, dget_ddel_ne.
  - by rewrite dget_ddel_ne.
Qed.

(** ** Deposits *)

Lemma mint_ok i sc effects qs n :
  queues_ok qs n → (1 ≤ n)%Z →
  queues_ok (foldl (deposit_minted i sc) qs (mint_entries n effects)) (minted_cursor n effects)
  ∧ (n ≤ minted_cursor n effects)%Z.
Proof.
  revert qs n. induction effects as [|e effects IH]; intros qs n Hq Hn; simpl; [split; [done|lia]|].
  unfold minted_cursor. simpl. fold (minted_cursor (n + Z.of_nat (length (produced_tokens e))) effects).
  destruct (IH (deposit_minted i sc qs (e, zrange n (length (produced_tokens e))))
              (n + Z.of_nat (length (produced_tokens e)))%Z) as [H1 H2]; [|lia|].
  - unfold deposit_minted; simpl.
    eapply queues_ok_deposit; [done|apply length_zrange| |apply NoDup_zrange|done|lia|];
      rewrite Forall_forall; intros z Hz%elem_of_zrange; lia.
  - split; [done|lia].
Qed.

Lemma elem_of_deposit_minted i sc qs ee e :
  e ∈ queue_entries (deposit_minted i sc qs ee) → e ∈ queue_entries qs ∨ e_scope e = sc.
Proof.
  unfold deposit_minted. rewrite queue_entries_dset, (queue_entries_split (produced_place ee.1) qs).
  rewrite !elem_of_app. intros [[H|H]|H]; [by left; left| |by left; right]. right.
  unfold deposited in H. by apply list_elem_of_fmap in H as (te & -> & _).
Qed.

Lemma minted_scopes i sc minted qs e :
  e ∈ queue_entries (foldl (deposit_minted i sc) qs minted) → e ∈ queue_entries qs ∨ e_scope e = sc.
Proof.
  revert qs. induction minted as [|ee minted IH]; intros qs H; simpl in *; [by left|].
  apply IH in H as [H|H]; [|by right]. by apply elem_of_deposit_minted in H.
Qed.

(** The live deposit loop of a completion succeeds. *)
Lemma deposit_loop o i sc effects qs n :
  queues_ok qs n → (1 ≤ n)%Z →
  foldM (λ qs ee, apply_movement qs (produced_record o sc i ee) (Some ee.2)) qs (mint_entries n effects)
  = Ok (foldl (deposit_minted i sc) qs (mint_entries n effects)).
Proof.
  revert qs n. induction effects as [|e effects IH]; intros qs n Hq Hn; simpl; [done|].
  set (es := zrange n (length (produced_tokens e))).
  assert (length es = length (produced_tokens e)) as Hlen by apply length_zrange.
  rewrite (apply_deposit_fresh _ n _ _ _ _ _ _ es); [|done| |done|]; simpl.
  - apply IH; [|lia]. unfold deposit_minted; simpl.
    eapply queues_ok_deposit; [done|done| |apply NoDup_zrange|done|lia|];
      rewrite Forall_forall; intros z Hz%elem_of_zrange; lia.
  - destruct sc; simpl; [|by apply or_list_length].
    destruct es as [|z es2] eqn:E; [|done]. simpl in Hlen. by rewrite <-Hlen.
  - rewrite Forall_forall. intros z Hz%elem_of_zrange. lia.
Qed.

(** ** Registrations *)

Lemma armed_after_keys n a hr a' : armed_after n a hr = Ok a' → dkeys a' = dkeys a.
Proof.
  unfold armed_after. intros H. apply bind_Ok in H as ([] & _ & H). apply bind_Ok in H as (a1 & H1 & H).
  transitivity (dkeys a1).
  - eapply (foldM_inv (λ b, dkeys b = dkeys a1)); [done| |exact H]. intros b r b' _ Hb Hr.
    unfold armed_open in Hr. inv_ok. rewrite dkeys_dset_in, Hb; [done|]. apply dget_is_Some. eauto.
  - eapply (foldM_inv (λ b, dkeys b = dkeys a)); [done| |exact H1]. intros b r b' _ Hb Hr.
    unfold armed_close in Hr. inv_ok. rewrite dkeys_dset_in, Hb; [done|]. apply dget_is_Some. eauto.
Qed.

(** The parts of a completion batch. *)
Lemma completion_batch_spec c l occ supplied i armed' minted cursor batch :
  completion_batch c l occ supplied i = Ok (armed', minted, cursor, batch) →
  ∃ envelope effects m',
    ensure_in_flight l occ = Ok tt ∧
    projected_result c l occ supplied = Ok envelope ∧
    armed_after (net c) (armed l) envelope = Ok armed' ∧
    complete_firing (net c) (live_marking l) (b_transition (occ_binding occ)) (hr_tokens envelope) = Ok (effects, m') ∧
    minted = mint_entries (next_entry l) effects ∧ cursor = minted_cursor (next_entry l) effects ∧
    batch = (produced_record (occ_id occ) (occ_scope occ) i <$> minted)
            ++ (closed_record (occ_id occ) i <$> hr_closes envelope)
            ++ (opened_record (occ_id occ) i <$> hr_opens envelope)
            ++ [FiringCompleted (b_transition (occ_binding occ)) (occ_id occ) i] ∧
    written batch.
Proof.
  unfold completion_batch. intros H. inv_ok.
  match goal with H : writer_records _ = Ok _ |- _ => pose proof H as Hw; apply writer_records_Ok in H as [-> _] end.
  eexists _, _, _. split_and!; [eassumption|eassumption|eassumption|eassumption|done|done|done|].
  exact Hw.
Qed.

(** ** Preservation *)

Section preservation.
  Context (c : Config) (l : Live) (Hok : live_ok c l).

Lemma ok_opened sc i :
  dget (scope_name sc) (active_scopes (scope_state l)) = None → live_ok c (opened_live sc i l).
Proof.
  intros Hn. destruct Hok. split; simpl; try done; auto with petrus.
  - intros o occ (? & ? & Ha)%ok_in_flight0. split_and!; [done|lia|lia|].
    intros scope Hs. by apply active_after_open, Ha.
  - intros name sc'. unfold spent_generation, dget_default; simpl. rewrite !dget_dset.
    destruct (decide (name = scope_name sc)) as [->|Hne]; [by intros [= <-]|]. apply ok_active0.
  - intros e He scope Hs. apply active_after_open; [done|]. by apply (ok_entry_scopes0 e).
Qed.

Lemma ok_closed sc opened cl i :
  scope_closure l sc = Ok cl →
  (∀ sc2, opened = Some sc2 → scope_name sc2 = scope_name sc) →
  live_ok c (closed_live sc opened (cl_cancelled cl) i l).
Proof.
  intros Hcl Hop. rewrite (closed_live_eq c l Hok) by done.
  apply scope_closure_spec in Hcl as (Ha & Hp & _).
  pose proof (scoped_ids_ok c l Hok sc) as [Hnd Hids].
  assert (∀ o, dget o (unscoped l sc) =
    match dget o (in_flight l) with Some occ => if decide (¬ in_scope sc occ) then Some occ else None | None => None end)
    as Hun by (intros o; apply dget_filter, Hok).
  destruct Hok. split; simpl; try done.
  - by apply queues_ok_purge.
  - by apply NoDup_dkeys_filter.
  - intros o occ. rewrite Hun. destruct (dget o (in_flight l)) as [occ'|] eqn:E; [|done].
    case_decide as Hs; [|done]. intros [= ->]. apply ok_in_flight0 in E as (? & ? & Hact).
    split_and!; [done|lia|lia|]. intros scope Hsc. apply active_after_close; auto.
    intros ->. apply Hs, Is_true_true_2. unfold in_scope. by rewrite Hsc, bool_decide_true.
  - intros o f Hf. destruct (ok_frozen0 _ _ Hf) as (occ & Hocc & Hinv). exists occ. split; [|done].
    rewrite Hun, Hocc. rewrite decide_True; [done|]. intros Hs.
    assert (o ∈ dkeys (frozen_results l)) as Hin by (apply dget_is_Some; eauto).
    assert (filter (λ kv, kv.1 ∉ dkeys (scoped l sc)) (frozen_results l) = frozen_results l) as Hkeep.
    { by apply (keep_frozen c l). }
    apply dget_elem_of in Hf. rewrite <-Hkeep in Hf. apply list_elem_of_filter in Hf as [Hf _].
    apply Hf. apply (elem_of_scoped c l); [done|]. exists occ. split; [done|]. by apply Is_true_true_1.
  - rewrite dkeys_app. apply NoDup_app. split_and!; [done| |done].
    intros o Hc Hs. rewrite Forall_forall in Hids. apply Hids in Hs as [_ Hs]. by apply dget_None in Hs.
  - intros o occ. rewrite dget_app. destruct (dget o (cancelled l)) as [occ'|] eqn:E.
    + intros [= ->]. apply ok_cancelled0 in E as (? & ? & Hnone). split; [done|]. split; [done|]. by rewrite Hun, Hnone.
    + unfold scoped. rewrite dget_filter by done. destruct (dget o (in_flight l)) as [occ'|] eqn:E2; [|done].
      case_decide as Hs; [|done]. intros [= ->]. apply ok_in_flight0 in E2 as E3. destruct E3 as (? & ? & _).
      split; [done|]. split; [lia|]. rewrite Hun, E2. by rewrite decide_False by tauto.
  - intros o f Hf. apply ok_terminal0 in Hf as [? Hnone]. split; [done|]. by rewrite Hun, Hnone.
  - unfold closed_scopes. destruct opened; simpl; auto with petrus.
  - intros name sc'. unfold closed_scopes, spent_generation, dget_default. destruct opened as [sc2|]; simpl.
    + rewrite (Hop sc2 eq_refl), !dget_dset. destruct (decide (name = scope_name sc)) as [->|Hne].
      * intros [= <-]. split; [by apply Hop|done].
      * rewrite dget_ddel_ne by done. apply ok_active0.
    + rewrite dget_ddel by done. case_decide; [done|]. apply ok_active0.
  - intros e. rewrite queue_entries_purge. intros [Hs He]%list_elem_of_filter scope Hsc.
    apply active_after_close; [done|done|by apply (ok_entry_scopes0 e)|]. intros ->. by apply Hs.
Qed.

Lemma ok_begun b i initiation invocation scope batch occ movements qs :
  begun_by l b i initiation invocation scope batch occ movements qs →
  in_active_scope (scope_state l) scope → live_ok c (begun_live occ qs i l).
Proof.
  intros Hbb Hact.
  assert (in_active_scope (scope_state l) (occ_scope occ)) as Hsc.
  { intros sc Hs. destruct (bb_scope _ _ _ _ _ _ _ _ _ _ Hbb sc Hs) as [?|(e & He & Hes)]; [by apply Hact|].
    by apply (ok_entry_scopes c l Hok e). }
  assert (dget (next_occurrence l) (in_flight l) = None) as Hfresh.
  { destruct (dget _ _) eqn:E; [|done]. apply (ok_in_flight c l Hok) in E. lia. }
  destruct Hbb as [Hid _ _ _ _ _ _ _ Hqs Hsub _ _].
  unfold begun_live. destruct Hok. rewrite Hid.
  assert (live_ok c (set_in_flight (dset (next_occurrence l) occ (in_flight l))
    (set_queues qs (set_next_occurrence (next_occurrence l + 1) (set_watermark i l))))) as Hmain.
  { split; simpl; try done; auto with petrus.
    - lia.
    - intros o occ'. rewrite dget_dset. case_decide as Heq.
      + intros [= <-]. subst. split_and!; [done|lia|lia|done].
      + intros (? & ? & ?)%ok_in_flight0. split_and!; [done|lia|lia|done].
    - intros o f Hf. destruct (ok_frozen0 _ _ Hf) as (occ' & Ho & ?). exists occ'. split; [|done].
      rewrite dget_dset_ne; [done|]. intros ->. congruence.
    - intros o occ' (? & ? & ?)%ok_cancelled0. split; [done|]. split; [lia|]. by rewrite dget_dset_ne by lia.
    - intros o f (? & ?)%ok_terminal0. split; [lia|]. by rewrite dget_dset_ne by lia. }
  destruct (occ_invocation occ); [|done].
  destruct Hmain. by split.
Qed.

Lemma ok_frozen_set o f i :
  (∃ occ, dget o (in_flight l) = Some occ ∧ is_Some (occ_invocation occ)) →
  live_ok c (set_frozen_results (dset o f (frozen_results l)) (set_watermark i l)).
Proof.
  intros Hocc. destruct Hok. split; simpl; try done; auto with petrus.
  intros o' f'. rewrite dget_dset. case_decide; [by intros _; subst|]. apply ok_frozen0.
Qed.

Lemma ok_ended o retired :
  (∃ occ, dget o (in_flight l) = Some occ) →
  (retired = None → dget o (frozen_results l) = None) →
  live_ok c (ended_live o retired l).
Proof.
  intros [occ Hocc] Hret. unfold ended_live. destruct Hok.
  assert (∀ o', dget o' (ddel o (in_flight l)) = if decide (o' = o) then None else dget o' (in_flight l)) as Hdel
    by (intros; by apply dget_ddel).
  destruct retired as [f|]; split; simpl; try done; auto with petrus.
  - intros o' occ'. rewrite Hdel. case_decide; [done|]. apply ok_in_flight0.
  - intros o' f'. rewrite Hdel, dget_ddel by done. case_decide; [done|]. apply ok_frozen0.
  - intros o' occ' (? & ? & Hn)%ok_cancelled0. split; [done|]. split; [done|]. rewrite Hdel, Hn. by case_decide.
  - intros o' f'. rewrite Hdel, dget_dset. case_decide.
    + intros _. subst. split; [|done]. apply ok_in_flight0 in Hocc. lia.
    + apply ok_terminal0.
  - intros o' occ'. rewrite Hdel. case_decide; [done|]. apply ok_in_flight0.
  - intros o' f' Hf. rewrite Hdel. case_decide; [|by apply (ok_frozen0 _ f')]. subst.
    rewrite Hret in Hf by done. done.
  - intros o' occ' (? & ? & Hn)%ok_cancelled0. split; [done|]. split; [done|]. rewrite Hdel, Hn. by case_decide.
  - intros o' f' (? & Hn)%ok_terminal0. split; [done|]. rewrite Hdel, Hn. by case_decide.
Qed.

Lemma ok_watermark i : live_ok c (set_watermark i l).
Proof. destruct Hok. by split. Qed.
End preservation.

Section preservation2.
  Context (c : Config) (l : Live) (Hok : live_ok c l).

Lemma ok_deposited sc i effects armed' :
  in_active_scope (scope_state l) sc → dkeys armed' = dkeys (armed l) →
  live_ok c (set_armed armed' (set_queues (foldl (deposit_minted i sc) (queues l) (mint_entries (next_entry l) effects))
    (set_next_entry (minted_cursor (next_entry l) effects) (set_watermark i l)))).
Proof.
  intros Hact Harm. destruct Hok.
  destruct (mint_ok i sc effects _ _ ok_queues0 ok_next_entry0) as [Hm Hle].
  split; simpl; try done.
  - lia.
  - intros e [He|He]%minted_scopes; [by apply ok_entry_scopes0|]. by rewrite He.
  - by rewrite Harm.
Qed.

(** The occurrence a terminal commit names, and its frozen fact. *)
Lemma ensured occ :
  ensure_in_flight l occ = Ok tt →
  ∃ live, dget (occ_id occ) (in_flight l) = Some live ∧ occurrence_eq live occ = true ∧
    in_active_scope (scope_state l) (occ_scope occ).
Proof.
  intros (live & Hl & He)%ensure_in_flight_spec. exists live. split_and!; [done|done|].
  apply occurrence_eq_spec in He as (_ & <- & _). by apply (ok_in_flight c l Hok) in Hl as (_ & _ & ?).
Qed.

Lemma retired_spec occ live retired :
  dget (occ_id occ) (in_flight l) = Some live → occurrence_eq live occ = true →
  is_retired l occ retired → retired = dget (occ_id occ) (frozen_results l).
Proof.
  intros Hl (_ & _ & _ & Hinv)%occurrence_eq_spec. unfold is_retired.
  destruct (occ_invocation occ) as [inv|]; [by intros [-> _]|].
  intros ->. destruct (dget (occ_id occ) (frozen_results l)) eqn:E; [|done].
  apply (ok_frozen c l Hok) in E as (live' & ? & Hs). simplify_eq.
  apply Hinv in Hs as [? ?]. done.
Qed.

Lemma commit_ok batch l' : commit c l batch l' → live_ok c l'.
Proof.
  destruct 1.
  - by apply ok_opened.
  - by apply ok_closed.
  - apply ok_closed; [done|done|]. intros sc2 [= <-]. unfold LifecycleScope_new in H1. by inv_ok.
  - destruct (begin_batch_spec _ _ _ _ _ _ _ _ H5) as (movements & qs' & Hbb).
    assert (qs' = qs) as -> by (pose proof (bb_moved _ _ _ _ _ _ _ _ _ _ Hbb); congruence).
    by eapply ok_begun.
  - destruct (begin_batch_spec _ _ _ _ _ _ _ _ H6) as (movements & qs' & Hbb).
    assert (qs' = qs) as -> by (pose proof (bb_moved _ _ _ _ _ _ _ _ _ _ Hbb); congruence).
    assert (live_ok c (begun_live occ qs i l)) as Hb by (by eapply ok_begun).
    destruct Hb. by split.
  - apply ok_frozen_set; eauto.
  - apply ok_frozen_set; eauto.
  - pose proof (ok_watermark c l Hok i) as Hw. destruct Hw. by split.
  - apply completion_batch_spec in H0 as (env & effects & m' & He & _ & Harm & _ & -> & -> & _ & _).
    destruct (ensured _ He) as (live & Hl & Heq & Hact).
    pose proof (retired_spec _ _ _ Hl Heq H1) as ->.
    apply armed_after_keys in Harm. apply ok_ended; [by apply ok_deposited|eauto|done].
  - destruct (ensured _ H0) as (live & Hl & Heq & Hact).
    pose proof (retired_spec _ _ _ Hl Heq H1) as ->.
    apply ok_ended; [by apply ok_watermark|eauto|done].
  - pose proof (ok_watermark c l Hok i) as Hw. destruct Hw. by split.
  - destruct Hok. split; simpl; try done.
    rewrite dkeys_dset_in; [done|]. apply dget_is_Some. eauto.
  - by apply ok_watermark.
Qed.
End preservation2.

Definition instance_ok (s : Instance) : Prop := live_ok (config s) (live s).

Lemma istep_ok s s' : istep s s' → instance_ok s → instance_ok s'.
Proof. destruct 1; [done|]. unfold instance_ok; simpl. intros Hok. by eapply commit_ok. Qed.

Lemma isteps_ok s s' : isteps s s' → instance_ok s → instance_ok s'.
Proof. induction 1; eauto using istep_ok. Qed.

Lemma isteps_config s s' : isteps s s' → config s' = config s.
Proof. induction 1 as [|x y z Hxy _ IH]; [done|]. rewrite IH. by destruct Hxy. Qed.

Lemma isteps_history s s' : isteps s s' → ∃ appended, history s' = history s ++ appended.
Proof.
  induction 1 as [|x y z Hxy _ [a IH]]; [exists []; by rewrite app_nil_r|].
  destruct Hxy as [c st st' l Heq|c st st' l l' batch _ Heq]; unfold history in *; simpl in *; rewrite IH, Heq.
  - eauto.
  - exists (batch ++ a). by rewrite (assoc_L (++)).
Qed.

Lemma isteps_watermark s s' : isteps s s' → (watermark (live s) ≤ watermark (live s'))%Z.
Proof.
  induction 1 as [|x y z Hxy _ IH]; [done|]. etrans; [|exact IH].
  destruct Hxy as [|c st st' l l' batch Hc _]; [done|]. simpl.
  destruct Hc; simpl; try done.
  all: try (unfold closed_live; simpl; done).
  all: try (unfold begun_live; destruct (occ_invocation occ); simpl; done).
  all: try (unfold completed_live, ended_live; destruct retired; simpl; done).
Qed.
