(* ===== verification/Operations.v ===== *)
(** * The operations follow the commit relation

    Every operation of the Instance either leaves history and live state as
    they were, or appends one batch and moves the live state as [commit] says;
    a raising operation of the single-append kind is always the former. The
    inline drivers are sequences of such doors. *)

From stdpp Require Import base gmap sets list strings pretty.
From Stdlib Require Import Ascii ZArith Lia.
From S2P Require Import Prelude PyData Schema Marking Enabledness Firing Activity Records Replay Lifecycle Instance Construction Commit Invariant.
Open Scope string_scope.
Open Scope list_scope.

(** ** Running computations *)

Lemma bind_lift {A B} (r : result A) (f : A → M B) s :
  (lift r ≫= f) s = match r with Ok a => f a s | Err e => (Err e, s) end.
Proof. by destruct r. Qed.

Lemma bind_self {A B} (g : Live → A) (f : A → M B) s : (self g ≫= f) s = f (g (live s)) s.
Proof. done. Qed.

Lemma bind_cfg {A B} (g : Config → A) (f : A → M B) s : (cfg g ≫= f) s = f (g (config s)) s.
Proof. done. Qed.

Lemma bind_update {B} (u : Live → Live) (f : unit → M B) s :
  (update u ≫= f) s = f tt (MkInstance (config s) (store s) (u (live s))).
Proof. done. Qed.

Lemma bind_ret {A B} (a : A) (f : A → M B) s : ((mret a : M A) ≫= f) s = f a s.
Proof. done. Qed.

Lemma bind_assoc {A B C} (m : M A) (f : A → M B) (g : B → M C) s :
  ((m ≫= f) ≫= g) s = (m ≫= (λ a, f a ≫= g)) s.
Proof. unfold mbind, M_bind. destruct (m s) as [[a|e] s1]; [|done]. by destruct (f a s1) as [[b|e] s2]. Qed.

Lemma bind_if {B} (b : bool) (m1 m2 : M unit) (f : unit → M B) s :
  ((if b then m1 else m2) ≫= f) s = if b then (m1 ≫= f) s else (m2 ≫= f) s.
Proof. by destruct b. Qed.

Lemma advance_eq i : advance i = update (set_watermark i).
Proof. done. Qed.

Lemma bind_inv {A B} (m : M A) (f : A → M B) s r s' :
  (m ≫= f) s = (r, s') →
  (∃ a s1, m s = (Ok a, s1) ∧ f a s1 = (r, s')) ∨ (∃ e, m s = (Err e, s') ∧ r = Err e).
Proof.
  unfold mbind, M_bind. destruct (m s) as [[a|e] s1]; [eauto|]. intros [= <- <-]. eauto.
Qed.

(** Nothing observable changed. *)
Definition same (s s' : Instance) : Prop :=
  config s' = config s ∧ live s' = live s ∧ history s' = history s.

#[export] Instance same_equivalence : Equivalence same.
Proof.
  unfold same. split.
  - done.
  - intros x y (? & ? & ?). done.
  - intros x y z (? & ? & ?) (? & ? & ?). split_and!; congruence.
Qed.

(** The batch is in the history; the live state has not moved yet. *)
Definition stored (batch : list HRecord) (s s1 : Instance) : Prop :=
  config s1 = config s ∧ live s1 = live s ∧ history s1 = history s ++ batch.

Lemma bind_extend {B} (batch : list HRecord) (f : unit → M B) s r s' :
  (extend batch ≫= f) s = (r, s') →
  (∃ e, r = Err e ∧ same s s') ∨ (∃ s1, stored batch s s1 ∧ f tt s1 = (r, s')).
Proof.
  unfold mbind, M_bind, extend. destruct (st_refusals (store s)) as [|[e'|] rest]; intros H.
  - right. eexists. split; [|exact H]. done.
  - injection H as <- <-. left. exists e'. repeat split.
  - right. eexists. split; [|exact H]. done.
Qed.

(** What a single-append operation does. *)
Definition door {A} (s : Instance) (r : result A) (s' : Instance) : Prop :=
  same s s' ∨
  (is_ok r = true ∧ config s' = config s ∧
   ∃ batch, commit (config s) (live s) batch (live s') ∧ history s' = history s ++ batch).

Lemma door_same {A} (r : result A) s : door s r s.
Proof. by left. Qed.

Lemma door_isteps {A} (r : result A) s s' : door s r s' → isteps s s'.
Proof.
  destruct s as [c st l], s' as [c' st' l']. intros [(Hc & Hl & Hh)|(_ & Hc & batch & Hb & Hh)];
    unfold history in *; simpl in *; subst.
  - apply rtc_once. by constructor.
  - apply rtc_once. by econstructor.
Qed.

Lemma door_raise {A} (e : exn) s s' : door s (Err e : result A) s' → same s s'.
Proof. by intros [?|(? & _)]. Qed.

Ltac mstep H :=
  first
    [ rewrite bind_assoc in H
    | rewrite bind_lift in H
    | rewrite bind_self in H
    | rewrite bind_cfg in H
    | rewrite bind_ret in H
    | rewrite advance_eq in H
    | rewrite bind_update in H ]; cbv beta in H.

(** Run a computation past its checks: a failing check ends it unchanged. *)
Ltac mcheck H :=
  repeat (mstep H; try match type of H with
    | match ?r with Ok _ => _ | Err _ => _ end = _ =>
        let E := fresh "Hchk" in
        destruct r as [?|?] eqn:E; [|injection H as <- <-; apply door_same]
    end).

Lemma effective_le l at_ : (watermark l ≤ effective l at_)%Z.
Proof. unfold effective. destruct at_; lia. Qed.

Lemma written_of batch k : writer_records batch = Ok k → k = batch ∧ written batch.
Proof. intros H. pose proof H as Hw. apply writer_records_Ok in H as [-> _]. done. Qed.

#[export] Hint Resolve effective_le : petrus.

(** ** Scopes *)

Lemma open_scope_door name at_ s r s' : open_scope name at_ s = (r, s') → door s r s'.
Proof.
  unfold open_scope. intros H. mcheck H.
  apply written_of in Hchk2 as [-> Hw].
  apply bind_extend in H as [(e & -> & Hs)|(s1 & (Hc & Hl & Hh) & H)]; [by left|].
  repeat mstep H. injection H as <- <-. right. split; [done|]. split; [done|].
  exists [ScopeOpened a1 (effective (live s) at_)]. split; [|exact Hh].
  simpl. rewrite Hl. unfold LifecycleScope_new in Hchk1. inv_ok.
  apply (commit_open _ _ name); [apply effective_le| |done].
  by apply dmem_false.
Qed.

(** An instance with another live state. *)
Definition with_live (s : Instance) (l : Live) : Instance := MkInstance (config s) (store s) l.

Lemma with_live_eta s : with_live s (live s) = s.
Proof. by destruct s. Qed.

Lemma cancel_loop ids s :
  NoDup ids → Forall (λ o, is_Some (dget o (in_flight (live s)))) ids → NoDup (dkeys (in_flight (live s))) →
  for_each ids cancel_occurrence s = (Ok tt, with_live s (foldl cancel_live (live s) ids)).
Proof.
  revert s. induction ids as [|o ids IH]; intros s Hnd Hin Hk; simpl.
  { unfold mret, M_ret. by rewrite with_live_eta. }
  apply NoDup_cons in Hnd as [Ho Hnd]. apply Forall_cons in Hin as [[occ Hocc] Hin].
  unfold cancel_occurrence. rewrite !bind_assoc, bind_self. rewrite bind_assoc, bind_lift. unfold id.
  rewrite Hocc. cbn [or_raise]. rewrite bind_update, IH; simpl.
  - unfold with_live; simpl. by rewrite (cancel_live_Some _ _ _ Hocc).
  - done.
  - rewrite Forall_forall in *. intros o' Ho'. rewrite dget_ddel_ne; [by apply Hin|]. by intros ->.
  - by apply NoDup_dkeys_ddel.
Qed.

Lemma apply_scope_terminal_ok s sc cl r opened :
  instance_ok s → scope_closure (live s) sc = Ok cl →
  apply_movement (queues (live s)) r None = apply_scope_cleanup (queues (live s)) sc (cl_discarded cl) →
  apply_scope_terminal r cl opened s =
  (Ok tt, with_live s (foldl cancel_live
     (set_scope_state (closed_scopes (scope_name sc) opened (scope_state (live s)))
        (set_queues (purge sc (queues (live s))) (live s))) (cl_cancelled cl))).
Proof.
  intros Hok Hcl Hr. pose proof (scope_closure_spec _ _ _ Hcl) as (Ha & Hp & Heq).
  pose proof (scoped_ids_ok (config s) (live s) Hok sc) as [Hnd Hin].
  assert (cl_cancelled cl = dkeys (scoped (live s) sc)) as Hids
    by (rewrite Heq; simpl; apply (cancelled_ids (config s)), Hok).
  assert (cl_discarded cl = scope_entries (queues (live s)) sc) as Hdis by by rewrite Heq.
  assert (scope_name (cl_scope cl) = scope_name sc) as Hname by by rewrite Heq.
  unfold apply_scope_terminal. rewrite bind_self, bind_lift. unfold id.
  rewrite Hr, Hdis, (apply_scope_cleanup_purge _ (next_entry (live s))) by apply Hok.
  rewrite bind_update. cbv zeta. rewrite bind_lift, Hname.
  assert (dmem (scope_name sc) (active_scopes (scope_state (live s))) = true) as Hm.
  { apply dmem_true, dget_is_Some. unfold scope_active in Ha. apply bool_decide_eq_true in Ha. eauto. }
  rewrite Hm. cbn [negb raise_if]. rewrite bind_update. rewrite Hids.
  assert (∀ l1, in_flight l1 = in_flight (live s) →
    for_each (dkeys (scoped (live s) sc)) cancel_occurrence (with_live s l1)
    = (Ok tt, with_live s (foldl cancel_live l1 (dkeys (scoped (live s) sc))))) as Hloop.
  { intros l1 Hl1. rewrite cancel_loop; [done|done| |]; simpl; rewrite Hl1; [|apply Hok].
    eapply Forall_impl; [exact Hin|]. by intros o [? _]. }
  destruct opened as [sc2|].
  - rewrite bind_update. match goal with |- for_each _ _ (MkInstance _ _ ?l1) = _ => exact (Hloop l1 eq_refl) end.
  - rewrite bind_ret. match goal with |- for_each _ _ (MkInstance _ _ ?l1) = _ => exact (Hloop l1 eq_refl) end.
Qed.

Lemma close_scope_door sc at_ s r s' : instance_ok s → close_scope sc at_ s = (r, s') → door s r s'.
Proof.
  unfold close_scope. intros Hok H. mcheck H. unfold id in *. rename a into cl.
  apply written_of in Hchk0 as [-> Hw].
  apply bind_extend in H as [(e & -> & Hs)|(s1 & (Hc & Hl & Hh) & H)]; [by left|].
  apply bind_inv in H as [([] & s2 & Hterm & H)|(e & Hterm & ->)];
    (rewrite (apply_scope_terminal_ok s1 sc cl) in Hterm;
       [|unfold instance_ok; by rewrite Hc, Hl|by rewrite Hl|done]); [|done].
  injection Hterm as <-. repeat mstep H. injection H as <- <-.
  right. split; [done|]. split; [done|]. eexists. split; [|exact Hh].
  simpl. rewrite Hl. by apply commit_close; [apply effective_le|..].
Qed.

Lemma reset_scope_door sc at_ s r s' : instance_ok s → reset_scope sc at_ s = (r, s') → door s r s'.
Proof.
  unfold reset_scope. intros Hok H. mcheck H. unfold id in *. rename a into cl, a0 into opened.
  apply written_of in Hchk1 as [-> Hw].
  apply bind_extend in H as [(e & -> & Hs)|(s1 & (Hc & Hl & Hh) & H)]; [by left|].
  apply bind_inv in H as [([] & s2 & Hterm & H)|(e & Hterm & ->)];
    (rewrite (apply_scope_terminal_ok s1 sc cl) in Hterm;
       [|unfold instance_ok; by rewrite Hc, Hl|by rewrite Hl|done]); [|done].
  injection Hterm as <-. repeat mstep H. injection H as <- <-.
  right. split; [done|]. split; [done|]. eexists. split; [|exact Hh].
  simpl. rewrite Hl. by eapply commit_reset; [apply effective_le|..].
Qed.

(** ** Beginning *)

Lemma move_loop recs s qs :
  foldM move (queues (live s)) recs = Ok qs →
  for_each recs (λ r, l ← self id; qs ← lift (apply_movement (queues l) r None); update (set_queues qs)) s
  = (Ok tt, with_live s (set_queues qs (live s))).
Proof.
  revert s. induction recs as [|r recs IH]; intros s H; simpl in *.
  { injection H as <-. unfold mret, M_ret, with_live. by destruct s as [? ? []]. }
  apply bind_Ok in H as (qs1 & Hr & H). unfold move in Hr.
  rewrite bind_assoc, bind_self. unfold id. rewrite bind_assoc, bind_lift, Hr, bind_update.
  rewrite IH; [done|]. exact H.
Qed.

Lemma begin_occurrence_spec b at_ initiation invocation scope s r s' :
  begin_occurrence b at_ initiation invocation scope s = (r, s') →
  (same s s' ∧ is_ok r = false) ∨
  ∃ occ batch qs,
    r = Ok occ ∧ config s' = config s ∧ history s' = history s ++ batch ∧
    begin_batch (live s) b (effective (live s) at_) initiation invocation scope = Ok (batch, occ) ∧
    foldM move (queues (live s)) (occ_records occ) = Ok qs ∧
    live s' = begun_live occ qs (effective (live s) at_) (live s).
Proof.
  unfold begin_occurrence. intros H. rewrite bind_self, bind_lift in H. unfold id in H. cbv zeta in H.
  destruct (begin_batch _ _ _ _ _ _) as [[batch occ]|e] eqn:Hb; [|injection H as <- <-; left; done].
  cbv beta iota in H.
  apply bind_extend in H as [(e & -> & Hs)|(s1 & (Hc & Hl & Hh) & H)]; [by left|]. right.
  destruct (begin_batch_spec _ _ _ _ _ _ _ _ Hb) as (movements & qs & Hbb).
  pose proof (bb_moved _ _ _ _ _ _ _ _ _ _ Hbb) as Hmv.
  exists occ, batch, qs. repeat mstep H.
  apply bind_inv in H as [([] & s2 & Hloop & H)|(e & Hloop & ->)];
    (rewrite (move_loop _ _ qs) in Hloop; [|simpl; by rewrite Hl]); [|done].
  injection Hloop as <-. repeat mstep H. simpl in H. unfold begun_live. rewrite Hl in H.
  destruct (occ_invocation occ); repeat mstep H; simpl in H; unfold mret, M_ret in H; simplify_eq;
    simpl; split_and!; done.
Qed.

Lemma begin_door b at_ s r s' : begin b at_ s = (r, s') → door s r s'.
Proof.
  unfold begin. intros H. mcheck H. unfold id in *.
  destruct a, a0, a1, a2. rename a3 into invocation.
  unfold try_with in H.
  destruct (begin_occurrence _ _ _ _ _ s) as [r1 s1] eqn:Hb.
  apply begin_occurrence_spec in Hb as [[Hs Hr]|(occ & batch & qs & -> & Hc & Hh & Hbb & Hmv & Hl)].
  - destruct r1 as [|e]; [done|]. left. destruct e; injection H as <- <-; done.
  - injection H as <- <-. right. split; [done|]. split; [done|]. exists batch. split; [|done].
    rewrite Hl. inv_ok. eapply commit_selected; try done; auto with petrus.
    + by apply negb_false_iff in Hchk.
    + apply negb_false_iff, bool_decide_eq_true in Hchk1. done.
Qed.

(** ** Terminal reports *)

Lemma quarantine_door occ outcome at_ s r s' :
  instance_ok s → quarantine_terminal occ outcome at_ s = (r, s') → door s r s'.
Proof.
  unfold quarantine_terminal. intros Hok H. rewrite bind_self in H. unfold id in H. cbv zeta in H.
  destruct (dget (occ_id occ) (cancelled (live s))) as [recorded|] eqn:Hcan;
    [|injection H as <- <-; apply door_same].
  destruct (occ_invocation occ) eqn:Hinv; [|injection H as <- <-; apply door_same].
  destruct (occ_scope occ) as [scope|] eqn:Hsc; [|injection H as <- <-; apply door_same].
  mcheck H. inv_ok. apply negb_false_iff in Hchk.
  destruct (dget (occ_id occ) (quarantined_activity (live s))) as [prior|] eqn:Hq.
  { destruct (same_text prior outcome); injection H as <- <-; apply door_same. }
  mcheck H. apply written_of in Hchk0 as [-> Hw].
  apply bind_extend in H as [(e & -> & Hs)|(s1 & (Hc & Hl & Hh) & H)]; [by left|].
  repeat mstep H. injection H as <- <-. right. split; [done|]. split; [done|].
  eexists. split; [|exact Hh]. simpl. rewrite Hl.
  destruct (ok_cancelled _ _ Hok _ _ Hcan) as (Hid & _).
  apply occurrence_eq_spec in Hchk as (_ & Hs & Ht & _).
  rewrite <-Hid, <-Ht in *. apply commit_quarantined; [apply effective_le|done|by rewrite Hs|done|done].
Qed.

Lemma acknowledge_result_same t d s r s' : acknowledge_result t d s = (r, s') → s' = s.
Proof. unfold acknowledge_result. destruct t; [destruct (same_text _ _)|]; by intros [= <- <-]. Qed.

Lemma acknowledge_failure_same t f s r s' : acknowledge_failure t f s = (r, s') → s' = s.
Proof. unfold acknowledge_failure. destruct t; [|destruct (same_failure _ _)]; by intros [= <- <-]. Qed.

Lemma record_activity_completion_door occ value at_ s r s' :
  instance_ok s → record_activity_completion occ value at_ s = (r, s') → door s r s'.
Proof.
  unfold record_activity_completion. intros Hok H. rewrite bind_self in H. unfold id in H. cbv zeta in H.
  destruct (dmem (occ_id occ) (cancelled (live s))).
  { mcheck H. by eapply quarantine_door. }
  destruct (dget (occ_id occ) (terminal_activity (live s))) eqn:Hterm.
  { mcheck H. apply acknowledge_result_same in H as ->. apply door_same. }
  mcheck H. destruct a. inv_ok. apply bool_decide_eq_false in Hchk0.
  destruct (dget (occ_id occ) (frozen_results (live s))) eqn:Hf.
  { apply acknowledge_result_same in H as ->. apply door_same. }
  mcheck H. apply written_of in Hchk2 as [-> Hw].
  apply bind_extend in H as [(e & -> & Hs)|(s1 & (Hc & Hl & Hh) & H)]; [by left|].
  repeat mstep H. injection H as <- <-. right. split; [done|]. split; [done|].
  eexists. split; [|exact Hh]. simpl. rewrite Hl.
  destruct (ensure_in_flight_spec _ _ Hchk) as (live_occ & Hin & Heq).
  destruct (ok_in_flight _ _ Hok _ _ Hin) as (Hid & _).
  apply occurrence_eq_spec in Heq as (_ & _ & Ht & Hinv).
  rewrite <-Hid, <-Ht in *. apply commit_activity_completed; try done; auto with petrus.
  apply Hinv. by destruct (occ_invocation occ); eauto.
Qed.

Lemma record_activity_failure_spec occ f at_ s r s' :
  instance_ok s → valid_failure f → record_activity_failure occ f at_ s = (r, s') →
  door s r s' ∧
  (is_ok r = true → ensure_in_flight (live s) occ = Ok tt → dget (occ_id occ) (frozen_results (live s)) = None →
   dget (occ_id occ) (frozen_results (live s')) = Some (TFailure f) ∧ in_flight (live s') = in_flight (live s)).
Proof.
  unfold record_activity_failure. intros Hok Hv H. rewrite bind_self in H. unfold id in H. cbv zeta in H.
  destruct (dmem (occ_id occ) (cancelled (live s))) eqn:Hcan.
  { split; [by eapply quarantine_door|]. intros _ (live_occ & Hin & _)%ensure_in_flight_spec _.
    apply dmem_true, dget_is_Some in Hcan as [? Hcan]. apply (ok_cancelled _ _ Hok) in Hcan as (_ & _ & ?). congruence. }
  destruct (dget (occ_id occ) (terminal_activity (live s))) eqn:Hterm.
  { apply acknowledge_failure_same in H as ->. split; [apply door_same|].
    intros _ (live_occ & Hin & _)%ensure_in_flight_spec _.
    apply (ok_terminal _ _ Hok) in Hterm as (_ & ?). congruence. }
  rewrite bind_lift in H. destruct (ensure_in_flight (live s) occ) as [[]|e] eqn:Hens;
    [|injection H as <- <-; split; [apply door_same|done]].
  rewrite bind_lift in H. destruct (raise_if _ _) as [[]|e] eqn:Hpure;
    [|injection H as <- <-; split; [apply door_same|done]].
  inv_ok. apply bool_decide_eq_false in Hpure.
  destruct (dget (occ_id occ) (frozen_results (live s))) eqn:Hf.
  { apply acknowledge_failure_same in H as ->. split; [apply door_same|done]. }
  rewrite bind_lift in H. destruct (writer_records _) as [batch|e] eqn:Hw;
    [|injection H as <- <-; split; [apply door_same|done]].
  apply written_of in Hw as [-> Hw].
  apply bind_extend in H as [(e & -> & Hs)|(s1 & (Hc & Hl & Hh) & H)]; [split; [by left|done]|].
  repeat mstep H. unfold valid_failure in Hv. rewrite Hv in H. repeat mstep H. injection H as <- <-.
  simpl. rewrite Hl. split; [|intros _ _ _; by rewrite dget_dset_eq].
  right. split; [done|]. split; [done|]. eexists. split; [|exact Hh]. simpl.
  destruct (ensure_in_flight_spec _ _ Hens) as (live_occ & Hin & Heq).
  destruct (ok_in_flight _ _ Hok _ _ Hin) as (Hid & _).
  apply occurrence_eq_spec in Heq as (_ & _ & Ht & Hinv).
  rewrite <-Hid, <-Ht in *. apply commit_activity_failed; try done; auto with petrus.
  apply Hinv. by destruct (occ_invocation occ); eauto.
Qed.

(** ** Completion *)

Lemma deposit_each minted o sc i s qs :
  foldM (λ qs ee, apply_movement qs (produced_record o sc i ee) (Some ee.2)) (queues (live s)) minted = Ok qs →
  for_each minted (λ ee, l ← self (λ l, l);
     qs ← lift (apply_movement (queues l) (produced_record o sc i ee) (Some ee.2)); update (set_queues qs)) s
  = (Ok tt, with_live s (set_queues qs (live s))).
Proof.
  revert s. induction minted as [|ee minted IH]; intros s H.
  { injection H as <-. unfold mret, M_ret, with_live. by destruct s as [? ? []]. }
  apply bind_Ok in H as (qs1 & Hr & H). cbn [for_each].
  rewrite bind_assoc, bind_self. unfold id. rewrite bind_assoc, bind_lift, Hr, bind_update.
  rewrite IH; [done|]. exact H.
Qed.

Lemma retire_frozen_spec o f s :
  dget o (frozen_results (live s)) = Some f →
  retire_frozen o s = (Ok tt, with_live s (set_terminal_activity (dset o f (terminal_activity (live s)))
                                 (set_frozen_results (ddel o (frozen_results (live s))) (live s)))).
Proof. intros H. unfold retire_frozen. rewrite bind_self, bind_lift. unfold id. by rewrite H. Qed.

Lemma leave_in_flight_spec o s :
  is_Some (dget o (in_flight (live s))) →
  leave_in_flight o s = (Ok tt, with_live s (set_in_flight (ddel o (in_flight (live s))) (live s))).
Proof.
  intros H. unfold leave_in_flight. rewrite bind_self, bind_lift. unfold id.
  rewrite (proj2 (dmem_true o (in_flight (live s)))); [done|]. by apply dget_is_Some.
Qed.

(** The end of an occurrence: retire its frozen fact, leave the in-flight set. *)
Lemma end_spec occ retired s :
  is_retired (live s) occ retired → is_Some (dget (occ_id occ) (in_flight (live s))) →
  ((match occ_invocation occ with Some _ => retire_frozen (occ_id occ) | None => mret tt end);;
   leave_in_flight (occ_id occ)) s
  = (Ok tt, with_live s (ended_live (occ_id occ) retired (live s))).
Proof.
  unfold is_retired, ended_live. intros Hr Hin. destruct (occ_invocation occ).
  - destruct Hr as [-> [f Hf]]. unfold mbind, M_bind. rewrite (retire_frozen_spec _ f) by done.
    rewrite leave_in_flight_spec by done. by rewrite Hf.
  - subst. rewrite bind_ret. by rewrite leave_in_flight_spec.
Qed.

Lemma projected_retired c l occ supplied env :
  projected_result c l occ supplied = Ok env →
  ∃ retired, is_retired l occ retired.
Proof.
  unfold projected_result, is_retired. destruct (occ_invocation occ); [|eauto].
  intros H. inv_ok. eexists. split; [reflexivity|]. by rewrite H1; eauto.
Qed.

Lemma bind_try_extend {B} (batch : list HRecord) (f : unit → M B) s r s' :
  (try_with (extend batch) (λ e, raise (CommitRefused e)) ≫= f) s = (r, s') →
  (∃ e, r = Err (CommitRefused e) ∧ same s s') ∨ (∃ s1, stored batch s s1 ∧ f tt s1 = (r, s')).
Proof.
  unfold mbind, M_bind, try_with, extend. destruct (st_refusals (store s)) as [|[e'|] rest]; intros H.
  - right. eexists. split; [|exact H]. done.
  - injection H as <- <-. left. exists e'. repeat split.
  - right. eexists. split; [|exact H]. done.
Qed.

Lemma commit_completion_door occ supplied at_ s r s' :
  instance_ok s → commit_completion occ supplied at_ s = (r, s') → door s r s'.
Proof.
  unfold commit_completion. intros Hok H. rewrite bind_cfg, bind_self, bind_lift in H.
  unfold id in H. cbv zeta in H.
  destruct (completion_batch _ _ _ _ _) as [[[[armed' minted] cursor] batch]|e] eqn:Hb;
    [|injection H as <- <-; apply door_same].
  cbv beta iota in H.
  apply bind_try_extend in H as [(e & -> & Hs)|(s1 & (Hc & Hl & Hh) & H)]; [by left|].
  pose proof Hb as Hspec.
  apply completion_batch_spec in Hspec as (env & effects & m' & He & Hp & _ & _ & -> & -> & _ & _).
  destruct (projected_retired _ _ _ _ _ Hp) as [retired Hret].
  destruct (ensure_in_flight_spec _ _ He) as (live_occ & Hin & _).
  repeat mstep H. rewrite Hl in H.
  apply bind_inv in H as [([] & s2 & Hloop & H)|(e & Hloop & ->)];
    (erewrite deposit_each in Hloop; [|exact (deposit_loop _ _ _ _ _ _ (ok_queues _ _ Hok) (ok_next_entry _ _ Hok))]); [|done].
  injection Hloop as <-. rewrite bind_update in H. simpl in H.
  rewrite <-bind_assoc in H.
  apply bind_inv in H as [([] & s2 & Hend & H)|(e & Hend & ->)];
    (rewrite (end_spec occ retired) in Hend; [|exact Hret|simpl; eauto]); [|done].
  injection Hend as <-. injection H as <- <-.
  right. split; [done|]. split; [done|]. exists batch. split; [|done]. simpl.
  by eapply commit_completed; [apply effective_le|exact Hb|].
Qed.

Lemma complete_door occ supplied at_ s r s' :
  instance_ok s → complete occ supplied at_ s = (r, s') → door s r s'.
Proof.
  unfold complete, try_with. intros Hok H.
  destruct (commit_completion occ supplied at_ s) as [r1 s1] eqn:E.
  apply commit_completion_door in E; [|done].
  destruct r1 as [a|e]; [by injection H as <- <-|].
  apply door_raise in E. left. unfold unwrap_refusal in H. destruct e; by injection H as <- <-.
Qed.

(** ** Failure and inline execution *)

Lemma failure_arg_valid error f :
  (∀ g, error = inr g → valid_failure g) →
  match error with inr f => Ok f | inl text => failure_of_text text end = Ok f → valid_failure f.
Proof.
  intros Hv. destruct error as [text|g].
  - apply ActivityFailure_new_valid.
  - intros [= <-]. by apply Hv.
Qed.

Lemma same_ok s s' : same s s' → instance_ok s → instance_ok s'.
Proof. unfold instance_ok. by intros (-> & -> & _). Qed.

Lemma fail_isteps occ error at_ s r s' :
  instance_ok s → (∀ g, error = inr g → valid_failure g) →
  fail occ error at_ s = (r, s') → isteps s s'.
Proof.
  unfold fail. intros Hok Hv H. rewrite bind_cfg, bind_self in H. unfold id in H. cbv zeta in H.
  rewrite bind_lift in H. destruct (ensure_in_flight (live s) occ) as [[]|e] eqn:Hens;
    [|injection H as <- <-; by constructor].
  rewrite bind_lift in H.
  match type of H with context [match ?m with Ok _ => _ | Err _ => _ end] =>
    destruct m as [failure|e] eqn:Hfail; [|injection H as <- <-; by constructor] end.
  apply failure_arg_valid in Hfail; [|done].
  rewrite bind_lift in H.
  match type of H with context [match ?m with Ok _ => _ | Err _ => _ end] =>
    destruct m as [[]|e] eqn:Hfrz; [|injection H as <- <-; by constructor] end.
  apply bind_inv in H as [([] & s1 & Hrec & H)|(e & Hrec & ->)].
  2:{ destruct (_ && _); [|done].
      apply bind_inv in Hrec as [(d & s2 & Hrec & H)|(e' & Hrec & [= <-])]; [done|].
      apply record_activity_failure_spec in Hrec as [Hd _]; [|done|done]. by eapply door_isteps. }
  assert (isteps s s1 ∧ instance_ok s1 ∧ config s1 = config s ∧ in_flight (live s1) = in_flight (live s) ∧
          (is_Some (occ_invocation occ) → is_Some (dget (occ_id occ) (frozen_results (live s1))))) as
    (Hst & Hok1 & Hc1 & Hin1 & Hf1).
  { destruct (bool_decide (is_Some (occ_invocation occ)) && negb (dmem (occ_id occ) (frozen_results (live s)))) eqn:Hb.
    - apply andb_true_iff in Hb as [_ Hb]. apply negb_true_iff, dmem_false in Hb.
      apply bind_inv in Hrec as [(d & s2 & Hrec & [= <-])|(e' & Hrec & ?)]; [|done].
      apply record_activity_failure_spec in Hrec as [Hd Hfr]; [|done|done].
      destruct (Hfr eq_refl Hens Hb) as [Hf1 Hif]. pose proof (door_isteps _ _ _ Hd) as Hst.
      split; [done|]. split; [by eapply isteps_ok|]. split; [by eapply isteps_config|].
      split; [done|]. intros _. rewrite Hf1. eauto.
    - injection Hrec as <-. split; [by constructor|]. split; [done|]. split; [done|]. split; [done|].
      intros Hs. apply andb_false_iff in Hb as [Hb|Hb]; [by apply bool_decide_eq_false in Hb|].
      apply negb_false_iff, dmem_true in Hb. by apply dget_is_Some. }
  etrans; [exact Hst|]. clear Hrec Hst.
  rewrite bind_lift in H. destruct (bound_handler _ _) as [h|e]; [|injection H as <- <-; by constructor].
  destruct (ensure_in_flight_spec _ _ Hens) as (live_occ & Hlive & Heq).
  destruct (bool_decide (is_Some (occ_invocation occ)) && projects_failure h).
  { apply bind_inv in H as [(d & s2 & Hd & [= <- <-])|(e & Hd & ->)];
      apply complete_door in Hd; try done; by eapply door_isteps. }
  rewrite bind_self in H. unfold id in H. cbv zeta in H. rewrite bind_lift in H.
  destruct (writer_records _) as [batch|e] eqn:Hw; [|injection H as <- <-; by constructor].
  apply written_of in Hw as [-> Hw].
  apply bind_extend in H as [(e & -> & Hs)|(s2 & (Hc2 & Hl2 & Hh2) & H)].
  { apply (door_isteps (Err e : result unit)). by left. }
  repeat mstep H.
  assert (∃ retired, is_retired (live s1) occ retired) as [retired Hret].
  { unfold is_retired. destruct (occ_invocation occ); [|eauto]. eexists. split; [reflexivity|].
    apply Hf1. eauto. }
  assert ((if bool_decide (is_Some (occ_invocation occ)) then retire_frozen (occ_id occ) else mret tt)
          = match occ_invocation occ with Some _ => retire_frozen (occ_id occ) | None => mret tt end) as Hif.
  { destruct (occ_invocation occ); [by rewrite bool_decide_true by eauto|].
    rewrite bool_decide_false; [done|]. by intros [? ?]. }
  rewrite Hif in H.
  rewrite (end_spec occ retired) in H; [|simpl; by rewrite Hl2|simpl; rewrite Hl2, Hin1; eauto].
  injection H as <- <-.
  apply (door_isteps (Ok tt)). right. split; [done|]. split; [done|].
  eexists. split; [|exact Hh2]. simpl. rewrite Hl2.
  apply commit_failed; [apply effective_le| |done|done].
  unfold ensure_in_flight. rewrite Hin1, Hlive, Heq. done.
Qed.

Lemma execute_isteps occ at_ s r s' : instance_ok s → execute occ at_ s = (r, s') → isteps s s'.
Proof.
  unfold execute. intros Hok H. rewrite bind_cfg, bind_lift in H. unfold id in H.
  destruct (bound_handler _ _) as [[f|h]|e]; [|injection H as <- <-; by constructor..].
  unfold try_with in H.
  destruct ((lift _ ≫= _) s) as [r1 s1] eqn:E. rewrite bind_lift in E.
  assert (isteps s s1 ∧ (is_ok r1 = false → same s s1)) as [Hst Hs].
  { destruct (f _ _) as [value|e].
    - apply commit_completion_door in E; [|done]. split; [by eapply door_isteps|].
      destruct r1; [done|]. intros _. by eapply door_raise.
    - injection E as <- <-. split; [by constructor|done]. }
  destruct r1 as [outcome|e]; [injection H as <- <-; done|].
  etrans; [exact Hst|].
  pose proof (same_ok s s1 (Hs eq_refl) Hok) as Hok1.
  assert (∀ e0, (l ← self id;
            (if dmem (occ_id occ) (in_flight l) then fail occ (inl (firing_failure_text e0)) at_ else mret tt);;
            raise (A:=FiringOutcome) e0) s1 = (r, s') → isteps s1 s') as Hfail.
  { intros e0 H0. rewrite bind_self in H0. unfold id in H0.
    apply bind_inv in H0 as [([] & s2 & Hf & [= <- <-])|(e1 & Hf & ->)];
      destruct (dmem _ _).
    - by eapply fail_isteps; [exact Hok1| |exact Hf].
    - injection Hf as <-. by constructor.
    - by eapply fail_isteps; [exact Hok1| |exact Hf].
    - done. }
  destruct e; try by apply Hfail in H. injection H as <- <-. by constructor.
Qed.

Lemma step_isteps at_ s r s' : instance_ok s → step at_ s = (r, s') → isteps s s'.
Proof.
  unfold step. intros Hok H. rewrite bind_cfg, bind_self, !bind_lift in H. unfold id in H.
  destruct (candidates_at _ _ _) as [enabled|e]; [|injection H as <- <-; by constructor].
  rewrite bind_lift in H.
  destruct (scheduler _ _) as [[b|]|e]; [|injection H as <- <-; by constructor..].
  rewrite bind_lift in H. destruct (bound_handler _ _) as [h|e]; [|injection H as <- <-; by constructor].
  rewrite bind_lift in H. destruct (raise_if _ _) as [[]|e]; [|injection H as <- <-; by constructor].
  apply bind_inv in H as [(occ & s1 & Hb & H)|(e & Hb & ->)];
    apply begin_door, door_isteps in Hb; [|done].
  etrans; [exact Hb|].
  apply bind_inv in H as [(out & s2 & He & [= <- <-])|(e & He & ->)];
    (eapply execute_isteps; [by eapply isteps_ok|exact He]).
Qed.

Lemma run_isteps fuel s r s' : instance_ok s → run fuel s = (r, s') → isteps s s'.
Proof.
  revert s r. induction fuel as [|fuel IH]; intros s r Hok H; simpl in H.
  { injection H as <- <-. by constructor. }
  apply bind_inv in H as [([out|] & s1 & Hst & H)|(e & Hst & ->)]; apply step_isteps in Hst; try done.
  - etrans; [exact Hst|]. apply bind_inv in H as [(rest & s2 & Hr & [= <- <-])|(e & Hr & ->)];
      (eapply IH; [by eapply isteps_ok|exact Hr]).
  - by injection H as <- <-.
Qed.

(** ** Delivery *)

Lemma accept_begin_door path delivered at_ identity scope s r s' :
  dget identity (accepted_identities (live s)) = None → str_empty identity = false →
  dmem path (transitions (net (config s))) = true → is_source (net (config s)) path = true →
  in_active_scope (scope_state (live s)) scope → instance_ok s →
  accept_begin (config s) (live s) path delivered at_ identity scope s = (r, s') → door s r s'.
Proof.
  unfold accept_begin. intros Hfresh Hid Ht Hsrc Hact Hok H. mcheck H. inv_ok.
  unfold Binding_new in Hchk2. simpl in Hchk2. rewrite andb_false_r in Hchk2. inv_ok.
  apply bool_decide_eq_false in Hchk0.
  apply bind_inv in H as [(occ & s1 & Hb & H)|(e & Hb & ->)];
    apply begin_occurrence_spec in Hb as
      [[Hs Hr]|(occ' & batch & qs & Hr & Hc & Hh & Hbb & Hmv & Hl)]; try done; [|by left].
  injection Hr as <-. rewrite bind_update, bind_lift in H.
  assert (AcceptedDelivery_new (instance_id (config s)) (APath path) identity (occ_id occ)
          = Ok (MkAccepted (instance_id (config s)) path identity (occ_id occ))) as Hacc.
  { destruct (begin_batch_spec _ _ _ _ _ _ _ _ Hbb) as (movements & qs' & [Hi _ _ _ _ _ _ _ _ _ _ _]).
    unfold AcceptedDelivery_new. rewrite Hchk1, Hid. simpl.
    rewrite raise_if_false; [done|]. apply Z.ltb_ge. rewrite Hi. apply Hok. }
  rewrite Hacc in H. injection H as <- <-.
  right. split; [done|]. split; [done|]. exists batch. split; [|done]. simpl. rewrite Hl.
  assert (watermark (begun_live occ qs (effective (live s) at_) (live s)) = effective (live s) at_) as ->
    by (unfold begun_live; by destruct (occ_invocation occ)).
  assert (accepted_identities (begun_live occ qs (effective (live s) at_) (live s)) = accepted_identities (live s))
    as -> by (unfold begun_live; by destruct (occ_invocation occ)).
  by eapply commit_delivered; eauto with petrus.
Qed.

Lemma scoped_disposition_pair l path delivered identity tgt i :
  ∃ d, scoped_disposition l path delivered identity tgt i
       = ((scoped_disposition l path delivered identity tgt i).1, d).
Proof. destruct (scoped_disposition _ _ _ _ _ _) as [x y]. eauto. Qed.

Lemma accept_new_door path delivered at_ identity target s r s' :
  dget identity (accepted_identities (live s)) = None → str_empty identity = false → instance_ok s →
  accept_new path delivered at_ identity target s = (r, s') → door s r s'.
Proof.
  unfold accept_new. intros Hfresh Hid Hok H. mcheck H. unfold id in *. inv_ok.
  apply negb_false_iff in Hchk, Hchk0.
  destruct target as [tgt|].
  2:{ eapply accept_begin_door; try done. by intros scope [=]. }
  destruct (target_inactive (live s) tgt) eqn:Hin.
  2:{ eapply accept_begin_door; try done. destruct tgt as [sc|]; [|by intros scope [=]].
      intros scope [= <-]. simpl in Hin. by apply negb_false_iff in Hin. }
  destruct (scoped_disposition_pair (live s) path delivered identity tgt (effective (live s) at_)) as [d Hd].
  cbv zeta in H. rewrite Hd in H. cbv beta iota in H. mcheck H.
  apply written_of in Hchk1 as [-> Hw].
  apply bind_extend in H as [(e & -> & Hs)|(s1 & (Hc & Hl & Hh) & H)]; [by left|].
  repeat mstep H. injection H as <- <-. right. split; [done|]. split; [done|].
  eexists. split; [|exact Hh]. simpl. rewrite Hl.
  by apply (commit_disposed _ _ path delivered identity tgt); eauto with petrus.
Qed.

Lemma accept_delivery_door source tokens at_ identity target s r s' :
  instance_ok s → accept_delivery source tokens at_ identity target s = (r, s') → door s r s'.
Proof.
  unfold accept_delivery. intros Hok H. mcheck H. unfold id in *. inv_ok.
  destruct (dget identity (accepted_identities (live s))) eqn:Hacc.
  - injection H as _ <-. apply door_same.
  - by eapply accept_new_door.
Qed.

Lemma complete_delivery_isteps a at_ s r s' :
  instance_ok s → complete_delivery a at_ s = (r, s') → isteps s s'.
Proof.
  unfold complete_delivery. intros Hok H.
  rewrite bind_lift in H. destruct (AcceptedDelivery_new _ _ _ _) as [a'|e]; [|injection H as <- <-; by constructor].
  rewrite bind_cfg, bind_self, bind_lift in H. unfold id in H.
  destruct (raise_if _ _) as [[]|e]; [|injection H as <- <-; by constructor].
  destruct (dget _ (in_flight (live s))) as [occ|]; [|injection H as <- <-; by constructor].
  rewrite bind_lift in H. destruct (bound_handler _ _) as [h|e]; [|injection H as <- <-; by constructor].
  rewrite bind_lift in H. destruct (raise_if _ _) as [[]|e]; [|injection H as <- <-; by constructor].
  rewrite bind_lift in H. destruct (raise_if _ _) as [[]|e]; [|injection H as <- <-; by constructor].
  rewrite bind_lift in H. destruct (raise_if _ _) as [[]|e]; [|injection H as <- <-; by constructor].
  by eapply execute_isteps.
Qed.

(** ** Registrations and time *)

Lemma seal_door source at_ s r s' : seal source at_ s = (r, s') → door s r s'.
Proof.
  unfold seal. intros H. mcheck H. unfold id in *. inv_ok.
  apply negb_false_iff in Hchk0, Hchk1. apply bool_decide_eq_false in Hchk3.
  apply written_of in Hchk4 as [-> Hw].
  apply bind_extend in H as [(e & -> & Hs)|(s1 & (Hc & Hl & Hh) & H)]; [by left|].
  repeat mstep H. injection H as <- <-.
  right. split; [done|]. split; [done|]. eexists. split; [|exact Hh]. simpl. rewrite Hl.
  by apply commit_sealed; eauto with petrus.
Qed.

Lemma wake_door at_ s r s' : wake at_ s = (r, s') → door s r s'.
Proof.
  unfold wake. intros H. apply bind_inv in H as [(pending & s1 & Hp & H)|(e & Hp & ->)];
    injection Hp as Hp <-; [|apply door_same].
  rewrite bind_self in H. unfold id in H. cbv zeta in H.
  destruct pending as [m|]; [|injection H as <- <-; apply door_same].
  destruct (_ <? m)%Z; [injection H as <- <-; apply door_same|].
  mcheck H. apply written_of in Hchk as [-> Hw].
  apply bind_extend in H as [(e & -> & Hs)|(s2 & (Hc & Hl & Hh) & H)]; [by left|].
  repeat mstep H. injection H as <- <-. right. split; [done|]. split; [done|].
  eexists. split; [|exact Hh]. simpl. rewrite Hl. apply commit_matured; [|done].
  apply (effective_le _ (Some at_)).
Qed.
