(* ===== verification/Coherence.v ===== *)
(** * Live state is the projection of the history: queues, clock, identities, scopes

    For each piece of live state the constructor and every commit keep it equal
    to the replay fold of the whole history. *)

From stdpp Require Import base gmap sets list strings pretty.
From Stdlib Require Import Ascii ZArith Lia.
From S2P Require Import Prelude PyData Schema Marking Enabledness Firing Activity Records Replay Lifecycle Instance Construction Commit Invariant.
Open Scope string_scope.
Open Scope list_scope.

(** ** The shape of a batch *)

(** A commit appends records of one instant, the new watermark. *)
Lemma commit_instants c l batch l' :
  commit c l batch l' →
  batch ≠ [] ∧ Forall (λ r, rec_instant r = watermark l') batch ∧ (watermark l ≤ watermark l')%Z.
Proof.
  assert (∀ i initiation inv b scope batch occ movements qs,
    begun_by l b i initiation inv scope batch occ movements qs → (∀ o, rec_instant (initiation o i) = i) →
    batch ≠ [] ∧ Forall (λ r, rec_instant r = i) batch) as Hbegin.
  { intros i initiation inv b scope batch0 occ movements qs Hbb Hini. destruct Hbb as [_ _ -> _ _ Hrec Hn _ _ _ _ _].
    split; [done|]. constructor; [apply Hini|]. rewrite Hrec. constructor; [done|]. apply Forall_app. split.
    - destruct Hn as (sel & inf & _ & Hm). apply mapR_Ok in Hm.
      apply Forall_forall. intros r Hr. apply list_elem_of_lookup in Hr as [k Hk].
      eapply Forall2_lookup_r in Hm as (es & _ & Hes); [|exact Hk].
      apply narrate_Ok in Hes as [_ ->]. by destruct es as [[]].
    - destruct inv; repeat constructor. }
  destruct 1; try (split; [done|split; [by repeat constructor|done]]).
  - destruct (begin_batch_spec _ _ _ _ _ _ _ _ H5) as (movements & qs' & Hbb).
    destruct (Hbegin _ _ _ _ _ _ _ _ _ Hbb) as [? ?]; [done|].
    unfold begun_live. destruct (occ_invocation occ); simpl; done.
  - destruct (begin_batch_spec _ _ _ _ _ _ _ _ H6) as (movements & qs' & Hbb).
    destruct (Hbegin _ _ _ _ _ _ _ _ _ Hbb) as [? ?]; [done|].
    unfold begun_live. destruct (occ_invocation occ); simpl; done.
  - apply completion_batch_spec in H0 as (env & effects & m' & _ & _ & _ & _ & _ & _ & -> & _).
    assert (watermark (completed_live (occ_id occ) retired (occ_scope occ) minted cursor armed' i l) = i) as ->
      by (unfold completed_live, ended_live; by destruct retired).
    split; [by destruct (produced_record _ _ _ <$> minted), (closed_record _ _ <$> _), (opened_record _ _ <$> _)|].
    split; [|done]. rewrite !Forall_app. split_and!; [apply Forall_fmap, Forall_true; done..|by repeat constructor].
  - unfold ended_live. destruct retired; simpl; (split; [done|split; [by repeat constructor|done]]).
  - split; [done|]. split; [|done]. repeat constructor. subst r. unfold scoped_disposition.
    by repeat case_match.
  - split; [|split; [|done]].
    + intros Hnil. apply H3. apply fmap_nil_inv in Hnil.
      assert (elements keys = []) as He.
      { apply Permutation_nil_r. rewrite <-(sorted_by_perm str_leb (elements keys)). by rewrite Hnil. }
      apply elements_empty_inv in He. by apply leibniz_equiv.
    + apply Forall_fmap, Forall_true. done.
Qed.

(** ** The clock *)

Lemma watermark_step_ok w r :
  (w ≤ rec_instant r)%Z → watermark_step (Some w) r = Ok (Some (rec_instant r)).
Proof. intros H. unfold watermark_step. by rewrite (proj2 (Z.ltb_ge _ _) H). Qed.

Lemma watermark_batch w i batch :
  batch ≠ [] → Forall (λ r, rec_instant r = i) batch → (w ≤ i)%Z →
  foldM watermark_step (Some w) batch = Ok (Some i).
Proof.
  intros Hne Hall. revert w. induction Hall as [|r batch Hr Hall IH]; intros w Hw; [done|].
  cbn [foldM]. rewrite watermark_step_ok, Hr by (by rewrite Hr). cbn [mbind result_bind].
  destruct batch as [|r' batch]; [done|]. by apply IH.
Qed.

Definition watermark_coherent (h : list HRecord) (l : Live) : Prop :=
  foldM watermark_step None h = Ok (Some (watermark l)).

Lemma watermark_commit c h l batch l' :
  commit c l batch l' → watermark_coherent h l → watermark_coherent (h ++ batch) l'.
Proof.
  intros (Hne & Hall & Hle)%commit_instants Hh. unfold watermark_coherent in *.
  rewrite foldM_app, Hh. simpl. by apply watermark_batch.
Qed.

(** ** The queues *)

Definition queue_coherent (h : list HRecord) (l : Live) : Prop :=
  ∃ spent, replay_queue_state h = Ok (MkQueueState (queues l) (next_entry l) spent) ∧
           ∀ i, i ∈ spent → (i < next_entry l)%Z.

(** Records that deposit nothing. *)
Lemma replay_moves s batch qs :
  Forall (λ r, deposited_entries r = None) batch → foldM move (qs_queues s) batch = Ok qs →
  foldM replay_queue_step s batch = Ok (MkQueueState qs (qs_next s) (qs_spent s)).
Proof.
  intros Hall. revert s. induction Hall as [|r batch Hr Hall IH]; intros s H; simpl in *.
  - injection H as <-. by destruct s.
  - apply bind_Ok in H as (qs1 & Hm & H). unfold replay_queue_step. rewrite Hr. simpl.
    unfold move in Hm. rewrite Hm. simpl. by rewrite IH.
Qed.

Lemma replay_produced o sc i effects qs n spent :
  queues_ok qs n → (1 ≤ n)%Z → (∀ z, z ∈ spent → (z < n)%Z) →
  ∃ spent', foldM replay_queue_step (MkQueueState qs n spent)
              (produced_record o sc i <$> mint_entries n effects)
            = Ok (MkQueueState (foldl (deposit_minted i sc) qs (mint_entries n effects))
                    (minted_cursor n effects) spent')
            ∧ ∀ z, z ∈ spent' → (z < minted_cursor n effects)%Z.
Proof.
  revert qs n spent. induction effects as [|e effects IH]; intros qs n spent Hq Hn Hs; simpl.
  { exists spent. done. }
  set (ts := produced_tokens e).
  assert (replay_ok (MkQueueState qs n spent)) as Hrok by by split.
  rewrite (replay_deposit_step _ _ (produced_place e) ts i
             (match sc with Some _ => zrange n (length ts) | None => [] end) sc Hrok);
    [|done|destruct sc; auto].
  pose proof (deposit_state_ok _ (produced_place e) ts i sc Hrok) as [H1 H2 H3].
  destruct (IH _ _ _ H1 H2 H3) as (spent' & Hf & Hlt). simpl in Hf, Hlt.
  exists spent'. split; [exact Hf|]. exact Hlt.
Qed.

Lemma begun_no_deposits l b i initiation inv scope batch occ movements qs :
  begun_by l b i initiation inv scope batch occ movements qs →
  Forall (λ r, deposited_entries r = None) (occ_records occ).
Proof.
  intros [_ _ _ _ _ Hrec Hn _ _ _ _ _]. rewrite Hrec. constructor; [done|]. apply Forall_app. split.
  - destruct Hn as (sel & inf & _ & Hm). apply mapR_Ok in Hm.
    apply Forall_forall. intros r Hr. apply list_elem_of_lookup in Hr as [k Hk].
    eapply Forall2_lookup_r in Hm as (es & _ & Hes); [|exact Hk].
    apply narrate_Ok in Hes as [_ ->]. by destruct es as [[]].
  - destruct inv; repeat constructor.
Qed.

Lemma completion_tail_no_deposits o i (closes opens : list DeliveryRegistration) t :
  Forall (λ r, deposited_entries r = None)
    ((closed_record o i <$> closes) ++ (opened_record o i <$> opens) ++ [FiringCompleted t o i]).
Proof. rewrite !Forall_app. split_and!; [apply Forall_fmap, Forall_true; done..|by repeat constructor]. Qed.

Lemma foldM_stay {A S} (step : S → HRecord → result S) (f : A → HRecord) s k :
  (∀ x, step s (f x) = Ok s) → foldM step s (f <$> k) = Ok s.
Proof. intros Hf. induction k as [|x k IH]; csimpl; [done|]. by rewrite Hf. Qed.

Lemma completion_tail_moves qs o i (closes opens : list DeliveryRegistration) t :
  foldM move qs ((closed_record o i <$> closes) ++ (opened_record o i <$> opens) ++ [FiringCompleted t o i]) = Ok qs.
Proof.
  rewrite foldM_app, foldM_stay by done. simpl. rewrite foldM_app, foldM_stay by done. done.
Qed.

Lemma begun_live_queues occ qs i l :
  queues (begun_live occ qs i l) = qs ∧ next_entry (begun_live occ qs i l) = next_entry l.
Proof. unfold begun_live. by destruct (occ_invocation occ). Qed.

Lemma completed_live_queues o retired sc minted cursor armed' i l :
  queues (completed_live o retired sc minted cursor armed' i l) = foldl (deposit_minted i sc) (queues l) minted ∧
  next_entry (completed_live o retired sc minted cursor armed' i l) = cursor.
Proof. unfold completed_live, ended_live. by destruct retired. Qed.

Lemma foldM_single {A B} (f : B → A → result B) b a : foldM f b [a] = f b a.
Proof. simpl. by destruct (f b a). Qed.

Lemma queue_commit c h l batch l' :
  live_ok c l → commit c l batch l' → queue_coherent h l → queue_coherent (h ++ batch) l'.
Proof.
  intros Hok Hc (spent & Hh & Hs). unfold queue_coherent, replay_queue_state in *.
  setoid_rewrite foldM_app. rewrite Hh. cbn [mbind result_bind].
  set (s := MkQueueState (queues l) (next_entry l) spent).
  assert (Hstay : queues l' = queues l → next_entry l' = next_entry l →
    Forall (λ r, deposited_entries r = None) batch → foldM move (queues l) batch = Ok (queues l) →
    ∃ spent0, foldM replay_queue_step s batch = Ok (MkQueueState (queues l') (next_entry l') spent0) ∧
              ∀ i, i ∈ spent0 → (i < next_entry l')%Z).
  { intros Hq Hn Hd Hm. exists spent. rewrite Hq, Hn. split; [|done].
    by rewrite (replay_moves s batch (queues l)). }
  assert (Hbegin : ∀ b i initiation inv scope occ movements qs,
    begun_by l b i initiation inv scope batch occ movements qs →
    (∀ o, deposited_entries (initiation o i) = None ∧ ∀ qs, move qs (initiation o i) = Ok qs) →
    foldM replay_queue_step s batch = Ok (MkQueueState qs (next_entry l) spent)).
  { intros b i initiation inv scope occ movements qs Hbb Hini.
    pose proof (begun_no_deposits _ _ _ _ _ _ _ _ _ _ Hbb) as Hd.
    destruct Hbb as [_ _ -> _ _ _ _ Hm _ _ _ _]. apply (replay_moves s).
    - constructor; [apply Hini|done].
    - simpl. rewrite (proj2 (Hini _)). exact Hm. }
  destruct Hc; try (apply Hstay; [done|done|by repeat constructor|done]).
  - exists spent. rewrite (closed_live_eq c l Hok) by done. split; [|done].
    apply scope_closure_spec in H0 as (_ & _ & ->).
    refine (replay_moves s [r] (purge sc (queues l)) _ _); [by repeat constructor|].
    rewrite foldM_single. exact (apply_scope_cleanup_purge _ _ sc (ok_queues _ _ Hok)).
  - exists spent. rewrite (closed_live_eq c l Hok) by done. split; [|done].
    apply scope_closure_spec in H0 as (_ & _ & ->).
    refine (replay_moves s [r] (purge sc (queues l)) _ _); [by repeat constructor|].
    rewrite foldM_single. exact (apply_scope_cleanup_purge _ _ sc (ok_queues _ _ Hok)).
  - destruct (begin_batch_spec _ _ _ _ _ _ _ _ H5) as (movements & qs' & Hbb).
    assert (qs' = qs) as -> by (pose proof (bb_moved _ _ _ _ _ _ _ _ _ _ Hbb); congruence).
    destruct (begun_live_queues occ qs i l) as [-> ->]. exists spent. split; [|done]. by eapply Hbegin.
  - destruct (begin_batch_spec _ _ _ _ _ _ _ _ H6) as (movements & qs' & Hbb).
    assert (qs' = qs) as -> by (pose proof (bb_moved _ _ _ _ _ _ _ _ _ _ Hbb); congruence).
    simpl. destruct (begun_live_queues occ qs i l) as [-> ->]. exists spent. split; [|done]. by eapply Hbegin.
  - apply completion_batch_spec in H0 as (env & effects & m' & _ & _ & _ & _ & -> & -> & -> & _).
    destruct (completed_live_queues (occ_id occ) retired (occ_scope occ) (mint_entries (next_entry l) effects)
                (minted_cursor (next_entry l) effects) armed' i l) as [-> ->].
    destruct (replay_produced (occ_id occ) (occ_scope occ) i effects (queues l) (next_entry l) spent)
      as (spent' & Hf & Hlt); [apply Hok|apply Hok|done|].
    exists spent'. split; [|done]. rewrite foldM_app. unfold s. rewrite Hf. cbn [mbind result_bind].
    apply replay_moves; [apply completion_tail_no_deposits|]. apply completion_tail_moves.
  - apply Hstay; [by unfold ended_live; destruct retired..|by repeat constructor|done].
  - apply Hstay; [done|done| |]; subst r; unfold scoped_disposition; repeat case_match; by repeat constructor.
  - apply Hstay; [done|done|apply Forall_fmap, Forall_true; done|]. by apply foldM_stay.
Qed.

(** ** Occurrence identities *)

Lemma max_opt_app l1 l2 :
  max_opt (l1 ++ l2) = match max_opt l1, max_opt l2 with
                       | Some a, Some b => Some (Z.max a b)
                       | Some a, None => Some a
                       | None, o => o
                       end.
Proof.
  induction l1 as [|x l1 IH]; simpl; [by destruct (max_opt l2)|]. rewrite IH.
  destruct (max_opt l1), (max_opt l2); f_equal; lia.
Qed.

Definition occurrence_coherent (h : list HRecord) (l : Live) : Prop :=
  replay_next_occurrence h = next_occurrence l ∧ (1 ≤ next_occurrence l)%Z.

(** Appending records of earlier occurrences keeps the next identity; minting
    one advances it by one. *)
Lemma next_occurrence_old h l batch :
  occurrence_coherent h l →
  Forall (λ r, ∀ o, rec_occurrence r = Some o → (1 ≤ o < next_occurrence l)%Z) batch →
  replay_next_occurrence (h ++ batch) = next_occurrence l.
Proof.
  unfold occurrence_coherent, replay_next_occurrence. intros [Hh H1] Hall.
  rewrite omap_app, max_opt_app. destruct (max_opt (omap rec_occurrence batch)) as [m|] eqn:E.
  - apply max_opt_Some in E as [Hin _]. apply list_elem_of_omap in Hin as (r & Hr & Ho).
    rewrite Forall_forall in Hall. specialize (Hall _ Hr _ Ho).
    destruct (max_opt (omap rec_occurrence h)); simpl in *; lia.
  - destruct (max_opt (omap rec_occurrence h)); simpl in *; lia.
Qed.

Lemma next_occurrence_mint h l batch :
  occurrence_coherent h l → batch ≠ [] →
  Forall (λ r, rec_occurrence r = Some (next_occurrence l)) batch →
  replay_next_occurrence (h ++ batch) = (next_occurrence l + 1)%Z.
Proof.
  unfold occurrence_coherent, replay_next_occurrence. intros [Hh H1] Hne Hall.
  rewrite omap_app, max_opt_app. destruct (max_opt (omap rec_occurrence batch)) as [m|] eqn:E.
  - apply max_opt_Some in E as [Hin _]. apply list_elem_of_omap in Hin as (r & Hr & Ho).
    rewrite Forall_forall in Hall. rewrite (Hall _ Hr) in Ho. simplify_eq.
    destruct (max_opt (omap rec_occurrence h)); simpl in *; lia.
  - apply max_opt_None in E. destruct Hall as [|r batch Hr Hall]; [done|]. simpl in E. by rewrite Hr in E.
Qed.

Lemma begun_occurrences l b i initiation inv scope batch occ movements qs :
  begun_by l b i initiation inv scope batch occ movements qs →
  (∀ o, rec_occurrence (initiation o i) = Some o) →
  Forall (λ r, rec_occurrence r = Some (next_occurrence l)) batch.
Proof.
  intros Hbb Hini. destruct Hbb as [Hid _ -> _ _ Hrec Hn _ _ _ _ _]. rewrite Hid in *.
  constructor; [apply Hini|]. rewrite Hrec. constructor; [done|]. apply Forall_app. split.
  - destruct Hn as (sel & inf & _ & Hm). apply mapR_Ok in Hm.
    apply Forall_forall. intros r Hr. apply list_elem_of_lookup in Hr as [k Hk].
    eapply Forall2_lookup_r in Hm as (es & _ & Hes); [|exact Hk].
    apply narrate_Ok in Hes as [_ ->]. by destruct es as [[]].
  - destruct inv; repeat constructor.
Qed.

Lemma completion_occurrences o t sc i minted (closes opens : list DeliveryRegistration) :
  Forall (λ r, rec_occurrence r = Some o)
    ((produced_record o sc i <$> minted) ++ (closed_record o i <$> closes)
     ++ (opened_record o i <$> opens) ++ [FiringCompleted t o i]).
Proof. rewrite !Forall_app. split_and!; [apply Forall_fmap, Forall_true; done..|by repeat constructor]. Qed.

Lemma occurrence_commit c h l batch l' :
  live_ok c l → commit c l batch l' → occurrence_coherent h l → occurrence_coherent (h ++ batch) l'.
Proof.
  intros Hok Hc Hh. pose proof (ok_next_occurrence _ _ (commit_ok c l Hok _ _ Hc)) as Hpos.
  assert (Hold : next_occurrence l' = next_occurrence l →
    Forall (λ r, ∀ o, rec_occurrence r = Some o → (1 ≤ o < next_occurrence l)%Z) batch →
    occurrence_coherent (h ++ batch) l').
  { intros Hn Hall. split; [|done]. rewrite Hn. by apply next_occurrence_old. }
  assert (Hnew : next_occurrence l' = (next_occurrence l + 1)%Z → batch ≠ [] →
    Forall (λ r, rec_occurrence r = Some (next_occurrence l)) batch → occurrence_coherent (h ++ batch) l').
  { intros Hn Hne Hall. split; [|done]. rewrite Hn. by apply next_occurrence_mint. }
  assert (Hin : ∀ o occ, dget o (in_flight l) = Some occ → (1 ≤ o < next_occurrence l)%Z)
    by (intros o occ Ho; by apply (ok_in_flight _ _ Hok) in Ho as (_ & ? & _)).
  pose proof (commit_instants _ _ _ _ Hc) as [Hne _].
  destruct Hc; try (apply Hold; [done|by repeat constructor]).
  - apply Hold; [by rewrite (closed_live_eq c l Hok)|by repeat constructor].
  - apply Hold; [by rewrite (closed_live_eq c l Hok)|by repeat constructor].
  - destruct (begin_batch_spec _ _ _ _ _ _ _ _ H5) as (movements & qs' & Hbb).
    apply Hnew; [unfold begun_live; by destruct (occ_invocation occ)|done|by eapply begun_occurrences].
  - destruct (begin_batch_spec _ _ _ _ _ _ _ _ H6) as (movements & qs' & Hbb).
    apply Hnew; [unfold begun_live; by destruct (occ_invocation occ)|done|by eapply begun_occurrences].
  - apply Hold; [done|]. repeat constructor; simpl in *; simplify_eq; by eapply Hin.
  - apply Hold; [done|]. repeat constructor; simpl in *; simplify_eq; by eapply Hin.
  - apply Hold; [done|]. apply (ok_cancelled _ _ Hok) in H0 as (_ & ? & _).
    repeat constructor; simpl in *; simplify_eq; lia.
  - apply completion_batch_spec in H0 as (env & effects & m' & He & _ & _ & _ & _ & _ & -> & _).
    apply ensure_in_flight_spec in He as (live_occ & Hl & _).
    apply Hold; [unfold completed_live, ended_live; by destruct retired|].
    eapply Forall_impl; [apply completion_occurrences|]. intros r Hr o Ho. rewrite Hr in Ho. simplify_eq.
    by eapply Hin.
  - apply ensure_in_flight_spec in H0 as (live_occ & Hl & _).
    apply Hold; [unfold ended_live; by destruct retired|].
    repeat constructor; simpl in *; simplify_eq; by eapply Hin.
  - apply Hold; [done|]. subst r. unfold scoped_disposition. repeat case_match; by repeat constructor.
  - apply Hold; [done|]. apply Forall_fmap, Forall_true. done.
Qed.

(** ** Lifecycle scopes *)

(** Scope tables are compared by lookup: a live reset deletes and reinserts the
    name, the replay assigns it in place. *)
Record scope_equiv (s t : ScopeState) : Prop := {
  se_active name : dget name (active_scopes s) = dget name (active_scopes t);
  se_spent name : spent_generation s name = spent_generation t name
}.

#[export] Instance scope_equivalence : Equivalence scope_equiv.
Proof.
  split.
  - by split.
  - intros s t [H1 H2]. by split.
  - intros s t u [H1 H2] [H3 H4]. split; intros; [by rewrite H1, H3|by rewrite H2, H4].
Qed.

Lemma scope_active_equiv s t sc : scope_equiv s t → scope_active s sc = scope_active t sc.
Proof. intros [H _]. unfold scope_active. by rewrite H. Qed.

Lemma scope_equiv_set s t name sc gen :
  scope_equiv s t →
  scope_equiv (MkScopeState (dset name sc (active_scopes s)) (dset name gen (scope_generations s)))
              (MkScopeState (dset name sc (active_scopes t)) (dset name gen (scope_generations t))).
Proof.
  intros [H1 H2]. split; intros name'; unfold spent_generation, dget_default in *; simpl; rewrite !dget_dset;
    by case_decide.
Qed.

Definition scope_coherent (h : list HRecord) (l : Live) : Prop :=
  ∃ s, replay_scopes h = Ok s ∧ scope_equiv s (scope_state l) ∧ NoDup (dkeys (active_scopes s)).

(** Records whose scope is active move no scope. *)
Lemma scope_step_stay s r :
  (match r with
   | ScopeOpened _ _ | ScopeClosed _ _ _ _ | ScopeReset _ _ _ _ _
   | ScopedDeliveryDropped _ _ _ _ _ | ScopedDeliveryQuarantined _ _ _ _ _ => False
   | _ => ∀ sc, rec_scope r = Some sc → scope_active s sc = true
   end) → scope_step s r = Ok s.
Proof.
  destruct r; try done; simpl; intros H; try done; destruct scope as [sc|]; try done; by rewrite H.
Qed.

Lemma scope_steps_stay s batch :
  Forall (λ r, match r with
   | ScopeOpened _ _ | ScopeClosed _ _ _ _ | ScopeReset _ _ _ _ _
   | ScopedDeliveryDropped _ _ _ _ _ | ScopedDeliveryQuarantined _ _ _ _ _ => False
   | _ => ∀ sc, rec_scope r = Some sc → scope_active s sc = true
   end) batch → foldM scope_step s batch = Ok s.
Proof. induction 1 as [|r batch Hr _ IH]; [done|]. simpl. by rewrite scope_step_stay. Qed.

(** Every record of a begin batch carries the occurrence's scope or none. *)
Lemma begun_scopes l b i initiation inv scope batch occ movements qs s :
  begun_by l b i initiation inv scope batch occ movements qs →
  (∀ sc, occ_scope occ = Some sc → scope_active s sc = true) →
  foldM scope_step s (occ_records occ) = Ok s.
Proof.
  intros [_ _ _ _ _ Hrec Hn _ _ _ _ _] Hact. apply scope_steps_stay. rewrite Hrec.
  constructor; [exact Hact|]. apply Forall_app. split.
  - destruct Hn as (sel & inf & _ & Hm). apply mapR_Ok in Hm.
    apply Forall_forall. intros r Hr. apply list_elem_of_lookup in Hr as [k Hk].
    eapply Forall2_lookup_r in Hm as (es & _ & Hes); [|exact Hk].
    apply narrate_Ok in Hes as [_ ->]. by destruct es as [[]].
  - destruct inv; repeat constructor. exact Hact.
Qed.

Lemma begun_scope_active c l b i initiation inv scope batch occ movements qs :
  live_ok c l → begun_by l b i initiation inv scope batch occ movements qs →
  in_active_scope (scope_state l) scope → in_active_scope (scope_state l) (occ_scope occ).
Proof.
  intros Hok Hbb Hact sc Hs.
  destruct (bb_scope _ _ _ _ _ _ _ _ _ _ Hbb sc Hs) as [?|(e & He & Hes)]; [by apply Hact|].
  by apply (ok_entry_scopes c l Hok e).
Qed.

Lemma begun_live_scopes occ qs i l : scope_state (begun_live occ qs i l) = scope_state l.
Proof. unfold begun_live. by destruct (occ_invocation occ). Qed.

Lemma scope_disposed l s path delivered identity target i :
  scope_equiv s (scope_state l) → target_inactive l target = true →
  scope_step s (scoped_disposition l path delivered identity target i).1 = Ok s.
Proof.
  intros He Hin. destruct target as [sc|name]; [|done]. unfold scoped_disposition. simpl in Hin.
  apply negb_true_iff in Hin. rewrite <-(scope_active_equiv s) in Hin by done.
  rewrite <-(se_spent s _ He). destruct (Z.leb_spec (scope_generation sc) (spent_generation s (scope_name sc))); simpl.
  - rewrite Hin. by rewrite (proj2 (Z.ltb_ge _ _)) by lia.
  - rewrite Hin. by rewrite (proj2 (Z.leb_gt _ _)) by lia.
Qed.

Lemma scope_commit c h l batch l' :
  live_ok c l → commit c l batch l' → scope_coherent h l → scope_coherent (h ++ batch) l'.
Proof.
  intros Hok Hc (s & Hh & He & Hnd). unfold scope_coherent, replay_scopes in *.
  setoid_rewrite foldM_app. rewrite Hh. cbn [mbind result_bind].
  assert (Hact : ∀ sc, in_active_scope (scope_state l) sc → ∀ sc', sc = Some sc' → scope_active s sc' = true).
  { intros sc Hs sc' ->. rewrite (scope_active_equiv s (scope_state l)) by done. by apply Hs. }
  assert (Hstay : foldM scope_step s batch = Ok s → scope_state l' = scope_state l →
    ∃ s0, foldM scope_step s batch = Ok s0 ∧ scope_equiv s0 (scope_state l') ∧ NoDup (dkeys (active_scopes s0))).
  { intros Hf ->. eauto. }
  assert (Hbegin : ∀ b i initiation inv scope occ movements qs,
    begun_by l b i initiation inv scope batch occ movements qs → in_active_scope (scope_state l) scope →
    scope_step s (initiation (occ_id occ) i) = Ok s → foldM scope_step s batch = Ok s).
  { intros b i initiation inv scope occ movements qs Hbb Hsc Hini.
    rewrite (bb_batch _ _ _ _ _ _ _ _ _ _ Hbb). simpl. rewrite Hini. simpl.
    eapply begun_scopes; [exact Hbb|]. apply Hact. by eapply begun_scope_active. }
  destruct Hc; try (apply Hstay; done).
  - rewrite foldM_single. simpl.
    rewrite (proj2 (dmem_false name (active_scopes s))) by (by rewrite (se_active _ _ He)).
    rewrite (se_spent _ _ He name), bool_decide_true by done. simpl. eexists. split; [done|].
    split; [by apply scope_equiv_set|]. simpl. by apply NoDup_dkeys_dset.
  - rewrite foldM_single, (closed_live_eq c l Hok _ _ _ _ H0). apply scope_closure_spec in H0 as (Ha & _ & ->).
    simpl. rewrite (scope_active_equiv s (scope_state l)), Ha by done. simpl. eexists. split; [done|].
    split; [|by apply NoDup_dkeys_ddel].
    destruct He as [He1 He2]. split; [|exact He2]. intros name. simpl.
    rewrite !dget_ddel by (done || apply Hok). by case_decide.
  - rewrite foldM_single, (closed_live_eq c l Hok _ _ _ _ H0). apply scope_closure_spec in H0 as (Ha & _ & ->).
    simpl. rewrite (scope_active_equiv s (scope_state l)), Ha by done. simpl. eexists. split; [done|].
    split; [|by apply NoDup_dkeys_dset].
    unfold LifecycleScope_new in H1. inv_ok. simpl. destruct He as [He1 He2].
    split; intros name; unfold spent_generation, dget_default in *; simpl; rewrite !dget_dset; case_decide; try done.
    by rewrite dget_ddel_ne by done.
  - destruct (begin_batch_spec _ _ _ _ _ _ _ _ H5) as (movements & qs' & Hbb).
    apply Hstay; [|apply begun_live_scopes]. eapply Hbegin; [exact Hbb| |done]. by intros sc [=].
  - destruct (begin_batch_spec _ _ _ _ _ _ _ _ H6) as (movements & qs' & Hbb).
    apply Hstay; [|apply begun_live_scopes]. eapply Hbegin; [exact Hbb|exact H5|].
    apply scope_step_stay. simpl. by apply Hact.
  - pose proof H0 as Hb. apply completion_batch_spec in Hb as (env & effects & m' & Hens & _ & _ & _ & _ & _ & -> & _).
    destruct (ensured c l Hok _ Hens) as (live_occ & _ & _ & Hsc).
    apply Hstay; [|unfold completed_live, ended_live; by destruct retired].
    apply scope_steps_stay. rewrite !Forall_app. split_and!.
    + apply Forall_fmap, Forall_true. intros ee. simpl. by apply Hact.
    + apply Forall_fmap, Forall_true. done.
    + apply Forall_fmap, Forall_true. done.
    + by repeat constructor.
  - apply Hstay; [done|]. unfold ended_live. by destruct retired.
  - apply Hstay; [|done]. rewrite foldM_single. by apply scope_disposed.
  - apply Hstay; [|done]. apply scope_steps_stay. apply Forall_fmap, Forall_true. done.
Qed.
