(* ===== verification/LifecycleCoherence.v ===== *)
(** * Live state is the projection of the history: firing occurrences

    The occurrence lifecycle of the history against the live in-flight,
    activity, cancelled, frozen, terminal and quarantined tables. The relation
    carries the occurrences ever begun, in begin order, as a ghost table. *)

From stdpp Require Import base gmap sets list strings pretty sorting.
From Stdlib Require Import Ascii ZArith Lia.
From S2P Require Import Prelude PyData Schema Marking Enabledness Firing Activity Records Replay Lifecycle Instance Construction Commit Invariant Coherence.
Open Scope string_scope.
Open Scope list_scope.

(** ** The records of a begun occurrence *)

Definition is_movement (o : Z) (sc : option LifecycleScope) (i : Instant) (r : HRecord) : Prop :=
  match r with
  | TokensConsumed _ _ o' _ sc' i' | TokensRead _ _ o' _ sc' i' => o' = o ∧ sc' = sc ∧ i' = i
  | _ => False
  end.

Lemma binding_entries_length qs b sels inferred :
  binding_entries qs b = Ok (sels, inferred) → length sels = (length (b_consumed b) + length (b_read b))%nat.
Proof.
  unfold binding_entries. intros H. inv_ok.
  match goal with H1 : foldM consumed_entries _ _ = Ok _, H2 : foldM read_entries _ _ = Ok _ |- _ =>
    destruct (consumed_entries_moves 0 None 0%Z _ _ _ H1) as (c1 & Hs1 & Hl1 & _);
    destruct (read_entries_moves 0 None 0%Z _ _ _ [] H2) as (_ & c2 & Hs2 & Hl2 & _) end.
  simpl in *. rewrite Hs2, Hs1, length_app. lia.
Qed.

(** The narrated movements: the consumes in order, then the reads. *)
Lemma narrated_consumes o sc i sels chosen recs :
  length chosen = length sels →
  mapR (narrate o sc i) (zip (consume_effect <$> sels) chosen) = Ok recs →
  Forall (is_movement o sc i) recs ∧ omap consumed_of recs = sels ∧ omap read_of recs = [] ∧
  (begin_rank <$> recs) = replicate (length sels) 1%Z.
Proof.
  revert chosen recs. induction sels as [|[p ts] sels IH]; intros [|c chosen] recs Hlen H; simpl in *; try done.
  - injection H as <-. repeat split; constructor.
  - inv_ok. match goal with H : narrate _ _ _ _ = Ok _ |- _ => apply narrate_Ok in H as [_ ->] end.
    match goal with H : mapR _ _ = Ok ?k |- _ => destruct (IH chosen k) as (Hm & Hc & Hr & Hb); [lia|done|] end.
    csimpl. split; [by constructor|]. split; [by rewrite Hc|]. split; [done|]. by rewrite Hb.
Qed.

Lemma narrated_reads o sc i sels chosen recs :
  length chosen = length sels →
  mapR (narrate o sc i) (zip (read_effect <$> sels) chosen) = Ok recs →
  Forall (is_movement o sc i) recs ∧ omap read_of recs = sels ∧ omap consumed_of recs = [] ∧
  (begin_rank <$> recs) = replicate (length sels) 2%Z.
Proof.
  revert chosen recs. induction sels as [|[p ts] sels IH]; intros [|c chosen] recs Hlen H; simpl in *; try done.
  - injection H as <-. repeat split; constructor.
  - inv_ok. match goal with H : narrate _ _ _ _ = Ok _ |- _ => apply narrate_Ok in H as [_ ->] end.
    match goal with H : mapR _ _ = Ok ?k |- _ => destruct (IH chosen k) as (Hm & Hc & Hr & Hb); [lia|done|] end.
    csimpl. split; [by constructor|]. split; [by rewrite Hc|]. split; [done|]. by rewrite Hb.
Qed.

Lemma movements_spec l b i initiation inv scope batch occ movements qs :
  begun_by l b i initiation inv scope batch occ movements qs →
  Forall (is_movement (occ_id occ) (occ_scope occ) i) movements ∧
  omap consumed_of movements = b_consumed b ∧ omap read_of movements = b_read b ∧
  (begin_rank <$> movements) = replicate (length (b_consumed b)) 1%Z ++ replicate (length (b_read b)) 2%Z.
Proof.
  intros [_ _ _ _ _ _ (sels & inf & Hb & Hm) _ _ _ _ _].
  apply binding_entries_length in Hb.
  rewrite <-(take_drop (length (b_consumed b)) sels) in Hm.
  assert (length (take (length (b_consumed b)) sels) = length (b_consumed b)) as Hl1 by (rewrite length_take; lia).
  assert (length (drop (length (b_consumed b)) sels) = length (b_read b)) as Hl2 by (rewrite length_drop; lia).
  rewrite zip_with_app in Hm by (by rewrite length_fmap). rewrite mapR_app in Hm. inv_ok.
  match goal with H1 : mapR _ (zip (consume_effect <$> _) _) = Ok _, H2 : mapR _ (zip (read_effect <$> _) _) = Ok _ |- _ =>
    apply narrated_consumes in H1 as (Hc1 & Hc2 & Hc3 & Hc4); [|done];
    apply narrated_reads in H2 as (Hr1 & Hr2 & Hr3 & Hr4); [|done] end.
  rewrite Forall_app, !omap_app, fmap_app, Hc2, Hc3, Hc4, Hr2, Hr3, Hr4, app_nil_r. done.
Qed.

(** What a rebuilding projection needs of an occurrence. *)
Record rebuildable (occ : FiringOccurrence) : Prop := {
  rb_boundary : boundary_transition (occ_records occ) = Some (b_transition (occ_binding occ));
  rb_requested : existsb is_requested (occ_records occ) = bool_decide (is_Some (occ_invocation occ));
  rb_ordered : refuse_disordered_begin_batch (occ_records occ) = Ok tt;
  rb_rebuilt : rebuilt_occurrence (occ_id occ) (b_transition (occ_binding occ))
                 (b_delivered (occ_binding occ)) (occ_records occ) = Ok occ
}.

Lemma movements_inert o sc i recs :
  Forall (is_movement o sc i) recs →
  omap invocation_of recs = [] ∧ omap begun_of recs = [] ∧ existsb is_requested recs = false ∧
  existsb (λ r, negb (bool_decide (rec_scope r = sc))) recs = false.
Proof.
  induction 1 as [|r recs Hr _ (H1 & H2 & H3 & H4)]; [done|].
  destruct r; try done; csimpl in *; destruct Hr as (_ & -> & _); rewrite H4, bool_decide_true by done; done.
Qed.

Lemma requested_valid t o sc i inv :
  canonical_record (requested_record t o sc i inv) → ActivityInvocation_post_init (resolve_invocation o inv) = Ok tt.
Proof.
  intros [H _]. unfold requested_record in H. simpl in H.
  apply forM_Ok in H. rewrite !Forall_cons in H. destruct H as (H1 & H2 & H3 & _).
  apply raise_if_Ok in H1, H2, H3. unfold ActivityInvocation_post_init. simpl. rewrite H1. simpl.
  unfold forM_. simpl. by rewrite H2, H3.
Qed.

Lemma sorted_ranks (n m : nat) (tail : list Z) :
  tail = [] ∨ tail = [3%Z] →
  sorted_by Z.leb (0%Z :: (replicate n 1%Z ++ replicate m 2%Z) ++ tail)
  = 0%Z :: (replicate n 1%Z ++ replicate m 2%Z) ++ tail.
Proof.
  intros Ht. apply sorted_by_id.
  assert (∀ k z, (z ≤ 3)%Z → StronglySorted (λ x y, Z.leb x y = true) (replicate k z ++ tail) ) as H2.
  { intros k z Hz. induction k as [|k IH]; simpl.
    - destruct Ht as [->| ->]; repeat constructor.
    - constructor; [done|]. apply Forall_app. split.
      + apply Forall_forall. intros x Hx%elem_of_replicate. apply Z.leb_le. destruct Hx. lia.
      + destruct Ht as [->| ->]; repeat constructor. by apply Z.leb_le. }
  rewrite <-(assoc_L (++)). constructor.
  - induction n as [|n IH]; simpl; [by apply H2|]. constructor; [done|].
    rewrite !Forall_app. split_and!.
    + apply Forall_forall. intros x [-> _]%elem_of_replicate. done.
    + apply Forall_forall. intros x [-> _]%elem_of_replicate. done.
    + destruct Ht as [->| ->]; repeat constructor.
  - rewrite !Forall_app. split_and!.
    + apply Forall_forall. intros x [-> _]%elem_of_replicate. done.
    + apply Forall_forall. intros x [-> _]%elem_of_replicate. done.
    + destruct Ht as [->| ->]; repeat constructor.
Qed.

Lemma begun_rebuildable l b i initiation inv scope batch occ movements qs :
  begun_by l b i initiation inv scope batch occ movements qs →
  (b_delivered b ≠ [] → b_consumed b = [] ∧ b_read b = []) →
  rebuildable occ.
Proof.
  intros Hbb Hdel. destruct (movements_spec _ _ _ _ _ _ _ _ _ _ Hbb) as (Hmv & Hcon & Hread & Hrank).
  destruct (movements_inert _ _ _ _ Hmv) as (Hinv & Hbeg & Hreq & Hsc).
  destruct Hbb as [_ Hbind Hbatch Hw Hinvoc Hrec _ _ _ _ _ _].
  apply writer_records_Ok in Hw as [_ Hcan].
  set (o := occ_id occ) in *.
  split; rewrite Hrec; rewrite ?Hbind.
  - done.
  - rewrite Hinvoc. simpl. rewrite existsb_app, Hreq. by destruct inv.
  - unfold refuse_disordered_begin_batch. apply raise_if_false, negb_false_iff, bool_decide_eq_true.
    rewrite fmap_cons, fmap_app, Hrank. simpl begin_rank. symmetry. apply sorted_ranks. destruct inv; [by right|by left].
  - unfold rebuilt_occurrence. csimpl. rewrite !omap_app, Hinv, Hcon, Hread. simpl.
    assert ((match inv with Some inv0 => [requested_record (b_transition b) o (occ_scope occ) i inv0] | None => [] end)
      = default [] ((λ inv0, [requested_record (b_transition b) o (occ_scope occ) i inv0]) <$> inv)) as Hd
      by by destruct inv.
    assert (head (omap invocation_of (match inv with
              | Some inv0 => [requested_record (b_transition b) o (occ_scope occ) i inv0] | None => [] end))
            = occ_invocation occ) as Hh by (rewrite Hinvoc; by destruct inv).
    assert (omap consumed_of (match inv with
              | Some inv0 => [requested_record (b_transition b) o (occ_scope occ) i inv0] | None => [] end) = []
      ∧ omap read_of (match inv with
              | Some inv0 => [requested_record (b_transition b) o (occ_scope occ) i inv0] | None => [] end) = [])
      as [Hc0 Hr0] by by destruct inv.
    rewrite Hh, Hc0, Hr0, !app_nil_r. rewrite existsb_app, Hsc.
    assert (match occ_invocation occ with
            | Some inv0 => ActivityInvocation_post_init inv0 ≫= (λ _, Ok (Some inv0))
            | None => Ok None end = Ok (occ_invocation occ)) as ->.
    { rewrite Hinvoc. destruct inv as [inv|]; [|done]. simpl. subst batch.
      apply Forall_cons in Hcan as [_ Hcan]. rewrite Hrec in Hcan. apply Forall_cons in Hcan as [_ Hcan].
      apply Forall_app in Hcan as [_ Hcan]. apply Forall_cons in Hcan as [Hcan _].
      by rewrite (requested_valid _ _ _ _ _ Hcan). }
    simpl. rewrite bool_decide_true by done. simpl. rewrite bool_decide_true by done. simpl.
    assert (existsb (λ r, negb (bool_decide (rec_scope r = occ_scope occ)))
              (match inv with Some inv0 => [requested_record (b_transition b) o (occ_scope occ) i inv0] | None => [] end) = false)
      as -> by (destruct inv; simpl; [by rewrite bool_decide_true|done]).
    simpl. unfold Binding_new.
    rewrite raise_if_false.
    2:{ destruct (decide (b_delivered b = [])) as [Hd0|Hd0]; [by rewrite (bool_decide_true (b_delivered b = []))|].
        destruct (Hdel Hd0) as [-> ->]. by rewrite !andb_false_r || rewrite andb_false_r. }
    simpl. rewrite <-Hrec. destruct occ as [oid ob orecs oinv osc]. simpl in *. subst. by destruct b.
Qed.

(** ** The relation *)

Definition with_records (kv : Z * FiringOccurrence) : Z * list HRecord := (kv.1, occ_records kv.2).
Definition with_scope (kv : Z * FiringOccurrence) : option (Z * LifecycleScope) := pair kv.1 <$> occ_scope kv.2.

Lemma dget_with_records o (G : list (Z * FiringOccurrence)) :
  dget o (with_records <$> G) = occ_records <$> dget o G.
Proof. induction G as [|[k v] G IH]; csimpl; [done|]. by case_decide. Qed.

Lemma dkeys_with_records (G : list (Z * FiringOccurrence)) : dkeys (with_records <$> G) = dkeys G.
Proof. unfold dkeys. rewrite <-list_fmap_compose. done. Qed.

Record lifecycle_rel (L : LifecycleState) (l : Live) (G : list (Z * FiringOccurrence)) : Prop := {
  g_begun : lc_begun L = with_records <$> G;
  g_keys : NoDup (dkeys G);
  g_occ o occ : dget o G = Some occ →
    occ_id occ = o ∧ (1 ≤ o < next_occurrence l)%Z ∧ rebuildable occ ∧
    dget o (lc_initiated L) = Some (b_transition (occ_binding occ), b_delivered (occ_binding occ));
  g_initiated o v : dget o (lc_initiated L) = Some v → (o < next_occurrence l)%Z;
  g_open : in_flight l = filter (λ kv, kv.1 ∉ lc_ended L) G;
  g_activity : activity_occurrences l = filter (λ kv, is_Some (occ_invocation kv.2)) G;
  g_cancelled o occ : dget o (cancelled l) = Some occ → dget o G = Some occ ∧ is_Some (occ_scope occ);
  g_cancelled_set : lc_cancelled L = list_to_set (dkeys (cancelled l));
  g_cancelled_ended o : o ∈ lc_cancelled L → o ∈ lc_ended L;
  g_cancelled_frozen o : o ∈ lc_cancelled L → dget o (lc_frozen L) = None;
  g_ended o : o ∈ lc_ended L → (o < next_occurrence l)%Z;
  g_ending o : o ∈ lc_ending L → o ∈ lc_ended L;
  g_frozen : frozen_results l = filter (λ ov, ov.1 ∉ lc_ended L) (lc_frozen L);
  g_frozen_keys : NoDup (dkeys (lc_frozen L));
  g_frozen_begun o f : dget o (lc_frozen L) = Some f → is_Some (dget o G);
  g_terminal o : dget o (terminal_activity l) = if decide (o ∈ lc_ended L) then dget o (lc_frozen L) else None;
  g_scoped : lc_scoped_open L = omap with_scope (in_flight l)
}.

(** The parts of the fold state the relation reads. *)
Definition same_core (L L' : LifecycleState) : Prop :=
  lc_initiated L' = lc_initiated L ∧ lc_begun L' = lc_begun L ∧ lc_ended L' = lc_ended L ∧
  lc_ending L' = lc_ending L ∧ lc_frozen L' = lc_frozen L ∧ lc_scoped_open L' = lc_scoped_open L ∧
  lc_cancelled L' = lc_cancelled L.

Lemma rel_core L L' l G : same_core L L' → lifecycle_rel L l G → lifecycle_rel L' l G.
Proof.
  intros (H1 & H2 & H3 & H4 & H5 & H6 & H7) [].
  split; rewrite ?H1, ?H2, ?H3, ?H4, ?H5, ?H6, ?H7; try done.
Qed.

(** A relation to the same tables under another clock, queue or registration
    state. *)
Definition same_tables (l l' : Live) : Prop :=
  next_occurrence l' = next_occurrence l ∧ in_flight l' = in_flight l ∧
  activity_occurrences l' = activity_occurrences l ∧ cancelled l' = cancelled l ∧
  frozen_results l' = frozen_results l ∧ terminal_activity l' = terminal_activity l.

Lemma rel_tables L l l' G : same_tables l l' → lifecycle_rel L l G → lifecycle_rel L l' G.
Proof.
  intros (H1 & H2 & H3 & H4 & H5 & H6) [].
  split; rewrite ?H1, ?H2, ?H3, ?H4, ?H5, ?H6; try done.
Qed.

Section rel.
  Context {L : LifecycleState} {l : Live} {G : list (Z * FiringOccurrence)}.
  Context (Hrel : lifecycle_rel L l G).

Lemma rel_in_flight o occ : dget o (in_flight l) = Some occ ↔ dget o G = Some occ ∧ o ∉ lc_ended L.
Proof.
  rewrite (g_open _ _ _ Hrel), dget_filter by apply Hrel. destruct (dget o G) as [v|]; simpl.
  - case_decide; split; [intros [= ->]; done|intros [[= ->] _]; done|done|intros [[= ->] ?]; done].
  - split; [done|by intros [? _]].
Qed.

Lemma rel_frozen o : o ∉ lc_ended L → dget o (lc_frozen L) = dget o (frozen_results l).
Proof.
  intros Ho. rewrite (g_frozen _ _ _ Hrel), dget_filter by apply Hrel.
  destruct (dget o (lc_frozen L)); [|done]. by rewrite decide_True.
Qed.

Lemma rel_begun o occ : dget o G = Some occ → dget o (lc_begun L) = Some (occ_records occ).
Proof. intros H. by rewrite (g_begun _ _ _ Hrel), dget_with_records, H. Qed.

Lemma rel_begun_default o occ : dget o G = Some occ → dget_default o [] (lc_begun L) = occ_records occ.
Proof. intros H. unfold dget_default. by rewrite (rel_begun _ _ H). Qed.

Lemma rel_begun_mem o occ : dget o G = Some occ → dmem o (lc_begun L) = true.
Proof. intros H. unfold dmem. apply bool_decide_eq_true. rewrite (rel_begun _ _ H). eauto. Qed.

Lemma rel_fresh o : (next_occurrence l ≤ o)%Z →
  dget o G = None ∧ dget o (lc_initiated L) = None ∧ dget o (lc_begun L) = None ∧
  o ∉ lc_ended L ∧ o ∉ lc_ending L ∧ dget o (lc_scoped_open L) = None.
Proof.
  intros Ho. assert (dget o G = None) as HG.
  { destruct (dget o G) eqn:E; [|done]. apply (g_occ _ _ _ Hrel) in E as (_ & ? & _). lia. }
  assert (o ∉ lc_ended L) as He by (intros H%(g_ended _ _ _ Hrel); lia).
  split; [done|]. split; [|split; [|split; [done|split]]].
  - destruct (dget o (lc_initiated L)) eqn:E; [|done]. apply (g_initiated _ _ _ Hrel) in E. lia.
  - by rewrite (g_begun _ _ _ Hrel), dget_with_records, HG.
  - intros H%(g_ending _ _ _ Hrel). done.
  - rewrite (g_scoped _ _ _ Hrel). apply dget_None. unfold dkeys. intros Hin.
    apply list_elem_of_fmap in Hin as ([o' sc] & Heq & Hin). simpl in Heq. subst o'.
    apply list_elem_of_omap in Hin as ([o' occ] & Hin & Hs). unfold with_scope in Hs. simpl in Hs.
    destruct (occ_scope occ); simpl in Hs; simplify_eq.
    rewrite (g_open _ _ _ Hrel) in Hin. apply list_elem_of_filter in Hin as [_ Hin].
    apply elem_of_dget in Hin; [congruence|apply Hrel].
Qed.
End rel.

(** ** Begin batches *)

Lemma tail_loop L o sc i recs rs :
  lc_active_begin L = Some (o, i) → o ∉ lc_ended L → o ∉ lc_ending L →
  dget o (lc_begun L) = Some recs → Forall (is_movement o sc i) rs →
  ∃ prev, foldM lifecycle_step L rs
    = Ok (MkLifecycle (lc_initiated L) (dset o (recs ++ rs) (lc_begun L)) (lc_ended L) (lc_ending L)
            (lc_frozen L) (lc_scoped_open L) (lc_cancelled L) (Some (o, i)) prev).
Proof.
  revert L recs. induction rs as [|r rs IH]; intros L recs Ha He Hg Hb Hall.
  { exists (lc_previous L). simpl. rewrite app_nil_r, dset_same by done. destruct L. simpl in *. by subst. }
  apply Forall_cons in Hall as [Hr Hall].
  assert (lifecycle_step L r = Ok (MkLifecycle (lc_initiated L) (dset o (recs ++ [r]) (lc_begun L))
            (lc_ended L) (lc_ending L) (lc_frozen L) (lc_scoped_open L) (lc_cancelled L) (Some (o, i)) (Some r))) as Hstep.
  { assert (dmem o (lc_begun L) = true) as Hm by (unfold dmem; rewrite Hb; by apply bool_decide_eq_true; eauto).
    destruct r; try done; destruct Hr as (-> & -> & ->);
      unfold lifecycle_step; simpl; rewrite Hm; simpl; unfold begin_tail, refuse_late_begin_record;
      rewrite (bool_decide_false (o ∈ lc_ended L)), (bool_decide_false (o ∈ lc_ending L)) by done; simpl;
      rewrite Ha; simpl; rewrite !bool_decide_true by done; simpl;
      unfold dget_default; rewrite Hb; unfold with_previous, with_begun; simpl; rewrite ?Ha; reflexivity. }
  cbn [foldM]. rewrite Hstep. cbn [mbind result_bind].
  edestruct (IH (MkLifecycle (lc_initiated L) (dset o (recs ++ [r]) (lc_begun L)) (lc_ended L) (lc_ending L)
     (lc_frozen L) (lc_scoped_open L) (lc_cancelled L) (Some (o, i)) (Some r)) (recs ++ [r])) as [prev Hf];
    [done|done|done|simpl; apply dget_dset_eq|done|].
  exists prev. rewrite Hf. simpl. by rewrite dset_dset, <-(assoc_L (++)).
Qed.

Record initiates (r : HRecord) (o : Z) (i : Instant) (t : NetPath) (delivered : list Token) : Prop := {
  in_branch s : lifecycle_branch s r = (d ← initiate s o t delivered; Ok (with_initiated s d));
  in_of : initiation_of r = Some (o, i);
  in_tail : is_begin_tail r = false
}.

Lemma requested_step L o i t sc recs inv :
  lc_active_begin L = Some (o, i) → o ∉ lc_ended L → o ∉ lc_ending L →
  dget o (lc_begun L) = Some recs → boundary_transition recs = Some t → existsb is_requested recs = false →
  lifecycle_step L (requested_record t o sc i inv)
  = Ok (MkLifecycle (lc_initiated L) (dset o (recs ++ [requested_record t o sc i inv]) (lc_begun L)) (lc_ended L)
          (lc_ending L) (lc_frozen L) (lc_scoped_open L) (lc_cancelled L) (Some (o, i))
          (Some (requested_record t o sc i inv))).
Proof.
  intros Ha He Hg Hb Ht Hq.
  assert (dmem o (lc_begun L) = true) as Hm by (unfold dmem; rewrite Hb; by apply bool_decide_eq_true; eauto).
  unfold lifecycle_step, requested_record. simpl. rewrite Hm. simpl.
  unfold dget_default. rewrite Hb. simpl. unfold validate_activity_transition.
  rewrite Ht, (bool_decide_true (Some t = Some t)) by done. simpl. rewrite Hq. simpl.
  unfold begin_tail, refuse_late_begin_record.
  rewrite (bool_decide_false (o ∈ lc_ended L)), (bool_decide_false (o ∈ lc_ending L)) by done. simpl.
  rewrite Ha. simpl. rewrite !bool_decide_true by done. simpl. unfold dget_default; rewrite Hb; unfold with_previous, with_begun; simpl; rewrite ?Ha; reflexivity.
Qed.

(** An initiation and the boundary that follows it. *)
Definition initiated_state (L : LifecycleState) (r : HRecord) (o : Z) (t : NetPath) (d : list Token) : LifecycleState :=
  MkLifecycle (dset o (t, d) (lc_initiated L)) (lc_begun L) (lc_ended L) (lc_ending L) (lc_frozen L)
    (lc_scoped_open L) (lc_cancelled L) None (Some r).

Lemma initiation_step L r o i t d :
  initiates r o i t d → dget o (lc_initiated L) = None →
  lifecycle_step L r = Ok (initiated_state L r o t d).
Proof.
  intros [Hbr _ Htail] Hi. unfold lifecycle_step. rewrite Htail, Hbr. unfold initiate.
  by rewrite (proj2 (dmem_false o (lc_initiated (with_active_begin L None)))).
Qed.

Definition begun_state (L : LifecycleState) (r : HRecord) (o : Z) (t : NetPath) (d : list Token)
    (sc : option LifecycleScope) (i : Instant) (recs : list HRecord) (prev : option HRecord) : LifecycleState :=
  MkLifecycle (dset o (t, d) (lc_initiated L)) (dset o recs (lc_begun L)) (lc_ended L) (lc_ending L) (lc_frozen L)
    (match sc with Some sc => dset o sc (lc_scoped_open L) | None => lc_scoped_open L end)
    (lc_cancelled L) (Some (o, i)) prev.

Lemma boundary_step L r o i t d sc :
  initiates r o i t d → dget o (lc_begun L) = None →
  lifecycle_step (initiated_state L r o t d) (FiringBegun t o sc i)
  = Ok (begun_state L r o t d sc i [FiringBegun t o sc i] (Some (FiringBegun t o sc i))).
Proof.
  intros [_ Hof _] Hb. unfold lifecycle_step, initiated_state. simpl. unfold begin_boundary. simpl.
  rewrite (proj2 (dmem_true o (dset o (t, d) (lc_initiated L))))
    by (apply dget_is_Some; rewrite dget_dset_eq; eauto).
  rewrite (proj2 (dmem_false o (lc_begun L))) by done. simpl.
  rewrite Hof, !bool_decide_true by done. reflexivity.
Qed.

(** The fold state after a begin batch. *)
Lemma begin_fold L l G b i r0 inv scope batch occ movements qs initiation :
  lifecycle_rel L l G →
  begun_by l b i initiation inv scope batch occ movements qs →
  r0 = initiation (occ_id occ) i →
  initiates r0 (occ_id occ) i (b_transition b) (b_delivered b) →
  ∃ prev, foldM lifecycle_step L batch
    = Ok (begun_state L r0 (occ_id occ) (b_transition b) (b_delivered b) (occ_scope occ) i (occ_records occ) prev).
Proof.
  intros Hrel Hbb Hr0 Hini.
  destruct (movements_spec _ _ _ _ _ _ _ _ _ _ Hbb) as (Hmv & _ & _ & _).
  destruct (movements_inert _ _ _ _ Hmv) as (_ & _ & Hreq & _).
  destruct (rel_fresh Hrel (next_occurrence l)) as (_ & Hfi & Hfb & Hfe & Hfg & Hfs); [done|].
  rewrite <-(bb_id _ _ _ _ _ _ _ _ _ _ Hbb) in Hfi, Hfb, Hfe, Hfg, Hfs.
  rewrite (bb_batch _ _ _ _ _ _ _ _ _ _ Hbb), <-Hr0.
  rewrite (bb_records _ _ _ _ _ _ _ _ _ _ Hbb).
  cbn [foldM]. rewrite (initiation_step _ _ _ _ _ _ Hini Hfi). cbn [mbind result_bind].
  rewrite (boundary_step _ _ _ _ _ _ _ Hini Hfb). cbn [mbind result_bind]. rewrite foldM_app.
  edestruct (tail_loop (begun_state L r0 (occ_id occ) (b_transition b) (b_delivered b) (occ_scope occ) i
     [FiringBegun (b_transition b) (occ_id occ) (occ_scope occ) i]
     (Some (FiringBegun (b_transition b) (occ_id occ) (occ_scope occ) i)))
     (occ_id occ) (occ_scope occ) i) as [prev Hf];
    [done|exact Hfe|exact Hfg|simpl; apply dget_dset_eq|exact Hmv|].
  rewrite Hf. cbn [mbind result_bind]. destruct inv as [inv|].
  - rewrite foldM_single, (requested_step _ (occ_id occ) i (b_transition b) (occ_scope occ)
      ([FiringBegun (b_transition b) (occ_id occ) (occ_scope occ) i] ++ movements));
      [|done|exact Hfe|exact Hfg|simpl; by rewrite dget_dset_eq|done|exact Hreq].
    eexists. unfold begun_state. simpl. by rewrite !dset_dset.
  - exists prev. unfold begun_state. simpl. by rewrite dset_dset, app_nil_r.
Qed.

Lemma rel_begin L l G b i r0 inv scope batch occ movements qs initiation prev :
  (1 ≤ next_occurrence l)%Z → lifecycle_rel L l G →
  begun_by l b i initiation inv scope batch occ movements qs →
  rebuildable occ →
  lifecycle_rel
    (begun_state L r0 (occ_id occ) (b_transition b) (b_delivered b) (occ_scope occ) i (occ_records occ) prev)
    (begun_live occ qs i l) (G ++ [(occ_id occ, occ)]).
Proof.
  intros Hpos Hrel Hbb Hreb. pose proof (bb_id _ _ _ _ _ _ _ _ _ _ Hbb) as Hid.
  pose proof (bb_binding _ _ _ _ _ _ _ _ _ _ Hbb) as Hb.
  destruct (rel_fresh Hrel (occ_id occ)) as (HG & Hfi & Hfb & Hfe & Hfg & Hfs); [lia|].
  assert (dget (occ_id occ) (in_flight l) = None) as Hff.
  { destruct (dget (occ_id occ) (in_flight l)) eqn:E; [|done]. apply (rel_in_flight Hrel) in E as [? _]. congruence. }
  assert (∀ o occ', dget o (G ++ [(occ_id occ, occ)]) = Some occ' → dget o G = Some occ' ∨ (o = occ_id occ ∧ occ' = occ))
    as HG'.
  { intros o occ'. rewrite dget_app. destruct (dget o G); [by left|]. simpl. case_decide; [|done].
    intros [= <-]. by right. }
  assert (∀ o occ', dget o G = Some occ' → dget o (G ++ [(occ_id occ, occ)]) = Some occ') as HGl
    by (intros o occ' Ho; by rewrite dget_app, Ho).
  assert (∀ l', activity_occurrences l' = match occ_invocation occ with
            Some _ => dset (occ_id occ) occ (activity_occurrences l) | None => activity_occurrences l end →
          activity_occurrences l' = filter (λ kv, is_Some (occ_invocation kv.2)) (G ++ [(occ_id occ, occ)])) as Hact.
  { intros l' ->. rewrite filter_app, filter_cons, filter_nil. simpl. rewrite (g_activity _ _ _ Hrel).
    destruct (occ_invocation occ).
    - rewrite decide_True by eauto. apply dset_fresh. by rewrite dget_filter, HG by apply Hrel.
    - rewrite decide_False by (by intros [? ?]). by rewrite app_nil_r. }
  assert (in_flight (begun_live occ qs i l) = dset (occ_id occ) occ (in_flight l) ∧
          next_occurrence (begun_live occ qs i l) = (next_occurrence l + 1)%Z ∧
          cancelled (begun_live occ qs i l) = cancelled l ∧ frozen_results (begun_live occ qs i l) = frozen_results l ∧
          terminal_activity (begun_live occ qs i l) = terminal_activity l) as (Hf1 & Hf2 & Hf3 & Hf4 & Hf5)
    by (unfold begun_live; by destruct (occ_invocation occ)).
  split; simpl; rewrite ?Hf1, ?Hf2, ?Hf3, ?Hf4, ?Hf5; try apply Hrel.
  - rewrite dset_fresh by done. rewrite (g_begun _ _ _ Hrel), fmap_app. done.
  - rewrite dkeys_app. apply NoDup_app. split; [apply Hrel|]. split; [|apply NoDup_singleton].
    intros o Ho ->%list_elem_of_singleton. by apply dget_None in HG.
  - intros o occ' [Ho|[-> ->]]%HG'.
    + pose proof (g_occ _ _ _ Hrel _ _ Ho) as (H1 & H2 & H3 & H4).
      split; [done|]. split; [lia|]. split; [done|]. rewrite dget_dset_ne; [done|]. intros ->. congruence.
    + split; [done|]. split; [|split; [done|]].
      * lia.
      * by rewrite dget_dset_eq, Hb.
  - intros o v. rewrite dget_dset. case_decide; [lia|]. intros Hv%(g_initiated _ _ _ Hrel). lia.
  - rewrite dset_fresh by done. rewrite filter_app, filter_cons, filter_nil. simpl.
    rewrite decide_True by done. by rewrite (g_open _ _ _ Hrel).
  - apply Hact. unfold begun_live. by destruct (occ_invocation occ).
  - intros o occ' Ho. destruct (g_cancelled _ _ _ Hrel _ _ Ho) as [? ?]. auto.
  - intros o Ho. apply (g_ended _ _ _ Hrel) in Ho. lia.
  - intros o f Ho. destruct (g_frozen_begun _ _ _ Hrel _ _ Ho) as [occ' ?]. exists occ'. auto.
  - rewrite (dset_fresh _ _ (in_flight l)) by done. rewrite omap_app, <-(g_scoped _ _ _ Hrel). simpl.
    unfold with_scope. simpl. destruct (occ_scope occ); simpl; [by apply dset_fresh|by rewrite app_nil_r].
Qed.

(** ** Terminal boundaries *)

(** The fold state after the terminal boundary of an occurrence. *)
Record ended_state (L : LifecycleState) (o : Z) (L' : LifecycleState) : Prop := {
  es_initiated : lc_initiated L' = lc_initiated L;
  es_begun : lc_begun L' = lc_begun L;
  es_ended : lc_ended L' = lc_ended L ∪ {[o]};
  es_ending z : z ∈ lc_ending L' → z ∈ lc_ending L ∨ z = o;
  es_frozen : lc_frozen L' = lc_frozen L;
  es_scoped : lc_scoped_open L' = ddel o (lc_scoped_open L);
  es_cancelled : lc_cancelled L' = lc_cancelled L
}.

Lemma with_scope_filter (P : Z → Prop) `{∀ kv : Z * LifecycleScope, Decision (P kv.1)}
    `{∀ kv : Z * FiringOccurrence, Decision (P kv.1)} (d : list (Z * FiringOccurrence)) :
  filter (λ kv : Z * LifecycleScope, P kv.1) (omap with_scope d)
  = omap with_scope (filter (λ kv : Z * FiringOccurrence, P kv.1) d).
Proof.
  induction d as [|[o occ] d IH]; [done|]. rewrite filter_cons. csimpl.
  assert (with_scope (o, occ) = pair o <$> occ_scope occ) as Hw by done.
  rewrite Hw. destruct (occ_scope occ) as [sc|]; simpl in *.
  - rewrite filter_cons. simpl. destruct (decide (P o)) as [Hp|Hp].
    + rewrite ?decide_True by done. csimpl. by rewrite Hw, IH.
    + by rewrite ?decide_False by done.
  - rewrite IH. destruct (decide (P o)) as [Hp|Hp].
    + rewrite ?decide_True by done. csimpl. by rewrite Hw.
    + by rewrite ?decide_False by done.
Qed.

Lemma with_scope_keys (d : list (Z * FiringOccurrence)) :
  NoDup (dkeys d) → NoDup (dkeys (omap with_scope d)).
Proof.
  intros Hd. eapply sublist_NoDup; [exact Hd|]. clear Hd. unfold dkeys.
  induction d as [|[o occ] d IH]; csimpl; [done|]. unfold with_scope at 1. simpl.
  destruct (occ_scope occ); csimpl; by constructor.
Qed.

Lemma rel_ended c L l G o occ retired L' :
  live_ok c l → lifecycle_rel L l G → ended_state L o L' →
  dget o (in_flight l) = Some occ → retired = dget o (frozen_results l) →
  lifecycle_rel L' (ended_live o retired l) G.
Proof.
  intros Hok Hrel [H1 H2 H3 H4 H5 H6 H7] Hocc Hret.
  pose proof (proj1 (rel_in_flight Hrel _ _) Hocc) as [HGo Hne].
  pose proof (rel_frozen Hrel _ Hne) as Hfo.
  assert (next_occurrence (ended_live o retired l) = next_occurrence l ∧
          in_flight (ended_live o retired l) = ddel o (in_flight l) ∧
          activity_occurrences (ended_live o retired l) = activity_occurrences l ∧
          cancelled (ended_live o retired l) = cancelled l ∧
          frozen_results (ended_live o retired l) = ddel o (frozen_results l)) as (Hl1 & Hl2 & Hl3 & Hl4 & Hl5).
  { unfold ended_live. destruct retired; simpl; [done|]. rewrite (ddel_absent o (frozen_results l)) by done. done. }
  split; rewrite ?H1, ?H2, ?H3, ?H5, ?H6, ?H7, ?Hl1, ?Hl2, ?Hl3, ?Hl4, ?Hl5; try apply Hrel.
  - rewrite ddel_filter, (g_open _ _ _ Hrel), list_filter_filter by apply Hok.
    apply filter_ext_in. intros [o' occ'] _. simpl. set_solver.
  - intros o' Ho'%(g_cancelled_ended _ _ _ Hrel). set_solver.
  - intros o' [Ho'%(g_ended _ _ _ Hrel)| ->%elem_of_singleton]%elem_of_union; [done|].
    apply (ok_in_flight _ _ Hok) in Hocc. lia.
  - intros o' [Ho'%(g_ending _ _ _ Hrel)| ->]%H4; set_solver.
  - rewrite ddel_filter, (g_frozen _ _ _ Hrel), list_filter_filter by apply Hok.
    apply filter_ext_in. intros [o' occ'] _. simpl. set_solver.
  - intros o'. pose proof (g_terminal _ _ _ Hrel o') as Ht. unfold ended_live.
    destruct (decide (o' = o)) as [->|Hno].
    + rewrite decide_True by set_solver. rewrite Hfo, <-Hret.
      destruct retired as [f|]; simpl; [by rewrite dget_dset_eq|]. by rewrite Ht, decide_False.
    + rewrite (decide_ext _ (o' ∈ lc_ended L)) by set_solver. rewrite <-Ht.
      destruct retired as [f|]; simpl; [by rewrite dget_dset_ne|done].
  - rewrite (g_scoped _ _ _ Hrel), !ddel_filter by (apply with_scope_keys, Hok || apply Hok).
    apply (with_scope_filter (λ z, z ≠ o)).
Qed.

(** ** Scope cancellation *)

Definition closed_state (L : LifecycleState) (ids : list Z) (prev : option HRecord) : LifecycleState :=
  MkLifecycle (lc_initiated L) (lc_begun L) (lc_ended L ∪ list_to_set ids) (lc_ending L) (lc_frozen L)
    (filter (λ kv : Z * LifecycleScope, kv.1 ∉ ids) (lc_scoped_open L))
    (lc_cancelled L ∪ list_to_set ids) None prev.

Lemma open_in_scope_scoped l sc : open_in_scope (omap with_scope (in_flight l)) sc = dkeys (scoped l sc).
Proof.
  unfold open_in_scope, scoped, dkeys. induction (in_flight l) as [|[o occ] d IH]; [done|].
  rewrite (filter_cons _ (o, occ)). csimpl.
  assert (with_scope (o, occ) = pair o <$> occ_scope occ) as -> by done.
  destruct (decide (in_scope sc occ)) as [Hin|Hin]; unfold in_scope in Hin.
  - apply bool_decide_unpack in Hin as ->. simpl. rewrite filter_cons, decide_True by done. csimpl. by rewrite IH.
  - destruct (occ_scope occ) as [sc'|]; simpl; [|done]. rewrite filter_cons, decide_False; [done|].
    simpl. intros ->. apply Hin. by apply bool_decide_pack.
Qed.

(** The occurrences a closure cancels have no frozen fact. *)
Lemma scoped_unfrozen c L l G sc o :
  live_ok c l → lifecycle_rel L l G → existsb (in_scope sc) (projection_pending l) = false →
  o ∈ dkeys (scoped l sc) → dget o (lc_frozen L) = None.
Proof.
  intros Hok Hrel Hp Ho. pose proof (proj1 (elem_of_scoped c l Hok _ _) Ho) as (occ & Hocc & _).
  apply (rel_in_flight Hrel) in Hocc as [_ He]. rewrite (rel_frozen Hrel) by done.
  rewrite <-(keep_frozen c l Hok sc Hp), dget_filter by apply Hok.
  destruct (dget o (frozen_results l)); [|done]. rewrite decide_False; [done|]. simpl. tauto.
Qed.

Lemma cancel_scope_step c L l G sc r :
  live_ok c l → lifecycle_rel L l G →
  existsb (in_scope sc) (projection_pending l) = false →
  is_begin_tail r = false →
  (∀ s, lifecycle_branch s r = cancel_scope s sc (dkeys (scoped l sc))) →
  lifecycle_step L r = Ok (closed_state L (dkeys (scoped l sc)) (Some r)).
Proof.
  intros Hok Hrel Hp Ht Hbr. unfold lifecycle_step. rewrite Ht, Hbr. unfold cancel_scope. simpl.
  rewrite (g_scoped _ _ _ Hrel), open_in_scope_scoped, bool_decide_true by done. simpl.
  assert (existsb (λ o, dmem o (lc_frozen L)) (dkeys (scoped l sc)) = false) as ->.
  { apply not_true_is_false. intros (o & Ho & Hm)%existsb_exists. apply list_elem_of_In in Ho.
    eapply scoped_unfrozen in Ho; [|done..]. apply dmem_false in Ho. congruence. }
  simpl. unfold closed_state. rewrite (g_scoped _ _ _ Hrel). rewrite foldl_ddel_filter by (apply with_scope_keys, Hok).
  done.
Qed.

Lemma rel_closed c L l G sc opened cl i prev :
  live_ok c l → lifecycle_rel L l G → scope_closure l sc = Ok cl →
  lifecycle_rel (closed_state L (dkeys (scoped l sc)) prev) (closed_live sc opened (cl_cancelled cl) i l) G.
Proof.
  intros Hok Hrel Hcl. rewrite (closed_live_eq c l Hok) by done.
  apply scope_closure_spec in Hcl as (_ & Hp & _).
  assert (∀ o, o ∈ dkeys (scoped l sc) → dget o (lc_frozen L) = None) as Hun
    by (intros o; by eapply scoped_unfrozen).
  assert (∀ o, o ∈ dkeys (scoped l sc) → ∃ occ, dget o (in_flight l) = Some occ ∧ occ_scope occ = Some sc) as Hin.
  { intros o (occ & Ho & Hs)%(elem_of_scoped c l Hok). exists occ. split; [done|]. by apply bool_decide_eq_true in Hs. }
  assert (∀ o, o ∈ lc_ended L ∪ list_to_set (dkeys (scoped l sc)) ↔ o ∈ lc_ended L ∨ o ∈ dkeys (scoped l sc)) as Hel
    by (intros o; by rewrite elem_of_union, elem_of_list_to_set).
  assert (∀ o, o ∈ lc_cancelled L ∪ list_to_set (dkeys (scoped l sc)) ↔ o ∈ lc_cancelled L ∨ o ∈ dkeys (scoped l sc)) as Hcc
    by (intros o; by rewrite elem_of_union, elem_of_list_to_set).
  split; simpl; try apply Hrel.
  - rewrite <-(keep_unscoped c l Hok sc), (g_open _ _ _ Hrel), list_filter_filter.
    apply filter_ext_in. intros [o occ] _. simpl. rewrite Hel. tauto.
  - intros o occ. rewrite dget_app. destruct (dget o (cancelled l)) as [occ'|] eqn:E.
    + intros [= ->]. by apply (g_cancelled _ _ _ Hrel).
    + intros Ho. assert (o ∈ dkeys (scoped l sc)) as Hk by (apply dget_is_Some; eauto).
      destruct (Hin _ Hk) as (occ' & Ho' & Hs). unfold scoped in Ho. rewrite dget_filter, Ho' in Ho by apply Hok.
      case_decide; [|done]. injection Ho as ->. apply (rel_in_flight Hrel) in Ho' as [? _]. eauto.
  - rewrite (g_cancelled_set _ _ _ Hrel), dkeys_app, list_to_set_app_L. done.
  - intros o. rewrite Hcc, Hel. intros [H%(g_cancelled_ended _ _ _ Hrel)|H]; auto.
  - intros o. rewrite Hcc. intros [H|H]; [by apply (g_cancelled_frozen _ _ _ Hrel)|by apply Hun].
  - intros o. rewrite Hel. intros [H|H]; [by apply (g_ended _ _ _ Hrel)|].
    apply Hin in H as (occ & H & _). apply (ok_in_flight _ _ Hok) in H. lia.
  - intros o H%(g_ending _ _ _ Hrel). rewrite Hel. by left.
  - rewrite (g_frozen _ _ _ Hrel). apply filter_ext_in. intros [o f] Hf. simpl. rewrite Hel.
    split; [|tauto]. intros H1 [H2|H2]; [done|]. apply Hun in H2. apply elem_of_dget in Hf; [congruence|apply Hrel].
  - intros o. rewrite (g_terminal _ _ _ Hrel). destruct (decide (o ∈ lc_ended L)) as [H|H].
    + rewrite decide_True; [done|]. rewrite Hel. by left.
    + case_decide as H2; [|done]. rewrite Hel in H2. destruct H2 as [?|H2]; [done|]. by rewrite Hun.
  - rewrite (g_scoped _ _ _ Hrel), <-(keep_unscoped c l Hok sc).
    apply (with_scope_filter (λ z, z ∉ dkeys (scoped l sc))).
Qed.


(** ** Activity facts *)

Definition quiet_state (L : LifecycleState) (frozen : list (Z * Terminal)) (prev : option HRecord) : LifecycleState :=
  MkLifecycle (lc_initiated L) (lc_begun L) (lc_ended L) (lc_ending L) frozen (lc_scoped_open L)
    (lc_cancelled L) None prev.

Lemma freeze_step L l G o occ v r :
  lifecycle_rel L l G → dget o (in_flight l) = Some occ → is_Some (occ_invocation occ) →
  dget o (frozen_results l) = None → is_begin_tail r = false →
  (∀ s, lifecycle_branch s r = (frozen ← freeze s (b_transition (occ_binding occ)) o (Ok v); Ok (with_frozen s frozen))) →
  lifecycle_step L r = Ok (quiet_state L (dset o v (lc_frozen L)) (Some r)).
Proof.
  intros Hrel Hocc Hinv Hfz Ht Hbr. apply (rel_in_flight Hrel) in Hocc as [HG Hne].
  rewrite <-(rel_frozen Hrel) in Hfz by done.
  destruct (g_occ _ _ _ Hrel _ _ HG) as (_ & _ & Hreb & _).
  unfold lifecycle_step. rewrite Ht, Hbr. unfold freeze. simpl.
  rewrite (rel_begun_default Hrel _ _ HG), (rb_requested _ Hreb), (bool_decide_true (is_Some _)) by done. simpl.
  unfold validate_activity_transition. rewrite (rb_boundary _ Hreb), (bool_decide_true (Some _ = Some _)) by done. simpl.
  rewrite (proj2 (dmem_false o (lc_frozen L))) by done. simpl.
  rewrite bool_decide_false; [done|]. intros Hc. by apply Hne, (g_cancelled_ended _ _ _ Hrel).
Qed.

Lemma rel_freeze L l G o occ v i prev :
  lifecycle_rel L l G → dget o (in_flight l) = Some occ → dget o (frozen_results l) = None →
  lifecycle_rel (quiet_state L (dset o v (lc_frozen L)) prev)
    (set_frozen_results (dset o v (frozen_results l)) (set_watermark i l)) G.
Proof.
  intros Hrel Hocc Hfz. apply (rel_in_flight Hrel) in Hocc as [HG Hne].
  pose proof Hfz as Hfl. rewrite <-(rel_frozen Hrel) in Hfz by done.
  split; simpl; try apply Hrel.
  - intros o' Ho'. rewrite dget_dset_ne; [by apply (g_cancelled_frozen _ _ _ Hrel)|].
    intros ->. by apply Hne, (g_cancelled_ended _ _ _ Hrel).
  - rewrite !dset_fresh by done. rewrite filter_app, filter_cons, filter_nil, decide_True by done.
    by rewrite (g_frozen _ _ _ Hrel).
  - apply NoDup_dkeys_dset, Hrel.
  - intros o' f. rewrite dget_dset. case_decide; [subst; eauto|]. apply (g_frozen_begun _ _ _ Hrel).
  - intros o'. rewrite (g_terminal _ _ _ Hrel). case_decide as He; [|done]. rewrite dget_dset_ne; [done|]. by intros ->.
Qed.

(** Records the relation does not see. *)
Lemma quiet_step L r :
  is_begin_tail r = false → (∀ s, lifecycle_branch s r = Ok s) →
  lifecycle_step L r = Ok (quiet_state L (lc_frozen L) (Some r)).
Proof. intros Ht Hbr. unfold lifecycle_step. by rewrite Ht, Hbr. Qed.

Lemma quiet_core L prev : same_core L (quiet_state L (lc_frozen L) prev).
Proof. done. Qed.

Lemma quiet_steps L batch :
  Forall (λ r, is_begin_tail r = false ∧ ∀ s, lifecycle_branch s r = Ok s) batch →
  ∃ L', foldM lifecycle_step L batch = Ok L' ∧ same_core L L'.
Proof.
  intros Hall. revert L. induction Hall as [|r batch [Ht Hbr] _ IH]; intros L; [by exists L|].
  cbn [foldM]. rewrite quiet_step by done. cbn [mbind result_bind].
  destruct (IH (quiet_state L (lc_frozen L) (Some r))) as (L' & HL & Hc). eauto.
Qed.

Lemma quarantine_lifecycle_step L l G o occ outcome scope i :
  lifecycle_rel L l G → dget o (cancelled l) = Some occ →
  lifecycle_step L (ActivityTerminalQuarantined (b_transition (occ_binding occ)) outcome scope o i)
  = Ok (quiet_state L (lc_frozen L) (Some (ActivityTerminalQuarantined (b_transition (occ_binding occ)) outcome scope o i))).
Proof.
  intros Hrel Hocc. destruct (g_cancelled _ _ _ Hrel _ _ Hocc) as [HG _].
  destruct (g_occ _ _ _ Hrel _ _ HG) as (_ & _ & Hreb & _).
  unfold lifecycle_step. simpl. rewrite (rel_begun_mem Hrel _ _ HG). simpl.
  unfold validate_activity_transition.
  by rewrite (rel_begun_default Hrel _ _ HG), (rb_boundary _ Hreb), bool_decide_true by done.
Qed.

(** ** Completion and failure batches *)

Definition ending_only (o : Z) (L L' : LifecycleState) : Prop :=
  lc_initiated L' = lc_initiated L ∧ lc_begun L' = lc_begun L ∧ lc_ended L' = lc_ended L ∧
  (∀ z, z ∈ lc_ending L' → z ∈ lc_ending L ∨ z = o) ∧ lc_frozen L' = lc_frozen L ∧
  lc_scoped_open L' = lc_scoped_open L ∧ lc_cancelled L' = lc_cancelled L.

Lemma ending_steps o L batch :
  Forall (λ r, is_begin_tail r = false ∧ ∀ s, lifecycle_branch s r = Ok (with_ending s (lc_ending s ∪ {[o]}))) batch →
  ∃ L', foldM lifecycle_step L batch = Ok L' ∧ ending_only o L L'.
Proof.
  intros Hall. revert L. induction Hall as [|r batch [Ht Hbr] _ IH]; intros L.
  { exists L. repeat split; auto. }
  cbn [foldM]. unfold lifecycle_step at 2. rewrite Ht, Hbr. cbn [mbind result_bind].
  match goal with |- ∃ L', foldM _ ?s _ = _ ∧ _ => destruct (IH s) as (L' & HL & H1 & H2 & H3 & H4 & H5 & H6 & H7) end.
  exists L'. split; [done|]. simpl in *. repeat split; try done.
  intros z [Hz|Hz]%H4; [set_solver|by right].
Qed.

(** The terminal boundary of an in-flight occurrence is accepted. *)
Lemma terminal_step_ended L l G o occ L1 r :
  lifecycle_rel L l G → ending_only o L L1 → dget o (in_flight l) = Some occ →
  is_begin_tail r = false →
  (∀ s, lifecycle_branch s r = terminal_boundary s (b_transition (occ_binding occ)) o) →
  ∃ L', lifecycle_step L1 r = Ok L' ∧ ended_state L o L'.
Proof.
  intros Hrel (H1 & H2 & H3 & H4 & H5 & H6 & H7) Hocc Ht Hbr.
  apply (rel_in_flight Hrel) in Hocc as [HG Hne]. destruct (g_occ _ _ _ Hrel _ _ HG) as (_ & _ & Hreb & _).
  unfold lifecycle_step. rewrite Ht, Hbr. unfold terminal_boundary. simpl.
  rewrite H2, H3, H6, H7. rewrite (rel_begun_mem Hrel _ _ HG), (rel_begun_default Hrel _ _ HG), (rb_boundary _ Hreb). simpl.
  rewrite (bool_decide_true (Some _ = Some _)) by done. simpl.
  rewrite (bool_decide_false (o ∈ lc_cancelled L)) by (intros Hc; by apply Hne, (g_cancelled_ended _ _ _ Hrel)).
  rewrite (bool_decide_false (o ∈ lc_ended L)) by done. simpl.
  eexists. split; [done|]. split; simpl; try done.
Qed.

(** ** Every commit *)

Definition lifecycle_coherent (h : list HRecord) (l : Live) : Prop :=
  ∃ L G, sorted_lifecycle h = Ok L ∧ lifecycle_rel L l G.

Lemma selected_initiates t o i : initiates (CandidateSelected t o i) o i t [].
Proof. done. Qed.

Lemma delivered_initiates t ts identity o sc i :
  initiates (ExternalEventDelivered t ts identity o sc i) o i t ts.
Proof. done. Qed.

Lemma lifecycle_begin L l G b i inv scope batch occ movements qs qs' initiation :
  (1 ≤ next_occurrence l)%Z → lifecycle_rel L l G →
  begun_by l b i initiation inv scope batch occ movements qs →
  initiates (initiation (occ_id occ) i) (occ_id occ) i (b_transition b) (b_delivered b) →
  (b_delivered b ≠ [] → b_consumed b = [] ∧ b_read b = []) →
  ∃ L' G', foldM lifecycle_step L batch = Ok L' ∧ lifecycle_rel L' (begun_live occ qs' i l) G'.
Proof.
  intros Hpos Hrel Hbb Hini Hdel.
  destruct (begin_fold _ _ _ _ _ _ _ _ _ _ _ _ _ Hrel Hbb eq_refl Hini) as [prev Hf].
  eexists _, _. split; [exact Hf|]. eapply rel_tables; [|eapply rel_begin; [done|done|done|by eapply begun_rebuildable]].
  unfold begun_live. by destruct (occ_invocation occ).
Qed.

Lemma completed_live_tables o retired sc minted cursor armed' i l :
  same_tables (ended_live o retired l) (completed_live o retired sc minted cursor armed' i l).
Proof. unfold completed_live, ended_live. by destruct retired. Qed.

Lemma ended_live_tables o retired i l :
  same_tables (ended_live o retired l) (ended_live o retired (set_watermark i l)).
Proof. unfold ended_live. by destruct retired. Qed.

Lemma completion_ending o sc i minted (closes opens : list DeliveryRegistration) :
  Forall (λ r, is_begin_tail r = false ∧ ∀ s, lifecycle_branch s r = Ok (with_ending s (lc_ending s ∪ {[o]})))
    ((produced_record o sc i <$> minted) ++ (closed_record o i <$> closes) ++ (opened_record o i <$> opens)).
Proof. rewrite !Forall_app. split_and!; apply Forall_fmap, Forall_true; done. Qed.

Lemma lifecycle_commit c h l batch l' :
  live_ok c l → commit c l batch l' → lifecycle_coherent h l → lifecycle_coherent (h ++ batch) l'.
Proof.
  intros Hok Hc (L & G & Hh & Hrel). unfold lifecycle_coherent, sorted_lifecycle in *.
  setoid_rewrite foldM_app. rewrite Hh. cbn [mbind result_bind].
  assert (Hquiet : Forall (λ r, is_begin_tail r = false ∧ ∀ s, lifecycle_branch s r = Ok s) batch →
    same_tables l l' → ∃ L' G', foldM lifecycle_step L batch = Ok L' ∧ lifecycle_rel L' l' G').
  { intros Hall Ht. destruct (quiet_steps L _ Hall) as (L' & HL & Hcore). exists L', G. split; [done|].
    eapply rel_tables; [exact Ht|]. by eapply rel_core. }
  destruct Hc; try (apply Hquiet; [by repeat constructor|done]).
  - pose proof (scope_closure_spec _ _ _ H0) as (_ & Hp & Hcl).
    eexists _, G. rewrite foldM_single. split; [|by eapply rel_closed].
    apply (cancel_scope_step c L l G); [done..|]. intros s. unfold r. rewrite Hcl. simpl. by rewrite (cancelled_ids c l Hok).
  - pose proof (scope_closure_spec _ _ _ H0) as (_ & Hp & Hcl).
    eexists _, G. rewrite foldM_single. split; [|by eapply rel_closed].
    apply (cancel_scope_step c L l G); [done..|]. intros s. unfold r. rewrite Hcl. simpl. by rewrite (cancelled_ids c l Hok).
  - destruct (begin_batch_spec _ _ _ _ _ _ _ _ H5) as (movements & qs' & Hbb).
    eapply lifecycle_begin; [apply Hok|done|exact Hbb| |by rewrite H2].
    rewrite H2. apply selected_initiates.
  - destruct (begin_batch_spec _ _ _ _ _ _ _ _ H6) as (movements & qs' & Hbb).
    edestruct (lifecycle_begin L l G) as (L' & G' & Hf & Hr);
      [apply Hok|done|exact Hbb|apply delivered_initiates|done|].
    exists L', G'. split; [exact Hf|]. eapply rel_tables; [|exact Hr]. done.
  - eexists _, G. rewrite foldM_single. split; [|by eapply rel_freeze]. by eapply freeze_step.
  - eexists _, G. rewrite foldM_single. split; [|by eapply rel_freeze]. eapply freeze_step; try done.
    intros s. simpl. by rewrite H3.
  - eexists _, G. rewrite foldM_single. split; [by eapply quarantine_lifecycle_step|].
    eapply rel_tables; [|eapply rel_core; [apply quiet_core|done]]. done.
  - apply completion_batch_spec in H0 as (env & effects & m' & Hens & _ & _ & _ & _ & _ & -> & _).
    destruct (ensured c l Hok _ Hens) as (live_occ & Hl & Heq & _).
    pose proof (retired_spec c l Hok _ _ _ Hl Heq H1) as Hret.
    apply occurrence_eq_spec in Heq as (_ & _ & Htr & _). rewrite <-Htr.
    destruct (ending_steps (occ_id occ) L _ (completion_ending (occ_id occ) (occ_scope occ) i minted
                 (hr_closes env) (hr_opens env))) as (L1 & HL1 & Hend).
    destruct (terminal_step_ended L l G _ _ L1 (FiringCompleted (b_transition (occ_binding live_occ)) (occ_id occ) i)
                Hrel Hend Hl) as (L' & HL' & Hes); [done..|].
    exists L', G. rewrite !(assoc_L (++)), foldM_app, <-(assoc_L (++)), HL1. cbn [mbind result_bind].
    rewrite foldM_single. split; [exact HL'|].
    eapply rel_tables; [apply completed_live_tables|]. by eapply rel_ended.
  - destruct (ensured c l Hok _ H0) as (live_occ & Hl & Heq & _).
    pose proof (retired_spec c l Hok _ _ _ Hl Heq H1) as Hret.
    apply occurrence_eq_spec in Heq as (_ & _ & Htr & _). subst r. rewrite <-Htr.
    destruct (terminal_step_ended L l G _ _ L (FiringFailed (b_transition (occ_binding live_occ)) error (occ_id occ) i)
                Hrel ltac:(repeat split; auto) Hl) as (L' & HL' & Hes); [done..|].
    exists L', G. rewrite foldM_single. split; [exact HL'|].
    eapply rel_tables; [apply ended_live_tables|]. by eapply rel_ended.
  - apply Hquiet; [|done]. subst r. unfold scoped_disposition. repeat case_match; by repeat constructor.
  - apply Hquiet; [|done]. apply Forall_fmap, Forall_true. done.
Qed.
