(* ===== verification/Projections.v ===== *)
(** * The lifecycle projections of the history equal the live tables

    In-flight, activity, cancelled, projection-pending, terminal and
    quarantined occurrences, from the lifecycle relation and two small folds of
    their own. *)

From stdpp Require Import base gmap sets list strings pretty sorting.
From Stdlib Require Import Ascii ZArith Lia.
From S2P Require Import Prelude PyData Schema Marking Enabledness Firing Activity Records Replay Lifecycle Instance Construction Commit Invariant Coherence LifecycleCoherence.
Open Scope string_scope.
Open Scope list_scope.

(** ** Rebuilding begun occurrences *)

Lemma mapR_map {A B} (f : A → result B) (g : A → B) k :
  (∀ x, x ∈ k → f x = Ok (g x)) → mapR f k = Ok (g <$> k).
Proof.
  induction k as [|x k IH]; intros Hf; csimpl; [done|].
  rewrite Hf by set_solver. simpl. rewrite IH by set_solver. done.
Qed.

Lemma mapR_fmap {A B C} (f : B → result C) (g : A → B) k : mapR f (g <$> k) = mapR (f ∘ g) k.
Proof. induction k as [|x k IH]; csimpl; [done|]. by rewrite IH. Qed.

Lemma filter_with_records (P : Z * list HRecord → Prop) (Q : Z * FiringOccurrence → Prop)
    `{∀ x, Decision (P x), ∀ x, Decision (Q x)} (G : list (Z * FiringOccurrence)) :
  (∀ kv, kv ∈ G → P (with_records kv) ↔ Q kv) →
  filter P (with_records <$> G) = with_records <$> filter Q G.
Proof.
  induction G as [|kv G IH]; intros HPQ; [done|]. csimpl. rewrite !filter_cons, IH by set_solver.
  specialize (HPQ kv ltac:(set_solver)). destruct (decide (Q kv)).
  - by rewrite decide_True by tauto.
  - by rewrite decide_False by tauto.
Qed.

Section projections.
  Context {L : LifecycleState} {l : Live} {G : list (Z * FiringOccurrence)}.
  Context (Hrel : lifecycle_rel L l G).

Lemma rel_rebuild kv : kv ∈ G → rebuild L (with_records kv) = Ok kv.2.
Proof.
  destruct kv as [o occ]. intros HG. apply elem_of_dget in HG; [|apply Hrel].
  destruct (g_occ _ _ _ Hrel _ _ HG) as (Hid & _ & Hreb & Hi). unfold rebuild, with_records. simpl. rewrite Hi. simpl.
  assert ((if bool_decide (o ∈ lc_ended L) then Ok () else refuse_torn_batch o (lc_ending L)) = Ok ()) as ->.
  { case_bool_decide; [done|]. unfold refuse_torn_batch.
    rewrite bool_decide_false; [done|]. intros H2%(g_ending _ _ _ Hrel). done. }
  simpl. rewrite (rb_ordered _ Hreb). simpl. rewrite <-Hid at 1. apply Hreb.
Qed.

Lemma rel_in_flight_of : in_flight_of L = Ok (dvals (in_flight l)).
Proof.
  unfold in_flight_of. rewrite (g_begun _ _ _ Hrel).
  rewrite (filter_with_records _ (λ kv, kv.1 ∉ lc_ended L)) by done.
  rewrite mapR_fmap, <-(g_open _ _ _ Hrel), (mapR_map _ snd); [done|].
  intros kv Hkv. apply rel_rebuild. rewrite (g_open _ _ _ Hrel) in Hkv.
  by apply list_elem_of_filter in Hkv as [_ ?].
Qed.

Lemma rel_pending : pending_of L = frozen_results l.
Proof.
  unfold pending_of. rewrite (g_frozen _ _ _ Hrel). apply filter_ext_in. intros [o f] Hf. simpl.
  apply elem_of_dget in Hf; [|apply Hrel]. destruct (g_frozen_begun _ _ _ Hrel _ _ Hf) as [occ HG].
  rewrite (rel_begun_mem Hrel _ _ HG). split; [tauto|]. by split.
Qed.

Lemma rel_activity :
  mapR (rebuild_activity L) (filter (λ orec : Z * list HRecord, existsb is_requested orec.2) (lc_begun L))
  = Ok (dvals (activity_occurrences l)).
Proof.
  rewrite (g_begun _ _ _ Hrel).
  rewrite (filter_with_records _ (λ kv, is_Some (occ_invocation kv.2))).
  2:{ intros [o occ] HG. apply elem_of_dget in HG; [|apply Hrel]. simpl.
      destruct (g_occ _ _ _ Hrel _ _ HG) as (_ & _ & Hreb & _). rewrite (rb_requested _ Hreb). apply bool_decide_spec. }
  rewrite mapR_fmap, <-(g_activity _ _ _ Hrel), (mapR_map _ snd); [done|].
  intros [o occ] HG. rewrite (g_activity _ _ _ Hrel) in HG. apply list_elem_of_filter in HG as [_ HG].
  apply elem_of_dget in HG; [|apply Hrel]. destruct (g_occ _ _ _ Hrel _ _ HG) as (Hid & _ & Hreb & Hi).
  unfold rebuild_activity, with_records. simpl. rewrite Hi. simpl. rewrite (rb_ordered _ Hreb). simpl.
  rewrite <-Hid at 1. apply Hreb.
Qed.

Lemma rel_cancelled :
  NoDup (dkeys (cancelled l)) →
  mapR (rebuild_cancelled L) (omap with_scope (cancelled l)) = Ok (dvals (cancelled l)).
Proof.
  intros Hnd. pose proof (λ o occ H, g_cancelled _ _ _ Hrel o occ (elem_of_dget o occ _ Hnd H)) as Hc. clear Hnd.
  induction (cancelled l) as [|[o occ] d IH]; [done|].
  destruct (Hc o occ) as [HG [sc Hs]]; [set_solver|]. csimpl.
  assert (with_scope (o, occ) = Some (o, sc)) as -> by (unfold with_scope; simpl; by rewrite Hs).
  csimpl. destruct (g_occ _ _ _ Hrel _ _ HG) as (Hid & _ & Hreb & Hi).
  assert (rebuild_cancelled L (o, sc) = Ok occ) as ->.
  { unfold rebuild_cancelled. simpl. rewrite (rel_begun Hrel _ _ HG), Hi. rewrite <-Hid at 1.
    rewrite (rb_rebuilt _ Hreb). simpl. by rewrite Hs, bool_decide_true. }
  simpl. rewrite IH; [done|]. intros o' occ' Hin. apply Hc. set_solver.
Qed.
End projections.

(** ** Cancellations and quarantined terminals *)

Definition cancelled_coherent (h : list HRecord) (l : Live) : Prop :=
  foldM cancelled_step [] h = Ok (omap with_scope (cancelled l)) ∧
  foldM quarantine_step ([], []) h = Ok (quarantined_activity l, omap with_scope (cancelled l)) ∧
  ∀ o occ, dget o (cancelled l) = Some occ → is_Some (occ_scope occ).

Lemma cancel_all_fresh sc d ids :
  NoDup ids → Forall (λ o, dget o d = None) ids → cancel_all sc d ids = Ok (d ++ ((λ o, (o, sc)) <$> ids)).
Proof.
  unfold cancel_all. revert d. induction ids as [|o ids IH]; intros d Hnd Hall; csimpl; [by rewrite app_nil_r|].
  apply NoDup_cons in Hnd as [Ho Hnd]. apply Forall_cons in Hall as [Hd Hall].
  rewrite (proj2 (dmem_false o d)) by done. simpl. rewrite dset_fresh by done. rewrite IH; [|done|].
  - by rewrite <-(assoc_L (++)).
  - rewrite Forall_forall in *. intros o' Ho'. rewrite dget_app, Hall by done. simpl.
    rewrite decide_False; [done|]. by intros ->.
Qed.

Lemma with_scope_scoped l sc :
  omap with_scope (scoped l sc) = (λ o, (o, sc)) <$> dkeys (scoped l sc).
Proof.
  unfold scoped, dkeys. induction (in_flight l) as [|[o occ] d IH]; [done|]. rewrite filter_cons. simpl.
  case_decide as Hs; [|done]. csimpl. apply bool_decide_unpack in Hs.
  unfold with_scope at 1. simpl. rewrite Hs. simpl. by rewrite IH.
Qed.

Lemma with_scope_dget (d : list (Z * FiringOccurrence)) o :
  NoDup (dkeys d) → dget o (omap with_scope d) = dget o d ≫= occ_scope.
Proof.
  induction d as [|[k occ] d IH]; [done|]. unfold dkeys. csimpl. intros [Hk Hd]%NoDup_cons. specialize (IH Hd).
  unfold with_scope at 1. simpl. destruct (decide (o = k)) as [->|Hne].
  - destruct (occ_scope occ) eqn:E; simpl; [by rewrite decide_True by done|].
    fold (dkeys d) in Hk. apply dget_None in Hk. by rewrite IH, Hk.
  - destruct (occ_scope occ); simpl; [by rewrite decide_False by done|done].
Qed.

Lemma cancel_all_scoped c l sc :
  live_ok c l →
  cancel_all sc (omap with_scope (cancelled l)) (dkeys (scoped l sc))
  = Ok (omap with_scope (cancelled l ++ scoped l sc)).
Proof.
  intros Hok. destruct (scoped_ids_ok c l Hok sc) as [Hnd Hids]. rewrite cancel_all_fresh; [|done|].
  - by rewrite omap_app, with_scope_scoped.
  - eapply Forall_impl; [exact Hids|]. intros o [_ Hc]. by rewrite with_scope_dget, Hc by apply Hok.
Qed.

(** Records neither fold sees. *)
Definition inert_record (r : HRecord) : Prop :=
  (∀ s, cancelled_step s r = Ok s) ∧ (∀ s, quarantine_step s r = Ok s).

Lemma inert_fold batch s q :
  Forall inert_record batch → foldM cancelled_step s batch = Ok s ∧ foldM quarantine_step q batch = Ok q.
Proof.
  induction 1 as [|r batch [H1 H2] _ [IH1 IH2]]; [done|]. cbn [foldM]. rewrite H1, H2. cbn [mbind result_bind]. done.
Qed.

Lemma begun_records_are l b i initiation inv scope batch occ movements qs (P : HRecord → Prop) :
  begun_by l b i initiation inv scope batch occ movements qs →
  P (initiation (occ_id occ) i) →
  (∀ r, is_movement (occ_id occ) (occ_scope occ) i r → P r) →
  P (FiringBegun (b_transition b) (occ_id occ) (occ_scope occ) i) →
  (∀ v, inv = Some v → P (requested_record (b_transition b) (occ_id occ) (occ_scope occ) i v)) →
  Forall P batch.
Proof.
  intros Hbb H1 H2 H3 H4. destruct (movements_spec _ _ _ _ _ _ _ _ _ _ Hbb) as (Hmv & _).
  rewrite (bb_batch _ _ _ _ _ _ _ _ _ _ Hbb), (bb_records _ _ _ _ _ _ _ _ _ _ Hbb).
  constructor; [done|]. constructor; [done|]. apply Forall_app. split; [by eapply Forall_impl|].
  destruct inv; [|done]. constructor; [by apply H4|done].
Qed.

Lemma completion_records_are o t sc i minted (closes opens : list DeliveryRegistration) (P : HRecord → Prop) :
  (∀ ee, P (produced_record o sc i ee)) → (∀ r, P (closed_record o i r)) → (∀ r, P (opened_record o i r)) →
  P (FiringCompleted t o i) →
  Forall P ((produced_record o sc i <$> minted) ++ (closed_record o i <$> closes)
     ++ (opened_record o i <$> opens) ++ [FiringCompleted t o i]).
Proof.
  intros H1 H2 H3 H4. rewrite !Forall_app. split; [|split; [|split]].
  1-3: apply Forall_fmap, Forall_true; auto. by constructor.
Qed.

Lemma completed_live_marks o retired sc minted cursor armed' i l :
  cancelled (completed_live o retired sc minted cursor armed' i l) = cancelled l ∧
  quarantined_activity (completed_live o retired sc minted cursor armed' i l) = quarantined_activity l.
Proof. unfold completed_live, ended_live. by destruct retired. Qed.

Lemma begun_live_marks occ qs i l :
  cancelled (begun_live occ qs i l) = cancelled l ∧
  quarantined_activity (begun_live occ qs i l) = quarantined_activity l.
Proof. unfold begun_live. by destruct (occ_invocation occ). Qed.

Lemma cancelled_commit c h l batch l' :
  live_ok c l → commit c l batch l' → cancelled_coherent h l → cancelled_coherent (h ++ batch) l'.
Proof.
  intros Hok Hc (HC & HQ & Hs).
  assert (Hinert : Forall inert_record batch →
    cancelled l' = cancelled l ∧ quarantined_activity l' = quarantined_activity l → cancelled_coherent (h ++ batch) l').
  { intros Hall [E1 E2]. destruct (inert_fold _ (omap with_scope (cancelled l))
      (quarantined_activity l, omap with_scope (cancelled l)) Hall) as [F1 F2].
    unfold cancelled_coherent. rewrite !foldM_app, HC, HQ, E1, E2. cbn [mbind result_bind]. by rewrite F1, F2. }
  assert (Hclose : ∀ sc closure opened i r, scope_closure l sc = Ok closure →
    (∀ s, cancelled_step s r = cancel_all sc s (cl_cancelled closure)) →
    (∀ s, quarantine_step s r = (d ← cancel_all sc s.2 (cl_cancelled closure); Ok (s.1, d))) →
    cancelled_coherent (h ++ [r]) (closed_live sc opened (cl_cancelled closure) i l)).
  { intros sc closure opened i r Hcl F1 F2. unfold cancelled_coherent. rewrite !foldM_app, HC, HQ.
    cbn [mbind result_bind]. rewrite !foldM_single, F1, F2.
    rewrite (closed_live_eq c l Hok) by done.
    apply scope_closure_spec in Hcl as (_ & _ & ->). simpl. rewrite (cancelled_ids c l Hok).
    rewrite (cancel_all_scoped c l) by done. simpl. split; [done|]. split; [done|].
    intros o occ. rewrite dget_app. destruct (dget o (cancelled l)) as [occ'|] eqn:E.
    - intros [= ->]. by eapply Hs.
    - unfold scoped. rewrite dget_filter by apply Hok. destruct (dget o (in_flight l)) as [occ'|]; [|done].
      case_decide as Hin; [|done]. intros [= ->]. apply bool_decide_unpack in Hin. eauto. }
  destruct Hc; try (apply Hinert; [by repeat constructor|done]).
  - by apply Hclose.
  - by apply Hclose.
  - destruct (begin_batch_spec _ _ _ _ _ _ _ _ H5) as (movements & qs' & Hbb).
    apply Hinert; [|apply begun_live_marks]. eapply begun_records_are; [exact Hbb|done| |done|done].
    intros []; done.
  - destruct (begin_batch_spec _ _ _ _ _ _ _ _ H6) as (movements & qs' & Hbb).
    apply Hinert; [|apply begun_live_marks]. eapply begun_records_are; [exact Hbb|done| |done|done].
    intros []; done.
  - unfold cancelled_coherent. rewrite !foldM_app, HC, HQ. cbn [mbind result_bind]. rewrite !foldM_single. simpl.
    split; [done|]. split; [|done].
    rewrite with_scope_dget, H0 by apply Hok. simpl. rewrite H1, bool_decide_true by done. simpl.
    by rewrite (proj2 (dmem_false _ (quarantined_activity l))).
  - apply completion_batch_spec in H0 as (env & effects & m' & Hens & _ & _ & _ & _ & _ & -> & _).
    apply Hinert; [|apply completed_live_marks]. by apply completion_records_are.
  - apply Hinert; [by repeat constructor|]. unfold ended_live. by destruct retired.
  - apply Hinert; [|done]. subst r. unfold scoped_disposition. repeat case_match; by repeat constructor.
  - apply Hinert; [|done]. apply Forall_fmap, Forall_true. done.
Qed.

(** ** Terminal activity facts *)

Record terminal_rel (E : gset Z) (F : list (Z * Terminal)) (l : Live) : Prop := {
  t_open o occ : dget o (in_flight l) = Some occ → o ∉ E ∧ dget o F = dget o (frozen_results l);
  t_terminal o : dget o (terminal_activity l) = if decide (o ∈ E) then dget o F else None;
  t_ended o : o ∈ E → (o < next_occurrence l)%Z;
  t_fact o : is_Some (dget o F) → (o < next_occurrence l)%Z;
  t_keys : NoDup (dkeys F)
}.

Definition terminal_coherent (h : list HRecord) (l : Live) : Prop :=
  ∃ E F, foldM terminal_step (∅, []) h = Ok (E, F) ∧ terminal_rel E F l.

Lemma terminal_quiet batch s : Forall (λ r, ∀ s, terminal_step s r = Ok s) batch → foldM terminal_step s batch = Ok s.
Proof. induction 1 as [|r batch Hr _ IH]; [done|]. cbn [foldM]. by rewrite Hr. Qed.

Lemma terminal_tables E F l l' : same_tables l l' → terminal_rel E F l → terminal_rel E F l'.
Proof.
  intros (H1 & H2 & H3 & H4 & H5 & H6) []. split; rewrite ?H1, ?H2, ?H5, ?H6; done.
Qed.

Lemma terminal_freeze E F l o occ v i :
  terminal_rel E F l → dget o (in_flight l) = Some occ → (o < next_occurrence l)%Z →
  terminal_rel E (dset o v F) (set_frozen_results (dset o v (frozen_results l)) (set_watermark i l)).
Proof.
  intros [H1 H2 H3 H4 H5] Hocc Hlt. split; simpl; try done.
  - intros o' occ' Ho'. destruct (H1 _ _ Ho') as [? Hd]. split; [done|]. rewrite !dget_dset. by case_decide.
  - intros o'. rewrite H2. case_decide as He; [|done]. rewrite dget_dset_ne; [done|].
    intros ->. by apply H1 in Hocc as [? _].
  - intros o'. rewrite dget_dset. case_decide; [by subst|]. apply H4.
  - by apply NoDup_dkeys_dset.
Qed.

Lemma terminal_ended c E F l o occ retired :
  live_ok c l → terminal_rel E F l → dget o (in_flight l) = Some occ → retired = dget o (frozen_results l) →
  terminal_rel (E ∪ {[o]}) F (ended_live o retired l).
Proof.
  intros Hok [H1 H2 H3 H4 H5] Hocc Hret. destruct (H1 _ _ Hocc) as [Hne Hd].
  assert (next_occurrence (ended_live o retired l) = next_occurrence l ∧
          in_flight (ended_live o retired l) = ddel o (in_flight l) ∧
          frozen_results (ended_live o retired l) = ddel o (frozen_results l)) as (Hl1 & Hl2 & Hl3).
  { unfold ended_live. destruct retired; simpl; [done|]. rewrite (ddel_absent o (frozen_results l)) by done. done. }
  split; rewrite ?Hl1, ?Hl2, ?Hl3; try done.
  - intros o' occ'. rewrite dget_ddel by apply Hok. case_decide as Hno; [done|]. intros Ho'.
    destruct (H1 _ _ Ho') as [? ->]. rewrite dget_ddel_ne by done. split; [set_solver|done].
  - intros o'. unfold ended_live. destruct (decide (o' = o)) as [->|Hno].
    + rewrite decide_True by set_solver. rewrite Hd, <-Hret.
      destruct retired; simpl; [by rewrite dget_dset_eq|]. by rewrite H2, decide_False.
    + rewrite (decide_ext _ (o' ∈ E)) by set_solver. rewrite <-H2.
      destruct retired; simpl; [by rewrite dget_dset_ne|done].
  - intros o' [?| ->%elem_of_singleton]%elem_of_union; [by apply H3|]. by apply (ok_in_flight _ _ Hok) in Hocc as (_ & [_ ?] & _).
Qed.

Lemma terminal_begun E F l occ qs i :
  terminal_rel E F l → occ_id occ = next_occurrence l → dget (occ_id occ) (frozen_results l) = None →
  terminal_rel E F (begun_live occ qs i l).
Proof.
  intros [H1 H2 H3 H4 H5] Hid Hfz.
  assert (next_occurrence (begun_live occ qs i l) = (next_occurrence l + 1)%Z ∧
          in_flight (begun_live occ qs i l) = dset (occ_id occ) occ (in_flight l) ∧
          frozen_results (begun_live occ qs i l) = frozen_results l ∧
          terminal_activity (begun_live occ qs i l) = terminal_activity l) as (Hl1 & Hl2 & Hl3 & Hl4)
    by (unfold begun_live; by destruct (occ_invocation occ)).
  split; rewrite ?Hl1, ?Hl2, ?Hl3, ?Hl4; try done.
  - intros o occ'. rewrite dget_dset. case_decide as Ho; [|by apply H1]. intros _. subst o. split.
    + intros He%H3. lia.
    + rewrite Hfz. destruct (dget (occ_id occ) F) eqn:Ef; [|done].
      assert (occ_id occ < next_occurrence l)%Z by (apply H4; eauto). lia.
  - intros o Ho%H3. lia.
  - intros o Ho%H4. lia.
Qed.

Lemma terminal_closed c E F l sc opened cl i :
  live_ok c l → terminal_rel E F l → scope_closure l sc = Ok cl →
  terminal_rel E F (closed_live sc opened (cl_cancelled cl) i l).
Proof.
  intros Hok [H1 H2 H3 H4 H5] Hcl. rewrite (closed_live_eq c l Hok) by done. split; simpl; try done.
  intros o occ. unfold unscoped. rewrite dget_filter by apply Hok.
  destruct (dget o (in_flight l)) eqn:E'; [|done]. intros _. by eapply H1.
Qed.

Lemma terminal_fact E F l o occ v :
  terminal_rel E F l → dget o (in_flight l) = Some occ → dget o (frozen_results l) = None →
  raise_if (dmem o F) (ValueError "replay divergence: a second terminal activity fact") ≫= (λ _,
    raise_if (bool_decide (o ∈ E)) (ValueError "replay divergence: a terminal activity fact after its firing ended") ≫= (λ _,
      v ← Ok v; Ok (E, dset o v F))) = Ok (E, dset o v F).
Proof.
  intros [H1 _ _ _ _] Hocc Hfz. destruct (H1 _ _ Hocc) as [Hne Hd]. rewrite Hfz in Hd.
  by rewrite (proj2 (dmem_false o F)), (bool_decide_false (o ∈ E)) by done.
Qed.

Lemma terminal_commit c h l batch l' :
  live_ok c l → commit c l batch l' → terminal_coherent h l → terminal_coherent (h ++ batch) l'.
Proof.
  intros Hok Hc (E & F & Hh & Hrel). unfold terminal_coherent. setoid_rewrite foldM_app. rewrite Hh. cbn [mbind result_bind].
  assert (Hquiet : Forall (λ r, ∀ s, terminal_step s r = Ok s) batch → terminal_rel E F l' →
    ∃ E' F', foldM terminal_step (E, F) batch = Ok (E', F') ∧ terminal_rel E' F' l').
  { intros Hq Hr. exists E, F. by rewrite terminal_quiet. }
  destruct Hc; try (apply Hquiet; [by repeat constructor|eapply terminal_tables; [|exact Hrel]; done]).
  - apply Hquiet; [by repeat constructor|by eapply terminal_closed].
  - apply Hquiet; [by repeat constructor|by eapply terminal_closed].
  - destruct (begin_batch_spec _ _ _ _ _ _ _ _ H5) as (movements & qs' & Hbb).
    apply Hquiet; [eapply begun_records_are; [exact Hbb|done| |done|done]; intros []; done|].
    pose proof (bb_id _ _ _ _ _ _ _ _ _ _ Hbb) as Hid. apply terminal_begun; [done|done|].
    destruct (dget _ (frozen_results l)) eqn:Ef; [|done]. apply (ok_frozen _ _ Hok) in Ef as (occ' & Ho & _).
    apply (ok_in_flight _ _ Hok) in Ho. lia.
  - destruct (begin_batch_spec _ _ _ _ _ _ _ _ H6) as (movements & qs' & Hbb).
    apply Hquiet; [eapply begun_records_are; [exact Hbb|done| |done|done]; intros []; done|].
    pose proof (bb_id _ _ _ _ _ _ _ _ _ _ Hbb) as Hid.
    apply (terminal_tables _ _ (begun_live occ qs i l)); [done|]. apply terminal_begun; [done|done|].
    destruct (dget _ (frozen_results l)) eqn:Ef; [|done]. apply (ok_frozen _ _ Hok) in Ef as (occ' & Ho & _).
    apply (ok_in_flight _ _ Hok) in Ho. lia.
  - eexists E, _. rewrite foldM_single. simpl. split; [by eapply terminal_fact|].
    eapply terminal_freeze; [done|done|]. by apply (ok_in_flight _ _ Hok) in H0 as (_ & [_ ?] & _).
  - eexists E, _. rewrite foldM_single. simpl. rewrite H3. split; [by eapply terminal_fact|].
    eapply terminal_freeze; [done|done|]. by apply (ok_in_flight _ _ Hok) in H0 as (_ & [_ ?] & _).
  - apply completion_batch_spec in H0 as (env & effects & m' & Hens & _ & _ & _ & _ & _ & -> & _).
    destruct (ensured c l Hok _ Hens) as (live_occ & Hl & Heq & _).
    pose proof (retired_spec c l Hok _ _ _ Hl Heq H1) as Hret.
    exists (E ∪ {[occ_id occ]}), F. rewrite !(assoc_L (++)), foldM_app, <-(assoc_L (++)).
    rewrite terminal_quiet; [|rewrite !Forall_app; split_and!; apply Forall_fmap, Forall_true; done].
    split; [done|]. eapply terminal_tables; [apply completed_live_tables|]. by eapply terminal_ended.
  - destruct (ensured c l Hok _ H0) as (live_occ & Hl & Heq & _).
    pose proof (retired_spec c l Hok _ _ _ Hl Heq H1) as Hret.
    exists (E ∪ {[occ_id occ]}), F. split; [done|].
    eapply terminal_tables; [apply ended_live_tables|]. by eapply terminal_ended.
  - apply Hquiet; [|eapply terminal_tables; [|exact Hrel]; done]. subst r. unfold scoped_disposition. repeat case_match; by repeat constructor.
  - apply Hquiet; [|eapply terminal_tables; [|exact Hrel]; done]. apply Forall_fmap, Forall_true. done.
Qed.
