(* ===== verification/Registrations.v ===== *)
(** * Live state is the projection of the history: registrations and deliveries

    The armed delivery registrations, the correlated completion batches they
    appear in and the accepted delivery identities. *)

From stdpp Require Import base gmap sets list strings pretty sorting.
From Stdlib Require Import Ascii ZArith Lia.
From S2P Require Import Prelude PyData Schema Marking Enabledness Firing Activity Records Replay Lifecycle Instance Construction Commit Invariant Coherence LifecycleCoherence Projections.
Open Scope string_scope.
Open Scope list_scope.

(** ** Armed registrations *)

Definition armed_coherent (h : list HRecord) (l : Live) : Prop :=
  h ≠ [] ∧ ∃ st, foldM (armed_step (initial_instant h)) ((true, false), []) h = Ok (st, armed l).

(** A record that is neither construction nor registration only ends the
    construction prefix. *)
Definition unregistered (r : HRecord) : Prop :=
  match r with
  | DeliveryRegistrationOpened _ _ _ _ | DeliveryRegistrationClosed _ _ _ _
  | TokensInitialized _ _ _ _ _ | InstanceCreated _ _ _ => False
  | _ => True
  end.

Lemma armed_quiet instant0 st a batch :
  Forall unregistered batch → ∃ st', foldM (armed_step instant0) (st, a) batch = Ok (st', a).
Proof.
  intros Hall. revert st. induction Hall as [|r batch Hr _ IH]; intros st; [by exists st|].
  cbn [foldM]. assert (armed_step instant0 (st, a) r = Ok ((false, st.2), a)) as -> by by destruct r.
  cbn [mbind result_bind]. apply IH.
Qed.

Lemma armed_closes instant0 o i closes st a a' :
  foldM armed_close a closes = Ok a' →
  ∃ st', foldM (armed_step instant0) (st, a) (closed_record o i <$> closes) = Ok (st', a').
Proof.
  revert st a. induction closes as [|r closes IH]; intros st a H; csimpl in *; inv_ok; [by exists st|].
  match goal with H : armed_close _ _ = Ok _ |- _ => unfold armed_close in H; inv_ok end.
  unfold armed_step at 2. simpl. unfold dget_default.
  match goal with H : dget _ a = Some ?k |- _ => rewrite H end. simpl.
  match goal with H : negb _ = false |- _ => rewrite H end. simpl. by apply IH.
Qed.

Lemma armed_opens instant0 o i opens st a a' :
  foldM armed_open a opens = Ok a' →
  ∃ st', foldM (armed_step instant0) (st, a) (opened_record o i <$> opens) = Ok (st', a').
Proof.
  revert st a. induction opens as [|r opens IH]; intros st a H; csimpl in *; inv_ok; [by exists st|].
  match goal with H : armed_open _ _ = Ok _ |- _ => unfold armed_open in H; inv_ok end.
  unfold armed_step at 2. simpl. unfold dget_default.
  match goal with H : dget _ a = Some ?k |- _ => rewrite H end. simpl.
  match goal with H : bool_decide _ = false |- _ => rewrite H end. simpl. by apply IH.
Qed.

(** Sealing closes the keys of one source one by one. *)
Lemma armed_seal instant0 path i st a keys ks :
  dget path a = Some keys → NoDup ks → Forall (λ k, k ∈ keys) ks →
  ∃ st', foldM (armed_step instant0) (st, a) ((λ key, DeliveryRegistrationClosed path key None i) <$> ks)
         = Ok (st', dset path (keys ∖ list_to_set ks) a).
Proof.
  revert st a keys. induction ks as [|k ks IH]; intros st a keys Hd Hnd Hall; csimpl.
  { exists st. simpl. rewrite difference_empty_L. by rewrite dset_same. }
  apply NoDup_cons in Hnd as [Hk Hnd]. apply Forall_cons in Hall as [Hin Hall].
  unfold armed_step at 2. simpl. unfold dget_default. rewrite Hd. simpl. rewrite bool_decide_true by done. simpl.
  destruct (IH (false, st.2) (dset path (keys ∖ {[k]}) a) (keys ∖ {[k]})) as [st' Hf];
    [apply dget_dset_eq|done| |].
  - rewrite Forall_forall in *. intros k' Hk'. assert (k' ≠ k) by (by intros ->). specialize (Hall _ Hk'). set_solver.
  - exists st'. etrans; [exact Hf|]. by rewrite dset_dset, difference_difference_l_L.
Qed.

Lemma armed_commit c h l batch l' :
  live_ok c l → commit c l batch l' → armed_coherent h l → armed_coherent (h ++ batch) l'.
Proof.
  intros Hok Hc [Hne [st Hh]]. split; [by destruct h|].
  assert (initial_instant (h ++ batch) = initial_instant h) as -> by by destruct h.
  setoid_rewrite foldM_app. rewrite Hh. cbn [mbind result_bind].
  assert (Hquiet : Forall unregistered batch → armed l' = armed l →
    ∃ st', foldM (armed_step (initial_instant h)) (st, armed l) batch = Ok (st', armed l')).
  { intros Hall ->. by apply armed_quiet. }
  destruct Hc; try (apply Hquiet; [by repeat constructor|done]).
  - apply Hquiet; [by repeat constructor|]. by rewrite (closed_live_eq c l Hok).
  - apply Hquiet; [by repeat constructor|]. by rewrite (closed_live_eq c l Hok).
  - destruct (begin_batch_spec _ _ _ _ _ _ _ _ H5) as (movements & qs' & Hbb).
    apply Hquiet; [eapply begun_records_are; [exact Hbb|done| |done|done]; intros []; done|].
    unfold begun_live. by destruct (occ_invocation occ).
  - destruct (begin_batch_spec _ _ _ _ _ _ _ _ H6) as (movements & qs' & Hbb).
    apply Hquiet; [eapply begun_records_are; [exact Hbb|done| |done|done]; intros []; done|].
    unfold begun_live. by destruct (occ_invocation occ).
  - apply completion_batch_spec in H0 as (env & effects & m' & _ & _ & Harm & _ & _ & _ & -> & _).
    unfold armed_after in Harm. apply bind_Ok in Harm as ([] & _ & Harm). apply bind_Ok in Harm as (a1 & H2 & H3).
    assert (armed (completed_live (occ_id occ) retired (occ_scope occ) minted cursor armed' i l) = armed') as ->
      by (unfold completed_live, ended_live; by destruct retired).
    destruct (armed_quiet (initial_instant h) st (armed l) (produced_record (occ_id occ) (occ_scope occ) i <$> minted))
      as [s1 F1]; [apply Forall_fmap, Forall_true; done|].
    destruct (armed_closes (initial_instant h) (occ_id occ) i _ s1 _ _ H2) as [s2 F2].
    destruct (armed_opens (initial_instant h) (occ_id occ) i _ s2 _ _ H3) as [s3 F3].
    rewrite foldM_app, F1. cbn [mbind result_bind]. rewrite foldM_app, F2. cbn [mbind result_bind].
    rewrite foldM_app, F3. cbn [mbind result_bind]. rewrite foldM_single. by eexists.
  - apply Hquiet; [by repeat constructor|]. unfold ended_live. by destruct retired.
  - apply Hquiet; [|done]. subst r. unfold scoped_disposition. repeat case_match; by repeat constructor.
  - destruct (armed_seal (initial_instant h) path i st (armed l) keys (sorted_by str_leb (elements keys))) as [st' Hf].
    + done.
    + rewrite sorted_by_perm. apply NoDup_elements.
    + apply Forall_forall. intros k. rewrite sorted_by_perm. by rewrite elem_of_elements.
    + exists st'. etrans; [exact Hf|]. simpl. repeat f_equal.
      apply leibniz_equiv. intros k. rewrite elem_of_difference, elem_of_list_to_set, sorted_by_perm, elem_of_elements.
      set_solver.
Qed.

(** ** Correlated completion batches *)

(** Whatever occurrences carry registration effects, the written history is a
    sequence of contiguous batches. *)
Definition correlated_coherent (h : list HRecord) (l : Live) : Prop :=
  ∀ X, ∃ begun, foldM (correlated_step X) (MkBatchState [] None) h = Ok (MkBatchState begun None) ∧
    ∀ o occ, dget o (in_flight l) = Some occ → dget o begun = Some (b_transition (occ_binding occ)).

Definition uncorrelated (r : HRecord) : Prop :=
  match r with
  | FiringBegun _ _ _ _ | TokensProduced _ _ _ _ _ _
  | DeliveryRegistrationOpened _ _ (Some _) _ | DeliveryRegistrationClosed _ _ (Some _) _ => False
  | _ => True
  end.

Lemma correlated_quiet X begun batch :
  Forall uncorrelated batch →
  foldM (correlated_step X) (MkBatchState begun None) batch = Ok (MkBatchState begun None).
Proof.
  induction 1 as [|r batch Hr _ IH]; [done|]. cbn [foldM].
  assert (correlated_step X (MkBatchState begun None) r = Ok (MkBatchState begun None)) as ->; [|done].
  destruct r; try done; destruct occurrence; done.
Qed.

(** A run of records of one rank, from idle or from a lower rank. *)
Definition idle_or (o : Z) (i : Instant) (rank : Z) (a : option (Z * Instant * Z)) : Prop :=
  a = None ∨ ∃ p, a = Some (o, i, p) ∧ (p ≤ rank)%Z.

Lemma correlated_run X begun o i rank rs a t :
  dget o begun = Some t → idle_or o i rank a →
  Forall (λ r, batch_rank r = Some rank ∧ rec_occurrence r = Some o ∧ rec_instant r = i) rs →
  ∃ a', foldM (correlated_step X) (MkBatchState begun a) rs = Ok (MkBatchState begun a') ∧ idle_or o i rank a'.
Proof.
  intros Hb Ha Hall. revert a Ha. induction Hall as [|r rs (H1 & H2 & H3) _ IH]; intros a Ha; [by exists a|].
  cbn [foldM]. assert (∃ a', correlated_step X (MkBatchState begun a) r = Ok (MkBatchState begun a') ∧ idle_or o i rank a')
    as (a' & -> & Ha'); [|by apply IH].
  assert (dmem o begun = true) as Hm by (apply dmem_true, dget_is_Some; eauto).
  destruct Ha as [->|(p & -> & Hp)].
  - destruct r; try done; simpl in H1, H2, H3; simplify_eq; unfold correlated_step; simpl; rewrite Hm.
    1,2: eexists; split; [done|right; by eexists].
    case_bool_decide; eexists; (split; [done|]); [right; by eexists|by left].
  - exists (Some (o, i, rank)). split; [|right; by exists rank].
    assert (batch_rank r = Some rank → match r with FiringCompleted _ _ _ => False | _ => True end) as Hnc
      by by destruct r.
    unfold correlated_step. simpl. specialize (Hnc H1).
    assert ((match r with
             | FiringCompleted t0 o0 i0 =>
                 bool_decide (o0 = o) && bool_decide (i0 = i) && bool_decide (Some t0 = dget o begun)
             | _ => false end) = false) as -> by by destruct r.
    rewrite H1, H2, H3, !bool_decide_true by done. simpl. by rewrite (proj2 (Z.ltb_ge _ _)).
Qed.

Lemma idle_or_mono o i p q a : (p ≤ q)%Z → idle_or o i p a → idle_or o i q a.
Proof. intros Hpq [->|(r & -> & Hr)]; [by left|]. right. exists r. split; [done|lia]. Qed.

Lemma correlated_completed X begun o i t a :
  dget o begun = Some t → idle_or o i 2 a →
  correlated_step X (MkBatchState begun a) (FiringCompleted t o i) = Ok (MkBatchState begun None).
Proof.
  intros Hb [->|(p & -> & _)]; [done|]. unfold correlated_step. simpl.
  by rewrite Hb, !bool_decide_true.
Qed.

Lemma correlated_completion X begun o i t sc minted (closes opens : list DeliveryRegistration) :
  dget o begun = Some t →
  foldM (correlated_step X) (MkBatchState begun None)
    ((produced_record o sc i <$> minted) ++ (closed_record o i <$> closes)
     ++ (opened_record o i <$> opens) ++ [FiringCompleted t o i]) = Ok (MkBatchState begun None).
Proof.
  intros Hb.
  destruct (correlated_run X begun o i 0 (produced_record o sc i <$> minted) None t) as (a1 & F1 & I1);
    [done|by left|apply Forall_fmap, Forall_true; done|].
  destruct (correlated_run X begun o i 1 (closed_record o i <$> closes) a1 t) as (a2 & F2 & I2);
    [done|by eapply idle_or_mono; [|exact I1]|apply Forall_fmap, Forall_true; done|].
  destruct (correlated_run X begun o i 2 (opened_record o i <$> opens) a2 t) as (a3 & F3 & I3);
    [done|by eapply idle_or_mono; [|exact I2]|apply Forall_fmap, Forall_true; done|].
  rewrite foldM_app, F1. cbn [mbind result_bind]. rewrite foldM_app, F2. cbn [mbind result_bind].
  rewrite foldM_app, F3. cbn [mbind result_bind]. rewrite foldM_single. by apply correlated_completed.
Qed.

Lemma correlated_begin X begun l b i initiation inv scope batch occ movements qs :
  begun_by l b i initiation inv scope batch occ movements qs → uncorrelated (initiation (occ_id occ) i) →
  foldM (correlated_step X) (MkBatchState begun None) batch
  = Ok (MkBatchState (dset (occ_id occ) (b_transition b) begun) None).
Proof.
  intros Hbb Hini. destruct (movements_spec _ _ _ _ _ _ _ _ _ _ Hbb) as (Hmv & _).
  rewrite (bb_batch _ _ _ _ _ _ _ _ _ _ Hbb), (bb_records _ _ _ _ _ _ _ _ _ _ Hbb).
  rewrite <-(app_nil_l (FiringBegun _ _ _ _ :: _)), app_comm_cons, foldM_app.
  rewrite correlated_quiet by (by constructor). cbn [mbind result_bind foldM].
  assert (∀ t o sc i, correlated_step X (MkBatchState begun None) (FiringBegun t o sc i)
    = Ok (MkBatchState (dset o t begun) None)) as -> by done.
  cbn [mbind result_bind]. apply correlated_quiet. apply Forall_app. split.
  - eapply Forall_impl; [exact Hmv|]. intros []; done.
  - destruct inv; by repeat constructor.
Qed.

Lemma correlated_in_flight begun l l' :
  (∀ o occ, dget o (in_flight l) = Some occ → dget o begun = Some (b_transition (occ_binding occ))) →
  (∀ o occ, dget o (in_flight l') = Some occ → dget o (in_flight l) = Some occ) →
  ∀ o occ, dget o (in_flight l') = Some occ → dget o begun = Some (b_transition (occ_binding occ)).
Proof. eauto. Qed.

Lemma correlated_commit c h l batch l' :
  live_ok c l → commit c l batch l' → correlated_coherent h l → correlated_coherent (h ++ batch) l'.
Proof.
  intros Hok Hc Hh X. destruct (Hh X) as (begun & Hf & Hin). setoid_rewrite foldM_app. rewrite Hf. cbn [mbind result_bind].
  assert (Hquiet : Forall uncorrelated batch →
    (∀ o occ, dget o (in_flight l') = Some occ → dget o (in_flight l) = Some occ) →
    ∃ begun0, foldM (correlated_step X) (MkBatchState begun None) batch = Ok (MkBatchState begun0 None) ∧
      ∀ o occ, dget o (in_flight l') = Some occ → dget o begun0 = Some (b_transition (occ_binding occ))).
  { intros Hq Hs. exists begun. split; [by apply correlated_quiet|eauto]. }
  assert (Hend : ∀ o retired l0, in_flight l0 = in_flight l →
    ∀ o' occ, dget o' (in_flight (ended_live o retired l0)) = Some occ → dget o' (in_flight l) = Some occ).
  { intros o retired l0 E o' occ'. assert (in_flight (ended_live o retired l0) = ddel o (in_flight l)) as ->
      by (unfold ended_live; destruct retired; simpl; by rewrite E).
    rewrite dget_ddel by apply Hok. by case_decide. }
  assert (Hbegin : ∀ b i initiation inv scope occ movements qs,
    begun_by l b i initiation inv scope batch occ movements qs → uncorrelated (initiation (occ_id occ) i) →
    in_flight l' = dset (occ_id occ) occ (in_flight l) →
    ∃ begun0, foldM (correlated_step X) (MkBatchState begun None) batch = Ok (MkBatchState begun0 None) ∧
      ∀ o occ, dget o (in_flight l') = Some occ → dget o begun0 = Some (b_transition (occ_binding occ))).
  { intros b i initiation inv scope occ movements qs Hbb Hini Hl'. eexists. split; [by eapply correlated_begin|].
    intros o occ'. rewrite Hl', !dget_dset. case_decide; [|by apply Hin].
    intros [= <-]. by rewrite (bb_binding _ _ _ _ _ _ _ _ _ _ Hbb). }
  destruct Hc; try (apply Hquiet; [by repeat constructor|done]).
  - apply Hquiet; [by repeat constructor|]. rewrite (closed_live_eq c l Hok) by done. simpl. unfold unscoped.
    intros o occ. rewrite dget_filter by apply Hok. destruct (dget o (in_flight l)); [|done]. by case_decide.
  - apply Hquiet; [by repeat constructor|]. rewrite (closed_live_eq c l Hok) by done. simpl. unfold unscoped.
    intros o occ. rewrite dget_filter by apply Hok. destruct (dget o (in_flight l)); [|done]. by case_decide.
  - destruct (begin_batch_spec _ _ _ _ _ _ _ _ H5) as (movements & qs' & Hbb).
    eapply Hbegin; [exact Hbb|done|]. unfold begun_live. by destruct (occ_invocation occ).
  - destruct (begin_batch_spec _ _ _ _ _ _ _ _ H6) as (movements & qs' & Hbb).
    eapply Hbegin; [exact Hbb|done|]. unfold begun_live. by destruct (occ_invocation occ).
  - apply completion_batch_spec in H0 as (env & effects & m' & Hens & _ & _ & _ & _ & _ & -> & _).
    apply ensure_in_flight_spec in Hens as (live_occ & Hl & Heq). apply occurrence_eq_spec in Heq as (_ & _ & Htr & _).
    exists begun. split; [|intros o occ' Ho; eapply Hin, Hend; [|exact Ho]; done].
    apply correlated_completion. rewrite <-Htr. by apply Hin.
  - apply Hquiet; [by repeat constructor|]. by apply Hend.
  - apply Hquiet; [|done]. subst r. unfold scoped_disposition. repeat case_match; by repeat constructor.
  - apply Hquiet; [|done]. apply Forall_fmap, Forall_true. done.
Qed.

Lemma replay_armed_coherent h l : armed_coherent h l → correlated_coherent h l → replay_armed h = Ok (armed l).
Proof.
  intros [_ [st Hf]] Hc. unfold replay_armed, validate_correlated_batches.
  destruct (Hc (list_to_set (omap effect_occurrence h))) as (begun & -> & _). simpl. by rewrite Hf.
Qed.

(** ** Accepted deliveries *)

Definition accepted_coherent (h : list HRecord) (l : Live) : Prop :=
  accepted_loop (initial_instant h) ((true, false), []) [] h = Ok (accepted_identities l).

(** A loop that accepted a prefix goes on over what follows it. *)
Lemma accepted_loop_app instant0 s acc h batch s' acc' :
  foldM (armed_step instant0) s h = Ok s' → accepted_loop instant0 s acc h = Ok acc' →
  accepted_loop instant0 s acc (h ++ batch) = accepted_loop instant0 s' acc' batch.
Proof.
  revert s acc. induction h as [|r h IH]; intros s acc Hf Ha; simpl in *.
  { by injection Hf as ->; injection Ha as ->. }
  apply bind_Ok in Hf as (s1 & E1 & Hf). rewrite E1 in *. simpl in *.
  apply bind_Ok in Ha as (a1 & E2 & Ha).
  assert (accept_record s1.2 acc r (head (h ++ batch)) = Ok a1) as ->; [|simpl; by apply IH].
  destruct h as [|r' h]; [|done]. simpl in *. unfold accept_record in *. destruct (delivery_fact r) as [[ts identity]|]; [|done].
  destruct r; try done. apply bind_Ok in E2 as ([] & -> & E2). apply bind_Ok in E2 as ([] & E3 & E2).
  apply bind_Ok in E3 as ([] & _ & E3). done.
Qed.

Lemma accepted_quiet instant0 s acc batch s' :
  foldM (armed_step instant0) s batch = Ok s' → Forall (λ r, delivery_fact r = None) batch →
  accepted_loop instant0 s acc batch = Ok acc.
Proof.
  intros Hf Hall. revert s Hf. induction Hall as [|r batch Hr _ IH]; intros s Hf; simpl in *; [done|].
  apply bind_Ok in Hf as (s1 & -> & Hf). simpl. unfold accept_record. rewrite Hr. simpl. by apply IH.
Qed.

Lemma accepted_step instant0 s acc r batch s1 acc1 :
  armed_step instant0 s r = Ok s1 → accept_record s1.2 acc r (head batch) = Ok acc1 →
  accepted_loop instant0 s acc (r :: batch) = accepted_loop instant0 s1 acc1 batch.
Proof. intros H1 H2. simpl. rewrite H1. simpl. by rewrite H2. Qed.

Lemma written_delivery_tokens batch r ts identity :
  written batch → r ∈ batch → delivery_fact r = Some (ts, identity) → validate_delivery_tokens ts = Ok tt.
Proof.
  intros [_ Hcan]%writer_records_Ok Hin Hd. rewrite Forall_forall in Hcan. destruct (Hcan _ Hin) as [Hp _].
  destruct r; try done; simpl in *; simplify_eq;
    repeat match goal with H : _ ≫= _ = Ok _ |- _ => apply bind_Ok in H as ([] & ? & ?) end; done.
Qed.

(** A delivery begins in the scope it was accepted for. *)
Lemma delivered_scope l path delivered i initiation scope batch occ :
  begin_batch l (MkBinding path [] [] delivered) i initiation None scope = Ok (batch, occ) → occ_scope occ = scope.
Proof.
  unfold begin_batch. intros H.
  assert (binding_entries (queues l) (MkBinding path [] [] delivered) = Ok ([], [])) as Hb by done.
  rewrite Hb in H. inv_ok. simplify_eq/=. by destruct scope.
Qed.

Lemma accepted_commit c h l batch l' :
  live_ok c l → commit c l batch l' → armed_coherent h l → accepted_coherent h l →
  accepted_coherent (h ++ batch) l'.
Proof.
  intros Hok Hc Harm Hacc. pose proof (armed_commit _ _ _ _ _ Hok Hc Harm) as [_ [st' Hf']].
  destruct Harm as [Hne [st Hf]]. unfold accepted_coherent in *.
  assert (initial_instant (h ++ batch) = initial_instant h) as Hi by by destruct h. rewrite Hi in *.
  rewrite (accepted_loop_app _ _ _ _ _ _ _ Hf Hacc). rewrite foldM_app, Hf in Hf'. cbn [mbind result_bind] in Hf'.
  assert (Hquiet : Forall (λ r, delivery_fact r = None) batch → accepted_identities l' = accepted_identities l →
    accepted_loop (initial_instant h) (st, armed l) (accepted_identities l) batch = Ok (accepted_identities l')).
  { intros Hall ->. by eapply accepted_quiet. }
  destruct Hc; try (apply Hquiet; [by repeat constructor|done]).
  - apply Hquiet; [by repeat constructor|]. by rewrite (closed_live_eq c l Hok).
  - apply Hquiet; [by repeat constructor|]. by rewrite (closed_live_eq c l Hok).
  - destruct (begin_batch_spec _ _ _ _ _ _ _ _ H5) as (movements & qs' & Hbb).
    apply Hquiet; [eapply begun_records_are; [exact Hbb|done| |done|done]; intros []; done|].
    unfold begun_live. by destruct (occ_invocation occ).
  - destruct (begin_batch_spec _ _ _ _ _ _ _ _ H6) as (movements & qs' & Hbb).
    pose proof (delivered_scope _ _ _ _ _ _ _ _ H6) as Hsc.
    pose proof (bb_batch _ _ _ _ _ _ _ _ _ _ Hbb) as Hb. pose proof (bb_records _ _ _ _ _ _ _ _ _ _ Hbb) as Hr.
    pose proof (bb_written _ _ _ _ _ _ _ _ _ _ Hbb) as Hw. rewrite Hb in Hf', Hw |- *.
    cbn [foldM] in Hf'. apply bind_Ok in Hf' as (s1 & E1 & Hf').
    assert (s1.2 = armed l) as Hs1 by (injection E1 as <-; done).
    rewrite (accepted_step _ _ _ _ _ _ (dset identity (ExternalEventDelivered path delivered identity (occ_id occ) scope i)
        (accepted_identities l)) E1).
    + erewrite accepted_quiet; [done|exact Hf'|]. rewrite Hr.
      destruct (movements_spec _ _ _ _ _ _ _ _ _ _ Hbb) as (Hmv & _). constructor; [done|].
      apply Forall_app. split; [|done]. eapply Forall_impl; [exact Hmv|]. intros []; done.
    + rewrite Hs1, Hr. unfold accept_record. simpl delivery_fact. cbv iota beta zeta.
      rewrite (written_delivery_tokens _ _ _ _ Hw ltac:(left) eq_refl). cbn [mbind result_bind].
      unfold dget_default. rewrite H2. simpl. rewrite (bool_decide_false (keys = ∅)) by done. simpl.
      rewrite Hsc, bool_decide_true by done. simpl. by rewrite (proj2 (dmem_false identity _)).
  - apply completion_batch_spec in H0 as (env & effects & m' & _ & _ & _ & _ & _ & _ & -> & _).
    apply Hquiet; [by apply completion_records_are|]. unfold completed_live, ended_live. by destruct retired.
  - apply Hquiet; [by repeat constructor|]. unfold ended_live. by destruct retired.
  - simpl in Hf'. apply bind_Ok in Hf' as (s1 & E1 & _).
    rewrite (accepted_step _ _ _ _ _ _ (dset identity r (accepted_identities l)) E1); [done|].
    assert (delivery_fact r = Some (delivered, identity) ∧ (∀ p ts d o sc i', r ≠ ExternalEventDelivered p ts d o sc i'))
      as [Hd Hn] by (unfold r, scoped_disposition; repeat case_match; (split; [done|intros; discriminate])).
    unfold accept_record. rewrite Hd. rewrite (written_delivery_tokens [r] r delivered identity) by (done || left).
    simpl. rewrite (proj2 (dmem_false identity _)) by done. destruct r; try done. by destruct (Hn source tokens identity0 occurrence scope instant).
  - apply Hquiet; [|done]. apply Forall_fmap, Forall_true. done.
Qed.
