(* ===== verification/Soundness.v ===== *)
(** * Sound Instances

    The live invariant together with the coherence of every projection of the
    history: every commit keeps it, and the constructor establishes it. Then
    token conservation: what the commits do to the marking, place by place. A
    begin takes exactly the consumed selections out, a completion adds exactly
    the routed projections at the tail, a scope closure drops the scope's
    entries, and nothing else moves a token. *)

From stdpp Require Import base gmap sets list strings pretty sorting.
From Stdlib Require Import Ascii ZArith Lia.
From S2P Require Import Prelude PyData Schema Marking Enabledness Firing RoutingTheorems Activity Records Replay Lifecycle Instance Construction Commit Invariant Operations Coherence LifecycleCoherence Projections Registrations.
Open Scope string_scope.
Open Scope list_scope.

(** ** Coherence *)

Record coherent (h : list HRecord) (l : Live) : Prop := {
  co_watermark : watermark_coherent h l;
  co_queues : queue_coherent h l;
  co_occurrence : occurrence_coherent h l;
  co_scopes : scope_coherent h l;
  co_lifecycle : lifecycle_coherent h l;
  co_cancelled : cancelled_coherent h l;
  co_terminal : terminal_coherent h l;
  co_armed : armed_coherent h l;
  co_correlated : correlated_coherent h l;
  co_accepted : accepted_coherent h l
}.

Lemma coherent_commit c h l batch l' :
  live_ok c l → commit c l batch l' → coherent h l → coherent (h ++ batch) l'.
Proof.
  intros Hok Hc []. split;
    eauto using watermark_commit, queue_commit, occurrence_commit, scope_commit, lifecycle_commit,
      cancelled_commit, terminal_commit, armed_commit, correlated_commit, accepted_commit.
Qed.

Record sound (s : Instance) : Prop := {
  sound_ok : instance_ok s;
  sound_coherent : coherent (history s) (live s)
}.

Lemma istep_sound s s' : istep s s' → sound s → sound s'.
Proof.
  intros Hs [Hok Hco]. split; [by eapply istep_ok|].
  destruct Hs as [c st st' l Heq|c st st' l l' batch Hc Heq]; unfold history in *; simpl in *; rewrite Heq; [done|].
  by eapply coherent_commit.
Qed.

Lemma isteps_sound s s' : isteps s s' → sound s → sound s'.
Proof. induction 1; eauto using istep_sound. Qed.

(** ** Construction *)

Lemma next_queue_identity_top qs n :
  queues_ok qs n → n = 1%Z ∨ (∃ e, e ∈ queue_entries qs ∧ e_identity e = Some (n - 1)%Z) →
  next_queue_identity qs = n.
Proof.
  intros [_ He _] Htop. unfold next_queue_identity. rewrite all_identities_entries.
  rewrite Forall_forall in He.
  assert (∀ z, z ∈ omap id (e_identity <$> queue_entries qs) → (1 ≤ z < n)%Z) as Hlt.
  { intros z Hz. apply list_elem_of_omap in Hz as (o & Ho & Heq). unfold id in Heq. subst o.
    apply list_elem_of_fmap in Ho as (e & Heq & Hin). destruct (He _ Hin) as (j & Hj & ?). rewrite Hj in Heq.
    by simplify_eq. }
  destruct (max_opt _) as [m|] eqn:E.
  - apply max_opt_Some in E as [Hin Hall]. apply Hlt in Hin as Hm. simpl.
    destruct Htop as [->|(e & Hine & Hide)]; [lia|]. rewrite Forall_forall in Hall.
    specialize (Hall (n - 1)%Z). assert (n - 1 ≤ m)%Z; [|lia]. apply Hall.
    apply list_elem_of_omap. exists (Some (n - 1)%Z). split; [|done]. apply list_elem_of_fmap. by exists e.
  - apply max_opt_None in E. simpl. destruct Htop as [->|(e & Hine & Hide)]; [done|].
    assert ((n - 1)%Z ∈ omap id (e_identity <$> queue_entries qs)) as Hx; [|rewrite E in Hx; set_solver].
    apply list_elem_of_omap. exists (Some (n - 1)%Z). split; [|done]. apply list_elem_of_fmap. by exists e.
Qed.

Definition topped (qs : Queues) (n : Z) : Prop :=
  queues_ok qs n ∧ (1 ≤ n)%Z ∧ (n = 1%Z ∨ ∃ e, e ∈ queue_entries qs ∧ e_identity e = Some (n - 1)%Z).

Lemma topped_nil : topped [] 1.
Proof. split; [apply queues_ok_nil|]. split; [done|by left]. Qed.

Lemma deposit_topped qs n p ts i sc :
  topped qs n →
  topped (dset p (dget_default p [] qs ++ deposited ts (zrange n (length ts)) i sc) qs) (n + Z.of_nat (length ts)).
Proof.
  intros (Hq & Hn & Ht). split; [|split; [lia|]].
  - eapply queues_ok_deposit; [done|apply length_zrange| |apply NoDup_zrange|done|lia|];
      rewrite Forall_forall; intros z Hz%elem_of_zrange; lia.
  - assert (∀ e, e ∈ queue_entries qs ∨ e ∈ deposited ts (zrange n (length ts)) i sc →
      e ∈ queue_entries (dset p (dget_default p [] qs ++ deposited ts (zrange n (length ts)) i sc) qs)) as Hin.
    { intros e He. rewrite queue_entries_dset. rewrite (queue_entries_split p qs) in He. set_solver. }
    destruct ts as [|t ts] using rev_ind.
    + simpl. destruct Ht as [->|(e & He & Hi)]; [by left|]. right. exists e. split; [by apply Hin; left|].
      rewrite Hi. f_equal. lia.
    + right. exists (MkEntry t i (Some (n + Z.of_nat (length ts))%Z) sc). split.
      * apply Hin. right. unfold deposited. apply list_elem_of_fmap. exists (t, (n + Z.of_nat (length ts))%Z).
        split; [done|]. apply (list_elem_of_lookup_2 _ (length ts)). apply lookup_zip_with_Some.
        exists t, (n + Z.of_nat (length ts))%Z. split; [done|].
        rewrite length_app. simpl. rewrite lookup_app_r, Nat.sub_diag by done. split; [done|].
        unfold zrange. rewrite list_lookup_fmap, lookup_seq_lt by lia. done.
      * simpl. rewrite length_app. simpl. f_equal. lia.
Qed.

Definition unscoped_entries (qs : Queues) : Prop := ∀ e, e ∈ queue_entries qs → e_scope e = None.

(** The live constructor deposits the initial marking as the replay does. *)
Lemma init_loop i m qs n spent :
  topped qs n → unscoped_entries qs → (∀ z, z ∈ spent → (z < n)%Z) →
  ∃ qs' spent',
    foldM (λ qs r, apply_movement qs r None) qs (initialized i <$> m) = Ok qs' ∧
    foldM replay_queue_step (MkQueueState qs n spent) (initialized i <$> m)
    = Ok (MkQueueState qs' (n + Z.of_nat (length (mjoin m.*2))) spent') ∧
    topped qs' (n + Z.of_nat (length (mjoin m.*2))) ∧ unscoped_entries qs' ∧
    (∀ z, z ∈ spent' → (z < n + Z.of_nat (length (mjoin m.*2)))%Z).
Proof.
  revert qs n spent. induction m as [|[p ts] m IH]; intros qs n spent Ht Hu Hs.
  { exists qs, spent. simpl. rewrite Z.add_0_r. done. }
  destruct Ht as (Hq & Hn & Htop). set (es := zrange n (length ts)).
  assert (topped (dset p (dget_default p [] qs ++ deposited ts es i None) qs) (n + Z.of_nat (length ts))) as Ht'
    by (apply deposit_topped; done).
  pose proof (deposit_state_ok (MkQueueState qs n spent) p ts i None ltac:(by split)) as [_ _ Hs'].
  destruct (IH _ _ (spent ∪ list_to_set es) Ht') as (qs' & spent' & F1 & F2 & F3 & F4 & F5); [|exact Hs'|].
  { intros e. rewrite queue_entries_dset, !elem_of_app. pose proof (Hu e) as He. rewrite (queue_entries_split p qs) in He.
    rewrite elem_of_app in He. intros [[H|H]|H]; [by apply He; left| |by apply He; right].
    unfold deposited in H. by apply list_elem_of_fmap in H as (te & -> & _). }
  assert ((n + Z.of_nat (length ts) + Z.of_nat (length (mjoin m.*2)))%Z
          = (n + Z.of_nat (length (mjoin (M:=list) (((p, ts) :: m).*2))))%Z) as Hlen
    by (csimpl; rewrite length_app; lia).
  rewrite Hlen in *. exists qs', spent'. csimpl. split; [|split; [|done]].
  - change (apply_movement qs (initialized i (p, ts)) None) with (apply_deposit qs p ts i [] None None).
    rewrite (apply_deposit_fresh qs n p ts i [] None None es); [exact F1|done| |apply length_zrange|].
    + unfold es. simpl. by rewrite (next_queue_identity_top qs n).
    + rewrite Forall_forall. unfold es. intros z Hz%elem_of_zrange. lia.
  - rewrite (replay_deposit_step (MkQueueState qs n spent) _ p ts i [] None); [exact F2|by split|done|by left].
Qed.

(** The records of the construction batch. *)
Definition is_construction (i : Instant) (r : HRecord) : Prop :=
  match r with
  | InstanceCreated _ _ j => j = i
  | TokensInitialized _ _ j [] None => j = i
  | DeliveryRegistrationOpened _ _ None j => j = i
  | _ => False
  end.

Lemma initial_records_are n identity m i : Forall (is_construction i) (initial_records n identity m i).
Proof.
  unfold initial_records. constructor; [done|]. apply Forall_app.
  split; apply Forall_fmap, Forall_true; done.
Qed.

Lemma construction_instant i r : is_construction i r → rec_instant r = i.
Proof. destruct r; try done; simpl; by repeat case_match. Qed.

Lemma construction_occurrences i rs : Forall (is_construction i) rs → omap rec_occurrence rs = [].
Proof.
  induction 1 as [|r rest Hr _ IH]; [done|]. csimpl.
  assert (rec_occurrence r = None) as -> by (destruct r; try done; by destruct occurrence). exact IH.
Qed.

Lemma quiet_fold {S} (step : S → HRecord → result S) s i batch :
  (∀ r, is_construction i r → step s r = Ok s) → Forall (is_construction i) batch → foldM step s batch = Ok s.
Proof. intros Hq. induction 1 as [|r batch Hr _ IH]; [done|]. cbn [foldM]. by rewrite Hq. Qed.

Lemma init_armed i (sources : list NetPath) st a :
  NoDup sources → Forall (λ s, dget s a = None) sources → st.1 = true →
  ∃ st', foldM (armed_step i) (st, a) (registration_opened i <$> sources)
         = Ok (st', a ++ ((λ s, (s, {["default"]})) <$> sources)).
Proof.
  revert st a. induction sources as [|s sources IH]; intros st a Hnd Hall Hst; csimpl.
  { exists st. by rewrite app_nil_r. }
  apply NoDup_cons in Hnd as [Hs Hnd]. apply Forall_cons in Hall as [Ha Hall].
  assert (armed_step i (st, a) (registration_opened i s) = Ok ((st.1, true), a ++ [(s, {["default"]})])) as ->.
  { unfold armed_step, registration_opened. simpl. unfold dget_default. rewrite Ha, Hst. simpl.
    rewrite bool_decide_true by done. simpl. rewrite dset_fresh by done. repeat f_equal. }
  cbn [mbind result_bind]. destruct (IH (st.1, true) (a ++ [(s, {["default"]})])) as [st' Hf]; [done| |done|].
  - rewrite Forall_forall in *. intros s' Hs'. rewrite dget_app, Hall by done. simpl.
    rewrite decide_False; [done|]. by intros ->.
  - exists st'. rewrite Hf, <-(assoc_L (++)). done.
Qed.

(** A net whose transition index has one entry per path, as [Net] builds it. *)
Definition indexed_net (n : Net) : Prop := NoDup (dkeys (transitions n)).

Lemma source_transitions_NoDup n : indexed_net n → NoDup (source_transitions n).
Proof.
  intros Hn. unfold source_transitions. rewrite sorted_by_perm. by apply NoDup_filter.
Qed.

Lemma bind_symbols_net cel n im identity c : bind_symbols cel n im identity = Ok c → net c = n.
Proof. unfold bind_symbols. intros H. by inv_ok. Qed.

Definition initial_live (n : Net) (qs : Queues) (m : Marking) (i : Instant) : Live :=
  MkLive i qs ((λ s, (s, {["default"]})) <$> source_transitions n) 1
    (1 + Z.of_nat (length (mjoin m.*2))) [] [] [] [] [] [] [] (MkScopeState [] []).

Lemma initial_moves n identity m i qs :
  foldM (λ qs r, apply_movement qs r None) [] (initialized i <$> m) = Ok qs →
  foldM (λ qs r, apply_movement qs r None) [] (initial_records n identity m i) = Ok qs.
Proof.
  intros H. unfold initial_records. cbn [foldM]. cbn [apply_movement mbind result_bind].
  rewrite foldM_app, H. cbn [mbind result_bind]. by apply foldM_stay.
Qed.

Lemma initial_queue_replay n identity m i s :
  foldM replay_queue_step (MkQueueState [] 1 ∅) (initialized i <$> m) = Ok s →
  replay_queue_state (initial_records n identity m i) = Ok s.
Proof.
  intros H. unfold initial_records, replay_queue_state. cbn [foldM].
  change (replay_queue_step (MkQueueState [] 1 ∅) (InstanceCreated identity (net_name n) i)) with
    (Ok (MkQueueState [] 1 ∅)).
  cbn [mbind result_bind]. rewrite foldM_app, H. cbn [mbind result_bind]. apply foldM_stay. by destruct s.
Qed.

Lemma initial_armed n identity m i :
  indexed_net n →
  ∃ st, foldM (armed_step i) ((true, false), []) (initial_records n identity m i)
        = Ok (st, (λ s, (s, {["default"]})) <$> source_transitions n).
Proof.
  intros Hn. unfold initial_records. cbn [foldM].
  change (armed_step i ((true, false), []) (InstanceCreated identity (net_name n) i)) with
    (Ok ((true, false), [] : Armed)).
  cbn [mbind result_bind]. rewrite foldM_app, foldM_stay by done. cbn [mbind result_bind].
  destruct (init_armed i (source_transitions n) (true, false) []) as [st Hf];
    [by apply source_transitions_NoDup|by apply Forall_true|done|]. exists st. exact Hf.
Qed.

Lemma initial_coherent n identity m i qs :
  indexed_net n →
  foldM (λ qs r, apply_movement qs r None) [] (initialized i <$> m) = Ok qs →
  coherent (initial_records n identity m i) (initial_live n qs m i).
Proof.
  intros Hn Hqs. pose proof (initial_records_are n identity m i) as Hall.
  destruct (initial_armed n identity m i Hn) as [st Harm].
  destruct (init_loop i m [] 1 ∅) as (qs' & spent & F1 & F2 & F3 & F4 & F5);
    [apply topped_nil|intros e He; by apply elem_of_nil in He|set_solver|].
  rewrite Hqs in F1. injection F1 as <-.
  split.
  - unfold watermark_coherent. apply Forall_cons in Hall as [_ Hall]. unfold initial_records. cbn [foldM].
    change (watermark_step None (InstanceCreated identity (net_name n) i)) with (Ok (Some i)).
    cbn [mbind result_bind]. destruct (_ ++ _) as [|r rest] eqn:E; [done|]. rewrite <-E in *.
    apply watermark_batch; [by rewrite E| |done]. eapply Forall_impl; [exact Hall|]. apply construction_instant.
  - exists spent. split; [by apply initial_queue_replay|exact F5].
  - split; [|done]. unfold replay_next_occurrence.
    by rewrite (construction_occurrences i).
  - exists (MkScopeState [] []). split; [|split; [done|constructor]].
    eapply quiet_fold; [|exact Hall]. intros []; try done. simpl. by destruct entries, scope.
  - destruct (quiet_steps lifecycle_init (initial_records n identity m i)) as (L & HL & Hcore).
    { eapply Forall_impl; [exact Hall|]. intros []; try done. simpl. by destruct occurrence. }
    exists L, []. split; [exact HL|]. eapply rel_core; [exact Hcore|].
    split; simpl; try done; try set_solver; constructor.
  - split; [|split; [|done]]; (eapply quiet_fold; [|exact Hall]); intros []; done.
  - exists ∅, []. split; [eapply quiet_fold; [|exact Hall]; intros []; done|]. split; try done; simpl.
    + by intros o [? ?].
    + constructor.
  - split; [done|]. exists st. exact Harm.
  - intros X. exists []. split; [eapply quiet_fold; [|exact Hall]|done]. intros []; try done.
    simpl. by destruct occurrence.
  - eapply accepted_quiet; [exact Harm|]. eapply Forall_impl; [exact Hall|]. intros []; done.
Qed.

Lemma initial_ok c m i qs :
  indexed_net (net c) →
  foldM (λ qs r, apply_movement qs r None) [] (initialized i <$> m) = Ok qs →
  live_ok c (initial_live (net c) qs m i).
Proof.
  intros Hn Hqs.
  destruct (init_loop i m [] 1 ∅) as (qs' & spent & F1 & F2 & F3 & F4 & F5);
    [apply topped_nil|intros e He; by apply elem_of_nil in He|set_solver|].
  rewrite Hqs in F1. injection F1 as <-.
  split; simpl; try done; try apply NoDup_nil_2.
  - apply F3.
  - lia.
  - intros e He sc Hs. rewrite (F4 e He) in Hs. done.
  - unfold dkeys. rewrite <-list_fmap_compose. apply list_fmap_id.
  - by apply source_transitions_NoDup.
Qed.

Lemma Instance_init_sound cel n m im at_ st supplied minted s :
  indexed_net n → Instance_init cel n m im at_ st supplied minted = Ok s → sound s ∧ net (config s) = n.
Proof.
  intros Hn. unfold Instance_init. intros H. inv_ok.
  match goal with H : bind_symbols _ _ _ _ = Ok ?k |- _ => rename k into c; pose proof (bind_symbols_net _ _ _ _ _ H) as <- end.
  match goal with H : writer_records _ = Ok _ |- _ => apply written_of in H as [-> Hw] end.
  match goal with H : negb (bool_decide (st_records st = [])) = false |- _ => rename H into Hempty end.
  apply negb_false_iff, bool_decide_eq_true in Hempty.
  match goal with H : foldM _ _ (initial_records _ _ _ _) = Ok ?k |- _ => rename k into qs; rename H into Hqs end.
  destruct (init_loop at_ m [] 1 ∅) as (qs' & spent & F1 & _);
    [apply topped_nil|intros e He; by apply elem_of_nil in He|set_solver|].
  pose proof (initial_moves (net c) (default minted supplied) m at_ qs' F1) as F. rewrite Hqs in F. injection F as <-.
  split; [|done].
  match goal with |- sound (MkInstance _ ?st' _) => assert (st_records st' = initial_records (net c) (default minted supplied) m at_) as Hst end.
  { match goal with H : store_extend _ _ = Ok _ |- _ => unfold store_extend in H; rewrite Hempty in H;
      destruct (st_refusals st) as [|[]]; simplify_eq/=; done end. }
  rewrite dict_of_list_id by (unfold dkeys; rewrite <-list_fmap_compose; by rewrite list_fmap_id; apply source_transitions_NoDup).
  split.
  - by apply initial_ok.
  - unfold history. simpl. rewrite Hst. by apply initial_coherent.
Qed.

(** ** Token conservation *)

(** The tokens of one place, as the live marking shows them. *)
Definition tokens_at (l : Live) (p : NetPath) : list Token := marking_place (live_marking l) p.

Lemma marking_place_of qs p :
  NoDup (dkeys qs) → marking_place (marking_of qs) p = tokens_of (dget_default p [] qs).
Proof.
  intros Hk. unfold marking_place, marking_of, Marking_new, dget_default.
  assert (dkeys ((λ pq : NetPath * TokenQueue Z, (pq.1, tokens_of pq.2)) <$> qs) = dkeys qs) as Hkeys
    by (unfold dkeys; by rewrite <-list_fmap_compose).
  rewrite dget_filter by (by rewrite Hkeys).
  assert (dget p ((λ pq : NetPath * TokenQueue Z, (pq.1, tokens_of pq.2)) <$> qs) = tokens_of <$> dget p qs) as ->.
  { clear. induction qs as [|[k q] qs IH]; csimpl; [done|]. by case_decide. }
  destruct (dget p qs) as [q|]; simpl; [|done]. case_decide as Hq; simpl; [done|].
  by rewrite Hq.
Qed.

Lemma tokens_at_queues c l p : live_ok c l → tokens_at l p = tokens_of (dget_default p [] (queues l)).
Proof. intros Hok. apply marking_place_of, (qok_keys _ _ (ok_queues _ _ Hok)). Qed.

(** The tokens of a list of selections that belong to one place. *)
Definition selected_at (p : NetPath) (sels : list Selection) : list Token :=
  mjoin (snd <$> filter (λ s : Selection, s.1 = p) sels).

Lemma selected_at_cons p q ts sels :
  selected_at p ((q, ts) :: sels) = (if decide (q = p) then ts else []) ++ selected_at p sels.
Proof. unfold selected_at. rewrite filter_cons. simpl. by case_decide. Qed.

Lemma consumed_moves_tokens qs recs qs' p :
  (∃ o sc i, Forall (is_movement o sc i) recs) → foldM move qs recs = Ok qs' →
  norms (tokens_of (dget_default p [] qs))
  ≡ₚ norms (selected_at p (omap consumed_of recs)) ++ norms (tokens_of (dget_default p [] qs')).
Proof.
  intros (o & sc & i & Hall). revert qs. induction Hall as [|r recs Hr _ IH]; intros qs H; cbn [foldM] in H.
  { by injection H as <-. }
  apply bind_Ok in H as (qs1 & H1 & H). specialize (IH _ H). destruct r; try done.
  - unfold move, apply_movement in H1. apply bind_Ok in H1 as (q & Hq & [= <-]).
    assert (remove (dget_default place [] qs) tokens entries = Ok q) as Hrem.
    { revert Hq. unfold rewrap_not_present. by destruct (remove _ _ _) as [|[]]. }
    apply remove_tokens in Hrem. csimpl. rewrite selected_at_cons, norms_app, <-(assoc_L (++)), <-IH.
    unfold dget_default in *. destruct (decide (place = p)) as [->|Hne]; [|by rewrite dget_dset_ne].
    by rewrite dget_dset_eq.
  - injection H1 as <-. exact IH.
Qed.

(** A begin consumes its selections and nothing else. *)
Lemma begun_tokens c l b i initiation inv scope batch occ movements qs p :
  live_ok c l → begun_by l b i initiation inv scope batch occ movements qs →
  norms (tokens_at l p) ≡ₚ norms (selected_at p (b_consumed b)) ++ norms (tokens_at (begun_live occ qs i l) p).
Proof.
  intros Hok Hbb. destruct (movements_spec _ _ _ _ _ _ _ _ _ _ Hbb) as (Hmv & Hcon & _).
  assert (tokens_at (begun_live occ qs i l) p = tokens_of (dget_default p [] qs)) as ->.
  { unfold tokens_at, live_marking. destruct (begun_live_queues occ qs i l) as [-> _].
    apply marking_place_of. by apply (bb_queues _ _ _ _ _ _ _ _ _ _ Hbb _ (ok_queues _ _ Hok)). }
  rewrite (tokens_at_queues c) by done. rewrite <-Hcon.
  pose proof (bb_moved _ _ _ _ _ _ _ _ _ _ Hbb) as Hm. rewrite (bb_records _ _ _ _ _ _ _ _ _ _ Hbb) in Hm.
  cbn [foldM] in Hm. apply bind_Ok in Hm as (q0 & [= <-] & Hm). rewrite foldM_app in Hm.
  apply bind_Ok in Hm as (q1 & Hm1 & Hm2).
  assert (q1 = qs) as -> by (destruct inv; simpl in Hm2; by injection Hm2).
  eapply consumed_moves_tokens; [|exact Hm1]. eauto.
Qed.

Lemma minted_tokens i sc qs n effects p :
  tokens_of (dget_default p [] (foldl (deposit_minted i sc) qs (mint_entries n effects)))
  = tokens_of (dget_default p [] qs) ++ produced_at p effects.
Proof.
  revert qs n. induction effects as [|e effects IH]; intros qs n; simpl.
  { unfold produced_at. by rewrite app_nil_r. }
  rewrite IH. unfold deposit_minted, produced_at. simpl. rewrite filter_cons.
  unfold dget_default. destruct (decide (produced_place e = p)) as [->|Hne]; simpl.
  - rewrite dget_dset_eq. simpl. unfold tokens_of. rewrite fmap_app, <-(assoc_L (++)). do 2 f_equal.
    unfold deposited. rewrite <-list_fmap_compose.
    rewrite (list_fmap_ext _ fst) by done. by rewrite fst_zip by (rewrite length_zrange; lia).
  - by rewrite dget_dset_ne.
Qed.

Lemma completed_tokens c l o retired sc effects armed' i p :
  live_ok c l →
  tokens_at (completed_live o retired sc (mint_entries (next_entry l) effects)
               (minted_cursor (next_entry l) effects) armed' i l) p
  = tokens_at l p ++ produced_at p effects.
Proof.
  intros Hok. rewrite (tokens_at_queues c l) by done. unfold tokens_at, live_marking.
  destruct (completed_live_queues o retired sc (mint_entries (next_entry l) effects)
              (minted_cursor (next_entry l) effects) armed' i l) as [-> _].
  destruct (mint_ok i sc effects _ _ (ok_queues _ _ Hok) (ok_next_entry _ _ Hok)) as [Hq _].
  rewrite marking_place_of by apply Hq. apply minted_tokens.
Qed.
