(* ===== verification/Reachability.v ===== *)
(** * Reachable Instances

    [Instance.resume] rebuilds the live state from the history alone. Over the
    history of a sound Instance what it builds is that Instance's state: table
    by table the same, up to the order of two tables that are only looked up.
    So an Instance that is constructed, operated on, and resumed any number of
    times stays sound throughout. *)

From stdpp Require Import base gmap sets list strings pretty sorting.
From Stdlib Require Import Ascii ZArith Lia.
From S2P Require Import Prelude PyData Schema Marking Enabledness Firing Activity Records Replay Lifecycle Instance Construction Commit Invariant Operations Coherence LifecycleCoherence Projections Registrations Soundness.
Open Scope string_scope.
Open Scope list_scope.

(** The same state, the scopes and the terminal facts as lookups. *)
Inductive restored (l : Live) : Live → Prop :=
| restored_tables scopes facts :
    scope_equiv scopes (scope_state l) → NoDup (dkeys (active_scopes scopes)) →
    (∀ o, dget o facts = dget o (terminal_activity l)) →
    restored l (set_scope_state scopes (set_terminal_activity facts l)).

Lemma active_equiv s t sc : scope_equiv s t → in_active_scope t sc → in_active_scope s sc.
Proof. intros He H x Hx. rewrite (scope_active_equiv _ _ _ He). by apply H. Qed.

Lemma restored_ok c c' l l' : net c' = net c → live_ok c l → restored l l' → live_ok c' l'.
Proof.
  intros Hn [] [sc facts He Hk Ht]. split; simpl; rewrite ?Hn; try done.
  - intros o occ (? & ? & ?)%ok_in_flight. eauto using active_equiv.
  - intros o f. rewrite Ht. apply ok_terminal.
  - intros name s. rewrite (se_active _ _ He), (se_spent _ _ He). apply ok_active.
  - intros e ?%ok_entry_scopes. eauto using active_equiv.
Qed.

Lemma restored_coherent h l l' : coherent h l → restored l l' → coherent h l'.
Proof.
  intros [] [sc facts He Hk Ht]. split; try done.
  - destruct co_scopes as (s & Hs & Hes & Hn). exists s. split; [done|]. split; [|done]. etrans; [exact Hes|by symmetry].
  - destruct co_lifecycle as (L & G & HL & []). exists L, G. split; [done|]. split; simpl; try done. intros o. by rewrite Ht.
  - destruct co_terminal as (E & F & HF & []). exists E, F. split; [done|]. split; simpl; try done. intros o. by rewrite Ht.
Qed.

Lemma restored_sound s c st l' : net c = net (config s) → st_records st = history s →
  sound s → restored (live s) l' → sound (MkInstance c st l').
Proof.
  intros Hn Hst [Hok Hco] Hr. split; [by eapply restored_ok|]. unfold history. simpl. rewrite Hst. by eapply restored_coherent.
Qed.

(** ** The tables resume rebuilds *)

Lemma by_id_own (d : dict Z FiringOccurrence) : NoDup (dkeys d) → (∀ o occ, dget o d = Some occ → occ_id occ = o) → by_id (dvals d) = d.
Proof.
  intros Hn Hid. assert ((λ occ, (occ_id occ, occ)) <$> dvals d = d) as E; [|unfold by_id; rewrite E; by apply dict_of_list_id].
  assert (∀ o occ, (o, occ) ∈ d → occ_id occ = o) as Hin by (intros o occ H; apply Hid; by apply elem_of_dget).
  clear Hid Hn. induction d as [|[o occ] d IH]; [done|]. csimpl. rewrite IH by (intros; apply Hin; by right).
  by rewrite (Hin o occ) by left.
Qed.

Lemma dict_rebuilt {K V} `{EqDecision K} (f : K → V) (d : dict K V) : (∀ k v, (k, v) ∈ d → f k = v) → (λ k, (k, f k)) <$> dkeys d = d.
Proof.
  induction d as [|[k v] d IH]; intros Hf; [done|]. csimpl. rewrite (Hf k v) by left. f_equal. apply IH. intros. apply Hf. by right.
Qed.

Lemma armed_own n (a : Armed) : dkeys a = source_transitions n → NoDup (source_transitions n) →
  dict_of_list ((λ s, (s, dget_default s ∅ a)) <$> source_transitions n) = a.
Proof.
  intros Hk Hn. rewrite <-Hk in *. rewrite dict_rebuilt; [by apply dict_of_list_id|].
  intros s ks H. unfold dget_default. by rewrite (elem_of_dget _ _ _ Hn H).
Qed.

Lemma activity_keys h l : coherent h l →
  NoDup (dkeys (activity_occurrences l)) ∧ ∀ o occ, dget o (activity_occurrences l) = Some occ → occ_id occ = o.
Proof.
  intros Hco. destruct (co_lifecycle _ _ Hco) as (L & G & _ & Hrel). rewrite (g_activity _ _ _ Hrel).
  pose proof (g_keys _ _ _ Hrel) as Hn.
  assert (NoDup (dkeys (filter (λ kv : Z * FiringOccurrence, is_Some (occ_invocation kv.2)) G))) as Hnf.
  { eapply sublist_NoDup; [exact Hn|]. apply fmap_sublist, sublist_filter. }
  split; [done|]. intros o occ [_ H]%dget_elem_of%list_elem_of_filter.
  by apply (g_occ _ _ _ Hrel o occ), elem_of_dget.
Qed.

(** ** The projections of a sound history *)

Lemma sound_queues s : sound s →
  replay_queues (history s) = Ok (queues (live s)) ∧
  replay_marking (history s) = Ok (live_marking (live s)) ∧
  entry_instants (history s) = Ok (live_entry_instants (live s)) ∧
  replay_next_queue_identity (history s) = Ok (next_entry (live s)).
Proof.
  intros [_ Hco]. destruct (co_queues _ _ Hco) as (spent & Hq & _).
  unfold replay_marking, entry_instants, replay_next_queue_identity, replay_queues. rewrite Hq. done.
Qed.

Lemma sound_clock s : sound s →
  replay_watermark (history s) = Ok (watermark (live s)) ∧
  replay_next_occurrence (history s) = next_occurrence (live s).
Proof. intros [_ Hco]. split; [|apply Hco]. unfold replay_watermark. by rewrite (co_watermark _ _ Hco). Qed.

Lemma sound_occurrences s : sound s →
  replay_in_flight (history s) = Ok (dvals (in_flight (live s))) ∧
  replay_activity_occurrences (history s) = Ok (dvals (activity_occurrences (live s))) ∧
  replay_cancelled (history s) = Ok (dvals (cancelled (live s))) ∧
  replay_projection_pending (history s) = Ok (frozen_results (live s)).
Proof.
  intros [Hok Hco]. destruct (co_lifecycle _ _ Hco) as (L & G & HL & Hrel). destruct (co_cancelled _ _ Hco) as (HC & _ & _).
  unfold replay_in_flight, replay_activity_occurrences, replay_cancelled, replay_projection_pending.
  rewrite HL, HC. cbn [mbind result_bind].
  rewrite (rel_in_flight_of Hrel), (rel_activity Hrel), (rel_cancelled Hrel), (rel_pending Hrel) by apply Hok. done.
Qed.

Lemma sound_terminals s : sound s →
  (∃ facts, replay_terminal_activity (history s) = Ok facts ∧ ∀ o, dget o facts = dget o (terminal_activity (live s))) ∧
  replay_quarantined_activity (history s) = Ok (quarantined_activity (live s)).
Proof.
  intros [Hok Hco]. split.
  - destruct (co_terminal _ _ Hco) as (E & F & HF & Hrel). unfold replay_terminal_activity. rewrite HF.
    eexists. split; [done|]. intros o. unfold terminal_of. simpl. rewrite dget_filter by apply Hrel.
    rewrite (t_terminal _ _ _ Hrel). destruct (dget o F); [reflexivity|by case_decide].
  - destruct (co_cancelled _ _ Hco) as (_ & HQ & _). unfold replay_quarantined_activity. by rewrite HQ.
Qed.

Lemma sound_registrations s : sound s →
  replay_armed (history s) = Ok (armed (live s)) ∧ replay_accepted_identities (history s) = Ok (accepted_identities (live s)).
Proof.
  intros [_ Hco]. split; [apply replay_armed_coherent; apply Hco|].
  unfold replay_accepted_identities, validate_correlated_batches.
  destruct (co_correlated _ _ Hco (list_to_set (omap effect_occurrence (history s)))) as (begun & -> & _). apply Hco.
Qed.

(** ** Resuming *)

(** What [resume] builds over a sound history is the state that wrote it. *)
Lemma resume_live_restores c s l' : net c = net (config s) → sound s → resume_live c (history s) = Ok l' → restored (live s) l'.
Proof.
  intros Hn Hs H. pose proof Hs as [Hok Hco]. unfold resume_live in H. inv_ok.
  destruct (sound_queues s Hs) as (Q1 & _ & _ & Q2), (sound_clock s Hs) as [W1 W2], (sound_occurrences s Hs) as (O1 & O2 & O3 & O4),
    (sound_terminals s Hs) as [(facts & T1 & T2) T3], (sound_registrations s Hs) as [R1 R2], (co_scopes _ _ Hco) as (sc & S1 & S2 & S3),
    (activity_keys _ _ Hco) as [A1 A2].
  rewrite Hn, W2 in *.
  repeat match goal with E : ?f = Ok ?x, E' : ?f = Ok ?y |- _ => assert (x = y) by congruence; clear E'; subst y end.
  rewrite armed_own by apply Hok. rewrite !by_id_own by (try apply Hok; try apply A1; try apply A2; intros ? ? ?; by eapply Hok).
  by eapply (restored_tables (live s)).
Qed.

Lemma resume_restores cel s im st s' : st_records st = history s → sound s → resume cel (net (config s)) im st = Ok s' →
  store s' = st ∧ net (config s') = net (config s) ∧ restored (live s) (live s') ∧ sound s'.
Proof.
  intros Hst Hs H. unfold resume in H. rewrite Hst in H. inv_ok. simpl.
  match goal with H : validate_history_records _ = Ok _ |- _ => apply validate_history_records_Ok in H as [-> _] end.
  match goal with H : bind_symbols _ _ _ _ = Ok _ |- _ => apply bind_symbols_net in H as Hn end.
  match goal with H : resume_live _ _ = Ok _ |- _ => apply resume_live_restores in H; [|done..] end.
  split_and!; try done. by eapply restored_sound.
Qed.

(** ** Nets *)

Definition built (n : Net) : Prop :=
  ∃ places transitions arcs completion name, Net_init places transitions arcs completion name = Ok n.

Lemma built_indexed n : built n → indexed_net n.
Proof.
  intros (ps & ts & ars & comp & name & H). unfold Net_init in H. inv_ok. simpl. apply NoDup_dict_of_list.
Qed.

(** ** Operations *)

Inductive Op :=
| OpenScope (name : string) (at_ : option Instant)
| CloseScope (scope : LifecycleScope) (at_ : option Instant)
| ResetScope (scope : LifecycleScope) (at_ : option Instant)
| Begin (b : Binding) (at_ : option Instant)
| RecordCompletion (o : FiringOccurrence) (value : Data) (at_ : option Instant)
| RecordFailure (o : FiringOccurrence) (f : ActivityFailure) (at_ : option Instant)
| Complete (o : FiringOccurrence) (supplied : option HandlerResult) (at_ : option Instant)
| FailFiring (o : FiringOccurrence) (error : string + ActivityFailure) (at_ : option Instant)
| Execute (o : FiringOccurrence) (at_ : option Instant)
| Step (at_ : option Instant)
| Run (fuel : nat)
| AcceptDelivery (source : path_arg) (tokens : list Token) (at_ : option Instant) (identity : string)
    (target : DeliveryTarget)
| CompleteDelivery (a : AcceptedDelivery) (at_ : option Instant)
| Seal (source : path_arg) (at_ : option Instant)
| Wake (at_ : Instant).

(** An operation with its value forgotten. *)
Definition forget {A} (m : M A) : M unit := m;; mret tt.

Definition perform (op : Op) : M unit :=
  match op with
  | OpenScope name at_ => forget (open_scope name at_)
  | CloseScope sc at_ => forget (close_scope sc at_)
  | ResetScope sc at_ => forget (reset_scope sc at_)
  | Begin b at_ => forget (begin b at_)
  | RecordCompletion o v at_ => forget (record_activity_completion o v at_)
  | RecordFailure o f at_ => forget (record_activity_failure o f at_)
  | Complete o supplied at_ => forget (complete o supplied at_)
  | FailFiring o error at_ => forget (fail o error at_)
  | Execute o at_ => forget (execute o at_)
  | Step at_ => forget (step at_)
  | Run fuel => forget (run fuel)
  | AcceptDelivery source tokens at_ identity target => forget (accept_delivery source tokens at_ identity target)
  | CompleteDelivery a at_ => forget (complete_delivery a at_)
  | Seal source at_ => forget (seal source at_)
  | Wake at_ => forget (wake at_)
  end.

(** A failure argument is an [ActivityFailure] object, which its constructor
    validated. *)
Definition valid_op (op : Op) : Prop :=
  match op with
  | RecordFailure _ f _ | FailFiring _ (inr f) _ => valid_failure f
  | _ => True
  end.

(** The operations that commit at most one batch; the others compose them. *)
Definition single_commit (op : Op) : bool :=
  match op with
  | FailFiring _ _ _ | Execute _ _ | Step _ | Run _ | CompleteDelivery _ _ => false
  | _ => true
  end.

Lemma forget_inv {A} (m : M A) s r s' :
  forget m s = (r, s') → ∃ r0, m s = (r0, s') ∧ is_ok r = is_ok r0.
Proof. unfold forget, mbind, M_bind. destruct (m s) as [[a|e] s1]; intros [= <- <-]; eauto. Qed.

Lemma door_forget {A} s (r0 : result A) s' (r : result unit) : door s r0 s' → is_ok r = is_ok r0 → door s r s'.
Proof. intros [?|(H1 & H2)] E; [by left|]. right. by rewrite E. Qed.

Lemma perform_door op s r s' :
  instance_ok s → valid_op op → single_commit op = true → perform op s = (r, s') → door s r s'.
Proof.
  intros Hok Hv Hs H. destruct op; try done; apply forget_inv in H as (r0 & H & E); (eapply door_forget; [|exact E]).
  all: eauto using open_scope_door, close_scope_door, reset_scope_door, begin_door, record_activity_completion_door,
    complete_door, accept_delivery_door, seal_door, wake_door.
  by apply record_activity_failure_spec in H as [? _].
Qed.

Lemma perform_isteps op s r s' :
  instance_ok s → valid_op op → perform op s = (r, s') → isteps s s'.
Proof.
  intros Hok Hv H. destruct (single_commit op) eqn:Hs; [eapply door_isteps; by eapply perform_door|].
  destruct op; try done; apply forget_inv in H as (r0 & H & _);
    eauto using execute_isteps, step_isteps, run_isteps, complete_delivery_isteps.
  eapply fail_isteps; [done| |exact H]. by intros g ->.
Qed.

(** ** Reachability *)

Inductive reachable : Instance → Prop :=
| reachable_init cel n m im at_ st supplied minted s :
    built n → Instance_init cel n m im at_ st supplied minted = Ok s → reachable s
| reachable_op op s r s' :
    reachable s → valid_op op → perform op s = (r, s') → reachable s'
(** The process ended; another resumes its history over the same net. *)
| reachable_resume cel im st s s' :
    reachable s → st_records st = history s → resume cel (net (config s)) im st = Ok s' → reachable s'.

Lemma reachable_sound s : reachable s → sound s.
Proof.
  induction 1 as [cel n m im at_ st supplied minted s Hn Hi|op s r s' Hr IH Hv Hp|cel im st s s' Hr IH Hst Hp].
  - apply built_indexed in Hn. by apply (Instance_init_sound _ _ _ _ _ _ _ _ _ Hn) in Hi as [? _].
  - eapply isteps_sound; [|exact IH]. eapply perform_isteps; [apply IH|done|exact Hp].
  - by eapply resume_restores.
Qed.
