(* ===== verification/Scenario.v ===== *)
(** * A concrete Instance

    A small net driven through every kind of operation: a source delivers into
    a place, a passthrough moves on, an activity transition leaves the kernel
    and comes back, a lifecycle scope is opened and reset. The witnesses of the
    theorems evaluate at the states below. *)

From stdpp Require Import base gmap sets list strings pretty sorting.
From Stdlib Require Import Ascii ZArith Lia.
From S2P Require Import Prelude PyData Schema Marking Enabledness Firing Activity Records Replay Lifecycle Instance Construction Soundness Reachability.
Open Scope string_scope.
Open Scope list_scope.

Definition empty_net : Net := MkNet [] [] [] None None [] [] [] [] [] [] [] [] [] [].

Definition inbox : NetPath := ["inbox"].
Definition outbox : NetPath := ["outbox"].
Definition done_box : NetPath := ["done"].
Definition feed : NetPath := ["feed"].
Definition work : NetPath := ["work"].
Definition call : NetPath := ["call"].

Definition plain_arc (a b : NetPath) : Arc := MkArc a b CONSUME 1 None None.

Definition demo_places : list Place := [MkPlace inbox None; MkPlace outbox None; MkPlace done_box None].
Definition demo_transitions : list Transition :=
  [MkTransition feed None [] []; MkTransition work None [] [];
   MkTransition call (Some (HandlerSymbol "caller")) [] []].
Definition demo_arcs : list Arc :=
  [plain_arc feed inbox; plain_arc inbox work; plain_arc work outbox; plain_arc outbox call; plain_arc call done_box].

Definition demo_net : Net := ok_or empty_net (Net_init demo_places demo_transitions demo_arcs None (Some "demo")).

(** No inline expression occurs in the net. *)
Definition no_cel : CelCompilers :=
  MkCel (λ _ _ _, Err (ValueError "cel")) (λ _, Err (ValueError "cel")) (λ _ _, Err (ValueError "cel")).

Definition caller : Handler :=
  ImpureHandler (MkActivityHandler
    (λ b, Ok (MkInvocation "svc.call" (DInt 7) default_policy None None))
    (λ b d, Ok (MkHandlerResult [(APath done_box, [black])] [] []))
    None).

Definition demo_impl : Implementations :=
  MkImpl (λ bs, Ok (select_conservative bs)) [] [(ISymbol "caller", caller)] [] [].

Definition dummy_live : Live := MkLive 0%Z [] [] 1%Z 1%Z [] [] [] [] [] [] [] (MkScopeState [] []).
Definition dummy : Instance :=
  MkInstance (MkConfig empty_net "" (λ _, Ok None) [] [] [] None) (MkStore [] []) dummy_live.

Definition demo_marking : Marking := [(inbox, [black])].

Definition demo_init : result Instance :=
  Instance_init no_cel demo_net demo_marking demo_impl 5%Z (MkStore [] []) (Some "demo-1") "fresh".

Definition demo_start : Instance := ok_or dummy demo_init.

(** Performing a sequence of operations, whatever each answers. *)
Definition performs (ops : list Op) (s : Instance) : Instance := foldl (λ s op, (perform op s).2) s ops.

Lemma performs_reachable ops s : reachable s → Forall valid_op ops → reachable (performs ops s).
Proof.
  intros Hs Hall. revert s Hs. induction Hall as [|op ops Hop _ IH]; intros s Hs; simpl; [done|].
  apply IH. destruct (perform op s) as [r s'] eqn:E. by eapply reachable_op.
Qed.

Lemma demo_built : built demo_net.
Proof.
  exists demo_places, demo_transitions, demo_arcs, None, (Some "demo"). apply ok_or_Ok. vm_compute. reflexivity.
Qed.

Lemma demo_start_reachable : reachable demo_start.
Proof.
  eapply reachable_init; [apply demo_built|]. apply ok_or_Ok. vm_compute. reflexivity.
Qed.

(** The generation the scope operations use, and the activity occurrence. *)
Definition tenant : LifecycleScope := MkScope "tenant" 1%Z.

(** Two firings of the passthrough, an activity begun, a scoped delivery, a
    reported result and a scope reset. *)
Definition call_binding : Binding := MkBinding call [(outbox, [black])] [] [].

Definition demo_ops : list Op :=
  [OpenScope "tenant" (Some 7%Z);
   AcceptDelivery (AStr "feed") [black] None "delivery-1" (Some (inl tenant));
   CompleteDelivery (MkAccepted "demo-1" feed "delivery-1" 1%Z) None;
   Step (Some 9%Z);
   Begin call_binding (Some 11%Z)].

(** An activity is in flight, a scoped token waits in the inbox. *)
Definition demo_mid : Instance := performs demo_ops demo_start.

Definition demo_occurrence : FiringOccurrence :=
  default (MkOccurrence 0%Z (MkBinding call [] [] []) [] None None) (dget 3%Z (in_flight (live demo_mid))).

Definition more_ops : list Op :=
  [RecordCompletion demo_occurrence (DInt 1) (Some 12%Z);
   Complete demo_occurrence None (Some 13%Z);
   Begin (MkBinding work [(inbox, [black])] [] []) None;
   ResetScope tenant (Some 20%Z);
   Seal (AStr "feed") None;
   Wake 25%Z].

Definition demo_late : Instance := performs more_ops demo_mid.

Lemma demo_mid_reachable : reachable demo_mid.
Proof. apply performs_reachable; [apply demo_start_reachable|by repeat constructor]. Qed.

Lemma demo_late_reachable : reachable demo_late.
Proof. apply performs_reachable; [apply demo_mid_reachable|by repeat constructor]. Qed.
