(* ===== verification/ResumeTheorems.v ===== *)
(** * A resumed Instance is the Instance

    Two Instances whose live states differ only in the order of the tables that
    are looked up answer every operation alike and stay so: what is resumed
    cannot be told from what was running. *)

From stdpp Require Import base gmap sets list strings pretty sorting.
From Stdlib Require Import Ascii ZArith Lia.
From S2P Require Import Prelude PyData Schema Marking Enabledness Firing Activity Records Replay Lifecycle Instance Construction Commit Invariant Operations Coherence Soundness Reachability Scenario.
Open Scope string_scope.
Open Scope list_scope.

(** ** Twins *)

Inductive alike (l : Live) : Live → Prop :=
| alike_tables scopes facts :
    NoDup (dkeys (active_scopes (scope_state l))) → scope_equiv scopes (scope_state l) → NoDup (dkeys (active_scopes scopes)) →
    (∀ o, dget o facts = dget o (terminal_activity l)) →
    alike l (set_scope_state scopes (set_terminal_activity facts l)).

Lemma alike_intro l l' : l' = set_scope_state (scope_state l') (set_terminal_activity (terminal_activity l') l) →
  NoDup (dkeys (active_scopes (scope_state l))) → scope_equiv (scope_state l') (scope_state l) →
  NoDup (dkeys (active_scopes (scope_state l'))) → (∀ o, dget o (terminal_activity l') = dget o (terminal_activity l)) → alike l l'.
Proof. intros ->. by constructor. Qed.

Inductive twins (s : Instance) : Instance → Prop :=
| twins_live l : alike (live s) l → twins s (MkInstance (config s) (store s) l).

(** The same answer from twins, that stay twins. *)
Definition sim {A} (m1 m2 : M A) : Prop :=
  ∀ s1 s2, twins s1 s2 → (m1 s1).1 = (m2 s2).1 ∧ twins (m1 s1).2 (m2 s2).2.

Notation respects m := (sim m m).

Section rules.
  Context {A B : Type}.
Lemma sim_eq (m m' : M A) : m = m' → respects m → sim m m'.
Proof. by intros ->. Qed.
Lemma sim_ret (a : A) : respects (mret a : M A).
Proof. by intros s1 s2 H. Qed.
Lemma sim_raise e : respects (raise e : M A).
Proof. by intros s1 s2 H. Qed.
Lemma sim_lift (r : result A) : respects (lift r).
Proof. by intros s1 s2 H. Qed.
Lemma sim_cfg (f : Config → A) : respects (cfg f).
Proof. intros s1 s2 H. split; [by destruct H|done]. Qed.
Lemma sim_bind (m1 m2 : M A) (k1 k2 : A → M B) : sim m1 m2 → (∀ a, sim (k1 a) (k2 a)) → sim (m1 ≫= k1) (m2 ≫= k2).
Proof.
  intros Hm Hk s1 s2 H. unfold mbind, M_bind. destruct (Hm s1 s2 H) as [Hr Ht].
  destruct (m1 s1) as [[a|e] t1], (m2 s2) as [r2 t2]; simpl in *; subst r2; [by apply Hk|done].
Qed.
(** A read of the live state. *)
Lemma sim_self (k1 k2 : Live → M B) : (∀ l l', alike l l' → sim (k1 l) (k2 l')) → sim (self id ≫= k1) (self id ≫= k2).
Proof. intros Hk s1 s2 H. rewrite !bind_self. unfold id. apply Hk; [|done]. by destruct H. Qed.
Lemma sim_read (f : Instance → result A) : (∀ s1 s2, twins s1 s2 → f s1 = f s2) → respects (λ s, (f s, s)).
Proof. intros Hf s1 s2 H. split; [by apply Hf|done]. Qed.
Lemma sim_try (m1 m2 : M A) h1 h2 : sim m1 m2 → (∀ e, sim (h1 e) (h2 e)) → sim (try_with m1 h1) (try_with m2 h2).
Proof.
  intros Hm Hh s1 s2 H. unfold try_with. destruct (Hm s1 s2 H) as [Hr Ht].
  destruct (m1 s1) as [[a|e] t1], (m2 s2) as [r2 t2]; simpl in *; subst r2; [done|by apply Hh].
Qed.
End rules.

Lemma sim_update f : (∀ l l', alike l l' → alike (f l) (f l')) → respects (update f).
Proof. intros Hf s1 s2 [l Hl]. split; [done|]. by apply (twins_live (MkInstance (config s1) (store s1) (f (live s1)))), Hf. Qed.

Lemma sim_extend batch : respects (extend batch).
Proof.
  intros s1 s2 [l Hl]. unfold extend, history. simpl. destruct (st_refusals (store s1)) as [|[e|] rest]; simpl; (split; [done|]).
  - by apply (twins_live (MkInstance (config s1) (MkStore (st_records (store s1) ++ batch) []) (live s1))).
  - by apply (twins_live (MkInstance (config s1) (MkStore (st_records (store s1)) rest) (live s1))).
  - by apply (twins_live (MkInstance (config s1) (MkStore (st_records (store s1) ++ batch) rest) (live s1))).
Qed.

Lemma sim_for_each {A} (l : list A) f g : (∀ a, sim (f a) (g a)) → sim (for_each l f) (for_each l g).
Proof. intros Hf. induction l as [|a l IH]; simpl; [apply sim_ret|]. by apply sim_bind. Qed.

(** ** What the operations look up *)

Lemma dmem_lookup {K V} `{EqDecision K} (k : K) (d d' : dict K V) : dget k d = dget k d' → dmem k d = dmem k d'.
Proof.
  intros H. apply Bool.eq_iff_eq_true. rewrite !dmem_true, <-!dget_is_Some. by rewrite H.
Qed.

Lemma closure_alike l l' sc : alike l l' → scope_closure l sc = scope_closure l' sc.
Proof. intros [scopes facts _ He _ _]. unfold scope_closure. simpl. by rewrite (scope_active_equiv _ _ _ He). Qed.

Lemma inactive_alike l l' target : alike l l' → target_inactive l target = target_inactive l' target.
Proof. intros [scopes facts _ He _ _]. destruct target; [|done]. simpl. by rewrite (scope_active_equiv _ _ _ He). Qed.

Lemma disposition_alike l l' path ts identity target at_ : alike l l' →
  scoped_disposition l path ts identity target (effective l at_) = scoped_disposition l' path ts identity target (effective l' at_).
Proof. intros [scopes facts _ He _ _]. unfold scoped_disposition. destruct target; [|done]. simpl. by rewrite (se_spent _ _ He). Qed.

Lemma active_alike l l' name : alike l l' → dmem name (active_scopes (scope_state l)) = dmem name (active_scopes (scope_state l')).
Proof. intros [scopes facts _ He _ _]. apply dmem_lookup. by rewrite <-(se_active _ _ He). Qed.

Lemma spent_alike l l' name : alike l l' → spent_generation (scope_state l) name = spent_generation (scope_state l') name.
Proof. intros [scopes facts _ He _ _]. by rewrite <-(se_spent _ _ He). Qed.

Lemma terminal_alike l l' o : alike l l' → dget o (terminal_activity l) = dget o (terminal_activity l').
Proof. by intros [scopes facts _ _ _ Ht]. Qed.

(** An update that reads neither table. *)
Ltac alike_same := intros ? ? []; by apply alike_intro.

Lemma sim_set_scope name sc gen : respects (update (λ l, set_scope_state
  (MkScopeState (dset name sc (active_scopes (scope_state l))) (dset name gen (scope_generations (scope_state l)))) l)).
Proof.
  apply sim_update. intros l ? [scopes facts Hn He Hn' Ht].
  apply alike_intro; simpl; [done|by apply NoDup_dkeys_dset|by apply scope_equiv_set|by apply NoDup_dkeys_dset|done].
Qed.

Lemma sim_drop_scope name : respects (update (λ l, set_scope_state
  (MkScopeState (ddel name (active_scopes (scope_state l))) (scope_generations (scope_state l))) l)).
Proof.
  apply sim_update. intros l ? [scopes facts Hn [Ha Hs] Hn' Ht].
  apply alike_intro; simpl; [done|by apply NoDup_dkeys_ddel| |by apply NoDup_dkeys_ddel|done].
  split; [|done]. intros k. simpl. destruct (decide (k = name)) as [->|]; [by rewrite !dget_ddel_eq|by rewrite !dget_ddel_ne].
Qed.

Lemma sim_retire o frozen : respects (update (λ l, set_terminal_activity (dset o frozen (terminal_activity l))
  (set_frozen_results (ddel o (frozen_results l)) l))).
Proof.
  apply sim_update. intros l ? [scopes facts Hn He Hn' Ht].
  apply alike_intro; simpl; try done.
  intros k. rewrite !dget_dset. by case_decide.
Qed.

Create HintDb sim.
#[export] Hint Resolve sim_ret sim_raise sim_lift sim_cfg sim_extend sim_set_scope sim_drop_scope sim_retire : sim.

(** What differs is looked up alike; the rest is the same. *)
Ltac look H :=
  first [ reflexivity | apply (closure_alike _ _ _ H) | apply (inactive_alike _ _ _ H) | apply (disposition_alike _ _ _ _ _ _ _ H)
        | apply (terminal_alike _ _ _ H) | by rewrite (active_alike _ _ _ H) | by rewrite (spent_alike _ _ _ H)
        | repeat match goal with H : alike _ _ |- _ => destruct H end; reflexivity ].

Ltac sims :=
  repeat first
    [ solve [auto with sim]
    | match goal with H : alike _ _ |- sim (lift _) (lift _) => apply sim_eq; [f_equal; look H|apply sim_lift] end
    | match goal with H : alike _ _ |- sim (match ?x with _ => _ end) (match ?y with _ => _ end) =>
        replace y with x by (look H); destruct x end
    | match goal with H : alike _ _ |- sim (raise _) (raise _) => apply sim_eq; [f_equal; look H|apply sim_raise] end
    | match goal with H : alike _ _ |- sim (mret _) (mret _) => apply sim_eq; [f_equal; look H|apply sim_ret] end
    | apply sim_self; intros ? ? ?
    | apply sim_bind; [|intros ?]
    | apply sim_try; [|intros ?]
    | apply sim_for_each; intros ?
    | apply sim_update; alike_same
    | match goal with H : alike _ _ |- sim (update _) (update _) => apply sim_eq; [by destruct H|apply sim_update; alike_same] end
    | progress case_match ].

Lemma sim_advance l l' at_ : alike l l' → sim (advance (effective l at_)) (advance (effective l' at_)).
Proof. intros [scopes facts]. apply sim_update. alike_same. Qed.
Lemma sim_advance_same i : respects (advance i).
Proof. apply sim_update. alike_same. Qed.
#[export] Hint Resolve sim_advance sim_advance_same : sim.

Lemma sim_open_scope name at_ : respects (open_scope name at_).
Proof. unfold open_scope. sims. Qed.
Lemma sim_cancel o : respects (cancel_occurrence o).
Proof. unfold cancel_occurrence. sims. Qed.
#[export] Hint Resolve sim_cancel : sim.
Lemma sim_scope_terminal r cl opened : respects (apply_scope_terminal r cl opened).
Proof. unfold apply_scope_terminal. sims. Qed.
#[export] Hint Resolve sim_scope_terminal : sim.
Lemma sim_close_scope sc at_ : respects (close_scope sc at_).
Proof. unfold close_scope. sims. Qed.
Lemma sim_reset_scope sc at_ : respects (reset_scope sc at_).
Proof. unfold reset_scope. sims. Qed.
Lemma sim_begin_occurrence b at_ initiation inv sc : respects (begin_occurrence b at_ initiation inv sc).
Proof. unfold begin_occurrence. sims. Qed.
#[export] Hint Resolve sim_begin_occurrence : sim.
Lemma sim_begin b at_ : respects (begin b at_).
Proof. unfold begin. sims. Qed.
Lemma sim_quarantine occ outcome at_ : respects (quarantine_terminal occ outcome at_).
Proof. unfold quarantine_terminal. sims. Qed.
Lemma sim_ack_result t d : respects (acknowledge_result t d).
Proof. unfold acknowledge_result. sims. Qed.
Lemma sim_ack_failure t f : respects (acknowledge_failure t f).
Proof. unfold acknowledge_failure. sims. Qed.
#[export] Hint Resolve sim_begin sim_quarantine sim_ack_result sim_ack_failure : sim.
Lemma sim_record_completion occ v at_ : respects (record_activity_completion occ v at_).
Proof. unfold record_activity_completion. sims. Qed.
Lemma sim_record_failure occ f at_ : respects (record_activity_failure occ f at_).
Proof. unfold record_activity_failure. sims. Qed.
Lemma sim_retire_frozen o : respects (retire_frozen o).
Proof. unfold retire_frozen. sims. Qed.
Lemma sim_leave o : respects (leave_in_flight o).
Proof. unfold leave_in_flight. sims. Qed.
Lemma sim_unwrap {A} e : respects (unwrap_refusal e : M A).
Proof. unfold unwrap_refusal. sims. Qed.
#[export] Hint Resolve sim_record_completion sim_record_failure sim_retire_frozen sim_leave sim_unwrap : sim.
Lemma sim_commit_completion occ v at_ : respects (commit_completion occ v at_).
Proof. unfold commit_completion. sims. Qed.
#[export] Hint Resolve sim_commit_completion : sim.
Lemma sim_complete occ v at_ : respects (complete occ v at_).
Proof. unfold complete. sims. Qed.
#[export] Hint Resolve sim_complete : sim.
Lemma sim_fail occ e at_ : respects (fail occ e at_).
Proof. unfold fail. sims. Qed.
#[export] Hint Resolve sim_fail : sim.
Lemma sim_execute occ at_ : respects (execute occ at_).
Proof. unfold execute. sims. Qed.
#[export] Hint Resolve sim_execute : sim.
Lemma sim_step at_ : respects (step at_).
Proof. unfold step. sims. Qed.
#[export] Hint Resolve sim_step : sim.
Lemma sim_run fuel : respects (run fuel).
Proof. induction fuel as [|fuel IH]; simpl; [apply sim_ret|]. sims. Qed.
Lemma sim_accept_begin c l l' path ts at_ k sc : alike l l' → sim (accept_begin c l path ts at_ k sc) (accept_begin c l' path ts at_ k sc).
Proof. intros H. unfold accept_begin. sims. Qed.
#[export] Hint Resolve sim_accept_begin : sim.
Lemma sim_accept_delivery src ts at_ k target : respects (accept_delivery src ts at_ k target).
Proof. unfold accept_delivery, accept_new. sims. Qed.
Lemma sim_complete_delivery a at_ : respects (complete_delivery a at_).
Proof. unfold complete_delivery. sims. Qed.
Lemma sim_seal src at_ : respects (seal src at_).
Proof. unfold seal. sims. Qed.
Lemma sim_maturation : respects (λ s, (instance_next_maturation s, s)).
Proof. apply sim_read. by intros s1 s2 [l []]. Qed.
#[export] Hint Resolve sim_maturation : sim.
Lemma sim_wake at_ : respects (wake at_).
Proof. unfold wake. sims. Qed.
#[export] Hint Resolve sim_open_scope sim_close_scope sim_reset_scope sim_run sim_accept_delivery sim_complete_delivery sim_seal sim_wake : sim.

Lemma sim_perform op : respects (perform op).
Proof. destruct op; (apply sim_bind; [auto with sim|intros ?; apply sim_ret]). Qed.

(** What a sequence of operations answers. *)
Fixpoint replies (ops : list Op) (s : Instance) : list (result unit) :=
  match ops with
  | [] => []
  | op :: ops => (perform op s).1 :: replies ops (perform op s).2
  end.

Lemma sim_performs ops : ∀ s s', twins s s' → replies ops s = replies ops s' ∧ twins (performs ops s) (performs ops s').
Proof.
  induction ops as [|op ops IH]; intros s s' H; simpl; [done|]. destruct (sim_perform op s s' H) as [-> Ht].
  destruct (IH _ _ Ht) as [-> ?]. done.
Qed.

(** ** The recorded identity *)

Definition self_identified (s : Instance) : Prop :=
  ∃ name i rest, history s = InstanceCreated (instance_id (config s)) name i :: rest.

Lemma isteps_identified s s' : isteps s s' → self_identified s → self_identified s'.
Proof.
  induction 1 as [|s s1 s' Hs _ IH]; [done|]. intros (name & i & rest & Hh). apply IH.
  destruct Hs as [c st st' l Heq|c st st' l l' batch Hc Heq]; unfold self_identified, history in *; simpl in *; rewrite Heq, Hh; simpl; eauto.
Qed.

Lemma replayed_identity r rest created : (∃ i n t, r = InstanceCreated i n t) →
  replay_instance_identity (r :: rest) = Ok created → created = Some r.
Proof.
  intros (i & n & t & ->). unfold replay_instance_identity. simpl.
  assert (∀ h k x y, foldM identity_step (S k, Some x) h = Ok y → y.2 = Some x) as Hkeep.
  { induction h as [|r h IH]; intros k x y H; simpl in H; [by injection H as <-|]. apply bind_Ok in H as (z & Hz & H).
    destruct r; simpl in Hz; try discriminate Hz; injection Hz as <-; by eapply IH. }
  intros H. inv_ok. simpl in *. by eapply Hkeep.
Qed.

Lemma bind_symbols_identity cel n im identity c : bind_symbols cel n im identity = Ok c → instance_id c = identity.
Proof. unfold bind_symbols. intros H. by inv_ok. Qed.

Lemma resume_identity cel n im st s' i name t rest : st_records st = InstanceCreated i name t :: rest →
  resume cel n im st = Ok s' → bind_symbols cel n im i = Ok (config s') ∧ store s' = st.
Proof.
  intros Hst H. unfold resume in H. rewrite Hst in H. inv_ok. simpl.
  match goal with H : validate_history_records _ = Ok _ |- _ => apply validate_history_records_Ok in H as [-> _] end.
  match goal with H : replay_instance_identity _ = Ok _ |- _ => apply replayed_identity in H as ->; [|eauto] end.
  simpl in *. simplify_eq. done.
Qed.

Lemma reachable_identified s : reachable s → self_identified s.
Proof.
  induction 1 as [cel n m im at_ st supplied minted s Hn Hi|op s r s' Hr IH Hv Hp|cel im st s s' Hr IH Hst Hp].
  - unfold Instance_init in Hi. inv_ok. unfold self_identified, history. simpl.
    match goal with H : bind_symbols _ _ _ _ = Ok _ |- _ => apply bind_symbols_identity in H as -> end.
    match goal with H : writer_records _ = Ok _ |- _ => apply writer_records_Ok in H as [-> _] end.
    match goal with H : negb (bool_decide _) = false |- _ => apply negb_false_iff, bool_decide_eq_true in H; rename H into He end.
    match goal with H : store_extend _ _ = Ok _ |- _ => unfold store_extend in H; rewrite He in H;
      destruct (st_refusals st) as [|[]]; simplify_eq/=; eauto end.
  - eapply isteps_identified; [|exact IH]. eapply perform_isteps; [apply (reachable_sound _ Hr)|done|exact Hp].
  - destruct IH as (name & i & rest & Hh). rewrite Hh in Hst. destruct (resume_identity _ _ _ _ _ _ _ _ _ Hst Hp) as [Hb Hs].
    apply bind_symbols_identity in Hb. exists name, i, rest. unfold history. by rewrite Hs, Hst, Hb.
Qed.

(** ** Resuming cannot be told from running on *)

Lemma twins_status s s' : twins s s' → status s = status s'.
Proof. by intros [l []]. Qed.

(** C3: crash-resume is transparent. When [resume] accepts the history of a
    reachable Instance, with the same net and implementations, the Instance it
    returns and the one that wrote the history, given the same store, answer
    every sequence of operations alike, write the same records and end in the
    same state and status. *)
Theorem resume_is_transparent cel im st s s' ops :
  reachable s → bind_symbols cel (net (config s)) im (instance_id (config s)) = Ok (config s) → st_records st = history s →
  resume cel (net (config s)) im st = Ok s' →
  let s0 := MkInstance (config s) st (live s) in
  replies ops s' = replies ops s0 ∧ history (performs ops s') = history (performs ops s0) ∧
  restored (live (performs ops s0)) (live (performs ops s')) ∧ status (performs ops s') = status (performs ops s0).
Proof.
  intros Hr Hb Hst H s0. pose proof (reachable_sound _ Hr) as Hs. destruct (reachable_identified _ Hr) as (name & i & rest & Hh).
  pose proof Hst as Hst'. rewrite Hh in Hst'. destruct (resume_identity _ _ _ _ _ _ _ _ _ Hst' H) as [Hb' Hs'].
  rewrite Hb in Hb'. injection Hb' as Hc.
  destruct (resume_restores _ _ _ _ _ Hst Hs H) as (_ & _ & Hl & _).
  assert (twins s0 s') as Ht.
  { destruct s' as [c' st' l']. simpl in *. subst c' st'. apply (twins_live s0). destruct Hl. constructor; try done. apply Hs. }
  destruct (sim_performs ops _ _ Ht) as [Ha Ht']. split; [done|]. destruct Ht' as [l Hal].
  split; [done|]. split; [simpl; by destruct Hal|]. symmetry. apply twins_status. by constructor.
Qed.

Definition demo_stored : Store := MkStore (history demo_late) [].

Lemma resume_is_transparent_witness :
  ∃ s', resume no_cel (net (config demo_late)) demo_impl demo_stored = Ok s' ∧
    replies [Step None; Wake 40%Z; OpenScope "tenant" None] s' = replies [Step None; Wake 40%Z; OpenScope "tenant" None] demo_late.
Proof.
  destruct (resume no_cel (net (config demo_late)) demo_impl demo_stored) as [s'|] eqn:E;
    [|exfalso; assert (is_ok (resume no_cel (net (config demo_late)) demo_impl demo_stored) = true) as H by (vm_compute; reflexivity);
      rewrite E in H; discriminate H].
  exists s'. split; [reflexivity|].
  assert (bind_symbols no_cel (net (config demo_late)) demo_impl (instance_id (config demo_late)) = Ok (config demo_late)) as Hb
    by (vm_compute; reflexivity).
  assert (st_records demo_stored = history demo_late) as Hst by (unfold demo_stored; cbn [st_records]; reflexivity).
  rewrite (proj1 (resume_is_transparent no_cel demo_impl demo_stored demo_late s' [Step None; Wake 40%Z; OpenScope "tenant" None]
    demo_late_reachable Hb Hst E)). vm_compute. reflexivity.
Defined.
