(* ===== verification/InstanceTheorems.v ===== *)
(** * What an Instance guarantees

    Every replay projection of the recorded history succeeds and equals the live
    table it rebuilds, which is what crash-resume relies on. The invariant, the atomicity and order of commits, exactly-once boundaries
    and the conservation of tokens, for every reachable Instance and every
    operation. *)

From stdpp Require Import base gmap sets list strings pretty sorting.
From Stdlib Require Import Ascii ZArith Lia.
From S2P Require Import Prelude PyData Schema Marking Enabledness Firing Activity Records Replay Lifecycle Instance Construction Commit Invariant Operations Coherence LifecycleCoherence Projections Registrations Soundness Reachability Scenario.
Open Scope string_scope.
Open Scope list_scope.

(** ** The history determines the live state *)

(** C1: the token queues, the marking, the entry instants and the next
    queue-entry identity of a reachable Instance are the queue fold of its
    history. *)
Theorem replay_rebuilds_queues s :
  reachable s →
  replay_queues (history s) = Ok (queues (live s)) ∧
  replay_marking (history s) = Ok (live_marking (live s)) ∧
  entry_instants (history s) = Ok (live_entry_instants (live s)) ∧
  replay_next_queue_identity (history s) = Ok (next_entry (live s)).
Proof. intros H%reachable_sound. by apply sound_queues. Qed.

Lemma replay_rebuilds_queues_witness :
  reachable demo_late ∧ replay_marking (history demo_late) = Ok (live_marking (live demo_late)).
Proof. split; [exact demo_late_reachable|exact (proj1 (proj2 (replay_rebuilds_queues demo_late demo_late_reachable)))]. Defined.

(** C2: the in-flight, activity and cancelled occurrences and the
    terminal facts awaiting projection are rebuilt from the history exactly, in
    the same order, bindings, invocations and scopes included. *)
Theorem replay_rebuilds_occurrences s :
  reachable s →
  replay_in_flight (history s) = Ok (dvals (in_flight (live s))) ∧
  replay_activity_occurrences (history s) = Ok (dvals (activity_occurrences (live s))) ∧
  replay_cancelled (history s) = Ok (dvals (cancelled (live s))) ∧
  replay_projection_pending (history s) = Ok (frozen_results (live s)).
Proof. intros H%reachable_sound. by apply sound_occurrences. Qed.

Lemma replay_rebuilds_occurrences_witness :
  reachable demo_mid ∧ replay_in_flight (history demo_mid) = Ok (dvals (in_flight (live demo_mid))).
Proof. split; [exact demo_mid_reachable|exact (proj1 (replay_rebuilds_occurrences demo_mid demo_mid_reachable))]. Defined.

(** The ledgers an Instance decides by are rebuilt from its history:
    the clock and the next occurrence identity, the armed registrations and the
    accepted delivery identities, the active and spent scope generations, the
    terminal facts of ended Activities and the quarantined outcomes. *)
Theorem replay_rebuilds_ledgers s :
  reachable s →
  replay_watermark (history s) = Ok (watermark (live s)) ∧
  replay_next_occurrence (history s) = next_occurrence (live s) ∧
  replay_armed (history s) = Ok (armed (live s)) ∧
  replay_accepted_identities (history s) = Ok (accepted_identities (live s)) ∧
  (∃ sc, replay_scopes (history s) = Ok sc ∧ scope_equiv sc (scope_state (live s))) ∧
  (∃ facts, replay_terminal_activity (history s) = Ok facts ∧ ∀ o, dget o facts = dget o (terminal_activity (live s))) ∧
  replay_quarantined_activity (history s) = Ok (quarantined_activity (live s)).
Proof.
  intros Hs%reachable_sound. destruct (sound_clock s Hs), (sound_registrations s Hs), (co_scopes _ _ (sound_coherent s Hs)) as (sc & ? & ? & _),
    (sound_terminals s Hs). split_and!; try done. by exists sc.
Qed.

Lemma replay_rebuilds_ledgers_witness :
  reachable demo_late ∧ replay_watermark (history demo_late) = Ok (watermark (live demo_late)).
Proof. split; [exact demo_late_reachable|exact (proj1 (replay_rebuilds_ledgers demo_late demo_late_reachable))]. Defined.

(** ** Written histories *)

(** Only a scheduled begin freezes a policy, the one its invocation carries. *)
Lemma begun_policies l b i initiation inv scope batch occ movements qs :
  begun_by l b i initiation inv scope batch occ movements qs →
  (∀ o j, rebuild_policy (initiation o j) = Ok tt) →
  (∀ v, inv = Some v → ExecutionPolicy_post_init (inv_policy v) = Ok tt) →
  Forall (λ r, rebuild_policy r = Ok tt) batch.
Proof.
  intros Hbb Hi Hv. eapply begun_records_are; [exact Hbb|apply Hi| |done|exact Hv].
  intros r Hr. by destruct r.
Qed.

Lemma prepared_policy c b inv v :
  prepared_invocation c b = Ok inv → inv = Some v → ExecutionPolicy_post_init (inv_policy v) = Ok tt.
Proof.
  unfold prepared_invocation. intros H ->. apply bind_Ok in H as (h & _ & H). destruct h as [f|h]; [done|]. by inv_ok.
Qed.

Lemma commit_written c l batch l' : commit c l batch l' → Forall admissible batch.
Proof.
  assert (∀ b, written b → Forall (λ r, rebuild_policy r = Ok tt) b → Forall admissible b) as Hw.
  { intros b Hb Hp. apply writer_records_Ok in Hb as [_ Hb]. by apply Forall_and. }
  destruct 1; try (apply Hw; [done|by repeat constructor]).
  - destruct (begin_batch_spec _ _ _ _ _ _ _ _ H5) as (movements & qs' & Hbb).
    apply Hw; [apply (bb_written _ _ _ _ _ _ _ _ _ _ Hbb)|]. eapply begun_policies; [exact Hbb|done|].
    intros v. by apply (prepared_policy c b).
  - destruct (begin_batch_spec _ _ _ _ _ _ _ _ H6) as (movements & qs' & Hbb).
    apply Hw; [apply (bb_written _ _ _ _ _ _ _ _ _ _ Hbb)|]. by eapply begun_policies.
  - apply completion_batch_spec in H0 as (env & effects & m' & _ & _ & _ & _ & _ & _ & -> & Hb).
    apply Hw; [done|]. by apply completion_records_are.
  - apply Hw; [done|]. constructor; [|done]. unfold r, scoped_disposition. destruct target; [by case_match|done].
  - apply Hw; [done|]. by apply Forall_fmap, Forall_true.
Qed.

Lemma initial_admissible n identity m i :
  Forall canonical_record (initial_records n identity m i) → Forall admissible (initial_records n identity m i).
Proof.
  pose proof (initial_records_are n identity m i) as Hi. rewrite !Forall_forall in *. intros Hcan r Hr.
  split; [auto|]. specialize (Hi r Hr). by destruct r.
Qed.

Lemma isteps_written s s' :
  isteps s s' → Forall admissible (history s) → Forall admissible (history s').
Proof.
  induction 1 as [|x y z Hxy _ IH]; [done|]. intros Hx. apply IH. clear IH.
  destruct Hxy as [c st st' l Heq|c st st' l l' batch Hc Heq]; unfold history in *; simpl in *; rewrite Heq; [done|].
  apply Forall_app. split; [done|]. by eapply commit_written.
Qed.

Lemma reachable_written s : reachable s → Forall admissible (history s).
Proof.
  induction 1 as [cel n m im at_ st supplied minted s Hn Hi|op s r s' Hr IH Hv Hp|cel im st s s' Hr IH Hst Hp].
  - unfold Instance_init in Hi. inv_ok. unfold history. simpl.
    match goal with H : writer_records _ = Ok _ |- _ => apply writer_records_Ok in H as [-> Hcan] end.
    match goal with H : negb (bool_decide _) = false |- _ => apply negb_false_iff, bool_decide_eq_true in H; rename H into He end.
    match goal with H : store_extend _ _ = Ok _ |- _ => unfold store_extend in H; rewrite He in H;
      destruct (st_refusals st) as [|[]]; simplify_eq/=; by apply initial_admissible end.
  - eapply isteps_written; [|exact IH]. eapply perform_isteps; [apply (reachable_sound _ Hr)|done|exact Hp].
  - apply resume_restores in Hp as (Hs & _); [|done|by apply reachable_sound]. unfold history in *. by rewrite Hs, Hst.
Qed.

(** A reachable history passes the admission boundary every reader
    applies to a stored history, unchanged. *)
Theorem history_always_admissible s :
  reachable s → validate_history_records (history s) = Ok (history s).
Proof. intros H%reachable_written. by apply validate_history_records_Ok. Qed.

Lemma history_always_admissible_witness :
  reachable demo_late ∧ validate_history_records (history demo_late) = Ok (history demo_late).
Proof. split; [exact demo_late_reachable|exact (history_always_admissible demo_late demo_late_reachable)]. Defined.

(** C8: queue entries carry unique minted identities, in-flight
    occurrences sit under their own identity in active scopes, frozen facts
    belong to in-flight impure occurrences, cancelled and terminated
    occurrences are not in flight, registrations cover exactly the sources. *)
Theorem reachable_live_invariant s : reachable s → live_ok (config s) (live s).
Proof. intros H%reachable_sound. apply H. Qed.

Lemma reachable_live_invariant_witness : reachable demo_mid ∧ live_ok (config demo_mid) (live demo_mid).
Proof. split; [exact demo_mid_reachable|exact (reachable_live_invariant demo_mid demo_mid_reachable)]. Defined.

(** C9: an operation that raises (a failed check or a refused append)
    leaves the history and the whole live state as they were. *)
Theorem raising_operation_changes_nothing op s e s' :
  reachable s → valid_op op → single_commit op = true → perform op s = (Err e, s') →
  live s' = live s ∧ history s' = history s ∧ config s' = config s.
Proof.
  intros Hr Hv Hs Hp. eapply perform_door, door_raise in Hp as (? & ? & ?); [done|apply (reachable_sound _ Hr)|done|done].
Qed.

Definition refused_start : Instance :=
  ok_or dummy (Instance_init no_cel demo_net demo_marking demo_impl 5%Z
                 (MkStore [] [None; Some (StoreError "disk full")]) (Some "demo-1") "fresh").

Lemma refused_start_reachable : reachable refused_start.
Proof. eapply reachable_init; [apply demo_built|]. apply ok_or_Ok. vm_compute. reflexivity. Qed.

Lemma raising_operation_changes_nothing_witness :
  ∃ s', perform (OpenScope "tenant" None) refused_start = (Err (StoreError "disk full"), s') ∧
        live s' = live refused_start ∧ history s' = history refused_start.
Proof.
  destruct (perform (OpenScope "tenant" None) refused_start) as [r s'] eqn:E. exists s'.
  assert (r = Err (StoreError "disk full")) as Hr.
  { change r with (r, s').1. rewrite <-E. vm_compute. reflexivity. }
  subst r. split; [reflexivity|].
  destruct (raising_operation_changes_nothing (OpenScope "tenant" None) refused_start _ s'
              refused_start_reachable I eq_refl E) as (H1 & H2 & _).
  exact (conj H1 H2).
Defined.

(** An operation that succeeds either changes nothing or appends one
    non-empty batch of admissible records, all stamped with the new watermark,
    which is not before the old one. *)
Theorem operation_commits_one_batch op s s' :
  reachable s → valid_op op → single_commit op = true → perform op s = (Ok tt, s') →
  (live s' = live s ∧ history s' = history s) ∨
  (∃ batch, batch ≠ [] ∧ history s' = history s ++ batch ∧ Forall admissible batch ∧
            Forall (λ r, rec_instant r = watermark (live s')) batch ∧
            (watermark (live s) ≤ watermark (live s'))%Z).
Proof.
  intros Hr Hv Hs Hp. eapply perform_door in Hp as [(_ & ? & ?)|(_ & _ & batch & Hc & Hh)];
    [by left| |apply (reachable_sound _ Hr)|done|done].
  right. exists batch. destruct (commit_instants _ _ _ _ Hc) as (? & ? & ?). pose proof (commit_written _ _ _ _ Hc). done.
Qed.

Lemma operation_commits_one_batch_witness :
  ∃ s', perform (OpenScope "tenant" (Some 9%Z)) demo_start = (Ok tt, s') ∧
        ∃ batch, history s' = history demo_start ++ batch.
Proof.
  destruct (perform (OpenScope "tenant" (Some 9%Z)) demo_start) as [r s'] eqn:E. exists s'.
  assert (r = Ok tt) as Hr.
  { change r with (r, s').1. rewrite <-E. vm_compute. reflexivity. }
  subst r. split; [reflexivity|].
  destruct (operation_commits_one_batch (OpenScope "tenant" (Some 9%Z)) demo_start s'
              demo_start_reachable I eq_refl E) as [(_ & H)|(batch & _ & H & _)].
  - exists []. by rewrite app_nil_r.
  - exists batch. exact H.
Defined.

(** Whatever an operation answers, the history only grows at its end
    and the watermark never goes back; configuration and identity are fixed. *)
Theorem operations_append_only op s r s' :
  reachable s → valid_op op → perform op s = (r, s') →
  (∃ appended, history s' = history s ++ appended) ∧
  (watermark (live s) ≤ watermark (live s'))%Z ∧ config s' = config s.
Proof.
  intros Hr Hv Hp. eapply perform_isteps in Hp; [|apply (reachable_sound _ Hr)|done].
  split; [by apply isteps_history|]. split; [by apply isteps_watermark|by apply isteps_config].
Qed.

Lemma operations_append_only_witness :
  ∃ r s', perform (Run 3) demo_start = (r, s') ∧ ∃ appended, history s' = history demo_start ++ appended.
Proof.
  destruct (perform (Run 3) demo_start) as [r s'] eqn:E. exists r, s'. split; [reflexivity|].
  exact (proj1 (operations_append_only (Run 3) demo_start r s' demo_start_reachable I E)).
Defined.

(** The fold reaches every record from the state of the records before it. *)
Lemma lifecycle_reaches h L j r : sorted_lifecycle h = Ok L → h !! j = Some r →
  ∃ L0 L1, sorted_lifecycle (take j h) = Ok L0 ∧ lifecycle_step L0 r = Ok L1.
Proof.
  unfold sorted_lifecycle. intros H Hj. rewrite <-(take_drop_middle _ _ _ Hj), foldM_app in H.
  apply bind_Ok in H as (L0 & H0 & H). cbn [foldM] in H. apply bind_Ok in H as (L1 & H1 & _). eauto.
Qed.

(** The fold remembers the record it read last. *)
Lemma lifecycle_previous h : ∀ L, sorted_lifecycle h = Ok L → lc_previous L = last h.
Proof.
  induction h as [|r h _] using rev_ind; intros L H; [by injection H as <-|]. rewrite last_snoc.
  unfold sorted_lifecycle in H. rewrite foldM_app in H. apply bind_Ok in H as (L0 & _ & H). cbn [foldM] in H.
  apply bind_Ok in H as (L1 & H & [= <-]). unfold lifecycle_step in H. cbv zeta in H. by apply bind_Ok in H as (L2 & _ & [= <-]).
Qed.

Lemma begun_before h L j o : sorted_lifecycle (take j h) = Ok L → dmem o (lc_begun L) = true →
  ∃ i r, (i < j)%nat ∧ h !! i = Some r ∧ begun_id r = Some o.
Proof.
  intros H Hb%dmem_true. rewrite (on_begun _ _ (sorted_lifecycle_once _ _ H)) in Hb.
  apply list_elem_of_omap in Hb as (r & Hr & Ho). apply list_elem_of_lookup_1 in Hr as (i & Hi).
  apply lookup_take_Some in Hi as [Hi Hlt]. by exists i, r.
Qed.

Lemma step_begun L r L' o : lifecycle_step L r = Ok L' → begun_id r = Some o →
  ∃ r', lc_previous L = Some r' ∧ initiated_id r' = Some o.
Proof.
  destruct r; try done. unfold lifecycle_step. simpl. intros H [= ->]. apply bind_Ok in H as (L1 & H & _).
  unfold begin_boundary in H. simpl in H. inv_ok. unfold initiated_id.
  destruct (lc_previous L) as [r'|]; [|done]. exists r'. split; [done|]. simpl in *.
  destruct (initiation_of r') as [[o' i']|]; [|done]. inv_ok. simpl. f_equal.
  by match goal with H : negb (bool_decide (o' = o)) = false |- _ => apply negb_false_iff, bool_decide_eq_true in H end.
Qed.

Lemma step_after_begun L r L' o : lifecycle_step L r = Ok L' → fact_id r = Some o ∨ terminal_id r = Some o →
  dmem o (lc_begun L) = true.
Proof.
  unfold lifecycle_step. intros H Ho. cbv zeta in H. apply bind_Ok in H as (L1 & H & _).
  assert (lc_begun (if is_begin_tail r then L else with_active_begin L None) = lc_begun L) as <- by by destruct (is_begin_tail r).
  assert (Hfz : ∀ s t v d, freeze s t o v = Ok d → dmem o (lc_begun s) = true).
  { unfold freeze. intros s t v d Hf. inv_ok. apply dmem_true, dget_is_Some. unfold dget_default in *.
    destruct (dget o (lc_begun s)); [eauto|done]. }
  destruct r; destruct Ho as [Ho|Ho]; try done; injection Ho as ->; simpl in *; [apply bind_Ok in H as (fz & H & _); by eapply Hfz..| |];
    unfold terminal_boundary in H; inv_ok; by apply negb_false_iff.
Qed.

(** C7: in a reachable history each occurrence is initiated, begun and ended
    at most once and has at most one terminal activity fact; and they stand in
    that order: a begin stands right behind the record that initiated its
    occurrence, an activity fact and an end stand behind its begin. *)
Theorem boundaries_exactly_once s :
  reachable s →
  let h := history s in
  NoDup (omap initiated_id h) ∧ NoDup (omap begun_id h) ∧ NoDup (omap terminal_id h) ∧ NoDup (omap fact_id h) ∧
  (∀ j r o, h !! j = Some r → begun_id r = Some o →
     ∃ i r', j = S i ∧ h !! i = Some r' ∧ initiated_id r' = Some o) ∧
  (∀ j r o, h !! j = Some r → fact_id r = Some o ∨ terminal_id r = Some o →
     ∃ i r', (i < j)%nat ∧ h !! i = Some r' ∧ begun_id r' = Some o).
Proof.
  intros Hr h. destruct (reachable_sound _ Hr) as [_ Hco]. destruct (co_lifecycle _ _ Hco) as (L & G & HL & _).
  destruct (sorted_lifecycle_once _ _ HL). do 4 (split; [done|]).
  split; intros j r o Hj Ho; destruct (lifecycle_reaches _ _ _ _ HL Hj) as (L0 & L1 & H0 & H1).
  - destruct (step_begun _ _ _ _ H1 Ho) as (r' & Hp & Hi). rewrite (lifecycle_previous _ _ H0) in Hp.
    rewrite last_lookup in Hp. apply lookup_take_Some in Hp as [Hp Hlt]. pose proof (lookup_lt_Some _ _ _ Hj).
    subst h. rewrite length_take_le in Hp, Hlt by lia. exists (pred j), r'. split; [lia|done].
  - eapply begun_before; [exact H0|]. by eapply step_after_begun.
Qed.

Lemma boundaries_exactly_once_witness :
  reachable demo_late ∧ NoDup (omap initiated_id (history demo_late)) ∧
  ∃ i r', (∃ j r, j = S i ∧ history demo_late !! j = Some r ∧ begun_id r = Some 1%Z) ∧
    history demo_late !! i = Some r' ∧ initiated_id r' = Some 1%Z.
Proof.
  split; [exact demo_late_reachable|]. destruct (boundaries_exactly_once demo_late demo_late_reachable) as (H & _ & _ & _ & Hb & _).
  split; [exact H|].
  destruct (list_find (λ r, begun_id r = Some 1%Z) (history demo_late)) as [[j r]|] eqn:E; [|vm_compute in E; discriminate E].
  apply list_find_Some in E as (Hj & Ho & _). destruct (Hb j r 1%Z Hj Ho) as (i & r' & Hi & Hr).
  exists i, r'. split; [exists j, r; split; [exact Hi|split; [exact Hj|exact Ho]]|exact Hr].
Defined.
