(* ===== verification/FiringTheorems.v ===== *)
(** * What the firing operations do

    Begin, completion, failure, scope closure and activity reports, each on its
    success branch: the tokens they move, the tables they change and what they
    leave alone. *)

From stdpp Require Import base gmap sets list strings pretty sorting.
From Stdlib Require Import Ascii ZArith Lia.
From S2P Require Import Prelude PyData Schema Marking Enabledness Firing RoutingTheorems Activity Records Replay Lifecycle Instance Construction Commit Invariant Operations Coherence LifecycleCoherence Soundness Reachability Scenario.
Open Scope string_scope.
Open Scope list_scope.

(** Run a successful computation past its checks. *)
Ltac mpass H :=
  repeat (mstep H; try match type of H with
    | match ?r with Ok _ => _ | Err _ => _ end = _ =>
        let E := fresh "Hchk" in destruct r as [?|?] eqn:E; [|discriminate H]
    end).

(** ** Begin *)

Lemma begin_Ok b at_ s occ s' :
  begin b at_ s = (Ok occ, s') →
  ∃ inv batch movements qs,
    is_source (net (config s)) (b_transition b) = false ∧
    validate_binding_shape (net (config s)) b = Ok tt ∧
    begun_by (live s) b (effective (live s) at_) (λ o i, CandidateSelected (b_transition b) o i) inv None
      batch occ movements qs ∧
    history s' = history s ++ batch ∧
    live s' = begun_live occ qs (effective (live s) at_) (live s).
Proof.
  unfold begin. intros H. mpass H. unfold id in *. unfold try_with in H.
  destruct (begin_occurrence _ _ _ _ _ s) as [r1 s1] eqn:Hb.
  apply begin_occurrence_spec in Hb as [[_ Hr]|(occ' & batch & qs & -> & _ & Hh & Hbb & Hmv & Hl)].
  - destruct r1 as [|e]; [done|]. by destruct e.
  - injection H as <- <-. destruct (begin_batch_spec _ _ _ _ _ _ _ _ Hbb) as (movements & qs' & Hbb').
    assert (qs' = qs) as -> by (pose proof (bb_moved _ _ _ _ _ _ _ _ _ _ Hbb'); congruence).
    exists a3, batch, movements, qs. destruct a2. apply raise_if_Ok in Hchk0. done.
Qed.

(** C24: beginning a firing takes exactly the consumed selections out of
    their places (counted with Python equality of tokens) and leaves every other
    token, and every token it only reads, where it was; the occurrence enters
    the in-flight table under the next identity, at the end. *)
Theorem begin_consumes_exactly_its_selections b at_ s occ s' :
  reachable s → begin b at_ s = (Ok occ, s') →
  (∀ p, norms (tokens_at (live s) p) ≡ₚ norms (selected_at p (b_consumed b)) ++ norms (tokens_at (live s') p)) ∧
  occ_id occ = next_occurrence (live s) ∧ next_occurrence (live s') = (next_occurrence (live s) + 1)%Z ∧
  in_flight (live s') = in_flight (live s) ++ [(occ_id occ, occ)] ∧ occ_binding occ = b.
Proof.
  intros Hr Hb. destruct (reachable_sound _ Hr) as [Hok _].
  apply begin_Ok in Hb as (inv & batch & movements & qs & _ & _ & Hbb & _ & Hl). rewrite Hl.
  split; [intros p; by eapply begun_tokens|]. split; [by apply Hbb|].
  split; [unfold begun_live; by destruct (occ_invocation occ)|]. split; [|by apply Hbb].
  assert (in_flight (begun_live occ qs (effective (live s) at_) (live s)) = dset (occ_id occ) occ (in_flight (live s))) as ->
    by (unfold begun_live; by destruct (occ_invocation occ)).
  apply dset_fresh. rewrite (bb_id _ _ _ _ _ _ _ _ _ _ Hbb).
  destruct (dget _ (in_flight (live s))) eqn:E; [|done]. apply (ok_in_flight _ _ Hok) in E. lia.
Qed.

Definition work_binding : Binding := MkBinding work [(inbox, [black])] [] [].

Lemma begin_consumes_exactly_its_selections_witness :
  ∃ occ s', begin work_binding None demo_start = (Ok occ, s') ∧ occ_id occ = next_occurrence (live demo_start).
Proof.
  destruct (begin work_binding None demo_start) as [[occ|e] s'] eqn:E.
  - exists occ, s'. split; [reflexivity|].
    exact (proj1 (proj2 (begin_consumes_exactly_its_selections work_binding None demo_start occ s' demo_start_reachable E))).
  - exfalso. assert (is_ok (begin work_binding None demo_start).1 = true) as H by (vm_compute; reflexivity).
    rewrite E in H. discriminate H.
Defined.

(** ** Completion *)

Lemma live_marking_keys c l : live_ok c l → NoDup (dkeys (live_marking l)).
Proof.
  intros Hok. unfold live_marking, marking_of, Marking_new. apply NoDup_dkeys_filter. unfold dkeys.
  rewrite <-list_fmap_compose. exact (qok_keys _ _ (ok_queues _ _ Hok)).
Qed.

Lemma complete_Ok occ supplied at_ s out s' :
  instance_ok s → complete occ supplied at_ s = (Ok out, s') →
  ∃ env effects m' retired armed',
    ensure_in_flight (live s) occ = Ok tt ∧
    projected_result (config s) (live s) occ supplied = Ok env ∧
    complete_firing (net (config s)) (live_marking (live s)) (b_transition (occ_binding occ)) (hr_tokens env) = Ok (effects, m') ∧
    armed_after (net (config s)) (armed (live s)) env = Ok armed' ∧
    is_retired (live s) occ retired ∧
    live s' = completed_live (occ_id occ) retired (occ_scope occ) (mint_entries (next_entry (live s)) effects)
                (minted_cursor (next_entry (live s)) effects) armed' (effective (live s) at_) (live s).
Proof.
  unfold complete, try_with, commit_completion. intros Hok H. rewrite bind_cfg, bind_self, bind_lift in H.
  unfold id in H. cbv zeta in H.
  destruct (completion_batch _ _ _ _ _) as [[[[armed' minted] cursor] batch]|e] eqn:Hb; [|by destruct e].
  cbv beta iota in H.
  match type of H with match ?m s with _ => _ end = _ => destruct (m s) as [r1 s1'] eqn:E end.
  apply bind_try_extend in E as [(e & -> & Hs)|(s1 & (Hc & Hl & Hh) & E)]; [by unfold unwrap_refusal in H|].
  apply completion_batch_spec in Hb as (env & effects & m' & He & Hp & Ha & Hcf & -> & -> & _ & _).
  destruct (projected_retired _ _ _ _ _ Hp) as [retired Hret].
  destruct (ensure_in_flight_spec _ _ He) as (live_occ & Hin & _).
  repeat mstep E. rewrite Hl in E.
  apply bind_inv in E as [([] & s2 & Hloop & E)|(e & Hloop & ->)];
    (erewrite deposit_each in Hloop; [|exact (deposit_loop _ _ _ _ _ _ (ok_queues _ _ Hok) (ok_next_entry _ _ Hok))]); [|done].
  injection Hloop as <-. rewrite bind_update in E. simpl in E.
  rewrite <-bind_assoc in E.
  apply bind_inv in E as [([] & s2 & Hend & E)|(e & Hend & ->)];
    (rewrite (end_spec occ retired) in Hend; [|exact Hret|simpl; eauto]); [|done].
  injection Hend as <-. injection E as <- <-. injection H as <- <-.
  exists env, effects, m', retired, armed'. done.
Qed.

(** C25: completing a firing appends, at the tail of each place, exactly
    the tokens the handler's result emits there that some output arc of the
    transition admits, in order; the occurrence leaves the in-flight table and
    no other occurrence does. *)
Theorem complete_deposits_routed_tokens occ supplied at_ s out s' :
  reachable s → complete occ supplied at_ s = (Ok out, s') →
  ∃ env, projected_result (config s) (live s) occ supplied = Ok env ∧
    (∀ p, tokens_at (live s') p = tokens_at (live s) p ++
       filter (λ tok, routed_to (outputs (net (config s)) (b_transition (occ_binding occ))) p tok)
         (emitted_at p (hr_tokens env))) ∧
    in_flight (live s') = ddel (occ_id occ) (in_flight (live s)) ∧
    is_Some (dget (occ_id occ) (in_flight (live s))) ∧
    frozen_results (live s') = ddel (occ_id occ) (frozen_results (live s)).
Proof.
  intros Hr Hc. destruct (reachable_sound _ Hr) as [Hok _].
  apply complete_Ok in Hc as (env & effects & m' & retired & armed' & He & Hp & Hcf & _ & Hret & Hl); [|done].
  exists env. rewrite Hl. split; [done|]. split.
  { intros p. rewrite (completed_tokens (config s)) by done.
    by destruct (proj2 (complete_firing_spec _ _ _ _ _ _ (live_marking_keys _ _ Hok) Hcf) p) as [-> _]. }
  destruct (ensured _ _ Hok _ He) as (live_occ & Hin & Heq & _).
  pose proof (retired_spec _ _ Hok _ _ _ Hin Heq Hret) as Hr'.
  split; [unfold completed_live, ended_live; by destruct retired|]. split; [eauto|].
  unfold completed_live, ended_live. destruct retired; simpl; [done|]. by rewrite ddel_absent.
Qed.

Definition reported : Instance := performs [RecordCompletion demo_occurrence (DInt 1) (Some 12%Z)] demo_mid.

Lemma reported_reachable : reachable reported.
Proof. apply performs_reachable; [exact demo_mid_reachable|by repeat constructor]. Qed.

Lemma complete_deposits_routed_tokens_witness :
  ∃ out s', complete demo_occurrence None None reported = (Ok out, s') ∧
            in_flight (live s') = ddel (occ_id demo_occurrence) (in_flight (live reported)).
Proof.
  destruct (complete demo_occurrence None None reported) as [[out|e] s'] eqn:E.
  - exists out, s'. split; [reflexivity|].
    destruct (complete_deposits_routed_tokens demo_occurrence None None reported out s' reported_reachable E)
      as (effects & _ & _ & H & _). exact H.
  - exfalso. assert (is_ok (complete demo_occurrence None None reported).1 = true) as H by (vm_compute; reflexivity).
    rewrite E in H. discriminate H.
Defined.

(** ** Scope closure *)

Lemma close_scope_Ok sc at_ s cl s' :
  instance_ok s → close_scope sc at_ s = (Ok cl, s') →
  scope_closure (live s) sc = Ok cl ∧
  live s' = closed_live sc None (cl_cancelled cl) (effective (live s) at_) (live s).
Proof.
  unfold close_scope. intros Hok H. mpass H. unfold id in *. rename a into cl0.
  apply written_of in Hchk0 as [-> Hw].
  apply bind_extend in H as [(e & ? & Hs)|(s1 & (Hc & Hl & Hh) & H)]; [done|].
  apply bind_inv in H as [([] & s2 & Hterm & H)|(e & Hterm & ?)]; [|done].
  rewrite (apply_scope_terminal_ok s1 sc cl0) in Hterm;
    [|unfold instance_ok; by rewrite Hc, Hl|by rewrite Hl|done].
  injection Hterm as <-. rewrite Hl in H. repeat mstep H. simpl in H. injection H as <- <-. done.
Qed.

(** C26: closing a scope generation removes every queued token and every
    in-flight occurrence of that generation, cancels exactly those occurrences,
    deactivates the scope, and keeps all other tokens, occurrences and frozen
    facts in place. *)
Theorem close_scope_is_exact sc at_ s cl s' :
  reachable s → close_scope sc at_ s = (Ok cl, s') →
  (∀ e, e ∈ queue_entries (queues (live s')) ↔ e ∈ queue_entries (queues (live s)) ∧ e_scope e ≠ Some sc) ∧
  (∀ o occ, dget o (in_flight (live s')) = Some occ ↔ dget o (in_flight (live s)) = Some occ ∧ occ_scope occ ≠ Some sc) ∧
  (∀ o occ, dget o (cancelled (live s')) = Some occ ↔
      dget o (cancelled (live s)) = Some occ ∨ (dget o (in_flight (live s)) = Some occ ∧ occ_scope occ = Some sc)) ∧
  frozen_results (live s') = frozen_results (live s) ∧
  scope_active (scope_state (live s')) sc = false.
Proof.
  intros Hr Hc. destruct (reachable_sound _ Hr) as [Hok _].
  apply close_scope_Ok in Hc as [Hcl Hl]; [|done]. rewrite (closed_live_eq _ _ Hok) in Hl by done. rewrite Hl. clear Hl.
  assert (∀ occ, in_scope sc occ ↔ occ_scope occ = Some sc) as Hin.
  { intros occ. unfold in_scope. apply bool_decide_spec. }
  simpl. split; [|split; [|split; [|split]]].
  - intros e. rewrite queue_entries_purge, list_elem_of_filter. unfold out_of_scope. tauto.
  - intros o occ. unfold unscoped. rewrite dget_filter by apply Hok. destruct (dget o (in_flight (live s))) as [occ'|].
    + simpl. case_decide as Hd; rewrite Hin in Hd; split; [intros [= ->]; done|by intros [[= ->] _]|done|].
      intros [[= ->] ?]. tauto.
    + split; [done|by intros [? _]].
  - intros o occ. rewrite dget_app. unfold scoped. rewrite dget_filter by apply Hok.
    destruct (dget o (cancelled (live s))) as [occ'|] eqn:E.
    + apply (ok_cancelled _ _ Hok) in E as (_ & _ & ->). split; [by left|by intros [?|[? _]]].
    + destruct (dget o (in_flight (live s))) as [occ'|].
      * simpl. case_decide as Hd; rewrite Hin in Hd.
        -- split; [intros [= ->]; by right|]. by intros [?|[[= ->] _]].
        -- split; [done|]. intros [?|[[= ->] ?]]; [done|tauto].
      * split; [done|]. by intros [?|[? _]].
  - done.
  - unfold scope_active. simpl. rewrite dget_ddel, decide_True by (done || apply Hok). by apply bool_decide_eq_false.
Qed.

Lemma close_scope_is_exact_witness :
  ∃ cl s', close_scope tenant None demo_mid = (Ok cl, s') ∧ scope_active (scope_state (live s')) tenant = false.
Proof.
  destruct (close_scope tenant None demo_mid) as [[cl|e] s'] eqn:E.
  - exists cl, s'. split; [reflexivity|].
    exact (proj2 (proj2 (proj2 (proj2 (close_scope_is_exact tenant None demo_mid cl s' demo_mid_reachable E))))).
  - exfalso. assert (is_ok (close_scope tenant None demo_mid).1 = true) as H by (vm_compute; reflexivity).
    rewrite E in H. discriminate H.
Defined.
