(* ===== verification/DeliveryTheorems.v ===== *)
(** * Reports and deliveries are idempotent

    The kernel's answers to the redeliveries an at-least-once worker or event
    source produces: the same fact again changes nothing, a different fact under
    the same identity is refused, and a fact that comes after its scope closed
    touches no token and no occurrence. *)

From stdpp Require Import base gmap sets list strings pretty sorting.
From Stdlib Require Import Ascii ZArith Lia.
From S2P Require Import Prelude PyData Schema Marking Enabledness Firing Activity Records Replay Lifecycle Instance Construction Commit Invariant Operations Coherence LifecycleCoherence Registrations Soundness Reachability Scenario FiringTheorems.
Open Scope string_scope.
Open Scope list_scope.

(** ** Activity reports *)

Lemma record_completion_accepted occ v at_ s s' :
  instance_ok s → record_activity_completion occ v at_ s = (Ok ACCEPTED, s') →
  ∃ cv, canonical_payload v = Ok cv ∧
    dmem (occ_id occ) (cancelled (live s)) = false ∧ dget (occ_id occ) (terminal_activity (live s)) = None ∧
    ensure_in_flight (live s) occ = Ok tt ∧ bool_decide (occ_invocation occ = None) = false ∧
    live s' = set_frozen_results (dset (occ_id occ) (TResult cv) (frozen_results (live s)))
                (set_watermark (effective (live s) at_) (live s)).
Proof.
  unfold record_activity_completion. intros Hok H. rewrite bind_self in H. unfold id in H. cbv zeta in H.
  destruct (dmem (occ_id occ) (cancelled (live s))) eqn:Hcan.
  { exfalso. mpass H. unfold quarantine_terminal in H. mstep H. unfold id in H. cbv zeta in H.
    destruct (dget (occ_id occ) (cancelled (live s))); [|done]. destruct (occ_invocation occ); [|done].
    destruct (occ_scope occ); [|done]. mpass H. destruct (dget _ (quarantined_activity (live s))).
    - by destruct (same_text _ _).
    - mpass H. apply bind_extend in H as [(e & ? & _)|(s1 & _ & H)]; [done|]. by repeat mstep H. }
  destruct (dget (occ_id occ) (terminal_activity (live s))) as [t|] eqn:Hterm.
  { exfalso. mpass H. unfold acknowledge_result in H. destruct t; [|done]. by destruct (same_text _ _). }
  mpass H. destruct (dget (occ_id occ) (frozen_results (live s))) as [t|] eqn:Hfz.
  { exfalso. unfold acknowledge_result in H. destruct t; [|done]. by destruct (same_text _ _). }
  mpass H. apply written_of in Hchk2 as [-> _].
  apply bind_extend in H as [(e & ? & _)|(s1 & (Hc & Hl & Hh) & H)]; [done|].
  repeat mstep H. injection H as <-. exists a1. apply raise_if_Ok in Hchk0. destruct a. simpl. rewrite Hl. done.
Qed.

(** Once a completion report is accepted, every later report of the
    same result is acknowledged and of a different one refused, and neither
    changes anything. *)
Theorem completion_report_idempotent occ v at_ s s' v' cv' at_' cv :
  reachable s → record_activity_completion occ v at_ s = (Ok ACCEPTED, s') →
  canonical_payload v = Ok cv → canonical_payload v' = Ok cv' →
  dget (occ_id occ) (frozen_results (live s')) = Some (TResult cv) ∧
  queues (live s') = queues (live s) ∧ in_flight (live s') = in_flight (live s) ∧
  record_activity_completion occ v' at_' s'
  = (if same_text cv cv' then Ok ACKNOWLEDGED
     else Err (ValueError "a different result: an operational conflict, not a redelivery"), s').
Proof.
  intros Hr H Hcv Hcv'. destruct (reachable_sound _ Hr) as [Hok _].
  apply record_completion_accepted in H as (cv0 & Hc0 & Hcan & Hterm & Hens & Hinv & Hl); [|done].
  rewrite Hcv in Hc0. injection Hc0 as <-. rewrite Hl. simpl. split; [apply dget_dset_eq|]. split; [done|]. split; [done|].
  unfold record_activity_completion. rewrite bind_self. unfold id. cbv zeta. rewrite Hl. simpl.
  rewrite Hcan, Hterm. rewrite !bind_lift.
  assert (ensure_in_flight (set_frozen_results (dset (occ_id occ) (TResult cv) (frozen_results (live s)))
            (set_watermark (effective (live s) at_) (live s))) occ = Ok tt) as -> by exact Hens.
  rewrite Hinv, Hcv'. simpl. rewrite dget_dset_eq. unfold acknowledge_result. by destruct (same_text cv cv').
Qed.

Lemma completion_report_idempotent_witness :
  ∃ s', record_activity_completion demo_occurrence (DInt 1) (Some 12%Z) demo_mid = (Ok ACCEPTED, s') ∧
        record_activity_completion demo_occurrence (DInt 1) None s' = (Ok ACKNOWLEDGED, s').
Proof.
  destruct (record_activity_completion demo_occurrence (DInt 1) (Some 12%Z) demo_mid) as [r s'] eqn:E.
  assert (r = Ok ACCEPTED) as Hr.
  { change r with (r, s').1. rewrite <-E. vm_compute. reflexivity. }
  subst r. exists s'. split; [reflexivity|].
  destruct (completion_report_idempotent demo_occurrence (DInt 1) (Some 12%Z) demo_mid s' (DInt 1) (DInt 1) None (DInt 1)
              demo_mid_reachable E eq_refl eq_refl) as (_ & _ & _ & H).
  rewrite H. vm_compute. reflexivity.
Defined.

(** What a report may change when its occurrence was cancelled with its scope. *)
Definition quarantine_only (l l' : Live) : Prop :=
  queues l' = queues l ∧ in_flight l' = in_flight l ∧ frozen_results l' = frozen_results l ∧
  terminal_activity l' = terminal_activity l ∧ cancelled l' = cancelled l ∧ scope_state l' = scope_state l ∧
  armed l' = armed l ∧ next_occurrence l' = next_occurrence l ∧ next_entry l' = next_entry l.

Lemma quarantine_terminal_only occ outcome at_ s r s' :
  quarantine_terminal occ outcome at_ s = (r, s') → quarantine_only (live s) (live s') ∧ r ≠ Ok ACCEPTED.
Proof.
  assert (∀ s', same s s' → quarantine_only (live s) (live s')) as Hsame by (intros s0 (_ & -> & _); done).
  unfold quarantine_terminal. intros H. rewrite bind_self in H. unfold id in H. cbv zeta in H.
  destruct (dget (occ_id occ) (cancelled (live s))) as [rec|]; [|injection H as <- <-; done].
  destruct (occ_invocation occ); [|injection H as <- <-; done].
  destruct (occ_scope occ); [|injection H as <- <-; done].
  rewrite bind_lift in H. destruct (raise_if _ _); [|injection H as <- <-; done].
  destruct (dget _ (quarantined_activity (live s))).
  { destruct (same_text _ _); injection H as <- <-; done. }
  rewrite bind_lift in H. destruct (writer_records _); [|injection H as <- <-; done].
  apply bind_extend in H as [(e & -> & Hs)|(s1 & (Hc & Hl & Hh) & H)]; [split; [by apply Hsame|done]|].
  repeat mstep H. injection H as <- <-. simpl. rewrite Hl. done.
Qed.

(** A completion or failure report for an occurrence cancelled with its
    scope is never accepted: it touches no token, no occurrence, no frozen fact,
    no registration, and can only add a quarantined outcome. *)
Theorem late_report_is_quarantined occ v f at_ s r s' :
  dmem (occ_id occ) (cancelled (live s)) = true →
  record_activity_completion occ v at_ s = (r, s') ∨ record_activity_failure occ f at_ s = (r, s') →
  quarantine_only (live s) (live s') ∧ r ≠ Ok ACCEPTED.
Proof.
  intros Hc [H|H].
  - unfold record_activity_completion in H. rewrite bind_self in H. unfold id in H. cbv zeta in H. rewrite Hc in H.
    rewrite bind_lift in H. destruct (canonical_payload v); [by eapply quarantine_terminal_only|].
    injection H as <- <-. done.
  - unfold record_activity_failure in H. rewrite bind_self in H. unfold id in H. cbv zeta in H. rewrite Hc in H.
    by eapply quarantine_terminal_only.
Qed.

(** The activity occurrence under a scope, cancelled by its closure. *)
Definition scoped_ops : list Op :=
  [OpenScope "tenant" None;
   AcceptDelivery (AStr "feed") [black] None "delivery-1" (Some (inl tenant));
   CompleteDelivery (MkAccepted "demo-1" feed "delivery-1" 1%Z) None;
   Step None; Begin call_binding None; Step None; Begin call_binding None].

Definition scoped_mid : Instance := performs scoped_ops demo_start.
Definition scoped_occurrence : FiringOccurrence :=
  default demo_occurrence (find (λ o, in_scope tenant o) (dvals (in_flight (live scoped_mid)))).
Definition scoped_late : Instance := performs [CloseScope tenant None] scoped_mid.

Lemma late_report_is_quarantined_witness :
  ∃ s', record_activity_completion scoped_occurrence (DInt 1) None scoped_late = (Ok T_QUARANTINED, s') ∧
        queues (live s') = queues (live scoped_late).
Proof.
  destruct (record_activity_completion scoped_occurrence (DInt 1) None scoped_late) as [r s'] eqn:E.
  assert (r = Ok T_QUARANTINED) as Hr.
  { change r with (r, s').1. rewrite <-E. vm_compute. reflexivity. }
  subst r. exists s'. split; [reflexivity|].
  destruct (late_report_is_quarantined scoped_occurrence (DInt 1) (MkFailure "" "" DNone false None) None scoped_late
              (Ok T_QUARANTINED) s') as [[H _] _].
  - vm_compute. reflexivity.
  - left. exact E.
  - exact H.
Defined.

(** ** Deliveries *)

(** An acceptance under a new identity, as the redelivery rule will read it. *)
Lemma accept_new_Ok path delivered at_ identity target s ans s' :
  instance_ok s → str_empty identity = false → dget identity (accepted_identities (live s)) = None →
  accept_new path delivered at_ identity target s = (Ok ans, s') →
  ∃ prior, dget identity (accepted_identities (live s')) = Some prior ∧ config s' = config s ∧
    redelivery_answer (config s) (live s') prior path delivered identity target = Ok ans.
Proof.
  intros Hok Hid Hnew H. unfold accept_new in H. rewrite bind_cfg, bind_self in H. unfold id in H.
  rewrite bind_lift in H. destruct (raise_if _ _) as [[]|] eqn:C1; [|done]. rewrite bind_lift in H.
  destruct (raise_if (negb (is_source _ _)) _) as [[]|] eqn:C2; [|done].
  assert (∀ scope, (inl <$> scope : DeliveryTarget) = target →
    accept_begin (config s) (live s) path delivered at_ identity scope s = (Ok ans, s') →
    ∃ prior, dget identity (accepted_identities (live s')) = Some prior ∧ config s' = config s ∧
      redelivery_answer (config s) (live s') prior path delivered identity target = Ok ans) as Hbegin.
  { intros scope Htgt Hb. unfold accept_begin in Hb. mpass Hb.
    apply bind_inv in Hb as [(occ & s1 & Ho & Hb)|(e & _ & ?)]; [|done].
    apply begin_occurrence_spec in Ho as [[_ ?]|(occ' & batch & qs & [= <-] & Hc & _ & Hbb & _ & Hl)]; [done|].
    mpass Hb. injection Hb as <- <-. eexists. split; [simpl; apply dget_dset_eq|]. split; [done|].
    unfold redelivery_answer. simpl.
    rewrite !bool_decide_true by done. simpl.
    assert (dmem (occ_id occ) (in_flight (live s1)) = true) as ->.
    { apply dmem_true, dget_is_Some. rewrite Hl. unfold begun_live. destruct (occ_invocation occ); simpl;
        rewrite dget_dset_eq; eauto. }
    by rewrite Hchk3. }
  destruct target as [tgt|]; [|by apply (Hbegin None)].
  destruct (target_inactive (live s) tgt) eqn:Hin.
  - cbv zeta in H. destruct (scoped_disposition _ _ _ _ _ _) as [rec disp] eqn:Hd. mpass H.
    apply written_of in Hchk as [-> _].
    apply bind_extend in H as [(e & ? & _)|(s1 & (Hc & Hl & Hh) & H)]; [done|].
    repeat mstep H. injection H as <- <-. exists rec. split; [simpl; apply dget_dset_eq|]. split; [done|].
    unfold scoped_disposition in Hd. unfold redelivery_answer. destruct tgt as [sc|nm].
    + destruct (_ <=? _)%Z; injection Hd as <- <-; simpl; by rewrite !bool_decide_true by done.
    + injection Hd as <- <-. simpl. by rewrite !bool_decide_true by done.
  - destruct tgt as [sc|nm]; [|done]. by apply (Hbegin (Some sc)).
Qed.

(** C27: delivering the same tokens to the same source under the same
    identity and target again gives the same answer and changes nothing. *)
Theorem redelivery_is_idempotent source tokens at_ identity target s ans s' at_' :
  reachable s → accept_delivery source tokens at_ identity target s = (Ok ans, s') →
  accept_delivery source tokens at_' identity target s' = (Ok ans, s').
Proof.
  intros Hr H. destruct (reachable_sound _ Hr) as [Hok _]. unfold accept_delivery in *.
  rewrite bind_lift in *. destruct (canonical_net_path source) as [path|]; [|done].
  rewrite bind_lift in *. destruct (raise_if _ _) as [[]|]; [|done].
  rewrite bind_lift in *. destruct (raise_if (bool_decide (tokens = [])) _) as [[]|]; [|done].
  rewrite bind_lift in *. destruct (canonical_delivery_tokens tokens) as [delivered|]; [|done].
  rewrite bind_lift in *. destruct (raise_if (str_empty identity) _) as [[]|] eqn:Hid; [|done].
  apply raise_if_Ok in Hid. rewrite bind_cfg, bind_self in *. unfold id in *.
  destruct (dget identity (accepted_identities (live s))) as [prior|] eqn:Hacc.
  - assert (s' = s) as -> by (injection H; done). by rewrite Hacc.
  - destruct (accept_new_Ok _ _ _ _ _ _ _ _ Hok Hid Hacc H) as (prior & -> & -> & Hans).
    unfold lift. by rewrite Hans.
Qed.

Lemma redelivery_is_idempotent_witness :
  ∃ ans s', accept_delivery (AStr "feed") [black] None "delivery-9" None demo_start = (Ok ans, s') ∧
            accept_delivery (AStr "feed") [black] (Some 99%Z) "delivery-9" None s' = (Ok ans, s').
Proof.
  destruct (accept_delivery (AStr "feed") [black] None "delivery-9" None demo_start) as [[ans|e] s'] eqn:E.
  - exists ans, s'. split; [reflexivity|].
    exact (redelivery_is_idempotent (AStr "feed") [black] None "delivery-9" None demo_start ans s' (Some 99%Z)
             demo_start_reachable E).
  - exfalso. assert (is_ok (accept_delivery (AStr "feed") [black] None "delivery-9" None demo_start).1 = true) as H
      by (vm_compute; reflexivity). rewrite E in H. discriminate H.
Defined.

(** An identity already accepted is never accepted again: whatever
    is delivered under it, nothing changes, and a different source, content or
    target is refused. *)
Theorem accepted_identity_is_never_reused source tokens at_ identity target s prior path delivered :
  dget identity (accepted_identities (live s)) = Some prior →
  canonical_net_path source = Ok path → canonical_delivery_tokens tokens = Ok delivered →
  (accept_delivery source tokens at_ identity target s).2 = s ∧
  (prior_source prior ≠ Some path ∨ delivery_content_text (prior_tokens prior) ≠ delivery_content_text delivered ∨
   prior_scope prior ≠ target →
   is_ok (accept_delivery source tokens at_ identity target s).1 = false).
Proof.
  intros Hacc Hp Hd. unfold accept_delivery. rewrite bind_lift, Hp, bind_lift.
  destruct (raise_if _ _) as [[]|]; [|done]. rewrite bind_lift.
  destruct (raise_if (bool_decide (tokens = [])) _) as [[]|]; [|done]. rewrite bind_lift, Hd, bind_lift.
  destruct (raise_if (str_empty identity) _) as [[]|]; [|done]. rewrite bind_cfg, bind_self. unfold id. rewrite Hacc.
  split; [done|]. intros Hne. simpl. unfold redelivery_answer.
  assert (negb (bool_decide (prior_source prior = Some path))
          || negb (bool_decide (delivery_content_text (prior_tokens prior) = delivery_content_text delivered))
          || negb (bool_decide (prior_scope prior = target)) = true) as ->; [|done].
  destruct Hne as [H|[H|H]]; rewrite (bool_decide_false _ H); simpl; rewrite ?orb_true_r; done.
Qed.

Lemma accepted_identity_is_never_reused_witness :
  is_ok (accept_delivery (AStr "feed") [black; black] None "delivery-1" None demo_late).1 = false.
Proof.
  destruct (dget "delivery-1" (accepted_identities (live demo_late))) as [prior|] eqn:E.
  - refine (proj2 (accepted_identity_is_never_reused (AStr "feed") [black; black] None "delivery-1" None demo_late prior
             feed [black; black] E eq_refl eq_refl) _).
    right. right. intros H. assert (prior_scope <$> dget "delivery-1" (accepted_identities (live demo_late)) = Some None) as H2.
    { rewrite E. simpl. by rewrite H. }
    vm_compute in H2. discriminate H2.
  - exfalso. vm_compute in E. discriminate E.
Defined.

(** Sealing closes every registration of the source, and from then on a
    new unscoped delivery to it is refused with nothing changed. *)
Theorem sealed_source_refuses_delivery source at_ s s' path :
  reachable s → canonical_net_path source = Ok path → seal source at_ s = (Ok tt, s') →
  dget path (armed (live s')) = Some ∅ ∧
  (∀ q, q ≠ path → dget q (armed (live s')) = dget q (armed (live s))) ∧
  (∀ tokens at_' identity, dget identity (accepted_identities (live s')) = None →
     is_ok (accept_delivery source tokens at_' identity None s').1 = false ∧
     (accept_delivery source tokens at_' identity None s').2 = s').
Proof.
  intros Hr Hp H. unfold seal in H. rewrite bind_lift, Hp in H. mpass H. unfold id in *.
  apply written_of in Hchk3 as [-> _].
  apply bind_extend in H as [(e & ? & _)|(s1 & (Hc & Hl & Hh) & H)]; [done|].
  repeat mstep H. injection H as <-. simpl. rewrite Hl.
  split; [apply dget_dset_eq|]. split; [intros q Hq; by rewrite dget_dset_ne|].
  intros tokens at_' identity Hnew. unfold accept_delivery. rewrite bind_lift, Hp, bind_lift.
  destruct (raise_if _ _) as [[]|]; [|done]. rewrite bind_lift.
  destruct (raise_if (bool_decide (tokens = [])) _) as [[]|]; [|done]. rewrite bind_lift.
  destruct (canonical_delivery_tokens tokens); [|done]. rewrite bind_lift.
  destruct (raise_if (str_empty identity) _) as [[]|]; [|done]. rewrite bind_cfg, bind_self. unfold id. simpl.
  rewrite Hnew. unfold accept_new. rewrite bind_cfg, bind_self. unfold id. rewrite bind_lift.
  destruct (raise_if _ _) as [[]|]; [|done]. rewrite bind_lift. destruct (raise_if _ _) as [[]|]; [|done].
  unfold accept_begin. rewrite bind_lift. simpl armed. rewrite dget_dset_eq. simpl. rewrite bind_lift.
  rewrite (bool_decide_true (∅ = ∅)) by done. simpl. by destruct (raise_if _ _) as [[]|]; [destruct (raise_if _ _) as [[]|]|].
Qed.

Lemma sealed_source_refuses_delivery_witness :
  ∃ s', seal (AStr "feed") None demo_start = (Ok tt, s') ∧ dget feed (armed (live s')) = Some ∅.
Proof.
  destruct (seal (AStr "feed") None demo_start) as [r s'] eqn:E.
  assert (r = Ok tt) as Hr.
  { change r with (r, s').1. rewrite <-E. vm_compute. reflexivity. }
  subst r. exists s'. split; [reflexivity|].
  exact (proj1 (sealed_source_refuses_delivery (AStr "feed") None demo_start s' feed demo_start_reachable eq_refl E)).
Defined.
