(* ===== verification/BehaviourTheorems.v ===== *)
(** * Driving an Instance: time, quiescence, the inline loop and failure

    What [wake], [step], [run], [is_quiescent] and [fail] do to an instance. *)

From stdpp Require Import base gmap sets list strings pretty.
From Stdlib Require Import Ascii ZArith Lia.
From S2P Require Import Prelude PyData Schema Marking Enabledness Firing EnablednessTheorems Activity Records Replay.
From S2P Require Import Lifecycle Instance Construction Commit Invariant Operations Soundness Reachability Scenario FiringTheorems.
Open Scope string_scope.
Open Scope list_scope.

(** ** Time *)

(** Enabledness is computable wherever the next maturation is. *)
Lemma maturation_candidates s i : instance_next_maturation s = Ok i → ∃ bs, instance_candidates s = Ok bs.
Proof.
  unfold instance_next_maturation, instance_candidates, candidates_at, next_maturation, candidates.
  intros H. apply bind_Ok in H as (sv & -> & _). eauto.
Qed.

(** A wake before the next maturation, or with nothing waiting on time,
    changes nothing and no candidate is due by then; at or after it, the wake
    appends the one [TimerMatured] fact, moves only the clock, and enables at
    least one more candidate. *)
Theorem wake_is_exact at_ s r s' :
  wake at_ s = (Ok r, s') →
  let i := effective (live s) (Some at_) in
  ∃ bs, instance_candidates s = Ok bs ∧
  ((r = None ∧ s' = s ∧ candidates_at (config s) (live s) i = Ok bs) ∨
   (∃ m bs', r = Some (TimerMatured m i) ∧ (watermark (live s) < m ≤ i)%Z ∧
      history s' = history s ++ [TimerMatured m i] ∧ live s' = set_watermark i (live s) ∧
      instance_candidates s' = Ok bs' ∧ (length bs < length bs')%nat)).
Proof.
  intros H i. unfold wake in H. apply bind_inv in H as [(pending & s0 & [= Hm <-] & H)|(e & _ & ?)]; [|done].
  destruct (maturation_candidates _ _ Hm) as [bs Hbs]. exists bs. split; [done|].
  rewrite bind_self in H. unfold id in H. fold i in H. pose proof (effective_le (live s) (Some at_)) as Hle. fold i in Hle.
  destruct pending as [m|].
  - destruct (first_maturation _ _ _ _ _ _ _ _ Hbs Hm) as (Hlt & Hbefore & Hafter).
    destruct (Z.ltb_spec i m) as [Hi|Hi].
    + left. cbv [mret M_ret] in H. injection H as <- <-. split; [done|]. split; [done|]. apply Hbefore. lia.
    + right. destruct (Hafter i Hi) as (bs' & Hbs' & Hlen). exists m, bs'.
      rewrite bind_lift in H. destruct (writer_records _) as [batch|] eqn:Hw; [|done].
      apply written_of in Hw as [-> _]. apply bind_extend in H as [(e & ? & _)|(st & (Hc & Hl & Hh) & H)]; [done|].
      rewrite advance_eq, bind_update in H. cbv [mret M_ret] in H. injection H as <- <-. simpl. rewrite Hl. split; [done|]. split; [lia|]. split; [done|].
      split; [done|]. split; [|done]. unfold instance_candidates. simpl. rewrite Hc. exact Hbs'.
  - left. cbv [mret M_ret] in H. injection H as <- <-. split; [done|]. split; [done|]. by apply (no_maturation _ _ _ _ _ _ _ Hbs Hm).
Qed.

(** A timed net waiting on its delay. *)
Definition timed_start : Instance :=
  ok_or dummy (Instance_init no_cel timed_net [(["p"], [black])] demo_impl 0%Z (MkStore [] []) (Some "timed") "fresh").

Lemma wake_is_exact_witness :
  ∃ s', wake 12%Z timed_start = (Ok (Some (TimerMatured 10%Z 12%Z)), s') ∧
        ∃ bs, instance_candidates timed_start = Ok bs.
Proof.
  destruct (wake 12%Z timed_start) as [r s'] eqn:E. exists s'.
  assert (r = Ok (Some (TimerMatured 10%Z 12%Z))) as Hr.
  { change r with (r, s').1. rewrite <-E. vm_compute. reflexivity. }
  subst r. split; [reflexivity|].
  destruct (wake_is_exact 12%Z timed_start _ s' E) as (bs & Hbs & _). exists bs. exact Hbs.
Defined.

(** ** Quiescence *)

Lemma quiescent_spec s :
  is_quiescent s = Ok true →
  instance_candidates s = Ok [] ∧ instance_next_maturation s = Ok None ∧ in_flight (live s) = [].
Proof.
  unfold is_quiescent. intros H. apply bind_Ok in H as (bs & Hbs & H).
  case_bool_decide as Hb; simpl in H; [subst bs|done]. apply bind_Ok in H as (pending & Hp & H).
  injection H as H. apply andb_true_iff in H as [->%bool_decide_eq_true ->%bool_decide_eq_true]. done.
Qed.

(** A quiescent instance does not move by itself. Nothing is in
    flight, no instant makes a candidate appear, a step at any instant fires
    nothing and a wake at any instant records nothing, with the state
    untouched. *)
Theorem quiescent_instance_is_inert s :
  is_quiescent s = Ok true → scheduler (config s) [] = Ok None →
  in_flight (live s) = [] ∧
  (∀ at_, candidates_at (config s) (live s) (effective (live s) at_) = Ok []) ∧
  (∀ at_, step at_ s = (Ok None, s)) ∧ (∀ at_, wake at_ s = (Ok None, s)).
Proof.
  intros (Hc & Hm & Hf)%quiescent_spec Hs. split; [done|].
  assert (∀ at_, candidates_at (config s) (live s) (effective (live s) at_) = Ok []) as Hall.
  { intros at_. apply (no_maturation _ _ _ _ _ _ _ Hc Hm), effective_le. }
  split; [done|]. split; intros at_.
  - unfold step. rewrite bind_cfg, bind_self, bind_lift. unfold id. rewrite Hall, bind_lift, Hs. done.
  - unfold wake. unfold mbind, M_bind. rewrite Hm. done.
Qed.

(** The timed net after its delay matured and its firing ran. *)
Definition timed_idle : Instance := performs [Wake 12%Z; Run 5] timed_start.

Lemma quiescent_instance_is_inert_witness :
  is_quiescent timed_idle = Ok true ∧ step (Some 99%Z) timed_idle = (Ok None, timed_idle).
Proof.
  assert (is_quiescent timed_idle = Ok true) as Hq by (vm_compute; reflexivity). split; [exact Hq|].
  assert (scheduler (config timed_idle) [] = Ok None) as Hs by (vm_compute; reflexivity).
  exact (proj1 (proj2 (proj2 (quiescent_instance_is_inert timed_idle Hq Hs))) (Some 99%Z)).
Defined.

(** ** The inline loop *)

Lemma step_declines at_ s s' : step at_ s = (Ok None, s') → s' = s.
Proof.
  unfold step. rewrite bind_cfg, bind_self, bind_lift. unfold id.
  destruct (candidates_at _ _ _) as [enabled|]; [|done]. rewrite bind_lift.
  destruct (scheduler (config s) enabled) as [[b|]|]; [|by intros [= <-]|done].
  rewrite bind_lift. destruct (bound_handler _ _); [|done]. rewrite bind_lift.
  destruct (raise_if _ _); [|done].
  intros H. apply bind_inv in H as [(occ & s1 & _ & H)|(e & _ & ?)]; [|done].
  apply bind_inv in H as [(out & s2 & _ & H)|(e & _ & ?)]; [|done]. by cbv [mret M_ret] in H.
Qed.

(** C39: when the inline loop returns, it stopped at a state where a further
    step fires nothing; the outcomes are fewer than the steps allowed, and any
    larger allowance gives the same outcomes and the same state. *)
Theorem run_stops_where_nothing_fires fuel s outs s' :
  run fuel s = (Ok (Some outs), s') →
  step None s' = (Ok None, s') ∧ (length outs < fuel)%nat ∧
  ∀ more, run (fuel + more) s = (Ok (Some outs), s').
Proof.
  revert s outs. induction fuel as [|fuel IH]; intros s outs H; [done|]. simpl in H |- *.
  apply bind_inv in H as [([out|] & s1 & Hs & H)|(e & _ & ?)]; [| |done].
  - apply bind_inv in H as [([rest|] & s2 & Hr & H)|(e & _ & ?)]; [|by cbv [mret M_ret] in H|done].
    cbv [mret M_ret] in H. simpl in H. injection H as <- <-. destruct (IH _ _ Hr) as (H1 & H2 & H3).
    split; [done|]. split; [simpl; lia|]. intros more. unfold mbind at 1, M_bind at 1. rewrite Hs.
    unfold mbind, M_bind. by rewrite H3.
  - cbv [mret M_ret] in H. injection H as <- <-. pose proof (step_declines _ _ _ Hs) as ->.
    split; [done|]. split; [simpl; lia|]. intros more. unfold mbind, M_bind. by rewrite Hs.
Qed.

Lemma run_stops_where_nothing_fires_witness :
  ∃ outs s', run 5 (performs [Wake 12%Z] timed_start) = (Ok (Some outs), s') ∧ length outs = 1%nat ∧
             step None s' = (Ok None, s').
Proof.
  destruct (run 5 (performs [Wake 12%Z] timed_start)) as [r s'] eqn:E.
  assert (match r with Ok (Some outs) => length outs = 1%nat | _ => False end) as Hr.
  { change r with (r, s').1. rewrite <-E. vm_compute. reflexivity. }
  destruct r as [[outs|]|e]; [|destruct Hr|destruct Hr]. exists outs, s'. split; [reflexivity|]. split; [exact Hr|].
  exact (proj1 (run_stops_where_nothing_fires 5 (performs [Wake 12%Z] timed_start) outs s' E)).
Defined.

(** ** Failure *)

Lemma failure_of_text_error text f : failure_of_text text = Ok f → f_error f = text.
Proof. unfold failure_of_text, ActivityFailure_new. intros H. inv_ok. done. Qed.

(** Failing a pure occurrence records the one [FiringFailed] fact with
    the given text and takes the occurrence out of flight. Nothing else moves:
    the tokens it consumed stay consumed and no other occurrence, registration
    or scope is touched. *)
Theorem pure_failure_keeps_the_consumption occ text at_ s s' :
  occ_invocation occ = None → fail occ (inl text) at_ s = (Ok tt, s') →
  let i := effective (live s) at_ in
  is_Some (dget (occ_id occ) (in_flight (live s))) ∧
  history s' = history s ++ [FiringFailed (b_transition (occ_binding occ)) text (occ_id occ) i] ∧
  live s' = set_in_flight (ddel (occ_id occ) (in_flight (live s))) (set_watermark i (live s)).
Proof.
  intros Hpure H i. unfold fail in H. rewrite bind_cfg, bind_self in H. unfold id in H. cbv zeta in H.
  rewrite Hpure, (bool_decide_eq_false_2 _ is_Some_None) in H. simpl in H.
  rewrite bind_lift in H. destruct (ensure_in_flight (live s) occ) as [[]|] eqn:Hens; [|done].
  destruct (ensure_in_flight_spec _ _ Hens) as (o & Ho & _). split; [by eauto|].
  rewrite bind_lift in H. destruct (failure_of_text text) as [f|] eqn:Hf; [|done].
  apply failure_of_text_error in Hf. rewrite Hf in H.
  rewrite bind_lift in H. match type of H with context [match ?m with Ok _ => _ | Err _ => _ end] => destruct m as [[]|]; [|done] end.
  rewrite bind_ret, bind_lift in H. destruct (bound_handler _ _) as [h|]; [|done].
  rewrite bind_self in H. unfold id in H. cbv zeta in H. rewrite bind_lift in H.
  destruct (writer_records _) as [batch|] eqn:Hw; [|done]. apply written_of in Hw as [-> _].
  apply bind_extend in H as [(e & ? & _)|(s1 & (Hc & Hl & Hh) & H)]; [done|].
  rewrite advance_eq, bind_update, bind_ret, leave_in_flight_spec in H by (simpl; rewrite Hl; eauto).
  injection H as <-. simpl. rewrite Hl. split; [exact Hh|done].
Qed.

(** A pure occurrence begun on the demonstration net. *)
Definition demo_begun : Instance := performs [Begin (MkBinding work [(inbox, [black])] [] []) None] demo_start.

Definition begun_occurrence : FiringOccurrence :=
  default (MkOccurrence 0%Z (MkBinding work [] [] []) [] None None) (dget 1%Z (in_flight (live demo_begun))).

Lemma pure_failure_keeps_the_consumption_witness :
  ∃ s', fail begun_occurrence (inl "boom") (Some 8%Z) demo_begun = (Ok tt, s') ∧
        history s' = history demo_begun ++ [FiringFailed work "boom" 1%Z 8%Z].
Proof.
  destruct (fail begun_occurrence (inl "boom") (Some 8%Z) demo_begun) as [r s'] eqn:E.
  assert (r = Ok tt) as Hr.
  { change r with (r, s').1. rewrite <-E. vm_compute. reflexivity. }
  subst r. exists s'. split; [reflexivity|].
  assert (occ_invocation begun_occurrence = None) as Hp by (vm_compute; reflexivity).
  exact (proj1 (proj2 (pure_failure_keeps_the_consumption begun_occurrence "boom" (Some 8%Z) demo_begun s' Hp E))).
Defined.

(** ** The text of an inline failure *)

Lemma str_len_take n s : (str_len (str_take n s) ≤ n)%nat.
Proof.
  revert n. induction s as [|a s IH]; intros n; [simpl; lia|]. cbn [str_take]. cbv zeta.
  destruct ((128 <=? N.to_nat (Ascii.N_of_ascii a))%nat && (N.to_nat (Ascii.N_of_ascii a) <? 192)%nat) eqn:E.
  - cbn [str_len]. cbv zeta. rewrite E. apply IH.
  - destruct n as [|n]; cbn [str_len]; [lia|]. cbv zeta. rewrite E. specialize (IH n). lia.
Qed.

(** Whatever a handler raises, the text the inline driver records for
    it is accepted as a failure and as the error of the [FiringFailed] record:
    non-empty and within the 4096 characters the record allows. *)
Theorem failure_text_is_recordable e t o i :
  (1 ≤ o)%Z →
  (∃ f, failure_of_text (firing_failure_text e) = Ok f ∧ f_error f = firing_failure_text e) ∧
  Record_post_init (FiringFailed t (firing_failure_text e) o i) = Ok tt.
Proof.
  intros Ho.
  assert (str_empty (firing_failure_text e) = false) as Hne.
  { unfold firing_failure_text. destruct e; reflexivity. }
  assert ((4096 <? str_len (firing_failure_text e))%nat = false) as Hlen.
  { apply Nat.ltb_ge. unfold firing_failure_text. destruct (exn_class e). apply str_len_take. }
  split.
  - unfold failure_of_text, ActivityFailure_new. rewrite Hne, Hlen. simpl. eexists. split; [reflexivity|done].
  - simpl. unfold validate_occurrence_id, bad_error_text. rewrite Hne, Hlen, (proj2 (Z.ltb_ge o 1)) by lia. done.
Qed.

Lemma failure_text_is_recordable_witness :
  Record_post_init (FiringFailed work (firing_failure_text (KeyError "it's")) 3%Z 9%Z) = Ok tt ∧
  firing_failure_text (KeyError "it's") = "KeyError(" +:+ py_repr "it's" +:+ ")".
Proof.
  split; [|vm_compute; reflexivity].
  assert (1 ≤ 3)%Z as H by lia. exact (proj2 (failure_text_is_recordable (KeyError "it's") work 3%Z 9%Z H)).
Defined.
