(* ===== verification/Coordination.v ===== *)
(** * The Coordinator (src/src/petrus/engine/_coordination.py)

    The driving runtime over one Instance and one Dispatch: each turn observes a
    snapshot, a policy chooses one of the offered actions, and the coordinator
    applies it. A computation [CM A] returns or raises and keeps every mutation
    made before the raise. The clock and the dispatch are classes; the coming
    answers of the sensor and of the transaction's commit hook are part of the
    state, as the refusals of a history store are. Each parcel a sensor hands
    over is an object of its own, named here by a serial number. An action a
    policy returns is compared with the offered ones structurally. *)

From stdpp Require Import base gmap sets list strings.
From Stdlib Require Import ZArith Lia.
From S2P Require Import Prelude PyData Schema Marking Enabledness Firing Activity Records Replay Lifecycle Selection Instance Dispatch.
Open Scope string_scope.
Open Scope list_scope.
Open Scope Z_scope.

(** ** Ingress and time *)

Record Delivery := MkDelivery {
  dl_source : NetPath; dl_tokens : list Token; dl_identity : string; dl_scope : DeliveryTarget }.

(** [Delivery.__post_init__] *)
Definition Delivery_new (source : path_arg) (tokens : list Token) (identity : string) (scope : DeliveryTarget)
    : result Delivery :=
  path ← canonical_net_path source;
  raise_if (str_empty identity) (ValueError "delivery identity must be a non-empty string of the exact built-in type");;
  raise_if (match scope with Some (inr name) => bad_scope_name name | _ => false end)
    (ValueError "delivery scope name must be non-empty and contain no NUL");;
  Ok (MkDelivery path tokens identity scope).

(** One answer of a sensor: parcels, [None], or an exception. *)
Notation SensorAnswer := (result (option (list Delivery))) (only parsing).

Class Clock (K : Type) := {
  now : K → Instant * K;
  observe : Instant → K → option Instant * K
}.

(** [SimulatedClock] *)
Record SimulatedClock := MkSimulated { sim_now : Instant }.

Definition SimulatedClock_observe (i : Instant) (k : SimulatedClock) : option Instant * SimulatedClock :=
  let n := Z.max (sim_now k) i in (Some n, MkSimulated n).

#[export] Instance SimulatedClock_clock : Clock SimulatedClock := {
  now k := (sim_now k, k);
  observe := SimulatedClock_observe
}.

(** ** Actions *)

Inductive Action :=
| AcceptResult (occurrence : Z) (outcome : Terminal)
| AcceptDelivery (parcel : nat) (delivery : Delivery)
| BeginCandidate (binding : Binding) (proposal : SelectionProposal)
| AdvanceTime (instant : Instant)
| Wait
| Stop.

#[export] Instance Delivery_eq_dec : EqDecision Delivery.
Proof. solve_decision. Defined.
#[export] Instance SelectionProposal_eq_dec : EqDecision SelectionProposal.
Proof. solve_decision. Defined.
#[export] Instance Action_eq_dec : EqDecision Action.
Proof. solve_decision. Defined.

Record InFlightView := MkView {
  v_occurrence : Z; v_transition : NetPath; v_consumed : list Selection; v_impure : bool }.

Record Snapshot := MkSnapshot {
  sn_actions : list Action; sn_in_flight : list InFlightView; sn_previous : option Action }.

Definition DrivingPolicy := Snapshot → result Action.

Record DriveOutcome := MkDrive {
  do_firings : list FiringOutcome; do_waiting : bool; do_ready : bool; do_next_maturation : option Instant }.

(** ** The shipped policies *)

Definition is_result (a : Action) : bool := match a with AcceptResult _ _ => true | _ => false end.
Definition is_delivery (a : Action) : bool := match a with AcceptDelivery _ _ => true | _ => false end.
Definition is_candidate (a : Action) : bool := match a with BeginCandidate _ _ => true | _ => false end.
Definition is_time (a : Action) : bool := match a with AdvanceTime _ => true | _ => false end.
Definition is_wait (a : Action) : bool := match a with Wait => true | _ => false end.
Definition is_stop (a : Action) : bool := match a with Stop => true | _ => false end.

(** The first offered action of the first kind that has one. *)
Fixpoint first_of (kinds : list (Action → bool)) (actions : list Action) : option Action :=
  match kinds with
  | [] => None
  | kind :: kinds => match find kind actions with Some a => Some a | None => first_of kinds actions end
  end.

Definition after_delivery (s : Snapshot) : bool :=
  match sn_previous s with Some a => is_delivery a | None => false end.

Definition no_action : exn := ValueError "no available action: the coordinator always offers Stop".

(** [choose_conservative] *)
Definition choose_conservative (s : Snapshot) : result Action :=
  match find is_result (sn_actions s) with
  | Some a => Ok a
  | None =>
      let delivery := find is_delivery (sn_actions s) in
      match delivery, after_delivery s with
      | Some d, false => Ok d
      | _, _ =>
          match find is_wait (sn_actions s) with
          | Some w => Ok (default w delivery)
          | None =>
              match first_of [is_candidate; is_time] (sn_actions s), delivery with
              | Some a, _ => Ok a
              | None, Some d => Ok d
              | None, None => or_raise (find is_stop (sn_actions s)) no_action
              end
          end
      end
  end.

(** The tokens of a list of selections, each with its place. *)
Definition selected_tokens (ss : list Selection) : list (NetPath * Token) :=
  s ← ss; (λ t, (s.1, t)) <$> s.2.

Definition placed_eqb (x y : NetPath * Token) : bool := bool_decide (x.1 = y.1) && token_eq x.2 y.2.

(** A candidate whose consumption collides by value with one in flight. *)
Definition collides (spent : list (NetPath * Token)) (a : Action) : bool :=
  match a with
  | BeginCandidate b _ => existsb (λ x, existsb (placed_eqb x) spent) (selected_tokens (b_consumed b))
  | _ => false
  end.

(** [choose_throughput] *)
Definition choose_throughput (s : Snapshot) : result Action :=
  match find is_delivery (sn_actions s), after_delivery s with
  | Some d, false => Ok d
  | _, _ =>
      let spent := selected_tokens (v ← sn_in_flight s; v_consumed v) in
      match find (λ a, is_candidate a && negb (collides spent a)) (sn_actions s) with
      | Some a => Ok a
      | None => or_raise (first_of [is_result; is_time; is_delivery; is_wait; is_stop] (sn_actions s)) no_action
      end
  end.

(** ** State *)

Record Coordinator (D K : Type) := MkCoordinator {
  co_instance : Instance;
  co_dispatch : D;
  co_clock : K;
  co_selection_state : SelectionState;
  co_sensor : option (list SensorAnswer);
  co_commit : option (list (option exn));
  co_arrived : list Arrival;
  co_deliveries : list (nat * Delivery);
  co_serial : nat;
  co_dispatched : dict Z FiringOccurrence;
  co_reconciled : bool;
  co_previous : option Action
}.
Arguments MkCoordinator {D K}.
Arguments co_instance {D K}. Arguments co_dispatch {D K}. Arguments co_clock {D K}.
Arguments co_selection_state {D K}. Arguments co_sensor {D K}. Arguments co_commit {D K}.
Arguments co_arrived {D K}. Arguments co_deliveries {D K}. Arguments co_serial {D K}.
Arguments co_dispatched {D K}. Arguments co_reconciled {D K}. Arguments co_previous {D K}.

Definition CM (D K A : Type) := Coordinator D K → result A * Coordinator D K.

#[export] Instance CM_ret D K : MRet (CM D K) := λ A a c, (Ok a, c).
#[export] Instance CM_bind D K : MBind (CM D K) := λ A B f m c,
  match m c with
  | (Ok a, c') => f a c'
  | (Err e, c') => (Err e, c')
  end.

Section coordinator.
  Context {D K P : Type} `{Dispatch D} `{Clock K} `{SelectionPolicy P}.
  Notation Coord := (Coordinator D K).
  Notation CM' := (CM D K).

Definition with_instance (v : Instance) (c : Coord) : Coord :=
  MkCoordinator v (co_dispatch c) (co_clock c) (co_selection_state c) (co_sensor c) (co_commit c) (co_arrived c) (co_deliveries c) (co_serial c) (co_dispatched c) (co_reconciled c) (co_previous c).
Definition with_dispatch (v : D) (c : Coord) : Coord :=
  MkCoordinator (co_instance c) v (co_clock c) (co_selection_state c) (co_sensor c) (co_commit c) (co_arrived c) (co_deliveries c) (co_serial c) (co_dispatched c) (co_reconciled c) (co_previous c).
Definition with_clock (v : K) (c : Coord) : Coord :=
  MkCoordinator (co_instance c) (co_dispatch c) v (co_selection_state c) (co_sensor c) (co_commit c) (co_arrived c) (co_deliveries c) (co_serial c) (co_dispatched c) (co_reconciled c) (co_previous c).
Definition with_selection_state (v : SelectionState) (c : Coord) : Coord :=
  MkCoordinator (co_instance c) (co_dispatch c) (co_clock c) v (co_sensor c) (co_commit c) (co_arrived c) (co_deliveries c) (co_serial c) (co_dispatched c) (co_reconciled c) (co_previous c).
Definition with_sensor (v : option (list SensorAnswer)) (c : Coord) : Coord :=
  MkCoordinator (co_instance c) (co_dispatch c) (co_clock c) (co_selection_state c) v (co_commit c) (co_arrived c) (co_deliveries c) (co_serial c) (co_dispatched c) (co_reconciled c) (co_previous c).
Definition with_commit (v : option (list (option exn))) (c : Coord) : Coord :=
  MkCoordinator (co_instance c) (co_dispatch c) (co_clock c) (co_selection_state c) (co_sensor c) v (co_arrived c) (co_deliveries c) (co_serial c) (co_dispatched c) (co_reconciled c) (co_previous c).
Definition with_arrived (v : list Arrival) (c : Coord) : Coord :=
  MkCoordinator (co_instance c) (co_dispatch c) (co_clock c) (co_selection_state c) (co_sensor c) (co_commit c) v (co_deliveries c) (co_serial c) (co_dispatched c) (co_reconciled c) (co_previous c).
Definition with_deliveries (v : list (nat * Delivery)) (n : nat) (c : Coord) : Coord :=
  MkCoordinator (co_instance c) (co_dispatch c) (co_clock c) (co_selection_state c) (co_sensor c) (co_commit c) (co_arrived c) v n (co_dispatched c) (co_reconciled c) (co_previous c).
Definition with_dispatched (v : dict Z FiringOccurrence) (c : Coord) : Coord :=
  MkCoordinator (co_instance c) (co_dispatch c) (co_clock c) (co_selection_state c) (co_sensor c) (co_commit c) (co_arrived c) (co_deliveries c) (co_serial c) v (co_reconciled c) (co_previous c).
Definition with_reconciled (c : Coord) : Coord :=
  MkCoordinator (co_instance c) (co_dispatch c) (co_clock c) (co_selection_state c) (co_sensor c) (co_commit c) (co_arrived c) (co_deliveries c) (co_serial c) (co_dispatched c) true (co_previous c).
Definition with_previous (v : option Action) (c : Coord) : Coord :=
  MkCoordinator (co_instance c) (co_dispatch c) (co_clock c) (co_selection_state c) (co_sensor c) (co_commit c) (co_arrived c) (co_deliveries c) (co_serial c) (co_dispatched c) (co_reconciled c) v.

Definition craise {A} (e : exn) : CM' A := λ c, (Err e, c).
Definition clift {A} (r : result A) : CM' A := λ c, (r, c).
Definition cget {A} (f : Coord → A) : CM' A := λ c, (Ok (f c), c).
Definition cset (f : Coord → Coord) : CM' unit := λ c, (Ok tt, f c).
(** An operation of the Instance, of the Dispatch, of the clock. *)
Definition inst {A} (m : M A) : CM' A := λ c, let '(r, s) := m (co_instance c) in (r, with_instance s c).
Definition prov {A} (m : D → result A * D) : CM' A := λ c, let '(r, d) := m (co_dispatch c) in (r, with_dispatch d c).
Definition clock_now : CM' Instant := λ c, let '(i, k) := now (co_clock c) in (Ok i, with_clock k c).
Definition ctry {A} (m : CM' A) (handler : exn → CM' A) : CM' A := λ c,
  match m c with
  | (Ok a, c') => (Ok a, c')
  | (Err e, c') => handler e c'
  end.
Definition cview {A} (f : Instance → A) : CM' A := cget (f ∘ co_instance).

Fixpoint cfor {A B} (l : list A) (f : A → CM' (list B)) : CM' (list B) :=
  match l with
  | [] => mret []
  | a :: l => xs ← f a; ys ← cfor l f; mret (xs ++ ys)
  end.

(** [Coordinator._committed] *)
Definition committed : CM' unit := λ c,
  match co_commit c with
  | Some (Some e :: rest) => (Err e, with_commit (Some rest) c)
  | Some (None :: rest) => (Ok tt, with_commit (Some rest) c)
  | Some [] | None => (Ok tt, c)
  end.

(** ** Driving one occurrence *)

(** [_complete_pure], settling a recorded failure through the commit hook. *)
Definition complete_pure (occurrence : FiringOccurrence) : CM' FiringOutcome :=
  cf ← cview config;
  let t := b_transition (occ_binding occurrence) in
  h ← clift (bound_handler cf t);
  match h with
  | ImpureHandler _ => craise (TypeError "pure firing is bound to an ActivityHandler")
  | PureHandler f =>
      ctry
        (value ← clift (f (occ_binding occurrence) (outputs (net cf) t));
         i ← clock_now;
         inst (commit_completion occurrence (Some value) (Some i)))
        (λ e, match e with
              | CommitRefused e => craise e
              | e =>
                  held ← cview (λ s, existsb (λ o, occurrence_eq o occurrence) (dvals (in_flight (live s))));
                  (if (held : bool) then
                     i ← clock_now;
                     inst (fail occurrence (inl (firing_failure_text e)) (Some i));;
                     committed
                   else mret tt);;
                  craise e
              end)
  end.

(** [Coordinator._cancel] *)
Definition cancel_one (occurrence : FiringOccurrence) (position : Z) : CM' CancellationDisposition :=
  match cancel, occ_invocation occurrence with
  | None, _ => craise (TypeError "cannot cancel lifecycle-scoped Activity: this Dispatch does not implement the recoverable cancellation extension")
  | Some _, None => craise (RuntimeError "AssertionError")
  | Some run, Some invocation =>
      cset (λ c, with_dispatched (dset (occ_id occurrence) occurrence (co_dispatched c)) c);;
      instruction ← clift (CancellationInstruction_new (occ_id occurrence) invocation position);
      prov (run instruction)
  end.

(** [Coordinator.cancel] *)
Definition coordinator_cancel (closure : ScopeClosure) (position : Z) : CM' (list CancellationDisposition) :=
  cancelled ← cview (λ s, cancelled (live s));
  cfor (cl_cancelled closure) (λ o,
    occurrence ← clift (or_raise (dget o cancelled) (KeyError "cancelled"));
    match occ_invocation occurrence with
    | Some _ => d ← cancel_one occurrence position; mret [d]
    | None => mret []
    end).

(** [Coordinator.supports_cancellation] *)
Definition supports_cancellation : bool := bool_decide (is_Some (cancel (D := D))).

(** ** Reconciliation *)

(** [Coordinator._reconcile_cancellations] *)
Definition reconcile_cancellations : CM' unit :=
  positions ← cview (λ s, replay_cancellation_positions (history s)) ≫= clift;
  cancelled ← cview (λ s, dvals (cancelled (live s)));
  cfor cancelled (λ occurrence,
    match occ_invocation occurrence with
    | Some _ =>
        position ← clift (or_raise (dget (occ_id occurrence) positions) (KeyError "positions"));
        d ← cancel_one occurrence position; mret [d]
    | None => mret []
    end);;
  mret tt.

Definition impure (o : FiringOccurrence) : bool := bool_decide (is_Some (occ_invocation o)).

Definition halted (failure : ActivityFailure) : exn :=
  RuntimeError ("activity for firing occurrence failed terminally: " +:+ f_error failure).

(** The handing over of an invocation to the Dispatch. *)
Definition hand_over (occurrence : FiringOccurrence) : CM' unit :=
  match occ_invocation occurrence with
  | Some invocation =>
      cset (λ c, with_dispatched (dset (occ_id occurrence) occurrence (co_dispatched c)) c);;
      prov (dispatch (occ_id occurrence) invocation)
  | None => mret tt
  end.

(** One projection-pending occurrence of [_reconcile]. *)
Definition reconcile_pending (occurrence : FiringOccurrence) : CM' (list FiringOutcome) :=
  frozen ← cview (λ s, dget (occ_id occurrence) (frozen_results (live s)));
  frozen ← clift (or_raise frozen (KeyError "pending_activity_outcomes"));
  (match frozen with
   | TFailure f =>
       cf ← cview config;
       h ← clift (bound_handler cf (b_transition (occ_binding occurrence)));
       if negb (projects_failure h) then
         i ← clock_now;
         inst (fail occurrence (inr f) (Some i));;
         committed;;
         craise (halted f)
       else mret tt
   | TResult _ => mret tt
   end);;
  i ← clock_now;
  outcome ← inst (complete occurrence None (Some i));
  mret [outcome].

(** [Coordinator._reconcile] *)
Definition reconcile : CM' (list FiringOutcome) :=
  reconcile_cancellations;;
  l ← cview live;
  let held := dvals (in_flight l) in
  let pending := occ_id <$> projection_pending l in
  cfor held (λ o,
    (if impure o && negb (bool_decide (occ_id o ∈ pending)) then hand_over o else mret tt);; mret (@nil unit));;
  projected ← cfor held (λ o,
    if impure o && bool_decide (occ_id o ∈ pending) then reconcile_pending o else mret []);
  completed ← cfor held (λ o, if impure o then mret [] else f ← complete_pure o; mret [f]);
  mret (projected ++ completed).

(** ** Observation *)

(** One arrived outcome: offered while its occurrence is in flight, put to the
    report doors when it has ended. *)
Definition resolve_arrival (ids : list Z) (a : Arrival) : CM' (list Arrival) :=
  let '(o, outcome) := a in
  if bool_decide (o ∈ ids) then mret [a]
  else
    dispatched ← cget (λ c, dget o (co_dispatched c));
    match dispatched with
    | Some occurrence =>
        i ← clock_now;
        (match outcome with
         | TFailure f => inst (record_activity_failure occurrence f (Some i))
         | TResult v => inst (record_activity_completion occurrence v (Some i))
         end);;
        mret []
    | None => craise (ValueError "the Dispatch completed an occurrence which is not in flight")
    end.

(** The candidate the selection policy proposes, as an action. *)
Definition offer_candidate (selection : P) : CM' (list Action) :=
  enabled ← cview instance_candidates ≫= clift;
  match enabled with
  | [] => mret []
  | _ =>
      st ← cget co_selection_state;
      proposal ← clift (propose selection enabled st);
      match proposal with
      | None => mret []
      | Some sp =>
          clift (raise_if (negb (existsb (binding_eq (sp_binding sp)) enabled))
                   (ValueError "candidate selection proposed a binding outside the enabled offer"));;
          clift (raise_if (negb (py_eq (sp_prior_state sp) st))
                   (ValueError "candidate selection proposal does not carry the live prior state"));;
          mret [BeginCandidate (sp_binding sp) sp]
      end
  end.

(** The sensor's next answer; one that has run out declines. *)
Definition ask_sensor (answers : list SensorAnswer) : CM' unit :=
  cset (with_sensor (Some (tail answers)));;
  answer ← clift (default (Ok (Some [])) (head answers));
  parcels ← clift (or_raise answer (ValueError "sensor returned None: a sensor answers with a sequence of deliveries"));
  cset (λ c, with_deliveries (co_deliveries c ++ zip (seq (co_serial c) (length parcels)) parcels)
               (co_serial c + length parcels)%nat c).

Definition sense : CM' unit :=
  l ← cview live;
  buffered ← cget co_deliveries;
  sensor ← cget co_sensor;
  match buffered, sensor with
  | [], Some answers => if bool_decide (armed_view l = []) then mret tt else ask_sensor answers
  | _, _ => mret tt
  end.

(** The buffered deliveries up to the first whose source is not armed. *)
Fixpoint offer_deliveries (armed : Armed) (ds : list (nat * Delivery)) : list Action :=
  match ds with
  | [] => []
  | (n, d) :: ds => if dmem (dl_source d) armed then AcceptDelivery n d :: offer_deliveries armed ds else []
  end.

(** An in-flight invocation neither arrived nor frozen. *)
Definition outstanding (arrived : list Arrival) (l : Live) (o : FiringOccurrence) : bool :=
  impure o && negb (bool_decide (occ_id o ∈ arrived.*1)) && negb (bool_decide (occ_id o ∈ (occ_id <$> projection_pending l))).

Definition view_of (o : FiringOccurrence) : InFlightView :=
  MkView (occ_id o) (b_transition (occ_binding o)) (b_consumed (occ_binding o)) (impure o).

(** [Coordinator._observe] *)
Definition observe_turn (selection : P) : CM' Snapshot :=
  held ← cview (λ s, dvals (in_flight (live s)));
  arrivals ← prov collect;
  cset (λ c, with_arrived (co_arrived c ++ arrivals) c);;
  arrived ← cget co_arrived;
  remaining ← cfor arrived (resolve_arrival (occ_id <$> held));
  cset (with_arrived remaining);;
  candidates ← offer_candidate selection;
  maturation ← cview instance_next_maturation ≫= clift;
  let timers := match maturation with Some m => [AdvanceTime m] | None => [] end in
  l ← cview live;
  let waits := if existsb (outstanding remaining l) held then [Wait] else [] in
  sense;;
  deliveries ← cget co_deliveries;
  previous ← cget co_previous;
  mret (MkSnapshot
    (((λ a : Arrival, AcceptResult a.1 a.2) <$> remaining) ++ candidates ++ timers
       ++ offer_deliveries (armed_view l) deliveries ++ waits ++ [Stop])
    (view_of <$> held) previous).

(** ** Application *)

(** [Coordinator._unbuffer_arrival] *)
Fixpoint unbuffer (o : Z) (l : list Arrival) : list Arrival :=
  match l with
  | [] => []
  | a :: l => if bool_decide (a.1 = o) then l else a :: unbuffer o l
  end.

(** [Coordinator._install_selection] *)
Definition install_selection (sp : SelectionProposal) : CM' unit :=
  st ← cget co_selection_state;
  clift (raise_if (negb (py_eq st (sp_prior_state sp)))
           (RuntimeError "selection state changed before its begin commit"));;
  cset (with_selection_state (sp_next_state sp)).

Definition accept_failure (occurrence : FiringOccurrence) (f : ActivityFailure) : CM' (list FiringOutcome) :=
  i ← clock_now;
  inst (record_activity_failure occurrence f (Some i));;
  committed;;
  cf ← cview config;
  h ← clift (bound_handler cf (b_transition (occ_binding occurrence)));
  i ← clock_now;
  if projects_failure h then
    outcome ← inst (complete occurrence None (Some i));
    committed;;
    mret [outcome]
  else
    inst (fail occurrence (inr f) (Some i));;
    committed;;
    craise (halted f).

Definition accept_value (occurrence : FiringOccurrence) (v : Data) : CM' (list FiringOutcome) :=
  i ← clock_now;
  inst (record_activity_completion occurrence v (Some i));;
  committed;;
  i ← clock_now;
  outcome ← inst (complete occurrence None (Some i));
  mret [outcome].

Definition apply_result (o : Z) (outcome : Terminal) : CM' (list FiringOutcome) :=
  held ← cview (λ s, dvals (in_flight (live s)));
  occurrence ← clift (or_raise (find (λ h, bool_decide (occ_id h = o)) held) (RuntimeError "StopIteration"));
  cset (λ c, with_arrived (unbuffer o (co_arrived c)) c);;
  match outcome with
  | TFailure f => accept_failure occurrence f
  | TResult v => accept_value occurrence v
  end.

(** A terminal failure that [complete_delivery] alone recorded. *)
Definition recorded_failure (before : nat) (a : AcceptedDelivery) (h : list HRecord) : bool :=
  (length h =? before + 1)%nat &&
  match last h with Some (FiringFailed _ _ o _) => o =? ad_occurrence a | _ => false end.

(** Completing an accepted delivery, its recorded failure settled first. *)
Definition settle_delivery (a : AcceptedDelivery) : CM' FiringOutcome :=
  before ← cview (λ s, length (history s));
  ctry
    (i ← clock_now; inst (complete_delivery a (Some i)))
    (λ e,
       h ← cview history;
       (if recorded_failure before a h then committed else mret tt);;
       craise e).

Definition apply_delivery (parcel : nat) (d : Delivery) : CM' (list FiringOutcome) :=
  buffered ← cget co_deliveries;
  clift (raise_if (negb (existsb (λ nd : nat * Delivery, (nd.1 =? parcel)%nat) buffered)) (RuntimeError "StopIteration"));;
  cset (λ c, with_deliveries (filter (λ nd : nat * Delivery, nd.1 ≠ parcel) (co_deliveries c)) (co_serial c) c);;
  before ← cview (λ s, length (history s));
  i ← clock_now;
  accepted ← inst (accept_delivery (APath (dl_source d)) (dl_tokens d) (Some i) (dl_identity d) (dl_scope d));
  match accepted with
  | DAccepted a =>
      after ← cview (λ s, length (history s));
      (if (after =? before)%nat then mret tt else committed);;
      outcome ← settle_delivery a;
      mret [outcome]
  | _ => mret []
  end.

Definition apply_candidate (b : Binding) (sp : SelectionProposal) : CM' (list FiringOutcome * option SelectionProposal) :=
  i ← clock_now;
  occurrence ← inst (begin b (Some i));
  joined ← cget (λ c, bool_decide (is_Some (co_commit c)));
  (if (joined : bool) then mret tt else install_selection sp);;
  firings ← (match occ_invocation occurrence with
             | None => outcome ← complete_pure occurrence; mret [outcome]
             | Some _ => hand_over occurrence;; mret []
             end);
  mret (firings, if (joined : bool) then Some sp else None).

Definition apply_time (instant : Instant) : CM' bool :=
  observed ← (λ c, let '(o, k) := observe instant (co_clock c) in (Ok o, with_clock k c));
  match observed with
  | None => mret false
  | Some o =>
      clift (raise_if (o <? instant) (ValueError "clock observed an instant before the requested maturation"));;
      inst (wake o);;
      mret true
  end.

(** [Coordinator._apply]: the firings appended, the proposal to install after
    the commit, and whether anything was applied. *)
Definition apply_action (a : Action) : CM' (list FiringOutcome * option SelectionProposal * bool) :=
  match a with
  | AcceptResult o outcome => fs ← apply_result o outcome; mret (fs, None, true)
  | AcceptDelivery n d => fs ← apply_delivery n d; mret (fs, None, true)
  | BeginCandidate b sp => fp ← apply_candidate b sp; mret (fp, true)
  | AdvanceTime i => applied ← apply_time i; mret ([], None, applied)
  | Wait | Stop => craise (ValueError "cannot apply non-mutating host posture")
  end.

(** ** Driving *)

Definition choose (policy : DrivingPolicy) (s : Snapshot) : CM' Action :=
  action ← clift (policy s);
  clift (raise_if (negb (bool_decide (action ∈ sn_actions s)))
           (ValueError "the policy chose an action the coordinator did not offer"));;
  mret action.

(** The choices of one turn: an action that turns out not to be due is taken
    from the offers and the policy chooses again. The fuel is the number of
    offers. *)
Fixpoint drive_loop (fuel : nat) (policy : DrivingPolicy) (firings : list FiringOutcome) (s : Snapshot)
    (action : Action) : CM' DriveOutcome :=
  match action with
  | Wait | Stop =>
      committed;;
      m ← cview instance_next_maturation ≫= clift;
      mret (MkDrive firings (is_wait action) false m)
  | _ =>
      before ← cview (λ s, length (history s));
      r ← apply_action action;
      let '(fs, proposal, applied) := r in
      if (applied : bool) then
        after ← cview (λ s, length (history s));
        (if is_delivery action && (after =? before)%nat then mret tt else committed);;
        (match proposal with Some sp => install_selection sp | None => mret tt end);;
        cset (with_previous (Some action));;
        m ← cview instance_next_maturation ≫= clift;
        mret (MkDrive (firings ++ fs) false true m)
      else
        match fuel with
        | O => craise (RuntimeError "out of fuel")
        | S fuel =>
            let s := MkSnapshot (filter (λ a, a ≠ action) (sn_actions s)) (sn_in_flight s) (sn_previous s) in
            action ← choose policy s;
            drive_loop fuel policy firings s action
        end
  end.

(** [Coordinator.drive] *)
Definition drive (policy : DrivingPolicy) (selection : P) : CM' DriveOutcome :=
  reconciled ← cget co_reconciled;
  firings ← (if (reconciled : bool) then mret []
             else cset with_reconciled;; fs ← reconcile; committed;; mret fs);
  snapshot ← observe_turn selection;
  action ← choose policy snapshot;
  drive_loop (length (sn_actions snapshot)) policy firings snapshot action.

(** [Coordinator.__init__] *)
Definition Coordinator_init (s : Instance) (d : D) (selection : P) (clock : K)
    (sensor : option (list SensorAnswer)) (commit : option (list (option exn))) : result Coord :=
  st ← fold_history selection DNone (history s);
  raise_if (existsb impure (dvals (cancelled (live s))) && negb supports_cancellation)
    (TypeError "cannot load lifecycle-cancelled Activities with this Dispatch: it does not implement the recoverable cancellation extension");;
  Ok (MkCoordinator s d clock st sensor commit [] [] 0 (activity_occurrences (live s)) false None).

End coordinator.
