(* ===== verification/Driving.v ===== *)
(** * What driving keeps

    A provider is lawful when it never forgets what it accepted: it owes an
    outcome for every dispatched occurrence until it hands one over. Under a
    lawful provider the Coordinator keeps every Activity in flight in custody:
    owed by the provider, buffered on arrival, or frozen in the history. *)

From stdpp Require Import base gmap sets list strings pretty sorting.
From Stdlib Require Import ZArith Lia.
From S2P Require Import Prelude PyData Schema Marking Enabledness Firing Activity Records Replay Lifecycle Selection Instance Dispatch Construction Commit Invariant Operations Soundness Reachability Coordination.
Open Scope string_scope.
Open Scope list_scope.
Open Scope Z_scope.

(** ** Lawful providers *)

Definition valid_terminal (t : Terminal) : Prop := match t with TFailure f => valid_failure f | TResult _ => True end.
Definition valid_arrival (a : Arrival) : Prop := valid_terminal a.2.

(** [owes d o]: the provider accepted [o] and has not forgotten it; [fenced d o]:
    a cancellation of [o] was installed; [handed d o]: it has handed over the
    outcome of [o] and will not hand it over again; [seen d o]: it was ever told
    of [o]. *)
Class LawfulDispatch (D : Type) `{Dispatch D} := {
  provider_ok : D → Prop;
  owes : D → Z → Prop;
  fenced : D → Z → Prop;
  handed : D → Z → Prop;
  seen : D → Z → Prop;
  dispatch_lawful o i d r d' : provider_ok d → dispatch o i d = (r, d') →
    provider_ok d' ∧ (∀ q, owes d q → owes d' q) ∧ (∀ q, fenced d' q → fenced d q) ∧
    (r = Ok tt → owes d' o ∨ fenced d' o);
  collect_lawful d r d' : provider_ok d → collect d = (r, d') →
    provider_ok d' ∧ (∀ q, fenced d' q → fenced d q) ∧
    ∀ l, r = Ok l → Forall valid_arrival l ∧ ∀ q, owes d q → owes d' q ∨ q ∈ l.*1;
  cancel_lawful run c d r d' : cancel = Some run → provider_ok d → run c d = (r, d') →
    provider_ok d' ∧ (∀ q, q ≠ ci_occurrence c → owes d q → owes d' q) ∧
    (∀ q, fenced d' q → fenced d q ∨ q = ci_occurrence c) ∧ (∀ q, fenced d q → fenced d' q) ∧
    (is_ok r = true → fenced d' (ci_occurrence c));
  handed_seen d q : provider_ok d → handed d q → seen d q;
  dispatch_hands o i d r d' : provider_ok d → dispatch o i d = (r, d') →
    (∀ q, handed d' q → handed d q) ∧ ∀ q, seen d' q → seen d q ∨ q = o;
  collect_hands d l d' : provider_ok d → collect d = (Ok l, d') →
    (∀ q, handed d' q → handed d q ∨ q ∈ l.*1) ∧ ∀ q, seen d' q → seen d q;
  cancel_hands run c d r d' : cancel = Some run → provider_ok d → run c d = (r, d') →
    (∀ q, handed d' q → handed d q) ∧ ∀ q, seen d' q → seen d q ∨ q = ci_occurrence c
}.

(** *** The in-memory pool, which hands over whatever it is given again *)

Definition pool_ok (d : InMemoryDispatch) : Prop :=
  NoDup (dkeys (im_pending d)) ∧ Forall valid_arrival (im_completed d).
Definition pool_owes (d : InMemoryDispatch) (o : Z) : Prop := is_Some (dget o (im_pending d)) ∨ o ∈ (im_completed d).*1.
Definition pool_fenced (d : InMemoryDispatch) (o : Z) : Prop := is_Some (dget o (im_cancelled d)).

Lemma is_Some_dset {V} (k q : Z) (v : V) d : is_Some (dget q (dset k v d)) ↔ q = k ∨ is_Some (dget q d).
Proof. rewrite dget_dset. case_decide; naive_solver. Qed.

#[export] Program Instance InMemory_lawful : LawfulDispatch InMemoryDispatch :=
  {| provider_ok := pool_ok; owes := pool_owes; fenced := pool_fenced; handed _ _ := False; seen _ _ := False |}.
Next Obligation.
  intros o i d r d' [Hn Hv]. simpl. unfold InMemory_dispatch, pool_ok, pool_owes, pool_fenced. intros H.
  destruct (dget o (im_cancelled d)) as [fence|] eqn:Hf.
  - destruct (negb _); simplify_eq; split_and!; eauto; done.
  - destruct (dmem o (im_pending d)); simplify_eq; split_and!; eauto; try done; simpl.
    + by apply NoDup_dkeys_dset.
    + intros q. rewrite is_Some_dset. tauto.
    + intros _. left. left. apply is_Some_dset. by left.
Qed.
Next Obligation.
  intros d r d' [Hn Hv] [= <- <-]. unfold pool_ok, pool_owes, pool_fenced. simpl.
  split; [split; [done|by constructor]|]. split; [done|]. intros l [= <-]. split; [done|]. tauto.
Qed.
Next Obligation.
  intros run c d r d' [= <-] [Hn Hv] H. unfold InMemory_cancel, pool_ok, pool_owes, pool_fenced in *.
  destruct (dget (ci_occurrence c) (im_cancelled d)) eqn:Hf; [simplify_eq; by split_and!; eauto|].
  destruct (dget (ci_occurrence c) (im_pending d)) eqn:Hp; [destruct (negb _)|]; simplify_eq; simpl; split_and!; eauto; try done;
    try (intros q; rewrite is_Some_dset; tauto); try (intros _; apply is_Some_dset; by left).
  - by apply NoDup_dkeys_ddel.
  - intros q Hq. rewrite dget_ddel_ne by done. tauto.
Qed.
Solve All Obligations with (simpl; tauto).

(** ** Activities in flight *)

(** [o] is in flight, impure, and no terminal fact of its Activity is frozen. *)
Definition open_activity (l : Live) (o : Z) : Prop :=
  ∃ occ, dget o (in_flight l) = Some occ ∧ is_Some (occ_invocation occ) ∧ dget o (frozen_results l) = None.

(** Every Activity ever requested has an occurrence number already spent, and
    every frozen failure passed its constructor. *)
Record ledger_ok (l : Live) : Prop := {
  lg_acts o : is_Some (dget o (activity_occurrences l)) → o < next_occurrence l;
  lg_frozen o t : dget o (frozen_results l) = Some t → valid_terminal t
}.

(** What a step keeps of the ledgers. *)
Record ledger_step (l l' : Live) : Prop := {
  ls_next : next_occurrence l ≤ next_occurrence l';
  ls_acts o : is_Some (dget o (activity_occurrences l)) → is_Some (dget o (activity_occurrences l'));
  ls_cancelled o : is_Some (dget o (cancelled l)) → is_Some (dget o (cancelled l'));
  ls_open o : open_activity l' o →
    open_activity l o ∨ (is_Some (dget o (activity_occurrences l')) ∧ next_occurrence l ≤ o)
}.

#[export] Instance ledger_step_preorder : PreOrder ledger_step.
Proof.
  split.
  - intros l. split; naive_solver lia.
  - intros l1 l2 l3 [n1 a1 c1 o1] [n2 a2 c2 o2]. split; [lia|auto..]. intros o Ho.
    destruct (o2 _ Ho) as [H|[H1 H2]]; [|right; split; [done|lia]].
    destruct (o1 _ H) as [|[? ?]]; [by left|]. right. auto.
Qed.

Lemma cancel_live_ledger l o : NoDup (dkeys (in_flight l)) →
  ledger_step l (cancel_live l o) ∧ NoDup (dkeys (in_flight (cancel_live l o))).
Proof.
  intros Hn. unfold cancel_live. destruct (dget o (in_flight l)) as [occ|] eqn:E; [|done].
  split; [|by apply NoDup_dkeys_ddel]. split; simpl; try done.
  - intros q. rewrite is_Some_dset. tauto.
  - intros q (occ' & Hin & Hinv & Hf). simpl in *. left. exists occ'.
    destruct (decide (q = o)) as [->|Hne]; [by rewrite dget_ddel_eq in Hin|]. by rewrite !dget_ddel_ne in * by done.
Qed.

Lemma cancel_fold_ledger ids l : NoDup (dkeys (in_flight l)) → ledger_step l (foldl cancel_live l ids).
Proof.
  revert l. induction ids as [|o ids IH]; intros l Hn; simpl; [done|].
  destruct (cancel_live_ledger l o Hn) as [H1 H2]. etrans; [exact H1|by apply IH].
Qed.

(** A step that touches none of the ledgers, or only ends occurrences. *)
Lemma quiet_ledger l l' :
  next_occurrence l' = next_occurrence l → activity_occurrences l' = activity_occurrences l → cancelled l' = cancelled l →
  (∀ o, open_activity l' o → open_activity l o) → ledger_step l l'.
Proof. intros H1 H2 H3 H4. split; rewrite ?H1, ?H2, ?H3; auto; lia. Qed.

Lemma closed_ledger sc opened ids i l : NoDup (dkeys (in_flight l)) → ledger_step l (closed_live sc opened ids i l).
Proof.
  intros Hn. unfold closed_live.
  set (l1 := set_scope_state _ _). trans l1; [by apply quiet_ledger|].
  trans (foldl cancel_live l1 ids); [by apply cancel_fold_ledger|]. by apply quiet_ledger.
Qed.

Lemma begun_ledger occ qs i l : occ_id occ = next_occurrence l → ledger_step l (begun_live occ qs i l).
Proof.
  intros Hid. unfold begun_live.
  assert (Hopen : ∀ l', in_flight l' = dset (occ_id occ) occ (in_flight l) → frozen_results l' = frozen_results l →
            ∀ o, open_activity l' o → open_activity l o ∨ (o = occ_id occ ∧ is_Some (occ_invocation occ))).
  { intros l' H1 H2 o (occ' & Hin & Hinv & Hf). rewrite H1, dget_dset in Hin. rewrite H2 in Hf.
    case_decide; simplify_eq; [by right|]. left. by exists occ'. }
  destruct (occ_invocation occ) eqn:E; split; simpl; try lia; try done.
  - intros o. rewrite is_Some_dset. tauto.
  - intros o Ho. apply Hopen in Ho as [|[-> _]]; [by left| |done..]. right. split; [|lia]. apply is_Some_dset. by left.
  - intros o Ho. apply Hopen in Ho as [|[_ [? ?]]]; [by left|done|done..].
Qed.

Lemma ended_ledger o retired l : NoDup (dkeys (in_flight l)) → ledger_step l (ended_live o retired l).
Proof.
  intros Hn. apply quiet_ledger; try by destruct retired. intros q (occ & Hin & Hinv & Hf).
  assert (Hi : dget q (ddel o (in_flight l)) = Some occ) by by destruct retired.
  destruct (decide (q = o)) as [->|Hne]; [by rewrite dget_ddel_eq in Hi|]. rewrite dget_ddel_ne in Hi by done.
  exists occ. split_and!; try done. destruct retired; simpl in Hf; [by rewrite dget_ddel_ne in Hf by done|done].
Qed.

Lemma frozen_ledger o t i l : ledger_step l (set_frozen_results (dset o t (frozen_results l)) (set_watermark i l)).
Proof.
  apply quiet_ledger; try done. intros q (occ & Hin & Hinv & Hf). simpl in *. exists occ. split_and!; try done.
  rewrite dget_dset in Hf. by case_decide.
Qed.

Lemma commit_ledger c l batch l' : live_ok c l → commit c l batch l' → ledger_step l l'.
Proof.
  intros Hok H. pose proof (ok_in_flight_keys _ _ Hok) as Hn.
  destruct H; try (by apply quiet_ledger); try (by apply closed_ledger); try apply frozen_ledger.
  all: try match goal with H : begin_batch _ _ _ _ _ _ = Ok _ |- _ => apply begin_batch_spec in H as (mv & qs' & Hb);
         apply bb_id in Hb end.
  - by apply begun_ledger.
  - trans (begun_live occ qs i l); [by apply begun_ledger|by apply quiet_ledger].
  - unfold completed_live. etrans; [|by apply ended_ledger]. by apply quiet_ledger.
  - etrans; [|by apply ended_ledger]. by apply quiet_ledger.
Qed.

Lemma isteps_ledger s s' : isteps s s' → instance_ok s → ledger_step (live s) (live s').
Proof.
  induction 1 as [s|s s1 s' H _ IH]; intros Hok; [done|]. pose proof (istep_ok _ _ H Hok) as Hok1.
  etrans; [|by apply IH]. destruct H as [c st st' l Hs|c st st' l l' batch Hc Hs]; simpl; [done|]. by eapply commit_ledger.
Qed.

(** *** The ledger invariant *)

Lemma cancel_fold_frozen ids l o t : NoDup (dkeys (frozen_results l)) →
  dget o (frozen_results (foldl cancel_live l ids)) = Some t → dget o (frozen_results l) = Some t.
Proof.
  revert l. induction ids as [|q ids IH]; intros l Hn; simpl; [done|]. unfold cancel_live at 2.
  destruct (dget q (in_flight l)); [|by apply IH]. intros H%IH; [|by apply NoDup_dkeys_ddel]. simpl in H.
  destruct (decide (o = q)) as [->|Hne]; [by rewrite dget_ddel_eq in H|by rewrite dget_ddel_ne in H].
Qed.

Lemma cancel_fold_acts ids l :
  activity_occurrences (foldl cancel_live l ids) = activity_occurrences l ∧
  next_occurrence (foldl cancel_live l ids) = next_occurrence l.
Proof.
  revert l. induction ids as [|q ids IH]; intros l; simpl; [done|]. destruct (IH (cancel_live l q)) as [-> ->].
  unfold cancel_live. by destruct (dget q (in_flight l)).
Qed.

Lemma closed_ledger_ok sc opened ids i l : NoDup (dkeys (frozen_results l)) → ledger_ok l → ledger_ok (closed_live sc opened ids i l).
Proof.
  intros Hn [Ha Hf]. unfold closed_live. set (l1 := set_scope_state _ _). destruct (cancel_fold_acts ids l1) as [H1 H2].
  split; simpl; [rewrite H1, H2; apply Ha|]. intros o t H%cancel_fold_frozen; [by eapply Hf|done].
Qed.

Lemma begun_ledger_ok occ qs i l : occ_id occ = next_occurrence l → ledger_ok l → ledger_ok (begun_live occ qs i l).
Proof.
  intros Hid [Ha Hf]. unfold begun_live. destruct (occ_invocation occ); split; simpl; try done; intros o.
  - rewrite is_Some_dset. intros [->|H%Ha]; lia.
  - intros H%Ha. lia.
Qed.

Lemma ended_ledger_ok o retired l : NoDup (dkeys (frozen_results l)) → ledger_ok l → ledger_ok (ended_live o retired l).
Proof.
  intros Hn [Ha Hf]. destruct retired; split; simpl; try done. intros q t'.
  destruct (decide (q = o)) as [->|Hne]; [by rewrite dget_ddel_eq|rewrite dget_ddel_ne by done; apply Hf].
Qed.

Lemma frozen_ledger_ok o t i l : valid_terminal t → ledger_ok l →
  ledger_ok (set_frozen_results (dset o t (frozen_results l)) (set_watermark i l)).
Proof.
  intros Ht [Ha Hf]. split; simpl; [done|]. intros q t'. rewrite dget_dset. case_decide; [by intros [= <-]|apply Hf].
Qed.

Lemma commit_ledger_ok c l batch l' : live_ok c l → commit c l batch l' → ledger_ok l → ledger_ok l'.
Proof.
  intros Hok H Hl. pose proof (ok_frozen_keys _ _ Hok) as Hn. pose proof Hl as [Ha Hf].
  destruct H; try (by split); try (by apply closed_ledger_ok); try (by apply frozen_ledger_ok); try (by apply ended_ledger_ok).
  all: match goal with H : begin_batch _ _ _ _ _ _ = Ok _ |- _ => apply begin_batch_spec in H as (mv & qs' & Hb);
         apply bb_id in Hb end.
  - by apply begun_ledger_ok.
  - destruct (begun_ledger_ok occ qs i l Hb Hl). by split.
Qed.

Lemma isteps_ledger_ok s s' : isteps s s' → instance_ok s → ledger_ok (live s) → ledger_ok (live s').
Proof.
  induction 1 as [s|s s1 s' H _ IH]; intros Hok Hl; [done|]. pose proof (istep_ok _ _ H Hok) as Hok1.
  apply IH; [done|]. destruct H as [c st st' l Hs|c st st' l l' batch Hc Hs]; simpl in *; [done|]. exact (commit_ledger_ok c l batch l' Hok Hc Hl).
Qed.

Lemma reachable_ok s : reachable s → instance_ok s.
Proof. intros Hs%reachable_sound. apply Hs. Qed.

Lemma reachable_ledger s : reachable s → ledger_ok (live s).
Proof.
  induction 1 as [cel n m im at_ st supplied minted s Hn Hi|op s r s' Hr IH Hv Hp|cel im st s s' Hr IH Hst Hp].
  - unfold Instance_init in Hi. inv_ok. split; simpl; [by intros o [? ?]|done].
  - pose proof (reachable_sound _ Hr) as Hs. eapply isteps_ledger_ok; [|apply Hs|done]. eapply perform_isteps; [apply Hs|done|exact Hp].
  - apply resume_restores in Hp as (_ & _ & [] & _); [|done|by apply reachable_sound]. destruct IH. by split.
Qed.

(** ** Operations that leave a part of the live state alone *)

Definition frames {T A} (π : Live → T) (m : M A) : Prop :=
  ∀ s r s', m s = (r, s') → π (live s') = π (live s).

Section frames.
  Context {T : Type} (π : Live → T).
Lemma quiet_ret {A} (a : A) : frames π (mret a : M A).
Proof. by intros s r s' [= <- <-]. Qed.
Lemma quiet_raise {A} e : frames π (raise e : M A).
Proof. by intros s r s' [= <- <-]. Qed.
Lemma quiet_lift {A} (r : result A) : frames π (lift r).
Proof. by intros s r' s' [= <- <-]. Qed.
Lemma quiet_gets {A} (f : Instance → A) : frames π (gets f).
Proof. by intros s r s' [= <- <-]. Qed.
Lemma quiet_read {A} (f : Instance → result A) : frames π (λ s, (f s, s)).
Proof. by intros s r s' [= <- <-]. Qed.
Lemma quiet_update f : (∀ l, π (f l) = π l) → frames π (update f).
Proof. intros Hf s r s' [= <- <-]. simpl. apply Hf. Qed.
Lemma quiet_bind {A B} (m : M A) (f : A → M B) : frames π m → (∀ a, frames π (f a)) → frames π (m ≫= f).
Proof.
  intros Hm Hf s r s' [(a & s1 & H1 & H2)|(e & H1 & _)]%bind_inv; [|by eapply Hm].
  etrans; [by eapply Hf|by eapply Hm].
Qed.
Lemma quiet_extend batch : frames π (extend batch).
Proof. intros s r s'. unfold extend. destruct (st_refusals (store s)) as [|[]]; by intros [= <- <-]. Qed.
Lemma quiet_try {A} (m : M A) h : frames π m → (∀ e, frames π (h e)) → frames π (try_with m h).
Proof.
  intros Hm Hh s r s'. unfold try_with. destruct (m s) as [[a|e] s1] eqn:E; [intros [= <- <-]; by eapply Hm|].
  intros H. etrans; [by eapply Hh|by eapply Hm].
Qed.
Lemma quiet_for_each {A} (l : list A) f : (∀ a, frames π (f a)) → frames π (for_each l f).
Proof. intros Hf. induction l as [|a l IH]; simpl; [apply quiet_ret|]. by apply quiet_bind. Qed.
End frames.

(** No Activity is requested. *)
Notation quiet := (frames activity_occurrences).

Create HintDb quiet.
#[export] Hint Resolve quiet_ret quiet_raise quiet_lift quiet_gets quiet_read quiet_extend : quiet.

Ltac quiet_steps :=
  repeat first
    [ solve [auto with quiet]
    | apply quiet_bind; [|intros ?]
    | apply quiet_try; [|intros ?]
    | apply quiet_update; by intros []
    | apply quiet_for_each; intros ?
    | progress case_match ].

Lemma quiet_advance i : quiet (advance i).
Proof. by apply quiet_update. Qed.
Lemma quiet_self {T A} (π : Live → T) (f : Live → A) : frames π (self f).
Proof. apply quiet_gets. Qed.
Lemma quiet_cfg {T A} (π : Live → T) (f : Config → A) : frames π (cfg f).
Proof. apply quiet_gets. Qed.
#[export] Hint Resolve quiet_advance quiet_self quiet_cfg : quiet.

Lemma quiet_quarantine occ outcome at_ : quiet (quarantine_terminal occ outcome at_).
Proof. unfold quarantine_terminal. quiet_steps. Qed.
Lemma quiet_ack_result t d : quiet (acknowledge_result t d).
Proof. unfold acknowledge_result. quiet_steps. Qed.
Lemma quiet_ack_failure t f : quiet (acknowledge_failure t f).
Proof. unfold acknowledge_failure. quiet_steps. Qed.
#[export] Hint Resolve quiet_quarantine quiet_ack_result quiet_ack_failure : quiet.
Lemma quiet_record_completion occ v at_ : quiet (record_activity_completion occ v at_).
Proof. unfold record_activity_completion. quiet_steps. Qed.
Lemma quiet_record_failure occ f at_ : quiet (record_activity_failure occ f at_).
Proof. unfold record_activity_failure. quiet_steps. Qed.
Lemma quiet_retire o : quiet (retire_frozen o).
Proof. unfold retire_frozen. quiet_steps. Qed.
Lemma quiet_leave o : quiet (leave_in_flight o).
Proof. unfold leave_in_flight. quiet_steps. Qed.
Lemma quiet_unwrap {A} e : quiet (unwrap_refusal e : M A).
Proof. unfold unwrap_refusal. quiet_steps. Qed.
#[export] Hint Resolve quiet_record_completion quiet_record_failure quiet_retire quiet_leave quiet_unwrap : quiet.
Lemma quiet_commit_completion occ v at_ : quiet (commit_completion occ v at_).
Proof. unfold commit_completion. quiet_steps. Qed.
#[export] Hint Resolve quiet_commit_completion : quiet.
Lemma quiet_complete occ v at_ : quiet (complete occ v at_).
Proof. unfold complete. quiet_steps. Qed.
#[export] Hint Resolve quiet_complete : quiet.
Lemma quiet_fail occ e at_ : quiet (fail occ e at_).
Proof. unfold fail. quiet_steps. Qed.
#[export] Hint Resolve quiet_fail : quiet.
Lemma quiet_execute occ at_ : quiet (execute occ at_).
Proof. unfold execute. quiet_steps. Qed.
#[export] Hint Resolve quiet_execute : quiet.
Lemma quiet_wake i : quiet (wake i).
Proof. unfold wake. quiet_steps. Qed.
Lemma quiet_begin_pure b at_ initiation scope : quiet (begin_occurrence b at_ initiation None scope).
Proof.
  intros s r s' [[(_ & Hl & _) _]|(occ & batch & qs & _ & _ & _ & Hb & _ & Hl)]%begin_occurrence_spec; [by rewrite Hl|].
  apply begin_batch_spec in Hb as (mv & qs' & Hb). rewrite Hl. unfold begun_live.
  by rewrite (bb_invocation _ _ _ _ _ _ _ _ _ _ Hb).
Qed.
#[export] Hint Resolve quiet_begin_pure quiet_wake : quiet.
Lemma quiet_accept_delivery src ts at_ k target : quiet (accept_delivery src ts at_ k target).
Proof. unfold accept_delivery, accept_new, accept_begin. quiet_steps. Qed.
Lemma quiet_complete_delivery a at_ : quiet (complete_delivery a at_).
Proof. unfold complete_delivery. quiet_steps. Qed.
#[export] Hint Resolve quiet_accept_delivery quiet_complete_delivery : quiet.

(** The reports change no occurrence's place in flight. *)
Lemma flight_advance i : frames in_flight (advance i).
Proof. by apply quiet_update. Qed.
#[export] Hint Resolve flight_advance : quiet.
Lemma flight_quarantine occ outcome at_ : frames in_flight (quarantine_terminal occ outcome at_).
Proof. unfold quarantine_terminal. quiet_steps. Qed.
Lemma flight_ack_result t d : frames in_flight (acknowledge_result t d).
Proof. unfold acknowledge_result. quiet_steps. Qed.
Lemma flight_ack_failure t f : frames in_flight (acknowledge_failure t f).
Proof. unfold acknowledge_failure. quiet_steps. Qed.
#[export] Hint Resolve flight_quarantine flight_ack_result flight_ack_failure : quiet.
Lemma flight_record_completion occ v at_ : frames in_flight (record_activity_completion occ v at_).
Proof. unfold record_activity_completion. quiet_steps. Qed.
Lemma flight_record_failure occ f at_ : frames in_flight (record_activity_failure occ f at_).
Proof. unfold record_activity_failure. quiet_steps. Qed.
#[export] Hint Resolve flight_record_completion flight_record_failure : quiet.

(** The scope doors and the seal request nothing. *)
Lemma quiet_cancel_occurrence o : quiet (cancel_occurrence o).
Proof. unfold cancel_occurrence. quiet_steps. Qed.
#[export] Hint Resolve quiet_cancel_occurrence : quiet.
Lemma quiet_scope_terminal r cl opened : quiet (apply_scope_terminal r cl opened).
Proof. unfold apply_scope_terminal. quiet_steps. Qed.
#[export] Hint Resolve quiet_scope_terminal : quiet.
Lemma quiet_open_scope name at_ : quiet (open_scope name at_).
Proof. unfold open_scope. quiet_steps. Qed.
Lemma quiet_close_scope sc at_ : quiet (close_scope sc at_).
Proof. unfold close_scope. quiet_steps. Qed.
Lemma quiet_reset_scope sc at_ : quiet (reset_scope sc at_).
Proof. unfold reset_scope. quiet_steps. Qed.
Lemma quiet_seal src at_ : quiet (seal src at_).
Proof. unfold seal. quiet_steps. Qed.
#[export] Hint Resolve quiet_open_scope quiet_close_scope quiet_reset_scope quiet_seal : quiet.
