(* ===== verification/DriveInvariant.v ===== *)
(** * A program logic for the Coordinator

    [triple X R m Q Y]: from a state that satisfies the invariant and whose
    instance satisfies [R], [m] keeps the invariant also when it raises, moves
    the instance by its own operations only, and when it returns [a] the
    instance satisfies [Q a]; and if every open Activity was in custody before,
    but for the debts in [X], every one is afterwards, but for those in [Y a].
    [(o, false)] is the debt of an [o] nobody holds, [(o, true)] that of an [o]
    whose outcome was handed over and is not buffered. *)

From stdpp Require Import base gmap sets list strings pretty sorting.
From Stdlib Require Import ZArith Lia.
From S2P Require Import Prelude PyData Schema Marking Enabledness Firing Activity Records Replay Lifecycle Selection Instance Dispatch Construction Commit Invariant Operations Soundness Reachability Coordination Driving.
Open Scope string_scope.
Open Scope list_scope.
Open Scope Z_scope.

(** ** Operations keep an instance reachable *)

Definition door_op {A} (m : M A) : Prop := ∀ s r s', reachable s → m s = (r, s') → reachable s' ∧ isteps s s'.

Lemma op_door {A} (m : M A) op : valid_op op → perform op = forget m → door_op m.
Proof.
  intros Hv Hp s r s' Hs Hm.
  assert (∃ r', perform op s = (r', s')) as [r' Hr'].
  { rewrite Hp. unfold forget, mbind, M_bind. rewrite Hm. destruct r; eauto. }
  split; [by eapply reachable_op|]. eapply perform_isteps; [apply (reachable_sound _ Hs)|done|exact Hr'].
Qed.

Lemma commit_completion_op occ v at_ : door_op (commit_completion occ v at_).
Proof.
  intros s r s' Hs Hm. assert (Hc : ∃ r', complete occ v at_ s = (r', s')).
  { unfold complete, try_with. rewrite Hm. destruct r as [a|e]; [eauto|]. destruct e; eauto. }
  destruct Hc as [r' Hc]. by apply (op_door _ (Complete occ v at_) I eq_refl s r' s').
Qed.

Create HintDb doors.
#[export] Hint Resolve commit_completion_op : doors.
#[export] Hint Extern 1 (door_op (complete ?o ?v ?a)) => apply (op_door _ (Complete o v a)); [done|reflexivity] : doors.
#[export] Hint Extern 1 (door_op (fail ?o ?e ?a)) => apply (op_door _ (FailFiring o e a)); [done|reflexivity] : doors.
#[export] Hint Extern 1 (door_op (begin ?b ?a)) => apply (op_door _ (Begin b a)); [done|reflexivity] : doors.
#[export] Hint Extern 1 (door_op (record_activity_completion ?o ?v ?a)) => apply (op_door _ (RecordCompletion o v a)); [done|reflexivity] : doors.
#[export] Hint Extern 1 (door_op (record_activity_failure ?o ?f ?a)) => apply (op_door _ (RecordFailure o f a)); [done|reflexivity] : doors.
#[export] Hint Extern 1 (door_op (accept_delivery ?s ?t ?a ?k ?x)) => apply (op_door _ (Reachability.AcceptDelivery s t a k x)); [done|reflexivity] : doors.
#[export] Hint Extern 1 (door_op (complete_delivery ?x ?a)) => apply (op_door _ (CompleteDelivery x a)); [done|reflexivity] : doors.
#[export] Hint Extern 1 (door_op (open_scope ?n ?a)) => apply (op_door _ (OpenScope n a)); [done|reflexivity] : doors.
#[export] Hint Extern 1 (door_op (close_scope ?s ?a)) => apply (op_door _ (CloseScope s a)); [done|reflexivity] : doors.
#[export] Hint Extern 1 (door_op (reset_scope ?s ?a)) => apply (op_door _ (ResetScope s a)); [done|reflexivity] : doors.
#[export] Hint Extern 1 (door_op (seal ?s ?a)) => apply (op_door _ (Seal s a)); [done|reflexivity] : doors.
#[export] Hint Extern 1 (door_op (wake ?i)) => apply (op_door _ (Wake i)); [done|reflexivity] : doors.

(** A quiet operation opens no Activity. *)
Lemma quiet_open {A} (m : M A) s r s' o : door_op m → quiet m → reachable s → m s = (r, s') →
  open_activity (live s') o → open_activity (live s) o.
Proof.
  intros Hd Hq Hs E Ho. destruct (Hd _ _ _ Hs E) as [_ Hst].
  destruct (ls_open _ _ (isteps_ledger _ _ Hst (reachable_ok _ Hs)) _ Ho) as [?|[Ha Hn]]; [done|].
  rewrite (Hq _ _ _ E) in Ha. apply (lg_acts _ (reachable_ledger _ Hs)) in Ha. lia.
Qed.

Section logic.
  Context {D K P : Type} `{HL : LawfulDispatch D} `{HK : Clock K} `{HP : SelectionPolicy P}.
  Notation Coord := (Coordinator D K).
  Notation CM' := (CM D K).
(** Occurrences the provider may have met before. *)
  Context (met : Z → Prop).

Record cinv (c : Coord) : Prop := {
  ci_reachable : reachable (co_instance c);
  ci_provider : provider_ok (co_dispatch c);
  ci_arrived : Forall valid_arrival (co_arrived c);
  ci_fenced o : fenced (co_dispatch c) o → is_Some (dget o (cancelled (live (co_instance c))))
}.

(** Every open Activity is owed or buffered, and none whose outcome the provider
    has handed over is missing from the buffer, but for the debts in [X]. *)
Record covered (X : Z * bool → Prop) (c : Coord) : Prop := {
  cv_owed o : open_activity (live (co_instance c)) o → owes (co_dispatch c) o ∨ o ∈ (co_arrived c).*1 ∨ X (o, false);
  cv_handed o : open_activity (live (co_instance c)) o → handed (co_dispatch c) o → met o ∨ o ∈ (co_arrived c).*1 ∨ X (o, true);
  cv_seen o : seen (co_dispatch c) o → met o ∨ o < next_occurrence (live (co_instance c))
}.

Definition triple {A} (X : Z * bool → Prop) (R : Instance → Prop) (m : CM' A)
    (Q : A → Instance → Prop) (Y : A → Z * bool → Prop) : Prop :=
  ∀ c r c', m c = (r, c') → cinv c → R (co_instance c) →
    cinv c' ∧ isteps (co_instance c) (co_instance c') ∧
    ∀ a, r = Ok a → Q a (co_instance c') ∧ (covered X c → covered (Y a) c').

Notation tt_ := (λ _ _, True) (only parsing).

Lemma cinv_ok c : cinv c → instance_ok (co_instance c).
Proof. intros Hc. apply (reachable_sound _ (ci_reachable _ Hc)). Qed.

(** An open Activity is not cancelled. *)
Lemma open_not_cancelled c o : cinv c → open_activity (live (co_instance c)) o → ¬ fenced (co_dispatch c) o.
Proof.
  intros Hc (occ & Hin & _) [x Hx]%(ci_fenced _ Hc). apply (ok_cancelled _ _ (cinv_ok _ Hc)) in Hx as (_ & _ & Hx). congruence.
Qed.

(** ** Rules *)

Lemma t_conseq {A} (X : Z * bool → Prop) (R R' : Instance → Prop) (m : CM' A) (Q Q' : A → Instance → Prop) (Y : A → Z * bool → Prop) :
  triple X R m Q Y → (∀ i, R' i → R i) → (∀ a i, Q a i → Q' a i) → triple X R' m Q' Y.
Proof. intros Hm HR HQ c r c' E Hc Hr. destruct (Hm c r c' E Hc (HR _ Hr)) as (? & ? & Ha). split_and!; try done. intros a Er. destruct (Ha a Er). auto. Qed.

Lemma t_bind {A B} X R (m : CM' A) Q Y (f : A → CM' B) Q' Y' :
  triple X R m Q Y → (∀ a, triple (Y a) (Q a) (f a) Q' Y') → triple X R (m ≫= f) Q' Y'.
Proof.
  intros Hm Hf c r c'. unfold mbind, CM_bind. destruct (m c) as [[a|e] c1] eqn:E; intros E' Hc Hr.
  - destruct (Hm _ _ _ E Hc Hr) as (Hc1 & Hs1 & Ha). destruct (Ha a eq_refl) as [HQ Hcov].
    destruct (Hf a _ _ _ E' Hc1 HQ) as (Hc2 & Hs2 & Hb). split; [done|]. split; [by etrans|].
    intros b Eb. destruct (Hb b Eb). auto.
  - injection E' as <- <-. destruct (Hm _ _ _ E Hc Hr) as (? & ? & _). done.
Qed.

Lemma t_ret {A} X (R : Instance → Prop) (a : A) : triple X R (mret a) (λ b i, b = a ∧ R i) (λ _, X).
Proof. intros c r c' [= <- <-] Hc Hr. split; [done|]. split; [by constructor|]. by intros b [= <-]. Qed.

Lemma t_done {A} X (R : Instance → Prop) (a : A) : triple X R (mret a) (λ _ _, True) (λ _, X).
Proof. intros c r c' [= <- <-] Hc Hr. split; [done|]. by split; [constructor|]. Qed.

Lemma t_raise {A} X R e (Q : A → Instance → Prop) Y : triple X R (craise e : CM' A) Q Y.
Proof. intros c r c' [= <- <-] Hc Hr. split; [done|]. by split; [constructor|]. Qed.

Lemma t_lift {A} X (R : Instance → Prop) (x : result A) : triple X R (clift x : CM' A) (λ a i, x = Ok a ∧ R i) (λ _, X).
Proof. intros c r c' [= <- <-] Hc Hr. split; [done|]. split; [by constructor|]. by intros b ->. Qed.

(** A read of the instance. *)
Lemma t_view {A} X (R : Instance → Prop) (f : Instance → A) : triple X R (cview f : CM' A) (λ a i, a = f i ∧ R i) (λ _, X).
Proof. intros c r c' [= <- <-] Hc Hr. split; [done|]. split; [by constructor|]. by intros b [= <-]. Qed.

(** A read of the coordinator's own fields. *)
Lemma t_get {A} X (R : Instance → Prop) (f : Coord → A) : triple X R (cget f) (λ _ i, R i) (λ _, X).
Proof. intros c r c' [= <- <-] Hc Hr. split; [done|]. split; [by constructor|]. by intros b [= <-]. Qed.

(** An update of a field the invariant does not read. *)
Lemma t_set X (R : Instance → Prop) (f : Coord → Coord) :
  (∀ c, co_instance (f c) = co_instance c ∧ co_dispatch (f c) = co_dispatch c ∧ co_arrived (f c) = co_arrived c) →
  triple X R (cset f) (λ _ i, R i) (λ _, X).
Proof.
  intros Hf c r c' [= <- <-] [H1 H2 H3 H4] Hr. destruct (Hf c) as (E1 & E2 & E3). rewrite E1.
  split; [split; by rewrite ?E1, ?E2, ?E3|]. split; [by constructor|]. intros a _. split; [done|].
  intros [C1 C2 C3]. by split; rewrite ?E1, ?E2, ?E3.
Qed.

Lemma t_now X (R : Instance → Prop) : triple X R (clock_now : CM' Instant) (λ _ i, R i) (λ _, X).
Proof.
  intros c r c'. unfold clock_now. destruct (now (co_clock c)) as [i k]. intros [= <- <-] [H1 H2 H3 H4] Hr.
  split; [done|]. split; [by constructor|]. intros a _. split; [done|]. by intros [].
Qed.

Lemma t_committed X (R : Instance → Prop) : triple X R (committed : CM' unit) (λ _ i, R i) (λ _, X).
Proof.
  intros c r c'. unfold committed. intros E [H1 H2 H3 H4] Hr.
  destruct (co_commit c) as [[|[] ]|]; injection E as <- <-; (split; [done|]; split; [by constructor|]; try done; intros a [= <-]; (split; [done|]; by intros [])).
Qed.

(** A raising handler. *)
Lemma t_try {A} X R (m : CM' A) Q Y h :
  triple X R m Q Y → (∀ e, triple (λ _, True) (λ _, True) (h e) (λ _ _, False) (λ _ _, True)) → triple X R (ctry m h) Q Y.
Proof.
  intros Hm Hh c r c'. unfold ctry. destruct (m c) as [[a|e] c1] eqn:E; intros E' Hc Hr.
  - injection E' as <- <-. by apply (Hm _ _ _ E).
  - destruct (Hm _ _ _ E Hc Hr) as (Hc1 & Hs1 & _). destruct (Hh e _ _ _ E' Hc1 I) as (Hc2 & Hs2 & Ha).
    split; [done|]. split; [by etrans|]. intros a Ea. by destruct (Ha a Ea).
Qed.

(** An operation of the instance that requests no Activity. *)
Lemma t_inst {A} X R (m : M A) : door_op m → quiet m → triple X R (inst m : CM' A) (λ _ _, True) (λ _, X).
Proof.
  intros Hd Hq c r c'. unfold inst. destruct (m (co_instance c)) as [r0 s'] eqn:E. intros [= <- <-] Hc Hr.
  destruct (Hd _ _ _ (ci_reachable _ Hc) E) as [Hs Hst]. pose proof (isteps_ledger _ _ Hst (cinv_ok _ Hc)) as Hl.
  split; [|split; [done|]].
  - destruct Hc as [H1 H2 H3 H4]. split; try done. intros o Ho. simpl in *. by apply (ls_cancelled _ _ Hl), H4.
  - intros a _. split; [done|]. pose proof (λ o, quiet_open m _ _ _ o Hd Hq (ci_reachable _ Hc) E) as Hopen.
    intros [C1 C2 C3]. split; simpl; [auto..|]. intros o [?|?]%C3; [by left|right]. pose proof (ls_next _ _ Hl). lia.
Qed.

(** A fact that steps keep may be carried along. *)
Definition steady (R : Instance → Prop) : Prop := ∀ s s', instance_ok s → isteps s s' → R s → R s'.

Lemma t_carry {A} X R (R' : Instance → Prop) (m : CM' A) Q Y : steady R' →
  triple X R m Q Y → triple X (λ i, R i ∧ R' i) m (λ a i, Q a i ∧ R' i) Y.
Proof.
  intros Hst Hm c r c' E Hc [Hr Hr']. destruct (Hm _ _ _ E Hc Hr) as (? & Hs & Ha). split; [done|]. split; [done|].
  intros a Ea. destruct (Ha a Ea). split; [|done]. split; [done|]. by apply (Hst _ _ (cinv_ok _ Hc) Hs).
Qed.

Lemma t_for {A B} X (R : A → Instance → Prop) (l : list A) (f : A → CM' (list B)) :
  (∀ a, steady (R a)) → (∀ a, a ∈ l → triple X (R a) (f a) (λ _ _, True) (λ _, X)) →
  triple X (λ i, ∀ a, a ∈ l → R a i) (cfor l f) (λ _ _, True) (λ _, X).
Proof.
  intros Hst. induction l as [|a l IH]; intros Hf; simpl.
  - apply t_done.
  - assert (Hl : steady (λ i, ∀ b, b ∈ l → R b i)) by (intros s s' Hok Hs Hb b Hin; eapply Hst; eauto).
    apply (t_bind _ _ _ (λ _ i, ∀ b, b ∈ l → R b i) (λ _, X)).
    + eapply t_conseq; [apply (t_carry X (R a) _ (f a) (λ _ _, True) (λ _, X) Hl), Hf; by left| |intros ? ? [_ HR]; exact HR].
      intros i Hi. split; [apply Hi; by left|]. intros b Hb. apply Hi. by right.
    + intros xs. apply (t_bind _ _ _ (λ _ _, True) (λ _, X)); [apply IH; intros b Hb; apply Hf; by right|]. intros ys. apply t_done.
Qed.
(** ** Beginning, reporting, handing over *)

Lemma begin_begun b at_ s occ s' : begin b at_ s = (Ok occ, s') →
  occ_id occ = next_occurrence (live s) ∧ ∃ qs i, live s' = begun_live occ qs i (live s).
Proof.
  unfold begin. intros E.
  repeat (mstep E; try match type of E with
    | match ?r with Ok _ => _ | Err _ => _ end = _ => destruct r as [?|?]; [|done] end).
  unfold try_with in E. destruct (begin_occurrence _ _ _ _ _ s) as [r1 s1] eqn:Eb.
  apply begin_occurrence_spec in Eb as [[_ Hr]|(occ' & batch & qs & -> & _ & _ & Hb & _ & Hl)].
  - destruct r1 as [|e]; [done|]. by destruct e.
  - injection E as <- <-. apply begin_batch_spec in Hb as (mv & qs' & Hb). split; [apply (bb_id _ _ _ _ _ _ _ _ _ _ Hb)|eauto].
Qed.

Lemma t_begin X R b at_ :
  triple X R (inst (begin b at_) : CM' FiringOccurrence) (λ occ i, occ_id occ < next_occurrence (live i))
    (λ occ p, X p ∨ (p = (occ_id occ, false) ∧ is_Some (occ_invocation occ))).
Proof.
  intros c r c'. unfold inst. destruct (begin b at_ (co_instance c)) as [r0 s'] eqn:E. intros [= <- <-] Hc Hr.
  assert (Hd : door_op (begin b at_)) by auto with doors.
  destruct (Hd _ _ _ (ci_reachable _ Hc) E) as [Hs Hst]. pose proof (isteps_ledger _ _ Hst (cinv_ok _ Hc)) as Hl.
  split; [|split; [done|]].
  - destruct Hc as [H1 H2 H3 H4]. split; try done. intros o Ho. simpl in *. by apply (ls_cancelled _ _ Hl), H4.
  - intros occ ->. apply begin_begun in E as (Hid & qs & i & El).
    assert (Hnext : next_occurrence (live s') = next_occurrence (live (co_instance c)) + 1)
      by (rewrite El; unfold begun_live; by destruct (occ_invocation occ)).
    assert (Hopen : ∀ o, open_activity (live s') o → (o = occ_id occ ∧ is_Some (occ_invocation occ)) ∨ open_activity (live (co_instance c)) o).
    { intros o (occ' & Hin & Hinv & Hf). rewrite El in Hin, Hf.
      assert (Hin' : dget o (dset (occ_id occ) occ (in_flight (live (co_instance c)))) = Some occ')
        by (unfold begun_live in Hin; by destruct (occ_invocation occ)).
      assert (Hf' : dget o (frozen_results (live (co_instance c))) = None)
        by (unfold begun_live in Hf; by destruct (occ_invocation occ)).
      rewrite dget_dset in Hin'. case_decide; simplify_eq; [by left|]. right. by exists occ'. }
    simpl. split; [lia|]. intros [C1 C2 C3]. split; simpl.
    + intros o [[-> ?]|Ho]%Hopen; [auto|]. destruct (C1 o Ho) as [?|[?|?]]; auto.
    + intros o [[-> _]|Ho]%Hopen Hh.
      * destruct (C3 _ (handed_seen _ _ (ci_provider _ Hc) Hh)); [by left|lia].
      * destruct (C2 o Ho Hh) as [?|[?|?]]; auto.
    + intros o [?|?]%C3; [by left|right; lia].
Qed.

Lemma not_in_flight_closed l o : dget o (in_flight l) = None → ¬ open_activity l o.
Proof. intros Hn (occ & Hin & _). congruence. Qed.
Lemma frozen_closed l o : is_Some (dget o (frozen_results l)) → ¬ open_activity l o.
Proof. intros [t Ht] (occ & _ & _ & Hf). congruence. Qed.

Lemma quarantine_closes occ outcome at_ s d s' : instance_ok s → is_Some (dget (occ_id occ) (cancelled (live s))) →
  quarantine_terminal occ outcome at_ s = (d, s') → ¬ open_activity (live s') (occ_id occ).
Proof.
  intros Hok Hc E. apply quarantine_door in E; [|done]. pose proof (door_isteps _ _ _ E) as Hst.
  apply (ls_cancelled _ _ (isteps_ledger _ _ Hst Hok)) in Hc as [x Hx].
  apply not_in_flight_closed, (ok_cancelled _ _ (isteps_ok _ _ Hst Hok) _ _ Hx).
Qed.

(** An answered report leaves nothing open. *)
Lemma record_completion_closes occ v at_ s d s' : instance_ok s →
  record_activity_completion occ v at_ s = (Ok d, s') → ¬ open_activity (live s') (occ_id occ).
Proof.
  unfold record_activity_completion. intros Hok E. rewrite bind_self in E. unfold id in E. cbv zeta in E.
  destruct (dmem (occ_id occ) (cancelled (live s))) eqn:Hc.
  { rewrite bind_lift in E. destruct (canonical_payload v); [|done]. apply dmem_true, dget_is_Some in Hc. by eapply quarantine_closes. }
  destruct (dget (occ_id occ) (terminal_activity (live s))) eqn:Ht.
  { rewrite bind_lift in E. destruct (canonical_payload v); [|done]. apply acknowledge_result_same in E as ->.
    apply not_in_flight_closed, (ok_terminal _ _ Hok _ _ Ht). }
  rewrite bind_lift in E. destruct (ensure_in_flight _ _); [|done].
  rewrite bind_lift in E. destruct (raise_if _ _); [|done]. rewrite bind_lift in E. destruct (canonical_payload v); [|done].
  destruct (dget (occ_id occ) (frozen_results (live s))) eqn:Hf.
  { apply acknowledge_result_same in E as ->. apply frozen_closed. by rewrite Hf. }
  rewrite bind_lift in E. destruct (writer_records _); [|done].
  apply bind_extend in E as [(e & ? & _)|(s1 & (_ & Hl & _) & E)]; [done|].
  repeat mstep E. injection E as <- <-. apply frozen_closed. simpl. rewrite dget_dset_eq. eauto.
Qed.

Lemma record_failure_closes occ f at_ s d s' : instance_ok s →
  record_activity_failure occ f at_ s = (Ok d, s') → ¬ open_activity (live s') (occ_id occ).
Proof.
  unfold record_activity_failure. intros Hok E. rewrite bind_self in E. unfold id in E. cbv zeta in E.
  destruct (dmem (occ_id occ) (cancelled (live s))) eqn:Hc.
  { apply dmem_true, dget_is_Some in Hc. by eapply quarantine_closes. }
  destruct (dget (occ_id occ) (terminal_activity (live s))) eqn:Ht.
  { apply acknowledge_failure_same in E as ->. apply not_in_flight_closed, (ok_terminal _ _ Hok _ _ Ht). }
  rewrite bind_lift in E. destruct (ensure_in_flight _ _); [|done]. rewrite bind_lift in E. destruct (raise_if _ _); [|done].
  destruct (dget (occ_id occ) (frozen_results (live s))) eqn:Hf.
  { apply acknowledge_failure_same in E as ->. apply frozen_closed. by rewrite Hf. }
  rewrite bind_lift in E. destruct (writer_records _); [|done].
  apply bind_extend in E as [(e & ? & _)|(s1 & (_ & Hl & _) & E)]; [done|].
  repeat mstep E. destruct (ActivityFailure_new _ _ _ _ _); [|done].
  repeat mstep E. injection E as <- <-. apply frozen_closed. simpl. rewrite dget_dset_eq. eauto.
Qed.

(** A quiet operation that closes [o] returns its custody. *)
Lemma t_closes {A} X R (m : M A) o : door_op m → quiet m →
  (∀ s a s', instance_ok s → m s = (Ok a, s') → ¬ open_activity (live s') o) →
  triple (λ p, X p ∨ p.1 = o) R (inst m : CM' A) (λ _ i, ¬ open_activity (live i) o) (λ _, X).
Proof.
  intros Hd Hq Hcl c r c' E Hc Hr. pose proof (t_inst (λ p, X p ∨ p.1 = o) R m Hd Hq c r c' E Hc Hr) as (Hc' & Hst & Ha).
  split; [done|]. split; [done|]. intros a ->. destruct (Ha a eq_refl) as [_ Hcov].
  assert (Hno : ¬ open_activity (live (co_instance c')) o).
  { unfold inst in E. destruct (m (co_instance c)) as [r0 s'] eqn:Em. injection E as -> <-. simpl. by eapply Hcl, Em; apply cinv_ok. }
  split; [done|]. intros [C1 C2 C3]%Hcov. split; [| |done].
  - intros q Hq'. destruct (C1 q Hq') as [?|[?|[?|Heq]]]; [auto..|]. simpl in Heq. by subst.
  - intros q Hq' Hh. destruct (C2 q Hq' Hh) as [?|[?|[?|Heq]]]; [auto..|]. simpl in Heq. by subst.
Qed.

Lemma t_prov {A} X R (m : D → result A * D) Q Y :
  (∀ c r d', cinv c → R (co_instance c) → m (co_dispatch c) = (r, d') →
     cinv (with_dispatch d' c) ∧
     ∀ a, r = Ok a → Q a (co_instance c) ∧ (covered X c → covered (Y a) (with_dispatch d' c))) →
  triple X R (prov m) Q Y.
Proof.
  intros Hm c r c'. unfold prov. destruct (m (co_dispatch c)) as [r0 d'] eqn:E. intros [= <- <-] Hc Hr.
  destruct (Hm c r0 d' Hc Hr E) as [Hc' Ha]. split; [done|]. split; [by constructor|]. done.
Qed.

Lemma t_hand_over X (R : Instance → Prop) occ : is_Some (occ_invocation occ) →
  (∀ i, R i → occ_id occ < next_occurrence (live i)) →
  triple (λ p, X p ∨ p = (occ_id occ, false)) R (hand_over occ : CM' unit) (λ _ i, R i) (λ _, X).
Proof.
  intros [inv Hinv] Hlt. unfold hand_over. rewrite Hinv. eapply t_bind; [by apply t_set|]. intros [].
  apply t_prov. intros c r d' Hc Hr E. destruct (dispatch_lawful _ _ _ _ _ (ci_provider _ Hc) E) as (Hp & Ho & Hf & Hok).
  destruct (dispatch_hands _ _ _ _ _ (ci_provider _ Hc) E) as (Hh & Hs).
  assert (Hc' : cinv (with_dispatch d' c)) by (destruct Hc; split; auto).
  split; [done|]. intros [] ->. split; [done|]. intros [C1 C2 C3]. split; simpl.
  - intros q Hq. destruct (C1 q Hq) as [?|[?|[?|Heq]]]; auto. injection Heq as ->. destruct (Hok eq_refl) as [?|Hfen]; [by left|].
    by destruct (open_not_cancelled _ _ Hc' Hq).
  - intros q Hq ?%Hh. destruct (C2 q Hq) as [?|[?|[?|?]]]; auto; done.
  - intros q [?| ->]%Hs; auto.
Qed.

Lemma t_cancel_one X occ position :
  triple X (λ i, is_Some (dget (occ_id occ) (cancelled (live i)))) (cancel_one occ position : CM' CancellationDisposition)
    (λ _ _, True) (λ _, X).
Proof.
  unfold cancel_one. destruct cancel as [run|] eqn:Er; [|apply t_raise]. destruct (occ_invocation occ) as [inv|]; [|apply t_raise].
  eapply t_bind; [by apply t_set|]. intros []. eapply t_bind; [apply t_lift|]. intros ci.
  apply t_prov. intros c r d' Hc [Hci Hcan] E. destruct (cancel_lawful _ _ _ _ _ Er (ci_provider _ Hc) E) as (Hp & Ho & Hf & _ & _).
  assert (Hid : ci_occurrence ci = occ_id occ) by (unfold CancellationInstruction_new in Hci; by inv_ok).
  assert (Hc' : cinv (with_dispatch d' c)).
  { destruct Hc as [H1 H2 H3 H4]. split; simpl; auto. intros o [?| ->]%Hf; [by apply H4|]. by rewrite Hid. }
  split; [done|].
  destruct Hcan as [x Hx]. apply (ok_cancelled _ _ (cinv_ok _ Hc)) in Hx as (_ & Hlt & Hx).
  destruct (cancel_hands _ _ _ _ _ Er (ci_provider _ Hc) E) as (Hh & Hs). rewrite Hid in *.
  intros d ->. split; [done|]. intros [C1 C2 C3]. split; simpl.
  - intros q Hq. destruct (C1 q Hq) as [Howes|[?|?]]; auto.
    left. apply Ho; [|done]. intros ->. by apply (not_in_flight_closed _ _ Hx).
  - intros q Hq ?%Hh. auto.
  - intros q [?| ->]%Hs; [auto|]. right. lia.
Qed.
End logic.
