(* ===== verification/DriveSteps.v ===== *)
(** * Every phase of a drive keeps custody

    The triples of reconciliation, observation, application and the drive
    itself. *)

From stdpp Require Import base gmap sets list strings pretty sorting.
From Stdlib Require Import ZArith Lia.
From S2P Require Import Prelude PyData Schema Marking Enabledness Firing Activity Records Replay Lifecycle Selection Instance Dispatch Construction Commit Invariant Operations Soundness Reachability Coordination Driving DriveInvariant.
Open Scope string_scope.
Open Scope list_scope.
Open Scope Z_scope.

Section rules.
  Context {D K P : Type} `{HL : LawfulDispatch D} `{HK : Clock K} `{HP : SelectionPolicy P}.
  Notation Coord := (Coordinator D K).
  Notation CM' := (CM D K).
  Context (met : Z → Prop).
  Notation triple := (triple met).

(** ** Derived rules *)

Lemma t_sound {A} X (R : Instance → Prop) (m : CM' A) Q Y :
  triple X (λ i, R i ∧ reachable i) m Q Y → triple X R m Q Y.
Proof. intros Hm c r c' E Hc Hr. apply (Hm _ _ _ E Hc). split; [done|apply (ci_reachable _ Hc)]. Qed.

Lemma t_widen {A} (X X' : Z * bool → Prop) R (m : CM' A) Q Y :
  (∀ i, R i → ∀ o b, open_activity (live i) o → X (o, b) → X' (o, b)) → triple X' R m Q Y → triple X R m Q Y.
Proof.
  intros HX Hm c r c' E Hc Hr. destruct (Hm _ _ _ E Hc Hr) as (? & ? & Ha). split; [done|]. split; [done|].
  intros a Ea. destruct (Ha a Ea) as [? Hcov]. split; [done|]. intros [C1 C2 C3]. apply Hcov. split; [| |done].
  - intros o Ho. destruct (C1 o Ho) as [?|[?|?]]; eauto.
  - intros o Ho Hh. destruct (C2 o Ho Hh) as [?|[?|?]]; eauto.
Qed.

Lemma t_pre {A} X (R R' : Instance → Prop) (m : CM' A) Q Y : (∀ i, R' i → R i) → triple X R m Q Y → triple X R' m Q Y.
Proof. intros HR Hm. eapply t_conseq; [exact Hm|done|done]. Qed.

Lemma t_post {A} X (R : Instance → Prop) (m : CM' A) (Q Q' : A → Instance → Prop) Y :
  (∀ a i, Q a i → Q' a i) → triple X R m Q Y → triple X R m Q' Y.
Proof. intros HQ Hm. eapply t_conseq; [exact Hm|done|done]. Qed.

(** A pure consequence of the precondition. *)
Lemma t_fact {A} (φ : Prop) X (R : Instance → Prop) (m : CM' A) Q Y :
  (∀ i, R i → φ) → (φ → triple X R m Q Y) → triple X R m Q Y.
Proof. intros Hφ Hm c r c' E Hc Hr. by eapply Hm; eauto. Qed.

(** A read of the instance that may raise. *)
Lemma t_read {A} X (R : Instance → Prop) (f : Instance → result A) :
  triple X R (cview f ≫= clift : CM' A) (λ a i, f i = Ok a ∧ R i) (λ _, X).
Proof. intros c r c' [= <- <-] Hc Hr. split; [done|]. split; [by constructor|]. by intros b E. Qed.

End rules.

(** One step of a sequence that leaves the custody set alone. *)
Ltac tstep :=
  match goal with
  | |- triple _ _ _ (mbind _ (mbind _ (cview _))) _ _ => eapply t_bind; [apply t_read|intros ?]
  | |- triple _ _ _ (mbind _ (cview _)) _ _ => eapply t_bind; [apply t_view|intros ?]
  | |- triple _ _ _ (mbind _ (clift _)) _ _ => eapply t_bind; [apply t_lift|intros ?]
  | |- triple _ _ _ (mbind _ (cget _)) _ _ => eapply t_bind; [apply t_get|intros ?]
  | |- triple _ _ _ (mbind _ (cset _)) _ _ => eapply t_bind; [by apply t_set|intros []]
  | |- triple _ _ _ (mbind _ clock_now) _ _ => eapply t_bind; [apply t_now|intros ?]
  | |- triple _ _ _ (mbind _ committed) _ _ => eapply t_bind; [apply t_committed|intros []]
  | |- triple _ _ _ (mbind _ (inst _)) _ _ => eapply t_bind; [apply t_inst; [by auto with doors|by auto with quiet]|intros ?]
  | |- triple _ _ _ (craise _) _ _ => apply t_raise
  | |- triple _ _ _ (mret _) _ _ => apply t_done
  | |- triple _ _ _ committed _ _ => eapply t_post; [|apply t_committed]; done
  | |- triple _ _ _ (inst _) _ _ => apply t_inst; [by auto with doors|by auto with quiet]
  end.

Section steps.
  Context {D K P : Type} `{HL : LawfulDispatch D} `{HK : Clock K} `{HP : SelectionPolicy P}.
  Notation Coord := (Coordinator D K).
  Notation CM' := (CM D K).
  Context (met : Z → Prop).
  Notation triple := (triple met).

Lemma t_complete_pure X R occ : triple X R (complete_pure occ : CM' FiringOutcome) (λ _ _, True) (λ _, X).
Proof.
  unfold complete_pure. do 2 tstep. destruct a0 as [f|h]; [|tstep]. apply t_try; [repeat tstep|].
  intros e. destruct e; tstep; (apply (t_bind _ _ _ _ (λ _ _, True) (λ _ _, True)); [case_match; repeat tstep|intros []; tstep]).
Qed.

(** ** Reconciliation *)

Lemma cancelled_member i occ : reachable i → occ ∈ dvals (cancelled (live i)) → is_Some (dget (occ_id occ) (cancelled (live i))).
Proof.
  intros Hr%reachable_sound Hin. destruct Hr as [Hok _]. apply list_elem_of_fmap in Hin as ([o occ'] & -> & Hin). simpl.
  apply elem_of_dget in Hin; [|apply (ok_cancelled_keys _ _ Hok)]. destruct (ok_cancelled _ _ Hok _ _ Hin) as (-> & _). eauto.
Qed.

Lemma steady_cancelled o : steady (λ i, is_Some (dget o (cancelled (live i)))).
Proof. intros s s' Hok Hst. apply (ls_cancelled _ _ (isteps_ledger _ _ Hst Hok)). Qed.

Lemma t_reconcile_cancellations X : triple X (λ _, True) (reconcile_cancellations : CM' unit) (λ _ _, True) (λ _, X).
Proof.
  unfold reconcile_cancellations. tstep. apply t_sound. tstep. eapply t_bind; [|intros ?; tstep].
  eapply t_pre; [|apply (t_for _ X (λ occ i, is_Some (dget (occ_id occ) (cancelled (live i)))))].
  - intros i (-> & _ & Hr) occ Hin. by apply cancelled_member.
  - intros occ. apply steady_cancelled.
  - intros occ Hin. destruct (occ_invocation occ); [|tstep]. tstep.
    eapply t_bind; [eapply t_pre; [|apply t_cancel_one]; by intros i []|]. intros d. tstep.
Qed.

Lemma steady_spent o : steady (λ i, o < next_occurrence (live i)).
Proof. intros s s' Hok Hst Ho. pose proof (ls_next _ _ (isteps_ledger _ _ Hst Hok)). lia. Qed.

Lemma t_hand_over_all (todo : FiringOccurrence → bool) (l : list FiringOccurrence) :
  (∀ o, todo o = true → is_Some (occ_invocation o)) →
  triple (λ p, p.1 ∈ occ_id <$> filter (λ o, todo o) l ∧ p.2 = false) (λ i, ∀ o, o ∈ l → occ_id o < next_occurrence (live i))
    (cfor l (λ o, (if todo o then hand_over o else mret tt);; mret (@nil unit)) : CM' (list unit)) (λ _ _, True) (λ _ _, False).
Proof.
  intros Ht. induction l as [|o l IH]; simpl.
  - eapply t_widen; [|apply t_done]. intros i _ q b _ [Hq _]. by apply elem_of_nil in Hq.
  - set (R := λ i, ∀ o, o ∈ l → occ_id o < next_occurrence (live i)) in *.
    assert (HR : steady R) by (intros s s' Hok Hst Hs x Hx; eapply steady_spent; eauto).
    apply (t_bind _ _ _ _ (λ _, R) (λ _ p, p.1 ∈ occ_id <$> filter (λ o, todo o) l ∧ p.2 = false)).
    + apply (t_bind _ _ _ _ (λ _, R) (λ _ p, p.1 ∈ occ_id <$> filter (λ o, todo o) l ∧ p.2 = false));
        [|intros []; eapply t_post; [|apply t_ret]; by intros ? ? []].
      destruct (todo o) eqn:E.
      * rewrite filter_cons_True by by rewrite E. eapply t_widen; [|eapply t_conseq; [apply (t_hand_over _ _ (λ i, occ_id o < next_occurrence (live i) ∧ R i)); [by apply Ht|]| |]].
        -- intros i _ q b _. csimpl. rewrite elem_of_cons. intros [[->|?] ->]; [by right|by left].
        -- intros i Hi. exact (proj1 Hi).
        -- intros i Hi. split; [apply Hi; by left|]. intros x Hx. apply Hi. by right.
        -- by intros ? i [_ Hi].
      * rewrite filter_cons_False by (rewrite E; tauto). eapply t_conseq; [apply (t_ret _ _ R)| |by intros ? ? []].
        intros i Hi x Hx. apply Hi. by right.
    + intros xs. eapply t_bind; [exact IH|intros ys; tstep].
Qed.

Lemma t_reconcile_pending X R occ : triple X R (reconcile_pending occ : CM' (list FiringOutcome)) (λ _ _, True) (λ _, X).
Proof.
  unfold reconcile_pending. apply t_sound. tstep.
  eapply t_bind; [apply t_lift|]. intros frozen.
  apply (t_bind _ _ _ _ (λ _ _, True) (λ _, X)); [|intros []; repeat tstep].
  destruct frozen as [d|f]; [tstep|]. apply (t_fact _ (valid_failure f)).
  { intros i (Hf & -> & _ & Hi). apply or_raise_Ok in Hf. exact (lg_frozen _ (reachable_ledger _ Hi) _ _ Hf). }
  intros Hv. do 2 tstep. destruct (negb _); repeat tstep.
Qed.

Lemma open_pending i o occ : reachable i → open_activity (live i) o → dget o (in_flight (live i)) = Some occ →
  occ_id occ = o ∧ o ∉ occ_id <$> projection_pending (live i).
Proof.
  intros [Hok _]%reachable_sound (occ' & Hin & _ & Hf) Hin'. destruct (ok_in_flight _ _ Hok _ _ Hin') as [Hid _]. split; [done|].
  intros (occ2 & Hid2 & Hp)%list_elem_of_fmap. unfold projection_pending in Hp. apply list_elem_of_filter in Hp as [Hp _].
  apply Is_true_true, dmem_true, dget_is_Some in Hp as [t Ht]. congruence.
Qed.

(** Whoever held them before, every open Activity is in custody after. *)
Lemma t_reconcile : triple (λ p, p.2 = false) (λ _, True) (reconcile : CM' (list FiringOutcome)) (λ _ _, True) (λ _ _, False).
Proof.
  unfold reconcile. eapply t_bind; [apply t_reconcile_cancellations|]. intros []. apply t_sound.
  tstep. rename a into l. cbv zeta.
  set (todo := λ o, impure o && negb (bool_decide (occ_id o ∈ occ_id <$> projection_pending l))).
  apply (t_bind _ _ _ _ (λ _ _, True) (λ _ _, False)).
  { eapply (t_widen _ _ (λ p, p.1 ∈ occ_id <$> filter (λ o, todo o) (dvals (in_flight l)) ∧ p.2 = false));
      [|eapply t_pre; [|apply t_hand_over_all]].
    - intros i (-> & _ & Hr) o b Ho Hb. simpl in Hb. split; [|done]. pose proof Ho as (occ & Hin & Hinv & _).
      destruct (open_pending i o occ Hr Ho Hin) as [<- Hnp]. apply list_elem_of_fmap. exists occ. split; [done|].
      apply list_elem_of_filter. split; [|by apply dget_elem_of in Hin; apply list_elem_of_fmap; exists (occ_id occ, occ)].
      unfold todo, impure. by rewrite bool_decide_true, bool_decide_false.
    - intros i (-> & _ & Hr) occ Hin. apply list_elem_of_fmap in Hin as ([o occ'] & -> & Hin). simpl.
      apply elem_of_dget in Hin; [|apply (ok_in_flight_keys _ _ (reachable_ok _ Hr))].
      destruct (ok_in_flight _ _ (reachable_ok _ Hr) _ _ Hin) as (-> & ? & _). lia.
    - intros o [Ho _]%andb_true_iff. by apply bool_decide_eq_true in Ho. }
  intros _. eapply t_bind; [|intros projected; eapply t_bind; [|intros completed; tstep]].
  - eapply t_pre; [|apply (t_for _ _ (λ _ _, True))]; [done|done|]. intros o _. case_match; [apply t_reconcile_pending|tstep].
  - eapply t_pre; [|apply (t_for _ _ (λ _ _, True))]; [done|done|]. intros o _. case_match; [tstep|].
    eapply t_bind; [apply t_complete_pure|]. intros f. tstep.
Qed.
(** ** Observation *)

Definition valid_action (a : Action) : Prop := match a with AcceptResult _ t => valid_terminal t | _ => True end.

Lemma t_collect X R :
  triple X R (prov collect : CM' (list Arrival)) (λ l i, R i ∧ Forall valid_arrival l) (λ l p, X p ∨ p.1 ∈ l.*1).
Proof.
  apply t_prov. intros c r d' Hc Hr E. destruct (collect_lawful _ _ _ (ci_provider _ Hc) E) as (Hp & Hf & Hl).
  split; [destruct Hc; split; simpl; auto|]. intros l ->. destruct (Hl l eq_refl) as [Hv Ho]. split; [done|].
  destruct (collect_hands _ _ _ (ci_provider _ Hc) E) as [Hh Hs]. intros [C1 C2 C3]. split; simpl.
  - intros o Hopen. destruct (C1 o Hopen) as [[?|?]%Ho|[?|?]]; auto.
  - intros o Hopen [Hd|?]%Hh; [|auto]. destruct (C2 o Hopen Hd) as [?|[?|?]]; auto.
  - auto.
Qed.

Lemma t_buffer X (R : Instance → Prop) l : Forall valid_arrival l →
  triple (λ p, X p ∨ p.1 ∈ l.*1) R (cset (λ c, with_arrived (co_arrived c ++ l) c) : CM' unit) (λ _ i, R i) (λ _, X).
Proof.
  intros Hl c r c' [= <- <-] [H1 H2 H3 H4] Hr. split; [split; simpl; try done; by apply Forall_app|]. split; [by constructor|].
  intros [] _. split; [done|]. intros [C1 C2 C3]. split; simpl; [| |done]; intros o Ho; rewrite fmap_app, elem_of_app.
  - destruct (C1 o Ho) as [?|[?|[?|?]]]; auto.
  - intros Hh. destruct (C2 o Ho Hh) as [?|[?|[?|?]]]; auto.
Qed.

(** One arrival: kept if its occurrence is in flight, else judged at the report
    doors, which open nothing. *)
Lemma resolve_one ids a (c : Coord) r c' : resolve_arrival ids a c = (r, c') → cinv c → valid_arrival a →
  cinv c' ∧ isteps (co_instance c) (co_instance c') ∧ co_arrived c' = co_arrived c ∧ co_dispatch c' = co_dispatch c ∧
  (∀ o, open_activity (live (co_instance c')) o → open_activity (live (co_instance c)) o) ∧
  ∀ l, r = Ok l → (l = [a] ∨ l = []) ∧ (a.1 ∈ ids → l = [a]).
Proof.
  destruct a as [o t]. unfold resolve_arrival. case_bool_decide as Hin.
  { intros [= <- <-] Hc _. split_and!; try done. intros l [= <-]. by split; [left|]. }
  intros E Hc Hv.
  assert (Hrep : ∀ A (m : M A) (c1 : Coord), co_instance c1 = co_instance c → co_arrived c1 = co_arrived c → co_dispatch c1 = co_dispatch c →
    door_op m → quiet m → (inst m ≫= (λ _, mret [] : CM' (list Arrival))) c1 = (r, c') →
    isteps (co_instance c) (co_instance c') ∧ reachable (co_instance c') ∧ co_arrived c' = co_arrived c ∧
    co_dispatch c' = co_dispatch c ∧ (∀ q, open_activity (live (co_instance c')) q → open_activity (live (co_instance c)) q) ∧
    ∀ l, r = Ok l → l = []).
  { intros A m c1 E1 E2 E3 Hd Hq. unfold mbind, CM_bind, inst. rewrite E1. destruct (m (co_instance c)) as [r0 s'] eqn:Em.
    destruct (Hd _ _ _ (ci_reachable _ Hc) Em) as [Hs Hst]. pose proof (λ q, quiet_open m _ _ _ q Hd Hq (ci_reachable _ Hc) Em) as Ho.
    destruct r0; intros [= <- <-]; split_and!; try done; by intros l [= <-]. }
  assert (Hall : isteps (co_instance c) (co_instance c') ∧ reachable (co_instance c') ∧ co_arrived c' = co_arrived c ∧
    co_dispatch c' = co_dispatch c ∧ (∀ q, open_activity (live (co_instance c')) q → open_activity (live (co_instance c)) q) ∧
    ∀ l, r = Ok l → l = []).
  { unfold mbind at 1, CM_bind at 1, cget in E. destruct (dget o (co_dispatched c)) as [occ|].
    - unfold mbind at 1, CM_bind at 1, clock_now in E. destruct (now (co_clock c)) as [i k].
      destruct t as [d|f]; simpl in Hv; (eapply Hrep; [..|exact E]); auto with doors quiet.
    - injection E as <- <-. split_and!; try done. apply (ci_reachable _ Hc). }
  destruct Hall as (Hst & Hs & Ha & Hd & Ho & Hl). split; [|split_and!; try done].
  - destruct Hc as [H1 H2 H3 H4]. split; rewrite ?Ha, ?Hd; try done. intros q Hq%H4.
    by apply (ls_cancelled _ _ (isteps_ledger _ _ Hst (reachable_ok _ H1))).
  - intros l El. rewrite (Hl l El). split; [by right|done].
Qed.

Lemma resolve_all ids l : ∀ (c : Coord) r c', cfor l (resolve_arrival ids) c = (r, c') → cinv c → Forall valid_arrival l →
  cinv c' ∧ isteps (co_instance c) (co_instance c') ∧ co_arrived c' = co_arrived c ∧ co_dispatch c' = co_dispatch c ∧
  (∀ o, open_activity (live (co_instance c')) o → open_activity (live (co_instance c)) o) ∧
  ∀ k, r = Ok k → (∀ a, a ∈ k → a ∈ l) ∧ ∀ a, a ∈ l → a.1 ∈ ids → a ∈ k.
Proof.
  induction l as [|a l IH]; intros c r c' E Hc Hl; simpl in E.
  { injection E as <- <-. split_and!; try done. by intros k [= <-]. }
  apply Forall_cons in Hl as [Ha Hl]. unfold mbind, CM_bind in E.
  destruct (resolve_arrival ids a c) as [r1 c1] eqn:E1.
  destruct (resolve_one _ _ _ _ _ E1 Hc Ha) as (Hc1 & Hs1 & Ha1 & Hd1 & Ho1 & Hr1).
  destruct r1 as [k1|e]; [|injection E as <- <-; by split_and!].
  destruct (cfor l (resolve_arrival ids) c1) as [r2 c2] eqn:E2.
  destruct (IH _ _ _ E2 Hc1 Hl) as (Hc2 & Hs2 & Ha2 & Hd2 & Ho2 & Hr2).
  assert (Hfin : c2 = c') by (destruct r2; by injection E as <- <-). subst c2.
  split; [done|]. split; [by etrans|]. split; [congruence|]. split; [congruence|]. split; [auto|].
  intros k Ek. destruct r2 as [k2|e]; [|congruence]. destruct (Hr1 k1 eq_refl) as [Hk1 Hid]. destruct (Hr2 k2 eq_refl) as [Hsub Hsup].
  assert (k = k1 ++ k2) as -> by (unfold mret, CM_ret in E; congruence). split.
  - intros x [Hx|Hx]%elem_of_app; [|right; auto]. destruct Hk1 as [-> | ->]; set_solver.
  - intros x [->|Hx]%elem_of_cons Hin; apply elem_of_app; [left; rewrite (Hid Hin); by left|right; auto].
Qed.

Lemma t_resolving {B} X R ids (rest : list Arrival → CM' B) Q Y :
  (∀ i, R i → ∀ o, open_activity (live i) o → o ∈ ids) →
  (∀ remaining, Forall valid_arrival remaining → triple X (λ _, True) (rest remaining) Q Y) →
  triple X R (arrived ← cget co_arrived; remaining ← cfor arrived (resolve_arrival ids);
              cset (with_arrived remaining);; rest remaining) Q Y.
Proof.
  intros Hids Hrest c r c' E Hc Hr. unfold mbind at 1, CM_bind at 1, cget in E. unfold mbind at 1, CM_bind at 1 in E.
  destruct (cfor (co_arrived c) (resolve_arrival ids) c) as [r1 c1] eqn:E1.
  destruct (resolve_all _ _ _ _ _ E1 Hc (ci_arrived _ Hc)) as (Hc1 & Hs1 & Ha1 & Hd1 & Ho1 & Hr1).
  destruct r1 as [k|e]; [|by injection E as <- <-]. destruct (Hr1 k eq_refl) as [Hsub Hsup].
  assert (Hk : Forall valid_arrival k).
  { apply Forall_forall. intros a Hin%Hsub. pose proof (ci_arrived _ Hc) as Hv. rewrite Forall_forall in Hv. auto. }
  assert (Hc2 : cinv (with_arrived k c1)) by (destruct Hc1; split; done).
  destruct (Hrest k Hk (with_arrived k c1) r c' E Hc2 I) as (Hc' & Hs' & Ha'). split; [done|]. split; [by etrans|].
  assert (Hkeep : ∀ o, open_activity (live (co_instance c)) o → o ∈ (co_arrived c).*1 → o ∈ k.*1).
  { intros o Ho (a & -> & Hin)%list_elem_of_fmap. apply list_elem_of_fmap. exists a. split; [done|].
    apply Hsup; [done|]. by eapply Hids. }
  intros b Eb. destruct (Ha' b Eb) as [HQ Hcov]. split; [done|]. intros [C1 C2 C3]. apply Hcov. split; simpl; rewrite Hd1.
  - intros o ?%Ho1. destruct (C1 o) as [?|[?|?]]; auto.
  - intros o ?%Ho1 Hh. destruct (C2 o) as [?|[?|?]]; auto.
  - intros o [?|?]%C3; [auto|]. right. pose proof (ls_next _ _ (isteps_ledger _ _ Hs1 (cinv_ok _ Hc))). lia.
Qed.

Lemma t_offer_candidate X R sel :
  triple X R (offer_candidate sel : CM' (list Action)) (λ l _, Forall valid_action l) (λ _, X).
Proof.
  unfold offer_candidate. tstep. destruct a as [|b bs]; [eapply t_post; [|apply t_ret]; by intros ? ? [-> _]|].
  do 2 tstep. destruct a0 as [sp|]; [|eapply t_post; [|apply t_ret]; by intros ? ? [-> _]].
  do 2 tstep. eapply t_post; [|apply t_ret]. intros ? ? [-> _]. by repeat constructor.
Qed.

Lemma t_sense X R : triple X R (sense : CM' unit) (λ _ _, True) (λ _, X).
Proof.
  unfold sense, ask_sensor. do 3 tstep. destruct a0; [|tstep]. destruct a1; [|tstep]. case_bool_decide; [tstep|].
  do 3 tstep. eapply t_post; [|by apply t_set]. done.
Qed.

Lemma offered_valid armed ds : Forall valid_action (offer_deliveries armed ds).
Proof. induction ds as [|[n d] ds IH]; simpl; [done|]. destruct (dmem _ _); by constructor. Qed.

Lemma t_observe X sel : triple X (λ _, True) (observe_turn sel : CM' Snapshot) (λ s _, Forall valid_action (sn_actions s)) (λ _, X).
Proof.
  unfold observe_turn. apply t_sound. tstep. eapply t_bind; [apply t_collect|]. intros l.
  apply (t_fact _ (Forall valid_arrival l)); [by intros i [_ ?]|]. intros Hl. eapply t_bind; [by apply t_buffer|]. intros [].
  apply t_resolving.
  { intros i ((-> & _ & Hr) & _) o (occ & Hin & _). destruct (reachable_sound _ Hr) as [Hok _].
    destruct (ok_in_flight _ _ Hok _ _ Hin) as [<- _]. apply list_elem_of_fmap. exists occ. split; [done|].
    apply list_elem_of_fmap. exists (occ_id occ, occ). split; [done|]. by apply dget_elem_of. }
  intros remaining Hrem. eapply t_bind; [apply t_offer_candidate|]. intros cands.
  apply (t_fact _ (Forall valid_action cands)); [done|]. intros Hcands. do 2 tstep.
  eapply t_bind; [apply t_sense|]. intros []. do 2 tstep. eapply t_post; [|apply t_ret]. intros ? ? [-> _]. simpl.
  repeat apply Forall_app_2; try done.
  - apply Forall_fmap. eapply Forall_impl; [exact Hrem|]. done.
  - destruct a0; by repeat constructor.
  - apply offered_valid.
  - case_match; by repeat constructor.
  - by repeat constructor.
Qed.
(** ** Application *)

Lemma unbuffer_keeps o q l : q ∈ l.*1 → q ∈ (unbuffer o l).*1 ∨ q = o.
Proof.
  induction l as [|a l IH]; simpl; [set_solver|]. intros [->|Hin]%elem_of_cons; case_bool_decide; csimpl; set_solver.
Qed.

Lemma unbuffer_valid o l : Forall valid_arrival l → Forall valid_arrival (unbuffer o l).
Proof. induction 1 as [|a l Ha Hl IH]; simpl; [done|]. case_bool_decide; [done|by constructor]. Qed.

Lemma t_unbuffer X (R : Instance → Prop) o :
  triple X R (cset (λ c, with_arrived (unbuffer o (co_arrived c)) c) : CM' unit) (λ _ i, R i) (λ _ p, X p ∨ p.1 = o).
Proof.
  intros c r c' [= <- <-] [H1 H2 H3 H4] Hr. split; [split; simpl; try done; by apply unbuffer_valid|]. split; [by constructor|].
  intros [] _. split; [done|]. intros [C1 C2 C3]. split; simpl; [| |done]; intros q Hq.
  - destruct (C1 q Hq) as [?|[Hin|?]]; auto. apply (unbuffer_keeps o) in Hin as [?|?]; auto.
  - intros Hh. destruct (C2 q Hq Hh) as [?|[Hin|?]]; auto. apply (unbuffer_keeps o) in Hin as [?|?]; auto.
Qed.

Lemma t_accept_failure X R occ f : valid_failure f →
  triple (λ p, X p ∨ p.1 = occ_id occ) R (accept_failure occ f : CM' (list FiringOutcome)) (λ _ _, True) (λ _, X).
Proof.
  intros Hf. unfold accept_failure. tstep. eapply t_bind.
  { apply t_closes; [by auto with doors|by auto with quiet|]. intros s x s' Hok. by apply record_failure_closes. }
  intros d. do 4 tstep. case_match; repeat tstep.
Qed.

Lemma t_accept_value X R occ v :
  triple (λ p, X p ∨ p.1 = occ_id occ) R (accept_value occ v : CM' (list FiringOutcome)) (λ _ _, True) (λ _, X).
Proof.
  unfold accept_value. tstep. eapply t_bind.
  { apply t_closes; [by auto with doors|by auto with quiet|]. intros s x s' Hok. by apply record_completion_closes. }
  intros d. repeat tstep.
Qed.

Lemma t_apply_result X R o t : valid_terminal t →
  triple X R (apply_result o t : CM' (list FiringOutcome)) (λ _ _, True) (λ _, X).
Proof.
  intros Ht. unfold apply_result. do 2 tstep. rename a0 into occ. apply (t_fact _ (occ_id occ = o)).
  { intros i [Hf%or_raise_Ok _]. apply find_some in Hf as [_ Hf]. by apply bool_decide_eq_true in Hf. }
  intros <-. eapply t_bind; [apply t_unbuffer|]. intros []. destruct t; [apply t_accept_value|by apply t_accept_failure].
Qed.

Lemma t_settle X R a : triple X R (settle_delivery a : CM' FiringOutcome) (λ _ _, True) (λ _, X).
Proof.
  unfold settle_delivery. tstep. apply t_try; [repeat tstep|]. intros e. tstep.
  apply (t_bind _ _ _ _ (λ _ _, True) (λ _ _, True)); [case_match; tstep|intros []; tstep].
Qed.

Lemma t_apply_delivery X R n d : triple X R (apply_delivery n d : CM' (list FiringOutcome)) (λ _ _, True) (λ _, X).
Proof.
  unfold apply_delivery. do 6 tstep. destruct a3; tstep.
  apply (t_bind _ _ _ _ (λ _ _, True) (λ _, X)); [case_match; tstep|]. intros [].
  eapply t_bind; [apply t_settle|]. intros out. tstep.
Qed.

Lemma t_install X R sp : triple X R (install_selection sp : CM' unit) (λ _ _, True) (λ _, X).
Proof. unfold install_selection. do 2 tstep. eapply t_post; [|by apply t_set]. done. Qed.

Lemma t_apply_candidate X R b sp :
  triple X R (apply_candidate b sp : CM' (list FiringOutcome * option SelectionProposal)) (λ _ _, True) (λ _, X).
Proof.
  unfold apply_candidate. tstep. eapply t_bind; [apply t_begin|]. intros occ.
  set (R0 := λ i, occ_id occ < next_occurrence (live i)). set (X0 := λ p, X p ∨ (p = (occ_id occ, false) ∧ is_Some (occ_invocation occ))).
  apply (t_bind _ _ _ _ (λ _, R0) (λ _, X0)); [apply t_get|]. intros joined.
  apply (t_bind _ _ _ _ (λ _, R0) (λ _, X0)).
  { eapply t_conseq; [apply (t_carry _ X0 (λ _, True) R0 _ (λ _ _, True) (λ _, X0) (steady_spent _))| |by intros [] ? [_ ?]].
    - case_match; [tstep|apply t_install].
    - by split. }
  intros []. apply (t_bind _ _ _ _ (λ _ _, True) (λ _, X)); [|intros fs; tstep].
  destruct (occ_invocation occ) as [inv|] eqn:E.
  - apply (t_bind _ _ _ _ (λ _ _, True) (λ _, X)); [|intros []; tstep].
    eapply t_widen; [|eapply t_post; [|apply t_hand_over; [by rewrite E|]]]; [|done|done].
    intros i _ o b' _ [?|[? _]]; auto.
  - eapply t_widen; [|eapply t_bind; [apply t_complete_pure|intros f; tstep]].
    intros i _ o b' _ [?|[_ [? ?]]]; done.
Qed.

Lemma t_apply_time X R instant : triple X R (apply_time instant : CM' bool) (λ _ _, True) (λ _, X).
Proof.
  unfold apply_time. apply (t_bind _ _ _ _ (λ _ _, True) (λ _, X)).
  - intros c r c'. destruct (observe instant (co_clock c)) as [o k]. intros [= <- <-] [H1 H2 H3 H4] Hr.
    split; [done|]. split; [by constructor|]. intros a _. split; [done|]. by intros [].
  - intros [o|]; repeat tstep.
Qed.

Lemma t_apply X R a : valid_action a →
  triple X R (apply_action a : CM' (list FiringOutcome * option SelectionProposal * bool)) (λ _ _, True) (λ _, X).
Proof.
  intros Ha. destruct a; simpl.
  - eapply t_bind; [by apply t_apply_result|]. intros fs. tstep.
  - eapply t_bind; [apply t_apply_delivery|]. intros fs. tstep.
  - eapply t_bind; [apply t_apply_candidate|]. intros fs. tstep.
  - eapply t_bind; [apply t_apply_time|]. intros fs. tstep.
  - tstep.
  - tstep.
Qed.

(** ** Driving *)

Lemma t_choose X R policy s : Forall valid_action (sn_actions s) →
  triple X R (choose policy s : CM' Action) (λ a _, valid_action a) (λ _, X).
Proof.
  intros Hs. unfold choose. do 2 tstep. eapply t_sound, t_post; [|apply t_ret]. intros a' i (-> & (Hc & _) & _).
  apply raise_if_Ok, negb_false_iff, bool_decide_eq_true in Hc. rewrite Forall_forall in Hs. auto.
Qed.

Lemma t_drive_loop fuel policy : ∀ X R firings s action, Forall valid_action (sn_actions s) → valid_action action →
  triple X R (drive_loop fuel policy firings s action : CM' DriveOutcome) (λ _ _, True) (λ _, X).
Proof.
  induction fuel as [|fuel IH]; intros X R firings s action Hs Ha.
  all: assert (Hstop : ∀ w, triple X R (committed;; m ← cview instance_next_maturation ≫= clift; mret (MkDrive firings w false m) : CM' DriveOutcome)
         (λ _ _, True) (λ _, X)) by (intros w; repeat tstep).
  all: assert (Hact : ∀ act rest, valid_action act → (∀ R', triple X R' rest (λ _ _, True) (λ _, X)) →
         triple X R (before ← cview (λ s, length (history s)); r ← apply_action act;
           let '(fs, proposal, applied) := r in
           if (applied : bool) then
             after ← cview (λ s, length (history s));
             (if is_delivery act && (after =? before)%nat then mret tt else committed);;
             (match proposal with Some sp => install_selection sp | None => mret tt end);;
             cset (with_previous (Some act));;
             m ← cview instance_next_maturation ≫= clift;
             mret (MkDrive (firings ++ fs) false true m)
           else rest : CM' DriveOutcome) (λ _ _, True) (λ _, X)).
  1,3: intros act rest Hv Hrest; tstep; (eapply t_bind; [by apply t_apply|]); intros [[fs proposal] []]; [|apply Hrest]; tstep;
    (apply (t_bind _ _ _ _ (λ _ _, True) (λ _, X)); [case_match; tstep|]); intros [];
    (apply (t_bind _ _ _ _ (λ _ _, True) (λ _, X)); [case_match; [apply t_install|tstep]|]); intros []; repeat tstep.
  - destruct action; simpl; try apply Hstop; apply Hact; try done; intros R'; tstep.
  - assert (Hagain : ∀ act R', triple X R' (let s := MkSnapshot (filter (λ a, a ≠ act) (sn_actions s)) (sn_in_flight s) (sn_previous s) in
              action ← choose policy s; drive_loop fuel policy firings s action : CM' DriveOutcome) (λ _ _, True) (λ _, X)).
    { intros act R'. cbv zeta. assert (Hs' : Forall valid_action (filter (λ a, a ≠ act) (sn_actions s))).
      { apply Forall_forall. intros a [_ Hin]%list_elem_of_filter. rewrite Forall_forall in Hs. auto. }
      eapply t_bind; [by apply t_choose|]. intros a. apply (t_fact _ (valid_action a)); [done|]. intros Hv. by apply IH. }
    destruct action; simpl; try apply Hstop; apply Hact; try done; intros R'; apply Hagain.
Qed.

(** What is known of the Activities in flight: before reconciliation, only that
    no outcome handed over is missing; after it, that each is in custody. *)
Definition standing (c : Coord) : Prop := covered met (λ p, p.2 = false ∧ co_reconciled c = false) c.

(** A drive after the first keeps custody; the first restores it. *)
Lemma t_drive policy selection (c : Coord) r c' : drive policy selection c = (r, c') → cinv c →
  cinv c' ∧ isteps (co_instance c) (co_instance c') ∧
  ∀ out, r = Ok out → standing c → covered met (λ _, False) c'.
Proof.
  intros E Hc. unfold standing. destruct (co_reconciled c) eqn:Hrec.
  - assert (Ht : triple (λ _, False) (λ _, True) (snapshot ← observe_turn selection; action ← choose policy snapshot;
        drive_loop (length (sn_actions snapshot)) policy [] snapshot action : CM' DriveOutcome) (λ _ _, True) (λ _ _, False)).
    { eapply t_bind; [apply t_observe|]. intros s. apply (t_fact _ (Forall valid_action (sn_actions s))); [done|]. intros Hs.
      eapply t_bind; [by apply t_choose|]. intros a. apply (t_fact _ (valid_action a)); [done|]. intros Ha. by apply t_drive_loop. }
    unfold drive in E. unfold mbind at 1, CM_bind at 1, cget in E. rewrite Hrec in E.
    unfold mbind at 1, CM_bind at 1 in E. simpl in E. destruct (Ht _ _ _ E Hc I) as (? & ? & Ho). split; [done|]. split; [done|].
    intros out Eo [C1 C2 C3]. apply (Ho out Eo). split; [| |done].
    + intros o Hopen. destruct (C1 o Hopen) as [?|[?|[_ ?]]]; auto; done.
    + intros o Hopen Hh. destruct (C2 o Hopen Hh) as [?|[?|[_ ?]]]; auto; done.
  - assert (Ht : triple (λ p, p.2 = false) (λ _, True) (firings ← (cset with_reconciled;; fs ← reconcile; committed;; mret fs);
        snapshot ← observe_turn selection; action ← choose policy snapshot;
        drive_loop (length (sn_actions snapshot)) policy firings snapshot action : CM' DriveOutcome) (λ _ _, True) (λ _ _, False)).
    { eapply t_bind.
      { tstep. eapply t_bind; [apply t_reconcile|]. intros fs. do 2 tstep. }
      intros fs. eapply t_bind; [eapply t_pre; [|apply t_observe]; done|]. intros s. apply (t_fact _ (Forall valid_action (sn_actions s))); [done|]. intros Hs.
      eapply t_bind; [by apply t_choose|]. intros a. apply (t_fact _ (valid_action a)); [done|]. intros Ha. by apply t_drive_loop. }
    unfold drive in E. unfold mbind at 1, CM_bind at 1, cget in E. rewrite Hrec in E.
    destruct (Ht _ _ _ E Hc I) as (? & ? & Ho). split; [done|]. split; [done|].
    intros out Eo [C1 C2 C3]. apply (Ho out Eo). split; [| |done].
    + intros o Hopen. destruct (C1 o Hopen) as [?|[?|[? _]]]; auto.
    + intros o Hopen Hh. destruct (C2 o Hopen Hh) as [?|[?|[? _]]]; auto; done.
Qed.

(** Of a provider that may have met anything before, nothing is asked before
    reconciliation, and what it handed over is not counted. *)
Lemma covered_met (X : Z * bool → Prop) (c : Coord) : (∀ o, met o) →
  (∀ o, open_activity (live (co_instance c)) o → owes (co_dispatch c) o ∨ o ∈ (co_arrived c).*1 ∨ X (o, false)) → covered met X c.
Proof. intros Hm Ho. by split; auto. Qed.

Lemma standing_met (c : Coord) : (∀ o, met o) →
  (co_reconciled c = true → ∀ o, open_activity (live (co_instance c)) o → owes (co_dispatch c) o ∨ o ∈ (co_arrived c).*1) → standing c.
Proof.
  intros Hm Ho. apply covered_met; [done|]. intros o Hopen. simpl. destruct (co_reconciled c); [|auto].
  destruct (Ho eq_refl o Hopen); auto.
Qed.

Lemma standing_custody (c : Coord) : standing c → co_reconciled c = true →
  ∀ o, open_activity (live (co_instance c)) o → owes (co_dispatch c) o ∨ o ∈ (co_arrived c).*1.
Proof. intros [C _ _] Hr o Ho. rewrite Hr in C. destruct (C o Ho) as [?|[?|[_ ?]]]; auto; done. Qed.

Lemma covered_custody (c : Coord) : covered met (λ _, False) c →
  ∀ o, open_activity (live (co_instance c)) o → owes (co_dispatch c) o ∨ o ∈ (co_arrived c).*1.
Proof. intros [C _ _] o Ho. destruct (C o Ho) as [?|[?|?]]; auto; done. Qed.

Lemma covered_standing (c : Coord) : covered met (λ _, False) c → standing c.
Proof.
  intros [C1 C2 C3]. split; [| |done].
  - intros o Ho. destruct (C1 o Ho) as [?|[?|[]]]; auto.
  - intros o Ho Hh. destruct (C2 o Ho Hh) as [?|[?|[]]]; auto.
Qed.
End steps.

(** Nothing is asked of what the provider met before. *)
Definition anything (o : Z) : Prop := True.

Lemma anything_met o : anything o.
Proof. exact I. Qed.
