(* ===== verification/DriveTheorems.v ===== *)
(** * Driving an Instance

    Custody across drives, what a resting drive means, and the promises of the
    shipped driving policies. *)

From stdpp Require Import base gmap sets list strings pretty sorting.
From Stdlib Require Import ZArith Lia.
From S2P Require Import Prelude PyData Schema Marking Enabledness Firing Activity Records Replay Lifecycle Selection Instance Dispatch Construction Commit Invariant Operations Soundness Reachability Scenario Coordination Driving DriveInvariant DriveSteps.
Open Scope string_scope.
Open Scope list_scope.
Open Scope Z_scope.

(** ** The policies *)

Lemma find_Some_elem {A} (p : A → bool) l a : find p l = Some a → a ∈ l ∧ p a = true.
Proof. intros [? ?]%find_some. split; [by apply list_elem_of_In|done]. Qed.

Lemma find_None_elem {A} (p : A → bool) l a : find p l = None → a ∈ l → p a = false.
Proof. intros Hf Ha%list_elem_of_In. by eapply find_none. Qed.

Lemma find_is_Some {A} (p : A → bool) l a : a ∈ l → p a = true → ∃ b, find p l = Some b.
Proof. intros Ha Hp. destruct (find p l) eqn:E; [eauto|]. by rewrite (find_None_elem _ _ _ E Ha) in Hp. Qed.

(** How the conservative policy ranks the offers. *)
Record ranked (s : Snapshot) (a : Action) : Prop := {
  rk_offered : a ∈ sn_actions s;
  rk_result b : b ∈ sn_actions s → is_result b = true → is_result a = true;
  rk_interrupt b : b ∈ sn_actions s → is_delivery b = true → after_delivery s = false → is_result a = true ∨ is_delivery a = true;
  rk_alternate b : b ∈ sn_actions s → is_candidate b = true ∨ is_time b = true → Wait ∉ sn_actions s →
    after_delivery s = true → is_delivery a = false;
  rk_one_at_a_time : Wait ∈ sn_actions s → is_candidate a = false ∧ is_time a = false;
  rk_wait : a = Wait → ∀ b, b ∈ sn_actions s → is_result b = false ∧ is_delivery b = false;
  rk_stop : a = Stop → ∀ b, b ∈ sn_actions s → b = Stop
}.

(** Either the first offer of a kind, or the absence of the kind. *)
Lemma find_cases (p : Action → bool) l :
  (∃ a, find p l = Some a ∧ a ∈ l ∧ p a = true) ∨ (find p l = None ∧ ∀ b, b ∈ l → p b = false).
Proof. destruct (find p l) eqn:E; [left; eapply find_Some_elem in E; eauto|right; split; [done|]; intros b; by apply find_None_elem]. Qed.

(** Use what is known of every kind on the actions at hand. *)
Ltac kinds :=
  repeat match goal with
  | a : Action |- _ => destruct a; simpl in *; try discriminate
  end;
  repeat match goal with
  | N : ∀ b, b ∈ ?l → _ b = false, Hb : ?x ∈ ?l |- _ => first [discriminate (N x Hb) | fail 1]
  end; try solve [done | by left | by right | tauto | congruence | naive_solver discriminate].

Ltac settle := match goal with E : _ = Ok _ |- _ => idtac | _ => split; intros; kinds end.

Lemma conservative_ranked s a : choose_conservative s = Ok a → ranked s a.
Proof.
  unfold choose_conservative, first_of. intros E.
  destruct (find_cases is_result (sn_actions s)) as [(r & Hr & ? & ?)|[Hr Nr]]; rewrite Hr in E.
  { injection E as <-. settle. }
  destruct (find_cases is_wait (sn_actions s)) as [(w & Hw & ? & ?)|[Hw Nw]],
           (find_cases is_delivery (sn_actions s)) as [(d & Hd & ? & ?)|[Hd Nd]]; rewrite Hw, Hd in E;
  destruct (after_delivery s) eqn:Hprev; simplify_eq/=.
  all: settle.
  all: destruct (find_cases is_candidate (sn_actions s)) as [(x & Hx & ? & ?)|[Hx Nx]]; rewrite Hx in E; simplify_eq/=; settle.
  all: destruct (find_cases is_time (sn_actions s)) as [(y & Hy & ? & ?)|[Hy Ny]]; rewrite Hy in E; simplify_eq/=; settle.
  all: destruct (find_cases is_stop (sn_actions s)) as [(z & Hz & ? & ?)|[Hz Nz]]; rewrite Hz in E; simplify_eq/=; settle.
Qed.

Lemma conservative_answers s : Stop ∈ sn_actions s → ∃ a, choose_conservative s = Ok a.
Proof.
  intros Hs. unfold choose_conservative. destruct (find_is_Some is_stop _ _ Hs eq_refl) as [b Hb]. rewrite Hb.
  repeat case_match; eauto.
Qed.

Lemma throughput_answers s : Stop ∈ sn_actions s → ∃ a, choose_throughput s = Ok a.
Proof.
  intros Hs. unfold choose_throughput, first_of. destruct (find_is_Some is_stop _ _ Hs eq_refl) as [b Hb]. rewrite Hb.
  repeat case_match; simplify_eq; eauto.
Qed.

Lemma throughput_offered s a : choose_throughput s = Ok a → a ∈ sn_actions s.
Proof.
  unfold choose_throughput, first_of. intros E.
  repeat (case_match; simplify_eq/=; try (by eapply find_Some_elem)).
Qed.

(** The conservative policy always answers one of the offered
    actions: an arrived result before anything else, then a pending delivery
    unless one was just accepted, and never two deliveries in a row while a
    candidate or a timer could go ahead; with a result outstanding it begins
    nothing; it waits only when no result and no delivery is offered, and stops
    only when nothing else is. The throughput policy too answers an offered
    action, and never begins a candidate that consumes what an occurrence in
    flight consumed. *)
Theorem shipped_policies_are_sound s : Stop ∈ sn_actions s →
  (∃ a, choose_conservative s = Ok a ∧ ranked s a) ∧
  ∃ a, choose_throughput s = Ok a ∧ a ∈ sn_actions s ∧
    ∀ b sp, a = BeginCandidate b sp →
      ∀ v x y, v ∈ sn_in_flight s → x ∈ selected_tokens (b_consumed b) → y ∈ selected_tokens (v_consumed v) → placed_eqb x y = false.
Proof.
  intros Hs. split.
  { destruct (conservative_answers s Hs) as [a Ha]. exists a. split; [done|by apply conservative_ranked]. }
  destruct (throughput_answers s Hs) as [a Ha]. exists a. split; [done|]. split; [by apply throughput_offered|].
  intros b sp -> v x y Hv Hx Hy. unfold choose_throughput, first_of in Ha.
  set (spent := selected_tokens _) in Ha.
  assert (Hno : collides spent (BeginCandidate b sp) = false).
  { destruct (find is_delivery _) as [d|] eqn:Hd; [destruct (after_delivery s)|];
      try (injection Ha as ->; by apply find_Some_elem in Hd as [_ ?]);
      (destruct (find (λ a, is_candidate a && negb (collides spent a)) (sn_actions s)) as [z|] eqn:Hz;
       [injection Ha as ->; apply find_Some_elem in Hz as [_ Hz]; simpl in Hz; by apply negb_true_iff in Hz|]);
      repeat (case_match; simplify_eq/=; try match goal with E : find _ _ = Some _ |- _ => apply find_Some_elem in E as [_ E]; discriminate E end). }
  apply not_true_iff_false. intros Hxy. rewrite <-not_true_iff_false in Hno. apply Hno. simpl.
  apply existsb_exists. exists x. split; [by apply list_elem_of_In|]. apply existsb_exists. exists y. split; [|done].
  apply list_elem_of_In. unfold spent, selected_tokens in *. apply list_elem_of_bind in Hy as (sel & Hy & Hsel).
  apply list_elem_of_bind. exists sel. split; [done|]. apply list_elem_of_bind. by exists v.
Qed.

Lemma shipped_policies_are_sound_witness :
  let b := MkBinding ["go"] [(["in"], [MkToken None DNone])] [] [] in
  let offer := BeginCandidate b (MkProposal b DNone DNone) in
  let s := MkSnapshot [offer; Wait; Stop] [MkView 1 ["go"] [(["in"], [MkToken None DNone])] true] None in
  choose_throughput s = Ok Wait ∧ ∃ a, choose_conservative s = Ok a ∧ ranked s a.
Proof.
  intros b offer s. split; [vm_compute; reflexivity|]. apply shipped_policies_are_sound. unfold s. simpl. set_solver.
Defined.

(** ** What an observation offers *)

Section observation.
  Context {D K P : Type} `{HD : Dispatch D} `{HK : Clock K} `{HP : SelectionPolicy P}.
  Notation Coord := (Coordinator D K).
  Notation CM' := (CM D K).

Lemma cbind_Ok {A B} (m : CM' A) (f : A → CM' B) c b c' :
  (m ≫= f) c = (Ok b, c') → ∃ a c1, m c = (Ok a, c1) ∧ f a c1 = (Ok b, c').
Proof. unfold mbind, CM_bind. destruct (m c) as [[a|e] c1]; [eauto|done]. Qed.

Definition results (l : list Arrival) : list Action := (λ a : Arrival, AcceptResult a.1 a.2) <$> l.
Definition timers (m : option Instant) : list Action := match m with Some m => [AdvanceTime m] | None => [] end.

(** The offers of a snapshot, from the state the observation leaves. *)
Record snapshot_of (sel : P) (s : Snapshot) (c : Coord) (cands : list Action) (m : option Instant) : Prop := {
  so_actions : sn_actions s = results (co_arrived c) ++ cands ++ timers m
    ++ offer_deliveries (armed_view (live (co_instance c))) (co_deliveries c)
    ++ (if existsb (outstanding (co_arrived c) (live (co_instance c))) (dvals (in_flight (live (co_instance c)))) then [Wait] else [])
    ++ [Stop];
  so_time : instance_next_maturation (co_instance c) = Ok m;
  so_candidate : ∃ enabled, instance_candidates (co_instance c) = Ok enabled ∧
    ((cands = [] ∧ (enabled = [] ∨ propose sel enabled (co_selection_state c) = Ok None)) ∨
     ∃ sp, cands = [BeginCandidate (sp_binding sp) sp] ∧ propose sel enabled (co_selection_state c) = Ok (Some sp))
}.

Lemma resolve_frame ids l : ∀ (c : Coord) k c', cfor l (resolve_arrival ids) c = (Ok k, c') →
  in_flight (live (co_instance c')) = in_flight (live (co_instance c)).
Proof.
  induction l as [|[o t] l IH]; intros c k c' E; simpl in E; [by injection E as _ <-|].
  apply cbind_Ok in E as (x & c1 & E1 & E). apply cbind_Ok in E as (y & c2 & E2 & E). injection E as _ <-.
  rewrite (IH _ _ _ E2). unfold resolve_arrival in E1. case_bool_decide; [by injection E1 as _ <-|].
  apply cbind_Ok in E1 as (d & c3 & [= <- <-] & E1). destruct (dget o (co_dispatched c)) as [occ|]; [|done].
  apply cbind_Ok in E1 as (i & c4 & Ei & E1). apply cbind_Ok in E1 as (u & c5 & Eu & [= _ <-]).
  assert (H4 : co_instance c4 = co_instance c)
    by (unfold clock_now in Ei; destruct (now (co_clock c)); by injection Ei as _ <-).
  rewrite <-H4. destruct t; unfold inst in Eu;
    match type of Eu with (let '(_, _) := ?m ?s in _) = _ => destruct (m s) as [r s'] eqn:Em end; injection Eu as _ <-; simpl;
    [by eapply flight_record_completion|by eapply flight_record_failure].
Qed.

Lemma sense_frame (c : Coord) u c' : sense c = (Ok u, c') →
  co_instance c' = co_instance c ∧ co_arrived c' = co_arrived c ∧ co_selection_state c' = co_selection_state c.
Proof.
  unfold sense, ask_sensor. intros E. apply cbind_Ok in E as (l & c1 & [= <- <-] & E).
  apply cbind_Ok in E as (ds & c2 & [= <- <-] & E). apply cbind_Ok in E as (sn & c3 & [= <- <-] & E).
  destruct (co_deliveries c); [|by injection E as _ <-]. destruct (co_sensor c) as [answers|]; [|by injection E as _ <-].
  case_bool_decide; [by injection E as _ <-|]. apply cbind_Ok in E as (v & c4 & [= <- <-] & E).
  apply cbind_Ok in E as (w & c5 & Ew & E). apply cbind_Ok in E as (z & c6 & Ez & [= _ <-]).
  unfold clift in *. by injection Ew as _ <-; injection Ez as _ <-.
Qed.

Lemma offer_frame sel (c : Coord) cands c' : offer_candidate sel c = (Ok cands, c') →
  c' = c ∧ ∃ enabled, instance_candidates (co_instance c) = Ok enabled ∧
    ((cands = [] ∧ (enabled = [] ∨ propose sel enabled (co_selection_state c) = Ok None)) ∨
     ∃ sp, cands = [BeginCandidate (sp_binding sp) sp] ∧ propose sel enabled (co_selection_state c) = Ok (Some sp)).
Proof.
  unfold offer_candidate. intros E. apply cbind_Ok in E as (enabled & c1 & E1 & E). injection E1 as He <-.
  destruct enabled as [|b bs]; [injection E as <- <-; split; [done|]; exists []; auto|].
  apply cbind_Ok in E as (st & c2 & [= <- <-] & E). apply cbind_Ok in E as (prop & c3 & E3 & E). injection E3 as Hp <-.
  destruct prop as [sp|]; [|injection E as <- <-; split; [done|]; exists (b :: bs); auto].
  apply cbind_Ok in E as (u & c4 & E4 & E). apply cbind_Ok in E as (v & c5 & E5 & E).
  unfold clift in E4, E5. injection E4 as _ <-. injection E5 as _ <-. injection E as <- <-.
  split; [done|]. exists (b :: bs). split; [done|]. right. by exists sp.
Qed.

Lemma observe_snapshot sel (c : Coord) s c' : observe_turn sel c = (Ok s, c') → ∃ cands m, snapshot_of sel s c' cands m.
Proof.
  unfold observe_turn. intros E. apply cbind_Ok in E as (held & c1 & [= <- <-] & E).
  apply cbind_Ok in E as (arrivals & c2 & E2 & E). apply cbind_Ok in E as (u & c3 & [= <- <-] & E).
  apply cbind_Ok in E as (arrived & c4 & [= <- <-] & E). apply cbind_Ok in E as (remaining & c5 & E5 & E).
  apply cbind_Ok in E as (u2 & c6 & [= <- <-] & E). apply cbind_Ok in E as (cands & c7 & E7 & E).
  apply offer_frame in E7 as (-> & enabled & Hen & Hcands). apply cbind_Ok in E as (m & c8 & E8 & E). injection E8 as Hm <-.
  apply cbind_Ok in E as (l & c9 & [= <- <-] & E). apply cbind_Ok in E as (u3 & c10 & E10 & E).
  apply sense_frame in E10 as (Hi & Ha & Hst). apply cbind_Ok in E as (ds & c11 & [= <- <-] & E).
  apply cbind_Ok in E as (pr & c12 & [= <- <-] & [= <- <-]).
  assert (Hf : in_flight (live (co_instance c5)) = in_flight (live (co_instance c))).
  { rewrite (resolve_frame _ _ _ _ _ E5). simpl. unfold prov in E2. destruct (collect (co_dispatch c)). by injection E2 as _ <-. }
  exists cands, m. split; simpl.
  - rewrite Ha, Hi. simpl. by rewrite Hf.
  - by rewrite Hi.
  - exists enabled. rewrite Hi, Hst. done.
Qed.
End observation.

(** ** A resting drive *)

Section resting.
  Context {D K P : Type} `{HL : LawfulDispatch D} `{HK : Clock K} `{HP : SelectionPolicy P}.
  Notation Coord := (Coordinator D K).
  Notation CM' := (CM D K).

Definition same_view (c c' : Coord) : Prop :=
  co_instance c' = co_instance c ∧ co_dispatch c' = co_dispatch c ∧ co_arrived c' = co_arrived c ∧
  co_deliveries c' = co_deliveries c ∧ co_selection_state c' = co_selection_state c.

Lemma committed_view (c : Coord) u c' : committed c = (Ok u, c') → same_view c c'.
Proof. unfold committed. destruct (co_commit c) as [[|[] ]|]; intros [= _ <-]; done. Qed.

Lemma apply_declined a (c : Coord) fs p c' : apply_action a c = (Ok (fs, p, false), c') →
  same_view c c' ∧ ∃ m, a = AdvanceTime m ∧ (observe m (co_clock c)).1 = None.
Proof.
  destruct a; simpl; try done; intros E; apply cbind_Ok in E as (x & c1 & E1 & E); injection E; try done.
  intros <- -> _ _. unfold apply_time in E1. apply cbind_Ok in E1 as (o & c2 & E2 & E1).
  destruct (observe instant (co_clock c)) as [ob k] eqn:Ho. injection E2 as <- <-.
  destruct ob as [ob|].
  - apply cbind_Ok in E1 as (? & ? & ? & E1). apply cbind_Ok in E1 as (? & ? & ? & E1). by injection E1.
  - injection E1 as <-. split; [done|]. exists instant. split; [done|]. by rewrite Ho.
Qed.

(** The loop of a conservative drive that applied nothing. *)
Lemma loop_rests fuel : ∀ firings s action (c : Coord) out c',
  drive_loop fuel choose_conservative firings s action c = (Ok out, c') → choose_conservative s = Ok action → do_ready out = false →
  same_view c c' ∧
  (do_waiting out = true → Wait ∈ sn_actions s) ∧
  (do_waiting out = false → ∀ b, b ∈ sn_actions s → b = Stop ∨ ∃ m k, b = AdvanceTime m ∧ (observe m k).1 = None).
Proof.
  induction fuel as [|fuel IH]; intros firings s action c out c' E Hch Hrd.
  all: pose proof (conservative_ranked _ _ Hch) as Hrk.
  all: assert (Hrest : ∀ w, (committed;; m ← cview instance_next_maturation ≫= clift; mret (MkDrive firings w false m) : CM' DriveOutcome) c = (Ok out, c') →
         same_view c c' ∧ do_waiting out = w)
    by (intros w Ew; apply cbind_Ok in Ew as (u & c1 & E1 & Ew); apply cbind_Ok in Ew as (m & c2 & E2 & Ew);
        injection E2 as _ <-; injection Ew as <- <-; split; [by eapply committed_view|done]).
  all: assert (Hact : ∀ act rest, (before ← cview (λ s, length (history s)); r ← apply_action act;
           let '(fs, proposal, applied) := r in
           if (applied : bool) then
             after ← cview (λ s, length (history s));
             (if is_delivery act && (after =? before)%nat then mret tt else committed);;
             (match proposal with Some sp => install_selection sp | None => mret tt end);;
             cset (with_previous (Some act));;
             m ← cview instance_next_maturation ≫= clift;
             mret (MkDrive (firings ++ fs) false true m)
           else rest : CM' DriveOutcome) c = (Ok out, c') →
         ∃ c1 m, same_view c c1 ∧ act = AdvanceTime m ∧ (observe m (co_clock c)).1 = None ∧ rest c1 = (Ok out, c')).
  1,3: intros act rest Ea; apply cbind_Ok in Ea as (b & c1 & [= <- <-] & Ea); apply cbind_Ok in Ea as ([[fs p] ap] & c1 & E1 & Ea);
    destruct ap; [|apply apply_declined in E1 as (Hv & m & -> & Hm); by exists c1, m];
    do 5 (apply cbind_Ok in Ea as (? & ? & ? & Ea)); injection Ea as <- _; done.
  all: destruct action; try (apply Hact in E as (c1 & m & Hv & [= <-] & Hm & E)); try discriminate E;
    try (apply Hrest in E as [Hv Hw]; split; [done|]; rewrite Hw; split; [intros _; apply (rk_offered _ _ Hrk)|done]);
    try (apply Hrest in E as [Hv Hw]; split; [done|]; rewrite Hw; split; [done|]; intros _ b Hb; left; by apply (rk_stop _ _ Hrk)).
  apply cbind_Ok in E as (a & c2 & E2 & E). unfold choose in E2. apply cbind_Ok in E2 as (a' & c3 & E3 & E2). injection E3 as Ha' <-.
  apply cbind_Ok in E2 as (u & c4 & E4 & E2). injection E4 as _ <-. injection E2 as <- <-.
  destruct (IH _ _ _ _ _ _ E Ha' Hrd) as (Hv' & Hw & Hs). simpl in *. split.
  { destruct Hv as (? & ? & ? & ? & ?), Hv' as (? & ? & ? & ? & ?). split_and!; congruence. }
  split; [intros H1%Hw; by apply list_elem_of_filter in H1 as [_ ?]|]. intros H1 b Hb.
  destruct (decide (b = AdvanceTime instant)) as [->|Hne]; [right; eauto|]. apply Hs; [done|]. by apply list_elem_of_filter.
Qed.

Lemma outstanding_open (c : Coord) o : cinv c →
  (∃ occ, dget o (in_flight (live (co_instance c))) = Some occ ∧ outstanding (co_arrived c) (live (co_instance c)) occ = true) ↔
  open_activity (live (co_instance c)) o ∧ o ∉ (co_arrived c).*1.
Proof.
  intros Hc. unfold outstanding, impure. split.
  - intros (occ & Hin & Ho). rewrite !andb_true_iff, !negb_true_iff, bool_decide_eq_true, !bool_decide_eq_false in Ho.
    destruct Ho as [[Hinv Ha] Hp]. destruct (ok_in_flight _ _ (cinv_ok _ Hc) _ _ Hin) as [Hid _]. subst o. split; [|done].
    exists occ. split_and!; try done. destruct (dget (occ_id occ) (frozen_results _)) as [t|] eqn:Hf; [|done]. destruct Hp.
    apply list_elem_of_fmap. exists occ. split; [done|]. unfold projection_pending. apply list_elem_of_filter.
    split; [apply Is_true_true, dmem_true, dget_is_Some; by rewrite Hf|].
    apply list_elem_of_fmap. exists (occ_id occ, occ). split; [done|]. by apply dget_elem_of.
  - intros [Ho Ha]. pose proof Ho as (occ & Hin & Hinv & Hf). exists occ. split; [done|].
    destruct (open_pending _ _ _ (ci_reachable _ Hc) Ho Hin) as [-> Hnp].
    by rewrite bool_decide_true, !bool_decide_false.
Qed.

Lemma outstanding_exists (c : Coord) : cinv c →
  existsb (outstanding (co_arrived c) (live (co_instance c))) (dvals (in_flight (live (co_instance c)))) = true ↔
  ∃ o, open_activity (live (co_instance c)) o ∧ o ∉ (co_arrived c).*1.
Proof.
  intros Hc. rewrite existsb_exists. split.
  - intros (occ & Hin & Ho). apply list_elem_of_In, list_elem_of_fmap in Hin as ([o occ'] & -> & Hin). simpl in Ho.
    exists o. apply (outstanding_open c o Hc). exists occ'. split; [|done].
    apply elem_of_dget; [apply (ok_in_flight_keys _ _ (cinv_ok _ Hc))|done].
  - intros (o & Ho). apply (outstanding_open c o Hc) in Ho as (occ & Hin & Ho). exists occ. split; [|done].
    apply list_elem_of_In, list_elem_of_fmap. exists (o, occ). split; [done|]. by apply dget_elem_of.
Qed.
Lemma offers_deliveries armed ds b : b ∈ offer_deliveries armed ds → is_delivery b = true.
Proof. induction ds as [|[n d] ds IH]; simpl; [set_solver|]. destruct (dmem _ _); [|set_solver]. intros [->|?]%elem_of_cons; auto. Qed.

Lemma snapshot_wait sel s (c : Coord) cands m : snapshot_of sel s c cands m → Wait ∈ sn_actions s →
  existsb (outstanding (co_arrived c) (live (co_instance c))) (dvals (in_flight (live (co_instance c)))) = true.
Proof.
  intros [Hact _ (enabled & _ & Hcd)] Hw. destruct (existsb _ _) eqn:Hx; [done|]. exfalso. rewrite Hact in Hw.
  apply elem_of_app in Hw as [Hw|Hw]; [apply list_elem_of_fmap in Hw as (? & ? & _); done|].
  apply elem_of_app in Hw as [Hw|Hw]; [destruct Hcd as [[-> _]|(sp & -> & _)]; set_solver|].
  apply elem_of_app in Hw as [Hw|Hw]; [destruct m; set_solver|].
  apply elem_of_app in Hw as [Hw|Hw]; [by apply offers_deliveries in Hw|set_solver].
Qed.

Lemma snapshot_idle sel s (c : Coord) cands m : snapshot_of sel s c cands m →
  (∀ b, b ∈ sn_actions s → b = Stop ∨ ∃ m k, b = AdvanceTime m ∧ (observe (K := K) m k).1 = None) →
  co_arrived c = [] ∧ cands = [] ∧ offer_deliveries (armed_view (live (co_instance c))) (co_deliveries c) = [] ∧
  existsb (outstanding (co_arrived c) (live (co_instance c))) (dvals (in_flight (live (co_instance c)))) = false ∧
  (m = None ∨ ∃ i k, m = Some i ∧ (observe (K := K) i k).1 = None).
Proof.
  intros [Hact _ (enabled & _ & Hcd)] Hs. rewrite Hact in Hs.
  assert (Hno : ∀ l b, (∀ x, x ∈ b :: l → x = Stop ∨ ∃ m k, x = AdvanceTime m ∧ (observe (K := K) m k).1 = None) →
            is_stop b = false → is_time b = false → False).
  { intros l b Hb H1 H2. destruct (Hb b) as [->|(i & k & -> & _)]; [by left|done|done]. }
  set (W := existsb _ _) in *. split_and!.
  - destruct (co_arrived c) as [|x l]; [done|]. exfalso. eapply (Hno [] (AcceptResult x.1 x.2)); [|done|done].
    intros y Hy. apply Hs. unfold results. csimpl. set_solver.
  - destruct Hcd as [[-> _]|(sp & -> & _)]; [done|]. exfalso. eapply (Hno [] (BeginCandidate (sp_binding sp) sp)); [|done|done].
    intros x Hx. apply Hs. set_solver.
  - destruct (offer_deliveries _ _) as [|x l] eqn:Ed; [done|]. exfalso.
    assert (Hx : is_delivery x = true) by (eapply offers_deliveries; rewrite Ed; by left).
    eapply (Hno [] x); [|by destruct x|by destruct x]. intros y Hy. apply Hs. set_solver.
  - destruct W; [|done]. exfalso. eapply (Hno [] Wait); [|done|done]. intros x Hx. apply Hs. set_solver.
  - destruct m as [i|]; [|by left]. right. destruct (Hs (AdvanceTime i)) as [?|(i' & k & [= <-] & Hk)]; [set_solver|done|eauto].
Qed.

(** ** Histories of drives *)

(** A coordinator over a reachable instance, driven without an exception while
    the provider's workers make progress of their own. *)
Inductive driven (policy : DrivingPolicy) (sel : P) : Coord → Prop :=
| driven_init s d k sensor commit c :
    reachable s → provider_ok d → (∀ o, fenced d o → is_Some (dget o (cancelled (live s)))) →
    Coordinator_init s d sel k sensor commit = Ok c → driven policy sel c
| driven_drive c out c' : driven policy sel c → drive policy sel c = (Ok out, c') → driven policy sel c'
| driven_workers c d' :
    driven policy sel c → provider_ok d' → (∀ q, owes (co_dispatch c) q → owes d' q) →
    (∀ q, fenced d' q → fenced (co_dispatch c) q) → driven policy sel (with_dispatch d' c).

Lemma driven_inv policy sel c : driven policy sel c → cinv c ∧ standing anything c.
Proof.
  induction 1 as [s d k sensor commit c Hs Hp Hf Hi|c out c' _ [Hc Hcov] Hd|c d' _ [Hc Hcov] Hp Ho Hf].
  - unfold Coordinator_init in Hi. inv_ok. split; [by split|]. by apply standing_met; [apply anything_met|].
  - destruct (t_drive anything _ _ _ _ _ Hd Hc) as (Hc' & _ & Ha). split; [done|]. by eapply covered_standing, Ha.
  - split; [destruct Hc; split; simpl; auto|]. apply standing_met; [apply anything_met|]. simpl. intros Hr o Hopen.
    destruct (standing_custody _ _ Hcov Hr o Hopen); auto.
Qed.

(** A drive, whatever policies, clock, sensor and commit hook it runs
    with and whether it returns or raises, moves its instance by the instance's
    own operations: every state it leaves is a reachable one, with the old
    history as a prefix of the new; and it buffers only well-formed outcomes
    and fences only occurrences the history cancelled. *)
Theorem driving_keeps_the_instance_sound policy sel c r c' :
  driven policy sel c → drive policy sel c = (r, c') →
  reachable (co_instance c') ∧ history (co_instance c) `prefix_of` history (co_instance c') ∧
  Forall valid_arrival (co_arrived c') ∧
  ∀ o, fenced (co_dispatch c') o → is_Some (dget o (cancelled (live (co_instance c')))).
Proof.
  intros [Hinv _]%driven_inv E. destruct (t_drive anything _ _ _ _ _ E Hinv) as ([H1 H2 H3 H4] & Hst & _).
  split_and!; try done. clear -Hst. induction Hst as [s|s s1 s' Hs _ IH]; [done|]. etrans; [|exact IH].
  destruct Hs; unfold history; simpl; [by rewrite H|]. rewrite H0. by apply prefix_app_r.
Qed.

(** After every drive that returns, each Activity in flight is
    in custody: the provider owes its outcome, the outcome is buffered, or it
    is frozen in the history; none is ever dropped between the components. *)
Theorem activities_stay_in_custody policy sel c out c' :
  driven policy sel c → drive policy sel c = (Ok out, c') →
  ∀ o occ, dget o (in_flight (live (co_instance c'))) = Some occ → is_Some (occ_invocation occ) →
    owes (co_dispatch c') o ∨ o ∈ (co_arrived c').*1 ∨ is_Some (dget o (frozen_results (live (co_instance c')))).
Proof.
  intros [Hc Hcov]%driven_inv E o occ Hin Hinv. destruct (t_drive anything _ _ _ _ _ E Hc) as (_ & _ & Ha).
  destruct (dget o (frozen_results (live (co_instance c')))) eqn:Hf; [eauto|].
  destruct (covered_custody _ _ (Ha out eq_refl Hcov) o) as [?|?]; [by exists occ|by left|by right; left].
Qed.

(** C35: when a conservative drive returns without asking to be driven
    again, either it waits, and then the provider owes the outcome of some
    Activity in flight; or it stopped, and then no outcome is buffered or
    owed, the selection policy proposes nothing, no buffered delivery has an
    armed source, and no timer is pending that the clock says is due. *)
Theorem resting_drive_is_justified sel c out c' :
  driven choose_conservative sel c → drive choose_conservative sel c = (Ok out, c') → do_ready out = false →
  (do_waiting out = true → ∃ o, open_activity (live (co_instance c')) o ∧ owes (co_dispatch c') o) ∧
  (do_waiting out = false →
     co_arrived c' = [] ∧ (∀ o, ¬ open_activity (live (co_instance c')) o) ∧
     (∃ enabled, instance_candidates (co_instance c') = Ok enabled ∧
        (enabled = [] ∨ propose sel enabled (co_selection_state c') = Ok None)) ∧
     offer_deliveries (armed_view (live (co_instance c'))) (co_deliveries c') = [] ∧
     (instance_next_maturation (co_instance c') = Ok None ∨
      ∃ m k, instance_next_maturation (co_instance c') = Ok (Some m) ∧ (observe m k).1 = None)).
Proof.
  intros [Hc Hcov]%driven_inv E Hrd. destruct (t_drive anything _ _ _ _ _ E Hc) as (Hc' & _ & Ha). specialize (Ha out eq_refl Hcov).
  unfold drive in E. apply cbind_Ok in E as (rc & c1 & _ & E). apply cbind_Ok in E as (fs & c2 & _ & E).
  apply cbind_Ok in E as (s & c3 & E3 & E). apply cbind_Ok in E as (a & c4 & E4 & E).
  assert (c4 = c3 ∧ choose_conservative s = Ok a) as [-> Hch].
  { unfold choose in E4. apply cbind_Ok in E4 as (a' & c5 & E5 & E4). injection E5 as Ha' <-.
    apply cbind_Ok in E4 as (u & c6 & E6 & E4). injection E6 as _ <-. by injection E4 as <- <-. }
  destruct (observe_snapshot _ _ _ _ E3) as (cands & m & Hsn).
  destruct (loop_rests _ _ _ _ _ _ _ E Hch Hrd) as ((Hi & Hdp & Har & Hdl & Hss) & Hw & Hs).
  assert (Hsn' : snapshot_of sel s c' cands m).
  { destruct Hsn as [H1 H2 H3]. split; rewrite ?Hi, ?Har, ?Hdl, ?Hss; done. }
  pose proof (outstanding_exists _ Hc') as Hout. split.
  - intros Hwt%Hw. apply (snapshot_wait _ _ _ _ _ Hsn'), Hout in Hwt as (o & Ho & Hna). exists o. split; [done|].
    by destruct (covered_custody _ _ Ha o Ho).
  - intros Hst. destruct (snapshot_idle _ _ _ _ _ Hsn' (Hs Hst)) as (H1 & -> & H3 & H4 & H5). split_and!; try done.
    + intros o Ho. rewrite <-not_true_iff_false in H4. apply H4, Hout. exists o. split; [done|]. rewrite H1. set_solver.
    + destruct (so_candidate _ _ _ _ _ Hsn') as (enabled & He & [[_ ?]|(sp & ? & _)]); [|done]. by exists enabled.
    + rewrite (so_time _ _ _ _ _ Hsn'). destruct H5 as [->|(i & k & -> & Hk)]; eauto.
Qed.
End resting.

(** ** Termination *)

Lemma cbind_ext {D K A B} (m : CM D K A) (f g : A → CM D K B) c : (∀ a c, f a c = g a c) → (m ≫= f) c = (m ≫= g) c.
Proof. intros Hfg. unfold mbind, CM_bind. destruct (m c) as [[a|e] c1]; [apply Hfg|done]. Qed.

(** One unit of fuel per offer is enough: every round that applies nothing
    takes its action from the offers. *)
Lemma drive_loop_fuel {D K} `{Dispatch D} `{Clock K} (policy : DrivingPolicy) (firings : list FiringOutcome) : ∀ fuel fuel' s action (c : Coordinator D K),
  (length (sn_actions s) ≤ fuel)%nat → (length (sn_actions s) ≤ fuel')%nat → action ∈ sn_actions s →
  drive_loop fuel policy firings s action c = drive_loop fuel' policy firings s action c.
Proof.
  induction fuel as [|fuel IH]; intros [|fuel'] s action c Hf Hf' Hin; try (destruct (sn_actions s); [by apply elem_of_nil in Hin|simpl in *; lia]).
  assert (Hshort : (length (filter (λ a, a ≠ action) (sn_actions s)) < length (sn_actions s))%nat).
  { apply list_elem_of_split in Hin as (l1 & l2 & ->). rewrite filter_app, filter_cons_False by (intros Hx; by apply Hx).
    rewrite !length_app. pose proof (length_filter (λ a, a ≠ action) l1). pose proof (length_filter (λ a, a ≠ action) l2). simpl. lia. }
  set (s' := MkSnapshot (filter (λ a, a ≠ action) (sn_actions s)) (sn_in_flight s) (sn_previous s)).
  assert (Hagain : ∀ c, (a ← choose policy s'; drive_loop fuel policy firings s' a : CM D K DriveOutcome) c
                     = (a ← choose policy s'; drive_loop fuel' policy firings s' a : CM D K DriveOutcome) c).
  { intros c1. unfold mbind, CM_bind. destruct (choose policy s' c1) as [[a|e] c2] eqn:E; [|done].
    apply IH; [unfold s'; simpl; lia..|].
    unfold choose, mbind, CM_bind, clift in E. destruct (policy s') as [a'|]; [|done].
    destruct (raise_if _ _) as [[]|] eqn:Er; [|done]. apply raise_if_Ok, negb_false_iff, bool_decide_eq_true in Er.
    unfold mret, CM_ret in E. by simplify_eq. }
  destruct action; cbn [drive_loop]; try done; apply cbind_ext; intros b c1; apply cbind_ext; (intros [[fs p] []] c2;
    [done|apply Hagain]).
Qed.

(** ** A driven net *)

Definition demo_coordinator : result (Coordinator InMemoryDispatch SimulatedClock) :=
  Coordinator_init demo_start InMemory_init MkFirst (MkSimulated 5) None None.

Definition dummy_coordinator : Coordinator InMemoryDispatch SimulatedClock :=
  MkCoordinator dummy InMemory_init (MkSimulated 0) DNone None None [] [] 0 [] false None.

Notation demo_drive := (drive choose_conservative MkFirst).

(** The state after a number of drives. *)
Fixpoint drives (n : nat) (c : Coordinator InMemoryDispatch SimulatedClock) : Coordinator InMemoryDispatch SimulatedClock :=
  match n with O => c | S n => drives n (demo_drive c).2 end.

Fixpoint drives_ok (n : nat) (c : Coordinator InMemoryDispatch SimulatedClock) : bool :=
  match n with O => true | S n => is_ok (demo_drive c).1 && drives_ok n (demo_drive c).2 end.

Lemma drives_driven n : ∀ c, driven choose_conservative MkFirst c → drives_ok n c = true → driven choose_conservative MkFirst (drives n c).
Proof.
  induction n as [|n IH]; intros c Hc Hok; simpl; [done|]. simpl in Hok. apply andb_true_iff in Hok as [H1 H2].
  apply IH; [|done]. destruct (demo_drive c) as [[out|e] c'] eqn:E; [|done]. by eapply driven_drive.
Qed.

Definition demo_driven_0 : Coordinator InMemoryDispatch SimulatedClock := ok_or dummy_coordinator demo_coordinator.

Lemma demo_driven_0_driven : driven choose_conservative MkFirst demo_driven_0.
Proof.
  apply (driven_init _ _ demo_start InMemory_init (MkSimulated 5) None None).
  - apply demo_start_reachable.
  - split; constructor.
  - by intros o [? ?].
  - apply ok_or_Ok. vm_compute. reflexivity.
Qed.

(** The passthrough has fired and the Activity is dispatched. *)
Definition demo_driven_2 : Coordinator InMemoryDispatch SimulatedClock := drives 2 demo_driven_0.

Lemma demo_driven_2_driven : driven choose_conservative MkFirst demo_driven_2.
Proof. apply drives_driven; [apply demo_driven_0_driven|]. vm_compute. reflexivity. Qed.

Lemma driving_keeps_the_instance_sound_witness :
  length (history (co_instance demo_driven_2)) = 12%nat ∧ reachable (co_instance (demo_drive demo_driven_2).2).
Proof.
  split; [vm_compute; reflexivity|].
  exact (proj1 (driving_keeps_the_instance_sound choose_conservative MkFirst demo_driven_2 (demo_drive demo_driven_2).1
    (demo_drive demo_driven_2).2 demo_driven_2_driven (surjective_pairing _))).
Defined.

Lemma activities_stay_in_custody_witness :
  ∃ out c', demo_drive demo_driven_2 = (Ok out, c') ∧ ∃ occ, dget 2 (in_flight (live (co_instance c'))) = Some occ ∧
    (pool_owes (co_dispatch c') 2 ∨ 2 ∈ (co_arrived c').*1 ∨ is_Some (dget 2 (frozen_results (live (co_instance c'))))).
Proof.
  destruct (demo_drive demo_driven_2) as [[out|e] c'] eqn:E; [|vm_compute in E; discriminate].
  exists out, c'. split; [done|].
  assert (∃ occ, dget 2 (in_flight (live (co_instance c'))) = Some occ ∧ is_Some (occ_invocation occ)) as (occ & Ho & Hi).
  { assert (Hc : c' = (demo_drive demo_driven_2).2) by by rewrite E. vm_compute in Hc. rewrite Hc. vm_compute. eauto. }
  exists occ. split; [done|].
  exact (activities_stay_in_custody choose_conservative MkFirst demo_driven_2 out c' demo_driven_2_driven E 2 occ Ho Hi).
Defined.

Lemma resting_drive_is_justified_witness :
  ∃ out c', demo_drive demo_driven_2 = (Ok out, c') ∧ do_waiting out = true ∧
    ∃ o, open_activity (live (co_instance c')) o ∧ pool_owes (co_dispatch c') o.
Proof.
  destruct (demo_drive demo_driven_2) as [[out|e] c'] eqn:E; [|vm_compute in E; discriminate].
  exists out, c'. split; [done|].
  assert (do_waiting out = true ∧ do_ready out = false) as [Hw Hr].
  { assert (Hout : Ok out = (demo_drive demo_driven_2).1) by by rewrite E. vm_compute in Hout. clear E. injection Hout as ->. split; reflexivity. }
  split; [done|]. exact (proj1 (resting_drive_is_justified MkFirst demo_driven_2 out c' demo_driven_2_driven E Hr) Hw).
Defined.
