(* ===== verification/Engine.v ===== *)
(** * The Engine (src/src/petrus/engine/__init__.py)

    The live composition around one Instance: the doors a host calls, the
    guard that poisons the composition after a raising door, and the release of
    the hosting resources. Doors are called one after another from one thread,
    so the re-entry refusal and the monitor have no state here. The coming
    answers of the resource hooks are part of the state; the calls made to them
    are recorded. *)

From stdpp Require Import base gmap sets list strings.
From Stdlib Require Import ZArith Lia.
From S2P Require Import Prelude PyData Schema Marking Enabledness Firing Activity Records Replay Lifecycle Selection Instance Construction Dispatch Coordination.
Open Scope string_scope.
Open Scope list_scope.
Open Scope Z_scope.

(** ** Activity declarations *)

Record ActivityDeclaration := MkDeclaration { de_name : string; de_heartbeat_timeout : option Z }.

(** [ActivityDeclaration.__post_init__] *)
Definition ActivityDeclaration_new (name : string) (timeout : option Z) : result ActivityDeclaration :=
  raise_if (str_empty name) (ValueError "ActivityDeclaration requires a non-empty string name");;
  raise_if (match timeout with Some t => t <=? 0 | None => false end)
    (ValueError "ActivityDeclaration heartbeat_timeout must be a positive integer or None");;
  Ok (MkDeclaration name timeout).

Definition with_timeout (timeout : Z) (p : ExecutionPolicy) : ExecutionPolicy :=
  MkPolicy (attempts p) timeout (initial_interval p) (coefficient p) (max_interval p) (jitter p)
    (start_to_close p) (schedule_to_close p).

(** [_ResolvedActivityHandler]: the declared timeout replaces the prepared one;
    the projections are the handler's. *)
Definition ResolvedActivityHandler (h : ActivityHandler) (default_timeout : Z)
    (declarations : dict string ActivityDeclaration) : ActivityHandler :=
  MkActivityHandler
    (λ b,
       invocation ← prepare h b;
       let timeout := match dget (inv_activity invocation) declarations with
                      | Some d => default default_timeout (de_heartbeat_timeout d)
                      | None => default_timeout
                      end in
       let policy := with_timeout timeout (inv_policy invocation) in
       ExecutionPolicy_post_init policy;;
       let resolved := MkInvocation (inv_activity invocation) (inv_input invocation) policy
                         (inv_correlation invocation) (inv_idempotency invocation) in
       ActivityInvocation_post_init resolved;;
       Ok resolved)
    (project h) (project_failure h).

Definition resolve_handler (timeout : Z) (declarations : dict string ActivityDeclaration) (h : Handler) : Handler :=
  match h with
  | ImpureHandler h => ImpureHandler (ResolvedActivityHandler h timeout declarations)
  | PureHandler f => PureHandler f
  end.

(** ** State *)

Inductive ResourceCall := Rollback | Release | CloseResources.

(** The coming answers of the hosting hooks; one that ran out returns. *)
Record EngineResources := MkResources {
  rs_rollback : list (option exn);
  rs_release : list (option exn);
  rs_close : list (option exn);
  rs_ensure : list (option exn)
}.

Record Engine (D K : Type) := MkEngine {
  en_coordinator : Coordinator D K;
  en_resources : EngineResources;
  en_broken : option string;
  en_closed : bool;
  en_resources_closed : bool;
  en_calls : list ResourceCall
}.
Arguments MkEngine {D K}.
Arguments en_coordinator {D K}. Arguments en_resources {D K}. Arguments en_broken {D K}.
Arguments en_closed {D K}. Arguments en_resources_closed {D K}. Arguments en_calls {D K}.

Section engine.
  Context {D K P : Type} `{Dispatch D} `{Clock K} `{SelectionPolicy P}.
  Notation Eng := (Engine D K).
  Notation CM' := (CM D K).

(** ** Hosting resources *)

Definition answer (answers : list (option exn)) : result unit :=
  match answers with Some e :: _ => Err e | _ => Ok tt end.

Definition call_rollback (e : Eng) : result unit * Eng :=
  let r := en_resources e in
  (answer (rs_rollback r),
   MkEngine (en_coordinator e) (MkResources (tail (rs_rollback r)) (rs_release r) (rs_close r) (rs_ensure r))
     (en_broken e) (en_closed e) (en_resources_closed e) (en_calls e ++ [Rollback])).
Definition call_release (e : Eng) : result unit * Eng :=
  let r := en_resources e in
  (answer (rs_release r),
   MkEngine (en_coordinator e) (MkResources (rs_rollback r) (tail (rs_release r)) (rs_close r) (rs_ensure r))
     (en_broken e) (en_closed e) (en_resources_closed e) (en_calls e ++ [Release])).
Definition call_close (e : Eng) : result unit * Eng :=
  let r := en_resources e in
  (answer (rs_close r),
   MkEngine (en_coordinator e) (MkResources (rs_rollback r) (rs_release r) (tail (rs_close r)) (rs_ensure r))
     (en_broken e) (en_closed e) (en_resources_closed e) (en_calls e ++ [CloseResources])).
Definition call_ensure (e : Eng) : result unit * Eng :=
  let r := en_resources e in
  (answer (rs_ensure r),
   MkEngine (en_coordinator e) (MkResources (rs_rollback r) (rs_release r) (rs_close r) (tail (rs_ensure r)))
     (en_broken e) (en_closed e) (en_resources_closed e) (en_calls e)).

(** [try: first() finally: second()]: an exception of the second wins. *)
Definition finally_ (first second : Eng → result unit * Eng) (e : Eng) : result unit * Eng :=
  let '(r1, e) := first e in
  let '(r2, e) := second e in
  (match r2 with Err x => Err x | Ok _ => r1 end, e).

(** [Engine._close_resources] *)
Definition close_resources (e : Eng) : result unit * Eng :=
  if en_resources_closed e then (Ok tt, e)
  else
    finally_ call_release call_close
      (MkEngine (en_coordinator e) (en_resources e) (en_broken e) (en_closed e) true (en_calls e)).

(** ** The guard *)

(** [Engine._ensure_open] *)
Definition ensure_open (e : Eng) : result unit * Eng :=
  let '(r, e) := call_ensure e in
  (r;;
   raise_if (bool_decide (is_Some (en_broken e))) (RuntimeError "this Engine is poisoned after a writing door failed");;
   raise_if (en_closed e) (RuntimeError "this Engine is closed; create or load a new Engine before observing or driving"), e).

(** [Engine._guarded] *)
Definition guarded {A} (door : CM' A) (e : Eng) : result A * Eng :=
  match ensure_open e with
  | (Err x, e) => (Err x, e)
  | (Ok _, e) =>
      match door (en_coordinator e) with
      | (Ok a, c) => (Ok a, MkEngine c (en_resources e) (en_broken e) (en_closed e) (en_resources_closed e) (en_calls e))
      | (Err x, c) =>
          let e := MkEngine c (en_resources e) (Some (firing_failure_text x)) (en_closed e) (en_resources_closed e) (en_calls e) in
          let '(r, e) := finally_ call_rollback close_resources e in
          (match r with Err y => Err y | Ok _ => Err x end, e)
      end
  end.

(** [Engine._read], of a value of the instance. *)
Definition read {A} (f : Instance → result A) (e : Eng) : result A * Eng :=
  match ensure_open e with
  | (Err x, e) => (Err x, e)
  | (Ok _, e) => (f (co_instance (en_coordinator e)), e)
  end.

(** [Engine.close] *)
Definition close (e : Eng) : result unit * Eng :=
  if en_closed e then (Ok tt, e)
  else close_resources (MkEngine (en_coordinator e) (en_resources e) (en_broken e) true (en_resources_closed e) (en_calls e)).

(** ** The doors *)

(** [Engine._accept_identified_delivery] *)
Definition accept_identified (source : path_arg) (tokens : list Token) (identity : option string) (scope : DeliveryTarget)
    : CM' DeliveryAnswer :=
  identity ← clift (or_raise identity (ValueError "delivery requires a stable delivery identity"));
  before ← cview (λ s, length (history s));
  i ← clock_now;
  accepted ← inst (accept_delivery source tokens (Some i) identity scope);
  after ← cview (λ s, length (history s));
  (if (after =? before)%nat then mret tt else committed);;
  mret accepted.

(** [Engine._complete_accepted_delivery] *)
Definition complete_accepted (a : AcceptedDelivery) : CM' FiringOutcome :=
  a ← clift (AcceptedDelivery_new (ad_instance a) (APath (ad_source a)) (ad_identity a) (ad_occurrence a));
  settle_delivery a.

(** The answer of [Engine.deliver]. *)
Inductive Delivered := DeliveredFiring (f : FiringOutcome) | DeliveredAnswer (a : DeliveryAnswer).

Definition deliver_door (source : path_arg) (tokens : list Token) (identity : option string) (scope : DeliveryTarget)
    : CM' Delivered :=
  accepted ← accept_identified source tokens identity scope;
  match accepted with
  | DAccepted a => f ← complete_accepted a; committed;; mret (DeliveredFiring f)
  | answer => mret (DeliveredAnswer answer)
  end.

Definition complete_door (a : AcceptedDelivery) : CM' FiringOutcome :=
  f ← complete_accepted a; committed;; mret f.

Definition open_scope_door (name : string) : CM' LifecycleScope :=
  i ← clock_now;
  scope ← inst (open_scope name (Some i));
  committed;;
  mret scope.

(** [Engine._require_scope_cancellation] *)
Definition require_scope_cancellation (scope : LifecycleScope) : CM' unit :=
  held ← cview (λ s, dvals (in_flight (live s)));
  clift (raise_if (existsb (λ o, in_scope scope o && impure o) held && negb (supports_cancellation (D := D)))
           (TypeError "cannot close lifecycle scope with in-flight Activities: this Dispatch does not implement the recoverable cancellation extension")).

Definition close_scope_door (scope : LifecycleScope) : CM' ScopeClosure :=
  require_scope_cancellation scope;;
  i ← clock_now;
  closure ← inst (close_scope scope (Some i));
  position ← cview (λ s, Z.of_nat (length (history s)));
  committed;;
  coordinator_cancel closure position;;
  committed;;
  mret closure.

Definition reset_scope_door (scope : LifecycleScope) : CM' LifecycleScope :=
  require_scope_cancellation scope;;
  i ← clock_now;
  opened ← inst (reset_scope scope (Some i));
  position ← cview (λ s, Z.of_nat (length (history s)));
  record ← cview (λ s, last (history s));
  closure ← clift (match record with
                   | Some (ScopeReset closed _ d c _) => Ok (MkClosure closed d c)
                   | _ => Err (RuntimeError "AssertionError")
                   end);
  committed;;
  coordinator_cancel closure position;;
  committed;;
  mret opened.

Definition seal_door (source : path_arg) : CM' unit :=
  i ← clock_now;
  inst (seal source (Some i));;
  committed.

Definition advance_engine (policy : DrivingPolicy) (selection : P) : Eng → result DriveOutcome * Eng :=
  guarded (drive policy selection).
Definition deliver source tokens identity scope : Eng → result Delivered * Eng :=
  guarded (deliver_door source tokens identity scope).
Definition engine_accept_delivery source tokens identity scope : Eng → result DeliveryAnswer * Eng :=
  guarded (accept_identified source tokens identity scope).
Definition engine_complete_delivery a : Eng → result FiringOutcome * Eng := guarded (complete_door a).
Definition engine_open_scope name : Eng → result LifecycleScope * Eng := guarded (open_scope_door name).
Definition engine_close_scope scope : Eng → result ScopeClosure * Eng := guarded (close_scope_door scope).
Definition engine_reset_scope scope : Eng → result LifecycleScope * Eng := guarded (reset_scope_door scope).
Definition engine_seal source : Eng → result unit * Eng := guarded (seal_door source).

(** [Engine.status], [marking], [in_flight], [active_scopes] and [records] *)
Definition engine_status : Eng → result Status * Eng := read status.
Definition engine_marking : Eng → result Marking * Eng := read (λ s, Ok (live_marking (live s))).
Definition engine_in_flight : Eng → result (list FiringOccurrence) * Eng := read (λ s, Ok (dvals (in_flight (live s)))).
Definition engine_active_scopes : Eng → result (dict string LifecycleScope) * Eng :=
  read (λ s, Ok (active_scopes (scope_state (live s)))).
Definition engine_records : Eng → result (list HRecord) * Eng := read (λ s, Ok (history s)).

(** ** Construction *)

(** [Engine.__init__] on its success; on an exception nothing is hosted. *)
Definition Engine_init (cel : CelCompilers) (n : Net) (identity : string) (st : Store) (d : D) (create : bool)
    (m : Marking) (at_ : Instant) (im : Implementations) (selection : P) (clock : Instance → K)
    (sensor : option (list (result (option (list Delivery))))) (activities : list ActivityDeclaration) (timeout : Z)
    (commit : option (list (option exn))) (resources : EngineResources) : result Eng :=
  raise_if (timeout <=? 0) (ValueError "Engine default_heartbeat_timeout must be a positive integer");;
  let declarations := dict_of_list ((λ a, (de_name a, a)) <$> activities) in
  raise_if (negb (length declarations =? length activities)%nat)
    (ValueError "Engine Activity declarations require unique names");;
  let im := MkImpl (im_scheduler im) (im_guards im)
              ((λ sh, (sh.1, resolve_handler timeout declarations sh.2)) <$> im_handlers im) (im_filters im) (im_completions im) in
  instance ← (if create then
                raise_if (negb (bool_decide (st_records st = []))) (ValueError "cannot create Instance: canonical history already exists");;
                Instance_init cel n m im at_ st (Some identity) ""
              else
                raise_if (bool_decide (st_records st = [])) (ValueError "cannot load Instance: canonical history does not exist");;
                s ← resume cel n im st;
                raise_if (negb (bool_decide (instance_id (config s) = identity)))
                  (ValueError "cannot load Instance: storage key and recorded identity must match exactly");;
                Ok s);
  c ← Coordinator_init instance d selection (clock instance) sensor commit;
  '(r, c) ← Ok (committed c);
  r;;
  Ok (MkEngine c resources None false false []).

End engine.
