(* ===== verification/EngineTheorems.v ===== *)
(** * The Engine as a host

    Every door of an Engine keeps its Instance reachable and its Activities in
    custody; a raising door poisons the composition for good; and closing a
    lifecycle scope fences exactly the Activities it cancelled, after the close
    is durable. *)

From stdpp Require Import base gmap sets list strings pretty sorting.
From Stdlib Require Import ZArith Lia.
From S2P Require Import Prelude PyData Schema Marking Enabledness Firing Activity Records Replay Lifecycle Selection Instance Dispatch Construction Commit Invariant Operations Soundness Reachability Scenario Coordination Driving DriveInvariant DriveSteps DriveTheorems FiringTheorems Engine.
Open Scope string_scope.
Open Scope list_scope.
Open Scope Z_scope.

Section doors.
  Context {D K P : Type} `{HL : LawfulDispatch D} `{HK : Clock K} `{HP : SelectionPolicy P}.
  Notation Coord := (Coordinator D K).
  Notation Eng := (Engine D K).
  Notation CM' := (CM D K).

(** ** Only a drive reconciles *)

Definition settled {A} (m : CM' A) : Prop := ∀ c r c', m c = (r, c') → co_reconciled c' = co_reconciled c.

Lemma s_ret {A} (a : A) : settled (mret a : CM' A).
Proof. by intros c r c' [= <- <-]. Qed.
Lemma s_raise {A} e : settled (craise e : CM' A).
Proof. by intros c r c' [= <- <-]. Qed.
Lemma s_lift {A} (x : result A) : settled (clift x : CM' A).
Proof. by intros c r c' [= <- <-]. Qed.
Lemma s_get {A} (f : Coord → A) : settled (cget f : CM' A).
Proof. by intros c r c' [= <- <-]. Qed.
Lemma s_view {A} (f : Instance → A) : settled (cview f : CM' A).
Proof. by intros c r c' [= <- <-]. Qed.
Lemma s_set f : (∀ c : Coord, co_reconciled (f c) = co_reconciled c) → settled (cset f : CM' unit).
Proof. intros Hf c r c' [= <- <-]. apply Hf. Qed.
Lemma s_now : settled (clock_now : CM' Instant).
Proof. intros c r c'. unfold clock_now. destruct (now _). by intros [= <- <-]. Qed.
Lemma s_committed : settled (committed : CM' unit).
Proof. intros c r c'. unfold committed. destruct (co_commit c) as [[|[] ]|]; by intros [= <- <-]. Qed.
Lemma s_inst {A} (m : M A) : settled (inst m : CM' A).
Proof. intros c r c'. unfold inst. destruct (m _). by intros [= <- <-]. Qed.
Lemma s_prov {A} (m : D → result A * D) : settled (prov m : CM' A).
Proof. intros c r c'. unfold prov. destruct (m _). by intros [= <- <-]. Qed.
Lemma s_bind {A B} (m : CM' A) (f : A → CM' B) : settled m → (∀ a, settled (f a)) → settled (m ≫= f).
Proof.
  intros Hm Hf c r c'. unfold mbind, CM_bind. destruct (m c) as [[a|e] c1] eqn:E; intros E'.
  - rewrite (Hf _ _ _ _ E'). by eapply Hm.
  - injection E' as <- <-. by eapply Hm.
Qed.
Lemma s_try {A} (m : CM' A) h : settled m → (∀ e, settled (h e)) → settled (ctry m h).
Proof.
  intros Hm Hh c r c'. unfold ctry. destruct (m c) as [[a|e] c1] eqn:E; intros E'.
  - injection E' as <- <-. by eapply Hm.
  - rewrite (Hh _ _ _ _ E'). by eapply Hm.
Qed.
Lemma s_for {A B} (l : list A) (f : A → CM' (list B)) : (∀ a, settled (f a)) → settled (cfor l f).
Proof. intros Hf. induction l as [|a l IH]; simpl; [apply s_ret|]. apply s_bind; [done|]. intros xs. apply s_bind; [done|]. intros ys. apply s_ret. Qed.

Ltac settles :=
  repeat first
    [ apply s_ret | apply s_raise | apply s_lift | apply s_get | apply s_view | apply s_now | apply s_committed | apply s_inst | apply s_prov
    | apply s_set; by intros [] | apply s_bind; [|intros ?] | apply s_try; [|intros ?] | apply s_for; intros ?
    | progress case_match ].

Lemma s_accept src ts k sc : settled (accept_identified src ts k sc : CM' DeliveryAnswer).
Proof. unfold accept_identified. settles. Qed.
Lemma s_complete a : settled (complete_accepted a : CM' FiringOutcome).
Proof. unfold complete_accepted, settle_delivery. settles. Qed.
Lemma s_deliver src ts k sc : settled (deliver_door src ts k sc : CM' Delivered).
Proof. unfold deliver_door. apply s_bind; [apply s_accept|]. intros []; settles; apply s_complete. Qed.
Lemma s_complete_door a : settled (complete_door a : CM' FiringOutcome).
Proof. unfold complete_door. apply s_bind; [apply s_complete|]. intros f. settles. Qed.
Lemma s_open name : settled (open_scope_door name : CM' LifecycleScope).
Proof. unfold open_scope_door. settles. Qed.
Lemma s_close sc : settled (close_scope_door sc : CM' ScopeClosure).
Proof. unfold close_scope_door, require_scope_cancellation, coordinator_cancel, cancel_one. settles. Qed.
Lemma s_reset sc : settled (reset_scope_door sc : CM' LifecycleScope).
Proof. unfold reset_scope_door, require_scope_cancellation, coordinator_cancel, cancel_one. settles. Qed.
Lemma s_seal src : settled (seal_door src : CM' unit).
Proof. unfold seal_door. settles. Qed.

(** ** The doors keep custody *)

End doors.

Section door_triples.
  Context {D K P : Type} `{HL : LawfulDispatch D} `{HK : Clock K} `{HP : SelectionPolicy P}.
  Notation Coord := (Coordinator D K).
  Notation Eng := (Engine D K).
  Notation CM' := (CM D K).
  Context (met : Z → Prop).
  Notation triple := (triple met).

Lemma t_coordinator_cancel X R closure position :
  triple X R (coordinator_cancel closure position : CM' (list CancellationDisposition)) (λ _ _, True) (λ _, X).
Proof.
  unfold coordinator_cancel. apply t_sound. tstep. rename a into cancelled_.
  eapply t_pre; [|apply (t_for _ X (λ o i, ∀ occ, dget o cancelled_ = Some occ → is_Some (dget (occ_id occ) (cancelled (live i)))))].
  - intros i (-> & _ & Hr) o _ occ Ho. destruct (ok_cancelled _ _ (reachable_ok _ Hr) _ _ Ho) as (-> & _). eauto.
  - intros o s s' Hok Hst Hs occ Ho. eapply steady_cancelled; eauto.
  - intros o _. eapply t_bind; [apply t_lift|]. intros occ. destruct (occ_invocation occ); [|tstep].
    eapply t_bind; [eapply t_pre; [|apply t_cancel_one]|intros d; tstep].
    intros i [Ho%or_raise_Ok Hs]. by apply Hs.
Qed.

Lemma t_accept_identified X R src ts k sc :
  triple X R (accept_identified src ts k sc : CM' DeliveryAnswer) (λ _ _, True) (λ _, X).
Proof.
  unfold accept_identified. do 5 tstep. apply (t_bind _ _ _ _ (λ _ _, True) (λ _, X)); [case_match; tstep|intros []; tstep].
Qed.

Lemma t_complete_accepted X R a : triple X R (complete_accepted a : CM' FiringOutcome) (λ _ _, True) (λ _, X).
Proof. unfold complete_accepted. tstep. apply t_settle. Qed.

Lemma t_deliver X R src ts k sc : triple X R (deliver_door src ts k sc : CM' Delivered) (λ _ _, True) (λ _, X).
Proof.
  unfold deliver_door. eapply t_bind; [apply t_accept_identified|]. intros [a| |]; try tstep.
  eapply t_bind; [apply t_complete_accepted|]. intros f. repeat tstep.
Qed.

Lemma t_complete_door X R a : triple X R (complete_door a : CM' FiringOutcome) (λ _ _, True) (λ _, X).
Proof. unfold complete_door. eapply t_bind; [apply t_complete_accepted|]. intros f. repeat tstep. Qed.

Lemma t_open_scope X R name : triple X R (open_scope_door name : CM' LifecycleScope) (λ _ _, True) (λ _, X).
Proof. unfold open_scope_door. repeat tstep. Qed.

Lemma t_require X R scope : triple X R (require_scope_cancellation scope : CM' unit) (λ _ _, True) (λ _, X).
Proof. unfold require_scope_cancellation. tstep. eapply t_post; [|apply t_lift]. done. Qed.

Lemma t_close_scope X R scope : triple X R (close_scope_door scope : CM' ScopeClosure) (λ _ _, True) (λ _, X).
Proof.
  unfold close_scope_door. eapply t_bind; [apply t_require|]. intros []. do 4 tstep.
  eapply t_bind; [apply t_coordinator_cancel|]. intros ds. repeat tstep.
Qed.

Lemma t_reset_scope X R scope : triple X R (reset_scope_door scope : CM' LifecycleScope) (λ _ _, True) (λ _, X).
Proof.
  unfold reset_scope_door. eapply t_bind; [apply t_require|]. intros []. do 6 tstep.
  eapply t_bind; [apply t_coordinator_cancel|]. intros ds. repeat tstep.
Qed.

Lemma t_seal X R src : triple X R (seal_door src : CM' unit) (λ _ _, True) (λ _, X).
Proof. unfold seal_door. repeat tstep. Qed.

End door_triples.

Section calls.
  Context {D K P : Type} `{HL : LawfulDispatch D} `{HK : Clock K} `{HP : SelectionPolicy P}.
  Notation Coord := (Coordinator D K).
  Notation Eng := (Engine D K).
  Notation CM' := (CM D K).

(** ** Calls of the host *)

Inductive EngineCall :=
| CallAdvance
| CallDeliver (source : path_arg) (tokens : list Token) (identity : option string) (scope : DeliveryTarget)
| CallAccept (source : path_arg) (tokens : list Token) (identity : option string) (scope : DeliveryTarget)
| CallComplete (a : AcceptedDelivery)
| CallOpen (name : string)
| CallCloseScope (scope : LifecycleScope)
| CallReset (scope : LifecycleScope)
| CallSeal (source : path_arg)
| CallStatus | CallMarking | CallInFlight | CallActiveScopes | CallRecords
| CallClose.

Definition ignore {A} (m : Eng → result A * Eng) (e : Eng) : result unit * Eng :=
  let '(r, e) := m e in (r;; Ok tt, e).

Definition engine_call (policy : DrivingPolicy) (sel : P) (call : EngineCall) : Eng → result unit * Eng :=
  match call with
  | CallAdvance => ignore (advance_engine policy sel)
  | CallDeliver src ts k sc => ignore (deliver src ts k sc)
  | CallAccept src ts k sc => ignore (engine_accept_delivery src ts k sc)
  | CallComplete a => ignore (engine_complete_delivery a)
  | CallOpen name => ignore (engine_open_scope name)
  | CallCloseScope sc => ignore (engine_close_scope sc)
  | CallReset sc => ignore (engine_reset_scope sc)
  | CallSeal src => ignore (engine_seal src)
  | CallStatus => ignore engine_status
  | CallMarking => ignore engine_marking
  | CallInFlight => ignore engine_in_flight
  | CallActiveScopes => ignore engine_active_scopes
  | CallRecords => ignore engine_records
  | CallClose => close
  end.

(** What a guarded door may do to the composition. *)
Definition door_ok (met : Z → Prop) {A} (m : CM' A) : Prop :=
  ∀ c r c', m c = (r, c') → cinv c →
    cinv c' ∧ isteps (co_instance c) (co_instance c') ∧ (is_ok r = true → standing met c → standing met c').

Lemma triple_door met {A} (m : CM' A) Q : (∀ X, triple met X (λ _, True) m Q (λ _, X)) → settled m → door_ok met m.
Proof.
  intros Hm Hrec c r c' E Hc. destruct (Hm (λ p, p.2 = false ∧ co_reconciled c = false) _ _ _ E Hc I) as (? & ? & Ha).
  split; [done|]. split; [done|]. destruct r as [a|]; [|done]. intros _. unfold standing. rewrite (Hrec _ _ _ E).
  apply (Ha a eq_refl).
Qed.

Lemma drive_door met policy sel : door_ok met (drive policy sel : CM' DriveOutcome).
Proof.
  intros c r c' E Hc. destruct (t_drive met _ _ _ _ _ E Hc) as (? & ? & Ha). split; [done|]. split; [done|].
  destruct r as [out|]; [|done]. intros _ Hs. by eapply covered_standing, Ha.
Qed.
(** ** The guard *)

(** The composition has not failed: its state is sound and in custody. *)
Definition engine_inv_from (met : Z → Prop) (e : Eng) : Prop :=
  cinv (en_coordinator e) ∧ (en_broken e = None → standing met (en_coordinator e)).
Definition engine_inv : Eng → Prop := engine_inv_from anything.

(** The calls the hosting hooks have had: none while the composition is open,
    then the release and the close, after one rollback if a door failed. *)
Definition host_calls (e : Eng) : Prop :=
  match en_broken e, en_closed e with
  | None, false => en_resources_closed e = false ∧ en_calls e = []
  | None, true => en_resources_closed e = true ∧ en_calls e = [Release; CloseResources]
  | Some _, _ => en_resources_closed e = true ∧ en_calls e = [Rollback; Release; CloseResources]
  end.

Lemma close_resources_frame (e : Eng) r e' : close_resources e = (r, e') →
  en_coordinator e' = en_coordinator e ∧ en_broken e' = en_broken e ∧ en_closed e' = en_closed e ∧ en_resources_closed e' = true ∧
  en_calls e' = en_calls e ++ (if en_resources_closed e then [] else [Release; CloseResources]).
Proof.
  unfold close_resources, finally_. destruct (en_resources_closed e) eqn:E.
  - intros [= <- <-]. by rewrite app_nil_r.
  - simpl. intros [= <- <-]. simpl. split_and!; try done. by rewrite <-app_assoc.
Qed.

(** Nothing but the pending hook answers differs. *)
Definition same_host (e e' : Eng) : Prop :=
  en_coordinator e' = en_coordinator e ∧ en_broken e' = en_broken e ∧ en_closed e' = en_closed e ∧
  en_resources_closed e' = en_resources_closed e ∧ en_calls e' = en_calls e.

Lemma ensure_frame (e : Eng) r e' : ensure_open e = (r, e') →
  same_host e e' ∧ (is_ok r = true → en_broken e = None ∧ en_closed e = false).
Proof.
  unfold ensure_open. simpl. intros [= <- <-]. split; [done|]. destruct (answer _) as [[]|]; simpl; [|done].
  case_bool_decide as Hb; simpl; [done|]. destruct (en_closed e); [done|]. intros _. split; [|done].
  by destruct (en_broken e); [destruct Hb; eauto|].
Qed.

(** What a call does: nothing; close; apply a door; or fail in it and poison. *)
Inductive call_effect (met : Z → Prop) (e : Eng) (ok : bool) (e' : Eng) : Prop :=
| effect_none : same_host e e' → call_effect met e ok e'
| effect_close : en_closed e = false → en_closed e' = true → en_coordinator e' = en_coordinator e → en_broken e' = en_broken e →
    en_resources_closed e' = true → en_calls e' = en_calls e ++ (if en_resources_closed e then [] else [Release; CloseResources]) →
    call_effect met e ok e'
| effect_door {A} (m : CM' A) a : door_ok met m → m (en_coordinator e) = (Ok a, en_coordinator e') → ok = true →
    en_broken e = None → en_closed e = false → en_broken e' = None → en_closed e' = false →
    en_resources_closed e' = en_resources_closed e → en_calls e' = en_calls e → call_effect met e ok e'
| effect_poison {A} (m : CM' A) x : door_ok met m → m (en_coordinator e) = (Err x, en_coordinator e') → ok = false →
    en_broken e = None → en_closed e = false → en_broken e' = Some (firing_failure_text x) →
    en_resources_closed e' = true →
    en_calls e' = en_calls e ++ Rollback :: (if en_resources_closed e then [] else [Release; CloseResources]) →
    call_effect met e ok e'.

Lemma guarded_effect met {A} (m : CM' A) (e : Eng) r e' : door_ok met m → guarded m e = (r, e') → call_effect met e (is_ok r) e'.
Proof.
  intros Hm. unfold guarded. destruct (ensure_open e) as [r0 e0] eqn:E0.
  destruct (ensure_frame _ _ _ E0) as ((H1 & H2 & H3 & H4 & H5) & H6).
  destruct r0 as [[]|x]; [|intros [= <- <-]; by apply effect_none]. destruct (H6 eq_refl) as [Hb Hcl].
  destruct (m (en_coordinator e0)) as [[a|x] c] eqn:Em; rewrite H1 in Em; intros E.
  - injection E as <- <-. apply (effect_door _ _ _ _ m a); simpl; (done || congruence).
  - destruct (finally_ _ _ _) as [r2 e2] eqn:E2. unfold finally_ in E2. simpl in E2.
    destruct (close_resources _) as [r3 e3] eqn:E3.
    destruct (close_resources_frame _ _ _ E3) as (F1 & F2 & F3 & F4 & F5). simpl in *.
    injection E2 as <- <-. injection E as <- <-. apply (effect_poison _ _ _ _ m x); try (done || congruence).
    + by destruct r3; [destruct (answer (rs_rollback (en_resources e0)))|].
    + by rewrite F5, H4, H5, <-app_assoc.
Qed.

Lemma ignore_effect met {A} (m : Eng → result A * Eng) e r e' :
  (∀ r e', m e = (r, e') → call_effect met e (is_ok r) e') → ignore m e = (r, e') → call_effect met e (is_ok r) e'.
Proof. intros Hm. unfold ignore. destruct (m e) as [r0 e0] eqn:E. intros [= <- <-]. specialize (Hm _ _ eq_refl). by destruct r0. Qed.

Lemma read_effect met {A} (f : Instance → result A) e r e' : read f e = (r, e') → call_effect met e (is_ok r) e'.
Proof.
  unfold read. destruct (ensure_open e) as [r1 e1] eqn:E1. apply ensure_frame in E1 as [Hf _].
  destruct r1; intros [= <- <-]; by apply effect_none.
Qed.

Lemma call_has_effect met policy sel call e r e' : engine_call policy sel call e = (r, e') → call_effect met e (is_ok r) e'.
Proof.
  destruct call; simpl; try apply ignore_effect; try (intros r0 e0; apply guarded_effect); try (intros r0 e0; apply read_effect).
  - apply drive_door.
  - eapply triple_door; [intros X; apply t_deliver|apply s_deliver].
  - eapply triple_door; [intros X; apply t_accept_identified|apply s_accept].
  - eapply triple_door; [intros X; apply t_complete_door|apply s_complete_door].
  - eapply triple_door; [intros X; apply t_open_scope|apply s_open].
  - eapply triple_door; [intros X; apply t_close_scope|apply s_close].
  - eapply triple_door; [intros X; apply t_reset_scope|apply s_reset].
  - eapply triple_door; [intros X; apply t_seal|apply s_seal].
  - unfold close. destruct (en_closed e) eqn:Hcl; [intros [= <- <-]; by apply effect_none|].
    intros (? & ? & ? & ? & ?)%close_resources_frame. by apply effect_close.
Qed.

Lemma effect_calls met e ok e' : call_effect met e ok e' → host_calls e → host_calls e'.
Proof.
  unfold host_calls. intros [(? & -> & -> & -> & ->)|Hc -> _ -> Hr Hl|? ? ? _ _ _ -> -> -> -> -> ->|? ? ? _ _ _ -> -> -> Hr Hl];
    rewrite ?Hc; destruct (en_broken e); try destruct (en_closed e); try done.
  all: intros [Hr0 Hl0]; rewrite ?Hr, ?Hl, ?Hr0, ?Hl0; done.
Qed.

Lemma effect_inv met e ok e' : call_effect met e ok e' → engine_inv_from met e →
  engine_inv_from met e' ∧ isteps (co_instance (en_coordinator e)) (co_instance (en_coordinator e')).
Proof.
  unfold engine_inv_from. intros [(-> & -> & _)|_ _ -> -> _ _|? m a Hm E _ Hb _ Hb' _ _ _|? m x Hm E _ Hb _ Hb' _ _] [Hc Hcov].
  1,2: split; [done|constructor].
  - destruct (Hm _ _ _ E Hc) as (? & ? & ?). split; [|done]. split; [done|]. auto.
  - destruct (Hm _ _ _ E Hc) as (? & ? & ?). split; [|done]. split; [done|]. by rewrite Hb'.
Qed.

(** ** Hosted engines *)

(** An engine created over a built net, called any number of times whatever
    each call answers, while the provider's workers make progress, and loaded
    again from its history by the hosts that follow. *)
Inductive hosted (policy : DrivingPolicy) (sel : P) : Eng → Prop :=
| hosted_create cel n identity st d m at_ im clock sensor activities timeout commit resources e :
    built n → provider_ok d → (∀ o, ¬ fenced d o) →
    Engine_init cel n identity st d true m at_ im sel clock sensor activities timeout commit resources = Ok e →
    hosted policy sel e
| hosted_call call e r e' : hosted policy sel e → engine_call policy sel call e = (r, e') → hosted policy sel e'
| hosted_workers e d' :
    hosted policy sel e → provider_ok d' → (∀ q, owes (co_dispatch (en_coordinator e)) q → owes d' q) →
    (∀ q, fenced d' q → fenced (co_dispatch (en_coordinator e)) q) →
    hosted policy sel (MkEngine (with_dispatch d' (en_coordinator e)) (en_resources e) (en_broken e) (en_closed e)
                         (en_resources_closed e) (en_calls e))
(** The host ended, closed or not; another loads what is stored. *)
| hosted_load e cel im st d identity m at_ clock sensor activities timeout commit resources e' :
    hosted policy sel e → st_records st = history (co_instance (en_coordinator e)) →
    provider_ok d → (∀ q, fenced d q → fenced (co_dispatch (en_coordinator e)) q) →
    Engine_init cel (net (config (co_instance (en_coordinator e)))) identity st d false m at_ im sel clock sensor activities timeout
      commit resources = Ok e' →
    hosted policy sel e'.

Lemma started_inv met i d (sel : P) clock sensor commit c c1 resources :
  reachable i → provider_ok d → (∀ q, fenced d q → is_Some (dget q (cancelled (live i)))) →
  (∀ q, open_activity (live i) q → handed d q → met q) → (∀ q, seen d q → met q ∨ q < next_occurrence (live i)) →
  Coordinator_init i d sel clock sensor commit = Ok c → committed c = (Ok tt, c1) →
  engine_inv_from met (MkEngine c1 resources None false false []) ∧ host_calls (MkEngine c1 resources None false false []).
Proof.
  intros Hi Hp Hf Hh Hs E Ec. unfold Coordinator_init in E. inv_ok.
  assert (co_reconciled c1 = false) as Hrec by (by rewrite (s_committed _ _ _ Ec)).
  apply committed_view in Ec as (E1 & E2 & E3 & _). simpl in *. split; [|done]. split; simpl.
  - split; rewrite ?E1, ?E2, ?E3; done.
  - intros _. unfold standing. rewrite Hrec. split; rewrite ?E1, ?E2; [by auto| |done]. intros o Ho Hd. left. by apply Hh.
Qed.

Lemma create_inv met cel n identity st d m at_ im sel clock sensor activities timeout commit resources e :
  built n → provider_ok d → (∀ o, ¬ fenced d o) → (∀ o, seen d o → met o) →
  Engine_init (P := P) cel n identity st d true m at_ im sel clock sensor activities timeout commit resources = Ok e →
  engine_inv_from met e ∧ host_calls e.
Proof.
  intros Hn Hp Hf Hs. unfold Engine_init. intros E. inv_ok.
  destruct (committed _) as [rc c1] eqn:Ec. destruct rc as [[]|]; [|done]. simpl in E. injection E as <-.
  eapply started_inv; [by eapply reachable_init|done|by intros q ?%Hf| | |done|done].
  - intros q _ Hq. by eapply Hs, handed_seen.
  - intros q Hq. left. by apply Hs.
Qed.

(** Loading over the history of an Instance; what the provider fences is
    cancelled there. *)
Lemma load_inv met cel i identity st d m at_ im sel clock sensor activities timeout commit resources e :
  reachable i → st_records st = history i → provider_ok d → (∀ q, fenced d q → is_Some (dget q (cancelled (live i)))) →
  (∀ q, open_activity (live i) q → handed d q → met q) → (∀ q, seen d q → met q ∨ q < next_occurrence (live i)) →
  Engine_init (P := P) cel (net (config i)) identity st d false m at_ im sel clock sensor activities timeout commit resources = Ok e →
  engine_inv_from met e ∧ host_calls e ∧ restored (live i) (live (co_instance (en_coordinator e))) ∧
  history (co_instance (en_coordinator e)) = history i.
Proof.
  intros Hi Hst Hp Hf Hh Hs. unfold Engine_init. intros E. inv_ok.
  destruct (committed _) as [rc c1] eqn:Ec. destruct rc as [[]|]; [|done]. simpl in E. injection E as <-.
  match goal with H : resume _ _ _ _ = Ok _ |- _ => pose proof (reachable_resume _ _ _ _ _ Hi Hst H) as Hi';
    apply resume_restores in H as (Heq & _ & Hr & _); [|done|by apply reachable_sound] end.
  match goal with H : Coordinator_init ?i' _ _ _ _ _ = Ok _ |- _ =>
    assert (∀ q, fenced d q → is_Some (dget q (cancelled (live i')))) as Hf' by (intros q Hq%Hf; by destruct Hr);
    assert (∀ q, open_activity (live i') q → handed d q → met q) as Hh' by (intros q Hq; apply Hh; by destruct Hr);
    assert (∀ q, seen d q → met q ∨ q < next_occurrence (live i')) as Hs' by (intros q Hq%Hs; by destruct Hr);
    destruct (started_inv met _ _ _ _ _ _ _ c1 resources Hi' Hp Hf' Hh' Hs' H Ec) as [Hinv Hcalls]; unfold Coordinator_init in H end. inv_ok.
  apply committed_view in Ec as (E1 & _). simpl in *. rewrite E1. simpl. split_and!; try done.
Qed.

(** Nothing is asked of a provider that may have met anything. *)
Lemma engine_inv_custody (e : Eng) : engine_inv e → en_broken e = None → co_reconciled (en_coordinator e) = true →
  ∀ o, open_activity (live (co_instance (en_coordinator e))) o →
    owes (co_dispatch (en_coordinator e)) o ∨ o ∈ (co_arrived (en_coordinator e)).*1.
Proof. intros [_ Hs] Hb. apply (standing_custody _ _ (Hs Hb)). Qed.

Lemma workers_inv (e : Eng) d' : engine_inv e → provider_ok d' →
  (∀ q, owes (co_dispatch (en_coordinator e)) q → owes d' q) → (∀ q, fenced d' q → fenced (co_dispatch (en_coordinator e)) q) →
  engine_inv (MkEngine (with_dispatch d' (en_coordinator e)) (en_resources e) (en_broken e) (en_closed e)
                (en_resources_closed e) (en_calls e)).
Proof.
  intros Hi Hp Ho Hf. split; simpl; [destruct Hi as [[] _]; split; simpl; auto|]. intros Hb.
  apply standing_met; [apply anything_met|]. simpl. intros Hr o Hopen.
  destruct (engine_inv_custody _ Hi Hb Hr o Hopen); auto.
Qed.

Lemma hosted_inv policy sel e : hosted policy sel e → engine_inv e ∧ host_calls e.
Proof.
  induction 1 as [|call e r e' _ [Hi Hh] E|e d' _ [Hi Hh] Hp Ho Hf|e ? ? st d ? ? ? ? ? ? ? ? ? e' _ [[Hc _] _] Hst Hp Hf E];
    [by eapply create_inv; eauto using anything_met| | |].
  - apply (call_has_effect anything) in E. split; [by eapply effect_inv|by eapply effect_calls].
  - split; [by apply workers_inv|done].
  - eapply (load_inv anything) in E as (? & ? & _); [done|apply Hc|done|done| |by eauto using anything_met..].
    intros q Hq%Hf. by apply (ci_fenced _ Hc).
Qed.

Lemma isteps_prefix s s' : isteps s s' → history s `prefix_of` history s'.
Proof.
  induction 1 as [s|s s1 s' Hs _ IH]; [done|]. etrans; [|exact IH].
  destruct Hs as [? ? ? ? Heq|? ? ? ? ? ? ? Heq]; unfold history; simpl; rewrite Heq; [done|by apply prefix_app_r].
Qed.

(** C5: whatever sequence of calls a host makes and however each one
    ends, restarts from the stored history included, the hosted Instance is a reachable one and its history only grows;
    and while no door has failed, once the composition has reconciled, every
    Activity in flight is in custody: owed by the provider, buffered, or frozen
    in the history. *)
Theorem hosted_engine_is_sound policy sel e : hosted policy sel e →
  let i := co_instance (en_coordinator e) in
  reachable i ∧
  (∀ call r e', engine_call policy sel call e = (r, e') → history i `prefix_of` history (co_instance (en_coordinator e'))) ∧
  (en_broken e = None → co_reconciled (en_coordinator e) = true →
   ∀ o occ, dget o (in_flight (live i)) = Some occ → is_Some (occ_invocation occ) →
     owes (co_dispatch (en_coordinator e)) o ∨ o ∈ (co_arrived (en_coordinator e)).*1 ∨ is_Some (dget o (frozen_results (live i)))).
Proof.
  intros [Hi _]%hosted_inv i. split; [apply Hi|]. split.
  - intros call r e' E. apply isteps_prefix. by destruct (effect_inv _ _ _ _ (call_has_effect _ _ _ _ _ _ _ E) Hi).
  - intros Hb Hr o occ Hin Hinv. destruct (dget o (frozen_results (live i))) eqn:Hf; [eauto|].
    destruct (engine_inv_custody _ Hi Hb Hr o) as [?|?]; [by exists occ|by left|by right; left].
Qed.

(** C40: once a door has raised, the composition is dead: every further
    call but the close raises, none moves the Instance, the provider or any
    other state of the coordinator, and the hosting hooks have been called
    exactly once each, in the order rollback, release, close, whatever they
    answer; and a call that raises after it moved the coordinator has poisoned
    the composition. *)
Theorem failed_door_poisons policy sel e call r e' : hosted policy sel e →
  engine_call policy sel call e = (r, e') →
  (is_Some (en_broken e) →
     en_coordinator e' = en_coordinator e ∧ is_Some (en_broken e') ∧ en_calls e' = [Rollback; Release; CloseResources] ∧
     (is_ok r = true → call = CallClose)) ∧
  (en_coordinator e' ≠ en_coordinator e → is_ok r = false → is_Some (en_broken e')).
Proof.
  intros [_ Hh]%hosted_inv E. pose proof (call_has_effect anything _ _ _ _ _ _ E) as He.
  pose proof (effect_calls _ _ _ _ He Hh) as Hh'. split.
  - intros [x Hx]. unfold host_calls in Hh'.
    assert (en_coordinator e' = en_coordinator e ∧ en_broken e' = Some x) as [Hco Hb]
      by (destruct He as [(? & ? & _)|_ _ ? ? _ _|? ? ? _ _ _ ?|? ? ? _ _ _ ?]; split; congruence).
    rewrite Hb in Hh'. split; [done|]. split; [rewrite Hb; eauto|]. split; [apply Hh'|]. intros Hr.
    assert (Hens : ∀ r0 e0, ensure_open e = (r0, e0) → is_ok r0 = false).
    { intros r0 e0 H0. apply ensure_frame in H0 as [_ H0]. destruct (is_ok r0); [|done]. destruct (H0 eq_refl). congruence. }
    destruct call; try done; exfalso; simpl in E; unfold ignore, advance_engine, deliver, engine_accept_delivery, engine_complete_delivery,
      engine_open_scope, engine_close_scope, engine_reset_scope, engine_seal, engine_status, engine_marking, engine_in_flight,
      engine_active_scopes, engine_records, guarded, read in E;
      destruct (ensure_open e) as [[|] ?]; try discriminate (Hens _ _ eq_refl); injection E as <- _; discriminate Hr.
  - intros Hne Hr. destruct He as [(? & _)|_ _ ? _ _ _|? ? ? _ _ ?|? ? ? _ _ _ _ _ ? _ _]; [done..|congruence|eauto].
Qed.

(** ** Closing a scope *)

Lemma cancel_each_fences l (tbl : dict Z FiringOccurrence) position : ∀ (c : Coord) ds c',
  cfor l (λ o, occurrence ← clift (or_raise (dget o tbl) (KeyError "cancelled"));
    match occ_invocation occurrence with
    | Some _ => d ← cancel_one occurrence position; mret [d]
    | None => mret []
    end) c = (Ok ds, c') → provider_ok (co_dispatch c) →
  (∀ q, fenced (co_dispatch c) q → fenced (co_dispatch c') q) ∧
  ∀ o occ, o ∈ l → dget o tbl = Some occ → is_Some (occ_invocation occ) → fenced (co_dispatch c') (occ_id occ).
Proof.
  induction l as [|o l IH]; intros c ds c' E Hp; simpl in E; [injection E as _ <-; split; [done|set_solver]|].
  apply cbind_Ok in E as (xs & c1 & E1 & E). apply cbind_Ok in E as (ys & c2 & E2 & [= _ <-]).
  apply cbind_Ok in E1 as (occ & c3 & E3 & E1). injection E3 as Ho <-. apply or_raise_Ok in Ho.
  assert (Hone : provider_ok (co_dispatch c1) ∧ (∀ q, fenced (co_dispatch c) q → fenced (co_dispatch c1) q) ∧
                 (is_Some (occ_invocation occ) → fenced (co_dispatch c1) (occ_id occ))).
  { destruct (occ_invocation occ) as [inv|] eqn:Hi; [|injection E1 as _ <-; split_and!; [done..|by intros [? ?]]].
    apply cbind_Ok in E1 as (d & c4 & E4 & [= _ <-]). unfold cancel_one in E4. rewrite Hi in E4.
    destruct cancel as [run|] eqn:Er; [|done]. apply cbind_Ok in E4 as (u & c5 & [= _ <-] & E4).
    apply cbind_Ok in E4 as (ci & c6 & E6 & E4). injection E6 as Hci <-. unfold prov in E4.
    destruct (run ci _) as [r0 d'] eqn:Ed. injection E4 as -> <-. simpl.
    destruct (cancel_lawful _ _ _ _ _ Er Hp Ed) as (? & _ & _ & ? & Hf). specialize (Hf eq_refl). split_and!; [done..|].
    intros _. unfold CancellationInstruction_new in Hci. by inv_ok. }
  destruct Hone as (Hp1 & Hf1 & Ho1). destruct (IH _ _ _ E2 Hp1) as [Hm Hall]. split; [auto|].
  intros q occ' [->|Hq]%elem_of_cons Hd Hinv; [|by eapply Hall]. rewrite Ho in Hd. injection Hd as <-. auto.
Qed.

(** The Activities of a scope are cancelled by its close. *)
Lemma closed_cancelled scope at_ s cl s' o occ : reachable s → close_scope scope at_ s = (Ok cl, s') →
  dget o (in_flight (live s)) = Some occ → occ_scope occ = Some scope →
  o ∈ cl_cancelled cl ∧ dget o (cancelled (live s')) = Some occ ∧ occ_id occ = o.
Proof.
  intros Hr Hc Ho Hs. destruct (reachable_sound _ Hr) as [Hok _]. destruct (ok_in_flight _ _ Hok _ _ Ho) as [Hid _].
  apply close_scope_Ok in Hc as [Hcl Hl]; [|done]. rewrite (closed_live_eq _ _ Hok) in Hl by done. rewrite Hl.
  assert (Hin : in_scope scope occ) by by apply bool_decide_spec.
  split; [|split; [|by symmetry]].
  - assert (Hv : occ ∈ dvals (in_flight (live s))).
    { apply list_elem_of_fmap. exists (o, occ). split; [done|]. by apply dget_elem_of. }
    unfold scope_closure in Hcl. inv_ok. simpl. apply list_elem_of_fmap. exists occ. split; [done|]. by apply list_elem_of_filter.
  - simpl. rewrite dget_app. destruct (dget o (cancelled (live s))) as [x|] eqn:E.
    + apply (ok_cancelled _ _ Hok) in E as (_ & _ & E). congruence.
    + unfold scoped. rewrite dget_filter by apply Hok. rewrite Ho. simpl. by rewrite decide_True.
Qed.

(** What a returned close went through. *)
Lemma close_door_phases scope (c : Coord) closure c' : close_scope_door scope c = (Ok closure, c') →
  ∃ i s' (c1 c2 : Coord) ds, close_scope scope (Some i) (co_instance c) = (Ok closure, s') ∧
    co_instance c1 = s' ∧ co_dispatch c1 = co_dispatch c ∧
    coordinator_cancel closure (Z.of_nat (length (history s'))) c1 = (Ok ds, c2) ∧ co_dispatch c' = co_dispatch c2.
Proof.
  unfold close_scope_door. intros E. apply cbind_Ok in E as (u0 & c0 & E0 & E).
  assert (c0 = c) as ->.
  { unfold require_scope_cancellation in E0. apply cbind_Ok in E0 as (held & c9 & [= _ <-] & E0). by injection E0 as _ <-. }
  apply cbind_Ok in E as (i & c1 & E1 & E). unfold clock_now in E1. destruct (now _) as [j k]. injection E1 as <- <-.
  apply cbind_Ok in E as (cl & c2 & E2 & E). unfold inst in E2. simpl in E2.
  destruct (close_scope scope (Some j) (co_instance c)) as [r s'] eqn:Ec. injection E2 as -> <-.
  apply cbind_Ok in E as (pos & c3 & [= <- <-] & E). apply cbind_Ok in E as (u1 & c4 & E4 & E).
  apply committed_view in E4 as (H1 & H2 & _). simpl in *. apply cbind_Ok in E as (ds & c5 & E5 & E).
  apply cbind_Ok in E as (u2 & c6 & E6 & [= <- <-]). apply committed_view in E6 as (_ & H3 & _).
  exists j, s', c4, c5, ds. split_and!; try done.
Qed.

(** A commit that refuses the close stops the door before the provider. *)
Lemma refused_close_keeps scope x answers (c : Coord) r c' : co_commit c = Some (Some x :: answers) →
  close_scope_door scope c = (r, c') → co_dispatch c' = co_dispatch c.
Proof.
  intros Hco. unfold close_scope_door, require_scope_cancellation, mbind, CM_bind, clock_now, inst, cview, cget, clift.
  cbv beta iota. match goal with |- context [raise_if ?b ?x] => destruct (raise_if b x) as [[]|] end; [|by intros [= <- <-]].
  destruct (now _) as [j k]. simpl.
  destruct (close_scope scope (Some j) (co_instance c)) as [[cl|y] s']; [|by intros [= <- <-]].
  unfold committed. simpl. rewrite Hco. by intros [= <- <-].
Qed.

Lemma guarded_coordinator {A} (m : CM' A) (e : Eng) r e' : guarded m e = (r, e') →
  en_coordinator e' = en_coordinator e ∨ ∃ r0, m (en_coordinator e) = (r0, en_coordinator e').
Proof.
  unfold guarded. destruct (ensure_open e) as [r0 e0] eqn:E0. destruct (ensure_frame _ _ _ E0) as ((H1 & _) & _).
  destruct r0 as [[]|x]; [|intros [= <- <-]; by left]. rewrite H1.
  destruct (m (en_coordinator e)) as [[a|x] c] eqn:Em; [intros [= <- <-]; eauto|].
  unfold finally_. simpl. destruct (close_resources _) as [r3 e3] eqn:E3.
  destruct (close_resources_frame _ _ _ E3) as (F1 & _). simpl in F1. intros [= <- <-]. rewrite F1. eauto.
Qed.

(** C34: when a lifecycle scope is closed through its Engine and the
    call returns, every Activity that was in flight in that scope is cancelled
    in the history and fenced at the provider. And cancellation follows the
    durable close: if the host's commit refuses it, the provider has not been
    asked to cancel anything. *)
Theorem closing_fences_what_it_cancelled policy sel scope e r e' : hosted policy sel e →
  engine_close_scope scope e = (r, e') →
  let before := co_instance (en_coordinator e) in
  (∀ closure, r = Ok closure → ∀ o occ, dget o (in_flight (live before)) = Some occ → occ_scope occ = Some scope →
     is_Some (occ_invocation occ) →
     is_Some (dget o (cancelled (live (co_instance (en_coordinator e'))))) ∧ fenced (co_dispatch (en_coordinator e')) o) ∧
  (∀ x answers, co_commit (en_coordinator e) = Some (Some x :: answers) →
     co_dispatch (en_coordinator e') = co_dispatch (en_coordinator e)).
Proof.
  intros Hh E before. pose proof (hosted_inv _ _ _ Hh) as [[Hc _] _]. unfold engine_close_scope in E. split.
  - intros closure -> o occ Ho Hs Hi. unfold guarded in E. destruct (ensure_open e) as [r0 e0] eqn:E0.
    destruct (ensure_frame _ _ _ E0) as [(H1 & _) _]. destruct r0; [|done]. rewrite H1 in E.
    destruct (close_scope_door scope (en_coordinator e)) as [[cl|x] c'] eqn:Ed; [|destruct (finally_ _ _ _) as [[] ?]; done].
    injection E as -> <-. simpl.
    assert (Hfen : fenced (co_dispatch c') o).
    { apply close_door_phases in Ed as (i & s' & c1 & c2 & ds & Ecl & Es & Edp & Ecan & ->).
      destruct (closed_cancelled _ _ _ _ _ _ _ (ci_reachable _ Hc) Ecl Ho Hs) as (Hin & Hd & <-).
      unfold coordinator_cancel in Ecan. apply cbind_Ok in Ecan as (tbl & c3 & [= <- <-] & Ecan). rewrite Es in Ecan.
      destruct (cancel_each_fences _ _ _ _ _ _ Ecan) as [_ Hall]; [rewrite Edp; apply Hc|]. by eapply Hall. }
    split; [|done]. destruct (t_close_scope anything (λ _, True) (λ _, True) scope _ _ _ Ed Hc I) as ([_ _ _ Hf] & _). by apply Hf.
  - intros x answers Hco. apply guarded_coordinator in E as [->|(r0 & Ed)]; [done|]. by eapply refused_close_keeps.
Qed.
End calls.

(** ** A hosted net *)

Notation DemoEngine := (Engine InMemoryDispatch SimulatedClock).
Notation demo_call := (engine_call choose_conservative MkFirst).

Definition demo_engine (commit : option (list (option exn))) : result DemoEngine :=
  Engine_init no_cel demo_net "demo-1" (MkStore [] []) InMemory_init true [] 5 demo_impl MkFirst (λ _, MkSimulated 5) None []
    30 commit (MkResources [] [] [] []).

Definition dummy_engine : DemoEngine := MkEngine dummy_coordinator (MkResources [] [] [] []) None false false [].
Definition demo_engine_0 (commit : option (list (option exn))) : DemoEngine := ok_or dummy_engine (demo_engine commit).

Definition demo_calls (calls : list EngineCall) (e : DemoEngine) : DemoEngine := foldl (λ e call, (demo_call call e).2) e calls.

Lemma demo_engine_hosted commit : is_ok (demo_engine commit) = true → hosted choose_conservative MkFirst (demo_engine_0 commit).
Proof.
  intros Hok. eapply hosted_create; [apply demo_built| | |by apply ok_or_Ok].
  - split; constructor.
  - by intros o [? ?].
Qed.

Lemma demo_calls_hosted calls : ∀ e, hosted choose_conservative MkFirst e → hosted choose_conservative MkFirst (demo_calls calls e).
Proof.
  induction calls as [|call calls IH]; intros e He; simpl; [done|]. apply IH.
  destruct (demo_call call e) as [r e'] eqn:E. by eapply hosted_call.
Qed.

(** A scoped token was delivered, and the Activity it enables is in flight. *)
Definition scoped_work : list EngineCall :=
  [CallOpen "tenant"; CallDeliver (AStr "feed") [black] (Some "delivery-1") (Some (inl tenant)); CallAdvance; CallAdvance].
Definition demo_engine_1 : DemoEngine := demo_calls scoped_work (demo_engine_0 None).

Lemma demo_engine_1_hosted : hosted choose_conservative MkFirst demo_engine_1.
Proof. apply demo_calls_hosted, demo_engine_hosted. vm_compute. reflexivity. Qed.

Lemma hosted_engine_is_sound_witness :
  en_broken demo_engine_1 = None ∧ co_reconciled (en_coordinator demo_engine_1) = true ∧
  reachable (co_instance (en_coordinator demo_engine_1)).
Proof.
  split; [vm_compute; reflexivity|]. split; [vm_compute; reflexivity|].
  exact (proj1 (hosted_engine_is_sound choose_conservative MkFirst demo_engine_1 demo_engine_1_hosted)).
Defined.

(** The commit of the first door fails. *)
Definition demo_poisoned : DemoEngine :=
  demo_calls [CallOpen "tenant"] (demo_engine_0 (Some [None; Some (RuntimeError "disk full")])).

Lemma failed_door_poisons_witness :
  is_Some (en_broken demo_poisoned) ∧
  en_calls (demo_call CallAdvance demo_poisoned).2 = [Rollback; Release; CloseResources].
Proof.
  assert (Hb : is_Some (en_broken demo_poisoned)) by (vm_compute; eauto). split; [exact Hb|].
  assert (Hh : hosted choose_conservative MkFirst demo_poisoned).
  { apply demo_calls_hosted, demo_engine_hosted. vm_compute. reflexivity. }
  exact (proj1 (proj2 (proj2 (proj1 (failed_door_poisons choose_conservative MkFirst demo_poisoned CallAdvance
    (demo_call CallAdvance demo_poisoned).1 (demo_call CallAdvance demo_poisoned).2 Hh (surjective_pairing _)) Hb)))).
Defined.

Lemma closing_fences_what_it_cancelled_witness :
  ∃ closure e', engine_close_scope tenant demo_engine_1 = (Ok closure, e') ∧
    is_Some (dget 3 (im_cancelled (co_dispatch (en_coordinator e')))).
Proof.
  destruct (engine_close_scope tenant demo_engine_1) as [[closure|x] e'] eqn:E;
    [|exfalso; assert (is_ok (engine_close_scope tenant demo_engine_1).1 = true) as H by (vm_compute; reflexivity);
      rewrite E in H; discriminate H].
  exists closure, e'. split; [reflexivity|].
  assert (∃ occ, dget 3 (in_flight (live (co_instance (en_coordinator demo_engine_1)))) = Some occ ∧
            occ_scope occ = Some tenant ∧ is_Some (occ_invocation occ)) as (occ & Ho & Hs & Hi)
    by (vm_compute; eauto).
  exact (proj2 (proj1 (closing_fences_what_it_cancelled choose_conservative MkFirst tenant demo_engine_1 (Ok closure) e'
    demo_engine_1_hosted E) closure eq_refl 3 occ Ho Hs Hi)).
Defined.
