(* ===== verification/Providers.v ===== *)
(** * The shipped providers under an Engine

    A [LocalDispatch] session over its database and an [InlineDispatch] discharge
    the laws of a provider (as [InMemoryDispatch] does in Driving), and nothing
    other processes do to the shared database takes an occurrence out of the
    custody of the Engine that published it. *)

From stdpp Require Import base gmap sets list strings pretty sorting.
From Stdlib Require Import ZArith Lia.
From S2P Require Import Prelude PyData Schema Marking Enabledness Firing Activity Records Replay Lifecycle Selection Instance Dispatch LocalDispatch LocalInvariant Custody LocalTheorems.
From S2P Require Import Construction Commit Invariant Operations Soundness Reachability Scenario Coordination Driving DriveInvariant DriveSteps DriveTheorems Engine EngineTheorems.
Open Scope string_scope.
Open Scope list_scope.
Open Scope Z_scope.

(** ** The provider *)

(** A session, the shared database it opens at every operation, and the
    readings of its clock. *)
Record LocalHost := MkHost {
  lh_session : LocalDispatch;
  lh_db : DB;
  lh_clock : nat → result Z;
  lh_reads : nat
}.

Definition Host_dispatch (o : Z) (i : ActivityInvocation) (h : LocalHost) : result unit * LocalHost :=
  match local_dispatch (lh_clock h (lh_reads h)) o i (lh_session h) (lh_db h) with
  | Ok (s, db) => (Ok tt, MkHost s db (lh_clock h) (S (lh_reads h)))
  | Err e => (Err e, MkHost (lh_session h) (lh_db h) (lh_clock h) (S (lh_reads h)))
  end.

Definition Host_collect (h : LocalHost) : result (list Arrival) * LocalHost :=
  let '(r, s) := local_collect (lh_session h) (lh_db h) in (r, MkHost s (lh_db h) (lh_clock h) (lh_reads h)).

Definition Host_cancel (c : CancellationInstruction) (h : LocalHost) : result CancellationDisposition * LocalHost :=
  match local_cancel c (lh_session h) (lh_db h) with
  | Ok (d, s, db) => (Ok d, MkHost s db (lh_clock h) (lh_reads h))
  | Err e => (Err e, h)
  end.

#[export] Instance Host_provider : Dispatch LocalHost := {
  dispatch := Host_dispatch;
  collect := Host_collect;
  cancel := Some Host_cancel
}.

(** ** Custody *)

Definition host_key (h : LocalHost) (o : Z) : Key := (ld_instance (lh_session h), o).

(** Published by this session, and a row of the task table. *)
Definition host_owes (h : LocalHost) (o : Z) : Prop :=
  o ∈ ld_published (lh_session h) ∧ is_Some (dget (host_key h o) (db_tasks (lh_db h))).
(** Handed over by [collect], which marks what it returns. *)
Definition host_handed (h : LocalHost) (o : Z) : Prop := o ∈ ld_collected (lh_session h).
Definition host_seen (h : LocalHost) (o : Z) : Prop := o ∈ ld_published (lh_session h) ∪ ld_collected (lh_session h).
Definition host_fenced (h : LocalHost) (o : Z) : Prop := is_Some (dget (host_key h o) (db_cancellations (lh_db h))).

(** What no transaction but a cancellation does: drop a task or touch a fence. *)
Definition keeps (db db' : DB) : Prop :=
  (∀ k, is_Some (dget k (db_tasks db)) → is_Some (dget k (db_tasks db'))) ∧ db_cancellations db' = db_cancellations db.

#[export] Instance keeps_preorder : PreOrder keeps.
Proof. split; [by split|]. intros db1 db2 db3 [H1 H2] [H3 H4]. split; [auto|congruence]. Qed.

Lemma update_task_keeps k f db : keeps db (update_task k f db).
Proof.
  split; [|apply update_task_cancellations]. intros k' [t Ht]. rewrite update_task_tasks. case_decide as E; [|eauto]. subst. rewrite Ht. simpl. eauto.
Qed.

Lemma insert_terminal_keeps k r db db' : insert_terminal k r db = Ok db' → keeps db db'.
Proof. unfold insert_terminal. intros H. inv_ok. by split. Qed.

Lemma foldM_keeps {A} (f : DB → A → result DB) l : (∀ db a db', f db a = Ok db' → keeps db db') →
  ∀ db db', foldM f db l = Ok db' → keeps db db'.
Proof.
  intros Hf. induction l as [|a l IH]; intros db db' H; simpl in H; [by injection H as <-|].
  apply bind_Ok in H as (db1 & H1 & H). etrans; [by eapply Hf|by apply IH].
Qed.

Lemma sweep_keeps P now qs db db' : terminalize_exhausted P now qs db = Ok db' → keeps db db'.
Proof.
  unfold terminalize_exhausted. intros H. apply bind_Ok in H as (db1 & H1 & H2).
  trans db1; (eapply foldM_keeps; [|done]); intros db0 kt db2 H.
  - unfold delay_row in H. repeat (apply bind_Ok in H as (? & _ & H)). injection H as <-. apply update_task_keeps.
  - unfold exhaust_row in H. repeat (apply bind_Ok in H as (? & _ & H)). destruct (dmem _ _); [by injection H as <-|].
    by eapply insert_terminal_keeps.
Qed.

Lemma report_keeps a outcome db db' : report_terminal a outcome db = Ok db' → keeps db db'.
Proof. unfold report_terminal. intros H. do 2 (apply bind_Ok in H as (? & _ & H)). by eapply insert_terminal_keeps. Qed.

Lemma terminal_keeps clock a outcome db db' : local_terminal clock a outcome db = Ok db' → keeps db db'.
Proof.
  unfold local_terminal. intros H. apply bind_Ok in H as ([] & _ & H); [by injection H as <-|].
  apply bind_Ok in H as ([] & _ & H); [by eapply report_keeps|]. do 2 (apply bind_Ok in H as (? & _ & H)). by eapply report_keeps.
Qed.

Lemma claim_keeps P clock w db r db' : local_claim P clock w db = Ok (r, db') → keeps db db'.
Proof.
  unfold local_claim. intros H. apply bind_Ok in H as (now & _ & H). apply bind_Ok in H as (db1 & H1 & H).
  etrans; [by eapply sweep_keeps|]. destruct (head _) as [[k t]|]; [|by injection H as _ <-].
  repeat (apply bind_Ok in H as (? & _ & H)). injection H as _ <-. apply update_task_keeps.
Qed.

Lemma heartbeat_keeps P clock a d db v db' : local_heartbeat P clock a d db = Ok (v, db') → keeps db db'.
Proof.
  unfold local_heartbeat. intros H. apply bind_Ok in H as (enc & _ & H). repeat (apply bind_Ok in H as (? & _ & H)).
  destruct enc; injection H as _ <-; apply update_task_keeps.
Qed.

Lemma fail_keeps P clock a e db db' : local_fail P clock a e db = Ok db' → keeps db db'.
Proof.
  unfold local_fail. intros H. apply bind_Ok in H as (f & _ & H). apply bind_Ok in H as ([] & _ & H); [by injection H as <-|].
  apply bind_Ok in H as ([] & _ & H); [by eapply report_keeps|]. do 5 (apply bind_Ok in H as (? & _ & H)).
  destruct (_ && _ && _); [|by eapply report_keeps]. apply bind_Ok in H as (? & _ & H). injection H as <-. apply update_task_keeps.
Qed.

Lemma wait_keeps P w : ∀ readings db b db', local_wait P readings w db = Ok (b, db') → keeps db db'.
Proof.
  induction readings as [|clock readings IH]; intros db b db' H; simpl in H; [by injection H as _ <-|].
  apply bind_Ok in H as (now & _ & H). apply bind_Ok in H as (db1 & H1 & H). etrans; [by eapply sweep_keeps|].
  destruct (existsb _ _); [by injection H as _ <-|by eapply IH].
Qed.

(** A publication: the session's set grows and the task is there, unless the
    occurrence is fenced. *)
Lemma dispatch_keeps clock o i s db s' db' : local_dispatch clock o i s db = Ok (s', db') →
  s' = publish o s ∧ keeps db db' ∧
  (is_Some (dget (ld_instance s, o) (db_tasks db')) ∨ is_Some (dget (ld_instance s, o) (db_cancellations db'))).
Proof.
  destruct clock as [now|e].
  - intros (-> & _ & x & _ & [(c & Hc & _ & ->)|(Hc & [(q & Hn & ->)|(t & Ht & _ & [->|(q & _ & _ & ->)])])])%dispatch_spec;
      (split; [done|]).
    + split; [done|]. right. rewrite Hc. eauto.
    + split.
      * split; [|done]. intros k Hk. simpl. rewrite dget_dset. case_decide; eauto.
      * left. simpl. rewrite dget_dset_eq. eauto.
    + split; [done|]. left. rewrite Ht. eauto.
    + split; [apply update_task_keeps|]. left.
      rewrite update_task_tasks, decide_True by done. rewrite Ht. simpl. eauto.
  - unfold local_dispatch. intros H. do 3 (apply bind_Ok in H as (? & _ & H)).
    destruct (dget _ (db_cancellations db)) as [c|] eqn:Hc; [|done]. apply bind_Ok in H as (? & _ & H). injection H as <- <-.
    do 2 (split; [done|]). right. rewrite Hc. eauto.
Qed.

Lemma cancel_keeps c s db d s' db' : local_cancel c s db = Ok (d, s', db') →
  s' = publish (ci_occurrence c) s ∧ db_tasks db' = db_tasks db ∧ is_Some (dget (ld_instance s, ci_occurrence c) (db_cancellations db')) ∧
  ∀ k, k ≠ (ld_instance s, ci_occurrence c) → dget k (db_cancellations db') = dget k (db_cancellations db).
Proof.
  intros (-> & x & _ & _ & [(_ & -> & Hc)|(Hn & -> & _)])%cancel_spec; (split; [done|]).
  - split; [done|]. split; [rewrite Hc; eauto|done].
  - split; [done|]. simpl. rewrite dget_dset_eq.
    split; [eauto|]. intros k Hk. by rewrite dget_dset_ne.
Qed.

Lemma decoded_valid x v : decode_outcome x = Ok v → valid_terminal v.
Proof.
  destruct x as [| | | | | | |d|]; try done. unfold decode_outcome. intros H. apply bind_Ok in H as (kind & _ & H).
  destruct (bool_decide _); [destruct (or_raise _ _); [by injection H as <-|done]|].
  match type of H with _ <$> ?r = _ => destruct r as [f|] eqn:E end; [|done]. injection H as <-. simpl.
  destruct (dget "failure" d) as [y|]; [destruct y; try done|].
  - unfold decode_failure in E. destruct (exact_fields _ _); [|done]. do 5 (apply bind_Ok in E as (? & _ & E)).
    by eapply ActivityFailure_new_valid.
  - do 2 (apply bind_Ok in E as (? & _ & E)). by eapply ActivityFailure_new_valid.
Qed.

Lemma ready_keys s db l :
  mapR (λ kr : Key * TerminalRow, v ← decode_outcome (tr_outcome kr.2); Ok (kr.1.2, v)) (ready_rows s db) = Ok l →
  l.*1 = (λ kr : Key * TerminalRow, kr.1.2) <$> ready_rows s db.
Proof.
  intros H%mapR_Ok. induction H as [|kr a rows l H _ IH]; [done|]. apply bind_Ok in H as (v & _ & [= <-]). csimpl. by rewrite IH.
Qed.

#[export] Program Instance Host_lawful : LawfulDispatch LocalHost :=
  {| provider_ok := λ _, True; owes := host_owes; fenced := host_fenced; handed := host_handed; seen := host_seen |}.
Next Obligation.
  intros o i h r h' _ H. simpl in H. unfold Host_dispatch in H.
  destruct (local_dispatch _ o i _ _) as [[s db]|e] eqn:E; injection H as <- <-; [|by split_and!].
  apply dispatch_keeps in E as (-> & [Ht Hcc] & Hin). unfold host_owes, host_fenced, host_key. simpl. split; [done|].
  split; [intros q [Hp Hq]; split; [set_solver|auto]|]. split; [by rewrite Hcc|]. intros _.
  destruct Hin as [?|?]; [left; split; [set_solver|done]|by right].
Qed.
Next Obligation.
  intros h r h' _ H. simpl in H. unfold Host_collect, local_collect in H. split; [done|].
  destruct (bool_decide _); injection H as <- <-; (split; [done|]); intros l Hl.
  - injection Hl as <-. split; [by constructor|by left].
  - split; [|by left]. apply mapR_Ok in Hl. clear -Hl. induction Hl as [|kr a l l' H _ IH]; [constructor|]. constructor; [|done].
    apply bind_Ok in H as (v & Hv & H). injection H as <-. by eapply decoded_valid.
Qed.
Next Obligation.
  intros run c h r h' [= <-] _ H. unfold Host_cancel in H.
  destruct (local_cancel c _ _) as [[[d s] db]|e] eqn:E; injection H as <- <-; [|by split_and!; eauto].
  apply cancel_keeps in E as (-> & Ht & Hin & Hne). unfold host_owes, host_fenced, host_key. simpl. rewrite Ht. split; [done|].
  split; [intros q _ [Hp Hq]; split; [set_solver|done]|].
  assert (Hq : ∀ q, q ≠ ci_occurrence c → dget (ld_instance (lh_session h), q) (db_cancellations db)
                 = dget (ld_instance (lh_session h), q) (db_cancellations (lh_db h))) by (intros q Hq; apply Hne; congruence).
  split_and!; [intros q|intros q|done]; destruct (decide (q = ci_occurrence c)) as [->|Hd]; auto; rewrite Hq by done; auto.
Qed.
Next Obligation. intros h q _ Hq. unfold host_seen, host_handed in *. set_solver. Qed.
Next Obligation.
  intros o i h r h' _ H. simpl in H. unfold Host_dispatch in H.
  destruct (local_dispatch _ o i _ _) as [[s db]|e] eqn:E; injection H as <- <-; [|by split; auto].
  apply dispatch_keeps in E as (-> & _). unfold host_seen, host_handed. simpl. split; set_solver.
Qed.
Next Obligation.
  intros h l h' _ H. simpl in H. unfold Host_collect, local_collect in H. unfold host_seen, host_handed.
  case_bool_decide; injection H as Hl <-; simpl; [split; auto|]. split; intros q; rewrite !elem_of_union.
  - intros [Hq|Hq]; [right|by left]. apply elem_of_list_to_set in Hq. by rewrite (ready_keys _ _ _ Hl).
  - intros [?|[Hq|?]]; [by left| |by right]. left. apply elem_of_list_to_set in Hq.
    apply list_elem_of_fmap in Hq as (kr & -> & [[_ Hk] _]%list_elem_of_filter). unfold eligible in Hk. set_solver.
Qed.
Next Obligation.
  intros run c h r h' [= <-] _ H. unfold Host_cancel in H.
  destruct (local_cancel c _ _) as [[[d s] db]|e] eqn:E; injection H as <- <-; [|by split; auto].
  apply cancel_keeps in E as (-> & _). unfold host_seen, host_handed. simpl. split; set_solver.
Qed.

(** ** Other processes *)

(** Whatever other processes do: any operation of workers and of sessions, but
    no cancellation for this instance. *)
Definition foreign (instance : string) (op : LocalOp) : Prop :=
  match op with OCancel s _ => ld_instance s ≠ instance | _ => True end.

Lemma perform_foreign P now op db db' instance : foreign instance op → local_perform P now op db = Ok db' →
  ∀ o, (is_Some (dget (instance, o) (db_tasks db)) → is_Some (dget (instance, o) (db_tasks db'))) ∧
       dget (instance, o) (db_cancellations db') = dget (instance, o) (db_cancellations db).
Proof.
  intros Hf H. assert (keeps db db' ∨ ∃ s c, op = OCancel s c) as [[Ht ->]|(s & c & ->)].
  { destruct op as [s o i|s c|w|a d|a v|a e|w]; unfold local_perform in H; eauto;
      try (apply bind_Ok in H as ([? db1] & H & [= <-]); cbn [snd]).
    - apply dispatch_keeps in H as (_ & ? & _). by left.
    - left. by eapply claim_keeps.
    - left. by eapply heartbeat_keeps.
    - unfold local_complete in H. apply bind_Ok in H as (? & _ & H). left. by eapply terminal_keeps.
    - left. by eapply fail_keeps.
    - left. by eapply wait_keeps. }
  - auto.
  - unfold local_perform in H. apply bind_Ok in H as ([[d s'] db1] & H & [= <-]). apply cancel_keeps in H as (_ & Ht & _ & Hne). simpl.
    intros o. rewrite Ht, Hne by congruence. done.
Qed.

(** The engine while other processes run transactions on its database. *)
Definition among_workers {K} (P : Platform) (ops : list (Z * LocalOp)) (e : Engine LocalHost K) : Engine LocalHost K :=
  let h := co_dispatch (en_coordinator e) in
  MkEngine (with_dispatch (MkHost (lh_session h) (local_run P (lh_db h) ops) (lh_clock h) (lh_reads h)) (en_coordinator e))
    (en_resources e) (en_broken e) (en_closed e) (en_resources_closed e) (en_calls e).

Lemma run_foreign P ops instance : Forall (λ top, foreign instance top.2) ops → ∀ db o,
  (is_Some (dget (instance, o) (db_tasks db)) → is_Some (dget (instance, o) (db_tasks (local_run P db ops)))) ∧
  dget (instance, o) (db_cancellations (local_run P db ops)) = dget (instance, o) (db_cancellations db).
Proof.
  induction 1 as [|[now op] ops Hf _ IH]; intros db o; simpl; [done|]. destruct (IH (local_attempt P db (now, op)) o) as [IH1 IH2].
  rewrite IH2. unfold local_attempt in *. simpl in *. destruct (local_perform P now op db) as [db'|] eqn:E; [|done].
  destruct (perform_foreign _ _ _ _ _ _ Hf E o) as [H1 H2]. rewrite H2. auto.
Qed.

(** ** The inline provider *)

(** [InlineDispatch], with the elapsed times its retry loop reads. *)
Record InlineHost := MkInlineHost { ih_dispatch : InlineDispatch; ih_elapsed : Z → Number }.

#[export] Instance Inline_provider : Dispatch InlineHost := {
  dispatch o i h := let '(r, d) := Inline_dispatch (ih_elapsed h) o i (ih_dispatch h) in (r, MkInlineHost d (ih_elapsed h));
  collect h := let '(r, d) := Inline_collect (ih_dispatch h) in (r, MkInlineHost d (ih_elapsed h));
  cancel := Some (λ c h, let '(r, d) := Inline_cancel c (ih_dispatch h) in (r, MkInlineHost d (ih_elapsed h)))
}.

(** The failures an Activity raises passed their constructor. *)
Definition inline_ok (h : InlineHost) : Prop :=
  Forall valid_arrival (in_completed (ih_dispatch h)) ∧
  ∀ name run i n f, dget name (in_activities (ih_dispatch h)) = Some run → run i n = inr (RaisedActivityError f) → valid_failure f.

Lemma attempts_valid run elapsed i budget : (∀ i n f, run i n = inr (RaisedActivityError f) → valid_failure f) →
  ∀ n f, inline_attempts run elapsed i budget n = inr (RaisedActivityError f) → valid_failure f.
Proof.
  intros Hr. induction budget as [|budget IH]; intros n f; simpl; [done|]. destruct (run i n) as [v|raised] eqn:E; [done|].
  destruct (classify_inline_failure raised) as [g|x]; [|by destruct x]. destruct (_ || _ || _); [|apply IH].
  intros [= ->]. by eapply Hr.
Qed.

Lemma classified_valid r f : (∀ g, r = RaisedActivityError g → valid_failure g) → classify_inline_failure r = Ok f → valid_failure f.
Proof. destruct r as [g|text kind]; simpl; [intros Hg [= <-]; by apply Hg|]. intros _. apply ActivityFailure_new_valid. Qed.

#[export] Program Instance Inline_lawful : LawfulDispatch InlineHost := {|
  provider_ok := inline_ok;
  owes h o := o ∈ (in_completed (ih_dispatch h)).*1;
  fenced h o := is_Some (dget o (in_cancelled (ih_dispatch h)));
  handed _ _ := False;
  seen _ _ := False
|}.
Next Obligation.
  intros o i [d el] r h' [Hv Ha] H. simpl in *. unfold Inline_dispatch in H. destruct (dget o (in_cancelled d)) as [fence|] eqn:Hf.
  - destruct (negb _); injection H as <- <-; simpl; split_and!; eauto; done.
  - assert (Hcall : ∀ f, inline_call d el i = inr (RaisedActivityError f) → valid_failure f).
    { unfold inline_call. intros f. destruct (dget (inv_activity i) _) as [run|] eqn:Er; [|intros ?; discriminate]. apply attempts_valid. intros j n g. by eapply Ha. }
    destruct (inline_call d el i) as [v|raised]; [|destruct (classify_inline_failure raised) as [f|] eqn:Ec]; injection H as <- <-;
      simpl; rewrite ?fmap_app; split_and!; try done; simpl; try (set_solver).
    + split; [|done]. apply Forall_app. split; [done|]. by repeat constructor.
    + split; [|done]. apply Forall_app. split; [done|]. repeat constructor. eapply classified_valid; [|done]. intros g ->. by apply Hcall.
Qed.
Next Obligation.
  intros [d el] r h' [Hv Ha] H. simpl in *. injection H as <- <-. simpl. split; [by split; [constructor|]|]. split; [done|].
  intros l [= <-]. split; [done|]. by right.
Qed.
Next Obligation.
  intros run c [d el] r h' [= <-] [Hv Ha] H. simpl in *. unfold Inline_cancel in H. destruct (dget (ci_occurrence c) (in_cancelled d)) eqn:Hf.
  - injection H as <- <-. simpl. split_and!; eauto; done.
  - injection H as <- <-. simpl. split_and!; try done; intros q; rewrite is_Some_dset; tauto.
Qed.
Solve All Obligations with (simpl; tauto).

Section local_engine.
  Context {K S : Type} `{HK : Clock K} `{HS : SelectionPolicy S}.

(** What a host may open an Instance with: a session that was told only of
    occurrences of its history, and has handed over none still open. A new
    session was told of nothing. *)
Definition opens (h : LocalHost) (l : Live) : Prop :=
  (∀ o, host_seen h o → o < next_occurrence l) ∧ ∀ o, host_handed h o → ¬ open_activity l o.

Definition untold (h : LocalHost) : Prop := ∀ o, ¬ host_seen h o.

(** An Engine over the durable provider, from its creation on: the calls of its
    host however they end, the transactions of workers and other sessions in
    between, and the hosts that load its history after it. *)
Inductive attended (P : Platform) (policy : DrivingPolicy) (sel : S) : Engine LocalHost K → Prop :=
| attended_create cel n identity st h m at_ im clock sensor activities timeout commit resources e :
    built n → untold h → (∀ o, ¬ host_fenced h o) →
    Engine_init cel n identity st h true m at_ im sel clock sensor activities timeout commit resources = Ok e →
    attended P policy sel e
| attended_call call e r e' : attended P policy sel e → engine_call policy sel call e = (r, e') → attended P policy sel e'
| attended_workers e ops :
    attended P policy sel e → Forall (λ top, foreign (ld_instance (lh_session (co_dispatch (en_coordinator e)))) top.2) ops →
    attended P policy sel (among_workers P ops e)
| attended_load e cel im st h identity m at_ clock sensor activities timeout commit resources e' :
    attended P policy sel e → st_records st = history (co_instance (en_coordinator e)) →
    (∀ q, host_fenced h q → host_fenced (co_dispatch (en_coordinator e)) q) → opens h (live (co_instance (en_coordinator e))) →
    Engine_init cel (net (config (co_instance (en_coordinator e)))) identity st h false m at_ im sel clock sensor activities timeout
      commit resources = Ok e' →
    attended P policy sel e'.

Definition nothing (o : Z) : Prop := False.

Lemma among_workers_inv P ops (e : Engine LocalHost K) :
  Forall (λ top, foreign (ld_instance (lh_session (co_dispatch (en_coordinator e)))) top.2) ops →
  engine_inv_from nothing e → engine_inv_from nothing (among_workers P ops e).
Proof.
  intros Hops [Hc Hs]. pose proof (run_foreign P ops _ Hops (lh_db (co_dispatch (en_coordinator e)))) as Hrun. split; simpl.
  - destruct Hc as [H1 H2 H3 H4]. split; simpl; [done..|]. intros q [x Hx]. apply H4. exists x.
    rewrite <-Hx. symmetry. apply Hrun.
  - intros Hb. destruct (Hs Hb) as [C1 C2 C3]. split; simpl; [|done..].
    intros o Ho. destruct (C1 o Ho) as [[Hp Ht]|?]; [left|by right]. split; [done|]. by apply Hrun.
Qed.


End local_engine.

(** ** The hosted net over the durable provider *)











