(* ===== verification/AgentText.v ===== *)
(** * Field checks and wire decoding shared by the agent values

    The text, code and integer checks of src/src/petrus/agenticus (each package
    has its own copy of them), exact JSON objects, and the tactics that turn a
    constructor's checks into facts and back. *)

From stdpp Require Import base gmap sets list strings.
From Stdlib Require Import Ascii ZArith Lia.
From S2P Require Import Prelude PyData Schema.
Open Scope string_scope.
Open Scope list_scope.
Open Scope Z_scope.

Definition MAX_TEXT_BYTES : nat := 256.

(** ** Text fields *)

Definition bytes_str (l : list N) : string := foldr (λ n s, String (Ascii.ascii_of_N n) s) EmptyString l.

(** The UTF-8 spellings of the characters [str.strip] removes. *)
Definition whitespace : list string :=
  bytes_str <$> ([[9]; [10]; [11]; [12]; [13]; [28]; [29]; [30]; [31]; [32]; [194; 133]; [194; 160]; [225; 154; 128];
    [226; 128; 128]; [226; 128; 129]; [226; 128; 130]; [226; 128; 131]; [226; 128; 132]; [226; 128; 133];
    [226; 128; 134]; [226; 128; 135]; [226; 128; 136]; [226; 128; 137]; [226; 128; 138]; [226; 128; 168];
    [226; 128; 169]; [226; 128; 175]; [226; 129; 159]; [227; 128; 128]]%N).

Fixpoint endswith (w s : string) : bool :=
  String.eqb w s || match s with EmptyString => false | String _ s => endswith w s end.

(** [value == value.strip()] *)
Definition stripped (s : string) : bool :=
  forallb (λ w, negb (startswith w s) && negb (endswith w s)) whitespace.

(** [_text] *)
Definition text_ok (s : string) : bool :=
  negb (str_empty s) && stripped s && (String.length s <=? MAX_TEXT_BYTES)%nat
  && str_forall (λ a, (32 <=? char_code a)%nat) s.

Definition text (s : string) : result string :=
  raise_if (negb (text_ok s)) (ValueError "must be a non-empty, trimmed string");; Ok s.

Definition is_lower (a : ascii) : bool := in_range 97 122 (char_code a).
Definition is_separator (a : ascii) : bool := Ascii.eqb a "." || Ascii.eqb a "_" || Ascii.eqb a "-".

(** The rest of [re.fullmatch(r"[a-z][a-z0-9]*(?:[._-][a-z0-9]+)*", s)] after its
    first letter; [fresh] says the character before was a separator. *)
Fixpoint code_tail (fresh : bool) (s : string) : bool :=
  match s with
  | EmptyString => negb fresh
  | String a s =>
      if is_lower a || is_digit a then code_tail false s
      else is_separator a && negb fresh && code_tail true s
  end.

Definition code_ok (s : string) : bool :=
  match s with String a s => is_lower a && code_tail false s | EmptyString => false end.

(** [_code] *)
Definition code (s : string) : result string :=
  s ← text s;
  raise_if (negb (code_ok s)) (ValueError "must be a lowercase dotted, dashed, or underscored code");; Ok s.

(** [_positive_integer] *)
Definition positive_integer (z : Z) : result Z :=
  raise_if (z <=? 0) (ValueError "must be a positive integer");; Ok z.

(** [_nonnegative_integer] *)
Definition nonnegative_integer (z : Z) : result Z :=
  raise_if (z <? 0) (ValueError "must be a nonnegative integer");; Ok z.

Definition opt_check {A} (f : A → result A) (x : option A) : result (option A) :=
  match x with Some x => y ← f x; Ok (Some y) | None => Ok None end.

(** ** Decoding *)

(** [_exact_object] *)
Definition exact_object (fields : list string) (x : Data) : result (dict string Data) :=
  match x with
  | DDict d =>
      raise_if (negb (forallb (λ k, bool_decide (k ∈ fields)) (dkeys d) && forallb (λ k, dmem k d) fields))
        (ValueError "exact fields required");;
      Ok d
  | _ => Err (ValueError "exact fields required")
  end.

Definition item (d : dict string Data) (k : string) : result Data := or_raise (dget k d) (KeyError k).

Definition d_text (x : Data) : result string :=
  match x with DStr s => text s | _ => Err (ValueError "must be a non-empty, trimmed string") end.
Definition d_code (x : Data) : result string :=
  match x with DStr s => code s | _ => Err (ValueError "must be a non-empty, trimmed string") end.
Definition d_positive (x : Data) : result Z :=
  match x with DInt z => positive_integer z | _ => Err (ValueError "must be a positive integer") end.
Definition d_opt {A} (f : Data → result A) (x : Data) : result (option A) :=
  match x with DNone => Ok None | _ => y ← f x; Ok (Some y) end.
Definition d_version (x : Data) : result unit :=
  raise_if (negb (bool_decide (x = DInt 1))) (ValueError "schema_version must be integer 1").
Definition e_opt {A} (f : A → Data) (x : option A) : Data := match x with Some x => f x | None => DNone end.

Definition d_nonnegative (x : Data) : result Z :=
  match x with DInt z => nonnegative_integer z | _ => Err (ValueError "must be a nonnegative integer") end.

(** A JSON array of values. *)
Definition d_list {A} (f : Data → result A) (x : Data) : result (list A) :=
  match x with DList l => mapR f l | _ => Err (TypeError "must be a JSON array") end.

(** [Enum(value)]: the member with that value. *)
Definition d_enum {A} (members : list A) (value : A → string) (x : Data) : result A :=
  match x with
  | DStr s => or_raise (List.find (λ m, String.eqb (value m) s) members) (ValueError "is not supported")
  | _ => Err (ValueError "is not supported")
  end.

#[global] Arguments d_enum : simpl never.

(** ** What the checks say *)

Lemma checked_Ok {A} (b : bool) (e : exn) (s x : A) :
  (raise_if (negb b) e;; Ok s) = Ok x ↔ x = s ∧ b = true.
Proof.
  split; [intros H; inv_ok; by match goal with H : negb _ = false |- _ => apply negb_false_iff in H end|].
  by intros [-> ->].
Qed.

Lemma text_Ok s x : text s = Ok x ↔ x = s ∧ text_ok s = true.
Proof. apply checked_Ok. Qed.

Lemma code_Ok s x : code s = Ok x ↔ x = s ∧ text_ok s = true ∧ code_ok s = true.
Proof.
  unfold code. split.
  - intros (y & [-> ?]%text_Ok & [-> ?]%checked_Ok)%bind_Ok. done.
  - intros (-> & Ht & Hc). rewrite (proj2 (text_Ok s s)) by done. by apply checked_Ok.
Qed.

Lemma positive_Ok z x : positive_integer z = Ok x ↔ x = z ∧ 0 < z.
Proof.
  unfold positive_integer. rewrite <-(negb_involutive (z <=? 0)), checked_Ok, negb_true_iff. by rewrite Z.leb_gt.
Qed.

Lemma d_opt_round_trip {A} (f : Data → result A) (g : A → Data) (x : option A) :
  (∀ y, g y ≠ DNone) → (∀ y, x = Some y → f (g y) = Ok y) → d_opt f (e_opt g x) = Ok x.
Proof.
  intros Hn Hx. destruct x as [y|]; [|done]. unfold e_opt, d_opt. pose proof (Hn y) as Hy. rewrite (Hx y eq_refl).
  by destruct (g y).
Qed.

(** ** Graphic texts *)

Definition graphic (a : ascii) : bool := in_range 33 126 (char_code a).

Lemma endswith_forall p w s : endswith w s = true → str_forall p s = true → str_forall p w = true.
Proof.
  induction s as [|a s IH]; simpl; rewrite orb_true_iff.
  - by intros [->%String.eqb_eq|?].
  - intros [->%String.eqb_eq|?]; [done|]. intros [_ ?]%andb_true_iff. auto.
Qed.

Lemma startswith_forall p w s : startswith w s = true → str_forall p s = true → str_forall p w = true.
Proof.
  unfold startswith. revert s. induction w as [|a w IH]; intros [|b s]; simpl; [done..|].
  destruct (ascii_dec a b) as [->|]; [|done]. intros Hw [-> ?]%andb_true_iff. simpl. by eapply IH.
Qed.

Lemma str_forall_impl (p p' : ascii → bool) s : (∀ a, p a = true → p' a = true) → str_forall p s = true → str_forall p' s = true.
Proof.
  intros Hp. induction s as [|a s IH]; simpl; [done|]. intros [Ha Hs]%andb_true_iff. by rewrite Hp, IH.
Qed.

Lemma str_forall_app p s t : str_forall p (s +:+ t) = str_forall p s && str_forall p t.
Proof. induction s as [|a s IH]; simpl; [done|]. by rewrite IH, andb_assoc. Qed.

Lemma graphic_stripped s : str_forall graphic s = true → stripped s = true.
Proof.
  intros Hg. apply forallb_forall. intros w Hin%list_elem_of_In.
  assert (Forall (λ w, str_forall graphic w = false) whitespace) as Hw by (repeat constructor).
  eapply Forall_forall in Hw; [|done].
  destruct (startswith w s) eqn:E1; [by rewrite (startswith_forall _ _ _ E1 Hg) in Hw|].
  destruct (endswith w s) eqn:E2; [by rewrite (endswith_forall _ _ _ E2 Hg) in Hw|done].
Qed.

(** ** Round trips *)

Create HintDb enums.

Lemma text_true s : text_ok s = true → text s = Ok s.
Proof. intros H. by apply text_Ok. Qed.

Lemma positive_true z : 0 < z → positive_integer z = Ok z.
Proof. intros H. by apply positive_Ok. Qed.

Lemma nonnegative_true z : 0 <= z → nonnegative_integer z = Ok z.
Proof. intros H. unfold nonnegative_integer. destruct (Z.ltb_spec z 0); [lia|done]. Qed.

(** Decode field by field. *)
Ltac decode :=
  repeat first
  [ progress csimpl
  | progress autorewrite with enums
  | rewrite text_true by done
  | rewrite positive_true by done
  | rewrite nonnegative_true by done ].

Lemma mapR_round_trip {A} (f : Data → result A) (g : A → Data) (P : A → Prop) l :
  (∀ x, P x → f (g x) = Ok x) → Forall P l → mapR f (g <$> l) = Ok l.
Proof. intros H. induction 1 as [|x l Hx _ IH]; csimpl; [done|]. rewrite (H x Hx). csimpl. by rewrite IH. Qed.
