(* ===== verification/Effect.v ===== *)
(** * External effects (src/src/petrus/agenticus/effect/)

    The values by which a host proposes, fences, approves and evidences an
    external effect ([model.py]) and the gateway that runs an approved one
    ([gateway.py]). The gateway is written against the host's adapter and fence
    source, whose answers it cannot trust: it is a tree of calls, each with a
    continuation for every answer (a value of the expected class, another
    object, or an exception). The SHA-256 digest of a canonical text is a
    parameter. Checks of a field's class are typing here. *)

From stdpp Require Import base gmap sets list strings.
From Stdlib Require Import Ascii ZArith Lia.
From S2P Require Import Prelude PyData Schema AgentText.
Open Scope string_scope.
Open Scope list_scope.
Open Scope Z_scope.

Definition EFFECT_SCHEMA_VERSION : Z := 1.

(** ** Digests *)

Definition is_hex_lower (a : ascii) : bool := is_digit a || in_range 97 102 (char_code a).

(** [re.fullmatch(r"sha256:[0-9a-f]{64}", s)] *)
Definition digest_ok (s : string) : bool :=
  startswith "sha256:" s && (String.length s =? 71)%nat && str_forall is_hex_lower (String.substring 7 64 s).

(** [_digest] *)
Definition digest (s : string) : result string :=
  raise_if (negb (digest_ok s)) (ValueError "must be a lowercase SHA-256 digest");; Ok s.

(** ** Payloads *)

(** [_strict_json] *)
Fixpoint effect_strict_json (x : Data) : bool :=
  match x with
  | DNone | DStr _ | DBool _ | DInt _ => true
  | DList l => forallb effect_strict_json l
  | DDict d => forallb (λ kv, effect_strict_json kv.2) d
  | DFloat _ _ | DTuple _ | DObject _ => false
  end.

(** [_payload_copy]: the value its sorted canonical text reads back as. *)
Definition payload_copy (payload : Data) : result Data :=
  match payload with
  | DDict _ =>
      raise_if (negb (effect_strict_json payload)) (TypeError "effect payload must contain only strict JSON values");;
      Ok (canonical_payload_text payload)
  | _ => Err (TypeError "effect payload must be a strict JSON object")
  end.

Definition d_digest (x : Data) : result string :=
  match x with DStr s => digest s | _ => Err (ValueError "must be a lowercase SHA-256 digest") end.

(** ** Targets and proposals *)

Record TargetIdentity := MkTargetIdentity { target_type : string; target_id : string }.

#[export] Instance TargetIdentity_eq_dec : EqDecision TargetIdentity.
Proof. solve_decision. Defined.

Definition TargetIdentity_new (target_type target_id : string) : result TargetIdentity :=
  target_type ← code target_type; target_id ← text target_id; Ok (MkTargetIdentity target_type target_id).

Definition target_to_data (t : TargetIdentity) : Data :=
  DDict [("target_type", DStr (target_type t)); ("target_id", DStr (target_id t))].

Definition target_from_data (x : Data) : result TargetIdentity :=
  d ← exact_object ["target_type"; "target_id"] x;
  ty ← item d "target_type"; ty ← d_code ty; id ← item d "target_id"; id ← d_text id;
  TargetIdentity_new ty id.

Record EffectProposal := MkEffectProposal {
  proposal_id : string;
  effect_type : string;
  effect_version : Z;
  payload_digest : string;
  target : TargetIdentity;
  requested_authority_class : string
}.

Definition EffectProposal_new (id ty : string) (version : Z) (payload : string) (target : TargetIdentity)
    (authority : string) : result EffectProposal :=
  id ← text id; ty ← code ty; version ← positive_integer version; payload ← digest payload;
  authority ← code authority;
  Ok (MkEffectProposal id ty version payload target authority).

Definition proposal_to_data (p : EffectProposal) : Data :=
  DDict [("schema_version", DInt EFFECT_SCHEMA_VERSION); ("proposal_id", DStr (proposal_id p));
         ("effect_type", DStr (effect_type p)); ("effect_version", DInt (effect_version p));
         ("payload_digest", DStr (payload_digest p)); ("target", target_to_data (target p));
         ("requested_authority_class", DStr (requested_authority_class p))].

Definition proposal_from_data (x : Data) : result EffectProposal :=
  d ← exact_object ["schema_version"; "proposal_id"; "effect_type"; "effect_version"; "payload_digest"; "target";
        "requested_authority_class"] x;
  v ← item d "schema_version"; d_version v;;
  id ← item d "proposal_id"; id ← d_text id; ty ← item d "effect_type"; ty ← d_code ty;
  ver ← item d "effect_version"; ver ← d_positive ver; pd ← item d "payload_digest"; pd ← d_digest pd;
  t ← item d "target"; t ← target_from_data t;
  a ← item d "requested_authority_class"; a ← d_code a;
  EffectProposal_new id ty ver pd t a.

(** ** Fences *)

Record EffectFence := MkEffectFence {
  fence_proposal_id : string;
  fence_proposal_digest : string;
  authority_epoch : Z;
  target_head : string;
  episode_id : string;
  attachment_id : string;
  attachment_epoch : Z
}.

#[export] Instance EffectFence_eq_dec : EqDecision EffectFence.
Proof. solve_decision. Defined.

Definition EffectFence_new (id pd : string) (authority : Z) (head episode attachment : string) (epoch : Z) : result EffectFence :=
  id ← text id; head ← text head; episode ← text episode; attachment ← text attachment;
  pd ← digest pd; authority ← positive_integer authority; epoch ← positive_integer epoch;
  Ok (MkEffectFence id pd authority head episode attachment epoch).

Definition fence_to_data (f : EffectFence) : Data :=
  DDict [("schema_version", DInt EFFECT_SCHEMA_VERSION); ("proposal_id", DStr (fence_proposal_id f));
         ("proposal_digest", DStr (fence_proposal_digest f)); ("authority_epoch", DInt (authority_epoch f));
         ("target_head", DStr (target_head f)); ("episode_id", DStr (episode_id f));
         ("attachment_id", DStr (attachment_id f)); ("attachment_epoch", DInt (attachment_epoch f))].

Definition fence_from_data (x : Data) : result EffectFence :=
  d ← exact_object ["schema_version"; "proposal_id"; "proposal_digest"; "authority_epoch"; "target_head"; "episode_id";
        "attachment_id"; "attachment_epoch"] x;
  v ← item d "schema_version"; d_version v;;
  id ← item d "proposal_id"; id ← d_text id; pd ← item d "proposal_digest"; pd ← d_digest pd;
  ae ← item d "authority_epoch"; ae ← d_positive ae; th ← item d "target_head"; th ← d_text th;
  ep ← item d "episode_id"; ep ← d_text ep; at_ ← item d "attachment_id"; at_ ← d_text at_;
  te ← item d "attachment_epoch"; te ← d_positive te;
  EffectFence_new id pd ae th ep at_ te.

(** ** Receipts, lookups and evidence *)

Record EffectReceipt := MkEffectReceipt {
  receipt_proposal_id : string;
  receipt_proposal_digest : string;
  receipt_payload_digest : string;
  receipt_target : TargetIdentity;
  receipt_digest : string
}.

Definition EffectReceipt_new (id pd payload : string) (target : TargetIdentity) (rd : string) : result EffectReceipt :=
  id ← text id; pd ← digest pd; payload ← digest payload; rd ← digest rd;
  Ok (MkEffectReceipt id pd payload target rd).

Definition receipt_to_data (r : EffectReceipt) : Data :=
  DDict [("schema_version", DInt EFFECT_SCHEMA_VERSION); ("proposal_id", DStr (receipt_proposal_id r));
         ("proposal_digest", DStr (receipt_proposal_digest r)); ("payload_digest", DStr (receipt_payload_digest r));
         ("target", target_to_data (receipt_target r)); ("receipt_digest", DStr (receipt_digest r))].

Definition receipt_from_data (x : Data) : result EffectReceipt :=
  d ← exact_object ["schema_version"; "proposal_id"; "proposal_digest"; "payload_digest"; "target"; "receipt_digest"] x;
  v ← item d "schema_version"; d_version v;;
  id ← item d "proposal_id"; id ← d_text id; pd ← item d "proposal_digest"; pd ← d_digest pd;
  yd ← item d "payload_digest"; yd ← d_digest yd; t ← item d "target"; t ← target_from_data t;
  rd ← item d "receipt_digest"; rd ← d_digest rd;
  EffectReceipt_new id pd yd t rd.

Inductive LookupDisposition := APPLIED | SAFE_TO_RETRY | SUPERSEDED | INDETERMINATE.

#[export] Instance LookupDisposition_eq_dec : EqDecision LookupDisposition.
Proof. solve_decision. Defined.

Definition disposition_value (d : LookupDisposition) : string :=
  match d with
  | APPLIED => "applied" | SAFE_TO_RETRY => "safe-to-retry"
  | SUPERSEDED => "superseded" | INDETERMINATE => "indeterminate"
  end.

(** [LookupDisposition(value)] *)
Definition d_disposition (x : Data) : result LookupDisposition :=
  match x with
  | DStr s =>
      if String.eqb s "applied" then Ok APPLIED
      else if String.eqb s "safe-to-retry" then Ok SAFE_TO_RETRY
      else if String.eqb s "superseded" then Ok SUPERSEDED
      else if String.eqb s "indeterminate" then Ok INDETERMINATE
      else Err (ValueError "lookup disposition is not supported")
  | _ => Err (ValueError "lookup disposition is not supported")
  end.

Record LookupResult := MkLookupResult { disposition : LookupDisposition; receipt : option EffectReceipt }.

Definition LookupResult_new (d : LookupDisposition) (r : option EffectReceipt) : result LookupResult :=
  raise_if (negb (Bool.eqb (bool_decide (d = APPLIED)) (bool_decide (is_Some r))))
    (ValueError "only an applied lookup requires an EffectReceipt");;
  Ok (MkLookupResult d r).

(** [LookupResult.indeterminate()] *)
Definition lookup_indeterminate : LookupResult := MkLookupResult INDETERMINATE None.

Definition lookup_to_data (l : LookupResult) : Data :=
  DDict [("schema_version", DInt EFFECT_SCHEMA_VERSION); ("disposition", DStr (disposition_value (disposition l)));
         ("receipt", e_opt receipt_to_data (receipt l))].

Definition lookup_from_data (x : Data) : result LookupResult :=
  d ← exact_object ["schema_version"; "disposition"; "receipt"] x;
  v ← item d "schema_version"; d_version v;;
  di ← item d "disposition"; di ← d_disposition di; r ← item d "receipt"; r ← d_opt receipt_from_data r;
  LookupResult_new di r.

Record EffectEvidence := MkEffectEvidence {
  evidence_proposal_id : string;
  evidence_proposal_digest : string;
  evidence_payload_digest : string;
  evidence_target : TargetIdentity;
  evidence_fence : EffectFence;
  recovery : option LookupDisposition;
  evidence_receipt_digest : option string
}.

Definition EffectEvidence_new (id pd payload : string) (target : TargetIdentity) (fence : EffectFence)
    (recovery : option LookupDisposition) (rd : option string) : result EffectEvidence :=
  id ← text id; pd ← digest pd; payload ← digest payload;
  raise_if (negb (String.eqb (fence_proposal_id fence) id && String.eqb (fence_proposal_digest fence) pd))
    (ValueError "effect evidence fence does not match its proposal");;
  rd ← opt_check digest rd;
  raise_if (bool_decide (recovery = Some APPLIED) && bool_decide (rd = None))
    (ValueError "applied evidence requires a receipt digest");;
  raise_if (negb (bool_decide (recovery = None) || bool_decide (recovery = Some APPLIED)) && bool_decide (is_Some rd))
    (ValueError "non-applied recovery evidence cannot carry a receipt digest");;
  raise_if (bool_decide (recovery = None) && bool_decide (rd = None))
    (ValueError "direct execution evidence requires a receipt digest");;
  Ok (MkEffectEvidence id pd payload target fence recovery rd).

Definition evidence_to_data (e : EffectEvidence) : Data :=
  DDict [("schema_version", DInt EFFECT_SCHEMA_VERSION); ("proposal_id", DStr (evidence_proposal_id e));
         ("proposal_digest", DStr (evidence_proposal_digest e)); ("payload_digest", DStr (evidence_payload_digest e));
         ("target", target_to_data (evidence_target e)); ("fence", fence_to_data (evidence_fence e));
         ("recovery", e_opt (λ d, DStr (disposition_value d)) (recovery e));
         ("receipt_digest", e_opt DStr (evidence_receipt_digest e))].

Definition evidence_from_data (x : Data) : result EffectEvidence :=
  d ← exact_object ["schema_version"; "proposal_id"; "proposal_digest"; "payload_digest"; "target"; "fence"; "recovery";
        "receipt_digest"] x;
  v ← item d "schema_version"; d_version v;;
  rc ← item d "recovery"; rc ← d_opt d_disposition rc;
  rd ← item d "receipt_digest"; rd ← d_opt d_digest rd;
  id ← item d "proposal_id"; id ← d_text id; pd ← item d "proposal_digest"; pd ← d_digest pd;
  yd ← item d "payload_digest"; yd ← d_digest yd; t ← item d "target"; t ← target_from_data t;
  f ← item d "fence"; f ← fence_from_data f;
  EffectEvidence_new id pd yd t f rc rd.

(** ** Decisions *)

Inductive EffectDecisionKind := REJECT | APPROVE | EXECUTE | ALREADY_APPLIED | KIND_SUPERSEDED | KIND_INDETERMINATE.

#[export] Instance EffectDecisionKind_eq_dec : EqDecision EffectDecisionKind.
Proof. solve_decision. Defined.

Definition kind_value (k : EffectDecisionKind) : string :=
  match k with
  | REJECT => "reject" | APPROVE => "approve" | EXECUTE => "execute" | ALREADY_APPLIED => "already-applied"
  | KIND_SUPERSEDED => "superseded" | KIND_INDETERMINATE => "indeterminate"
  end.

Definition d_decision_kind (x : Data) : result EffectDecisionKind :=
  match x with
  | DStr s =>
      if String.eqb s "reject" then Ok REJECT
      else if String.eqb s "approve" then Ok APPROVE
      else if String.eqb s "execute" then Ok EXECUTE
      else if String.eqb s "already-applied" then Ok ALREADY_APPLIED
      else if String.eqb s "superseded" then Ok KIND_SUPERSEDED
      else if String.eqb s "indeterminate" then Ok KIND_INDETERMINATE
      else Err (ValueError "effect decision kind is not supported")
  | _ => Err (ValueError "effect decision kind is not supported")
  end.

Record EffectDecision := MkEffectDecision {
  kind : EffectDecisionKind;
  decision_proposal_id : string;
  decision_proposal_digest : string;
  fence : option EffectFence;
  evidence : option EffectEvidence;
  reason_code : option string
}.

Definition validate_rejection (d : EffectDecision) : result unit :=
  raise_if (bool_decide (reason_code d = None) || bool_decide (is_Some (fence d)) || bool_decide (is_Some (evidence d)))
    (ValueError "reject requires only a secret-free reason code").

Definition validate_approval (d : EffectDecision) : result unit :=
  raise_if (bool_decide (fence d = None) || bool_decide (is_Some (evidence d)) || bool_decide (is_Some (reason_code d)))
    (ValueError "approve requires exactly one fence").

(** The [expected_recovery] table; a rejection or approval has no row. *)
Definition expected_recovery (k : EffectDecisionKind) : option (list (option LookupDisposition)) :=
  match k with
  | EXECUTE => Some [None]
  | ALREADY_APPLIED => Some [Some APPLIED]
  | KIND_SUPERSEDED => Some [Some SUPERSEDED]
  | KIND_INDETERMINATE => Some [Some SAFE_TO_RETRY; Some INDETERMINATE]
  | REJECT | APPROVE => None
  end.

Definition validate_outcome (d : EffectDecision) : result unit :=
  match fence d, evidence d, reason_code d with
  | Some _, Some e, None =>
      expected ← or_raise (expected_recovery (kind d)) (KeyError "decision kind");
      raise_if (negb (bool_decide (recovery e ∈ expected)))
        (ValueError "effect evidence recovery does not match the decision kind")
  | _, _, _ => Err (ValueError "execution decisions require exact fence and evidence values")
  end.

Definition validate_correlation (d : EffectDecision) : result unit :=
  f ← or_raise (fence d) (RuntimeError "non-rejection decision has no fence");
  raise_if (negb (String.eqb (fence_proposal_id f) (decision_proposal_id d)
                  && String.eqb (fence_proposal_digest f) (decision_proposal_digest d)))
    (ValueError "effect decision fence does not match its proposal");;
  match evidence d with
  | None => Ok tt
  | Some e =>
      raise_if (negb (String.eqb (evidence_proposal_id e) (decision_proposal_id d)
                      && String.eqb (evidence_proposal_digest e) (decision_proposal_digest d)
                      && bool_decide (evidence_fence e = f)))
        (ValueError "effect decision evidence does not match its proposal and fence")
  end.

(** [EffectDecision.__post_init__] *)
Definition EffectDecision_new (k : EffectDecisionKind) (id pd : string) (fence : option EffectFence)
    (evidence : option EffectEvidence) (reason : option string) : result EffectDecision :=
  id ← text id; pd ← digest pd; reason ← opt_check code reason;
  let d := MkEffectDecision k id pd fence evidence reason in
  (match k with
   | REJECT => validate_rejection d
   | APPROVE => validate_approval d;; validate_correlation d
   | _ => validate_outcome d;; validate_correlation d
   end);;
  Ok d.

Definition decision_to_data (d : EffectDecision) : Data :=
  DDict [("schema_version", DInt EFFECT_SCHEMA_VERSION); ("kind", DStr (kind_value (kind d)));
         ("proposal_id", DStr (decision_proposal_id d)); ("proposal_digest", DStr (decision_proposal_digest d));
         ("fence", e_opt fence_to_data (fence d)); ("evidence", e_opt evidence_to_data (evidence d));
         ("reason_code", e_opt DStr (reason_code d))].

Definition decision_from_data (x : Data) : result EffectDecision :=
  d ← exact_object ["schema_version"; "kind"; "proposal_id"; "proposal_digest"; "fence"; "evidence"; "reason_code"] x;
  v ← item d "schema_version"; d_version v;;
  k ← item d "kind"; k ← d_decision_kind k;
  id ← item d "proposal_id"; id ← d_text id; pd ← item d "proposal_digest"; pd ← d_digest pd;
  f ← item d "fence"; f ← d_opt fence_from_data f; e ← item d "evidence"; e ← d_opt evidence_from_data e;
  r ← item d "reason_code"; r ← d_opt d_code r;
  EffectDecision_new k id pd f e r.

(** ** The effect gateway (src/src/petrus/agenticus/effect/gateway.py)

    [EffectGateway.execute] as a tree of calls to the host, and its runs
    against a host with a state of its own. *)

(** What a call to the host gives: a value of the expected class, another
    object, or an exception. *)
Inductive answer (A : Type) :=
| Returned (a : A)
| OtherObject
| Raised.
Arguments Returned {A} a.
Arguments OtherObject {A}.
Arguments Raised {A}.

Inductive interaction :=
| Done (r : result EffectDecision)
| Lookup (p : EffectProposal) (k : answer LookupResult → interaction)
| Current (p : EffectProposal) (k : answer EffectFence → interaction)
| Execute (p : EffectProposal) (payload : Data) (f : EffectFence) (k : answer EffectReceipt → interaction).

Section gateway.
(** [hashlib.sha256(text).hexdigest()] *)
Context (sha256_hex : Data → string).

Definition digest_of (x : Data) : string := "sha256:" +:+ sha256_hex (canonical_payload_text x).

(** [EffectProposal.digest] *)
Definition proposal_digest (p : EffectProposal) : string := digest_of (proposal_to_data p).

Definition digest_payload (payload : Data) : result string :=
  copied ← payload_copy payload; Ok (digest_of copied).

(** [EffectFence.matches] *)
Definition matches (f : EffectFence) (p : EffectProposal) : bool :=
  String.eqb (fence_proposal_id f) (proposal_id p) && String.eqb (fence_proposal_digest f) (proposal_digest p).

(** [EffectReceipt.correlates] *)
Definition correlates (r : EffectReceipt) (p : EffectProposal) : bool :=
  String.eqb (receipt_proposal_id r) (proposal_id p) && String.eqb (receipt_proposal_digest r) (proposal_digest p)
  && String.eqb (receipt_payload_digest r) (payload_digest p) && bool_decide (receipt_target r = target p).

Definition reject (p : EffectProposal) (reason : string) : result EffectDecision :=
  EffectDecision_new REJECT (proposal_id p) (proposal_digest p) None None (Some reason).

Definition approve (p : EffectProposal) (f : EffectFence) : result EffectDecision :=
  raise_if (negb (matches f p)) (ValueError "approval fence does not match the proposal");;
  EffectDecision_new APPROVE (proposal_id p) (proposal_digest p) (Some f) None None.

(** [_approval_fence] *)
Definition approval_fence (p : EffectProposal) (approval : EffectDecision) : result EffectFence :=
  raise_if (negb (bool_decide (kind approval = APPROVE))) (TypeError "effect gateway requires an approved EffectDecision");;
  raise_if (negb (String.eqb (decision_proposal_id approval) (proposal_id p)
                  && String.eqb (decision_proposal_digest approval) (proposal_digest p)))
    (ValueError "effect approval does not match the proposal");;
  or_raise (fence approval) (RuntimeError "approved effect decision has no fence").

(** [_outcome] *)
Definition outcome (p : EffectProposal) (f : EffectFence) (k : EffectDecisionKind)
    (recovery : option LookupDisposition) (r : option EffectReceipt) : result EffectDecision :=
  e ← EffectEvidence_new (proposal_id p) (proposal_digest p) (payload_digest p) (target p) f recovery
        (receipt_digest <$> r);
  EffectDecision_new k (proposal_id p) (proposal_digest p) (Some f) (Some e) None.

(** [_lookup] *)
Definition do_lookup (p : EffectProposal) (k : LookupResult → interaction) : interaction :=
  Lookup p (λ a, k (match a with Returned l => l | _ => lookup_indeterminate end)).

(** [_current] *)
Definition do_current (p : EffectProposal) (k : option EffectFence → interaction) : interaction :=
  Current p (λ a, k (match a with Returned f => Some f | _ => None end)).

(** [_applied_or_indeterminate] *)
Definition applied_or_indeterminate (p : EffectProposal) (f : EffectFence) (l : LookupResult) : result EffectDecision :=
  match receipt l with
  | Some r => if correlates r p then outcome p f ALREADY_APPLIED (Some APPLIED) (Some r)
              else outcome p f KIND_INDETERMINATE (Some INDETERMINATE) None
  | None => outcome p f KIND_INDETERMINATE (Some INDETERMINATE) None
  end.

(** The decision an unapplied lookup leads to. *)
Definition unapplied (p : EffectProposal) (f : EffectFence) (d : LookupDisposition) : result EffectDecision :=
  outcome p f (if bool_decide (d = SUPERSEDED) then KIND_SUPERSEDED else KIND_INDETERMINATE) (Some d) None.

(** [_lookup_decision] *)
Definition lookup_decision (p : EffectProposal) (f : EffectFence) (l : LookupResult) : option (result EffectDecision) :=
  match disposition l with
  | SAFE_TO_RETRY => None
  | APPLIED => Some (applied_or_indeterminate p f l)
  | d => Some (unapplied p f d)
  end.

(** [_recover] *)
Definition recover (p : EffectProposal) (f : EffectFence) : interaction :=
  do_lookup p (λ l, Done (match disposition l with
                          | APPLIED => applied_or_indeterminate p f l
                          | d => unapplied p f d
                          end)).

(** [_execute_once] *)
Definition execute_once (p : EffectProposal) (payload : Data) (f : EffectFence) : interaction :=
  Execute p payload f (λ a,
    match a with
    | Returned r => if correlates r p then Done (outcome p f EXECUTE None (Some r)) else recover p f
    | OtherObject | Raised => recover p f
    end).

(** What [execute] checks before any call. *)
Definition admission (p : EffectProposal) (payload : Data) (approval : EffectDecision) : result (EffectFence * Data) :=
  f ← approval_fence p approval;
  copied ← payload_copy payload;
  dg ← digest_payload copied;
  raise_if (negb (String.eqb dg (payload_digest p))) (ValueError "effect payload digest does not match the proposal");;
  Ok (f, copied).

(** [EffectGateway.execute] *)
Definition gateway_execute (p : EffectProposal) (payload : Data) (approval : EffectDecision) : interaction :=
  match admission p payload approval with
  | Err e => Done (Err e)
  | Ok (f, copied) =>
      do_lookup p (λ l,
        match lookup_decision p f l with
        | Some resolved => Done resolved
        | None =>
            do_current p (λ current,
              match current with
              | None => Done (outcome p f KIND_INDETERMINATE (Some SAFE_TO_RETRY) None)
              | Some g => if bool_decide (g = f) then execute_once p copied f
                          else Done (outcome p f KIND_SUPERSEDED (Some SUPERSEDED) None)
              end)
        end)
  end.
End gateway.

(** *** Runs *)

(** A host: its adapter and fence source over a state of their own. *)
Record Host (S : Type) := {
  host_lookup : EffectProposal → S → answer LookupResult * S;
  host_current : EffectProposal → S → answer EffectFence * S;
  host_execute : EffectProposal → Data → EffectFence → S → answer EffectReceipt * S
}.
Arguments host_lookup {S} _ _ _.
Arguments host_current {S} _ _ _.
Arguments host_execute {S} _ _ _ _ _.

Inductive call :=
| CLookup (p : EffectProposal) (a : answer LookupResult)
| CCurrent (p : EffectProposal) (a : answer EffectFence)
| CExecute (p : EffectProposal) (payload : Data) (f : EffectFence) (a : answer EffectReceipt).

Fixpoint run {S} (h : Host S) (i : interaction) (s : S) : result EffectDecision * list call * S :=
  match i with
  | Done r => (r, [], s)
  | Lookup p k =>
      let '(a, s) := host_lookup h p s in
      let '(r, calls, s) := run h (k a) s in (r, CLookup p a :: calls, s)
  | Current p k =>
      let '(a, s) := host_current h p s in
      let '(r, calls, s) := run h (k a) s in (r, CCurrent p a :: calls, s)
  | Execute p payload f k =>
      let '(a, s) := host_execute h p payload f s in
      let '(r, calls, s) := run h (k a) s in (r, CExecute p payload f a :: calls, s)
  end.
