(* ===== verification/EffectTheorems.v ===== *)
(** * Effects: wire form and the gateway's guarantees *)

From stdpp Require Import base gmap sets list strings.
From Stdlib Require Import Ascii ZArith Lia.
From S2P Require Import Prelude PyData Schema AgentText Effect.
Open Scope string_scope.
Open Scope list_scope.
Open Scope Z_scope.

(** ** Values as their constructors leave them *)

Definition valid_target (t : TargetIdentity) : Prop := TargetIdentity_new (target_type t) (target_id t) = Ok t.

Definition valid_proposal (p : EffectProposal) : Prop :=
  EffectProposal_new (proposal_id p) (effect_type p) (effect_version p) (payload_digest p) (target p)
    (requested_authority_class p) = Ok p ∧ valid_target (target p).

Definition valid_fence (f : EffectFence) : Prop :=
  EffectFence_new (fence_proposal_id f) (fence_proposal_digest f) (authority_epoch f) (target_head f) (episode_id f)
    (attachment_id f) (attachment_epoch f) = Ok f.

Definition valid_receipt (r : EffectReceipt) : Prop :=
  EffectReceipt_new (receipt_proposal_id r) (receipt_proposal_digest r) (receipt_payload_digest r) (receipt_target r)
    (receipt_digest r) = Ok r ∧ valid_target (receipt_target r).

Definition valid_lookup (l : LookupResult) : Prop :=
  LookupResult_new (disposition l) (receipt l) = Ok l ∧ ∀ r, receipt l = Some r → valid_receipt r.

Definition valid_evidence (e : EffectEvidence) : Prop :=
  EffectEvidence_new (evidence_proposal_id e) (evidence_proposal_digest e) (evidence_payload_digest e)
    (evidence_target e) (evidence_fence e) (recovery e) (evidence_receipt_digest e) = Ok e ∧
  valid_target (evidence_target e) ∧ valid_fence (evidence_fence e).

Definition valid_decision (d : EffectDecision) : Prop :=
  EffectDecision_new (kind d) (decision_proposal_id d) (decision_proposal_digest d) (fence d) (evidence d)
    (reason_code d) = Ok d ∧
  (∀ f, fence d = Some f → valid_fence f) ∧ ∀ e, evidence d = Some e → valid_evidence e.

(** ** The wire form *)

Lemma digest_Ok s x : digest s = Ok x ↔ x = s ∧ digest_ok s = true.
Proof. apply checked_Ok. Qed.

(** Turn the checks of a constructor into equations and facts. *)
Ltac inv_checks :=
  inv_ok;
  repeat match goal with
  | H : text _ = Ok _ |- _ => apply text_Ok in H as [? ?]
  | H : digest _ = Ok _ |- _ => apply digest_Ok in H as [? ?]
  | H : code _ = Ok _ |- _ => apply code_Ok in H as (? & ? & ?)
  | H : positive_integer _ = Ok _ |- _ => apply positive_Ok in H as [? ?]
  end; subst.

(** Replay the checks from those facts. *)
Ltac run_checks :=
  repeat first
  [ rewrite (proj2 (text_Ok _ _)) by done
  | rewrite (proj2 (digest_Ok _ _)) by done
  | rewrite (proj2 (code_Ok _ _)) by done
  | rewrite (proj2 (positive_Ok _ _)) by done
  | progress csimpl ].

Lemma target_round_trip t : valid_target t → target_from_data (target_to_data t) = Ok t.
Proof.
  intros H. pose proof H as Hv. unfold valid_target, TargetIdentity_new in H. inv_checks.
  unfold target_from_data. csimpl. run_checks. exact Hv.
Qed.

Lemma proposal_round_trip p : valid_proposal p → proposal_from_data (proposal_to_data p) = Ok p.
Proof.
  intros [H Ht]. pose proof H as Hv. unfold EffectProposal_new in H. inv_checks.
  unfold proposal_from_data, proposal_to_data. csimpl. run_checks. rewrite target_round_trip by done. run_checks. exact Hv.
Qed.

Lemma fence_round_trip f : valid_fence f → fence_from_data (fence_to_data f) = Ok f.
Proof.
  intros H. pose proof H as Hv. unfold valid_fence, EffectFence_new in H. inv_checks.
  unfold fence_from_data. csimpl. run_checks. exact Hv.
Qed.

Lemma receipt_round_trip r : valid_receipt r → receipt_from_data (receipt_to_data r) = Ok r.
Proof.
  intros [H Ht]. pose proof H as Hv. unfold EffectReceipt_new in H. inv_checks.
  unfold receipt_from_data, receipt_to_data. csimpl. run_checks. rewrite target_round_trip by done. run_checks. exact Hv.
Qed.

#[local] Arguments d_disposition : simpl never.
#[local] Arguments d_decision_kind : simpl never.
#[local] Arguments Effect.proposal_digest : simpl never.
#[local] Arguments String.eqb : simpl never.

Lemma d_disposition_value d : d_disposition (DStr (disposition_value d)) = Ok d.
Proof. by destruct d. Qed.

Lemma d_kind_value k : d_decision_kind (DStr (kind_value k)) = Ok k.
Proof. by destruct k. Qed.

Lemma lookup_round_trip l : valid_lookup l → lookup_from_data (lookup_to_data l) = Ok l.
Proof.
  intros [H Hr]. unfold lookup_from_data, lookup_to_data. csimpl. rewrite d_disposition_value. csimpl.
  rewrite d_opt_round_trip; [exact H|done|]. intros r Hs. by apply receipt_round_trip, Hr.
Qed.

Lemma evidence_round_trip e : valid_evidence e → evidence_from_data (evidence_to_data e) = Ok e.
Proof.
  intros (H & Ht & Hf). pose proof H as Hv. unfold EffectEvidence_new in H. inv_checks.
  unfold evidence_from_data, evidence_to_data. csimpl.
  rewrite (d_opt_round_trip d_disposition) by (done || intros; apply d_disposition_value). csimpl.
  rewrite (d_opt_round_trip d_digest); [|done|].
  2: { intros rd E. rewrite E in *. unfold opt_check in *. inv_checks. by apply digest_Ok. }
  csimpl. run_checks. rewrite target_round_trip by done. csimpl. rewrite fence_round_trip by done. csimpl. exact Hv.
Qed.

Lemma decision_round_trip d : valid_decision d → decision_from_data (decision_to_data d) = Ok d.
Proof.
  intros (H & Hf & He). pose proof H as Hv. unfold EffectDecision_new in H. inv_checks.
  unfold decision_from_data, decision_to_data. csimpl. rewrite d_kind_value. csimpl. run_checks.
  rewrite (d_opt_round_trip fence_from_data); [|done|intros f E; by apply fence_round_trip, Hf]. csimpl.
  rewrite (d_opt_round_trip evidence_from_data); [|done|intros e E; by apply evidence_round_trip, He]. csimpl.
  rewrite (d_opt_round_trip d_code); [exact Hv|done|].
  intros rc E. rewrite E in *. unfold opt_check in *. inv_checks. by apply code_Ok.
Qed.

(** ** The gateway *)

Section gateway.
Context (sha256_hex : Data → string).
Hypothesis hex_digest : ∀ x, digest_ok ("sha256:" +:+ sha256_hex x) = true.

Notation proposal_digest := (proposal_digest sha256_hex).
Notation correlates := (correlates sha256_hex).
Notation gateway_execute := (gateway_execute sha256_hex).

(** The decision [outcome] builds. *)
Definition outcome_decision (p : EffectProposal) (f : EffectFence) (k : EffectDecisionKind)
    (rc : option LookupDisposition) (rd : option string) : EffectDecision :=
  MkEffectDecision k (proposal_id p) (proposal_digest p) (Some f)
    (Some (MkEffectEvidence (proposal_id p) (proposal_digest p) (payload_digest p) (target p) f rc rd)) None.

(** The outcomes a decision kind and its recovery admission, with their receipt. *)
Definition outcome_shape (k : EffectDecisionKind) (rc : option LookupDisposition) (rd : option string) : Prop :=
  match k, rc with
  | EXECUTE, None | ALREADY_APPLIED, Some APPLIED => is_Some rd
  | KIND_SUPERSEDED, Some SUPERSEDED => rd = None
  | KIND_INDETERMINATE, Some SAFE_TO_RETRY | KIND_INDETERMINATE, Some INDETERMINATE => rd = None
  | _, _ => False
  end.

Section approved.
Context (p : EffectProposal) (f : EffectFence).
Hypothesis proposal : valid_proposal p.
Hypothesis fenced : valid_fence f.
Hypothesis matched : matches sha256_hex f p = true.

Lemma outcome_Ok k rc r : outcome_shape k rc (receipt_digest <$> r) → (∀ x, r = Some x → valid_receipt x) →
  outcome sha256_hex p f k rc r = Ok (outcome_decision p f k rc (receipt_digest <$> r)) ∧
  valid_decision (outcome_decision p f k rc (receipt_digest <$> r)).
Proof.
  intros Hs Hr. destruct proposal as [H Ht]. pose proof H as Hv. unfold EffectProposal_new in H. inv_checks.
  pose proof matched as Hm. unfold matches in Hm. apply andb_true_iff in Hm as [Hi Hd].
  apply String.eqb_eq in Hi, Hd. pose proof (hex_digest _ : digest_ok (proposal_digest p) = true) as Hpd.
  assert (opt_check digest (receipt_digest <$> r) = Ok (receipt_digest <$> r)) as Hrd.
  { destruct r as [r|]; [|done]. destruct (Hr r eq_refl) as [Hrv _]. unfold EffectReceipt_new in Hrv. inv_checks.
    simpl. by rewrite (proj2 (digest_Ok (receipt_digest r) (receipt_digest r))). }
  assert (EffectEvidence_new (proposal_id p) (proposal_digest p) (payload_digest p) (target p) f rc (receipt_digest <$> r)
          = Ok (MkEffectEvidence (proposal_id p) (proposal_digest p) (payload_digest p) (target p) f rc (receipt_digest <$> r))) as He.
  { unfold EffectEvidence_new. run_checks. rewrite Hi, Hd, !String.eqb_refl. csimpl. rewrite Hrd. csimpl.
    destruct k, rc as [[]|], r as [r|]; simpl in Hs; try done; by destruct Hs. }
  assert (EffectDecision_new k (proposal_id p) (proposal_digest p) (Some f)
            (Some (MkEffectEvidence (proposal_id p) (proposal_digest p) (payload_digest p) (target p) f rc (receipt_digest <$> r))) None
          = Ok (outcome_decision p f k rc (receipt_digest <$> r))) as Hdec.
  { unfold EffectDecision_new. run_checks. unfold validate_outcome, validate_correlation. simpl.
    rewrite Hi, Hd, !String.eqb_refl. csimpl. rewrite bool_decide_true by done.
    destruct k, rc as [[]|]; simpl in Hs; try done. }
  split; [unfold outcome; rewrite He; csimpl; exact Hdec|].
  split; [exact Hdec|]. split; [by intros ? [= <-]|]. intros e [= <-]. by split.
Qed.
End approved.

Lemma admission_Ok p payload approval f c : valid_decision approval → admission sha256_hex p payload approval = Ok (f, c) →
  fence approval = Some f ∧ valid_fence f ∧ matches sha256_hex f p = true ∧
  payload_copy payload = Ok c ∧ digest_payload sha256_hex c = Ok (payload_digest p).
Proof.
  intros (Hd & Hf & _) H. unfold admission, approval_fence in H. inv_ok.
  repeat match goal with H : negb _ = false |- _ => apply negb_false_iff in H end.
  match goal with H : bool_decide (kind _ = APPROVE) = true |- _ => apply bool_decide_eq_true in H; rename H into Hk end.
  match goal with H : (_ && _) = true |- _ => apply andb_true_iff in H as [Hi%String.eqb_eq Hg%String.eqb_eq] end.
  match goal with H : (_ =? payload_digest p)%string = true |- _ => apply String.eqb_eq in H as -> end.
  match goal with H : fence approval = Some f |- _ => rename H into Hfe end.
  split; [done|]. split; [by apply Hf|]. split; [|done].
  rewrite Hk in Hd. unfold EffectDecision_new, validate_correlation in Hd. inv_checks. simpl in *.
  rewrite Hfe in *. simplify_eq/=. unfold matches.
  repeat match goal with H : negb _ = false |- _ => apply negb_false_iff in H end. by rewrite <-Hi, <-Hg.
Qed.

(** Values the host returns were built by their constructors. *)
Record host_values {S} (h : Host S) : Prop := {
  hv_lookup : ∀ p s l s', host_lookup h p s = (Returned l, s') → valid_lookup l;
  hv_execute : ∀ p c f s r s', host_execute h p c f s = (Returned r, s') → valid_receipt r
}.

(** Every execution call is licensed by a lookup that found the effect not
    applied and by a current fence equal to the approved one, and is followed
    by exactly one lookup. *)
Definition reconciled (p : EffectProposal) (f : EffectFence) (c : Data) (calls : list call) : Prop :=
  ∀ pre q c' f' a post, calls = pre ++ CExecute q c' f' a :: post →
    q = p ∧ c' = c ∧ f' = f ∧
    (∃ l, pre = [CLookup p (Returned l); CCurrent p (Returned f)] ∧ disposition l = SAFE_TO_RETRY) ∧
    ∃ b, post = [CLookup p b].

(** What the calls of an approved execution and its decision have in common. *)
Record execution_ok (p : EffectProposal) (f : EffectFence) (c : Data) (calls : list call) (d : EffectDecision) : Prop := {
  ok_decision : valid_decision d ∧ decision_proposal_id d = proposal_id p ∧
    decision_proposal_digest d = proposal_digest p ∧ fence d = Some f;
  ok_licensed : ∀ pre q c' f' a post, calls = pre ++ CExecute q c' f' a :: post →
    q = p ∧ c' = c ∧ f' = f ∧
    (∃ l, pre = [CLookup p (Returned l); CCurrent p (Returned f)] ∧ disposition l = SAFE_TO_RETRY) ∧
    (post = [] ∧ kind d = EXECUTE ∨ kind d ≠ EXECUTE ∧ ∃ b, post = [CLookup p b]);
  ok_executed : kind d = EXECUTE → ∃ pre r e, calls = pre ++ [CExecute p c f (Returned r)] ∧ correlates r p = true ∧
    evidence d = Some e ∧ evidence_receipt_digest e = Some (receipt_digest r);
  ok_applied : kind d = ALREADY_APPLIED → ∃ pre l r e, calls = pre ++ [CLookup p (Returned l)] ∧
    receipt l = Some r ∧ correlates r p = true ∧ evidence d = Some e ∧ evidence_receipt_digest e = Some (receipt_digest r)
}.

Section runs.
Context (p : EffectProposal) (f : EffectFence) (c : Data).
Hypothesis proposal : valid_proposal p.
Hypothesis fenced : valid_fence f.
Hypothesis matched : matches sha256_hex f p = true.

Lemma without_receipt k rc calls : outcome_shape k rc None →
  reconciled p f c calls →
  ∃ d, outcome sha256_hex p f k rc None = Ok d ∧ execution_ok p f c calls d.
Proof.
  intros Hs Hc. destruct (outcome_Ok p f proposal fenced matched k rc None Hs) as [Ho Hv]; [done|].
  eexists. split; [exact Ho|]. split; simpl.
  - done.
  - intros pre q c' f' a post E. destruct (Hc _ _ _ _ _ _ E) as (? & ? & ? & ? & ?). split_and!; try done.
    right. split; [|done]. intros ->. destruct rc as [[]|]; [done..|]. by destruct Hs.
  - intros ->. destruct rc as [[]|]; try done; by destruct Hs.
  - intros ->. destruct rc as [[]|]; try done; by destruct Hs.
Qed.

Lemma applied_ok pre l : valid_lookup l →
  reconciled p f c (pre ++ [CLookup p (Returned l)]) →
  ∃ d, applied_or_indeterminate sha256_hex p f l = Ok d ∧ execution_ok p f c (pre ++ [CLookup p (Returned l)]) d.
Proof.
  intros [_ Hl] Hc. unfold applied_or_indeterminate.
  destruct (receipt l) as [r|] eqn:Er; [|by apply without_receipt]. destruct (correlates r p) eqn:Ec; [|by apply without_receipt].
  destruct (outcome_Ok p f proposal fenced matched ALREADY_APPLIED (Some APPLIED) (Some r)) as [Ho Hv];
    [by eexists|intros x [= <-]; by apply Hl|].
  eexists. split; [exact Ho|]. split; simpl; [done| |done|].
  - intros pre' q c' f' a post E. destruct (Hc _ _ _ _ _ _ E) as (? & ? & ? & ? & ?). split_and!; try done. by right.
  - intros _. by exists pre, l, r, (MkEffectEvidence (proposal_id p) (proposal_digest p) (payload_digest p) (target p) f
                                     (Some APPLIED) (Some (receipt_digest r))).
Qed.

(** The decision a final lookup leads to. *)
Lemma settled_ok pre a : (∀ l, a = Returned l → valid_lookup l) →
  reconciled p f c (pre ++ [CLookup p a]) →
  let l := match a with Returned l => l | _ => lookup_indeterminate end in
  ∃ d, match disposition l with APPLIED => applied_or_indeterminate sha256_hex p f l | d => unapplied sha256_hex p f d end = Ok d ∧
    execution_ok p f c (pre ++ [CLookup p a]) d.
Proof.
  intros Ha Hc l. subst l. destruct a as [l| |]; simpl.
  - destruct (disposition l) eqn:E; [apply applied_ok; auto|by apply without_receipt..].
  - by apply without_receipt.
  - by apply without_receipt.
Qed.

Context {S : Type} (h : Host S).
Hypothesis values : host_values h.

Lemma recover_ok pre s r calls s' :
  reconciled p f c (pre ++ [CLookup p (host_lookup h p s).1]) →
  run h (recover sha256_hex p f) s = (r, calls, s') →
  ∃ d, r = Ok d ∧ execution_ok p f c (pre ++ calls) d.
Proof.
  intros Hc H. unfold recover, do_lookup in H. simpl in H.
  destruct (host_lookup h p s) as [a s1] eqn:El. simplify_eq/=.
  destruct (settled_ok pre a) as (d & Hd & Hok); [intros l ->; by eapply hv_lookup|done|]. eauto.
Qed.

(** One execution: conclusive with a correlated receipt, reconciled otherwise. *)
Lemma execute_once_ok l s r calls s' : disposition l = SAFE_TO_RETRY →
  run h (execute_once sha256_hex p c f) s = (r, calls, s') →
  ∃ d, r = Ok d ∧ execution_ok p f c ([CLookup p (Returned l); CCurrent p (Returned f)] ++ calls) d.
Proof.
  intros Hl H. simpl in H. destruct (host_execute h p c f s) as [a s1] eqn:Ee.
  assert (∀ b, reconciled p f c (([CLookup p (Returned l); CCurrent p (Returned f)] ++ [CExecute p c f a]) ++ [CLookup p b])) as Hrec.
  { intros b pre q c' f' a' post E. destruct pre as [|? [|? [|? [|? pre]]]]; simplify_eq/=; [|by destruct pre].
    split_and!; try done; [by exists l|by eexists]. }
  assert (∀ r' calls' s'', run h (recover sha256_hex p f) s1 = (r', calls', s'') →
    ∃ d, r' = Ok d ∧ execution_ok p f c (([CLookup p (Returned l); CCurrent p (Returned f)] ++ [CExecute p c f a]) ++ calls') d) as Hrecover.
  { intros r' calls' s'' Hr. by eapply recover_ok. }
  destruct a as [x| |].
  2, 3: destruct (run h (recover sha256_hex p f) s1) as [[r' calls'] s''] eqn:E; simplify_eq; by apply (Hrecover _ _ _ eq_refl).
  destruct (correlates x p) eqn:Ec;
    [|destruct (run h (recover sha256_hex p f) s1) as [[r' calls'] s''] eqn:E; simplify_eq; by apply (Hrecover _ _ _ eq_refl)].
  simplify_eq/=. destruct (outcome_Ok p f proposal fenced matched EXECUTE None (Some x)) as [Ho Hv];
    [by eexists|intros ? [= <-]; by eapply hv_execute|].
  eexists. split; [exact Ho|]. split; simpl; [done| | |done].
  - intros pre q c' f' a post E. destruct pre as [|? [|? [|? pre]]]; simplify_eq/=; [|by destruct pre].
    split_and!; try done; [by exists l|by left].
  - intros _. by eexists [_; _], x, _.
Qed.
End runs.

(** C14: whatever the host's adapter and fence source answer, running the
    gateway either refuses before any call, because the approval or the payload
    does not match the proposal, or makes at most one execution call, only
    after a lookup that found the effect not applied and a current fence equal
    to the approved one, and returns a well-formed decision for this proposal
    and fence. An execution without a correlated receipt is followed by exactly
    one lookup and never by another execution; the decision is [EXECUTE] only
    with the receipt of that execution and [ALREADY_APPLIED] only with the
    correlated receipt of the last lookup. *)
Theorem gateway_executes_at_most_once {S} (h : Host S) p payload approval s r calls s' :
  valid_proposal p → valid_decision approval → host_values h →
  run h (gateway_execute p payload approval) s = (r, calls, s') →
  (∃ e, admission sha256_hex p payload approval = Err e ∧ r = Err e ∧ calls = []) ∨
  ∃ f c d, admission sha256_hex p payload approval = Ok (f, c) ∧ fence approval = Some f ∧
    payload_copy payload = Ok c ∧ digest_payload sha256_hex c = Ok (payload_digest p) ∧
    r = Ok d ∧ execution_ok p f c calls d.
Proof.
  intros Hp Ha Hh H. unfold Effect.gateway_execute in H.
  destruct (admission sha256_hex p payload approval) as [[f c]|e] eqn:Ead; [|simplify_eq/=; left; by eexists]. right.
  destruct (admission_Ok _ _ _ _ _ Ha Ead) as (Hf & Hfv & Hm & Hc & Hd). exists f, c.
  cut (∃ d, r = Ok d ∧ execution_ok p f c calls d); [intros (d & ? & ?); by exists d|].
  unfold do_lookup in H. simpl in H. destruct (host_lookup h p s) as [a s1] eqn:El.
  assert (∀ b, reconciled p f c ([] ++ [CLookup p b])) as Hrec by (intros b [|? []] **; simplify_eq/=).
  pose proof (settled_ok p f c Hp Hfv Hm [] a (λ l Hl, hv_lookup h Hh p s l s1 ltac:(by rewrite El, Hl)) (Hrec a)) as (d & Hd' & Hok).
  simpl in Hd'. set (l := match a with Returned l => l | _ => lookup_indeterminate end) in *.
  unfold lookup_decision in H.
  destruct (disposition l) eqn:Edisp; [simplify_eq/=; eauto| |simplify_eq/=; eauto..].
  clear d Hd' Hok. destruct a as [l'| |]; [|done|done]. subst l. rename l' into l.
  simpl in H. destruct (host_current h p s1) as [b s2] eqn:Ec.
  assert (∀ x, reconciled p f c [CLookup p (Returned l); CCurrent p x]) as Hrec2
    by (intros x [|? [|? []]] **; simplify_eq/=).
  destruct b as [g| |]; [|simplify_eq/=; by apply without_receipt..].
  destruct (bool_decide (g = f)) eqn:Eg; [apply bool_decide_eq_true in Eg as ->|simplify_eq/=; by apply without_receipt].
  destruct (run h (execute_once sha256_hex p c f) s2) as [[r' calls'] s''] eqn:E. simplify_eq.
  by eapply (execute_once_ok p f c Hp Hfv Hm h Hh l s2).
Qed.
End gateway.

(** A constant digest, a proposal with its fence and approval, and a host that
    answers every call favourably. *)
Definition sample_hex : string := "0123456789abcdef0123456789abcdef0123456789abcdef0123456789abcdef".
Definition sample_sha (x : Data) : string := sample_hex.
Definition sample_digest : string := "sha256:0123456789abcdef0123456789abcdef0123456789abcdef0123456789abcdef".
Definition sample_target : TargetIdentity := MkTargetIdentity "repo.branch" "main".
Definition sample_proposal : EffectProposal :=
  MkEffectProposal "proposal-1" "git.push" 1 sample_digest sample_target "write".
Definition sample_fence : EffectFence := MkEffectFence "proposal-1" sample_digest 3 "head-7" "episode-1" "attachment-1" 2.
Definition sample_approval : EffectDecision :=
  MkEffectDecision APPROVE "proposal-1" sample_digest (Some sample_fence) None None.
Definition sample_receipt : EffectReceipt := MkEffectReceipt "proposal-1" sample_digest sample_digest sample_target sample_digest.
Definition sample_host : Host nat := {|
  host_lookup := λ _ s, (Returned (MkLookupResult SAFE_TO_RETRY None), s);
  host_current := λ _ s, (Returned sample_fence, s);
  host_execute := λ _ _ _ s, (Returned sample_receipt, S s)
|}.

Lemma gateway_executes_at_most_once_witness :
  ∃ d calls s, run sample_host (Effect.gateway_execute sample_sha sample_proposal (DDict []) sample_approval) 0%nat
    = (Ok d, calls, s) ∧ kind d = EXECUTE ∧
    execution_ok sample_sha sample_proposal sample_fence (DDict []) calls d.
Proof.
  destruct (run sample_host (Effect.gateway_execute sample_sha sample_proposal (DDict []) sample_approval) 0%nat)
    as [[r calls] s] eqn:E.
  assert (valid_proposal sample_proposal) as Hp by (split; vm_compute; reflexivity).
  assert (valid_decision sample_approval) as Ha.
  { split; [vm_compute; reflexivity|]. split; [intros f [= <-]; vm_compute; reflexivity|intros e H; discriminate H]. }
  assert (host_values sample_host) as Hh.
  { split; [intros p s0 l s1 [= <- <-]; split; [reflexivity|intros x Hx; discriminate Hx]|].
    intros p c f s0 x s1 [= <- <-]. split; vm_compute; reflexivity. }
  destruct (gateway_executes_at_most_once sample_sha (λ x, eq_refl) sample_host sample_proposal (DDict []) sample_approval
              0%nat r calls s Hp Ha Hh E) as [(e & He & _)|(f & c & d & Had & Hf & Hc & _ & -> & Hok)].
  - exfalso. vm_compute in He. discriminate He.
  - exists d, calls, s. split; [reflexivity|]. injection Hf as <-. injection Hc as <-.
    split; [vm_compute in E; injection E as <- _ _; reflexivity|exact Hok].
Defined.

(** A target, proposal, fence, receipt, lookup result, evidence
    or decision that its constructor accepts is read back unchanged from its
    wire form, which names every field exactly once. *)
Theorem effect_values_round_trip :
  (∀ p, valid_proposal p → proposal_from_data (proposal_to_data p) = Ok p) ∧
  (∀ f, valid_fence f → fence_from_data (fence_to_data f) = Ok f) ∧
  (∀ r, valid_receipt r → receipt_from_data (receipt_to_data r) = Ok r) ∧
  (∀ l, valid_lookup l → lookup_from_data (lookup_to_data l) = Ok l) ∧
  (∀ e, valid_evidence e → evidence_from_data (evidence_to_data e) = Ok e) ∧
  (∀ d, valid_decision d → decision_from_data (decision_to_data d) = Ok d).
Proof.
  split_and!; [apply proposal_round_trip|apply fence_round_trip|apply receipt_round_trip|apply lookup_round_trip
    |apply evidence_round_trip|apply decision_round_trip].
Qed.

Lemma effect_values_round_trip_witness : decision_from_data (decision_to_data sample_approval) = Ok sample_approval.
Proof.
  apply (proj2 (proj2 (proj2 (proj2 (proj2 effect_values_round_trip))))).
  split; [vm_compute; reflexivity|]. split; [intros f [= <-]; vm_compute; reflexivity|intros e H; discriminate H].
Defined.
