(* ===== verification/Descriptor.v ===== *)
(** * Component descriptors (src/src/petrus/agenticus/catalog/descriptor.py,
    src/src/petrus/agenticus/program/descriptor.py)

    The identities, capability requirements and registration envelopes a host
    registers, and the descriptors of agent programs, with their validation and
    wire forms. A frozen set of capability keys is a [gset]; a constructor
    takes the iterable it checks for duplicates as a list. A registration
    envelope does not depend on the order its requirements or capabilities were
    declared in, and what the constructors accept is read back unchanged. *)

From stdpp Require Import base gmap sets list strings.
From Stdlib Require Import Ascii ZArith Lia.
From S2P Require Import Prelude PyData Schema AgentText.
Open Scope string_scope.
Open Scope list_scope.
Open Scope Z_scope.

(** ** Identities *)

Inductive DescriptorKind := CONNECTION | PROGRAM | RUNTIME | HANDS | TERRITORY | CONTINUATION | EFFECT.

#[export] Instance DescriptorKind_eq_dec : EqDecision DescriptorKind.
Proof. solve_decision. Defined.

Record DescriptorIdentity := MkDescriptorIdentity {
  identity_kind : DescriptorKind;
  identity_name : string;
  contract_version : Z
}.

#[export] Instance DescriptorIdentity_eq_dec : EqDecision DescriptorIdentity.
Proof. solve_decision. Defined.

Definition DescriptorIdentity_new (k : DescriptorKind) (name : string) (version : Z) : result DescriptorIdentity :=
  name ← text name; version ← positive_integer version; Ok (MkDescriptorIdentity k name version).

(** [_identity_of_kind] *)
Definition identity_of_kind (v : DescriptorIdentity) (k : DescriptorKind) : result unit :=
  raise_if (negb (bool_decide (identity_kind v = k))) (TypeError "must be a DescriptorIdentity of the kind").

Definition identity_of_kind_opt (v : option DescriptorIdentity) (k : DescriptorKind) : result unit :=
  match v with Some v => identity_of_kind v k | None => Ok tt end.

Definition all_kinds : list DescriptorKind := [CONNECTION; PROGRAM; RUNTIME; HANDS; TERRITORY; CONTINUATION; EFFECT].

Definition descriptor_kind_value (k : DescriptorKind) : string :=
  match k with
  | CONNECTION => "connection" | PROGRAM => "program" | RUNTIME => "runtime" | HANDS => "hands"
  | TERRITORY => "territory" | CONTINUATION => "continuation" | EFFECT => "effect"
  end.

Definition d_descriptor_kind : Data → result DescriptorKind := d_enum all_kinds descriptor_kind_value.

Definition identity_to_data (i : DescriptorIdentity) : Data :=
  DDict [("kind", DStr (descriptor_kind_value (identity_kind i))); ("name", DStr (identity_name i));
         ("contract_version", DInt (contract_version i))].

Definition identity_from_data (x : Data) : result DescriptorIdentity :=
  d ← exact_object ["kind"; "name"; "contract_version"] x;
  k ← item d "kind"; k ← d_descriptor_kind k; n ← item d "name"; n ← d_text n;
  v ← item d "contract_version"; v ← d_positive v;
  DescriptorIdentity_new k n v.

(** The order of the dataclass, and [_identity_key]. *)
Definition identity_key (i : DescriptorIdentity) : string * (string * Z) :=
  (descriptor_kind_value (identity_kind i), (identity_name i, contract_version i)).

(** ** Capabilities and requirements *)

(** [_capabilities] *)
Definition capabilities (items : list string) : result (gset string) :=
  cs ← mapR text items;
  raise_if (negb (bool_decide (NoDup cs))) (ValueError "must not contain duplicate capability keys");;
  Ok (list_to_set cs).

(** [sorted] of a set of strings. *)
Definition sorted_set (s : gset string) : list string := sorted_key (λ x, x) (elements s).

Record CompatibilityRequirement := MkCompatibilityRequirement {
  req_kind : DescriptorKind;
  req_name : option string;
  req_version : Z;
  req_capabilities : gset string
}.

#[export] Instance CompatibilityRequirement_eq_dec : EqDecision CompatibilityRequirement.
Proof. solve_decision. Defined.

Definition CompatibilityRequirement_new (k : DescriptorKind) (name : option string) (version : Z) (caps : list string)
  : result CompatibilityRequirement :=
  name ← opt_check text name; version ← positive_integer version; caps ← capabilities caps;
  Ok (MkCompatibilityRequirement k name version caps).

Definition e_strings (l : list string) : Data := DList (DStr <$> l).

Definition requirement_to_data (r : CompatibilityRequirement) : Data :=
  DDict [("kind", DStr (descriptor_kind_value (req_kind r))); ("name", e_opt DStr (req_name r));
         ("contract_version", DInt (req_version r)); ("capabilities", e_strings (sorted_set (req_capabilities r)))].

(** [_capabilities] of a JSON array, each item checked to be text. *)
Definition d_capabilities (x : Data) : result (gset string) :=
  items ← d_list d_text x; capabilities items.

Definition requirement_from_data (x : Data) : result CompatibilityRequirement :=
  d ← exact_object ["kind"; "name"; "contract_version"; "capabilities"] x;
  n ← item d "name"; n ← d_opt d_text n;
  c ← item d "capabilities";
  raise_if (match c with DList _ => false | _ => true end) (TypeError "requirement capabilities must be a JSON array");;
  k ← item d "kind"; k ← d_descriptor_kind k;
  v ← item d "contract_version"; v ← d_positive v;
  c ← d_capabilities c;
  CompatibilityRequirement_new k n v (elements c).

(** [_requirement_key] *)
Definition requirement_key (r : CompatibilityRequirement) : string * (string * (Z * list string)) :=
  (descriptor_kind_value (req_kind r), (default "" (req_name r), (req_version r, sorted_set (req_capabilities r)))).

(** ** Registration envelopes *)

Record CapabilityDescriptor := MkCapabilityDescriptor {
  desc_identity : DescriptorIdentity;
  offers : gset string;
  requires : list CompatibilityRequirement
}.

#[export] Instance CapabilityDescriptor_eq_dec : EqDecision CapabilityDescriptor.
Proof. solve_decision. Defined.

Definition CapabilityDescriptor_new (i : DescriptorIdentity) (offered : list string) (rs : list CompatibilityRequirement)
  : result CapabilityDescriptor :=
  offered ← capabilities offered;
  raise_if (negb (bool_decide (NoDup rs))) (ValueError "descriptor requires must not contain duplicate requirements");;
  Ok (MkCapabilityDescriptor i offered (sorted_key requirement_key rs)).

Definition capability_to_data (c : CapabilityDescriptor) : Data :=
  DDict [("schema_version", DInt 1); ("identity", identity_to_data (desc_identity c));
         ("offers", e_strings (sorted_set (offers c))); ("requires", DList (requirement_to_data <$> requires c))].

Definition capability_from_data (x : Data) : result CapabilityDescriptor :=
  d ← exact_object ["schema_version"; "identity"; "offers"; "requires"] x;
  v ← item d "schema_version"; d_version v;;
  o ← item d "offers"; r ← item d "requires";
  raise_if (match o, r with DList _, DList _ => false | _, _ => true end)
    (TypeError "capability descriptor offers and requires must be JSON arrays");;
  i ← item d "identity"; i ← identity_from_data i;
  o ← d_capabilities o; r ← d_list requirement_from_data r;
  CapabilityDescriptor_new i (elements o) r.

(** ** Agent programs *)

Inductive ProgramOwnership := PROVIDER | HARNESS | NET.

Definition ownership_value (o : ProgramOwnership) : string :=
  match o with PROVIDER => "provider-owned" | HARNESS => "harness-owned" | NET => "net-owned" end.
Definition d_ownership : Data → result ProgramOwnership := d_enum [PROVIDER; HARNESS; NET] ownership_value.

Record ContinuationRequirement := MkContinuationRequirement { cr_identity : DescriptorIdentity; cr_program : DescriptorIdentity }.

#[export] Instance ContinuationRequirement_eq_dec : EqDecision ContinuationRequirement.
Proof. solve_decision. Defined.

Definition ContinuationRequirement_new (i p : DescriptorIdentity) : result ContinuationRequirement :=
  identity_of_kind i CONTINUATION;; identity_of_kind p PROGRAM;; Ok (MkContinuationRequirement i p).

(** The order of the dataclass. *)
Definition continuation_key (r : ContinuationRequirement) : (string * (string * Z)) * (string * (string * Z)) :=
  (identity_key (cr_identity r), identity_key (cr_program r)).

Record AgentProgramDescriptor := MkAgentProgramDescriptor {
  apd_identity : DescriptorIdentity;
  ownership : ProgramOwnership;
  accepts_fresh_start : bool;
  accepted_continuations : list ContinuationRequirement;
  produced_continuation : option DescriptorIdentity;
  owns_steering : bool;
  owns_evaluation : bool
}.

Definition AgentProgramDescriptor_new (i : DescriptorIdentity) (o : ProgramOwnership) (fresh : bool)
    (accepted : list ContinuationRequirement) (produced : option DescriptorIdentity) (steering evaluation : bool)
  : result AgentProgramDescriptor :=
  identity_of_kind i PROGRAM;;
  raise_if (negb (bool_decide (NoDup accepted))) (ValueError "accepted_continuations must not contain duplicates");;
  identity_of_kind_opt produced CONTINUATION;;
  Ok (MkAgentProgramDescriptor i o fresh (sorted_key continuation_key accepted) produced steering evaluation).

Definition continuation_requirement_to_data (r : ContinuationRequirement) : Data :=
  DDict [("identity", identity_to_data (cr_identity r)); ("program", identity_to_data (cr_program r))].

Definition continuation_requirement_from_data (x : Data) : result ContinuationRequirement :=
  d ← exact_object ["identity"; "program"] x;
  i ← item d "identity"; i ← identity_from_data i; p ← item d "program"; p ← identity_from_data p;
  ContinuationRequirement_new i p.

Definition program_to_data (p : AgentProgramDescriptor) : Data :=
  DDict [("schema_version", DInt 1); ("identity", identity_to_data (apd_identity p));
         ("ownership", DStr (ownership_value (ownership p))); ("accepts_fresh_start", DBool (accepts_fresh_start p));
         ("accepted_continuations", DList (continuation_requirement_to_data <$> accepted_continuations p));
         ("produced_continuation", e_opt identity_to_data (produced_continuation p));
         ("owns_steering", DBool (owns_steering p)); ("owns_evaluation", DBool (owns_evaluation p))].

(** [_boolean] *)
Definition d_boolean (x : Data) : result bool := match x with DBool b => Ok b | _ => Err (TypeError "must be a boolean") end.

Definition program_from_data (x : Data) : result AgentProgramDescriptor :=
  d ← exact_object ["schema_version"; "identity"; "ownership"; "accepts_fresh_start"; "accepted_continuations";
                    "produced_continuation"; "owns_steering"; "owns_evaluation"] x;
  v ← item d "schema_version"; d_version v;;
  o ← item d "ownership"; o ← d_ownership o;
  a ← item d "accepted_continuations";
  raise_if (match a with DList _ => false | _ => true end) (TypeError "accepted_continuations must be a JSON array");;
  i ← item d "identity"; i ← identity_from_data i;
  f ← item d "accepts_fresh_start"; f ← d_boolean f;
  a ← d_list continuation_requirement_from_data a;
  p ← item d "produced_continuation"; p ← d_opt identity_from_data p;
  s ← item d "owns_steering"; s ← d_boolean s; e ← item d "owns_evaluation"; e ← d_boolean e;
  AgentProgramDescriptor_new i o f a p s e.

(** ** Values as their constructors leave them *)

Definition wf_identity (i : DescriptorIdentity) : Prop := text_ok (identity_name i) = true ∧ 0 < contract_version i.

Definition wf_capabilities (s : gset string) : Prop := set_Forall (λ c, text_ok c = true) s.

Definition wf_requirement (r : CompatibilityRequirement) : Prop :=
  (∀ n, req_name r = Some n → text_ok n = true) ∧ 0 < req_version r ∧ wf_capabilities (req_capabilities r).

Record wf_capability (c : CapabilityDescriptor) : Prop := {
  wc_identity : wf_identity (desc_identity c);
  wc_offers : wf_capabilities (offers c);
  wc_requires : Forall wf_requirement (requires c);
  wc_distinct : NoDup (requires c);
  wc_sorted : requires c = sorted_key requirement_key (requires c)
}.

Record wf_program (p : AgentProgramDescriptor) : Prop := {
  wp_identity : wf_identity (apd_identity p) ∧ identity_kind (apd_identity p) = PROGRAM;
  wp_accepted : Forall (λ r, (wf_identity (cr_identity r) ∧ identity_kind (cr_identity r) = CONTINUATION) ∧
                             wf_identity (cr_program r) ∧ identity_kind (cr_program r) = PROGRAM) (accepted_continuations p);
  wp_distinct : NoDup (accepted_continuations p);
  wp_sorted : accepted_continuations p = sorted_key continuation_key (accepted_continuations p);
  wp_produced : ∀ i, produced_continuation p = Some i → wf_identity i ∧ identity_kind i = CONTINUATION
}.

(** ** Sets of capabilities *)

#[global] Arguments sorted_set : simpl never.
#[global] Arguments capabilities : simpl never.
#[global] Arguments d_descriptor_kind : simpl never.
#[global] Arguments d_ownership : simpl never.
#[global] Arguments elements : simpl never.

Lemma sorted_set_perm s : sorted_set s ≡ₚ elements s.
Proof. apply sorted_key_perm. Qed.

Lemma list_to_sorted_set s : list_to_set (sorted_set s) = s.
Proof. rewrite sorted_set_perm. apply list_to_set_elements_L. Qed.

Lemma sorted_set_inj s t : sorted_set s = sorted_set t → s = t.
Proof. intros H. by rewrite <-(list_to_sorted_set s), H, list_to_sorted_set. Qed.

Lemma mapR_id {A} (f : A → result A) l : (∀ x, x ∈ l → f x = Ok x) → mapR f l = Ok l.
Proof.
  induction l as [|x l IH]; intros H; [done|]. simpl. rewrite (H x) by left. simpl.
  rewrite IH; [done|]. intros y Hy. apply H. by right.
Qed.

Lemma capabilities_of s l : wf_capabilities s → l ≡ₚ elements s → capabilities l = Ok s.
Proof.
  intros Hs Hl. unfold capabilities. rewrite mapR_id.
  - simpl. rewrite bool_decide_true by (rewrite Hl; apply NoDup_elements). simpl. rewrite Hl. by rewrite list_to_set_elements_L.
  - intros x. rewrite Hl, elem_of_elements. intros Hx. apply text_true. by apply Hs.
Qed.

Lemma capabilities_Ok l s : capabilities l = Ok s →
  wf_capabilities s ∧ s = list_to_set l ∧ NoDup l.
Proof.
  intros H. unfold capabilities in H. inv_ok.
  match goal with H : mapR text l = Ok ?k |- _ => assert (k = l ∧ Forall (λ c, text_ok c = true) l) as [-> Hl] end.
  { match goal with H : mapR text l = Ok _ |- _ => apply mapR_Ok in H; rename H into Hm; clear -Hm end.
    induction Hm as [|x y l k [-> Hx]%text_Ok _ [-> IH]]; auto. }
  split; [|split; [done|]].
  - intros c Hc. rewrite elem_of_list_to_set in Hc. by eapply Forall_forall in Hl.
  - by match goal with H : negb _ = false |- _ => apply negb_false_iff, bool_decide_eq_true in H end.
Qed.

Lemma d_capabilities_round s : wf_capabilities s → d_capabilities (e_strings (sorted_set s)) = Ok s.
Proof.
  intros Hs. unfold d_capabilities, e_strings. simpl.
  rewrite (mapR_round_trip d_text DStr (λ c, text_ok c = true)).
  - simpl. apply capabilities_of; [done|apply sorted_set_perm].
  - intros c Hc. simpl. by apply text_true.
  - apply Forall_forall. intros c. rewrite sorted_set_perm, elem_of_elements. apply Hs.
Qed.

(** ** Keys tell values apart *)

Lemma descriptor_kind_value_inj k k' : descriptor_kind_value k = descriptor_kind_value k' → k = k'.
Proof. by destruct k, k'. Qed.

Lemma identity_key_inj i j : identity_key i = identity_key j → i = j.
Proof.
  destruct i, j. unfold identity_key. simpl. intros H. simplify_eq.
  by match goal with H : descriptor_kind_value _ = _ |- _ => apply descriptor_kind_value_inj in H; subst end.
Qed.

Lemma requirement_key_inj r r' : wf_requirement r → wf_requirement r' → requirement_key r = requirement_key r' → r = r'.
Proof.
  destruct r as [k n v c], r' as [k' n' v' c']. unfold wf_requirement, requirement_key. simpl.
  intros (Hn & _ & _) (Hn' & _ & _) H. injection H as Hk%descriptor_kind_value_inj Hd -> ->%sorted_set_inj. subst k'.
  assert (n = n') as ->; [|done].
  destruct n as [n|], n' as [n'|]; simpl in Hd; [by subst| | |done]; exfalso; subst.
  - by specialize (Hn "" eq_refl).
  - by specialize (Hn' "" eq_refl).
Qed.

Lemma continuation_key_inj r r' : continuation_key r = continuation_key r' → r = r'.
Proof. destruct r, r'. unfold continuation_key. simpl. intros H. injection H as ? ? ? ? ? ?.
  f_equal; apply identity_key_inj; unfold identity_key; congruence. Qed.

(** An envelope does not depend on the order of declaration. *)
Lemma envelope_order i o o' rs rs' d : Forall wf_requirement rs → o ≡ₚ o' → rs ≡ₚ rs' →
  CapabilityDescriptor_new i o rs = Ok d → CapabilityDescriptor_new i o' rs' = Ok d.
Proof.
  intros Hw Ho Hr H. unfold CapabilityDescriptor_new in *. inv_ok.
  match goal with H : capabilities o = Ok _ |- _ => apply capabilities_Ok in H as (Hwc & -> & Hd) end.
  rewrite (capabilities_of (list_to_set o) o') by (done || rewrite elements_list_to_set; done). simpl.
  match goal with H : negb _ = false |- _ => apply negb_false_iff, bool_decide_eq_true in H end.
  rewrite bool_decide_true by (by rewrite <-Hr). simpl. do 2 f_equal.
  apply sorted_key_forgets; [done|]. intros x y Hx Hy.
  apply requirement_key_inj; (eapply Forall_forall; [done|]; by rewrite Hr).
Qed.

(** ** Round trips *)

Lemma d_kind_round k : d_descriptor_kind (DStr (descriptor_kind_value k)) = Ok k.
Proof. by destruct k. Qed.
Lemma d_ownership_round o : d_ownership (DStr (ownership_value o)) = Ok o.
Proof. by destruct o. Qed.
#[export] Hint Rewrite d_kind_round d_ownership_round : enums.

Lemma identity_round_trip i : wf_identity i → identity_from_data (identity_to_data i) = Ok i.
Proof.
  intros [Hn Hv]. unfold identity_from_data, identity_to_data. decode. unfold DescriptorIdentity_new. decode. by destruct i.
Qed.

Lemma requirement_round_trip r : wf_requirement r → requirement_from_data (requirement_to_data r) = Ok r.
Proof.
  intros (Hn & Hv & Hc). unfold requirement_from_data, requirement_to_data. csimpl.
  rewrite (d_opt_round_trip d_text) by (done || intros; simpl; by apply text_true, Hn). decode.
  rewrite d_capabilities_round by done. csimpl. unfold CompatibilityRequirement_new.
  assert (opt_check text (req_name r) = Ok (req_name r)) as ->.
  { destruct (req_name r) as [n|] eqn:E; [|done]. simpl. by rewrite text_true by (by apply Hn). }
  decode. rewrite (capabilities_of (req_capabilities r)) by done. by destruct r.
Qed.

Lemma capability_round_trip c : wf_capability c → capability_from_data (capability_to_data c) = Ok c.
Proof.
  intros [Hi Ho Hr Hd Hs]. unfold capability_from_data, capability_to_data. csimpl.
  rewrite identity_round_trip by done. csimpl. rewrite d_capabilities_round by done. csimpl.
  rewrite (mapR_round_trip _ _ wf_requirement) by (done || apply requirement_round_trip). csimpl.
  unfold CapabilityDescriptor_new. rewrite (capabilities_of (offers c)) by done. csimpl.
  rewrite bool_decide_true by done. csimpl. rewrite <-Hs. by destruct c.
Qed.

Lemma continuation_requirement_round_trip r :
  (wf_identity (cr_identity r) ∧ identity_kind (cr_identity r) = CONTINUATION) ∧
  wf_identity (cr_program r) ∧ identity_kind (cr_program r) = PROGRAM →
  continuation_requirement_from_data (continuation_requirement_to_data r) = Ok r.
Proof.
  intros [[Hi Hk] [Hp Hkp]]. unfold continuation_requirement_from_data, continuation_requirement_to_data. csimpl.
  rewrite identity_round_trip by done. csimpl. rewrite identity_round_trip by done. csimpl.
  unfold ContinuationRequirement_new, identity_of_kind. rewrite !bool_decide_true by done. by destruct r.
Qed.

Lemma program_round_trip p : wf_program p → program_from_data (program_to_data p) = Ok p.
Proof.
  intros [[Hi Hk] Ha Hd Hs Hp]. unfold program_from_data, program_to_data. decode.
  rewrite identity_round_trip by done. csimpl.
  rewrite (mapR_round_trip _ _ _ _ continuation_requirement_round_trip) by done. csimpl.
  rewrite (d_opt_round_trip identity_from_data) by (done || intros i Ei; by apply identity_round_trip, (Hp i)). csimpl.
  unfold AgentProgramDescriptor_new, identity_of_kind. rewrite !bool_decide_true by done. csimpl.
  assert (identity_of_kind_opt (produced_continuation p) CONTINUATION = Ok tt) as ->.
  { destruct (produced_continuation p) as [i|] eqn:E; [|done]. simpl. unfold identity_of_kind.
    by rewrite bool_decide_true by (by apply (Hp i)). }
  csimpl. rewrite <-Hs. by destruct p.
Qed.
