(* ===== verification/Catalog.v ===== *)
(** * The component catalog (src/src/petrus/agenticus/catalog/resolution.py,
    src/src/petrus/agenticus/catalog/result.py)

    Host-local registration, enablement and the compatibility check of one
    prospective episode's selections. The registry is a map from identities to
    entries with a revision counter; an operation that raises leaves it as it
    was. The re-entrant lock that makes each operation atomic is not modelled. *)

From stdpp Require Import base gmap sets list strings pretty.
From Stdlib Require Import Ascii ZArith Lia.
From S2P Require Import Prelude PyData Schema AgentText Descriptor.
Open Scope string_scope.
Open Scope list_scope.
Open Scope Z_scope.

#[export] Instance DescriptorKind_countable : Countable DescriptorKind.
Proof.
  refine (inj_countable' descriptor_kind_value
    (λ s, default CONNECTION (List.find (λ k, String.eqb (descriptor_kind_value k) s) all_kinds)) _).
  by intros [].
Defined.

#[export] Instance DescriptorIdentity_countable : Countable DescriptorIdentity.
Proof.
  refine (inj_countable' (λ i, (identity_kind i, identity_name i, contract_version i))
    (λ x, MkDescriptorIdentity x.1.1 x.1.2 x.2) _).
  by intros [].
Defined.

(** ** Results *)

Record CompatibilityIssue := MkCompatibilityIssue { issue_code : string; issue_subject : string }.

#[export] Instance CompatibilityIssue_eq_dec : EqDecision CompatibilityIssue.
Proof. solve_decision. Defined.
#[export] Instance CompatibilityIssue_countable : Countable CompatibilityIssue.
Proof.
  refine (inj_countable' (λ i, (issue_code i, issue_subject i)) (λ x, MkCompatibilityIssue x.1 x.2) _).
  by intros [].
Defined.

Definition CompatibilityIssue_new (code subject : string) : result CompatibilityIssue :=
  code ← text code; subject ← text subject; Ok (MkCompatibilityIssue code subject).

Definition compatibility_issue_to_data (i : CompatibilityIssue) : Data :=
  DDict [("code", DStr (issue_code i)); ("subject", DStr (issue_subject i))].

Definition compatibility_issue_from_data (x : Data) : result CompatibilityIssue :=
  d ← exact_object ["code"; "subject"] x;
  c ← item d "code"; c ← d_text c; s ← item d "subject"; s ← d_text s;
  CompatibilityIssue_new c s.

(** The order of the dataclass. *)
Definition issue_key (i : CompatibilityIssue) : string * string := (issue_code i, issue_subject i).

Record CompatibilityResult := MkCompatibilityResult { candidate : option DescriptorIdentity; issues : list CompatibilityIssue }.

Definition CompatibilityResult_new (c : option DescriptorIdentity) (l : list CompatibilityIssue) : result CompatibilityResult :=
  raise_if (negb (bool_decide (NoDup l))) (ValueError "compatibility issues must not contain duplicates");;
  raise_if (bool_decide (c = None) && bool_decide (l = [])) (ValueError "a compatible result requires a candidate");;
  Ok (MkCompatibilityResult c (sorted_key issue_key l)).

(** [CompatibilityResult.compatible] *)
Definition result_compatible (r : CompatibilityResult) : bool :=
  bool_decide (is_Some (candidate r)) && bool_decide (issues r = []).

Definition compatibility_result_to_data (r : CompatibilityResult) : Data :=
  DDict [("schema_version", DInt 1); ("candidate", e_opt identity_to_data (candidate r));
         ("issues", DList (compatibility_issue_to_data <$> issues r))].

Definition compatibility_result_from_data (x : Data) : result CompatibilityResult :=
  d ← exact_object ["schema_version"; "candidate"; "issues"] x;
  v ← item d "schema_version"; d_version v;;
  l ← item d "issues";
  raise_if (match l with DList _ => false | _ => true end) (TypeError "compatibility result issues must be a JSON array");;
  c ← item d "candidate"; c ← d_opt identity_from_data c; l ← d_list compatibility_issue_from_data l;
  CompatibilityResult_new c l.

(** ** Requests, snapshots and resolutions *)

Inductive CompatibilityIssueCode :=
| NOT_REGISTERED | NOT_ENABLED | MISSING_SELECTION | SELECTION_NOT_REGISTERED | SELECTION_NOT_ENABLED
| NAME_MISMATCH | VERSION_MISMATCH | MISSING_CAPABILITY.

Definition code_value (c : CompatibilityIssueCode) : string :=
  match c with
  | NOT_REGISTERED => "not-registered" | NOT_ENABLED => "not-enabled" | MISSING_SELECTION => "missing-selection"
  | SELECTION_NOT_REGISTERED => "selection-not-registered" | SELECTION_NOT_ENABLED => "selection-not-enabled"
  | NAME_MISMATCH => "name-mismatch" | VERSION_MISMATCH => "version-mismatch" | MISSING_CAPABILITY => "missing-capability"
  end.

Definition CatalogRegistrationError (msg : string) : exn := ValueError ("CatalogRegistrationError: " +:+ msg).
Definition UnknownRegistrationError : exn := KeyError "descriptor is not registered".
Definition SelectionError (msg : string) : exn := ValueError ("SelectionError: " +:+ msg).

Record CatalogEntry := MkCatalogEntry { entry_descriptor : CapabilityDescriptor; enabled : bool }.

(** The selections of a request, sorted. *)
Definition ResolutionRequest := list DescriptorIdentity.

Definition ResolutionRequest_new (selections : list DescriptorIdentity) : result ResolutionRequest :=
  raise_if (negb (bool_decide (NoDup selections)))
    (SelectionError "resolution selections must not contain a duplicate exact identity");;
  raise_if (negb (bool_decide (NoDup (identity_kind <$> selections))))
    (SelectionError "resolution selections must contain at most one identity of each kind");;
  raise_if (negb (bool_decide (RUNTIME ∈ identity_kind <$> selections)))
    (SelectionError "resolution selections must contain one exact runtime identity");;
  Ok (sorted_key identity_key selections).

Record ResolutionSnapshot := MkResolutionSnapshot { catalog_revision : Z; descriptors : list CapabilityDescriptor }.

Definition ResolutionSnapshot_new (revision : Z) (ds : list CapabilityDescriptor) : result ResolutionSnapshot :=
  nonnegative_integer revision;;
  raise_if (negb (bool_decide (NoDup (desc_identity <$> ds))))
    (ValueError "resolution snapshot must not contain duplicate descriptor identities");;
  raise_if (negb (bool_decide (NoDup ((λ d, identity_kind (desc_identity d)) <$> ds))))
    (ValueError "resolution snapshot must contain at most one descriptor of each kind");;
  raise_if (negb (bool_decide (RUNTIME ∈ (λ d, identity_kind (desc_identity d)) <$> ds)))
    (ValueError "resolution snapshot must contain one runtime descriptor");;
  Ok (MkResolutionSnapshot revision (sorted_key (λ d, identity_key (desc_identity d)) ds)).

(** [ResolutionSnapshot.descriptor] *)
Definition descriptor (s : ResolutionSnapshot) (k : DescriptorKind) : option CapabilityDescriptor :=
  List.find (λ d, bool_decide (identity_kind (desc_identity d) = k)) (descriptors s).

Definition snapshot_to_data (s : ResolutionSnapshot) : Data :=
  DDict [("schema_version", DInt 1); ("catalog_revision", DInt (catalog_revision s));
         ("descriptors", DList (capability_to_data <$> descriptors s))].

Definition snapshot_from_data (x : Data) : result ResolutionSnapshot :=
  d ← exact_object ["schema_version"; "catalog_revision"; "descriptors"] x;
  v ← item d "schema_version"; d_version v;;
  r ← item d "catalog_revision"; l ← item d "descriptors";
  r ← d_nonnegative r;
  ds ← d_list capability_from_data l;
  ResolutionSnapshot_new r ds.

Record Resolution := MkResolution {
  request : ResolutionRequest;
  results : list CompatibilityResult;
  snapshot : option ResolutionSnapshot
}.

Definition Resolution_new (q : ResolutionRequest) (rs : list CompatibilityResult) (s : option ResolutionSnapshot)
  : result Resolution :=
  raise_if (negb (bool_decide (candidate <$> rs = Some <$> q)))
    (ValueError "resolution results must align exactly with the requested selections");;
  raise_if (Bool.eqb (existsb (λ r, negb (bool_decide (issues r = []))) rs) (bool_decide (is_Some s)))
    (ValueError "resolution snapshot must exist exactly when every candidate is compatible");;
  Ok (MkResolution q rs s).

Definition compatible (r : Resolution) : bool := bool_decide (is_Some (snapshot r)).

Definition incompatibilities (r : Resolution) : list CompatibilityResult :=
  List.filter (λ c, negb (bool_decide (issues c = []))) (results r).

(** ** The catalog *)

Record Catalog := MkCatalog { entries : gmap DescriptorIdentity CatalogEntry; revision : Z }.

Definition Catalog_init : Catalog := MkCatalog ∅ 0.

(** The values of a set comprehension, without duplicates. *)
Definition distinct {A} `{EqDecision A} (l : list A) : list A := remove_dups l.

(** [_refuse_impossible_requirements] *)
Definition refuse_impossible_requirements (d : CapabilityDescriptor) : result unit :=
  forM_ (λ k,
    let rs := List.filter (λ r, bool_decide (req_kind r = k)) (requires d) in
    raise_if (1 <? length (distinct (req_version <$> rs)))%nat
      (CatalogRegistrationError "descriptor has conflicting requirement contract versions");;
    raise_if (1 <? length (distinct (omap req_name rs)))%nat
      (CatalogRegistrationError "descriptor has conflicting requirement names")) all_kinds.

(** [register] *)
Definition register (c : Catalog) (d : CapabilityDescriptor) : result Catalog :=
  refuse_impossible_requirements d;;
  match entries c !! desc_identity d with
  | Some existing =>
      raise_if (bool_decide (entry_descriptor existing = d)) (CatalogRegistrationError "descriptor is already registered");;
      Err (CatalogRegistrationError "descriptor identity has conflicting registration envelopes")
  | None => Ok (MkCatalog (<[desc_identity d := MkCatalogEntry d false]> (entries c)) (revision c + 1))
  end.

(** [_entry] *)
Definition entry (c : Catalog) (i : DescriptorIdentity) : result CatalogEntry :=
  or_raise (entries c !! i) UnknownRegistrationError.

(** [enable] *)
Definition enable (c : Catalog) (i : DescriptorIdentity) : result Catalog :=
  e ← entry c i;
  if negb (enabled e)
  then Ok (MkCatalog (<[i := MkCatalogEntry (entry_descriptor e) true]> (entries c)) (revision c + 1))
  else Ok c.

(** [disable] *)
Definition disable (c : Catalog) (i : DescriptorIdentity) : result Catalog :=
  e ← entry c i;
  if enabled e
  then Ok (MkCatalog (<[i := MkCatalogEntry (entry_descriptor e) false]> (entries c)) (revision c + 1))
  else Ok c.

(** [inspect] *)
Definition inspect (c : Catalog) : list CatalogEntry :=
  omap (λ i, entries c !! i) (sorted_key identity_key ((map_to_list (entries c)).*1)).

(** [_issue] *)
Definition issue (c : CompatibilityIssueCode) (subject : string) : result CompatibilityIssue :=
  CompatibilityIssue_new (code_value c) subject.

(** Issues found one after the other and added to a set. *)
Definition add_issue (s : gset CompatibilityIssue) (i : CompatibilityIssueCode * string) : result (gset CompatibilityIssue) :=
  x ← issue i.1 i.2; Ok ({[x]} ∪ s).

(** The issues [_requirement_issues] creates, in order. *)
Definition requirement_findings (r : CompatibilityRequirement) (selections : dict DescriptorKind DescriptorIdentity)
    (es : gmap DescriptorIdentity CatalogEntry) : list (CompatibilityIssueCode * string) :=
  match dget (req_kind r) selections with
  | None => [(MISSING_SELECTION, descriptor_kind_value (req_kind r))]
  | Some selected =>
      match req_name r with
      | Some n => if String.eqb (identity_name selected) n then [] else [(NAME_MISMATCH, n)]
      | None => []
      end ++
      (if contract_version selected =? req_version r then []
       else [(VERSION_MISMATCH, descriptor_kind_value (req_kind r) +:+ "@" +:+ pretty (req_version r))]) ++
      match es !! selected with
      | None => [(SELECTION_NOT_REGISTERED, identity_name selected)]
      | Some e =>
          (if enabled e then [] else [(SELECTION_NOT_ENABLED, identity_name selected)]) ++
          ((λ c, (MISSING_CAPABILITY, c)) <$> elements (req_capabilities r ∖ offers (entry_descriptor e)))
      end
  end.

(** [_requirement_issues] *)
Definition requirement_issues (r : CompatibilityRequirement) (selections : dict DescriptorKind DescriptorIdentity)
    (es : gmap DescriptorIdentity CatalogEntry) : result (gset CompatibilityIssue) :=
  foldM add_issue ∅ (requirement_findings r selections es).

(** [_check_candidate] *)
Definition check_candidate (selections : dict DescriptorKind DescriptorIdentity) (es : gmap DescriptorIdentity CatalogEntry)
    (i : DescriptorIdentity) : result CompatibilityResult :=
  found ← match es !! i with
          | None => add_issue ∅ (NOT_REGISTERED, identity_name i)
          | Some e =>
              found ← if enabled e then Ok ∅ else add_issue ∅ (NOT_ENABLED, identity_name i);
              foldM (λ found r, more ← requirement_issues r selections es; Ok (found ∪ more)) found
                (requires (entry_descriptor e))
          end;
  CompatibilityResult_new (Some i) (elements found).

(** [resolve] *)
Definition resolve (c : Catalog) (q : ResolutionRequest) : result Resolution :=
  let selections := dict_of_list ((λ i, (identity_kind i, i)) <$> q) in
  rs ← mapR (check_candidate selections (entries c)) q;
  s ← (if forallb result_compatible rs
       then ds ← mapR (λ i, e ← or_raise (entries c !! i) (KeyError "entry"); Ok (entry_descriptor e)) q;
            s ← ResolutionSnapshot_new (revision c) ds; Ok (Some s)
       else Ok None);
  Resolution_new q rs s.
