(* ===== verification/CatalogTheorems.v ===== *)
(** * The catalog: exact resolutions

    The abstract specification of a plan ([defect], [plan_ok]) and the
    theorems that resolution reports exactly its defects, that registration
    refuses exactly the envelopes no plan can satisfy, and that a revision names
    one state of the registry. *)

From stdpp Require Import base gmap sets list sorting strings pretty.
From Stdlib Require Import Ascii Sorted ZArith Lia.
From S2P Require Import Prelude PyData Schema AgentText Descriptor Catalog.
Open Scope string_scope.
Open Scope list_scope.
Open Scope Z_scope.

(** ** Issue subjects are text *)

Lemma graphic_text s : str_empty s = false → str_forall graphic s = true → (String.length s ≤ MAX_TEXT_BYTES)%nat →
  text_ok s = true.
Proof.
  intros He Hg Hl. unfold text_ok. rewrite He, (graphic_stripped _ Hg), (proj2 (Nat.leb_le _ _) Hl). cbn [negb andb].
  revert Hg. apply str_forall_impl. intros a. unfold graphic, in_range. intros [Ha _]%andb_true_iff.
  apply Nat.leb_le in Ha. apply Nat.leb_le. lia.
Qed.

Lemma pretty_N_go_graphic x s : str_forall graphic s = true → str_forall graphic (pretty_N_go x s) = true.
Proof.
  revert s. induction (N.lt_wf_0 x) as [x _ IH]; intros s Hs.
  destruct (decide (x = 0)%N) as [->|Hx]; [by rewrite pretty_N_go_0|].
  rewrite pretty_N_go_step by lia. apply IH; [apply N.div_lt; lia|]. simpl. rewrite Hs, andb_true_r.
  assert (x `mod` 10 < 10)%N as Hm by (apply N.mod_lt; lia). revert Hm. generalize (x `mod` 10)%N as m. intros m Hm.
  assert (m = 0 ∨ m = 1 ∨ m = 2 ∨ m = 3 ∨ m = 4 ∨ m = 5 ∨ m = 6 ∨ m = 7 ∨ m = 8 ∨ m = 9)%N as H by lia.
  by repeat destruct H as [->|H]; [..|subst].
Qed.

Lemma pretty_positive_graphic z : 0 < z → str_forall graphic (pretty z) = true.
Proof.
  intros H. destruct z as [|p|]; [lia| |lia]. change (str_forall graphic (pretty (N.pos p)) = true). unfold pretty, pretty_N.
  destruct (decide _); [done|]. by apply pretty_N_go_graphic.
Qed.

Definition version_subject (r : CompatibilityRequirement) : string :=
  descriptor_kind_value (req_kind r) +:+ "@" +:+ pretty (req_version r).

(** The subject of a version mismatch fits into a text field. *)
Definition spellable (r : CompatibilityRequirement) : Prop := (String.length (version_subject r) ≤ MAX_TEXT_BYTES)%nat.

Lemma version_subject_text r : 0 < req_version r → spellable r → text_ok (version_subject r) = true.
Proof.
  intros Hv Hs. apply graphic_text; [by unfold version_subject; destruct (req_kind r)| |done].
  unfold version_subject. rewrite !str_forall_app, pretty_positive_graphic by done. by destruct (req_kind r).
Qed.

(** ** The specification of a plan *)

Section plan.
Context (es : gmap DescriptorIdentity CatalogEntry) (q : list DescriptorIdentity).

(** [i] is registered under the envelope [d], enabled or not. *)
Definition registered (i : DescriptorIdentity) (d : CapabilityDescriptor) (on : bool) : Prop :=
  es !! i = Some (MkCatalogEntry d on).

(** How the selection of its kind fails a requirement. *)
Inductive unmet (r : CompatibilityRequirement) : CompatibilityIssueCode → string → Prop :=
| unmet_missing : (∀ s, s ∈ q → identity_kind s ≠ req_kind r) →
    unmet r MISSING_SELECTION (descriptor_kind_value (req_kind r))
| unmet_name s n : s ∈ q → identity_kind s = req_kind r → req_name r = Some n → identity_name s ≠ n →
    unmet r NAME_MISMATCH n
| unmet_version s : s ∈ q → identity_kind s = req_kind r → contract_version s ≠ req_version r →
    unmet r VERSION_MISMATCH (version_subject r)
| unmet_unregistered s : s ∈ q → identity_kind s = req_kind r → es !! s = None →
    unmet r SELECTION_NOT_REGISTERED (identity_name s)
| unmet_disabled s d : s ∈ q → identity_kind s = req_kind r → registered s d false →
    unmet r SELECTION_NOT_ENABLED (identity_name s)
| unmet_capability s d on c : s ∈ q → identity_kind s = req_kind r → registered s d on →
    c ∈ req_capabilities r → c ∉ offers d → unmet r MISSING_CAPABILITY c.

(** What is wrong with selecting [i]. *)
Inductive defect (i : DescriptorIdentity) : CompatibilityIssueCode → string → Prop :=
| defect_unregistered : es !! i = None → defect i NOT_REGISTERED (identity_name i)
| defect_disabled d : registered i d false → defect i NOT_ENABLED (identity_name i)
| defect_requirement d on r code subject :
    registered i d on → r ∈ requires d → unmet r code subject → defect i code subject.

(** The selection [s] provides what [r] asks for. *)
Definition provides (s : DescriptorIdentity) (r : CompatibilityRequirement) : Prop :=
  identity_kind s = req_kind r ∧ (∀ n, req_name r = Some n → identity_name s = n) ∧
  contract_version s = req_version r ∧
  ∃ d, registered s d true ∧ req_capabilities r ⊆ offers d.

(** Every selection is enabled and every requirement is provided. *)
Definition plan_ok : Prop := ∀ i, i ∈ q → ∃ d, registered i d true ∧
  ∀ r, r ∈ requires d → ∃ s, s ∈ q ∧ provides s r.

(** ** Findings are the defects *)

Hypothesis kinds : NoDup (identity_kind <$> q).

Definition by_kind : dict DescriptorKind DescriptorIdentity := dict_of_list ((λ i, (identity_kind i, i)) <$> q).

Lemma by_kind_spec k s : dget k by_kind = Some s ↔ s ∈ q ∧ identity_kind s = k.
Proof.
  unfold by_kind. assert (dkeys ((λ i, (identity_kind i, i)) <$> q) = identity_kind <$> q) as Hk.
  { unfold dkeys. rewrite <-list_fmap_compose. done. }
  rewrite dict_of_list_id by (by rewrite Hk). split.
  - intros H%dget_elem_of. apply list_elem_of_fmap in H as (i & [= -> ->] & Hi). done.
  - intros [Hs <-]. apply elem_of_dget; [by rewrite Hk|]. apply list_elem_of_fmap. eauto.
Qed.

Lemma by_kind_none k : dget k by_kind = None ↔ ∀ s, s ∈ q → identity_kind s ≠ k.
Proof.
  split.
  - intros H s Hs Hk. assert (dget k by_kind = Some s) as E by (by apply by_kind_spec). congruence.
  - intros H. destruct (dget k by_kind) as [s|] eqn:E; [|done]. apply by_kind_spec in E as [Hs Hk]. by destruct (H s).
Qed.

Lemma findings_unmet r code subject : (code, subject) ∈ requirement_findings r by_kind es ↔ unmet r code subject.
Proof.
  unfold requirement_findings. destruct (dget (req_kind r) by_kind) as [s|] eqn:E.
  - assert (∀ s', s' ∈ q → identity_kind s' = req_kind r → s' = s) as Hone.
    { intros s' Hs' Hk'. assert (dget (req_kind r) by_kind = Some s') by (by apply by_kind_spec). congruence. }
    apply by_kind_spec in E as [Hs Hk]. rewrite !elem_of_app. split.
    + intros [H|[H|H]].
      * destruct (req_name r) as [n|] eqn:En; [|by apply elem_of_nil in H].
        destruct (String.eqb_spec (identity_name s) n); [by apply elem_of_nil in H|].
        apply list_elem_of_singleton in H as [= -> ->]. by eapply unmet_name.
      * destruct (Z.eqb_spec (contract_version s) (req_version r)); [by apply elem_of_nil in H|].
        apply list_elem_of_singleton in H as [= -> ->]. by eapply unmet_version.
      * destruct (es !! s) as [[d on]|] eqn:Ee; [|apply list_elem_of_singleton in H as [= -> ->]; by apply unmet_unregistered].
        apply elem_of_app in H as [H|H]; simpl in H.
        -- destruct on; [by apply elem_of_nil in H|]. apply list_elem_of_singleton in H as [= -> ->]. by eapply unmet_disabled.
        -- apply list_elem_of_fmap in H as (c & [= -> ->] & [Hc Hn]%elem_of_elements%elem_of_difference).
           by eapply unmet_capability.
    + intros [Hm|s' n Hs' Hk' Hn Hne|s' Hs' Hk' Hv|s' Hs' Hk' He|s' d Hs' Hk' He|s' d on c Hs' Hk' He Hc Ho];
        [by destruct (Hm s)|rewrite (Hone s' Hs' Hk') in *..].
      * left. rewrite Hn. destruct (String.eqb_spec (identity_name s) n); [done|]. by left.
      * right. left. destruct (Z.eqb_spec (contract_version s) (req_version r)); [done|]. by left.
      * right. right. rewrite He. by left.
      * right. right. rewrite He. simpl. by left.
      * right. right. rewrite He. simpl. apply elem_of_app. right. apply list_elem_of_fmap. exists c. split; [done|].
        by apply elem_of_elements, elem_of_difference.
  - pose proof (proj1 (by_kind_none _) E) as Hm. split.
    + intros [= -> ->]%list_elem_of_singleton. by apply unmet_missing.
    + intros [| | | | |]; [by left|exfalso; naive_solver..].
Qed.
End plan.

(** ** Resolution *)

#[local] Arguments text : simpl never.
#[local] Arguments add_issue : simpl never.
#[local] Arguments requirement_issues : simpl never.

Definition issue_of (x : CompatibilityIssueCode * string) : CompatibilityIssue := MkCompatibilityIssue (code_value x.1) x.2.

Lemma code_value_text c : text_ok (code_value c) = true.
Proof. destruct c; vm_compute; reflexivity. Qed.

Lemma add_issue_text s x : text_ok x.2 = true → add_issue s x = Ok ({[issue_of x]} ∪ s).
Proof.
  intros Hx. unfold add_issue, issue, CompatibilityIssue_new. rewrite (text_true (code_value x.1)) by apply code_value_text. simpl.
  by rewrite (text_true x.2).
Qed.

Lemma add_issues s l : Forall (λ x, text_ok x.2 = true) l →
  foldM add_issue s l = Ok (list_to_set (issue_of <$> l) ∪ s).
Proof.
  intros Hl. revert s. induction Hl as [|x l Hx _ IH]; intros s; [simpl; f_equal; set_solver|].
  simpl. rewrite add_issue_text by done. simpl. rewrite IH. f_equal. set_solver.
Qed.

(** A registry as registrations leave it; and one whose required versions an
    issue can spell. *)
Record catalog_ok (c : Catalog) : Prop := {
  ck_entries : ∀ i e, entries c !! i = Some e → desc_identity (entry_descriptor e) = i ∧ wf_capability (entry_descriptor e);
  ck_revision : 0 <= revision c
}.

Definition catalog_spellable (c : Catalog) : Prop :=
  ∀ i e r, entries c !! i = Some e → r ∈ requires (entry_descriptor e) → spellable r.

Record request_ok (q : ResolutionRequest) : Prop := {
  rq_identities : Forall wf_identity q;
  rq_new : ∃ l, ResolutionRequest_new l = Ok q
}.

Lemma request_facts q : request_ok q →
  NoDup q ∧ NoDup (identity_kind <$> q) ∧ RUNTIME ∈ identity_kind <$> q ∧ sorted_key identity_key q = q.
Proof.
  intros [_ [l H]]. unfold ResolutionRequest_new in H. inv_ok.
  repeat match goal with H : negb _ = false |- _ => apply negb_false_iff, bool_decide_eq_true in H end.
  pose proof (sorted_key_perm identity_key l) as Hp. split_and!; [by rewrite Hp..|apply sorted_key_idem].
Qed.

Section resolution.
Context (c : Catalog) (q : ResolutionRequest) (Hc : catalog_ok c) (Hs : catalog_spellable c) (Hq : request_ok q).

#[local] Notation es := (entries c).

Lemma q_kinds : NoDup (identity_kind <$> q).
Proof. by destruct (request_facts q Hq) as (_ & ? & _). Qed.

Lemma selected_text i : i ∈ q → text_ok (identity_name i) = true.
Proof. intros Hi. destruct Hq as [Hw _]. eapply Forall_forall in Hw; [|done]. by destruct Hw. Qed.

Lemma unmet_text r code subject : wf_requirement r → spellable r → unmet es q r code subject → text_ok subject = true.
Proof.
  intros (Hn & Hv & Hcap) Hsp [Hm|s' n Hs' Hk' E Hne|s' Hs' Hk' _|s' Hs' Hk' He|s' d Hs' Hk' He|s' d on x Hs' Hk' He Hx Ho].
  - by destruct (req_kind r).
  - by apply Hn.
  - by apply version_subject_text.
  - by apply selected_text.
  - by apply selected_text.
  - by apply Hcap.
Qed.

Lemma requirement_issues_spec r : wf_requirement r → spellable r →
  ∃ S, requirement_issues r (by_kind q) es = Ok S ∧
    ∀ x, x ∈ S ↔ ∃ code subject, unmet es q r code subject ∧ x = issue_of (code, subject).
Proof.
  intros Hr Hsp. eexists. split.
  - apply add_issues. apply Forall_forall. intros [code subject] Hin. simpl.
    apply (unmet_text r code); [done|done|]. apply findings_unmet; [apply q_kinds|done].
  - intros x. rewrite elem_of_union, elem_of_list_to_set, list_elem_of_fmap. split.
    + intros [([code subject] & -> & Hin)|?]; [|set_solver]. exists code, subject. split; [|done].
      apply findings_unmet; [apply q_kinds|done].
    + intros (code & subject & Hu & ->). left. exists (code, subject). split; [done|].
      apply findings_unmet; [apply q_kinds|done].
Qed.

Lemma gather rs acc : Forall (λ r, wf_requirement r ∧ spellable r) rs →
  ∃ S, foldM (λ found r, more ← requirement_issues r (by_kind q) es; Ok (found ∪ more)) acc rs = Ok S ∧
    ∀ x, x ∈ S ↔ x ∈ acc ∨ ∃ r code subject, r ∈ rs ∧ unmet es q r code subject ∧ x = issue_of (code, subject).
Proof.
  intros Hrs. revert acc. induction Hrs as [|r rs [Hr Hsp] _ IH]; intros acc.
  { exists acc. split; [done|]. intros x. split; [by left|]. intros [?|(? & ? & ? & []%elem_of_nil & _)]; done. }
  destruct (requirement_issues_spec r Hr Hsp) as (S & HS & Hin). simpl. rewrite HS. simpl.
  destruct (IH (acc ∪ S)) as (S' & -> & Hin'). exists S'. split; [done|]. intros x.
  rewrite Hin', elem_of_union, Hin. split.
  - intros [[?|(code & subject & ? & ->)]|(r' & code & subject & ? & ? & ->)]; [by left|right..].
    + exists r, code, subject. split; [by left|done].
    + exists r', code, subject. split; [by right|done].
  - intros [?|(r' & code & subject & [->|?]%elem_of_cons & ? & ->)]; [by left; left| |].
    + left. right. eauto.
    + right. eauto 6.
Qed.

Lemma entry_requires i d on : registered es i d on → Forall (λ r, wf_requirement r ∧ spellable r) (requires d).
Proof.
  intros He. apply Forall_forall. intros r Hr. destruct (ck_entries c Hc _ _ He) as [_ Hw]. split.
  - eapply Forall_forall; [by apply Hw|done].
  - by apply (Hs _ _ _ He).
Qed.

Lemma check_candidate_spec i : i ∈ q →
  ∃ res, check_candidate (by_kind q) es i = Ok res ∧ candidate res = Some i ∧ NoDup (issues res) ∧
    issues res = sorted_key issue_key (issues res) ∧
    ∀ x, x ∈ issues res ↔ ∃ code subject, defect es q i code subject ∧ x = issue_of (code, subject).
Proof.
  intros Hi. unfold check_candidate.
  assert (∀ code, add_issue ∅ (code, identity_name i) = Ok {[issue_of (code, identity_name i)]}) as Hadd.
  { intros code. rewrite add_issue_text by (by apply selected_text). f_equal. set_solver. }
  match goal with |- context [_ ← ?m; _] => assert (∃ S, m = Ok S ∧
    ∀ x, x ∈ S ↔ ∃ code subject, defect es q i code subject ∧ x = issue_of (code, subject)) as (S & -> & HS) end.
  - destruct (entries c !! i) as [[d on]|] eqn:Ee.
    + simpl. assert ((if on then Ok ∅ else add_issue ∅ (NOT_ENABLED, identity_name i)) =
              Ok (if on then ∅ else {[issue_of (NOT_ENABLED, identity_name i)]} : gset CompatibilityIssue)) as ->
        by (destruct on; [done|apply Hadd]). simpl.
      destruct (gather (requires d) (if on then ∅ else {[issue_of (NOT_ENABLED, identity_name i)]}) (entry_requires i d on Ee))
        as (S & -> & Hin). exists S. split; [done|]. intros x. rewrite Hin. split.
      * intros [Hx|(r & code & subject & Hr & Hu & ->)].
        -- destruct on; [by apply not_elem_of_empty in Hx|]. apply elem_of_singleton in Hx as ->.
           exists NOT_ENABLED, (identity_name i). split; [by eapply defect_disabled|done].
        -- exists code, subject. split; [by eapply defect_requirement|done].
      * intros (code & subject & [Hn|d' Hd'|d' on' r code' subject' Hd' Hr Hu] & ->); unfold registered in *; simplify_map_eq.
        -- left. by apply elem_of_singleton.
        -- right. eauto 6.
    + rewrite Hadd. eexists. split; [done|]. intros x. rewrite elem_of_singleton. split.
      * intros ->. exists NOT_REGISTERED, (identity_name i). split; [by apply defect_unregistered|done].
      * intros (code & subject & [Hn|d' Hd'|d' on' r code' subject' Hd' Hr Hu] & ->); unfold registered in *; simplify_map_eq. done.
  - simpl. unfold CompatibilityResult_new. rewrite (bool_decide_true (NoDup _)) by apply NoDup_elements. simpl.
    eexists. split; [done|]. simpl. split; [done|]. rewrite sorted_key_idem. 
    pose proof (sorted_key_perm issue_key (elements S)) as Hp. split; [rewrite Hp; apply NoDup_elements|].
    split; [done|]. intros x. by rewrite Hp, elem_of_elements, HS.
Qed.
End resolution.

(** ** Plans without defects *)

Section defects.
Context (es : gmap DescriptorIdentity CatalogEntry) (q : list DescriptorIdentity) (kinds : NoDup (identity_kind <$> q)).

Lemma met_iff r : (∀ code subject, ¬ unmet es q r code subject) ↔ ∃ s, s ∈ q ∧ provides es s r.
Proof.
  split.
  - intros H. destruct (dget (req_kind r) (by_kind q)) as [s|] eqn:E.
    + apply by_kind_spec in E as [Hs Hk]; [|done]. exists s. split; [done|]. split; [done|]. split; [|split].
      * intros n Hn. destruct (decide (identity_name s = n)); [done|]. by destruct (H NAME_MISMATCH n); eapply unmet_name.
      * destruct (decide (contract_version s = req_version r)); [done|]. by destruct (H VERSION_MISMATCH (version_subject r)); eapply unmet_version.
      * destruct (es !! s) as [[d []]|] eqn:Ee.
        -- exists d. split; [done|]. intros x Hx. destruct (decide (x ∈ offers d)); [done|].
           by destruct (H MISSING_CAPABILITY x); eapply unmet_capability.
        -- by destruct (H SELECTION_NOT_ENABLED (identity_name s)); eapply unmet_disabled.
        -- by destruct (H SELECTION_NOT_REGISTERED (identity_name s)); eapply unmet_unregistered.
    + pose proof (proj1 (by_kind_none q kinds _) E) as Em. destruct (H MISSING_SELECTION (descriptor_kind_value (req_kind r))). by apply unmet_missing.
  - intros (s & Hs & Hk & Hn & Hv & d & He & Hcap) code subject Hu.
    assert (∀ s', s' ∈ q → identity_kind s' = req_kind r → s' = s) as Hone.
    { intros s' Hs' Hk'. assert (dget (req_kind r) (by_kind q) = Some s') by (by apply by_kind_spec).
      assert (dget (req_kind r) (by_kind q) = Some s) by (by apply by_kind_spec). congruence. }
    destruct Hu as [Hm|s' n Hs' Hk' E Hne|s' Hs' Hk' Hv'|s' Hs' Hk' He'|s' d' Hs' Hk' He'|s' d' on x Hs' Hk' He' Hx Ho];
      [by destruct (Hm s)|pose proof (Hone s' Hs' Hk') as ->; unfold registered in *; simplify_map_eq..].
    + by destruct Hne; apply Hn.
    + by apply Ho, Hcap.
Qed.

Lemma sound_iff i : (∀ code subject, ¬ defect es q i code subject) ↔
  ∃ d, registered es i d true ∧ ∀ r, r ∈ requires d → ∃ s, s ∈ q ∧ provides es s r.
Proof.
  split.
  - intros H. destruct (es !! i) as [[d []]|] eqn:E.
    + exists d. split; [done|]. intros r Hr. apply met_iff. intros code subject Hu. apply (H code subject).
      by eapply defect_requirement.
    + destruct (H NOT_ENABLED (identity_name i)). by eapply defect_disabled.
    + destruct (H NOT_REGISTERED (identity_name i)). by apply defect_unregistered.
  - intros (d & Hd & Hr) code subject [Hn|d' Hd'|d' on r code' subject' Hd' Hin Hu];
      unfold registered in *; simplify_map_eq.
    by apply (proj2 (met_iff r) (Hr r Hin) code' subject').
Qed.
End defects.

Section resolve.
Context (c : Catalog) (q : ResolutionRequest) (Hc : catalog_ok c) (Hq : request_ok q).

Lemma snapshot_of_plan : plan_ok (entries c) q →
  ∃ s, (ds ← mapR (λ i, e ← or_raise (entries c !! i) (KeyError "entry"); Ok (entry_descriptor e)) q;
        ResolutionSnapshot_new (revision c) ds) = Ok s ∧
    catalog_revision s = revision c ∧ desc_identity <$> descriptors s = q ∧
    ∀ d, d ∈ descriptors s → registered (entries c) (desc_identity d) d true.
Proof.
  intros Hp. destruct (request_facts q Hq) as (Hnd & Hk & Hr & Hsort).
  assert (∃ ds, mapR (λ i, e ← or_raise (entries c !! i) (KeyError "entry"); Ok (entry_descriptor e)) q = Ok ds ∧
    desc_identity <$> ds = q ∧ ∀ d, d ∈ ds → registered (entries c) (desc_identity d) d true) as (ds & -> & Hi & Hd).
  { clear Hnd Hk Hr Hsort. assert (∀ i, i ∈ q → ∃ d, registered (entries c) i d true) as Hq' by (intros i Hi; destruct (Hp i Hi) as (d & Hd & _); eauto). clear Hp Hq.
    induction q as [|i q' IH]; [exists []; split; [done|]; split; [done|]; intros ? []%elem_of_nil|].
    destruct (Hq' i) as [d Hd]; [by left|]. pose proof (ck_entries c Hc _ _ Hd) as [Hid _]. simpl in Hid. subst i.
    destruct IH as (ds & Hds & Hi & Hall); [intros; apply Hq'; by right|]. unfold registered in Hd.
    exists (d :: ds). simpl. rewrite Hd. simpl. rewrite Hds. simpl. split; [done|]. split; [by simpl; f_equal|].
    intros d' [->|?]%elem_of_cons; [done|auto]. }
  simpl. unfold ResolutionSnapshot_new.
  assert ((λ d, identity_kind (desc_identity d)) <$> ds = identity_kind <$> q) as Hkd by (by rewrite <-Hi, <-list_fmap_compose).
  rewrite nonnegative_true by apply Hc. simpl. rewrite Hi, Hkd, !bool_decide_true by done. simpl.
  assert (sorted_key (λ d, identity_key (desc_identity d)) ds = ds) as ->.
  { apply sorted_by_id. assert (StronglySorted (λ x y, leb (identity_key x) (identity_key y) = true) q) as Hq'
      by (rewrite <-Hsort; apply sorted_key_sorted).
    rewrite <-Hi in Hq'. clear -Hq'. induction ds as [|d ds IH]; [constructor|]. inversion_clear Hq' as [|? ? Hl Hx]. constructor; [by apply IH|].
    by rewrite Forall_fmap in Hx. }
  eexists. split; [done|]. done.
Qed.

(** What a candidate's result says. *)
Definition result_exact (res : CompatibilityResult) (i : DescriptorIdentity) : Prop :=
  NoDup (issues res) ∧ issues res = sorted_key issue_key (issues res) ∧
  ∀ x, x ∈ issues res ↔ ∃ code subject, defect (entries c) q i code subject ∧ x = issue_of (code, subject).

Lemma results_spec : catalog_spellable c →
  ∃ rs, mapR (check_candidate (by_kind q) (entries c)) q = Ok rs ∧ candidate <$> rs = Some <$> q ∧
    ∀ res i, res ∈ rs → candidate res = Some i → result_exact res i.
Proof.
  intros Hs. assert (∀ i, i ∈ q → i ∈ q) as Hsub by done. revert Hsub. generalize q at 1 4 5. intros l Hsub.
  induction l as [|i l IH]; [exists []; split; [done|]; split; [done|]; intros ? ? []%elem_of_nil|].
  destruct (check_candidate_spec c q Hc Hs Hq i) as (res & Hres & Hci & Hspec); [apply Hsub; by left|].
  destruct IH as (rs & Hrs & Hcand & Hall); [intros; apply Hsub; by right|]. exists (res :: rs). simpl. rewrite Hres. simpl.
  rewrite Hrs. simpl. split; [done|]. split; [by rewrite Hci; f_equal|].
  intros res' i' [->|?]%elem_of_cons Hi'; [|by apply Hall]. by rewrite Hci in Hi'; simplify_eq.
Qed.

Definition clean (rs : list CompatibilityResult) : Prop := Forall (λ res, issues res = []) rs.

Section results.
Context (rs : list CompatibilityResult) (Hcand : candidate <$> rs = Some <$> q)
  (Hall : ∀ res i, res ∈ rs → candidate res = Some i → result_exact res i).

Lemma result_candidate res : res ∈ rs → ∃ i, candidate res = Some i ∧ i ∈ q.
Proof.
  intros Hres. assert (candidate res ∈ candidate <$> rs) as Hin by (apply list_elem_of_fmap; eauto).
  rewrite Hcand in Hin. apply list_elem_of_fmap in Hin as (i & ? & ?). eauto.
Qed.

Lemma clean_iff : clean rs ↔ plan_ok (entries c) q.
Proof.
  pose proof (q_kinds q Hq) as Hk. unfold plan_ok, clean. rewrite Forall_forall. split.
  - intros H i Hi. apply sound_iff; [done|]. intros code subject Hd.
    assert (Some i ∈ candidate <$> rs) as (res & E & Hres)%list_elem_of_fmap by (rewrite Hcand; by apply list_elem_of_fmap; eauto).
    destruct (Hall res i Hres (eq_sym E)) as (_ & _ & Hx). specialize (Hx (issue_of (code, subject))).
    rewrite (H res Hres) in Hx. apply (not_elem_of_nil (issue_of (code, subject))), Hx. eauto.
  - intros H res Hres. destruct (result_candidate res Hres) as (i & Hi & Hiq). destruct (Hall res i Hres Hi) as (_ & _ & Hx).
    destruct (issues res) as [|x l]; [done|]. destruct (proj1 (Hx x)) as (code & subject & Hd & _); [by left|].
    by destruct (proj2 (sound_iff (entries c) q Hk i) (H i Hiq) code subject).
Qed.

Lemma clean_compatible : forallb result_compatible rs = true ↔ clean rs.
Proof.
  unfold clean. rewrite forallb_forall, Forall_forall. split; intros H res.
  - intros Hres%list_elem_of_In. apply H, andb_true_iff in Hres as [_ ?%bool_decide_eq_true]. done.
  - intros Hres%list_elem_of_In. unfold result_compatible. destruct (result_candidate res Hres) as (i & -> & _).
    by rewrite (H res Hres).
Qed.

Lemma clean_blocked : existsb (λ r, negb (bool_decide (issues r = []))) rs = negb (forallb result_compatible rs).
Proof.
  assert (∀ res, res ∈ rs → result_compatible res = bool_decide (issues res = [])) as H.
  { intros res Hres. unfold result_compatible. by destruct (result_candidate res Hres) as (i & -> & _). }
  clear -H. induction rs as [|res l IH]; [done|]. simpl. rewrite H by left. rewrite IH by (intros; apply H; by right).
  by destruct (bool_decide (issues res = [])).
Qed.

Lemma Resolution_new_aligned s : forallb result_compatible rs = bool_decide (is_Some s) →
  Resolution_new q rs s = Ok (MkResolution q rs s).
Proof.
  intros H. unfold Resolution_new. rewrite (bool_decide_true (_ = _)) by done. simpl. rewrite clean_blocked, H.
  by destruct (bool_decide (is_Some s)).
Qed.
End results.
End resolve.

(** C23: resolving a request against a registry whose required versions can be
    spelled within the text limit returns, for each selection in order, exactly its defects, sorted and without duplicates:
    that it is unregistered or disabled, and every way the selection of a
    required kind fails a requirement. The resolution is compatible exactly
    when every selection is enabled and every requirement provided, and then
    its snapshot holds the registered envelopes of the selections at the
    registry's revision. *)
Theorem resolution_is_exact c q : catalog_ok c → catalog_spellable c → request_ok q →
  ∃ r, resolve c q = Ok r ∧ candidate <$> results r = Some <$> q ∧
    (∀ res i, res ∈ results r → candidate res = Some i → result_exact c q res i) ∧
    (compatible r = true ↔ plan_ok (entries c) q) ∧
    (∀ s, snapshot r = Some s → catalog_revision s = revision c ∧ desc_identity <$> descriptors s = q ∧
       ∀ d, d ∈ descriptors s → registered (entries c) (desc_identity d) d true).
Proof.
  intros Hc Hs Hq. destruct (results_spec c q Hc Hq Hs) as (rs & Hrs & Hcand & Hall).
  pose proof (clean_iff c q Hq rs Hcand Hall) as Hplan. rewrite <-(clean_compatible q rs Hcand) in Hplan.
  unfold resolve. fold (by_kind q). rewrite Hrs. simpl. destruct (forallb result_compatible rs) eqn:Ef.
  - destruct (snapshot_of_plan c q Hc Hq (proj1 Hplan eq_refl)) as (s & Hsnap & Hfacts).
    apply bind_Ok in Hsnap as (ds & -> & Hsnap). simpl. rewrite Hsnap. simpl.
    rewrite (Resolution_new_aligned q rs Hcand) by done. eexists. split; [done|]. simpl.
    split; [done|]. split; [done|]. split; [|by intros ? [= <-]]. by rewrite <-Hplan.
  - simpl. rewrite (Resolution_new_aligned q rs Hcand) by done. eexists. split; [done|]. simpl.
    split; [done|]. split; [done|]. by rewrite <-Hplan.
Qed.

(** ** Registration *)

(** One operation of a host. *)
Inductive catalog_step (c c' : Catalog) : Prop :=
| step_register d : wf_capability d → register c d = Ok c' → catalog_step c c'
| step_enable i : enable c i = Ok c' → catalog_step c c'
| step_disable i : disable c i = Ok c' → catalog_step c c'.

(** [c'] is [c], or a later state that keeps every envelope. *)
Definition later (c c' : Catalog) : Prop :=
  c' = c ∨ revision c < revision c' ∧
  ∀ i e, entries c !! i = Some e → ∃ e', entries c' !! i = Some e' ∧ entry_descriptor e' = entry_descriptor e.

Lemma later_trans c1 c2 c3 : later c1 c2 → later c2 c3 → later c1 c3.
Proof.
  intros [->|[H1 E1]]; [done|]. intros [->|[H2 E2]]; right; [done|]. split; [lia|].
  intros i e He. destruct (E1 i e He) as (e' & He' & <-). by apply E2.
Qed.

Lemma step_later c c' : catalog_ok c → catalog_step c c' → catalog_ok c' ∧ later c c'.
Proof.
  intros Hc Hst.
  assert (∀ i d on, (∀ e, entries c !! i = Some e → entry_descriptor e = d) → wf_capability d → desc_identity d = i →
    let c'' := MkCatalog (<[i := MkCatalogEntry d on]> (entries c)) (revision c + 1) in catalog_ok c'' ∧ later c c'') as Hset.
  { intros i d on Hold Hw Hi c''. split; [split|right; split]; simpl.
    - intros j e. rewrite lookup_insert_Some. intros [[<- <-]|[_ He]]; [done|by apply Hc].
    - pose proof (ck_revision c Hc). lia.
    - lia.
    - intros j e He. rewrite lookup_insert. case_decide; [subst j; eexists; split; [done|]; simpl; symmetry; auto|eauto]. }
  destruct Hst as [d Hw H|i H|i H].
  - unfold register in H. inv_ok. destruct (entries c !! desc_identity d) as [e|] eqn:E; inv_ok.
    apply Hset; [|done|done]. intros e. by rewrite E.
  - unfold enable, entry in H. inv_ok. match goal with H : entries c !! i = Some ?e |- _ => rename H into Ee; destruct e as [d on] end.
    simpl in *. destruct on; simpl in H; inv_ok; [by split; [done|left]|]. destruct (ck_entries c Hc _ _ Ee). apply Hset; [|done|done].
    intros e. rewrite Ee. by intros [= <-].
  - unfold disable, entry in H. inv_ok. match goal with H : entries c !! i = Some ?e |- _ => rename H into Ee; destruct e as [d on] end.
    simpl in *. destruct on; simpl in H; inv_ok; [|by split; [done|left]]. destruct (ck_entries c Hc _ _ Ee). apply Hset; [|done|done].
    intros e. rewrite Ee. by intros [= <-].
Qed.

Lemma steps_later c c' : rtc catalog_step c c' → catalog_ok c → catalog_ok c' ∧ later c c'.
Proof.
  induction 1 as [c|c0 c1 c' Hst _ IH]; intros Hc; [by split; [|left]|]. destruct (step_later c0 c1 Hc Hst) as [Hc1 Hl1].
  destruct (IH Hc1) as [? ?]. split; [done|by eapply later_trans].
Qed.

Lemma catalog_init_ok : catalog_ok Catalog_init.
Proof. split; [|done]. intros i e. unfold Catalog_init. simpl. by rewrite lookup_empty. Qed.

(** *** Requirements no plan can satisfy *)

(** Some plan provides everything [d] requires. *)
Definition satisfiable (d : CapabilityDescriptor) : Prop := ∃ es q, NoDup (identity_kind <$> q) ∧
  ∀ r, r ∈ requires d → ∃ s, s ∈ q ∧ provides es s r.

(** The requirements of [d] of one kind agree on version and name. *)
Definition agreeing (d : CapabilityDescriptor) : Prop := ∀ r r', r ∈ requires d → r' ∈ requires d → req_kind r = req_kind r' →
  req_version r = req_version r' ∧ ∀ n n', req_name r = Some n → req_name r' = Some n' → n = n'.

Lemma one_value {A} `{EqDecision A} (l : list A) : (1 <? length (distinct l))%nat = false ↔ ∀ x y, x ∈ l → y ∈ l → x = y.
Proof.
  unfold distinct. rewrite Nat.ltb_ge. pose proof (NoDup_remove_dups l) as Hd. split.
  - intros H x y Hx Hy. rewrite <-elem_of_remove_dups in Hx, Hy. destruct (remove_dups l) as [|a [|b k]]; simpl in H; [by apply elem_of_nil in Hx| |lia].
    apply list_elem_of_singleton in Hx, Hy. congruence.
  - intros H. assert (∀ x y, x ∈ remove_dups l → y ∈ remove_dups l → x = y) as H' by (intros x y; rewrite !elem_of_remove_dups; apply H).
    destruct (remove_dups l) as [|a [|b k]]; simpl; [lia..|]. rewrite (H' a b) in Hd by set_solver.
    apply NoDup_cons in Hd as [Hd _]. set_solver.
Qed.

Lemma all_kinds_complete k : k ∈ all_kinds.
Proof. destruct k; set_solver. Qed.

Lemma all_kinds_distinct : NoDup all_kinds.
Proof. apply (bool_decide_eq_true (NoDup all_kinds)). reflexivity. Qed.

Lemma refuse_iff d : refuse_impossible_requirements d = Ok tt ↔ agreeing d.
Proof.
  unfold refuse_impossible_requirements. rewrite forM_Ok, Forall_forall.
  assert (∀ k r, In r (List.filter (λ r, bool_decide (req_kind r = k)) (requires d)) ↔ r ∈ requires d ∧ req_kind r = k) as Hf.
  { intros k r. rewrite filter_In, bool_decide_eq_true, list_elem_of_In. done. }
  split.
  - intros H r r' Hr Hr' Hk. specialize (H (req_kind r) (all_kinds_complete _)). inv_ok.
    repeat match goal with H : (1 <? length (distinct _))%nat = false |- _ => rewrite one_value in H end. split.
    + match goal with H : ∀ x y : Z, _ |- _ => apply H end; apply list_elem_of_fmap; eexists; (split; [done|]); apply list_elem_of_In, Hf; auto.
    + intros n n' Hn Hn'. match goal with H : ∀ x y : string, _ |- _ => apply H end;
        apply list_elem_of_omap; eexists; (split; [|done]); apply list_elem_of_In, Hf; auto.
  - intros H k _. rewrite !raise_if_false; [done|apply one_value..].
    + intros v v' (r & -> & [Hr <-]%list_elem_of_In%Hf)%list_elem_of_fmap (r' & -> & [Hr' Hk]%list_elem_of_In%Hf)%list_elem_of_fmap.
      by apply (H r r').
    + intros n n' (r & [Hr <-]%list_elem_of_In%Hf & Hn)%list_elem_of_omap (r' & [Hr' Hk]%list_elem_of_In%Hf & Hn')%list_elem_of_omap.
      by apply (H r r').
Qed.

Section model_plan.
Context (d : CapabilityDescriptor) (Hd : agreeing d).

Definition of_kind (k : DescriptorKind) : list CompatibilityRequirement :=
  List.filter (λ r, bool_decide (req_kind r = k)) (requires d).

Lemma of_kind_spec k r : r ∈ of_kind k ↔ r ∈ requires d ∧ req_kind r = k.
Proof. unfold of_kind. rewrite !list_elem_of_In, filter_In, bool_decide_eq_true. done. Qed.

(** A selection of kind [k] with the version and the name [d] asks for. *)
Definition model_selection (k : DescriptorKind) : DescriptorIdentity :=
  MkDescriptorIdentity k (default "any" (head (omap req_name (of_kind k)))) (default 1 (head (req_version <$> of_kind k))).

Definition model_entries : gmap DescriptorIdentity CatalogEntry :=
  list_to_map ((λ k, (model_selection k,
    MkCatalogEntry (MkCapabilityDescriptor (model_selection k) (⋃ (req_capabilities <$> requires d)) []) true)) <$> all_kinds).

Lemma model_entry k : model_entries !! model_selection k =
  Some (MkCatalogEntry (MkCapabilityDescriptor (model_selection k) (⋃ (req_capabilities <$> requires d)) []) true).
Proof.
  apply elem_of_list_to_map.
  - rewrite <-list_fmap_compose. apply (NoDup_fmap_1 identity_kind). rewrite <-list_fmap_compose. apply all_kinds_distinct.
  - apply list_elem_of_fmap. exists k. split; [done|apply all_kinds_complete].
Qed.

Lemma model_provides r : r ∈ requires d → provides model_entries (model_selection (req_kind r)) r.
Proof.
  intros Hr. assert (r ∈ of_kind (req_kind r)) as Hk by (by apply of_kind_spec).
  split; [done|]. split; [|split].
  - intros n Hn. simpl. assert (n ∈ omap req_name (of_kind (req_kind r))) as Hin by (apply list_elem_of_omap; eauto).
    destruct (omap req_name (of_kind (req_kind r))) as [|n' l] eqn:E; [by apply elem_of_nil in Hin|]. simpl.
    assert (n' ∈ omap req_name (of_kind (req_kind r))) as (r' & [Hr' Hk']%of_kind_spec & Hn')%list_elem_of_omap by (rewrite E; by left).
    by apply (Hd r' r).
  - simpl. assert (req_version r ∈ req_version <$> of_kind (req_kind r)) as Hin by (apply list_elem_of_fmap; eauto).
    destruct (req_version <$> of_kind (req_kind r)) as [|v l] eqn:E; [by apply elem_of_nil in Hin|]. simpl.
    assert (v ∈ req_version <$> of_kind (req_kind r)) as (r' & -> & [Hr' Hk']%of_kind_spec)%list_elem_of_fmap by (rewrite E; by left).
    by apply (Hd r' r).
  - eexists. split; [apply model_entry|]. simpl. intros x Hx. apply elem_of_union_list. exists (req_capabilities r).
    split; [|done]. apply list_elem_of_fmap. eauto.
Qed.
End model_plan.

Lemma agreeing_satisfiable d : agreeing d ↔ satisfiable d.
Proof.
  split.
  - intros Hd. exists (model_entries d), (model_selection d <$> all_kinds). split; [rewrite <-list_fmap_compose; apply all_kinds_distinct|].
    intros r Hr. exists (model_selection d (req_kind r)). split; [|by apply model_provides].
    apply list_elem_of_fmap. exists (req_kind r). split; [done|apply all_kinds_complete].
  - intros (es & q & Hq & Hall) r r' Hr Hr' Hk.
    destruct (Hall r Hr) as (s & Hs & Hsk & Hsn & Hsv & _). destruct (Hall r' Hr') as (s' & Hs' & Hsk' & Hsn' & Hsv' & _).
    assert (s = s') as <-.
    { assert (dget (req_kind r) (by_kind q) = Some s) as E by (by apply by_kind_spec).
      assert (dget (req_kind r) (by_kind q) = Some s') as E' by (apply by_kind_spec; [done|]; by rewrite Hk). congruence. }
    split; [congruence|]. intros n n' Hn Hn'. by rewrite <-(Hsn n Hn), <-(Hsn' n' Hn').
Qed.

(** A registration is refused exactly when its identity is taken or
    no plan whatever could satisfy its requirements. Through any operations
    the revision grows with every change and only then, so that the revision a
    snapshot carries names one state of the registry; a registered envelope
    never changes or disappears. *)
Theorem registry_is_faithful c d : rtc catalog_step Catalog_init c →
  ((∃ c', register c d = Ok c') ↔ entries c !! desc_identity d = None ∧ satisfiable d) ∧
  (∀ c', rtc catalog_step c c' → catalog_ok c' ∧ revision c <= revision c' ∧ (revision c' = revision c → c' = c) ∧
     ∀ i e, entries c !! i = Some e → ∃ e', entries c' !! i = Some e' ∧ entry_descriptor e' = entry_descriptor e).
Proof.
  intros [Hc _]%steps_later; [|apply catalog_init_ok].
  split.
  - rewrite <-agreeing_satisfiable, <-refuse_iff. unfold register. split.
    + intros [c' H]. inv_ok. destruct (entries c !! desc_identity d) as [e|]; inv_ok. done.
    + intros [-> ->]. simpl. eauto.
  - intros c' [Hc' Hl]%steps_later; [|done].
    destruct Hl as [->|[Hl He]]; [split_and!; eauto with lia|]. split_and!; [done|lia|lia|done].
Qed.

(** ** A registry with one unmet requirement *)

Definition sample_runtime : CapabilityDescriptor :=
  MkCapabilityDescriptor (MkDescriptorIdentity RUNTIME "local" 1) ∅ [MkCompatibilityRequirement HANDS None 2 {["edit"]}].
Definition sample_hands : CapabilityDescriptor := MkCapabilityDescriptor (MkDescriptorIdentity HANDS "workspace" 2) {["read"]} [].

Definition sample_catalog : Catalog := MkCatalog
  {[ desc_identity sample_runtime := MkCatalogEntry sample_runtime true; desc_identity sample_hands := MkCatalogEntry sample_hands true ]} 4.
Definition sample_request : ResolutionRequest := [desc_identity sample_hands; desc_identity sample_runtime].

Lemma sample_entries i e : entries sample_catalog !! i = Some e →
  i = desc_identity sample_runtime ∧ e = MkCatalogEntry sample_runtime true ∨
  i = desc_identity sample_hands ∧ e = MkCatalogEntry sample_hands true.
Proof.
  unfold sample_catalog. simpl. rewrite lookup_insert_Some. intros [[<- <-]|[_ [<- <-]%lookup_singleton_Some]]; auto.
Qed.

Lemma wf_singleton s : text_ok s = true → wf_capabilities {[s]}.
Proof. intros H x ->%elem_of_singleton. done. Qed.

Lemma sample_wf : wf_capability sample_runtime ∧ wf_capability sample_hands.
Proof.
  split; split; try reflexivity; simpl; try apply (wf_singleton "read"); try apply (bool_decide_eq_true (NoDup _)); try reflexivity.
  - split; reflexivity.
  - intros x []%not_elem_of_empty.
  - constructor; [|constructor]. split; [intros n; discriminate|]. split; [reflexivity|]. by apply wf_singleton.
  - split; reflexivity.
  - constructor.
Qed.

Lemma sample_catalog_ok : catalog_ok sample_catalog.
Proof. split; [|done]. intros i e [[-> ->]|[-> ->]]%sample_entries; (split; [reflexivity|apply sample_wf]). Qed.

Lemma sample_request_ok : request_ok sample_request.
Proof.
  split; [constructor; [split; reflexivity|constructor; [split; reflexivity|constructor]]|].
  exists [desc_identity sample_runtime; desc_identity sample_hands]. vm_compute. reflexivity.
Qed.

Lemma resolution_is_exact_witness : ∃ r, resolve sample_catalog sample_request = Ok r ∧
  (issues <$> results r) = [[]; [issue_of (MISSING_CAPABILITY, "edit")]] ∧ ¬ plan_ok (entries sample_catalog) sample_request.
Proof.
  destruct (resolution_is_exact sample_catalog sample_request sample_catalog_ok) as (r & Hr & _ & _ & Hp & _).
  - intros i e r [[-> ->]|[-> ->]]%sample_entries Hr; [|by apply elem_of_nil in Hr].
    apply list_elem_of_singleton in Hr as ->. unfold spellable. vm_compute. lia.
  - apply sample_request_ok.
  - exists r. split; [done|]. rewrite <-Hp. revert Hr. clear. intros Hr.
    assert (∃ x, resolve sample_catalog sample_request = Ok x ∧ compatible x = false ∧
      (issues <$> results x) = [[]; [issue_of (MISSING_CAPABILITY, "edit")]]) as (x & Hx & Hf & Hi)
      by (eexists; vm_compute; split; [reflexivity|split; reflexivity]).
    rewrite Hr in Hx. injection Hx as ->. split; [exact Hi|]. rewrite Hf. discriminate.
Defined.

Lemma registry_is_faithful_witness : ∃ c', register Catalog_init sample_runtime = Ok c' ∧ satisfiable sample_runtime ∧
  revision Catalog_init <= revision c'.
Proof.
  destruct (registry_is_faithful Catalog_init sample_runtime (rtc_refl _ _)) as [H1 H2].
  assert (∃ c', register Catalog_init sample_runtime = Ok c') as [c' Hc'] by (eexists; vm_compute; reflexivity).
  exists c'. split; [exact Hc'|]. split; [apply H1; eauto|]. apply H2. apply rtc_once. exact (step_register _ _ sample_runtime (proj1 sample_wf) Hc').
Defined.

(** ** Wire forms *)

Definition wf_snapshot (s : ResolutionSnapshot) : Prop :=
  Forall wf_capability (descriptors s) ∧ ResolutionSnapshot_new (catalog_revision s) (descriptors s) = Ok s.

(** What a compatible resolution keeps is read back unchanged from its wire
    form. *)
Lemma snapshot_round_trip s : wf_snapshot s → snapshot_from_data (snapshot_to_data s) = Ok s.
Proof.
  intros [Hd Hn]. unfold snapshot_from_data, snapshot_to_data. csimpl.
  assert (0 <= catalog_revision s) as Hr.
  { unfold ResolutionSnapshot_new, nonnegative_integer in Hn. destruct (Z.ltb_spec (catalog_revision s) 0); [done|lia]. }
  rewrite nonnegative_true by done. csimpl. rewrite (mapR_round_trip _ _ wf_capability) by (done || apply capability_round_trip). done.
Qed.
