(* ===== verification/Fabric.v ===== *)
(** * The Fabric (src/src/petrus/fabric/)

    Envelopes and endpoints (model.py), the authenticated clients of the shared
    delivery tables (postgres.py), and the inbox that feeds pending deliveries
    into a process (ingress.py). A client operation is one transaction on the
    tables: a function into [result] with the new tables, so that an exception
    rolls it back; [submit], which reads before it inserts, is also split at
    that point, so that another client's transaction may come in between. What
    the sources take from the database and the hash library is a parameter:
    the digests, the value a jsonb column gives back for what was stored in
    it, jsonb containment and the collation of text. *)

From stdpp Require Import base gmap sets list strings pretty.
From Stdlib Require Import Ascii ZArith Lia.
From S2P Require Import Prelude PyData Schema AgentText Marking.
Open Scope string_scope.
Open Scope list_scope.
Open Scope Z_scope.

Definition MAX_INLINE_PAYLOAD_BYTES : Z := 64 * 1024.
Definition MAX_FABRIC_TEXT : nat := 1024.

(** [_text] *)
Definition fabric_text (s : string) : result string :=
  raise_if (str_empty s || (MAX_FABRIC_TEXT <? String.length s)%nat)
    (ValueError "must be a non-empty string of at most 1024 UTF-8 bytes");; Ok s.

Definition d_fabric_text (x : Data) : result string :=
  match x with DStr s => fabric_text s | _ => Err (ValueError "must be a non-empty string of at most 1024 UTF-8 bytes") end.

(** [_json_object] *)
Definition json_object (x : Data) : result (dict string Data) :=
  match x with DDict d => Ok d | _ => Err (TypeError "must be a JSON object") end.

(** [_json_copy]: the value, when it is strict JSON. *)
Definition json_copy (x : Data) : result Data :=
  raise_if (negb (canonical_json_shape x)) (TypeError "which is not a JSON value");; Ok x.

(** [_freeze_json] and [_thaw_json]: lists as tuples and back. *)
Fixpoint freeze_json (x : Data) : Data :=
  match x with
  | DDict d => DDict (map (λ kv, (kv.1, freeze_json kv.2)) d)
  | DList l => DTuple (map freeze_json l)
  | x => x
  end.
Fixpoint thaw_json (x : Data) : Data :=
  match x with
  | DDict d => DDict (map (λ kv, (kv.1, thaw_json kv.2)) d)
  | DTuple l => DList (map thaw_json l)
  | x => x
  end.

Record ReplyRoute := MkReplyRoute { rr_instance : string; rr_source : string }.

Definition ReplyRoute_new (instance source : string) : result ReplyRoute :=
  instance ← fabric_text instance; source ← fabric_text source; Ok (MkReplyRoute instance source).

Definition route_to_data (r : ReplyRoute) : Data := DDict [("instance_id", DStr (rr_instance r)); ("source", DStr (rr_source r))].

Definition route_from_data (x : Data) : result ReplyRoute :=
  d ← exact_object ["instance_id"; "source"] x;
  i ← item d "instance_id"; i ← d_fabric_text i; s ← item d "source"; s ← d_fabric_text s;
  ReplyRoute_new i s.

Record Envelope := MkEnvelope {
  env_delivery_id : string;
  env_sender : string;
  env_recipient : string;
  env_source : string;
  env_correlation : string;
  env_payload : Data;
  env_reply_route : option ReplyRoute
}.

(** [to_data] *)
Definition envelope_to_data (e : Envelope) : Data :=
  DDict [("version", DInt 1); ("delivery_id", DStr (env_delivery_id e)); ("sender", DStr (env_sender e));
         ("recipient", DStr (env_recipient e)); ("source", DStr (env_source e)); ("correlation", DStr (env_correlation e));
         ("payload", thaw_json (env_payload e)); ("reply_route", e_opt route_to_data (env_reply_route e))].

(** [ingress_identity], length-prefixed. *)
Definition ingress_identity (sender delivery_id : string) : string :=
  "fabric:" +:+ pretty (Z.of_nat (str_len sender)) +:+ ":" +:+ sender +:+ ":" +:+ delivery_id.

Record Endpoint := MkEndpoint { ep_recipient : string; ep_source : string; ep_capabilities : Data }.

Definition Endpoint_new (recipient source : string) (capabilities : Data) : result Endpoint :=
  recipient ← fabric_text recipient; source ← fabric_text source;
  json_object capabilities;;
  c ← json_copy capabilities;
  Ok (MkEndpoint recipient source (freeze_json c)).

Definition endpoint_to_data (e : Endpoint) : Data :=
  DDict [("recipient", DStr (ep_recipient e)); ("source", DStr (ep_source e)); ("capabilities", thaw_json (ep_capabilities e))].

Definition endpoint_from_data (x : Data) : result Endpoint :=
  d ← exact_object ["recipient"; "source"; "capabilities"] (thaw_json x);
  c ← item d "capabilities"; c ← json_object c;
  r ← item d "recipient"; r ← d_fabric_text r; s ← item d "source"; s ← d_fabric_text s;
  Endpoint_new r s (DDict c).

(** [Submission.state] and [Receipt.state]. *)
Inductive DeliveryState := PENDING | STATE_ACCEPTED.

Record Submission := MkSubmission {
  su_sender : string; su_delivery_id : string; su_state : DeliveryState; su_duplicate : bool; su_accepted : option (Z * Z)
}.

Record Receipt := MkReceipt {
  rc_sender : string; rc_delivery_id : string; rc_recipient : string; rc_source : string; rc_digest : string;
  rc_state : DeliveryState; rc_accepted : option (Z * Z); rc_payload_retained : bool
}.

(** ** The tables *)

(** A delivery; [row_accepted] is its occurrence and the time it was accepted,
    both null or neither by the table's check. *)
Record DeliveryRow := MkDeliveryRow {
  row_recipient : string;
  row_source : string;
  row_correlation : string;
  row_envelope : option Data;
  row_digest : string;
  row_submitted_at : Z;
  row_accepted : option (Z * Z)
}.

#[export] Instance DeliveryRow_eq_dec : EqDecision DeliveryRow.
Proof. solve_decision. Defined.

Record FabricDB := MkFabricDB {
  processes : gmap string string;
  exposed_sources : gset (string * string);
  service_offers : gmap (string * string * string) Data;
  delivery_grants : gset (string * string * string);
  deliveries : gmap (string * string) DeliveryRow
}.

Definition set_deliveries (ds : gmap (string * string) DeliveryRow) (db : FabricDB) : FabricDB :=
  MkFabricDB (processes db) (exposed_sources db) (service_offers db) (delivery_grants db) ds.

Definition PermissionError (msg : string) : exn := StoreError ("PermissionError: " +:+ msg).
(** A violated foreign key. *)
Definition ForeignKeyViolation : exn := StoreError "IntegrityError".

(** The code points of a text. *)
Fixpoint code_points (s : string) : list string :=
  match s with
  | EmptyString => []
  | String a s =>
      match code_points s with
      | c :: cs => if match c with String b _ => in_range 128 191 (char_code b) | EmptyString => false end
                   then (String a c) :: cs else String a EmptyString :: c :: cs
      | [] => [String a EmptyString]
      end
  end.

Section fabric.
(** [hashlib.sha256(...).hexdigest()] of a text and of a canonical JSON text;
    the size of a canonical JSON text. *)
Context (sha256_text : string → string) (sha256_hex : Data → string) (json_size : Data → Z).
(** What a jsonb column gives back; [@>]; the order of text columns. *)
Context (jsonb : Data → Data) (jsonb_contains : Data → Data → bool) (collate : string → string → bool).

Definition Envelope_new (id sender recipient source correlation : string) (payload : Data) (route : option ReplyRoute)
  : result Envelope :=
  id ← fabric_text id; sender ← fabric_text sender; recipient ← fabric_text recipient; source ← fabric_text source;
  correlation ← fabric_text correlation;
  json_object payload;;
  payload ← json_copy payload;
  raise_if (MAX_INLINE_PAYLOAD_BYTES <? json_size (canonical_payload_text payload))
    (ValueError "inline fabric payloads are limited");;
  Ok (MkEnvelope id sender recipient source correlation (freeze_json payload) route).

Definition envelope_from_data (x : Data) : result Envelope :=
  d ← exact_object ["version"; "delivery_id"; "sender"; "recipient"; "source"; "correlation"; "payload"; "reply_route"] x;
  v ← item d "version"; d_version v;;
  route ← item d "reply_route";
  payload ← item d "payload"; payload ← json_object payload;
  id ← item d "delivery_id"; id ← d_fabric_text id; sender ← item d "sender"; sender ← d_fabric_text sender;
  recipient ← item d "recipient"; recipient ← d_fabric_text recipient; source ← item d "source"; source ← d_fabric_text source;
  correlation ← item d "correlation"; correlation ← d_fabric_text correlation;
  route ← d_opt route_from_data route;
  Envelope_new id sender recipient source correlation (DDict payload) route.

(** [Envelope.digest] *)
Definition envelope_digest (e : Envelope) : string := sha256_hex (canonical_payload_text (envelope_to_data e)).

(** ** Clients *)

(** [_credential] *)
Definition credential_ok (c : string) : result string :=
  raise_if ((String.length c <? 32)%nat || (length (remove_dups (code_points c)) <? 16)%nat)
    (ValueError "credential must be a high-entropy opaque token of at least 32 UTF-8 bytes");; Ok c.

(** [_credential_digest] *)
Definition credential_digest (c : string) : string := sha256_text c.

(** [register_process] *)
Definition register_process (instance credential : string) (db : FabricDB) : result FabricDB :=
  instance ← fabric_text instance;
  credential ← credential_ok credential;
  match processes db !! instance with
  | None => Ok (MkFabricDB (<[instance := credential_digest credential]> (processes db)) (exposed_sources db)
                  (service_offers db) (delivery_grants db) (deliveries db))
  | Some d => raise_if (negb (String.eqb d (credential_digest credential)))
                (ValueError "process is already registered with a different credential");; Ok db
  end.

Record PostgresFabric := MkPostgresFabric { fc_instance : string; fc_credential_digest : string }.

Definition PostgresFabric_init (instance credential : string) : result PostgresFabric :=
  instance ← fabric_text instance; credential ← credential_ok credential;
  Ok (MkPostgresFabric instance (credential_digest credential)).

(** [_auth] *)
Definition auth (c : PostgresFabric) (db : FabricDB) : result unit :=
  raise_if (negb (bool_decide (processes db !! fc_instance c = Some (fc_credential_digest c))))
    (PermissionError "fabric authentication failed").

(** [expose_source] *)
Definition expose_source (c : PostgresFabric) (source : string) (db : FabricDB) : result FabricDB :=
  source ← fabric_text source;
  auth c db;;
  Ok (MkFabricDB (processes db) ({[(fc_instance c, source)]} ∪ exposed_sources db) (service_offers db)
        (delivery_grants db) (deliveries db)).

(** [offer_service] *)
Definition offer_service (c : PostgresFabric) (source service : string) (capabilities : Data) (db : FabricDB)
  : result FabricDB :=
  source ← fabric_text source; service ← fabric_text service;
  json_object capabilities;;
  snapshot ← json_copy capabilities;
  auth c db;;
  raise_if (negb (bool_decide ((fc_instance c, source) ∈ exposed_sources db))) ForeignKeyViolation;;
  Ok (MkFabricDB (processes db) (exposed_sources db) (<[(fc_instance c, source, service) := snapshot]> (service_offers db))
        (delivery_grants db) (deliveries db)).

(** [grant] *)
Definition grant (c : PostgresFabric) (sender source : string) (db : FabricDB) : result FabricDB :=
  sender ← fabric_text sender; source ← fabric_text source;
  auth c db;;
  raise_if (negb (bool_decide (is_Some (processes db !! sender)) && bool_decide ((fc_instance c, source) ∈ exposed_sources db)))
    ForeignKeyViolation;;
  Ok (MkFabricDB (processes db) (exposed_sources db) (service_offers db)
        ({[(sender, fc_instance c, source)]} ∪ delivery_grants db) (deliveries db)).

(** [revoke] *)
Definition revoke (c : PostgresFabric) (sender source : string) (db : FabricDB) : result FabricDB :=
  sender ← fabric_text sender; source ← fabric_text source;
  auth c db;;
  Ok (MkFabricDB (processes db) (exposed_sources db) (service_offers db)
        (delivery_grants db ∖ {[(sender, fc_instance c, source)]}) (deliveries db)).

(** The order of two rows of a query by two text columns. *)
Definition collate_pair (x y : string * string) : bool :=
  if bool_decide (x.1 = y.1) then collate x.2 y.2 else collate x.1 y.1.

(** [discover] *)
Definition discover (c : PostgresFabric) (service : string) (capabilities : option Data) (db : FabricDB)
  : result (list Endpoint) :=
  service ← fabric_text service;
  let wanted := default (DDict []) capabilities in
  json_object wanted;;
  wanted ← json_copy wanted;
  auth c db;;
  let offered := filter (λ o : string * string * string * Data,
      o.1.2 = service ∧ (fc_instance c, o.1.1.1, o.1.1.2) ∈ delivery_grants db ∧ jsonb_contains o.2 wanted = true)
      (map_to_list (service_offers db)) in
  mapR (λ o, Endpoint_new o.1.1.1 o.1.1.2 (jsonb o.2))
    (sorted_by (λ x y : string * string * string * Data, collate_pair x.1.1 y.1.1) offered).

(** ** Submitting *)

(** [_prior_submission] *)
Definition prior_submission (c : PostgresFabric) (e : Envelope) (prior : DeliveryRow) : result Submission :=
  raise_if (negb (String.eqb (row_digest prior) (envelope_digest e)))
    (ValueError "fabric delivery identity conflict: content or address changed");;
  Ok (MkSubmission (fc_instance c) (env_delivery_id e)
        (if row_accepted prior is Some _ then STATE_ACCEPTED else PENDING) true (row_accepted prior)).

(** The reads of [submit]: a prior submission is answered; otherwise the
    recipient's source must be exposed and granted. *)
Definition submit_read (c : PostgresFabric) (e : Envelope) (db : FabricDB) : result (option Submission) :=
  raise_if (negb (String.eqb (env_sender e) (fc_instance c)))
    (PermissionError "envelope sender must match the authenticated fabric client");;
  auth c db;;
  match deliveries db !! (fc_instance c, env_delivery_id e) with
  | Some prior => s ← prior_submission c e prior; Ok (Some s)
  | None =>
      raise_if (negb (bool_decide ((env_recipient e, env_source e) ∈ exposed_sources db)
                      && bool_decide ((fc_instance c, env_recipient e, env_source e) ∈ delivery_grants db)))
        (PermissionError "recipient source is not exposed and granted to this sender");;
      Ok None
  end.

(** The insert of [submit], on the tables as they are then. *)
Definition submit_insert (now : Z) (c : PostgresFabric) (e : Envelope) (db : FabricDB) : result (Submission * FabricDB) :=
  match deliveries db !! (fc_instance c, env_delivery_id e) with
  | Some prior => s ← prior_submission c e prior; Ok (s, db)
  | None =>
      raise_if (negb (bool_decide (is_Some (processes db !! fc_instance c))
                      && bool_decide (is_Some (processes db !! env_recipient e)))) ForeignKeyViolation;;
      let row := MkDeliveryRow (env_recipient e) (env_source e) (env_correlation e) (Some (envelope_to_data e))
                   (envelope_digest e) now None in
      Ok (MkSubmission (fc_instance c) (env_delivery_id e) PENDING false None,
          set_deliveries (<[(fc_instance c, env_delivery_id e) := row]> (deliveries db)) db)
  end.

(** [submit] *)
Definition submit (now : Z) (c : PostgresFabric) (e : Envelope) (db : FabricDB) : result (Submission * FabricDB) :=
  answered ← submit_read c e db;
  match answered with
  | Some s => Ok (s, db)
  | None => submit_insert now c e db
  end.

(** ** Receiving *)

Definition row_leb (x y : (string * string) * DeliveryRow) : bool :=
  if row_submitted_at x.2 =? row_submitted_at y.2 then collate_pair x.1 y.1
  else row_submitted_at x.2 <? row_submitted_at y.2.

(** The rows of [pending]. *)
Definition pending_rows (c : PostgresFabric) (limit : nat) (db : FabricDB) : list ((string * string) * DeliveryRow) :=
  take limit (sorted_by row_leb
    (filter (λ r, row_recipient r.2 = fc_instance c ∧ row_accepted r.2 = None) (map_to_list (deliveries db)))).

(** [pending]; a row not yet accepted keeps its envelope by the table's check. *)
Definition pending (c : PostgresFabric) (limit : Z) (db : FabricDB) : result (list Envelope) :=
  raise_if (limit <? 1) (ValueError "limit must be a positive integer");;
  auth c db;;
  mapR (λ r : (string * string) * DeliveryRow, envelope_from_data (jsonb (default DNone (row_envelope r.2))))
    (pending_rows c (Z.to_nat limit) db).

(** [acknowledge] *)
Definition acknowledge (now : Z) (c : PostgresFabric) (sender delivery_id : string) (occurrence : Z) (db : FabricDB)
  : result (Receipt * FabricDB) :=
  sender ← fabric_text sender; delivery_id ← fabric_text delivery_id;
  raise_if (occurrence <? 1) (ValueError "occurrence must be a positive integer");;
  auth c db;;
  match deliveries db !! (sender, delivery_id) with
  | Some row =>
      raise_if (negb (String.eqb (row_recipient row) (fc_instance c)))
        (KeyError "pending delivery does not exist for this recipient");;
      raise_if (match row_accepted row with Some (o, _) => negb (o =? occurrence) | None => false end)
        (ValueError "delivery was already accepted by another occurrence");;
      let accepted := default (occurrence, now) (row_accepted row) in
      let row' := MkDeliveryRow (row_recipient row) (row_source row) (row_correlation row) (row_envelope row)
                    (row_digest row) (row_submitted_at row) (Some accepted) in
      Ok (MkReceipt sender delivery_id (row_recipient row) (row_source row) (row_digest row) STATE_ACCEPTED
            (Some accepted) (bool_decide (is_Some (row_envelope row))),
          set_deliveries (<[(sender, delivery_id) := row']> (deliveries db)) db)
  | None => Err (KeyError "pending delivery does not exist for this recipient")
  end.

(** [receipt] *)
Definition receipt (c : PostgresFabric) (delivery_id : string) (db : FabricDB) : result (option Receipt) :=
  delivery_id ← fabric_text delivery_id;
  auth c db;;
  Ok ((λ row, MkReceipt (fc_instance c) delivery_id (row_recipient row) (row_source row) (row_digest row)
                (if row_accepted row is Some _ then STATE_ACCEPTED else PENDING) (row_accepted row)
                (bool_decide (is_Some (row_envelope row))))
        <$> deliveries db !! (fc_instance c, delivery_id)).

(** The effect of [prune_accepted] on one row. *)
Definition prune_row (c : PostgresFabric) (before : Z) (row : DeliveryRow) : DeliveryRow :=
  if String.eqb (row_recipient row) (fc_instance c)
     && match row_accepted row with Some (_, accepted_at) => accepted_at <? before | None => false end
  then MkDeliveryRow (row_recipient row) (row_source row) (row_correlation row) None (row_digest row)
         (row_submitted_at row) (row_accepted row)
  else row.

(** [prune_accepted] *)
Definition prune_accepted (c : PostgresFabric) (before : Z) (db : FabricDB) : result (nat * FabricDB) :=
  auth c db;;
  let pruned := filter (λ r : (string * string) * DeliveryRow,
      prune_row c before r.2 ≠ r.2) (map_to_list (deliveries db)) in
  Ok (length pruned, set_deliveries (prune_row c before <$> deliveries db) db).

(** ** The inbox *)

Definition FABRIC_ENVELOPE : string := "FabricEnvelope".

(** What a delivery door returns: a firing or a prior acknowledgement, with its
    occurrence, or something else. *)
Inductive DoorResult := DoorFiring (occurrence : Z) | DoorPrior (occurrence : Z) | DoorOther.

Definition door_occurrence (r : DoorResult) : option Z :=
  match r with DoorFiring o | DoorPrior o => Some o | DoorOther => None end.
End fabric.

(** [DeliveryDoor]: what the inbox calls to deliver into a process. *)
Class DeliveryDoor (E : Type) := door_deliver : string → list Token → string → E → result DoorResult * E.

Section inbox.
Context (json_size : Data → Z) (jsonb : Data → Data) (collate : string → string → bool).
Context {E : Type} `{DeliveryDoor E}.

(** The token an envelope is delivered as. *)
Definition envelope_token (e : Envelope) : Token := MkToken (Some FABRIC_ENVELOPE) (envelope_to_data e).

(** One envelope of [FabricInbox.drain]: delivered, then acknowledged. *)
Definition drain_one (now : Z) (c : PostgresFabric) (env : Envelope) (db : FabricDB) (e : E)
  : result Receipt * (FabricDB * E) :=
  match door_deliver (env_source env) [envelope_token env] (ingress_identity (env_sender env) (env_delivery_id env)) e with
  | (Err x, e) => (Err x, (db, e))
  | (Ok r, e) =>
      match door_occurrence r with
      | None => (Err (TypeError "delivery door must return FiringOutcome or PriorAcknowledgement"), (db, e))
      | Some o =>
          match acknowledge now c (env_sender env) (env_delivery_id env) o db with
          | Err x => (Err x, (db, e))
          | Ok (receipt, db) => (Ok receipt, (db, e))
          end
      end
  end.

Fixpoint drain_each (now : Z) (c : PostgresFabric) (envs : list Envelope) (db : FabricDB) (e : E)
  : result (list Receipt) * (FabricDB * E) :=
  match envs with
  | [] => (Ok [], (db, e))
  | env :: envs =>
      match drain_one now c env db e with
      | (Err x, s) => (Err x, s)
      | (Ok receipt, (db, e)) =>
          let '(r, s) := drain_each now c envs db e in (rs ← r; Ok (receipt :: rs), s)
      end
  end.

(** [FabricInbox.drain] *)
Definition drain (now : Z) (c : PostgresFabric) (limit : Z) (db : FabricDB) (e : E)
  : result (list Receipt) * (FabricDB * E) :=
  match pending json_size jsonb collate c limit db with
  | Err x => (Err x, (db, e))
  | Ok envs => drain_each now c envs db e
  end.
End inbox.
