(* ===== verification/FabricTheorems.v ===== *)
(** * The Fabric: one ledger, one acceptance per delivery

    The delivery table is a ledger: a submitted delivery keeps its address and
    content, resubmitting it changes nothing, and it is accepted at most once.
    With a delivery door that answers an identity always with the same
    occurrence (the class [LawfulDoor]), a process accepts every delivery with
    one occurrence of its own, however its inbox is interrupted and repeated. *)

From stdpp Require Import base gmap sets list strings pretty.
From Stdlib Require Import Ascii ZArith Lia.
From S2P Require Import Prelude PyData Schema AgentText Marking Fabric.
Open Scope string_scope.
Open Scope list_scope.
Open Scope Z_scope.

(** ** Ingress identities tell deliveries apart *)

Lemma str_app_inj_r (s t u : string) : s +:+ t = s +:+ u → t = u.
Proof. induction s as [|a s IH]; simpl; [done|]. intros [=]. auto. Qed.

Lemma str_app_nil_r (s : string) : s +:+ "" = s.
Proof. induction s as [|a s IH]; [done|]. change (String a (s +:+ "") = String a s). by rewrite IH. Qed.

(** Two texts before equal continuations: one is a prefix of the other. *)
Lemma str_app_split (s t u v : string) : s +:+ u = t +:+ v →
  (∃ w, t = s +:+ w ∧ u = w +:+ v) ∨ (∃ w, s = t +:+ w ∧ v = w +:+ u).
Proof.
  revert t. induction s as [|a s IH]; intros t H; [left; by exists t|]. destruct t as [|b t]; simpl in H.
  - right. by exists (String a s).
  - injection H as -> H. destruct (IH _ H) as [(w & -> & ->)|(w & -> & ->)]; [left|right]; by exists w.
Qed.

Lemma str_len_app s t : str_len (s +:+ t) = (str_len s + str_len t)%nat.
Proof. induction s as [|a s IH]; [done|]. simpl. rewrite IH. lia. Qed.

(** No text extends another of the same length by one that starts a new code
    point. *)
Lemma same_length_prefix s w v v' : str_len s = str_len (s +:+ w) → w +:+ v = String ":" v' → w = "".
Proof.
  rewrite str_len_app. intros Hl Hw. destruct w as [|a w]; [done|]. simpl in Hw. injection Hw as -> _. simpl in Hl. lia.
Qed.

Lemma pretty_nat_no_colon (n : nat) : str_contains ":" (pretty (Z.of_nat n)) = false.
Proof.
  assert (∀ x s, str_contains ":" s = false → str_contains ":" (pretty_N_go x s) = false) as Hgo.
  { intros x. induction (N.lt_wf_0 x) as [x _ IH]; intros s Hs.
    destruct (decide (x = 0)%N) as [->|Hx]; [by rewrite pretty_N_go_0|].
    rewrite pretty_N_go_step by lia. apply IH; [apply N.div_lt; lia|]. simpl. rewrite Hs, orb_false_r.
    assert (x `mod` 10 < 10)%N as Hm by (apply N.mod_lt; lia). revert Hm. generalize (x `mod` 10)%N as m. intros m Hm.
    assert (m = 0 ∨ m = 1 ∨ m = 2 ∨ m = 3 ∨ m = 4 ∨ m = 5 ∨ m = 6 ∨ m = 7 ∨ m = 8 ∨ m = 9)%N as H by lia.
    by repeat destruct H as [->|H]; [..|subst]. }
  destruct n as [|n]; [done|]. change (str_contains ":" (pretty (N.pos (Pos.of_succ_nat n))) = false).
  unfold pretty, pretty_N. destruct (decide _); [done|]. by apply Hgo.
Qed.

Lemma contains_app c s t : str_contains c (s +:+ t) = str_contains c s || str_contains c t.
Proof. induction s as [|a s IH]; simpl; [done|]. by rewrite IH, orb_assoc. Qed.

Lemma colon_split s t u v : str_contains ":" s = false → str_contains ":" t = false →
  s +:+ String ":" u = t +:+ String ":" v → s = t ∧ u = v.
Proof.
  intros Hs Ht H. destruct (str_app_split _ _ _ _ H) as [(w & -> & Hw)|(w & -> & Hw)]; destruct w as [|a w]; simpl in Hw.
  - injection Hw as ->. by rewrite str_app_nil_r.
  - injection Hw as <- _. rewrite contains_app in Ht. by apply orb_false_iff in Ht as [_ Ht].
  - injection Hw as ->. by rewrite str_app_nil_r.
  - injection Hw as <- _. rewrite contains_app in Hs. by apply orb_false_iff in Hs as [_ Hs].
Qed.

Lemma ingress_identity_inj s d s' d' : ingress_identity s d = ingress_identity s' d' → s = s' ∧ d = d'.
Proof.
  unfold ingress_identity. intros H%str_app_inj_r. simpl in H.
  apply colon_split in H as [Hn H]; [|apply pretty_nat_no_colon..].
  assert (str_len s = str_len s') as Hl by (apply Nat2Z.inj; by apply (inj pretty)).
  destruct (str_app_split _ _ _ _ H) as [(w & -> & Hw)|(w & -> & Hw)].
  - assert (w = "") as -> by (by eapply same_length_prefix).
    injection Hw as Hd. by rewrite str_app_nil_r.
  - assert (w = "") as -> by (by eapply same_length_prefix).
    injection Hw as Hd. by rewrite str_app_nil_r.
Qed.

(** [_text] returns what it accepts. *)
Definition fabric_text_ok (s : string) : bool := negb (str_empty s || (MAX_FABRIC_TEXT <? String.length s)%nat).

Lemma fabric_text_Ok s x : fabric_text s = Ok x ↔ x = s ∧ fabric_text_ok s = true.
Proof.
  unfold fabric_text, fabric_text_ok. generalize (str_empty s || (MAX_FABRIC_TEXT <? String.length s)%nat).
  intros [|]; simpl; split; naive_solver.
Qed.

Section ledger.
Context (sha256_text : string → string) (sha256_hex : Data → string).

#[local] Notation envelope_digest := (envelope_digest sha256_hex).
#[local] Notation submit := (submit sha256_hex).
#[local] Notation submit_read := (submit_read sha256_hex).
#[local] Notation submit_insert := (submit_insert sha256_hex).
#[local] Notation prior_submission := (prior_submission sha256_hex).
#[local] Notation register_process := (register_process sha256_text).

(** ** The transactions of the clients of one database *)

(** [may] says which processes acknowledge. *)
Inductive fabric_step (may : string → Prop) (db db' : FabricDB) : Prop :=
| step_register instance credential : register_process instance credential db = Ok db' → fabric_step may db db'
| step_expose c source : expose_source c source db = Ok db' → fabric_step may db db'
| step_offer c source service caps : offer_service c source service caps db = Ok db' → fabric_step may db db'
| step_grant c sender source : grant c sender source db = Ok db' → fabric_step may db db'
| step_revoke c sender source : revoke c sender source db = Ok db' → fabric_step may db db'
| step_submit now c e s : submit now c e db = Ok (s, db') → fabric_step may db db'
(** The insert of a submission that read the tables at another time. *)
| step_insert db0 now c e s : submit_read c e db0 = Ok None → submit_insert now c e db = Ok (s, db') → fabric_step may db db'
| step_acknowledge now c sender id o r : may (fc_instance c) → acknowledge now c sender id o db = Ok (r, db') → fabric_step may db db'
| step_prune c before n : prune_accepted c before db = Ok (n, db') → fabric_step may db db'.

(** A row whose delivery is [e], to be accepted or accepted. *)
Definition row_of (k : string * string) (row : DeliveryRow) (e : Envelope) : Prop :=
  env_sender e = k.1 ∧ env_delivery_id e = k.2 ∧ row_recipient row = env_recipient e ∧ row_source row = env_source e ∧
  row_correlation row = env_correlation e ∧ row_digest row = envelope_digest e ∧
  (row_envelope row = Some (envelope_to_data e) ∨ row_envelope row = None ∧ is_Some (row_accepted row)).

Record fabric_ok (db : FabricDB) : Prop := {
  fo_rows : ∀ k row, deliveries db !! k = Some row → ∃ e, row_of k row e ∧
    is_Some (processes db !! k.1) ∧ is_Some (processes db !! row_recipient row);
  fo_accepted : ∀ k row o t, deliveries db !! k = Some row → row_accepted row = Some (o, t) → 1 <= o
}.

(** A later state of a row: the same delivery, accepted once if at all, its
    envelope dropped only after that. *)
Record row_later (row row' : DeliveryRow) : Prop := {
  rl_address : row_recipient row' = row_recipient row ∧ row_source row' = row_source row ∧
    row_correlation row' = row_correlation row ∧ row_digest row' = row_digest row ∧ row_submitted_at row' = row_submitted_at row;
  rl_accepted : ∀ a, row_accepted row = Some a → row_accepted row' = Some a;
  rl_envelope : row_envelope row' = row_envelope row ∨ row_envelope row' = None ∧ is_Some (row_accepted row')
}.

Lemma row_later_refl row : row_later row row.
Proof. split; auto. Qed.

Lemma row_later_trans r1 r2 r3 : row_later r1 r2 → row_later r2 r3 → row_later r1 r3.
Proof.
  intros [(? & ? & ? & ? & ?) Ha1 He1] [(? & ? & ? & ? & ?) Ha2 He2]. split; [repeat split; congruence|auto|].
  destruct He2 as [->|?]; [|by right]. destruct He1 as [->|[-> [a Ha]]]; [by left|right]. split; [done|]. eauto.
Qed.

(** Later tables: every process and every delivery is still there. *)
Record fabric_later (db db' : FabricDB) : Prop := {
  fl_processes : ∀ p d, processes db !! p = Some d → processes db' !! p = Some d;
  fl_rows : ∀ k row, deliveries db !! k = Some row → ∃ row', deliveries db' !! k = Some row' ∧ row_later row row'
}.

Lemma fabric_later_trans db1 db2 db3 : fabric_later db1 db2 → fabric_later db2 db3 → fabric_later db1 db3.
Proof.
  intros [Hp1 Hr1] [Hp2 Hr2]. split; [auto|]. intros k row Hk. destruct (Hr1 k row Hk) as (r2 & H2 & Hl).
  destruct (Hr2 k r2 H2) as (r3 & H3 & Hl'). exists r3. split; [done|by eapply row_later_trans].
Qed.

(** Operations that leave the deliveries as they are. *)
Lemma keeps_deliveries db db' : fabric_ok db → deliveries db' = deliveries db →
  (∀ p d, processes db !! p = Some d → processes db' !! p = Some d) → fabric_ok db' ∧ fabric_later db db'.
Proof.
  intros [Hr Ha] Hd Hp. split; split; rewrite ?Hd; try done.
  - intros k row Hk. destruct (Hr k row Hk) as (e & He & [? ?] & [? ?]). exists e. split; [done|]. split; eauto.
  - intros k row Hk. exists row. split; [done|apply row_later_refl].
Qed.

(** Operations on one delivery. *)
Lemma sets_delivery db k row' : fabric_ok db →
  (∀ row, deliveries db !! k = Some row → row_later row row') → (∃ e, row_of k row' e) →
  is_Some (processes db !! k.1) → is_Some (processes db !! row_recipient row') →
  (∀ o t, row_accepted row' = Some (o, t) → 1 <= o) →
  fabric_ok (set_deliveries (<[k := row']> (deliveries db)) db) ∧ fabric_later db (set_deliveries (<[k := row']> (deliveries db)) db).
Proof.
  intros [Hr Ha] Hl [e He] Hs Hrc Ho. split; split; simpl.
  - intros j row. rewrite lookup_insert_Some. intros [[<- <-]|[_ Hj]]; [by exists e|by apply Hr].
  - intros j row o t. rewrite lookup_insert_Some. intros [[<- <-]|[_ Hj]]; [apply Ho|by eapply Ha].
  - done.
  - intros j row Hj. rewrite lookup_insert. case_decide; [subst j; eauto|]. exists row. split; [done|apply row_later_refl].
Qed.

Lemma submit_insert_sound now c e s db db' : fabric_ok db → env_sender e = fc_instance c →
  submit_insert now c e db = Ok (s, db') → fabric_ok db' ∧ fabric_later db db'.
Proof.
  intros Hok Hse H. unfold Fabric.submit_insert in H.
  destruct (deliveries db !! (fc_instance c, env_delivery_id e)) as [prior|] eqn:E.
  { inv_ok. apply keeps_deliveries; [done..|by intros]. }
  inv_ok. match goal with H : negb (_ && _) = false |- _ =>
    apply negb_false_iff, andb_true_iff in H as [H1%bool_decide_eq_true H2%bool_decide_eq_true] end.
  apply sets_delivery; simpl; [done|by rewrite E| |done|done|done].
  exists e. split_and!; try done. by left.
Qed.

Lemma acknowledge_Ok now c sender id o db r db' : acknowledge now c sender id o db = Ok (r, db') →
  ∃ row a, deliveries db !! (sender, id) = Some row ∧ row_recipient row = fc_instance c ∧ 1 <= o ∧ a.1 = o ∧
    (∀ a', row_accepted row = Some a' → a' = a) ∧
    db' = set_deliveries (<[(sender, id) := MkDeliveryRow (row_recipient row) (row_source row) (row_correlation row)
            (row_envelope row) (row_digest row) (row_submitted_at row) (Some a)]> (deliveries db)) db.
Proof.
  intros H. unfold acknowledge in H. apply bind_Ok in H as (? & [-> _]%fabric_text_Ok & H).
  apply bind_Ok in H as (? & [-> _]%fabric_text_Ok & H). inv_ok.
  destruct (deliveries db !! (sender, id)) as [row|] eqn:E; [|done]. inv_ok.
  repeat match goal with H : negb _ = false |- _ => apply negb_false_iff in H
    | H : String.eqb _ _ = true |- _ => apply String.eqb_eq in H | H : (_ <? _) = false |- _ => apply Z.ltb_ge in H end.
  exists row, (default (o, now) (row_accepted row)). split_and!; try done.
  - destruct (row_accepted row) as [[o' t]|]; [|done]. simpl in *. 
    by match goal with H : negb (o' =? o) = false |- _ => apply negb_false_iff, Z.eqb_eq in H end.
  - by intros a' ->.
Qed.

Lemma step_sound may db db' : fabric_ok db → fabric_step may db db' → fabric_ok db' ∧ fabric_later db db'.
Proof.
  intros Hok [i cr H|c src H|c src sv caps H|c sd src H|c sd src H|now c e s H|db0 now c e s H0 H|now c sd id o r _ H|c before n H].
  - unfold Fabric.register_process in H. apply bind_Ok in H as (? & _ & H). apply bind_Ok in H as (? & _ & H).
    destruct (processes db !! _) as [d|] eqn:E; inv_ok; (apply keeps_deliveries; [done|done|]); [by intros|].
    intros p d Hp. simpl. rewrite lookup_insert_ne; [done|]. intros ->. congruence.
  - unfold expose_source in H. inv_ok. by apply keeps_deliveries.
  - unfold offer_service in H. inv_ok. by apply keeps_deliveries.
  - unfold grant in H. inv_ok. by apply keeps_deliveries.
  - unfold revoke in H. inv_ok. by apply keeps_deliveries.
  - unfold Fabric.submit in H. inv_ok. match goal with H : Fabric.submit_read _ _ _ _ = Ok ?a |- _ => rename H into Hr; destruct a as [s0|] end.
    + inv_ok. apply keeps_deliveries; [done..|by intros].
    + eapply submit_insert_sound; [done| |done]. unfold Fabric.submit_read in Hr. inv_ok.
      by match goal with H : negb (String.eqb _ _) = false |- _ => apply negb_false_iff, String.eqb_eq in H end.
  - eapply submit_insert_sound; [done| |done]. unfold Fabric.submit_read in H0. inv_ok.
    by match goal with H : negb (String.eqb _ _) = false |- _ => apply negb_false_iff, String.eqb_eq in H end.
  - apply acknowledge_Ok in H as (row & a & Hrow & Hrc & Ho & Ha & Hold & ->).
    destruct (fo_rows db Hok _ _ Hrow) as (e & (? & ? & ? & ? & ? & ? & He) & Hs & Hp).
    apply sets_delivery; simpl; [done| | |done|done|].
    + intros row0 Hrow0. simplify_eq. split; simpl; [done|by intros a' ->%Hold|by left].
    + exists e. split_and!; try done. simpl. destruct He as [?|[? _]]; [by left|right; eauto].
    + intros o' t [= ->]. by subst o.
  - unfold prune_accepted in H. inv_ok. destruct Hok as [Hr Ha].
    assert (∀ row, row_later row (prune_row c before row)) as Hpr.
    { intros row. unfold prune_row. destruct (_ && _) eqn:Ec; [|apply row_later_refl]. split; simpl; [done|done|right].
      split; [done|]. apply andb_true_iff in Ec as [_ Ec]. destruct (row_accepted row); [eauto|done]. }
    split; split; simpl.
    + intros k row. rewrite lookup_fmap_Some. intros (row0 & <- & Hk). destruct (Hr k row0 Hk) as (e & He & Hs & Hp).
      pose proof (Hpr row0) as [(E1 & E2 & E3 & E4 & _) _ Een]. exists e. destruct He as (? & ? & ? & ? & ? & ? & He). rewrite E1.
      split; [|done]. split_and!; rewrite ?E1, ?E2, ?E3, ?E4; try done.
      destruct Een as [->|?]; [|by right]. destruct He as [?|[? ?]]; [by left|right]. split; [done|].
      unfold prune_row. by destruct (_ && _).
    + intros k row o t. rewrite lookup_fmap_Some. intros (row0 & <- & Hk). unfold prune_row. destruct (_ && _); simpl; by eapply Ha.
    + done.
    + intros k row Hk. exists (prune_row c before row). by rewrite lookup_fmap, Hk.
Qed.

Lemma steps_sound may db db' : fabric_ok db → rtc (fabric_step may) db db' → fabric_ok db' ∧ fabric_later db db'.
Proof.
  intros Hok H. induction H as [db|db db1 db' Hs _ IH].
  - split; [done|]. split; [done|]. intros k row Hk. exists row. split; [done|apply row_later_refl].
  - destruct (step_sound _ _ _ Hok Hs) as [Hok1 Hl]. destruct (IH Hok1) as [? ?]. split; [done|by eapply fabric_later_trans].
Qed.

(** C15: the delivery table is a ledger. Through any transactions of any
    clients a submitted delivery keeps its sender, identity, address, content
    and digest; it is accepted at most once, and never loses that; its payload
    is dropped only after. Submitting under its identity again changes nothing:
    the same digest is answered as a duplicate with what became of the
    delivery, another one is refused. *)
Theorem fabric_is_a_ledger db db' k row : fabric_ok db → rtc (fabric_step (λ _, True)) db db' → deliveries db !! k = Some row →
  ∃ row' e, deliveries db' !! k = Some row' ∧ row_later row row' ∧ row_of k row' e ∧
    ∀ now c e', fc_instance c = k.1 → env_sender e' = k.1 → env_delivery_id e' = k.2 → auth c db' = Ok tt →
      submit now c e' db' =
        if String.eqb (envelope_digest e) (envelope_digest e')
        then Ok (MkSubmission k.1 k.2 (if row_accepted row' is Some _ then STATE_ACCEPTED else PENDING) true (row_accepted row'), db')
        else Err (ValueError "fabric delivery identity conflict: content or address changed").
Proof.
  intros Hok Hst Hk. destruct (steps_sound _ db db' Hok Hst) as [Hok' [_ Hl]]. destruct (Hl k row Hk) as (row' & Hk' & Hrow).
  destruct (fo_rows db' Hok' k row' Hk') as (e & He & _). exists row', e. split_and!; try done.
  intros now c e' Hc Hs Hi Ha. unfold Fabric.submit, Fabric.submit_read, Fabric.prior_submission. rewrite Hs, Hc, Hi, Ha, String.eqb_refl.
  simpl. destruct k as [s i]. simpl in *. rewrite Hk'. destruct He as (_ & _ & _ & _ & _ & -> & _).
  destruct (String.eqb (envelope_digest e) (envelope_digest e')); done.
Qed.

(** Only a process that may acknowledge accepts a delivery. *)
Lemma step_acceptance may db db' k row' a : fabric_step may db db' → deliveries db' !! k = Some row' → row_accepted row' = Some a →
  ∃ row, deliveries db !! k = Some row ∧ row_recipient row = row_recipient row' ∧
    (row_accepted row = Some a ∨ may (row_recipient row)).
Proof.
  intros Hst Hk Ha.
  assert (∀ now c e s, submit_insert now c e db = Ok (s, db') → deliveries db !! k = Some row') as Hins.
  { intros now c e s H. unfold Fabric.submit_insert in H. destruct (deliveries db !! (_, _)); inv_ok; [done|].
    simpl in Hk. apply lookup_insert_Some in Hk as [[_ <-]|[_ ?]]; done. }
  assert (deliveries db !! k = Some row' → ∃ row, deliveries db !! k = Some row ∧ row_recipient row = row_recipient row' ∧
    (row_accepted row = Some a ∨ may (row_recipient row))) as Hsame by eauto 6.
  destruct Hst as [i cr H|c src H|c src sv caps H|c sd src H|c sd src H|now c e s H|db0 now c e s H0 H|now c sd id o r Hm H|c before n H].
  - apply Hsame. unfold Fabric.register_process in H. apply bind_Ok in H as (? & _ & H). apply bind_Ok in H as (? & _ & H).
    destruct (processes db !! _); inv_ok; done.
  - apply Hsame. unfold expose_source in H. by inv_ok.
  - apply Hsame. unfold offer_service in H. by inv_ok.
  - apply Hsame. unfold grant in H. by inv_ok.
  - apply Hsame. unfold revoke in H. by inv_ok.
  - apply Hsame. unfold Fabric.submit in H. inv_ok. case_match; [by inv_ok|by eapply Hins].
  - by eapply Hsame, Hins.
  - apply acknowledge_Ok in H as (row & b & Hrow & Hrc & _ & _ & Hold & ->). simpl in Hk.
    apply lookup_insert_Some in Hk as [[<- <-]|[_ ?]]; [|by apply Hsame]. exists row. split_and!; [done|done|right]. by rewrite Hrc.
  - unfold prune_accepted in H. inv_ok. simpl in Hk. apply lookup_fmap_Some in Hk as (row & <- & Hk). exists row.
    unfold prune_row in *. destruct (_ && _); eauto.
Qed.
End ledger.

(** ** Doors that remember what they accepted *)

(** What a process promises its inbox: an identity it has accepted is answered
    with the same occurrence ever after, and two identities never with the same
    one. [door_moves] is what else may happen to the process. *)
Class LawfulDoor (E : Type) `{DeliveryDoor E} := {
  door_inv : E → Prop;
  door_moves : E → E → Prop;
  accepted_by : E → string → option Z;
  door_moves_inv e e' : door_inv e → door_moves e e' →
    door_inv e' ∧ ∀ i o, accepted_by e i = Some o → accepted_by e' i = Some o;
  door_deliver_inv src ts i e r e' : door_inv e → door_deliver src ts i e = (r, e') →
    door_inv e' ∧ (∀ j o, accepted_by e j = Some o → accepted_by e' j = Some o) ∧
    ∀ x o, r = Ok x → door_occurrence x = Some o → accepted_by e' i = Some o ∧ 1 <= o;
  accepted_distinct e i j o : door_inv e → accepted_by e i = Some o → accepted_by e j = Some o → i = j
}.

(** ** A process and its inbox *)

Section inbox.
Context (sha256_text : string → string) (sha256_hex : Data → string) (json_size : Data → Z) (jsonb : Data → Data)
  (collate : string → string → bool).
Context {E : Type} `{LawfulDoor E}.
(** The process whose inbox this is. *)
Context (me : string).

#[local] Notation fabric_step := (fabric_step sha256_text sha256_hex).
#[local] Notation fabric_ok := (fabric_ok sha256_hex).

(** A drain under way: the envelopes left, and the occurrence the first of them
    was delivered with, if it was. *)
Record Drain := MkDrain { dr_left : list Envelope; dr_occurrence : option Z }.

Record Sys := MkSys { sys_db : FabricDB; sys_door : E; sys_drains : list Drain }.

(** A transaction of a client, acknowledgements of this process excepted. *)
Definition other_step : FabricDB → FabricDB → Prop := fabric_step (λ p, p ≠ me).

Inductive sys_step : Sys → Sys → Prop :=
| sys_client db db' e ds : other_step db db' → sys_step (MkSys db e ds) (MkSys db' e ds)
| sys_host db e e' ds : door_moves e e' → sys_step (MkSys db e ds) (MkSys db e' ds)
| sys_pending db e ds c limit envs : fc_instance c = me → pending json_size jsonb collate c limit db = Ok envs →
    sys_step (MkSys db e ds) (MkSys db e (ds ++ [MkDrain envs None]))
| sys_deliver db e e' l k env rest x o :
    door_deliver (env_source env) [envelope_token env] (ingress_identity (env_sender env) (env_delivery_id env)) e = (Ok x, e') →
    door_occurrence x = Some o →
    sys_step (MkSys db e (l ++ MkDrain (env :: rest) None :: k)) (MkSys db e' (l ++ MkDrain (env :: rest) (Some o) :: k))
| sys_refused db e e' l k env rest r :
    door_deliver (env_source env) [envelope_token env] (ingress_identity (env_sender env) (env_delivery_id env)) e = (r, e') →
    sys_step (MkSys db e (l ++ MkDrain (env :: rest) None :: k)) (MkSys db e' (l ++ k))
| sys_acknowledge db db' e l k env rest o now c receipt : fc_instance c = me →
    acknowledge now c (env_sender env) (env_delivery_id env) o db = Ok (receipt, db') →
    sys_step (MkSys db e (l ++ MkDrain (env :: rest) (Some o) :: k)) (MkSys db' e (l ++ MkDrain rest None :: k))
(** The inbox is interrupted, wherever it is. *)
| sys_crash db e l k d : sys_step (MkSys db e (l ++ d :: k)) (MkSys db e (l ++ k)).

Definition drain_ok (e : E) (d : Drain) : Prop :=
  ∀ env rest o, d = MkDrain (env :: rest) (Some o) →
    accepted_by e (ingress_identity (env_sender env) (env_delivery_id env)) = Some o ∧ 1 <= o.

Record sys_ok (s : Sys) : Prop := {
  so_fabric : fabric_ok (sys_db s);
  so_door : door_inv (sys_door s);
  so_rows : ∀ k row o t, deliveries (sys_db s) !! k = Some row → row_recipient row = me → row_accepted row = Some (o, t) →
    accepted_by (sys_door s) (ingress_identity k.1 k.2) = Some o;
  so_drains : Forall (drain_ok (sys_door s)) (sys_drains s)
}.

(** The process moves on and remembers; the drains keep what they know. *)
Lemma door_moved db e e' ds ds' : sys_ok (MkSys db e ds) → door_inv e' →
  (∀ i o, accepted_by e i = Some o → accepted_by e' i = Some o) → Forall (drain_ok e') ds' → sys_ok (MkSys db e' ds').
Proof. intros [Hf _ Hr _] Hi Hm Hd. split; simpl; [done|done| |done]. intros k row o t Hk Hme Ha. eapply Hm, Hr; eauto. Qed.

Lemma drains_kept e e' ds : (∀ i o, accepted_by e i = Some o → accepted_by e' i = Some o) →
  Forall (drain_ok e) ds → Forall (drain_ok e') ds.
Proof. intros Hm Hds. eapply Forall_impl; [exact Hds|]. intros d Hd env rest o ->. destruct (Hd env rest o eq_refl). auto. Qed.

Lemma sys_step_ok s s' : sys_ok s → sys_step s s' → sys_ok s'.
Proof.
  intros Hok Hst. pose proof Hok as [Hf Hi Hr Hd].
  destruct Hst as [db db' e ds Hst|db e e' ds Hm|db e ds c limit envs Hc Hp|db e e' l k env rest x o Hdel Ho
    |db e e' l k env rest r Hdel|db db' e l k env rest o now c receipt Hc Ha|db e l k d]; simpl in *.
  - destruct (step_sound _ _ _ _ _ Hf Hst) as [Hf' _]. split; simpl; [done|done| |done]. intros key row o t Hk Hme Ha.
    destruct (step_acceptance _ _ _ _ _ _ _ _ Hst Hk Ha) as (row0 & Hk0 & Hrc & [Ha0|Hne]); [|congruence].
    by eapply Hr; [done|congruence|].
  - destruct (door_moves_inv e e' Hi Hm) as [? Hmono]. eapply door_moved; eauto. by eapply drains_kept.
  - split; simpl; [done..|]. apply Forall_app. split; [done|]. constructor; [|constructor]. intros env rest o [=].
  - destruct (door_deliver_inv _ _ _ _ _ _ Hi Hdel) as (? & Hmono & Hx). eapply door_moved; eauto.
    apply Forall_app in Hd as [Hd1 Hd2]. inversion_clear Hd2 as [|? ? _ Hd3]. apply Forall_app. split; [by eapply drains_kept|].
    constructor; [|by eapply drains_kept]. intros env' rest' o' [= <- <- <-]. by apply (Hx x o).
  - destruct (door_deliver_inv _ _ _ _ _ _ Hi Hdel) as (? & Hmono & _). eapply door_moved; eauto.
    eapply drains_kept; [done|]. apply Forall_app in Hd as [Hd1 Hd2]. inversion_clear Hd2. by apply Forall_app.
  - apply Forall_app in Hd as [Hd1 Hd2]. inversion_clear Hd2 as [|? ? Hd0 Hd3]. destruct (Hd0 env rest o eq_refl) as [Hacc _].
    assert (fabric_step (λ _, True) db db') as Hst by (by eapply step_acknowledge). destruct (step_sound _ _ _ _ _ Hf Hst) as [Hf' _].
    split; simpl; [done|done| |apply Forall_app; split; [done|]; constructor; [intros ? ? ? [=]|done]].
    apply acknowledge_Ok in Ha as (row & a & Hrow & Hrc & _ & Ha & Hold & ->). simpl.
    intros key row' o' t. rewrite lookup_insert_Some. intros [[<- <-]|[_ Hk]]; simpl; [|by apply (Hr key)].
    intros _ [= ->]. simpl in Ha. by subst o.
  - apply Forall_app in Hd as [Hd1 Hd2]. inversion_clear Hd2. split; simpl; [done..|]. by apply Forall_app.
Qed.

(** Nothing of this process is accepted yet and no inbox is being drained. *)
Record sys_started (s : Sys) : Prop := {
  ss_fabric : fabric_ok (sys_db s);
  ss_door : door_inv (sys_door s);
  ss_rows : ∀ k row, deliveries (sys_db s) !! k = Some row → row_recipient row = me → row_accepted row = None;
  ss_drains : sys_drains s = []
}.

Lemma sys_started_ok s : sys_started s → sys_ok s.
Proof.
  intros [Hf Hd Hr Hs]. split; [done|done| |by rewrite Hs]. intros k row o t Hk Hme Ha. by rewrite (Hr k row Hk Hme) in Ha.
Qed.

Lemma sys_reach_ok s s' : sys_started s → rtc sys_step s s' → sys_ok s'.
Proof. intros Hs%sys_started_ok Hr. revert Hs. induction Hr as [|s s1 s' Hst _ IH]; [done|]. intros Hs. by eapply IH, sys_step_ok. Qed.

(** An acknowledgement that follows a delivery is never a conflict. *)
Lemma acknowledge_delivered s env rest o c now row : sys_ok s → MkDrain (env :: rest) (Some o) ∈ sys_drains s →
  fc_instance c = me → auth c (sys_db s) = Ok tt → fabric_text_ok (env_sender env) = true → fabric_text_ok (env_delivery_id env) = true →
  deliveries (sys_db s) !! (env_sender env, env_delivery_id env) = Some row → row_recipient row = me →
  ∃ receipt db', acknowledge now c (env_sender env) (env_delivery_id env) o (sys_db s) = Ok (receipt, db').
Proof.
  intros [_ _ Hr Hd] Hin Hc Ha Ht1 Ht2 Hk Hme. rewrite Forall_forall in Hd. destruct (Hd _ Hin env rest o eq_refl) as [Hacc Ho].
  unfold acknowledge. rewrite (proj2 (fabric_text_Ok _ _) (conj eq_refl Ht1)). simpl. rewrite (proj2 (fabric_text_Ok _ _) (conj eq_refl Ht2)).
  simpl. destruct (Z.ltb_spec o 1); [lia|]. simpl. rewrite Ha. simpl. rewrite Hk, Hme, Hc, String.eqb_refl. simpl.
  destruct (row_accepted row) as [[o' t]|] eqn:Ea; [|eauto].
  pose proof (Hr _ _ _ _ Hk Hme Ea) as Hacc'. simpl in Hacc'. rewrite Hacc in Hacc'. injection Hacc' as <-. rewrite Z.eqb_refl. eauto.
Qed.

(** ** Draining is a run of the system *)

Lemma drain_one_runs now c env rest db e l r db' e' : fc_instance c = me → drain_one now c env db e = (r, (db', e')) →
  (∃ receipt, r = Ok receipt ∧ rtc sys_step (MkSys db e (l ++ [MkDrain (env :: rest) None])) (MkSys db' e' (l ++ [MkDrain rest None]))) ∨
  is_ok r = false ∧ rtc sys_step (MkSys db e (l ++ [MkDrain (env :: rest) None])) (MkSys db' e' l).
Proof.
  intros Hc. unfold drain_one. destruct (door_deliver _ _ _ e) as [[x|err] e1] eqn:Edel.
  - destruct (door_occurrence x) as [o|] eqn:Eo.
    + assert (sys_step (MkSys db e (l ++ [MkDrain (env :: rest) None])) (MkSys db e1 (l ++ [MkDrain (env :: rest) (Some o)])))
        as Hst by (by eapply sys_deliver).
      destruct (acknowledge _ _ _ _ _ _) as [[receipt db1]|err] eqn:Eack; intros [= <- <- <-].
      * left. exists receipt. split; [done|]. eapply rtc_l; [exact Hst|]. apply rtc_once. by eapply sys_acknowledge.
      * right. split; [done|]. eapply rtc_l; [exact Hst|]. apply rtc_once.
        rewrite <-(app_nil_r l) at 2. apply (sys_crash db e1 l []).
    + intros [= <- <- <-]. right. split; [done|]. apply rtc_once. rewrite <-(app_nil_r l) at 2. by eapply (sys_refused db e e1 l []).
  - intros [= <- <- <-]. right. split; [done|]. apply rtc_once. rewrite <-(app_nil_r l) at 2. by eapply (sys_refused db e e1 l []).
Qed.

Lemma drain_each_runs now c envs db e l r db' e' : fc_instance c = me → drain_each now c envs db e = (r, (db', e')) →
  rtc sys_step (MkSys db e (l ++ [MkDrain envs None])) (MkSys db' e' l).
Proof.
  intros Hc. revert db e r. induction envs as [|env envs IH]; intros db e r; simpl.
  - intros [= <- <- <-]. apply rtc_once. rewrite <-(app_nil_r l) at 2. apply (sys_crash db e l []).
  - destruct (drain_one now c env db e) as [r1 [db1 e1]] eqn:E1.
    destruct (drain_one_runs now c env envs db e l r1 db1 e1 Hc E1) as [(receipt & -> & Hrun)|[Hf Hrun]].
    + destruct (drain_each now c envs db1 e1) as [r2 [db2 e2]] eqn:E2. intros [= _ <- <-]. etrans; [exact Hrun|]. by eapply IH.
    + destruct r1; [done|]. by intros [= <- <- <-].
Qed.

Lemma drain_runs now c limit db e ds r db' e' : fc_instance c = me →
  drain json_size jsonb collate now c limit db e = (r, (db', e')) → rtc sys_step (MkSys db e ds) (MkSys db' e' ds).
Proof.
  intros Hc. unfold drain. destruct (pending _ _ _ _ _ _) as [envs|] eqn:Ep; [|intros [= <- <- <-]; done].
  intros Hd. eapply rtc_l; [by eapply sys_pending|]. by eapply drain_each_runs.
Qed.

(** ** A drain that returns has accepted what was pending *)

Lemma drain_each_accepts now c envs db e rs db' e' : fabric_ok db → drain_each now c envs db e = (Ok rs, (db', e')) →
  fabric_later db db' ∧
  Forall2 (λ env receipt, rc_sender receipt = env_sender env ∧ rc_delivery_id receipt = env_delivery_id env ∧
    ∃ row a, deliveries db' !! (env_sender env, env_delivery_id env) = Some row ∧ row_accepted row = Some a ∧
      rc_accepted receipt = Some a ∧ row_recipient row = fc_instance c) envs rs.
Proof.
  revert db e rs. induction envs as [|env envs IH]; intros db e rs Hf; simpl.
  { intros [= <- <- <-]. split; [|constructor]. split; [done|]. intros k row Hk. exists row. split; [done|apply row_later_refl]. }
  unfold drain_one. destruct (door_deliver _ _ _ e) as [[x|] e1]; [|done]. destruct (door_occurrence x) as [o|]; [|done].
  destruct (acknowledge _ _ _ _ _ _) as [[receipt db1]|] eqn:Eack; [|done].
  destruct (drain_each now c envs db1 e1) as [[rs'|] [db2 e2]] eqn:E2; simpl; [|done]. intros [= <- <- <-].
  assert (fabric_step (λ _, True) db db1) as Hst by (by eapply step_acknowledge).
  destruct (step_sound _ _ _ _ _ Hf Hst) as [Hf1 Hl1]. destruct (IH db1 e1 rs' Hf1 E2) as [Hl2 Hall].
  split; [by eapply fabric_later_trans|]. constructor; [|done].
  assert (rc_sender receipt = env_sender env ∧ rc_delivery_id receipt = env_delivery_id env ∧
    ∃ row a, deliveries db1 !! (env_sender env, env_delivery_id env) = Some row ∧ row_accepted row = Some a ∧
      rc_accepted receipt = Some a ∧ row_recipient row = fc_instance c) as (? & ? & row & a & Hk & Ha & Hra & Hrc).
  { unfold acknowledge in Eack. apply bind_Ok in Eack as (? & [-> _]%fabric_text_Ok & Eack).
    apply bind_Ok in Eack as (? & [-> _]%fabric_text_Ok & Eack). inv_ok.
    destruct (deliveries db !! _) as [row|]; [|done]. inv_ok. simpl. split_and!; [done|done|]. eexists _, _. rewrite lookup_insert_eq.
    split; [done|]. simpl. split_and!; [done|done|]. by match goal with H : negb (String.eqb _ _) = false |- _ => apply negb_false_iff, String.eqb_eq in H end. }
  split; [done|]. split; [done|]. destruct (fl_rows _ _ Hl2 _ _ Hk) as (row2 & Hk2 & [Had Hacc _]).
  exists row2, a. split_and!; [done|auto|done|]. destruct Had as [-> _]. done.
Qed.
End inbox.

(** ** Columns give back what identifies a delivery *)

(** What PostgreSQL documents of jsonb: an object keeps its members, each stored
    as a value of its own, and text is kept. (Key order is not kept, and a
    number only up to its value.) *)
Record JsonbLaws (jsonb : Data → Data) : Prop := {
  jl_object d : ∃ d', jsonb (DDict d) = DDict d' ∧ ∀ k, dget k d' = jsonb <$> dget k d;
  jl_text s : jsonb (DStr s) = DStr s
}.

Section pending.
Context (sha256_text : string → string) (sha256_hex : Data → string) (json_size : Data → Z) (jsonb : Data → Data)
  (collate : string → string → bool).
Context {E : Type} `{LawfulDoor E}.
Context (jsonb_laws : JsonbLaws jsonb).

#[local] Notation fabric_ok := (fabric_ok sha256_hex).

Lemma decoded_identity e env : envelope_from_data json_size (jsonb (envelope_to_data e)) = Ok env →
  env_sender env = env_sender e ∧ env_delivery_id env = env_delivery_id e.
Proof.
  unfold envelope_to_data. destruct (jl_object jsonb jsonb_laws [("version", DInt 1); ("delivery_id", DStr (env_delivery_id e)); ("sender", DStr (env_sender e));
    ("recipient", DStr (env_recipient e)); ("source", DStr (env_source e)); ("correlation", DStr (env_correlation e));
    ("payload", thaw_json (env_payload e)); ("reply_route", e_opt route_to_data (env_reply_route e))]) as (d & -> & Hd).
  pose proof (Hd "sender") as Hs. pose proof (Hd "delivery_id") as Hi. simpl in Hs, Hi. rewrite (jl_text _ jsonb_laws) in Hs, Hi.
  unfold envelope_from_data, exact_object. intros Hx. inv_ok. unfold item in *.
  repeat match goal with H : or_raise _ _ = Ok _ |- _ => apply or_raise_Ok in H end. simplify_eq.
  repeat match goal with H : d_fabric_text (DStr _) = Ok _ |- _ => apply fabric_text_Ok in H as [-> _] end.
  unfold Envelope_new in *. repeat match goal with H : _ ≫= _ = Ok _ |- _ => apply bind_Ok in H as (? & ? & ?) end.
  repeat match goal with H : fabric_text _ = Ok _ |- _ => apply fabric_text_Ok in H as [-> _] end. inv_ok. done.
Qed.

(** A drain that returns has accepted, with the receipts it returns
    and in their order, every delivery that was pending for the process within
    the limit; with a limit as large as the inbox, nothing that was pending
    still is. *)
Theorem drain_accepts_what_was_pending now c limit db e rs db' e' : fabric_ok db →
  drain json_size jsonb collate now c limit db e = (Ok rs, (db', e')) →
  (λ r, (rc_sender r, rc_delivery_id r)) <$> rs = (pending_rows collate c (Z.to_nat limit) db).*1 ∧
  (∀ k row, (k, row) ∈ pending_rows collate c (Z.to_nat limit) db →
     ∃ row' a, deliveries db' !! k = Some row' ∧ row_accepted row' = Some a ∧ Some a ∈ rc_accepted <$> rs) ∧
  (Z.of_nat (size (deliveries db)) <= limit →
     ∀ k row, deliveries db !! k = Some row → row_recipient row = fc_instance c →
       ∃ row', deliveries db' !! k = Some row' ∧ is_Some (row_accepted row')).
Proof.
  intros Hf Hd. unfold drain in Hd. destruct (pending _ _ _ _ _ _) as [envs|] eqn:Ep; [|done].
  destruct (drain_each_accepts sha256_text sha256_hex now c envs db e rs db' e' Hf Hd) as [Hl Hall]. unfold pending in Ep. inv_ok.
  match goal with H : mapR _ _ = Ok envs |- _ => apply mapR_Ok in H; rename H into Hm end.
  assert (∀ k row, (k, row) ∈ pending_rows collate c (Z.to_nat limit) db →
    deliveries db !! k = Some row ∧ row_recipient row = fc_instance c ∧ row_accepted row = None) as Hrows.
  { intros k row Hin. unfold pending_rows in Hin. apply elem_of_take in Hin as (i & Hi & _). apply list_elem_of_lookup_2 in Hi.
    rewrite sorted_by_perm in Hi. apply list_elem_of_filter in Hi as [[? ?] Hi%elem_of_map_to_list]. done. }
  assert (Forall2 (λ (r : string * string * DeliveryRow) env, env_sender env = r.1.1 ∧ env_delivery_id env = r.1.2)
            (pending_rows collate c (Z.to_nat limit) db) envs) as Hids.
  { revert Hrows Hm. generalize (pending_rows collate c (Z.to_nat limit) db) as l. intros l Hrows Hm.
    clear -jsonb_laws Hf Hrows Hm. induction Hm as [|[k row] env l envs He _ IH]; constructor; [|apply IH; intros; apply Hrows; by right].
    assert ((k, row) ∈ (k, row) :: l) as Hin by left. destruct (Hrows k row Hin) as (Hk & _ & Hn).
    destruct (fo_rows _ _ Hf k row Hk) as (e0 & (Es & Ei & _ & _ & _ & _ & [Hen|[_ [? ?]]]) & _); [|congruence].
    simpl in He. rewrite Hen in He. apply decoded_identity in He as [-> ->]. done. }
  assert (Forall2 (λ (r : string * string * DeliveryRow) receipt, (rc_sender receipt, rc_delivery_id receipt) = r.1 ∧
    ∃ row a, deliveries db' !! r.1 = Some row ∧ row_accepted row = Some a ∧ rc_accepted receipt = Some a)
    (pending_rows collate c (Z.to_nat limit) db) rs) as Hboth.
  { clear -Hids Hall. revert rs Hall. induction Hids as [|[[s i] row] env l k [Hs Hi] _ IH]; intros rs Hall.
    { apply Forall2_nil_inv_l in Hall as ->. constructor. }
    apply Forall2_cons_inv_l in Hall as (receipt & rs' & (Er1 & Er2 & row' & a & Hk & Ha & Hr & _) & Hrest & ->).
    constructor; [|by apply IH]. simpl in *. rewrite Er1, Er2, Hs, Hi. split; [done|]. rewrite Hs, Hi in Hk. by exists row', a. }
  assert (∀ k row, (k, row) ∈ pending_rows collate c (Z.to_nat limit) db →
     ∃ row' a, deliveries db' !! k = Some row' ∧ row_accepted row' = Some a ∧ Some a ∈ rc_accepted <$> rs) as Hacc.
  { intros k row [i Hi]%list_elem_of_lookup. destruct (Forall2_lookup_l _ _ _ _ _ Hboth Hi) as (receipt & Hr & _ & row' & a & Hk & Ha & Hra).
    exists row', a. split_and!; [done|done|]. rewrite <-Hra. apply list_elem_of_fmap. exists receipt. split; [done|].
    by eapply list_elem_of_lookup_2. }
  split; [|split; [done|]].
  - clear -Hboth. induction Hboth as [|r receipt l k [E _] _ IH]; [done|]. csimpl. by rewrite E, IH.
  - intros Hsize k row Hk Hme. destruct (row_accepted row) as [a|] eqn:Ea.
    { destruct (fl_rows _ _ Hl k row Hk) as (row' & Hk' & [_ Hm' _]). exists row'. split; [done|]. rewrite (Hm' a Ea). eauto. }
    destruct (Hacc k row) as (row' & a & Hk' & Ha & _); [|exists row'; split; [done|rewrite Ha; eauto]].
    unfold pending_rows. rewrite take_ge.
    + rewrite sorted_by_perm. apply list_elem_of_filter. split; [done|]. by apply elem_of_map_to_list.
    + rewrite sorted_by_perm. etrans; [apply length_filter|]. rewrite length_map_to_list. lia.
Qed.
End pending.

(** ** Two processes *)

Definition toy_sha (s : string) : string := s.
Definition toy_digest (d : Data) : string := "digest".
Definition toy_size (d : Data) : Z := 0.
Definition toy_secret : string := "0123456789abcdefghijklmnopqrstuvwxyz".

Definition toy_client (name : string) : PostgresFabric := MkPostgresFabric name (toy_sha toy_secret).

Definition toy_envelope (id : string) : Envelope :=
  MkEnvelope id "peer" "demo-1" "feed" "case-1" (freeze_json (DDict [("n", DInt 1)])) None.

(** Two processes; [peer] may send to the source [feed] of [demo-1], and did. *)
Definition toy_tables : result FabricDB :=
  db ← register_process toy_sha "demo-1" toy_secret (MkFabricDB ∅ ∅ ∅ ∅ ∅);
  db ← register_process toy_sha "peer" toy_secret db;
  db ← expose_source (toy_client "demo-1") "feed" db;
  db ← grant (toy_client "demo-1") "peer" "feed" db;
  '(_, db) ← submit toy_digest 10 (toy_client "peer") (toy_envelope "a") db;
  '(_, db) ← submit toy_digest 11 (toy_client "peer") (toy_envelope "b") db;
  Ok db.
Definition toy_db : FabricDB := ok_or (MkFabricDB ∅ ∅ ∅ ∅ ∅) toy_tables.

Lemma toy_tables_Ok : toy_tables = Ok toy_db.
Proof. apply ok_or_Ok. vm_compute. reflexivity. Qed.

Lemma empty_ok : fabric_ok toy_digest (MkFabricDB ∅ ∅ ∅ ∅ ∅).
Proof. by split; intros k row. Qed.

Lemma toy_ok : fabric_ok toy_digest toy_db.
Proof.
  pose proof toy_tables_Ok as H. unfold toy_tables in H.
  repeat match goal with H : _ ≫= _ = Ok _ |- _ => apply bind_Ok in H as (? & ? & H) | x : (_ * _)%type |- _ => destruct x end.
  injection H as <-. apply (steps_sound toy_sha toy_digest (λ _, True) _ _ empty_ok).
  do 2 (eapply rtc_l; [by eapply step_register|]). eapply rtc_l; [by eapply step_expose|]. eapply rtc_l; [by eapply step_grant|].
  do 2 (eapply rtc_l; [by eapply step_submit|]). constructor.
Qed.

(** [demo-1] has accepted the first delivery. *)
Definition toy_accepted : FabricDB :=
  match acknowledge 12 (toy_client "demo-1") "peer" "a" 1 toy_db with Ok (_, db) => db | Err _ => toy_db end.

Lemma fabric_is_a_ledger_witness :
  ∃ row, deliveries toy_accepted !! ("peer", "a") = Some row ∧ row_accepted row = Some (1, 12) ∧
    is_ok (submit toy_digest 13 (toy_client "peer") (toy_envelope "a") toy_accepted) = true.
Proof.
  destruct (deliveries toy_db !! ("peer", "a")) as [row|] eqn:Hrow; [|exfalso; vm_compute in Hrow; discriminate Hrow].
  assert (rtc (fabric_step toy_sha toy_digest (λ _, True)) toy_db toy_accepted) as Hst.
  { apply rtc_once. unfold toy_accepted.
    destruct (acknowledge 12 (toy_client "demo-1") "peer" "a" 1 toy_db) as [[r db]|] eqn:E.
    - by eapply step_acknowledge.
    - exfalso. assert (is_ok (acknowledge 12 (toy_client "demo-1") "peer" "a" 1 toy_db) = true) as H by (vm_compute; reflexivity).
      rewrite E in H. discriminate H. }
  destruct (fabric_is_a_ledger toy_sha toy_digest toy_db toy_accepted ("peer", "a") row toy_ok Hst Hrow)
    as (row' & e & Hk & _ & _ & Hs).
  exists row'. split; [exact Hk|]. split.
  - assert (row_accepted <$> deliveries toy_accepted !! ("peer", "a") = Some (Some (1, 12))) as H by (vm_compute; reflexivity).
    rewrite Hk in H. by injection H.
  - rewrite (Hs 13 (toy_client "peer") (toy_envelope "a")); [|vm_compute; reflexivity..]. reflexivity.
Defined.

(** A process that numbers the identities it accepts. *)
Fixpoint position (i : string) (l : list string) : option nat :=
  match l with
  | [] => None
  | j :: l => if String.eqb i j then Some (length l) else position i l
  end.

#[local] Instance toy_door : DeliveryDoor (list string) := λ _ _ i l,
  match position i l with
  | Some n => (Ok (DoorPrior (Z.of_nat n + 1)), l)
  | None => (Ok (DoorFiring (Z.of_nat (length l) + 1)), i :: l)
  end.

Lemma toy_jsonb : JsonbLaws (λ d, d).
Proof. split; [|done]. intros d. exists d. split; [done|]. intros k. by destruct (dget k d). Qed.

Lemma drain_accepts_what_was_pending_witness :
  ∃ rs db' e', drain toy_size (λ d, d) str_leb 12 (toy_client "demo-1") 100 toy_db ([] : list string) = (Ok rs, (db', e')) ∧
    ∀ k row, deliveries toy_db !! k = Some row → row_recipient row = "demo-1" →
      ∃ row', deliveries db' !! k = Some row' ∧ is_Some (row_accepted row').
Proof.
  destruct (drain toy_size (λ d, d) str_leb 12 (toy_client "demo-1") 100 toy_db []) as [[rs|x] [db' e']] eqn:E.
  - exists rs, db', e'. split; [reflexivity|].
    refine (proj2 (proj2 (drain_accepts_what_was_pending toy_sha toy_digest toy_size (λ d, d) str_leb toy_jsonb 12 (toy_client "demo-1") 100
      toy_db [] rs db' e' toy_ok E)) _). vm_compute. discriminate.
  - exfalso. assert (is_ok (drain toy_size (λ d, d) str_leb 12 (toy_client "demo-1") 100 toy_db ([] : list string)).1 = true) as H
      by (vm_compute; reflexivity). rewrite E in H. discriminate H.
Defined.
