(* ===== verification/FabricEngine.v ===== *)
(** * An Engine behind an inbox

    [Engine.deliver] is the delivery door a host gives its Fabric inbox. The
    Engine keeps the promise the inbox relies on ([LawfulDoor]): the occurrence
    an identity was accepted with stays recorded, and no two identities share
    one. With it, a Fabric delivery is one source firing of its process. *)

From stdpp Require Import base gmap sets list strings pretty sorting.
From Stdlib Require Import ZArith Lia.
From S2P Require Import Prelude PyData Schema Marking Enabledness Firing Activity Records Replay Lifecycle Selection Instance Dispatch Construction Commit Invariant Operations Soundness Reachability Scenario DeliveryTheorems Coordination Driving DriveInvariant DriveSteps DriveTheorems FiringTheorems Engine EngineTheorems AgentText Fabric FabricTheorems.
Open Scope string_scope.
Open Scope list_scope.
Open Scope Z_scope.

(** ** The occurrences deliveries were accepted with *)

Definition delivered_occurrence (r : HRecord) : option Z :=
  match r with ExternalEventDelivered _ _ _ o _ _ => Some o | _ => None end.

Definition accepted_occurrence (l : Live) (identity : string) : option Z :=
  r ← dget identity (accepted_identities l); delivered_occurrence r.

(** What is recorded of an identity stays recorded. *)
Definition identities_kept (l l' : Live) : Prop :=
  ∀ i r, dget i (accepted_identities l) = Some r → dget i (accepted_identities l') = Some r.

Record acceptances_ok (l : Live) : Prop := {
  ao_range i o : accepted_occurrence l i = Some o → 1 <= o < next_occurrence l;
  ao_distinct i j o : accepted_occurrence l i = Some o → accepted_occurrence l j = Some o → i = j
}.

#[export] Instance identities_kept_preorder : PreOrder identities_kept.
Proof. split; [by intros l i r|]. intros l1 l2 l3 H1 H2 i r H. by apply H2, H1. Qed.

Lemma kept_occurrence l l' i o : identities_kept l l' → accepted_occurrence l i = Some o → accepted_occurrence l' i = Some o.
Proof. unfold accepted_occurrence. intros Hk (r & Hr & Ho)%bind_Some. by rewrite (Hk _ _ Hr). Qed.

(** A step that accepts nothing. *)
Lemma accepts_nothing l l' : accepted_identities l' = accepted_identities l → next_occurrence l <= next_occurrence l' →
  (acceptances_ok l → acceptances_ok l') ∧ identities_kept l l'.
Proof.
  intros Ha Hn. assert (∀ i, accepted_occurrence l' i = accepted_occurrence l i) as He
    by (intros i; unfold accepted_occurrence; by rewrite Ha).
  split; [|intros i r; by rewrite Ha]. intros [Hr Hd]. split; intros i; rewrite ?He; [intros o Ho%Hr; lia|].
  intros j o. rewrite He. apply Hd.
Qed.

(** A step that records a new identity: another disposition, or the next
    occurrence. *)
Lemma accepts_new l l' identity r : dget identity (accepted_identities l) = None →
  accepted_identities l' = dset identity r (accepted_identities l) →
  1 <= next_occurrence l → next_occurrence l <= next_occurrence l' →
  (∀ o, delivered_occurrence r = Some o → o = next_occurrence l ∧ next_occurrence l' = next_occurrence l + 1) →
  (acceptances_ok l → acceptances_ok l') ∧ identities_kept l l'.
Proof.
  intros Hnew Ha H1 Hn Hr.
  assert (∀ i, accepted_occurrence l' i = if decide (i = identity) then delivered_occurrence r else accepted_occurrence l i) as He.
  { intros i. unfold accepted_occurrence. rewrite Ha, dget_dset. by case_decide; repeat case_decide; subst. }
  split.
  - intros [Hok Hd]. split.
    + intros i o. rewrite He. case_decide; [intros [-> ?]%Hr; lia|intros ?%Hok; lia].
    + intros i j o. rewrite !He. repeat case_decide; subst; try done; [..|by apply Hd].
      * intros [-> _]%Hr Hj%Hok. lia.
      * intros Hi%Hok [-> _]%Hr. lia.
  - intros i r'. rewrite Ha, dget_dset. case_decide; [subst; by rewrite Hnew|done].
Qed.

Lemma cancel_fold_identities ids l : accepted_identities (foldl cancel_live l ids) = accepted_identities l.
Proof.
  revert l. induction ids as [|q ids IH]; intros l; simpl; [done|]. rewrite IH. unfold cancel_live.
  by destruct (dget q (in_flight l)).
Qed.

Lemma commit_acceptances c l batch l' : live_ok c l → commit c l batch l' →
  (acceptances_ok l → acceptances_ok l') ∧ identities_kept l l'.
Proof.
  intros Hok H. pose proof (ok_next_occurrence _ _ Hok) as H1.
  destruct H; try (by apply accepts_nothing).
  - apply accepts_nothing; unfold closed_live; simpl; [by rewrite cancel_fold_identities|].
    by rewrite (proj2 (cancel_fold_acts _ _)).
  - apply accepts_nothing; unfold closed_live; simpl; [by rewrite cancel_fold_identities|].
    by rewrite (proj2 (cancel_fold_acts _ _)).
  - apply accepts_nothing; unfold begun_live; destruct (occ_invocation occ); simpl; done || lia.
  - match goal with H : begin_batch _ _ _ _ _ _ = Ok _ |- _ => apply begin_batch_spec in H as (mv & qs' & Hb); apply bb_id in Hb end.
    eapply accepts_new; [done| |done|..]; unfold begun_live; simpl; destruct (occ_invocation occ); simpl; try done; try lia.
    all: intros o [= <-]; by rewrite Hb.
  - unfold completed_live, ended_live. apply accepts_nothing; by destruct retired.
  - unfold ended_live. apply accepts_nothing; by destruct retired.
  - eapply accepts_new; [done|done|done|done|]. intros o Ho. unfold r, scoped_disposition in Ho. by repeat case_match.
Qed.

Lemma isteps_acceptances s s' : isteps s s' → instance_ok s →
  (acceptances_ok (live s) → acceptances_ok (live s')) ∧ identities_kept (live s) (live s').
Proof.
  induction 1 as [s|s s1 s' H _ IH]; intros Hok; [done|]. pose proof (istep_ok _ _ H Hok) as Hok1. destruct (IH Hok1) as [IH1 IH2].
  destruct H as [c st st' l Hs|c st st' l l' batch Hc Hs]; simpl in *; [done|].
  destruct (commit_acceptances c l batch l' Hok Hc) as [H1 H2]. split; [auto|by etrans].
Qed.

Lemma reachable_acceptances s : reachable s → acceptances_ok (live s).
Proof.
  induction 1 as [cel n m im at_ st supplied minted s Hn Hi|op s r s' Hr IH Hv Hp|cel im st s s' Hr IH Hst Hp].
  - unfold Instance_init in Hi. inv_ok. by split.
  - pose proof (reachable_ok _ Hr) as Hs. by eapply (proj1 (isteps_acceptances s s' ltac:(eapply perform_isteps; [apply Hs|done|exact Hp]) Hs)).
  - apply resume_restores in Hp as (_ & _ & [] & _); [|done|by apply reachable_sound]. destruct IH. by split.
Qed.

(** *** The record behind an acceptance *)

Definition delivery_identity (r : HRecord) : option string := snd <$> delivery_fact r.

Definition accepted_entry (r : HRecord) : option (string * HRecord) := (λ identity, (identity, r)) <$> delivery_identity r.

(** The accepted identities are the dispositions of the history, in order. *)
Lemma accepted_loop_entries i0 s acc h acc' : NoDup (dkeys acc) → accepted_loop i0 s acc h = Ok acc' →
  acc' = acc ++ omap accepted_entry h ∧ NoDup (dkeys acc').
Proof.
  revert s acc. induction h as [|r h IH]; intros s acc Hn; simpl.
  { intros [= <-]. by rewrite app_nil_r. }
  intros H. inv_ok. unfold accept_record in *. unfold accepted_entry, delivery_identity at 1.
  destruct (delivery_fact r) as [[ts identity]|]; simpl in *; inv_ok; [|by eapply IH].
  match goal with H : dmem identity acc = false |- _ => apply dmem_false in H; rename H into Hfresh end.
  eapply IH in H as [-> Hn']; [|by apply NoDup_dkeys_dset]. rewrite dset_fresh by done. rewrite <-app_assoc. split; [done|].
  by rewrite dset_fresh, <-app_assoc in Hn' by done.
Qed.

Lemma one_disposition h identity r : NoDup (dkeys (omap accepted_entry h)) → dget identity (omap accepted_entry h) = Some r →
  filter (λ r, delivery_identity r = Some identity) h = [r].
Proof.
  induction h as [|r0 h IH]; [done|]. rewrite filter_cons. csimpl.
  assert (accepted_entry r0 = (λ identity, (identity, r0)) <$> delivery_identity r0) as -> by done.
  destruct (delivery_identity r0) as [i0|] eqn:E; csimpl; [|apply IH].
  intros [Hni Hn]%NoDup_cons. case_decide as Hd.
  - intros [= ->]. rewrite decide_True by congruence. f_equal. subst i0.
    assert (∀ x, x ∈ h → delivery_identity x ≠ Some identity) as Hno.
    { intros x Hx Hxi. apply Hni. apply list_elem_of_fmap. exists (identity, x). split; [done|].
      apply list_elem_of_omap. exists x. split; [done|]. unfold accepted_entry. by rewrite Hxi. }
    clear -Hno. induction h as [|x h IH]; [done|]. rewrite filter_cons, decide_False by (apply Hno; left). apply IH. intros. apply Hno. by right.
  - intros H. rewrite decide_False by congruence. by apply IH.
Qed.

(** An accepted identity has one disposition in the history: the delivery with
    the occurrence recorded for it. *)
Lemma accepted_record s identity o : sound s → accepted_occurrence (live s) identity = Some o →
  ∃ source tokens scope i, filter (λ r, delivery_identity r = Some identity) (history s)
    = [ExternalEventDelivered source tokens identity o scope i].
Proof.
  intros [_ Hco] (r & Hr & Ho)%bind_Some. pose proof (co_accepted _ _ Hco) as Ha.
  apply accepted_loop_entries in Ha as [Ea Hn]; [|constructor]. simpl in Ea. rewrite Ea in Hr, Hn.
  pose proof (one_disposition _ _ _ Hn Hr) as E. destruct r; simplify_eq/=.
  assert (ExternalEventDelivered source tokens identity0 o scope instant ∈ filter (λ r, delivery_identity r = Some identity) (history s))
    as Hin by (rewrite E; left). apply list_elem_of_filter in Hin as [[= ->] _]. eauto.
Qed.

(** ** What a delivery answers *)

(** The occurrence an answer of [accept_delivery] names. *)
Definition answer_occurrence (a : DeliveryAnswer) : option Z :=
  match a with DAccepted a => Some (ad_occurrence a) | DPrior _ o => Some o | DScoped _ _ _ => None end.

Lemma redelivery_occurrence c l prior path delivered identity target ans o :
  redelivery_answer c l prior path delivered identity target = Ok ans → answer_occurrence ans = Some o →
  delivered_occurrence prior = Some o.
Proof.
  unfold redelivery_answer. intros H Ho. inv_ok. destruct prior; inv_ok; simpl in *; simplify_eq; try done.
  destruct (dmem _ _); inv_ok; simpl in *; [|done].
  match goal with H : AcceptedDelivery_new _ _ _ _ = Ok _ |- _ => unfold AcceptedDelivery_new in H end. by inv_ok.
Qed.

Lemma accept_delivery_occurrence source tokens at_ identity target s ans s' o :
  instance_ok s → accept_delivery source tokens at_ identity target s = (Ok ans, s') → answer_occurrence ans = Some o →
  accepted_occurrence (live s') identity = Some o.
Proof.
  intros Hok H Ho. unfold accept_delivery in H. mpass H. unfold id in H. apply raise_if_Ok in Hchk3.
  assert (∃ prior, dget identity (accepted_identities (live s')) = Some prior ∧ delivered_occurrence prior = Some o) as (prior & Hp & Hd);
    [|unfold accepted_occurrence; by rewrite Hp].
  destruct (dget identity (accepted_identities (live s))) as [prior|] eqn:Hacc.
  - injection H as Ha <-. exists prior. split; [done|]. by eapply redelivery_occurrence.
  - apply accept_new_Ok in H as (prior & Hp & _ & Ha); [|done..]. exists prior. split; [done|]. by eapply redelivery_occurrence.
Qed.

Lemma commit_completion_occurrence occ v at_ s f s' : commit_completion occ v at_ s = (Ok f, s') → out_occurrence f = occ_id occ.
Proof.
  unfold commit_completion. intros H. rewrite bind_cfg, bind_self in H. unfold id in H. cbv zeta in H.
  rewrite bind_lift in H. destruct (completion_batch _ _ _ _ _) as [[[[armed' minted] cursor] batch]|]; [|done].
  repeat (apply bind_inv in H as [(? & ? & _ & H)|(? & _ & ?)]; [|done]). by injection H as <- _.
Qed.

Lemma execute_occurrence occ at_ s f s' : execute occ at_ s = (Ok f, s') → out_occurrence f = occ_id occ.
Proof.
  unfold execute. intros H. mpass H. destruct (_ : Handler) as [g|]; [|done]. unfold try_with in H.
  match type of H with (let (_, _) := ?m in _) = _ => destruct m as [[f0|e] s1] eqn:E end.
  - injection H as <- <-. apply bind_inv in E as [(v & s2 & _ & E)|(? & _ & ?)]; [|done]. by eapply commit_completion_occurrence.
  - destruct e; try done; mstep H; (apply bind_inv in H as [(? & ? & _ & H)|(? & _ & ?)]; done).
Qed.

Lemma complete_delivery_occurrence a at_ s f s' : instance_ok s → complete_delivery a at_ s = (Ok f, s') →
  out_occurrence f = ad_occurrence a.
Proof.
  intros Hok H. unfold complete_delivery in H. mpass H. unfold id in H.
  unfold AcceptedDelivery_new in Hchk. inv_ok. simpl in H.
  destruct (dget (ad_occurrence a) (in_flight (live s))) as [occ|] eqn:E; [|done]. mpass H. apply execute_occurrence in H as ->.
  by apply (ok_in_flight _ _ Hok).
Qed.

(** ** The Engine is a lawful door *)

Section engine_door.
  Context {D K P : Type} `{HL : LawfulDispatch D} `{HK : Clock K} `{HP : SelectionPolicy P}.
  Notation Eng := (Engine D K).
  Notation CM' := (CM D K).
  Notation triple := (triple anything).

Definition door_answer (r : Delivered) : DoorResult :=
  match r with
  | DeliveredFiring f => DoorFiring (out_occurrence f)
  | DeliveredAnswer (DPrior _ o) => DoorPrior o
  | DeliveredAnswer _ => DoorOther
  end.

(** The door of [FabricInbox] when it is an Engine: [engine.deliver]. *)
#[export] Instance engine_door : DeliveryDoor Eng := λ source tokens identity e,
  let '(r, e) := deliver (AStr source) tokens (Some identity) None e in
  (r ← r; Ok (door_answer r), e).

(** What happens to an Engine besides its inbox: its host calls it, its
    workers make progress, or the host ends and another loads the history. *)
Inductive engine_moves (policy : DrivingPolicy) (sel : P) (e : Eng) : Eng → Prop :=
| moves_call call r e' : engine_call policy sel call e = (r, e') → engine_moves policy sel e e'
| moves_workers d' :
    provider_ok d' → (∀ q, owes (co_dispatch (en_coordinator e)) q → owes d' q) →
    (∀ q, fenced d' q → fenced (co_dispatch (en_coordinator e)) q) →
    engine_moves policy sel e (MkEngine (with_dispatch d' (en_coordinator e)) (en_resources e) (en_broken e) (en_closed e)
                                 (en_resources_closed e) (en_calls e))
| moves_load cel im st d identity m at_ clock sensor activities timeout commit resources e' :
    st_records st = history (co_instance (en_coordinator e)) →
    provider_ok d → (∀ q, fenced d q → fenced (co_dispatch (en_coordinator e)) q) →
    Engine_init cel (net (config (co_instance (en_coordinator e)))) identity st d false m at_ im sel clock sensor activities timeout
      commit resources = Ok e' →
    engine_moves policy sel e e'.

Definition engine_live (e : Eng) : Live := live (co_instance (en_coordinator e)).

Definition engine_accepted (e : Eng) (identity : string) : option Z := accepted_occurrence (engine_live e) identity.

Lemma moves_keep policy sel e e' : engine_inv e → engine_moves policy sel e e' →
  engine_inv e' ∧ identities_kept (engine_live e) (engine_live e').
Proof.
  intros Hi [call r e1 E|d' Hp Ho Hf|cel im st d identity m at_ clock sensor activities timeout commit resources e1 Hst Hp Hf E].
  - apply (call_has_effect anything) in E. destruct (effect_inv _ _ _ _ E Hi) as [Hi' Hst]. split; [done|].
    by apply (isteps_acceptances _ _ Hst), cinv_ok, Hi.
  - split; [by apply workers_inv|done].
  - destruct Hi as [Hc _].
    eapply (load_inv anything) in E as (Hi' & _ & Hr & _);
      [|apply Hc|done|done|intros q Hq%Hf; by apply (ci_fenced _ Hc)|by eauto using anything_met..].
    split; [done|]. unfold engine_live. destruct Hr. intros i r. simpl. done.
Qed.

(** An operation of the Instance, with what its answer says. *)
Lemma t_inst_answer {A} X R (m : M A) (Q : A → Instance → Prop) : door_op m → quiet m →
  (∀ s a s', instance_ok s → m s = (Ok a, s') → Q a s') → triple X R (inst m : CM' A) Q (λ _, X).
Proof.
  intros Hd Hq HQ c r c' E Hc Hr. destruct (t_inst anything X R m Hd Hq c r c' E Hc Hr) as (? & ? & Ha). split_and!; try done.
  intros a ->. split; [|exact (proj2 (Ha a eq_refl))]. unfold inst in E. destruct (m (co_instance c)) as [r0 s'] eqn:Em. injection E as -> <-.
  apply (HQ _ _ _ (cinv_ok _ Hc) Em).
Qed.

Lemma steady_accepted k o : steady (λ i, accepted_occurrence (live i) k = Some o).
Proof. intros s s' Hok Hst Ho. eapply kept_occurrence; [|exact Ho]. by apply (isteps_acceptances _ _ Hst). Qed.

(** The answer to [k] names the recorded occurrence. *)
Definition answered (k : string) (ans : DeliveryAnswer) (i : Instance) : Prop :=
  ∀ o, answer_occurrence ans = Some o → accepted_occurrence (live i) k = Some o.

Lemma t_accept_occurrence X R src ts k sc :
  triple X R (accept_identified src ts (Some k) sc : CM' DeliveryAnswer) (answered k) (λ _, X).
Proof.
  unfold accept_identified. tstep. apply (t_fact _ (Some k = Some a)); [by intros i [[= ->] _]|intros [= <-]]. do 2 tstep.
  eapply t_bind; [apply (t_inst_answer _ _ _ (answered k)); [by auto with doors|by auto with quiet|]|].
  { intros s ans s' Hok E o Ho. by eapply accept_delivery_occurrence. }
  intros ans. tstep. apply (t_bind _ _ _ _ (λ _, answered k ans) (λ _, X)).
  - case_match; [eapply t_conseq; [apply (t_ret _ _ (answered k ans))|by intros i []|by intros [] i []]|].
    eapply t_conseq; [apply t_committed|by intros i []|done].
  - intros []. eapply t_post; [|apply t_ret]. by intros ans' i [-> HR].
Qed.

(** Completing gives the occurrence it was accepted with. *)
Lemma t_complete_occurrence X R a :
  triple X R (complete_accepted a : CM' FiringOutcome) (λ f _, out_occurrence f = ad_occurrence a) (λ _, X).
Proof.
  unfold complete_accepted. tstep. rename a0 into b.
  apply (t_fact _ (ad_occurrence b = ad_occurrence a)).
  { intros i [E _]. unfold AcceptedDelivery_new in E. by inv_ok. }
  intros <-. unfold settle_delivery. tstep. apply t_try.
  - tstep. apply t_inst_answer; [by auto with doors|by auto with quiet|]. intros s f s' Hok E. by eapply complete_delivery_occurrence.
  - intros e. tstep. apply (t_bind _ _ _ _ (λ _ _, True) (λ _ _, True)); [case_match; repeat tstep|intros []; tstep].
Qed.

(** What a delivery returned is what is recorded. *)
Lemma t_deliver_occurrence X R src ts k :
  triple X R (deliver_door src ts (Some k) None : CM' Delivered)
    (λ x i, ∀ o, door_occurrence (door_answer x) = Some o → accepted_occurrence (live i) k = Some o) (λ _, X).
Proof.
  unfold deliver_door. eapply t_bind; [apply t_accept_occurrence|]. intros [a|id o|id d tgt]; simpl.
  - eapply t_bind; [eapply t_pre; [|apply (t_carry _ X (λ _, True) (λ i, accepted_occurrence (live i) k = Some (ad_occurrence a)));
      [apply steady_accepted|apply t_complete_occurrence]]; naive_solver|].
    intros f. tstep. eapply t_post; [|apply t_ret]. intros x i (-> & Hf & HR) o [= <-]. by rewrite Hf.
  - eapply t_post; [|apply t_ret]. intros x i [-> HR] o' [= <-]. by apply HR.
  - eapply t_post; [|apply t_ret]. by intros x i [-> _].
Qed.

Lemma deliver_keeps source tokens k e r e' : engine_inv e → deliver (D := D) (K := K) (AStr source) tokens (Some k) None e = (r, e') →
  engine_inv e' ∧ identities_kept (engine_live e) (engine_live e').
Proof.
  intros Hi E. assert (door_ok anything (deliver_door (AStr source) tokens (Some k) None : CM' Delivered)) as Hd
    by (eapply triple_door; [intros X; apply t_deliver|apply s_deliver]).
  destruct (effect_inv _ _ _ _ (guarded_effect _ _ _ _ _ Hd E) Hi) as [Hi' Hst]. split; [done|].
  by apply (isteps_acceptances _ _ Hst), cinv_ok, Hi.
Qed.

Lemma deliver_occurrence source tokens k e x e' o : engine_inv e →
  deliver (D := D) (K := K) (AStr source) tokens (Some k) None e = (Ok x, e') → door_occurrence (door_answer x) = Some o →
  engine_accepted e' k = Some o.
Proof.
  intros [Hc _] E Ho. unfold deliver, guarded in E. destruct (ensure_open e) as [[[]|] e0] eqn:E0; [|done].
  destruct (ensure_frame _ _ _ E0) as [(H1 & _) _]. rewrite H1 in E. destruct (deliver_door _ _ _ _ _) as [[y|] c1] eqn:Ed.
  - injection E as -> <-. unfold engine_accepted, engine_live. simpl.
    destruct (t_deliver_occurrence (λ _, True) (λ _, True) _ _ _ _ _ _ Ed Hc I) as (_ & _ & Ha). by apply (Ha x).
  - destruct (finally_ _ _ _) as [[]]; done.
Qed.

#[export] Program Instance engine_lawful (policy : DrivingPolicy) (sel : P) : LawfulDoor Eng := {|
  door_inv := engine_inv;
  door_moves := engine_moves policy sel;
  accepted_by := engine_accepted
|}.
Next Obligation.
  intros policy sel e e' Hi Hm. destruct (moves_keep _ _ _ _ Hi Hm) as [? Hk]. split; [done|]. intros i o. by apply kept_occurrence.
Qed.
Next Obligation.
  intros policy sel src ts i e r e' Hi. unfold door_deliver, engine_door. destruct (deliver _ _ _ _ e) as [r0 e1] eqn:E. intros [= <- <-].
  destruct (deliver_keeps _ _ _ _ _ _ Hi E) as [Hi' Hk]. split; [done|]. split; [intros j o; by apply kept_occurrence|].
  intros x o Hx Ho. destruct r0 as [y|]; [|done]. injection Hx as <-. pose proof (deliver_occurrence _ _ _ _ _ _ _ Hi E Ho) as Ha.
  split; [done|]. apply (ao_range _ (reachable_acceptances _ (ci_reachable _ (proj1 Hi'))) _ _ Ha).
Qed.
Next Obligation.
  intros policy sel e i j o Hi. apply (ao_distinct _ (reachable_acceptances _ (ci_reachable _ (proj1 Hi)))).
Qed.
End engine_door.

(** ** One delivery, one firing *)

Section once.
  Context {D K P : Type} `{HL : LawfulDispatch D} `{HK : Clock K} `{HP : SelectionPolicy P}.
  Context (sha256_text : string → string) (sha256_hex : Data → string) (json_size : Data → Z) (jsonb : Data → Data)
    (collate : string → string → bool).
  Context (policy : DrivingPolicy) (sel : P) (me : string).

#[local] Existing Instance engine_lawful.

#[local] Notation sys_step := (sys_step (H0 := engine_lawful policy sel) sha256_text sha256_hex json_size jsonb collate me).
#[local] Notation sys_started := (sys_started (H0 := engine_lawful policy sel) sha256_hex me).

Definition host_history (s : Sys (E := Engine D K)) : list HRecord := history (co_instance (en_coordinator (sys_door s))).

(** C6: a Fabric delivery is one source firing of the process it is
    addressed to. However the clients of the tables, the host's other calls,
    restarts from the history and any number of drains interleave, wherever
    each drain is interrupted: a delivery accepted by the process has exactly
    one disposition in its history, an external event with the occurrence of
    the receipt; two deliveries never share an occurrence; and a drain that has
    delivered an envelope can acknowledge it. *)
Theorem fabric_delivery_is_one_firing s s' : sys_started s → rtc sys_step s s' →
  (∀ k row o t, deliveries (sys_db s') !! k = Some row → row_recipient row = me → row_accepted row = Some (o, t) →
     ∃ source tokens scope i, filter (λ r, delivery_identity r = Some (ingress_identity k.1 k.2)) (host_history s')
       = [ExternalEventDelivered source tokens (ingress_identity k.1 k.2) o scope i]) ∧
  (∀ k k' row row' o t t', deliveries (sys_db s') !! k = Some row → row_recipient row = me → row_accepted row = Some (o, t) →
     deliveries (sys_db s') !! k' = Some row' → row_recipient row' = me → row_accepted row' = Some (o, t') → k = k') ∧
  (∀ env rest o c now row, MkDrain (env :: rest) (Some o) ∈ sys_drains s' →
     fc_instance c = me → auth c (sys_db s') = Ok tt →
     fabric_text_ok (env_sender env) = true → fabric_text_ok (env_delivery_id env) = true →
     deliveries (sys_db s') !! (env_sender env, env_delivery_id env) = Some row → row_recipient row = me →
     is_ok (acknowledge now c (env_sender env) (env_delivery_id env) o (sys_db s')) = true).
Proof.
  intros Hs Hr. pose proof (sys_reach_ok sha256_text sha256_hex json_size jsonb collate me s s' Hs Hr) as Hok.
  split_and!.
  - intros k row o t Hk Hme Ha. apply accepted_record; [|exact (so_rows _ _ _ Hok _ _ _ _ Hk Hme Ha)].
    apply reachable_sound, (ci_reachable _ (proj1 (so_door _ _ _ Hok))).
  - intros k k' row row' o t t' Hk Hme Ha Hk' Hme' Ha'.
    pose proof (accepted_distinct _ _ _ _ (so_door _ _ _ Hok) (so_rows _ _ _ Hok _ _ _ _ Hk Hme Ha)
      (so_rows _ _ _ Hok _ _ _ _ Hk' Hme' Ha')) as E. apply ingress_identity_inj in E as [? ?]. destruct k, k'. simpl in *. congruence.
  - intros env rest o c now row Hin Hc Hau H1 H2 Hk Hme.
    by destruct (acknowledge_delivered sha256_hex me s' env rest o c now row Hok Hin Hc Hau H1 H2 Hk Hme) as (r & db & ->).
Qed.
End once.

(** ** The demo net behind an inbox *)

Definition inbox_start : Sys (E := Engine InMemoryDispatch SimulatedClock) := MkSys toy_db (demo_engine_0 None) [].

Lemma inbox_started : sys_started (H0 := engine_lawful choose_conservative MkFirst) toy_digest "demo-1" inbox_start.
Proof.
  split; simpl; [apply toy_ok| | |done].
  - apply (hosted_inv choose_conservative MkFirst), demo_engine_hosted. vm_compute. reflexivity.
  - assert (map_Forall (λ _ row, row_accepted row = None) (deliveries toy_db)) as H
      by (apply (bool_decide_unpack _); vm_compute; reflexivity).
    intros k row Hk _. by eapply H.
Qed.

Lemma fabric_delivery_is_one_firing_witness :
  ∃ (s' : Sys (E := Engine InMemoryDispatch SimulatedClock)) source tokens scope i,
    filter (λ r, delivery_identity r = Some (ingress_identity "peer" "a")) (host_history s')
      = [ExternalEventDelivered source tokens (ingress_identity "peer" "a") 1 scope i].
Proof.
  destruct (drain toy_size (λ d, d) str_leb 12 (toy_client "demo-1") 100 toy_db (demo_engine_0 None)) as [r [db' e']] eqn:E.
  pose proof (drain_runs (H0 := engine_lawful choose_conservative MkFirst) toy_sha toy_digest toy_size (λ d, d) str_leb "demo-1"
    12 (toy_client "demo-1") 100 toy_db (demo_engine_0 None) [] r db' e' eq_refl E) as Hrun.
  assert (row_accepted <$> deliveries db' !! ("peer", "a") = Some (Some (1, 12)) ∧
          row_recipient <$> deliveries db' !! ("peer", "a") = Some "demo-1") as [Ha Hr].
  { change db' with (r, (db', e')).2.1. rewrite <-E. split; vm_compute; reflexivity. }
  destruct (deliveries db' !! ("peer", "a")) as [row|] eqn:Hk; [|discriminate Ha]. injection Ha as Ha. injection Hr as Hr.
  exists (MkSys db' e' []).
  exact (proj1 (fabric_delivery_is_one_firing toy_sha toy_digest toy_size (λ d, d) str_leb choose_conservative MkFirst "demo-1"
    inbox_start (MkSys db' e' []) inbox_started Hrun) ("peer", "a") row 1 12 Hk Hr Ha).
Defined.
