(* ===== verification/Processes.v ===== *)
(** * Processes that call and spawn each other (src/src/petrus/processes/)

    Call payloads and the envelopes that carry them (call.py), the values of
    the spawn protocol (model.py), the [process.spawn] Activity (spawn.py) and
    the registry of lineages in the shared tables (postgres.py). The hash
    functions are parameters; a provisioner is a class, since hosts supply it. *)

From stdpp Require Import base gmap sets list strings pretty.
From Stdlib Require Import Ascii ZArith Lia.
From S2P Require Import Prelude PyData Schema AgentText Activity Fabric.
Open Scope string_scope.
Open Scope list_scope.
Open Scope Z_scope.

(** ** Call payloads *)

Definition REQUEST_KIND : string := "process.call.request".
Definition RESULT_KIND : string := "process.call.result".
Definition ERROR_KIND : string := "process.call.error".

Record CallRequest := MkCallRequest { cq_call_id : string; cq_operation : string; cq_input : Data }.
Record CallResult := MkCallResult { cs_call_id : string; cs_result : Data }.
Record CallError := MkCallError { ce_call_id : string; ce_code : string; ce_message : string; ce_details : Data }.

(** [_exact] *)
Definition exact_payload (kind : string) (fields : list string) (x : Data) : result (dict string Data) :=
  d ← exact_object fields x;
  v ← item d "version"; k ← item d "kind";
  raise_if (negb (bool_decide (v = DInt 1)) || negb (bool_decide (k = DStr kind)))
    (ValueError "payload requires exact version-1 fields");;
  Ok d.

Definition CallRequest_new (call_id operation : string) (input : Data) : result CallRequest :=
  call_id ← fabric_text call_id; operation ← fabric_text operation;
  json_object input;;
  input ← json_copy input;
  Ok (MkCallRequest call_id operation (freeze_json input)).

Definition request_to_data (r : CallRequest) : Data :=
  DDict [("version", DInt 1); ("kind", DStr REQUEST_KIND); ("call_id", DStr (cq_call_id r));
         ("operation", DStr (cq_operation r)); ("input", thaw_json (cq_input r))].

Definition request_from_data (x : Data) : result CallRequest :=
  d ← exact_payload REQUEST_KIND ["version"; "kind"; "call_id"; "operation"; "input"] (thaw_json x);
  input ← item d "input"; input ← json_object input;
  id ← item d "call_id"; id ← d_fabric_text id; op ← item d "operation"; op ← d_fabric_text op;
  CallRequest_new id op (DDict input).

Definition CallResult_new (call_id : string) (value : Data) : result CallResult :=
  call_id ← fabric_text call_id; value ← json_copy value; Ok (MkCallResult call_id (freeze_json value)).

Definition result_to_data (r : CallResult) : Data :=
  DDict [("version", DInt 1); ("kind", DStr RESULT_KIND); ("call_id", DStr (cs_call_id r)); ("result", thaw_json (cs_result r))].

Definition result_from_data (x : Data) : result CallResult :=
  d ← exact_payload RESULT_KIND ["version"; "kind"; "call_id"; "result"] (thaw_json x);
  id ← item d "call_id"; id ← d_fabric_text id; value ← item d "result";
  CallResult_new id value.

Definition CallError_new (call_id code message : string) (details : Data) : result CallError :=
  call_id ← fabric_text call_id; code ← fabric_text code; message ← fabric_text message;
  details ← json_copy details;
  Ok (MkCallError call_id code message (freeze_json details)).

Definition error_to_data (e : CallError) : Data :=
  DDict [("version", DInt 1); ("kind", DStr ERROR_KIND); ("call_id", DStr (ce_call_id e)); ("code", DStr (ce_code e));
         ("message", DStr (ce_message e)); ("details", thaw_json (ce_details e))].

Definition error_from_data (x : Data) : result CallError :=
  d ← exact_payload ERROR_KIND ["version"; "kind"; "call_id"; "code"; "message"; "details"] (thaw_json x);
  id ← item d "call_id"; id ← d_fabric_text id; code ← item d "code"; code ← d_fabric_text code;
  message ← item d "message"; message ← d_fabric_text message; details ← item d "details";
  CallError_new id code message details.

(** A reply: [CallResult | CallError]. *)
Inductive CallReply := ReplyResult (r : CallResult) | ReplyError (e : CallError).

Definition reply_call_id (r : CallReply) : string :=
  match r with ReplyResult r => cs_call_id r | ReplyError e => ce_call_id e end.
Definition reply_to_data (r : CallReply) : Data :=
  match r with ReplyResult r => result_to_data r | ReplyError e => error_to_data e end.

(** [_required_reply_route] *)
Definition required_reply_route (request : Envelope) : result ReplyRoute :=
  or_raise (env_reply_route request) (ValueError "call request must carry a reply route").

(** [request_from_envelope] *)
Definition request_from_envelope (e : Envelope) : result CallRequest :=
  request ← request_from_data (env_payload e);
  raise_if (negb (String.eqb (cq_call_id request) (env_correlation e)))
    (ValueError "call request payload must match the envelope correlation");;
  route ← required_reply_route e;
  raise_if (negb (String.eqb (rr_instance route) (env_sender e))) (ValueError "call request must reply to its sender process");;
  Ok request.

(** [envelope.payload.get("kind")] *)
Definition payload_kind (e : Envelope) : option Data :=
  match env_payload e with DDict d => dget "kind" d | _ => None end.

(** [reply_from_envelope] *)
Definition reply_from_envelope (e request : Envelope) : result CallReply :=
  call ← request_from_envelope request;
  route ← required_reply_route request;
  reply ← (if bool_decide (payload_kind e = Some (DStr RESULT_KIND)) then r ← result_from_data (env_payload e); Ok (ReplyResult r)
           else if bool_decide (payload_kind e = Some (DStr ERROR_KIND)) then x ← error_from_data (env_payload e); Ok (ReplyError x)
           else Err (ValueError "call reply payload must be a process.call.result or process.call.error"));
  raise_if (negb (String.eqb (reply_call_id reply) (cq_call_id call)) || negb (String.eqb (env_correlation e) (cq_call_id call)))
    (ValueError "call reply payload and envelope must match the request correlation");;
  raise_if (negb (String.eqb (env_sender e) (env_recipient request)) || negb (String.eqb (env_recipient e) (env_sender request))
            || negb (String.eqb (env_source e) (rr_source route)))
    (ValueError "call reply must come from the request callee through the requested reply route");;
  raise_if (bool_decide (is_Some (env_reply_route e))) (ValueError "call reply must not carry another reply route");;
  Ok reply.

(** [n.to_bytes(4, "big")] *)
Definition byte (n : N) : ascii := ascii_of_N (n mod 256).
Definition be4 (n : N) : string :=
  String (byte (n / 16777216)) (String (byte (n / 65536)) (String (byte (n / 256)) (String (byte n) EmptyString))).

Section processes.
(** [hashlib.sha256(...).hexdigest()] of bytes, and of a canonical JSON text,
    alone and behind the child prefix; the size of a canonical JSON text. *)
Context (sha256_text : string → string) (sha256_hex child_hex : Data → string) (json_size : Data → Z).

(** [_delivery_id] and [_reply_delivery_id] *)
Definition request_delivery_id (call_id : string) : string := "process-call-v1-request-" +:+ sha256_text call_id.
Definition reply_preimage (caller call_id : string) : string := be4 (N.of_nat (String.length caller)) +:+ caller +:+ call_id.
Definition reply_delivery_id (caller call_id : string) : string := "process-call-v1-reply-" +:+ sha256_text (reply_preimage caller call_id).

(** [delivery_id or default] *)
Definition given_or (delivery_id : option string) (d : string) : string :=
  match delivery_id with Some s => if str_empty s then d else s | None => d end.

(** [request_envelope] *)
Definition request_envelope (request : CallRequest) (sender recipient source : string) (route : ReplyRoute)
    (delivery_id : option string) : result Envelope :=
  raise_if (negb (String.eqb (rr_instance route) sender)) (ValueError "call reply_route must belong to the sender process");;
  Envelope_new json_size (given_or delivery_id (request_delivery_id (cq_call_id request))) sender recipient source
    (cq_call_id request) (request_to_data request) (Some route).

(** [result_envelope] and [error_envelope] *)
Definition reply_envelope (reply : CallReply) (request : Envelope) (sender : string) (delivery_id : option string) : result Envelope :=
  call ← request_from_envelope request;
  route ← required_reply_route request;
  raise_if (negb (String.eqb (reply_call_id reply) (cq_call_id call)) || negb (String.eqb sender (env_recipient request)))
    (ValueError (match reply with
                 | ReplyResult _ => "call result must correlate to a request with a reply route"
                 | ReplyError _ => "call error must correlate to a request with a reply route"
                 end));;
  Envelope_new json_size (given_or delivery_id (reply_delivery_id (env_sender request) (reply_call_id reply))) sender
    (rr_instance route) (rr_source route) (reply_call_id reply) (reply_to_data reply) None.

(** ** Spawning *)

(** [child_identity] *)
Definition child_name (parent spawn_id : string) : string :=
  "process-v1-" +:+ child_hex (canonical_payload_text
    (DDict [("version", DInt 1); ("parent", DStr parent); ("spawn_id", DStr spawn_id)])).

Definition child_identity (parent spawn_id : string) : result string :=
  parent ← fabric_text parent; spawn_id ← fabric_text spawn_id; Ok (child_name parent spawn_id).

(** The checks the values that name a child share. *)
Definition child_checked (parent spawn_id child : string) (msg : string) : result unit :=
  fabric_text parent;; fabric_text spawn_id;; fabric_text child;;
  expected ← child_identity parent spawn_id;
  raise_if (negb (String.eqb child expected)) (ValueError msg).

(** [_mapping] *)
Definition mapping (x : Data) : result Data :=
  json_object x;;
  snapshot ← json_copy x;
  json_object snapshot;;
  Ok (freeze_json snapshot).

Record SpawnSpec := MkSpawnSpec {
  sp_parent : string;
  sp_spawn_id : string;
  sp_process_kind : string;
  sp_source : string;
  sp_capabilities : Data;
  sp_config : Data;
  sp_reply_route : option ReplyRoute
}.

Definition route_owned (route : option ReplyRoute) (owner : string) (msg : string) : result unit :=
  raise_if (match route with Some r => negb (String.eqb (rr_instance r) owner) | None => false end) (ValueError msg).

Definition SpawnSpec_new (parent spawn_id kind source : string) (capabilities config : Data) (route : option ReplyRoute)
  : result SpawnSpec :=
  parent ← fabric_text parent; spawn_id ← fabric_text spawn_id; kind ← fabric_text kind; source ← fabric_text source;
  capabilities ← mapping capabilities; config ← mapping config;
  route_owned route parent "spawn reply_route must belong to the parent process";;
  Ok (MkSpawnSpec parent spawn_id kind source capabilities config route).

(** [SpawnSpec.child] *)
Definition sp_child (s : SpawnSpec) : string := child_name (sp_parent s) (sp_spawn_id s).

Definition spec_to_data (s : SpawnSpec) : Data :=
  DDict [("version", DInt 1); ("parent", DStr (sp_parent s)); ("spawn_id", DStr (sp_spawn_id s));
         ("process_kind", DStr (sp_process_kind s)); ("source", DStr (sp_source s));
         ("capabilities", thaw_json (sp_capabilities s)); ("config", thaw_json (sp_config s));
         ("reply_route", e_opt route_to_data (sp_reply_route s))].

Definition spec_from_data (x : Data) : result SpawnSpec :=
  d ← exact_object ["version"; "parent"; "spawn_id"; "process_kind"; "source"; "capabilities"; "config"; "reply_route"] x;
  v ← item d "version"; d_version v;;
  route ← item d "reply_route";
  capabilities ← item d "capabilities"; capabilities ← json_object capabilities;
  config ← item d "config"; config ← json_object config;
  parent ← item d "parent"; parent ← d_fabric_text parent; spawn_id ← item d "spawn_id"; spawn_id ← d_fabric_text spawn_id;
  kind ← item d "process_kind"; kind ← d_fabric_text kind; source ← item d "source"; source ← d_fabric_text source;
  route ← d_opt route_from_data route;
  SpawnSpec_new parent spawn_id kind source (DDict capabilities) (DDict config) route.

(** [SpawnSpec.digest] *)
Definition spec_digest (s : SpawnSpec) : string := sha256_hex (canonical_payload_text (spec_to_data s)).

Record Provisioning := MkProvisioning {
  pv_parent : string;
  pv_spawn_id : string;
  pv_child : string;
  pv_process_kind : string;
  pv_endpoint : Endpoint;
  pv_config : Data;
  pv_reply_route : option ReplyRoute
}.

Definition Provisioning_new (parent spawn_id child kind : string) (endpoint : Endpoint) (config : Data)
    (route : option ReplyRoute) : result Provisioning :=
  fabric_text parent;; fabric_text spawn_id;; fabric_text child;; fabric_text kind;;
  child_checked parent spawn_id child "provisioning child must match its parent-scoped spawn identity";;
  raise_if (negb (String.eqb (ep_recipient endpoint) child)) (ValueError "provisioning endpoint recipient must be the child process");;
  config ← mapping (thaw_json config);
  route_owned route parent "provisioning reply_route must belong to the parent process";;
  Ok (MkProvisioning parent spawn_id child kind endpoint config route).

Record SpawnClaim := MkSpawnClaim { cm_parent : string; cm_spawn_id : string; cm_child : string; cm_prior_claim : bool }.

Definition SpawnClaim_new (parent spawn_id child : string) (prior : bool) : result SpawnClaim :=
  child_checked parent spawn_id child "spawn claim child must match its parent-scoped spawn identity";;
  Ok (MkSpawnClaim parent spawn_id child prior).

Record Lineage := MkLineage { ln_parent : string; ln_spawn_id : string; ln_child : string }.

Definition Lineage_new (parent spawn_id child : string) : result Lineage :=
  child_checked parent spawn_id child "lineage child must match its parent-scoped spawn identity";;
  Ok (MkLineage parent spawn_id child).

(** [SpawnClaim.lineage] *)
Definition claim_lineage (c : SpawnClaim) : result Lineage := Lineage_new (cm_parent c) (cm_spawn_id c) (cm_child c).

Record SpawnOutcome := MkSpawnOutcome {
  so_parent : string; so_spawn_id : string; so_child : string; so_endpoint : Endpoint; so_prior_claim : bool
}.

Definition SpawnOutcome_new (parent spawn_id child : string) (endpoint : Endpoint) (prior : bool) : result SpawnOutcome :=
  child_checked parent spawn_id child "spawn outcome child must match its parent-scoped spawn identity";;
  raise_if (negb (String.eqb (ep_recipient endpoint) child)) (ValueError "spawn outcome endpoint must address the child process");;
  Ok (MkSpawnOutcome parent spawn_id child endpoint prior).

Definition outcome_to_data (o : SpawnOutcome) : Data :=
  DDict [("version", DInt 1); ("parent", DStr (so_parent o)); ("spawn_id", DStr (so_spawn_id o)); ("child", DStr (so_child o));
         ("endpoint", endpoint_to_data (so_endpoint o)); ("prior_claim", DBool (so_prior_claim o))].

Definition outcome_from_data (x : Data) : result SpawnOutcome :=
  d ← exact_object ["version"; "parent"; "spawn_id"; "child"; "endpoint"; "prior_claim"] x;
  v ← item d "version"; d_version v;;
  prior ← item d "prior_claim";
  prior ← (match prior with DBool b => Ok b | _ => Err (TypeError "prior_claim must be bool") end);
  parent ← item d "parent"; parent ← d_fabric_text parent; spawn_id ← item d "spawn_id"; spawn_id ← d_fabric_text spawn_id;
  child ← item d "child"; child ← d_fabric_text child;
  endpoint ← item d "endpoint"; endpoint ← endpoint_from_data endpoint;
  SpawnOutcome_new parent spawn_id child endpoint prior.

(** ** The registry *)

(** A row of the spawns table: the child, unique, and the spec's digest. *)
Record LifecycleDB := MkLifecycleDB {
  lf_fabric : FabricDB;
  lf_spawns : gmap (string * string) (string * string)
}.

Definition set_spawns (t : gmap (string * string) (string * string)) (db : LifecycleDB) : LifecycleDB :=
  MkLifecycleDB (lf_fabric db) t.

(** A registry is bound to the process of its Fabric client. *)
Notation Registry := PostgresFabric.

(** [PostgresSpawnRegistry.__init__] *)
Definition registry_init (parent credential : string) : result Registry :=
  parent ← fabric_text parent; PostgresFabric_init sha256_text parent credential.

(** [PostgresSpawnRegistry._auth] *)
Definition lifecycle_auth (c : Registry) (db : LifecycleDB) : result unit :=
  match auth c (lf_fabric db) with
  | Ok _ => Ok tt
  | Err _ => Err (PermissionError "lifecycle authentication failed")
  end.

Definition child_taken (child : string) (db : LifecycleDB) : bool :=
  existsb (λ r : (string * string) * (string * string), String.eqb r.2.1 child) (map_to_list (lf_spawns db)).

(** The insert of [claim], its own transaction: whether it inserted. *)
Definition claim_insert (s : SpawnSpec) (db : LifecycleDB) : bool * LifecycleDB :=
  let key := (sp_parent s, sp_spawn_id s) in
  if bool_decide (is_Some (lf_spawns db !! key)) || child_taken (sp_child s) db then (false, db)
  else (true, set_spawns (<[key := (sp_child s, spec_digest s)]> (lf_spawns db)) db).

(** The read of [claim], of the tables as they are then. *)
Definition claim_read (s : SpawnSpec) (inserted : bool) (db : LifecycleDB) : result SpawnClaim :=
  match lf_spawns db !! (sp_parent s, sp_spawn_id s) with
  | Some row =>
      raise_if (negb (bool_decide (row = (sp_child s, spec_digest s)))) (ValueError "spawn identity conflict: content changed");;
      SpawnClaim_new (sp_parent s) (sp_spawn_id s) row.1 (negb inserted)
  | None => Err (ValueError "spawn identity conflict: content changed")
  end.

(** [PostgresSpawnRegistry.claim]; between the insert and the read the tables
    may change to what [between] makes of them. *)
Definition claim_spawn (c : Registry) (between : LifecycleDB → LifecycleDB) (s : SpawnSpec) (db : LifecycleDB)
  : result SpawnClaim * LifecycleDB :=
  if negb (String.eqb (sp_parent s) (fc_instance c)) then (Err (PermissionError "spawn parent must match the authenticated registry"), db)
  else match lifecycle_auth c db with
  | Err x => (Err x, db)
  | Ok _ =>
      let '(inserted, db) := claim_insert s db in
      let db := between db in
      (claim_read s inserted db, db)
  end.

(** [_auth_bound] *)
Definition auth_bound (c : Registry) (parent : string) (db : LifecycleDB) : result unit :=
  raise_if (negb (String.eqb parent (fc_instance c))) (PermissionError "lineage parent must match the authenticated registry");;
  lifecycle_auth c db.

(** [child_of] *)
Definition child_of (c : Registry) (parent spawn_id : string) (db : LifecycleDB) : result (option Lineage) :=
  parent ← fabric_text parent; spawn_id ← fabric_text spawn_id;
  auth_bound c parent db;;
  match lf_spawns db !! (parent, spawn_id) with
  | None => Ok None
  | Some row => l ← Lineage_new parent spawn_id row.1; Ok (Some l)
  end.

(** [children_of]; [collate] is the order of text columns. *)
Definition children_of (collate : string → string → bool) (c : Registry) (parent : string) (db : LifecycleDB) : result (list Lineage) :=
  parent ← fabric_text parent;
  auth_bound c parent db;;
  mapR (λ r : (string * string) * (string * string), Lineage_new parent r.1.2 r.2.1)
    (sorted_by (λ x y, collate x.1.2 y.1.2)
       (filter (λ r : (string * string) * (string * string), r.1.1 = parent) (map_to_list (lf_spawns db)))).

(** [parent_of] *)
Definition parent_of (c : Registry) (child : string) (db : LifecycleDB) : result (option Lineage) :=
  child ← fabric_text child;
  lifecycle_auth c db;;
  match List.find (λ r : (string * string) * (string * string), String.eqb r.2.1 child) (map_to_list (lf_spawns db)) with
  | None => Ok None
  | Some (key, _) =>
      raise_if (negb (String.eqb key.1 (fc_instance c))) (PermissionError "child does not belong to the authenticated parent");;
      l ← Lineage_new key.1 key.2 child; Ok (Some l)
  end.

(** ** The Activity *)

Definition SPAWN_ACTIVITY : string := "process.spawn".

(** [spawn_idempotency] *)
Definition spawn_idempotency (parent spawn_id : string) : result string :=
  child ← child_identity parent spawn_id; Ok ("process.spawn:" +:+ child).

(** The provisioning a claimed spec asks for. *)
Definition provisioning_of (s : SpawnSpec) (child : string) : result (Endpoint * Provisioning) :=
  capabilities ← json_object (thaw_json (sp_capabilities s));
  endpoint ← Endpoint_new child (sp_source s) (DDict capabilities);
  p ← Provisioning_new (sp_parent s) (sp_spawn_id s) child (sp_process_kind s) endpoint (sp_config s) (sp_reply_route s);
  Ok (endpoint, p).
End processes.

(** [ProcessProvisioner]: [ensure] returns a value only against its contract. *)
Class Provisioner (P : Type) := ensure : Provisioning → P → result (option Data) * P.

Section activity.
Context (sha256_hex child_hex : Data → string).
Context {P : Type} `{Provisioner P}.

(** The calls of [SpawnActivity.__call__] after its spec is decoded. *)
Definition spawn_run (c : PostgresFabric) (between : LifecycleDB → LifecycleDB) (s : SpawnSpec) (db : LifecycleDB) (p : P)
  : result Data * (LifecycleDB * P) :=
  match claim_spawn sha256_hex child_hex c between s db with
  | (Err x, db) => (Err x, (db, p))
  | (Ok claim, db) =>
      if negb (bool_decide ((cm_parent claim, cm_spawn_id claim, cm_child claim) = (sp_parent s, sp_spawn_id s, sp_child child_hex s)))
      then (Err (ValueError "spawn registry returned a claim for a different identity"), (db, p))
      else match provisioning_of child_hex s (cm_child claim) with
      | Err x => (Err x, (db, p))
      | Ok (endpoint, provisioning) =>
          match ensure provisioning p with
          | (Err x, p) => (Err x, (db, p))
          | (Ok (Some _), p) =>
              (Err (TypeError "process provisioner ensure must return None, never a live host or credential"), (db, p))
          | (Ok None, p) =>
              (o ← SpawnOutcome_new child_hex (sp_parent s) (sp_spawn_id s) (cm_child claim) endpoint (cm_prior_claim claim);
               Ok (outcome_to_data o), (db, p))
          end
      end
  end.

(** [SpawnActivity.__call__] *)
Definition spawn_activity (c : PostgresFabric) (between : LifecycleDB → LifecycleDB) (i : ActivityInvocation) (db : LifecycleDB) (p : P)
  : result Data * (LifecycleDB * P) :=
  if negb (String.eqb (inv_activity i) SPAWN_ACTIVITY)
  then (Err (ValueError "SpawnActivity only implements process.spawn"), (db, p))
  else match spec_from_data (inv_input i) with
  | Err x => (Err x, (db, p))
  | Ok s =>
      match spawn_idempotency child_hex (sp_parent s) (sp_spawn_id s) with
      | Err x => (Err x, (db, p))
      | Ok expected =>
          if negb (bool_decide (inv_idempotency i = Some expected))
          then (Err (ValueError "process.spawn idempotency must identify the parent and spawn_id"), (db, p))
          else spawn_run c between s db p
      end
  end.
End activity.
