(* ===== verification/ProcessTheorems.v ===== *)
(** * Calls find their callers, spawns happen once

    A reply envelope is taken only for the request it answers, and what was
    sent is what is read. A spawn claimed once is the same child for ever,
    however often its Activity is retried. *)

From stdpp Require Import base gmap sets list strings pretty.
From Stdlib Require Import Ascii ZArith Lia.
From S2P Require Import Prelude PyData Schema AgentText Activity Marking Fabric FabricTheorems Processes.
Open Scope string_scope.
Open Scope list_scope.
Open Scope Z_scope.

(** ** Freezing and thawing *)

Lemma thaw_freeze x : canonical_json_shape x = true → thaw_json (freeze_json x) = x.
Proof.
  induction x as [| | | | |l IH|l IH|d IH|] using Data_rect_nested; try done; simpl.
  - intros H. f_equal. induction IH as [|x l Hx _ IHl]; [done|]. simpl in *. apply andb_true_iff in H as [H1 H2].
    by rewrite Hx, IHl.
  - intros H. f_equal. induction IH as [|[k x] d Hx _ IHd]; [done|]. simpl in *. apply andb_true_iff in H as [H1 H2].
    by rewrite Hx, IHd.
Qed.

(** A field that [_text] admits is admitted again. *)
Lemma fabric_text_true s : fabric_text_ok s = true → fabric_text s = Ok s.
Proof. intros H. by apply fabric_text_Ok. Qed.

Lemma copied x : canonical_json_shape x = true → json_copy x = Ok x.
Proof. unfold json_copy. by intros ->. Qed.

Lemma json_copy_Ok x y : json_copy x = Ok y → y = x ∧ canonical_json_shape x = true.
Proof. unfold json_copy. destruct (canonical_json_shape x); simpl; naive_solver. Qed.

#[local] Arguments fabric_text : simpl never.
#[local] Arguments freeze_json : simpl never.
#[local] Arguments thaw_json : simpl never.

(** Read a constructed value: each check leaves its field and its fact. *)
Ltac constructed H :=
  repeat match type of H with
  | (fabric_text _ ≫= _) = Ok _ => let F := fresh "Htext" in apply bind_Ok in H as (? & [-> F]%fabric_text_Ok & H)
  | (json_copy _ ≫= _) = Ok _ => let F := fresh "Hjson" in apply bind_Ok in H as (? & [-> F]%json_copy_Ok & H)
  | (_ ≫= _) = Ok _ => let F := fresh "Hchk" in apply bind_Ok in H as (? & F & H)
  end; try (injection H as <-).

(** Read a field back. *)
Ltac refield :=
  repeat first
  [ progress csimpl
  | rewrite fabric_text_true by done
  | rewrite copied by done
  | rewrite String.eqb_refl
  | rewrite bool_decide_true by done ].

(** *** Payloads as an envelope carries them *)

(** The values their constructors make. *)
Definition wf_request (r : CallRequest) : Prop := ∃ id op x, CallRequest_new id op x = Ok r.
Definition wf_reply (r : CallReply) : Prop :=
  match r with
  | ReplyResult r => ∃ id v, CallResult_new id v = Ok r
  | ReplyError e => ∃ id code msg v, CallError_new id code msg v = Ok e
  end.

Lemma carried_request r : wf_request r → request_from_data (freeze_json (request_to_data r)) = Ok r.
Proof.
  intros (id & op & x & H). unfold CallRequest_new in H. constructed H. destruct x as [| | | | | | |d|]; try done.
  unfold request_from_data, request_to_data. cbn [cq_input cq_call_id cq_operation].
  rewrite (thaw_freeze (DDict d)) by done. rewrite thaw_freeze by (cbn [canonical_json_shape forallb snd] in *; by rewrite andb_true_r). unfold exact_payload. refield.
  unfold CallRequest_new. by refield.
Qed.

Lemma carried_result r : wf_reply (ReplyResult r) → result_from_data (freeze_json (result_to_data r)) = Ok r.
Proof.
  intros (id & v & H). unfold CallResult_new in H. constructed H. unfold result_from_data, result_to_data. cbn [cs_call_id cs_result].
  rewrite (thaw_freeze v) by done. rewrite thaw_freeze by (cbn [canonical_json_shape forallb snd] in *; by rewrite andb_true_r). unfold exact_payload. refield.
  unfold CallResult_new. by refield.
Qed.

Lemma carried_error e : wf_reply (ReplyError e) → error_from_data (freeze_json (error_to_data e)) = Ok e.
Proof.
  intros (id & code & msg & v & H). unfold CallError_new in H. constructed H. unfold error_from_data, error_to_data.
  cbn [ce_call_id ce_code ce_message ce_details].
  rewrite (thaw_freeze v) by done. rewrite thaw_freeze by (cbn [canonical_json_shape forallb snd] in *; by rewrite andb_true_r). unfold exact_payload. refield.
  unfold CallError_new. by refield.
Qed.

(** ** Replies are bound to their requests *)

(** What an envelope's constructor makes. *)
Lemma Envelope_new_Ok size id sender recipient source correlation payload route e :
  Envelope_new size id sender recipient source correlation payload route = Ok e →
  e = MkEnvelope id sender recipient source correlation (freeze_json payload) route ∧ fabric_text_ok sender = true.
Proof. unfold Envelope_new. intros H. by constructed H. Qed.

Lemma byte_inj n m : byte n = byte m → (n mod 256 = m mod 256)%N.
Proof.
  unfold byte. intros H%(f_equal N_of_ascii). by rewrite !N_ascii_embedding in H by (apply N.mod_lt; lia).
Qed.

Lemma be4_inj n m : (n < 65536)%N → (m < 65536)%N → be4 n = be4 m → n = m.
Proof.
  intros Hn Hm H. unfold be4 in H. assert (byte (n / 256) = byte (m / 256) ∧ byte n = byte m) as [H1%byte_inj H0%byte_inj] by (split; congruence).
  rewrite !(N.mod_small (_ / 256)) in H1 by (apply N.Div0.div_lt_upper_bound; lia).
  pose proof (N.div_mod' n 256). pose proof (N.div_mod' m 256). lia.
Qed.

Lemma str_split_length s t u v : String.length s = String.length t → s +:+ u = t +:+ v → s = t ∧ u = v.
Proof.
  revert t. induction s as [|a s IH]; intros [|b t] Hl H; simpl in *; try done. injection H as -> H. injection Hl as Hl.
  destruct (IH t Hl H) as [-> ->]. done.
Qed.

(** The bytes hashed for a reply name its caller and call. *)
Lemma reply_preimage_inj caller call caller' call' : fabric_text_ok caller = true → fabric_text_ok caller' = true →
  reply_preimage caller call = reply_preimage caller' call' → caller = caller' ∧ call = call'.
Proof.
  assert (∀ s, fabric_text_ok s = true → (N.of_nat (String.length s) < 65536)%N) as Hlen.
  { intros s H. unfold fabric_text_ok in H. apply negb_true_iff, orb_false_iff in H as [_ H%Nat.ltb_ge]. unfold MAX_FABRIC_TEXT in H. lia. }
  unfold reply_preimage. intros H H' E. apply (str_split_length (be4 _) (be4 _)) in E as [Eb E]; [|done].
  apply be4_inj in Eb; [|by apply Hlen..]. apply str_split_length; [lia|done].
Qed.

Section calls.
Context (sha256_text : string → string) (json_size : Data → Z).
#[local] Notation request_envelope := (request_envelope sha256_text json_size).
#[local] Notation reply_envelope := (reply_envelope sha256_text json_size).

Lemma request_carried r sender recipient source route did q : wf_request r →
  request_envelope r sender recipient source route did = Ok q →
  request_from_envelope q = Ok r ∧ env_sender q = sender ∧ env_recipient q = recipient ∧ env_correlation q = cq_call_id r ∧
  env_reply_route q = Some route ∧ rr_instance route = sender ∧ fabric_text_ok sender = true.
Proof.
  intros Hr H. unfold Processes.request_envelope in H. inv_ok.
  match goal with H : negb (String.eqb _ _) = false |- _ => apply negb_false_iff, String.eqb_eq in H; rename H into Hown end.
  apply Envelope_new_Ok in H as [-> Ht]. simpl. split_and!; try done. unfold request_from_envelope. simpl.
  rewrite (carried_request r Hr). simpl. rewrite String.eqb_refl. simpl. by rewrite Hown, String.eqb_refl.
Qed.

(** What a reply that is taken has to be. *)
Lemma reply_bound e q reply : reply_from_envelope e q = Ok reply →
  ∃ r route, request_from_envelope q = Ok r ∧ env_reply_route q = Some route ∧ reply_call_id reply = cq_call_id r ∧
    env_correlation q = cq_call_id r ∧ env_correlation e = cq_call_id r ∧ env_sender e = env_recipient q ∧
    env_recipient e = env_sender q ∧ env_source e = rr_source route.
Proof.
  unfold reply_from_envelope. intros H. apply bind_Ok in H as (r & Hr & H). apply bind_Ok in H as (route & Hroute & H).
  apply bind_Ok in H as (reply' & _ & H). inv_ok. exists r, route. unfold required_reply_route in Hroute. apply or_raise_Ok in Hroute.
  repeat match goal with H : _ || _ = false |- _ => apply orb_false_iff in H as [? ?]
    | H : negb (String.eqb _ _) = false |- _ => apply negb_false_iff, String.eqb_eq in H end.
  split_and!; try done. unfold request_from_envelope in Hr. inv_ok.
  by match goal with H : negb (String.eqb (cq_call_id _) _) = false |- _ => apply negb_false_iff, String.eqb_eq in H end.
Qed.

(** What [reply_from_envelope] decodes does not depend on the request. *)
Lemma reply_decoded e q q' reply reply' : reply_from_envelope e q = Ok reply → reply_from_envelope e q' = Ok reply' → reply = reply'.
Proof.
  unfold reply_from_envelope. intros H H'. apply bind_Ok in H as (r & _ & H), H' as (r' & _ & H').
  apply bind_Ok in H as (route & _ & H), H' as (route' & _ & H'). apply bind_Ok in H as (x & Hx & H), H' as (x' & Hx' & H').
  rewrite Hx in Hx'. injection Hx' as <-. inv_ok. congruence.
Qed.

(** A reply built for a request is taken for it. *)
Lemma reply_carried r q route reply who did e : request_from_envelope q = Ok r → env_reply_route q = Some route →
  rr_instance route = env_sender q → wf_reply reply → reply_envelope reply q who did = Ok e →
  who = env_recipient q ∧ reply_from_envelope e q = Ok reply.
Proof.
  intros Hr Hroute Hown Hw H. unfold Processes.reply_envelope, required_reply_route in H. rewrite Hr, Hroute in H. simpl in H. inv_ok.
  match goal with H : _ || _ = false |- _ => apply orb_false_iff in H as [Hid Hwho] end.
  apply negb_false_iff, String.eqb_eq in Hid, Hwho. subst who. split; [done|]. apply Envelope_new_Ok in H as [-> _].
  unfold reply_from_envelope, required_reply_route. rewrite Hr, Hroute. cbn [mbind result_bind or_raise]. unfold payload_kind. cbn [env_payload].
  assert ((if bool_decide (match freeze_json (reply_to_data reply) with DDict d => dget "kind" d | _ => None end = Some (DStr RESULT_KIND))
           then x ← result_from_data (freeze_json (reply_to_data reply)); Ok (ReplyResult x)
           else if bool_decide (match freeze_json (reply_to_data reply) with DDict d => dget "kind" d | _ => None end = Some (DStr ERROR_KIND))
           then x ← error_from_data (freeze_json (reply_to_data reply)); Ok (ReplyError x)
           else Err (ValueError "call reply payload must be a process.call.result or process.call.error")) = Ok reply) as ->.
  { destruct reply as [x|x]; simpl reply_to_data.
    - rewrite bool_decide_true by done. by rewrite carried_result.
    - rewrite bool_decide_false by done. rewrite bool_decide_true by done. by rewrite carried_error. }
  cbn [mbind result_bind]. simpl. rewrite Hid, !String.eqb_refl. simpl. by rewrite Hown, String.eqb_refl.
Qed.

(** C28: a call and its reply find each other. A request envelope reads
    back as the request it was built from; a reply built by the callee for it is
    addressed to the caller's reply route and is taken as that reply; and an
    envelope that is taken as a reply comes from the callee, through that
    route, for that call, so that it is the reply to no other call. *)
Theorem call_and_reply_correspond r sender recipient source route did q : wf_request r →
  request_envelope r sender recipient source route did = Ok q →
  request_from_envelope q = Ok r ∧
  (∀ reply who did' e, wf_reply reply → reply_envelope reply q who did' = Ok e →
     who = recipient ∧ reply_from_envelope e q = Ok reply) ∧
  (∀ e reply, reply_from_envelope e q = Ok reply →
     env_sender e = recipient ∧ env_recipient e = sender ∧ env_source e = rr_source route ∧ env_correlation e = cq_call_id r ∧
     reply_call_id reply = cq_call_id r ∧
     ∀ q' reply', reply_from_envelope e q' = Ok reply' →
       env_sender q' = sender ∧ env_recipient q' = recipient ∧ env_correlation q' = cq_call_id r ∧ reply' = reply).
Proof.
  intros Hw H. destruct (request_carried _ _ _ _ _ _ _ Hw H) as (Hr & Hs & Hrc & Hc & Hroute & Hown & _). split; [done|]. split.
  - intros reply who did' e Hwr He. rewrite <-Hrc. eapply reply_carried; [done|done|by rewrite Hs|done|done].
  - intros e reply He. destruct (reply_bound _ _ _ He) as (r0 & route0 & Hr0 & Hroute0 & Hid & Hcq & Hce & Hse & Hre & Hso).
    assert (r0 = r) as -> by congruence. assert (route0 = route) as -> by congruence. split_and!; try congruence.
    intros q' reply' He'. destruct (reply_bound _ _ _ He') as (r' & route' & _ & _ & _ & Hcq' & Hce' & Hse' & Hre' & _).
    split_and!; try congruence. by eapply reply_decoded.
Qed.
End calls.

(** ** Spawns *)

Section spawns.
Context (sha256_hex child_hex : Data → string).
(** A hex digest has 64 characters. *)
Hypothesis hex_length : ∀ d, String.length (child_hex d) = 64%nat.
Context {P : Type} `{Provisioner P}.

#[local] Notation sp_child := (sp_child child_hex).
#[local] Notation spec_digest := (spec_digest sha256_hex).
#[local] Notation child_name := (child_name child_hex).
#[local] Notation spawn_run := (spawn_run sha256_hex child_hex).
#[local] Notation claim_insert := (claim_insert sha256_hex child_hex).
#[local] Notation provisioning_of := (provisioning_of child_hex).

Definition sp_key (s : SpawnSpec) : string * string := (sp_parent s, sp_spawn_id s).

(** Every row names the child of its key, and no two rows one child. *)
Record spawns_ok (db : LifecycleDB) : Prop := {
  sk_child k row : lf_spawns db !! k = Some row → row.1 = child_name k.1 k.2;
  sk_unique k k' row row' : lf_spawns db !! k = Some row → lf_spawns db !! k' = Some row' → row.1 = row'.1 → k = k'
}.

(** Rows are never changed. *)
Definition spawns_later (db db' : LifecycleDB) : Prop := ∀ k row, lf_spawns db !! k = Some row → lf_spawns db' !! k = Some row.

Lemma spawns_later_refl db : spawns_later db db.
Proof. by intros k row. Qed.

Lemma spawns_later_trans db1 db2 db3 : spawns_later db1 db2 → spawns_later db2 db3 → spawns_later db1 db3.
Proof. intros H1 H2 k row Hk. by apply H2, H1. Qed.

(** What other transactions may do meanwhile. *)
Definition meanwhile (between : LifecycleDB → LifecycleDB) : Prop :=
  ∀ db, spawns_ok db → spawns_ok (between db) ∧ spawns_later db (between db).

(** A spec its constructor made. *)
Definition wf_spec (s : SpawnSpec) : Prop :=
  ∃ parent id kind source caps config route, SpawnSpec_new parent id kind source caps config route = Ok s.

Lemma child_name_text parent id : fabric_text_ok (child_name parent id) = true.
Proof.
  assert (String.length (child_name parent id) = 75)%nat as Hl.
  { unfold Processes.child_name. match goal with |- context [child_hex ?d] => change (11 + String.length (child_hex d) = 75)%nat end.
    by rewrite hex_length. }
  unfold fabric_text_ok. rewrite Hl. done.
Qed.

Lemma child_checked_Ok parent id msg : fabric_text_ok parent = true → fabric_text_ok id = true →
  child_checked child_hex parent id (child_name parent id) msg = Ok tt.
Proof.
  intros Hp Hi. unfold child_checked, child_identity. refield. rewrite (fabric_text_true (child_name parent id)) by apply child_name_text.
  refield. done.
Qed.

Lemma child_taken_spec child db : child_taken child db = true ↔ ∃ k row, lf_spawns db !! k = Some row ∧ row.1 = child.
Proof.
  unfold child_taken. rewrite existsb_exists. split.
  - intros ([k row] & Hin & E%String.eqb_eq). exists k, row. split; [|done]. by apply elem_of_map_to_list, list_elem_of_In.
  - intros (k & row & Hk & E). exists (k, row). split; [by apply list_elem_of_In, elem_of_map_to_list|by apply String.eqb_eq].
Qed.

Lemma claim_insert_sound s db ins db' : spawns_ok db → claim_insert s db = (ins, db') →
  spawns_ok db' ∧ spawns_later db db' ∧ lf_fabric db' = lf_fabric db ∧
  (ins = true → lf_spawns db !! sp_key s = None ∧ lf_spawns db' !! sp_key s = Some (sp_child s, spec_digest s)) ∧
  (ins = false → db' = db ∧ (lf_spawns db !! sp_key s = None → child_taken (sp_child s) db = true)).
Proof.
  intros Hok. pose proof Hok as [Hc Hu]. unfold Processes.claim_insert. case_bool_decide as Hk; simpl.
  { intros [= <- <-]. split_and!; try done; [apply spawns_later_refl|]. intros _. split; [done|]. intros Hn. unfold sp_key in Hn. rewrite Hn in Hk. by destruct Hk. }
  destruct (child_taken _ _) eqn:Ht; intros [= <- <-]; [split_and!; try done; apply spawns_later_refl|].
  assert (∀ k row, lf_spawns db !! k = Some row → row.1 ≠ sp_child s) as Hfree.
  { intros k row Hr E. assert (child_taken (sp_child s) db = true) as Hx by (apply child_taken_spec; eauto). congruence. }
  rewrite <-eq_None_not_Some in Hk. split_and!; try done.
  - split; simpl.
    + intros k row. rewrite lookup_insert_Some. intros [[<- <-]|[_ Hr]]; [done|by apply Hc].
    + intros k k' row row'. rewrite !lookup_insert_Some.
      intros [[<- <-]|[_ Hr]] [[<- <-]|[_ Hr']] E; simpl in *; try done; [symmetry in E|..]; try (by exfalso; eapply Hfree). by eapply Hu.
  - intros k row Hr. simpl. rewrite lookup_insert_ne; [done|]. intros <-. unfold sp_key in *. congruence.
  - intros _. split; [done|]. apply lookup_insert_eq.
Qed.

(** The provisioning of a constructed spec always is one. *)
Lemma provisioning_total s : wf_spec s → ∃ endpoint p, provisioning_of s (sp_child s) = Ok (endpoint, p) ∧
  ep_recipient endpoint = sp_child s ∧ pv_child p = sp_child s ∧ fabric_text_ok (sp_parent s) = true ∧ fabric_text_ok (sp_spawn_id s) = true.
Proof.
  intros (parent & id & kind & source & caps & config & route & H'). unfold SpawnSpec_new in H'. constructed H'.
  unfold mapping in *. repeat match goal with H : (json_object _ ≫= _) = Ok _ |- _ => constructed H end.
  destruct caps as [| | | | | | |caps|]; try done. destruct config as [| | | | | | |config|]; try done.
  unfold Processes.provisioning_of, Processes.sp_child. cbn [sp_capabilities sp_config sp_parent sp_spawn_id sp_source sp_process_kind sp_reply_route].
  rewrite (thaw_freeze (DDict caps)) by done. cbn [json_object mbind result_bind].
  unfold Endpoint_new. rewrite (fabric_text_true (child_name parent id)) by apply child_name_text. refield.
  unfold Provisioning_new. rewrite (fabric_text_true (child_name parent id)) by apply child_name_text. refield.
  rewrite child_checked_Ok by done. refield. rewrite (thaw_freeze (DDict config)) by done. unfold mapping. refield.
  match goal with H : route_owned _ _ _ = Ok _ |- _ => unfold route_owned in *; apply raise_if_Ok in H as -> end. refield. eauto 10.
Qed.

Definition spawned (s : SpawnSpec) (endpoint : Endpoint) (prior : bool) : Data :=
  outcome_to_data (MkSpawnOutcome (sp_parent s) (sp_spawn_id s) (sp_child s) endpoint prior).

(** The run of a spec whose claim stands, and of one whose claim does not. *)
Lemma spawn_run_claimed c b s db p endpoint prov ins db1 : wf_spec s → fc_instance c = sp_parent s → auth c (lf_fabric db) = Ok tt →
  provisioning_of s (sp_child s) = Ok (endpoint, prov) → claim_insert s db = (ins, db1) →
  lf_spawns (b db1) !! sp_key s = Some (sp_child s, spec_digest s) →
  spawn_run c b s db p =
    match ensure prov p with
    | (Err x, p') => (Err x, (b db1, p'))
    | (Ok (Some _), p') => (Err (TypeError "process provisioner ensure must return None, never a live host or credential"), (b db1, p'))
    | (Ok None, p') => (Ok (spawned s endpoint (negb ins)), (b db1, p'))
    end.
Proof.
  intros Hw Hc Ha Hp Hi Hrow. destruct (provisioning_total s Hw) as (ep & pv & Hp' & He & _ & Ht1 & Ht2).
  rewrite Hp in Hp'. injection Hp' as <- <-.
  unfold Processes.spawn_run, claim_spawn, lifecycle_auth, claim_read. rewrite Hc, String.eqb_refl, Ha, Hi. simpl.
  unfold sp_key in Hrow. rewrite Hrow, bool_decide_true by done. simpl. unfold SpawnClaim_new.
  rewrite (child_checked_Ok (sp_parent s) (sp_spawn_id s)) by done. simpl. rewrite bool_decide_true by done. simpl. rewrite Hp.
  destruct (ensure prov p) as [[[v|]|x] p']; try done. f_equal. unfold SpawnOutcome_new.
  rewrite (child_checked_Ok (sp_parent s) (sp_spawn_id s)) by done. simpl. by rewrite He, String.eqb_refl.
Qed.

Lemma spawn_run_refused c b s db p ins db1 : claim_insert s db = (ins, db1) →
  lf_spawns (b db1) !! sp_key s ≠ Some (sp_child s, spec_digest s) →
  ∃ x db', spawn_run c b s db p = (Err x, (db', p)) ∧ (db' = db ∨ db' = b db1).
Proof.
  intros Hi Hrow. unfold Processes.spawn_run, claim_spawn. destruct (negb (String.eqb _ _)); [eauto 6|].
  destruct (lifecycle_auth c db); [|eauto 6]. rewrite Hi. unfold claim_read. unfold sp_key in *.
  destruct (lf_spawns (b db1) !! _) as [row|]; [|eauto 6]. rewrite bool_decide_false by congruence. simpl. eauto 6.
Qed.

(** A run that got past its claim was authenticated for its parent. *)
Lemma spawn_run_cases c b s db p r db' p' ins db1 : wf_spec s → claim_insert s db = (ins, db1) →
  spawn_run c b s db p = (r, (db', p')) →
  (fc_instance c = sp_parent s ∧ auth c (lf_fabric db) = Ok tt ∧ lf_spawns (b db1) !! sp_key s = Some (sp_child s, spec_digest s) ∧ db' = b db1)
  ∨ is_ok r = false ∧ p' = p ∧ (db' = db ∨ db' = b db1).
Proof.
  intros Hw Hi E. destruct (decide (lf_spawns (b db1) !! sp_key s = Some (sp_child s, spec_digest s))) as [Hrow|Hrow].
  - destruct (decide (fc_instance c = sp_parent s)) as [Hc|Hc].
    + destruct (auth c (lf_fabric db)) as [[]|x] eqn:Ha.
      * destruct (provisioning_total s Hw) as (ep & pv & Hp & _).
        rewrite (spawn_run_claimed c b s db p ep pv ins db1 Hw Hc Ha Hp Hi Hrow) in E. left. split_and!; try done.
        destruct (ensure pv p) as [[[v|]|x] p1]; by injection E as <- <- <-.
      * right. unfold Processes.spawn_run, claim_spawn, lifecycle_auth in E. rewrite Hc, String.eqb_refl, Ha in E. simpl in E.
        injection E as <- <- <-. auto.
    + right. unfold Processes.spawn_run, claim_spawn in E. rewrite (proj2 (String.eqb_neq _ _)) in E by congruence. simpl in E.
      injection E as <- <- <-. auto.
  - right. destruct (spawn_run_refused c b s db p ins db1 Hi Hrow) as (x & db2 & Hrun & Hdb). rewrite Hrun in E. by injection E as <- <- <-.
Qed.

(** C22: a spawn happens once. Whatever other claims come in between, a run
    of the Activity that returns has claimed the child of its parent-scoped
    identity, had its host provisioned, and says truly whether the identity was
    claimed before; once the identity is claimed, by a run that returned or one
    that was cut short, every later run of the same spec asks for the same
    provisioning and returns the same child and endpoint as a prior claim; a
    spec with other content under that identity is refused before anything is
    provisioned; and no two identities have one child. *)
Theorem spawn_happens_once s c b db p r db' p' : wf_spec s → spawns_ok db → meanwhile b → spawn_run c b s db p = (r, (db', p')) →
  spawns_ok db' ∧ spawns_later db db' ∧
  ∃ endpoint prov, provisioning_of s (sp_child s) = Ok (endpoint, prov) ∧
  (∀ out, r = Ok out → lf_spawns db' !! sp_key s = Some (sp_child s, spec_digest s) ∧ ensure prov p = (Ok None, p') ∧
     out = spawned s endpoint (bool_decide (is_Some (lf_spawns db !! sp_key s)))) ∧
  (lf_spawns db' !! sp_key s = Some (sp_child s, spec_digest s) → ∀ db2, spawns_ok db2 → spawns_later db' db2 →
     (∀ c2 b2 p2 p3, fc_instance c2 = sp_parent s → auth c2 (lf_fabric db2) = Ok tt → meanwhile b2 → ensure prov p2 = (Ok None, p3) →
        spawn_run c2 b2 s db2 p2 = (Ok (spawned s endpoint true), (b2 db2, p3))) ∧
     (∀ s2 c2 b2 p2, sp_key s2 = sp_key s → spec_digest s2 ≠ spec_digest s → meanwhile b2 →
        ∃ x db3, spawn_run c2 b2 s2 db2 p2 = (Err x, (db3, p2)))).
Proof.
  intros Hw Hok Hb E. destruct (claim_insert s db) as [ins db1] eqn:Hi.
  destruct (claim_insert_sound _ _ _ _ Hok Hi) as (Hok1 & Hl1 & _ & Hin & Hnin). destruct (Hb db1 Hok1) as [Hok2 Hl2].
  pose proof (spawns_later_trans _ _ _ Hl1 Hl2) as Hl.
  pose proof (spawn_run_cases _ _ _ _ _ _ _ _ _ _ Hw Hi E) as Hcases.
  destruct (provisioning_total s Hw) as (endpoint & prov & Hp & _).
  split; [destruct Hcases as [(_ & _ & _ & ->)|(_ & _ & [->| ->])]; done|].
  split; [destruct Hcases as [(_ & _ & _ & ->)|(_ & _ & [->| ->])]; [done|apply spawns_later_refl|done]|].
  exists endpoint, prov. split; [done|]. split.
  - intros out ->. destruct Hcases as [(Hc & Ha & Hrow & ->)|[? _]]; [|done]. split; [done|].
    rewrite (spawn_run_claimed c b s db p endpoint prov ins db1 Hw Hc Ha Hp Hi Hrow) in E.
    destruct (ensure prov p) as [[[v|]|x] p1]; try done. injection E as <- <-. split; [done|]. f_equal. destruct ins.
    + destruct (Hin eq_refl) as [-> _]. done.
    + destruct (Hnin eq_refl) as [-> Hfree]. destruct (lf_spawns db !! sp_key s) as [row|] eqn:Hkey; [done|]. exfalso.
      pose proof (Hfree eq_refl) as Ht. apply child_taken_spec in Ht as (k & row & Hk & Hch).
      assert (k = sp_key s) as ->; [|congruence]. by eapply (sk_unique _ Hok2); [apply Hl2, Hk|exact Hrow|].
  - intros Hrow db2 Hok3 Hl3. apply Hl3 in Hrow. split.
    + intros c2 b2 p2 p3 Hc2 Ha2 Hb2 He. destruct (claim_insert s db2) as [ins2 db3] eqn:Hi2.
      destruct (claim_insert_sound _ _ _ _ Hok3 Hi2) as (Hok4 & Hl4 & _ & Hin2 & Hnin2).
      assert (ins2 = false) as ->. { destruct ins2; [|done]. destruct (Hin2 eq_refl) as [Hn _]. congruence. }
      destruct (Hnin2 eq_refl) as [-> _].
      rewrite (spawn_run_claimed c2 b2 s db2 p2 endpoint prov false db2 Hw Hc2 Ha2 Hp Hi2); [by rewrite He|]. by apply (Hb2 db2 Hok3).
    + intros s2 c2 b2 p2 Hkey Hdig Hb2. destruct (claim_insert s2 db2) as [ins2 db3] eqn:Hi2.
      destruct (claim_insert_sound _ _ _ _ Hok3 Hi2) as (Hok4 & Hl4 & _). destruct (Hb2 db3 Hok4) as [_ Hl5].
      destruct (spawn_run_refused c2 b2 s2 db2 p2 ins2 db3 Hi2) as (x & db4 & Hrun & _); [|eauto].
      rewrite Hkey. apply Hl4, Hl5 in Hrow. rewrite Hrow. congruence.
Qed.
End spawns.

(** ** A caller, a callee and a child *)

Definition toy_route : ReplyRoute := MkReplyRoute "peer" "replies".
Definition toy_request : CallRequest := MkCallRequest "call-1" "add" (freeze_json (DDict [("terms", DList [DInt 1; DInt 2])])).
Definition toy_reply : CallReply := ReplyResult (MkCallResult "call-1" (freeze_json (DList [DInt 3]))).
Definition toy_call : result Envelope :=
  request_envelope toy_sha toy_size toy_request "peer" "demo-1" "feed" toy_route None.

Lemma call_and_reply_correspond_witness :
  ∃ q e, toy_call = Ok q ∧ reply_envelope toy_sha toy_size toy_reply q "demo-1" None = Ok e ∧
    request_from_envelope q = Ok toy_request ∧ reply_from_envelope e q = Ok toy_reply.
Proof.
  assert (wf_request toy_request) as Hr by (exists "call-1", "add", (DDict [("terms", DList [DInt 1; DInt 2])]); reflexivity).
  assert (wf_reply toy_reply) as Hw by (exists "call-1", (DList [DInt 3]); reflexivity).
  destruct toy_call as [q|] eqn:Eq; [|exfalso; assert (is_ok toy_call = true) as H by (vm_compute; reflexivity); rewrite Eq in H; discriminate H].
  destruct (reply_envelope toy_sha toy_size toy_reply q "demo-1" None) as [e|] eqn:Ee.
  - exists q, e. split; [reflexivity|]. split; [exact Ee|].
    destruct (call_and_reply_correspond toy_sha toy_size toy_request "peer" "demo-1" "feed" toy_route None q Hr Eq) as (H1 & H2 & _).
    split; [exact H1|]. exact (proj2 (H2 toy_reply "demo-1" None e Hw Ee)).
  - exfalso. assert (is_ok (x ← toy_call; reply_envelope toy_sha toy_size toy_reply x "demo-1" None) = true) as H by (vm_compute; reflexivity).
    rewrite Eq in H. simpl in H. rewrite Ee in H. discriminate H.
Defined.

(** A host that keeps the children it was asked to provision. *)
#[local] Instance toy_provisioner : Provisioner (list string) := λ v p, (Ok None, pv_child v :: p).

Definition toy_hex (d : Data) : string := "0123456789abcdef0123456789abcdef0123456789abcdef0123456789abcdef".
Definition toy_spec : SpawnSpec :=
  MkSpawnSpec "peer" "job-1" "worker" "feed" (freeze_json (DDict [])) (freeze_json (DDict [("n", DInt 1)])) (Some toy_route).
Definition toy_lifecycle : LifecycleDB := MkLifecycleDB toy_db ∅.

Lemma spawn_happens_once_witness :
  ∃ endpoint, let again := spawn_run toy_digest toy_hex (toy_client "peer") (λ db, db) toy_spec
                             (spawn_run toy_digest toy_hex (toy_client "peer") (λ db, db) toy_spec toy_lifecycle []).2.1 [] in
    (spawn_run toy_digest toy_hex (toy_client "peer") (λ db, db) toy_spec toy_lifecycle []).1 = Ok (spawned toy_hex toy_spec endpoint false) ∧
    again.1 = Ok (spawned toy_hex toy_spec endpoint true).
Proof.
  assert (wf_spec toy_spec) as Hw
    by (exists "peer", "job-1", "worker", "feed", (DDict []), (DDict [("n", DInt 1)]), (Some toy_route); reflexivity).
  assert (spawns_ok toy_hex toy_lifecycle) as Hok by (split; intros k; [intros row|intros k' row row']; unfold toy_lifecycle; simpl; rewrite lookup_empty; discriminate).
  assert (meanwhile toy_hex (λ db, db)) as Hb by (intros db H; split; [exact H|apply spawns_later_refl]).
  destruct (spawn_run toy_digest toy_hex (toy_client "peer") (λ db, db) toy_spec toy_lifecycle []) as [r [db' p']] eqn:E.
  destruct (spawn_happens_once toy_digest toy_hex (λ _, eq_refl) toy_spec (toy_client "peer") (λ db, db) toy_lifecycle [] r db' p' Hw Hok Hb E)
    as (Hok' & _ & endpoint & prov & Hp & Hret & Hagain).
  assert (is_ok r = true) as Hr by (change r with (r, (db', p')).1; rewrite <-E; vm_compute; reflexivity).
  destruct r as [out|x]; [|discriminate Hr]. destruct (Hret out eq_refl) as (Hrow & _ & ->). exists endpoint. split; [reflexivity|].
  assert (auth (toy_client "peer") (lf_fabric db') = Ok tt) as Ha
    by (change db' with (Ok (spawned toy_hex toy_spec endpoint (bool_decide (is_Some (lf_spawns toy_lifecycle !! sp_key toy_spec)))), (db', p')).2.1;
        rewrite <-E; vm_compute; reflexivity).
  cbv zeta. cbn [fst snd].
  rewrite (proj1 (Hagain Hrow db' Hok' (spawns_later_refl db')) (toy_client "peer") (λ db, db) [] [pv_child prov] eq_refl Ha Hb eq_refl).
  reflexivity.
Defined.
