(* ===== verification/AgentThread.v ===== *)
(** * Threads, episodes and turns (src/src/petrus/agenticus/thread/)

    The immutable lifecycle values of [lifecycle.py] and [continuation.py] with
    the compatibility check of a program with a continuation. Every operation
    builds a new value with [dataclasses.replace], which runs the class's
    [__post_init__] again: the checks are part of each operation here as they
    are there. Checks of a field's class are typing. *)

From stdpp Require Import base gmap sets list strings.
From Stdlib Require Import Ascii ZArith Lia.
From S2P Require Import Prelude PyData Schema AgentText Descriptor.
Open Scope string_scope.
Open Scope list_scope.
Open Scope Z_scope.

(** The errors of an operation refused by the current state, all [ValueError]s. *)
Definition LifecycleTransitionError (msg : string) : exn := ValueError ("LifecycleTransitionError: " +:+ msg).
Definition EpisodeBudgetExceeded (dimension : string) : exn :=
  LifecycleTransitionError ("Episode budget exhausted for " +:+ dimension).
Definition ContinuationTransitionError (msg : string) : exn := ValueError ("ContinuationTransitionError: " +:+ msg).
Definition IncompatibleContinuation (issue : string) : exn := ValueError ("IncompatibleContinuation: " +:+ issue).

(** ** Continuations *)

Definition ThreadId := string.
Definition ContinuationId := string.
Definition EpisodeId := string.
Definition TurnId := string.

Record ContinuationDescriptor := MkContinuationDescriptor {
  cd_identity : DescriptorIdentity;
  cd_program : DescriptorIdentity
}.

Inductive ContinuationState := AVAILABLE | IN_USE | RETIRED.

#[export] Instance ContinuationDescriptor_eq_dec : EqDecision ContinuationDescriptor.
Proof. solve_decision. Defined.
#[export] Instance ContinuationState_eq_dec : EqDecision ContinuationState.
Proof. solve_decision. Defined.

Definition ContinuationDescriptor_post_init (d : ContinuationDescriptor) : result unit :=
  identity_of_kind (cd_identity d) CONTINUATION;; identity_of_kind (cd_program d) PROGRAM.

Record Continuation := MkContinuation {
  c_id : ContinuationId;
  c_thread : ThreadId;
  c_descriptor : ContinuationDescriptor;
  state_reference : string;
  c_state : ContinuationState
}.

#[export] Instance Continuation_eq_dec : EqDecision Continuation.
Proof. solve_decision. Defined.

(** [replace(self, state=state)] of a continuation; its other fields were
    checked when it was built. *)
Definition with_state (c : Continuation) (s : ContinuationState) : Continuation :=
  MkContinuation (c_id c) (c_thread c) (c_descriptor c) (state_reference c) s.

Definition claim (c : Continuation) : result Continuation :=
  raise_if (negb (bool_decide (c_state c = AVAILABLE))) (ContinuationTransitionError "cannot claim a Continuation");;
  Ok (with_state c IN_USE).

Definition retire (c : Continuation) : Continuation :=
  if bool_decide (c_state c = RETIRED) then c else with_state c RETIRED.

(** [_same_continuation_revision] *)
Definition same_continuation_revision (l r : option Continuation) : bool :=
  match l, r with
  | Some l, Some r => bool_decide (with_state l AVAILABLE = with_state r AVAILABLE)
  | None, None => true
  | _, _ => false
  end.

(** The issues [check_continuation_compatibility] reports, each a code and the
    name it is about. *)
Definition compatibility_issues (p : AgentProgramDescriptor) (c : option ContinuationDescriptor) : list (string * string) :=
  match c with
  | None => if accepts_fresh_start p then [] else [("continuation-required", identity_name (apd_identity p))]
  | Some c =>
      let matching := filter (λ r, cr_identity r = cd_identity c) (accepted_continuations p) in
      if bool_decide (matching = []) then [("continuation-not-accepted", identity_name (cd_identity c))]
      else if negb (existsb (λ r, bool_decide (cr_program r = cd_program c)) matching)
      then [("continuation-program-mismatch", identity_name (cd_program c))]
      else []
  end.

Definition require_continuation_compatible (p : AgentProgramDescriptor) (c : option ContinuationDescriptor) : result unit :=
  match compatibility_issues p c with
  | [] => Ok tt
  | issue :: _ => Err (IncompatibleContinuation issue.1)
  end.

(** ** Turns *)

Inductive ThreadState := OPEN | CLOSED.
Inductive EpisodeState := RUNNING | CANCELLING | SETTLED.
Inductive TurnState := TURN_RUNNING | TURN_SETTLED.
Inductive TurnOutcome := TURN_COMPLETED | TURN_FAILED | TURN_CANCELLED | TURN_INDETERMINATE.
Inductive EpisodeOutcome := COMPLETED | FAILED | CANCELLED | BUDGET_EXHAUSTED | INDETERMINATE.
Inductive CancellationDisposition := REQUESTED | ALREADY_REQUESTED | TOO_LATE.
Inductive SettlementDisposition := ACCEPTED | DUPLICATE.

#[export] Instance ThreadState_eq_dec : EqDecision ThreadState.
Proof. solve_decision. Defined.
#[export] Instance EpisodeState_eq_dec : EqDecision EpisodeState.
Proof. solve_decision. Defined.
#[export] Instance TurnState_eq_dec : EqDecision TurnState.
Proof. solve_decision. Defined.
#[export] Instance TurnOutcome_eq_dec : EqDecision TurnOutcome.
Proof. solve_decision. Defined.
#[export] Instance EpisodeOutcome_eq_dec : EqDecision EpisodeOutcome.
Proof. solve_decision. Defined.

Record EpisodeBudget := MkEpisodeBudget { max_turns : Z; max_accepted_appends : Z }.

Definition EpisodeBudget_post_init (b : EpisodeBudget) : result unit :=
  positive_integer (max_turns b);; positive_integer (max_accepted_appends b);; Ok tt.

Record Turn := MkTurn {
  turn_id : TurnId;
  turn_episode : EpisodeId;
  ordinal : Z;
  turn_state : TurnState;
  turn_appends : Z;
  turn_outcome : option TurnOutcome
}.

(** [Turn.__post_init__] *)
Definition Turn_post_init (t : Turn) : result unit :=
  positive_integer (ordinal t);;
  nonnegative_integer (turn_appends t);;
  raise_if (bool_decide (turn_state t = TURN_RUNNING) && bool_decide (is_Some (turn_outcome t)))
    (ValueError "a running Turn cannot have an outcome");;
  raise_if (bool_decide (turn_state t = TURN_SETTLED) && bool_decide (turn_outcome t = None))
    (ValueError "a settled Turn requires a TurnOutcome").

Definition checked_turn (t : Turn) : result Turn := Turn_post_init t;; Ok t.

(** [Turn.accept_append] *)
Definition turn_accept_append (t : Turn) : result Turn :=
  raise_if (negb (bool_decide (turn_state t = TURN_RUNNING))) (LifecycleTransitionError "accepted appends require a running Turn");;
  checked_turn (MkTurn (turn_id t) (turn_episode t) (ordinal t) (turn_state t) (turn_appends t + 1) (turn_outcome t)).

(** [Turn.settle] *)
Definition turn_settle (t : Turn) (outcome : TurnOutcome) : result Turn :=
  raise_if (bool_decide (turn_state t = TURN_SETTLED)) (LifecycleTransitionError "Turn is already settled");;
  checked_turn (MkTurn (turn_id t) (turn_episode t) (ordinal t) TURN_SETTLED (turn_appends t) (Some outcome)).

(** ** Episodes *)

Record Episode := MkEpisode {
  ep_id : EpisodeId;
  ep_thread : ThreadId;
  program : DescriptorIdentity;
  runtime : DescriptorIdentity;
  budget : EpisodeBudget;
  expected_continuation : option DescriptorIdentity;
  ep_continuation : option Continuation;
  ep_state : EpisodeState;
  turns : list Turn;
  accepted_appends : Z;
  settlement : option EpisodeOutcome;
  next_continuation : option Continuation
}.

Definition is_running (t : Turn) : bool := bool_decide (turn_state t = TURN_RUNNING).

Definition sum_appends (ts : list Turn) : Z := foldr (λ t n, turn_appends t + n) 0 ts.

(** Only the last element of a list may satisfy [p]: at most one does, and if
    one does the last one does. *)
Definition only_last {A} (p : A → bool) (l : list A) : bool :=
  let chosen := List.filter p l in
  negb (1 <? length chosen)%nat
  && (bool_decide (length chosen = 0%nat) || match last l with Some x => p x | None => false end).

(** [Episode._validate_identities] *)
Definition validate_identities (e : Episode) : result unit :=
  identity_of_kind (program e) PROGRAM;;
  identity_of_kind (runtime e) RUNTIME;;
  identity_of_kind_opt (expected_continuation e) CONTINUATION;;
  raise_if (match ep_continuation e with Some c => negb (String.eqb (c_thread c) (ep_thread e)) | None => false end)
    (TypeError "Episode continuation must be a Continuation for this Thread");;
  raise_if (match next_continuation e with Some c => negb (String.eqb (c_thread c) (ep_thread e)) | None => false end)
    (TypeError "Episode next_continuation must be a Continuation for this Thread");;
  nonnegative_integer (accepted_appends e);;
  Ok tt.

(** [Episode._validate_result_continuation] *)
Definition validate_result_continuation (e : Episode) : result unit :=
  raise_if (bool_decide (settlement e = Some COMPLETED) && bool_decide (is_Some (expected_continuation e))
            && bool_decide (next_continuation e = None))
    (ValueError "a completed Episode requires its declared result Continuation");;
  match next_continuation e with
  | None => Ok tt
  | Some c =>
      expected ← or_raise (expected_continuation e) (ValueError "Episode program does not declare a result Continuation");
      raise_if (negb (bool_decide (c_state c = AVAILABLE))) (ValueError "an Episode result Continuation must be available");;
      raise_if (negb (bool_decide (cd_identity (c_descriptor c) = expected)))
        (ValueError "Episode result Continuation descriptor does not match its program");;
      raise_if (negb (bool_decide (cd_program (c_descriptor c) = program e)))
        (ValueError "Episode result Continuation names another Agent Program")
  end.

(** [Episode._validate_state] *)
Definition validate_episode_state (e : Episode) : result unit :=
  match ep_state e with
  | SETTLED =>
      raise_if (bool_decide (settlement e = None)) (ValueError "a settled Episode requires an EpisodeOutcome");;
      raise_if (existsb is_running (turns e)) (ValueError "a settled Episode cannot have a running Turn");;
      raise_if (match ep_continuation e with Some c => negb (bool_decide (c_state c = RETIRED)) | None => false end)
        (ValueError "a settled Episode input Continuation must be retired");;
      validate_result_continuation e
  | _ =>
      raise_if (bool_decide (is_Some (settlement e)) || bool_decide (is_Some (next_continuation e)))
        (ValueError "an active Episode cannot have settlement output");;
      raise_if (match ep_continuation e with Some c => negb (bool_decide (c_state c = IN_USE)) | None => false end)
        (ValueError "an active Episode input Continuation must be in use")
  end.

(** [Episode.__post_init__] *)
Definition Episode_post_init (e : Episode) : result unit :=
  validate_identities e;;
  raise_if (existsb (λ t, negb (String.eqb (turn_episode t) (ep_id e))) (turns e))
    (TypeError "Episode turns must be Turn values for this Episode");;
  raise_if (negb (bool_decide (NoDup (turn_id <$> turns e)))) (ValueError "Episode Turn ids must be unique");;
  raise_if (negb (bool_decide ((ordinal <$> turns e) = zrange 1 (length (turns e)))))
    (ValueError "Episode Turn ordinals must be contiguous from one");;
  raise_if (max_turns (budget e) <? Z.of_nat (length (turns e))) (ValueError "Episode turns exceed max_turns");;
  raise_if (negb (sum_appends (turns e) =? accepted_appends e))
    (ValueError "Episode accepted_appends must equal its Turn accounting");;
  raise_if (max_accepted_appends (budget e) <? accepted_appends e) (ValueError "Episode accepted_appends exceed budget");;
  raise_if (negb (only_last is_running (turns e))) (ValueError "only the final Episode Turn may be running");;
  validate_episode_state e.

Definition checked_episode (e : Episode) : result Episode := Episode_post_init e;; Ok e.

(** [Episode.active_turn] *)
Definition active_turn (e : Episode) : option Turn :=
  match last (turns e) with Some t => if is_running t then Some t else None | None => None end.

(** [Episode.budget_exhausted] *)
Definition budget_exhausted (e : Episode) : bool :=
  (max_turns (budget e) <=? Z.of_nat (length (turns e))) || (max_accepted_appends (budget e) <=? accepted_appends e).

(** [replace(self, turns=..., accepted_appends=...)] *)
Definition with_turns (e : Episode) (ts : list Turn) (appends : Z) : Episode :=
  MkEpisode (ep_id e) (ep_thread e) (program e) (runtime e) (budget e) (expected_continuation e) (ep_continuation e)
    (ep_state e) ts appends (settlement e) (next_continuation e).

(** [Episode.start_turn] *)
Definition start_turn (e : Episode) (id : TurnId) : result Episode :=
  raise_if (negb (bool_decide (ep_state e = RUNNING))) (LifecycleTransitionError "new Turns require a running Episode");;
  raise_if (bool_decide (is_Some (active_turn e))) (LifecycleTransitionError "an Episode may have only one running Turn");;
  raise_if (max_turns (budget e) <=? Z.of_nat (length (turns e))) (EpisodeBudgetExceeded "turns");;
  raise_if (max_accepted_appends (budget e) <=? accepted_appends e) (EpisodeBudgetExceeded "accepted_appends");;
  raise_if (existsb (λ t, String.eqb (turn_id t) id) (turns e))
    (LifecycleTransitionError "Turn id is already present in this Episode");;
  turn ← checked_turn (MkTurn id (ep_id e) (Z.of_nat (length (turns e)) + 1) TURN_RUNNING 0 None);
  checked_episode (with_turns e (turns e ++ [turn]) (accepted_appends e)).

(** [Episode._require_active_turn] *)
Definition require_active_turn (e : Episode) (id : TurnId) : result Turn :=
  match active_turn e with
  | Some t => if String.eqb (turn_id t) id then Ok t
              else Err (LifecycleTransitionError "Turn is not the running Turn of this Episode")
  | None => Err (LifecycleTransitionError "Turn is not the running Turn of this Episode")
  end.

(** [Episode._replace_turn] *)
Definition replace_turn (e : Episode) (t : Turn) (appends : option Z) : result Episode :=
  checked_episode (with_turns e (removelast (turns e) ++ [t]) (default (accepted_appends e) appends)).

(** [Episode.accept_append] *)
Definition accept_append (e : Episode) (id : TurnId) : result Episode :=
  raise_if (negb (bool_decide (ep_state e = RUNNING))) (LifecycleTransitionError "accepted appends require a running Episode");;
  turn ← require_active_turn e id;
  raise_if (max_accepted_appends (budget e) <=? accepted_appends e) (EpisodeBudgetExceeded "accepted_appends");;
  turn ← turn_accept_append turn;
  replace_turn e turn (Some (accepted_appends e + 1)).

(** [Episode.settle_turn] *)
Definition settle_turn (e : Episode) (id : TurnId) (outcome : TurnOutcome) : result Episode :=
  turn ← require_active_turn e id;
  raise_if (bool_decide (ep_state e = CANCELLING) && bool_decide (outcome = TURN_COMPLETED))
    (LifecycleTransitionError "a cancellation-winning Turn cannot complete");;
  turn ← turn_settle turn outcome;
  replace_turn e turn None.

(** [Episode.request_cancellation] *)
Definition episode_request_cancellation (e : Episode) : result (Episode * CancellationDisposition) :=
  match ep_state e with
  | SETTLED => Ok (e, TOO_LATE)
  | CANCELLING => Ok (e, ALREADY_REQUESTED)
  | RUNNING =>
      e ← checked_episode (MkEpisode (ep_id e) (ep_thread e) (program e) (runtime e) (budget e) (expected_continuation e)
            (ep_continuation e) CANCELLING (turns e) (accepted_appends e) (settlement e) (next_continuation e));
      Ok (e, REQUESTED)
  end.

(** [Episode.settle] *)
Definition episode_settle (e : Episode) (outcome : EpisodeOutcome) (next : option Continuation)
    : result (Episode * SettlementDisposition) :=
  if bool_decide (ep_state e = SETTLED) then
    if bool_decide (settlement e = Some outcome) && bool_decide (next_continuation e = next) then Ok (e, DUPLICATE)
    else Err (LifecycleTransitionError "Episode is already settled with a different outcome or Continuation")
  else
    raise_if (bool_decide (is_Some (active_turn e))) (LifecycleTransitionError "Episode cannot settle while a Turn is running");;
    raise_if (bool_decide (outcome = COMPLETED) && negb (bool_decide (ep_state e = RUNNING)))
      (LifecycleTransitionError "cancellation won before completed settlement");;
    raise_if (bool_decide (outcome = CANCELLED) && negb (bool_decide (ep_state e = CANCELLING)))
      (LifecycleTransitionError "cancelled settlement requires a cancellation request");;
    raise_if (bool_decide (outcome = BUDGET_EXHAUSTED)
              && (negb (bool_decide (ep_state e = RUNNING)) || negb (budget_exhausted e)))
      (LifecycleTransitionError "budget-exhausted settlement requires an exhausted Episode budget");;
    e ← checked_episode (MkEpisode (ep_id e) (ep_thread e) (program e) (runtime e) (budget e) (expected_continuation e)
          (retire <$> ep_continuation e) SETTLED (turns e) (accepted_appends e) (Some outcome) next);
    Ok (e, ACCEPTED).

(** ** Threads *)

Record Thread := MkThread {
  th_id : ThreadId;
  th_state : ThreadState;
  episodes : list Episode;
  th_continuation : option Continuation
}.

Definition is_active (e : Episode) : bool := negb (bool_decide (ep_state e = SETTLED)).

(** [zip(episodes, episodes[1:])], adjacent episodes sharing a revision. *)
Fixpoint adjacent_revisions (es : list Episode) : bool :=
  match es with
  | e :: ((e' :: _) as es) =>
      same_continuation_revision (next_continuation e) (ep_continuation e') && adjacent_revisions es
  | _ => true
  end.

(** The ids of the result continuations. *)
Definition output_ids (es : list Episode) : list ContinuationId := c_id <$> omap next_continuation es.

(** [Thread._validated_episodes] *)
Definition validated_episodes (t : Thread) : result unit :=
  raise_if (existsb (λ e, negb (String.eqb (ep_thread e) (th_id t))) (episodes t))
    (TypeError "Thread episodes must be Episode values for this Thread");;
  raise_if (negb (bool_decide (NoDup (ep_id <$> episodes t)))) (ValueError "Thread Episode ids must be unique");;
  raise_if (negb (only_last is_active (episodes t))) (ValueError "only the final Thread Episode may be active");;
  raise_if (negb (adjacent_revisions (episodes t)))
    (ValueError "adjacent Thread Episodes must share one Continuation revision");;
  raise_if (negb (bool_decide (NoDup (output_ids (episodes t))))) (ValueError "Thread result Continuation ids must be unique").

(** [Thread._validate_state] *)
Definition validate_thread_state (t : Thread) : result unit :=
  match th_state t with
  | CLOSED =>
      raise_if (existsb is_active (episodes t)) (ValueError "a closed Thread cannot have an active Episode");;
      raise_if (match th_continuation t with Some c => negb (bool_decide (c_state c = RETIRED)) | None => false end)
        (ValueError "a closed Thread Continuation must be retired");;
      raise_if (match last (episodes t) with
                | Some e => negb (same_continuation_revision (th_continuation t) (next_continuation e))
                | None => false end)
        (ValueError "a closed Thread must retain its final Continuation revision")
  | OPEN =>
      match last (List.filter is_active (episodes t)) with
      | Some e =>
          raise_if (negb (bool_decide (th_continuation t = ep_continuation e)))
            (ValueError "an active Episode must own the Thread Continuation")
      | None =>
          raise_if (match th_continuation t with Some c => negb (bool_decide (c_state c = AVAILABLE)) | None => false end)
            (ValueError "an open resting Thread Continuation must be available");;
          raise_if (match last (episodes t) with
                    | Some e => negb (bool_decide (th_continuation t = next_continuation e))
                    | None => false end)
            (ValueError "an open resting Thread must expose its final Continuation")
      end
  end.

(** [Thread.__post_init__] *)
Definition Thread_post_init (t : Thread) : result unit :=
  validated_episodes t;;
  raise_if (match th_continuation t with Some c => negb (String.eqb (c_thread c) (th_id t)) | None => false end)
    (TypeError "Thread continuation must be a Continuation for this Thread");;
  validate_thread_state t.

Definition checked_thread (t : Thread) : result Thread := Thread_post_init t;; Ok t.

(** [Thread.active_episode] *)
Definition active_episode (t : Thread) : result Episode :=
  match last (episodes t) with
  | Some e => raise_if (negb (is_active e)) (LifecycleTransitionError "Thread has no active Episode");; Ok e
  | None => Err (LifecycleTransitionError "Thread has no active Episode")
  end.

(** Whether the thread's last episode is settled. *)
Definition last_settled (t : Thread) : bool :=
  match last (episodes t) with Some e => negb (is_active e) | None => false end.
Definition last_active (t : Thread) : bool :=
  match last (episodes t) with Some e => is_active e | None => false end.

Definition opt_claim (c : option Continuation) : result (option Continuation) :=
  match c with Some c => c ← claim c; Ok (Some c) | None => Ok None end.

(** [Thread.start_episode] *)
Definition start_episode (t : Thread) (id : EpisodeId) (p : AgentProgramDescriptor) (rt : DescriptorIdentity)
    (b : EpisodeBudget) : result Thread :=
  raise_if (negb (bool_decide (th_state t = OPEN))) (LifecycleTransitionError "a closed Thread cannot start an Episode");;
  raise_if (last_active t) (LifecycleTransitionError "a Thread may have only one active Episode");;
  raise_if (existsb (λ e, String.eqb (ep_id e) id) (episodes t))
    (LifecycleTransitionError "Episode id is already present in this Thread");;
  require_continuation_compatible p (c_descriptor <$> th_continuation t);;
  continuation ← opt_claim (th_continuation t);
  episode ← checked_episode (MkEpisode id (th_id t) (apd_identity p) rt b (produced_continuation p) continuation
              RUNNING [] 0 None None);
  checked_thread (MkThread (th_id t) (th_state t) (episodes t ++ [episode]) continuation).

(** [Thread._replace_active_episode] *)
Definition replace_active_episode (t : Thread) (e : Episode) : result Thread :=
  checked_thread (MkThread (th_id t) (th_state t) (removelast (episodes t) ++ [e]) (ep_continuation e)).

Definition thread_start_turn (t : Thread) (id : TurnId) : result Thread :=
  e ← active_episode t; e ← start_turn e id; replace_active_episode t e.

Definition thread_accept_append (t : Thread) (id : TurnId) : result Thread :=
  e ← active_episode t; e ← accept_append e id; replace_active_episode t e.

Definition thread_settle_turn (t : Thread) (id : TurnId) (outcome : TurnOutcome) : result Thread :=
  e ← active_episode t; e ← settle_turn e id outcome; replace_active_episode t e.

(** [Thread.request_cancellation] *)
Definition request_cancellation (t : Thread) : result (Thread * CancellationDisposition) :=
  if last_settled t then Ok (t, TOO_LATE)
  else
    e ← active_episode t;
    '(e, d) ← episode_request_cancellation e;
    t ← replace_active_episode t e;
    Ok (t, d).

(** The continuation ids a thread has seen. *)
Definition known_ids (t : Thread) : list ContinuationId :=
  flat_map (λ e, (match ep_continuation e with Some c => [c_id c] | None => [] end)
                 ++ (match next_continuation e with Some c => [c_id c] | None => [] end)) (episodes t).

(** [Thread._validate_result_continuation] *)
Definition validate_thread_result (t : Thread) (e : Episode) (outcome : EpisodeOutcome) (c : option Continuation) : result unit :=
  raise_if (bool_decide (outcome = COMPLETED) && bool_decide (is_Some (expected_continuation e)) && bool_decide (c = None))
    (LifecycleTransitionError "completed Episode requires its declared result Continuation");;
  match c with
  | None => Ok tt
  | Some c =>
      expected ← or_raise (expected_continuation e)
                   (LifecycleTransitionError "Agent Program does not declare a result Continuation");
      raise_if (negb (String.eqb (c_thread c) (th_id t)))
        (LifecycleTransitionError "result Continuation belongs to another Thread");;
      raise_if (negb (bool_decide (c_state c = AVAILABLE))) (LifecycleTransitionError "result Continuation must be available");;
      raise_if (negb (bool_decide (cd_identity (c_descriptor c) = expected)))
        (LifecycleTransitionError "result Continuation descriptor does not match Agent Program");;
      raise_if (negb (bool_decide (cd_program (c_descriptor c) = program e)))
        (LifecycleTransitionError "result Continuation names another Agent Program");;
      raise_if (bool_decide (c_id c ∈ known_ids t))
        (LifecycleTransitionError "result Continuation id is already present in this Thread")
  end.

(** [Thread.settle_episode] *)
Definition settle_episode (t : Thread) (outcome : EpisodeOutcome) (c : option Continuation)
    : result (Thread * SettlementDisposition) :=
  match last (episodes t) with
  | Some e =>
      if negb (is_active e) then
        '(_, d) ← episode_settle e outcome c; Ok (t, d)
      else
        validate_thread_result t e outcome c;;
        '(e, d) ← episode_settle e outcome c;
        t ← checked_thread (MkThread (th_id t) (th_state t) (removelast (episodes t) ++ [e]) c);
        Ok (t, d)
  | None => Err (LifecycleTransitionError "Thread has no active Episode")
  end.

(** [Thread.close] *)
Definition close (t : Thread) : result Thread :=
  if bool_decide (th_state t = CLOSED) then Ok t
  else
    raise_if (last_active t) (LifecycleTransitionError "a Thread cannot close with an active Episode");;
    checked_thread (MkThread (th_id t) CLOSED (episodes t) (retire <$> th_continuation t)).
