(* ===== verification/AgentThreadInvariant.v ===== *)
(** * The invariants the lifecycle constructors check, as propositions

    [Episode.__post_init__] and [Thread.__post_init__] succeed exactly on
    values with these properties. *)

From stdpp Require Import base gmap sets list strings.
From Stdlib Require Import Ascii ZArith Lia.
From S2P Require Import Prelude PyData Schema AgentText Descriptor AgentThread.
Open Scope string_scope.
Open Scope list_scope.
Open Scope Z_scope.

(** ** Sequencing and reflection *)

Lemma seq_Ok (m k : result unit) : (m;; k) = Ok tt ↔ m = Ok tt ∧ k = Ok tt.
Proof. destruct m as [[]|]; csimpl; naive_solver. Qed.

Lemma check_Ok b e : raise_if b e = Ok tt ↔ b = false.
Proof. apply raise_if_Ok. Qed.

Lemma discard_Ok {A} (m : result A) (k : result unit) : (m;; k) = Ok tt ↔ is_ok m = true ∧ k = Ok tt.
Proof. destruct m; csimpl; naive_solver. Qed.

Lemma negb_bool_decide_false (P : Prop) `{Decision P} : negb (bool_decide P) = false ↔ P.
Proof. rewrite negb_false_iff. apply bool_decide_eq_true. Qed.

Lemma bool_decide_false_iff (P : Prop) `{Decision P} : bool_decide P = false ↔ ¬ P.
Proof. apply bool_decide_eq_false. Qed.

Lemma existsb_false_Forall {A} (p : A → bool) l : existsb p l = false ↔ Forall (λ x, p x = false) l.
Proof.
  induction l as [|x l IH]; simpl; [split; [constructor|done]|]. by rewrite orb_false_iff, Forall_cons, IH.
Qed.

Lemma opt_check_false {A} (p : A → bool) (x : option A) :
  match x with Some y => p y | None => false end = false ↔ ∀ y, x = Some y → p y = false.
Proof. destruct x as [y|]; [|by split]. split; [by intros H ? [= <-]|]. intros H. by apply H. Qed.

(** ** Only the last *)

Lemma filter_false {A} (p : A → bool) l : Forall (λ x, p x = false) l ↔ List.filter p l = [].
Proof.
  induction l as [|x l IH]; simpl; [split; [done|constructor]|].
  rewrite Forall_cons, IH. destruct (p x); naive_solver.
Qed.

Lemma only_last_snoc {A} (p : A → bool) l x : only_last p (l ++ [x]) = true ↔ Forall (λ y, p y = false) l.
Proof.
  unfold only_last. rewrite List.filter_app, last_snoc, filter_false, length_app. simpl.
  destruct (List.filter p l) as [|y k] eqn:E; simpl; [|split; [|done]]; destruct (p x); simpl; try done.
  - by destruct (length k + 1)%nat eqn:El; [lia|].
  - rewrite Nat.add_0_r. by rewrite andb_false_r.
Qed.

Lemma only_last_nil {A} (p : A → bool) : only_last p ([] : list A) = true.
Proof. done. Qed.

(** A list is empty or ends in an element. *)
Lemma snoc_cases {A} (l : list A) : l = [] ∨ ∃ k x, l = k ++ [x].
Proof. destruct l as [|x k _] using rev_ind; [by left|right; eauto]. Qed.

Lemma removelast_snoc {A} (l : list A) x : removelast (l ++ [x]) = l.
Proof. apply removelast_last. Qed.

(** ** Episodes *)

Definition result_ok (e : Episode) : Prop :=
  (settlement e = Some COMPLETED → is_Some (expected_continuation e) → is_Some (next_continuation e)) ∧
  ∀ c, next_continuation e = Some c →
    c_state c = AVAILABLE ∧ expected_continuation e = Some (cd_identity (c_descriptor c)) ∧ cd_program (c_descriptor c) = program e.

Definition state_ok (e : Episode) : Prop :=
  match ep_state e with
  | SETTLED => is_Some (settlement e) ∧ Forall (λ t, is_running t = false) (turns e) ∧
      (∀ c, ep_continuation e = Some c → c_state c = RETIRED) ∧ result_ok e
  | _ => settlement e = None ∧ next_continuation e = None ∧ ∀ c, ep_continuation e = Some c → c_state c = IN_USE
  end.

Record episode_ok (e : Episode) : Prop := {
  eo_program : identity_kind (program e) = PROGRAM;
  eo_runtime : identity_kind (runtime e) = RUNTIME;
  eo_expected : ∀ x, expected_continuation e = Some x → identity_kind x = CONTINUATION;
  eo_continuation : ∀ c, ep_continuation e = Some c → c_thread c = ep_thread e;
  eo_next : ∀ c, next_continuation e = Some c → c_thread c = ep_thread e;
  eo_appends : 0 <= accepted_appends e;
  eo_turn_episode : Forall (λ t, turn_episode t = ep_id e) (turns e);
  eo_turn_ids : NoDup (turn_id <$> turns e);
  eo_ordinals : (ordinal <$> turns e) = zrange 1 (length (turns e));
  eo_max_turns : Z.of_nat (length (turns e)) <= max_turns (budget e);
  eo_sum : sum_appends (turns e) = accepted_appends e;
  eo_max_appends : accepted_appends e <= max_accepted_appends (budget e);
  eo_last : only_last is_running (turns e) = true;
  eo_state : state_ok e
}.

Lemma identity_of_kind_Ok v k : identity_of_kind v k = Ok tt ↔ identity_kind v = k.
Proof. unfold identity_of_kind. by rewrite check_Ok, negb_bool_decide_false. Qed.

Lemma identity_of_kind_opt_Ok v k : identity_of_kind_opt v k = Ok tt ↔ ∀ x, v = Some x → identity_kind x = k.
Proof.
  destruct v as [x|]; simpl; [|by split]. rewrite identity_of_kind_Ok.
  split; [by intros H ? [= <-]|intros H; by apply H].
Qed.

Lemma nonnegative_Ok z : is_ok (nonnegative_integer z) = true ↔ 0 <= z.
Proof. unfold nonnegative_integer. destruct (Z.ltb_spec z 0); simpl; split; try done; lia. Qed.

Lemma positive_is_ok z : is_ok (positive_integer z) = true ↔ 0 < z.
Proof. unfold positive_integer. destruct (Z.leb_spec z 0); simpl; split; try done; lia. Qed.

Lemma validate_identities_Ok e : validate_identities e = Ok tt ↔
  identity_kind (program e) = PROGRAM ∧ identity_kind (runtime e) = RUNTIME ∧
  (∀ x, expected_continuation e = Some x → identity_kind x = CONTINUATION) ∧
  (∀ c, ep_continuation e = Some c → c_thread c = ep_thread e) ∧
  (∀ c, next_continuation e = Some c → c_thread c = ep_thread e) ∧ 0 <= accepted_appends e.
Proof.
  unfold validate_identities. rewrite !seq_Ok, discard_Ok, !identity_of_kind_Ok, identity_of_kind_opt_Ok, !check_Ok,
    !opt_check_false, nonnegative_Ok.
  setoid_rewrite negb_false_iff. setoid_rewrite String.eqb_eq. naive_solver.
Qed.

Lemma validate_result_Ok e : validate_result_continuation e = Ok tt ↔ result_ok e.
Proof.
  unfold validate_result_continuation, result_ok. rewrite seq_Ok, check_Ok.
  rewrite !andb_false_iff, !bool_decide_false_iff, <-!eq_None_not_Some.
  destruct (next_continuation e) as [c|] eqn:En.
  - destruct (expected_continuation e) as [x|] eqn:Ex; csimpl.
    + rewrite !seq_Ok, !check_Ok, !negb_bool_decide_false. split.
      * intros (_ & Hs & Hi & Hp). split; [by intros _ _|]. intros ? [= <-]. by rewrite Hi.
      * intros [_ H]. destruct (H c eq_refl) as (? & [= ->] & ?). split; [by right|done].
    + split; [by intros [_ ?]|]. intros [_ H]. by destruct (H c eq_refl) as (_ & ? & _).
  - split.
    + intros [H _]. split; [|done]. intros Hs [x Hx]. destruct H as [[H|H]|H]; [done|congruence|done].
    + intros [H _]. split; [|done]. destruct (decide (settlement e = Some COMPLETED)) as [Hs|Hs]; [|by left; left].
      left; right. destruct (expected_continuation e) eqn:Ex; [|done]. by destruct (H Hs ltac:(by eexists)).
Qed.

Lemma validate_state_Ok e : validate_episode_state e = Ok tt ↔ state_ok e.
Proof.
  unfold validate_episode_state, state_ok.
  destruct (ep_state e); rewrite ?seq_Ok, ?check_Ok, ?opt_check_false, ?orb_false_iff, ?bool_decide_false_iff.
  1, 2: setoid_rewrite negb_bool_decide_false; rewrite <-!eq_None_not_Some; naive_solver.
  rewrite existsb_false_Forall, validate_result_Ok. setoid_rewrite negb_bool_decide_false.
  rewrite <-not_eq_None_Some. naive_solver.
Qed.

Lemma Episode_post_init_Ok e : Episode_post_init e = Ok tt ↔ episode_ok e.
Proof.
  unfold Episode_post_init. rewrite !seq_Ok, !check_Ok, validate_identities_Ok, validate_state_Ok, existsb_false_Forall.
  rewrite !negb_bool_decide_false, !negb_false_iff, !Z.ltb_ge, Z.eqb_eq. setoid_rewrite negb_false_iff.
  setoid_rewrite String.eqb_eq.
  split; [intros ((? & ? & ? & ? & ? & ?) & ? & ? & ? & ? & ? & ? & ? & ?); by split|intros []; by split_and!].
Qed.

Lemma checked_episode_Ok e e' : checked_episode e = Ok e' ↔ e' = e ∧ episode_ok e.
Proof.
  unfold checked_episode. rewrite <-Episode_post_init_Ok. destruct (Episode_post_init e) as [[]|]; csimpl; naive_solver.
Qed.

(** ** Turns *)

Record turn_ok (t : Turn) : Prop := {
  to_ordinal : 0 < ordinal t;
  to_appends : 0 <= turn_appends t;
  to_outcome : turn_state t = TURN_RUNNING ↔ turn_outcome t = None
}.

Lemma Turn_post_init_Ok t : Turn_post_init t = Ok tt ↔ turn_ok t.
Proof.
  unfold Turn_post_init. rewrite discard_Ok, discard_Ok, seq_Ok, !check_Ok, positive_is_ok, nonnegative_Ok. split.
  - intros (? & ? & H1 & H2). split; [done..|]. destruct (turn_state t), (turn_outcome t); naive_solver.
  - intros [? ? H]. split_and!; try done; destruct (turn_state t), (turn_outcome t); naive_solver.
Qed.

Lemma checked_turn_Ok t t' : checked_turn t = Ok t' ↔ t' = t ∧ turn_ok t.
Proof.
  unfold checked_turn. rewrite <-Turn_post_init_Ok. destruct (Turn_post_init t) as [[]|]; csimpl; naive_solver.
Qed.

(** ** Threads *)

Definition thread_state_ok (t : Thread) : Prop :=
  match th_state t with
  | CLOSED =>
      Forall (λ e, is_active e = false) (episodes t) ∧
      (∀ c, th_continuation t = Some c → c_state c = RETIRED) ∧
      ∀ e, last (episodes t) = Some e → same_continuation_revision (th_continuation t) (next_continuation e) = true
  | OPEN =>
      match last (episodes t) with
      | Some e =>
          if is_active e then th_continuation t = ep_continuation e
          else (∀ c, th_continuation t = Some c → c_state c = AVAILABLE) ∧ th_continuation t = next_continuation e
      | None => ∀ c, th_continuation t = Some c → c_state c = AVAILABLE
      end
  end.

Record thread_ok (t : Thread) : Prop := {
  tk_thread : Forall (λ e, ep_thread e = th_id t) (episodes t);
  tk_ids : NoDup (ep_id <$> episodes t);
  tk_last : only_last is_active (episodes t) = true;
  tk_revisions : adjacent_revisions (episodes t) = true;
  tk_outputs : NoDup (output_ids (episodes t));
  tk_continuation : ∀ c, th_continuation t = Some c → c_thread c = th_id t;
  tk_state : thread_state_ok t
}.

Lemma filter_only_last {A} (p : A → bool) l : only_last p l = true →
  last (List.filter p l) = match last l with Some x => if p x then Some x else None | None => None end.
Proof.
  destruct (snoc_cases l) as [->|(k & x & ->)]; [done|]. intros H%only_last_snoc%filter_false.
  rewrite List.filter_app, H, last_snoc. simpl. by destruct (p x).
Qed.

Lemma validate_thread_state_Ok t : only_last is_active (episodes t) = true →
  validate_thread_state t = Ok tt ↔ thread_state_ok t.
Proof.
  intros Hl. unfold validate_thread_state, thread_state_ok. rewrite filter_only_last by done.
  destruct (th_state t).
  - destruct (last (episodes t)) as [e|]; [destruct (is_active e)|].
    + by rewrite check_Ok, negb_bool_decide_false.
    + rewrite seq_Ok, !check_Ok, opt_check_false, negb_bool_decide_false. by setoid_rewrite negb_bool_decide_false.
    + rewrite seq_Ok, !check_Ok, opt_check_false. setoid_rewrite negb_bool_decide_false. naive_solver.
  - rewrite !seq_Ok, !check_Ok, existsb_false_Forall, !opt_check_false. setoid_rewrite negb_bool_decide_false.
    by setoid_rewrite negb_false_iff.
Qed.

Lemma Thread_post_init_Ok t : Thread_post_init t = Ok tt ↔ thread_ok t.
Proof.
  unfold Thread_post_init, validated_episodes. rewrite !seq_Ok, !check_Ok, existsb_false_Forall, opt_check_false.
  rewrite !negb_bool_decide_false, !negb_false_iff. setoid_rewrite negb_false_iff. setoid_rewrite String.eqb_eq. split.
  - intros ((? & ? & Hl & ? & ?) & ? & Hs). split; try done. by apply validate_thread_state_Ok.
  - intros []. split_and!; try done. by apply validate_thread_state_Ok.
Qed.

Lemma checked_thread_Ok t t' : checked_thread t = Ok t' ↔ t' = t ∧ thread_ok t.
Proof.
  unfold checked_thread. rewrite <-Thread_post_init_Ok. destruct (Thread_post_init t) as [[]|]; csimpl; naive_solver.
Qed.

(** A thread as its constructors leave it. *)
Definition valid_episode (e : Episode) : Prop := episode_ok e ∧ Forall turn_ok (turns e).
Definition valid_thread (t : Thread) : Prop := thread_ok t ∧ Forall valid_episode (episodes t).

(** The errors by which an operation refuses, as opposed to those of the
    constructors' checks. *)
Definition refusal (e : exn) : Prop :=
  (∃ m, e = LifecycleTransitionError m) ∨ ∃ m, e = IncompatibleContinuation m.
