(* ===== verification/AgentThreadTheorems.v ===== *)
(** * Threads: every operation keeps the invariant or refuses

    The checks that [replace] runs again never fail after an operation's own
    guards passed; episodes and turns only ever extend; a cancellation request
    wins over completion. *)

From stdpp Require Import base gmap sets list strings relations.
From Stdlib Require Import Ascii ZArith Lia.
From S2P Require Import Prelude PyData Schema AgentText Descriptor AgentThread AgentThreadInvariant.
Open Scope string_scope.
Open Scope list_scope.
Open Scope Z_scope.

(** ** Lawful results: the promised value, or a refusal *)

Definition lawful {A} (P : A → Prop) (r : result A) : Prop :=
  match r with Ok a => P a | Err e => refusal e end.

Lemma lawful_bind {A B} (P : A → Prop) (Q : B → Prop) (m : result A) (k : A → result B) :
  lawful P m → (∀ a, P a → lawful Q (k a)) → lawful Q (m ≫= k).
Proof. destruct m; csimpl; auto. Qed.

Lemma lawful_guard b m : lawful (λ _, b = false) (raise_if b (LifecycleTransitionError m)).
Proof. destruct b; simpl; [left; by eexists|done]. Qed.

Lemma lawful_guarded {B} (Q : B → Prop) b m (k : result B) :
  (b = false → lawful Q k) → lawful Q (raise_if b (LifecycleTransitionError m);; k).
Proof. intros H. eapply lawful_bind; [apply lawful_guard|]. auto. Qed.

Lemma lawful_refused {A} (P : A → Prop) m : lawful P (Err (LifecycleTransitionError m)).
Proof. left. by eexists. Qed.

Lemma lawful_mono {A} (P Q : A → Prop) m : lawful P m → (∀ a, P a → Q a) → lawful Q m.
Proof. destruct m; simpl; auto. Qed.

Lemma lawful_episode (P : Episode → Prop) e : episode_ok e → P e → lawful P (checked_episode e).
Proof. intros H HP. by rewrite (proj2 (checked_episode_Ok e e)). Qed.

Lemma lawful_turn (P : Turn → Prop) t : turn_ok t → P t → lawful P (checked_turn t).
Proof. intros H HP. by rewrite (proj2 (checked_turn_Ok t t)). Qed.

Lemma lawful_thread (P : Thread → Prop) t : thread_ok t → P t → lawful P (checked_thread t).
Proof. intros H HP. by rewrite (proj2 (checked_thread_Ok t t)). Qed.

(** ** Episodes extend *)

Lemma same_revision_refl c : same_continuation_revision c c = true.
Proof. destruct c; simpl; [|done]. by apply bool_decide_eq_true. Qed.

Lemma same_revision_trans a b c :
  same_continuation_revision a b = true → same_continuation_revision b c = true → same_continuation_revision a c = true.
Proof. destruct a, b, c; simpl; try done. rewrite !bool_decide_eq_true. congruence. Qed.

Lemma same_revision_state a c s : same_continuation_revision a (Some (with_state c s)) = same_continuation_revision a (Some c).
Proof. by destruct a. Qed.

Lemma with_state_retire c s : with_state (retire c) s = with_state c s.
Proof. unfold retire. by destruct (bool_decide (c_state c = RETIRED)). Qed.

Lemma same_revision_retire a c : same_continuation_revision a (retire <$> c) = same_continuation_revision a c.
Proof. destruct c as [c|], a; simpl; try done. by rewrite with_state_retire. Qed.

Lemma same_revision_retire_l c a : same_continuation_revision (retire <$> c) a = same_continuation_revision c a.
Proof. destruct c as [c|], a; simpl; try done. by rewrite with_state_retire. Qed.

Lemma retire_state c : c_state (retire c) = RETIRED ∧ c_id (retire c) = c_id c ∧ c_thread (retire c) = c_thread c.
Proof. unfold retire. by case_bool_decide. Qed.

(** A turn becomes a later form of itself; a settled one stays as it is. *)
Definition turn_extends (t t' : Turn) : Prop :=
  turn_id t' = turn_id t ∧ turn_appends t <= turn_appends t' ∧ (is_running t = false → t' = t).

Record episode_extends (e e' : Episode) : Prop := {
  ex_id : ep_id e' = ep_id e ∧ ep_thread e' = ep_thread e ∧ program e' = program e ∧ runtime e' = runtime e ∧
    budget e' = budget e ∧ expected_continuation e' = expected_continuation e;
  ex_continuation : same_continuation_revision (ep_continuation e) (ep_continuation e') = true;
  ex_turns : ∀ i t, turns e !! i = Some t → ∃ t', turns e' !! i = Some t' ∧ turn_extends t t';
  ex_settled : ep_state e = SETTLED → e' = e;
  ex_cancelling : ep_state e = CANCELLING → ep_state e' ≠ RUNNING ∧
    settlement e' ≠ Some COMPLETED ∧ settlement e' ≠ Some BUDGET_EXHAUSTED
}.

#[export] Instance turn_extends_preorder : PreOrder turn_extends.
Proof.
  split; [by intros t; split_and!|]. intros a b c (I1 & A1 & S1) (I2 & A2 & S2).
  split_and!; [congruence|lia|]. intros H. pose proof (S1 H); subst. by apply S2.
Qed.

#[export] Instance episode_extends_trans : Transitive episode_extends.
Proof.
  intros a b c [(? & ? & ? & ? & ? & ?) C1 T1 S1 X1] [(? & ? & ? & ? & ? & ?) C2 T2 S2 X2]. split.
  - split_and!; congruence.
  - by eapply same_revision_trans.
  - intros i t Ht. apply T1 in Ht as (t1 & Ht1 & E1). apply T2 in Ht1 as (t2 & Ht2 & E2). exists t2. split; [done|by etrans].
  - intros Ha. pose proof (S1 Ha) as ->. by apply S2.
  - intros Ha. destruct (X1 Ha) as (Hr & Hc & Hb). destruct (ep_state b) eqn:Eb; [done|by apply X2|].
    rewrite (S2 eq_refl). by rewrite Eb.
Qed.

(** Reflexivity holds for well-formed episodes: an active one has no outcome. *)
Lemma episode_extends_refl e : episode_ok e → episode_extends e e.
Proof.
  intros He. split; try done; [apply same_revision_refl|by intros i t Ht; exists t|].
  intros H. pose proof (eo_state e He) as Hs. unfold state_ok in Hs. rewrite H in *. destruct Hs as [-> _]. by split_and!.
Qed.

(** ** Episode operations *)

(** What an operation of an active episode other than settling leaves. *)
Definition stepped (e e' : Episode) : Prop :=
  valid_episode e' ∧ episode_extends e e' ∧ ep_continuation e' = ep_continuation e ∧ is_active e' = true.

Lemma is_active_state e : is_active e = true ↔ ep_state e = RUNNING ∨ ep_state e = CANCELLING.
Proof. unfold is_active. destruct (ep_state e); simpl; naive_solver. Qed.

Lemma state_ok_turns e ts n : is_active e = true → state_ok e → state_ok (with_turns e ts n).
Proof. intros [H|H]%is_active_state; unfold state_ok; simpl; by rewrite H. Qed.

Lemma sum_appends_app l k : sum_appends (l ++ k) = sum_appends l + sum_appends k.
Proof. induction l as [|t l IH]; simpl; [done|]. rewrite IH. lia. Qed.

(** Replacing the turns of an active episode. *)
Lemma with_turns_stepped e ts n : valid_episode e → is_active e = true →
  Forall turn_ok ts → Forall (λ t, turn_episode t = ep_id e) ts → NoDup (turn_id <$> ts) →
  (ordinal <$> ts) = zrange 1 (length ts) → Z.of_nat (length ts) <= max_turns (budget e) →
  sum_appends ts = n → 0 <= n <= max_accepted_appends (budget e) → only_last is_running ts = true →
  (∀ i t, turns e !! i = Some t → ∃ t', ts !! i = Some t' ∧ turn_extends t t') →
  lawful (stepped e) (checked_episode (with_turns e ts n)).
Proof.
  intros [He Ht] Hact Hts Hep Hids Hord Hmax Hsum Hn Hlast Hext. destruct He.
  assert (state_ok (with_turns e ts n)) as Hs by (by apply state_ok_turns).
  assert (episode_ok (with_turns e ts n)) as Hok by (split; simpl; try done; lia).
  apply lawful_episode; [done|]. split; [by split|]. split; [|done].
  split; simpl; try done; [apply same_revision_refl|intros E; apply is_active_state in Hact as [?|?]; congruence|].
  intros E. rewrite E. split; [done|]. unfold state_ok in Hs. simpl in Hs. rewrite E in Hs. destruct Hs as [-> _]. done.
Qed.

Lemma zrange_snoc a n : zrange a (n + 1) = zrange a n ++ [a + Z.of_nat n].
Proof. rewrite zrange_app. unfold zrange at 2. simpl. by rewrite Z.add_0_r. Qed.

Lemma lookup_snoc {A} (l : list A) x i y : l !! i = Some y → (l ++ [x]) !! i = Some y.
Proof. intros H. by apply lookup_app_l_Some. Qed.

Lemma active_turn_None e : only_last is_running (turns e) = true → active_turn e = None →
  Forall (λ t, is_running t = false) (turns e).
Proof.
  intros Hl Ha. unfold active_turn in Ha. destruct (snoc_cases (turns e)) as [E|(k & t & E)]; rewrite E in *; [constructor|].
  apply only_last_snoc in Hl. rewrite last_snoc in Ha. apply Forall_app. split; [done|].
  constructor; [|done]. by destruct (is_running t).
Qed.

Lemma start_turn_lawful e id : valid_episode e → lawful (stepped e) (start_turn e id).
Proof.
  intros Hv. pose proof Hv as [He Ht]. unfold start_turn, EpisodeBudgetExceeded.
  apply lawful_guarded; intros Hr%negb_bool_decide_false. apply lawful_guarded; intros Ha%bool_decide_false_iff%eq_None_not_Some.
  apply lawful_guarded; intros Hm%Z.leb_gt. apply lawful_guarded; intros Hn%Z.leb_gt.
  apply lawful_guarded; intros Hid%existsb_false_Forall.
  pose proof (active_turn_None e (eo_last e He) Ha) as Hnone.
  eapply (lawful_bind (λ t, t = MkTurn id (ep_id e) (Z.of_nat (length (turns e)) + 1) TURN_RUNNING 0 None ∧ turn_ok t)).
  { apply lawful_turn; [|split; [done|]]; split; simpl; lia || done. }
  intros t [-> Htok]. pose proof (eo_ordinals e He) as Hord. destruct He. apply with_turns_stepped; try done.
  - by apply is_active_state; left.
  - apply Forall_app; split; [done|by constructor].
  - apply Forall_app; split; [done|by constructor].
  - rewrite fmap_app. apply NoDup_app. split; [done|]. split; [|apply NoDup_singleton].
    intros x Hx ->%list_elem_of_singleton. apply list_elem_of_fmap in Hx as (t & E & Hin).
    rewrite Forall_forall in Hid. apply Hid in Hin. simpl in *. rewrite <-E, String.eqb_refl in Hin. done.
  - rewrite fmap_app, length_app, Hord. simpl. rewrite zrange_snoc. do 2 f_equal. lia.
  - rewrite length_app. simpl. lia.
  - rewrite sum_appends_app. simpl. lia.
  - by apply only_last_snoc.
  - intros i t Hi. exists t. split; [by apply lookup_snoc|done].
Qed.

Lemma require_active_turn_lawful e id :
  lawful (λ t, ∃ pre, turns e = pre ++ [t] ∧ is_running t = true) (require_active_turn e id).
Proof.
  unfold require_active_turn, active_turn. destruct (snoc_cases (turns e)) as [->|(pre & t & ->)]; [apply lawful_refused|].
  rewrite last_snoc. destruct (is_running t) eqn:Er; [|apply lawful_refused].
  destruct (_ =? _)%string; [by exists pre|apply lawful_refused].
Qed.

Lemma replace_turn_lawful e pre t0 t n : valid_episode e → is_active e = true → turns e = pre ++ [t0] →
  is_running t0 = true → turn_ok t → turn_id t = turn_id t0 → turn_episode t = turn_episode t0 → ordinal t = ordinal t0 →
  turn_appends t0 <= turn_appends t →
  default (accepted_appends e) n = accepted_appends e + (turn_appends t - turn_appends t0) →
  default (accepted_appends e) n <= max_accepted_appends (budget e) →
  lawful (stepped e) (replace_turn e t n).
Proof.
  intros Hv Hact Ht Hr Htok Hid Hep Hord Hle Hn Hmax. unfold replace_turn. rewrite Ht, removelast_snoc.
  pose proof Hv as [He Hts]. destruct He as [_ _ _ _ _ H6 H7 H8 H9 H10 H11 _ H13 _]. rewrite Ht in *.
  apply Forall_app in Hts as [Hpre _]. apply Forall_app in H7 as [H7 H7']. apply only_last_snoc in H13.
  rewrite !fmap_app, !length_app, sum_appends_app in *. simpl in *.
  apply with_turns_stepped; try done; rewrite ?fmap_app, ?length_app, ?sum_appends_app; simpl.
  - apply Forall_app. by split; [|constructor].
  - apply Forall_app. split; [done|]. constructor; [|done]. rewrite Hep. by inversion H7'.
  - by rewrite Hid.
  - by rewrite Hord.
  - done.
  - lia.
  - lia.
  - by apply only_last_snoc.
  - rewrite Ht. intros i t' Hi. destruct (decide (i < length pre)%nat) as [Hlt|Hge].
    + exists t'. rewrite lookup_app_l in Hi |- * by done. done.
    + rewrite lookup_app_r in Hi |- * by lia. exists t. destruct (i - length pre)%nat; [|done]. simplify_eq/=.
      split; [done|]. split_and!; [done|lia|]. congruence.
Qed.

Lemma running_not_settled t : is_running t = true ↔ turn_state t = TURN_RUNNING.
Proof. unfold is_running. apply bool_decide_eq_true. Qed.

Lemma last_turn_ok e pre t : valid_episode e → turns e = pre ++ [t] → turn_ok t.
Proof. intros [_ H] E. rewrite E in H. apply Forall_app in H as [_ H]. by inversion H. Qed.

Lemma accept_append_lawful e id : valid_episode e → lawful (stepped e) (accept_append e id).
Proof.
  intros Hv. unfold accept_append, EpisodeBudgetExceeded. apply lawful_guarded; intros Hr%negb_bool_decide_false.
  eapply lawful_bind; [apply require_active_turn_lawful|]. intros t (pre & Ht & Hrun).
  apply lawful_guarded; intros Hn%Z.leb_gt. pose proof (last_turn_ok _ _ _ Hv Ht) as [Ho Ha Hout].
  pose proof (proj1 (running_not_settled t) Hrun) as Hrs.
  unfold turn_accept_append. rewrite Hrs. csimpl.
  eapply (lawful_bind (λ t', t' = MkTurn (turn_id t) (turn_episode t) (ordinal t) TURN_RUNNING (turn_appends t + 1) (turn_outcome t)
            ∧ turn_ok t')).
  { apply lawful_turn; [|split; [done|]]; split; simpl; try done; try lia; by rewrite <-Hout. }
  intros t' [-> Htok]. eapply replace_turn_lawful; simpl; try done; try lia. by apply is_active_state; left.
Qed.

Lemma settle_turn_lawful e id outcome : valid_episode e → is_active e = true → lawful (stepped e) (settle_turn e id outcome).
Proof.
  intros Hv Hact. unfold settle_turn.
  eapply lawful_bind; [apply require_active_turn_lawful|]. intros t (pre & Ht & Hrun).
  apply lawful_guarded; intros _. pose proof (last_turn_ok _ _ _ Hv Ht) as [Ho Ha Hout].
  pose proof (proj1 (running_not_settled t) Hrun) as Hrs.
  unfold turn_settle. rewrite Hrs. csimpl.
  eapply (lawful_bind (λ t', t' = MkTurn (turn_id t) (turn_episode t) (ordinal t) TURN_SETTLED (turn_appends t) (Some outcome)
            ∧ turn_ok t')).
  { apply lawful_turn; [|split; [done|]]; split; simpl; try done; lia. }
  intros t' [-> Htok]. pose proof (eo_max_appends e (proj1 Hv)).
  eapply replace_turn_lawful; simpl; try done; lia.
Qed.

Lemma request_cancellation_lawful e : valid_episode e → is_active e = true →
  lawful (λ ed, stepped e ed.1 ∧ ep_state ed.1 = CANCELLING) (episode_request_cancellation e).
Proof.
  intros Hv Hact. pose proof Hv as [He Hts]. unfold episode_request_cancellation.
  destruct (ep_state e) eqn:Es; [|simpl|by apply is_active_state in Hact as [?|?]; congruence].
  - eapply (lawful_bind (λ e', stepped e e' ∧ ep_state e' = CANCELLING)); [|done].
    pose proof (eo_state e He) as Hs. unfold state_ok in Hs. rewrite Es in Hs. destruct Hs as (Hs1 & Hs2 & Hs3).
    pose proof He as [].
    apply lawful_episode; [split; simpl; try done; by split_and!|].
    split; [|done]. split; [|split; [|done]].
    + split; [|done]. split; simpl; try done.
    + split; simpl; try done; [apply same_revision_refl|by intros i t Ht; exists t|congruence|congruence].
  - split; [|done]. split; [done|]. split; [by apply episode_extends_refl|done].
Qed.

(** What a settlement result must satisfy for an episode. *)
Definition result_for (e : Episode) (outcome : EpisodeOutcome) (next : option Continuation) : Prop :=
  (outcome = COMPLETED → is_Some (expected_continuation e) → is_Some next) ∧
  ∀ c, next = Some c → c_thread c = ep_thread e ∧ c_state c = AVAILABLE ∧
    expected_continuation e = Some (cd_identity (c_descriptor c)) ∧ cd_program (c_descriptor c) = program e.

Lemma episode_settle_lawful e outcome next : valid_episode e → is_active e = true → result_for e outcome next →
  lawful (λ ed, valid_episode ed.1 ∧ episode_extends e ed.1 ∧ is_active ed.1 = false ∧ next_continuation ed.1 = next ∧
            ep_continuation ed.1 = retire <$> ep_continuation e ∧ ep_id ed.1 = ep_id e ∧ ed.2 = ACCEPTED)
    (episode_settle e outcome next).
Proof.
  intros Hv Hact [Hr1 Hr2]. pose proof Hv as [He Hts]. unfold episode_settle.
  rewrite bool_decide_false by (apply is_active_state in Hact as [E|E]; by rewrite E).
  apply lawful_guarded; intros Hn%bool_decide_false_iff%eq_None_not_Some.
  apply lawful_guarded; intros Hc. apply lawful_guarded; intros _. apply lawful_guarded; intros Hb.
  pose proof (active_turn_None e (eo_last e He) Hn) as Hnone. pose proof (eo_continuation e He) as Hct.
  set (e' := MkEpisode (ep_id e) (ep_thread e) (program e) (runtime e) (budget e) (expected_continuation e)
          (retire <$> ep_continuation e) SETTLED (turns e) (accepted_appends e) (Some outcome) next).
  assert (∀ c, retire <$> ep_continuation e = Some c → c_thread c = ep_thread e ∧ c_state c = RETIRED) as Hcc.
  { intros c E. destruct (ep_continuation e) as [c0|]; simplify_eq/=. destruct (retire_state c0) as (-> & _ & ->).
    split; [by apply Hct|done]. }
  assert (episode_ok e') as Hok.
  { destruct He. split; simpl; try done; [by intros; apply Hcc|by intros; apply Hr2|].
    split; [by eexists|]. split; [done|]. split; [by intros; apply Hcc|].
    split; unfold e'; simpl; [intros [= E]; by apply Hr1|]. intros c E. by destruct (Hr2 c E) as (_ & ? & ? & ?). }
  eapply (lawful_bind (λ x, x = e')); [by apply lawful_episode|]. intros x ->. simpl.
  split_and!; try done. split; simpl; try done.
  - rewrite same_revision_retire. apply same_revision_refl.
  - by intros i t Ht; exists t.
  - intros E. apply is_active_state in Hact as [?|?]; congruence.
  - intros E. rewrite E in *. split; [done|]. by destruct outcome.
Qed.

(** ** Threads extend *)

Record thread_extends (t t' : Thread) : Prop := {
  tx_id : th_id t' = th_id t;
  tx_closed : th_state t = CLOSED → t' = t;
  tx_episodes : ∀ i e, episodes t !! i = Some e → ∃ e', episodes t' !! i = Some e' ∧ episode_extends e e'
}.

#[export] Instance thread_extends_trans : Transitive thread_extends.
Proof.
  intros a b c [I1 C1 E1] [I2 C2 E2]. split; [congruence| |].
  - intros H. pose proof (C1 H) as ->. by apply C2.
  - intros i e He. apply E1 in He as (e1 & He1 & X1). apply E2 in He1 as (e2 & He2 & X2). exists e2. split; [done|by etrans].
Qed.

Lemma episodes_extend_refl es i e : Forall valid_episode es → es !! i = Some e → ∃ e', es !! i = Some e' ∧ episode_extends e e'.
Proof.
  intros H Hi. exists e. split; [done|]. apply episode_extends_refl. by apply (Forall_lookup_1 _ _ _ _ H Hi).
Qed.

Lemma thread_extends_refl t : valid_thread t → thread_extends t t.
Proof. intros [_ H]. split; try done. intros i e. by apply episodes_extend_refl. Qed.

Lemma adjacent_snoc es e : adjacent_revisions (es ++ [e]) =
  adjacent_revisions es && match last es with Some e0 => same_continuation_revision (next_continuation e0) (ep_continuation e) | None => true end.
Proof.
  induction es as [|a es IH]; [done|]. destruct es as [|b es]; [simpl; by rewrite andb_true_r|].
  change (adjacent_revisions ((a :: b :: es) ++ [e])) with
    (same_continuation_revision (next_continuation a) (ep_continuation b) && adjacent_revisions ((b :: es) ++ [e])).
  rewrite IH, last_cons_cons. by rewrite andb_assoc.
Qed.

Lemma output_ids_snoc es e : output_ids (es ++ [e]) = output_ids es ++ (match next_continuation e with Some c => [c_id c] | None => [] end).
Proof. unfold output_ids. rewrite omap_app, fmap_app. f_equal. simpl. by destruct (next_continuation e). Qed.

Lemma active_open t pre e : thread_ok t → episodes t = pre ++ [e] → is_active e = true → th_state t = OPEN.
Proof.
  intros Ht E Ha. destruct (th_state t) eqn:Es; [done|]. pose proof (tk_state t Ht) as Hs. unfold thread_state_ok in Hs.
  rewrite Es, E in Hs. destruct Hs as (Hs & _). apply Forall_app in Hs as [_ Hs]. inversion Hs. congruence.
Qed.

(** Putting an extended last episode in place. *)
Lemma replace_last_ok t pre e e' c : valid_thread t → episodes t = pre ++ [e] → is_active e = true →
  valid_episode e' → episode_extends e e' →
  (∀ c', c = Some c' → c_thread c' = th_id t) →
  NoDup (output_ids (pre ++ [e'])) →
  (if is_active e' then c = ep_continuation e' else (∀ c', c = Some c' → c_state c' = AVAILABLE) ∧ c = next_continuation e') →
  let t' := MkThread (th_id t) (th_state t) (pre ++ [e']) c in thread_ok t' ∧ valid_thread t' ∧ thread_extends t t'.
Proof.
  intros [Ht Hes] E Ha Hv Hx Hc Ho Hst t'. pose proof (active_open _ _ _ Ht E Ha) as Hopen.
  pose proof Hx as [(Hid & Hth & _) Hcont _ _ _]. rewrite E in Hes. apply Forall_app in Hes as [Hpre He].
  assert (thread_ok t') as Hok.
  { destruct Ht as [T1 T2 T3 T4 T5 T6 T7]. rewrite E in *. rewrite adjacent_snoc in T4. apply andb_true_iff in T4 as [T4 T4'].
    rewrite fmap_app in T2. apply Forall_app in T1 as [T1 T1']. split; simpl; try done.
    - apply Forall_app. split; [done|]. constructor; [|done]. rewrite Hth. by inversion T1'.
    - rewrite fmap_app. simpl. by rewrite Hid.
    - apply only_last_snoc. by apply only_last_snoc in T3.
    - rewrite adjacent_snoc, T4. simpl. destruct (last pre); [|done]. by eapply same_revision_trans.
    - unfold thread_state_ok. simpl. by rewrite Hopen, last_snoc. }
  split; [done|]. split; [split; [done|]; apply Forall_app; by split; [|constructor]|].
  split; simpl; try done; [congruence|]. rewrite E. intros i x Hi. destruct (decide (i < length pre)%nat) as [Hlt|Hge].
  - rewrite lookup_app_l in Hi |- * by done. by apply episodes_extend_refl.
  - rewrite lookup_app_r in Hi |- * by lia. destruct (i - length pre)%nat; [|done]. simplify_eq/=. by exists e'.
Qed.

(** ** Thread operations *)

Definition advanced (t t' : Thread) : Prop := valid_thread t' ∧ thread_extends t t'.

Lemma active_episode_lawful t :
  lawful (λ e, ∃ pre, episodes t = pre ++ [e] ∧ is_active e = true) (active_episode t).
Proof.
  unfold active_episode. destruct (snoc_cases (episodes t)) as [->|(pre & e & ->)]; [apply lawful_refused|].
  rewrite last_snoc. apply lawful_guarded; intros H%negb_false_iff. by exists pre.
Qed.

Lemma last_episode_valid t pre e : valid_thread t → episodes t = pre ++ [e] → valid_episode e.
Proof. intros [_ H] E. rewrite E in H. apply Forall_app in H as [_ H]. by inversion H. Qed.

Lemma replace_active_lawful t pre e e' : valid_thread t → episodes t = pre ++ [e] → is_active e = true → stepped e e' →
  lawful (advanced t) (replace_active_episode t e').
Proof.
  intros Hv E Ha (Hv' & Hx & Hc & Ha'). unfold replace_active_episode. rewrite E, removelast_snoc.
  pose proof (last_episode_valid _ _ _ Hv E) as [He _].
  destruct (replace_last_ok t pre e e' (ep_continuation e') Hv E Ha Hv' Hx) as (Hok & Hadv).
  - intros c Hcc. rewrite Hc in Hcc. rewrite (eo_continuation e He c Hcc).
    destruct Hv as [Ht _]. pose proof (tk_thread t Ht) as H. rewrite E in H. apply Forall_app in H as [_ H]. by inversion H.
  - destruct Hv as [Ht _]. pose proof (tk_outputs t Ht) as H. rewrite E in H. rewrite output_ids_snoc in *.
    assert (next_continuation e' = None) as ->; [|rewrite app_nil_r; by apply NoDup_app in H as [? _]].
    pose proof (eo_state e' (proj1 Hv')) as Hs. unfold state_ok in Hs.
    apply is_active_state in Ha' as [E'|E']; rewrite E' in Hs; by destruct Hs as (_ & ? & _).
  - by rewrite Ha'.
  - by apply lawful_thread.
Qed.

(** An operation on the active episode. *)
Lemma on_active_lawful t (f : Episode → result Episode) : valid_thread t →
  (∀ e, valid_episode e → is_active e = true → lawful (stepped e) (f e)) →
  lawful (advanced t) (e ← active_episode t; e ← f e; replace_active_episode t e).
Proof.
  intros Hv Hf. eapply lawful_bind; [apply active_episode_lawful|]. intros e (pre & E & Ha).
  eapply lawful_bind; [apply Hf; [by eapply last_episode_valid|done]|]. intros e' Hs. by eapply replace_active_lawful.
Qed.

Lemma thread_cancellation_lawful t : valid_thread t → lawful (λ td, advanced t td.1) (request_cancellation t).
Proof.
  intros Hv. unfold request_cancellation. destruct (last_settled t); [split; [done|by apply thread_extends_refl]|].
  eapply lawful_bind; [apply active_episode_lawful|]. intros e (pre & E & Ha).
  eapply lawful_bind; [apply request_cancellation_lawful; [by eapply last_episode_valid|done]|].
  intros [e' d] [Hs _]. eapply lawful_bind; [by eapply replace_active_lawful|]. done.
Qed.

Lemma validate_thread_result_lawful t e outcome c : ep_thread e = th_id t →
  lawful (λ _, result_for e outcome c ∧ (∀ c', c = Some c' → c_id c' ∉ known_ids t))
    (validate_thread_result t e outcome c).
Proof.
  intros Hth. unfold validate_thread_result, result_for. apply lawful_guarded; intros Hg.
  assert (outcome = COMPLETED → is_Some (expected_continuation e) → is_Some c) as H1.
  { intros -> Hx. destruct c; [by eexists|]. rewrite !bool_decide_true in Hg by done. done. }
  destruct c as [c|]; [|by split; [split|]].
  eapply (lawful_bind (λ x, expected_continuation e = Some x)).
  { destruct (expected_continuation e); [done|apply lawful_refused]. }
  intros x Hx. apply lawful_guarded; intros Hc%negb_false_iff%String.eqb_eq. apply lawful_guarded; intros Ha%negb_bool_decide_false.
  apply lawful_guarded; intros Hi%negb_bool_decide_false. apply lawful_guarded; intros Hp%negb_bool_decide_false.
  eapply lawful_mono; [apply lawful_guard|]. intros _ Hk%bool_decide_false_iff.
  split; [split; [done|]|]; intros c' [= <-]; [|done]. split_and!; congruence.
Qed.

Lemma known_ids_app t pre e : episodes t = pre ++ [e] → output_ids pre ⊆ known_ids t.
Proof.
  intros E x Hx. unfold output_ids in Hx. apply list_elem_of_fmap in Hx as (c & -> & Hc).
  apply list_elem_of_omap in Hc as (e0 & He0 & Hn). unfold known_ids. apply list_elem_of_In, in_flat_map.
  exists e0. split; [apply list_elem_of_In; rewrite E; set_solver|]. rewrite Hn. apply in_app_iff. right. by left.
Qed.

Lemma settle_episode_lawful t outcome c : valid_thread t → lawful (λ td, advanced t td.1) (settle_episode t outcome c).
Proof.
  intros Hv. unfold settle_episode. destruct (snoc_cases (episodes t)) as [E|(pre & e & E)]; rewrite E; [apply lawful_refused|].
  rewrite last_snoc, removelast_snoc. pose proof (last_episode_valid _ _ _ Hv E) as Hve. pose proof Hv as [Ht Hes].
  destruct (is_active e) eqn:Ha; simpl.
  - pose proof (tk_thread t Ht) as Hth. rewrite E in Hth. apply Forall_app in Hth as [_ Hth]. inversion Hth as [|? ? Hth' _]; subst.
    eapply lawful_bind; [by apply validate_thread_result_lawful|]. intros _ [Hr Hk].
    eapply lawful_bind; [by apply episode_settle_lawful|]. intros [e' d] (Hv' & Hx & Ha' & Hn & _). simpl in *.
    destruct (replace_last_ok t pre e e' c Hv E Ha Hv' Hx) as (Hok & Hadv).
    + intros c' Hc'. destruct Hr as [_ Hr]. rewrite <-Hth'. by apply Hr.
    + rewrite output_ids_snoc, Hn. pose proof (tk_outputs t Ht) as Ho. rewrite E, output_ids_snoc in Ho.
      apply NoDup_app in Ho as [Ho _]. destruct c as [c|]; [|by rewrite app_nil_r].
      apply NoDup_app. split; [done|]. split; [|apply NoDup_singleton].
      intros x Hx1 ->%list_elem_of_singleton. by eapply (Hk c eq_refl), known_ids_app.
    + rewrite Ha'. split; [|done]. intros c' Hc'. destruct Hr as [_ Hr]. by apply Hr.
    + eapply (lawful_bind (λ x, x = MkThread (th_id t) (th_state t) (pre ++ [e']) c)); [by apply lawful_thread|].
      intros x ->. done.
  - unfold episode_settle. assert (ep_state e = SETTLED) as -> by (by apply negb_false_iff, bool_decide_eq_true in Ha).
    rewrite bool_decide_true by done. destruct (_ && _); [|apply lawful_refused]. simpl.
    split; [done|by apply thread_extends_refl].
Qed.

(** The arguments of [start_episode] as their constructors leave them. *)
Record episode_args (p : AgentProgramDescriptor) (rt : DescriptorIdentity) (b : EpisodeBudget) : Prop := {
  ea_program : identity_kind (apd_identity p) = PROGRAM;
  ea_produced : ∀ x, produced_continuation p = Some x → identity_kind x = CONTINUATION;
  ea_runtime : identity_kind rt = RUNTIME;
  ea_budget : 0 < max_turns b ∧ 0 < max_accepted_appends b
}.

(** A resting open thread holds the last result, available to be claimed. *)
Lemma resting_continuation t : thread_ok t → th_state t = OPEN → last_active t = false →
  Forall (λ e, is_active e = false) (episodes t) ∧
  (∀ c, th_continuation t = Some c → c_state c = AVAILABLE) ∧
  ∀ e, last (episodes t) = Some e → th_continuation t = next_continuation e.
Proof.
  intros [_ _ Hl _ _ _ Hs] Ho Ha. unfold thread_state_ok, last_active in *. rewrite Ho in Hs.
  destruct (snoc_cases (episodes t)) as [E|(pre & e & E)]; rewrite E in *; [done|].
  rewrite last_snoc in *. rewrite Ha in Hs. destruct Hs as [Hs1 Hs2]. apply only_last_snoc in Hl.
  split; [apply Forall_app; by split; [|constructor]|]. split; [done|]. by intros ? [= <-].
Qed.

Lemma require_compatible_lawful p c : lawful (λ _, True) (require_continuation_compatible p c).
Proof. unfold require_continuation_compatible. destruct (compatibility_issues p c); simpl; [done|right; by eexists]. Qed.

Lemma opt_claim_available c : (∀ x, c = Some x → c_state x = AVAILABLE) →
  opt_claim c = Ok ((λ x, with_state x IN_USE) <$> c).
Proof. destruct c as [c|]; intros H; [|done]. simpl. unfold claim. by rewrite (H c eq_refl). Qed.

Lemma start_episode_lawful t id p rt b : valid_thread t → episode_args p rt b →
  lawful (advanced t) (start_episode t id p rt b).
Proof.
  intros Hv [A1 A2 A3 A4]. pose proof Hv as [Ht Hes]. unfold start_episode.
  apply lawful_guarded; intros Ho%negb_bool_decide_false. apply lawful_guarded; intros Ha.
  apply lawful_guarded; intros Hid%existsb_false_Forall.
  eapply lawful_bind; [apply require_compatible_lawful|]. intros _ _.
  destruct (resting_continuation t Ht Ho Ha) as (Hrest & Hav & Hlast).
  rewrite opt_claim_available by done. csimpl.
  set (c := (λ x, with_state x IN_USE) <$> th_continuation t).
  assert (∀ x, c = Some x → c_thread x = th_id t ∧ c_state x = IN_USE) as Hc.
  { intros x Hx. pose proof (tk_continuation t Ht) as H. unfold c in Hx. destruct (th_continuation t) as [y|]; simplify_eq/=.
    split; [by apply H|done]. }
  set (e := MkEpisode id (th_id t) (apd_identity p) rt b (produced_continuation p) c RUNNING [] 0 None None).
  assert (episode_ok e) as He.
  { split; unfold e; simpl; try done; try lia; [by intros x Hx; destruct (Hc x Hx)|constructor|].
    split_and!; try done. by intros x Hx; destruct (Hc x Hx). }
  eapply (lawful_bind (λ x, x = e)); [by apply lawful_episode|]. intros x ->.
  set (t' := MkThread (th_id t) (th_state t) (episodes t ++ [e]) c).
  assert (thread_ok t') as Hok.
  { destruct Ht as [T1 T2 T3 T4 T5 T6 T7]. split; unfold t'; simpl.
    - apply Forall_app. by split; [|constructor].
    - rewrite fmap_app. apply NoDup_app. split; [done|]. split; [|apply NoDup_singleton].
      intros y Hy ->%list_elem_of_singleton. apply list_elem_of_fmap in Hy as (e0 & E & Hin).
      rewrite Forall_forall in Hid. apply Hid in Hin. simpl in *. rewrite <-E, String.eqb_refl in Hin. done.
    - by apply only_last_snoc.
    - rewrite adjacent_snoc, T4. simpl. destruct (last (episodes t)) as [e0|] eqn:El; [|done].
      unfold c. rewrite (Hlast e0 eq_refl). destruct (next_continuation e0); simpl; [|done]. by apply bool_decide_eq_true.
    - rewrite output_ids_snoc. simpl. by rewrite app_nil_r.
    - by intros y Hy; destruct (Hc y Hy).
    - unfold thread_state_ok. simpl. by rewrite Ho, last_snoc. }
  apply lawful_thread; [done|]. split; [split; [done|]; apply Forall_app; split; [done|]; constructor; [split; [done|constructor]|constructor]|].
  split; simpl; try done; [congruence|]. intros i e0 Hi. exists e0. split; [by apply lookup_snoc|].
  apply episode_extends_refl. by apply (Forall_lookup_1 _ _ _ _ Hes Hi).
Qed.

Lemma close_lawful t : valid_thread t → lawful (λ t', advanced t t' ∧ th_state t' = CLOSED) (close t).
Proof.
  intros Hv. pose proof Hv as [Ht Hes]. unfold close. case_bool_decide as Hcl; [by split; [split; [|apply thread_extends_refl]|]|].
  assert (th_state t = OPEN) as Ho by (by destruct (th_state t)).
  apply lawful_guarded; intros Ha. destruct (resting_continuation t Ht Ho Ha) as (Hrest & Hav & Hlast).
  set (t' := MkThread (th_id t) CLOSED (episodes t) (retire <$> th_continuation t)).
  assert (thread_ok t') as Hok.
  { destruct Ht as [T1 T2 T3 T4 T5 T6 T7]. split; unfold t'; simpl; try done.
    - intros c Hc. destruct (th_continuation t) as [y|]; simplify_eq/=. rewrite (proj2 (proj2 (retire_state y))). by apply T6.
    - unfold thread_state_ok. simpl. split; [done|]. split.
      + intros c Hc. destruct (th_continuation t) as [y|]; simplify_eq/=. apply retire_state.
      + intros e El. rewrite same_revision_retire_l, (Hlast e El). apply same_revision_refl. }
  apply lawful_thread; [done|]. split; [|done]. split; [done|]. split; simpl; try done.
  intros i e Hi. by apply episodes_extend_refl.
Qed.

(** ** Lives of a thread *)

Inductive thread_op :=
| OpStartEpisode (id : EpisodeId) (p : AgentProgramDescriptor) (rt : DescriptorIdentity) (b : EpisodeBudget)
| OpStartTurn (id : TurnId)
| OpAcceptAppend (id : TurnId)
| OpSettleTurn (id : TurnId) (outcome : TurnOutcome)
| OpRequestCancellation
| OpSettleEpisode (outcome : EpisodeOutcome) (c : option Continuation)
| OpClose.

Definition apply_op (t : Thread) (op : thread_op) : result Thread :=
  match op with
  | OpStartEpisode id p rt b => start_episode t id p rt b
  | OpStartTurn id => thread_start_turn t id
  | OpAcceptAppend id => thread_accept_append t id
  | OpSettleTurn id outcome => thread_settle_turn t id outcome
  | OpRequestCancellation => fst <$> request_cancellation t
  | OpSettleEpisode outcome c => fst <$> settle_episode t outcome c
  | OpClose => close t
  end.

Definition op_ok (op : thread_op) : Prop :=
  match op with OpStartEpisode _ p rt b => episode_args p rt b | _ => True end.

Definition thread_step (t t' : Thread) : Prop := ∃ op, op_ok op ∧ apply_op t op = Ok t'.

Lemma lawful_fmap {A B} (P : B → Prop) (f : A → B) m : lawful (λ a, P (f a)) m → lawful P (f <$> m).
Proof. by destruct m. Qed.

Lemma apply_op_lawful t op : valid_thread t → op_ok op → lawful (advanced t) (apply_op t op).
Proof.
  intros Hv Hop. destruct op; simpl in *.
  - by apply start_episode_lawful.
  - apply on_active_lawful; [done|]. intros. by apply start_turn_lawful.
  - apply on_active_lawful; [done|]. intros. by apply accept_append_lawful.
  - apply on_active_lawful; [done|]. intros. by apply settle_turn_lawful.
  - apply lawful_fmap. by apply thread_cancellation_lawful.
  - apply lawful_fmap. by apply settle_episode_lawful.
  - eapply lawful_mono; [by apply close_lawful|]. by intros ? [? _].
Qed.

(** C13: on a thread as its constructor leaves it, every operation either
    refuses with a lifecycle error or returns a thread that passes every check
    of the constructors again (contiguous turns, accounting within the budget,
    at most one running turn and one active episode, both last, unique ids,
    each continuation revision handed on exactly once), so the checks [replace]
    repeats never fail. Through any sequence of operations a thread only
    extends: settled episodes and settled turns stay as they are, a closed
    thread never changes, and an episode whose cancellation was requested never
    settles as completed or as out of budget. *)
Theorem thread_lifecycle_is_sound t : valid_thread t →
  (∀ op, op_ok op → lawful (advanced t) (apply_op t op)) ∧
  ∀ t', rtc thread_step t t' → valid_thread t' ∧ thread_extends t t'.
Proof.
  intros Hv. split; [intros op; by apply apply_op_lawful|].
  intros t' Hr. induction Hr as [t|t t1 t' (op & Hop & Hs) Hr IH]; [split; [done|by apply thread_extends_refl]|].
  pose proof (apply_op_lawful t op Hv Hop) as H. rewrite Hs in H. destruct H as [Hv1 Hx].
  destruct (IH Hv1) as [? ?]. split; [done|by etrans].
Qed.

(** Settling is idempotent and final: a settlement repeated on its
    result returns the same thread as a duplicate, any other outcome or
    continuation is refused, and a cancellation request comes too late. *)
Theorem settlement_is_final t outcome c t' d :
  settle_episode t outcome c = Ok (t', d) →
  settle_episode t' outcome c = Ok (t', DUPLICATE) ∧
  (∀ outcome' c', outcome' ≠ outcome ∨ c' ≠ c → ∃ m, settle_episode t' outcome' c' = Err (LifecycleTransitionError m)) ∧
  request_cancellation t' = Ok (t', TOO_LATE).
Proof.
  intros H.
  assert (∃ pre e, episodes t' = pre ++ [e] ∧ ep_state e = SETTLED ∧ settlement e = Some outcome ∧ next_continuation e = c)
    as (pre & e & E & Hs & Ho & Hn).
  { unfold settle_episode in H. destruct (snoc_cases (episodes t)) as [E|(pre & e & E)]; rewrite E in H; [done|].
    rewrite last_snoc, removelast_snoc in H. unfold episode_settle in H. destruct (is_active e) eqn:Ha; simpl in H.
    - inv_ok. match goal with H : (if _ then _ else _) = Ok _ |- _ => rename H into Hse end.
      rewrite bool_decide_false in Hse by (apply is_active_state in Ha as [Ha|Ha]; by rewrite Ha). inv_ok.
      repeat match goal with H : checked_episode _ = Ok _ |- _ => apply checked_episode_Ok in H as [-> _]
        | H : checked_thread _ = Ok _ |- _ => apply checked_thread_Ok in H as [-> _] end.
      by eexists pre, _.
    - assert (ep_state e = SETTLED) as Es by (by apply negb_false_iff, bool_decide_eq_true in Ha).
      rewrite bool_decide_true in H by done. destruct (_ && _) eqn:Eb; [|done]. inv_ok.
      apply andb_true_iff in Eb as [E1%bool_decide_eq_true E2%bool_decide_eq_true]. by eexists pre, _. }
  assert (is_active e = false) as Ha by (unfold is_active; by rewrite Hs).
  unfold settle_episode, request_cancellation, last_settled, episode_settle. rewrite E, last_snoc, Ha. simpl.
  rewrite (bool_decide_true (ep_state e = SETTLED)), Ho, Hn by done. split; [|split; [|done]].
  - by rewrite !bool_decide_true.
  - intros outcome' c' Hne. assert (bool_decide (Some outcome = Some outcome') && bool_decide (c = c') = false) as ->; [|by eexists].
    apply andb_false_iff. rewrite !bool_decide_false_iff. destruct Hne; [left; congruence|right; congruence].
Qed.

Definition sample_program : AgentProgramDescriptor :=
  MkAgentProgramDescriptor (MkDescriptorIdentity PROGRAM "planner" 1) NET true [] None false false.
Definition sample_runtime : DescriptorIdentity := MkDescriptorIdentity RUNTIME "local" 1.
Definition sample_thread : Thread := MkThread "thread-1" OPEN [] None.

Lemma thread_lifecycle_is_sound_witness :
  ∃ t e, rtc thread_step sample_thread t ∧ valid_thread t ∧ thread_extends sample_thread t ∧
    episodes t = [e] ∧ accepted_appends e = 1 ∧ ep_state e = CANCELLING.
Proof.
  assert (valid_thread sample_thread) as Hv.
  { split; [apply Thread_post_init_Ok; vm_compute; reflexivity|constructor]. }
  destruct (start_episode sample_thread "ep" sample_program sample_runtime (MkEpisodeBudget 3 5)) as [t1|x] eqn:E1;
    [|vm_compute in E1; discriminate E1].
  destruct (thread_start_turn t1 "turn") as [t2|x] eqn:E2; [|vm_compute in E1; injection E1 as <-; vm_compute in E2; discriminate E2].
  destruct (thread_accept_append t2 "turn") as [t3|x] eqn:E3;
    [|vm_compute in E1; injection E1 as <-; vm_compute in E2; injection E2 as <-; vm_compute in E3; discriminate E3].
  destruct (apply_op t3 OpRequestCancellation) as [t4|x] eqn:E4;
    [|vm_compute in E1; injection E1 as <-; vm_compute in E2; injection E2 as <-; vm_compute in E3; injection E3 as <-;
      vm_compute in E4; discriminate E4].
  assert (rtc thread_step sample_thread t4) as Hr.
  { eapply rtc_l; [exists (OpStartEpisode "ep" sample_program sample_runtime (MkEpisodeBudget 3 5)); split; [|exact E1]|].
    - split; try reflexivity; [intros y Hy; discriminate Hy|split; reflexivity].
    - eapply rtc_l; [exists (OpStartTurn "turn"); split; [exact I|exact E2]|].
      eapply rtc_l; [exists (OpAcceptAppend "turn"); split; [exact I|exact E3]|].
      eapply rtc_l; [exists OpRequestCancellation; split; [exact I|exact E4]|apply rtc_refl]. }
  destruct (proj2 (thread_lifecycle_is_sound sample_thread Hv) t4 Hr) as [Hv4 Hx].
  vm_compute in E1; injection E1 as <-; vm_compute in E2; injection E2 as <-; vm_compute in E3; injection E3 as <-;
    vm_compute in E4; injection E4 as <-.
  eexists _, _. split; [exact Hr|]. split; [exact Hv4|]. split; [exact Hx|]. split; [reflexivity|]. split; reflexivity.
Defined.

Lemma settlement_is_final_witness :
  ∃ t t', settle_episode t FAILED None = Ok (t', ACCEPTED) ∧ settle_episode t' FAILED None = Ok (t', DUPLICATE).
Proof.
  destruct (start_episode sample_thread "ep" sample_program sample_runtime (MkEpisodeBudget 3 5)) as [t|x] eqn:E1;
    [|vm_compute in E1; discriminate E1].
  destruct (settle_episode t FAILED None) as [[t' d]|x] eqn:E2;
    [|vm_compute in E1; injection E1 as <-; vm_compute in E2; discriminate E2].
  pose proof (proj1 (settlement_is_final t FAILED None t' d E2)) as H.
  exists t, t'. split; [|exact H]. rewrite E2. vm_compute in E1; injection E1 as <-; vm_compute in E2. by injection E2 as <- <-.
Defined.
