(* ===== verification/AgentThreadWire.v ===== *)
(** * The wire form of threads (src/src/petrus/agenticus/thread/)

    [to_data] and [from_data] of identities, continuations, budgets, turns,
    episodes and threads: decoding builds each value through its constructor,
    checks included. A thread as its constructors leave it is read back
    unchanged. *)

From stdpp Require Import base gmap sets list strings.
From Stdlib Require Import Ascii ZArith Lia.
From S2P Require Import Prelude PyData Schema AgentText Descriptor AgentThread AgentThreadInvariant.
Open Scope string_scope.
Open Scope list_scope.
Open Scope Z_scope.

(** ** Enumerations *)

Definition continuation_state_value (s : ContinuationState) : string :=
  match s with AVAILABLE => "available" | IN_USE => "in-use" | RETIRED => "retired" end.
Definition thread_state_value (s : ThreadState) : string := match s with OPEN => "open" | CLOSED => "closed" end.
Definition episode_state_value (s : EpisodeState) : string :=
  match s with RUNNING => "running" | CANCELLING => "cancelling" | SETTLED => "settled" end.
Definition turn_state_value (s : TurnState) : string :=
  match s with TURN_RUNNING => "running" | TURN_SETTLED => "settled" end.
Definition turn_outcome_value (o : TurnOutcome) : string :=
  match o with
  | TURN_COMPLETED => "completed" | TURN_FAILED => "failed" | TURN_CANCELLED => "cancelled"
  | TURN_INDETERMINATE => "indeterminate"
  end.
Definition episode_outcome_value (o : EpisodeOutcome) : string :=
  match o with
  | COMPLETED => "completed" | FAILED => "failed" | CANCELLED => "cancelled"
  | BUDGET_EXHAUSTED => "budget-exhausted" | INDETERMINATE => "indeterminate"
  end.

Definition d_continuation_state : Data → result ContinuationState :=
  d_enum [AVAILABLE; IN_USE; RETIRED] continuation_state_value.
Definition d_thread_state : Data → result ThreadState := d_enum [OPEN; CLOSED] thread_state_value.
Definition d_episode_state : Data → result EpisodeState := d_enum [RUNNING; CANCELLING; SETTLED] episode_state_value.
Definition d_turn_state : Data → result TurnState := d_enum [TURN_RUNNING; TURN_SETTLED] turn_state_value.
Definition d_turn_outcome : Data → result TurnOutcome :=
  d_enum [TURN_COMPLETED; TURN_FAILED; TURN_CANCELLED; TURN_INDETERMINATE] turn_outcome_value.
Definition d_episode_outcome : Data → result EpisodeOutcome :=
  d_enum [COMPLETED; FAILED; CANCELLED; BUDGET_EXHAUSTED; INDETERMINATE] episode_outcome_value.

(** ** Continuations *)

Definition descriptor_to_data (c : ContinuationDescriptor) : Data :=
  DDict [("schema_version", DInt 1); ("identity", identity_to_data (cd_identity c));
         ("program", identity_to_data (cd_program c))].

Definition descriptor_from_data (x : Data) : result ContinuationDescriptor :=
  d ← exact_object ["schema_version"; "identity"; "program"] x;
  v ← item d "schema_version"; d_version v;;
  i ← item d "identity"; i ← identity_from_data i; p ← item d "program"; p ← identity_from_data p;
  let c := MkContinuationDescriptor i p in
  ContinuationDescriptor_post_init c;; Ok c.

Definition continuation_to_data (c : Continuation) : Data :=
  DDict [("schema_version", DInt 1); ("id", DStr (c_id c)); ("thread", DStr (c_thread c));
         ("descriptor", descriptor_to_data (c_descriptor c)); ("state_reference", DStr (state_reference c));
         ("state", DStr (continuation_state_value (c_state c)))].

Definition continuation_from_data (x : Data) : result Continuation :=
  d ← exact_object ["schema_version"; "id"; "thread"; "descriptor"; "state_reference"; "state"] x;
  v ← item d "schema_version"; d_version v;;
  s ← item d "state"; s ← d_continuation_state s;
  i ← item d "id"; i ← d_text i; t ← item d "thread"; t ← d_text t;
  ds ← item d "descriptor"; ds ← descriptor_from_data ds; r ← item d "state_reference"; r ← d_text r;
  Ok (MkContinuation i t ds r s).

(** ** Budgets, turns, episodes and threads *)

Definition budget_to_data (b : EpisodeBudget) : Data :=
  DDict [("schema_version", DInt 1); ("max_turns", DInt (max_turns b)); ("max_accepted_appends", DInt (max_accepted_appends b))].

Definition budget_from_data (x : Data) : result EpisodeBudget :=
  d ← exact_object ["schema_version"; "max_turns"; "max_accepted_appends"] x;
  v ← item d "schema_version"; d_version v;;
  m ← item d "max_turns"; m ← d_positive m; a ← item d "max_accepted_appends"; a ← d_positive a;
  let b := MkEpisodeBudget m a in
  EpisodeBudget_post_init b;; Ok b.

Definition turn_to_data (t : Turn) : Data :=
  DDict [("schema_version", DInt 1); ("id", DStr (turn_id t)); ("episode", DStr (turn_episode t)); ("ordinal", DInt (ordinal t));
         ("state", DStr (turn_state_value (turn_state t))); ("accepted_appends", DInt (turn_appends t));
         ("outcome", e_opt (λ o, DStr (turn_outcome_value o)) (turn_outcome t))].

Definition turn_from_data (x : Data) : result Turn :=
  d ← exact_object ["schema_version"; "id"; "episode"; "ordinal"; "state"; "accepted_appends"; "outcome"] x;
  v ← item d "schema_version"; d_version v;;
  s ← item d "state"; s ← d_turn_state s; o ← item d "outcome"; o ← d_opt d_turn_outcome o;
  i ← item d "id"; i ← d_text i; e ← item d "episode"; e ← d_text e;
  n ← item d "ordinal"; n ← d_positive n; a ← item d "accepted_appends"; a ← d_nonnegative a;
  checked_turn (MkTurn i e n s a o).

Definition episode_to_data (e : Episode) : Data :=
  DDict [("schema_version", DInt 1); ("id", DStr (ep_id e)); ("thread", DStr (ep_thread e));
         ("program", identity_to_data (program e)); ("runtime", identity_to_data (runtime e));
         ("budget", budget_to_data (budget e));
         ("expected_continuation", e_opt identity_to_data (expected_continuation e));
         ("continuation", e_opt continuation_to_data (ep_continuation e));
         ("state", DStr (episode_state_value (ep_state e))); ("turns", DList (turn_to_data <$> turns e));
         ("accepted_appends", DInt (accepted_appends e));
         ("settlement", e_opt (λ o, DStr (episode_outcome_value o)) (settlement e));
         ("next_continuation", e_opt continuation_to_data (next_continuation e))].

Definition episode_from_data (x : Data) : result Episode :=
  d ← exact_object ["schema_version"; "id"; "thread"; "program"; "runtime"; "budget"; "expected_continuation";
        "continuation"; "state"; "turns"; "accepted_appends"; "settlement"; "next_continuation"] x;
  v ← item d "schema_version"; d_version v;;
  ts ← item d "turns"; raise_if (match ts with DList _ => false | _ => true end) (TypeError "Episode turns must be a JSON array");;
  s ← item d "state"; s ← d_episode_state s; o ← item d "settlement"; o ← d_opt d_episode_outcome o;
  i ← item d "id"; i ← d_text i; t ← item d "thread"; t ← d_text t;
  p ← item d "program"; p ← identity_from_data p; r ← item d "runtime"; r ← identity_from_data r;
  b ← item d "budget"; b ← budget_from_data b;
  x ← item d "expected_continuation"; x ← d_opt identity_from_data x;
  c ← item d "continuation"; c ← d_opt continuation_from_data c;
  ts ← d_list turn_from_data ts;
  a ← item d "accepted_appends"; a ← d_nonnegative a;
  n ← item d "next_continuation"; n ← d_opt continuation_from_data n;
  checked_episode (MkEpisode i t p r b x c s ts a o n).

Definition thread_to_data (t : Thread) : Data :=
  DDict [("schema_version", DInt 1); ("id", DStr (th_id t)); ("state", DStr (thread_state_value (th_state t)));
         ("episodes", DList (episode_to_data <$> episodes t)); ("continuation", e_opt continuation_to_data (th_continuation t))].

Definition thread_from_data (x : Data) : result Thread :=
  d ← exact_object ["schema_version"; "id"; "state"; "episodes"; "continuation"] x;
  v ← item d "schema_version"; d_version v;;
  es ← item d "episodes"; raise_if (match es with DList _ => false | _ => true end) (TypeError "Thread episodes must be a JSON array");;
  s ← item d "state"; s ← d_thread_state s;
  c ← item d "continuation";
  i ← item d "id"; i ← d_text i;
  es ← d_list episode_from_data es; c ← d_opt continuation_from_data c;
  checked_thread (MkThread i s es c).

(** ** Values as their constructors leave them *)

Definition wf_continuation (c : Continuation) : Prop :=
  text_ok (c_id c) = true ∧ text_ok (c_thread c) = true ∧ text_ok (state_reference c) = true ∧
  wf_identity (cd_identity (c_descriptor c)) ∧ wf_identity (cd_program (c_descriptor c)) ∧
  ContinuationDescriptor_post_init (c_descriptor c) = Ok tt.

Definition wf_turn (t : Turn) : Prop := text_ok (turn_id t) = true ∧ text_ok (turn_episode t) = true ∧ turn_ok t.

Record wf_episode (e : Episode) : Prop := {
  we_ids : text_ok (ep_id e) = true ∧ text_ok (ep_thread e) = true;
  we_identities : wf_identity (program e) ∧ wf_identity (runtime e);
  we_budget : 0 < max_turns (budget e) ∧ 0 < max_accepted_appends (budget e);
  we_expected : ∀ i, expected_continuation e = Some i → wf_identity i;
  we_continuation : ∀ c, ep_continuation e = Some c → wf_continuation c;
  we_next : ∀ c, next_continuation e = Some c → wf_continuation c;
  we_turns : Forall wf_turn (turns e);
  we_ok : episode_ok e
}.

Definition wf_thread (t : Thread) : Prop :=
  text_ok (th_id t) = true ∧ Forall wf_episode (episodes t) ∧
  (∀ c, th_continuation t = Some c → wf_continuation c) ∧ thread_ok t.

(** ** Round trips *)

#[local] Arguments d_continuation_state : simpl never.
#[local] Arguments d_thread_state : simpl never.
#[local] Arguments d_episode_state : simpl never.
#[local] Arguments d_turn_state : simpl never.
#[local] Arguments d_turn_outcome : simpl never.
#[local] Arguments d_episode_outcome : simpl never.

Lemma d_continuation_state_round s : d_continuation_state (DStr (continuation_state_value s)) = Ok s.
Proof. by destruct s. Qed.
Lemma d_thread_state_round s : d_thread_state (DStr (thread_state_value s)) = Ok s.
Proof. by destruct s. Qed.
Lemma d_episode_state_round s : d_episode_state (DStr (episode_state_value s)) = Ok s.
Proof. by destruct s. Qed.
Lemma d_turn_state_round s : d_turn_state (DStr (turn_state_value s)) = Ok s.
Proof. by destruct s. Qed.
Lemma d_turn_outcome_round o : d_turn_outcome (DStr (turn_outcome_value o)) = Ok o.
Proof. by destruct o. Qed.
Lemma d_episode_outcome_round o : d_episode_outcome (DStr (episode_outcome_value o)) = Ok o.
Proof. by destruct o. Qed.

#[local] Hint Rewrite d_continuation_state_round d_thread_state_round d_episode_state_round d_turn_state_round
  : enums.

Lemma continuation_round_trip c : wf_continuation c → continuation_from_data (continuation_to_data c) = Ok c.
Proof.
  intros (Hi & Ht & Hr & Hci & Hcp & Hp). unfold continuation_from_data, continuation_to_data. decode.
  assert (descriptor_from_data (descriptor_to_data (c_descriptor c)) = Ok (c_descriptor c)) as ->.
  { unfold descriptor_from_data, descriptor_to_data. csimpl. rewrite identity_round_trip by done. csimpl.
    rewrite identity_round_trip by done. csimpl. destruct (c_descriptor c) as [i p]. simpl in *. by rewrite Hp. }
  decode. by destruct c.
Qed.

Lemma turn_round_trip t : wf_turn t → turn_from_data (turn_to_data t) = Ok t.
Proof.
  intros (Hi & He & Hok). pose proof Hok as [Ho Ha _]. unfold turn_from_data, turn_to_data. decode.
  rewrite (d_opt_round_trip d_turn_outcome) by (done || intros; apply d_turn_outcome_round). decode.
  assert (MkTurn (turn_id t) (turn_episode t) (ordinal t) (turn_state t) (turn_appends t) (turn_outcome t) = t) as -> by (by destruct t).
  by apply checked_turn_Ok.
Qed.

Lemma budget_round_trip b : 0 < max_turns b → 0 < max_accepted_appends b → budget_from_data (budget_to_data b) = Ok b.
Proof.
  intros H1 H2. unfold budget_from_data, budget_to_data. decode. unfold EpisodeBudget_post_init. decode. by destruct b.
Qed.

Lemma episode_round_trip e : wf_episode e → episode_from_data (episode_to_data e) = Ok e.
Proof.
  intros [[Hi Ht] [Hp Hr] [Hb1 Hb2] Hx Hc Hn Hts Hok]. unfold episode_from_data, episode_to_data. decode.
  rewrite (d_opt_round_trip d_episode_outcome) by (done || intros; apply d_episode_outcome_round). decode.
  rewrite identity_round_trip by done. csimpl. rewrite identity_round_trip by done. csimpl.
  rewrite budget_round_trip by done. csimpl.
  rewrite (d_opt_round_trip identity_from_data) by (done || intros; by apply identity_round_trip, Hx). csimpl.
  rewrite (d_opt_round_trip continuation_from_data continuation_to_data (ep_continuation e))
    by (done || intros; by apply continuation_round_trip, Hc). csimpl.
  rewrite (mapR_round_trip _ _ wf_turn) by (done || apply turn_round_trip). pose proof (eo_appends e Hok). decode.
  rewrite (d_opt_round_trip continuation_from_data) by (done || intros; by apply continuation_round_trip, Hn). csimpl.
  assert (MkEpisode (ep_id e) (ep_thread e) (program e) (runtime e) (budget e) (expected_continuation e) (ep_continuation e)
    (ep_state e) (turns e) (accepted_appends e) (settlement e) (next_continuation e) = e) as -> by (by destruct e).
  by apply checked_episode_Ok.
Qed.

(** A thread whose identities, continuations, budgets, turns and
    episodes their constructors accept is read back unchanged from its wire
    form. *)
Theorem thread_round_trip t : wf_thread t → thread_from_data (thread_to_data t) = Ok t.
Proof.
  intros (Hi & He & Hc & Hok). unfold thread_from_data, thread_to_data. decode.
  rewrite (mapR_round_trip _ _ wf_episode) by (done || apply episode_round_trip). csimpl.
  rewrite (d_opt_round_trip continuation_from_data) by (done || intros; by apply continuation_round_trip, Hc). csimpl.
  assert (MkThread (th_id t) (th_state t) (episodes t) (th_continuation t) = t) as -> by (by destruct t).
  by apply checked_thread_Ok.
Qed.

Lemma thread_round_trip_witness : ∃ t, episodes t ≠ [] ∧ thread_from_data (thread_to_data t) = Ok t.
Proof.
  pose (e := MkEpisode "ep" "thread-1" (MkDescriptorIdentity PROGRAM "planner" 1) (MkDescriptorIdentity RUNTIME "local" 1)
    (MkEpisodeBudget 3 5) None None RUNNING [MkTurn "turn" "ep" 1 TURN_RUNNING 2 None] 2 None None).
  exists (MkThread "thread-1" OPEN [e] None). split; [discriminate|].
  apply (thread_round_trip (MkThread "thread-1" OPEN [e] None)).
  split; [reflexivity|]. split; [|split; [intros c H; discriminate H|apply Thread_post_init_Ok; reflexivity]].
  constructor; [|constructor]. split; try (split; reflexivity); try (intros c H; discriminate H).
  - split; split; reflexivity.
  - constructor; [|constructor]. split; [reflexivity|]. split; [reflexivity|]. apply Turn_post_init_Ok; reflexivity.
  - apply Episode_post_init_Ok; reflexivity.
Defined.
