(* ===== verification/Programs.v ===== *)
(** * Programs over effects

    Code whose callees are outside the model, or share state with other threads,
    is a program: a tree of effects, each with a continuation for every answer.
    A program may raise. The programs of a component are checked once against a
    monitor, whatever they are answered; the interleavings of many programs then
    inherit what the monitors say. *)

From stdpp Require Import base list strings.
From S2P Require Import Prelude.

(** A value of the expected class, another object, an [Exception], or a
    [BaseException] that is not one. *)
Inductive ext (A : Type) :=
| Gave (a : A)
| Alien
| Threw
| Broke.
Arguments Gave {A} a.
Arguments Alien {A}.
Arguments Threw {A}.
Arguments Broke {A}.

Inductive raised := AnException (e : exn) | ABaseException.

Inductive call_outcome (A : Type) :=
| Value (a : A)
| Raises (x : raised).
Arguments Value {A} a.
Arguments Raises {A} x.

(** Effects [E], each answered by a value of its own type. *)
Inductive prog {E : Type} (R : E → Type) (A : Type) :=
| Ret (a : A)
| Act (e : E) (k : R e → prog R A).
Arguments Ret {E R A} a.
Arguments Act {E R A} e k.

Section programs.
Context {E : Type} {R : E → Type}.

Fixpoint pbind {A B} (p : prog R A) (f : A → prog R B) : prog R B :=
  match p with Ret a => f a | Act e k => Act e (λ x, pbind (k x) f) end.

Definition act (e : E) : prog R (call_outcome (R e)) := Act e (λ x, Ret (Value x)).
Definition raises {A} (x : raised) : prog R (call_outcome A) := Ret (Raises x).

(** Sequencing of programs that may raise. *)
Definition and_then {A B} (f : A → prog R (call_outcome B)) (p : prog R (call_outcome A)) : prog R (call_outcome B) :=
  pbind p (λ o, match o with Value a => f a | Raises x => Ret (Raises x) end).

Definition lift {A} (r : result A) : prog R (call_outcome A) :=
  match r with Ok a => Ret (Value a) | Err e => raises (AnException e) end.

(** [try: p except Exception: h] *)
Definition catch {A} (p h : prog R (call_outcome A)) : prog R (call_outcome A) :=
  pbind p (λ o, match o with Raises (AnException _) => h | o => Ret o end).

(** [try: p except BaseException: h; raise] *)
Definition on_raise {A B} (p : prog R (call_outcome A)) (h : prog R (call_outcome B)) : prog R (call_outcome A) :=
  pbind p (λ o, match o with Raises x => and_then (λ _, Ret (Raises x)) h | o => Ret o end).

(** [try: p finally: f] *)
Definition finally {A} (p : prog R (call_outcome A)) (f : E) : prog R (call_outcome A) :=
  pbind p (λ o, Act f (λ _, Ret o)).

(** [try: p finally: h], where [h] may raise. *)
Definition finally_do {A B} (p : prog R (call_outcome A)) (h : prog R (call_outcome B)) : prog R (call_outcome A) :=
  pbind p (λ o, and_then (λ _, Ret o) h).

(** The value of a call to the outside; what another object there means is the
    caller's. *)
Definition call_out {A} (alien : prog R (call_outcome A)) (x : ext A) : prog R (call_outcome A) :=
  match x with
  | Gave a => Ret (Value a)
  | Alien => alien
  | Threw => raises (AnException (RuntimeError "raised by the outside"))
  | Broke => raises ABaseException
  end.

Definition type_error {A} : prog R (call_outcome A) := raises (AnException (TypeError "another object")).

(** ** Safety of a program *)

Section safety.
Context {S : Type} (allowed : S → E → Prop) (rely : S → ∀ e, R e → Prop) (upd : S → ∀ e, R e → S).

(** Whatever it is answered within what it relies on, the program does what it
    may, and ends within [Q]. *)
Fixpoint psafe {A} (p : prog R A) (s : S) (Q : A → S → Prop) : Prop :=
  match p with
  | Ret a => Q a s
  | Act e f => allowed s e ∧ ∀ x, rely s e x → psafe (f x) (upd s e x) Q
  end.

Lemma psafe_mono {A} (p : prog R A) s (Q Q' : A → S → Prop) : (∀ a s, Q a s → Q' a s) → psafe p s Q → psafe p s Q'.
Proof. intros H. revert s. induction p as [a|e k IH]; intros s; simpl; [apply H|]. intros [? Hk]. split; [done|]. intros x ?. by apply IH, Hk. Qed.

Lemma psafe_bind {A B} (p : prog R A) (f : A → prog R B) s Q :
  psafe p s (λ a s, psafe (f a) s Q) → psafe (pbind p f) s Q.
Proof. revert s. induction p as [a|e k IH]; intros s; simpl; [done|]. intros [? Hk]. split; [done|]. intros x ?. by apply IH, Hk. Qed.

Lemma psafe_and_then {A B} (p : prog R (call_outcome A)) (f : A → prog R (call_outcome B)) s (Q : call_outcome B → S → Prop) :
  psafe p s (λ o s, match o with Value a => psafe (f a) s Q | Raises x => Q (Raises x) s end) → psafe (and_then f p) s Q.
Proof. intros H. apply psafe_bind. eapply psafe_mono; [|exact H]. by intros [a|x] s'. Qed.

Lemma psafe_finally {A} (p : prog R (call_outcome A)) f s (Q : call_outcome A → S → Prop) :
  psafe p s (λ o s, allowed s f ∧ ∀ x, rely s f x → Q o (upd s f x)) → psafe (finally p f) s Q.
Proof. intros H. apply psafe_bind. eapply psafe_mono; [|exact H]. by intros o s' []. Qed.
End safety.
End programs.
