(* ===== verification/Hands.v ===== *)
(** * Hands: tool requests, results and capability grants
      (src/src/petrus/agenticus/hands/contract.py and grants.py)

    The exact envelopes of the five workspace tools with their bounds, the
    immutable grants that are the only source of tool authority, and the ledger
    that issues and spends them. A deadline is a count of clock ticks, a path is
    the bytes of its UTF-8 spelling. *)

From stdpp Require Import base gmap sets list strings.
From Stdlib Require Import Ascii ZArith Lia.
From S2P Require Import Prelude PyData Schema AgentText.
Open Scope string_scope.
Open Scope list_scope.
Open Scope Z_scope.

Definition MAX_PATH_CHARS : nat := 64.
Definition MAX_QUERY_CHARS : nat := 64.
Definition MAX_ARGV_PART_CHARS : nat := 64.
Definition MAX_ARGV_PARTS : nat := 4.
Definition MAX_CONTENT_CHARS : nat := 1024.
Definition MAX_CWD_CHARS : nat := 8.
Definition MAX_DATA_TEXT_BYTES : nat := 4096.
Definition MAX_DETAIL_BYTES : nat := 128.

(** ** Methods and rejections *)

Inductive ToolMethod := WORKSPACE_READ | WORKSPACE_SEARCH | WORKSPACE_SHELL | WORKSPACE_WRITE | WORKSPACE_TEST.

Inductive RejectionCategory :=
| CAPABILITY | PATH | ARGV | WRITE | UNKNOWN | DEADLINE | ABORTED | STALE_EPOCH | POST_FENCE | PROVIDER | SCHEMA
| AUTHORITY | BUDGET.

#[export] Instance ToolMethod_eq_dec : EqDecision ToolMethod.
Proof. solve_decision. Defined.
#[export] Instance RejectionCategory_eq_dec : EqDecision RejectionCategory.
Proof. solve_decision. Defined.

Definition tool_methods : list ToolMethod :=
  [WORKSPACE_READ; WORKSPACE_SEARCH; WORKSPACE_SHELL; WORKSPACE_WRITE; WORKSPACE_TEST].

Definition tool_method_value (m : ToolMethod) : string :=
  match m with
  | WORKSPACE_READ => "workspace_read"
  | WORKSPACE_SEARCH => "workspace_search"
  | WORKSPACE_SHELL => "workspace_shell"
  | WORKSPACE_WRITE => "workspace_write"
  | WORKSPACE_TEST => "workspace_test"
  end.

Definition category_value (c : RejectionCategory) : string :=
  match c with
  | CAPABILITY => "capability" | PATH => "path" | ARGV => "argv" | WRITE => "write" | UNKNOWN => "unknown"
  | DEADLINE => "deadline" | ABORTED => "aborted" | STALE_EPOCH => "stale_epoch" | POST_FENCE => "post_fence"
  | PROVIDER => "provider" | SCHEMA => "schema" | AUTHORITY => "authority" | BUDGET => "budget"
  end.

(** [ToolError]; [ToolRequestRejected] carries one too. *)
Record ToolError := MkToolError { te_category : RejectionCategory; te_detail : string }.

#[export] Instance ToolError_eq_dec : EqDecision ToolError.
Proof. solve_decision. Defined.

(** [_detail] asserts this of every rejection's detail. *)
Definition detail_ok (s : string) : bool :=
  negb (str_empty s) && stripped s && (String.length s <=? MAX_DETAIL_BYTES)%nat
  && str_forall (λ a, (32 <=? char_code a)%nat) s.

(** A parser returns or raises [ToolRequestRejected]. *)
Inductive parsed (A : Type) :=
| Parsed (a : A)
| Rejected (e : ToolError).
Arguments Parsed {A} a.
Arguments Rejected {A} e.

#[export] Instance parsed_ret : MRet parsed := @Parsed.
#[export] Instance parsed_bind : MBind parsed := λ A B f p,
  match p with Parsed a => f a | Rejected e => Rejected e end.

Definition rejected_if (b : bool) (c : RejectionCategory) (detail : string) : parsed unit :=
  if b then Rejected (MkToolError c detail) else Parsed tt.

(** ** Fields *)

(** [_identity] *)
Definition tool_identity (x : Data) (name : string) : parsed string :=
  match x with
  | DStr s => if text_ok s then Parsed s else Rejected (MkToolError SCHEMA (name +:+ " must be a bounded non-empty identity string"))
  | _ => Rejected (MkToolError SCHEMA (name +:+ " must be a bounded non-empty identity string"))
  end.

(** [_positive_integer] *)
Definition tool_positive (x : Data) (name : string) : parsed Z :=
  match x with
  | DInt z => if z <=? 0 then Rejected (MkToolError SCHEMA (name +:+ " must be a positive integer")) else Parsed z
  | _ => Rejected (MkToolError SCHEMA (name +:+ " must be a positive integer"))
  end.

Definition no_controls (s : string) : bool := str_forall (λ a, (32 <=? char_code a)%nat) s.
Definition DEL : ascii := Ascii.ascii_of_nat 127.
Definition BACKSLASH : ascii := Ascii.ascii_of_nat 92.
Definition SLASH : ascii := Ascii.ascii_of_nat 47.
Definition NUL : ascii := Ascii.ascii_of_nat 0.

(** [_bounded_text]; [range] spells the bounds as the message does. *)
Definition bounded_text (x : Data) (name : string) (limit : nat) (range : string) (c : RejectionCategory) : parsed string :=
  match x with
  | DStr s =>
      rejected_if (negb (no_controls s) || str_contains DEL s) c (name +:+ " must not contain control characters");;
      rejected_if (str_empty s || (limit <? str_len s)%nat) c (name +:+ " must be " +:+ range +:+ " characters");;
      Parsed s
  | _ => Rejected (MkToolError SCHEMA (name +:+ " must be a string"))
  end.

(** A part of a path that does not name an entry. *)
Definition improper_part (part : string) : bool := String.eqb part "" || String.eqb part "." || String.eqb part "..".

Definition improper_path (path : string) : bool :=
  startswith "/" path || str_contains BACKSLASH path || existsb improper_part (str_split SLASH path).

(** [_relative_path] *)
Definition relative_path (x : Data) (name : string) : parsed string :=
  path ← bounded_text x name MAX_PATH_CHARS "1..64" PATH;
  rejected_if (improper_path path) PATH (name +:+ " must be a normalized relative path");;
  Parsed path.

(** ** Parameters *)

Inductive ToolParams :=
| ReadParams (path : string)
| SearchParams (query path : string)
| ShellParams (argv : list string) (cwd : string)
| WriteParams (path content : string)
| TestParams.

#[export] Instance ToolParams_eq_dec : EqDecision ToolParams.
Proof. solve_decision. Defined.

(** [_PARAMS_BY_METHOD], read backwards: the method whose parameters these are. *)
Definition params_method (p : ToolParams) : ToolMethod :=
  match p with
  | ReadParams _ => WORKSPACE_READ
  | SearchParams _ _ => WORKSPACE_SEARCH
  | ShellParams _ _ => WORKSPACE_SHELL
  | WriteParams _ _ => WORKSPACE_WRITE
  | TestParams => WORKSPACE_TEST
  end.

(** [_PARAM_FIELDS] *)
Definition PARAM_FIELDS (m : ToolMethod) : list string :=
  match m with
  | WORKSPACE_READ => ["path"]
  | WORKSPACE_SEARCH => ["query"; "path"]
  | WORKSPACE_SHELL => ["argv"; "cwd"]
  | WORKSPACE_WRITE => ["path"; "content"]
  | WORKSPACE_TEST => []
  end.

(** The sorted list of those, as the message spells it. *)
Definition param_fields_text (m : ToolMethod) : string :=
  match m with
  | WORKSPACE_READ => "['path']"
  | WORKSPACE_SEARCH => "['path', 'query']"
  | WORKSPACE_SHELL => "['argv', 'cwd']"
  | WORKSPACE_WRITE => "['content', 'path']"
  | WORKSPACE_TEST => "[]"
  end.

(** [params[key]]; the fields were checked to be there. *)
Definition wire_field (d : dict string Data) (k : string) : Data := default DNone (dget k d).

Definition parse_read (d : dict string Data) : parsed ToolParams :=
  path ← relative_path (wire_field d "path") "path"; Parsed (ReadParams path).

Definition parse_search (d : dict string Data) : parsed ToolParams :=
  query ← bounded_text (wire_field d "query") "query" MAX_QUERY_CHARS "1..64" SCHEMA;
  path ← relative_path (wire_field d "path") "path";
  Parsed (SearchParams query path).

Definition string_part (x : Data) : option string := match x with DStr s => Some s | _ => None end.

Definition argv_index (i : nat) : string :=
  match i with 0%nat => "argv[0]" | 1%nat => "argv[1]" | 2%nat => "argv[2]" | _ => "argv[3]" end.

Fixpoint argv_parts (i : nat) (l : list Data) : parsed (list string) :=
  match l with
  | [] => Parsed []
  | x :: l =>
      part ← bounded_text x (argv_index i) MAX_ARGV_PART_CHARS "1..64" ARGV;
      parts ← argv_parts (S i) l;
      Parsed (part :: parts)
  end.

Definition traversal (part : string) : bool :=
  str_contains BACKSLASH part || existsb (λ s, String.eqb s "." || String.eqb s "..") (str_split SLASH part).

Definition parse_shell (d : dict string Data) : parsed ToolParams :=
  match wire_field d "argv" with
  | DList argv =>
      rejected_if (bool_decide (argv = []) || existsb (λ x, bool_decide (string_part x = None)) argv)
        SCHEMA "argv must be a non-empty JSON array of strings";;
      rejected_if (MAX_ARGV_PARTS <? length argv)%nat ARGV "argv must have at most 4 parts";;
      parts ← argv_parts 0 argv;
      rejected_if (existsb traversal parts) ARGV "argv must not contain backslash or traversal segments";;
      cwd ← bounded_text (wire_field d "cwd") "cwd" MAX_CWD_CHARS "1..8" ARGV;
      rejected_if (negb (String.eqb cwd ".") && improper_path cwd) ARGV "cwd must be '.' or a bounded relative directory";;
      Parsed (ShellParams parts cwd)
  | _ => Rejected (MkToolError SCHEMA "argv must be a non-empty JSON array of strings")
  end.

Definition parse_write (d : dict string Data) : parsed ToolParams :=
  path ← relative_path (wire_field d "path") "path";
  match wire_field d "content" with
  | DStr content =>
      rejected_if (str_contains NUL content) SCHEMA "content must be a string without NUL characters";;
      rejected_if (MAX_CONTENT_CHARS <? str_len content)%nat WRITE "content must be at most 1024 characters";;
      Parsed (WriteParams path content)
  | _ => Rejected (MkToolError SCHEMA "content must be a string without NUL characters")
  end.

Definition parse_params (m : ToolMethod) (d : dict string Data) : parsed ToolParams :=
  match m with
  | WORKSPACE_READ => parse_read d
  | WORKSPACE_SEARCH => parse_search d
  | WORKSPACE_SHELL => parse_shell d
  | WORKSPACE_WRITE => parse_write d
  | WORKSPACE_TEST => Parsed TestParams
  end.

(** ** Requests *)

Record ToolRequest := MkToolRequest {
  call_id : string;
  episode_id : string;
  attachment_id : string;
  attachment_epoch : Z;
  grant_epoch : Z;
  method : ToolMethod;
  params : ToolParams
}.

#[export] Instance ToolRequest_eq_dec : EqDecision ToolRequest.
Proof. solve_decision. Defined.

(** [_string_keyed] *)
Definition string_keyed (x : Data) (name : string) : parsed (dict string Data) :=
  match x with DDict d => Parsed d | _ => Rejected (MkToolError SCHEMA (name +:+ " must be a JSON object")) end.

Definition same_fields (d : dict string Data) (fields : list string) : bool :=
  forallb (λ k, bool_decide (k ∈ fields)) (dkeys d) && forallb (λ k, dmem k d) fields.

Definition ENVELOPE_FIELDS : list string :=
  ["version"; "call_id"; "episode_id"; "attachment_id"; "attachment_epoch"; "grant_epoch"; "method"; "params"].

(** [_method] *)
Definition parse_method (x : Data) : parsed ToolMethod :=
  match x with
  | DStr s =>
      match List.find (λ m, String.eqb (tool_method_value m) s) tool_methods with
      | Some m => Parsed m
      | None => Rejected (MkToolError UNKNOWN "method is not a supported version-1 tool")
      end
  | _ => Rejected (MkToolError SCHEMA "method must be a string")
  end.

Definition parse_tool_request (data : Data) : parsed ToolRequest :=
  envelope ← string_keyed data "request envelope";
  rejected_if (negb (same_fields envelope ENVELOPE_FIELDS)) SCHEMA "request requires its exact version-1 envelope fields";;
  rejected_if (negb (bool_decide (wire_field envelope "version" = DInt 1))) SCHEMA "request version must be integer 1";;
  m ← parse_method (wire_field envelope "method");
  raw_params ← string_keyed (wire_field envelope "params") (tool_method_value m +:+ " params");
  rejected_if (negb (same_fields raw_params (PARAM_FIELDS m))) SCHEMA
    (tool_method_value m +:+ " params must have exact fields " +:+ param_fields_text m);;
  ps ← parse_params m raw_params;
  call ← tool_identity (wire_field envelope "call_id") "call_id";
  episode ← tool_identity (wire_field envelope "episode_id") "episode_id";
  attachment ← tool_identity (wire_field envelope "attachment_id") "attachment_id";
  aepoch ← tool_positive (wire_field envelope "attachment_epoch") "attachment_epoch";
  gepoch ← tool_positive (wire_field envelope "grant_epoch") "grant_epoch";
  Parsed (MkToolRequest call episode attachment aepoch gepoch m ps).

(** ** Results *)

Record ToolResult := MkToolResult {
  tr_call_id : string;
  tr_attachment_id : string;
  tr_epoch : Z;
  tr_ok : bool;
  tr_data : option (dict string Data);
  tr_error : option ToolError
}.

(** [_strict_data] *)
Fixpoint strict_data (x : Data) : bool :=
  match x with
  | DNone | DBool _ | DInt _ => true
  | DStr s => (String.length s <=? MAX_DATA_TEXT_BYTES)%nat
  | DList l => forallb strict_data l
  | DDict d => forallb (λ kv, strict_data kv.2) d
  | DFloat _ _ | DTuple _ | DObject _ => false
  end.

(** [ToolResult.__post_init__]; [false] raises a [TypeError] or [ValueError]. *)
Definition tool_result_ok (r : ToolResult) : bool :=
  text_ok (tr_call_id r) && text_ok (tr_attachment_id r) && (0 <? tr_epoch r)
  && Bool.eqb (tr_ok r) (bool_decide (tr_error r = None))
  && Bool.eqb (tr_ok r) (negb (bool_decide (tr_data r = None)))
  && match tr_data r with Some d => strict_data (DDict d) | None => true end.

Definition hand_error_to_data (e : ToolError) : Data :=
  DDict [("category", DStr (category_value (te_category e))); ("detail", DStr (te_detail e))].

Definition result_data (r : ToolResult) : Data := match tr_data r with Some d => DDict d | None => DNone end.

(** [ToolResult.to_model_data] *)
Definition to_model_data (r : ToolResult) : dict string Data :=
  [("version", DInt 1); ("ok", DBool (tr_ok r)); ("data", result_data r); ("error", e_opt hand_error_to_data (tr_error r))].

(** [ToolResult.to_data] *)
Definition tool_result_to_data (r : ToolResult) : dict string Data :=
  to_model_data r ++
  [("epoch", DInt (tr_epoch r)); ("call_id", DStr (tr_call_id r)); ("attachment_id", DStr (tr_attachment_id r))].

(** ** Grants *)

Record CapabilityGrant := MkCapabilityGrant {
  g_attachment_id : string;
  g_attachment_epoch : Z;
  g_epoch : Z;
  g_capabilities : list ToolMethod;
  g_writable_paths : list string;
  g_allowed_argv : list (list string);
  g_deadline : Z;
  g_max_calls : Z;
  g_writable_roots : list string;
  g_denied_writable_roots : list string
}.

(** [_writable_path] *)
Definition writable_path_ok (path : string) : bool :=
  text_ok path && (str_len path <=? MAX_PATH_CHARS)%nat && negb (improper_path path).

(** [_writable_root] *)
Definition writable_root_ok (path : string) : bool := String.eqb path "." || writable_path_ok path.

(** [_argv_part] *)
Definition argv_part_ok (part : string) : bool :=
  negb (str_empty part) && (str_len part <=? MAX_ARGV_PART_CHARS)%nat && negb (traversal part)
  && no_controls part && negb (str_contains DEL part).

(** A command of [_argv_allowlist]. *)
Definition argv_ok (command : list string) : bool :=
  forallb argv_part_ok command && negb (bool_decide (command = [])) && (length command <=? MAX_ARGV_PARTS)%nat.

(** [CapabilityGrant.__post_init__]. The sets are kept as lists: only
    membership is asked of them. *)
Definition grant_ok (g : CapabilityGrant) : bool :=
  text_ok (g_attachment_id g) && (0 <? g_attachment_epoch g) && (0 <? g_epoch g)
  && forallb writable_path_ok (g_writable_paths g) && forallb argv_ok (g_allowed_argv g) && (0 <? g_max_calls g)
  && forallb writable_root_ok (g_writable_roots g) && forallb writable_root_ok (g_denied_writable_roots g).

Definition permits (g : CapabilityGrant) (m : ToolMethod) : bool := bool_decide (m ∈ g_capabilities g).

Definition under_root (path root : string) : bool :=
  String.eqb root "." || String.eqb path root || startswith (root +:+ "/") path.

Definition permits_write_path (g : CapabilityGrant) (path : string) : bool :=
  if existsb (under_root path) (g_denied_writable_roots g) then false
  else bool_decide (path ∈ g_writable_paths g) || existsb (under_root path) (g_writable_roots g).

(** ** The ledger *)

Record GrantLedger := MkGrantLedger {
  gl_attachment_id : string;
  gl_attachment_epoch : Z;
  gl_grant_epoch : Z;
  gl_current : option CapabilityGrant;
  gl_consumed : Z
}.

Definition GrantLedger_new (attachment : string) (epoch : Z) : result GrantLedger :=
  attachment ← text attachment; epoch ← positive_integer epoch;
  Ok (MkGrantLedger attachment epoch 0 None 0).

(** What a caller asks [open] for. *)
Record GrantTerms := MkGrantTerms {
  gt_capabilities : list ToolMethod;
  gt_writable_paths : list string;
  gt_writable_roots : list string;
  gt_denied_writable_roots : list string;
  gt_allowed_argv : list (list string);
  gt_deadline : Z;
  gt_max_calls : Z
}.

(** [GrantLedger.open] *)
Definition ledger_open (t : GrantTerms) (l : GrantLedger) : result (CapabilityGrant * GrantLedger) :=
  let g := MkCapabilityGrant (gl_attachment_id l) (gl_attachment_epoch l) (gl_grant_epoch l + 1) (gt_capabilities t)
             (gt_writable_paths t) (gt_allowed_argv t) (gt_deadline t) (gt_max_calls t) (gt_writable_roots t)
             (gt_denied_writable_roots t) in
  raise_if (negb (grant_ok g)) (ValueError "grant terms are not valid");;
  Ok (g, MkGrantLedger (gl_attachment_id l) (gl_attachment_epoch l) (gl_grant_epoch l + 1) (Some g) 0).

(** [GrantLedger.close] *)
Definition ledger_close (l : GrantLedger) : GrantLedger :=
  MkGrantLedger (gl_attachment_id l) (gl_attachment_epoch l) (gl_grant_epoch l) None 0.

(** A grant spent, or [GrantBudgetExhausted], or the other [GrantLedgerError]. *)
Inductive consumption :=
| Spent (g : CapabilityGrant)
| Exhausted
| NotCurrent.

(** [GrantLedger.consume] *)
Definition ledger_consume (epoch : Z) (l : GrantLedger) : consumption * GrantLedger :=
  match gl_current l with
  | Some g =>
      if negb (g_epoch g =? epoch) then (NotCurrent, l)
      else if g_max_calls g <=? gl_consumed l then (Exhausted, l)
      else (Spent g, MkGrantLedger (gl_attachment_id l) (gl_attachment_epoch l) (gl_grant_epoch l) (Some g) (gl_consumed l + 1))
  | None => (NotCurrent, l)
  end.
