(* ===== verification/HandsGateway.v ===== *)
(** * The Hands gateway and its Episode Attachment
      (src/src/petrus/agenticus/hands/gateway.py,
       src/src/petrus/agenticus/attachment/episode.py and binding.py)

    Tool calls, grant issue, cancellation and settlement run in threads of one
    process. Each operation is a program over the atomic actions the code takes:
    a section under a lock, a read of the clock or of the fence, a call to the
    adapter or the territory. [perform] is what an action does to the shared
    state and what it answers; what comes from outside is a reply of the
    environment, so a schedule is a list of spawned operations, thread numbers
    and replies, and runs by evaluation. The barrier is a re-entrant lock: its
    owner and how often it holds it. *)

From stdpp Require Import base gmap sets list strings.
From Stdlib Require Import Ascii ZArith Lia.
From S2P Require Import Prelude PyData Schema AgentText Programs Hands.
Open Scope string_scope.
Open Scope list_scope.
Open Scope Z_scope.

Definition MAX_SEARCH_RESULTS : nat := 64.
Definition UNPARSED_CALL_ID : string := "unparsed-request".

(** ** What the outside gives *)

Definition bounded_value (s : string) : bool := (String.length s <=? MAX_DATA_TEXT_BYTES)%nat.

Record ShellOutcome := MkShellOutcome { so_returncode : Z; so_stdout : string; so_stderr : string; so_truncated : bool }.
Definition shell_outcome_ok (o : ShellOutcome) : bool := bounded_value (so_stdout o) && bounded_value (so_stderr o).

Definition hands_digest_ok (s : string) : bool :=
  (String.length s =? 64)%nat && str_forall (λ a, is_digit a || in_range 97 102 (char_code a)) s.

Record StagedWrite := MkStagedWrite { sw_call_id : string; sw_path : string; sw_digest : string }.
Definition staged_write_ok (s : StagedWrite) : bool :=
  negb (str_empty (sw_call_id s)) && bounded_value (sw_call_id s) && no_controls (sw_call_id s)
  && negb (str_empty (sw_path s)) && bounded_value (sw_path s) && no_controls (sw_path s) && hands_digest_ok (sw_digest s).

Record TestOutcome := MkTestOutcome { to_passed : bool; to_evidence_digest : string }.
Definition test_outcome_ok (o : TestOutcome) : bool := hands_digest_ok (to_evidence_digest o).

Record CallFence := MkCallFence { cf_open : bool; cf_aborted : bool; cf_deadline : Z }.

(** [_kind] *)
Definition binding_kind_ok (s : string) : bool :=
  match s with
  | String a t => is_lower a && (String.length t <=? 63)%nat && str_forall (λ a, is_lower a || is_digit a || Ascii.eqb a "-") t
  | EmptyString => false
  end.

(** [BindingSettlement] *)
Record BindingSettlement := MkBindingSettlement {
  bs_binding_kind : string; bs_disposition : string; bs_verified : bool; bs_detail : string
}.
Definition binding_settlement_ok (s : BindingSettlement) : bool :=
  binding_kind_ok (bs_binding_kind s) && binding_kind_ok (bs_disposition s)
  && (String.length (bs_detail s) <=? 256)%nat && no_controls (bs_detail s).

(** The operations of [HandsAdapter]. *)
Inductive adapter_op :=
| OpRead (path : string)
| OpSearch (query path : string)
| OpShell (argv : list string) (cwd : string)
| OpStage (call path content : string)
| OpCommit (s : StagedWrite)
| OpDiscard (s : StagedWrite)
| OpTest
| OpDiscardAll.

Definition adapter_ans (o : adapter_op) : Type :=
  match o with
  | OpRead _ | OpSearch _ _ => Data
  | OpShell _ _ => ShellOutcome
  | OpStage _ _ _ => StagedWrite
  | OpCommit _ => Data
  | OpDiscard _ => unit
  | OpTest => TestOutcome
  | OpDiscardAll => Z
  end.

(** ** State *)

Record CallEvidence := MkCallEvidence {
  ce_sequence : Z; ce_call_id : string; ce_episode_id : string; ce_method : option ToolMethod; ce_ok : bool;
  ce_category : option RejectionCategory; ce_epoch : Z
}.

(** [HandsGateway]: the call ledger, the counters and the evidence. *)
Record Gateway := MkGateway {
  gw_max_evidence : nat;
  gw_max_calls : nat;
  gw_in_flight : Z;
  gw_sequence : Z;
  gw_requests : Z;
  gw_rejections : dict string Z;
  gw_adapter_entries : Z;
  gw_stages : Z;
  gw_commits : Z;
  gw_stage_discards : Z;
  gw_stage_discard_failures : Z;
  gw_target_mutations : Z;
  gw_results_admitted : Z;
  gw_evidence : list CallEvidence;
  gw_calls : dict string (ToolRequest * option ToolResult)
}.

Definition gateway_new (max_evidence max_calls : nat) : Gateway :=
  MkGateway max_evidence max_calls 0 0 0 [] 0 0 0 0 0 0 0 [] [].

Definition set_calls (calls : dict string (ToolRequest * option ToolResult)) (in_flight : Z) (g : Gateway) : Gateway :=
  MkGateway (gw_max_evidence g) (gw_max_calls g) in_flight (gw_sequence g) (gw_requests g) (gw_rejections g)
    (gw_adapter_entries g) (gw_stages g) (gw_commits g) (gw_stage_discards g) (gw_stage_discard_failures g)
    (gw_target_mutations g) (gw_results_admitted g) (gw_evidence g) calls.

(** What a section adds to each counter. *)
Record tally := MkTally {
  n_requests : Z; n_entries : Z; n_stages : Z; n_commits : Z; n_discards : Z; n_failures : Z; n_mutations : Z; n_admitted : Z
}.

Definition count (n : tally) (g : Gateway) : Gateway :=
  MkGateway (gw_max_evidence g) (gw_max_calls g) (gw_in_flight g) (gw_sequence g) (gw_requests g + n_requests n)
    (gw_rejections g) (gw_adapter_entries g + n_entries n) (gw_stages g + n_stages n) (gw_commits g + n_commits n)
    (gw_stage_discards g + n_discards n) (gw_stage_discard_failures g + n_failures n)
    (gw_target_mutations g + n_mutations n) (gw_results_admitted g + n_admitted n) (gw_evidence g) (gw_calls g).

(** [_record]; the evidence is a deque of bounded length. *)
Definition record (call episode : string) (m : option ToolMethod) (ok : bool) (c : option RejectionCategory) (epoch : Z)
    (g : Gateway) : Gateway :=
  let sequence := gw_sequence g + 1 in
  let rejections := match c with
    | Some c => dset (category_value c) (dget_default (category_value c) 0 (gw_rejections g) + 1) (gw_rejections g)
    | None => gw_rejections g
    end in
  let evidence := gw_evidence g ++ [MkCallEvidence sequence call episode m ok c epoch] in
  MkGateway (gw_max_evidence g) (gw_max_calls g) (gw_in_flight g) sequence (gw_requests g) rejections
    (gw_adapter_entries g) (gw_stages g) (gw_commits g) (gw_stage_discards g) (gw_stage_discard_failures g)
    (gw_target_mutations g) (gw_results_admitted g) (drop (length evidence - gw_max_evidence g) evidence) (gw_calls g).

Record LeaseIdentity := MkLeaseIdentity { li_operation_id : string; li_provider : string; li_lease_id : string }.

#[export] Instance LeaseIdentity_eq_dec : EqDecision LeaseIdentity.
Proof. solve_decision. Defined.

(** [AttachmentSettlement] and [AttachmentRelease]. *)
Record AttachmentSettlement := MkAttachmentSettlement {
  as_attachment_id : string; as_epoch : Z; as_stages_discarded : Z; as_archive : string; as_archive_digest : string;
  as_settlement : BindingSettlement
}.

Record AttachmentRelease := MkAttachmentRelease {
  ar_attachment_id : string; ar_epoch : Z; ar_stages_discarded : Z; ar_archive : string; ar_archive_digest : string;
  ar_territory : LeaseIdentity
}.

(** What an [EpisodeAttachment] is constructed with. *)
Record AttachmentConfig := MkAttachmentConfig {
  c_episode_id : string;
  c_attachment_id : string;
  c_epoch : Z;
  c_deadline : Z;
  c_admission : bool;
  c_target : bool;
  c_binding_kind : string;
  c_motus_lease : option LeaseIdentity
}.

(** Its mutable part, but for the ledger and the gateways. *)
Record Attachment := MkAttachment {
  at_open : bool;
  at_aborted : bool;
  at_cancelled : bool;
  at_settling : bool;
  at_uncertain : bool;
  at_settlement : option AttachmentSettlement;
  at_release : option AttachmentRelease
}.

(** ** Actions *)


(** A claimed call, the result of a prior one, or a raise. An abandonment is
    answered whether it found a claim to drop. *)
Inductive claim_answer := Fresh | Prior (r : ToolResult) | ClaimRaises (x : raised).

Inductive eff :=
(* sections under the gateway's condition *)
| GCount (j : nat) (n : tally)
| GClaim (j : nat) (r : ToolRequest)
| GPublish (j : nat) (r : ToolRequest) (res : ToolResult)
| GAbandon (j : nat) (r : ToolRequest)
| GRecord (j : nat) (call episode : string) (m : option ToolMethod) (ok : bool) (c : option RejectionCategory)
| GDrain (j : nat)
(* the grant ledger *)
| LCurrent
| LConsume (epoch : Z)
| LOpen (t : GrantTerms)
| LClose
(* the barrier, and sections under it *)
| Acquire
| Release
| Fence
| OpenGateway (max_evidence : nat)
| CancelBegin
| CancelEnd
| SettleBegin
| SettleEnd (s : AttachmentSettlement) (uncertain : bool)
| SettlingOver
| RetryBegin
| RetryEnd (s : AttachmentSettlement) (uncertain : bool)
| ReleaseBegin
| ReleaseEnd (r : AttachmentRelease)
| ReleaseFail
| Succeed (episode attachment : string)
(* the outside *)
| Clock
| Admit (call : string)
| Target
| Adapter (j : nat) (o : adapter_op)
| BindingCancel (reason : string)
| BindingExport
| BindingSettle
| BindingQuiesce
| HostAccept (stages : Z) (archive : string).

Definition ans (e : eff) : Type :=
  match e with
  | GClaim _ _ => claim_answer
  | GAbandon _ _ => bool
  | GDrain _ => ext bool
  | LCurrent => option CapabilityGrant
  | LConsume _ => consumption
  | LOpen _ => result CapabilityGrant
  | Fence => ext CallFence
  | OpenGateway _ | SettleBegin | ReleaseBegin => result nat
  | CancelBegin => result bool
  | RetryBegin => result AttachmentSettlement
  | Succeed _ _ => result Z
  | Clock => ext Z
  | Admit _ | Target => ext bool
  | Adapter _ o => ext (adapter_ans o)
  | BindingCancel _ => ext unit
  | BindingExport => ext string
  | BindingSettle => ext BindingSettlement
  | BindingQuiesce => ext bool
  | HostAccept _ _ => ext LeaseIdentity
  | _ => unit
  end.

(** ** Programs *)

Notation prog := (prog ans).

(** A program that may raise. *)
Definition M (A : Type) : Type := prog (call_outcome A).

#[export] Instance M_ret : MRet M := λ A a, Ret (Value a).
#[export] Instance M_bind : MBind M := λ A B, and_then.

Definition catch {A} : M A → M A → M A := Programs.catch.

(** [with self._barrier: p] *)
Definition with_barrier {A} (p : M A) : M A := Act Acquire (λ _, finally p Release).

(** ** The gateway *)

Definition provider_error : ToolError := MkToolError PROVIDER "provider operation failed".

Section gateway.
Context (c : AttachmentConfig) (j : nat).

(** [_salvageable] *)
Definition salvageable (s : string) : bool :=
  (0 <? str_len s)%nat && (str_len s <=? 64)%nat && stripped s && no_controls s.

Definition salvaged (d : dict string Data) (k : string) : string :=
  match dget k d with Some (DStr s) => if salvageable s then s else UNPARSED_CALL_ID | _ => UNPARSED_CALL_ID end.

(** [_salvaged_identity] *)
Definition salvaged_identity (data : Data) : string * string :=
  match data with
  | DDict d => (salvaged d "call_id", salvaged d "episode_id")
  | _ => (UNPARSED_CALL_ID, UNPARSED_CALL_ID)
  end.

(** The constructor of a result raises on invalid fields. *)
Definition tool_result (r : ToolResult) : M ToolResult :=
  if tool_result_ok r then mret r else raises (AnException (ValueError "invalid tool result")).

(** [_reject_unparsed] *)
Definition reject_unparsed (data : Data) (e : ToolError) : M ToolResult :=
  let '(call, episode) := salvaged_identity data in
  act (GRecord j call episode None false (Some (te_category e)));;
  tool_result (MkToolResult call (c_attachment_id c) (c_epoch c) false None (Some e)).

Definition result_of (r : ToolRequest) (data : option (dict string Data)) (error : option ToolError) : ToolResult :=
  MkToolResult (call_id r) (c_attachment_id c) (c_epoch c) (bool_decide (error = None)) data error.

Definition no_counts : tally := MkTally 0 0 0 0 0 0 0 0.

(** [_finalize] *)
Definition finalize (r : ToolRequest) (data : option (dict string Data)) (error : option ToolError) : M ToolResult :=
  res ← tool_result (result_of r data error);
  act (GRecord j (call_id r) (episode_id r) (Some (method r)) (tr_ok res) (te_category <$> error));;
  (if tr_ok res then act (GCount j (MkTally 0 0 0 0 0 0 0 1)) else mret tt);;
  mret res.

Definition refuse (r : ToolRequest) (e : ToolError) : M ToolResult := finalize r None (Some e).

(** [_terminal] *)
Definition terminal (r : ToolRequest) (e : ToolError) : M ToolResult :=
  res ← refuse r e; act (GPublish j r res);; mret res.

(** [_precheck_policy] *)
Definition precheck_policy (r : ToolRequest) (g : CapabilityGrant) : option ToolError :=
  match method r with
  | WORKSPACE_WRITE =>
      if negb (permits g WORKSPACE_WRITE) then Some (MkToolError WRITE "no current write grant")
      else match params r with
           | WriteParams path _ =>
               if negb (permits_write_path g path) then Some (MkToolError PATH "path is not writable under the current grant")
               else None
           | _ => None
           end
  | m =>
      if negb (permits g m) then Some (MkToolError CAPABILITY "capability is not granted")
      else match m, params r with
           | WORKSPACE_SHELL, ShellParams argv _ =>
               if negb (bool_decide (argv ∈ g_allowed_argv g)) then Some (MkToolError ARGV "argv is not allowed under the current grant")
               else None
           | _, _ => None
           end
  end.

(** The time, [self._clock()]. *)
Definition clock : M Z := x ← act Clock; call_out type_error x.

(** [_precheck] *)
Definition precheck (r : ToolRequest) : M (option ToolError) :=
  if negb (String.eqb (episode_id r) (c_episode_id c)) || negb (String.eqb (attachment_id r) (c_attachment_id c))
     || negb (attachment_epoch r =? c_epoch c)
  then mret (Some (MkToolError STALE_EPOCH "episode, attachment identity, or epoch is not current"))
  else x ← act Fence;
    match x with
    | Threw | Alien => mret (Some provider_error)
    | Broke => raises ABaseException
    | Gave fence =>
        if negb (cf_open fence) then mret (Some (MkToolError POST_FENCE "attachment admission is closed"))
        else if cf_aborted fence then mret (Some (MkToolError ABORTED "attachment is cancelled"))
        else current ← act LCurrent;
          match current with
          | Some g =>
              if negb (g_epoch g =? grant_epoch r) then mret (Some (MkToolError STALE_EPOCH "grant is not current"))
              else now ← clock;
                if Z.min (cf_deadline fence) (g_deadline g) <? now then mret (Some (MkToolError DEADLINE "call deadline has passed"))
                else mret (precheck_policy r g)
          | None => mret (Some (MkToolError STALE_EPOCH "grant is not current"))
          end
    end.

(** [_admit] and [_target_current]: an exception is a refusal. *)
Definition consult (e : ext bool) : M bool :=
  match e with
  | Gave b => mret b
  | Alien | Threw => mret false
  | Broke => raises ABaseException
  end.

Definition call_admitted (r : ToolRequest) : M bool :=
  if c_admission c then x ← act (Admit (call_id r)); consult x else mret true.

Definition target_current (write : bool) : M bool :=
  if write && c_target c then x ← act Target; consult x else mret true.

(** [_postcheck] *)
Definition postcheck (r : ToolRequest) (g : CapabilityGrant) (write : bool) : M (option ToolError) :=
  with_barrier (
    x ← act Fence;
    match x with
    | Threw | Alien => mret (Some provider_error)
    | Broke => raises ABaseException
    | Gave fence =>
        if negb (cf_open fence) then mret (Some (MkToolError POST_FENCE "attachment fence closed after staging"))
        else if cf_aborted fence then mret (Some (MkToolError ABORTED "attachment cancelled before commit"))
        else current ← act LCurrent;
          match current with
          | Some g' =>
              if negb (g_epoch g' =? g_epoch g) then mret (Some (MkToolError STALE_EPOCH "grant replaced before commit"))
              else now ← clock;
                if Z.min (cf_deadline fence) (g_deadline g) <? now then mret (Some (MkToolError DEADLINE "deadline passed before commit"))
                else a ← call_admitted r;
                  if negb a then mret (Some (MkToolError AUTHORITY "connection admission rejected the result"))
                  else t ← target_current write;
                    if negb t then mret (Some (MkToolError POST_FENCE "target head is no longer current"))
                    else mret None
          | None => mret (Some (MkToolError STALE_EPOCH "grant replaced before commit"))
          end
    end).

(** A call to the adapter: its value, or a raise. *)
Definition adapter (o : adapter_op) (alien : M (adapter_ans o)) : M (adapter_ans o) :=
  x ← act (Adapter j o); call_out alien x.

(** [_perform] *)
Definition perform_tool (r : ToolRequest) : M (dict string Data) :=
  match params r with
  | ReadParams path => content ← adapter (OpRead path) type_error; mret [("content", content)]
  | SearchParams query path =>
      matches ← adapter (OpSearch query path) type_error;
      match matches with
      | DTuple l =>
          if (MAX_SEARCH_RESULTS <? length l)%nat then raises (AnException (TypeError "adapter search result is not a bounded tuple"))
          else mret [("matches", DList l)]
      | _ => raises (AnException (TypeError "adapter search result is not a bounded tuple"))
      end
  | ShellParams argv cwd =>
      o ← adapter (OpShell argv cwd) type_error;
      mret [("returncode", DInt (so_returncode o)); ("stdout", DStr (so_stdout o)); ("stderr", DStr (so_stderr o));
            ("truncated", DBool (so_truncated o))]
  | WriteParams _ _ | TestParams =>
      o ← adapter OpTest type_error; mret [("passed", DBool (to_passed o)); ("digest", DStr (to_evidence_digest o))]
  end.

(** [_discard] *)
Definition discard_stage (s : StagedWrite) : M bool :=
  x ← act (Adapter j (OpDiscard s));
  match x with
  | Gave _ | Alien => act (GCount j (MkTally 0 0 0 0 1 0 0 0));; mret true
  | Threw => act (GCount j (MkTally 0 0 0 0 0 1 0 0));; mret false
  | Broke => raises ABaseException
  end.

(** Under the barrier: check again, then commit or discard. [inl] is the result
    the call returns there, [inr] the digest of a commit. *)
Definition commit_section (r : ToolRequest) (g : CapabilityGrant) (s : StagedWrite) : M (ToolResult + string) :=
  with_barrier (
    error ← postcheck r g true;
    match error with
    | Some e =>
        ok ← discard_stage s;
        res ← refuse r (if ok : bool then e else provider_error); mret (inl res)
    | None =>
        x ← act (Adapter j (OpCommit s));
        match x with
        | Threw => discard_stage s;; res ← refuse r provider_error; mret (inl res)
        | Broke => raises ABaseException
        | Gave d =>
            act (GCount j (MkTally 0 0 0 1 0 0 1 0));;
            if bool_decide (d = DStr (sw_digest s)) then mret (inr (sw_digest s))
            else res ← refuse r provider_error; mret (inl res)
        | Alien =>
            act (GCount j (MkTally 0 0 0 1 0 0 1 0));;
            res ← refuse r provider_error; mret (inl res)
        end
    end).

(** A result of the call's data; an invalid one is the provider's error. *)
Definition gateway_deliver (r : ToolRequest) (data : dict string Data) : M ToolResult :=
  catch (finalize r (Some data) None) (refuse r provider_error).

(** [_execute_write] *)
Definition execute_write (r : ToolRequest) (g : CapabilityGrant) (path content : string) : M ToolResult :=
  x ← act (Adapter j (OpStage (call_id r) path content));
  match x with
  | Threw | Alien => refuse r provider_error
  | Broke => raises ABaseException
  | Gave s =>
      act (GCount j (MkTally 0 0 1 0 0 0 0 0));;
      if negb (String.eqb (sw_call_id s) (call_id r)) || negb (String.eqb (sw_path s) path)
      then discard_stage s;; refuse r provider_error
      else committed ← commit_section r g s;
        match committed with
        | inl res => mret res
        | inr digest => gateway_deliver r [("committed", DBool true); ("digest", DStr digest)]
        end
  end.

(** [_execute] *)
Definition hands_execute (r : ToolRequest) (g : CapabilityGrant) : M ToolResult :=
  act (GCount j (MkTally 0 1 0 0 0 0 0 0));;
  match method r with
  | WORKSPACE_WRITE =>
      match params r with
      | WriteParams path content => execute_write r g path content
      | _ => raises (AnException (RuntimeError "write execution requires WriteParams"))
      end
  | _ =>
      data ← catch (d ← perform_tool r; mret (Some d)) (mret None);
      match data with
      | None => refuse r provider_error
      | Some d =>
          error ← postcheck r g false;
          match error with
          | Some e => refuse r e
          | None => gateway_deliver r d
          end
      end
  end.

(** The body of [submit] under its [except BaseException]. *)
Definition submit_claimed (r : ToolRequest) : M ToolResult :=
  claimed ← act (GClaim j r);
  match claimed with
  | Prior res => mret res
  | ClaimRaises x => raises x
  | Fresh =>
      error ← precheck r;
      match error with
      | Some e => terminal r e
      | None =>
          spent ← act (LConsume (grant_epoch r));
          match spent with
          | Exhausted => terminal r (MkToolError BUDGET "grant call budget is exhausted")
          | NotCurrent => terminal r (MkToolError STALE_EPOCH "grant is not current")
          | Spent g => res ← hands_execute r g; act (GPublish j r res);; mret res
          end
      end
  end.

Definition gateway_submit (data : Data) : M ToolResult :=
  act (GCount j (MkTally 1 0 0 0 0 0 0 0));;
  match parse_tool_request data with
  | Rejected e => reject_unparsed data e
  | Parsed r => pbind (submit_claimed r) (λ o, match o with Raises x => Act (GAbandon j r) (λ _, Ret (Raises x)) | o => Ret o end)
  end.

(** [cleanup_stages] *)
Definition cleanup_stages : M Z :=
  removed ← adapter OpDiscardAll type_error;
  if removed <? 0 then type_error else act (GCount j (MkTally 0 0 0 0 removed 0 0 0));; mret removed.
End gateway.
