(* ===== verification/EpisodeAttachment.v ===== *)
(** * Episode attachments and the threads that share one
      (src/src/petrus/agenticus/attachment/episode.py)

    The lifecycle operations of an attachment as programs, the shared state with
    its barrier, and the interleavings of any number of threads. The binding and
    the custody a territory is released to are the environment's. *)

From stdpp Require Import base gmap sets list strings.
From Stdlib Require Import Ascii ZArith Lia.
From S2P Require Import Prelude PyData Schema AgentText Programs Hands HandsGateway.
Open Scope string_scope.
Open Scope list_scope.
Open Scope Z_scope.

Definition MAX_WORKSPACE_ARCHIVE_BYTES : Z := 512 * 1024 * 1024.

(** ** Lifecycle operations *)

Section attachment.
Context (sha256_hex : string → string) (c : AttachmentConfig).

(** [_record_settlement] *)
Definition record_settlement (stages : Z) (archive : string) (s : BindingSettlement) : AttachmentSettlement :=
  MkAttachmentSettlement (c_attachment_id c) (c_epoch c) stages archive (sha256_hex archive) s.

Fixpoint drain_all (n : nat) : M unit :=
  match n with
  | 0%nat => mret tt
  | S n =>
      drain_all n;;
      x ← act (GDrain n); d ← call_out type_error x;
      if d : bool then mret tt else raises (AnException (RuntimeError "current calls did not drain"))
  end.

Fixpoint cleanup_all (n : nat) : M Z :=
  match n with
  | 0%nat => mret 0
  | S n => stages ← cleanup_all n; removed ← cleanup_stages n; mret (stages + removed)
  end.

(** The bounded archive of the workspace. *)
Definition export_archive : M string :=
  x ← act BindingExport; archive ← call_out type_error x;
  if MAX_WORKSPACE_ARCHIVE_BYTES <? Z.of_nat (String.length archive)
  then raises (AnException (RuntimeError "attachment archive exceeds the public Motus workspace archive bound"))
  else mret archive.

(** The binding's settlement, its detail dropped; [None] where it raised. *)
Definition binding_settlement : M (option BindingSettlement) :=
  x ← act BindingSettle;
  match x with
  | Gave s => mret (Some (MkBindingSettlement (bs_binding_kind s) (bs_disposition s) (bs_verified s) ""))
  | Alien | Threw => mret None
  | Broke => raises ABaseException
  end.

Definition unverified : BindingSettlement :=
  MkBindingSettlement (c_binding_kind c) "unverified" false "binding settlement failed".

Definition settle : M AttachmentSettlement :=
  started ← act SettleBegin; n ← lift started;
  finally (
    drain_all n;;
    stages ← cleanup_all n;
    archive ← export_archive;
    settlement ← binding_settlement;
    match settlement with
    | Some s =>
        let r := record_settlement stages archive s in
        act (SettleEnd r (negb (bs_verified s)));; mret r
    | None =>
        act (SettleEnd (record_settlement stages archive unverified) true);;
        raises (AnException (RuntimeError "attachment binding settlement failed"))
    end) SettlingOver.

Definition retry_settlement : M AttachmentSettlement :=
  started ← act RetryBegin; prior ← lift started;
  finally (
    settlement ← binding_settlement;
    match settlement with
    | Some s =>
        let r := record_settlement (as_stages_discarded prior) (as_archive prior) s in
        act (RetryEnd r (negb (bs_verified s)));; mret r
    | None =>
        act (RetryEnd (record_settlement (as_stages_discarded prior) (as_archive prior) unverified) true);;
        raises (AnException (RuntimeError "attachment binding settlement failed"))
    end) SettlingOver.

(** [_release_to] *)
Definition release : M AttachmentRelease :=
  started ← act ReleaseBegin; n ← lift started;
  finally (
    catch (
      x ← act BindingQuiesce; quiet ← call_out type_error x;
      (if quiet : bool then mret tt else raises (AnException (RuntimeError "runtime operations did not drain before release")));;
      drain_all n;;
      stages ← cleanup_all n;
      archive ← export_archive;
      y ← act (HostAccept stages archive); territory ← call_out type_error y;
      if bool_decide (Some territory = c_motus_lease c)
      then let r := MkAttachmentRelease (c_attachment_id c) (c_epoch c) stages archive (sha256_hex archive) territory in
        act (ReleaseEnd r);; mret r
      else raises (AnException (RuntimeError "host custody accepted a different territory identity")))
    (act ReleaseFail;; raises (AnException (RuntimeError "attachment release to host custody failed"))))
    SettlingOver.

(** [cancel] *)
Definition cancel (reason : string) : M unit :=
  with_barrier (
    started ← act CancelBegin; go ← lift started;
    if go : bool
    then x ← act (BindingCancel reason);
      match x with
      | Gave _ | Alien => act CancelEnd;; mret tt
      | Threw => raises (AnException (RuntimeError "attachment cancellation failed"))
      | Broke => raises ABaseException
      end
    else mret tt).

(** ** Threads *)

Inductive call :=
| Submit (j : nat) (data : Data)
| OpenGrant (t : GrantTerms)
| CloseGrant
| NewGateway (max_evidence : nat)
| Cancel (reason : string)
| Settle
| Retry
| ReleaseTo
| Successor (episode attachment : string).

Inductive Val :=
| VResult (r : ToolResult)
| VGrant (g : CapabilityGrant)
| VSettlement (s : AttachmentSettlement)
| VRelease (r : AttachmentRelease)
| VGateway (j : nat)
| VEpoch (epoch : Z)
| VNone.

Definition vmap {A} (f : A → Val) (p : M A) : M Val := a ← p; mret (f a).

Definition program (k : call) : M Val :=
  match k with
  | Submit j data => vmap VResult (gateway_submit c j data)
  | OpenGrant t => x ← act (LOpen t); vmap VGrant (lift x)
  | CloseGrant => vmap (λ _, VNone) (act LClose)
  | NewGateway n => x ← act (OpenGateway n); vmap VGateway (lift x)
  | Cancel reason => vmap (λ _, VNone) (cancel reason)
  | Settle => vmap VSettlement settle
  | Retry => vmap VSettlement retry_settlement
  | ReleaseTo => vmap VRelease release
  | Successor e a => x ← act (Succeed e a); vmap VEpoch (lift x)
  end.
End attachment.

Record event := Ev { ev_eff : eff; ev_ans : ans ev_eff }.

(** A thread: the operation it runs, the actions it took with their answers,
    and what is left to do. *)
Record EpisodeThread := MkThread { th_call : call; th_log : list event; th_prog : M Val }.

Record World := MkWorld {
  w_att : Attachment;
  w_ledger : GrantLedger;
  w_gateways : list Gateway;
  w_barrier : option (nat * nat);
  w_threads : list EpisodeThread
}.

Definition set_att (a : Attachment) (w : World) : World := MkWorld a (w_ledger w) (w_gateways w) (w_barrier w) (w_threads w).
Definition set_ledger (l : GrantLedger) (w : World) : World := MkWorld (w_att w) l (w_gateways w) (w_barrier w) (w_threads w).
Definition set_gateways (gs : list Gateway) (w : World) : World := MkWorld (w_att w) (w_ledger w) gs (w_barrier w) (w_threads w).
Definition set_barrier (b : option (nat * nat)) (w : World) : World := MkWorld (w_att w) (w_ledger w) (w_gateways w) b (w_threads w).
Definition set_threads (ts : list EpisodeThread) (w : World) : World := MkWorld (w_att w) (w_ledger w) (w_gateways w) (w_barrier w) ts.

(** What the environment is asked for. *)
Inductive Reply :=
| RNone
| RData (x : ext Data)
| RShell (x : ext ShellOutcome)
| RStaged (x : ext StagedWrite)
| RTest (x : ext TestOutcome)
| RUnit (x : ext unit)
| RInt (x : ext Z)
| RBool (x : ext bool)
| RBytes (x : ext string)
| RSettlement (x : ext BindingSettlement)
| RLease (x : ext LeaseIdentity).

(** An object of a class satisfies what its constructor checks. *)
Definition valid {A} (ok : A → bool) (x : ext A) : option (ext A) :=
  match x with Gave a => if ok a then Some x else None | _ => Some x end.

Definition adapter_reply (o : adapter_op) (r : Reply) : option (ext (adapter_ans o)) :=
  match o, r with
  | OpRead _, RData x | OpSearch _ _, RData x | OpCommit _, RData x => Some x
  | OpShell _ _, RShell x => valid shell_outcome_ok x
  | OpStage _ _ _, RStaged x => valid staged_write_ok x
  | OpDiscard _, RUnit x => Some x
  | OpTest, RTest x => valid test_outcome_ok x
  | OpDiscardAll, RInt x => Some x
  | _, _ => None
  end.

Section semantics.
Context (sha256_hex : string → string) (c : AttachmentConfig).

(** ** Sections under the gateway's condition *)

Definition on_gateway {A} (j : nat) (f : Gateway → option (A * Gateway)) (w : World) : option (A * World) :=
  g ← w_gateways w !! j; '(a, g) ← f g; Some (a, set_gateways (<[j := g]> (w_gateways w)) w).

Definition finalize_state (r : ToolRequest) (res : ToolResult) (g : Gateway) : Gateway :=
  record (call_id r) (episode_id r) (Some (method r)) (tr_ok res) (te_category <$> tr_error res) (c_epoch c) g.

(** [_claim]: no answer while an identical call is under way, unless the wait
    is interrupted. *)
Definition gateway_claim (r : ToolRequest) (interrupted : bool) (g : Gateway) : option (claim_answer * Gateway) :=
  match dget (call_id r) (gw_calls g) with
  | None =>
      if (gw_max_calls g <=? length (gw_calls g))%nat
      then let res := result_of c r None (Some (MkToolError BUDGET "call ledger budget is exhausted")) in
        if tool_result_ok res then Some (Prior res, finalize_state r res g)
        else Some (ClaimRaises (AnException (ValueError "invalid tool result")), g)
      else Some (Fresh, set_calls (dset (call_id r) (r, None) (gw_calls g)) (gw_in_flight g + 1) g)
  | Some (original, res) =>
      if negb (bool_decide (original = r)) then Some (ClaimRaises (AnException (RuntimeError "ToolCallConflict")), g)
      else match res with
           | Some res => Some (Prior res, g)
           | None => if interrupted then Some (ClaimRaises ABaseException, g) else None
           end
  end.

(** [_publish] *)
Definition gateway_publish (r : ToolRequest) (res : ToolResult) (g : Gateway) : Gateway :=
  set_calls (dset (call_id r) (r, Some res) (gw_calls g)) (gw_in_flight g - 1) g.

(** [_abandon] *)
Definition abandon (r : ToolRequest) (g : Gateway) : bool * Gateway :=
  match dget (call_id r) (gw_calls g) with
  | Some (original, None) =>
      if bool_decide (original = r) then (true, set_calls (ddel (call_id r) (gw_calls g)) (gw_in_flight g - 1) g) else (false, g)
  | _ => (false, g)
  end.

(** ** Sections under the barrier *)

(** Thread [t] may enter: the barrier is free or its own. *)
Definition may_enter (t : nat) (w : World) : bool :=
  match w_barrier w with None => true | Some (o, _) => (o =? t)%nat end.

Definition under {A} (t : nat) (w : World) (x : A * World) : option (A * World) := if may_enter t w then Some x else None.

(** [_fence_snapshot] at the gateway's epoch. *)
Definition fence_snapshot (a : Attachment) : CallFence :=
  MkCallFence (at_open a && negb (at_uncertain a)) (at_aborted a) (c_deadline c).

Definition attachment_settled (a : Attachment) : bool := bool_decide (is_Some (at_settlement a)).
Definition attachment_released (a : Attachment) : bool := bool_decide (is_Some (at_release a)).

Definition error {A} (b : bool) (msg : string) (k : result A) : result A := if b then Err (RuntimeError msg) else k.

Definition gateway_guard (a : Attachment) (max_evidence n : nat) : result nat :=
  error (at_uncertain a) "uncertain custody blocks new gateways" (
  error (negb (at_open a)) "attachment admission is closed" (
  if (max_evidence =? 0)%nat then Err (ValueError "gateway max_evidence must be a positive integer") else Ok n)).

Definition cancel_guard (a : Attachment) : result bool :=
  error (at_settling a) "attachment settlement is already in progress" (
  error (attachment_settled a || negb (at_open a)) "attachment is already settled" (Ok (negb (at_cancelled a)))).

Definition settle_guard (a : Attachment) (n : nat) : result nat :=
  error (at_uncertain a) "retry settlement instead of settling again" (
  error (attachment_settled a || attachment_released a) "attachment epoch is already settled" (
  error (at_settling a) "attachment settlement is already in progress" (Ok n))).

Definition retry_guard (a : Attachment) : result AttachmentSettlement :=
  match at_settlement a with
  | Some r =>
      error (negb (at_uncertain a)) "retry requires a prior unverified settlement" (
      error (at_settling a) "attachment settlement is already in progress" (Ok r))
  | None => Err (RuntimeError "retry requires a prior unverified settlement")
  end.

Definition release_guard (a : Attachment) (n : nat) : result nat :=
  error (at_uncertain a) "uncertain custody blocks attachment release" (
  error (attachment_settled a || attachment_released a || negb (at_open a)) "attachment is already settled or released" (
  error (at_settling a) "attachment settlement is already in progress" (
  error (bool_decide (c_motus_lease c = None)) "retained custody currently requires an exact Motus binding" (Ok n)))).

(** [successor], up to the construction of the new attachment. *)
Definition successor_guard (a : Attachment) (episode attachment : string) : result Z :=
  error (at_uncertain a) "unverified cleanup blocks attachment succession" (
  error (at_open a || negb (match at_settlement a with Some r => bs_verified (as_settlement r) | None => false end))
    "succession requires verified settlement of the prior attachment" (
  error (String.eqb episode (c_episode_id c)) "successor requires a different EpisodeId" (
  error (String.eqb attachment (c_attachment_id c)) "successor requires a different attachment_id" (Ok (c_epoch c + 1))))).

Definition closing (a : Attachment) : Attachment :=
  MkAttachment false (at_aborted a) (at_cancelled a) true (at_uncertain a) (at_settlement a) (at_release a).
Definition set_settling (b : bool) (a : Attachment) : Attachment :=
  MkAttachment (at_open a) (at_aborted a) (at_cancelled a) b (at_uncertain a) (at_settlement a) (at_release a).
Definition set_settlement (s : AttachmentSettlement) (uncertain : bool) (a : Attachment) : Attachment :=
  MkAttachment (at_open a) (at_aborted a) (at_cancelled a) (at_settling a) uncertain (Some s) (at_release a).
Definition set_release (r : AttachmentRelease) (a : Attachment) : Attachment :=
  MkAttachment (at_open a) (at_aborted a) (at_cancelled a) (at_settling a) (at_uncertain a) (at_settlement a) (Some r).
Definition set_uncertain (a : Attachment) : Attachment :=
  MkAttachment (at_open a) (at_aborted a) (at_cancelled a) (at_settling a) true (at_settlement a) (at_release a).
Definition aborting (a : Attachment) : Attachment :=
  MkAttachment (at_open a) true (at_cancelled a) (at_settling a) (at_uncertain a) (at_settlement a) (at_release a).
Definition cancelling (a : Attachment) : Attachment :=
  MkAttachment (at_open a) (at_aborted a) true (at_settling a) (at_uncertain a) (at_settlement a) (at_release a).

Definition DEFAULT_MAX_CALLS : nat := 256.

(** A guarded change of the attachment. *)
Definition gateway_guarded {A} (t : nat) (w : World) (r : result A) (f : A → World) : option (result A * World) :=
  under t w (r, match r with Ok a => f a | Err _ => w end).

Definition is_broke {A} (x : ext A) : bool := match x with Broke => true | _ => false end.

(** ** One action *)

Definition perform (t : nat) (e : eff) (r : Reply) (w : World) : option (ans e * World) :=
  let a := w_att w in
  let n := length (w_gateways w) in
  match e with
  | GCount j k => on_gateway j (λ g, Some (tt, count k g)) w
  | GClaim j q => on_gateway j (gateway_claim q (match r with RUnit x => is_broke x | _ => false end)) w
  | GPublish j q res => on_gateway j (λ g, Some (tt, gateway_publish q res g)) w
  | GAbandon j q => on_gateway j (λ g, Some (abandon q g)) w
  | GRecord j call episode m ok k => on_gateway j (λ g, Some (tt, record call episode m ok k (c_epoch c) g)) w
  | GDrain j =>
      match r with
      | RUnit x => on_gateway j (λ g, Some (match x with Gave _ => Gave (gw_in_flight g <=? 0) | Alien => Alien | Threw => Threw | Broke => Broke end, g)) w
      | _ => None
      end
  | LCurrent => Some (gl_current (w_ledger w), w)
  | LConsume epoch => let '(x, l) := ledger_consume epoch (w_ledger w) in Some (x, set_ledger l w)
  | LOpen terms =>
      match ledger_open terms (w_ledger w) with
      | Ok (g, l) => Some (Ok g, set_ledger l w)
      | Err x => Some (Err x, w)
      end
  | LClose => Some (tt, set_ledger (ledger_close (w_ledger w)) w)
  | Acquire =>
      match w_barrier w with
      | None => Some (tt, set_barrier (Some (t, 1%nat)) w)
      | Some (o, d) => if (o =? t)%nat then Some (tt, set_barrier (Some (o, S d)) w) else None
      end
  | Release =>
      match w_barrier w with
      | Some (o, S d) =>
          if (o =? t)%nat then Some (tt, set_barrier (if (d =? 0)%nat then None else Some (o, d)) w) else None
      | _ => None
      end
  | Fence => under t w (Gave (fence_snapshot a), w)
  | OpenGateway k =>
      gateway_guarded t w (gateway_guard a k n)
        (λ _, set_gateways (w_gateways w ++ [gateway_new k DEFAULT_MAX_CALLS]) w)
  | CancelBegin => gateway_guarded t w (cancel_guard a) (λ go, if go then set_att (aborting a) w else w)
  | CancelEnd => under t w (tt, set_att (cancelling a) w)
  | SettleBegin => gateway_guarded t w (settle_guard a n) (λ _, set_att (closing a) w)
  | SettleEnd s u => under t w (tt, set_ledger (ledger_close (w_ledger w)) (set_att (set_settlement s u a) w))
  | SettlingOver => under t w (tt, set_att (set_settling false a) w)
  | RetryBegin => gateway_guarded t w (retry_guard a) (λ _, set_att (set_settling true a) w)
  | RetryEnd s u => under t w (tt, set_att (set_settlement s u a) w)
  | ReleaseBegin => gateway_guarded t w (release_guard a n) (λ _, set_att (closing a) w)
  | ReleaseEnd x => under t w (tt, set_ledger (ledger_close (w_ledger w)) (set_att (set_release x a) w))
  | ReleaseFail => under t w (tt, set_ledger (ledger_close (w_ledger w)) (set_att (set_uncertain a) w))
  | Succeed episode attachment => under t w (successor_guard a episode attachment, w)
  | Clock => match r with RInt x => Some (x, w) | _ => None end
  | Admit _ | Target | BindingQuiesce => match r with RBool x => Some (x, w) | _ => None end
  | Adapter _ o => x ← adapter_reply o r; Some (x, w)
  | BindingCancel _ => match r with RUnit x => Some (x, w) | _ => None end
  | BindingExport => match r with RBytes x => Some (x, w) | _ => None end
  | BindingSettle => match r with RSettlement x => x ← valid binding_settlement_ok x; Some (x, w) | _ => None end
  | HostAccept _ _ => match r with RLease x => Some (x, w) | _ => None end
  end.

(** ** Schedules *)

Inductive move := Spawn (k : call) | Sched (t : nat) (r : Reply).

Definition episode_step (m : move) (w : World) : option World :=
  match m with
  | Spawn k => Some (set_threads (w_threads w ++ [MkThread k [] (program sha256_hex c k)]) w)
  | Sched t r =>
      th ← w_threads w !! t;
      match th_prog th with
      | Ret _ => None
      | Act e k =>
          '(x, w') ← perform t e r w;
          Some (set_threads (<[t := MkThread (th_call th) (th_log th ++ [Ev e x]) (k x)]> (w_threads w')) w')
      end
  end.

Fixpoint run (ms : list move) (w : World) : option World :=
  match ms with
  | [] => Some w
  | m :: ms => w ← episode_step m w; run ms w
  end.

Definition attachment_new : Attachment := MkAttachment true false false false false None None.

(** [EpisodeAttachment.__init__]; the snapshot's descriptors are checked where
    the snapshot is resolved. *)
Definition world_new : result World :=
  raise_if (negb (text_ok (c_attachment_id c))) (ValueError "attachment_id must be a bounded non-empty identity string");;
  raise_if (c_epoch c <=? 0) (ValueError "episode attachment epoch must be a positive integer");;
  raise_if (negb (binding_kind_ok (c_binding_kind c))) (TypeError "episode attachment binding kind must satisfy the binding protocol");;
  l ← GrantLedger_new (c_attachment_id c) (c_epoch c);
  Ok (MkWorld attachment_new l [] None []).

(** The worlds schedules lead to. *)
Definition runs_to (w : World) : Prop := ∃ w0 ms, world_new = Ok w0 ∧ run ms w0 = Some w.
End semantics.
