(* ===== verification/HandsSafety.v ===== *)
(** * What the Hands gateway guarantees

    Every program is checked against a monitor: what a thread's own actions and
    their answers say about it, and what it may do next. Since a program is safe
    whatever it is answered, the checks hold in every interleaving; the
    invariants of the shared state then connect the monitors of the threads. *)

From stdpp Require Import base gmap sets list strings.
From Stdlib Require Import Ascii ZArith Lia.
From S2P Require Import Prelude PyData Schema AgentText Programs Hands HandsGateway EpisodeAttachment.
Open Scope string_scope.
Open Scope list_scope.
Open Scope Z_scope.

(** ** The monitor of a thread *)

(** What the thread saw before its grant was spent: the fence, the grant that
    was current, the time, the epoch it asked for and the grant it spent. *)
Record call_auth := MkAuth { au_fence : CallFence; au_current : CapabilityGrant; au_now : Z; au_epoch : Z; au_spent : CapabilityGrant }.

Record monitor := Mon {
  m_depth : nat;
  m_fenced : bool;
  m_claim : option (nat * ToolRequest);
  m_fence : option CallFence;
  m_current : option CapabilityGrant;
  m_now : option Z;
  m_auth : option call_auth;
  m_began : option nat;
  m_drained : list nat;
  m_refused : bool;
  m_retrying : bool;
  m_stray : bool
}.

Definition m0 : monitor := Mon 0 false None None None None None None [] false false false.

Definition open_fence (f : CallFence) : bool := cf_open f && negb (cf_aborted f).

Definition unfenced (s : monitor) : monitor :=
  Mon (m_depth s) false (m_claim s) (m_fence s) (m_current s) (m_now s) (m_auth s) (m_began s) (m_drained s) (m_refused s) (m_retrying s) (m_stray s).
Definition claiming (k : option (nat * ToolRequest)) (s : monitor) : monitor :=
  Mon (m_depth s) (m_fenced s) k None None None None (m_began s) (m_drained s) (m_refused s) (m_retrying s) (m_stray s).
Definition beginning (r : result nat) (s : monitor) : monitor :=
  match r with
  | Ok n => Mon (m_depth s) false (m_claim s) (m_fence s) (m_current s) (m_now s) (m_auth s) (Some n) [] (m_refused s) (m_retrying s) (m_stray s)
  | Err _ => unfenced s
  end.

Definition refused (s : monitor) : monitor :=
  Mon (m_depth s) (m_fenced s) (m_claim s) (m_fence s) (m_current s) (m_now s) (m_auth s) (m_began s) (m_drained s) true (m_retrying s) (m_stray s).
Definition retrying (s : monitor) : monitor :=
  Mon (m_depth s) false (m_claim s) (m_fence s) (m_current s) (m_now s) (m_auth s) (m_began s) (m_drained s) (m_refused s) true (m_stray s).
Definition straying (b : bool) (s : monitor) : monitor :=
  Mon (m_depth s) (m_fenced s) (m_claim s) (m_fence s) (m_current s) (m_now s) (m_auth s) (m_began s) (m_drained s) (m_refused s)
    (m_retrying s) (m_stray s || b).

Definition upd_ans (s : monitor) (e : eff) : ans e → monitor :=
  match e return ans e → monitor with
  | GClaim j r => λ x, match x with Fresh => claiming (Some (j, r)) s | Prior _ => s | ClaimRaises _ => refused s end
  | GPublish _ _ _ => λ _, claiming None s
  | GAbandon _ _ => λ found, claiming None (straying (found && bool_decide (m_claim s = None)) s)
  | GDrain j => λ x, match x with
      | Gave true => Mon (m_depth s) (m_fenced s) (m_claim s) (m_fence s) (m_current s) (m_now s) (m_auth s) (m_began s) (j :: m_drained s)
                     (m_refused s) (m_retrying s) (m_stray s)
      | _ => s
      end
  | LCurrent => λ x, Mon (m_depth s) (m_fenced s) (m_claim s) (m_fence s) x (m_now s) (m_auth s) (m_began s) (m_drained s) (m_refused s) (m_retrying s) (m_stray s)
  | LConsume e => λ x,
      let a := match x, m_fence s, m_current s, m_now s with
               | Spent g, Some f, Some g0, Some now => Some (MkAuth f g0 now e g)
               | _, _, _, _ => m_auth s
               end in
      Mon (m_depth s) (m_fenced s) (m_claim s) (m_fence s) (m_current s) (m_now s) a (m_began s) (m_drained s) (m_refused s) (m_retrying s) (m_stray s)
  | Acquire => λ _, Mon (S (m_depth s)) (m_fenced s) (m_claim s) (m_fence s) (m_current s) (m_now s) (m_auth s) (m_began s) (m_drained s) (m_refused s) (m_retrying s) (m_stray s)
  | Release => λ _, Mon (pred (m_depth s)) (m_fenced s && negb (pred (m_depth s) =? 0)%nat) (m_claim s) (m_fence s) (m_current s)
                      (m_now s) (m_auth s) (m_began s) (m_drained s) (m_refused s) (m_retrying s) (m_stray s)
  | Fence => λ x, match x with
      | Gave f => Mon (m_depth s) (negb (m_depth s =? 0)%nat && open_fence f) (m_claim s) (Some f) (m_current s) (m_now s) (m_auth s)
                    (m_began s) (m_drained s) (m_refused s) (m_retrying s) (m_stray s)
      | _ => unfenced s
      end
  | SettleBegin | ReleaseBegin => λ r, beginning r s
  | RetryBegin => λ r, match r with Ok _ => retrying s | Err _ => unfenced s end
  | CancelBegin | CancelEnd | SettleEnd _ _ | SettlingOver | RetryEnd _ _ | ReleaseEnd _ | ReleaseFail => λ _, unfenced s
  | Clock => λ x, match x with
      | Gave z => Mon (m_depth s) (m_fenced s) (m_claim s) (m_fence s) (m_current s) (Some z) (m_auth s) (m_began s) (m_drained s) (m_refused s) (m_retrying s) (m_stray s)
      | _ => s
      end
  | _ => λ _, s
  end.

Definition upd (s : monitor) (ev : event) : monitor := upd_ans s (ev_eff ev) (ev_ans ev).

Definition watch (log : list event) : monitor := fold_left upd log m0.

Lemma watch_snoc log ev : watch (log ++ [ev]) = upd (watch log) ev.
Proof. unfold watch. by rewrite fold_left_app. Qed.

(** ** What a thread may do *)

Section rules.
Context (c : AttachmentConfig) (k : call).

(** The request a submission carries. *)
Definition submits (j : nat) (r : ToolRequest) : Prop :=
  ∃ data, k = Submit j data ∧ parse_tool_request data = Parsed r.

(** The adapter operations of a request. *)
Inductive op_of (r : ToolRequest) : adapter_op → Prop :=
| op_read path : params r = ReadParams path → op_of r (OpRead path)
| op_search query path : params r = SearchParams query path → op_of r (OpSearch query path)
| op_shell argv cwd : params r = ShellParams argv cwd → op_of r (OpShell argv cwd)
| op_test : params r = TestParams → op_of r OpTest
| op_stage path content : params r = WriteParams path content → op_of r (OpStage (call_id r) path content)
| op_commit path content s : params r = WriteParams path content → sw_call_id s = call_id r → sw_path s = path → op_of r (OpCommit s)
| op_discard path content s : params r = WriteParams path content → op_of r (OpDiscard s).

(** The request names this attachment, and what the thread saw authorises it. *)
Definition authorised (r : ToolRequest) (a : call_auth) : Prop :=
  episode_id r = c_episode_id c ∧ attachment_id r = c_attachment_id c ∧ attachment_epoch r = c_epoch c ∧
  open_fence (au_fence a) = true ∧ g_epoch (au_current a) = grant_epoch r ∧ au_epoch a = grant_epoch r ∧ precheck_policy r (au_current a) = None ∧
  au_now a <= cf_deadline (au_fence a) ∧ au_now a <= g_deadline (au_current a).

Definition working (j : nat) (s : monitor) : Prop :=
  ∃ r a, m_claim s = Some (j, r) ∧ m_auth s = Some a ∧ authorised r a.

Definition all_drained (s : monitor) : Prop := ∃ n, m_began s = Some n ∧ ∀ j, (j < n)%nat → j ∈ m_drained s.

Definition allowed (s : monitor) (e : eff) : Prop :=
  match e with
  | GClaim j r => m_claim s = None ∧ submits j r
  | GPublish j r _ => m_claim s = Some (j, r)
  | GAbandon j r => m_claim s = Some (j, r) ∨ m_claim s = None ∧ m_refused s = true
  | GDrain _ => is_Some (m_began s)
  | Adapter j OpDiscardAll => is_Some (m_began s)
  | Adapter j o => (∃ r a, m_claim s = Some (j, r) ∧ m_auth s = Some a ∧ authorised r a ∧ op_of r o) ∧
      match o with OpCommit _ => m_fenced s = true | _ => True end
  | LConsume _ => m_auth s = None ∧ ∃ f, m_fence s = Some f ∧ open_fence f = true
  | SettleBegin | ReleaseBegin => m_began s = None
  | SettleEnd _ _ | ReleaseEnd _ => all_drained s
  | RetryEnd _ _ => m_retrying s = true
  | _ => True
  end.

(** Whatever it is answered, the program does what it may. *)
Definition safe {A} : prog A → monitor → (A → monitor → Prop) → Prop := psafe allowed (λ _ _ _, True) upd_ans.

Lemma safe_act {A} e (f : ans e → prog A) s Q : allowed s e → (∀ x, safe (f x) (upd_ans s e x) Q) → safe (Act e f) s Q.
Proof. split; [done|]. auto. Qed.

Lemma safe_ret {A} (a : A) s (Q : A → monitor → Prop) : Q a s → safe (Ret a) s Q.
Proof. done. Qed.

Lemma safe_mono {A} (p : prog A) s (Q Q' : A → monitor → Prop) : (∀ a s, Q a s → Q' a s) → safe p s Q → safe p s Q'.
Proof. apply psafe_mono. Qed.

Lemma safe_bind {A B} (p : prog A) (f : A → prog B) s Q :
  safe p s (λ a s, safe (f a) s Q) → safe (pbind p f) s Q.
Proof. apply psafe_bind. Qed.

Lemma safe_and_then {A B} (p : M A) (f : A → M B) s (Q : call_outcome B → monitor → Prop) :
  safe p s (λ o s, match o with Value a => safe (f a) s Q | Raises x => Q (Raises x) s end) → safe (p ≫= f) s Q.
Proof. apply psafe_and_then. Qed.

Lemma safe_finally {A} (p : M A) f s (Q : call_outcome A → monitor → Prop) :
  safe p s (λ o s, allowed s f ∧ ∀ x, Q o (upd_ans s f x)) → safe (finally p f) s Q.
Proof. intros H. apply psafe_finally. eapply psafe_mono; [|exact H]. intros o s' []. by split; [|auto]. Qed.

Lemma safe_with_barrier {A} (p : M A) s (Q : call_outcome A → monitor → Prop) :
  safe p (upd_ans s Acquire tt) (λ o s, Q o (upd_ans s Release tt)) → safe (with_barrier p) s Q.
Proof.
  intros H. apply safe_act; [done|]. intros []. apply safe_finally. eapply safe_mono; [|exact H]. intros o s' HQ. by split; [|intros []].
Qed.

(** A program that neither does nor learns anything of note. *)
Definition inert {A} (p : M A) : Prop := ∀ s (Q : call_outcome A → monitor → Prop), (∀ o, Q o s) → safe p s Q.

Lemma inert_ret {A} (o : call_outcome A) : inert (Ret o).
Proof. intros s Q HQ. apply HQ. Qed.

Lemma inert_and_then {A B} (p : M A) (f : A → M B) : inert p → (∀ a, inert (f a)) → inert (p ≫= f).
Proof. intros Hp Hf s Q HQ. apply safe_and_then, Hp. intros [a|x]; [|apply HQ]. by apply Hf. Qed.

Lemma inert_catch {A} (p h : M A) : inert p → inert h → inert (catch p h).
Proof. intros Hp Hh s Q HQ. apply safe_bind, Hp. intros [a|[e|]]; [apply HQ| |apply HQ]. by apply Hh. Qed.

Lemma inert_act e : (∀ s, allowed s e) → (∀ s x, upd_ans s e x = s) → inert (act e).
Proof. intros Ha Hu s Q HQ. apply safe_act; [apply Ha|]. intros x. rewrite Hu. apply HQ. Qed.
End rules.

#[global] Arguments safe : simpl never.

Create HintDb inert.
#[export] Hint Resolve inert_ret inert_and_then inert_catch : inert.

(** Step through a program with its answers. *)
Ltac inert_tac := repeat first [progress intros | done | apply inert_and_then | apply inert_catch | apply inert_ret
  | (match goal with |- inert _ _ (act ?e) => apply (inert_act _ _ e); done end) | case_match].

Ltac act_step := apply safe_act; [exact I|]; intros ?; simpl.

Section specs.
Context (c : AttachmentConfig) (k : call) (j : nat).

Lemma finalize_inert r d e : inert c k (finalize c j r d e).
Proof. unfold finalize, tool_result. inert_tac. Qed.

Lemma refuse_inert r e : inert c k (refuse c j r e).
Proof. apply finalize_inert. Qed.

Lemma deliver_inert r d : inert c k (gateway_deliver c j r d).
Proof. apply inert_catch; [apply finalize_inert|apply refuse_inert]. Qed.

#[local] Opaque finalize refuse gateway_deliver.

(** The thread's claim and its authority, its hold on the barrier and its
    settlement are unchanged. *)
Record kept (s s' : monitor) : Prop := Kept {
  kept_depth : m_depth s' = m_depth s;
  kept_claim : m_claim s' = m_claim s;
  kept_auth : m_auth s' = m_auth s;
  kept_began : m_began s' = m_began s;
  kept_drained : m_drained s' = m_drained s
}.

Lemma kept_refl s : kept s s.
Proof. done. Qed.

Lemma kept_trans s s' s'' : kept s s' → kept s' s'' → kept s s''.
Proof. intros [] []. constructor; congruence. Qed.

Lemma open_fence_true f : negb (cf_open f) = false → cf_aborted f = false → open_fence f = true.
Proof. unfold open_fence. by destruct (cf_open f), (cf_aborted f). Qed.

Lemma postcheck_safe r g write s (Q : call_outcome (option ToolError) → monitor → Prop) :
  (∀ o s', kept s s' → (o = Value None → m_depth s ≠ 0%nat → m_fenced s' = true) → Q o s') →
  safe c k (postcheck c r g write) s Q.
Proof.
  intros HQ. unfold postcheck. apply safe_with_barrier. unfold call_admitted, target_current, clock, consult, call_out. simpl. repeat first
  [ progress simpl
  | apply safe_act; [done|intros ?]
  | apply HQ; [done|first [done|intros _ ?; simpl; rewrite open_fence_true by done; by destruct (m_depth s)]]
  | case_match ].
Qed.

#[local] Opaque postcheck.

(** The thread holds an authorised claim on this request. *)
Definition serving (r : ToolRequest) (s : monitor) : Prop :=
  m_claim s = Some (j, r) ∧ ∃ a, m_auth s = Some a ∧ authorised c r a.

Lemma serving_kept r s s' : kept s s' → serving r s → serving r s'.
Proof. intros [_ Hc Ha _ _]. unfold serving. by rewrite Hc, Ha. Qed.

Lemma serving_allowed r s o : serving r s → op_of r o → match o with OpCommit _ => m_fenced s = true | _ => True end →
  allowed c k s (Adapter j o).
Proof. intros [Hc (a & Ha & Hau)] Ho Hm. destruct Ho; simpl; split; try done; exists r, a; split_and!; try done; by econstructor. Qed.

Lemma discard_safe r path content sw s (Q : call_outcome bool → monitor → Prop) :
  serving r s → params r = WriteParams path content → (∀ o, Q o s) → safe c k (discard_stage j sw) s Q.
Proof.
  intros Hs Hp HQ. apply safe_act; [by apply (serving_allowed r); [done|by econstructor|]|]. intros x. simpl.
  case_match; simpl; try act_step; apply HQ.
Qed.

Lemma commit_section_safe r g sw path content s (Q : call_outcome (ToolResult + string) → monitor → Prop) :
  serving r s → params r = WriteParams path content → sw_call_id sw = call_id r → sw_path sw = path →
  (∀ o s', kept s s' → Q o s') → safe c k (commit_section c j r g sw) s Q.
Proof.
  intros Hs Hp Hid Hpath HQ. apply safe_with_barrier.
  set (Q' := λ o s', Q o (upd_ans s' Release tt)).
  assert (∀ o s', kept (upd_ans s Acquire tt) s' → Q' o s') as Hend.
  { intros o s' [Hd Hc Ha Hb Hr]. apply HQ. simpl in *. constructor; simpl; try done. by rewrite Hd. }
  apply safe_and_then, postcheck_safe. intros [error|x] s' Hk Hf; [|by apply Hend].
  pose proof (serving_kept r _ _ Hk Hs) as Hs'.
  assert (∀ e, safe c k (res ← refuse c j r e; mret (inl res)) s' Q') as Hrefuse.
  { intros e. apply inert_and_then; [apply refuse_inert|intros; apply inert_ret|]. intros o. by apply Hend. }
  assert (∀ e : bool → ToolError, safe c k (ok ← discard_stage j sw; res ← refuse c j r (e ok); mret (inl res)) s' Q') as Hdiscard.
  { intros e. apply safe_and_then, (discard_safe r path content); [done..|]. intros [ok|?]; [apply Hrefuse|by apply Hend]. }
  destruct error as [e|]; [apply Hdiscard|].
  apply safe_act; [apply (serving_allowed r); [done|by econstructor|by apply Hf]|]. intros [d| | |]; simpl.
  - act_step. case_bool_decide; [by apply Hend|apply Hrefuse].
  - act_step. apply Hrefuse.
  - apply (Hdiscard (λ _, provider_error)).
  - by apply Hend.
Qed.

Lemma execute_write_safe r g path content s (Q : call_outcome ToolResult → monitor → Prop) :
  serving r s → params r = WriteParams path content → (∀ o s', kept s s' → Q o s') → safe c k (execute_write c j r g path content) s Q.
Proof.
  intros Hs Hp HQ. apply safe_act; [by apply (serving_allowed r); [|econstructor|]|].
  assert (∀ e s', kept s s' → safe c k (refuse c j r e) s' Q) as Hrefuse by (intros; apply refuse_inert; auto).
  intros [sw| | |]; simpl; [|by apply Hrefuse|by apply Hrefuse|by apply HQ].
  act_step. destruct (String.eqb_spec (sw_call_id sw) (call_id r)) as [Hid|_]; simpl; last first.
  { apply safe_and_then, (discard_safe r path content); [done..|]. intros [ok|?]; [by apply Hrefuse|by apply HQ]. }
  destruct (String.eqb_spec (sw_path sw) path) as [Hpath|_]; simpl; last first.
  { apply safe_and_then, (discard_safe r path content); [done..|]. intros [ok|?]; [by apply Hrefuse|by apply HQ]. }
  apply safe_and_then, (commit_section_safe r g sw path content); [done..|].
  intros [[res|digest]|?] s' Hk; [by apply HQ| |by apply HQ]. apply deliver_inert. intros o. by apply HQ.
Qed.

Lemma perform_tool_safe r s (Q : call_outcome (dict string Data) → monitor → Prop) :
  serving r s → (∀ path content, params r ≠ WriteParams path content) → (∀ o, Q o s) → safe c k (perform_tool j r) s Q.
Proof.
  intros Hs Hw HQ. unfold perform_tool, adapter, call_out, type_error. destruct (params r) eqn:Hp; try (by destruct (Hw path content));
    (apply safe_act; [by apply (serving_allowed r); [|econstructor|]|]); intros [x| | |]; simpl; repeat case_match; apply HQ.
Qed.

(** The parameters of a request are those of its method. *)
Definition wf_request (r : ToolRequest) : Prop := params_method (params r) = method r.

Lemma execute_safe r g s (Q : call_outcome ToolResult → monitor → Prop) :
  wf_request r → serving r s → (∀ o s', kept s s' → Q o s') → safe c k (hands_execute c j r g) s Q.
Proof.
  intros Hw Hs HQ. unfold hands_execute. act_step. unfold wf_request in Hw.
  assert (method r ≠ WORKSPACE_WRITE → safe c k (
    data ← catch (d ← perform_tool j r; mret (Some d)) (mret None);
    match data with
    | None => refuse c j r provider_error
    | Some d => error ← postcheck c r g false; match error with Some e => refuse c j r e | None => gateway_deliver c j r d end
    end) s Q) as Hread.
  { intros Hm. apply safe_and_then, safe_bind, safe_and_then, (perform_tool_safe r); [done| |].
    { intros path content Hp. rewrite Hp in Hw. done. }
    assert (safe c k (refuse c j r provider_error) s Q) as Hrefuse by (apply refuse_inert; intros o; by apply HQ).
    intros [d|[e|]]; simpl; [|exact Hrefuse|by apply HQ].
    apply safe_ret, safe_ret. simpl. apply safe_and_then, postcheck_safe. intros [[e|]|] s' Hk _; [|  |by apply HQ].
    - apply refuse_inert. intros o. by apply HQ.
    - apply deliver_inert. intros o. by apply HQ. }
  destruct (method r) eqn:Hm; try by apply Hread.
  destruct (params r) eqn:Hp; try done. by apply execute_write_safe.
Qed.

(** ** The checks before a call *)

(** What the thread has seen lets the request through. *)
Definition checked (r : ToolRequest) (s : monitor) : Prop :=
  ∃ f g now, m_fence s = Some f ∧ m_current s = Some g ∧ m_now s = Some now ∧ ∀ g', authorised c r (MkAuth f g now (grant_epoch r) g').

Lemma precheck_safe r s (Q : call_outcome (option ToolError) → monitor → Prop) :
  (∀ o s', kept s s' → (o = Value None → checked r s') → Q o s') → safe c k (precheck c r) s Q.
Proof.
  intros HQ. unfold precheck.
  destruct (String.eqb_spec (episode_id r) (c_episode_id c)); simpl; [|by apply HQ].
  destruct (String.eqb_spec (attachment_id r) (c_attachment_id c)); simpl; [|by apply HQ].
  destruct (Z.eqb_spec (attachment_epoch r) (c_epoch c)); simpl; [|by apply HQ].
  act_step. case_match; [|by apply HQ..]. case_match eqn:Ho; [by apply HQ|]. case_match eqn:Ha; [by apply HQ|].
  simpl. act_step. case_match; [|by apply HQ]. case_match eqn:He; [by apply HQ|]. act_step. unfold call_out. case_match; [|by apply HQ..].
  simpl. destruct (Z.ltb_spec (Z.min (cf_deadline a) (g_deadline c0)) a0); [by apply HQ|].
  apply HQ; [done|]. intros [= Hp]. exists a, c0, a0. split_and!; try done. intros g'. split_and!; simpl; try done; try lia.
  - by apply open_fence_true.
Qed.

#[local] Opaque precheck.

Lemma submit_claimed_safe r s (Q : call_outcome ToolResult → monitor → Prop) :
  wf_request r → submits k j r → m_claim s = None → m_auth s = None →
  (∀ o s', m_depth s' = m_depth s → m_began s' = m_began s → m_drained s' = m_drained s →
     (m_claim s' = None ∧ (∀ x, o = Raises x → m_refused s' = true) ∨ m_claim s' = Some (j, r) ∧ ∃ x, o = Raises x) → Q o s') →
  safe c k (submit_claimed c j r) s Q.
Proof.
  intros Hw Hk Hc Ha HQ. apply safe_act; [done|]. intros claimed. simpl.
  destruct claimed as [|res|x]; simpl; [|apply HQ; auto; left; by split..].
  set (s1 := claiming (Some (j, r)) s).
  assert (∀ s' e, kept s1 s' → safe c k (terminal c j r e) s' Q) as Hterm.
  { intros s' e [Hd Hc' _ Hb Hr]. apply safe_and_then, refuse_inert. intros [res|x]; [|apply HQ; eauto 6].
    apply safe_act; [done|]. intros []. simpl. apply HQ; auto. left. by split. }
  apply safe_and_then, precheck_safe. intros [[e|]|x] s2 Hk2 Hch; [by apply Hterm| |destruct Hk2; apply HQ; eauto 6].
  destruct (Hch eq_refl) as (f & g & now & Hf & Hg & Hn & Hau). destruct Hk2 as [Hd Hc2 Ha2 Hb Hr].
  apply safe_act; [simpl; rewrite Ha2; split; [done|]; exists f; split; [done|]; apply (Hau g)|].
  intros [g'| |]; simpl; rewrite ?Hf, ?Hg, ?Hn; [|apply Hterm; by constructor..].
  apply safe_and_then, execute_safe; [done| |].
  { split; [exact Hc2|]. eexists. split; [done|]. apply Hau. }
  intros [res|x] s3 [Hd3 Hc3 Ha3 Hb3 Hr3]; simpl in *.
  - apply safe_act; [simpl; congruence|]. intros []. simpl. apply HQ; simpl; auto; [congruence..|]. left. by split.
  - apply HQ; try congruence. right. split; [congruence|eauto].
Qed.
End specs.

(** ** Parsed requests *)

Lemma bind_Parsed {A B} (p : parsed A) (f : A → parsed B) b : p ≫= f = Parsed b → ∃ a, p = Parsed a ∧ f a = Parsed b.
Proof. destruct p; [eauto|done]. Qed.

Ltac inv_parsed := repeat match goal with
  | H : _ ≫= _ = Parsed _ |- _ => apply bind_Parsed in H as (? & ? & H)
  | H : Parsed _ = Parsed _ |- _ => injection H as H
  | H : Rejected _ = Parsed _ |- _ => discriminate H
  end.

Lemma parse_params_method m d ps : parse_params m d = Parsed ps → params_method ps = m.
Proof.
  destruct m; simpl; unfold parse_read, parse_search, parse_shell, parse_write; intros H; try case_match; inv_parsed; by subst.
Qed.

Lemma parsed_request data r : parse_tool_request data = Parsed r → wf_request r ∧ text_ok (call_id r) = true.
Proof.
  unfold parse_tool_request. intros H. inv_parsed. subst. simpl. split.
  - unfold wf_request. simpl. by eapply parse_params_method.
  - match goal with H : tool_identity _ "call_id" = _ |- _ => unfold tool_identity in H; repeat case_match; by simplify_eq end.
Qed.

(** ** Every operation is safe *)

Section programs.
Context (sha256_hex : string → string) (c : AttachmentConfig) (k : call).
#[local] Opaque finalize submit_claimed cleanup_stages.

Lemma submit_safe j data s : k = Submit j data → m_claim s = None → m_auth s = None →
  safe c k (gateway_submit c j data) s (λ _ s, m_claim s = None).
Proof.
  intros Hk Hc Ha. unfold gateway_submit. act_step. destruct (parse_tool_request data) as [r|e] eqn:Hp.
  - apply safe_bind, submit_claimed_safe; [by eapply parsed_request|by exists data|done..|].
    intros [res|?] s' _ _ _ [[Hn Hr]|[Hs [y Hy]]]; [exact Hn|done|..]; (apply safe_act; [simpl; eauto|done]).
  - unfold reject_unparsed. destruct (salvaged_identity data). act_step. unfold tool_result. by case_match.
Qed.

(** The settlement a thread is in, and the gateways it drained. *)
Definition draining (n : nat) (P : nat → Prop) (s : monitor) : Prop :=
  m_began s = Some n ∧ m_claim s = None ∧ ∀ j, P j → j ∈ m_drained s.

Lemma drain_all_safe n m s (Q : call_outcome unit → monitor → Prop) : draining n (λ _, False) s →
  (∀ o s', draining n (λ _, False) s' → (o = Value tt → draining n (λ j, (j < m)%nat) s') → Q o s') → safe c k (drain_all m) s Q.
Proof.
  revert Q. induction m as [|m IH]; intros Q Hs HQ; simpl.
  - apply HQ; [done|]. intros _. destruct Hs as (? & ? & _). split_and!; try done. lia.
  - apply safe_and_then, IH; [done|]. intros [[]|?] s1 H1 H2; [|by apply HQ]. specialize (H2 eq_refl).
    destruct H2 as (Hb & Hc & Hd). apply safe_act; [simpl; by rewrite Hb|]. intros [b| | |]; simpl; [|by apply HQ..].
    destruct b; simpl; [|by apply HQ]. apply HQ; [by split_and!|]. intros _. split_and!; [done..|]. intros j' Hj. simpl.
    rewrite elem_of_cons. destruct (decide (j' = m)) as [->|]; [by left|]. right. apply Hd. lia.
Qed.

Lemma cleanup_stages_safe j s (Q : call_outcome Z → monitor → Prop) : is_Some (m_began s) → (∀ o, Q o s) → safe c k (cleanup_stages j) s Q.
Proof.
  intros Hb HQ. apply safe_act; [done|]. intros [z| | |]; simpl; try apply HQ. case_match; [apply HQ|]. act_step. apply HQ.
Qed.

Lemma cleanup_all_safe m s (Q : call_outcome Z → monitor → Prop) : is_Some (m_began s) → (∀ o, Q o s) → safe c k (cleanup_all m) s Q.
Proof.
  intros Hb HQ. revert Q HQ. induction m as [|m IH]; intros Q HQ; simpl; [apply HQ|]. apply safe_and_then, IH.
  intros [z|?]; [|apply HQ]. apply safe_and_then, cleanup_stages_safe; [done|]. intros [y|?]; apply HQ.
Qed.

Lemma export_archive_inert : inert c k export_archive.
Proof. unfold export_archive, call_out, type_error. inert_tac. Qed.

Lemma binding_settlement_inert : inert c k binding_settlement.
Proof. unfold binding_settlement. inert_tac. Qed.

#[local] Opaque drain_all cleanup_all export_archive binding_settlement.

Lemma settle_safe s : m_claim s = None → m_began s = None → safe c k (settle sha256_hex c) s (λ _ s, m_claim s = None).
Proof.
  intros Hs Hb0. apply safe_act; [done|]. intros [n|e]; simpl; [|done].
  set (s1 := beginning (Ok n) s). assert (draining n (λ _, False) s1) as H1 by (by split_and!).
  apply safe_finally. set (Q := λ (_ : call_outcome AttachmentSettlement) (s : monitor), allowed c k s SettlingOver ∧ ∀ x, m_claim (upd_ans s SettlingOver x) = None).
  assert (∀ o s' P, draining n P s' → Q o s') as HQ by (intros o s' P (? & ? & ?); split; [exact I|done]).
  apply safe_and_then, (drain_all_safe n); [done|]. intros [[]|?] s2 H2 H3; [|by eapply HQ]. specialize (H3 eq_refl).
  assert (is_Some (m_began s2)) as Hb by (destruct H2 as [-> _]; done).
  apply safe_and_then, cleanup_all_safe; [done|]. intros [stages|?]; [|by eapply HQ].
  apply safe_and_then, export_archive_inert. intros [archive|?]; [|by eapply HQ].
  apply safe_and_then, binding_settlement_inert. intros [[bs|]|?]; [| |by eapply HQ].
  all: apply safe_act; [exists n; destruct H3 as (? & ? & ?); done|]; intros []; eapply (HQ (Raises ABaseException) (unfenced s2)); exact H3.
Qed.

Lemma retry_safe s : m_claim s = None → safe c k (retry_settlement sha256_hex c) s (λ _ s, m_claim s = None).
Proof.
  intros Hs. unfold retry_settlement. act_step. destruct x as [prior|e]; simpl; [|done]. apply safe_finally, safe_and_then, binding_settlement_inert.
  intros [[bs|]|?]; [apply safe_act; [done|intros []]..|]; (split; [exact I|done]).
Qed.

Lemma release_safe s : m_claim s = None → m_began s = None → safe c k (release sha256_hex c) s (λ _ s, m_claim s = None).
Proof.
  intros Hs Hb0. apply safe_act; [done|]. intros [n|e]; simpl; [|done].
  set (s1 := beginning (Ok n) s). assert (draining n (λ _, False) s1) as H1 by (by split_and!).
  apply safe_finally, safe_bind. set (Q := λ (o : call_outcome AttachmentRelease) (s : monitor), _).
  assert (∀ o s' P, draining n P s' → Q o s') as HQ.
  { intros o s' P (? & ? & ?). unfold Q. destruct o as [a|[e|]]; simpl; [|act_step|]; by split. }
  act_step. destruct x as [[]| | |]; [|by eapply HQ..]. apply safe_and_then, safe_ret. simpl. apply safe_and_then, safe_ret.
  apply safe_and_then, (drain_all_safe n); [done|]. intros [[]|?] s2 H2 H3; [|by eapply HQ]. specialize (H3 eq_refl).
  assert (is_Some (m_began s2)) as Hb by (destruct H2 as [-> _]; done).
  apply safe_and_then, cleanup_all_safe; [done|]. intros [stages|?]; [|by eapply HQ].
  apply safe_and_then, export_archive_inert. intros [archive|?]; [|by eapply HQ]. act_step.
  destruct x as [territory| | |]; [|by eapply HQ..]. apply safe_and_then, safe_ret. case_bool_decide; [|by eapply HQ].
  apply safe_act; [exists n; destruct H3 as (? & ? & ?); done|]. intros []. eapply (HQ _ (unfenced s2)). exact H3.
Qed.

Lemma cancel_safe reason s : m_claim s = None → safe c k (cancel reason) s (λ _ s, m_claim s = None).
Proof.
  intros Hs. apply safe_with_barrier. act_step. destruct x as [[]|e]; simpl; [|done..]. act_step. destruct x; simpl; try done; by act_step.
Qed.

Lemma vmap_safe {A} (f : A → Val) (p : M A) s : safe c k p s (λ _ s, m_claim s = None) → safe c k (vmap f p) s (λ _ s, m_claim s = None).
Proof. intros H. apply safe_and_then. eapply safe_mono; [|exact H]. by intros [a|?] s'. Qed.

End programs.

Lemma program_safe sha256_hex c k : safe c k (program sha256_hex c k) m0 (λ _ s, m_claim s = None).
Proof.
  destruct k as [j data|t| |n|reason| | | |e a]; simpl.
  - by apply vmap_safe, submit_safe.
  - act_step. by destruct x.
  - by act_step.
  - act_step. by destruct x.
  - by apply vmap_safe, cancel_safe.
  - by apply vmap_safe, settle_safe.
  - by apply vmap_safe, retry_safe.
  - by apply vmap_safe, release_safe.
  - act_step. by destruct x.
Qed.
