(* ===== verification/HandsTheorems.v ===== *)
(** * What Hands and an Episode Attachment guarantee

    In every interleaving of tool calls, grant issue, cancellation and
    settlement: what the adapter is asked to do is authorised, a grant is spent
    at most as often as it allows, a write is committed only inside the fence,
    and after settlement nothing reaches the adapter. *)

From stdpp Require Import base gmap sets list strings.
From Stdlib Require Import Ascii ZArith Lia.
From S2P Require Import Prelude PyData Schema AgentText Programs Hands HandsGateway EpisodeAttachment HandsSafety.
Open Scope string_scope.
Open Scope list_scope.
Open Scope Z_scope.

(** ** What an event shows *)

Definition obs_fence (ev : event) : option CallFence :=
  match ev with Ev e x =>
    match e return ans e → option CallFence with Fence => λ x, match x with Gave f => Some f | _ => None end | _ => λ _, None end x
  end.

Definition obs_clock (ev : event) : option Z :=
  match ev with Ev e x =>
    match e return ans e → option Z with Clock => λ x, match x with Gave z => Some z | _ => None end | _ => λ _, None end x
  end.

Definition obs_current (ev : event) : option CapabilityGrant :=
  match ev with Ev e x =>
    match e return ans e → option CapabilityGrant with LCurrent => λ x, x | _ => λ _, None end x
  end.

(** A spent grant, and the epoch it was asked for under. *)
Definition obs_consumed (ev : event) : option (Z * CapabilityGrant) :=
  match ev with Ev e x =>
    match e return ans e → option (Z * CapabilityGrant) with
    | LConsume epoch => λ x, match x with Spent g => Some (epoch, g) | _ => None end
    | _ => λ _, None
    end x
  end.

Definition obs_spent (ev : event) : option CapabilityGrant := snd <$> obs_consumed ev.

Definition obs_opened (ev : event) : option CapabilityGrant :=
  match ev with Ev e x =>
    match e return ans e → option CapabilityGrant with
    | LOpen _ => λ x, match x with Ok g => Some g | Err _ => None end
    | _ => λ _, None
    end x
  end.

(** A call of a tool's operation on the adapter. *)
Definition obs_tool (ev : event) : option (nat * adapter_op) :=
  match ev_eff ev with
  | Adapter _ OpDiscardAll => None
  | Adapter j o => Some (j, o)
  | _ => None
  end.

(** Evaluate what a monitor makes of an event. *)
Ltac cases_on H := unfold upd, upd_ans, beginning, unfenced, claiming, refused, retrying, straying in H; simpl in H;
  repeat case_match; simpl in *; simplify_eq.

(** What a monitor remembers, the thread was answered. *)
Record seen (log : list event) : Prop := Seen {
  seen_fence f : m_fence (watch log) = Some f → f ∈ omap obs_fence log;
  seen_current g : m_current (watch log) = Some g → g ∈ omap obs_current log;
  seen_now z : m_now (watch log) = Some z → z ∈ omap obs_clock log;
  seen_auth a : m_auth (watch log) = Some a →
    au_fence a ∈ omap obs_fence log ∧ au_current a ∈ omap obs_current log ∧ au_now a ∈ omap obs_clock log ∧
    (au_epoch a, au_spent a) ∈ omap obs_consumed log
}.

Lemma watch_seen log : seen log.
Proof.
  induction log as [|[e x] log IH] using rev_ind; [by split|]. destruct IH as [Hf Hc Hn Ha].
  assert (∀ A (f : event → option A) y, y ∈ omap f log → y ∈ omap f (log ++ [Ev e x])) as Hl.
  { intros A f y Hy. rewrite omap_app. apply elem_of_app. by left. }
  assert (∀ A (f : event → option A) y, f (Ev e x) = Some y → y ∈ omap f (log ++ [Ev e x])) as Hr.
  { intros A f y Hy. rewrite omap_app. apply elem_of_app. right. simpl. rewrite Hy. by left. }
  split; rewrite watch_snoc; intros y Hy.
  1-3: by destruct e; cases_on Hy; auto.
  destruct e; cases_on Hy; try (by destruct (Ha _ Hy) as (? & ? & ? & ?); split_and!; auto); simpl; split_and!; auto.
Qed.

(** ** Steps *)

#[export] Instance CapabilityGrant_eq_dec : EqDecision CapabilityGrant.
Proof. solve_decision. Defined.

Lemma on_gateway_Some {A} j (f : Gateway → option (A * Gateway)) w x w1 : on_gateway j f w = Some (x, w1) →
  ∃ g g', w_gateways w !! j = Some g ∧ f g = Some (x, g') ∧ w1 = set_gateways (<[j := g']> (w_gateways w)) w.
Proof.
  unfold on_gateway. intros (g & Hg & H)%bind_Some. apply bind_Some in H as ([y g'] & Hf & H). simplify_eq. eauto.
Qed.

Lemma under_Some {A} t w (y : A * World) z : under t w y = Some z → may_enter t w = true ∧ z = y.
Proof. unfold under. by destruct (may_enter t w); intros; simplify_eq. Qed.

(** Run one action by evaluation. *)
Ltac inv_perform H := unfold perform, gateway_guarded in H; simpl in H; repeat match goal with
  | H : on_gateway _ _ _ = Some (_, _) |- _ => apply on_gateway_Some in H as (? & ? & ? & ? & ->)
  | H : under _ _ _ = Some _ |- _ => apply under_Some in H as (? & H)
  | H : Some _ = Some _ |- _ => injection H as H
  | H : (_, _) = (_, _) |- _ => injection H as H
  | H : (_ ≫= _) = Some _ |- _ => apply bind_Some in H as (? & ? & H)
  | H : None = Some _ |- _ => discriminate H
  | _ => progress simplify_eq
  | H : match ?d with _ => _ end = Some _ |- _ => destruct d eqn:?
  end.

Section worlds.
Context (sha256_hex : string → string) (c : AttachmentConfig).

Definition mon (th : EpisodeThread) : monitor := watch (th_log th).

(** Actions that change the attachment. *)
Definition touches (e : eff) : bool :=
  match e with
  | CancelBegin | CancelEnd | SettleBegin | SettleEnd _ _ | SettlingOver | RetryBegin | RetryEnd _ _ | ReleaseBegin | ReleaseEnd _
  | ReleaseFail => true
  | _ => false
  end.

Lemma perform_threads t e r w x w1 : perform c t e r w = Some (x, w1) → w_threads w1 = w_threads w.
Proof. intros H. destruct e; inv_perform H; try done; by repeat case_match. Qed.

Lemma perform_touches t e r w x w1 : perform c t e r w = Some (x, w1) →
  if touches e then may_enter t w = true else w_att w1 = w_att w.
Proof. intros H. destruct e; inv_perform H; try done; by repeat case_match. Qed.

Definition spawned (k : call) (w : World) : World :=
  set_threads (w_threads w ++ [MkThread k [] (program sha256_hex c k)]) w.

(** The world after a thread took an action with an answer. *)
Definition after_call (t : nat) (th : EpisodeThread) (e : eff) (x : ans e) (f : ans e → M Val) (w1 : World) : World :=
  set_threads (<[t := MkThread (th_call th) (th_log th ++ [Ev e x]) (f x)]> (w_threads w1)) w1.

(** One action of one thread. *)
Inductive acts (w : World) : World → Prop :=
| acts_intro t th e f r x w1 :
    w_threads w !! t = Some th → th_prog th = Act e f → perform c t e r w = Some (x, w1) → acts w (after_call t th e x f w1).

Lemma step_cases m w w' : episode_step sha256_hex c m w = Some w' → (∃ k, w' = spawned k w) ∨ acts w w'.
Proof.
  destruct m as [k|t r]; simpl; intros H; [left; exists k; by simplify_eq|right].
  apply bind_Some in H as (th & Ht & H). destruct (th_prog th) as [o|e f] eqn:Hp; [done|].
  apply bind_Some in H as ([x w1] & Hx & H). injection H as <-. by econstructor.
Qed.

Lemma runs_inv (P : World → Prop) : (∀ w, world_new c = Ok w → P w) → (∀ k w, P w → P (spawned k w)) →
  (∀ w w', P w → acts w w' → P w') → ∀ w, runs_to sha256_hex c w → P w.
Proof.
  intros H0 Hs Ha w (w0 & ms & Hn & Hr). assert (P w0) as Hw by auto. clear Hn. revert w0 Hw Hr.
  induction ms as [|m ms IH]; simpl; intros w0 Hw Hr; [by simplify_eq|].
  apply bind_Some in Hr as (w1 & H1 & Hr). apply (IH w1); [|done]. apply step_cases in H1 as [[k ->]|?]; eauto.
Qed.

Lemma world_new_Ok w : world_new c = Ok w →
  w = MkWorld attachment_new (MkGrantLedger (c_attachment_id c) (c_epoch c) 0 None 0) [] None [] ∧ text_ok (c_attachment_id c) = true.
Proof.
  unfold world_new, GrantLedger_new. intros H. inv_ok.
  repeat match goal with H : text _ = Ok _ |- _ => apply text_Ok in H as [-> ?] | H : positive_integer _ = Ok _ |- _ => apply positive_Ok in H as [-> ?] end.
  done.
Qed.

(** The thread that acted, and the others. *)
Lemma after_lookup w t th e r x f w1 u th' : w_threads w !! t = Some th → perform c t e r w = Some (x, w1) →
  w_threads (after_call t th e x f w1) !! u = Some th' →
  u = t ∧ th' = MkThread (th_call th) (th_log th ++ [Ev e x]) (f x) ∧ mon th' = upd_ans (mon th) e x ∨
  u ≠ t ∧ w_threads w !! u = Some th'.
Proof.
  intros Ht Hx. simpl. rewrite (perform_threads _ _ _ _ _ _ Hx). destruct (decide (u = t)) as [->|Hne].
  - rewrite list_lookup_insert_eq by (apply lookup_lt_is_Some; eauto). intros [= <-]. left. split_and!; [done..|]. apply watch_snoc.
  - rewrite list_lookup_insert_ne by done. by right.
Qed.

Lemma spawned_lookup k w u th : w_threads (spawned k w) !! u = Some th →
  w_threads w !! u = Some th ∨ (length (w_threads w) ≤ u)%nat ∧ th = MkThread k [] (program sha256_hex c k).
Proof.
  simpl. rewrite lookup_app. destruct (w_threads w !! u) eqn:Hu; [by left|]. apply lookup_ge_None in Hu. intros H. right.
  split; [done|]. apply list_elem_of_lookup_2 in H. by apply list_elem_of_singleton in H.
Qed.

(** ** Threads stay safe, the barrier is theirs *)

Definition holds (b : option (nat * nat)) (t : nat) : nat := match b with Some (o, d) => if decide (o = t) then d else 0%nat | None => 0%nat end.

Record basic (w : World) : Prop := Basic {
  b_safe t th : w_threads w !! t = Some th → safe c (th_call th) (th_prog th) (mon th) (λ _ s, m_claim s = None);
  b_depth t th : w_threads w !! t = Some th → m_depth (mon th) = holds (w_barrier w) t;
  b_owner o d : w_barrier w = Some (o, d) → d ≠ 0%nat ∧ (o < length (w_threads w))%nat;
  b_fence t th : w_threads w !! t = Some th → m_fenced (mon th) = true →
    m_depth (mon th) ≠ 0%nat ∧ open_fence (fence_snapshot c (w_att w)) = true
}.

Lemma perform_barrier t e r w x w1 : perform c t e r w = Some (x, w1) → (∀ o d, w_barrier w = Some (o, d) → d ≠ 0%nat) →
  (∀ u, u ≠ t → holds (w_barrier w1) u = holds (w_barrier w) u) ∧
  (∀ s, m_depth s = holds (w_barrier w) t → m_depth (upd_ans s e x) = holds (w_barrier w1) t) ∧
  (∀ o d, w_barrier w1 = Some (o, d) → d ≠ 0%nat ∧ (o = t ∨ ∃ d', w_barrier w = Some (o, d'))).
Proof.
  intros H Hd.
  assert ((w_barrier w1 = w_barrier w ∧ ∀ s, m_depth (upd_ans s e x) = m_depth s) ∨ e = Acquire ∨ e = Release) as [[Hb Hm]|[->| ->]].
  { destruct e; try (by right; left); try (by right; right); left; inv_perform H;
      (split; [try done; by repeat case_match|intros ?; simpl; unfold beginning; try done; by repeat case_match]). }
  - rewrite Hb. split_and!; [done|intros s; by rewrite Hm|]. intros o d Ho. split; [by eapply Hd|]. eauto.
  - inv_perform H; simpl.
    + apply Nat.eqb_eq in Heqb as ->. unfold holds. rewrite !decide_True by done. split_and!; [|intros s ->; done|].
      * intros u Hu. by rewrite !decide_False by congruence.
      * intros o d [= <- <-]. eauto.
    + unfold holds. rewrite decide_True by done. split_and!; [|intros s ->; done|].
      * intros u Hu. by rewrite decide_False by congruence.
      * intros o d [= <- <-]. eauto.
  - inv_perform H; simpl. apply Nat.eqb_eq in Heqb as ->. unfold holds. split_and!.
    + intros u Hu. destruct (n1 =? 0)%nat; simpl; by rewrite ?decide_False by congruence.
    + intros s ->. rewrite decide_True by done. simpl. destruct (Nat.eqb_spec n1 0) as [->|]; [done|]. by rewrite decide_True by done.
    + intros o d Ho. destruct (Nat.eqb_spec n1 0) as [->|]; [done|]. injection Ho as <- <-. eauto.
Qed.

(** A thread that may enter the barrier excludes every other thread inside. *)
Lemma enter_excludes t u w : may_enter t w = true → holds (w_barrier w) u ≠ 0%nat → u = t.
Proof.
  unfold may_enter, holds. destruct (w_barrier w) as [[o d]|]; [|done]. intros ->%Nat.eqb_eq. by case_decide.
Qed.

Lemma touches_unfences s e x : touches e = true → m_fenced (upd_ans s e x) = false.
Proof. destruct e; try done; intros _; simpl; unfold beginning; by repeat case_match. Qed.

(** What an action that leaves the attachment alone does to the fence the
    thread saw under the barrier. *)
Lemma fenced_stays t e r w x w1 s : perform c t e r w = Some (x, w1) → touches e = false → m_fenced (upd_ans s e x) = true →
  m_depth (upd_ans s e x) ≠ 0%nat ∧ (m_fenced s = true ∨ open_fence (fence_snapshot c (w_att w)) = true) ∨ m_fenced s = true ∧ m_depth (upd_ans s e x) = m_depth s.
Proof.
  intros H Ht. destruct e; try done; inv_perform H; simpl; unfold beginning; repeat case_match; simpl; try (by intros ?; right; split);
    try (by intros ?; left; split; [|left]).
  - intros [Hf Hn]%andb_true_iff. left. split; [|by left]. apply negb_true_iff, Nat.eqb_neq in Hn. done.
  - intros [Hn Hf]%andb_true_iff. left. apply negb_true_iff, Nat.eqb_neq in Hn. auto.
Qed.

Lemma basic_acts w w' : basic w → acts w w' → basic w'.
Proof.
  intros [Hs Hd Ho Hf] [t th e f r x w1 Ht Hp Hx].
  pose proof (perform_threads _ _ _ _ _ _ Hx) as Hth. pose proof (perform_touches _ _ _ _ _ _ Hx) as Htouch.
  destruct (perform_barrier _ _ _ _ _ _ Hx (λ o d H, proj1 (Ho o d H))) as (Hb1 & Hb2 & Hb3).
  assert (t < length (w_threads w))%nat as Hlt by (apply lookup_lt_is_Some; eauto).
  split.
  - intros u th' [(-> & -> & Hm)|[_ Hu]]%(after_lookup w t th e r x f w1); [|by eapply Hs|done..]. pose proof (Hs t th Ht) as Hsafe.
    rewrite Hp in Hsafe. destruct Hsafe as [_ Hsafe]. rewrite Hm. by apply Hsafe.
  - intros u th' [(-> & -> & Hm)|[Hne Hu]]%(after_lookup w t th e r x f w1); [| |done..]; simpl.
    + rewrite Hm. by apply Hb2, Hd.
    + rewrite Hb1 by done. by apply Hd.
  - simpl. intros o d Hod. destruct (Hb3 o d Hod) as [Hne Howner]. split; [done|]. rewrite Hth, length_insert.
    destruct Howner as [->|[d' Hw]]; [done|by eapply Ho].
  - intros u th' [(-> & -> & Hm)|[Hne Hu]]%(after_lookup w t th e r x f w1); [| |done..]; intros Hfen.
    + rewrite Hm in *. destruct (touches e) eqn:He; [by rewrite touches_unfences in Hfen|]. simpl. rewrite Htouch.
      destruct (fenced_stays _ _ _ _ _ _ _ Hx He Hfen) as [[? [Hm'|?]]|[Hm' Hmd]]; [|done|];
        destruct (Hf t th Ht Hm'); [done|]. rewrite Hmd. done.
    + destruct (Hf u th' Hu Hfen) as [Hdep Hop]. split; [done|]. simpl. destruct (touches e) eqn:He; [|by rewrite Htouch].
      destruct Hne. eapply enter_excludes; [done|]. by rewrite <-(Hd u th' Hu).
Qed.

Lemma basic_spawned k w : basic w → basic (spawned k w).
Proof.
  intros [Hs Hd Ho Hf].
  split.
  - intros u th [Hu|[_ ->]]%spawned_lookup; [by eapply Hs|]. apply program_safe.
  - intros u th [Hu|[Hle ->]]%spawned_lookup; [by eapply Hd|]. simpl. unfold holds. destruct (w_barrier w) as [[o d]|] eqn:Hb; [|done].
    destruct (Ho o d eq_refl). by rewrite decide_False by lia.
  - simpl. intros o d Hod. destruct (Ho o d Hod). rewrite length_app. split; [done|]. lia.
  - intros u th [Hu|[_ ->]]%spawned_lookup; [by eapply Hf|]. done.
Qed.

Lemma runs_basic w : runs_to sha256_hex c w → basic w.
Proof.
  apply (runs_inv basic); [|intros k w'; apply basic_spawned|apply basic_acts].
  intros w0 [-> _]%world_new_Ok. by split.
Qed.

(** What a thread is about to do, it may do. *)
Lemma about_to w t th e f : basic w → w_threads w !! t = Some th → th_prog th = Act e f → allowed c (th_call th) (mon th) e.
Proof. intros Hb Ht Hp. pose proof (b_safe _ Hb t th Ht) as H. rewrite Hp in H. apply H. Qed.

(** ** The ledger against what the threads were answered *)

Definition events (w : World) : list event := mjoin (th_log <$> w_threads w).

Lemma events_after w t th e r x f w1 : w_threads w !! t = Some th → perform c t e r w = Some (x, w1) →
  events (after_call t th e x f w1) ≡ₚ events w ++ [Ev e x].
Proof.
  intros Ht Hx. unfold events. simpl. rewrite (perform_threads _ _ _ _ _ _ Hx). clear Hx. revert t Ht.
  induction (w_threads w) as [|th' ths IH]; [done|]. intros [|t] Ht; simpl in *.
  - injection Ht as ->. rewrite <-!app_assoc. f_equiv. apply Permutation_app_comm.
  - rewrite <-app_assoc. f_equiv. by apply IH.
Qed.

Lemma events_spawned k w : events (spawned k w) = events w.
Proof. unfold events. simpl. rewrite fmap_app, join_app. simpl. by rewrite app_nil_r. Qed.

(** How often a grant epoch was spent. *)
Definition spends (epoch : Z) (evs : list event) : nat := length (filter (λ g, g_epoch g = epoch) (omap obs_spent evs)).

#[local] Instance spends_perm epoch : Proper ((≡ₚ) ==> (=)) (spends epoch).
Proof. intros l l' Hl. unfold spends. by rewrite Hl. Qed.

Record ledger_rel (l : GrantLedger) (evs : list event) : Prop := LedgerRel {
  lr_attachment : gl_attachment_id l = c_attachment_id c ∧ gl_attachment_epoch l = c_epoch c;
  lr_issued g : g ∈ omap obs_opened evs → g_epoch g <= gl_grant_epoch l ∧ g_attachment_id g = c_attachment_id c ∧
    g_attachment_epoch g = c_epoch c ∧ grant_ok g = true;
  lr_unique g g' : g ∈ omap obs_opened evs → g' ∈ omap obs_opened evs → g_epoch g = g_epoch g' → g = g';
  lr_current g : gl_current l = Some g → g ∈ omap obs_opened evs ∧ Z.of_nat (spends (g_epoch g) evs) = gl_consumed l;
  lr_seen g : g ∈ omap obs_current evs ++ omap obs_spent evs → g ∈ omap obs_opened evs;
  lr_bound g : g ∈ omap obs_opened evs → Z.of_nat (spends (g_epoch g) evs) <= g_max_calls g
}.

Lemma ledger_rel_perm l evs evs' : evs ≡ₚ evs' → ledger_rel l evs → ledger_rel l evs'.
Proof.
  intros Hp [Ha Hi Hu Hc Hs Hb].
  split; [done| |intros g g'| | |]; try intros g; rewrite <-!Hp; auto.
Qed.

(** What an action makes of the ledger. *)
Inductive ledger_step (l : GrantLedger) (ev : event) : GrantLedger → Prop :=
| ls_none : obs_opened ev = None → obs_spent ev = None → (obs_current ev = None ∨ obs_current ev = gl_current l) → ledger_step l ev l
| ls_close : obs_opened ev = None → obs_spent ev = None → obs_current ev = None → ledger_step l ev (ledger_close l)
| ls_spend g : obs_opened ev = None → obs_spent ev = Some g → obs_current ev = None → gl_current l = Some g → gl_consumed l < g_max_calls g →
    ledger_step l ev (MkGrantLedger (gl_attachment_id l) (gl_attachment_epoch l) (gl_grant_epoch l) (Some g) (gl_consumed l + 1))
| ls_open terms g l' : obs_opened ev = Some g → obs_spent ev = None → obs_current ev = None → ledger_open terms l = Ok (g, l') →
    ledger_step l ev l'.

Lemma perform_ledger t e r w x w1 : perform c t e r w = Some (x, w1) → ledger_step (w_ledger w) (Ev e x) (w_ledger w1).
Proof.
  intros H. destruct e; try (inv_perform H; simpl; by apply ls_none; auto); try (inv_perform H; simpl; by apply ls_close);
    try (inv_perform H; repeat case_match; simpl; by apply ls_none; auto).
  - unfold perform in H. unfold ledger_consume in H. destruct (gl_current (w_ledger w)) as [g|] eqn:Hg; [|simplify_eq; by apply ls_none; auto].
    destruct (negb _); [simplify_eq; by apply ls_none; auto|].
    destruct (Z.leb_spec (g_max_calls g) (gl_consumed (w_ledger w))); simplify_eq; [by apply ls_none; auto|]. by apply ls_spend.
  - unfold perform in H. destruct (ledger_open t0 (w_ledger w)) as [[g l]|err] eqn:Ho; simplify_eq; [by eapply ls_open|by apply ls_none; auto].
Qed.

Lemma spends_snoc e evs ev : spends e (evs ++ [ev]) =
  (spends e evs + match obs_spent ev with Some g => if decide (g_epoch g = e) then 1 else 0 | None => 0 end)%nat.
Proof.
  unfold spends. rewrite omap_app, filter_app, length_app. f_equal. simpl. destruct (obs_spent ev); [|done]. rewrite filter_cons. by case_decide.
Qed.

Lemma spends_none e evs : (∀ g, g ∈ omap obs_spent evs → g_epoch g ≠ e) → spends e evs = 0%nat.
Proof.
  intros H. unfold spends. destruct (filter _ _) as [|g l] eqn:Hf; [done|]. exfalso.
  assert (g ∈ filter (λ g, g_epoch g = e) (omap obs_spent evs)) as [He Hg]%list_elem_of_filter by (rewrite Hf; by left). by apply (H g).
Qed.

Lemma ledger_rel_step l evs ev l' : ledger_rel l evs → ledger_step l ev l' → ledger_rel l' (evs ++ [ev]).
Proof.
  intros [Ha Hi Hu Hc Hs Hb] Hst. destruct Hst as [Ho Hsp Hcur|Ho Hsp Hcur|g Ho Hsp Hcur Hg Hlt|terms g l' Ho Hsp Hcur Hop].
  - assert (∀ e, spends e (evs ++ [ev]) = spends e evs) as Hn by (intros e; rewrite spends_snoc, Hsp; lia).
    split; try done; rewrite ?omap_app; simpl; rewrite ?Ho, ?Hsp, ?app_nil_r; try setoid_rewrite Hn; auto.
    intros g [[Hg|Hg]%elem_of_app|Hg]%elem_of_app; [apply Hs, elem_of_app; by left| |apply Hs, elem_of_app; by right].
    destruct Hcur as [Hcur|Hcur]; rewrite Hcur in Hg; [by apply elem_of_nil in Hg|].
    destruct (gl_current l) eqn:E; [apply list_elem_of_singleton in Hg as ->; by apply Hc|by apply elem_of_nil in Hg].
  - assert (∀ e, spends e (evs ++ [ev]) = spends e evs) as Hn by (intros e; rewrite spends_snoc, Hsp; lia).
    split; try done; rewrite ?omap_app; simpl; rewrite ?Ho, ?Hsp, ?Hcur, ?app_nil_r; try setoid_rewrite Hn; auto.
  - destruct (Hc g Hg) as [Hin Hcount].
    split; try done; rewrite ?omap_app; simpl; rewrite ?Ho, ?Hsp, ?Hcur, ?app_nil_r; auto.
    + intros g' [= <-]. split; [done|]. rewrite spends_snoc, Hsp, decide_True by done. lia.
    + intros g' [Hg'|[Hg'|Hg']%elem_of_app]%elem_of_app; [apply Hs, elem_of_app; by left|apply Hs, elem_of_app; by right|].
      by apply list_elem_of_singleton in Hg' as ->.
    + intros g' Hg'. rewrite spends_snoc, Hsp. case_decide as He; [|specialize (Hb g' Hg'); lia].
      rewrite <-(Hu g g' Hin Hg' He). lia.
  - unfold ledger_open in Hop. inv_ok. apply negb_false_iff in H. set (g := MkCapabilityGrant _ _ _ _ _ _ _ _ _ _) in *. destruct Ha as [Ha1 Ha2].
    assert (∀ g', g' ∈ omap obs_opened evs → g_epoch g' ≠ g_epoch g) as Hfresh by (intros g' [Hle _]%Hi; simpl; lia).
    assert (spends (g_epoch g) evs = 0%nat) as H0.
    { apply spends_none. intros g' Hg'. apply Hfresh, Hs, elem_of_app. by right. }
    assert (∀ e, spends e (evs ++ [ev]) = spends e evs) as Hn by (intros e; rewrite spends_snoc, Hsp; lia).
    split; [done|rewrite ?omap_app; simpl; rewrite ?Ho, ?Hsp, ?Hcur, ?app_nil_r; try setoid_rewrite Hn..].
    + intros g' [Hg'|Hg']%elem_of_app; [destruct (Hi g' Hg') as (? & ? & ? & ?); split_and!; try done; lia|].
      apply list_elem_of_singleton in Hg' as ->. simpl. by split_and!.
    + intros g1 g2 [H1|H1]%elem_of_app [H2|H2]%elem_of_app He; [by apply Hu| | |].
      * apply list_elem_of_singleton in H2 as ->. by destruct (Hfresh g1 H1 He).
      * apply list_elem_of_singleton in H1 as ->. by destruct (Hfresh g2 H2 (eq_sym He)).
      * apply list_elem_of_singleton in H1 as ->. by apply list_elem_of_singleton in H2 as ->.
    + intros g' [= <-]. rewrite H0. split; [apply elem_of_app; right; by left|done].
    + intros g' Hg'. apply elem_of_app. left. by apply Hs.
    + intros g' [Hg'|Hg']%elem_of_app; [by apply Hb|]. apply list_elem_of_singleton in Hg' as ->. rewrite H0.
      unfold grant_ok in H. rewrite !andb_true_iff in H. destruct H as [[[[[[[_ _] _] _] _] Hm] _] _]. apply Z.ltb_lt in Hm. simpl in *. lia.
Qed.

Lemma runs_ledger w : runs_to sha256_hex c w → ledger_rel (w_ledger w) (events w).
Proof.
  apply (runs_inv (λ w, ledger_rel (w_ledger w) (events w))).
  - intros w0 [-> _]%world_new_Ok. by split; try done; intros; match goal with H : _ ∈ _ |- _ => apply elem_of_nil in H end.
  - intros k w0 H. by rewrite events_spawned.
  - intros w0 w' H [t th e f r x w1 Ht Hp Hx]. eapply ledger_rel_perm; [symmetry; eapply events_after; eassumption|].
    eapply ledger_rel_step; [exact H|]. exact (perform_ledger _ _ _ _ _ _ Hx).
Qed.

(** A grant is spent under its own epoch. *)
Lemma runs_honest w e g : runs_to sha256_hex c w → (e, g) ∈ omap obs_consumed (events w) → g_epoch g = e.
Proof.
  intros Hr. revert e g. revert w Hr. apply (runs_inv (λ w, ∀ e g, (e, g) ∈ omap obs_consumed (events w) → g_epoch g = e)).
  - intros w0 [-> _]%world_new_Ok e g H. by apply elem_of_nil in H.
  - intros k w0 H. by rewrite events_spawned.
  - intros w0 w' H [t th e f r x w1 Ht Hp Hx] e' g. rewrite (events_after w0 t th e r x f w1 Ht Hx), omap_app.
    intros [Hin|Hin]%elem_of_app; [by apply H|]. clear H Hp f. destruct e; simpl in Hin; try (by apply elem_of_nil in Hin).
    unfold perform, ledger_consume in Hx. destruct (gl_current (w_ledger w0)) as [g0|]; [|simplify_eq; by apply elem_of_nil in Hin].
    destruct (Z.eqb_spec (g_epoch g0) epoch) as [He|]; simpl in Hx; [|simplify_eq; by apply elem_of_nil in Hin].
    destruct (g_max_calls g0 <=? _); simplify_eq; simpl in Hin; [by apply elem_of_nil in Hin|].
    apply list_elem_of_singleton in Hin. by simplify_eq.
Qed.

(** What a grant must allow for a request. *)
Definition permitted (r : ToolRequest) (g : CapabilityGrant) : Prop :=
  permits g (method r) = true ∧ (∀ path content, params r = WriteParams path content → permits_write_path g path = true) ∧
  (∀ argv cwd, params r = ShellParams argv cwd → argv ∈ g_allowed_argv g).

Lemma policy_permits r g : wf_request r → precheck_policy r g = None → permitted r g.
Proof.
  unfold wf_request, precheck_policy, permitted. intros Hw Hp.
  destruct (params r) as [path|query path|argv cwd|path content|] eqn:Hr; simpl in Hw; rewrite <-Hw in Hp |- *;
    (destruct (permits g _); simpl in Hp; [|done]); (split_and!; [done|intros ?? [=]..]); subst.
  - case_bool_decide; [done|discriminate].
  - by destruct (permits_write_path g path0).
Qed.

Lemma omap_log {A} (f : event → option A) w t th y : w_threads w !! t = Some th → y ∈ omap f (th_log th) → y ∈ omap f (events w).
Proof.
  intros Ht Hy. unfold events. apply list_elem_of_omap in Hy as (ev & Hev & Hf). apply list_elem_of_omap. exists ev. split; [|done].
  apply list_elem_of_join. exists (th_log th). split; [done|]. apply list_elem_of_fmap. exists th. split; [done|]. by eapply list_elem_of_lookup_2.
Qed.

(** What lets a thread call the adapter for a request: a grant that was issued
    for this attachment and that it spent, and the fence and the time it read. *)
Record authority (w : World) (th : EpisodeThread) (r : ToolRequest) (g : CapabilityGrant) (fence : CallFence) (now : Z) : Prop := Authority {
  ay_named : episode_id r = c_episode_id c ∧ attachment_id r = c_attachment_id c ∧ attachment_epoch r = c_epoch c;
  ay_grant : g ∈ omap obs_opened (events w) ∧ g_epoch g = grant_epoch r ∧ g_attachment_id g = c_attachment_id c ∧
    g_attachment_epoch g = c_epoch c;
  ay_spent : g ∈ omap obs_spent (th_log th);
  ay_permitted : permitted r g;
  ay_fence : fence ∈ omap obs_fence (th_log th) ∧ cf_open fence = true ∧ cf_aborted fence = false;
  ay_deadline : now ∈ omap obs_clock (th_log th) ∧ now <= cf_deadline fence ∧ now <= g_deadline g
}.

Lemma authorised_authority w t th r a j : runs_to sha256_hex c w → w_threads w !! t = Some th →
  wf_request r → m_claim (mon th) = Some (j, r) → m_auth (mon th) = Some a → authorised c r a → authority w th r (au_current a) (au_fence a) (au_now a).
Proof.
  intros Hr Ht Hw Hc Ha (He & Hat & Hae & Hopen & Hge & Hep & Hpol & Hd1 & Hd2).
  destruct (seen_auth _ (watch_seen (th_log th)) a Ha) as (Hf & Hg & Hn & Hs).
  pose proof (runs_ledger w Hr) as [_ Hi Hu _ Hseen _].
  assert (au_spent a ∈ omap obs_spent (th_log th)) as Hs'.
  { apply list_elem_of_omap in Hs as (ev & Hev & Hsp). apply list_elem_of_omap. exists ev. unfold obs_spent. by rewrite Hsp. }
  assert (g_epoch (au_spent a) = grant_epoch r) as Hse.
  { rewrite <-Hep. eapply runs_honest; [exact Hr|]. by eapply omap_log. }
  assert (au_current a ∈ omap obs_opened (events w)) as Hin by (apply Hseen, elem_of_app; left; by eapply omap_log).
  assert (au_spent a ∈ omap obs_opened (events w)) as Hin' by (apply Hseen, elem_of_app; right; by eapply omap_log).
  assert (au_current a = au_spent a) as Heq by (apply Hu; [done..|congruence]).
  destruct (Hi _ Hin) as (_ & Hga & Hgae & _).
  apply andb_true_iff in Hopen as [Ho Hab%negb_true_iff].
  split; try done; [by rewrite Heq|by apply policy_permits].
Qed.

(** A thread's claim is the request it was submitted with. *)
Lemma runs_claims w t th j r : runs_to sha256_hex c w → w_threads w !! t = Some th → m_claim (mon th) = Some (j, r) →
  submits (th_call th) j r.
Proof.
  intros Hr. revert t th j r. cut (basic w ∧ ∀ t th j r, w_threads w !! t = Some th → m_claim (mon th) = Some (j, r) → submits (th_call th) j r).
  { intros [_ H]. exact H. }
  revert w Hr. apply runs_inv.
  - intros w Hw. split; [apply runs_basic; exists w, []; done|]. apply world_new_Ok in Hw as [-> _]. done.
  - intros k w [Hb H]. split; [by apply basic_spawned|]. intros t th j r [Hu|[_ ->]]%spawned_lookup Hc; [by eapply H|done].
  - intros w w' [Hb H] Ha. split; [by eapply basic_acts|]. destruct Ha as [t th e f rep x w1 Ht Hp Hx].
    intros u th' j r [(-> & -> & Hm)|[_ Hu]]%(after_lookup w t th e rep x f w1) Hc; [|by eapply H|done..]. rewrite Hm in Hc. simpl.
    pose proof (about_to w t th e f Hb Ht Hp) as Hal. clear Hp Hm Hx f.
    destruct e; cases_on Hc; try (by eapply H); by destruct Hal.
Qed.

(** C16: every operation the adapter is asked for, by any of any number of
    concurrent threads, carries out a submitted request that names this
    episode, attachment and epoch, under a grant issued for this attachment
    that permits its method, its path or its argv and of which the thread spent
    a call, after the thread read the fence open and not aborted and the clock
    not past the deadlines of fence and grant; and when it commits a write, the
    thread holds the barrier and the fence is open and not aborted still. *)
Theorem tool_calls_are_authorised w t th j o f : runs_to sha256_hex c w → w_threads w !! t = Some th →
  th_prog th = Act (Adapter j o) f → o ≠ OpDiscardAll →
  ∃ data r g fence now, th_call th = Submit j data ∧ parse_tool_request data = Parsed r ∧ op_of r o ∧ authority w th r g fence now ∧
    ∀ s, o = OpCommit s → fst <$> w_barrier w = Some t ∧ fence_snapshot c (w_att w) = MkCallFence true false (c_deadline c).
Proof.
  intros Hr Ht Hp Ho. pose proof (runs_basic w Hr) as Hb.
  assert ((∃ r a, m_claim (mon th) = Some (j, r) ∧ m_auth (mon th) = Some a ∧ authorised c r a ∧ op_of r o) ∧
    match o with OpCommit _ => m_fenced (mon th) = true | _ => True end) as [(r & a & Hc & Ha & Hau & Hop) Hcommit].
  { pose proof (about_to w t th _ f Hb Ht Hp) as H. by destruct o. }
  destruct (runs_claims w t th j r Hr Ht Hc) as (data & Hcall & Hparse).
  exists data, r, (au_current a), (au_fence a), (au_now a). split_and!; try done.
  - eapply authorised_authority; try done. by eapply parsed_request.
  - intros s ->. destruct (b_fence _ Hb t th Ht Hcommit) as [Hd [Hopen Hab%negb_true_iff]%andb_true_iff]. split.
    + rewrite (b_depth _ Hb t th Ht) in Hd. unfold holds in Hd. destruct (w_barrier w) as [[o d]|]; [|done]. simpl. by case_decide; subst.
    + unfold fence_snapshot in *. simpl in *. by rewrite Hopen, Hab.
Qed.

(** C18: a grant is spent at most as often as it allows, by all threads
    together, whatever grants come before and after it. *)
Theorem grant_budget_is_kept w g : runs_to sha256_hex c w → g ∈ omap obs_opened (events w) →
  Z.of_nat (length (filter (λ th, g ∈ omap obs_spent (th_log th)) (w_threads w))) <= g_max_calls g.
Proof.
  intros Hr Hg. pose proof (lr_bound _ _ (runs_ledger w Hr) g Hg) as Hb. etransitivity; [|exact Hb]. apply inj_le.
  unfold spends, events. clear. induction (w_threads w) as [|th ths IH]; [done|]. csimpl. rewrite omap_app, filter_app, length_app, filter_cons.
  case_decide as Hin; [|lia]. simpl.
  assert (0 < length (filter (λ g', g_epoch g' = g_epoch g) (omap obs_spent (th_log th))))%nat; [|lia].
  assert (g ∈ filter (λ g', g_epoch g' = g_epoch g) (omap obs_spent (th_log th))) as H by (by apply list_elem_of_filter).
  destruct (filter _ (omap obs_spent (th_log th))); [by apply elem_of_nil in H|simpl; lia].
Qed.
End worlds.

(** ** A concrete attachment *)

Definition demo_sha (s : string) : string := "0000000000000000000000000000000000000000000000000000000000000000".

Definition demo_config : AttachmentConfig := MkAttachmentConfig "episode-1" "attachment-1" 1 100 true true "motus-territory" None.

Definition demo_terms : GrantTerms := MkGrantTerms [WORKSPACE_READ; WORKSPACE_WRITE] [] ["src"] ["src/vendor"] [] 90 2.

Definition demo_request (call : string) (m : string) (ps : dict string Data) : Data :=
  DDict [("version", DInt 1); ("call_id", DStr call); ("episode_id", DStr "episode-1"); ("attachment_id", DStr "attachment-1");
         ("attachment_epoch", DInt 1); ("grant_epoch", DInt 1); ("method", DStr m); ("params", DDict ps)].

Definition demo_write : Data := demo_request "call-1" "workspace_write" [("path", DStr "src/a.py"); ("content", DStr "x = 1")].
Definition demo_read : Data := demo_request "call-2" "workspace_read" [("path", DStr "src/a.py")].

Definition demo_staged : StagedWrite := MkStagedWrite "call-1" "src/a.py" (demo_sha "").

Definition demo_run (ms : list move) : option World :=
  match world_new demo_config with Ok w => run demo_sha demo_config ms w | Err _ => None end.

Definition tau (t n : nat) : list move := replicate n (Sched t RNone).
Definition tick (t : nat) : move := Sched t (RInt (Gave 5)).

(** A gateway, a grant, and a write up to its commit. *)
Definition demo_commit : list move :=
  [Spawn (NewGateway 8)] ++ tau 0 1 ++ [Spawn (OpenGrant demo_terms)] ++ tau 1 1 ++ [Spawn (Submit 0 demo_write)] ++
  tau 2 4 ++ [tick 2] ++ tau 2 2 ++ [Sched 2 (RStaged (Gave demo_staged))] ++ tau 2 5 ++
  [tick 2; Sched 2 (RBool (Gave true)); Sched 2 (RBool (Gave true))] ++ tau 2 1.

Definition next (w : World) (t : nat) : option eff :=
  th ← w_threads w !! t; match th_prog th with Act e _ => Some e | Ret _ => None end.

Lemma demo_runs ms w : demo_run ms = Some w → runs_to demo_sha demo_config w.
Proof. unfold demo_run. destruct (world_new demo_config) as [w0|] eqn:E; [|done]. intros H. by exists w0, ms. Qed.

Lemma next_Some w t e : next w t = Some e → ∃ th f, w_threads w !! t = Some th ∧ th_prog th = Act e f.
Proof.
  unfold next. intros (th & Ht & H)%bind_Some. exists th. destruct (th_prog th) as [|e' f] eqn:Hp; [done|]. injection H as ->. by exists f.
Qed.

Definition about_to_commit (w : option World) : bool :=
  match w ≫= λ w, next w 2 with Some (Adapter 0 (OpCommit s)) => String.eqb (sw_path s) "src/a.py" | _ => false end.

Lemma about_to_commit_spec w : about_to_commit (Some w) = true →
  ∃ s, next w 2 = Some (Adapter 0 (OpCommit s)) ∧ sw_path s = "src/a.py".
Proof.
  unfold about_to_commit. cbn [mbind option_bind]. destruct (next w 2) as [e|]; [|done]. destruct e; try done.
  destruct j; [|done]. destruct o; try done. intros H%String.eqb_eq. eauto.
Qed.

Example demo_commits : about_to_commit (demo_run demo_commit) = true.
Proof. vm_compute. reflexivity. Qed.

#[local] Opaque run next.

Lemma tool_calls_are_authorised_witness :
  ∃ w th s r g fence now, runs_to demo_sha demo_config w ∧ w_threads w !! 2%nat = Some th ∧ next w 2 = Some (Adapter 0 (OpCommit s)) ∧
    authority demo_config w th r g fence now ∧ permits_write_path g "src/a.py" = true ∧ fst <$> w_barrier w = Some 2%nat.
Proof.
  assert (about_to_commit (demo_run demo_commit) = true) as H by (vm_compute; reflexivity).
  destruct (demo_run demo_commit) as [w|] eqn:E; [|discriminate H]. pose proof (demo_runs _ _ E) as Hr.
  destruct (about_to_commit_spec _ H) as (s & Hn & Hs).
  destruct (next_Some _ _ _ Hn) as (th & f & Ht & Hp).
  destruct (tool_calls_are_authorised _ _ w 2 th 0 _ f Hr Ht Hp ltac:(discriminate)) as (data & r & g & fence & now & _ & _ & Hop & Ha & Hc).
  exists w, th, s, r, g, fence, now. split; [exact Hr|]. split; [exact Ht|]. split; [exact Hn|]. split; [exact Ha|].
  split; [|apply (Hc s eq_refl)]. destruct (ay_permitted _ _ _ _ _ _ _ Ha) as (_ & Hw & _). inversion Hop as [| | | | |path content s' Hps Hid Hpath|]; subst.
  rewrite <-Hs. exact (Hw _ _ Hps).
Defined.

Lemma grant_budget_is_kept_witness :
  ∃ w g, runs_to demo_sha demo_config w ∧ g ∈ omap obs_opened (events w) ∧
    Z.of_nat (length (filter (λ th, g ∈ omap obs_spent (th_log th)) (w_threads w))) <= g_max_calls g.
Proof.
  assert ((λ w, length (omap obs_opened (events w))) <$> demo_run demo_commit = Some 1%nat) as H by (vm_compute; reflexivity).
  destruct (demo_run demo_commit) as [w|] eqn:E; [|discriminate H]. pose proof (demo_runs _ _ E) as Hr. simpl in H.
  destruct (omap obs_opened (events w)) as [|g l] eqn:Ho; [discriminate H|].
  assert (g ∈ omap obs_opened (events w)) as Hg by (rewrite Ho; left).
  exists w, g. split; [exact Hr|]. split; [rewrite Ho; left|]. exact (grant_budget_is_kept _ _ w g Hr Hg).
Defined.
