(* ===== verification/Settlement.v ===== *)
(** * Settlement fences the adapter

    The call ledger of a gateway against the claims its threads hold, and what
    draining it means: once an Episode Attachment is settled or released, no
    tool call reaches its territory, provided no thread dropped a claim it did
    not hold. It can: a submission whose wait for an identical one is
    interrupted does, and then settlement overtakes a running call. *)

From stdpp Require Import base gmap sets list strings.
From Stdlib Require Import Ascii ZArith Lia.
From S2P Require Import Prelude PyData Schema AgentText Programs Hands HandsGateway EpisodeAttachment HandsSafety HandsTheorems.
Open Scope string_scope.
Open Scope list_scope.
Open Scope Z_scope.

Section settlement.
Context (sha256_hex : string → string) (c : AttachmentConfig).
Notation acts := (acts c).
Notation runs_to := (runs_to sha256_hex c).

(** ** The call ledger *)

Definition table (w : World) (j : nat) : option (dict string (ToolRequest * option ToolResult) * Z) :=
  (λ g, (gw_calls g, gw_in_flight g)) <$> w_gateways w !! j.

Definition with_table (w : World) (j : nat) (calls : dict string (ToolRequest * option ToolResult)) (n : Z) (w1 : World) : Prop :=
  table w1 j = Some (calls, n) ∧ ∀ i, i ≠ j → table w1 i = table w i.

(** What an action makes of the call ledgers. *)
Inductive table_step (w w1 : World) : event → Prop :=
| ts_same ev : (∀ i, table w1 i = table w i) → (∀ s, m_claim (upd s ev) = m_claim s) → table_step w w1 ev
| ts_new ev : (∀ i, table w1 i = if decide (i = length (w_gateways w)) then Some ([], 0) else table w i) →
    (∀ s, m_claim (upd s ev) = m_claim s) → at_open (w_att w) = true → table_step w w1 ev
| ts_fresh j r calls n : table w j = Some (calls, n) → dget (call_id r) calls = None →
    with_table w j (dset (call_id r) (r, None) calls) (n + 1) w1 → table_step w w1 (Ev (GClaim j r) Fresh)
| ts_publish j r res calls n : table w j = Some (calls, n) →
    with_table w j (dset (call_id r) (r, Some res) calls) (n - 1) w1 → table_step w w1 (Ev (GPublish j r res) tt)
| ts_abandon j r calls n : table w j = Some (calls, n) → dget (call_id r) calls = Some (r, None) →
    with_table w j (ddel (call_id r) calls) (n - 1) w1 → table_step w w1 (Ev (GAbandon j r) true)
| ts_nothing j r calls n : table w j = Some (calls, n) → dget (call_id r) calls ≠ Some (r, None) →
    (∀ i, table w1 i = table w i) → table_step w w1 (Ev (GAbandon j r) false).

Lemma table_insert w j g g' : w_gateways w !! j = Some g →
  with_table w j (gw_calls g') (gw_in_flight g') (set_gateways (<[j := g']> (w_gateways w)) w).
Proof.
  intros Hg. assert (j < length (w_gateways w))%nat as Hlt by (apply lookup_lt_is_Some; eauto). unfold with_table, table. simpl. split.
  - by rewrite list_lookup_insert_eq.
  - intros i Hi. by rewrite list_lookup_insert_ne.
Qed.

Lemma table_kept w j g g' : w_gateways w !! j = Some g → gw_calls g' = gw_calls g → gw_in_flight g' = gw_in_flight g →
  ∀ i, table (set_gateways (<[j := g']> (w_gateways w)) w) i = table w i.
Proof.
  intros Hg Hc Hn i. destruct (table_insert w j g g' Hg) as [Hj Hne]. destruct (decide (i = j)) as [->|]; [|by apply Hne].
  rewrite Hj, Hc, Hn. unfold table. by rewrite Hg.
Qed.

Lemma claim_step w j r b g g' x : w_gateways w !! j = Some g → gateway_claim c r b g = Some (x, g') →
  table_step w (set_gateways (<[j := g']> (w_gateways w)) w) (Ev (GClaim j r) x).
Proof.
  intros Hg H. unfold gateway_claim in H.
  assert (table w j = Some (gw_calls g, gw_in_flight g)) as Hj by (unfold table; by rewrite Hg).
  destruct (dget (call_id r) (gw_calls g)) as [[r' [res|]]|] eqn:Hd.
  - destruct (negb _); simplify_eq; (apply ts_same; [by eapply table_kept|done]).
  - destruct (negb _); simplify_eq; [|destruct b; simplify_eq]; (apply ts_same; [by eapply table_kept|done]).
  - destruct (_ <=? _)%nat; [destruct (tool_result_ok _); simplify_eq; (apply ts_same; [by eapply table_kept|done])|].
    simplify_eq. eapply ts_fresh; [exact Hj|done|]. exact (table_insert w j g _ Hg).
Qed.

Lemma abandon_step w j r g g' x : w_gateways w !! j = Some g → abandon r g = (x, g') →
  table_step w (set_gateways (<[j := g']> (w_gateways w)) w) (Ev (GAbandon j r) x).
Proof.
  intros Hg H. unfold abandon in H.
  assert (table w j = Some (gw_calls g, gw_in_flight g)) as Hj by (unfold table; by rewrite Hg).
  destruct (dget (call_id r) (gw_calls g)) as [[r' [res|]]|] eqn:Hd; [|case_bool_decide; [subst|]|]; simplify_eq.
  2: { eapply ts_abandon; [exact Hj|done|]. exact (table_insert w j g _ Hg). }
  all: eapply ts_nothing; [exact Hj|rewrite Hd; congruence|by eapply table_kept].
Qed.

Lemma perform_table t e r w x w1 : perform c t e r w = Some (x, w1) → table_step w w1 (Ev e x).
Proof.
  intros H. destruct e; try (inv_perform H; apply ts_same; [intros i; try done; by repeat case_match|intros ?; unfold upd; simpl; unfold beginning; by repeat case_match]).
  - inv_perform H. apply ts_same; [by eapply table_kept|done].
  - apply on_gateway_Some in H as (g & g' & Hg & Hc & ->). by eapply claim_step.
  - inv_perform H. eapply (ts_publish w _ j r0 res (gw_calls x0)); [unfold table; by rewrite H|]. exact (table_insert w j x0 _ H).
  - apply on_gateway_Some in H as (g & g' & Hg & Hc & ->). injection Hc as Hc. by eapply abandon_step.
  - inv_perform H. apply ts_same; [by eapply table_kept|done].
  - inv_perform H. apply ts_same; [by eapply table_kept|]. intros s. unfold upd. simpl. by repeat case_match.
  - unfold perform in H. destruct (ledger_open t0 (w_ledger w)) as [[]|]; simplify_eq; by apply ts_same.
  - inv_perform H; by apply ts_same.
  - unfold perform, gateway_guarded in H. apply under_Some in H as [_ H]. injection H as Hx Hw. subst x w1.
    unfold gateway_guard, error. destruct (at_uncertain (w_att w)); [by apply ts_same|].
    destruct (at_open (w_att w)) eqn:Ho; [|by apply ts_same]. destruct (max_evidence =? 0)%nat; [by apply ts_same|].
    apply ts_new; [|done|done]. intros i. unfold table. simpl. case_decide as Hi; [subst; by rewrite lookup_app_r, Nat.sub_diag by lia|].
    destruct (decide (i < length (w_gateways w))%nat) as [Hlt|Hge]; [by rewrite lookup_app_l|].
    rewrite lookup_app_r by lia. destruct (w_gateways w !! i) eqn:E; [apply lookup_lt_Some in E; lia|].
    destruct (i - length (w_gateways w))%nat eqn:E'; [lia|done].
Qed.

(** ** Claims and the call ledger *)

Definition pending_call (j : nat) (th : EpisodeThread) : bool :=
  match m_claim (mon th) with Some (i, _) => (i =? j)%nat | None => false end.

Definition claims_on (j : nat) (w : World) : nat := length (filter (λ th, pending_call j th = true) (w_threads w)).

Record table_ok (w : World) : Prop := TableOk {
  tb_count j calls n : table w j = Some (calls, n) → n = Z.of_nat (claims_on j w) ∧ NoDup (dkeys calls);
  tb_entry t th j r : w_threads w !! t = Some th → m_claim (mon th) = Some (j, r) →
    ∃ calls n, table w j = Some (calls, n) ∧ dget (call_id r) calls = Some (r, None);
  tb_unique t u th th' j r r' : w_threads w !! t = Some th → w_threads w !! u = Some th' → m_claim (mon th) = Some (j, r) →
    m_claim (mon th') = Some (j, r') → call_id r = call_id r' → t = u
}.

(** No thread dropped a claim it did not hold. *)
Definition no_stray (w : World) : Prop := ∀ t th, w_threads w !! t = Some th → m_stray (mon th) = false.

Lemma filter_insert {A} (P : A → Prop) `{∀ x, Decision (P x)} l t x y : l !! t = Some x →
  (length (filter P (<[t:=y]> l)) + (if decide (P x) then 1 else 0) = length (filter P l) + if decide (P y) then 1 else 0)%nat.
Proof.
  revert t. induction l as [|z l IH]; [done|]. intros [|t] Ht; simpl in *.
  - injection Ht as ->. rewrite !filter_cons. repeat case_decide; simpl; lia.
  - specialize (IH t Ht). rewrite !filter_cons. destruct (decide (P z)); simpl; lia.
Qed.

(** The world after a thread was answered an event. *)
Definition after_ev (t : nat) (th : EpisodeThread) (ev : event) (p : M Val) (w1 : World) : World :=
  set_threads (<[t := MkThread (th_call th) (th_log th ++ [ev]) p]> (w_threads w1)) w1.

Lemma after_ev_lookup w t th ev p w1 u th' : w_threads w !! t = Some th → w_threads w1 = w_threads w →
  w_threads (after_ev t th ev p w1) !! u = Some th' →
  u = t ∧ th' = MkThread (th_call th) (th_log th ++ [ev]) p ∧ mon th' = upd (mon th) ev ∨ u ≠ t ∧ w_threads w !! u = Some th'.
Proof.
  intros Ht Hx. simpl. rewrite Hx. destruct (decide (u = t)) as [->|Hne].
  - rewrite list_lookup_insert_eq by (apply lookup_lt_is_Some; eauto). intros [= <-]. left. split_and!; [done..|]. apply watch_snoc.
  - rewrite list_lookup_insert_ne by done. by right.
Qed.

(** How the claims on a gateway change with the acting thread's. *)
Lemma claims_after w t th ev p w1 j : w_threads w !! t = Some th → w_threads w1 = w_threads w →
  (claims_on j (after_ev t th ev p w1) + (if pending_call j th then 1 else 0) =
   claims_on j w + match m_claim (upd (mon th) ev) with Some (i, _) => if (i =? j)%nat then 1 else 0 | None => 0 end)%nat.
Proof.
  intros Ht Hx. unfold claims_on. simpl. rewrite Hx.
  pose proof (filter_insert (λ th, pending_call j th = true) _ t _ (MkThread (th_call th) (th_log th ++ [ev]) p) Ht) as H.
  assert (pending_call j (MkThread (th_call th) (th_log th ++ [ev]) p) =
    match m_claim (upd (mon th) ev) with Some (i, _) => (i =? j)%nat | None => false end) as Hp.
  { unfold pending_call, mon. simpl. by rewrite watch_snoc. }
  cbv beta in H. rewrite Hp in H. destruct (m_claim (upd (mon th) ev)) as [[i r']|]; [destruct (i =? j)%nat|]; destruct (pending_call j th); simpl in H; lia.
Qed.

Lemma table_after w1 t th ev p : ∀ i, table (after_ev t th ev p w1) i = table w1 i.
Proof. done. Qed.

(** An action that leaves every ledger and the thread's claim as they are, or
    adds an empty gateway. *)
Lemma table_ok_same w t th ev p w1 : table_ok w → w_threads w !! t = Some th → w_threads w1 = w_threads w →
  m_claim (upd (mon th) ev) = m_claim (mon th) →
  (∀ i calls n, table w i = Some (calls, n) → table w1 i = Some (calls, n)) →
  (∀ i calls n, table w1 i = Some (calls, n) → table w i = Some (calls, n) ∨ table w i = None ∧ calls = [] ∧ n = 0) →
  table_ok (after_ev t th ev p w1).
Proof.
  intros [Hc He Hu] Ht Hx Hm Hf Hb.
  assert (∀ u th', w_threads (after_ev t th ev p w1) !! u = Some th' → ∃ th0, w_threads w !! u = Some th0 ∧ m_claim (mon th') = m_claim (mon th0)) as Hl.
  { intros u th' [(-> & _ & Hm')|[_ Hu']]%(after_ev_lookup w t th ev p w1); [|eauto|done..]. exists th. split; [done|]. rewrite Hm'. exact Hm. }
  assert (∀ j, claims_on j (after_ev t th ev p w1) = claims_on j w) as Hcl.
  { intros j. pose proof (claims_after w t th ev p w1 j Ht Hx) as H. rewrite Hm in H. unfold pending_call in H.
    destruct (m_claim (mon th)) as [[i ?]|]; [destruct (i =? j)%nat|]; lia. }
  split.
  - intros j calls n Hj. rewrite Hcl. rewrite table_after in Hj. destruct (Hb _ _ _ Hj) as [Hj'|(Hn & -> & ->)]; [by eapply Hc|].
    split; [|constructor]. destruct (claims_on j w) eqn:E; [done|]. exfalso. unfold claims_on in E.
    destruct (filter _ (w_threads w)) as [|th' l] eqn:Ef; [done|].
    assert (th' ∈ filter (λ th, pending_call j th = true) (w_threads w)) as [Hp Hin]%list_elem_of_filter by (rewrite Ef; by left).
    apply list_elem_of_lookup in Hin as [u Hin]. unfold pending_call in Hp. destruct (m_claim (mon th')) as [[i r']|] eqn:Em; [|done].
    apply Nat.eqb_eq in Hp as ->. destruct (He _ _ _ _ Hin Em) as (? & ? & ? & _). congruence.
  - intros u th' j r' Hu' Hcm. destruct (Hl u th' Hu') as (th0 & H0 & Hm0). rewrite Hm0 in Hcm.
    destruct (He _ _ _ _ H0 Hcm) as (calls & n & Hj & Hd). exists calls, n. split; [|done]. rewrite table_after. by apply Hf.
  - intros a b tha thb j ra rb Ha Hb' Hma Hmb Hid. destruct (Hl a tha Ha) as (th1 & H1 & Hm1), (Hl b thb Hb') as (th2 & H2 & Hm2).
    rewrite Hm1 in Hma. rewrite Hm2 in Hmb. by eapply (Hu a b th1 th2).
Qed.

(** A thread that held a claim gives it up. *)
Lemma table_ok_drop w t th ev p w1 j q calls calls' n : table_ok w → w_threads w !! t = Some th → w_threads w1 = w_threads w →
  m_claim (mon th) = Some (j, q) → m_claim (upd (mon th) ev) = None → table w j = Some (calls, n) →
  with_table w j calls' (n - 1) w1 → (∀ k, k ≠ call_id q → dget k calls' = dget k calls) → NoDup (dkeys calls') →
  table_ok (after_ev t th ev p w1).
Proof.
  intros [Hc He Hu] Ht Hx Hq Hm Hj [Hj1 Hne] Hk Hnd.
  assert (∀ u th', w_threads (after_ev t th ev p w1) !! u = Some th' → u = t ∧ m_claim (mon th') = None ∨ u ≠ t ∧ w_threads w !! u = Some th') as Hl.
  { intros u th' [(-> & _ & Hm')|?]%(after_ev_lookup w t th ev p w1); [left|by right|done..]. split; [done|]. rewrite Hm'. exact Hm. }
  split.
  - intros i calls0 n0 Hi. pose proof (claims_after w t th ev p w1 i Ht Hx) as H. rewrite Hm in H. unfold pending_call in H. rewrite Hq in H.
    rewrite table_after in Hi. destruct (decide (i = j)) as [->|Hij].
    + rewrite Hj1 in Hi. simplify_eq. destruct (Hc _ _ _ Hj) as [-> _]. rewrite Nat.eqb_refl in H. split; [lia|done].
    + rewrite Hne in Hi by done. destruct (Hc _ _ _ Hi) as [-> Hnd0]. destruct (Nat.eqb_spec j i); [congruence|]. split; [lia|done].
  - intros u th' i r' [[-> Hn]|[Hut Hu']]%Hl Hcm; [congruence|]. destruct (He _ _ _ _ Hu' Hcm) as (calls0 & n0 & Hi & Hd).
    destruct (decide (i = j)) as [->|Hij]; [|exists calls0, n0; rewrite table_after, Hne by done; done].
    exists calls', (n - 1). rewrite table_after. split; [done|]. rewrite Hj in Hi. simplify_eq. rewrite Hk; [done|].
    intros Hid. apply Hut. by eapply (Hu u t).
  - intros a b tha thb i ra rb [[-> Hn]|[Hat Ha]]%Hl [[-> Hn']|[Hbt Hb]]%Hl Hma Hmb Hid; try congruence. by eapply (Hu a b).
Qed.

(** A thread without a claim gets one. *)
Lemma table_ok_fresh w t th q p w1 j calls n : table_ok w → w_threads w !! t = Some th →
  w_threads w1 = w_threads w → m_claim (mon th) = None → table w j = Some (calls, n) →
  dget (call_id q) calls = None → with_table w j (dset (call_id q) (q, None) calls) (n + 1) w1 → table_ok (after_ev t th (Ev (GClaim j q) Fresh) p w1).
Proof.
  intros [Hc He Hu] Ht Hx Hq Hj Hd [Hj1 Hne].
  assert (∀ u th', w_threads (after_ev t th (Ev (GClaim j q) Fresh) p w1) !! u = Some th' →
    u = t ∧ m_claim (mon th') = Some (j, q) ∨ u ≠ t ∧ w_threads w !! u = Some th') as Hl.
  { intros u th' [(-> & _ & Hm')|?]%(after_ev_lookup w t th _ p w1); [left|by right|done..]. split; [done|]. by rewrite Hm'. }
  assert (∀ u th' r', w_threads w !! u = Some th' → m_claim (mon th') = Some (j, r') → call_id r' ≠ call_id q) as Hfresh.
  { intros u th' r' Hu' Hcm Hid. destruct (He _ _ _ _ Hu' Hcm) as (calls0 & n0 & Hi & Hd0). rewrite Hj in Hi. simplify_eq. rewrite Hid in Hd0. congruence. }
  split.
  - intros i calls0 n0 Hi. pose proof (claims_after w t th (Ev (GClaim j q) Fresh) p w1 i Ht Hx) as H. unfold pending_call in H. rewrite Hq in H. simpl in H.
    rewrite table_after in Hi. destruct (decide (i = j)) as [->|Hij].
    + rewrite Hj1 in Hi. simplify_eq. destruct (Hc _ _ _ Hj) as [-> Hnd]. rewrite Nat.eqb_refl in H. split; [lia|by apply NoDup_dkeys_dset].
    + rewrite Hne in Hi by done. destruct (Hc _ _ _ Hi) as [-> Hnd0]. destruct (Nat.eqb_spec j i); [congruence|]. split; [lia|done].
  - intros u th' i r' [[-> Hn]|[Hut Hu']]%Hl Hcm.
    + rewrite Hn in Hcm. simplify_eq. eexists _, _. rewrite table_after. split; [exact Hj1|]. by rewrite dget_dset_eq.
    + destruct (He _ _ _ _ Hu' Hcm) as (calls0 & n0 & Hi & Hd0). destruct (decide (i = j)) as [->|Hij].
      * eexists _, _. rewrite table_after. split; [exact Hj1|]. rewrite Hj in Hi. simplify_eq. rewrite dget_dset_ne; [done|]. by eapply Hfresh.
      * exists calls0, n0. by rewrite table_after, Hne by done.
  - intros a b tha thb i ra rb [[-> Hn]|[Hat Ha]]%Hl [[-> Hn']|[Hbt Hb]]%Hl Hma Hmb Hid; try done.
    + rewrite Hn in Hma. simplify_eq. by destruct (Hfresh b thb rb Hb Hmb).
    + rewrite Hn' in Hmb. simplify_eq. by destruct (Hfresh a tha ra Ha Hma).
    + by eapply (Hu a b).
Qed.

Lemma table_ok_acts w w' : basic c w → table_ok w → acts w w' → no_stray w' → table_ok w'.
Proof.
  intros Hbasic Hok [t th e f r x w1 Ht Hp Hx] Hns. pose proof (about_to c w t th e f Hbasic Ht Hp) as Hal.
  pose proof (perform_table _ _ _ _ _ _ Hx) as Hst. pose proof (perform_threads _ _ _ _ _ _ _ Hx) as Hth. clear Hp Hx.
  change (after_call t th e x f w1) with (after_ev t th (Ev e x) (f x) w1) in *. change e with (ev_eff (Ev e x)) in Hal.
  revert Hst Hal Hns. generalize (Ev e x) (f x). clear e x f. intros ev p Hst Hal Hns.
  assert (m_stray (upd (mon th) ev) = false) as Hstray.
  { rewrite <-(Hns t (MkThread (th_call th) (th_log th ++ [ev]) p)); [unfold mon; simpl; by rewrite watch_snoc|].
    simpl. rewrite Hth, list_lookup_insert_eq; [done|]. apply lookup_lt_is_Some. eauto. }
  destruct Hst as [ev Hsame Hm|ev Hnew Hm _|j q calls n Hj Hd Hw|j q res calls n Hj Hw|j q calls n Hj Hd Hw|j q calls n Hj Hd Hsame].
  - apply (table_ok_same w); [done..|intros i calls n; by rewrite Hsame|intros i calls n; rewrite Hsame; by left].
  - apply (table_ok_same w); [done..| |]; intros i calls n; rewrite Hnew; case_decide as Hi; [|done| |by left].
    + subst. unfold table. by rewrite lookup_ge_None_2.
    + intros [= <- <-]. right. subst. unfold table. by rewrite lookup_ge_None_2.
  - eapply (table_ok_fresh w); try done; by destruct Hal.
  - destruct (tb_count _ Hok _ _ _ Hj) as [_ Hnd]. simpl in Hal. apply (table_ok_drop w t th (Ev (GPublish j q res) tt) p w1 j q calls _ n Hok Ht Hth Hal eq_refl Hj Hw); [|by apply NoDup_dkeys_dset].
    intros k Hk. by rewrite dget_dset_ne.
  - destruct (tb_count _ Hok _ _ _ Hj) as [_ Hnd]. destruct Hal as [Hq|[Hq _]]; [|unfold upd in Hstray; simpl in Hstray; rewrite Hq in Hstray].
    + apply (table_ok_drop w t th (Ev (GAbandon j q) true) p w1 j q calls _ n Hok Ht Hth Hq eq_refl Hj Hw); [|by apply NoDup_dkeys_ddel]. intros k Hk. by rewrite dget_ddel_ne.
    + by rewrite orb_true_r in Hstray.
  - destruct Hal as [Hq|[Hq _]].
    + destruct (tb_entry _ Hok _ _ _ _ Ht Hq) as (calls' & n' & Hj' & Hd'). congruence.
    + apply (table_ok_same w); [done..|intros i k m; by rewrite Hsame|intros i k m; rewrite Hsame; by left].
Qed.

(** ** Closed, drained, settled *)

(** A claim that has not been let through its checks. *)
Definition cool (s : monitor) : Prop := m_auth s = None ∧ ∀ f, m_fence s = Some f → cf_open f = false.

Definition is_settled (w : World) : Prop := is_Some (at_settlement (w_att w)) ∨ is_Some (at_release (w_att w)).

Record quiet (w : World) : Prop := Quiet {
  q_began t th n : w_threads w !! t = Some th → m_began (mon th) = Some n → at_open (w_att w) = false ∧ n = length (w_gateways w);
  q_drained t th j : w_threads w !! t = Some th → j ∈ m_drained (mon th) → is_Some (m_began (mon th)) ∧
    ∀ u th' r, w_threads w !! u = Some th' → m_claim (mon th') = Some (j, r) → cool (mon th');
  q_retry t th : w_threads w !! t = Some th → m_retrying (mon th) = true → is_Some (at_settlement (w_att w));
  q_settled : is_settled w → ∃ t th, w_threads w !! t = Some th ∧ all_drained (mon th)
}.

Section one_action.
Context (t : nat) (e : eff) (r : Reply) (w w1 : World) (x : ans e) (s : monitor) (Hx : perform c t e r w = Some (x, w1)).

(** An attachment never opens again, and a gateway is made in an open one. *)
Lemma action_open : at_open (w_att w) = false → at_open (w_att w1) = false ∧ length (w_gateways w1) = length (w_gateways w).
Proof.
  intros Ho. clear s. destruct e; inv_perform Hx; simpl; rewrite ?length_insert; try done; try (by repeat case_match; rewrite ?length_insert).
  unfold gateway_guard, error. rewrite Ho. by destruct (at_uncertain (w_att w)).
Qed.

Lemma action_settlement : is_Some (at_settlement (w_att w)) → is_Some (at_settlement (w_att w1)).
Proof. clear s. destruct e; inv_perform Hx; try done; simpl; try done; by repeat case_match. Qed.

Lemma action_settles : is_settled w1 → is_settled w ∨ (∃ a u, e = SettleEnd a u) ∨ (∃ a, e = ReleaseEnd a) ∨ ∃ a u, e = RetryEnd a u.
Proof. clear s. destruct e; inv_perform Hx; unfold is_settled; simpl; try (by left); try (by right; eauto); repeat case_match; by left. Qed.

Lemma action_began n : m_began (upd_ans s e x) = Some n → m_began s = Some n ∨ at_open (w_att w1) = false ∧ n = length (w_gateways w1).
Proof.
  destruct e; inv_perform Hx; simpl; unfold beginning; try (by left); try (by repeat case_match; left).
  - destruct (settle_guard _ _) as [m|] eqn:Hg; [|by left]. simpl. intros [= ->]. right. unfold settle_guard, error in Hg.
    repeat case_match; simplify_eq. done.
  - destruct (release_guard _ _ _) as [m|] eqn:Hg; [|by left]. simpl. intros [= ->]. right. unfold release_guard, error in Hg.
    repeat case_match; simplify_eq. done.
Qed.

Lemma action_drained j : j ∈ m_drained (upd_ans s e x) →
  m_began (upd_ans s e x) = m_began s ∧ (j ∈ m_drained s ∨ e = GDrain j ∧ ∃ calls n, table w j = Some (calls, n) ∧ n <= 0).
Proof.
  destruct e; simpl; unfold beginning; try (by auto); try (by repeat case_match; auto); intros Hj.
  - destruct x as [[]| | |]; auto. split; [done|]. apply elem_of_cons in Hj as [->|]; [right|by left]. split; [done|].
    unfold perform in Hx. destruct r as [| | | | |y| | | | |]; try done. apply on_gateway_Some in Hx as (g & g' & Hg & Hf & _).
    exists (gw_calls g), (gw_in_flight g). split; [unfold table; by rewrite Hg|]. destruct y; simplify_eq. by apply Z.leb_le.
  - destruct x; [by apply elem_of_nil in Hj|auto].
  - destruct x; [by apply elem_of_nil in Hj|auto].
Qed.

Lemma action_retries : m_retrying (upd_ans s e x) = true → m_retrying s = true ∨ is_Some (at_settlement (w_att w)).
Proof.
  destruct e; simpl; unfold beginning; intros Hr; try (by left); try (by repeat case_match; left). inv_perform Hx.
  destruct (at_settlement (w_att w)) as [a|] eqn:Ha; [right; eauto|left]. unfold retry_guard in Hr. by rewrite Ha in Hr.
Qed.

Lemma action_cool k j q : at_open (w_att w) = false → allowed c k s e → (m_claim s = Some (j, q) → cool s) →
  m_claim (upd_ans s e x) = Some (j, q) → cool (upd_ans s e x).
Proof.
  intros Ho Hal Hc Hm. destruct e; try (by apply Hc); simpl in *; try done; unfold beginning in *; try (by repeat case_match; apply Hc).
  - destruct x; [by split|by apply Hc..].
  - destruct Hal as [_ (f & Hf & Hopen)]. destruct (Hc Hm) as [_ Hcool]. unfold open_fence in Hopen. by rewrite (Hcool f Hf) in Hopen.
  - inv_perform Hx. split; [by apply Hc|]. intros f [= <-]. simpl. by rewrite Ho.
Qed.

Lemma action_all_drained k : allowed c k s e → all_drained s → all_drained (upd_ans s e x).
Proof.
  intros Hal (n & Hn & Hd). exists n. destruct e; simpl in *; unfold beginning; try done; try (by repeat case_match); try congruence.
  destruct x as [[]| | |]; simpl; try done. split; [done|]. intros i Hi. apply elem_of_cons. right. by apply Hd.
Qed.
End one_action.

Lemma quiet_acts w w' : basic c w → table_ok w → quiet w → acts w w' → quiet w'.
Proof.
  intros Hbasic Htab [Hb Hd Hr Hs] [t th e f r x w1 Ht Hp Hx]. pose proof (about_to c w t th e f Hbasic Ht Hp) as Hal.
  assert (t < length (w_threads w1))%nat as Hlt by (rewrite (perform_threads _ _ _ _ _ _ _ Hx); apply lookup_lt_is_Some; eauto).
  assert (∀ n, m_began (upd_ans (mon th) e x) = Some n → at_open (w_att w1) = false ∧ n = length (w_gateways w1)) as Hbt.
  { intros n [Hn|?]%(action_began t e r w w1 x (mon th) Hx); [|done]. destruct (Hb t th n Ht Hn) as [Ho ->].
    by destruct (action_open t e r w w1 x Hx Ho) as [-> ->]. }
  assert (∀ u th' j q, w_threads (after_call t th e x f w1) !! u = Some th' → at_open (w_att w) = false → m_claim (mon th') = Some (j, q) →
    (∀ v th'' q', w_threads w !! v = Some th'' → m_claim (mon th'') = Some (j, q') → cool (mon th'')) → cool (mon th')) as Hcool.
  { intros u th' j q [(-> & -> & Hm)|[_ Hu]]%(after_lookup c w t th e r x f w1) Ho Hc Hall; [|by eapply Hall|done..].
    rewrite Hm in *. eapply (action_cool t e r w w1 x (mon th) Hx); [done|exact Hal| |exact Hc]. by eapply Hall. }
  assert (∀ u th', w_threads w !! u = Some th' → all_drained (mon th') →
    ∃ v th'', w_threads (after_call t th e x f w1) !! v = Some th'' ∧ all_drained (mon th'')) as Hkeep.
  { intros u th' Hu Hall. simpl. destruct (decide (u = t)) as [->|Hne].
    - eexists t, _. rewrite list_lookup_insert_eq by done. split; [done|]. unfold mon. simpl. rewrite watch_snoc.
      rewrite Ht in Hu. injection Hu as <-. by eapply action_all_drained.
    - exists u, th'. by rewrite list_lookup_insert_ne, (perform_threads _ _ _ _ _ _ _ Hx) by done. }
  split.
  - intros u th' n [(-> & -> & Hm)|[_ Hu]]%(after_lookup c w t th e r x f w1) Hn; [rewrite Hm in Hn; by apply Hbt| |done..].
    destruct (Hb u th' n Hu Hn) as [Ho ->]. simpl. by destruct (action_open t e r w w1 x Hx Ho) as [-> ->].
  - intros u th' j [(-> & -> & Hm)|[_ Hu]]%(after_lookup c w t th e r x f w1) Hj; [| |done..].
    + rewrite Hm in *. destruct (action_drained t e r w w1 x (mon th) Hx j Hj) as [Hbe [Hj'|(-> & calls & n & Hcalls & Hn)]].
      * destruct (Hd t th j Ht Hj') as [[n Hbn] Hall]. rewrite Hbe. split; [eauto|]. intros v th' q Hv Hc.
        destruct (Hb t th n Ht Hbn) as [Ho _]. by eapply Hcool.
      * split; [by rewrite Hbe|]. destruct Hal as [m Hm']. destruct (Hb t th m Ht Hm') as [Ho _]. intros v th' q Hv Hc.
        eapply Hcool; [done..|]. intros u th'' q' Hu Hc'. exfalso.
        destruct (tb_count _ Htab _ _ _ Hcalls) as [-> _]. unfold claims_on in Hn.
        assert (th'' ∈ filter (λ th, pending_call j th = true) (w_threads w)) as Hin.
        { apply list_elem_of_filter. split; [unfold pending_call; rewrite Hc'; apply Nat.eqb_refl|]. by eapply list_elem_of_lookup_2. }
        destruct (filter _ (w_threads w)); [by apply elem_of_nil in Hin|simpl in Hn; lia].
    + destruct (Hd u th' j Hu Hj) as [[n Hbn] Hall]. split; [eauto|]. intros v th'' q Hv Hc. destruct (Hb u th' n Hu Hbn) as [Ho _]. by eapply Hcool.
  - simpl. intros u th' [(-> & -> & Hm)|[_ Hu]]%(after_lookup c w t th e r x f w1) Hre; [| |done..].
    + rewrite Hm in Hre. apply (action_settlement t e r w w1 x Hx).
      destruct (action_retries t e r w w1 x (mon th) Hx Hre) as [Hre'|?]; [|done]. by eapply Hr.
    + apply (action_settlement t e r w w1 x Hx). by eapply Hr.
  - intros Hset. assert (is_settled w1) as Hset1 by exact Hset.
    destruct (action_settles t e r w w1 x Hx Hset1) as [Hw|[(a & u & ->)|[(a & ->)|(a & u & ->)]]].
    + destruct (Hs Hw) as (u & th' & Hu & Hall). by eapply Hkeep.
    + by eapply Hkeep.
    + by eapply Hkeep.
    + destruct Hs as (v & th' & Hv & Hall); [left; by eapply Hr|]. by eapply Hkeep.
Qed.

(** ** All worlds *)

Lemma stray_spawned k w : no_stray (spawned sha256_hex c k w) → no_stray w.
Proof. intros H t th Ht. apply (H t). simpl. by apply lookup_app_l_Some. Qed.

Lemma stray_acts w w' : acts w w' → no_stray w' → no_stray w.
Proof.
  intros [t th e f r x w1 Ht Hp Hx] H u th' Hu.
  assert (t < length (w_threads w1))%nat as Hlt by (rewrite (perform_threads _ _ _ _ _ _ _ Hx); apply lookup_lt_is_Some; eauto).
  destruct (decide (u = t)) as [->|Hne].
  - rewrite Ht in Hu. injection Hu as <-. specialize (H t (MkThread (th_call th) (th_log th ++ [Ev e x]) (f x))).
    unfold after_call in H. simpl in H. rewrite list_lookup_insert_eq in H by done. specialize (H eq_refl). unfold mon in H. simpl in H.
    rewrite watch_snoc in H. destruct e; simpl in H; unfold upd in H; simpl in H; unfold beginning in H; try done; try (by repeat case_match).
    by apply orb_false_iff in H as [? _].
  - apply (H u). simpl. by rewrite list_lookup_insert_ne, (perform_threads _ _ _ _ _ _ _ Hx) by done.
Qed.

Lemma table_ok_spawned k w : table_ok w → table_ok (spawned sha256_hex c k w).
Proof.
  intros [Hc He Hu].
  assert (∀ u th j q, w_threads (spawned sha256_hex c k w) !! u = Some th → m_claim (mon th) = Some (j, q) → w_threads w !! u = Some th) as Hl.
  { intros u th j q [H|[_ ->]]%spawned_lookup Hm; done. }
  split.
  - intros j calls n Hj. assert (claims_on j (spawned sha256_hex c k w) = claims_on j w) as ->; [|by eapply Hc].
    unfold claims_on. simpl. rewrite filter_app, length_app. simpl. lia.
  - intros t th j q Ht Hm. destruct (He t th j q) as (calls & n & Hj & Hd); eauto.
  - intros a b tha thb j ra rb Ha Hb Hma Hmb. eapply Hu; eauto.
Qed.

Lemma quiet_spawned k w : quiet w → quiet (spawned sha256_hex c k w).
Proof.
  intros [Hb Hd Hr Hs]. split.
  - intros t th n [H|[_ ->]]%spawned_lookup Hm; [by eapply Hb|done].
  - intros t th j [H|[_ ->]]%spawned_lookup Hm; [|by apply elem_of_nil in Hm]. destruct (Hd t th j H Hm) as [? Hall]. split; [done|].
    intros u th' q [H'|[_ ->]]%spawned_lookup Hc; [by eapply Hall|done].
  - intros t th [H|[_ ->]]%spawned_lookup Hm; [by eapply Hr|done].
  - intros H. destruct (Hs H) as (t & th & Ht & Hall). exists t, th. split; [|done]. simpl. by apply lookup_app_l_Some.
Qed.

Lemma runs_quiet w : runs_to w → no_stray w → table_ok w ∧ quiet w.
Proof.
  intros Hr. cut (basic c w ∧ (no_stray w → table_ok w ∧ quiet w)); [by intros [_ H]|]. revert w Hr. apply runs_inv.
  - intros w Hw. split; [apply (runs_basic sha256_hex); exists w, []; done|]. apply world_new_Ok in Hw as [-> _]. intros _. split; split; try done.
    intros [[? ?]|[? ?]]; done.
  - intros k w [Hb H]. split; [by apply basic_spawned|]. intros [? ?]%stray_spawned%H. split; [by apply table_ok_spawned|by apply quiet_spawned].
  - intros w w' [Hb H] Ha. split; [by eapply basic_acts|]. intros Hns. destruct (H (stray_acts _ _ Ha Hns)).
    split; [by eapply table_ok_acts|by eapply quiet_acts].
Qed.

(** ** What settlement guarantees *)

(** The tool operations a thread asked of the adapter. *)
Definition tools (th : EpisodeThread) : list (nat * adapter_op) := omap obs_tool (th_log th).

Lemma settled_acts w w' : basic c w → table_ok w → quiet w → is_settled w → acts w w' →
  is_settled w' ∧ ∀ u th', w_threads w' !! u = Some th' → ∃ th, w_threads w !! u = Some th ∧ tools th' = tools th.
Proof.
  intros Hbasic Htab Hq Hset [t th e f r x w1 Ht Hp Hx]. split.
  - change (is_settled w1). clear Hp. destruct Hset as [H|H]; [left; by eapply action_settlement|right].
    destruct e; inv_perform Hx; try done; simpl; try done; by repeat case_match.
  - intros u th' [(-> & -> & Hm)|[_ Hu]]%(after_lookup c w t th e r x f w1); [|eauto|done..]. exists th. split; [done|].
    unfold tools. simpl. rewrite omap_app. simpl. destruct (obs_tool (Ev e x)) as [[j o]|] eqn:Ho; [exfalso|apply app_nil_r].
    assert (∃ q a, m_claim (mon th) = Some (j, q) ∧ m_auth (mon th) = Some a) as (q & a & Hc & Ha).
    { pose proof (about_to c w t th e f Hbasic Ht Hp) as Hal. unfold obs_tool in Ho. simpl in Ho.
      destruct e as [| | | | | | | | | | | | | | | | | | | | | | | | | | | |j' []| | | | |]; try done; simplify_eq;
        destruct Hal as [(q & a & ? & ? & _) _]; eauto. }
    destruct (q_settled _ Hq Hset) as (v & thv & Hv & n & Hbn & Hall). destruct (q_began _ Hq v thv n Hv Hbn) as [_ ->].
    destruct (tb_entry _ Htab t th j q Ht Hc) as (calls & n & Hj & _).
    assert (j < length (w_gateways w))%nat as Hlt.
    { unfold table in Hj. destruct (w_gateways w !! j) eqn:E; [|done]. by eapply lookup_lt_Some. }
    destruct (q_drained _ Hq v thv j Hv (Hall j Hlt)) as [_ Hcold]. destruct (Hcold t th q Ht Hc) as [Hn _]. congruence.
Qed.

Lemma acts_length w w' : acts w w' → length (w_threads w') = length (w_threads w).
Proof. intros [t th e f r x w1 Ht Hp Hx]. unfold after_call. simpl. by rewrite length_insert, (perform_threads _ _ _ _ _ _ _ Hx). Qed.

Lemma runs_to_step m w w' : runs_to w → episode_step sha256_hex c m w = Some w' → runs_to w'.
Proof.
  intros (w0 & ms & H0 & Hr) Hs. exists w0, (ms ++ [m]). split; [done|]. clear H0. revert w0 Hr.
  induction ms as [|m' ms IH]; simpl; intros w0 Hr; [simplify_eq; by rewrite Hs|].
  apply bind_Some in Hr as (w1 & H1 & Hr). rewrite H1. simpl. by apply IH.
Qed.

Lemma stray_run ms w w' : run sha256_hex c ms w = Some w' → no_stray w' → no_stray w.
Proof.
  revert w. induction ms as [|m ms IH]; simpl; intros w Hr Hns; [by simplify_eq|]. apply bind_Some in Hr as (w1 & H1 & Hr).
  pose proof (IH w1 Hr Hns) as H. apply step_cases in H1 as [[k ->]|Ha]; [by eapply stray_spawned|by eapply stray_acts].
Qed.

(** Only a submission whose claim was refused or interrupted can drop a claim it
    does not hold. *)
Lemma stray_was_refused w t th : runs_to w → w_threads w !! t = Some th → m_stray (mon th) = true → m_refused (mon th) = true.
Proof.
  intros Hr. revert t th. cut (basic c w ∧ ∀ t th, w_threads w !! t = Some th → m_stray (mon th) = true → m_refused (mon th) = true).
  { by intros [_ H]. }
  revert w Hr. apply runs_inv.
  - intros w Hw. split; [apply (runs_basic sha256_hex); exists w, []; done|]. apply world_new_Ok in Hw as [-> _]. done.
  - intros k w [Hb H]. split; [by apply basic_spawned|]. intros t th [Hu|[_ ->]]%spawned_lookup; [by eapply H|done].
  - intros w w' [Hb H] Ha. split; [by eapply basic_acts|]. destruct Ha as [t th e f rep x w1 Ht Hp Hx].
    intros u th' [(-> & -> & Hm)|[_ Hu]]%(after_lookup c w t th e rep x f w1) Hst; [|by eapply H|done..]. rewrite Hm in *.
    pose proof (about_to c w t th e f Hb Ht Hp) as Hal. pose proof (H t th Ht) as Hold. clear Hp Hm Hx f.
    destruct e; simpl in *; unfold beginning in *; try (by apply Hold); try (by repeat case_match; apply Hold).
    { destruct x; [by apply Hold..|done]. }
    apply orb_true_iff in Hst as [Hst|[_ Hn%bool_decide_eq_true]%andb_true_iff]; [by apply Hold|]. destruct Hal as [?|[_ ?]]; [congruence|done].
Qed.

(** C17: once an Episode Attachment is settled, verified or not, or
    released to its host, it stays so and no thread asks the adapter for a tool
    operation any more, whatever calls were under way or are submitted later:
    closing admission and draining the gateways catches all of them, as long
    as no submission drops a claim it does not hold. *)
Theorem settlement_fences_the_adapter ms w w' : runs_to w → is_settled w → run sha256_hex c ms w = Some w' → no_stray w' →
  is_settled w' ∧ ∀ t th', w_threads w' !! t = Some th' → tools th' = default [] (tools <$> w_threads w !! t).
Proof.
  intros Hr Hset Hrun Hns. revert w Hr Hset Hrun. induction ms as [|m ms IH]; simpl; intros w Hr Hset Hrun.
  { simplify_eq. split; [done|]. intros t th' Ht. by rewrite Ht. }
  apply bind_Some in Hrun as (w1 & H1 & Hrun). pose proof (runs_to_step _ _ _ Hr H1) as Hr1.
  assert (is_settled w1 ∧ ∀ t th', w_threads w1 !! t = Some th' → tools th' = default [] (tools <$> w_threads w !! t)) as [Hset1 Ht1].
  { pose proof H1 as Hst. apply step_cases in Hst as [[k ->]|Ha].
    - split; [exact Hset|]. intros t th' [Hu|[Hle ->]]%spawned_lookup; [by rewrite Hu|]. by rewrite lookup_ge_None_2.
    - assert (no_stray w) as Hns0 by (eapply (stray_run (m :: ms)); [simpl; by rewrite H1|done]).
      destruct (runs_quiet w Hr Hns0) as [Htab Hq].
      destruct (settled_acts w w1 (runs_basic sha256_hex _ _ Hr) Htab Hq Hset Ha) as [? Ht]. split; [done|].
      intros t th' (th & Hth & ->)%Ht. by rewrite Hth. }
  destruct (IH w1 Hr1 Hset1 Hrun) as [? Ht']. split; [done|]. intros t th' Hth. rewrite (Ht' t th' Hth).
  destruct (w_threads w1 !! t) as [th1|] eqn:E; simpl; [by apply Ht1|].
  apply lookup_ge_None in E. destruct (w_threads w !! t) as [th0|] eqn:E0; [|done]. exfalso. apply lookup_lt_Some in E0.
  apply step_cases in H1 as [[k ->]|Ha]; [simpl in E; rewrite length_app in E; lia|]. rewrite (acts_length _ _ Ha) in E. lia.
Qed.
End settlement.

#[local] Opaque run next.

(** ** Witnesses *)

(** A read that is under way when settlement begins, and settlement. *)
Definition demo_reading : list move :=
  [Spawn (NewGateway 8)] ++ tau 0 1 ++ [Spawn (OpenGrant demo_terms)] ++ tau 1 1 ++ [Spawn (Submit 0 demo_read)] ++
  tau 2 4 ++ [tick 2] ++ tau 2 2.

(** It returns to a closed fence: its result is refused. *)
Definition read_returns : list move := [Sched 2 (RData (Gave (DStr "x = 0")))] ++ tau 2 5.

Definition demo_settles (t : nat) : list move :=
  [Sched t (RUnit (Gave tt)); Sched t (RInt (Gave 0))] ++ tau t 1 ++
  [Sched t (RBytes (Gave "archive")); Sched t (RSettlement (Gave (MkBindingSettlement "motus-territory" "clean" true "gone")))] ++ tau t 2.

Definition demo_settled : list move := demo_reading ++ [Spawn Settle] ++ tau 3 1 ++ read_returns ++ demo_settles 3.

(** A write submitted after that. *)
Definition demo_late_call : list move := [Spawn (Submit 0 demo_write)] ++ tau 4 5.

Definition settledb (w : World) : bool := match at_settlement (w_att w) with Some s => bs_verified (as_settlement s) | None => false end.
Definition no_strayb (w : World) : bool := forallb (λ th, negb (m_stray (mon th))) (w_threads w).

Lemma no_strayb_spec w : no_strayb w = true → no_stray w.
Proof.
  unfold no_strayb. rewrite forallb_forall. intros H t th Ht%list_elem_of_lookup_2. apply list_elem_of_In in Ht. by apply negb_true_iff, H.
Qed.

Lemma settledb_spec w : settledb w = true → is_settled w.
Proof. unfold settledb. destruct (at_settlement (w_att w)) eqn:E; [|done]. left. rewrite E. eauto. Qed.

Lemma settlement_fences_the_adapter_witness :
  ∃ w w', runs_to demo_sha demo_config w ∧ is_settled w ∧ run demo_sha demo_config demo_late_call w = Some w' ∧
    tools <$> w_threads w !! 2%nat = Some [(0%nat, OpRead "src/a.py")] ∧
    ∀ t th', w_threads w' !! t = Some th' → tools th' = default [] (tools <$> w_threads w !! t).
Proof.
  assert ((λ w, (settledb w, tools <$> w_threads w !! 2%nat, no_strayb <$> run demo_sha demo_config demo_late_call w)) <$> demo_run demo_settled =
    Some (true, Some [(0%nat, OpRead "src/a.py")], Some true)) as H by (vm_compute; reflexivity).
  destruct (demo_run demo_settled) as [w|] eqn:E; [|discriminate H]. pose proof (demo_runs _ _ E) as Hr.
  cbn [fmap option_fmap option_map] in H. injection H as Hs Ht Hn. apply settledb_spec in Hs.
  destruct (run demo_sha demo_config demo_late_call w) as [w'|] eqn:E'; cbn [fmap option_fmap option_map] in Hn; [|discriminate Hn]. injection Hn as Hn.
  destruct (settlement_fences_the_adapter _ _ demo_late_call w w' Hr Hs E' (no_strayb_spec _ Hn)) as [_ Hall].
  exists w, w'. split; [exact Hr|]. split; [exact Hs|]. split; [exact E'|]. split; [exact Ht|exact Hall].
Defined.

(** ** A claim that is not its own *)

(** The same read submitted twice; the second waits for the first and is
    interrupted, and drops the first one's claim. *)
Definition demo_stray : list move :=
  demo_reading ++ [Spawn (Submit 0 demo_read)] ++ tau 3 1 ++ [Sched 3 (RUnit Broke)] ++ tau 3 1 ++ [Spawn Settle] ++ tau 4 1 ++ demo_settles 4.

(** Without [no_stray] settlement does not fence the adapter: a submission whose
    wait for an identical call is interrupted abandons that call's claim, the
    gateway drains with the call still under way, and a verified settlement is
    recorded while the call has yet to reach the territory. *)
Theorem interrupted_wait_escapes_settlement :
  ∃ w, runs_to demo_sha demo_config w ∧ settledb w = true ∧ next w 2 = Some (Adapter 0 (OpRead "src/a.py")).
Proof.
  assert ((λ w, (settledb w, next w 2)) <$> demo_run demo_stray = Some (true, Some (Adapter 0 (OpRead "src/a.py")))) as H
    by (vm_compute; reflexivity).
  destruct (demo_run demo_stray) as [w|] eqn:E; [|discriminate H]. exists w. split; [exact (demo_runs _ _ E)|].
  cbn [fmap option_fmap option_map] in H. injection H as H1 H2. split; [exact H1|exact H2].
Qed.

(** After a release that failed, settling points to a retry and a retry asks for
    a settlement: neither they, nor releasing again, nor a successor, nor a new
    gateway goes through. *)
Theorem failed_release_cannot_be_retried c a n k episode attachment : at_uncertain a = true → at_settlement a = None →
  settle_guard a n = Err (RuntimeError "retry settlement instead of settling again") ∧
  retry_guard a = Err (RuntimeError "retry requires a prior unverified settlement") ∧
  (∃ x, release_guard c a n = Err x) ∧ (∃ x, successor_guard c a episode attachment = Err x) ∧ ∃ x, gateway_guard a k n = Err x.
Proof.
  intros Hu Hs. unfold settle_guard, retry_guard, release_guard, successor_guard, gateway_guard, error. rewrite Hu, Hs. eauto 10.
Qed.
