(* ===== verification/ConnectionStorage.v ===== *)
(** * The custody state of agent connections
      (src/src/petrus/agenticus/connection/storage.py)

    The immutable snapshot of hosts, connections, leases and the audit of
    operations that a host store keeps under compare-and-swap, and the checks it
    refuses a snapshot by. Rows are kept sorted by their identities; a time is a
    count of clock ticks, a digest is a parameter. *)

From stdpp Require Import base gmap sets list strings sorting.
From Stdlib Require Import Ascii ZArith Lia.
From S2P Require Import Prelude PyData Schema AgentText.
Open Scope string_scope.
Open Scope list_scope.
Open Scope Z_scope.

Inductive ConnectionStatus := READY | REFRESHING | REVOKED | ERASURE_PENDING | REAUTHORIZATION_REQUIRED.
Inductive LeaseMode := LEASE_READ | LEASE_REFRESH.

#[export] Instance ConnectionStatus_eq_dec : EqDecision ConnectionStatus.
Proof. solve_decision. Defined.
#[export] Instance LeaseMode_eq_dec : EqDecision LeaseMode.
Proof. solve_decision. Defined.

Definition lease_mode_value (m : LeaseMode) : string := match m with LEASE_READ => "read" | LEASE_REFRESH => "refresh" end.

Record StoredHost := MkStoredHost { sh_id : string; sh_epoch : Z; sh_active : bool }.

Record StoredConnection := MkStoredConnection {
  sc_id : string;
  sc_provider : string;
  sc_account_fingerprint : string;
  sc_profile : string;
  sc_status : ConnectionStatus;
  sc_authority_epoch : Z;
  sc_state_version : Z;
  sc_encrypted_state : option string;
  sc_state_digest : option string
}.

Record StoredLease := MkStoredLease {
  sl_id : string;
  sl_attachment_id : string;
  sl_connection_id : string;
  sl_host_id : string;
  sl_host_epoch : Z;
  sl_mode : LeaseMode;
  sl_authority_epoch : Z;
  sl_base_version : Z;
  sl_expires_at : Z;
  sl_activated : bool;
  sl_released : bool;
  sl_release_reason : option string
}.

Record AuditRecord := MkAuditRecord {
  ar_sequence : Z;
  ar_operation_id : string;
  ar_event_kind : string;
  ar_connection_id : option string;
  ar_host_id : option string;
  ar_lease_id : option string;
  ar_details : list (string * Data)
}.

Record StorageSnapshot := MkStorageSnapshot {
  s_revision : Z;
  s_hosts : list StoredHost;
  s_connections : list StoredConnection;
  s_leases : list StoredLease;
  s_audit : list AuditRecord
}.

#[export] Instance StoredHost_eq_dec : EqDecision StoredHost.
Proof. solve_decision. Defined.
#[export] Instance StoredConnection_eq_dec : EqDecision StoredConnection.
Proof. solve_decision. Defined.
#[export] Instance StoredLease_eq_dec : EqDecision StoredLease.
Proof. solve_decision. Defined.

Definition empty_snapshot : StorageSnapshot := MkStorageSnapshot 0 [] [] [] [].

(** ** Rows by identity *)

(** [{row.id: row for row in rows}] *)
Definition index {A} (key : A → string) (l : list A) : dict string A := dict_of_list ((λ x, (key x, x)) <$> l).

(** [tuple(sorted(rows.values()))]; identities differ, so they decide. *)
Definition rows {A} (key : A → string) (d : dict string A) : list A := sorted_key key (dvals d).

(** ** Validation *)

Definition storage_error (msg : string) : exn := RuntimeError msg.

Definition unique (values : list string) (name : string) : result unit :=
  raise_if (negb (bool_decide (NoDup values))) (storage_error (name +:+ " must be unique")).

Definition stored_text_ok (s : string) : bool :=
  negb (str_empty s) && stripped s && str_forall (λ a, (32 <=? char_code a)%nat) s.

Definition stored_text (s name : string) : result unit :=
  raise_if (negb (stored_text_ok s)) (storage_error (name +:+ " must be a non-empty trimmed string")).

Definition stored_positive (z : Z) (name : string) : result unit :=
  raise_if (z <=? 0) (storage_error (name +:+ " must be a positive integer")).

Section validation.
Context (sha256_hex : string → string).

Definition validate_host (h : StoredHost) : result unit :=
  stored_text (sh_id h) "host identity";;
  stored_positive (sh_epoch h) "host enrollment epoch".

Definition validate_hosts (hosts : list StoredHost) : result unit :=
  unique (sh_id <$> hosts) "host identities";;
  raise_if (negb (bool_decide (hosts = sorted_key sh_id hosts))) (storage_error "connection custody hosts must be canonically ordered");;
  forM_ validate_host hosts.

Definition validate_ciphertext (c : StoredConnection) : result unit :=
  raise_if (negb (Bool.eqb (bool_decide (sc_encrypted_state c = None)) (bool_decide (sc_state_digest c = None))))
    (storage_error "encrypted connection state and digest must be present or absent together");;
  match sc_encrypted_state c with
  | None =>
      raise_if (negb (bool_decide (sc_status c ∈ [REAUTHORIZATION_REQUIRED; REVOKED; ERASURE_PENDING])))
        (storage_error "materializable connection state may not omit encrypted state")
  | Some state =>
      raise_if (str_empty state) (storage_error "encrypted connection state must be non-empty bytes");;
      raise_if (negb (bool_decide (sc_state_digest c = Some (sha256_hex state))))
        (storage_error "encrypted connection state digest does not match its bytes")
  end.

Definition validate_connection (c : StoredConnection) : result unit :=
  stored_text (sc_id c) "connection identity";;
  stored_text (sc_provider c) "provider identity";;
  stored_text (sc_account_fingerprint c) "account fingerprint";;
  stored_text (sc_profile c) "connection profile";;
  stored_positive (sc_authority_epoch c) "connection authority epoch";;
  stored_positive (sc_state_version c) "connection state version";;
  validate_ciphertext c.

Definition validate_connections (connections : list StoredConnection) : result unit :=
  unique (sc_id <$> connections) "connection identities";;
  raise_if (negb (bool_decide (connections = sorted_key sc_id connections))) (storage_error "connections must be canonically ordered");;
  forM_ validate_connection connections.

Definition validate_lease_value (l : StoredLease) : result unit :=
  stored_text (sl_id l) "lease identity";;
  stored_text (sl_attachment_id l) "attachment identity";;
  stored_text (sl_connection_id l) "lease connection identity";;
  stored_text (sl_host_id l) "lease host identity";;
  stored_positive (sl_host_epoch l) "lease host epoch";;
  stored_positive (sl_authority_epoch l) "lease authority epoch";;
  stored_positive (sl_base_version l) "lease base version";;
  raise_if (sl_activated l && negb (bool_decide (sl_mode l = LEASE_REFRESH))) (storage_error "only refresh custody may be activated");;
  raise_if (negb (Bool.eqb (sl_released l) (bool_decide (is_Some (sl_release_reason l)))))
    (storage_error "released materialization lease must carry exactly one release reason").

Definition validate_live_lease_authority (l : StoredLease) (h : StoredHost) (c : StoredConnection) : result unit :=
  raise_if (negb (sh_active h) || negb (sh_epoch h =? sl_host_epoch l))
    (storage_error "active materialization lease references stale host authority");;
  raise_if (negb (sc_authority_epoch c =? sl_authority_epoch l) || negb (sc_state_version c =? sl_base_version l))
    (storage_error "active materialization lease references stale connection authority").

Definition validate_lease (hosts : dict string StoredHost) (connections : dict string StoredConnection) (l : StoredLease) : result unit :=
  validate_lease_value l;;
  match dget (sl_host_id l) hosts, dget (sl_connection_id l) connections with
  | Some h, Some c => if sl_released l then Ok tt else validate_live_lease_authority l h c
  | _, _ => Err (storage_error "materialization lease references unknown authority")
  end.

(** The unreleased leases of a connection, and its refreshes among them. *)
Definition unreleased_of (c : string) (leases : list StoredLease) : list StoredLease :=
  filter (λ l, sl_connection_id l = c ∧ sl_released l = false) leases.
Definition refreshes (leases : list StoredLease) : list StoredLease := filter (λ l, sl_mode l = LEASE_REFRESH) leases.

Definition validate_active_leases (leases : list StoredLease) (kc : string * StoredConnection) : result unit :=
  let active := unreleased_of kc.1 leases in
  let refresh := refreshes active in
  let status := sc_status kc.2 in
  raise_if (negb (bool_decide (refresh = [])) && (negb (length refresh =? 1)%nat || negb (length active =? 1)%nat))
    (storage_error "refresh custody must be the only active materialization");;
  raise_if (negb (bool_decide (refresh = [])) && negb (bool_decide (status = REFRESHING)))
    (storage_error "active refresh custody requires refreshing connection state");;
  raise_if (bool_decide (refresh = []) && bool_decide (status = REFRESHING))
    (storage_error "refreshing connection state requires active refresh custody");;
  raise_if (negb (bool_decide (active = [])) && negb (bool_decide (status ∈ [READY; REFRESHING])))
    (storage_error "fail-closed connection state cannot retain active materializations").

Definition validate_leases (s : StorageSnapshot) : result unit :=
  unique (sl_id <$> s_leases s) "lease identities";;
  unique (sl_attachment_id <$> s_leases s) "attachment identities";;
  raise_if (negb (bool_decide (s_leases s = sorted_key sl_id (s_leases s)))) (storage_error "materialization leases must be canonically ordered");;
  let hosts := index sh_id (s_hosts s) in
  let connections := index sc_id (s_connections s) in
  forM_ (validate_lease hosts connections) (s_leases s);;
  forM_ (validate_active_leases (s_leases s)) connections.

(** A safe scalar; a float of this model is finite. *)
Definition audit_value (x : Data) : bool :=
  match x with DNone | DStr _ | DInt _ | DBool _ | DFloat _ _ => true | _ => false end.

Definition opt_stored_text (x : option string) : result unit :=
  match x with Some s => stored_text s "operation subject identity" | None => Ok tt end.

(** A record of [_validate_audit]; the details of a record have different names,
    which decide their order. *)
Definition validate_record (r : AuditRecord) : result unit :=
  stored_text (ar_operation_id r) "operation identity";;
  stored_text (ar_event_kind r) "operation event kind";;
  opt_stored_text (ar_connection_id r);; opt_stored_text (ar_host_id r);; opt_stored_text (ar_lease_id r);;
  raise_if (negb (bool_decide ((ar_details r).*1 = (sorted_key fst (ar_details r)).*1))) (storage_error "operation details must be canonically ordered");;
  raise_if (negb (forallb (λ kv, audit_value kv.2) (ar_details r))) (storage_error "operation details must contain safe scalar values").

Definition validate_audit (audit : list AuditRecord) : result unit :=
  unique (ar_operation_id <$> audit) "operation identities";;
  foldM (λ expected r,
    raise_if (negb (ar_sequence r =? expected)) (storage_error "custody operation records must have dense canonical sequences");;
    validate_record r;; Ok (expected + 1)) 1 audit;;
  Ok tt.

Definition validate_snapshot (s : StorageSnapshot) : result StorageSnapshot :=
  raise_if (s_revision s <? 0) (storage_error "connection custody revision must be a nonnegative integer");;
  raise_if (negb (s_revision s =? Z.of_nat (length (s_audit s)))) (storage_error "connection custody revision must equal its operation count");;
  validate_hosts (s_hosts s);;
  validate_connections (s_connections s);;
  validate_leases s;;
  validate_audit (s_audit s);;
  Ok s.
End validation.
