(* ===== verification/ConnectionCustody.v ===== *)
(** * Agent connection custody (src/src/petrus/agenticus/connection/custody.py)

    Every operation as a program over the host's storage, keys, files and clock;
    what it publishes is a pure change of the snapshot it loaded, committed by
    compare-and-swap. Any number of custodians, each a thread, share one store. *)

From stdpp Require Import base gmap sets list strings sorting.
From Stdlib Require Import Ascii ZArith Lia.
From S2P Require Import Prelude PyData Schema AgentText Programs ConnectionStorage.
Open Scope string_scope.
Open Scope list_scope.
Open Scope Z_scope.

Definition CAS_ATTEMPTS : nat := 8.

(** ** Values *)

Record ConnectionIdentity := MkConnectionIdentity {
  ci_connection_id : string;
  ci_provider : string;
  ci_account_fingerprint : string;
  ci_profile : string
}.

(** [ConnectionIdentity.__post_init__] *)
Definition identity_ok (i : ConnectionIdentity) : bool :=
  text_ok (ci_connection_id i) && text_ok (ci_provider i) && text_ok (ci_account_fingerprint i) && text_ok (ci_profile i).

Record ConnectionView := MkConnectionView {
  cv_identity : ConnectionIdentity;
  cv_status : ConnectionStatus;
  cv_authority_epoch : Z;
  cv_state_version : Z;
  cv_state_digest : option string
}.

Record AttachmentFence := MkAttachmentFence {
  af_attachment_id : string;
  af_lease_id : string;
  af_connection_id : string;
  af_host_id : string;
  af_host_epoch : Z;
  af_authority_epoch : Z;
  af_base_version : Z
}.

(** The home is the file of the fence's attachment. *)
Record Materialization := MkMaterialization { mt_fence : AttachmentFence; mt_mode : LeaseMode; mt_expires_at : Z }.

Record CleanupEvidence := MkCleanupEvidence {
  ce_removed : bool;
  ce_already_absent : bool;
  ce_bytes_overwritten : Z;
  ce_security_violation : bool
}.

Record CleanupSummary := MkCleanupSummary {
  cu_attempted : Z;
  cu_removed : Z;
  cu_already_absent : Z;
  cu_unresolved : Z;
  cu_security_violations : Z
}.

Record KeyContext := MkKeyContext { kc_connection_id : string; kc_authority_epoch : Z; kc_state_version : Z }.

Record OperationView := MkOperationView {
  ov_operation_id : string;
  ov_event_kind : string;
  ov_connection_id : option string;
  ov_host_id : option string;
  ov_lease_id : option string;
  ov_details : list (string * Data)
}.

(** A change of a snapshot: its value, the details of its record and the
    attachments whose files are to go. *)
Record Change (T : Type) := MkChange {
  ch_snapshot : StorageSnapshot;
  ch_value : T;
  ch_details : list (string * Data);
  ch_cleanup : list string
}.
Arguments MkChange {T}.
Arguments ch_snapshot {T}.
Arguments ch_value {T}.
Arguments ch_details {T}.
Arguments ch_cleanup {T}.

Record Committed (T : Type) := MkCommitted { cm_value : T; cm_cleanup : CleanupSummary }.
Arguments MkCommitted {T}.
Arguments cm_value {T}.
Arguments cm_cleanup {T}.

Definition custody_error (msg : string) : exn := RuntimeError msg.
Definition reauthorization_required : exn := custody_error "connection requires explicit reauthorization".
Definition stale_custody : exn := custody_error "lease is no longer current for connection".

(** ** Rows of a snapshot *)

Definition hosts_of (s : StorageSnapshot) : dict string StoredHost := index sh_id (s_hosts s).
Definition connections_of (s : StorageSnapshot) : dict string StoredConnection := index sc_id (s_connections s).
Definition leases_of (s : StorageSnapshot) : dict string StoredLease := index sl_id (s_leases s).

Definition replace_hosts (s : StorageSnapshot) (d : dict string StoredHost) : StorageSnapshot :=
  MkStorageSnapshot (s_revision s) (rows sh_id d) (s_connections s) (s_leases s) (s_audit s).
Definition replace_leases (s : StorageSnapshot) (d : dict string StoredLease) : StorageSnapshot :=
  MkStorageSnapshot (s_revision s) (s_hosts s) (s_connections s) (rows sl_id d) (s_audit s).
Definition replace_connection (s : StorageSnapshot) (c : StoredConnection) : StorageSnapshot :=
  MkStorageSnapshot (s_revision s) (s_hosts s) (rows sc_id (dset (sc_id c) c (connections_of s))) (s_leases s) (s_audit s).

Definition active_host (s : StorageSnapshot) (host : string) : result StoredHost :=
  match dget host (hosts_of s) with
  | Some h => if sh_active h then Ok h else Err (custody_error "host is not enrolled")
  | None => Err (custody_error "host is not enrolled")
  end.

Definition connection_row (s : StorageSnapshot) (connection : string) : result StoredConnection :=
  or_raise (dget connection (connections_of s)) (custody_error "connection does not exist").

Definition with_status (status : ConnectionStatus) (c : StoredConnection) : StoredConnection :=
  MkStoredConnection (sc_id c) (sc_provider c) (sc_account_fingerprint c) (sc_profile c) status (sc_authority_epoch c)
    (sc_state_version c) (sc_encrypted_state c) (sc_state_digest c).

Definition with_generation (status : ConnectionStatus) (epoch version : Z) (state digest : option string) (c : StoredConnection) : StoredConnection :=
  MkStoredConnection (sc_id c) (sc_provider c) (sc_account_fingerprint c) (sc_profile c) status epoch version state digest.

Definition released_lease (reason : string) (l : StoredLease) : StoredLease :=
  MkStoredLease (sl_id l) (sl_attachment_id l) (sl_connection_id l) (sl_host_id l) (sl_host_epoch l) (sl_mode l)
    (sl_authority_epoch l) (sl_base_version l) (sl_expires_at l) (sl_activated l) true (Some reason).
Definition activated_lease (l : StoredLease) : StoredLease :=
  MkStoredLease (sl_id l) (sl_attachment_id l) (sl_connection_id l) (sl_host_id l) (sl_host_epoch l) (sl_mode l)
    (sl_authority_epoch l) (sl_base_version l) (sl_expires_at l) true (sl_released l) (sl_release_reason l).
Definition renewed_lease (expires_at : Z) (l : StoredLease) : StoredLease :=
  MkStoredLease (sl_id l) (sl_attachment_id l) (sl_connection_id l) (sl_host_id l) (sl_host_epoch l) (sl_mode l)
    (sl_authority_epoch l) (sl_base_version l) expires_at (sl_activated l) (sl_released l) (sl_release_reason l).

(** [_active_leases] of a host or of a connection *)
Definition active_leases (s : StorageSnapshot) (now : Z) (mine : StoredLease → bool) : list StoredLease :=
  filter (λ l, negb (sl_released l) && (now <? sl_expires_at l) && mine l = true) (s_leases s).

Definition release_leases (s : StorageSnapshot) (selected : list StoredLease) (reason : string) : StorageSnapshot :=
  match selected with
  | [] => s
  | _ => replace_leases s (foldl (λ d l, dset (sl_id l) (released_lease reason l) d) (leases_of s) selected)
  end.

Definition sorted_identities (l : list string) : list string := sorted_key id (remove_dups l).

(** The connection of a released refresh, settled: an activated refresh leaves
    its state ambiguous. *)
Definition settled_connection (ambiguous : bool) (c : StoredConnection) : StoredConnection :=
  if ambiguous then with_generation REAUTHORIZATION_REQUIRED (sc_authority_epoch c + 1) (sc_state_version c) None None c
  else with_status READY c.

Definition settle_one (ambiguous : list string) (s : StorageSnapshot) (connection : string) : result StorageSnapshot :=
  c ← connection_row s connection;
  Ok (if bool_decide (sc_status c = REFRESHING) then replace_connection s (settled_connection (bool_decide (connection ∈ ambiguous)) c) else s).

Definition settle_released_refreshes (s : StorageSnapshot) (released : list StoredLease) : result (StorageSnapshot * list string) :=
  let ids := sorted_identities (sl_connection_id <$> refreshes released) in
  let ambiguous := sorted_identities (sl_connection_id <$> filter (λ l, sl_activated l = true) released) in
  updated ← foldM (settle_one ambiguous) s ids;
  Ok (updated, ambiguous).

Definition expired_leases (s : StorageSnapshot) (now : Z) : list StoredLease :=
  filter (λ l, negb (sl_released l) && (sl_expires_at l <=? now) = true) (s_leases s).

Definition reconcile_expired (s : StorageSnapshot) (now : Z) : result (StorageSnapshot * list string * list string) :=
  let expired := expired_leases s now in
  '(updated, ambiguous) ← settle_released_refreshes (release_leases s expired "expired") expired;
  Ok (updated, sl_attachment_id <$> expired, ambiguous).

Definition lease_matches (l : StoredLease) (f : AttachmentFence) : bool :=
  String.eqb (sl_attachment_id l) (af_attachment_id f) && String.eqb (sl_connection_id l) (af_connection_id f)
  && String.eqb (sl_host_id l) (af_host_id f) && (sl_host_epoch l =? af_host_epoch f)
  && (sl_authority_epoch l =? af_authority_epoch f) && (sl_base_version l =? af_base_version f).

Definition require_current_lease (s : StorageSnapshot) (f : AttachmentFence) (now : Z) (mode : LeaseMode) : result StoredLease :=
  match dget (af_lease_id f) (leases_of s), dget (af_host_id f) (hosts_of s) with
  | Some l, Some h =>
      if negb (sh_active h) || negb (sh_epoch h =? af_host_epoch f) || sl_released l || (sl_expires_at l <=? now)
         || negb (bool_decide (sl_mode l = mode)) || negb (lease_matches l f)
      then Err stale_custody else Ok l
  | _, _ => Err stale_custody
  end.

Definition attachment_is_current (s : StorageSnapshot) (f : AttachmentFence) (now : Z) : bool :=
  match dget (af_lease_id f) (leases_of s) with
  | Some l =>
      match require_current_lease s f now (sl_mode l), connection_row s (af_connection_id f) with
      | Ok l, Ok c =>
          lease_matches l f && bool_decide (sc_status c ∈ [READY; REFRESHING])
          && (sc_authority_epoch c =? af_authority_epoch f) && (sc_state_version c =? af_base_version f)
      | _, _ => false
      end
  | None => false
  end.

Definition fence_of (l : StoredLease) : AttachmentFence :=
  MkAttachmentFence (sl_attachment_id l) (sl_id l) (sl_connection_id l) (sl_host_id l) (sl_host_epoch l) (sl_authority_epoch l)
    (sl_base_version l).

Definition connection_view (c : StoredConnection) : ConnectionView :=
  MkConnectionView (MkConnectionIdentity (sc_id c) (sc_provider c) (sc_account_fingerprint c) (sc_profile c)) (sc_status c)
    (sc_authority_epoch c) (sc_state_version c) (sc_state_digest c).

Definition same_connection_generation (x y : option StoredConnection) : bool :=
  match x, y with
  | Some x, Some y =>
      String.eqb (sc_id x) (sc_id y) && bool_decide (sc_status x = sc_status y) && (sc_authority_epoch x =? sc_authority_epoch y)
      && (sc_state_version x =? sc_state_version y) && bool_decide (sc_state_digest x = sc_state_digest y)
  | None, None => true
  | _, _ => false
  end.

Definition identity_matches (c : StoredConnection) (i : ConnectionIdentity) : bool :=
  String.eqb (sc_id c) (ci_connection_id i) && String.eqb (sc_provider c) (ci_provider i)
  && String.eqb (sc_account_fingerprint c) (ci_account_fingerprint i) && String.eqb (sc_profile c) (ci_profile i).

Definition require_materializable (c : StoredConnection) : result unit :=
  match sc_status c with
  | REVOKED | ERASURE_PENDING | REAUTHORIZATION_REQUIRED => Err reauthorization_required
  | REFRESHING => Err (custody_error "connection already has refresh custody")
  | READY => raise_if (bool_decide (sc_encrypted_state c = None)) reauthorization_required
  end.

(** ** Changes *)

Definition count {A} (l : list A) : Data := DInt (Z.of_nat (length l)).

(** A float that counts clock ticks. *)
Definition time_data (t : Z) : Data := let '(m, e) := float_norm t 0 in DFloat m e.

Definition enroll_change (host : string) (now : Z) (s : StorageSnapshot) : result (Change unit) :=
  '(reconciled, expired_ids, ambiguous) ← reconcile_expired s now;
  let epoch := match dget host (hosts_of reconciled) with Some h => sh_epoch h + 1 | None => 1 end in
  let affected := active_leases reconciled now (λ l, String.eqb (sl_host_id l) host) in
  let updated := replace_hosts reconciled (dset host (MkStoredHost host epoch true) (hosts_of reconciled)) in
  '(updated, newly_ambiguous) ← settle_released_refreshes (release_leases updated affected "host_reenrolled") affected;
  Ok (MkChange updated tt
    [("enrollment_epoch", DInt epoch); ("canceled_leases", count affected); ("expired_leases", count expired_ids);
     ("ambiguous_connections", count (remove_dups (ambiguous ++ newly_ambiguous)))]
    (expired_ids ++ (sl_attachment_id <$> affected))).

Definition remove_change (host : string) (now : Z) (s : StorageSnapshot) : result (Change Z) :=
  '(reconciled, expired_ids, _) ← reconcile_expired s now;
  h ← active_host reconciled host;
  let affected := active_leases reconciled now (λ l, String.eqb (sl_host_id l) host) in
  let updated := replace_hosts reconciled (dset host (MkStoredHost (sh_id h) (sh_epoch h + 1) false) (hosts_of reconciled)) in
  '(updated, ambiguous) ← settle_released_refreshes (release_leases updated affected "host_removed") affected;
  Ok (MkChange updated (Z.of_nat (length affected))
    [("canceled_leases", count affected); ("ambiguous_connections", count ambiguous); ("offline_erasure_limit", DBool true)]
    (expired_ids ++ (sl_attachment_id <$> affected))).

Section operations.
Context (sha256_hex : string → string).

(** The epoch, the version and the event of an authorization. *)
Definition authorization_plan (i : ConnectionIdentity) (current : option StoredConnection) : result (Z * Z * string) :=
  match current with
  | None => Ok (1, 1, "connection.authorized")
  | Some c =>
      raise_if (negb (bool_decide (sc_status c = REAUTHORIZATION_REQUIRED))) (custody_error "connection is already authorized");;
      raise_if (negb (identity_matches c i)) (custody_error "connection cannot be rebound to different provider authority");;
      Ok (sc_authority_epoch c + 1, sc_state_version c + 1, "connection.reauthorized")
  end.

Definition authorized_row (i : ConnectionIdentity) (epoch version : Z) (encrypted : string) : StoredConnection :=
  MkStoredConnection (ci_connection_id i) (ci_provider i) (ci_account_fingerprint i) (ci_profile i) READY epoch version
    (Some encrypted) (Some (sha256_hex encrypted)).

Definition authorize_change (i : ConnectionIdentity) (current : option StoredConnection) (epoch version : Z) (encrypted : string)
    (s : StorageSnapshot) : result (Change ConnectionView) :=
  raise_if (negb (same_connection_generation (dget (ci_connection_id i) (connections_of s)) current))
    (custody_error "connection changed during authorization");;
  let stored := authorized_row i epoch version encrypted in
  Ok (MkChange (replace_connection s stored) (connection_view stored) [("authority_epoch", DInt epoch); ("state_version", DInt version)] []).

Definition acquire_change (connection host : string) (mode : LeaseMode) (now expires_at : Z) (lease attachment : string)
    (s : StorageSnapshot) : result (Change (StoredConnection * StoredLease)) :=
  '(reconciled, expired_ids, ambiguous) ← reconcile_expired s now;
  h ← active_host reconciled host;
  c ← connection_row reconciled connection;
  require_materializable c;;
  raise_if (bool_decide (mode = LEASE_REFRESH)
            && negb (bool_decide (active_leases reconciled now (λ l, String.eqb (sl_connection_id l) connection) = [])))
    (custody_error "connection cannot grant refresh custody while materializations are active");;
  let l := MkStoredLease lease attachment connection host (sh_epoch h) mode (sc_authority_epoch c) (sc_state_version c) expires_at
             false false None in
  let updated := replace_leases reconciled (dset lease l (leases_of reconciled)) in
  let updated := if bool_decide (mode = LEASE_REFRESH) then replace_connection updated (with_status REFRESHING c) else updated in
  Ok (MkChange updated (c, l)
    [("mode", DStr (lease_mode_value mode)); ("authority_epoch", DInt (sc_authority_epoch c)); ("base_version", DInt (sc_state_version c));
     ("expired_leases", count expired_ids); ("ambiguous_connections", count ambiguous)] expired_ids).

Definition activate_change (f : AttachmentFence) (now : Z) (s : StorageSnapshot) : result (Change unit) :=
  l ← require_current_lease s f now LEASE_REFRESH;
  Ok (MkChange (replace_leases s (dset (sl_id l) (activated_lease l) (leases_of s))) tt
    [("authority_epoch", DInt (af_authority_epoch f))] []).

Definition renew_change (f : AttachmentFence) (mode : LeaseMode) (ttl now : Z) (s : StorageSnapshot) : result (Change Z) :=
  active_host s (af_host_id f);;
  l ← require_current_lease s f now mode;
  Ok (MkChange (replace_leases s (dset (sl_id l) (renewed_lease (now + ttl) l) (leases_of s))) (now + ttl)
    [("expires_at", time_data (now + ttl))] []).

Definition checkpoint_change (f : AttachmentFence) (encrypted : string) (now : Z) (s : StorageSnapshot) : result (Change ConnectionView) :=
  l ← require_current_lease s f now LEASE_REFRESH;
  c ← connection_row s (af_connection_id f);
  raise_if (negb (sl_activated l) || negb (sc_authority_epoch c =? af_authority_epoch f) || negb (sc_state_version c =? af_base_version f)
            || negb (bool_decide (sc_status c = REFRESHING))) stale_custody;;
  let accepted := with_generation READY (sc_authority_epoch c) (af_base_version f + 1) (Some encrypted) (Some (sha256_hex encrypted)) c in
  let updated := replace_leases s (dset (sl_id l) (released_lease "checkpointed" l) (leases_of s)) in
  Ok (MkChange (replace_connection updated accepted) (connection_view accepted)
    [("base_version", DInt (af_base_version f)); ("accepted_version", DInt (af_base_version f + 1))] []).

Definition release_change (f : AttachmentFence) (mode : LeaseMode) (now : Z) (s : StorageSnapshot) : result (Change unit) :=
  '(updated, expired_ids, _) ← reconcile_expired s now;
  match dget (af_lease_id f) (leases_of updated) with
  | Some l =>
      raise_if (negb (lease_matches l f) || negb (bool_decide (sl_mode l = mode))) stale_custody;;
      if sl_released l
      then Ok (MkChange updated tt [("already_settled", DBool true); ("mode", DStr (lease_mode_value mode))] expired_ids)
      else
        require_current_lease updated f now mode;;
        '(updated, ambiguous) ← settle_released_refreshes (release_leases updated [l] "released") [l];
        Ok (MkChange updated tt [("mode", DStr (lease_mode_value mode)); ("ambiguous_refresh", DBool (negb (bool_decide (ambiguous = []))))] expired_ids)
  | None => Err stale_custody
  end.

(** The change of [_replace_authority], from the connection loaded before. *)
Definition rotate_change (connection : string) (current : StoredConnection) (encrypted : string) (s : StorageSnapshot) : result (Change ConnectionView) :=
  c ← connection_row s connection;
  raise_if (negb (same_connection_generation (Some c) (Some current))) (custody_error "connection changed during rotation");;
  let unsettled := unreleased_of connection (s_leases s) in
  let epoch := sc_authority_epoch current + 1 in
  let version := sc_state_version current + 1 in
  let rotated := with_generation READY epoch version (Some encrypted) (Some (sha256_hex encrypted)) c in
  Ok (MkChange (replace_connection (release_leases s unsettled "authority_rotated") rotated) (connection_view rotated)
    [("authority_epoch", DInt epoch); ("state_version", DInt version); ("canceled_leases", count unsettled)]
    (sl_attachment_id <$> unsettled)).

Definition revoke_change (connection : string) (s : StorageSnapshot) : result (Change ConnectionView) :=
  c ← connection_row s connection;
  raise_if (bool_decide (sc_status c ∈ [REVOKED; ERASURE_PENDING])) reauthorization_required;;
  let unsettled := unreleased_of connection (s_leases s) in
  let revoked := with_generation REVOKED (sc_authority_epoch c + 1) (sc_state_version c) (sc_encrypted_state c) (sc_state_digest c) c in
  Ok (MkChange (replace_connection (release_leases s unsettled "connection_revoked") revoked) (connection_view revoked)
    [("authority_epoch", DInt (sc_authority_epoch revoked)); ("canceled_leases", count unsettled);
     ("provider_revocation", DStr "not_claimed"); ("offline_erasure_limit", DBool true)]
    (sl_attachment_id <$> unsettled)).

Definition prepare_change (connection : string) (s : StorageSnapshot) : result (Change unit) :=
  c ← connection_row s connection;
  raise_if (negb (bool_decide (sc_status c = REVOKED))) (custody_error "connection is not revoked");;
  Ok (MkChange (replace_connection s (with_status ERASURE_PENDING c)) tt [("state_version", DInt (sc_state_version c))] []).

Definition finish_change (connection : string) (key_erased : bool) (s : StorageSnapshot) : result (Change ConnectionView) :=
  c ← connection_row s connection;
  raise_if (negb (bool_decide (sc_status c = ERASURE_PENDING))) (custody_error "connection is not awaiting erasure");;
  let active := unreleased_of connection (s_leases s) in
  let erased := with_generation REAUTHORIZATION_REQUIRED (sc_authority_epoch c) (sc_state_version c + 1) None None c in
  Ok (MkChange (replace_connection (release_leases s active "connection_erased") erased) (connection_view erased)
    [("state_version", DInt (sc_state_version erased)); ("key_erased", DBool key_erased); ("physical_media_erasure_guaranteed", DBool false)]
    (sl_attachment_id <$> active)).

Definition recover_change (now : Z) (s : StorageSnapshot) : result (Change (Z * list string)) :=
  '(updated, expired_ids, ambiguous) ← reconcile_expired s now;
  Ok (MkChange updated (Z.of_nat (length expired_ids), ambiguous)
    [("expired_leases", count expired_ids); ("ambiguous_connections", count ambiguous)]
    (sl_attachment_id <$> filter (λ l, sl_released l = true) (s_leases updated))).

Definition admit_change (purpose : string) (f : AttachmentFence) (now : Z) (s : StorageSnapshot) : result (Change unit) :=
  raise_if (negb (attachment_is_current s f now)) (custody_error (purpose +:+ " rejected: attachment is stale"));;
  Ok (MkChange s tt [("authority_epoch", DInt (af_authority_epoch f))] []).

(** The change of [_reconcile_expired_before] *)
Definition reconcile_change (now : Z) (s : StorageSnapshot) : result (Change unit) :=
  '(updated, expired_ids, ambiguous) ← reconcile_expired s now;
  Ok (MkChange updated tt [("expired_leases", count expired_ids); ("ambiguous_connections", count ambiguous)] expired_ids).

(** The change of [_abort_materialization] *)
Definition abort_change (lease : string) (s : StorageSnapshot) : result (Change unit) :=
  match dget lease (leases_of s) with
  | Some l =>
      if sl_released l then Ok (MkChange s tt [("already_settled", DBool true)] [])
      else
        '(updated, ambiguous) ← settle_released_refreshes (release_leases s [l] "materialization_failed") [l];
        Ok (MkChange updated tt [("ambiguous_refresh", DBool (negb (bool_decide (ambiguous = []))))] [sl_attachment_id l])
  | None => Ok (MkChange s tt [("already_settled", DBool true)] [])
  end.

(** ** Programs *)

(** The host's storage, clock, keys and files, and the caller's buffer. *)
Inductive custody_eff :=
| SLoad
| SCas (expected : Z) (replacement : StorageSnapshot)
| CClock
| KSeal (k : KeyContext) (plaintext : string)
| KOpen (k : KeyContext) (ciphertext : string)
| KErase (connection : string)
| OErase
| FMaterialize (attachment plaintext : string)
| FRead (attachment : string)
| FCleanup (attachment : string).

Definition custody_ans (e : custody_eff) : Type :=
  match e with
  | SLoad => ext StorageSnapshot
  | SCas _ _ => ext bool
  | CClock => ext Z
  | KSeal _ _ | KOpen _ _ | FRead _ => ext string
  | KErase _ => ext bool
  | OErase => unit
  | FMaterialize _ _ => ext unit
  | FCleanup _ => ext CleanupEvidence
  end.

Notation cprog := (prog custody_ans).

Definition C (A : Type) : Type := cprog (call_outcome A).

#[export] Instance C_ret : MRet C := λ A a, Ret (Value a).
#[export] Instance C_bind : MBind C := λ A B, and_then.

Definition perform_act (e : custody_eff) : C (custody_ans e) := act e.
Definition raise_exn {A} (e : exn) : C A := raises (AnException e).
Definition checked {A} (r : result A) : C A := lift r.

Definition called {A} (e : custody_eff) (view : custody_ans e → ext A) : C A := x ← perform_act e; call_out type_error (view x).

Definition load : C StorageSnapshot :=
  x ← perform_act SLoad;
  s ← call_out (raise_exn (storage_error "connection storage must return StorageSnapshot")) x;
  checked (validate_snapshot sha256_hex s).

Definition now_ : C Z :=
  x ← perform_act CClock; call_out (raise_exn (ValueError "custody clock must be a finite number")) x.

Definition count_if (p : CleanupEvidence → bool) (l : list CleanupEvidence) : Z := Z.of_nat (length (filter (λ e, p e = true) l)).

Fixpoint cleanups (attachments : list string) : C (list CleanupEvidence) :=
  match attachments with
  | [] => mret []
  | a :: l => e ← called (FCleanup a) id; es ← cleanups l; mret (e :: es)
  end.

(** [PrivateFileMaterializer.summarize] *)
Definition summarize (attachments : list string) : C CleanupSummary :=
  es ← cleanups attachments;
  mret (MkCleanupSummary (Z.of_nat (length es)) (count_if ce_removed es) (count_if ce_already_absent es)
    (count_if (λ e, negb (ce_removed e) && negb (ce_already_absent e)) es) (count_if ce_security_violation es)).

Definition ascii_lower (a : ascii) : ascii :=
  if in_range 65 90 (char_code a) then Ascii.ascii_of_nat (char_code a + 32) else a.
Fixpoint lower (s : string) : string := match s with EmptyString => EmptyString | String a s => String (ascii_lower a) (lower s) end.
Fixpoint infix (w s : string) : bool :=
  startswith w s || match s with EmptyString => false | String _ s => infix w s end.

Definition unsafe_parts : list string := ["token"; "secret"; "password"; "home"; "key_material"].

(** [_audit_details] *)
Definition audit_details (details : list (string * Data)) : result (list (string * Data)) :=
  forM_ (λ kv,
    raise_if (existsb (λ part, infix part (lower kv.1)) unsafe_parts) (ValueError "audit detail is not safe metadata");;
    raise_if (negb (audit_value kv.2)) (TypeError "audit detail must be a safe scalar")) details;;
  Ok (sorted_key fst details).

Record Subject := MkSubject { su_connection_id : option string; su_host_id : option string; su_lease_id : option string }.

Definition no_subject : Subject := MkSubject None None None.
Definition host_subject (host : string) : Subject := MkSubject None (Some host) None.
Definition connection_subject (connection : string) : Subject := MkSubject (Some connection) None None.
Definition fence_subject (f : AttachmentFence) : Subject :=
  MkSubject (Some (af_connection_id f)) (Some (af_host_id f)) (Some (af_lease_id f)).

(** [tuple(dict.fromkeys(l))] *)
Definition first_seen (l : list string) : list string := dkeys (dict_of_list ((λ x, (x, tt)) <$> l)).

(** The replacement a commit of a change to a snapshot publishes. *)
Definition publication {T} (operation event : string) (su : Subject) (s : StorageSnapshot) (c : Change T) (details : list (string * Data)) : StorageSnapshot :=
  MkStorageSnapshot (s_revision s + 1) (s_hosts (ch_snapshot c)) (s_connections (ch_snapshot c)) (s_leases (ch_snapshot c))
    (s_audit (ch_snapshot c) ++
     [MkAuditRecord (Z.of_nat (length (s_audit s)) + 1) operation event (su_connection_id su) (su_host_id su) (su_lease_id su) details]).

Definition published_already (operation : string) (s : StorageSnapshot) : bool :=
  existsb (λ r, String.eqb (ar_operation_id r) operation) (s_audit s).

Fixpoint commit_loop {T} (attempts : nat) (operation event : string) (transform : StorageSnapshot → C (Change T)) (su : Subject) : C (Committed T) :=
  match attempts with
  | 0%nat => raise_exn (custody_error "operation could not publish after bounded CAS retries")
  | S attempts =>
      snapshot ← load;
      if published_already operation snapshot
      then raise_exn (custody_error "operation is already published; reconcile it through lookup_operation")
      else
        change ← transform snapshot;
        details ← checked (audit_details (ch_details change));
        ok ← called (SCas (s_revision snapshot) (publication operation event su snapshot change details)) id;
        if ok : bool
        then cleanup ← summarize (first_seen (ch_cleanup change)); mret (MkCommitted (ch_value change) cleanup)
        else commit_loop attempts operation event transform su
  end.

(** [_commit] *)
Definition custody_commit {T} (operation event : string) (transform : StorageSnapshot → C (Change T)) (su : Subject) : C (Committed T) :=
  checked (text operation);;
  commit_loop CAS_ATTEMPTS operation event transform su.

(** A transform that reads the clock. *)
Definition at_now {T} (change : Z → StorageSnapshot → result (Change T)) (s : StorageSnapshot) : C (Change T) :=
  now ← now_; checked (change now s).
Definition at_once {T} (change : StorageSnapshot → result (Change T)) (s : StorageSnapshot) : C (Change T) := checked (change s).

(** The caller's opaque state: what it holds, or that it was erased. *)
Definition OpaqueState : Type := option string.
Definition borrow (state : OpaqueState) : result string := or_raise state (custody_error "opaque Agent Connection state has been erased").

(** [KeyContext.__post_init__] *)
Definition key_context (connection : string) (epoch version : Z) : result KeyContext :=
  raise_if (str_empty connection) (ValueError "key context connection identity must not be empty");;
  raise_if (epoch <=? 0) (ValueError "key context authority epoch must be a positive integer");;
  raise_if (version <=? 0) (ValueError "key context state version must be a positive integer");;
  Ok (MkKeyContext connection epoch version).

(** [_seal] of the caller's state, which is erased on every way out *)
Definition seal_state (connection : string) (epoch version : Z) (state : OpaqueState) : C string :=
  finally (k ← checked (key_context connection epoch version); content ← checked (borrow state); called (KSeal k content) id) OErase.

Definition hash_suffix (operation : string) : string := String.substring 0 32 (sha256_hex operation).

Definition erase_caller : C unit := perform_act OErase.

(** [try: p except: erase; raise], for the refusals before sealing *)
Definition erasing {A} (r : result A) : C A := match r with Ok a => mret a | Err e => erase_caller;; raise_exn e end.

Definition positive_ttl (ttl : Z) : result unit := raise_if (ttl <=? 0) (ValueError "materialization lease ttl must be positive").

(** ** Operations *)

Definition enroll_host (host operation : string) : C unit :=
  checked (text host);;
  custody_commit operation "host.enrolled" (at_now (enroll_change host)) (host_subject host);; mret tt.

Record HostRemoval := MkHostRemoval { hr_host : string; hr_canceled_leases : Z; hr_cleanup : CleanupSummary }.

Definition remove_host (host operation : string) : C HostRemoval :=
  checked (text host);;
  c ← custody_commit operation "host.removed" (at_now (remove_change host)) (host_subject host);
  mret (MkHostRemoval host (cm_value c) (cm_cleanup c)).

Definition authorize (i : ConnectionIdentity) (state : OpaqueState) (operation : string) : C ConnectionView :=
  checked (raise_if (negb (identity_ok i)) (ValueError "identity must be a trimmed string"));;
  checked (text operation);;
  initial ← load;
  let current := dget (ci_connection_id i) (connections_of initial) in
  plan ← erasing (authorization_plan i current);
  let '(epoch, version, event) := plan in
  encrypted ← seal_state (ci_connection_id i) epoch version state;
  c ← custody_commit operation event (at_once (authorize_change i current epoch version encrypted)) (connection_subject (ci_connection_id i));
  mret (cm_value c).

(** [_reconcile_expired_before] *)
Definition reconcile_expired_before (parent : string) (now : Z) : C unit :=
  s ← load;
  if bool_decide (expired_leases s now = []) then mret tt
  else custody_commit ("reconcile-" +:+ hash_suffix parent) "materialization.reconciled" (at_once (reconcile_change now)) no_subject;; mret tt.

(** [_abort_materialization] *)
Definition abort_materialization (l : StoredLease) (parent : string) : C unit :=
  custody_commit ("abort-" +:+ hash_suffix parent) "materialization.failed" (at_once (abort_change (sl_id l)))
    (MkSubject (Some (sl_connection_id l)) (Some (sl_host_id l)) (Some (sl_id l)));; mret tt.

Definition materialize (connection host : string) (mode : LeaseMode) (ttl : Z) (operation : string) : C Materialization :=
  checked (text connection);; checked (text host);; checked (positive_ttl ttl);; checked (text operation);;
  let suffix := hash_suffix operation in
  let lease := "lease-" +:+ suffix in
  let attachment := "attachment-" +:+ suffix in
  now ← now_;
  let expires_at := now + ttl in
  reconcile_expired_before operation now;;
  committed ← custody_commit operation "materialization.acquired"
    (at_once (acquire_change connection host mode now expires_at lease attachment)) (MkSubject (Some connection) (Some host) (Some lease));
  let '(c, l) := cm_value committed in
  match sc_encrypted_state c with
  | None => abort_materialization l operation;; raise_exn reauthorization_required
  | Some encrypted =>
      on_raise (
        k ← checked (key_context connection (sc_authority_epoch c) (sc_state_version c));
        plaintext ← called (KOpen k encrypted) id;
        called (FMaterialize attachment plaintext) id)
        (abort_materialization l operation);;
      mret (MkMaterialization (fence_of l) mode expires_at)
  end.

Definition activate (m : Materialization) (operation : string) : C unit :=
  checked (raise_if (negb (bool_decide (mt_mode m = LEASE_REFRESH))) (custody_error "only refresh custody can enter provider-mutation state"));;
  custody_commit operation "materialization.activated" (at_now (activate_change (mt_fence m))) (fence_subject (mt_fence m));; mret tt.

Definition renew (m : Materialization) (ttl : Z) (operation : string) : C Z :=
  checked (positive_ttl ttl);;
  c ← custody_commit operation "materialization.renewed" (at_now (renew_change (mt_fence m) (mt_mode m) ttl)) (fence_subject (mt_fence m));
  mret (cm_value c).

Definition cleanup (attachment : string) : C CleanupEvidence := called (FCleanup attachment) id.

Definition checkpoint (m : Materialization) (operation : string) : C (ConnectionView * CleanupEvidence) :=
  checked (text operation);;
  let f := mt_fence m in
  finally_do (
    initial ← load;
    now ← now_;
    l ← checked (require_current_lease initial f now LEASE_REFRESH);
    checked (raise_if (negb (sl_activated l)) (custody_error "refresh custody must be activated before publishing provider state"));;
    returned ← called (FRead (af_attachment_id f)) id;
    checked (raise_if (str_empty returned) (custody_error "provider returned empty opaque state"));;
    k ← checked (key_context (af_connection_id f) (af_authority_epoch f) (af_base_version f + 1));
    encrypted ← called (KSeal k returned) id;
    c ← custody_commit operation "materialization.checkpointed" (at_now (checkpoint_change f encrypted)) (fence_subject f);
    e ← cleanup (af_attachment_id f);
    mret (cm_value c, e)) (cleanup (af_attachment_id f)).

Definition release_materialization (m : Materialization) (operation : string) : C CleanupEvidence :=
  let f := mt_fence m in
  pbind (custody_commit operation "materialization.released" (at_now (release_change f (mt_mode m))) (fence_subject f))
    (λ o, e ← cleanup (af_attachment_id f); match o with Value _ => mret e | Raises x => raises x end).

(** [rotate], by [_replace_authority] *)
Definition rotate_authority (connection : string) (state : OpaqueState) (operation : string) : C ConnectionView :=
  checked (text connection);;
  initial ← load;
  current ← checked (connection_row initial connection);
  erasing (raise_if (negb (bool_decide (sc_status current ∈ [READY; REFRESHING]))) reauthorization_required);;
  encrypted ← seal_state connection (sc_authority_epoch current + 1) (sc_state_version current + 1) state;
  c ← custody_commit operation "connection.rotated" (at_once (rotate_change connection current encrypted)) (connection_subject connection);
  mret (cm_value c).

Definition revoke_connection (connection operation : string) : C (ConnectionView * CleanupSummary) :=
  checked (text connection);;
  c ← custody_commit operation "connection.revoked" (at_once (revoke_change connection)) (connection_subject connection);
  mret (cm_value c, cm_cleanup c).

Definition erase_connection (connection operation : string) : C (ConnectionView * CleanupSummary) :=
  checked (text connection);; checked (text operation);;
  initial ← load;
  current ← checked (connection_row initial connection);
  (if bool_decide (sc_status current = REVOKED)
   then custody_commit ("prepare-" +:+ hash_suffix operation) "connection.erasure_started" (at_once (prepare_change connection)) (connection_subject connection);; mret tt
   else checked (raise_if (negb (bool_decide (sc_status current = ERASURE_PENDING))) (custody_error "connection must be revoked before erasure")));;
  erased ← called (KErase connection) id;
  c ← custody_commit operation "connection.erased" (at_once (finish_change connection erased)) (connection_subject connection);
  mret (cm_value c, cm_cleanup c).

(** [admit_result] and [admit_effect], by [_admit] *)
Definition admit_attachment (purpose : string) (f : AttachmentFence) (operation : string) : C unit :=
  custody_commit operation ("attachment." +:+ purpose +:+ ".admitted") (at_now (admit_change purpose f)) (fence_subject f);; mret tt.

Definition read_connection (connection : string) : C ConnectionView :=
  checked (text connection);; s ← load; c ← checked (connection_row s connection); mret (connection_view c).

Definition recover_installation (operation : string) : C (Z * list string * CleanupSummary) :=
  c ← custody_commit operation "installation.recovered" (at_now recover_change) no_subject;
  mret (cm_value c, cm_cleanup c).

Definition operation_view (r : AuditRecord) : OperationView :=
  MkOperationView (ar_operation_id r) (ar_event_kind r) (ar_connection_id r) (ar_host_id r) (ar_lease_id r) (ar_details r).

Definition lookup_operation (operation : string) : C (option OperationView) :=
  checked (text operation);;
  s ← load;
  mret (operation_view <$> List.find (λ r, String.eqb (ar_operation_id r) operation) (s_audit s)).

Definition audit_records : C (list AuditRecord) := s ← load; mret (s_audit s).
End operations.

(** ** Custodians *)

Inductive custody_call :=
| EnrollHost (host operation : string)
| RemoveHost (host operation : string)
| Authorize (i : ConnectionIdentity) (state : OpaqueState) (operation : string)
| Materialize (connection host : string) (mode : LeaseMode) (ttl : Z) (operation : string)
| Activate (m : Materialization) (operation : string)
| Renew (m : Materialization) (ttl : Z) (operation : string)
| Checkpoint (m : Materialization) (operation : string)
| ReleaseLease (m : Materialization) (operation : string)
| Rotate (connection : string) (state : OpaqueState) (operation : string)
| Revoke (connection operation : string)
| EraseConnection (connection operation : string)
| AdmitResult (f : AttachmentFence) (operation : string)
| AdmitEffect (f : AttachmentFence) (operation : string)
| Recover (operation : string)
| ReadConnection (connection : string)
| LookupOperation (operation : string)
| AuditRecords.

Inductive custody_val :=
| UNone
| URemoval (r : HostRemoval)
| UView (v : ConnectionView)
| UMaterialization (m : Materialization)
| UTime (t : Z)
| UPublication (v : ConnectionView) (e : CleanupEvidence)
| UEvidence (e : CleanupEvidence)
| USettled (v : ConnectionView) (c : CleanupSummary)
| URecovery (expired : Z) (ambiguous : list string) (c : CleanupSummary)
| UOperation (v : option OperationView)
| UAudit (l : list AuditRecord).

Definition cmap {A} (f : A → custody_val) (p : C A) : C custody_val := a ← p; mret (f a).

Section custodians.
Context (sha256_hex : string → string).

Definition custody_program (k : custody_call) : C custody_val :=
  match k with
  | EnrollHost host op => cmap (λ _, UNone) (enroll_host sha256_hex host op)
  | RemoveHost host op => cmap URemoval (remove_host sha256_hex host op)
  | Authorize i state op => cmap UView (authorize sha256_hex i state op)
  | Materialize c h m ttl op => cmap UMaterialization (materialize sha256_hex c h m ttl op)
  | Activate m op => cmap (λ _, UNone) (activate sha256_hex m op)
  | Renew m ttl op => cmap UTime (renew sha256_hex m ttl op)
  | Checkpoint m op => cmap (λ p, UPublication p.1 p.2) (checkpoint sha256_hex m op)
  | ReleaseLease m op => cmap UEvidence (release_materialization sha256_hex m op)
  | Rotate c state op => cmap UView (rotate_authority sha256_hex c state op)
  | Revoke c op => cmap (λ p, USettled p.1 p.2) (revoke_connection sha256_hex c op)
  | EraseConnection c op => cmap (λ p, USettled p.1 p.2) (erase_connection sha256_hex c op)
  | AdmitResult f op => cmap (λ _, UNone) (admit_attachment sha256_hex "result" f op)
  | AdmitEffect f op => cmap (λ _, UNone) (admit_attachment sha256_hex "effect" f op)
  | Recover op => cmap (λ p, URecovery p.1.1 p.1.2 p.2) (recover_installation sha256_hex op)
  | ReadConnection c => cmap UView (read_connection sha256_hex c)
  | LookupOperation op => cmap UOperation (lookup_operation sha256_hex op)
  | AuditRecords => cmap UAudit (audit_records sha256_hex)
  end.

Record custody_event := CEv { ce_eff : custody_eff; ce_ans : custody_ans ce_eff }.

(** A custodian's operation, what it did and was answered, and what is left. *)
Record Custodian := MkCustodian { cu_call : custody_call; cu_log : list custody_event; cu_prog : C custody_val }.

Record Installation := MkInstallation { in_store : StorageSnapshot; in_custodians : list Custodian }.

(** What the host does with an effect: answer it, raise, or, of a swap, apply it
    and raise all the same. *)
Inductive HostReply :=
| HDefault
| HRaise (base : bool)
| HLost
| HTime (x : ext Z)
| HBytes (x : ext string)
| HDone (x : ext unit)
| HErased (x : ext bool)
| HEvidence (x : ext CleanupEvidence).

Definition raising {A} (base : bool) : ext A := if base then Broke else Threw.

(** [SqliteConnectionStorage.compare_and_swap] *)
Definition compare_and_swap (expected : Z) (replacement store : StorageSnapshot) : result (bool * StorageSnapshot) :=
  raise_if (negb (s_revision replacement =? expected + 1)) (ValueError "replacement revision must advance expected revision exactly once");;
  validate_snapshot sha256_hex replacement;;
  Ok (if s_revision store =? expected then (true, replacement) else (false, store)).

Definition host_performs (e : custody_eff) (r : HostReply) (store : StorageSnapshot) : option (custody_ans e * StorageSnapshot) :=
  match e with
  | SLoad => match r with HDefault => Some (Gave store, store) | HRaise b => Some (raising b, store) | _ => None end
  | SCas expected replacement =>
      match r, compare_and_swap expected replacement store with
      | HDefault, Ok (done, store) => Some (Gave done, store)
      | HDefault, Err _ => Some (Threw, store)
      | HRaise b, _ => Some (raising b, store)
      | HLost, Ok (_, store) => Some (Threw, store)
      | _, _ => None
      end
  | CClock => match r with HTime x => Some (x, store) | _ => None end
  | KSeal _ _ | KOpen _ _ | FRead _ => match r with HBytes x => Some (x, store) | _ => None end
  | KErase _ => match r with HErased x => Some (x, store) | _ => None end
  | OErase => Some (tt, store)
  | FMaterialize _ _ => match r with HDone x => Some (x, store) | _ => None end
  | FCleanup _ => match r with HEvidence x => Some (x, store) | _ => None end
  end.

Inductive custody_move := Begin (k : custody_call) | Proceed (t : nat) (r : HostReply).

Definition custody_step (m : custody_move) (w : Installation) : option Installation :=
  match m with
  | Begin k => Some (MkInstallation (in_store w) (in_custodians w ++ [MkCustodian k [] (custody_program k)]))
  | Proceed t r =>
      th ← in_custodians w !! t;
      match cu_prog th with
      | Ret _ => None
      | Act e k =>
          '(x, store) ← host_performs e r (in_store w);
          Some (MkInstallation store (<[t := MkCustodian (cu_call th) (cu_log th ++ [CEv e x]) (k x)]> (in_custodians w)))
      end
  end.

Fixpoint custody_run (ms : list custody_move) (w : Installation) : option Installation :=
  match ms with
  | [] => Some w
  | m :: ms => w ← custody_step m w; custody_run ms w
  end.

Definition installation_new : Installation := MkInstallation empty_snapshot [].
End custodians.
