(* ===== verification/ConnectionInvariant.v ===== *)
(** * What a valid custody snapshot says, and which changes keep it valid

    The checks of [validate_snapshot] as facts about the rows found by their
    identities, and the few shapes of change all operations are made of: rows
    released and refreshes settled, a connection replaced once nothing live
    refers to it, a lease updated, a lease added. *)

From stdpp Require Import base gmap sets list strings sorting.
From Stdlib Require Import Ascii ZArith Lia.
From S2P Require Import Prelude PyData Schema AgentText Programs ConnectionStorage ConnectionCustody.
Open Scope string_scope.
Open Scope list_scope.
Open Scope Z_scope.

(** ** Rows by identity *)

Section rows.
Context {A : Type} (key : A → string).
Implicit Types (l : list A) (d : dict string A).

Definition keyed d : Prop := NoDup (dkeys d) ∧ ∀ k x, dget k d = Some x → key x = k.
Definition sorted_rows l : Prop := NoDup (key <$> l) ∧ l = sorted_key key l.

Lemma dkeys_pairs l : dkeys ((λ x, (key x, x)) <$> l) = key <$> l.
Proof. unfold dkeys. rewrite <-list_fmap_compose. by apply list_fmap_ext. Qed.

Lemma index_pairs l : NoDup (key <$> l) → index key l = (λ x, (key x, x)) <$> l.
Proof. intros H. apply dict_of_list_id. by rewrite dkeys_pairs. Qed.

Lemma index_Some l k x : NoDup (key <$> l) → dget k (index key l) = Some x ↔ x ∈ l ∧ key x = k.
Proof.
  intros Hl. rewrite index_pairs by done. split.
  - intros H%dget_elem_of. apply list_elem_of_fmap in H as (y & [= -> ->] & Hy). done.
  - intros [Hx <-]. apply elem_of_dget; [by rewrite dkeys_pairs|]. apply list_elem_of_fmap. eauto.
Qed.

Lemma index_keyed l : NoDup (key <$> l) → keyed (index key l).
Proof. intros Hl. split; [apply NoDup_dict_of_list|]. intros k x H. by apply index_Some in H as [_ ?]. Qed.

Lemma keyed_dset d x : keyed d → keyed (dset (key x) x d).
Proof.
  intros [Hn Hk]. split; [by apply NoDup_dkeys_dset|]. intros k y. rewrite dget_dset. case_decide; [naive_solver|apply Hk].
Qed.

Lemma keyed_vals d : keyed d → key <$> dvals d = dkeys d.
Proof.
  unfold keyed, dvals, dkeys. induction d as [|[k x] d IH]; intros [Hn Hk]; [done|]. csimpl in *.
  apply NoDup_cons in Hn as [Hnk Hn]. f_equal; [apply Hk; by rewrite decide_True|].
  apply IH. split; [done|]. intros k' y Hy. apply Hk. rewrite decide_False; [done|]. intros ->.
  apply Hnk. apply dget_elem_of in Hy. apply list_elem_of_fmap. by exists (k, y).
Qed.

Lemma elem_of_vals d x : keyed d → x ∈ dvals d ↔ dget (key x) d = Some x.
Proof.
  intros [Hn Hk]. unfold dvals. rewrite list_elem_of_fmap. split.
  - intros ([k y] & -> & Hy). apply elem_of_dget in Hy as Hy'; [|done]. simpl. by rewrite (Hk _ _ Hy').
  - intros H%dget_elem_of. by exists (key x, x).
Qed.

Lemma rows_sorted d : keyed d → sorted_rows (rows key d).
Proof.
  intros Hd. unfold rows. split; [|by rewrite sorted_key_idem].
  rewrite (sorted_key_perm key). rewrite keyed_vals by done. apply Hd.
Qed.

Lemma elem_of_rows d x : keyed d → x ∈ rows key d ↔ dget (key x) d = Some x.
Proof. intros Hd. unfold rows. rewrite (sorted_key_perm key). by apply elem_of_vals. Qed.

Lemma index_rows d k : keyed d → dget k (index key (rows key d)) = dget k d.
Proof.
  intros Hd. apply option_eq. intros x. rewrite index_Some by (by apply rows_sorted). rewrite elem_of_rows by done. split.
  - by intros [H <-].
  - intros H. pose proof (proj2 Hd _ _ H) as <-. done.
Qed.

(** Updating the rows a list selects. *)
Definition updated (f : A → A) (sel : list A) (x : A) : A := if decide (key x ∈ key <$> sel) then f x else x.

Lemma dget_updates (f : A → A) sel d k : keyed d → (∀ x, key (f x) = key x) → (∀ x, x ∈ sel → dget (key x) d = Some x) →
  dget k (foldl (λ d x, dset (key x) (f x) d) d sel) = updated f sel <$> dget k d ∧
  keyed (foldl (λ d x, dset (key x) (f x) d) d sel).
Proof.
  intros Hd Hf. revert k. induction sel as [|x sel IH] using rev_ind; intros k Hsel.
  { simpl. split; [|done]. destruct (dget k d); [|done]. simpl. unfold updated. rewrite decide_False; [done|]. csimpl. apply not_elem_of_nil. }
  rewrite foldl_app. simpl. assert (∀ y, y ∈ sel → dget (key y) d = Some y) as Hs by (intros; apply Hsel; set_solver).
  destruct (IH k Hs) as [IHk Hk]. split.
  - rewrite dget_dset. case_decide as Heq.
    + subst k. rewrite (Hsel x) by set_solver. simpl. unfold updated. rewrite decide_True; [done|]. rewrite fmap_app. set_solver.
    + rewrite IHk. destruct (dget k d) as [y|] eqn:Hy; [|done]. simpl. f_equal. pose proof (proj2 Hd _ _ Hy) as Hky.
      unfold updated. rewrite fmap_app. assert (key y ∈ (key <$> sel) ++ [key x] ↔ key y ∈ key <$> sel) as He by set_solver.
      repeat case_decide; naive_solver.
  - rewrite <-(Hf x). by apply keyed_dset.
Qed.
End rows.

#[export] Hint Resolve keyed_dset index_keyed rows_sorted : petrus.

(** A refusal that is not taken. *)
Lemma refused_unless {A} (b : bool) e (x y : A) : (if b then Err e else Ok x) = Ok y ↔ b = false ∧ x = y.
Proof. destruct b; naive_solver. Qed.

Lemma raise_if_negb (b : bool) e u : raise_if (negb b) e = Ok u ↔ b = true.
Proof. rewrite raise_if_Ok. apply negb_false_iff. Qed.

(** Take a change that succeeded apart. *)
Ltac inv_change H := repeat match type of H with
  | (_ ≫= _) = Ok _ => let x := fresh "x" in let Hx := fresh "Hx" in apply bind_Ok in H as (x & Hx & H)
  | (let '(_, _) := ?x in _) = Ok _ => destruct x
  | Ok _ = Ok _ => injection H as <-
  end; simpl in *.

Section invariant.
Context (sha256_hex : string → string).

Notation host s k := (dget k (hosts_of s)).
Notation conn s k := (dget k (connections_of s)).
Notation lease s k := (dget k (leases_of s)).
Notation live l := (sl_released l = false).

(** ** The checks as facts *)

(** A live lease holds the epochs and the version of its host and connection. *)
Definition lease_authority (s : StorageSnapshot) (l : StoredLease) : Prop :=
  ∃ h c, host s (sl_host_id l) = Some h ∧ conn s (sl_connection_id l) = Some c ∧
    (live l → sh_active h = true ∧ sh_epoch h = sl_host_epoch l ∧ sc_authority_epoch c = sl_authority_epoch l ∧
      sc_state_version c = sl_base_version l ∧ sc_status c ∈ [READY; REFRESHING] ∧ (sl_mode l = LEASE_REFRESH → sc_status c = REFRESHING)).

Record wf (s : StorageSnapshot) : Prop := Wf {
  wf_revision : s_revision s = Z.of_nat (length (s_audit s));
  wf_hosts : sorted_rows sh_id (s_hosts s);
  wf_connections : sorted_rows sc_id (s_connections s);
  wf_leases : sorted_rows sl_id (s_leases s);
  wf_attachments k k' l l' : lease s k = Some l → lease s k' = Some l' → sl_attachment_id l = sl_attachment_id l' → k = k';
  wf_host k h : host s k = Some h → validate_host h = Ok tt;
  wf_conn k c : conn s k = Some c → validate_connection sha256_hex c = Ok tt;
  wf_lease k l : lease s k = Some l → validate_lease_value l = Ok tt;
  wf_authority k l : lease s k = Some l → lease_authority s l;
  wf_exclusive k k' l l' : lease s k = Some l → lease s k' = Some l' → live l → live l' → sl_mode l = LEASE_REFRESH →
    sl_connection_id l = sl_connection_id l' → k = k';
  wf_refreshing k c : conn s k = Some c → sc_status c = REFRESHING →
    ∃ k' l, lease s k' = Some l ∧ live l ∧ sl_mode l = LEASE_REFRESH ∧ sl_connection_id l = k;
  wf_audit : validate_audit (s_audit s) = Ok tt
}.

Lemma lease_Some s k l : NoDup (sl_id <$> s_leases s) → lease s k = Some l ↔ l ∈ s_leases s ∧ sl_id l = k.
Proof. apply index_Some. Qed.

Lemma elem_of_unreleased c ls l : l ∈ unreleased_of c ls ↔ l ∈ ls ∧ sl_connection_id l = c ∧ live l.
Proof. unfold unreleased_of. rewrite list_elem_of_filter. tauto. Qed.

Lemma elem_of_refreshes ls l : l ∈ refreshes ls ↔ l ∈ ls ∧ sl_mode l = LEASE_REFRESH.
Proof. unfold refreshes. rewrite list_elem_of_filter. tauto. Qed.

Lemma not_nil {A} (l : list A) : l ≠ [] ↔ ∃ x, x ∈ l.
Proof. destruct l as [|x l]; [split; [done|]; intros [x Hx]; by apply elem_of_nil in Hx|]. split; [intros _; exists x; by left|done]. Qed.

Lemma NoDup_singleton_iff {A} (l : list A) x : NoDup l → x ∈ l → length l = 1%nat ↔ ∀ y, y ∈ l → y = x.
Proof.
  intros Hn Hx. split.
  - destruct l as [|z [|]]; try done. intros _ y Hy. apply list_elem_of_singleton in Hx as ->. by apply list_elem_of_singleton in Hy.
  - intros H. destruct l as [|z [|z' l]]; [by apply elem_of_nil in Hx|done|]. exfalso.
    assert (z = x ∧ z' = x) as [-> ->] by (split; apply H; set_solver). apply NoDup_cons in Hn as [Hn _]. set_solver.
Qed.

(** What [_validate_active_lease_sets] says of one connection. *)
Lemma validate_active_leases_Ok ls k c : NoDup ls → validate_active_leases ls (k, c) = Ok tt ↔
  (∀ l l', l ∈ unreleased_of k ls → l' ∈ unreleased_of k ls → sl_mode l = LEASE_REFRESH → l' = l) ∧
  (∀ l, l ∈ unreleased_of k ls → sl_mode l = LEASE_REFRESH → sc_status c = REFRESHING) ∧
  (sc_status c = REFRESHING → ∃ l, l ∈ unreleased_of k ls ∧ sl_mode l = LEASE_REFRESH) ∧
  (∀ l, l ∈ unreleased_of k ls → sc_status c ∈ [READY; REFRESHING]).
Proof.
  intros Hn. unfold validate_active_leases. simpl.
  assert (NoDup (unreleased_of k ls)) as Hu by (by apply NoDup_filter).
  assert (NoDup (refreshes (unreleased_of k ls))) as Hr by (by apply NoDup_filter).
  rewrite !bind_Ok. setoid_rewrite bind_Ok. setoid_rewrite bind_Ok. setoid_rewrite raise_if_Ok.
  setoid_rewrite andb_false_iff. setoid_rewrite orb_false_iff. setoid_rewrite negb_false_iff. setoid_rewrite Nat.eqb_eq.
  setoid_rewrite bool_decide_eq_false. setoid_rewrite bool_decide_eq_true.
  split.
  - intros (? & H1 & ? & H2 & ? & H3 & H4). split_and!.
    + intros l l' Hl Hl' Hm. destruct H1 as [H1|[_ H1]].
      * assert (l ∈ refreshes (unreleased_of k ls)) as Hx by (by apply elem_of_refreshes). rewrite H1 in Hx. by apply elem_of_nil in Hx.
      * by apply (NoDup_singleton_iff _ l Hu Hl).
    + intros l Hl Hm. destruct H2 as [H2|H2]; [|done].
      assert (l ∈ refreshes (unreleased_of k ls)) as Hx by (by apply elem_of_refreshes). rewrite H2 in Hx. by apply elem_of_nil in Hx.
    + intros Hs. destruct H3 as [H3|H3]; [|done]. apply not_nil in H3 as [l Hl]. exists l. by apply elem_of_refreshes.
    + intros l Hl. destruct H4 as [H4|H4]; [|done]. rewrite H4 in Hl. by apply elem_of_nil in Hl.
  - intros (H1 & H2 & H3 & H4). exists tt. split; [|exists tt; split; [|exists tt; split]].
    + destruct (decide (refreshes (unreleased_of k ls) = [])) as [|Hne]; [by left|right].
      apply not_nil in Hne as [l [Hl Hm]%elem_of_refreshes]. split.
      * apply (NoDup_singleton_iff _ l); [done|by apply elem_of_refreshes|]. intros y [Hy _]%elem_of_refreshes. by apply (H1 l).
      * apply (NoDup_singleton_iff _ l); [done..|]. intros y Hy. by apply (H1 l).
    + destruct (decide (refreshes (unreleased_of k ls) = [])) as [|Hne]; [by left|right].
      apply not_nil in Hne as [l [Hl Hm]%elem_of_refreshes]. eauto.
    + destruct (decide (sc_status c = REFRESHING)) as [Hs|]; [left|by right].
      destruct (H3 Hs) as (l & Hl & Hm). apply not_nil. exists l. by apply elem_of_refreshes.
    + destruct (decide (unreleased_of k ls = [])) as [|Hne]; [by left|right]. apply not_nil in Hne as [l Hl]. eauto.
Qed.

Lemma validate_lease_Ok hs cs l : validate_lease hs cs l = Ok tt ↔ validate_lease_value l = Ok tt ∧
  ∃ h c, dget (sl_host_id l) hs = Some h ∧ dget (sl_connection_id l) cs = Some c ∧
    (live l → sh_active h = true ∧ sh_epoch h = sl_host_epoch l ∧ sc_authority_epoch c = sl_authority_epoch l ∧
      sc_state_version c = sl_base_version l).
Proof.
  unfold validate_lease, validate_live_lease_authority. rewrite bind_Ok. destruct (dget (sl_host_id l) hs) as [h|]; [|naive_solver].
  destruct (dget (sl_connection_id l) cs) as [c|]; [|naive_solver]. destruct (sl_released l); simpl.
  - split; [intros ([] & ? & _); split; [done|]; exists h, c; naive_solver|]. intros [? _]. by exists tt.
  - setoid_rewrite bind_Ok. setoid_rewrite raise_if_Ok. setoid_rewrite orb_false_iff. setoid_rewrite negb_false_iff.
    setoid_rewrite Z.eqb_eq. split.
    + intros ([] & ? & [] & [] & []). split; [done|]. exists h, c. naive_solver.
    + intros [? (h' & c' & [= <-] & [= <-] & H)]. exists tt. split; [done|]. exists tt. naive_solver.
Qed.

Lemma unit_Ok (r : result unit) u : r = Ok u ↔ r = Ok tt.
Proof. by destruct u. Qed.

Lemma forM_index {A} (key : A → string) (f : A → result unit) l u : NoDup (key <$> l) →
  forM_ f l = Ok u ↔ ∀ k x, dget k (index key l) = Some x → f x = Ok tt.
Proof.
  intros Hn. rewrite forM_Ok, Forall_forall. split.
  - intros H k x [Hx _]%index_Some; [by apply H|done].
  - intros H x Hx. eapply H. by apply index_Some.
Qed.

Lemma same_lease s l l' : sorted_rows sl_id (s_leases s) → l ∈ s_leases s → l' ∈ s_leases s → sl_id l = sl_id l' → l = l'.
Proof.
  intros [Hn _] Hl Hl' He. assert (lease s (sl_id l) = Some l) as H1 by (by apply index_Some).
  assert (lease s (sl_id l) = Some l') as H2 by (by apply index_Some). congruence.
Qed.

Lemma NoDup_fmap_by {A B} (key f : A → B) l : NoDup (key <$> l) →
  NoDup (f <$> l) ↔ ∀ x y, x ∈ l → y ∈ l → f x = f y → key x = key y.
Proof.
  induction l as [|z l IH]; csimpl; [intros; split; [intros _ x y Hx; by apply elem_of_nil in Hx|constructor]|].
  intros [Hz Hn]%NoDup_cons. rewrite NoDup_cons, (IH Hn). rewrite list_elem_of_fmap. split.
  - intros [Hf H] x y [->|Hx]%elem_of_cons [->|Hy]%elem_of_cons He; [done| | |by apply H].
    + destruct Hf. eauto.
    + destruct Hf. exists x. eauto.
  - intros H. split.
    + intros (y & He & Hy). apply Hz. apply list_elem_of_fmap. exists y. split; [|done]. apply H; set_solver.
    + intros x y Hx Hy. apply H; set_solver.
Qed.

Lemma lease_rows_NoDup s : sorted_rows sl_id (s_leases s) → NoDup (s_leases s).
Proof. intros [H _]. by eapply NoDup_fmap_1. Qed.

(** The live leases of a connection, by their identities. *)
Lemma live_lookup s k l : sorted_rows sl_id (s_leases s) →
  l ∈ unreleased_of k (s_leases s) ↔ lease s (sl_id l) = Some l ∧ sl_connection_id l = k ∧ live l.
Proof. intros [Hn _]. rewrite elem_of_unreleased, lease_Some by done. naive_solver. Qed.

Lemma unique_Ok l name u : unique l name = Ok u ↔ NoDup l.
Proof. unfold unique. rewrite raise_if_negb. apply bool_decide_eq_true. Qed.

Lemma bind_unit (m : result unit) (f : unit → result unit) u : (m ≫= f) = Ok u ↔ m = Ok tt ∧ f tt = Ok tt.
Proof. rewrite bind_Ok. split; [intros ([] & ? & ?); by destruct u|]. intros [? ?]. exists tt. by destruct u. Qed.

Lemma checked_rows {A} `{!EqDecision A} (key : A → string) (f : A → result unit) l name e u :
  (unique (key <$> l) name;; raise_if (negb (bool_decide (l = sorted_key key l))) e;; forM_ f l) = Ok u ↔
  sorted_rows key l ∧ ∀ k x, dget k (index key l) = Some x → f x = Ok tt.
Proof.
  rewrite !bind_unit, unique_Ok, raise_if_negb, bool_decide_eq_true. unfold sorted_rows. split.
  - intros (? & ? & H). split; [done|]. by eapply forM_index.
  - intros [[? ?] ?]. split_and!; [done..|]. by apply (forM_index key).
Qed.

Lemma validate_leases_Ok s u : sorted_rows sc_id (s_connections s) →
  validate_leases s = Ok u ↔ sorted_rows sl_id (s_leases s) ∧ NoDup (sl_attachment_id <$> s_leases s) ∧
  (∀ k l, lease s k = Some l → validate_lease (hosts_of s) (connections_of s) l = Ok tt) ∧
  ∀ k c, conn s k = Some c → validate_active_leases (s_leases s) (k, c) = Ok tt.
Proof.
  intros [Hc _]. unfold validate_leases. rewrite !bind_unit, !unique_Ok, raise_if_negb, bool_decide_eq_true.
  assert (NoDup (dkeys (connections_of s))) as Hn by (apply NoDup_dict_of_list).
  rewrite (forM_Ok (validate_active_leases (s_leases s))), Forall_forall. unfold sorted_rows. split.
  - intros (? & ? & ? & Hv & Ha). split_and!; try done.
    + by apply (forM_index sl_id _ _ tt).
    + intros k c Hk. apply Ha. by apply dget_elem_of.
  - intros ([? ?] & ? & Hv & Ha). split_and!; try done.
    + by apply (forM_index sl_id _ _ tt).
    + intros [k c] Hk. apply Ha. by apply elem_of_dget.
Qed.

Lemma validate_parts s : validate_snapshot sha256_hex s = Ok s ↔
  s_revision s = Z.of_nat (length (s_audit s)) ∧ validate_hosts (s_hosts s) = Ok tt ∧
  validate_connections sha256_hex (s_connections s) = Ok tt ∧ validate_leases s = Ok tt ∧ validate_audit (s_audit s) = Ok tt.
Proof.
  unfold validate_snapshot. rewrite !bind_Ok. setoid_rewrite raise_if_Ok. split.
  - intros ([] & _ & H). apply bind_Ok in H as ([] & Hr%raise_if_negb%Z.eqb_eq & H). inv_ok. by split_and!.
  - intros (Hr & -> & -> & -> & ->). exists tt. split; [apply Z.ltb_ge; lia|]. by rewrite Hr, Z.eqb_refl.
Qed.

Lemma validate_wf s : validate_snapshot sha256_hex s = Ok s ↔ wf s.
Proof.
  rewrite validate_parts. unfold validate_hosts, validate_connections. rewrite !checked_rows. split.
  - intros (Hr & [Hh Hhv] & [Hc Hcv] & Hl & Ha). apply validate_leases_Ok in Hl as (Hls & Hat & Hlv & Hav); [|done].
    pose proof Hav as Hav'. setoid_rewrite validate_lease_Ok in Hlv.
    setoid_rewrite (λ k c, validate_active_leases_Ok (s_leases s) k c (lease_rows_NoDup s Hls)) in Hav'.
    assert (∀ k l, lease s k = Some l → sl_id l = k) as Hid by (intros k l H; apply lease_Some in H as [? ?]; [done|apply Hls]).
    assert (∀ k l, lease s k = Some l → l ∈ s_leases s) as Hin by (intros k l H; apply lease_Some in H as [? ?]; [done|apply Hls]).
    assert (∀ k l, lease s k = Some l → live l → l ∈ unreleased_of (sl_connection_id l) (s_leases s)) as Hun.
    { intros k l H Hlive. apply live_lookup; [done|]. rewrite (Hid _ _ H). by split_and!. }
    split; try done.
    + intros k k' l l' H H' He. rewrite <-(Hid _ _ H), <-(Hid _ _ H'). eapply NoDup_fmap_by; [apply Hls|exact Hat|by eapply Hin..|done].
    + intros k l H. by apply (Hlv k l H).
    + intros k l H. destruct (Hlv k l H) as [_ (h & c & Hh' & Hc' & Hlive)]. exists h, c. split_and!; try done.
      intros Hl. destruct (Hav' _ _ Hc') as (_ & H2 & _ & H4). destruct (Hlive Hl) as (? & ? & ? & ?). split_and!; eauto.
    + intros k k' l l' H H' Hl Hl' Hm He. assert (is_Some (conn s (sl_connection_id l))) as [c Hc'].
      { destruct (Hlv k l H) as [_ (h & c & ? & ? & _)]. eauto. }
      destruct (Hav' _ _ Hc') as (H1 & _). assert (l' = l) as ->; [|by rewrite <-(Hid _ _ H), <-(Hid _ _ H')].
      apply H1; [by eapply Hun|rewrite He; by eapply Hun|done].
    + intros k c Hk Hs. destruct (Hav' _ _ Hk) as (_ & _ & H3 & _). destruct (H3 Hs) as (l & Hl & Hm).
      apply live_lookup in Hl as (? & ? & ?); [|done]. eauto 6.
  - intros [Hr Hh Hc Hl Hat Hhv Hcv Hlv Hau Hex Hre Ha]. split_and!; try done. apply validate_leases_Ok; [done|]. split_and!; [done| | |].
    + apply (NoDup_fmap_by sl_id); [apply Hl|]. intros x y Hx Hy He. apply (Hat _ _ x y); [by apply lease_Some; [apply Hl|]..|done].
    + intros k l H. apply validate_lease_Ok. split; [by eapply Hlv|]. destruct (Hau k l H) as (h & c & ? & ? & Hlive).
      exists h, c. split_and!; [done..|]. intros Hx. by destruct (Hlive Hx) as (? & ? & ? & ? & _).
    + intros k c Hk. apply validate_active_leases_Ok; [by apply lease_rows_NoDup|].
      assert (∀ l, l ∈ unreleased_of k (s_leases s) → lease s (sl_id l) = Some l ∧ sl_connection_id l = k ∧ live l) as Hu by (intros l; by apply live_lookup).
      assert (∀ l, l ∈ unreleased_of k (s_leases s) → sc_status c ∈ [READY; REFRESHING] ∧ (sl_mode l = LEASE_REFRESH → sc_status c = REFRESHING)) as Hst.
      { intros l Hl'. destruct (Hu l Hl') as (H & <- & Hlive). destruct (Hau _ _ H) as (h & c' & _ & Hc' & HH).
        assert (c' = c) as -> by congruence. destruct (HH Hlive) as (_ & _ & _ & _ & ?). done. }
      split_and!.
      * intros l l' Hl1 Hl2 Hm. destruct (Hu l Hl1) as (H1 & He1 & Hv1), (Hu l' Hl2) as (H2 & He2 & Hv2).
        assert (sl_id l = sl_id l') as Hid by (eapply Hex; [exact H1|exact H2|done..|congruence]). congruence.
      * intros l Hl1. by apply (Hst l).
      * intros Hs. destruct (Hre k c Hk Hs) as (k' & l & H & Hv & Hm & He). exists l. split; [|done]. apply elem_of_unreleased.
        apply lease_Some in H as [? ?]; [done|apply Hl].
      * intros l Hl1. by eapply Hst.
Qed.

(** ** How rows evolve *)

(** Leases keep their fence and their mode, and stay as they are once released;
    epochs and versions only grow, and a version determines the state stored
    under it as long as one is stored. *)
Record evolves (s s' : StorageSnapshot) : Prop := Evolves {
  ev_lease k l : lease s k = Some l → ∃ l', lease s' k = Some l' ∧ fence_of l' = fence_of l ∧ sl_mode l' = sl_mode l ∧
    (sl_released l = true → l' = l);
  ev_conn k c : conn s k = Some c → ∃ c', conn s' k = Some c' ∧ sc_authority_epoch c ≤ sc_authority_epoch c' ∧
    (sc_state_version c < sc_state_version c' ∨
     sc_state_version c = sc_state_version c' ∧ (sc_encrypted_state c' = sc_encrypted_state c ∨ sc_encrypted_state c' = None));
  ev_host k h : host s k = Some h → ∃ h', host s' k = Some h' ∧ sh_epoch h ≤ sh_epoch h'
}.

Lemma evolves_refl s : evolves s s.
Proof.
  split; intros k x Hx; exists x.
  - done.
  - split; [done|]. split; [lia|]. right. auto.
  - split; [done|]. lia.
Qed.

Lemma evolves_trans s s' s'' : evolves s s' → evolves s' s'' → evolves s s''.
Proof.
  intros [L1 C1 H1] [L2 C2 H2]. split.
  - intros k l Hl. destruct (L1 k l Hl) as (l1 & Hl1 & Hf1 & Hm1 & Hr1). destruct (L2 k l1 Hl1) as (l2 & Hl2 & Hf2 & Hm2 & Hr2).
    exists l2. split_and!; [done|congruence..|]. intros Hr. rewrite (Hr1 Hr) in *. auto.
  - intros k c Hc. destruct (C1 k c Hc) as (c1 & Hc1 & He1 & Hv1). destruct (C2 k c1 Hc1) as (c2 & Hc2 & He2 & Hv2).
    exists c2. split_and!; [done|lia|]. destruct Hv1 as [?|[Hv1 Hs1]], Hv2 as [?|[Hv2 Hs2]]; [left; lia..|]. right. split; [lia|].
    destruct Hs2 as [Hs2|]; [|by right]. rewrite Hs2. done.
  - intros k h Hh. destruct (H1 k h Hh) as (h1 & Hh1 & He1). destruct (H2 k h1 Hh1) as (h2 & Hh2 & He2). exists h2. split; [done|lia].
Qed.

Definition same_log (s s' : StorageSnapshot) : Prop := s_revision s' = s_revision s ∧ s_audit s' = s_audit s.

(** Every lease stems from one of [s] or is [new]. *)
Definition inherits (new : StoredLease → Prop) (s s' : StorageSnapshot) : Prop :=
  ∀ k l', lease s' k = Some l' → (∃ l, lease s k = Some l ∧ fence_of l' = fence_of l) ∨ new l'.

(** What a change must do to a valid snapshot. *)
Definition sound_new (new : StoredLease → Prop) (s s' : StorageSnapshot) : Prop :=
  wf s' ∧ evolves s s' ∧ same_log s s' ∧ inherits new s s'.
Definition sound : StorageSnapshot → StorageSnapshot → Prop := sound_new (λ _, False).

Lemma inherits_refl new s : inherits new s s.
Proof. intros k l Hl. left. eauto. Qed.

Lemma sound_refl s : wf s → sound s s.
Proof. intros Hw. split; [done|]. split; [apply evolves_refl|]. split; [done|apply inherits_refl]. Qed.

Lemma sound_weaken new s s' : sound s s' → sound_new new s s'.
Proof. intros (? & ? & ? & Hi). split_and!; try done. intros k l Hl. destruct (Hi k l Hl); [by left|done]. Qed.

Lemma sound_trans new s s' s'' : sound s s' → (wf s' → sound_new new s' s'') → sound_new new s s''.
Proof.
  intros (Hw & He & [Hr Ha] & Hi) H. destruct (H Hw) as (Hw' & He' & [Hr' Ha'] & Hi'). split; [done|]. split; [by eapply evolves_trans|].
  split; [split; congruence|]. intros k l Hl. destruct (Hi' k l Hl) as [(l1 & Hl1 & Hf1)|?]; [|by right]. left.
  destruct (Hi k l1 Hl1) as [(l0 & Hl0 & Hf0)|[]]. exists l0. split; [done|congruence].
Qed.

Lemma sound_wf new s s' : sound_new new s s' → wf s'.
Proof. by intros [? _]. Qed.

(** ** Releasing leases *)

Lemma lease_id s k l : wf s → lease s k = Some l → sl_id l = k.
Proof. intros Hw H. apply lease_Some in H as [_ ?]; [done|apply Hw]. Qed.

Lemma conn_id s k c : wf s → conn s k = Some c → sc_id c = k.
Proof. intros Hw H. apply (index_Some sc_id) in H as [_ ?]; [done|apply Hw]. Qed.

Lemma host_id_of s k h : wf s → host s k = Some h → sh_id h = k.
Proof. intros Hw H. apply (index_Some sh_id) in H as [_ ?]; [done|apply Hw]. Qed.

(** [s'] has the leases of [s] with those of [sel] released. *)
Record releases (s : StorageSnapshot) (sel : list StoredLease) (reason : string) (s' : StorageSnapshot) : Prop := Releases {
  rl_lookup k : lease s' k = updated sl_id (released_lease reason) sel <$> lease s k;
  rl_sorted : sorted_rows sl_id (s_leases s');
  rl_hosts : s_hosts s' = s_hosts s;
  rl_conns : s_connections s' = s_connections s;
  rl_log : same_log s s'
}.

Lemma updated_nil {A} (key : A → string) f x : updated key f [] x = x.
Proof. unfold updated. rewrite decide_False; [done|]. csimpl. apply not_elem_of_nil. Qed.

Lemma release_leases_spec s sel reason : sorted_rows sl_id (s_leases s) → (∀ l, l ∈ sel → lease s (sl_id l) = Some l) →
  releases s sel reason (release_leases s sel reason).
Proof.
  intros Hs Hsel. destruct sel as [|l0 sel'] eqn:E.
  - split; try done. intros k. simpl. destruct (lease s k); simpl; [by rewrite updated_nil|done].
  - rewrite <-E in *. assert (release_leases s sel reason =
      replace_leases s (foldl (λ d l, dset (sl_id l) (released_lease reason l) d) (leases_of s) sel)) as -> by (by subst).
    destruct (dget_updates sl_id (released_lease reason) sel (leases_of s) "" (index_keyed _ _ (proj1 Hs)) (λ x, eq_refl) Hsel) as [_ Hk].
    split; try done; [|by apply rows_sorted]. intros k. unfold leases_of at 1. simpl. rewrite index_rows by done.
    by apply dget_updates; [apply index_keyed, Hs|..].
Qed.

Lemma updated_in (f : StoredLease → StoredLease) sel l : l ∈ sel → updated sl_id f sel l = f l.
Proof. intros H. unfold updated. rewrite decide_True; [done|]. by apply list_elem_of_fmap_2. Qed.

(** A lease of the snapshot is released exactly when it is selected. *)
Lemma updated_lease s sel reason k l : wf s → (∀ l, l ∈ sel → lease s (sl_id l) = Some l) → lease s k = Some l →
  l ∈ sel ∧ updated sl_id (released_lease reason) sel l = released_lease reason l ∨
  l ∉ sel ∧ updated sl_id (released_lease reason) sel l = l.
Proof.
  intros Hw Hsel Hl. unfold updated. case_decide as H.
  - left. split; [|done]. apply list_elem_of_fmap in H as (y & He & Hy). rewrite (lease_id _ _ _ Hw Hl) in He. subst.
    assert (l = y) as ->; [|done]. pose proof (Hsel y Hy). congruence.
  - right. split; [|done]. intros Hx. apply H. by apply list_elem_of_fmap_2.
Qed.

(** ** Settling refreshes *)

Lemma replace_connection_lookup s c k : sorted_rows sc_id (s_connections s) →
  conn (replace_connection s c) k = if decide (k = sc_id c) then Some c else conn s k.
Proof.
  intros [Hn _]. unfold replace_connection, connections_of at 1. simpl. rewrite index_rows by (by apply keyed_dset, index_keyed).
  by rewrite dget_dset.
Qed.

Lemma replace_connection_sorted s c : sorted_rows sc_id (s_connections s) → sorted_rows sc_id (s_connections (replace_connection s c)).
Proof. intros [Hn _]. by apply rows_sorted, keyed_dset, index_keyed. Qed.

Definition settle_row (ids ambiguous : list string) (c : StoredConnection) : StoredConnection :=
  if bool_decide (sc_id c ∈ ids) && bool_decide (sc_status c = REFRESHING)
  then settled_connection (bool_decide (sc_id c ∈ ambiguous)) c else c.

Lemma settled_connection_id b c : sc_id (settled_connection b c) = sc_id c.
Proof. by destruct b. Qed.

Lemma settled_connection_status b c : sc_status (settled_connection b c) ≠ REFRESHING.
Proof. by destruct b. Qed.

Record settles (s : StorageSnapshot) (ids ambiguous : list string) (s' : StorageSnapshot) : Prop := Settles {
  st_lookup k : conn s' k = settle_row ids ambiguous <$> conn s k;
  st_sorted : sorted_rows sc_id (s_connections s');
  st_hosts : s_hosts s' = s_hosts s;
  st_leases : s_leases s' = s_leases s;
  st_log : same_log s s'
}.

Lemma settle_one_spec ambiguous s k s' : sorted_rows sc_id (s_connections s) → settle_one ambiguous s k = Ok s' → settles s [k] ambiguous s'.
Proof.
  intros Hs H. unfold settle_one, connection_row in H. inv_ok. rename x into c.
  assert (sc_id c = k) as Hid by (apply (index_Some sc_id) in H0 as [_ ?]; [done|exact (proj1 Hs)]).
  assert (∀ k', settle_row [k] ambiguous <$> conn s k' = if decide (k' = k)
    then Some (if bool_decide (sc_status c = REFRESHING) then settled_connection (bool_decide (k ∈ ambiguous)) c else c) else conn s k') as Hrow.
  { intros k'. case_decide as Hk; [subst k'; rewrite H0; simpl; f_equal; unfold settle_row; rewrite Hid|].
    - rewrite (bool_decide_true (k ∈ [k])) by set_solver. done.
    - destruct (conn s k') as [c'|] eqn:E; [|done]. simpl. f_equal. unfold settle_row.
      apply (index_Some sc_id) in E as [_ E]; [|exact (proj1 Hs)]. rewrite bool_decide_false; [done|set_solver]. }
  case_bool_decide as Hst; subst; (split; [|try done..]).
  - intros k. rewrite Hrow, replace_connection_lookup, settled_connection_id by done. done.
  - by apply replace_connection_sorted.
  - intros k. rewrite Hrow. case_decide; by subst.
Qed.

Lemma settle_row_app ids k ambiguous c : settle_row ids ambiguous (settle_row [k] ambiguous c) = settle_row (k :: ids) ambiguous c.
Proof.
  unfold settle_row at 2. destruct (decide (sc_status c = REFRESHING)) as [Hr|Hr]; last first.
  { rewrite (bool_decide_false (sc_status c = _)) by done. rewrite andb_false_r. unfold settle_row.
    rewrite (bool_decide_false (sc_status c = _)) by done. by rewrite !andb_false_r. }
  rewrite (bool_decide_true (sc_status c = _)) by done. rewrite andb_true_r. case_bool_decide as Hk; unfold settle_row.
  - rewrite (bool_decide_false (sc_status (settled_connection _ _) = _)) by apply settled_connection_status. rewrite andb_false_r.
    rewrite (bool_decide_true (sc_status c = _)) by done. rewrite (bool_decide_true (sc_id c ∈ k :: ids)) by set_solver. done.
  - rewrite (bool_decide_true (sc_status c = _)) by done. rewrite !andb_true_r.
    assert (sc_id c ∈ ids ↔ sc_id c ∈ k :: ids) as He by set_solver. by rewrite (bool_decide_ext _ _ He).
Qed.

Lemma settle_all_spec ambiguous ids s s' : sorted_rows sc_id (s_connections s) → foldM (settle_one ambiguous) s ids = Ok s' → settles s ids ambiguous s'.
Proof.
  revert s. induction ids as [|k ids IH]; intros s Hs H; simpl in H.
  - inv_ok. split; try done. intros k. destruct (conn s' k); [|done]. simpl. f_equal.
  - inv_ok. destruct (settle_one_spec _ _ _ _ Hs H0) as [L1 S1 H1 E1 [R1 A1]]. destruct (IH _ S1 H) as [L2 S2 H2 E2 [R2 A2]].
    split; [|done|congruence|congruence|split; congruence]. intros k'. rewrite L2, L1. destruct (conn s k'); simpl; [|done]. f_equal. apply settle_row_app.
Qed.

Lemma elem_of_sorted_set x l : x ∈ sorted_identities l ↔ x ∈ l.
Proof. unfold sorted_identities. by rewrite (sorted_key_perm id), elem_of_remove_dups. Qed.

(** ** Valid rows *)

Definition ciphertext_ok (c : StoredConnection) : Prop :=
  match sc_encrypted_state c with
  | None => sc_state_digest c = None ∧ sc_status c ∈ [REAUTHORIZATION_REQUIRED; REVOKED; ERASURE_PENDING]
  | Some state => str_empty state = false ∧ sc_state_digest c = Some (sha256_hex state)
  end.

Lemma validate_ciphertext_Ok c u : validate_ciphertext sha256_hex c = Ok u ↔ ciphertext_ok c.
Proof.
  unfold validate_ciphertext, ciphertext_ok. rewrite bind_unit, raise_if_negb, Bool.eqb_true_iff.
  destruct (sc_encrypted_state c) as [state|]; [rewrite bind_unit, raise_if_Ok|]; rewrite raise_if_negb, bool_decide_eq_true.
  - split; [tauto|]. intros [? ->]. done.
  - rewrite bool_decide_true by done. split; intros [H ?]; (split; [|done]); [symmetry in H; by apply bool_decide_eq_true in H|by rewrite H].
Qed.

Definition connection_ok (c : StoredConnection) : Prop :=
  stored_text_ok (sc_id c) = true ∧ stored_text_ok (sc_provider c) = true ∧ stored_text_ok (sc_account_fingerprint c) = true ∧
  stored_text_ok (sc_profile c) = true ∧ 0 < sc_authority_epoch c ∧ 0 < sc_state_version c ∧ ciphertext_ok c.

Lemma validate_connection_Ok c u : validate_connection sha256_hex c = Ok u ↔ connection_ok c.
Proof.
  unfold validate_connection, connection_ok, stored_text, stored_positive.
  rewrite !bind_unit, !raise_if_negb, !raise_if_Ok, !Z.leb_gt, validate_ciphertext_Ok. done.
Qed.

Definition lease_ok (l : StoredLease) : Prop :=
  stored_text_ok (sl_id l) = true ∧ stored_text_ok (sl_attachment_id l) = true ∧ stored_text_ok (sl_connection_id l) = true ∧
  stored_text_ok (sl_host_id l) = true ∧ 0 < sl_host_epoch l ∧ 0 < sl_authority_epoch l ∧ 0 < sl_base_version l ∧
  (sl_activated l = true → sl_mode l = LEASE_REFRESH) ∧ (sl_released l = true ↔ is_Some (sl_release_reason l)).

Lemma validate_lease_value_Ok l u : validate_lease_value l = Ok u ↔ lease_ok l.
Proof.
  unfold validate_lease_value, lease_ok, stored_text, stored_positive.
  rewrite !bind_unit, !raise_if_negb, !raise_if_Ok, !Z.leb_gt, andb_false_iff, negb_false_iff, bool_decide_eq_true, Bool.eqb_true_iff.
  assert (sl_released l = bool_decide (is_Some (sl_release_reason l)) ↔ (sl_released l = true ↔ is_Some (sl_release_reason l))) as ->.
  { case_bool_decide; destruct (sl_released l); naive_solver. }
  destruct (sl_activated l); naive_solver.
Qed.

Lemma validate_host_Ok h u : validate_host h = Ok u ↔ stored_text_ok (sh_id h) = true ∧ 0 < sh_epoch h.
Proof. unfold validate_host, stored_text, stored_positive. by rewrite bind_unit, raise_if_negb, raise_if_Ok, Z.leb_gt. Qed.

Lemma settled_connection_ok b c : connection_ok c → sc_status c = REFRESHING → connection_ok (settled_connection b c).
Proof.
  unfold connection_ok, ciphertext_ok. intros (? & ? & ? & ? & ? & ? & Hc) Hs. rewrite Hs in Hc.
  destruct b; simpl; split_and!; try done; try lia; [by left|]. destruct (sc_encrypted_state c); [done|]. destruct Hc as [_ Hc]. set_solver.
Qed.

Lemma settle_row_ok ids ambiguous c : connection_ok c → connection_ok (settle_row ids ambiguous c).
Proof.
  intros Hc. unfold settle_row. destruct (bool_decide (sc_id c ∈ ids)); [|done]. simpl. case_bool_decide; [by apply settled_connection_ok|done].
Qed.

Lemma released_lease_ok reason l : lease_ok l → lease_ok (released_lease reason l).
Proof. intros (? & ? & ? & ? & ? & ? & ? & ? & ?). split_and!; try done. Qed.

(** ** Changes that keep a snapshot valid *)

(** [s0] is [s] but for its hosts, which have only moved on. *)
Record rehosted (s s0 : StorageSnapshot) : Prop := Rehosted {
  rh_conns : s_connections s0 = s_connections s;
  rh_leases : s_leases s0 = s_leases s;
  rh_log : same_log s s0;
  rh_sorted : sorted_rows sh_id (s_hosts s0);
  rh_valid k h : host s0 k = Some h → validate_host h = Ok tt;
  rh_epochs k h : host s k = Some h → ∃ h', host s0 k = Some h' ∧ sh_epoch h ≤ sh_epoch h'
}.

Lemma rehosted_refl s : wf s → rehosted s s.
Proof. intros Hw. split; try done; [apply Hw|apply (wf_host _ Hw)|]. intros k h H. exists h. split; [done|lia]. Qed.

(** A snapshot whose leases all stem from leases of a valid one. *)
Record stems (s s' : StorageSnapshot) : Prop := Stems {
  sm_hosts : sorted_rows sh_id (s_hosts s');
  sm_conns : sorted_rows sc_id (s_connections s');
  sm_leases : sorted_rows sl_id (s_leases s');
  sm_log : same_log s s';
  sm_lease k l' : lease s' k = Some l' → ∃ l, lease s k = Some l ∧ fence_of l' = fence_of l ∧ sl_mode l' = sl_mode l ∧
    (live l' → live l) ∧ lease_ok l'
}.

Lemma stems_wf s s' : wf s → stems s s' → (∀ k h, host s' k = Some h → validate_host h = Ok tt) → (∀ k c, conn s' k = Some c → connection_ok c) →
  (∀ k l, lease s' k = Some l → lease_authority s' l) →
  (∀ k c, conn s' k = Some c → sc_status c = REFRESHING →
    ∃ k' l, lease s' k' = Some l ∧ live l ∧ sl_mode l = LEASE_REFRESH ∧ sl_connection_id l = k) → wf s'.
Proof.
  intros Hw [Hh Hc Hl [HR HA] Hinv] Hhv Hcv Hau Href. split; try done.
  - rewrite HR, HA. apply (wf_revision _ Hw).
  - intros k k' l1 l2 H1 H2 He. destruct (Hinv _ _ H1) as (m1 & M1 & [= E1 _ _ _ _ _ _] & _), (Hinv _ _ H2) as (m2 & M2 & [= E2 _ _ _ _ _ _] & _).
    eapply (wf_attachments _ Hw); [exact M1|exact M2|congruence].
  - intros k c Hk. apply validate_connection_Ok. by eapply Hcv.
  - intros k l Hk. apply validate_lease_value_Ok. by destruct (Hinv _ _ Hk) as (? & _ & _ & _ & _ & ?).
  - intros k k' l1 l2 H1 H2 Hv1 Hv2 Hm He. destruct (Hinv _ _ H1) as (m1 & M1 & [= _ _ E1 _ _ _ _] & Em & L1 & _), (Hinv _ _ H2) as (m2 & M2 & [= _ _ E2 _ _ _ _] & _ & L2 & _).
    eapply (wf_exclusive _ Hw); [exact M1|exact M2|auto|auto|congruence|congruence].
  - rewrite HA. apply (wf_audit _ Hw).
Qed.

(** [s'] holds the leases of [s], those of [sel] released. *)
Lemma released_lookup s s' sel reason k l' : wf s → (∀ l, l ∈ sel → lease s (sl_id l) = Some l) →
  (∀ k, lease s' k = updated sl_id (released_lease reason) sel <$> lease s k) → lease s' k = Some l' →
  ∃ l, lease s k = Some l ∧ (l ∈ sel ∧ l' = released_lease reason l ∨ l ∉ sel ∧ l' = l).
Proof.
  intros Hw Hsel HL H. rewrite HL in H. destruct (lease s k) as [l|] eqn:E; [|done]. injection H as <-. exists l. split; [done|].
  by eapply updated_lease.
Qed.

Lemma released_stem s k l l' (sel : list StoredLease) reason : wf s → lease s k = Some l → l ∈ sel ∧ l' = released_lease reason l ∨ l ∉ sel ∧ l' = l →
  fence_of l' = fence_of l ∧ sl_mode l' = sl_mode l ∧ (live l' → live l) ∧ lease_ok l'.
Proof.
  intros Hw Hk H. apply (wf_lease _ Hw) in Hk as Hok. apply validate_lease_value_Ok in Hok.
  destruct H as [[_ ->]|[_ ->]]; split_and!; try done. by apply released_lease_ok.
Qed.

Lemma released_inherits s s' (sel : list StoredLease) reason : wf s → (∀ l, l ∈ sel → lease s (sl_id l) = Some l) →
  (∀ k, lease s' k = updated sl_id (released_lease reason) sel <$> lease s k) → inherits (λ _, False) s s'.
Proof.
  intros Hw Hsel HL k l' H. eapply released_lookup in H as (l & Hl & E); [|done..]. left. exists l. split; [done|]. by destruct E as [[_ ->]|[_ ->]].
Qed.

Lemma released_keeps s s' sel reason : wf s → (∀ l, l ∈ sel → lease s (sl_id l) = Some l ∧ live l) →
  (∀ k, lease s' k = updated sl_id (released_lease reason) sel <$> lease s k) →
  ∀ k l, lease s k = Some l → ∃ l', lease s' k = Some l' ∧ fence_of l' = fence_of l ∧ sl_mode l' = sl_mode l ∧
    (sl_released l = true → l' = l) ∧ (l ∉ sel → l' = l).
Proof.
  intros Hw Hsel HL k l Hl. exists (updated sl_id (released_lease reason) sel l). rewrite HL, Hl. split; [done|].
  destruct (updated_lease s sel reason k l Hw (λ l H, proj1 (Hsel l H)) Hl) as [[Hin ->]|[_ ->]]; [|done]. split_and!; [done..| |done].
  destruct (Hsel l Hin). congruence.
Qed.

(** What releasing live leases and settling their refreshes does to the rows. *)
Record released_view (s s0 : StorageSnapshot) (sel : list StoredLease) (reason : string) (s' : StorageSnapshot) : Prop := ReleasedView {
  rv_sel l : l ∈ sel → lease s (sl_id l) = Some l ∧ live l;
  rv_lease k : lease s' k = updated sl_id (released_lease reason) sel <$> lease s k;
  rv_conn k : conn s' k = settle_row (sorted_identities (sl_connection_id <$> refreshes sel))
    (sorted_identities (sl_connection_id <$> filter (λ l, sl_activated l = true) sel)) <$> conn s k;
  rv_host k : host s' k = host s0 k;
  rv_hosts : s_hosts s' = s_hosts s0;
  rv_conns_sorted : sorted_rows sc_id (s_connections s');
  rv_leases_sorted : sorted_rows sl_id (s_leases s');
  rv_log : same_log s s'
}.

Lemma release_view s s0 sel reason s2 ambiguous : wf s → rehosted s s0 →
  (∀ l, l ∈ sel → lease s (sl_id l) = Some l ∧ live l) →
  settle_released_refreshes (release_leases s0 sel reason) sel = Ok (s2, ambiguous) → released_view s s0 sel reason s2.
Proof.
  intros Hw [Hc0 Hl0 [Hr0 Ha0] Hs0 Hv0 He0] Hsel H.
  assert (∀ k, lease s0 k = lease s k) as Hl0' by (intros; unfold leases_of; by rewrite Hl0).
  assert (releases s0 sel reason (release_leases s0 sel reason)) as [L1 S1 H1 C1 [R1 A1]].
  { apply release_leases_spec; [rewrite Hl0; apply (wf_leases _ Hw)|]. intros l Hl. rewrite Hl0'. by apply (Hsel l Hl). }
  unfold settle_released_refreshes in H. apply bind_Ok in H as (s2' & H & Heq). injection Heq as <- <-.
  apply settle_all_spec in H as [C2 S2 H2 L2 [R2 A2]]; [|rewrite C1, Hc0; apply (wf_connections _ Hw)].
  split; try done.
  - intros k. unfold leases_of. rewrite L2. fold (leases_of (release_leases s0 sel reason)). by rewrite L1, Hl0'.
  - intros k. rewrite C2. unfold connections_of. by rewrite C1, Hc0.
  - intros k. unfold hosts_of. by rewrite H2, H1.
  - congruence.
  - by rewrite L2.
  - split; congruence.
Qed.

Lemma released_evolves s s0 sel reason s' : wf s → rehosted s s0 → released_view s s0 sel reason s' → evolves s s'.
Proof.
  intros Hw Hh [Hsel HL HC HH _ _ _ _]. split.
  - intros k l Hl. destruct (released_keeps s s' sel reason Hw Hsel HL k l Hl) as (l' & ? & ? & ? & ? & _). eauto.
  - intros k c Hc. rewrite HC, Hc. eexists. split; [done|]. unfold settle_row. destruct (_ && _); [|split; [lia|auto]].
    unfold settled_connection. destruct (bool_decide _); simpl; (split; [lia|right; auto]).
  - intros k h Hk. rewrite HH. by apply (rh_epochs _ _ Hh).
Qed.

(** Releasing live leases, and settling the refreshes among them, keeps a
    snapshot valid if every live lease left has its host untouched. *)
Lemma released_wf s s0 sel reason s' : wf s → rehosted s s0 → released_view s s0 sel reason s' →
  (∀ k l, lease s k = Some l → live l → l ∉ sel → host s0 (sl_host_id l) = host s (sl_host_id l)) → wf s'.
Proof.
  intros Hw Hh [Hsel HL HC HH Hhs HCs HLs Hlog] Hkeep. set (ids := sorted_identities (sl_connection_id <$> refreshes sel)) in *.
  assert (∀ l, l ∈ sel → lease s (sl_id l) = Some l) as Hsel' by (intros l Hl; by destruct (Hsel l Hl)).
  assert (∀ k l, lease s k = Some l → live l → l ∉ sel → sl_connection_id l ∉ ids) as Hout.
  { intros k l Hl Hlive Hn Hin. apply Hn. apply elem_of_sorted_set, list_elem_of_fmap in Hin as (y & Hy & [Hys Hm]%elem_of_refreshes).
    destruct (Hsel y Hys) as [Hyl Hyv]. assert (sl_id y = k) as Hk by (by eapply (wf_exclusive _ Hw)).
    rewrite Hk in Hyl. congruence. }
  apply (stems_wf s).
  - done.
  - split; [rewrite Hhs; apply (rh_sorted _ _ Hh)|done..|]. intros k l' H.
    apply (released_lookup s s' sel reason) in H as (l & Hl & E); [|done..]. exists l. split; [done|]. by eapply released_stem.
  - intros k h Hk. rewrite HH in Hk. by eapply (rh_valid _ _ Hh).
  - intros k c' Hk. rewrite HC in Hk. destruct (conn s k) as [c|] eqn:E; [|done]. injection Hk as <-.
    apply settle_row_ok. eapply validate_connection_Ok. by eapply (wf_conn _ Hw).
  - intros k l' Hk. apply (released_lookup s s' sel reason) in Hk as (l & Hk & E); [|done..].
    destruct (wf_authority _ Hw _ _ Hk) as (h & c & Hhk & Hck & Hlive). destruct (rh_epochs _ _ Hh _ _ Hhk) as (h' & Hhk' & _).
    assert (sl_host_id l' = sl_host_id l ∧ sl_connection_id l' = sl_connection_id l) as [Eh Ec] by (by destruct E as [[_ ->]|[_ ->]]).
    exists h'. eexists. rewrite Eh, Ec, HH, HC, Hhk', Hck. split; [done|]. split; [done|]. destruct E as [[_ ->]|[Hn ->]]; [done|].
    intros Hv. rewrite (Hkeep _ _ Hk Hv Hn), Hhk in Hhk'. injection Hhk' as <-.
    assert (settle_row ids (sorted_identities (sl_connection_id <$> filter (λ l, sl_activated l = true) sel)) c = c) as ->; [|by apply Hlive].
    unfold settle_row. rewrite (conn_id _ _ _ Hw Hck), (bool_decide_false (_ ∈ ids)); [done|]. by eapply Hout.
  - intros k c' Hk Hs. rewrite HC in Hk. destruct (conn s k) as [c|] eqn:E; [|done]. injection Hk as <-.
    unfold settle_row in Hs. rewrite (conn_id _ _ _ Hw E) in Hs. destruct (bool_decide (k ∈ ids)) eqn:Ein; simpl in Hs.
    { case_bool_decide as Hc; [by apply settled_connection_status in Hs|done]. }
    apply bool_decide_eq_false in Ein. destruct (wf_refreshing _ Hw _ _ E Hs) as (k' & l & Hl & Hv & Hm & He).
    exists k', l. split_and!; try done. destruct (released_keeps s s' sel reason Hw Hsel HL k' l Hl) as (l' & Hl' & _ & _ & _ & Hsame).
    rewrite Hl'. f_equal. apply Hsame. intros Hin. apply Ein, elem_of_sorted_set, list_elem_of_fmap. exists l. split; [done|]. by apply elem_of_refreshes.
Qed.

Lemma released_sound s s0 sel reason s' : wf s → rehosted s s0 → released_view s s0 sel reason s' →
  (∀ k l, lease s k = Some l → live l → l ∉ sel → host s0 (sl_host_id l) = host s (sl_host_id l)) → sound s s'.
Proof.
  intros Hw Hh Hv Hkeep. split; [by eapply released_wf|]. split; [by eapply released_evolves|]. split; [apply (rv_log _ _ _ _ _ Hv)|].
  eapply released_inherits; [done| |apply (rv_lease _ _ _ _ _ Hv)]. intros l Hl. by destruct (rv_sel _ _ _ _ _ Hv l Hl).
Qed.

Lemma replace_leases_lookup s d k : keyed sl_id d → lease (replace_leases s d) k = dget k d.
Proof. intros Hd. unfold leases_of at 1. simpl. by apply index_rows. Qed.

(** A connection is replaced by one that is not refreshing, all its live leases
    being released. *)
Lemma reset_sound s sel reason c' : wf s → (∀ l, l ∈ sel → lease s (sl_id l) = Some l ∧ live l ∧ sl_connection_id l = sc_id c') →
  (∀ k l, lease s k = Some l → live l → sl_connection_id l = sc_id c' → l ∈ sel) → connection_ok c' → sc_status c' ≠ REFRESHING →
  (∀ c, conn s (sc_id c') = Some c → sc_authority_epoch c ≤ sc_authority_epoch c' ∧
     (sc_state_version c < sc_state_version c' ∨ sc_state_version c = sc_state_version c' ∧
      (sc_encrypted_state c' = sc_encrypted_state c ∨ sc_encrypted_state c' = None))) →
  sound s (replace_connection (release_leases s sel reason) c').
Proof.
  intros Hw Hsel Hall Hok Hst Hmono. set (s1 := release_leases s sel reason).
  assert (∀ l, l ∈ sel → lease s (sl_id l) = Some l) as Hsel' by (intros l Hl; by destruct (Hsel l Hl)).
  assert (releases s sel reason s1) as [L1 S1 H1 C1 [R1 A1]] by (by apply release_leases_spec; [apply (wf_leases _ Hw)|]).
  set (s' := replace_connection s1 c').
  assert (∀ k, lease s' k = updated sl_id (released_lease reason) sel <$> lease s k) as HL by exact L1.
  assert (∀ k, conn s' k = if decide (k = sc_id c') then Some c' else conn s k) as HC.
  { intros k. unfold s'. rewrite replace_connection_lookup by (rewrite C1; apply (wf_connections _ Hw)). unfold connections_of. by rewrite C1. }
  assert (∀ k, host s' k = host s k) as HH by (intros k; unfold hosts_of; simpl; by rewrite H1).
  assert (same_log s s') as Hlog by (by split).
  assert (∀ l, l ∈ sel → lease s (sl_id l) = Some l ∧ live l) as Hsel2 by (intros l Hl; by destruct (Hsel l Hl) as (? & ? & _)).
  pose proof (released_keeps s s' sel reason Hw Hsel2 HL) as Hkeeps.
  split; [|split; [|split; [done|by eapply released_inherits]]].
  - apply (stems_wf s).
    + done.
    + split; try done; [simpl; rewrite H1; apply (wf_hosts _ Hw)|apply replace_connection_sorted; rewrite C1; apply (wf_connections _ Hw)|].
      intros k l' H. apply (released_lookup s s' sel reason) in H as (l & Hl & E); [|done..]. exists l. split; [done|]. by eapply released_stem.
    + intros k h. rewrite HH. apply (wf_host _ Hw).
    + intros k c. rewrite HC. case_decide; [by intros [= <-]|]. intros Hk. eapply validate_connection_Ok. by eapply (wf_conn _ Hw).
    + intros k l' Hk. apply (released_lookup s s' sel reason) in Hk as (l & Hk & E); [|done..].
      destruct (wf_authority _ Hw _ _ Hk) as (h & c & Hhk & Hck & Hlive).
      assert (sl_host_id l' = sl_host_id l ∧ sl_connection_id l' = sl_connection_id l) as [Eh Ec] by (by destruct E as [[_ ->]|[_ ->]]).
      unfold lease_authority. rewrite Eh, Ec, HH, HC. case_decide as Hd; [exists h, c'|exists h, c]; (split; [done|]; split; [done|]).
      * destruct E as [[_ ->]|[Hn ->]]; [done|]. intros Hv. destruct Hn. by eapply Hall.
      * destruct E as [[_ ->]|[Hn ->]]; [done|]. apply Hlive.
    + intros k c Hk Hs. rewrite HC in Hk. case_decide as Hd; [congruence|]. destruct (wf_refreshing _ Hw _ _ Hk Hs) as (k' & l & Hl & Hv & Hm & He).
      exists k', l. split_and!; try done. destruct (Hkeeps k' l Hl) as (l' & -> & _ & _ & _ & Hsame). f_equal. apply Hsame.
      intros Hin. destruct (Hsel l Hin) as (_ & _ & ?). congruence.
  - split.
    + intros k l Hl. destruct (Hkeeps k l Hl) as (l' & ? & ? & ? & ? & _). eauto.
    + intros k c Hc. rewrite HC. case_decide as Hd; [subst k; exists c'; split; [done|]; by apply Hmono|]. exists c. split; [done|]. split; [lia|auto].
    + intros k h Hk. rewrite HH. exists h. split; [done|lia].
Qed.

Lemma keyed_leases s l : wf s → keyed sl_id (dset (sl_id l) l (leases_of s)).
Proof. intros Hw. apply keyed_dset, index_keyed, (wf_leases _ Hw). Qed.

(** A live lease is updated in place. *)
Lemma update_sound s l l' : wf s → lease s (sl_id l) = Some l → live l → fence_of l' = fence_of l → sl_mode l' = sl_mode l →
  live l' → lease_ok l' → sound s (replace_leases s (dset (sl_id l) l' (leases_of s))).
Proof.
  intros Hw Hl Hv Hf Hm Hv' Hok. assert (sl_id l' = sl_id l) as Hid by (by injection Hf). rewrite <-Hid.
  assert (∀ k, lease (replace_leases s (dset (sl_id l') l' (leases_of s))) k = if decide (k = sl_id l') then Some l' else lease s k) as HL.
  { intros k. rewrite replace_leases_lookup by (by apply keyed_leases). apply dget_dset. }
  split; [|split; [|split; [done|]]].
  - apply (stems_wf s).
    + done.
    + split; try done; [apply (wf_hosts _ Hw)|apply (wf_connections _ Hw)|by apply rows_sorted, keyed_leases|].
      intros k m. rewrite HL. case_decide as Hk; [intros [= <-]; exists l; subst k; rewrite Hid; by split_and!|].
      intros Hk'. exists m. split_and!; try done. eapply validate_lease_value_Ok. by eapply (wf_lease _ Hw).
    + apply (wf_host _ Hw).
    + intros k c Hk. eapply validate_connection_Ok. by eapply (wf_conn _ Hw).
    + intros k m. rewrite HL. case_decide as Hk; [intros [= <-]|apply (wf_authority _ Hw)].
      destruct (wf_authority _ Hw _ _ Hl) as (h & c & Hh & Hc & Hlive). injection Hf as _ _ E1 E2 E3 E4 E5. unfold lease_authority.
      rewrite E1, E2, E3, E4, E5, Hm. exists h, c. split_and!; [done..|]. intros _. by apply Hlive.
    + intros k c Hk Hs. destruct (wf_refreshing _ Hw _ _ Hk Hs) as (k' & m & Hk' & Hmv & Hmm & Hmc). injection Hf as _ _ E1 _ _ _ _.
      destruct (decide (k' = sl_id l')) as [->|Hne].
      * exists (sl_id l'), l'. rewrite HL, decide_True by done. rewrite Hid, Hl in Hk'. injection Hk' as <-. split_and!; [done..|congruence|congruence].
      * exists k', m. rewrite HL, decide_False by done. done.
  - split.
    + intros k m Hk. rewrite HL. case_decide as Hd; [|by exists m]. rewrite Hd, Hid, Hl in Hk. injection Hk as <-. exists l'.
      split_and!; try done. congruence.
    + apply (ev_conn _ _ (evolves_refl s)).
    + apply (ev_host _ _ (evolves_refl s)).
  - intros k m. rewrite HL. case_decide as Hk; [intros [= <-]; left; exists l; by rewrite Hk, Hid|intros ?; left; by exists m].
Qed.

Definition refreshed (mode : LeaseMode) (c : StoredConnection) (s : StorageSnapshot) : StorageSnapshot :=
  if bool_decide (mode = LEASE_REFRESH) then replace_connection s (with_status REFRESHING c) else s.

(** A new lease on a ready connection, alone if it is to refresh. *)
Lemma grant_sound s l h c : wf s → lease s (sl_id l) = None → (∀ k l', lease s k = Some l' → sl_attachment_id l' ≠ sl_attachment_id l) →
  host s (sl_host_id l) = Some h → sh_active h = true → sh_epoch h = sl_host_epoch l →
  conn s (sl_connection_id l) = Some c → sc_status c = READY → sc_authority_epoch c = sl_authority_epoch l → sc_state_version c = sl_base_version l →
  lease_ok l → live l → (sl_mode l = LEASE_REFRESH → ∀ k l', lease s k = Some l' → sl_connection_id l' = sl_connection_id l → sl_released l' = true) →
  sound_new (λ l', l' = l) s (refreshed (sl_mode l) c (replace_leases s (dset (sl_id l) l (leases_of s)))).
Proof.
  intros Hw Hnew Hatt Hh Hact Hep Hc Hst Hae Hsv Hok Hv Halone. set (s1 := replace_leases _ _). set (s' := refreshed (sl_mode l) c s1).
  assert (∀ k, lease s' k = if decide (k = sl_id l) then Some l else lease s k) as HL.
  { intros k. transitivity (lease s1 k); [unfold s', refreshed; by case_bool_decide|]. unfold s1.
    rewrite replace_leases_lookup by (by apply keyed_leases). apply dget_dset. }
  set (c' := if bool_decide (sl_mode l = LEASE_REFRESH) then with_status REFRESHING c else c).
  assert (∀ k, conn s' k = if decide (k = sl_connection_id l) then Some c' else conn s k) as HC.
  { intros k. unfold s', refreshed, c'. case_bool_decide as Hm; [|case_decide; by subst].
    rewrite replace_connection_lookup by apply (wf_connections _ Hw). simpl. by rewrite (conn_id _ _ _ Hw Hc). }
  assert (∀ k, host s' k = host s k) as HH by (intros k; unfold s', refreshed; by case_bool_decide).
  assert (connection_ok c) as Hcok by (eapply validate_connection_Ok; by eapply (wf_conn _ Hw)).
  assert (connection_ok c') as Hcok'.
  { unfold c'. case_bool_decide; [|done]. destruct Hcok as (? & ? & ? & ? & ? & ? & Hci). split_and!; try done.
    unfold ciphertext_ok in *. simpl. destruct (sc_encrypted_state c); [done|]. destruct Hci as [_ Hci]. rewrite Hst in Hci. set_solver. }
  assert (∀ k m, lease s k = Some m → sl_connection_id m = sl_connection_id l → live m → sl_mode m = LEASE_REFRESH → False) as Hnoref.
  { intros k m Hk Hmc Hmv Hmm. destruct (wf_authority _ Hw _ _ Hk) as (h2 & c2 & _ & Hc2 & Hlive). rewrite Hmc, Hc in Hc2. injection Hc2 as <-.
    destruct (Hlive Hmv) as (_ & _ & _ & _ & _ & Hr). rewrite Hr in Hst by done. done. }
  assert (same_log s s') as Hlog by (unfold s', refreshed; by case_bool_decide).
  assert (sorted_rows sl_id (s_leases s')) as HLs.
  { replace (s_leases s') with (s_leases s1) by (unfold s', refreshed; by case_bool_decide). by apply rows_sorted, keyed_leases. }
  assert (sorted_rows sh_id (s_hosts s')) as HHs by (unfold s', refreshed; case_bool_decide; apply (wf_hosts _ Hw)).
  assert (sorted_rows sc_id (s_connections s')) as HCs.
  { unfold s', refreshed. case_bool_decide; [apply replace_connection_sorted|]; apply (wf_connections _ Hw). }
  clearbody s1 s'. pose proof Hlog as [HR HA]. split; [|split; [|split; [done|]]].
  - split; try done.
    + rewrite HR, HA. apply (wf_revision _ Hw).
    + intros k k' l1 l2. rewrite !HL. repeat case_decide; subst; try done.
      * intros [= <-] H2 He. symmetry in He. by apply Hatt in H2.
      * intros H1 [= <-] He. by apply Hatt in H1.
      * apply (wf_attachments _ Hw).
    + intros k h'. rewrite HH. apply (wf_host _ Hw).
    + intros k c2. rewrite HC. case_decide; [intros [= <-]; by apply validate_connection_Ok|apply (wf_conn _ Hw)].
    + intros k m. rewrite HL. case_decide; [intros [= <-]; by apply validate_lease_value_Ok|apply (wf_lease _ Hw)].
    + intros k m. rewrite HL. case_decide as Hd.
      * intros [= <-]. exists h, c'. rewrite HH, HC, decide_True by done. split; [done|]. split; [done|]. intros _.
        unfold c'. case_bool_decide; simpl; rewrite ?Hst; split_and!; try done; [by right; left|by left].
      * intros Hk. destruct (wf_authority _ Hw _ _ Hk) as (h2 & c2 & Hh2 & Hc2 & Hlive). unfold lease_authority. rewrite HH, HC.
        case_decide as Hcd; [|by exists h2, c2]. exists h2, c'. rewrite Hcd, Hc in Hc2. injection Hc2 as <-. split; [done|]. split; [done|].
        intros Hmv. destruct (Hlive Hmv) as (? & ? & ? & ? & Hin & Hr). unfold c'. case_bool_decide as Hm; [|by split_and!].
        rewrite (Halone Hm _ _ Hk Hcd) in Hmv. done.
    + intros k k' l1 l2. rewrite !HL. repeat case_decide; subst; try done.
      * intros [= <-] H2 _ Hv2 Hm He. rewrite (Halone Hm _ _ H2) in Hv2 by done. done.
      * intros H1 [= <-] Hv1 _ Hm He. by destruct (Hnoref _ _ H1).
      * apply (wf_exclusive _ Hw).
    + intros k c2. rewrite HC. case_decide as Hd.
      * intros [= <-] Hs. unfold c' in Hs. case_bool_decide as Hm; [|by rewrite Hst in Hs]. exists (sl_id l), l. rewrite HL, decide_True by done. by split_and!.
      * intros Hk Hs. destruct (wf_refreshing _ Hw _ _ Hk Hs) as (k' & m & Hk' & ?). exists k', m. rewrite HL. case_decide; [congruence|done].
    + rewrite HA. apply (wf_audit _ Hw).
  - split.
    + intros k m Hk. rewrite HL. case_decide; [congruence|]. by exists m.
    + intros k c2 Hk. rewrite HC. case_decide as Hd; [|exists c2; split; [done|]; split; [lia|auto]].
      rewrite Hd, Hc in Hk. injection Hk as <-. exists c'. split; [done|]. unfold c'. case_bool_decide; simpl; (split; [lia|auto]).
    + intros k h2 Hk. rewrite HH. exists h2. split; [done|lia].
  - intros k m. rewrite HL. case_decide; [intros [= <-]; by right|intros ?; left; by exists m].
Qed.

(** ** Every change is sound *)

Lemma selected_live s (sel : list StoredLease) : wf s → (∀ l, l ∈ sel → l ∈ s_leases s ∧ live l) → ∀ l, l ∈ sel → lease s (sl_id l) = Some l ∧ live l.
Proof. intros Hw H l Hl. destruct (H l Hl). split; [|done]. apply lease_Some; [apply (wf_leases _ Hw)|done]. Qed.

Lemma lease_in s k l : wf s → lease s k = Some l → l ∈ s_leases s.
Proof. intros Hw H. apply lease_Some in H as [? ?]; [done|apply (wf_leases _ Hw)]. Qed.

Lemma elem_of_expired s now l : l ∈ expired_leases s now ↔ l ∈ s_leases s ∧ live l ∧ sl_expires_at l ≤ now.
Proof. unfold expired_leases. rewrite list_elem_of_filter, andb_true_iff, negb_true_iff, Z.leb_le. tauto. Qed.

Lemma elem_of_active s now mine l : l ∈ active_leases s now mine ↔ l ∈ s_leases s ∧ live l ∧ now < sl_expires_at l ∧ mine l = true.
Proof. unfold active_leases. rewrite list_elem_of_filter, !andb_true_iff, negb_true_iff, Z.ltb_lt. tauto. Qed.

(** [s'] is [s] with the leases expired at [now] released and settled. *)
Record reconciled (s : StorageSnapshot) (now : Z) (s' : StorageSnapshot) : Prop := Reconciled {
  rc_sound : sound s s';
  rc_live k l : lease s' k = Some l → live l → now < sl_expires_at l;
  rc_stem k l' : lease s' k = Some l' → ∃ l, lease s k = Some l ∧ fence_of l' = fence_of l
}.

Lemma rc_wf s now s' : reconciled s now s' → wf s'.
Proof. by intros [[Hw _] _ _]. Qed.

Lemma reconcile_reconciled s now s' ids ambiguous : wf s → reconcile_expired s now = Ok (s', ids, ambiguous) → reconciled s now s'.
Proof.
  intros Hw H. unfold reconcile_expired in H. apply bind_Ok in H as ([s2 amb] & H & Heq). injection Heq as <- _ _.
  pose proof (selected_live s (expired_leases s now) Hw) as Hsel.
  assert (∀ l, l ∈ expired_leases s now → lease s (sl_id l) = Some l ∧ live l) as Hsel'.
  { apply Hsel. intros l [? [? _]]%elem_of_expired. done. }
  pose proof (release_view s s (expired_leases s now) "expired" s2 amb Hw (rehosted_refl s Hw) Hsel' H) as Hv. split.
  - by apply (released_sound s s (expired_leases s now) "expired"); [|apply rehosted_refl| |].
  - intros k l Hl Hlv. apply (released_lookup s s2 (expired_leases s now) "expired") in Hl as (m & Hm & E); [|done|by intros l0 [? _]%Hsel'|apply (rv_lease _ _ _ _ _ Hv)].
    destruct E as [[_ ->]|[Hn ->]]; [done|]. destruct (Z.lt_ge_cases now (sl_expires_at m)) as [|Hle]; [done|]. destruct Hn.
    apply elem_of_expired. split; [by eapply lease_in|done].
  - intros k l' Hl. apply (released_lookup s s2 (expired_leases s now) "expired") in Hl as (m & Hm & E); [|done|by intros l0 [? _]%Hsel'|apply (rv_lease _ _ _ _ _ Hv)].
    exists m. split; [done|]. by destruct E as [[_ ->]|[_ ->]].
Qed.

(** Live leases released and settled, nothing else changing. *)
Lemma settle_sound s (sel : list StoredLease) reason s' ambiguous : wf s → (∀ l, l ∈ sel → l ∈ s_leases s ∧ live l) →
  settle_released_refreshes (release_leases s sel reason) sel = Ok (s', ambiguous) → sound s s'.
Proof.
  intros Hw Hsel H. pose proof (selected_live s sel Hw Hsel) as Hsel'.
  pose proof (release_view s s sel reason s' ambiguous Hw (rehosted_refl s Hw) Hsel' H) as Hv.
  by apply (released_sound s s sel reason); [|apply rehosted_refl| |].
Qed.

(** A host is enrolled anew or removed, and its live leases released. *)
Lemma rehost_sound s now h sel reason s' ambiguous : wf s → (∀ k l, lease s k = Some l → live l → now < sl_expires_at l) →
  validate_host h = Ok tt → (∀ h0, host s (sh_id h) = Some h0 → sh_epoch h0 ≤ sh_epoch h) →
  sel = active_leases s now (λ l, String.eqb (sl_host_id l) (sh_id h)) →
  settle_released_refreshes (release_leases (replace_hosts s (dset (sh_id h) h (hosts_of s))) sel reason) sel = Ok (s', ambiguous) → sound s s'.
Proof.
  intros Hw Hfresh Hok Hep -> H. set (sel := active_leases _ _ _) in *. set (s0 := replace_hosts _ _) in *.
  assert (keyed sh_id (dset (sh_id h) h (hosts_of s))) as Hk by (apply keyed_dset, index_keyed, (wf_hosts _ Hw)).
  assert (∀ k, host s0 k = if decide (k = sh_id h) then Some h else host s k) as HH.
  { intros k. unfold s0, hosts_of at 1. simpl. rewrite index_rows by done. apply dget_dset. }
  assert (rehosted s s0) as Hr.
  { split; try done.
    - by apply rows_sorted.
    - intros k h'. rewrite HH. case_decide; [by intros [= <-]|apply (wf_host _ Hw)].
    - intros k h0 Hh0. rewrite HH. case_decide as Hd; [subst; eauto|]. exists h0. split; [done|lia]. }
  pose proof (selected_live s sel Hw) as Hsel. assert (∀ l, l ∈ sel → lease s (sl_id l) = Some l ∧ live l) as Hsel'.
  { apply Hsel. intros l [? [? _]]%elem_of_active. done. }
  pose proof (release_view s s0 sel reason s' ambiguous Hw Hr Hsel' H) as Hv.
  eapply released_sound; [done..|]. intros k l Hl Hlv Hn. rewrite HH. case_decide as Hd; [|done]. destruct Hn.
  apply elem_of_active. split_and!; [by eapply lease_in|done|by eapply Hfresh|]. by apply String.eqb_eq.
Qed.

Lemma text_stored x : text_ok x = true → stored_text_ok x = true.
Proof. unfold text_ok, stored_text_ok. rewrite !andb_true_iff. tauto. Qed.

Lemma conn_ok s k c : wf s → conn s k = Some c → connection_ok c.
Proof. intros Hw Hk. eapply validate_connection_Ok. by eapply (wf_conn _ Hw). Qed.

(** A connection that is neither ready nor refreshing has no live leases. *)
Lemma closed_unleased s k c : wf s → conn s k = Some c → sc_status c ∉ [READY; REFRESHING] →
  ∀ k' l, lease s k' = Some l → live l → sl_connection_id l ≠ k.
Proof.
  intros Hw Hc Hs k' l Hl Hv He. destruct (wf_authority _ Hw _ _ Hl) as (h & c' & _ & Hc' & Hlive). rewrite He, Hc in Hc'.
  injection Hc' as <-. by destruct (Hlive Hv) as (_ & _ & _ & _ & ? & _).
Qed.

Lemma with_state_ok status epoch version state c : connection_ok c → 0 < epoch → 0 < version →
  match state with
  | Some x => str_empty x = false
  | None => status ∈ [REAUTHORIZATION_REQUIRED; REVOKED; ERASURE_PENDING]
  end → connection_ok (with_generation status epoch version state (sha256_hex <$> state) c).
Proof. intros (? & ? & ? & ? & _) ? ? Hs. split_and!; try done. unfold ciphertext_ok. simpl. by destruct state. Qed.

(** All live leases of a connection are released, and it is given a new state. *)
Lemma renew_authority s k c status epoch version state reason : wf s → conn s k = Some c → status ≠ REFRESHING →
  sc_authority_epoch c ≤ epoch → sc_state_version c < version →
  match state with
  | Some x => str_empty x = false
  | None => status ∈ [REAUTHORIZATION_REQUIRED; REVOKED; ERASURE_PENDING]
  end →
  sound s (replace_connection (release_leases s (unreleased_of k (s_leases s)) reason) (with_generation status epoch version state (sha256_hex <$> state) c)).
Proof.
  intros Hw Hc Hs He Hv Hst. pose proof (conn_ok _ _ _ Hw Hc) as Hok. pose proof (conn_id _ _ _ Hw Hc) as Hid.
  assert (0 < sc_authority_epoch c ∧ 0 < sc_state_version c) as [? ?] by (by destruct Hok as (_ & _ & _ & _ & ? & ? & _)).
  apply reset_sound; [done| | |by apply with_state_ok; [|lia..|]|done|].
  - intros l Hl%(live_lookup _ _ _ (wf_leases _ Hw)). simpl. rewrite Hid. tauto.
  - intros k' l Hl Hlv. simpl. rewrite Hid. intros Hlc. apply elem_of_unreleased. split_and!; [by eapply lease_in|done..].
  - intros c0. simpl. rewrite Hid, Hc. intros [= <-]. split; [lia|left; lia].
Qed.

Lemma require_current_Ok s f now mode l : require_current_lease s f now mode = Ok l ↔
  lease s (af_lease_id f) = Some l ∧ live l ∧ now < sl_expires_at l ∧ sl_mode l = mode ∧ lease_matches l f = true ∧
  ∃ h, host s (af_host_id f) = Some h ∧ sh_active h = true ∧ sh_epoch h = af_host_epoch f.
Proof.
  unfold require_current_lease. destruct (lease s (af_lease_id f)) as [l0|]; [|naive_solver].
  destruct (host s (af_host_id f)) as [h|]; [|naive_solver].
  assert ((negb (sh_active h) || negb (sh_epoch h =? af_host_epoch f) || sl_released l0 || (sl_expires_at l0 <=? now)
    || negb (bool_decide (sl_mode l0 = mode)) || negb (lease_matches l0 f)) = false ↔
    sh_active h = true ∧ sh_epoch h = af_host_epoch f ∧ live l0 ∧ now < sl_expires_at l0 ∧ sl_mode l0 = mode ∧ lease_matches l0 f = true) as Hc.
  { rewrite !orb_false_iff, !negb_false_iff, Z.eqb_eq, Z.leb_gt, bool_decide_eq_true. tauto. }
  rewrite refused_unless, Hc. split.
  - intros [(? & ? & ? & ? & ? & ?) <-]. split_and!; try done. by exists h.
  - intros ([= <-] & ? & ? & ? & ? & h' & [= <-] & ? & ?). by split_and!.
Qed.

Lemma lease_matches_iff l f : lease_matches l f = true ↔ fence_of l = MkAttachmentFence (af_attachment_id f) (sl_id l) (af_connection_id f)
  (af_host_id f) (af_host_epoch f) (af_authority_epoch f) (af_base_version f).
Proof.
  unfold lease_matches, fence_of. rewrite !andb_true_iff, !String.eqb_eq, !Z.eqb_eq. split; [|by intros [= -> -> -> -> -> ->]].
  intros [[[[[-> ->] ->] ->] ->] ->]. done.
Qed.

Definition lease_name (operation : string) : string := "lease-" +:+ hash_suffix sha256_hex operation.
Definition attachment_name (operation : string) : string := "attachment-" +:+ hash_suffix sha256_hex operation.

(** The changes operations publish, under the operation's identity; [grants]
    holds of the operations that may grant a lease. *)
Inductive changed (grants : Prop) (s : StorageSnapshot) (op : string) : StorageSnapshot → Prop :=
| ch_enroll host now c : text_ok host = true → enroll_change host now s = Ok c → changed grants s op (ch_snapshot c)
| ch_remove host now c : remove_change host now s = Ok c → changed grants s op (ch_snapshot c)
| ch_authorize i current epoch version event encrypted c : identity_ok i = true →
    authorization_plan i current = Ok (epoch, version, event) → str_empty encrypted = false →
    authorize_change sha256_hex i current epoch version encrypted s = Ok c → changed grants s op (ch_snapshot c)
| ch_acquire connection host mode now expires_at c : grants →
    acquire_change connection host mode now expires_at (lease_name op) (attachment_name op) s = Ok c → changed grants s op (ch_snapshot c)
| ch_activate f now c : activate_change f now s = Ok c → changed grants s op (ch_snapshot c)
| ch_renew f mode ttl now c : renew_change f mode ttl now s = Ok c → changed grants s op (ch_snapshot c)
| ch_checkpoint f encrypted now c : str_empty encrypted = false → checkpoint_change sha256_hex f encrypted now s = Ok c → changed grants s op (ch_snapshot c)
| ch_release f mode now c : release_change f mode now s = Ok c → changed grants s op (ch_snapshot c)
| ch_rotate connection current encrypted c : str_empty encrypted = false → rotate_change sha256_hex connection current encrypted s = Ok c →
    changed grants s op (ch_snapshot c)
| ch_revoke connection c : revoke_change connection s = Ok c → changed grants s op (ch_snapshot c)
| ch_prepare connection c : prepare_change connection s = Ok c → changed grants s op (ch_snapshot c)
| ch_finish connection erased c : finish_change connection erased s = Ok c → changed grants s op (ch_snapshot c)
| ch_recover now c : recover_change now s = Ok c → changed grants s op (ch_snapshot c)
| ch_admit purpose f now c : admit_change purpose f now s = Ok c → changed grants s op (ch_snapshot c)
| ch_reconcile now c : reconcile_change now s = Ok c → changed grants s op (ch_snapshot c)
| ch_abort l c : abort_change l s = Ok c → changed grants s op (ch_snapshot c).

(** No lease of the snapshot was named after the operation. *)
Definition unused (s : StorageSnapshot) (op : string) : Prop :=
  ∀ k l, lease s k = Some l → k ≠ lease_name op ∧ sl_attachment_id l ≠ attachment_name op.

Lemma enroll_sound s host now c : wf s → text_ok host = true → enroll_change host now s = Ok c → sound s (ch_snapshot c).
Proof.
  intros Hw Ht H. unfold enroll_change in H. inv_change H. apply reconcile_reconciled in Hx; [|done].
  eapply sound_trans; [apply (rc_sound _ _ _ Hx)|intros Hw1]. eapply (rehost_sound _ now (MkStoredHost host _ true)); [done|apply (rc_live _ _ _ Hx)| | |done|exact Hx0].
  - apply validate_host_Ok. split; [by apply text_stored|]. simpl. destruct (dget host _) as [h|] eqn:E; [|done].
    apply (wf_host _ Hw1) in E. apply validate_host_Ok in E as [_ ?]. lia.
  - simpl. intros h0 E. rewrite E. simpl. lia.
Qed.

Lemma active_host_Ok s k h : active_host s k = Ok h ↔ host s k = Some h ∧ sh_active h = true.
Proof.
  unfold active_host. destruct (host s k) as [h0|]; [|split; [done|by intros [? _]]].
  destruct (sh_active h0) eqn:E; (split; [|intros [[= <-] ?]; congruence]); intros [= <-]; done.
Qed.

Lemma remove_sound s host now c : wf s → remove_change host now s = Ok c → sound s (ch_snapshot c).
Proof.
  intros Hw H. unfold remove_change in H. inv_change H. apply reconcile_reconciled in Hx; [|done].
  eapply sound_trans; [apply (rc_sound _ _ _ Hx)|intros Hw1]. apply active_host_Ok in Hx0 as [Hh _].
  pose proof (host_id_of _ _ _ Hw1 Hh) as Hid. pose proof (wf_host _ Hw1 _ _ Hh) as Hok. apply validate_host_Ok in Hok as [? ?]. subst host.
  eapply (rehost_sound _ now (MkStoredHost (sh_id x) (sh_epoch x + 1) false)); [done|apply (rc_live _ _ _ Hx)| | |done|exact Hx1].
  - apply validate_host_Ok. simpl. split; [done|lia].
  - simpl. intros h0. rewrite Hh. intros [= <-]. lia.
Qed.

Lemma connection_row_Ok s k c : connection_row s k = Ok c ↔ conn s k = Some c.
Proof. apply or_raise_Ok. Qed.

Lemma same_generation_Some x y : same_connection_generation (Some x) (Some y) = true →
  sc_status x = sc_status y ∧ sc_authority_epoch x = sc_authority_epoch y ∧ sc_state_version x = sc_state_version y.
Proof. simpl. rewrite !andb_true_iff, !bool_decide_eq_true, !Z.eqb_eq. tauto. Qed.

Lemma authorize_sound s i current epoch version event encrypted c : wf s → identity_ok i = true →
  authorization_plan i current = Ok (epoch, version, event) → str_empty encrypted = false →
  authorize_change sha256_hex i current epoch version encrypted s = Ok c → sound s (ch_snapshot c).
Proof.
  intros Hw Hi Hplan Henc H. unfold authorize_change in H. inv_change H. apply raise_if_negb in Hx.
  unfold identity_ok in Hi. rewrite !andb_true_iff in Hi. destruct Hi as [[[? ?] ?] ?].
  assert (0 < epoch ∧ 0 < version ∧ ∀ c0, conn s (ci_connection_id i) = Some c0 →
    sc_status c0 ∉ [READY; REFRESHING] ∧ sc_authority_epoch c0 ≤ epoch ∧ sc_state_version c0 < version) as (? & ? & Hold).
  { unfold authorization_plan in Hplan. destruct current as [cur|], (conn s (ci_connection_id i)) as [c0|] eqn:E; try done.
    - apply same_generation_Some in Hx as (Es & Ee & Ev). apply bind_Ok in Hplan as (? & Hr%raise_if_negb%bool_decide_eq_true & Hplan).
      apply bind_Ok in Hplan as (? & _ & Hplan). injection Hplan as <- <- _. destruct (conn_ok _ _ _ Hw E) as (_ & _ & _ & _ & ? & ? & _). rewrite <-Ee, <-Ev.
      split; [lia|]. split; [lia|]. intros ? [= <-]. rewrite Es, Hr. split; [set_solver|lia].
    - injection Hplan as <- <- _. by split_and!. }
  apply (reset_sound s [] "" (authorized_row sha256_hex i epoch version encrypted) Hw).
  - intros l Hl. by apply elem_of_nil in Hl.
  - intros k l Hl Hv He. simpl in He. exfalso. destruct (wf_authority _ Hw _ _ Hl) as (_ & c0 & _ & Hc0 & _). rewrite He in Hc0.
    by eapply (closed_unleased s (ci_connection_id i) c0); [|done|apply Hold|..].
  - split_and!; simpl; try done; by apply text_stored.
  - done.
  - simpl. intros c0 Hc0. destruct (Hold c0 Hc0) as (_ & ? & ?). split; [lia|by left].
Qed.

(** The lease was granted to the operation. *)
Definition named (op : string) (l : StoredLease) : Prop := sl_id l = lease_name op ∧ sl_attachment_id l = attachment_name op.

Lemma sound_new_mono (P Q : StoredLease → Prop) s s' : (∀ l, P l → Q l) → sound_new P s s' → sound_new Q s s'.
Proof. intros HPQ (? & ? & ? & Hi). split_and!; try done. intros k l Hl. destruct (Hi k l Hl); [by left|right; auto]. Qed.

Lemma reconcile_unused s now s' op : reconciled s now s' → unused s op → unused s' op.
Proof.
  intros [_ _ Hst] Hu k l' Hl. destruct (Hst k l' Hl) as (l & Hl0 & Hf). destruct (Hu k l Hl0) as [? ?]. split; [done|].
  injection Hf as -> _ _ _ _ _ _. done.
Qed.

Lemma acquire_sound s connection host mode now expires_at op c : wf s → unused s op →
  stored_text_ok (lease_name op) = true → stored_text_ok (attachment_name op) = true →
  acquire_change connection host mode now expires_at (lease_name op) (attachment_name op) s = Ok c → sound_new (named op) s (ch_snapshot c).
Proof.
  intros Hw Hu Ht1 Ht2 H. unfold acquire_change in H. inv_change H. apply reconcile_reconciled in Hx; [|done].
  pose proof (reconcile_unused _ _ _ _ Hx Hu) as Hu1. eapply sound_trans; [apply (rc_sound _ _ _ Hx)|intros Hw1].
  apply active_host_Ok in Hx0 as [Hh Hact]. rename x into h. apply connection_row_Ok in Hx1. rename x0 into c0.
  apply raise_if_Ok, andb_false_iff in Hx3.
  pose proof (wf_host _ Hw1 _ _ Hh) as Hhok. apply validate_host_Ok in Hhok as [Hht ?]. rewrite (host_id_of _ _ _ Hw1 Hh) in Hht.
  pose proof (conn_ok _ _ _ Hw1 Hx1) as (Hct & _ & _ & _ & ? & ? & _). rewrite (conn_id _ _ _ Hw1 Hx1) in Hct.
  assert (sc_status c0 = READY) as Hst by (unfold require_materializable in Hx2; by destruct (sc_status c0)).
  match goal with |- sound_new _ s0 (if _ then replace_connection (replace_leases s0 (dset _ ?l _)) _ else _) =>
    apply (sound_new_mono (λ l', l' = l)); [by intros ? ->|]; apply (grant_sound s0 l h c0 Hw1) end; simpl; try done.
  - destruct (dget (lease_name op) (leases_of s0)) as [l'|] eqn:E; [|done]. by destruct (Hu1 _ _ E) as [? _].
  - intros k l' Hl. by apply (Hu1 k).
  - split_and!; try done. split; [done|by intros [? ?]].
  - intros Hm k l' Hl Hlc. destruct (sl_released l') eqn:Hv; [done|]. destruct Hx3 as [Hx3|Hx3].
    { apply bool_decide_eq_false in Hx3. done. }
    apply negb_false_iff, bool_decide_eq_true in Hx3. exfalso. apply (not_elem_of_nil l'). rewrite <-Hx3. apply elem_of_active.
    split_and!; [by eapply lease_in|done|by eapply (rc_live _ _ _ Hx)|by apply String.eqb_eq].
Qed.

Lemma current_lease_ok s f now mode l : wf s → require_current_lease s f now mode = Ok l →
  lease s (sl_id l) = Some l ∧ live l ∧ lease_ok l ∧ sl_mode l = mode ∧ sl_connection_id l = af_connection_id f.
Proof.
  intros Hw (Hl & Hv & _ & Hm & Hf & _)%require_current_Ok. apply lease_matches_iff in Hf. injection Hf as _ E _ _ _ _.
  pose proof (lease_id _ _ _ Hw Hl) as Hid. rewrite Hid. split_and!; try done. eapply validate_lease_value_Ok. by eapply (wf_lease _ Hw).
Qed.

Lemma activate_sound s f now c : wf s → activate_change f now s = Ok c → sound s (ch_snapshot c).
Proof.
  intros Hw H. unfold activate_change in H. inv_change H. destruct (current_lease_ok _ _ _ _ _ Hw Hx) as (Hl & Hv & Hok & Hm & _).
  apply update_sound; try done. destruct Hok as (? & ? & ? & ? & ? & ? & ? & ? & ?). by split_and!.
Qed.

Lemma renew_sound s f mode ttl now c : wf s → renew_change f mode ttl now s = Ok c → sound s (ch_snapshot c).
Proof.
  intros Hw H. unfold renew_change in H. inv_change H. destruct (current_lease_ok _ _ _ _ _ Hw Hx0) as (Hl & Hv & Hok & Hm & _).
  by apply update_sound.
Qed.

Lemma checkpoint_sound s f encrypted now c : wf s → str_empty encrypted = false →
  checkpoint_change sha256_hex f encrypted now s = Ok c → sound s (ch_snapshot c).
Proof.
  intros Hw He H. unfold checkpoint_change in H. inv_change H. destruct (current_lease_ok _ _ _ _ _ Hw Hx) as (Hl & Hv & Hok & Hm & Hcf).
  apply connection_row_Ok in Hx0. rename x into l, x0 into c0. pose proof (conn_id _ _ _ Hw Hx0) as Hid.
  apply raise_if_Ok in Hx1. rewrite !orb_false_iff, !negb_false_iff, !Z.eqb_eq in Hx1. destruct Hx1 as [[[_ _] Hver] _].
  pose proof (conn_ok _ _ _ Hw Hx0) as Hcok. pose proof Hcok as (_ & _ & _ & _ & ? & ? & _).
  apply (reset_sound s [l] "checkpointed" (with_generation READY (sc_authority_epoch c0) (af_base_version f + 1) (Some encrypted) (Some (sha256_hex encrypted)) c0) Hw).
  - intros m ->%list_elem_of_singleton. simpl. by rewrite Hid.
  - intros k m Hk Hmv. simpl. rewrite Hid. intros Hmc. apply list_elem_of_singleton.
    assert (sl_id l = k) as Heq by (eapply (wf_exclusive _ Hw); [exact Hl|exact Hk|done..|congruence]). rewrite Heq in Hl. congruence.
  - apply (with_state_ok READY _ _ (Some encrypted)); [done|lia..|done].
  - done.
  - simpl. intros c1. rewrite Hid, Hx0. intros [= <-]. split; [lia|left; lia].
Qed.

Lemma release_change_sound s f mode now c : wf s → release_change f mode now s = Ok c → sound s (ch_snapshot c).
Proof.
  intros Hw H. unfold release_change in H. inv_change H. apply reconcile_reconciled in Hx; [|done].
  eapply sound_trans; [apply (rc_sound _ _ _ Hx)|intros Hw1]. destruct (dget (af_lease_id f) (leases_of s0)) as [l1|] eqn:E; [|done].
  inv_change H. destruct (sl_released l1) eqn:Hv; [inv_change H; by apply sound_refl|]. inv_change H.
  eapply (settle_sound s0 [l1]); [done| |exact Hx2]. intros m ->%list_elem_of_singleton. split; [by eapply lease_in|done].
Qed.

Lemma rotate_sound s connection current encrypted c : wf s → str_empty encrypted = false →
  rotate_change sha256_hex connection current encrypted s = Ok c → sound s (ch_snapshot c).
Proof.
  intros Hw He H. unfold rotate_change in H. inv_change H. apply connection_row_Ok in Hx. apply raise_if_negb, same_generation_Some in Hx0 as (_ & Ee & Ev).
  apply (renew_authority s connection x READY _ _ (Some encrypted)); try done; lia.
Qed.

Lemma revoke_sound s connection c : wf s → revoke_change connection s = Ok c → sound s (ch_snapshot c).
Proof.
  intros Hw H. unfold revoke_change in H. inv_change H. apply connection_row_Ok in Hx. pose proof (conn_ok _ _ _ Hw Hx) as Hok.
  pose proof (conn_id _ _ _ Hw Hx) as Hid. apply reset_sound; simpl; rewrite ?Hid; try done.
  - intros l Hl%(live_lookup _ _ _ (wf_leases _ Hw)). tauto.
  - intros k l Hl Hlv Hlc. apply elem_of_unreleased. split_and!; [by eapply lease_in|done..].
  - destruct Hok as (? & ? & ? & ? & ? & ? & Hci). split_and!; try done; simpl; [lia|]. unfold ciphertext_ok in *. simpl.
    destruct (sc_encrypted_state x); [done|]. split; [by destruct Hci|right; left].
  - intros c0. rewrite Hx. intros [= <-]. split; [lia|auto].
Qed.

Lemma prepare_sound s connection c : wf s → prepare_change connection s = Ok c → sound s (ch_snapshot c).
Proof.
  intros Hw H. unfold prepare_change in H. inv_change H. apply connection_row_Ok in Hx. apply raise_if_negb, bool_decide_eq_true in Hx0.
  pose proof (conn_ok _ _ _ Hw Hx) as Hok. pose proof (conn_id _ _ _ Hw Hx) as Hid.
  apply (reset_sound s [] "" (with_status ERASURE_PENDING x) Hw); simpl; rewrite ?Hid; try done.
  - intros l Hl. by apply elem_of_nil in Hl.
  - intros k l Hl Hlv Hlc. exfalso. eapply (closed_unleased s connection x); [done..| |exact Hl|done|done]. rewrite Hx0. set_solver.
  - destruct Hok as (? & ? & ? & ? & ? & ? & Hci). split_and!; try done. unfold ciphertext_ok in *. simpl.
    destruct (sc_encrypted_state x); [done|]. split; [by destruct Hci|do 2 right; left].
  - intros c0. rewrite Hx. intros [= <-]. split; [lia|auto].
Qed.

Lemma finish_sound s connection erased c : wf s → finish_change connection erased s = Ok c → sound s (ch_snapshot c).
Proof.
  intros Hw H. unfold finish_change in H. inv_change H. apply connection_row_Ok in Hx.
  apply (renew_authority s connection x REAUTHORIZATION_REQUIRED _ _ None); try done; try lia. by left.
Qed.

Lemma abort_sound s l c : wf s → abort_change l s = Ok c → sound s (ch_snapshot c).
Proof.
  intros Hw H. unfold abort_change in H. destruct (lease s l) as [m|] eqn:E; [|inv_change H; by apply sound_refl].
  destruct (sl_released m) eqn:Hv; [inv_change H; by apply sound_refl|]. inv_change H.
  eapply (settle_sound s [m]); [done| |exact Hx]. intros ? ->%list_elem_of_singleton. split; [by eapply lease_in|done].
Qed.

Lemma changed_sound grants s op s' : wf s → (grants → unused s op) → stored_text_ok (lease_name op) = true → stored_text_ok (attachment_name op) = true →
  changed grants s op s' → sound_new (λ l, grants ∧ named op l) s s'.
Proof.
  intros Hw Hu Ht1 Ht2 H. destruct H as [host now c Ht H|host now c H|i cur ep v ev enc c Hi Hp He H|cn host m now ex c Hg H|f now c H|f m ttl now c H|
    f enc now c He H|f m now c H|cn cur enc c He H|cn c H|cn c H|cn e c H|now c H|p f now c H|now c H|l c H].
  - by eapply sound_weaken, enroll_sound.
  - by eapply sound_weaken, remove_sound.
  - by eapply sound_weaken, authorize_sound.
  - eapply sound_new_mono; [|by eapply acquire_sound; [|apply Hu|..]]. done.
  - by eapply sound_weaken, activate_sound.
  - by eapply sound_weaken, renew_sound.
  - by eapply sound_weaken, checkpoint_sound.
  - by eapply sound_weaken, release_change_sound.
  - by eapply sound_weaken, rotate_sound.
  - by eapply sound_weaken, revoke_sound.
  - by eapply sound_weaken, prepare_sound.
  - by eapply sound_weaken, finish_sound.
  - unfold recover_change in H. inv_change H. apply sound_weaken, (rc_sound _ now). by eapply reconcile_reconciled.
  - unfold admit_change in H. inv_change H. by apply sound_weaken, sound_refl.
  - unfold reconcile_change in H. inv_change H. apply sound_weaken, (rc_sound _ now). by eapply reconcile_reconciled.
  - by eapply sound_weaken, abort_sound.
Qed.
End invariant.
