(* ===== verification/ConnectionTheorems.v ===== *)
(** * What connection custody guarantees

    Whatever the host's clock, keys and files answer and however any number of
    custodians interleave on one store: what they publish is valid, an
    operation takes effect once, and authority taken away is never honoured
    again. Each program is checked against a monitor of the snapshot it loaded
    last and the operations it published. *)

From stdpp Require Import base gmap sets list strings sorting.
From Stdlib Require Import Ascii ZArith Lia.
From S2P Require Import Prelude PyData Schema AgentText Programs ConnectionStorage ConnectionCustody ConnectionInvariant.
Open Scope string_scope.
Open Scope list_scope.
Open Scope Z_scope.

Notation cprog := (prog custody_ans).

Section programs.
Context (sha256_hex : string → string) (grants : string → Prop).

Notation wf := (wf sha256_hex).

(** ** Publications *)

Definition operations (s : StorageSnapshot) : list string := ar_operation_id <$> s_audit s.

Definition opt_text_ok (x : option string) : Prop := match x with Some s => stored_text_ok s = true | None => True end.

Record subject_ok (su : Subject) : Prop := SubjectOk {
  so_connection : opt_text_ok (su_connection_id su);
  so_host : opt_text_ok (su_host_id su);
  so_lease : opt_text_ok (su_lease_id su)
}.

Definition details_ok (d : list (string * Data)) : Prop := d = sorted_key fst d ∧ forallb (λ kv, audit_value kv.2) d = true.

(** What an admission's event says of the snapshot it is published in. *)
Definition is_admission (event : string) : bool :=
  String.eqb event "attachment.result.admitted" || String.eqb event "attachment.effect.admitted".

Definition admission_current (event : string) (su : Subject) (s : StorageSnapshot) : Prop :=
  is_admission event = true → ∃ f now, su = fence_subject f ∧ attachment_is_current s f now = true.

(** [r] publishes a change of [s] under an operation the store does not know. *)
Definition published (s : StorageSnapshot) (op : string) (r : StorageSnapshot) : Prop :=
  ∃ (T : Type) (c : Change T) event su details,
    changed sha256_hex (grants op) s op (ch_snapshot c) ∧ stored_text_ok op = true ∧ op ∉ operations s ∧ stored_text_ok event = true ∧
    subject_ok su ∧ admission_current event su s ∧ details_ok details ∧ r = publication op event su s c details.

(** ** The monitor of a custodian *)

Record cmon := CMon { cm_last : option StorageSnapshot; cm_won : list string }.

Definition newest (r : StorageSnapshot) : list string := option_list (ar_operation_id <$> last (s_audit r)).

Definition cupd (m : cmon) (e : custody_eff) : custody_ans e → cmon :=
  match e return custody_ans e → cmon with
  | SLoad => λ x, match x with Gave s => CMon (Some s) (cm_won m) | _ => m end
  | SCas _ r => λ x, match x with Gave true => CMon (cm_last m) (cm_won m ++ newest r) | _ => m end
  | _ => λ _, m
  end.

Definition callowed (m : cmon) (e : custody_eff) : Prop :=
  match e with
  | SCas expected r => ∃ s op, cm_last m = Some s ∧ expected = s_revision s ∧ published s op r
  | _ => True
  end.

(** Loads answer valid snapshots and sealing gives bytes. *)
Definition crely (m : cmon) (e : custody_eff) : custody_ans e → Prop :=
  match e return custody_ans e → Prop with
  | SLoad => λ x, match x with Gave s => wf s | _ => True end
  | KSeal _ _ => λ x, match x with Gave c => str_empty c = false | _ => True end
  | _ => λ _, True
  end.

Definition csafe {A} : cprog A → cmon → (A → cmon → Prop) → Prop := psafe callowed crely cupd.
#[local] Arguments csafe : simpl never.

Lemma csafe_act {A} e (f : custody_ans e → cprog A) m Q : callowed m e → (∀ x, crely m e x → csafe (f x) (cupd m e x) Q) → csafe (Act e f) m Q.
Proof. by split. Qed.

Lemma csafe_mono {A} (p : cprog A) m (Q Q' : A → cmon → Prop) : (∀ a m, Q a m → Q' a m) → csafe p m Q → csafe p m Q'.
Proof. apply psafe_mono. Qed.

Lemma csafe_bind {A B} (p : cprog A) (f : A → cprog B) m Q : csafe p m (λ a m, csafe (f a) m Q) → csafe (pbind p f) m Q.
Proof. apply psafe_bind. Qed.

Lemma csafe_and_then {A B} (p : C A) (f : A → C B) m (Q : call_outcome B → cmon → Prop) :
  csafe p m (λ o m, match o with Value a => csafe (f a) m Q | Raises x => Q (Raises x) m end) → csafe (p ≫= f) m Q.
Proof. apply psafe_and_then. Qed.

(** A program that neither loads nor swaps. *)
Definition quiet {A} (p : C A) : Prop := ∀ m (Q : call_outcome A → cmon → Prop), (∀ o, Q o m) → csafe p m Q.

Lemma quiet_return {A} (o : call_outcome A) : quiet (Ret o).
Proof. intros m Q H. apply H. Qed.

Lemma quiet_and_then {A B} (p : C A) (f : A → C B) : quiet p → (∀ a, quiet (f a)) → quiet (p ≫= f).
Proof. intros Hp Hf m Q H. apply csafe_and_then, Hp. intros [a|x]; [|apply H]. by apply Hf. Qed.

Lemma quiet_act e : match e with SLoad | SCas _ _ => False | _ => True end → quiet (perform_act e).
Proof. intros He m Q H. apply csafe_act; [by destruct e|]. intros x _. replace (cupd m e x) with m by (by destruct e). apply H. Qed.

Lemma quiet_call_out {A} (alien : C A) x : quiet alien → quiet (call_out alien x).
Proof. intros Ha. destruct x; try apply quiet_return. apply Ha. Qed.

Lemma quiet_checked {A} (r : result A) : quiet (checked r).
Proof. destruct r; apply quiet_return. Qed.

Lemma quiet_called {A} e (view : custody_ans e → ext A) : match e with SLoad | SCas _ _ => False | _ => True end → quiet (called e view).
Proof. intros He. apply quiet_and_then; [by apply quiet_act|]. intros x. apply quiet_call_out, quiet_return. Qed.

Lemma quiet_cleanups l : quiet (cleanups l).
Proof. induction l as [|a l IH]; [apply quiet_return|]. apply quiet_and_then; [by apply quiet_called|]. intros e. apply quiet_and_then; [done|]. intros; apply quiet_return. Qed.

Lemma quiet_summarize l : quiet (summarize l).
Proof. apply quiet_and_then; [apply quiet_cleanups|]. intros; apply quiet_return. Qed.

Lemma quiet_now : quiet now_.
Proof. apply quiet_and_then; [by apply (quiet_act CClock)|]. intros. apply quiet_call_out, quiet_return. Qed.

Lemma csafe_checked {A} (r : result A) m (Q : call_outcome A → cmon → Prop) :
  (∀ a, r = Ok a → Q (Value a) m) → (∀ x, Q (Raises x) m) → csafe (checked r) m Q.
Proof. intros Hv Hr. destruct r as [a|e]; simpl; [by apply Hv|apply Hr]. Qed.

(** Loading gives a valid snapshot, which the custodian then knows. *)
Lemma csafe_load m (Q : call_outcome StorageSnapshot → cmon → Prop) :
  (∀ s, wf s → Q (Value s) (CMon (Some s) (cm_won m))) → (∀ x l, Q (Raises x) (CMon l (cm_won m))) → csafe (load sha256_hex) m Q.
Proof.
  intros Hv Hr. apply csafe_and_then, csafe_act; [done|]. intros x Hx.
  assert (∀ y, Q (Raises y) m) as Hrm by (intros y; destruct m; apply Hr).
  destruct x as [s| | |]; simpl in *; [|apply Hrm..].
  apply csafe_checked; [|intros; apply Hr]. intros a Ha. rewrite (proj2 (validate_wf sha256_hex s) Hx) in Ha. injection Ha as <-. by apply Hv.
Qed.

(** ** Commits *)

(** What a transform of a valid snapshot gives a commit. *)
Definition offers {T} (op event : string) (su : Subject) (P : T → Prop) (s : StorageSnapshot) (o : call_outcome (Change T)) : Prop :=
  match o with
  | Value c => changed sha256_hex (grants op) s op (ch_snapshot c) ∧ subject_ok su ∧ admission_current event su s ∧ P (ch_value c)
  | Raises _ => True
  end.

Definition commits {T} (op : string) (P : T → Prop) (m : cmon) (o : call_outcome (Committed T)) (m' : cmon) : Prop :=
  match o with
  | Value c => P (cm_value c) ∧ cm_won m' = cm_won m ++ [op]
  | Raises _ => cm_won m' = cm_won m ∨ cm_won m' = cm_won m ++ [op]
  end.

Lemma no_admission event su s : is_admission event = false → admission_current event su s.
Proof. intros H H'. congruence. Qed.

Lemma audit_details_ok d d' : audit_details d = Ok d' → details_ok d'.
Proof.
  unfold audit_details. intros H. apply bind_Ok in H as ([] & H & Hd). injection Hd as <-. split; [by rewrite sorted_key_idem|].
  apply List.forallb_forall. intros kv Hkv%list_elem_of_In. rewrite (sorted_key_perm fst) in Hkv.
  apply forM_Ok in H. rewrite Forall_forall in H. apply H in Hkv. apply bind_Ok in Hkv as (? & _ & Hv%raise_if_negb). done.
Qed.

Lemma published_already_false op s : published_already op s = false ↔ op ∉ operations s.
Proof.
  unfold published_already, operations. rewrite <-not_true_iff_false. apply not_iff_compat. rewrite List.existsb_exists, list_elem_of_fmap. split.
  - intros (r & Hr & <-%String.eqb_eq). exists r. split; [done|]. by apply list_elem_of_In.
  - intros (r & -> & Hr). exists r. split; [by apply list_elem_of_In|apply String.eqb_refl].
Qed.

Lemma commit_loop_safe {T} n op event (transform : StorageSnapshot → C (Change T)) su (P : T → Prop) m (Q : call_outcome (Committed T) → cmon → Prop) :
  stored_text_ok op = true → stored_text_ok event = true →
  (∀ s m (R : call_outcome (Change T) → cmon → Prop), wf s → (∀ o, offers op event su P s o → R o m) → csafe (transform s) m R) →
  (∀ o m', commits op P m o m' → Q o m') → csafe (commit_loop sha256_hex n op event transform su) m Q.
Proof.
  intros Ho Hev Ht HQ. revert m HQ. induction n as [|n IH]; intros m HQ; cbn [commit_loop]; [apply HQ; by left|].
  apply csafe_and_then, csafe_load; [|intros; apply HQ; by left]. intros s Hs.
  destruct (published_already op s) eqn:Hp; [apply HQ; by left|]. apply published_already_false in Hp.
  apply csafe_and_then, Ht; [done|]. intros [c|x] Hc; [|apply HQ; by left]. destruct Hc as (Hch & Hsu & Had & HP).
  apply csafe_and_then, csafe_checked; [|intros; apply HQ; by left]. intros d Hd%audit_details_ok.
  apply csafe_and_then, csafe_and_then, csafe_act.
  { exists s, op. split_and!; [done..|]. exists T, c, event, su, d. by split_and!. }
  intros x _. destruct x as [[]| | |]; simpl; try (apply HQ; by left); [|apply IH, HQ].
  assert (newest (publication op event su s c d) = [op]) as Hn by (unfold newest, publication; simpl; by rewrite last_snoc).
  simpl in Hn. rewrite Hn.
  apply csafe_and_then, quiet_summarize. intros [cu|y]; apply HQ; simpl; auto.
Qed.

Lemma commit_safe {T} op event (transform : StorageSnapshot → C (Change T)) su (P : T → Prop) m (Q : call_outcome (Committed T) → cmon → Prop) :
  stored_text_ok event = true →
  (∀ s m (R : call_outcome (Change T) → cmon → Prop), wf s → (∀ o, offers op event su P s o → R o m) → csafe (transform s) m R) →
  (∀ o m', commits op P m o m' → Q o m') → csafe (custody_commit sha256_hex op event transform su) m Q.
Proof.
  intros Hev Ht HQ. apply csafe_and_then, csafe_checked; [|intros; apply HQ; by left]. intros x Hx.
  unfold text in Hx. inv_ok. apply negb_false_iff in H. eapply commit_loop_safe; [by apply text_stored|done|exact Ht|exact HQ].
Qed.

Lemma at_now_safe {T} (change : Z → StorageSnapshot → result (Change T)) op event su (P : T → Prop) :
  (∀ now s c, wf s → change now s = Ok c → offers op event su P s (Value c)) →
  ∀ s m (R : call_outcome (Change T) → cmon → Prop), wf s → (∀ o, offers op event su P s o → R o m) → csafe (at_now change s) m R.
Proof.
  intros H s m R Hs HR. apply csafe_and_then, quiet_now. intros [now|x]; [|by apply HR]. apply csafe_checked; [|intros; by apply HR].
  intros c Hc. apply HR. by eapply H.
Qed.

Lemma at_once_safe {T} (change : StorageSnapshot → result (Change T)) op event su (P : T → Prop) :
  (∀ s c, wf s → change s = Ok c → offers op event su P s (Value c)) →
  ∀ s m (R : call_outcome (Change T) → cmon → Prop), wf s → (∀ o, offers op event su P s o → R o m) → csafe (at_once change s) m R.
Proof. intros H s m R Hs HR. apply csafe_checked; [|intros; by apply HR]. intros c Hc. apply HR. by eapply H. Qed.

(** ** Operations *)

(** On a return, the operation is published. *)
Definition wins {A} (op : string) (o : call_outcome A) (m : cmon) : Prop := match o with Value _ => op ∈ cm_won m | Raises _ => True end.

Lemma wins_commit {T A} op event (transform : StorageSnapshot → C (Change T)) su (P : T → Prop) (f : Committed T → C A) m :
  stored_text_ok event = true →
  (∀ s m (R : call_outcome (Change T) → cmon → Prop), wf s → (∀ o, offers op event su P s o → R o m) → csafe (transform s) m R) →
  (∀ c m', P (cm_value c) → op ∈ cm_won m' → csafe (f c) m' (wins op)) → csafe (c ← custody_commit sha256_hex op event transform su; f c) m (wins op).
Proof.
  intros Hev Ht Hf. apply csafe_and_then. eapply commit_safe; [done|exact Ht|]. intros [c|x] m'; [|done]. intros [HP Hw]. apply Hf; [done|].
  rewrite Hw. set_solver.
Qed.

Lemma wins_ret {A} op (a : A) m : op ∈ cm_won m → csafe (mret a : C A) m (wins op).
Proof. done. Qed.

(** A step before the publication. *)
Lemma wins_after {A B} op (p : C A) (f : A → C B) m : csafe p m (λ o m', match o with Value a => csafe (f a) m' (wins op) | Raises _ => True end) →
  csafe (p ≫= f) m (wins op).
Proof. intros H. apply csafe_and_then. eapply csafe_mono; [|exact H]. by intros [a|x] m'. Qed.

Lemma wins_checked {A B} op (r : result A) (f : A → C B) m : (∀ a, r = Ok a → csafe (f a) m (wins op)) → csafe (a ← checked r; f a) m (wins op).
Proof. intros H. apply wins_after, csafe_checked; [exact H|done]. Qed.

Lemma wins_quiet {A B} op (p : C A) (f : A → C B) m : quiet p → (∀ a, csafe (f a) m (wins op)) → csafe (p ≫= f) m (wins op).
Proof. intros Hp Hf. apply wins_after, Hp. intros [a|x]; [apply Hf|done]. Qed.

Lemma wins_load {A} op (f : StorageSnapshot → C A) m :
  (∀ s, wf s → csafe (f s) (CMon (Some s) (cm_won m)) (wins op)) → csafe (s ← load sha256_hex; f s) m (wins op).
Proof. intros H. apply wins_after, csafe_load; [exact H|done]. Qed.

Lemma host_subject_ok host : text_ok host = true → subject_ok (host_subject host).
Proof. intros H. split; simpl; try done. by apply text_stored. Qed.

Lemma connection_subject_ok connection : text_ok connection = true → subject_ok (connection_subject connection).
Proof. intros H. split; simpl; try done. by apply text_stored. Qed.

Lemma fence_subject_ok s f l : wf s → dget (af_lease_id f) (leases_of s) = Some l → lease_matches l f = true → subject_ok (fence_subject f).
Proof.
  intros Hw Hl Hm. pose proof (lease_id _ _ _ _ Hw Hl) as Hid. apply (wf_lease _ _ Hw) in Hl. apply validate_lease_value_Ok in Hl as (? & ? & Hc & Hh & _).
  unfold lease_matches in Hm. rewrite !andb_true_iff, !String.eqb_eq in Hm. destruct Hm as [[[[[_ Ec] Eh] _] _] _]. rewrite Ec in Hc. rewrite Eh in Hh.
  split; simpl; [done..|]. by rewrite <-Hid.
Qed.

Lemma current_subject_ok s f now mode l : wf s → require_current_lease s f now mode = Ok l → subject_ok (fence_subject f).
Proof. intros Hw (Hl & _ & _ & _ & Hm & _)%require_current_Ok. by eapply fence_subject_ok. Qed.

Ltac after_commit := intros; first [apply wins_ret; assumption | idtac].

Lemma enroll_safe host op m : csafe (enroll_host sha256_hex host op) m (wins op).
Proof.
  apply wins_checked. intros x [-> Ht]%text_Ok. apply (wins_commit _ _ _ _ (λ _, True)); [done| |after_commit].
  apply at_now_safe. intros now s c Hs Hc. split_and!; [by eapply ch_enroll|by apply host_subject_ok|by apply no_admission|done].
Qed.

Lemma remove_safe host op m : csafe (remove_host sha256_hex host op) m (wins op).
Proof.
  apply wins_checked. intros x [-> Ht]%text_Ok. apply (wins_commit _ _ _ _ (λ _, True)); [done| |after_commit].
  apply at_now_safe. intros now s c Hs Hc. split_and!; [by eapply ch_remove|by apply host_subject_ok|by apply no_admission|done].
Qed.

Lemma quiet_finally {A} (p : C A) : quiet p → quiet (finally p OErase).
Proof. intros Hp m Q HQ. apply psafe_finally, Hp. intros o. split; [done|]. intros [] _. apply HQ. Qed.

(** Sealing gives bytes. *)
Lemma seal_safe connection epoch version state m (Q : call_outcome string → cmon → Prop) :
  (∀ c, str_empty c = false → Q (Value c) m) → (∀ x, Q (Raises x) m) → csafe (seal_state connection epoch version state) m Q.
Proof.
  intros Hv Hr. apply psafe_finally. apply csafe_and_then, csafe_checked; [|intros; split; [done|intros [] _; apply Hr]]. intros k _.
  apply csafe_and_then, csafe_checked; [|intros; split; [done|intros [] _; apply Hr]]. intros content _.
  apply csafe_and_then, csafe_act; [done|]. intros [c| | |] Hx; (split; [done|]); intros [] _; [by apply Hv|apply Hr..].
Qed.

Lemma erasing_safe {A} (r : result A) m (Q : call_outcome A → cmon → Prop) :
  (∀ a, r = Ok a → Q (Value a) m) → (∀ x, Q (Raises x) m) → csafe (erasing r) m Q.
Proof. intros Hv Hr. destruct r as [a|e]; [by apply Hv|]. apply csafe_and_then, csafe_act; [done|]. intros [] _. apply Hr. Qed.

Lemma authorize_safe i state op m : csafe (authorize sha256_hex i state op) m (wins op).
Proof.
  apply wins_checked. intros [] Hi%raise_if_negb. apply wins_checked. intros x _. apply wins_load. intros s Hs.
  apply wins_after, erasing_safe; [|done]. intros [[epoch version] event] Hp. apply wins_after, seal_safe; [|done]. intros enc He.
  assert (stored_text_ok event = true ∧ is_admission event = false) as [Hev Hno].
  { unfold authorization_plan in Hp. destruct (dget _ _); inv_ok; by simplify_eq. }
  apply (wins_commit _ _ _ _ (λ _, True)); [done| |after_commit]. apply at_once_safe. intros s' c Hs' Hc.
  split_and!; [by eapply ch_authorize| |by apply no_admission|done]. apply connection_subject_ok.
  unfold identity_ok in Hi. rewrite !andb_true_iff in Hi. tauto.
Qed.

(** Leases are named by texts the store takes. *)
Context (names_ok : ∀ op, stored_text_ok (lease_name sha256_hex op) = true ∧ stored_text_ok (attachment_name sha256_hex op) = true).

Lemma commit_keeps {T} op event (transform : StorageSnapshot → C (Change T)) su m :
  stored_text_ok event = true →
  (∀ s m (R : call_outcome (Change T) → cmon → Prop), wf s → (∀ o, offers op event su (λ _, True) s o → R o m) → csafe (transform s) m R) →
  csafe (custody_commit sha256_hex op event transform su;; mret tt) m (λ _ m', ∀ x, x ∈ cm_won m → x ∈ cm_won m').
Proof.
  intros Hev Ht. apply csafe_and_then. eapply commit_safe; [done|exact Ht|]. intros [c|x] m'; simpl.
  - intros [_ Hw]. unfold csafe. simpl. rewrite Hw. set_solver.
  - intros [->| ->]; set_solver.
Qed.

Lemma reconcile_before_safe parent now m : csafe (reconcile_expired_before sha256_hex parent now) m (λ _ _, True).
Proof.
  apply csafe_and_then, csafe_load; [|done]. intros s Hs. case_bool_decide; [done|].
  eapply csafe_mono; [|apply commit_keeps; [done|]]; [done|].
  apply at_once_safe. intros s' c Hs' Hc. split_and!; [by eapply ch_reconcile|by split|by apply no_admission|done].
Qed.

Definition granted_to (connection host op : string) (p : StoredConnection * StoredLease) : Prop :=
  sl_connection_id p.2 = connection ∧ sl_host_id p.2 = host ∧ sl_id p.2 = lease_name sha256_hex op.

Lemma abort_safe l parent connection host op m : text_ok connection = true → text_ok host = true → granted_to connection host op (l.1, l.2) →
  csafe (abort_materialization sha256_hex l.2 parent) m (λ _ m', ∀ x, x ∈ cm_won m → x ∈ cm_won m').
Proof.
  intros Hc Hh (E1 & E2 & E3). simpl in *. apply commit_keeps; [done|]. apply at_once_safe. intros s c Hs H. split_and!; [by eapply ch_abort| |by apply no_admission|done].
  split; simpl; rewrite ?E1, ?E2, ?E3; [by apply text_stored..|apply names_ok].
Qed.

Lemma materialize_safe connection host mode ttl op m : grants op → csafe (materialize sha256_hex connection host mode ttl op) m (wins op).
Proof.
  intros Hg. apply wins_checked. intros x [-> Hc]%text_Ok. apply wins_checked. intros y [-> Hh]%text_Ok. apply wins_checked. intros [] _.
  apply wins_checked. intros z _. apply wins_quiet; [apply quiet_now|]. intros now.
  apply wins_after. eapply csafe_mono; [|apply reconcile_before_safe]. intros [[]|?] m1 _; [|done].
  apply (wins_commit _ _ _ _ (granted_to connection host op)); [done| |].
  - apply at_once_safe. intros s c Hs H. split_and!; [by eapply ch_acquire| |by apply no_admission|].
    + split; simpl; [by apply text_stored..|apply names_ok].
    + unfold acquire_change in H. inv_change H. done.
  - intros [[c l] cu] m2 HP Hop. cbn [cm_value] in HP |- *.
    assert (∀ m3 (k : C unit), op ∈ cm_won m3 → k = abort_materialization sha256_hex l op → csafe k m3 (λ _ m', op ∈ cm_won m')) as Habort.
    { intros m3 k0 Hin ->. eapply csafe_mono; [|by apply (abort_safe (c, l) op connection host op)]. intros o m' Hkeep. by apply Hkeep. }
    destruct (sc_encrypted_state c) as [encrypted|].
    + apply wins_after. apply csafe_bind.
      assert (quiet (k ← checked (key_context connection (sc_authority_epoch c) (sc_state_version c)); plaintext ← called (KOpen k encrypted) id;
        called (FMaterialize (attachment_name sha256_hex op) plaintext) id)) as Hq.
      { apply quiet_and_then; [apply quiet_checked|]. intros k. apply quiet_and_then; [by apply (quiet_called (KOpen k encrypted))|]. intros p.
        by apply (quiet_called (FMaterialize _ p)). }
      apply Hq. intros [[]|x]; [done|]. apply psafe_and_then. eapply csafe_mono; [|by eapply Habort]. by intros [[]|?] m'.
    + apply wins_after. eapply csafe_mono; [|by eapply Habort]. by intros [[]|?] m'.
Qed.

Lemma activate_safe mt op m : csafe (activate sha256_hex mt op) m (wins op).
Proof.
  apply wins_checked. intros [] _. apply (wins_commit _ _ _ _ (λ _, True)); [done| |after_commit].
  apply at_now_safe. intros now s c Hs H. split_and!; [by eapply ch_activate| |by apply no_admission|done].
  unfold activate_change in H. apply bind_Ok in H as (l & Hl & _). by eapply current_subject_ok.
Qed.

Lemma renew_safe mt ttl op m : csafe (renew sha256_hex mt ttl op) m (wins op).
Proof.
  apply wins_checked. intros [] _. apply (wins_commit _ _ _ _ (λ _, True)); [done| |after_commit].
  apply at_now_safe. intros now s c Hs H. split_and!; [by eapply ch_renew| |by apply no_admission|done].
  unfold renew_change in H. apply bind_Ok in H as (h & _ & H). apply bind_Ok in H as (l & Hl & _). by eapply current_subject_ok.
Qed.

Lemma sealed_safe {A} k content (f : string → C A) op m : (∀ c, str_empty c = false → csafe (f c) m (wins op)) →
  csafe (c ← called (KSeal k content) id; f c) m (wins op).
Proof. intros H. apply wins_after, csafe_and_then, csafe_act; [done|]. intros [c| | |] Hx; [by apply H|done..]. Qed.

Lemma quiet_cleanup a : quiet (cleanup a).
Proof. by apply (quiet_called (FCleanup a)). Qed.

Lemma checkpoint_safe mt op m : csafe (checkpoint sha256_hex mt op) m (wins op).
Proof.
  apply wins_checked. intros x _. apply csafe_bind. eapply (csafe_mono _ _ (wins op)).
  { intros o m' Ho. apply csafe_and_then, quiet_cleanup. intros [e|?]; [exact Ho|done]. }
  apply wins_load. intros s0 Hs0. apply wins_quiet; [apply quiet_now|]. intros now. apply wins_checked. intros l _.
  apply wins_checked. intros [] _. apply wins_quiet; [by apply (quiet_called (FRead _))|]. intros returned. apply wins_checked. intros [] _.
  apply wins_checked. intros k _. apply sealed_safe. intros enc He.
  apply (wins_commit _ _ _ _ (λ _, True)); [done| |].
  - apply at_now_safe. intros now' s c Hs H. split_and!; [by eapply ch_checkpoint| |by apply no_admission|done].
    unfold checkpoint_change in H. apply bind_Ok in H as (l' & Hl & _). by eapply current_subject_ok.
  - intros c m' _ Hop. apply wins_quiet; [apply quiet_cleanup|]. intros e. by apply wins_ret.
Qed.

Lemma release_subject_ok s f mode now c : wf s → release_change f mode now s = Ok c → subject_ok (fence_subject f).
Proof.
  intros Hw H. unfold release_change in H. inv_change H. apply (reconcile_reconciled sha256_hex) in Hx; [|done]. destruct (dget _ _) as [l1|] eqn:E; [|done].
  apply bind_Ok in H as (? & Hm%raise_if_Ok & _). apply orb_false_iff in Hm as [Hm%negb_false_iff _].
  eapply fence_subject_ok; [by eapply rc_wf|done..].
Qed.

Lemma release_lease_safe mt op m : csafe (release_materialization sha256_hex mt op) m (wins op).
Proof.
  apply csafe_bind. eapply (commit_safe _ _ _ _ (λ _, True)); [done| |].
  - apply at_now_safe. intros now s c Hs H. split_and!; [by eapply ch_release|by eapply release_subject_ok|by apply no_admission|done].
  - intros [c|x] m' H; apply csafe_and_then, quiet_cleanup; intros [e|?]; try done. destruct H as [_ Hw]. apply wins_ret. rewrite Hw. set_solver.
Qed.

Lemma rotate_safe connection state op m : csafe (rotate_authority sha256_hex connection state op) m (wins op).
Proof.
  apply wins_checked. intros x [-> Ht]%text_Ok. apply wins_load. intros s0 Hs0. apply wins_checked. intros cur _.
  apply wins_after, erasing_safe; [|done]. intros [] _. apply wins_after, seal_safe; [|done]. intros enc He.
  apply (wins_commit _ _ _ _ (λ _, True)); [done| |after_commit].
  apply at_once_safe. intros s c Hs H. split_and!; [by eapply ch_rotate|by apply connection_subject_ok|by apply no_admission|done].
Qed.

Lemma revoke_safe connection op m : csafe (revoke_connection sha256_hex connection op) m (wins op).
Proof.
  apply wins_checked. intros x [-> Ht]%text_Ok. apply (wins_commit _ _ _ _ (λ _, True)); [done| |after_commit].
  apply at_once_safe. intros s c Hs H. split_and!; [by eapply ch_revoke|by apply connection_subject_ok|by apply no_admission|done].
Qed.

Lemma erase_safe connection op m : csafe (erase_connection sha256_hex connection op) m (wins op).
Proof.
  apply wins_checked. intros x [-> Ht]%text_Ok. apply wins_checked. intros y _. apply wins_load. intros s0 Hs0. apply wins_checked. intros cur _.
  apply wins_after. eapply (csafe_mono _ _ (λ _ _, True)); last first.
  { case_bool_decide; [|by destruct (negb _)]. eapply csafe_mono; [|apply commit_keeps; [done|]]; [done|].
    apply at_once_safe. intros s c Hs H'. split_and!; [by eapply ch_prepare|by apply connection_subject_ok|by apply no_admission|done]. }
  intros [[]|?] m1 _; [|done]. apply wins_quiet; [by apply (quiet_called (KErase _))|]. intros erased.
  apply (wins_commit _ _ _ _ (λ _, True)); [done| |after_commit].
  apply at_once_safe. intros s c Hs H'. split_and!; [by eapply ch_finish|by apply connection_subject_ok|by apply no_admission|done].
Qed.

Lemma admit_subject_ok purpose s f now c : wf s → admit_change purpose f now s = Ok c → subject_ok (fence_subject f).
Proof.
  intros Hw H. unfold admit_change in H. apply bind_Ok in H as (? & Ha%raise_if_negb & _). unfold attachment_is_current in Ha.
  destruct (dget _ _) as [l|] eqn:E; [|done]. destruct (require_current_lease s f now (sl_mode l)) as [l'|] eqn:Hr; [|done].
  by eapply current_subject_ok.
Qed.

Lemma admit_safe purpose f op m : stored_text_ok ("attachment." +:+ purpose +:+ ".admitted") = true → csafe (admit_attachment sha256_hex purpose f op) m (wins op).
Proof.
  intros Hp. apply (wins_commit _ _ _ _ (λ _, True)); [done| |after_commit].
  apply at_now_safe. intros now s c Hs H. split_and!; [by eapply ch_admit|by eapply admit_subject_ok| |done].
  intros _. exists f, now. split; [done|]. unfold admit_change in H. by apply bind_Ok in H as (? & Ha%raise_if_negb & _).
Qed.

Lemma recover_safe op m : csafe (recover_installation sha256_hex op) m (wins op).
Proof.
  apply (wins_commit _ _ _ _ (λ _, True)); [done| |after_commit].
  apply at_now_safe. intros now s c Hs H. split_and!; [by eapply ch_recover|by split|by apply no_admission|done].
Qed.

Lemma reads_safe {A} (f : StorageSnapshot → C A) m : (∀ s, quiet (f s)) → csafe (s ← load sha256_hex; f s) m (λ _ _, True).
Proof. intros Hf. apply csafe_and_then, csafe_load; [|done]. intros s _. by apply Hf. Qed.

(** The operation a call publishes under. *)
Definition operation_of (k : custody_call) : option string :=
  match k with
  | EnrollHost _ op | RemoveHost _ op | Authorize _ _ op | Materialize _ _ _ _ op | Activate _ op | Renew _ _ op | Checkpoint _ op
  | ReleaseLease _ op | Rotate _ _ op | Revoke _ op | EraseConnection _ op | AdmitResult _ op | AdmitEffect _ op | Recover op => Some op
  | ReadConnection _ | LookupOperation _ | AuditRecords => None
  end.

Definition succeeded (k : custody_call) (o : call_outcome custody_val) (m : cmon) : Prop :=
  match operation_of k with Some op => wins op o m | None => True end.

Lemma cmap_wins {A} op (f : A → custody_val) (p : C A) m : csafe p m (wins op) → csafe (cmap f p) m (wins op).
Proof. intros H. apply wins_after. eapply csafe_mono; [|exact H]. by intros [a|x] m'. Qed.

Definition granting (k : custody_call) (op : string) : Prop := match k with Materialize _ _ _ _ op' => op = op' | _ => False end.

(** Every operation only publishes changes of what it loaded, and has published
    its own when it returns. *)
Lemma operation_safe k m : (∀ op, granting k op → grants op) → csafe (custody_program sha256_hex k) m (succeeded k).
Proof.
  intros Hg. destruct k; unfold succeeded; simpl; try apply cmap_wins.
  - apply enroll_safe.
  - apply remove_safe.
  - apply authorize_safe.
  - by apply materialize_safe, Hg.
  - apply activate_safe.
  - apply renew_safe.
  - apply checkpoint_safe.
  - apply release_lease_safe.
  - apply rotate_safe.
  - apply revoke_safe.
  - apply erase_safe.
  - by apply admit_safe.
  - by apply admit_safe.
  - apply recover_safe.
  - apply csafe_and_then, csafe_and_then, csafe_checked; [|done]. intros x _. eapply csafe_mono; [|apply reads_safe]; [by intros [a|?] ? _|].
    intros s. apply quiet_and_then; [apply quiet_checked|]. intros; apply quiet_return.
  - apply csafe_and_then, csafe_and_then, csafe_checked; [|done]. intros x _. eapply csafe_mono; [|apply reads_safe]; [by intros [a|?] ? _|].
    intros s. apply quiet_return.
  - apply csafe_and_then. eapply csafe_mono; [|apply reads_safe]; [by intros [a|?] ? _|]. intros s. apply quiet_return.
Qed.
End programs.

#[global] Arguments csafe : simpl never.

(** ** Installations *)

(** A digest is spelled in lower-case hexadecimal. *)
Definition hex_digests (sha256_hex : string → string) : Prop :=
  ∀ s, str_forall (λ a, in_range 48 57 (char_code a) || in_range 97 102 (char_code a)) (sha256_hex s) = true.

Section installations.
Context (sha256_hex : string → string).

Notation wf := (wf sha256_hex).
Notation lease s k := (dget k (leases_of s)).

Definition cwatch (log : list custody_event) : cmon := fold_left (λ m ev, cupd m (ce_eff ev) (ce_ans ev)) log (CMon None []).

Lemma cwatch_snoc log e x : cwatch (log ++ [CEv e x]) = cupd (cwatch log) e x.
Proof. unfold cwatch. by rewrite fold_left_app. Qed.

Definition custodian (w : Installation) (t : nat) (th : Custodian) : Prop := in_custodians w !! t = Some th.

(** The operations of custodians that may grant a lease. *)
Definition grants_of (w : Installation) (op : string) : Prop := ∃ t th, custodian w t th ∧ granting (cu_call th) op.

(** No two of them share the name of their lease. *)
Definition collision_free (w : Installation) : Prop :=
  ∀ op op', grants_of w op → grants_of w op' → hash_suffix sha256_hex op = hash_suffix sha256_hex op' → op = op'.

(** Whatever the host sealed has bytes. *)
Definition sealed_event (ev : custody_event) : Prop :=
  match ev with CEv e x =>
    match e return custody_ans e → Prop with
    | KSeal _ _ => λ x, match x with Gave c => str_empty c = false | _ => True end
    | _ => λ _, True
    end x
  end.

Definition sealing (w : Installation) : Prop := ∀ t th ev, custodian w t th → ev ∈ cu_log th → sealed_event ev.

(** Leases are named after published operations that may grant one. *)
Definition named_leases (w : Installation) (s : StorageSnapshot) : Prop :=
  ∀ k l, lease s k = Some l → ∃ op, named sha256_hex op l ∧ op ∈ operations s ∧ grants_of w op.

Record installed (w : Installation) : Prop := Installed {
  iv_wf : wf (in_store w);
  iv_named : named_leases w (in_store w);
  iv_safe t th : custodian w t th → csafe sha256_hex (granting (cu_call th)) (cu_prog th) (cwatch (cu_log th)) (succeeded (cu_call th));
  iv_last t th s : custodian w t th → cm_last (cwatch (cu_log th)) = Some s →
    wf s ∧ named_leases w s ∧ s_revision s <= s_revision (in_store w) ∧ (s_revision s = s_revision (in_store w) → s = in_store w);
  iv_won t th op : custodian w t th → op ∈ cm_won (cwatch (cu_log th)) → op ∈ operations (in_store w);
  iv_once t t' th th' op : custodian w t th → custodian w t' th' → op ∈ cm_won (cwatch (cu_log th)) → op ∈ cm_won (cwatch (cu_log th')) → t = t'
}.

(** ** Names *)

Context (digests_are_hex : hex_digests sha256_hex).

Lemma str_forall_substring p n m s : str_forall p s = true → str_forall p (String.substring n m s) = true.
Proof.
  revert n m. induction s as [|a s IH]; intros [|n] [|m]; simpl; try done; rewrite ?andb_true_iff; intros [Ha Hs]; auto.
Qed.

Lemma graphic_stored s : s ≠ "" → str_forall graphic s = true → stored_text_ok s = true.
Proof.
  intros Hne H. unfold stored_text_ok. rewrite (graphic_stripped s H), andb_true_r. apply andb_true_iff. split; [by destruct s|].
  eapply str_forall_impl; [|exact H]. intros a. unfold graphic, in_range. rewrite andb_true_iff, !Nat.leb_le. lia.
Qed.

Lemma names_ok op : stored_text_ok (lease_name sha256_hex op) = true ∧ stored_text_ok (attachment_name sha256_hex op) = true.
Proof.
  assert (str_forall graphic (hash_suffix sha256_hex op) = true) as H.
  { apply str_forall_substring. eapply str_forall_impl; [|apply digests_are_hex]. intros a. unfold graphic, in_range.
    rewrite orb_true_iff, !andb_true_iff, !Nat.leb_le. lia. }
  split; (apply graphic_stored; [done|]); unfold lease_name, attachment_name; by rewrite str_forall_app, H, andb_true_r.
Qed.

(** ** Publishing *)

Lemma append_inj_r s t u : s +:+ t = s +:+ u → t = u.
Proof. induction s as [|a s IH]; simpl; [done|]. intros [= H]. auto. Qed.

Lemma named_unused w s op : wf s → collision_free w → named_leases w s → grants_of w op → op ∉ operations s → unused sha256_hex s op.
Proof.
  intros Hw Hc Hn Hg Hop k l Hl. destruct (Hn k l Hl) as (op' & [Hid Hat] & Hin & Hg').
  assert (hash_suffix sha256_hex op' ≠ hash_suffix sha256_hex op) as Hne by (intros He; apply (Hc op' op Hg' Hg) in He as ->; done).
  rewrite (lease_id _ _ _ _ Hw Hl) in Hid. unfold lease_name, attachment_name in *.
  split; [rewrite Hid|rewrite Hat]; intros He%append_inj_r; done.
Qed.

(** The audit's sequence is dense. *)
Definition audit_step (expected : Z) (r : AuditRecord) : result Z :=
  raise_if (negb (ar_sequence r =? expected)) (storage_error "custody operation records must have dense canonical sequences");;
  validate_record r;; Ok (expected + 1).

Lemma audit_steps_end l n m : foldM audit_step n l = Ok m → m = n + Z.of_nat (length l).
Proof.
  revert n. induction l as [|r l IH]; intros n; simpl; [intros [= <-]; lia|]. intros H. apply bind_Ok in H as (n' & Hn & H).
  unfold audit_step in Hn. inv_ok. rewrite (IH _ H). lia.
Qed.

Lemma validate_audit_Ok audit u : validate_audit audit = Ok u ↔ NoDup (ar_operation_id <$> audit) ∧ foldM audit_step 1 audit = Ok (1 + Z.of_nat (length audit)).
Proof.
  unfold validate_audit. change (λ expected r, _) with audit_step. rewrite bind_unit, unique_Ok. apply and_iff_compat_l. split.
  - intros H. apply bind_Ok in H as (m & Hm & _). by rewrite Hm, (audit_steps_end _ _ _ Hm).
  - by intros ->.
Qed.

Lemma validate_audit_snoc audit r : validate_audit audit = Ok tt → ar_operation_id r ∉ ar_operation_id <$> audit →
  ar_sequence r = Z.of_nat (length audit) + 1 → validate_record r = Ok tt → validate_audit (audit ++ [r]) = Ok tt.
Proof.
  rewrite !validate_audit_Ok. intros [Hn Hf] Hop Hs Hr. rewrite fmap_app, length_app. split.
  - apply NoDup_app. split_and!; [done| |apply NoDup_singleton]. by intros x Hx ->%list_elem_of_singleton.
  - rewrite (foldM_snoc _ _ _ _ _ Hf). unfold audit_step. rewrite Hr, (proj2 (Z.eqb_eq _ _)) by lia. simpl. f_equal. lia.
Qed.

Lemma opt_stored_ok x : opt_text_ok x → opt_stored_text x = Ok tt.
Proof. destruct x; simpl; [|done]. unfold stored_text. by intros ->. Qed.

Lemma record_ok n op event su d : stored_text_ok op = true → stored_text_ok event = true → subject_ok su → details_ok d →
  validate_record (MkAuditRecord n op event (su_connection_id su) (su_host_id su) (su_lease_id su) d) = Ok tt.
Proof.
  intros Ho He [Hc Hh Hl] [Hs Hd]. unfold validate_record, stored_text. simpl. rewrite Ho, He, !opt_stored_ok, <-Hs, Hd by done.
  by rewrite bool_decide_eq_true_2.
Qed.

(** The rows and the audit make the snapshot. *)
Lemma wf_extend s s' r : wf s → same_log s s' → wf s' → s_revision r = s_revision s + 1 → s_hosts r = s_hosts s' →
  s_connections r = s_connections s' → s_leases r = s_leases s' → (∃ x, s_audit r = s_audit s' ++ [x]) → validate_audit (s_audit r) = Ok tt → wf r.
Proof.
  intros Hw [Hr Ha] Hw' Hrev Hh Hc Hl [x Hx] Hv. pose proof (wf_revision _ _ Hw) as E. destruct r as [rev hs cs ls au]. simpl in *. subst hs cs ls.
  destruct Hw'. split; try done. simpl. rewrite Hx, length_app, Ha, Hrev. simpl. lia.
Qed.

Lemma same_rows_evolves s s' r : evolves s s' → s_hosts r = s_hosts s' → s_connections r = s_connections s' → s_leases r = s_leases s' → evolves s r.
Proof. destruct r. simpl. intros [] -> -> ->. by split. Qed.

(** A publication of a valid snapshot is valid, and extends its audit by its
    operation. *)
Record extends (w : Installation) (s : StorageSnapshot) (op : string) (r : StorageSnapshot) : Prop := Extends {
  ex_wf : wf r;
  ex_named : named_leases w r;
  ex_evolves : evolves s r;
  ex_revision : s_revision r = s_revision s + 1;
  ex_fresh : op ∉ operations s;
  ex_audit : ∃ x, s_audit r = s_audit s ++ [x] ∧ ar_operation_id x = op ∧
    (is_admission (ar_event_kind x) = true → ∃ f now, attachment_is_current s f now = true ∧
      ar_connection_id x = Some (af_connection_id f) ∧ ar_host_id x = Some (af_host_id f) ∧ ar_lease_id x = Some (af_lease_id f))
}.

Lemma published_extends w t th s op r : custodian w t th → collision_free w → wf s → named_leases w s →
  published sha256_hex (granting (cu_call th)) s op r → extends w s op r.
Proof.
  intros Ht Hc Hw Hn (T & c & event & su & d & Hch & Ho & Hop & He & Hsu & Had & Hd & ->).
  assert (granting (cu_call th) op → grants_of w op) as Hg by (intros Hg; by exists t, th).
  apply changed_sound in Hch as (Hw' & Hev & Hlog & Hin); [|done|by intros G; eapply named_unused; eauto|apply names_ok..].
  assert (s_audit (publication op event su s c d) = s_audit s ++ [MkAuditRecord (Z.of_nat (length (s_audit s)) + 1) op event
    (su_connection_id su) (su_host_id su) (su_lease_id su) d]) as Ha by (simpl; by rewrite (proj2 Hlog)).
  assert (operations (publication op event su s c d) = operations s ++ [op]) as Hops by (unfold operations; by rewrite Ha, fmap_app).
  split.
  - apply (wf_extend s (ch_snapshot c)); try done; [simpl; eauto|]. rewrite Ha. apply validate_audit_snoc; [apply Hw|done..|]. by apply record_ok.
  - intros k l Hl. rewrite Hops. destruct (Hin k l Hl) as [(l0 & Hl0 & Hf)|[Gr Hnm]].
    + destruct (Hn k l0 Hl0) as (op' & [Hid Hat] & Hin' & Hg'). exists op'. split_and!; [|set_solver|done].
      unfold fence_of in Hf. split; [rewrite <-Hid|rewrite <-Hat]; congruence.
    + exists op. split_and!; [done|set_solver|by apply Hg].
  - by apply (same_rows_evolves s (ch_snapshot c)).
  - done.
  - done.
  - eexists. split_and!; [exact Ha|done|]. intros (f & now & -> & Hcur)%Had. by exists f, now.
Qed.

(** ** Steps *)

(** What a step makes of the store. *)
Definition advances (w w' : Installation) : Prop :=
  in_store w' = in_store w ∨ ∃ op, extends w (in_store w) op (in_store w').

Lemma installed_begin k w : installed w → installed (MkInstallation (in_store w) (in_custodians w ++ [MkCustodian k [] (custody_program sha256_hex k)])).
Proof.
  intros [Hw Hn Hs Hl Hwon Honce]. set (w' := MkInstallation _ _).
  assert (∀ t th, custodian w' t th → custodian w t th ∨ th = MkCustodian k [] (custody_program sha256_hex k)) as Hold.
  { intros t th [H|[_ H]]%lookup_app_Some; [by left|right]. by apply list_lookup_singleton_Some in H as [_ <-]. }
  assert (named_leases w' (in_store w) ∧ ∀ s, named_leases w s → named_leases w' s) as [Hn0 Hn'].
  { assert (∀ s, named_leases w s → named_leases w' s) as H; [|by split; [apply H|]].
    intros s Hns k0 l Hk. destruct (Hns k0 l Hk) as (op & ? & ? & t & th & Ht & ?). exists op. split_and!; [done..|].
    exists t, th. split; [|done]. by apply lookup_app_l_Some. }
  split; simpl; try done.
  - intros t th [H| ->]%Hold; [by apply (Hs t)|]. apply operation_safe; [apply names_ok|done].
  - intros t th s [H| ->]%Hold Hlast; [|done]. destruct (Hl t th s H Hlast) as (? & ? & ?). split_and!; naive_solver.
  - intros t th op [H| ->]%Hold; [by apply (Hwon t)|]. intros []%elem_of_nil.
  - intros t t' th th' op [H| ->]%Hold; [|by intros _ []%elem_of_nil]. intros [H'| ->]%Hold; [|by intros _ []%elem_of_nil]. by apply Honce.
Qed.

(** A custodian has moved, and the store with it. *)
Definition moved (w : Installation) (t : nat) (th : Custodian) (e : custody_eff) (x : custody_ans e) (p : C custody_val) (store : StorageSnapshot) : Installation :=
  MkInstallation store (<[t := MkCustodian (cu_call th) (cu_log th ++ [CEv e x]) p]> (in_custodians w)).

Lemma moved_custodian w t th e x p store t' th' : custodian (moved w t th e x p store) t' th' →
  t' = t ∧ th' = MkCustodian (cu_call th) (cu_log th ++ [CEv e x]) p ∨ t' ≠ t ∧ custodian w t' th'.
Proof. unfold custodian, moved. simpl. intros [(-> & <- & _)|[? ?]]%list_lookup_insert_Some; auto. Qed.

Lemma moved_calls w t th e x p store : custodian w t th → ∀ t' th', custodian w t' th' →
  ∃ th'', custodian (moved w t th e x p store) t' th'' ∧ cu_call th'' = cu_call th'.
Proof.
  intros Ht t' th' Ht'. unfold custodian, moved in *. simpl. destruct (decide (t' = t)) as [->|Hne].
  - rewrite list_lookup_insert_eq by (by apply lookup_lt_Some in Ht). eexists. split; [done|]. simpl. congruence.
  - rewrite list_lookup_insert_ne by done. eauto.
Qed.

Lemma moved_named w t th e x p store s : custodian w t th → named_leases w s → named_leases (moved w t th e x p store) s.
Proof.
  intros Ht Hn k l Hk. destruct (Hn k l Hk) as (op & ? & ? & t' & th' & Ht' & ?). exists op. split_and!; [done..|].
  destruct (moved_calls w t th e x p store Ht t' th' Ht') as (th'' & ? & E). exists t', th''. split; [done|]. by rewrite E.
Qed.

(** What an effect's answer says of the store it leaves. *)
Definition answers (w : Installation) (t : nat) (m : cmon) (e : custody_eff) (x : custody_ans e) (store : StorageSnapshot) : Prop :=
  crely sha256_hex m e x ∧
  match e return custody_ans e → Prop with
  | SLoad => λ x, store = in_store w ∧ match x with Gave s => s = in_store w | _ => True end
  | SCas _ r => λ x, store = in_store w ∧ x ≠ Gave true ∨ store = r ∧ ∃ op, extends w (in_store w) op r
  | _ => λ _, store = in_store w
  end x.

Lemma host_answers w t th e k r x store : installed w → collision_free w → custodian w t th → cu_prog th = Act e k →
  host_performs sha256_hex e r (in_store w) = Some (x, store) → sealed_event (CEv e x) → answers w t (cwatch (cu_log th)) e x store.
Proof.
  intros [Hw Hn Hs Hl _ _] Hc Ht Hp He Hse. pose proof (Hs t th Ht) as Hsafe. rewrite Hp in Hsafe. destruct Hsafe as [Hal _].
  destruct e as [|expected rep| | | | | | | |]; try (destruct r; simpl in He; try done; injection He as <- <-; by repeat split).
  - destruct r as [|[]| | | | | |]; simpl in He; try done; injection He as <- <-; by split_and!.
  - split; [done|]. destruct Hal as (s & op & Hlast & -> & Hpub). destruct (Hl t th s Ht Hlast) as (Hws & Hns & Hle & Heq).
    pose proof (published_extends _ _ _ _ _ _ Ht Hc Hws Hns Hpub) as Hex.
    assert (compare_and_swap sha256_hex (s_revision s) rep (in_store w) =
      Ok (if s_revision (in_store w) =? s_revision s then (true, rep) else (false, in_store w))) as Hcas.
    { unfold compare_and_swap. rewrite (ex_revision _ _ _ _ Hex), Z.eqb_refl, (proj2 (validate_wf sha256_hex rep) (ex_wf _ _ _ _ Hex)). done. }
    simpl in He. rewrite Hcas in He. destruct (Z.eqb_spec (s_revision (in_store w)) (s_revision s)) as [E|E].
    + rewrite (Heq (eq_sym E)) in Hex. destruct r as [|[]| | | | | |]; try done; injection He as <- <-; first [by left|right; eauto].
    + destruct r as [|[]| | | | | |]; try done; injection He as <- <-; by left.
Qed.

Definition fresh_win (m : cmon) (e : custody_eff) (x : custody_ans e) (s store : StorageSnapshot) : Prop :=
  ∀ op, op ∈ cm_won (cupd m e x) → op ∈ cm_won m ∨ op ∈ operations store ∧ op ∉ operations s.

Lemma extends_operations w s op r : extends w s op r → operations r = operations s ++ [op].
Proof. intros [_ _ _ _ _ (y & Ha & <- & _)]. unfold operations. by rewrite Ha, fmap_app. Qed.

Lemma answers_fresh w t m e x store : answers w t m e x store → fresh_win m e x (in_store w) store.
Proof.
  intros [_ H] op Hop. destruct e; try (by left); [by left; destruct x|]. destruct x as [[]| | |]; try (by left). simpl in Hop.
  apply elem_of_app in Hop as [?|Hop]; [by left|right]. destruct H as [[_ []]|[-> (op' & Hex)]]; [done|].
  assert (op = op') as ->; [|rewrite (extends_operations _ _ _ _ Hex); split; [set_solver|apply Hex]].
  destruct (ex_audit _ _ _ _ Hex) as (y & Ha & <- & _). unfold newest in Hop. rewrite Ha, last_snoc in Hop. simpl in Hop. set_solver.
Qed.

Lemma answers_store w t m e x store : answers w t m e x store → store = in_store w ∨ ∃ op, extends w (in_store w) op store.
Proof.
  intros [_ H]. destruct e; try (left; exact H); [left; apply H|]. destruct H as [[-> _]|[-> H]]; [by left|by right].
Qed.

(** The snapshot a custodian knows after the answer. *)
Lemma answers_last w t m e x store s : answers w t m e x store → cm_last (cupd m e x) = Some s → cm_last m = Some s ∨ s = in_store w ∧ store = in_store w.
Proof.
  intros [_ H] Hs. destruct e; try (by left); [|destruct x as [[]| | |]; by left]. destruct x as [s'| | |]; try (by left).
  simpl in Hs. injection Hs as <-. destruct H as [-> ->]. by right.
Qed.

Lemma moved_installed w t th e f x store : installed w → custodian w t th → cu_prog th = Act e f →
  answers w t (cwatch (cu_log th)) e x store → installed (moved w t th e x (f x) store).
Proof.
  intros [Hw Hn Hs Hl Hwon Honce] Ht Hp Ha. pose proof (Hs t th Ht) as Hsafe. rewrite Hp in Hsafe. destruct Hsafe as [_ Hk].
  pose proof (answers_fresh _ _ _ _ _ _ Ha) as Hf. pose proof (answers_store _ _ _ _ _ _ Ha) as Hst.
  assert (∀ op, op ∈ operations (in_store w) → op ∈ operations store) as Hops.
  { intros op Hop. destruct Hst as [->|[op' Hex]]; [done|]. rewrite (extends_operations _ _ _ _ Hex). set_solver. }
  assert (∀ op, op ∈ cm_won (cwatch (cu_log th ++ [CEv e x])) → op ∈ cm_won (cwatch (cu_log th)) ∨ op ∈ operations store ∧ op ∉ operations (in_store w)) as Hf'.
  { intros op. rewrite cwatch_snoc. apply Hf. }
  split; simpl.
  - destruct Hst as [->|[op Hex]]; [done|apply Hex].
  - apply moved_named; [done|]. destruct Hst as [->|[op Hex]]; [done|apply Hex].
  - intros t' th' [[-> ->]|[_ H]]%moved_custodian; [|by apply (Hs t')]. simpl. rewrite cwatch_snoc. apply Hk, Ha.
  - intros t' th' s H Hlast.
    assert ((∃ t0 th0, custodian w t0 th0 ∧ cm_last (cwatch (cu_log th0)) = Some s) ∨ s = in_store w ∧ store = in_store w) as [(t0 & th0 & Ht0 & Hl0)|[-> ->]].
    { apply moved_custodian in H as [[-> ->]|[_ H]]; [|by left; eauto]. simpl in Hlast. rewrite cwatch_snoc in Hlast.
      apply (answers_last _ _ _ _ _ _ _ Ha) in Hlast as [?|?]; [by left; eauto|by right]. }
    + destruct (Hl t0 th0 s Ht0 Hl0) as (? & ? & Hle & Heq). split_and!; [done|by apply moved_named|..].
      * destruct Hst as [->|[op Hex]]; [done|]. rewrite (ex_revision _ _ _ _ Hex). lia.
      * destruct Hst as [->|[op Hex]]; [done|]. rewrite (ex_revision _ _ _ _ Hex). lia.
    + split_and!; [done|by apply moved_named|lia|done].
  - intros t' th' op [[-> ->]|[_ H]]%moved_custodian; simpl; [|intros Hop; eapply Hops, Hwon; eauto].
    intros [?|[? _]]%Hf'; [|done]. eapply Hops, Hwon; eauto.
  - intros t1 t2 th1 th2 op [[-> ->]|[N1 H1]]%moved_custodian [[-> ->]|[N2 H2]]%moved_custodian; simpl; try done.
    + intros [?|[_ Hno]]%Hf' Hop; [by eapply Honce|]. destruct Hno. by eapply Hwon.
    + intros Hop [?|[_ Hno]]%Hf'; [by eapply Honce|]. destruct Hno. by eapply Hwon.
    + by eapply Honce.
Qed.

(** A step's custodian, the others keeping their place. *)
Lemma step_calls m w w' : custody_step sha256_hex m w = Some w' → ∀ t th, custodian w t th →
  ∃ th', custodian w' t th' ∧ cu_call th' = cu_call th ∧ cu_log th `prefix_of` cu_log th'.
Proof.
  destruct m as [k|t r]; simpl.
  - intros [= <-] t th Ht. exists th. split; [by apply lookup_app_l_Some|done].
  - destruct (in_custodians w !! t) as [th|] eqn:Ht; [|done]. simpl. destruct (cu_prog th) as [|e f]; [done|].
    destruct (host_performs _ _ _ _) as [[x store]|]; [|done]. simpl. intros [= <-] t' th' Ht'. unfold custodian. simpl.
    destruct (decide (t' = t)) as [->|Hne].
    + rewrite list_lookup_insert_eq by (by apply lookup_lt_Some in Ht). eexists. split; [done|]. unfold custodian in Ht'. simplify_eq.
      split; [done|]. by apply prefix_app_r.
    + rewrite list_lookup_insert_ne by done. by exists th'.
Qed.

(** What every state of the run is told by its last. *)
Definition trusted (w : Installation) : Prop := sealing w ∧ collision_free w.

Lemma step_trusted m w w' : custody_step sha256_hex m w = Some w' → trusted w' → trusted w.
Proof.
  intros Hstep [Hse Hc]. pose proof (step_calls _ _ _ Hstep) as Hm. split.
  - intros t th ev Ht Hev. destruct (Hm t th Ht) as (th' & Ht' & _ & [l Hl]). apply (Hse t th' ev Ht'). rewrite Hl. set_solver.
  - intros op op' (t & th & Ht & Hg) (t' & th' & Ht' & Hg'). destruct (Hm t th Ht) as (u & Hu & E & _). destruct (Hm t' th' Ht') as (u' & Hu' & E' & _).
    apply Hc; [exists t, u|exists t', u']; (split; [done|]); congruence.
Qed.

Lemma step_installed m w w' : installed w → custody_step sha256_hex m w = Some w' → trusted w' → installed w' ∧ advances w w'.
Proof.
  intros Hi Hstep Hw'. pose proof (step_trusted _ _ _ Hstep Hw') as [_ Hc]. destruct m as [k|t r]; simpl in Hstep.
  - injection Hstep as <-. split; [by apply installed_begin|by left].
  - destruct (in_custodians w !! t) as [th|] eqn:Ht; [|done]. simpl in Hstep. destruct (cu_prog th) as [|e f] eqn:Hp; [done|].
    destruct (host_performs _ _ _ _) as [[x store]|] eqn:Hh; [|done]. simpl in Hstep. injection Hstep as <-.
    assert (answers w t (cwatch (cu_log th)) e x store) as Ha.
    { eapply host_answers; [done..|]. eapply (proj1 Hw' t); [unfold custodian; simpl; rewrite list_lookup_insert_eq by (by apply lookup_lt_Some in Ht); done|].
      simpl. set_solver. }
    split; [by apply (moved_installed w t th e f)|]. by apply answers_store in Ha.
Qed.

(** ** Runs *)

Lemma installed_new : installed installation_new.
Proof.
  split; simpl; try (by intros ? ? []%lookup_nil); try done.
  by apply validate_wf.
Qed.

Lemma advances_audit w w' : advances w w' → s_audit (in_store w) `prefix_of` s_audit (in_store w').
Proof. intros [->|[op [_ _ _ _ _ (y & -> & _)]]]; [done|by eexists]. Qed.

Lemma advances_evolves w w' : advances w w' → evolves (in_store w) (in_store w').
Proof. intros [->|[op Hex]]; [apply evolves_refl|apply Hex]. Qed.

(** A run, one step at a time from its start. *)
Lemma run_trusted ms w w' : custody_run sha256_hex ms w = Some w' → trusted w' → trusted w.
Proof.
  revert w. induction ms as [|m ms IH]; intros w; simpl; [by intros [= ->]|]. destruct (custody_step _ m w) as [w1|] eqn:E; [|done].
  simpl. intros H Ht. eapply step_trusted, IH; eauto.
Qed.

Lemma run_ind (P : Installation → Installation → Prop) : (∀ w, P w w) →
  (∀ w w1 w', installed w → installed w1 → advances w w1 → installed w' → P w1 w' → P w w') →
  ∀ ms w w', installed w → custody_run sha256_hex ms w = Some w' → trusted w' → installed w' ∧ P w w'.
Proof.
  intros Hr Hs ms. induction ms as [|m ms IH]; intros w w' Hi; simpl; [by intros [= ->]|]. destruct (custody_step _ m w) as [w1|] eqn:E; [|done].
  simpl. intros H Ht. destruct (step_installed m w w1 Hi E) as [Hi1 Ha]; [by eapply run_trusted|].
  destruct (IH w1 w' Hi1 H Ht) as [Hi' HP]. split; [done|]. by apply (Hs w w1 w').
Qed.

(** The audit only gains records at its end and the rows only move on. *)
Definition continues (s s' : StorageSnapshot) : Prop := s_audit s `prefix_of` s_audit s' ∧ evolves s s'.

Lemma run_continues ms w w' : installed w → custody_run sha256_hex ms w = Some w' → trusted w' → installed w' ∧ continues (in_store w) (in_store w').
Proof.
  apply (run_ind (λ w w', continues (in_store w) (in_store w'))); clear; [intros w; split; [done|apply evolves_refl]|].
  intros w w1 w' _ _ Ha _ [Hp He]. split; [etrans; [by apply advances_audit|done]|]. eapply evolves_trans; [by apply advances_evolves|done].
Qed.

Lemma run_installed ms w : custody_run sha256_hex ms installation_new = Some w → trusted w → installed w.
Proof. intros H Ht. by apply (run_continues ms installation_new w installed_new). Qed.

(** ** Fences *)

Lemma current_iff s f now : wf s → attachment_is_current s f now = true ↔
  ∃ l, lease s (af_lease_id f) = Some l ∧ sl_released l = false ∧ lease_matches l f = true ∧ now < sl_expires_at l.
Proof.
  intros Hw. unfold attachment_is_current. split.
  - destruct (lease s (af_lease_id f)) as [l|] eqn:E; [|done]. destruct (require_current_lease _ _ _ _) as [l'|] eqn:Hr; [|done].
    intros _. apply require_current_Ok in Hr as (Hl & ? & ? & _ & ? & _). exists l. split_and!; congruence.
  - intros (l & Hl & Hlive & Hm & Hnow). rewrite Hl. destruct (wf_authority _ _ Hw _ _ Hl) as (h & c & Hh & Hc & Hau).
    destruct (Hau Hlive) as (Ha & He & Hae & Hv & Hst & _). pose proof Hm as Hm'. apply lease_matches_iff in Hm' as [= Eat Ec Eh Ehe Eae Ebv].
    assert (require_current_lease s f now (sl_mode l) = Ok l) as ->.
    { apply require_current_Ok. split_and!; try done. exists h. by rewrite <-Eh, <-Ehe. }
    rewrite <-Ec, (proj2 (connection_row_Ok s _ c) Hc), Hm, bool_decide_eq_true_2 by done. simpl. by rewrite Hae, Hv, Eae, Ebv, !Z.eqb_refl.
Qed.

(** The fence's lease is released or another's, or an epoch or the version of
    its host or connection has moved on. *)
Definition fenced_off (s : StorageSnapshot) (f : AttachmentFence) : Prop :=
  (∃ l, lease s (af_lease_id f) = Some l ∧ (sl_released l = true ∨ lease_matches l f = false)) ∨
  (∃ c, dget (af_connection_id f) (connections_of s) = Some c ∧ (af_authority_epoch f < sc_authority_epoch c ∨ af_base_version f < sc_state_version c)) ∨
  (∃ h, dget (af_host_id f) (hosts_of s) = Some h ∧ af_host_epoch f < sh_epoch h).

Lemma fenced_off_stays s s' f : wf s → wf s' → evolves s s' → fenced_off s f → fenced_off s' f.
Proof.
  intros Hw Hw' [Hl Hc Hh] [(l & E & H)|[(c & E & H)|(h & E & H)]].
  - destruct (Hl _ _ E) as (l' & E' & Hf & _ & Hr). left. exists l'. split; [done|]. destruct H as [H|H]; [left|right].
    + by rewrite (Hr H).
    + rewrite <-H. unfold lease_matches, fence_of in *. by injection Hf as -> _ -> -> -> -> ->.
  - destruct (Hc _ _ E) as (c' & E' & ? & Hv). right. left. exists c'. split; [done|]. lia.
  - destruct (Hh _ _ E) as (h' & E' & ?). right. right. exists h'. split; [done|]. lia.
Qed.

Lemma fenced_off_not_current s f now : fenced_off s f → attachment_is_current s f now = false.
Proof.
  intros H. apply not_true_is_false. intros Hcur. unfold attachment_is_current in Hcur. destruct (lease s (af_lease_id f)) as [l|] eqn:El; [|done].
  destruct (require_current_lease _ _ _ _) as [l'|] eqn:Hr; [|done]. destruct (connection_row s _) as [c|] eqn:Hc; [|done].
  apply connection_row_Ok in Hc. apply require_current_Ok in Hr as (Hl & Hlive & _ & _ & Hm & h & Hh & _ & Hhe).
  rewrite !andb_true_iff, !Z.eqb_eq in Hcur. destruct Hcur as [[[_ _] Hae] Hv].
  destruct H as [(l0 & E & [H|H])|[(c0 & E & H)|(h0 & E & H)]]; [congruence|congruence| |]; simplify_eq; lia.
Qed.

(** Changes that take authority away, and whose. *)
Inductive withdrawal (s : StorageSnapshot) : (AttachmentFence → Prop) → StorageSnapshot → Prop :=
| wd_enroll host now c : enroll_change host now s = Ok c → withdrawal s (λ f, af_host_id f = host) (ch_snapshot c)
| wd_remove host now c : remove_change host now s = Ok c → withdrawal s (λ f, af_host_id f = host) (ch_snapshot c)
| wd_rotate connection current encrypted c : rotate_change sha256_hex connection current encrypted s = Ok c →
    withdrawal s (λ f, af_connection_id f = connection) (ch_snapshot c)
| wd_revoke connection c : revoke_change connection s = Ok c → withdrawal s (λ f, af_connection_id f = connection) (ch_snapshot c)
| wd_finish connection erased c : finish_change connection erased s = Ok c → withdrawal s (λ f, af_connection_id f = connection) (ch_snapshot c).

Lemma current_epochs s f now : wf s → attachment_is_current s f now = true →
  (∃ c, dget (af_connection_id f) (connections_of s) = Some c ∧ sc_authority_epoch c = af_authority_epoch f ∧ sc_state_version c = af_base_version f ∧
    sc_status c ∈ [READY; REFRESHING]) ∧
  ∃ h, dget (af_host_id f) (hosts_of s) = Some h ∧ sh_active h = true ∧ sh_epoch h = af_host_epoch f.
Proof.
  intros Hw (l & Hl & Hlive & Hm & _)%current_iff; [|done]. apply lease_matches_iff in Hm as [= Eat Ec Eh Ehe Eae Ebv].
  destruct (wf_authority _ _ Hw _ _ Hl) as (h & c & Hh & Hc & Hau). destruct (Hau Hlive) as (Ha & He & Hae & Hv & Hst & _).
  split; [exists c|exists h]; split_and!; congruence.
Qed.

Lemma release_leases_hosts s sel reason : s_hosts (release_leases s sel reason) = s_hosts s ∧ s_connections (release_leases s sel reason) = s_connections s.
Proof. by destruct sel. Qed.

Lemma settle_hosts s sel reason s' ambiguous : settle_released_refreshes (release_leases s sel reason) sel = Ok (s', ambiguous) → s_hosts s' = s_hosts s.
Proof.
  unfold settle_released_refreshes. intros H. apply bind_Ok in H as (s1 & H & Heq). injection Heq as <- _.
  rewrite <-(proj1 (release_leases_hosts s sel reason)). set (s0 := release_leases _ _ _) in *.
  refine (foldM_inv (λ x, s_hosts x = s_hosts s0) _ _ _ _ eq_refl _ H). intros x a x' _ Hx Hs. unfold settle_one in Hs.
  apply bind_Ok in Hs as (c & _ & Hs). injection Hs as <-. by case_bool_decide.
Qed.

Lemma reconcile_hosts s now s' ids ambiguous : reconcile_expired s now = Ok (s', ids, ambiguous) → hosts_of s' = hosts_of s.
Proof. unfold reconcile_expired, hosts_of. intros H. inv_change H. by rewrite (settle_hosts _ _ _ _ _ Hx). Qed.

Lemma rehosted_row s h sel reason s' ambiguous : NoDup (sh_id <$> s_hosts s) →
  settle_released_refreshes (release_leases (replace_hosts s (dset (sh_id h) h (hosts_of s))) sel reason) sel = Ok (s', ambiguous) →
  dget (sh_id h) (hosts_of s') = Some h.
Proof.
  intros Hn H. unfold hosts_of at 1. rewrite (settle_hosts _ _ _ _ _ H). simpl. rewrite index_rows, dget_dset by (by apply keyed_dset, index_keyed).
  by rewrite decide_True.
Qed.

Lemma replaced_row s sel reason c : wf s → dget (sc_id c) (connections_of (replace_connection (release_leases s sel reason) c)) = Some c.
Proof.
  intros Hw. rewrite replace_connection_lookup; [by rewrite decide_True|]. rewrite (proj2 (release_leases_hosts _ _ _)). apply Hw.
Qed.

(** The connection a withdrawal finds is the one the fence was current with. *)
Ltac same_connection H Hc := inv_change H; match goal with Hx : connection_row _ _ = Ok _ |- _ =>
  apply connection_row_Ok in Hx; rewrite Hc in Hx; injection Hx as <- end.

Lemma withdrawal_fences s P s' f now : wf s → withdrawal s P s' → P f → attachment_is_current s f now = true → fenced_off s' f.
Proof.
  intros Hw Hwd Hf Hcur. apply current_epochs in Hcur as [(c & Hc & Hae & Hv & _) (h & Hh & _ & Hhe)]; [|done].
  pose proof (conn_id _ _ _ _ Hw Hc) as Hci. pose proof (host_id_of _ _ _ _ Hw Hh) as Hhi.
  assert (∀ c', sc_id c' = sc_id c → af_authority_epoch f < sc_authority_epoch c' ∨ af_base_version f < sc_state_version c' →
    ∀ sel reason, fenced_off (replace_connection (release_leases s sel reason) c') f) as Hconn.
  { intros c' Hid Hlt sel reason. right. left. exists c'. split; [|done]. rewrite <-Hci, <-Hid. by apply replaced_row. }
  assert (∀ s1 h' sel reason s' amb, NoDup (sh_id <$> s_hosts s1) → sh_id h' = sh_id h → sh_epoch h < sh_epoch h' →
    settle_released_refreshes (release_leases (replace_hosts s1 (dset (sh_id h') h' (hosts_of s1))) sel reason) sel = Ok (s', amb) → fenced_off s' f) as Hhost.
  { intros s1 h' sel reason s2 amb Hn Hid Hlt H. right. right. exists h'. split; [|lia]. rewrite <-Hhi, <-Hid. by eapply rehosted_row. }
  destruct Hwd as [host now' ch H|host now' ch H|cn cur enc ch H|cn ch H|cn e ch H]; simpl in Hf; subst.
  - unfold enroll_change in H. inv_change H. pose proof (reconcile_hosts _ _ _ _ _ Hx) as Er. apply (reconcile_reconciled sha256_hex), rc_wf in Hx; [|done].
    eapply (Hhost s0 (MkStoredHost (af_host_id f) _ true)); [apply Hx|done| |exact Hx0]. simpl. rewrite Er, Hh. lia.
  - unfold remove_change in H. inv_change H. pose proof (reconcile_hosts _ _ _ _ _ Hx) as Er. apply (reconcile_reconciled sha256_hex), rc_wf in Hx; [|done].
    apply active_host_Ok in Hx0 as [Hh' _]. rewrite Er, Hh in Hh'. injection Hh' as <-. rewrite <-Hhi in Hx1.
    eapply (Hhost s0 (MkStoredHost (sh_id h) _ false)); [apply Hx|done| |exact Hx1]. simpl. lia.
  - unfold rotate_change in H. same_connection H Hc. apply raise_if_negb, same_generation_Some in Hx0 as (_ & ? & ?). apply Hconn; [done|]. simpl. lia.
  - unfold revoke_change in H. same_connection H Hc. apply Hconn; [done|]. simpl. lia.
  - unfold finish_change in H. same_connection H Hc. apply Hconn; [done|]. simpl. lia.
Qed.

(** No result or effect is admitted any more under a lease released already. *)
Definition admits_none (s s' : StorageSnapshot) : Prop :=
  ∀ k l r, lease s k = Some l → sl_released l = true → r ∈ s_audit s' → is_admission (ar_event_kind r) = true → ar_lease_id r = Some k → r ∈ s_audit s.

Lemma run_admits_none ms w w' : installed w → custody_run sha256_hex ms w = Some w' → trusted w' → admits_none (in_store w) (in_store w').
Proof.
  intros Hi Hr Ht. eapply (run_ind (λ w w', admits_none (in_store w) (in_store w'))); [| |exact Hi|exact Hr|exact Ht]; clear; [by intros w k l r|].
  intros w w1 w' Hi _ Ha _ IH k l r Hk Hrel Hin Had Hlr. destruct (advances_evolves _ _ Ha) as [Hl _ _]. destruct (Hl k l Hk) as (l' & Hk' & _ & _ & Hsame).
  rewrite (Hsame Hrel) in Hk'. specialize (IH k l r Hk' Hrel Hin Had Hlr). destruct Ha as [<-|[op Hex]]; [done|].
  destruct (ex_audit _ _ _ _ Hex) as (x & Hx & _ & Hadm). rewrite Hx in IH. apply elem_of_app in IH as [?| ->%list_elem_of_singleton]; [done|].
  destruct (Hadm Had) as (f & now & Hcur & _ & _ & Hf). apply current_iff in Hcur as (l0 & Hl0 & Hlive & _); [|apply Hi]. congruence.
Qed.
End installations.

(** ** What every run of an installation keeps *)

(** The custodian's call returned. *)
Definition returned (w : Installation) (t : nat) (op : string) : Prop :=
  ∃ th v, custodian w t th ∧ operation_of (cu_call th) = Some op ∧ cu_prog th = Ret (Value v).

(** C21: Provided sealing gives bytes, digests are hexadecimal and the
    identities of materializations have different digests: whatever else the
    hosts answer and however the custodians interleave, the store holds a snapshot its own validation accepts, no
    custodian is about to swap in one it would refuse, and from then on the audit
    of operations only gains records at its end while rows only move on: leases
    keep their fences and stay released, epochs and versions never go back, and a
    version determines its state. *)
Theorem custody_valid sha256_hex ms w : hex_digests sha256_hex → custody_run sha256_hex ms installation_new = Some w → trusted sha256_hex w →
  validate_snapshot sha256_hex (in_store w) = Ok (in_store w) ∧
  (∀ t th expected r k, custodian w t th → cu_prog th = Act (SCas expected r) k →
     ∃ done store, compare_and_swap sha256_hex expected r (in_store w) = Ok (done, store)) ∧
  ∀ ms' w', custody_run sha256_hex ms' w = Some w' → trusted sha256_hex w' → continues (in_store w) (in_store w').
Proof.
  intros Hd Hr Ht. pose proof (run_installed sha256_hex Hd ms w Hr Ht) as Hi. pose proof Hi as [Hw Hn Hs Hl _ _]. split_and!.
  - by apply validate_wf.
  - intros t th expected r k Hth Hp. pose proof (Hs t th Hth) as Hsafe. rewrite Hp in Hsafe. destruct Hsafe as [(s & op & Hlast & -> & Hpub) _].
    destruct (Hl t th s Hth Hlast) as (Hws & Hns & _).
    pose proof (published_extends sha256_hex Hd _ _ _ _ _ _ Hth (proj2 Ht) Hws Hns Hpub) as Hex. unfold compare_and_swap.
    rewrite (ex_revision _ _ _ _ _ Hex), Z.eqb_refl, (proj2 (validate_wf sha256_hex r) (ex_wf _ _ _ _ _ Hex)). simpl. by destruct (_ =? _); eauto.
  - intros ms' w' Hr' Ht'. by apply (run_continues sha256_hex Hd ms' w w' Hi).
Qed.

(** C20: Provided sealing gives bytes, digests are hexadecimal and the
    identities of materializations have different digests: of all the custodians
    of an installation, in whatever order and on whatever hosts, at most one ever returns from a call under an
    operation's identity; the operation is then in the audit, where it is once. *)
Theorem custody_once sha256_hex ms w : hex_digests sha256_hex → custody_run sha256_hex ms installation_new = Some w → trusted sha256_hex w →
  NoDup (operations (in_store w)) ∧
  ∀ t op, returned w t op → op ∈ operations (in_store w) ∧ ∀ t', returned w t' op → t' = t.
Proof.
  intros Hd Hr Ht. destruct (run_installed sha256_hex Hd ms w Hr Ht) as [Hw _ Hs _ Hwon Honce]. split.
  - by apply (validate_audit_Ok _ tt), Hw.
  - assert (∀ t op, returned w t op → ∃ th, custodian w t th ∧ op ∈ cm_won (cwatch (cu_log th))) as Hret.
    { intros t op (th & v & Hth & Hop & Hp). exists th. split; [done|]. pose proof (Hs t th Hth) as H. rewrite Hp in H. unfold csafe, succeeded in H. simpl in H. by rewrite Hop in H. }
    intros t op (th & Hth & Hop)%Hret. split; [by eapply Hwon|]. intros t' (th' & Hth' & Hop')%Hret. by eapply Honce.
Qed.

(** C19: Provided sealing gives bytes, digests are hexadecimal and the
    identities of materializations have different digests: in every store of an
    installation an attachment is current
    exactly while its lease is unreleased, its own and unexpired; enrolling its
    host anew or removing it, and rotating, revoking or erasing its connection,
    fence it off; whatever is fenced off stays so and is never current again, at
    any clock; and no result or effect is ever admitted under a released lease. *)
Theorem custody_fence sha256_hex ms w : hex_digests sha256_hex → custody_run sha256_hex ms installation_new = Some w → trusted sha256_hex w →
  (∀ f now, attachment_is_current (in_store w) f now = true ↔
     ∃ l, dget (af_lease_id f) (leases_of (in_store w)) = Some l ∧ sl_released l = false ∧ lease_matches l f = true ∧ now < sl_expires_at l) ∧
  (∀ P s f now, withdrawal sha256_hex (in_store w) P s → P f → attachment_is_current (in_store w) f now = true → fenced_off s f) ∧
  ∀ ms' w', custody_run sha256_hex ms' w = Some w' → trusted sha256_hex w' →
    (∀ f, fenced_off (in_store w) f → fenced_off (in_store w') f ∧ ∀ now, attachment_is_current (in_store w') f now = false) ∧
    admits_none (in_store w) (in_store w').
Proof.
  intros Hd Hr Ht. pose proof (run_installed sha256_hex Hd ms w Hr Ht) as Hi. pose proof (iv_wf _ _ Hi) as Hw. split_and!.
  - intros f now. by apply (current_iff sha256_hex).
  - intros P s f now Hwd Hf Hcur. by apply (withdrawal_fences sha256_hex (in_store w) P s f now).
  - intros ms' w' Hr' Ht'. split; [|by apply (run_admits_none sha256_hex Hd ms' w w')].
    destruct (run_continues sha256_hex Hd ms' w w' Hi Hr' Ht') as [Hi' [_ He]]. intros f Hf.
    assert (fenced_off (in_store w') f) as Hf' by (apply (fenced_off_stays sha256_hex (in_store w) (in_store w') f); [done|apply Hi'|done..]).
    split; [done|]. intros now. by apply fenced_off_not_current.
Qed.

(** ** A concrete installation *)

Definition hex_char (n : nat) : ascii := Ascii.ascii_of_nat (if (n <? 10)%nat then 48 + n else 87 + n).
Fixpoint hex_digest (s : string) : string :=
  match s with EmptyString => EmptyString | String a s => String (hex_char (char_code a / 16)) (String (hex_char (char_code a mod 16)) (hex_digest s)) end.

Lemma hex_digest_ok : hex_digests hex_digest.
Proof.
  intros s. induction s as [|a s IH]; [done|]. simpl. rewrite IH, andb_true_r. revert a.
  assert (∀ a, let p a := in_range 48 57 (char_code a) || in_range 97 102 (char_code a) in
    p (hex_char (char_code a / 16)) && p (hex_char (char_code a mod 16)) = true) as H; [|exact H].
  intros [[] [] [] [] [] [] [] []]; reflexivity.
Qed.

Definition sealedb (ev : custody_event) : bool :=
  match ev with CEv e x =>
    match e return custody_ans e → bool with
    | KSeal _ _ => λ x, match x with Gave c => negb (str_empty c) | _ => true end
    | _ => λ _, true
    end x
  end.

Definition grants_op (k : custody_call) : option string := match k with Materialize _ _ _ _ op => Some op | _ => None end.

Definition trustedb (w : Installation) : bool :=
  let ops := omap (λ th, grants_op (cu_call th)) (in_custodians w) in
  forallb (λ th, forallb sealedb (cu_log th)) (in_custodians w)
  && forallb (λ op, forallb (λ op', negb (String.eqb (hash_suffix hex_digest op) (hash_suffix hex_digest op')) || String.eqb op op') ops) ops.

Lemma trustedb_ok w : trustedb w = true → trusted hex_digest w.
Proof.
  unfold trustedb. rewrite andb_true_iff, !List.forallb_forall. setoid_rewrite List.forallb_forall. intros [Hs Hc]. split.
  - intros t th ev Ht Hev. assert (sealedb ev = true) as H.
    { apply (Hs th); apply list_elem_of_In; [by eapply list_elem_of_lookup_2|done]. }
    destruct ev as [e x]. destruct e; try done. simpl in *. destruct x; try done. by apply negb_true_iff.
  - assert (∀ op, grants_of w op → In op (omap (λ th, grants_op (cu_call th)) (in_custodians w))) as Hg.
    { intros op (t & th & Ht & Hgr). apply list_elem_of_In, list_elem_of_omap. exists th. split; [by eapply list_elem_of_lookup_2|].
      destruct (cu_call th); try done. simpl in *. by subst. }
    intros op op' H%Hg H'%Hg He. pose proof (Hc op H op' H') as Hor. rewrite He, String.eqb_refl in Hor. simpl in Hor. by apply String.eqb_eq.
Qed.

(** A host that answers everything. *)
Definition demo_reply (now : Z) (e : custody_eff) : HostReply :=
  match e with
  | SLoad | SCas _ _ | OErase => HDefault
  | CClock => HTime (Gave now)
  | KSeal _ p => HBytes (Gave ("sealed " +:+ p))
  | KOpen _ _ | FRead _ => HBytes (Gave "state")
  | KErase _ => HErased (Gave true)
  | FMaterialize _ _ => HDone (Gave tt)
  | FCleanup _ => HEvidence (Gave (MkCleanupEvidence true false 5 false))
  end.

(** A call is begun, or a custodian proceeds at most some times. *)
Inductive demo_order := DCall (k : Installation → custody_call) | DRun (now : Z) (t n : nat).

Fixpoint proceeds (now : Z) (n t : nat) (w : Installation) : list custody_move :=
  match n, prog ← cu_prog <$> in_custodians w !! t; Some prog with
  | S n, Some (Act e _) =>
      let m := Proceed t (demo_reply now e) in
      m :: match custody_step hex_digest m w with Some w => proceeds now n t w | None => [] end
  | _, _ => []
  end.

Fixpoint demo_script (l : list demo_order) (w : Installation) : list custody_move :=
  match l with
  | [] => []
  | o :: l =>
      let ms := match o with DCall k => [Begin (k w)] | DRun now t n => proceeds now n t w end in
      ms ++ match custody_run hex_digest ms w with Some w => demo_script l w | None => [] end
  end.

Definition demo_fence (w : Installation) : AttachmentFence :=
  match s_leases (in_store w) with l :: _ => fence_of l | [] => MkAttachmentFence "" "" "" "" 0 0 0 end.

(** Two custodians race to enroll a host under one identity; then a connection
    is authorized and materialized twice, and a result admitted. *)
Definition demo_orders : list demo_order :=
  [DCall (λ _, EnrollHost "host-1" "op-1"); DCall (λ _, EnrollHost "host-1" "op-1"); DRun 10 0 2; DRun 10 1 2; DRun 10 0 9; DRun 10 1 9;
   DCall (λ _, Authorize (MkConnectionIdentity "conn-1" "pi" "account" "default") (Some "secret") "op-2"); DRun 10 2 99;
   DCall (λ _, Materialize "conn-1" "host-1" LEASE_READ 50 "op-3"); DRun 10 3 99;
   DCall (λ _, Materialize "conn-1" "host-1" LEASE_READ 50 "op-4"); DRun 10 4 99;
   DCall (λ w, AdmitResult (demo_fence w) "op-5"); DRun 10 5 99].

Definition demo_moves : list custody_move := demo_script demo_orders installation_new.

(** The connection is revoked; another result is refused. *)
Definition demo_revoke (w : Installation) : list custody_move := demo_script [DCall (λ _, Revoke "conn-1" "op-6"); DRun 10 6 99] w.
Definition demo_refuse (w : Installation) : list custody_move := demo_script [DCall (λ w, AdmitResult (demo_fence w) "op-7"); DRun 10 7 99] w.

(** The three installations, if they pass a test. *)
Definition demo_passes (test : Installation → Installation → Installation → bool) : bool :=
  match custody_run hex_digest demo_moves installation_new with
  | Some w =>
      match custody_run hex_digest (demo_revoke w) w with
      | Some v =>
          match custody_run hex_digest (demo_refuse v) v with
          | Some u => trustedb w && trustedb v && trustedb u && test w v u
          | None => false
          end
      | None => false
      end
  | None => false
  end.

Record demo_run (test : Installation → Installation → Installation → bool) (w v u : Installation) : Prop := DemoRun {
  dm_first : custody_run hex_digest demo_moves installation_new = Some w;
  dm_revoked : custody_run hex_digest (demo_moves ++ demo_revoke w) installation_new = Some v;
  dm_revoke : custody_run hex_digest (demo_revoke w) w = Some v;
  dm_refuse : custody_run hex_digest (demo_refuse v) v = Some u;
  dm_trusted : trusted hex_digest w ∧ trusted hex_digest v ∧ trusted hex_digest u;
  dm_test : test w v u = true
}.

Lemma custody_run_app sha256_hex ms ms' w : custody_run sha256_hex (ms ++ ms') w = (w' ← custody_run sha256_hex ms w; custody_run sha256_hex ms' w').
Proof. revert w. induction ms as [|m ms IH]; intros w; simpl; [done|]. destruct (custody_step _ m w); simpl; auto. Qed.

Lemma demo_runs_to test : demo_passes test = true → ∃ w v u, demo_run test w v u.
Proof.
  unfold demo_passes. destruct (custody_run _ demo_moves _) as [w|] eqn:E1; [|discriminate].
  destruct (custody_run _ (demo_revoke w) w) as [v|] eqn:E2; [|discriminate].
  destruct (custody_run _ (demo_refuse v) v) as [u|] eqn:E3; [|discriminate]. rewrite !andb_true_iff. intros [[[Tw Tv] Tu] Ht].
  exists w, v, u. split; [exact E1| |exact E2|exact E3| |exact Ht].
  - rewrite custody_run_app, E1. exact E2.
  - split; [|split]; by apply trustedb_ok.
Qed.

Definition has_ops (w : Installation) (l : list string) : bool := bool_decide (operations (in_store w) = l).

Definition returnedb (w : Installation) (t : nat) (op : string) : bool :=
  match in_custodians w !! t with
  | Some th => bool_decide (operation_of (cu_call th) = Some op) && match cu_prog th with Ret (Value _) => true | _ => false end
  | None => false
  end.

Lemma returnedb_ok w t op : returnedb w t op = true → returned w t op.
Proof.
  unfold returnedb, returned, custodian. destruct (in_custodians w !! t) as [th|]; [|done]. rewrite andb_true_iff, bool_decide_eq_true.
  intros [Hop Hp]. destruct (cu_prog th) as [[v|]|] eqn:E; try done. by exists th, v.
Qed.

Definition first_ops : list string := ["op-1"; "op-2"; "op-3"; "op-4"; "op-5"].

Lemma custody_valid_witness : ∃ w v u, demo_run (λ w v u, has_ops w first_ops && has_ops u (first_ops ++ ["op-6"])) w v u ∧
  validate_snapshot hex_digest (in_store w) = Ok (in_store w) ∧ continues (in_store w) (in_store v).
Proof.
  destruct (demo_runs_to (λ w v u, has_ops w first_ops && has_ops u (first_ops ++ ["op-6"])) ltac:(vm_compute; reflexivity)) as (w & v & u & H).
  destruct (custody_valid _ _ _ hex_digest_ok (dm_first _ _ _ _ H) (proj1 (dm_trusted _ _ _ _ H))) as (Hv & _ & Hc).
  exists w, v, u. split; [exact H|]. split; [exact Hv|]. exact (Hc _ _ (dm_revoke _ _ _ _ H) (proj1 (proj2 (dm_trusted _ _ _ _ H)))).
Defined.

Lemma custody_once_witness : ∃ w v u, demo_run (λ w _ _, has_ops w first_ops && returnedb w 0 "op-1" && negb (returnedb w 1 "op-1")) w v u ∧
  returned w 0 "op-1" ∧ ∀ t, returned w t "op-1" → t = 0%nat.
Proof.
  destruct (demo_runs_to (λ w _ _, has_ops w first_ops && returnedb w 0 "op-1" && negb (returnedb w 1 "op-1")) ltac:(vm_compute; reflexivity)) as (w & v & u & H).
  pose proof (dm_test _ _ _ _ H) as Ht. rewrite !andb_true_iff in Ht. destruct Ht as [[_ Hr%returnedb_ok] _].
  exists w, v, u. split; [exact H|]. split; [exact Hr|].
  exact (proj2 (proj2 (custody_once _ _ _ hex_digest_ok (dm_first _ _ _ _ H) (proj1 (dm_trusted _ _ _ _ H))) 0%nat "op-1" Hr)).
Defined.

Definition demo_fences (w v u : Installation) : bool :=
  attachment_is_current (in_store w) (demo_fence w) 10
  && match dget (af_lease_id (demo_fence w)) (leases_of (in_store v)) with Some l => sl_released l | None => false end
  && negb (returnedb u 7 "op-7").

Lemma custody_fence_witness : ∃ w v u f, demo_run demo_fences w v u ∧ attachment_is_current (in_store w) f 10 = true ∧ fenced_off (in_store v) f ∧
  (∀ now, attachment_is_current (in_store u) f now = false) ∧ admits_none (in_store v) (in_store u).
Proof.
  destruct (demo_runs_to demo_fences ltac:(vm_compute; reflexivity)) as (w & v & u & H).
  pose proof (dm_test _ _ _ _ H) as Ht. unfold demo_fences in Ht. rewrite !andb_true_iff in Ht. destruct Ht as [[Hcur Hrel] _].
  assert (fenced_off (in_store v) (demo_fence w)) as Hf by (left; destruct (dget _ _) as [l|]; [exists l; auto|discriminate Hrel]).
  destruct (custody_fence _ _ _ hex_digest_ok (dm_revoked _ _ _ _ H) (proj1 (proj2 (dm_trusted _ _ _ _ H)))) as (_ & _ & Hlater).
  destruct (Hlater _ _ (dm_refuse _ _ _ _ H) (proj2 (proj2 (dm_trusted _ _ _ _ H)))) as [Hstay Hadm].
  exists w, v, u, (demo_fence w). split; [exact H|]. split; [exact Hcur|]. split; [exact Hf|]. split; [apply (proj2 (Hstay _ Hf))|exact Hadm].
Defined.

(** ** A retry that its own reconciliation refuses *)

(** A refresh under "op-5" finds one lease expired, which it reconciles under an
    identity of its own, and another active, so it is refused; retried when that
    one has expired too, it is refused again, since its reconciliation is
    published already. Under another identity it is granted. *)
Definition retry_orders : list demo_order :=
  [DCall (λ _, EnrollHost "host-1" "op-1"); DRun 10 0 99;
   DCall (λ _, Authorize (MkConnectionIdentity "conn-1" "pi" "account" "default") (Some "secret") "op-2"); DRun 10 1 99;
   DCall (λ _, Materialize "conn-1" "host-1" LEASE_READ 5 "op-3"); DRun 10 2 99;
   DCall (λ _, Materialize "conn-1" "host-1" LEASE_READ 20 "op-4"); DRun 10 3 99;
   DCall (λ _, Materialize "conn-1" "host-1" LEASE_REFRESH 5 "op-5"); DRun 20 4 99;
   DCall (λ _, Materialize "conn-1" "host-1" LEASE_REFRESH 5 "op-5"); DRun 40 5 99;
   DCall (λ _, Materialize "conn-1" "host-1" LEASE_REFRESH 5 "op-6"); DRun 40 6 99].

Definition refused_with (w : Installation) (t : nat) : option exn :=
  th ← in_custodians w !! t; match cu_prog th with Ret (Raises (AnException e)) => Some e | _ => None end.

Example retried_refresh_is_refused :
  (λ w, (refused_with w 4, refused_with w 5, returnedb w 6 "op-6", bool_decide ("op-5" ∈ operations (in_store w)))) <$>
    custody_run hex_digest (demo_script retry_orders installation_new) installation_new =
  Some (Some (custody_error "connection cannot grant refresh custody while materializations are active"),
    Some (custody_error "operation is already published; reconcile it through lookup_operation"), true, false).
Proof. vm_compute. reflexivity. Qed.
