(* ===== verification/Divergences.v ===== *)
(** * Where the code departs from what it says

    Concrete instances on which the code does not do what its own interfaces
    promise. *)

From stdpp Require Import base gmap sets list strings pretty.
From Stdlib Require Import Ascii ZArith Lia.
From S2P Require Import Prelude PyData Schema Marking Enabledness Firing Activity Records Replay Lifecycle.
From S2P Require Import Instance Construction Soundness Reachability Scenario.
From S2P Require Import Activity Dispatch LocalDispatch Custody LocalTheorems Codec HistoryStores StoreTheorems.
Open Scope string_scope.
Open Scope list_scope.

(** ** Construction accepts what resume refuses *)

(** An initial marking on a place the net does not declare. *)
Definition ghost_start : result Instance :=
  Instance_init no_cel demo_net [(["ghost"], [black])] demo_impl 0%Z (MkStore [] []) (Some "g") "fresh".

(** Construction succeeds, and resuming from the history it just wrote does
    not: the constructor checks token colors and skips undeclared places. *)
Example constructed_history_is_not_resumable :
  is_ok ghost_start = true ∧
  resume no_cel demo_net demo_impl (store (ok_or dummy ghost_start))
  = Err (ValueError "replay divergence: unknown place in the initial marking").
Proof. vm_compute. split; reflexivity. Qed.

(** ** Parallel consume arcs select one token twice *)

Definition one : Token := MkToken None (DInt 1).
Definition two : Token := MkToken None (DInt 2).

(** A join that takes two tokens from one place through two arcs. *)
Definition pair_net : Net :=
  ok_or empty_net (Net_init [MkPlace ["p"] None] [MkTransition ["t"] None [] []]
    [plain_arc ["p"] ["t"]; plain_arc ["p"] ["t"]] None None).

Definition pair_start : Instance :=
  ok_or dummy (Instance_init no_cel pair_net [(["p"], [one; two])]
    (MkImpl (λ bs, Ok (select_conservative bs)) [] [] [] []) 0%Z (MkStore [] []) (Some "pair") "fresh").

Definition pair_binding (t u : Token) : Binding := MkBinding ["t"] [(["p"], [t]); (["p"], [u])] [] [].

(** The offers of the two arcs are crossed without regard to each other: the
    candidates include the two bindings that take one token twice, the first
    of which comes first. Stepping with the conservative scheduler raises, for
    good, although the net holds the two tokens the transition needs and
    beginning another candidate succeeds. *)
Example parallel_arcs_block_the_conservative_step :
  instance_candidates pair_start
  = Ok [pair_binding one one; pair_binding one two; pair_binding two one; pair_binding two two] ∧
  (step None pair_start).1 = Err (ValueError "cannot begin firing: stale selection") ∧
  (step None (step None pair_start).2).1 = Err (ValueError "cannot begin firing: stale selection") ∧
  is_ok (begin (pair_binding one two) None pair_start).1 = true.
Proof. vm_compute. repeat split; reflexivity. Qed.

(** ** An activity failure commits in two batches *)

(** The demonstration net whose activity firing fails, with a store that
    accepts the next append and refuses the one after. *)
Definition fragile : Instance :=
  MkInstance (config demo_mid) (MkStore (history demo_mid) [None; Some (StoreError "disk full")]) (live demo_mid).

(** [fail] answers with the refusal and leaves the activity failure recorded
    without its firing failure. *)
Example activity_failure_lands_alone :
  let '(r, s') := fail demo_occurrence (inl "boom") (Some 30%Z) fragile in
  r = Err (StoreError "disk full") ∧
  history s' = history fragile ++ [ActivityFailed call "boom" "ActivityError" DNone false None 3%Z 30%Z] ∧
  dmem 3%Z (in_flight (live s')) = true.
Proof. vm_compute. repeat split; reflexivity. Qed.

(** ** A sweep forgets the retry floor a failure asked for *)

(** The call may be attempted twice with no backoff of its own; its first
    attempt fails at 2000 and asks for 30 seconds. *)
Definition eager_call : ActivityInvocation :=
  MkInvocation "charge" DNone (MkPolicy 2 30 (NInt 0) (NInt 2) (NInt 60) (NInt 0) None None) (Some "c") (Some "k").

Definition busy : ActivityFailure := MkFailure "later" "Unavailable" DNone true (Some (NInt 30)).

Definition eager_attempt : ActivityAttempt :=
  MkAttempt "one" 1 1 "w" "default" eager_call DNone (Some "one").

Definition floored : DB :=
  local_run demo_platform db_empty
    [(1000, ODispatch demo_session 1 eager_call); (1000, OClaim demo_worker); (2000, OFail eager_attempt (ErrFailure busy))]%Z.

(** The failure is recorded as available again at 32000, and the very
    next claim, one millisecond later, rewrites that to the policy's own backoff
    and hands the occurrence out. *)
Example retry_after_is_forgotten :
  (tk_available_at <$> dget ("one", 1%Z) (db_tasks floored)) = Some 32000%Z ∧
  (at_epoch <$> demo_attempt 2001 demo_rival floored) = Some 2%Z.
Proof. vm_compute. split; reflexivity. Qed.

(** ** A line that lost its newline *)

(** The store after the sample batch, whose last write lost only the final
    newline: what the next process finds and opens. *)
Definition unterminated : Jsonl.File :=
  Jsonl.cut_append Jsonl.empty_file (map encode_record sample_batch) 2 Jsonl.CutUnterminated.

Definition reopened : Jsonl.JsonlHistoryStore := Jsonl.MkJsonl unterminated sample_batch.

(** A file whose last line is whole but for its newline opens with every
    record; the next append then returns, and holds its record in memory, while
    on the disk it has joined two records on one line, and the file no longer
    opens. *)
Example unterminated_line_corrupts :
  Jsonl.Jsonl_open unterminated = Ok reopened ∧
  match Jsonl.Jsonl_append reopened (FiringBegun ["main"; "go"] 2%Z None 3%Z) with
  | Ok s => length (Jsonl.j_records s) = 4%nat ∧ is_ok (Jsonl.Jsonl_open (Jsonl.j_file s)) = false
  | Err _ => False
  end.
Proof. vm_compute. repeat split; reflexivity. Qed.
